(* ===== verification/_CoqProject ===== *)
-Q . S2P
Prelude.v
SysAbi.v
SyscallTable.v
Dispatcher.v
HostMemory.v
GuestMemory.v
GuestMemoryOps.v
GuestVmas.v
GuestMemoryInv.v
GuestMemoryHost.v
GuestMemorySteps.v
GuestMemoryAccess.v
GuestMemoryMmap.v
GuestMemoryFork.v
GuestMemorySystem.v
GuestMemoryTheorems.v
Bytes.v
SysCodec.v
SysCodecTheorems.v
ElfParser.v
ElfImage.v
ElfPlan.v
ElfLayout.v
ElfTheorems.v
ImageMemory.v
TaskTypes.v
TaskKernel.v
TaskWait.v
TaskSyscalls.v
TaskInv.v
TaskSteps.v
TaskReap.v
TaskSystem.v
TaskTheorems.v
VfsTypes.v
VfsPath.v
VfsFd.v
VfsCache.v
VfsSystem.v
VfsTree.v
VfsResolve.v
VfsFdOps.v
VfsFdWf.v
VfsOk.v
VfsLinks.v
VfsMoves.v
VfsSteps.v
VfsTheorems.v
NetTypes.v
NetTable.v
NetOps.v
NetSystem.v
NetDns.v
NetTheorems.v
JitRegisters.v
JitOperands.v
JitDecoder.v
JitExec.v
JitFlags.v
JitWords.v
JitMemory.v
JitBlocks.v
JitPatch.v
JitCodec.v
JitTheorems.v
RtSignals.v
RtAbi.v
RtFiles.v
RtFileCalls.v
RtEvents.v
RtNet.v
RtMemory.v
RtProcess.v
RtPoll.v
RtTasks.v
RtExec.v
RtIsolation.v
RtForkExec.v
RtMmap.v
RtTheorems.v
