(* ===== verification/Prelude.v ===== *)
(** * MCR: a verification library (root file)

    MCR runs Linux x86-64 programs on a Windows host without a virtual machine: it loads an
    ELF image into host memory, executes it and answers its system calls.  This
    library models the parts of it that decide what a guest sees, and proves what makes them
    correct.  File names below are those under src/crates/.

    ** How the program is put together, and where it is modelled

    A guest process is loaded by mcr-elf, runs in the address space of mcr-memory, and leaves
    for the runtime at every system call.  The dispatcher of mcr-sys reads the number and
    the arguments, finds the subsystem of the call (memory, task, file system, network, event,
    time) and encodes its answer; the task kernel of mcr-task keeps processes and threads,
    mcr-vfs the files and descriptors, mcr-net the sockets.  The runtime crate holds one of
    each, gives every process its own memory and descriptors, and answers the calls.

    - [Prelude]: the results of fallible code ([outcome]: [Ok], [Err] or a panic), the state
      monad [ST] in which an early return keeps the effects already done, its weakest
      preconditions [wp], and lemmas on maps, lists and sorted sets shared by all parts.
    - [SysAbi], [SyscallTable], [Dispatcher]: mcr-sys.  Return values, errnos and argument
      records (abi.rs, errno.rs, return_value.rs, memory.rs, task.rs); the numbering of the
      calls and the dispatch table with its index (syscall.rs, dispatcher.rs); dispatch with
      its fast path and its trace (dispatcher.rs, trace.rs).  The subsystem and tracer
      traits are type classes, against which dispatch is proved.  [SysCodec] and
      [SysCodecTheorems]: the codec of guest structures (codec.rs, net.rs) over the class
      [GuestMemoryAccess], of which the memory of mcr-memory is an instance.
    - [HostMemory], [GuestMemory*], [GuestVmas]: mcr-memory over the host blocks
      of mcr-win (memory.rs).  [HostMemory] is the heap of reference-counted host blocks,
      with VirtualAlloc and its relatives behind the class [HostOs] and their documented
      behaviour in [HostOsLaws]; [GuestMemory] the arithmetic of addresses (ranges.rs), and with
      [GuestMemoryOps] the areas, the allocations and the calls (lib.rs, syscalls.rs,
      intrinsics.rs).  [GuestMemoryInv] states the invariant and the abstract
      memory (a map from addresses to bytes with protections) that the calls refine;
      [GuestVmas], [GuestMemoryHost], [GuestMemorySteps], [GuestMemoryAccess],
      [GuestMemoryMmap], [GuestMemoryFork] prove it operation by operation;
      [GuestMemorySystem] composes the memories of several processes that share blocks;
      [GuestMemoryTheorems] states the properties.
    - [Bytes], [ElfParser], [ElfImage] and [ElfPlan], [ElfLayout], [ElfTheorems]: mcr-elf
      (parser.rs, plan.rs, stack.rs, auxv.rs, image.rs): validation of a file and its
      load plan, the initial stack, the memory image.  [ImageMemory]: the guest memory built
      from an image ([from_image] of mcr-memory).
    - [TaskTypes], [TaskKernel], [TaskWait], [TaskSyscalls] model mcr-task (kernel/*.rs and the
      data files); [TaskInv], [TaskSteps], [TaskReap] prove that every operation keeps the
      kernel's invariant; [TaskSystem] makes the kernel a transition system and
      [TaskTheorems] states the properties.
    - [VfsTypes], [VfsPath], [VfsFd], [VfsCache], [VfsSystem] model mcr-vfs (lib.rs, error.rs,
      path.rs; path.rs; fd.rs, node.rs, io_helpers.rs; cache.rs; filesystem.rs).  What the
      code shares through [Arc] (open file descriptions, pipes, event counters) lives in a
      heap, so that [dup] and fork alias.  [VfsTree] and [VfsResolve] treat the tree and
      resolution; [VfsFdOps] and [VfsFdWf] the descriptor table; [VfsOk] puts the invariants
      together, [VfsLinks] and [VfsMoves] prove that the calls keep them, [VfsSteps] is the
      step relation and [VfsTheorems] states the properties.
    - [NetTypes], [NetTable], [NetDns] model mcr-net (types.rs, options.rs, validation.rs,
      error.rs; table.rs and transport.rs; dns_cache.rs).  The host's sockets are the class
      [HostSockets].  [NetOps] and [NetSystem] prove the invariant of the table over every
      operation; [NetTheorems] states the properties.
    - [JitRegisters], [JitOperands], [JitDecoder], [JitExec], [JitPatch] model mcr-jit
      (registers.rs, operand_memory.rs, decoder.rs; simple_instruction.rs, execution.rs,
      trampoline.rs; native_patch.rs); the decoder of the iced-x86 crate is the class
      [X86Decoder].  [JitFlags], [JitWords], [JitMemory], [JitBlocks], [JitCodec] hold the
      lemmas on flags, words, the memory of operands, blocks and the patch cache's codec;
      [JitTheorems] states the properties.
    - mcr-runtime, over all of the above.  [RtSignals]: signal frames (signal_frame.rs).
      [RtAbi]: its own part of the ABI (linux_abi.rs, lib.rs).  [RtFiles], [RtFileCalls],
      [RtNet]: file and socket calls and the loading of programs (filesystem.rs).
      [RtEvents]: the futex and epoll registries (event_state.rs).  [RtMemory]: the guest
      memory behind these calls.  [RtProcess]: the memories and descriptor tables of the
      processes, of which one is selected, and pending children (subsystems/process.rs,
      mod.rs).  [RtPoll], [RtTasks], [RtExec]: the event, time and task calls
      (subsystems/event.rs, time.rs, task.rs).  [RtIsolation] proves what a call may do to
      other processes, [RtForkExec] what a fork and an execve do.  [RtMmap]: the memory calls
      and the mappings of files (subsystems/memory.rs), with what they read of ELF files
      (view.rs of mcr-elf, native_patch.rs) and what a mapping shows; the mapping of a host
      file is the class [HostMapping].  [RtTheorems] states the properties.

    ** What the theorems show

    - Guest memory: reads and writes are those of the abstract memory, for every interleaving
      of the processes that share its blocks; mmap, munmap, mprotect and fork have exactly
      their Linux effect on it.
    - Loading: an accepted load plan is sound, the image holds the bytes of the file with
      zeros behind them, its areas are disjoint, the initial stack is laid out as the ABI
      asks, within its bounds, and the guest memory built from an image shows exactly the
      image.
    - Tasks: every reachable kernel satisfies the invariant (the indexes are exactly the
      states, children and parents agree, ids are fresh); wait4, exit_group, fork, futex
      requeue and signal delivery do what they promise on every branch; a parent blocked in
      vfork or wait4 is resumed; no system call panics; a failing exec changes nothing.
    - Files: every reachable file system satisfies its invariant; resolution stays in the
      jail, terminates and inverts the printing of paths; the cache is transparent; a write
      reads back; a rename moves a subtree and nothing else; chunked listings are complete;
      the ends of pipes are counted across fork.
    - Sockets: every reachable table satisfies its invariant; a socket goes through its life
      cycle only; completions for a closed or reused handle are dropped; the name cache is
      a function of its history.
    - Execution: running whole blocks agrees with a machine that executes one instruction at
      a time; execution changes the memory of its own process only; the flags of a comparison
      decide the jumps; the patch cache decodes what it encoded.
    - The codec and signal frames: addresses, select sets and frames read back what was
      written; a handler returns to the interrupted registers.
    - The runtime: a system call of one process changes no byte and no descriptor of another
      ([calls_isolated]), selecting contexts is invisible, a fork gives the child what its
      parent had, an exec replaces the memory of its process by the image of the program, a
      mapping of a file shows the bytes of the file.
    - Dispatch does not depend on the tracer, and the descriptor index is the table.
    - Some theorems state what the code gets wrong: they are the findings of the manifest.

    ** Bounds and fuel

    Integers are [Z] with wrap-around or checked operations written out where the code has
    them.  Loops that are not structural take fuel.  The search for a free range and for a
    free descriptor get one step more than there are areas or descriptors, reads and writes a
    chunk per page, and lemmas show that this is enough.  The loop of mmap over host
    conflicts has the retry limit of the code; so have the control flow inside a block (256
    steps), strings and vectors of guest memory (4096 bytes and items), robust lists (2048
    entries) and interpreter scripts (4): there running out is the error of the code.  The
    decoding of a block takes its bytes as fuel, since every instruction has at least one.
    Reading a program takes [turns], one per read of the file; a theorem that uses it holds
    for every number of turns.  [walk] recurses on the symbolic links still allowed (40) and
    on the pending components, and needs none.

    ** Not modelled

    - Running out of host memory in [Vec] or [String], poisoned mutexes, and host errors'
      texts; trace events carry no decoded fields.
    - Pipes over a host pipe pair: a pipe is the in-memory one that the code uses when the
      host gives no pair.
    - The host worker pools, the Winsock transport of mcr-net and the Win32 bindings of
      mcr-win other than memory.rs: host I/O behind the classes above.
    - Of mcr-runtime, the loop that runs tasks on host threads (runtime.rs), the scanning and
      patching of native code (native_patch.rs, subsystems/patch_cache.rs; the symbols that
      a mapping registers are in [RtMmap]) and diagnostics.  The theorems on isolation are about
      the interpreted runtime, without MCR_UNSAFE_SHARE_UNTIL_EXEC.
    - Of mcr-jit, the files of the persistent patch cache and the texts of native faults.
    - mcr-snapshot, mcr-image, mcr-build, mcr-cli and mcr-testkit: host files, registries,
      archives and command lines around the runtime. *)

From stdpp Require Import base gmap list sorting strings.
From Stdlib Require Import ZArith Lia.
Open Scope Z_scope.

(** ** Results of fallible code

    A Rust computation either returns [Ok], returns [Err] or panics (a failed
    [expect], an index out of range).  Panics are values, so that panic freedom
    is a theorem and not a convention. *)
Inductive outcome (A E : Type) : Type :=
| Ok (a : A)
| Err (e : E)
| Panic.

Arguments Ok {A E} a.
Arguments Err {A E} e.
Arguments Panic {A E}.

Definition is_ok {A E} (o : outcome A E) : bool :=
  match o with Ok _ => true | _ => false end.

Definition obind {A B E} (o : outcome A E) (k : A → outcome B E) : outcome B E :=
  match o with
  | Ok a => k a
  | Err e => Err e
  | Panic => Panic
  end.

Definition ok_or {A E} (o : option A) (e : E) : outcome A E :=
  match o with Some a => Ok a | None => Err e end.

Definition expect {A E} (o : option A) : outcome A E :=
  match o with Some a => Ok a | None => Panic end.

Definition guard_ok {E} (b : bool) (e : E) : outcome unit E :=
  if b then Ok tt else Err e.

(** ** State passing with errors

    A method on [&mut self] that returns a [Result] is a function from the state
    to an outcome and a state: an early return keeps the effects already done. *)
Definition ST (S E A : Type) : Type := S → outcome A E * S.

Definition ret {S E A} (a : A) : ST S E A := λ s, (Ok a, s).

Definition bind {S E A B} (m : ST S E A) (k : A → ST S E B) : ST S E B :=
  λ s, match m s with
       | (Ok a, s') => k a s'
       | (Err e, s') => (Err e, s')
       | (Panic, s') => (Panic, s')
       end.

Definition lift {S E A} (o : outcome A E) : ST S E A := λ s, (o, s).
Definition throw {S E A} (e : E) : ST S E A := λ s, (Err e, s).
Definition gets {S E A} (f : S → A) : ST S E A := λ s, (Ok (f s), s).
Definition modify {S E} (f : S → S) : ST S E unit := λ s, (Ok tt, f s).

(** [on_err m c]: run the clean-up [c] when [m] returns an error (Rust's [Drop]
    on an early return), ignoring the clean-up's own errors. *)
Definition on_err {S E A B} (m : ST S E A) (c : ST S E B) : ST S E A :=
  λ s, match m s with
       | (Err e, s') =>
           match c s' with
           | (Panic, s'') => (Panic, s'')
           | (_, s'') => (Err e, s'')
           end
       | r => r
       end.

Declare Scope mcr_scope.
Delimit Scope mcr_scope with mcr.

Notation "'let*' x := m 'in' k" := (bind m (λ x, k))
  (at level 10, x pattern, m at level 100, k at level 200) : mcr_scope.
Notation "'do*' m ; k" := (bind m (λ _, k))
  (at level 10, m at level 100, k at level 200) : mcr_scope.
Notation "'let?' x := o 'in' k" := (obind o (λ x, k))
  (at level 10, x pattern, o at level 100, k at level 200) : mcr_scope.
Open Scope mcr_scope.

(** A [for] loop whose body may fail. *)
Fixpoint foreach {S E A} (l : list A) (f : A → ST S E unit) : ST S E unit :=
  match l with
  | [] => ret tt
  | x :: l => do* f x; foreach l f
  end.

(** A [collect::<Result<Vec<_>, _>>()]. *)
Fixpoint collect {A B E} (f : A → outcome B E) (l : list A) : outcome (list B) E :=
  match l with
  | [] => Ok []
  | x :: l => let? y := f x in let? ys := collect f l in Ok (y :: ys)
  end.

(** *** Weakest preconditions

    [wp m Q R s]: run from [s], [m] does not panic, ends in [Q] when it returns and
    in [R] when it fails. *)
Definition wp {S E A} (m : ST S E A) (Q : A → S → Prop) (R : E → S → Prop) (s : S) : Prop :=
  match m s with
  | (Ok a, s') => Q a s'
  | (Err e, s') => R e s'
  | (Panic, _) => False
  end.

(** A run that returned, taken apart. *)
Lemma bind_Ok_inv {T E A B} (m : ST T E A) (k : A → ST T E B) (t : T) x t' :
  (let* a := m in k a) t = (Ok x, t') → ∃ a t1, m t = (Ok a, t1) ∧ k a t1 = (Ok x, t').
Proof. unfold bind. destruct (m t) as [[a|e|] t1]; [|done|done]. eauto. Qed.

Lemma lift_Ok_inv {T E A} (o : outcome A E) (t : T) a t' : lift o t = (Ok a, t') → o = Ok a ∧ t' = t.
Proof. unfold lift. by intros [= -> ->]. Qed.

Section wp_rules.
Context {S E : Type}.
Implicit Types (R : E → S → Prop) (s : S).

Lemma wp_ret {A} (a : A) (Q : A → S → Prop) R s : Q a s → wp (ret a) Q R s.
Proof. done. Qed.

Lemma wp_throw {A} (e : E) (Q : A → S → Prop) R s : R e s → wp (throw e) Q R s.
Proof. done. Qed.

Lemma wp_gets {A} (f : S → A) (Q : A → S → Prop) R s : Q (f s) s → wp (gets f) Q R s.
Proof. done. Qed.

Lemma wp_modify (f : S → S) (Q : unit → S → Prop) R s : Q tt (f s) → wp (modify f) Q R s.
Proof. done. Qed.

Lemma wp_lift {A} (o : outcome A E) (Q : A → S → Prop) R s :
  (∀ a, o = Ok a → Q a s) → (∀ e, o = Err e → R e s) → o ≠ Panic → wp (lift o) Q R s.
Proof. unfold wp, lift. destruct o; auto. Qed.

Lemma wp_bind {A B} (m : ST S E A) (k : A → ST S E B) Q R s :
  wp m (λ a, wp (k a) Q R) R s → wp (bind m k) Q R s.
Proof. unfold wp, bind. by destruct (m s) as [[a|e|] s']. Qed.

Lemma wp_bind_inv {A B} (m : ST S E A) (k : A → ST S E B) Q R s :
  wp (bind m k) Q R s → wp m (λ a, wp (k a) Q R) R s.
Proof. unfold wp, bind. by destruct (m s) as [[a|e|] s']. Qed.

Lemma wp_mono {A} (m : ST S E A) Q Q' R R' s :
  wp m Q' R' s → (∀ a s', Q' a s' → Q a s') → (∀ e s', R' e s' → R e s') → wp m Q R s.
Proof. unfold wp. destruct (m s) as [[a|e|] s']; auto. Qed.

Lemma wp_and {A} (m : ST S E A) Q Q' R R' s :
  wp m Q R s → wp m Q' R' s → wp m (λ a s', Q a s' ∧ Q' a s') (λ e s', R e s' ∧ R' e s') s.
Proof. unfold wp. destruct (m s) as [[a|e|] s']; auto. Qed.

(** A [for] loop: an invariant over what is left to visit. *)
Lemma wp_foreach {A} (l : list A) (f : A → ST S E unit) (I : list A → S → Prop) R s :
  I l s →
  (∀ x l' s', I (x :: l') s' → wp (f x) (λ _, I l') R s') →
  wp (foreach l f) (λ _, I []) R s.
Proof.
  intros HI Hf. revert s HI. induction l as [|x l IH]; intros s HI; [done|].
  simpl. apply wp_bind. eapply wp_mono; [by apply Hf| |done]. simpl. auto.
Qed.

Lemma wp_on_err {A B} (m : ST S E A) (c : ST S E B) Q R s :
  wp m Q (λ e, wp c (λ _, R e) (λ _, R e)) s → wp (on_err m c) Q R s.
Proof.
  unfold wp, on_err. destruct (m s) as [[a|e|] s']; [done| |done].
  by destruct (c s') as [[] ?].
Qed.
End wp_rules.


(** ** Machine integers

    A [w]-bit word is the [Z] in [0, 2^w).  Operations that wrap are written with
    their wrap-around. *)
Definition U64_MAX : Z := 2 ^ 64 - 1.
Definition U32_MAX : Z := 2 ^ 32 - 1.
Definition I64_MAX : Z := 2 ^ 63 - 1.
Definition I32_MAX : Z := 2 ^ 31 - 1.

Definition is_u64 (z : Z) : Prop := 0 ≤ z < 2 ^ 64.
Definition is_u32 (z : Z) : Prop := 0 ≤ z < 2 ^ 32.

Definition wrap64 (z : Z) : Z := z mod 2 ^ 64.
Definition wrap32 (z : Z) : Z := z mod 2 ^ 32.
Definition wadd (a b : Z) : Z := wrap64 (a + b).
Definition wsub (a b : Z) : Z := wrap64 (a - b).

Definition checked_add64 (a b : Z) : option Z :=
  if a + b <=? U64_MAX then Some (a + b) else None.
Definition checked_sub64 (a b : Z) : option Z :=
  if b <=? a then Some (a - b) else None.
Definition saturating_add64 (a b : Z) : Z := Z.min (a + b) U64_MAX.
Definition checked_add32 (a b : Z) : option Z :=
  if a + b <=? U32_MAX then Some (a + b) else None.

(** Two's-complement reading of a word: [x as i64], [x as i32]. *)
Definition as_i64 (z : Z) : Z :=
  let w := wrap64 z in if w <=? I64_MAX then w else w - 2 ^ 64.
Definition as_i32 (z : Z) : Z :=
  let w := wrap32 z in if w <=? I32_MAX then w else w - 2 ^ 32.
Definition as_u64 (z : Z) : Z := wrap64 z.
Definition as_u32 (z : Z) : Z := wrap32 z.

(** [flags & mask != 0] *)
Definition has_bits (x mask : Z) : bool := negb (Z.land x mask =? 0).
(** [flags & !mask] *)
Definition without_bits (x mask : Z) : Z := Z.land x (Z.lnot mask).

(** ** Tactics *)

(** Case analysis on every integer comparison and boolean connective. *)
Ltac zcase1 :=
  match goal with
  | |- context [Z.ltb ?a ?b] => destruct (Z.ltb_spec a b)
  | |- context [Z.leb ?a ?b] => destruct (Z.leb_spec a b)
  | |- context [Z.eqb ?a ?b] => destruct (Z.eqb_spec a b)
  | H : context [Z.ltb ?a ?b] |- _ => destruct (Z.ltb_spec a b)
  | H : context [Z.leb ?a ?b] |- _ => destruct (Z.leb_spec a b)
  | H : context [Z.eqb ?a ?b] |- _ => destruct (Z.eqb_spec a b)
  end.
Ltac zcase := repeat (zcase1; simpl in *; try discriminate; try lia).

(** Symbolic execution of one primitive step of a [wp] goal. *)
Ltac wp_step :=
  match goal with
  | |- wp (bind _ _) _ _ _ => apply wp_bind
  | |- wp (ret _) _ _ _ => apply wp_ret
  | |- wp (throw _) _ _ _ => apply wp_throw
  | |- wp (gets _) _ _ _ => apply wp_gets
  | |- wp (modify _) _ _ _ => apply wp_modify
  end; cbv beta.
Ltac wp_steps := repeat wp_step.

(** Turn boolean facts into propositions. *)
Ltac bprop :=
  repeat match goal with
  | H : _ && _ = true |- _ => apply andb_true_iff in H as [? ?]
  | H : _ && _ = false |- _ => apply andb_false_iff in H as [?|?]
  | H : _ || _ = true |- _ => apply orb_true_iff in H as [?|?]
  | H : _ || _ = false |- _ => apply orb_false_iff in H as [? ?]
  | H : negb _ = true |- _ => apply negb_true_iff in H
  | H : negb _ = false |- _ => apply negb_false_iff in H
  | H : (_ <? _) = true |- _ => apply Z.ltb_lt in H
  | H : (_ <? _) = false |- _ => apply Z.ltb_ge in H
  | H : (_ <=? _) = true |- _ => apply Z.leb_le in H
  | H : (_ <=? _) = false |- _ => apply Z.leb_gt in H
  | H : (_ =? _) = true |- _ => apply Z.eqb_eq in H
  | H : (_ =? _) = false |- _ => apply Z.eqb_neq in H
  end.

Create HintDb mcr.

(** ** Arithmetic lemmas *)
Lemma wadd_exact a b : 0 ≤ a + b < 2 ^ 64 → wadd a b = a + b.
Proof. intros. by apply Z.mod_small. Qed.

Lemma wsub_exact a b : 0 ≤ b ≤ a → a < 2 ^ 64 → wsub a b = a - b.
Proof. intros. apply Z.mod_small. lia. Qed.

Lemma wrap64_bound z : 0 ≤ wrap64 z < 2 ^ 64.
Proof. apply Z.mod_pos_bound. lia. Qed.

Lemma checked_add64_Some a b c :
  checked_add64 a b = Some c ↔ c = a + b ∧ a + b < 2 ^ 64.
Proof. unfold checked_add64, U64_MAX. zcase; naive_solver lia. Qed.

Lemma checked_add64_fit a b : a + b < 2 ^ 64 → checked_add64 a b = Some (a + b).
Proof. intros. by apply checked_add64_Some. Qed.

Lemma checked_add64_None a b : checked_add64 a b = None ↔ 2 ^ 64 ≤ a + b.
Proof. unfold checked_add64, U64_MAX. zcase; naive_solver lia. Qed.

Lemma checked_sub64_Some a b c : checked_sub64 a b = Some c ↔ c = a - b ∧ b ≤ a.
Proof. unfold checked_sub64. zcase; naive_solver lia. Qed.

Lemma checked_sub64_fit a b : b ≤ a → checked_sub64 a b = Some (a - b).
Proof. intros. by apply checked_sub64_Some. Qed.

(** Clearing the low [n] bits rounds down to a multiple of [2^n]. *)
Lemma land_lnot_ones a n :
  0 ≤ n → Z.land a (Z.lnot (Z.ones n)) = a - a mod 2 ^ n.
Proof.
  intros Hn. rewrite <- Z.ldiff_land, Z.ldiff_ones_r by done.
  rewrite Z.shiftl_mul_pow2, Z.shiftr_div_pow2 by done.
  pose proof (Z.div_mod a (2 ^ n) ltac:(lia)). lia.
Qed.

Lemma has_bits_spec x mask : has_bits x mask = true ↔ Z.land x mask ≠ 0.
Proof. unfold has_bits. destruct (Z.eqb_spec (Z.land x mask) 0); naive_solver. Qed.

(** ** Ordered maps and sets

    A [BTreeMap<u64, V>] is a [gmap Z V]; what its ordered iteration gives is
    [bt_iter], the bindings by increasing key.  A [BTreeSet<u32>] is a [gset Z],
    iterated by [bs_iter]. *)
Definition key_le {V} (p q : Z * V) : Prop := p.1 ≤ q.1.

#[export] Instance key_le_dec {V} (p q : Z * V) : Decision (key_le p q).
Proof. unfold key_le. apply _. Defined.
#[export] Instance key_le_total {V} : Total (@key_le V).
Proof. intros [k ?] [k' ?]. unfold key_le; simpl. lia. Qed.
#[export] Instance key_le_trans {V} : Transitive (@key_le V).
Proof. intros [k ?] [k' ?] [k'' ?]. unfold key_le; simpl. lia. Qed.

Definition bt_iter {V} (m : gmap Z V) : list (Z * V) := merge_sort key_le (map_to_list m).
Definition bt_values {V} (m : gmap Z V) : list V := (bt_iter m).*2.
Definition bt_keys {V} (m : gmap Z V) : list Z := (bt_iter m).*1.
(** [map.range(..=a).next_back()] *)
Definition bt_last_le {V} (m : gmap Z V) (a : Z) : option (Z * V) :=
  last (filter (λ p, p.1 ≤ a) (bt_iter m)).
(** [map.range(a..b)], which panics when [b < a]. *)
Definition bt_range {V E} (m : gmap Z V) (a b : Z) : outcome (list (Z * V)) E :=
  if b <? a then Panic else Ok (filter (λ p, a ≤ p.1 ∧ p.1 < b) (bt_iter m)).
Definition bs_iter (s : gset Z) : list Z := merge_sort Z.le (elements s).

Section btree.
Context {V : Type}.
Implicit Types (m : gmap Z V) (l : list (Z * V)).

Lemma elem_of_bt_iter m k v : (k, v) ∈ bt_iter m ↔ m !! k = Some v.
Proof.
  unfold bt_iter. rewrite merge_sort_Permutation. apply elem_of_map_to_list.
Qed.

Lemma bt_iter_NoDup m : NoDup (bt_iter m).*1.
Proof. unfold bt_iter. rewrite merge_sort_Permutation. apply NoDup_fst_map_to_list. Qed.

Lemma bt_iter_sorted m : StronglySorted (λ p q : Z * V, p.1 < q.1) (bt_iter m).
Proof.
  pose proof (StronglySorted_merge_sort key_le (map_to_list m)) as Hs.
  pose proof (bt_iter_NoDup m) as Hnd. fold (bt_iter m) in Hs.
  induction Hs as [|[k v] l Hs IH Hall]; [constructor|].
  apply NoDup_cons in Hnd as [Hnin Hnd]. constructor; [by apply IH|].
  rewrite Forall_forall in Hall |- *. intros [k' v'] Hin.
  specialize (Hall _ Hin). unfold key_le in Hall; simpl in *.
  assert (k ≠ k') as Hne; [|lia]. intros <-. apply Hnin.
  apply list_elem_of_fmap. by exists (k, v').
Qed.

Lemma elem_of_bt_values m v : v ∈ bt_values m ↔ ∃ k, m !! k = Some v.
Proof.
  unfold bt_values. rewrite list_elem_of_fmap. split.
  - intros ([k v'] & -> & Hin). exists k. by apply elem_of_bt_iter.
  - intros (k & Hk). exists (k, v). by rewrite elem_of_bt_iter.
Qed.

Lemma elem_of_bt_keys m k : k ∈ bt_keys m ↔ is_Some (m !! k).
Proof.
  unfold bt_keys. rewrite list_elem_of_fmap. split.
  - intros ([k' v'] & -> & Hin). exists v'. by apply elem_of_bt_iter.
  - intros (v & Hk). exists (k, v). by rewrite elem_of_bt_iter.
Qed.

Lemma last_elem_of {A} (l : list A) x : last l = Some x → x ∈ l.
Proof. intros H%last_Some. destruct H as [l' ->]. set_solver. Qed.

Lemma bt_last_le_Some m a k v :
  bt_last_le m a = Some (k, v) ↔
  m !! k = Some v ∧ k ≤ a ∧ ∀ k', is_Some (m !! k') → k' ≤ a → k' ≤ k.
Proof.
  unfold bt_last_le.
  assert (Hs : StronglySorted (λ p q : Z * V, p.1 < q.1)
                 (filter (λ p, p.1 ≤ a) (bt_iter m))).
  { pose proof (bt_iter_sorted m) as Hs. induction Hs as [|p l Hs IH Hall]; simpl.
    - constructor.
    - rewrite filter_cons. case_decide; [|done]. constructor; [done|].
      rewrite Forall_forall in Hall |- *. intros q Hq. apply Hall. by apply list_elem_of_filter in Hq as [_ ?]. }
  assert (Hin : ∀ q, q ∈ filter (λ p, p.1 ≤ a) (bt_iter m) ↔ m !! q.1 = Some q.2 ∧ q.1 ≤ a).
  { intros [q1 q2]. rewrite list_elem_of_filter, elem_of_bt_iter. simpl. tauto. }
  assert (Hmax : ∀ p, last (filter (λ p, p.1 ≤ a) (bt_iter m)) = Some p →
            ∀ q, q ∈ filter (λ p, p.1 ≤ a) (bt_iter m) → q = p ∨ q.1 < p.1).
  { intros p [l' Hl]%last_Some q Hq. rewrite Hl in Hs, Hq.
    apply elem_of_app in Hq as [Hq|Hq%list_elem_of_singleton]; [|by left]. right. clear -Hs Hq.
    induction l' as [|x l' IH]; simpl in *; [set_solver|].
    inversion Hs as [|? ? Hs' Hall]; subst.
    apply elem_of_cons in Hq as [->|Hq]; [|by apply IH].
    rewrite Forall_forall in Hall. apply Hall. set_solver. }
  split.
  - intros Hl. pose proof (last_elem_of _ _ Hl) as Hp. apply Hin in Hp as [Hk Hle].
    simpl in *. split_and!; [done|done|]. intros k' [v' Hk'] Hle'.
    destruct (Hmax _ Hl (k', v')) as [[= -> ->]|]; simpl in *; [by apply Hin|lia|lia].
  - intros (Hk & Hle & Hbest).
    assert (Hp : (k, v) ∈ filter (λ p, p.1 ≤ a) (bt_iter m)) by (by apply Hin).
    destruct (last (filter (λ p, p.1 ≤ a) (bt_iter m))) as [[k' v']|] eqn:Hl.
    + pose proof (last_elem_of _ _ Hl) as Hp'. apply Hin in Hp' as [Hk' Hle']. simpl in *.
      destruct (Hmax _ eq_refl _ Hp) as [Heq|Hlt]; [by rewrite Heq|]. simpl in Hlt.
      assert (k' ≤ k) by (apply Hbest; eauto). lia.
    + apply last_None in Hl. rewrite Hl in Hp. set_solver.
Qed.

Lemma bt_last_le_None m a :
  bt_last_le m a = None ↔ ∀ k v, m !! k = Some v → a < k.
Proof.
  unfold bt_last_le. rewrite last_None. split.
  - intros Hnil k v Hk. destruct (decide (k ≤ a)); [|lia].
    assert ((k, v) ∈ filter (λ p, p.1 ≤ a) (bt_iter m)) as Hin.
    { rewrite list_elem_of_filter, elem_of_bt_iter. done. }
    rewrite Hnil in Hin. set_solver.
  - intros H. destruct (filter _ _) as [|[k v] l] eqn:Hf; [done|].
    assert ((k, v) ∈ filter (λ p, p.1 ≤ a) (bt_iter m)) as Hin by (rewrite Hf; set_solver).
    rewrite list_elem_of_filter, elem_of_bt_iter in Hin. simpl in Hin.
    destruct Hin as [? Hk]. specialize (H _ _ Hk). lia.
Qed.

Lemma elem_of_bt_range {E} m a b l k v :
  bt_range (E:=E) m a b = Ok l → (k, v) ∈ l ↔ m !! k = Some v ∧ a ≤ k < b.
Proof.
  unfold bt_range. destruct (b <? a); [done|]. intros [= <-].
  rewrite list_elem_of_filter, elem_of_bt_iter. simpl. tauto.
Qed.

Lemma bt_range_ok {E} m a b : a ≤ b → ∃ l, bt_range (E:=E) m a b = Ok l.
Proof. intros. unfold bt_range. destruct (Z.ltb_spec b a); [lia|eauto]. Qed.
End btree.

Lemma StronglySorted_filter {A} (R : A → A → Prop) (P : A → Prop) `{∀ x, Decision (P x)} l :
  StronglySorted R l → StronglySorted R (filter P l).
Proof.
  induction 1 as [|x l Hs IH Hall]; [constructor|]. rewrite filter_cons. case_decide; [|done].
  constructor; [done|]. rewrite Forall_forall in Hall |- *. intros y [_ Hy]%list_elem_of_filter. auto.
Qed.

Lemma list_filter_ext_in {A} (P Q : A → Prop) `{!∀ x, Decision (P x)} `{!∀ x, Decision (Q x)} (l : list A) :
  (∀ x, x ∈ l → P x ↔ Q x) → filter P l = filter Q l.
Proof.
  induction l as [|x l IH]; intros Hl; [done|]. rewrite !filter_cons, IH.
  - assert (P x ↔ Q x) by (apply Hl; by left). repeat case_decide; tauto.
  - intros y Hy. apply Hl. by right.
Qed.

(** A strictly sorted list is also sorted. *)
Lemma sorted_lt_le (l : list Z) : StronglySorted Z.lt l → StronglySorted Z.le l.
Proof.
  induction 1 as [|x l Hs IH Hall]; constructor; [done|]. eapply Forall_impl; [exact Hall|]. simpl. lia.
Qed.

Lemma elem_of_bs_iter s z : z ∈ bs_iter s ↔ z ∈ s.
Proof. unfold bs_iter. rewrite merge_sort_Permutation. apply elem_of_elements. Qed.

Lemma bs_iter_NoDup s : NoDup (bs_iter s).
Proof. unfold bs_iter. rewrite merge_sort_Permutation. apply NoDup_elements. Qed.

Lemma bs_iter_sorted s : StronglySorted Z.lt (bs_iter s).
Proof.
  pose proof (StronglySorted_merge_sort Z.le (elements s)) as Hs.
  pose proof (bs_iter_NoDup s) as Hnd. fold (bs_iter s) in Hs.
  induction Hs as [|k l Hs IH Hall]; [constructor|].
  apply NoDup_cons in Hnd as [Hnin Hnd]. constructor; [by apply IH|].
  rewrite Forall_forall in Hall |- *. intros k' Hin. specialize (Hall _ Hin).
  assert (k ≠ k') by (intros ->; done). lia.
Qed.

(** ** Byte ranges of a buffer

    [slice l a b] is [&l[a..b]], which panics out of range; [splice] overwrites a
    range in place. *)
Definition slice (l : list Z) (a b : Z) : option (list Z) :=
  if (0 <=? a) && (a <=? b) && (b <=? Z.of_nat (length l))
  then Some (take (Z.to_nat (b - a)) (drop (Z.to_nat a) l)) else None.

Definition splice (l : list Z) (off : Z) (bs : list Z) : list Z :=
  take (Z.to_nat off) l ++ bs ++ drop (Z.to_nat off + length bs) l.

(** The byte at an offset. *)
Definition byte_at (l : list Z) (off : Z) : option Z :=
  if off <? 0 then None else l !! Z.to_nat off.

Definition zlen {A} (l : list A) : Z := Z.of_nat (length l).

Lemma slice_length l a b bs : slice l a b = Some bs → zlen bs = b - a.
Proof.
  unfold slice, zlen. intros H. case_match; [|done]. bprop.
  injection H as <-. rewrite length_take, length_drop. lia.
Qed.

Lemma slice_Some l a b : 0 ≤ a ≤ b → b ≤ zlen l → is_Some (slice l a b).
Proof.
  unfold slice, zlen. intros. case_match; [eauto|]. bprop; lia.
Qed.

Lemma slice_byte l a b bs i :
  slice l a b = Some bs → 0 ≤ i < b - a → byte_at bs i = byte_at l (a + i).
Proof.
  unfold slice, byte_at. intros H Hi. case_match; [|done]. bprop. injection H as <-.
  destruct (Z.ltb_spec i 0); [lia|]. destruct (Z.ltb_spec (a + i) 0); [lia|].
  rewrite lookup_take_lt by lia. rewrite lookup_drop. f_equal. lia.
Qed.

Lemma length_splice l off bs :
  0 ≤ off → off + zlen bs ≤ zlen l → length (splice l off bs) = length l.
Proof.
  unfold splice, zlen. intros. rewrite !length_app, length_take, length_drop. lia.
Qed.

Lemma splice_byte l off bs i :
  0 ≤ off → off + zlen bs ≤ zlen l →
  byte_at (splice l off bs) i =
    if (off <=? i) && (i <? off + zlen bs) then byte_at bs (i - off) else byte_at l i.
Proof.
  unfold splice, byte_at, zlen. intros Hoff Hlen.
  destruct (Z.ltb_spec i 0), (Z.leb_spec off i), (Z.ltb_spec i (off + Z.of_nat (length bs)));
    simpl; try lia; try done.
  - destruct (Z.ltb_spec (i - off) 0); [lia|].
    rewrite lookup_app_r by (rewrite length_take; lia).
    rewrite length_take, lookup_app_l by lia. f_equal. lia.
  - rewrite lookup_app_r by (rewrite length_take; lia).
    rewrite length_take, lookup_app_r by lia. rewrite lookup_drop. f_equal. lia.
  - rewrite lookup_app_l by (rewrite length_take; lia).
    by rewrite lookup_take_lt by lia.
Qed.

Lemma byte_at_Some l i : 0 ≤ i < zlen l → is_Some (byte_at l i).
Proof.
  unfold byte_at, zlen. intros. destruct (Z.ltb_spec i 0); [lia|].
  apply lookup_lt_is_Some. lia.
Qed.

(** Buffers are equal when they agree at every offset. *)
Lemma bytes_ext l1 l2 :
  zlen l1 = zlen l2 → (∀ i, 0 ≤ i < zlen l1 → byte_at l1 i = byte_at l2 i) → l1 = l2.
Proof.
  unfold zlen, byte_at. intros Hlen H. apply list_eq. intros i.
  destruct (decide (i < length l1)%nat).
  - specialize (H (Z.of_nat i) ltac:(lia)). destruct (Z.ltb_spec (Z.of_nat i) 0); [lia|].
    by rewrite Nat2Z.id in H.
  - rewrite !lookup_ge_None_2 by lia. done.
Qed.

Lemma zlen_nonneg {A} (l : list A) : 0 ≤ zlen l.
Proof. unfold zlen. lia. Qed.

Lemma zlen_app {A} (l1 l2 : list A) : zlen (l1 ++ l2) = zlen l1 + zlen l2.
Proof. unfold zlen. rewrite length_app. lia. Qed.
