(* ===== verification/SysAbi.v ===== *)
(** * The Linux ABI values of mcr-sys

    Error numbers, syscall return values and their encoding in [rax], the decoded
    argument records of the memory and task system calls
    (crates/mcr-sys/src/errno.rs, return_value.rs, abi.rs, memory.rs, task.rs).

    A [SyscallOutcome] is kept without its [decoded] and [host_error] trace
    payloads: the dispatcher only hands those to the tracer. *)

From S2P Require Import Prelude.
From stdpp Require Import base gmap list sorting strings.
From Stdlib Require Import ZArith Lia.
Open Scope Z_scope.

(** ** Error numbers (errno.rs) *)
Definition LinuxErrno : Type := Z.
Definition LINUX_ERRNO_MAX : Z := 4095.

Definition EPERM : LinuxErrno := 1.
Definition ENOENT : LinuxErrno := 2.
Definition ESRCH : LinuxErrno := 3.
Definition EINTR : LinuxErrno := 4.
Definition EIO : LinuxErrno := 5.
Definition ENOEXEC : LinuxErrno := 8.
Definition EBADF : LinuxErrno := 9.
Definition ECHILD : LinuxErrno := 10.
Definition EAGAIN : LinuxErrno := 11.
Definition EWOULDBLOCK : LinuxErrno := 11.
Definition ENOMEM : LinuxErrno := 12.
Definition EACCES : LinuxErrno := 13.
Definition EFAULT : LinuxErrno := 14.
Definition EBUSY : LinuxErrno := 16.
Definition EEXIST : LinuxErrno := 17.
Definition ENOTDIR : LinuxErrno := 20.
Definition EISDIR : LinuxErrno := 21.
Definition EINVAL : LinuxErrno := 22.
Definition ENOTTY : LinuxErrno := 25.
Definition ENOSPC : LinuxErrno := 28.
Definition ESPIPE : LinuxErrno := 29.
Definition EPIPE : LinuxErrno := 32.
Definition ENAMETOOLONG : LinuxErrno := 36.
Definition ENOSYS : LinuxErrno := 38.
Definition ENOTEMPTY : LinuxErrno := 39.
Definition ELOOP : LinuxErrno := 40.
Definition ENOTSOCK : LinuxErrno := 88.
Definition ECONNRESET : LinuxErrno := 104.
Definition ETIMEDOUT : LinuxErrno := 110.
Definition ECONNREFUSED : LinuxErrno := 111.

Definition errno_new (raw : Z) : option LinuxErrno :=
  if (1 <=? raw) && (raw <=? LINUX_ERRNO_MAX) then Some raw else None.

(** The kinds of host failure (mcr-win error.rs). *)
Inductive HostErrorKind : Type :=
| HostAccessDenied | HostNotFound | HostAlreadyExists | HostInvalidInput
| HostInterrupted | HostTimedOut | HostWouldBlock | HostBrokenPipe
| HostOutOfMemory | HostUnsupported | HostPoisoned | HostUnavailable | HostOther.

#[export] Instance HostErrorKind_eq_dec : EqDecision HostErrorKind.
Proof. solve_decision. Defined.

(** The socket-side mapping of host failures to errno (errno.rs). *)
Definition host_error_errno (kind : HostErrorKind) : LinuxErrno :=
  match kind with
  | HostInvalidInput => EINVAL
  | HostInterrupted | HostWouldBlock => EWOULDBLOCK
  | HostTimedOut => ETIMEDOUT
  | HostBrokenPipe => EPIPE
  | HostUnsupported => ENOSYS
  | HostUnavailable => ECONNREFUSED
  | HostAccessDenied | HostNotFound | HostAlreadyExists | HostOutOfMemory
  | HostPoisoned | HostOther => ECONNRESET
  end.

(** ** Return values (return_value.rs) *)
Inductive SyscallReturn : Type :=
| Success (value : Z)
| Errno (errno : LinuxErrno).

#[export] Instance SyscallReturn_eq_dec : EqDecision SyscallReturn.
Proof. solve_decision. Defined.

Definition unsupported_return : SyscallReturn := Errno ENOSYS.

Definition encode_i64 (r : SyscallReturn) : Z :=
  match r with
  | Success value => as_i64 value
  | Errno errno => - errno
  end.

Definition encode_u64 (r : SyscallReturn) : Z := as_u64 (encode_i64 r).

Definition decode_rax (raw : Z) : SyscallReturn :=
  let signed := as_i64 raw in
  if (signed <? 0) && (- LINUX_ERRNO_MAX <=? signed) then
    match errno_new ((- signed) mod 2 ^ 16) with
    | Some errno => Errno errno
    | None => Success raw
    end
  else Success raw.

(** The values a return can hold: a [u64], or an errno in Linux's range. *)
Definition valid_return (r : SyscallReturn) : Prop :=
  match r with
  | Success value => is_u64 value
  | Errno errno => 1 ≤ errno ≤ LINUX_ERRNO_MAX
  end.

(** [Success] values that Linux user space cannot tell from an error. *)
Definition in_error_range (raw : Z) : Prop := 2 ^ 64 - LINUX_ERRNO_MAX ≤ raw < 2 ^ 64.

(** ** Outcomes (dispatcher.rs) *)
Record SyscallOutcome : Type := {
  so_result : SyscallReturn;
  so_unsupported : bool;
}.

Definition outcome_success (value : Z) : SyscallOutcome :=
  {| so_result := Success value; so_unsupported := false |}.
Definition outcome_errno (errno : LinuxErrno) : SyscallOutcome :=
  {| so_result := Errno errno; so_unsupported := false |}.
Definition outcome_unsupported : SyscallOutcome :=
  {| so_result := unsupported_return; so_unsupported := true |}.

(** ** Argument registers (abi.rs) *)
Record SyscallArgs : Type := {
  arg0 : Z; arg1 : Z; arg2 : Z; arg3 : Z; arg4 : Z; arg5 : Z;
}.

Definition args_get (args : SyscallArgs) (index : Z) : option Z :=
  match index with
  | 0 => Some (arg0 args) | 1 => Some (arg1 args) | 2 => Some (arg2 args)
  | 3 => Some (arg3 args) | 4 => Some (arg4 args) | 5 => Some (arg5 args)
  | _ => None
  end.

(** [args.get(i).unwrap_or_default()] *)
Definition arg (args : SyscallArgs) (index : Z) : Z := default 0 (args_get args index).

Record SyscallRegisters : Type := {
  sr_rax : Z; sr_rdi : Z; sr_rsi : Z; sr_rdx : Z; sr_r10 : Z; sr_r8 : Z; sr_r9 : Z; sr_rip : Z;
}.

Definition registers_args (r : SyscallRegisters) : SyscallArgs :=
  {| arg0 := sr_rdi r; arg1 := sr_rsi r; arg2 := sr_rdx r;
     arg3 := sr_r10 r; arg4 := sr_r8 r; arg5 := sr_r9 r |}.

(** ** Memory system calls (memory.rs) *)
Definition LINUX_PROT_READ : Z := 0x1.
Definition LINUX_PROT_WRITE : Z := 0x2.
Definition LINUX_PROT_EXEC : Z := 0x4.
Definition LINUX_PROT_VALID_MASK : Z :=
  Z.lor LINUX_PROT_READ (Z.lor LINUX_PROT_WRITE LINUX_PROT_EXEC).

Definition LINUX_MAP_SHARED : Z := 0x01.
Definition LINUX_MAP_PRIVATE : Z := 0x02.
Definition LINUX_MAP_FIXED : Z := 0x10.
Definition LINUX_MAP_ANONYMOUS : Z := 0x20.
Definition LINUX_MAP_HUGETLB : Z := 0x40000.
Definition LINUX_MAP_SYNC : Z := 0x80000.
Definition LINUX_MAP_FIXED_NOREPLACE : Z := 0x100000.
Definition LINUX_MAP_TYPE_MASK : Z := Z.lor LINUX_MAP_SHARED LINUX_MAP_PRIVATE.
Definition LINUX_MAP_VALID_MASK : Z :=
  fold_right Z.lor 0
    [LINUX_MAP_SHARED; LINUX_MAP_PRIVATE; LINUX_MAP_FIXED; LINUX_MAP_ANONYMOUS;
     0x40 (* 32BIT *); 0x0100 (* GROWSDOWN *); 0x0800 (* DENYWRITE *);
     0x1000 (* EXECUTABLE *); 0x2000 (* LOCKED *); 0x4000 (* NORESERVE *);
     0x8000 (* POPULATE *); 0x10000 (* NONBLOCK *); 0x20000 (* STACK *);
     LINUX_MAP_HUGETLB; LINUX_MAP_SYNC; LINUX_MAP_FIXED_NOREPLACE].

Record MmapSyscallArgs : Type := {
  mm_addr : Z; mm_length : Z; mm_prot : Z; mm_flags : Z; mm_fd : Z; mm_offset : Z;
}.

Definition mmap_from_args (args : SyscallArgs) : MmapSyscallArgs :=
  {| mm_addr := arg args 0; mm_length := arg args 1;
     mm_prot := as_u32 (arg args 2); mm_flags := as_u32 (arg args 3);
     mm_fd := as_i32 (as_i64 (arg args 4)); mm_offset := as_i64 (arg args 5) |}.

Definition is_anonymous (a : MmapSyscallArgs) : bool := has_bits (mm_flags a) LINUX_MAP_ANONYMOUS.
Definition is_fixed (a : MmapSyscallArgs) : bool := has_bits (mm_flags a) LINUX_MAP_FIXED.
Definition is_fixed_noreplace (a : MmapSyscallArgs) : bool :=
  has_bits (mm_flags a) LINUX_MAP_FIXED_NOREPLACE.

Record MprotectSyscallArgs : Type := { mp_addr : Z; mp_length : Z; mp_prot : Z }.
Definition mprotect_from_args (args : SyscallArgs) : MprotectSyscallArgs :=
  {| mp_addr := arg args 0; mp_length := arg args 1; mp_prot := as_u32 (arg args 2) |}.

Record MunmapSyscallArgs : Type := { mu_addr : Z; mu_length : Z }.
Definition munmap_from_args (args : SyscallArgs) : MunmapSyscallArgs :=
  {| mu_addr := arg args 0; mu_length := arg args 1 |}.

Record BrkSyscallArgs : Type := { brk_addr : Z }.
Definition brk_from_args (args : SyscallArgs) : BrkSyscallArgs := {| brk_addr := arg args 0 |}.

(** ** Task system calls (task.rs) *)
Definition LINUX_SIGCHLD : Z := 17.
Definition LINUX_KERNEL_SIGSET_SIZE : Z := 8.
Definition LINUX_SIG_BLOCK : Z := 0.
Definition LINUX_SIG_UNBLOCK : Z := 1.
Definition LINUX_SIG_SETMASK : Z := 2.
Definition LINUX_CLONE_VM : Z := 0x00000100.
Definition LINUX_CLONE_FS : Z := 0x00000200.
Definition LINUX_CLONE_FILES : Z := 0x00000400.
Definition LINUX_CLONE_SIGHAND : Z := 0x00000800.
Definition LINUX_CLONE_VFORK : Z := 0x00004000.
Definition LINUX_CLONE_THREAD : Z := 0x00010000.
Definition LINUX_CLONE_SYSVSEM : Z := 0x00040000.
Definition LINUX_CLONE_SETTLS : Z := 0x00080000.
Definition LINUX_CLONE_PARENT_SETTID : Z := 0x00100000.
Definition LINUX_CLONE_CHILD_CLEARTID : Z := 0x00200000.
Definition LINUX_CLONE_DETACHED : Z := 0x00400000.
Definition LINUX_CLONE_CHILD_SETTID : Z := 0x01000000.
Definition LINUX_CLONE_EXIT_SIGNAL_MASK : Z := 0x000000ff.
Definition LINUX_ROBUST_LIST_HEAD_SIZE : Z := 24.
Definition LINUX_WNOHANG : Z := 1.
Definition LINUX_WAIT_SUPPORTED_OPTIONS : Z := LINUX_WNOHANG.

Record CloneSyscallArgs : Type := {
  cl_flags : Z; cl_child_stack : Z; cl_parent_tid : Z; cl_child_tid : Z; cl_tls : Z;
}.
Definition has_clone_vfork (a : CloneSyscallArgs) : bool := has_bits (cl_flags a) LINUX_CLONE_VFORK.
Definition has_clone_thread (a : CloneSyscallArgs) : bool := has_bits (cl_flags a) LINUX_CLONE_THREAD.
Definition has_clone_settls (a : CloneSyscallArgs) : bool := has_bits (cl_flags a) LINUX_CLONE_SETTLS.
Definition has_clone_child_cleartid (a : CloneSyscallArgs) : bool :=
  has_bits (cl_flags a) LINUX_CLONE_CHILD_CLEARTID.

Record RtSigactionSyscallArgs : Type := { sa_sig : Z; sa_act : Z; sa_oldact : Z; sa_sigsetsize : Z }.
Record RtSigprocmaskSyscallArgs : Type := { sp_how : Z; sp_set : Z; sp_oldset : Z; sp_sigsetsize : Z }.
Definition supported_how (how : Z) : bool :=
  (how =? LINUX_SIG_BLOCK) || (how =? LINUX_SIG_UNBLOCK) || (how =? LINUX_SIG_SETMASK).

Record KillSyscallArgs : Type := { kill_pid : Z; kill_sig : Z }.
Record TgkillSyscallArgs : Type := { tgkill_tgid : Z; tgkill_tid : Z; tgkill_sig : Z }.
Record TkillSyscallArgs : Type := { tkill_tid : Z; tkill_sig : Z }.
Record SetTidAddressSyscallArgs : Type := { sta_tidptr : Z }.
Record SetRobustListSyscallArgs : Type := { srl_head : Z; srl_len : Z }.

Record Wait4SyscallArgs : Type := { w4_pid : Z; w4_wstatus : Z; w4_options : Z; w4_rusage : Z }.
#[export] Instance Wait4SyscallArgs_eq_dec : EqDecision Wait4SyscallArgs.
Proof. solve_decision. Defined.
Definition no_hang (a : Wait4SyscallArgs) : bool := has_bits (w4_options a) LINUX_WNOHANG.
Definition has_unsupported_options (a : Wait4SyscallArgs) : bool :=
  negb (without_bits (w4_options a) LINUX_WAIT_SUPPORTED_OPTIONS =? 0).

(** ** Properties *)

Lemma as_i64_small z : 0 ≤ z ≤ I64_MAX → as_i64 z = z.
Proof.
  unfold as_i64, wrap64, I64_MAX. intros. rewrite Z.mod_small by lia.
  destruct (Z.leb_spec z (2 ^ 63 - 1)); lia.
Qed.

Lemma as_u64_i64 z : is_u64 z → as_u64 (as_i64 z) = z.
Proof.
  unfold is_u64, as_u64, as_i64, wrap64, I64_MAX. intros. rewrite (Z.mod_small z) by lia.
  destruct (Z.leb_spec z (2 ^ 63 - 1)).
  - by rewrite Z.mod_small by lia.
  - rewrite <- (Z.mod_add _ 1) by lia. rewrite Z.mod_small by lia. lia.
Qed.

Lemma encode_errno e : 1 ≤ e ≤ LINUX_ERRNO_MAX → encode_u64 (Errno e) = 2 ^ 64 - e.
Proof.
  unfold LINUX_ERRNO_MAX, encode_u64, as_u64, wrap64; simpl. intros.
  rewrite <- (Z.mod_add _ 1) by lia. rewrite Z.mod_small by lia. lia.
Qed.

(** [decode_rax] inverts [encode_u64]: every errno, and every success value outside the
    4095 values Linux reserves for errors, comes back from [rax] unchanged. *)
Theorem decode_encode_return (r : SyscallReturn) :
  valid_return r →
  (match r with Success v => ¬ in_error_range v | Errno _ => True end) →
  decode_rax (encode_u64 r) = r.
Proof.
  destruct r as [v|e]; intros Hv Hr.
  - unfold encode_u64. simpl. rewrite as_u64_i64 by done. unfold decode_rax.
    unfold in_error_range, LINUX_ERRNO_MAX in *. cbn [valid_return] in Hv. unfold is_u64 in Hv.
    case_match eqn:Hc; [|done]. bprop. exfalso. revert H H0.
    unfold as_i64, wrap64, I64_MAX. rewrite Z.mod_small by lia.
    destruct (Z.leb_spec v (2 ^ 63 - 1)); lia.
  - rewrite encode_errno by done. cbn [valid_return] in Hv. unfold decode_rax, LINUX_ERRNO_MAX in *.
    assert (as_i64 (2 ^ 64 - e) = - e) as ->.
    { unfold as_i64, wrap64, I64_MAX. rewrite Z.mod_small by lia.
      destruct (Z.leb_spec (2 ^ 64 - e) (2 ^ 63 - 1)); lia. }
    rewrite Z.opp_involutive, Z.mod_small by lia. unfold errno_new, LINUX_ERRNO_MAX.
    repeat (zcase1; simpl; try lia). done.
Qed.

Lemma decode_encode_return_witness :
  decode_rax (encode_u64 (Errno ENOENT)) = Errno ENOENT ∧
  decode_rax (encode_u64 (Success 42)) = Success 42.
Proof.
  split.
  - apply (decode_encode_return (Errno ENOENT)); [split; vm_compute; congruence|done].
  - apply (decode_encode_return (Success 42)).
    + split; vm_compute; congruence.
    + unfold in_error_range, LINUX_ERRNO_MAX. lia.
Defined.
