(* ===== verification/SyscallTable.v ===== *)
(** * The system-call table of mcr-sys

    The supported x86-64 system calls, their numbers and names
    (crates/mcr-sys/src/syscall.rs), and the table that routes each call to its
    subsystem through a direct-indexed array (crates/mcr-sys/src/dispatcher.rs).
    [SysX] is the source's [Syscall::X] and [NR_X] its number constant. *)

From S2P Require Import Prelude SysAbi.
From stdpp Require Import base gmap list sorting strings.
From Stdlib Require Import ZArith Lia.
Open Scope Z_scope.

(** ** System calls (syscall.rs) *)
Inductive Syscall : Type :=
| SysRead
| SysWrite
| SysOpen
| SysClose
| SysStat
| SysFstat
| SysLstat
| SysFsync
| SysFdatasync
| SysPoll
| SysLseek
| SysMmap
| SysMprotect
| SysMunmap
| SysBrk
| SysRtSigaction
| SysRtSigprocmask
| SysRtSigreturn
| SysRtSigtimedwait
| SysRtSigsuspend
| SysIoctl
| SysPread64
| SysPwrite64
| SysReadv
| SysWritev
| SysPwritev2
| SysAccess
| SysPipe
| SysSelect
| SysSchedYield
| SysMadvise
| SysGettimeofday
| SysTimes
| SysGetrlimit
| SysGetrusage
| SysSysinfo
| SysGetuid
| SysGetgid
| SysSetuid
| SysSetgid
| SysGeteuid
| SysGetegid
| SysSetpgid
| SysGetppid
| SysGetpgrp
| SysSetsid
| SysSetreuid
| SysSetregid
| SysGetpgid
| SysGetsid
| SysSigaltstack
| SysStatfs
| SysFstatfs
| SysSchedGetparam
| SysSchedGetscheduler
| SysNanosleep
| SysDup
| SysDup2
| SysGetpid
| SysSocket
| SysConnect
| SysAccept
| SysSendto
| SysRecvfrom
| SysSendmsg
| SysRecvmsg
| SysShutdown
| SysBind
| SysListen
| SysGetsockname
| SysGetpeername
| SysSetsockopt
| SysGetsockopt
| SysClone
| SysFork
| SysVfork
| SysExecve
| SysExit
| SysWait4
| SysKill
| SysTkill
| SysUname
| SysFcntl
| SysFlock
| SysFtruncate
| SysFallocate
| SysGetdents
| SysGetcwd
| SysChdir
| SysFchdir
| SysMkdir
| SysRmdir
| SysLink
| SysUnlink
| SysRename
| SysReadlink
| SysSymlink
| SysChmod
| SysChown
| SysUmask
| SysPrctl
| SysArchPrctl
| SysGettid
| SysFutex
| SysSchedGetaffinity
| SysGetdents64
| SysSetTidAddress
| SysClockGettime
| SysClockGetres
| SysExitGroup
| SysEpollWait
| SysEpollCtl
| SysTgkill
| SysEpollPwait
| SysOpenat
| SysMkdirat
| SysNewfstatat
| SysUnlinkat
| SysLinkat
| SysSymlinkat
| SysReadlinkat
| SysUtimensat
| SysPpoll
| SysSetRobustList
| SysEventfd2
| SysEpollCreate1
| SysAccept4
| SysDup3
| SysPipe2
| SysPrlimit64
| SysGetcpu
| SysRenameat2
| SysGetrandom
| SysMembarrier
| SysStatx
| SysRseq
| SysClone3
| SysCloseRange
| SysOpenat2
| SysFaccessat2
| SysEpollPwait2
| SysUnknown (number : Z).

Definition NR_READ : Z := 0.
Definition NR_WRITE : Z := 1.
Definition NR_OPEN : Z := 2.
Definition NR_CLOSE : Z := 3.
Definition NR_STAT : Z := 4.
Definition NR_FSTAT : Z := 5.
Definition NR_LSTAT : Z := 6.
Definition NR_FSYNC : Z := 74.
Definition NR_FDATASYNC : Z := 75.
Definition NR_POLL : Z := 7.
Definition NR_LSEEK : Z := 8.
Definition NR_MMAP : Z := 9.
Definition NR_MPROTECT : Z := 10.
Definition NR_MUNMAP : Z := 11.
Definition NR_BRK : Z := 12.
Definition NR_RT_SIGACTION : Z := 13.
Definition NR_RT_SIGPROCMASK : Z := 14.
Definition NR_RT_SIGRETURN : Z := 15.
Definition NR_RT_SIGTIMEDWAIT : Z := 128.
Definition NR_RT_SIGSUSPEND : Z := 130.
Definition NR_IOCTL : Z := 16.
Definition NR_PREAD64 : Z := 17.
Definition NR_PWRITE64 : Z := 18.
Definition NR_READV : Z := 19.
Definition NR_WRITEV : Z := 20.
Definition NR_ACCESS : Z := 21.
Definition NR_PIPE : Z := 22.
Definition NR_SELECT : Z := 23.
Definition NR_SCHED_YIELD : Z := 24.
Definition NR_MADVISE : Z := 28.
Definition NR_GETTIMEOFDAY : Z := 96.
Definition NR_TIMES : Z := 100.
Definition NR_GETRLIMIT : Z := 97.
Definition NR_GETRUSAGE : Z := 98.
Definition NR_SYSINFO : Z := 99.
Definition NR_GETUID : Z := 102.
Definition NR_GETGID : Z := 104.
Definition NR_SETUID : Z := 105.
Definition NR_SETGID : Z := 106.
Definition NR_GETEUID : Z := 107.
Definition NR_GETEGID : Z := 108.
Definition NR_SETPGID : Z := 109.
Definition NR_GETPPID : Z := 110.
Definition NR_GETPGRP : Z := 111.
Definition NR_SETSID : Z := 112.
Definition NR_SETREUID : Z := 113.
Definition NR_SETREGID : Z := 114.
Definition NR_GETPGID : Z := 121.
Definition NR_GETSID : Z := 124.
Definition NR_SIGALTSTACK : Z := 131.
Definition NR_STATFS : Z := 137.
Definition NR_FSTATFS : Z := 138.
Definition NR_SCHED_GETPARAM : Z := 143.
Definition NR_SCHED_GETSCHEDULER : Z := 145.
Definition NR_NANOSLEEP : Z := 35.
Definition NR_DUP : Z := 32.
Definition NR_DUP2 : Z := 33.
Definition NR_GETPID : Z := 39.
Definition NR_SOCKET : Z := 41.
Definition NR_CONNECT : Z := 42.
Definition NR_ACCEPT : Z := 43.
Definition NR_SENDTO : Z := 44.
Definition NR_RECVFROM : Z := 45.
Definition NR_SENDMSG : Z := 46.
Definition NR_RECVMSG : Z := 47.
Definition NR_SHUTDOWN : Z := 48.
Definition NR_BIND : Z := 49.
Definition NR_LISTEN : Z := 50.
Definition NR_GETSOCKNAME : Z := 51.
Definition NR_GETPEERNAME : Z := 52.
Definition NR_SETSOCKOPT : Z := 54.
Definition NR_GETSOCKOPT : Z := 55.
Definition NR_CLONE : Z := 56.
Definition NR_FORK : Z := 57.
Definition NR_VFORK : Z := 58.
Definition NR_EXECVE : Z := 59.
Definition NR_EXIT : Z := 60.
Definition NR_WAIT4 : Z := 61.
Definition NR_KILL : Z := 62.
Definition NR_UNAME : Z := 63.
Definition NR_FCNTL : Z := 72.
Definition NR_FLOCK : Z := 73.
Definition NR_FTRUNCATE : Z := 77.
Definition NR_FALLOCATE : Z := 285.
Definition NR_GETDENTS : Z := 78.
Definition NR_GETCWD : Z := 79.
Definition NR_CHDIR : Z := 80.
Definition NR_FCHDIR : Z := 81.
Definition NR_MKDIR : Z := 83.
Definition NR_RMDIR : Z := 84.
Definition NR_RENAME : Z := 82.
Definition NR_READLINK : Z := 89.
Definition NR_SYMLINK : Z := 88.
Definition NR_LINK : Z := 86.
Definition NR_UNLINK : Z := 87.
Definition NR_CHMOD : Z := 90.
Definition NR_CHOWN : Z := 92.
Definition NR_UMASK : Z := 95.
Definition NR_PRCTL : Z := 157.
Definition NR_ARCH_PRCTL : Z := 158.
Definition NR_GETTID : Z := 186.
Definition NR_TKILL : Z := 200.
Definition NR_FUTEX : Z := 202.
Definition NR_SCHED_GETAFFINITY : Z := 204.
Definition NR_GETDENTS64 : Z := 217.
Definition NR_SET_TID_ADDRESS : Z := 218.
Definition NR_CLOCK_GETTIME : Z := 228.
Definition NR_CLOCK_GETRES : Z := 229.
Definition NR_EXIT_GROUP : Z := 231.
Definition NR_EPOLL_WAIT : Z := 232.
Definition NR_EPOLL_CTL : Z := 233.
Definition NR_TGKILL : Z := 234.
Definition NR_EPOLL_PWAIT : Z := 281.
Definition NR_OPENAT : Z := 257.
Definition NR_MKDIRAT : Z := 258.
Definition NR_NEWFSTATAT : Z := 262.
Definition NR_UNLINKAT : Z := 263.
Definition NR_LINKAT : Z := 265.
Definition NR_SYMLINKAT : Z := 266.
Definition NR_READLINKAT : Z := 267.
Definition NR_UTIMENSAT : Z := 280.
Definition NR_PPOLL : Z := 271.
Definition NR_SET_ROBUST_LIST : Z := 273.
Definition NR_EVENTFD2 : Z := 290.
Definition NR_EPOLL_CREATE1 : Z := 291.
Definition NR_ACCEPT4 : Z := 288.
Definition NR_DUP3 : Z := 292.
Definition NR_PIPE2 : Z := 293.
Definition NR_PRLIMIT64 : Z := 302.
Definition NR_GETCPU : Z := 309.
Definition NR_RENAMEAT2 : Z := 316.
Definition NR_GETRANDOM : Z := 318.
Definition NR_MEMBARRIER : Z := 324.
Definition NR_PWRITEV2 : Z := 328.
Definition NR_STATX : Z := 332.
Definition NR_RSEQ : Z := 334.
Definition NR_CLONE3 : Z := 435.
Definition NR_CLOSE_RANGE : Z := 436.
Definition NR_OPENAT2 : Z := 437.
Definition NR_FACCESSAT2 : Z := 439.
Definition NR_EPOLL_PWAIT2 : Z := 441.

Definition from_number (number : Z) : Syscall :=
  match number with
  | 0 => SysRead
  | 1 => SysWrite
  | 2 => SysOpen
  | 3 => SysClose
  | 4 => SysStat
  | 5 => SysFstat
  | 6 => SysLstat
  | 7 => SysPoll
  | 8 => SysLseek
  | 9 => SysMmap
  | 10 => SysMprotect
  | 11 => SysMunmap
  | 12 => SysBrk
  | 13 => SysRtSigaction
  | 14 => SysRtSigprocmask
  | 15 => SysRtSigreturn
  | 128 => SysRtSigtimedwait
  | 130 => SysRtSigsuspend
  | 16 => SysIoctl
  | 17 => SysPread64
  | 18 => SysPwrite64
  | 19 => SysReadv
  | 20 => SysWritev
  | 21 => SysAccess
  | 22 => SysPipe
  | 23 => SysSelect
  | 24 => SysSchedYield
  | 28 => SysMadvise
  | 32 => SysDup
  | 33 => SysDup2
  | 35 => SysNanosleep
  | 39 => SysGetpid
  | 41 => SysSocket
  | 42 => SysConnect
  | 43 => SysAccept
  | 44 => SysSendto
  | 45 => SysRecvfrom
  | 46 => SysSendmsg
  | 47 => SysRecvmsg
  | 48 => SysShutdown
  | 49 => SysBind
  | 50 => SysListen
  | 51 => SysGetsockname
  | 52 => SysGetpeername
  | 54 => SysSetsockopt
  | 55 => SysGetsockopt
  | 56 => SysClone
  | 57 => SysFork
  | 58 => SysVfork
  | 59 => SysExecve
  | 60 => SysExit
  | 61 => SysWait4
  | 62 => SysKill
  | 63 => SysUname
  | 72 => SysFcntl
  | 73 => SysFlock
  | 74 => SysFsync
  | 75 => SysFdatasync
  | 77 => SysFtruncate
  | 285 => SysFallocate
  | 78 => SysGetdents
  | 79 => SysGetcwd
  | 80 => SysChdir
  | 81 => SysFchdir
  | 82 => SysRename
  | 83 => SysMkdir
  | 84 => SysRmdir
  | 86 => SysLink
  | 87 => SysUnlink
  | 88 => SysSymlink
  | 89 => SysReadlink
  | 90 => SysChmod
  | 92 => SysChown
  | 95 => SysUmask
  | 96 => SysGettimeofday
  | 97 => SysGetrlimit
  | 98 => SysGetrusage
  | 99 => SysSysinfo
  | 100 => SysTimes
  | 102 => SysGetuid
  | 104 => SysGetgid
  | 105 => SysSetuid
  | 106 => SysSetgid
  | 107 => SysGeteuid
  | 108 => SysGetegid
  | 109 => SysSetpgid
  | 110 => SysGetppid
  | 111 => SysGetpgrp
  | 112 => SysSetsid
  | 113 => SysSetreuid
  | 114 => SysSetregid
  | 121 => SysGetpgid
  | 124 => SysGetsid
  | 131 => SysSigaltstack
  | 137 => SysStatfs
  | 138 => SysFstatfs
  | 143 => SysSchedGetparam
  | 145 => SysSchedGetscheduler
  | 157 => SysPrctl
  | 158 => SysArchPrctl
  | 186 => SysGettid
  | 200 => SysTkill
  | 202 => SysFutex
  | 204 => SysSchedGetaffinity
  | 217 => SysGetdents64
  | 218 => SysSetTidAddress
  | 228 => SysClockGettime
  | 229 => SysClockGetres
  | 231 => SysExitGroup
  | 232 => SysEpollWait
  | 233 => SysEpollCtl
  | 234 => SysTgkill
  | 281 => SysEpollPwait
  | 257 => SysOpenat
  | 258 => SysMkdirat
  | 262 => SysNewfstatat
  | 263 => SysUnlinkat
  | 265 => SysLinkat
  | 266 => SysSymlinkat
  | 267 => SysReadlinkat
  | 271 => SysPpoll
  | 273 => SysSetRobustList
  | 280 => SysUtimensat
  | 288 => SysAccept4
  | 290 => SysEventfd2
  | 291 => SysEpollCreate1
  | 292 => SysDup3
  | 293 => SysPipe2
  | 302 => SysPrlimit64
  | 309 => SysGetcpu
  | 316 => SysRenameat2
  | 318 => SysGetrandom
  | 324 => SysMembarrier
  | 328 => SysPwritev2
  | 332 => SysStatx
  | 334 => SysRseq
  | 435 => SysClone3
  | 436 => SysCloseRange
  | 437 => SysOpenat2
  | 439 => SysFaccessat2
  | 441 => SysEpollPwait2
  | _ => SysUnknown number
  end.

Definition syscall_number (s : Syscall) : Z :=
  match s with
  | SysRead => NR_READ
  | SysWrite => NR_WRITE
  | SysOpen => NR_OPEN
  | SysClose => NR_CLOSE
  | SysStat => NR_STAT
  | SysFstat => NR_FSTAT
  | SysLstat => NR_LSTAT
  | SysFsync => NR_FSYNC
  | SysFdatasync => NR_FDATASYNC
  | SysPoll => NR_POLL
  | SysLseek => NR_LSEEK
  | SysMmap => NR_MMAP
  | SysMprotect => NR_MPROTECT
  | SysMunmap => NR_MUNMAP
  | SysBrk => NR_BRK
  | SysRtSigaction => NR_RT_SIGACTION
  | SysRtSigprocmask => NR_RT_SIGPROCMASK
  | SysRtSigreturn => NR_RT_SIGRETURN
  | SysRtSigtimedwait => NR_RT_SIGTIMEDWAIT
  | SysRtSigsuspend => NR_RT_SIGSUSPEND
  | SysIoctl => NR_IOCTL
  | SysPread64 => NR_PREAD64
  | SysPwrite64 => NR_PWRITE64
  | SysReadv => NR_READV
  | SysWritev => NR_WRITEV
  | SysPwritev2 => NR_PWRITEV2
  | SysAccess => NR_ACCESS
  | SysPipe => NR_PIPE
  | SysSelect => NR_SELECT
  | SysSchedYield => NR_SCHED_YIELD
  | SysMadvise => NR_MADVISE
  | SysGettimeofday => NR_GETTIMEOFDAY
  | SysTimes => NR_TIMES
  | SysGetrlimit => NR_GETRLIMIT
  | SysGetrusage => NR_GETRUSAGE
  | SysSysinfo => NR_SYSINFO
  | SysGetuid => NR_GETUID
  | SysGetgid => NR_GETGID
  | SysSetuid => NR_SETUID
  | SysSetgid => NR_SETGID
  | SysGeteuid => NR_GETEUID
  | SysGetegid => NR_GETEGID
  | SysSetpgid => NR_SETPGID
  | SysGetppid => NR_GETPPID
  | SysGetpgrp => NR_GETPGRP
  | SysSetsid => NR_SETSID
  | SysSetreuid => NR_SETREUID
  | SysSetregid => NR_SETREGID
  | SysGetpgid => NR_GETPGID
  | SysGetsid => NR_GETSID
  | SysSigaltstack => NR_SIGALTSTACK
  | SysStatfs => NR_STATFS
  | SysFstatfs => NR_FSTATFS
  | SysSchedGetparam => NR_SCHED_GETPARAM
  | SysSchedGetscheduler => NR_SCHED_GETSCHEDULER
  | SysNanosleep => NR_NANOSLEEP
  | SysDup => NR_DUP
  | SysDup2 => NR_DUP2
  | SysGetpid => NR_GETPID
  | SysSocket => NR_SOCKET
  | SysConnect => NR_CONNECT
  | SysAccept => NR_ACCEPT
  | SysSendto => NR_SENDTO
  | SysRecvfrom => NR_RECVFROM
  | SysSendmsg => NR_SENDMSG
  | SysRecvmsg => NR_RECVMSG
  | SysShutdown => NR_SHUTDOWN
  | SysBind => NR_BIND
  | SysListen => NR_LISTEN
  | SysGetsockname => NR_GETSOCKNAME
  | SysGetpeername => NR_GETPEERNAME
  | SysSetsockopt => NR_SETSOCKOPT
  | SysGetsockopt => NR_GETSOCKOPT
  | SysClone => NR_CLONE
  | SysFork => NR_FORK
  | SysVfork => NR_VFORK
  | SysExecve => NR_EXECVE
  | SysExit => NR_EXIT
  | SysWait4 => NR_WAIT4
  | SysKill => NR_KILL
  | SysUname => NR_UNAME
  | SysFcntl => NR_FCNTL
  | SysFlock => NR_FLOCK
  | SysFtruncate => NR_FTRUNCATE
  | SysFallocate => NR_FALLOCATE
  | SysGetdents => NR_GETDENTS
  | SysGetcwd => NR_GETCWD
  | SysChdir => NR_CHDIR
  | SysFchdir => NR_FCHDIR
  | SysMkdir => NR_MKDIR
  | SysRmdir => NR_RMDIR
  | SysLink => NR_LINK
  | SysUnlink => NR_UNLINK
  | SysRename => NR_RENAME
  | SysReadlink => NR_READLINK
  | SysSymlink => NR_SYMLINK
  | SysChmod => NR_CHMOD
  | SysChown => NR_CHOWN
  | SysUmask => NR_UMASK
  | SysPrctl => NR_PRCTL
  | SysArchPrctl => NR_ARCH_PRCTL
  | SysGettid => NR_GETTID
  | SysTkill => NR_TKILL
  | SysFutex => NR_FUTEX
  | SysSchedGetaffinity => NR_SCHED_GETAFFINITY
  | SysGetdents64 => NR_GETDENTS64
  | SysSetTidAddress => NR_SET_TID_ADDRESS
  | SysClockGettime => NR_CLOCK_GETTIME
  | SysClockGetres => NR_CLOCK_GETRES
  | SysExitGroup => NR_EXIT_GROUP
  | SysEpollWait => NR_EPOLL_WAIT
  | SysEpollCtl => NR_EPOLL_CTL
  | SysTgkill => NR_TGKILL
  | SysEpollPwait => NR_EPOLL_PWAIT
  | SysOpenat => NR_OPENAT
  | SysMkdirat => NR_MKDIRAT
  | SysNewfstatat => NR_NEWFSTATAT
  | SysUnlinkat => NR_UNLINKAT
  | SysLinkat => NR_LINKAT
  | SysSymlinkat => NR_SYMLINKAT
  | SysReadlinkat => NR_READLINKAT
  | SysUtimensat => NR_UTIMENSAT
  | SysPpoll => NR_PPOLL
  | SysSetRobustList => NR_SET_ROBUST_LIST
  | SysEventfd2 => NR_EVENTFD2
  | SysAccept4 => NR_ACCEPT4
  | SysEpollCreate1 => NR_EPOLL_CREATE1
  | SysDup3 => NR_DUP3
  | SysPipe2 => NR_PIPE2
  | SysPrlimit64 => NR_PRLIMIT64
  | SysGetcpu => NR_GETCPU
  | SysRenameat2 => NR_RENAMEAT2
  | SysGetrandom => NR_GETRANDOM
  | SysMembarrier => NR_MEMBARRIER
  | SysStatx => NR_STATX
  | SysRseq => NR_RSEQ
  | SysClone3 => NR_CLONE3
  | SysCloseRange => NR_CLOSE_RANGE
  | SysOpenat2 => NR_OPENAT2
  | SysFaccessat2 => NR_FACCESSAT2
  | SysEpollPwait2 => NR_EPOLL_PWAIT2
  | SysUnknown number => number
  end.

Definition syscall_name (s : Syscall) : string :=
  match s with
  | SysRead => "read"
  | SysWrite => "write"
  | SysOpen => "open"
  | SysClose => "close"
  | SysStat => "stat"
  | SysFstat => "fstat"
  | SysLstat => "lstat"
  | SysFsync => "fsync"
  | SysFdatasync => "fdatasync"
  | SysPoll => "poll"
  | SysLseek => "lseek"
  | SysMmap => "mmap"
  | SysMprotect => "mprotect"
  | SysMunmap => "munmap"
  | SysBrk => "brk"
  | SysRtSigaction => "rt_sigaction"
  | SysRtSigprocmask => "rt_sigprocmask"
  | SysRtSigreturn => "rt_sigreturn"
  | SysRtSigtimedwait => "rt_sigtimedwait"
  | SysRtSigsuspend => "rt_sigsuspend"
  | SysIoctl => "ioctl"
  | SysPread64 => "pread64"
  | SysPwrite64 => "pwrite64"
  | SysReadv => "readv"
  | SysWritev => "writev"
  | SysPwritev2 => "pwritev2"
  | SysAccess => "access"
  | SysPipe => "pipe"
  | SysSelect => "select"
  | SysSchedYield => "sched_yield"
  | SysMadvise => "madvise"
  | SysGettimeofday => "gettimeofday"
  | SysTimes => "times"
  | SysGetrlimit => "getrlimit"
  | SysGetrusage => "getrusage"
  | SysSysinfo => "sysinfo"
  | SysGetuid => "getuid"
  | SysGetgid => "getgid"
  | SysSetuid => "setuid"
  | SysSetgid => "setgid"
  | SysGeteuid => "geteuid"
  | SysGetegid => "getegid"
  | SysSetpgid => "setpgid"
  | SysGetppid => "getppid"
  | SysGetpgrp => "getpgrp"
  | SysSetsid => "setsid"
  | SysSetreuid => "setreuid"
  | SysSetregid => "setregid"
  | SysGetpgid => "getpgid"
  | SysGetsid => "getsid"
  | SysSigaltstack => "sigaltstack"
  | SysStatfs => "statfs"
  | SysFstatfs => "fstatfs"
  | SysSchedGetparam => "sched_getparam"
  | SysSchedGetscheduler => "sched_getscheduler"
  | SysNanosleep => "nanosleep"
  | SysDup => "dup"
  | SysDup2 => "dup2"
  | SysGetpid => "getpid"
  | SysSocket => "socket"
  | SysConnect => "connect"
  | SysAccept => "accept"
  | SysSendto => "sendto"
  | SysRecvfrom => "recvfrom"
  | SysSendmsg => "sendmsg"
  | SysRecvmsg => "recvmsg"
  | SysShutdown => "shutdown"
  | SysBind => "bind"
  | SysListen => "listen"
  | SysGetsockname => "getsockname"
  | SysGetpeername => "getpeername"
  | SysSetsockopt => "setsockopt"
  | SysGetsockopt => "getsockopt"
  | SysClone => "clone"
  | SysFork => "fork"
  | SysVfork => "vfork"
  | SysExecve => "execve"
  | SysExit => "exit"
  | SysWait4 => "wait4"
  | SysKill => "kill"
  | SysUname => "uname"
  | SysFcntl => "fcntl"
  | SysFlock => "flock"
  | SysFtruncate => "ftruncate"
  | SysFallocate => "fallocate"
  | SysGetdents => "getdents"
  | SysGetcwd => "getcwd"
  | SysChdir => "chdir"
  | SysFchdir => "fchdir"
  | SysMkdir => "mkdir"
  | SysRmdir => "rmdir"
  | SysLink => "link"
  | SysUnlink => "unlink"
  | SysRename => "rename"
  | SysReadlink => "readlink"
  | SysSymlink => "symlink"
  | SysChmod => "chmod"
  | SysChown => "chown"
  | SysUmask => "umask"
  | SysPrctl => "prctl"
  | SysArchPrctl => "arch_prctl"
  | SysGettid => "gettid"
  | SysTkill => "tkill"
  | SysFutex => "futex"
  | SysSchedGetaffinity => "sched_getaffinity"
  | SysGetdents64 => "getdents64"
  | SysSetTidAddress => "set_tid_address"
  | SysClockGettime => "clock_gettime"
  | SysClockGetres => "clock_getres"
  | SysExitGroup => "exit_group"
  | SysEpollWait => "epoll_wait"
  | SysEpollCtl => "epoll_ctl"
  | SysTgkill => "tgkill"
  | SysEpollPwait => "epoll_pwait"
  | SysOpenat => "openat"
  | SysMkdirat => "mkdirat"
  | SysNewfstatat => "newfstatat"
  | SysUnlinkat => "unlinkat"
  | SysLinkat => "linkat"
  | SysSymlinkat => "symlinkat"
  | SysReadlinkat => "readlinkat"
  | SysUtimensat => "utimensat"
  | SysPpoll => "ppoll"
  | SysSetRobustList => "set_robust_list"
  | SysEventfd2 => "eventfd2"
  | SysAccept4 => "accept4"
  | SysEpollCreate1 => "epoll_create1"
  | SysDup3 => "dup3"
  | SysPipe2 => "pipe2"
  | SysPrlimit64 => "prlimit64"
  | SysGetcpu => "getcpu"
  | SysRenameat2 => "renameat2"
  | SysGetrandom => "getrandom"
  | SysMembarrier => "membarrier"
  | SysStatx => "statx"
  | SysRseq => "rseq"
  | SysClone3 => "clone3"
  | SysCloseRange => "close_range"
  | SysOpenat2 => "openat2"
  | SysFaccessat2 => "faccessat2"
  | SysEpollPwait2 => "epoll_pwait2"
  | SysUnknown _ => "unknown"
  end.

Definition is_known (s : Syscall) : bool :=
  match s with SysUnknown _ => false | _ => true end.

Lemma syscall_number_inverse :
  (∀ n : Z, syscall_number (from_number n) = n) ∧
  (∀ s, is_known s = true → from_number (syscall_number s) = s).
Proof.
  split.
  - intros n. destruct n as [|p|p]; try done.
    do 9 (try (destruct p as [p|p|]; try reflexivity)).
  - intros s Hs. destruct s; (reflexivity || discriminate).
Qed.

Lemma known_number_inj s s' :
  is_known s = true → is_known s' = true → syscall_number s = syscall_number s' → s = s'.
Proof.
  intros Hs Hs' Heq. destruct syscall_number_inverse as [_ H].
  rewrite <- (H s), <- (H s'), Heq by done. done.
Qed.

#[export] Instance Syscall_eq_dec : EqDecision Syscall.
Proof.
  refine (λ s s', cast_if (decide ((is_known s, syscall_number s) = (is_known s', syscall_number s')))).
  - abstract (injection e as Hk Hn; destruct (is_known s) eqn:Hs;
      [by apply known_number_inj|];
      destruct s; try discriminate; destruct s'; try discriminate; simpl in Hn; congruence).
  - abstract (intros ->; done).
Defined.

(** ** The dispatch table (dispatcher.rs) *)
Inductive SyscallSubsystem : Type :=
| SubFile | SubMemory | SubTask | SubTime | SubNetwork | SubEvent.

#[export] Instance SyscallSubsystem_eq_dec : EqDecision SyscallSubsystem.
Proof. solve_decision. Defined.

Record SyscallDescriptor : Type := {
  sd_syscall : Syscall;
  sd_subsystem : SyscallSubsystem;
}.

Definition descriptor_new (syscall : Syscall) (subsystem : SyscallSubsystem) : SyscallDescriptor :=
  {| sd_syscall := syscall; sd_subsystem := subsystem |}.

Definition SYSCALL_DISPATCH_TABLE : list SyscallDescriptor := [
  descriptor_new SysRead SubFile;
  descriptor_new SysWrite SubFile;
  descriptor_new SysOpen SubFile;
  descriptor_new SysClose SubFile;
  descriptor_new SysStat SubFile;
  descriptor_new SysFstat SubFile;
  descriptor_new SysLstat SubFile;
  descriptor_new SysFsync SubFile;
  descriptor_new SysFdatasync SubFile;
  descriptor_new SysPoll SubEvent;
  descriptor_new SysLseek SubFile;
  descriptor_new SysMmap SubMemory;
  descriptor_new SysMprotect SubMemory;
  descriptor_new SysMunmap SubMemory;
  descriptor_new SysBrk SubMemory;
  descriptor_new SysRtSigaction SubTask;
  descriptor_new SysRtSigprocmask SubTask;
  descriptor_new SysRtSigreturn SubTask;
  descriptor_new SysRtSigtimedwait SubTask;
  descriptor_new SysRtSigsuspend SubTask;
  descriptor_new SysIoctl SubFile;
  descriptor_new SysPread64 SubFile;
  descriptor_new SysPwrite64 SubFile;
  descriptor_new SysReadv SubFile;
  descriptor_new SysWritev SubFile;
  descriptor_new SysPwritev2 SubFile;
  descriptor_new SysAccess SubFile;
  descriptor_new SysPipe SubFile;
  descriptor_new SysSelect SubEvent;
  descriptor_new SysSchedYield SubTask;
  descriptor_new SysMadvise SubMemory;
  descriptor_new SysGettimeofday SubTime;
  descriptor_new SysTimes SubTime;
  descriptor_new SysGetrlimit SubTask;
  descriptor_new SysGetrusage SubTask;
  descriptor_new SysSysinfo SubTask;
  descriptor_new SysGetuid SubTask;
  descriptor_new SysGetgid SubTask;
  descriptor_new SysSetuid SubTask;
  descriptor_new SysSetgid SubTask;
  descriptor_new SysGeteuid SubTask;
  descriptor_new SysGetegid SubTask;
  descriptor_new SysSetpgid SubTask;
  descriptor_new SysGetppid SubTask;
  descriptor_new SysGetpgrp SubTask;
  descriptor_new SysSetsid SubTask;
  descriptor_new SysSetreuid SubTask;
  descriptor_new SysSetregid SubTask;
  descriptor_new SysGetpgid SubTask;
  descriptor_new SysGetsid SubTask;
  descriptor_new SysSigaltstack SubTask;
  descriptor_new SysStatfs SubFile;
  descriptor_new SysFstatfs SubFile;
  descriptor_new SysSchedGetparam SubTask;
  descriptor_new SysSchedGetscheduler SubTask;
  descriptor_new SysNanosleep SubTime;
  descriptor_new SysDup SubFile;
  descriptor_new SysDup2 SubFile;
  descriptor_new SysGetpid SubTask;
  descriptor_new SysSocket SubNetwork;
  descriptor_new SysConnect SubNetwork;
  descriptor_new SysAccept SubNetwork;
  descriptor_new SysSendto SubNetwork;
  descriptor_new SysRecvfrom SubNetwork;
  descriptor_new SysSendmsg SubNetwork;
  descriptor_new SysRecvmsg SubNetwork;
  descriptor_new SysShutdown SubNetwork;
  descriptor_new SysBind SubNetwork;
  descriptor_new SysListen SubNetwork;
  descriptor_new SysGetsockname SubNetwork;
  descriptor_new SysGetpeername SubNetwork;
  descriptor_new SysSetsockopt SubNetwork;
  descriptor_new SysGetsockopt SubNetwork;
  descriptor_new SysClone SubTask;
  descriptor_new SysFork SubTask;
  descriptor_new SysVfork SubTask;
  descriptor_new SysExecve SubTask;
  descriptor_new SysExit SubTask;
  descriptor_new SysWait4 SubTask;
  descriptor_new SysKill SubTask;
  descriptor_new SysUname SubTask;
  descriptor_new SysFcntl SubFile;
  descriptor_new SysFlock SubFile;
  descriptor_new SysFtruncate SubFile;
  descriptor_new SysFallocate SubFile;
  descriptor_new SysGetdents SubFile;
  descriptor_new SysGetcwd SubFile;
  descriptor_new SysChdir SubFile;
  descriptor_new SysFchdir SubFile;
  descriptor_new SysRename SubFile;
  descriptor_new SysMkdir SubFile;
  descriptor_new SysRmdir SubFile;
  descriptor_new SysLink SubFile;
  descriptor_new SysUnlink SubFile;
  descriptor_new SysSymlink SubFile;
  descriptor_new SysReadlink SubFile;
  descriptor_new SysChmod SubFile;
  descriptor_new SysChown SubFile;
  descriptor_new SysUmask SubFile;
  descriptor_new SysPrctl SubTask;
  descriptor_new SysArchPrctl SubTask;
  descriptor_new SysGettid SubTask;
  descriptor_new SysTkill SubTask;
  descriptor_new SysFutex SubTask;
  descriptor_new SysSchedGetaffinity SubTask;
  descriptor_new SysGetdents64 SubFile;
  descriptor_new SysSetTidAddress SubTask;
  descriptor_new SysClockGettime SubTime;
  descriptor_new SysClockGetres SubTime;
  descriptor_new SysExitGroup SubTask;
  descriptor_new SysEpollWait SubEvent;
  descriptor_new SysEpollCtl SubEvent;
  descriptor_new SysTgkill SubTask;
  descriptor_new SysEpollPwait SubEvent;
  descriptor_new SysOpenat SubFile;
  descriptor_new SysMkdirat SubFile;
  descriptor_new SysNewfstatat SubFile;
  descriptor_new SysUnlinkat SubFile;
  descriptor_new SysLinkat SubFile;
  descriptor_new SysSymlinkat SubFile;
  descriptor_new SysReadlinkat SubFile;
  descriptor_new SysUtimensat SubFile;
  descriptor_new SysPpoll SubEvent;
  descriptor_new SysSetRobustList SubTask;
  descriptor_new SysEventfd2 SubEvent;
  descriptor_new SysAccept4 SubNetwork;
  descriptor_new SysEpollCreate1 SubEvent;
  descriptor_new SysDup3 SubFile;
  descriptor_new SysPipe2 SubFile;
  descriptor_new SysPrlimit64 SubTask;
  descriptor_new SysGetcpu SubTask;
  descriptor_new SysRenameat2 SubFile;
  descriptor_new SysGetrandom SubTime;
  descriptor_new SysMembarrier SubTask;
  descriptor_new SysStatx SubFile;
  descriptor_new SysRseq SubTask;
  descriptor_new SysClone3 SubTask;
  descriptor_new SysCloseRange SubFile;
  descriptor_new SysOpenat2 SubFile;
  descriptor_new SysFaccessat2 SubFile;
  descriptor_new SysEpollPwait2 SubEvent].

Definition ALL_KNOWN_SYSCALLS : list Syscall := [
  SysRead;
  SysWrite;
  SysOpen;
  SysClose;
  SysStat;
  SysFstat;
  SysLstat;
  SysFsync;
  SysFdatasync;
  SysPoll;
  SysLseek;
  SysMmap;
  SysMprotect;
  SysMunmap;
  SysBrk;
  SysRtSigaction;
  SysRtSigprocmask;
  SysRtSigreturn;
  SysRtSigtimedwait;
  SysRtSigsuspend;
  SysIoctl;
  SysPread64;
  SysPwrite64;
  SysReadv;
  SysWritev;
  SysPwritev2;
  SysAccess;
  SysPipe;
  SysSelect;
  SysSchedYield;
  SysMadvise;
  SysGettimeofday;
  SysTimes;
  SysGetrlimit;
  SysGetrusage;
  SysSysinfo;
  SysGetuid;
  SysGetgid;
  SysSetuid;
  SysSetgid;
  SysGeteuid;
  SysGetegid;
  SysSetpgid;
  SysGetppid;
  SysGetpgrp;
  SysSetsid;
  SysSetreuid;
  SysSetregid;
  SysGetpgid;
  SysGetsid;
  SysSigaltstack;
  SysStatfs;
  SysFstatfs;
  SysSchedGetparam;
  SysSchedGetscheduler;
  SysNanosleep;
  SysDup;
  SysDup2;
  SysGetpid;
  SysSocket;
  SysConnect;
  SysAccept;
  SysSendto;
  SysRecvfrom;
  SysSendmsg;
  SysRecvmsg;
  SysShutdown;
  SysBind;
  SysListen;
  SysGetsockname;
  SysGetpeername;
  SysSetsockopt;
  SysGetsockopt;
  SysClone;
  SysFork;
  SysVfork;
  SysExecve;
  SysExit;
  SysWait4;
  SysKill;
  SysTkill;
  SysUname;
  SysFcntl;
  SysFlock;
  SysFtruncate;
  SysFallocate;
  SysGetdents;
  SysGetcwd;
  SysChdir;
  SysFchdir;
  SysMkdir;
  SysRmdir;
  SysLink;
  SysUnlink;
  SysRename;
  SysReadlink;
  SysSymlink;
  SysChmod;
  SysChown;
  SysUmask;
  SysPrctl;
  SysArchPrctl;
  SysGettid;
  SysFutex;
  SysSchedGetaffinity;
  SysGetdents64;
  SysSetTidAddress;
  SysClockGettime;
  SysClockGetres;
  SysExitGroup;
  SysEpollWait;
  SysEpollCtl;
  SysTgkill;
  SysEpollPwait;
  SysOpenat;
  SysMkdirat;
  SysNewfstatat;
  SysUnlinkat;
  SysLinkat;
  SysSymlinkat;
  SysReadlinkat;
  SysUtimensat;
  SysPpoll;
  SysSetRobustList;
  SysEventfd2;
  SysEpollCreate1;
  SysAccept4;
  SysDup3;
  SysPipe2;
  SysPrlimit64;
  SysGetcpu;
  SysRenameat2;
  SysGetrandom;
  SysMembarrier;
  SysStatx;
  SysRseq;
  SysClone3;
  SysCloseRange;
  SysOpenat2;
  SysFaccessat2;
  SysEpollPwait2].
(** The number-indexed array the dispatcher looks calls up in: entry [n] is the
    table position of the call numbered [n]. *)
Definition SYSCALL_DESCRIPTOR_INDEX_LEN : Z := NR_EPOLL_PWAIT2 + 1.

Fixpoint fill_descriptor_index (table_index : nat) (table : list SyscallDescriptor)
    (index : list (option nat)) : list (option nat) :=
  match table with
  | [] => index
  | d :: table =>
      fill_descriptor_index (S table_index) table
        (<[Z.to_nat (syscall_number (sd_syscall d)) := Some table_index]> index)
  end.

Definition build_syscall_descriptor_index : list (option nat) :=
  fill_descriptor_index 0 SYSCALL_DISPATCH_TABLE
    (replicate (Z.to_nat SYSCALL_DESCRIPTOR_INDEX_LEN) None).

Definition syscall_descriptor_by_number (number : Z) : option SyscallDescriptor :=
  table_index ← mjoin (build_syscall_descriptor_index !! Z.to_nat number);
  SYSCALL_DISPATCH_TABLE !! table_index.

Definition syscall_descriptor (s : Syscall) : option SyscallDescriptor :=
  if is_known s then syscall_descriptor_by_number (syscall_number s) else None.

(** The reference: scan the table for the call. *)
Definition scan_descriptor (s : Syscall) : option SyscallDescriptor :=
  snd <$> list_find (λ d, sd_syscall d = s) SYSCALL_DISPATCH_TABLE.

(** ** Properties *)

(** [number] inverts [from_number] on every raw number (unknown numbers are kept), and
    [from_number] inverts [number] on every known call. *)
Theorem syscall_number_roundtrip :
  (∀ n : Z, syscall_number (from_number n) = n) ∧
  (∀ s, is_known s = true → from_number (syscall_number s) = s).
Proof. exact syscall_number_inverse. Qed.

(** The array entries after filling from a table with distinct, in-range numbers. *)
Lemma fill_descriptor_index_lookup table i index n :
  NoDup ((λ d, syscall_number (sd_syscall d)) <$> table) →
  Forall (λ d, 0 ≤ syscall_number (sd_syscall d) < zlen index) table →
  0 ≤ n →
  fill_descriptor_index i table index !! Z.to_nat n =
    match list_find (λ d, syscall_number (sd_syscall d) = n) table with
    | Some (j, _) => Some (Some (i + j)%nat)
    | None => index !! Z.to_nat n
    end.
Proof.
  revert i index. induction table as [|d table IH]; intros i index Hnd Hr Hn; [done|].
  cbn [fmap list_fmap fill_descriptor_index] in *.
  apply NoDup_cons in Hnd as [Hnin Hnd]. apply Forall_cons in Hr as [Hd Hr].
  rewrite IH by (unfold zlen in *; rewrite ?length_insert; done).
  cbn [list_find]. destruct (decide (syscall_number (sd_syscall d) = n)) as [Heq|Hne]; [subst n|].
  - destruct (list_find _ table) as [[j d']|] eqn:Hf; cbn [fmap option_fmap option_map].
    + exfalso. apply list_find_Some in Hf as (Hj & Hd' & _). apply Hnin.
      apply list_elem_of_lookup_2, (list_elem_of_fmap_2 (λ d, syscall_number (sd_syscall d))) in Hj.
      simpl in Hj. by rewrite Hd' in Hj.
    + rewrite list_lookup_insert_eq by (unfold zlen in Hd; lia). by rewrite Nat.add_0_r.
  - destruct (list_find _ table) as [[j d']|] eqn:Hf; cbn [fmap option_fmap option_map prod_map fst].
    + do 2 f_equal. simpl. lia.
    + apply list_lookup_insert_ne. lia.
Qed.

Lemma table_numbers_NoDup :
  NoDup ((λ d, syscall_number (sd_syscall d)) <$> SYSCALL_DISPATCH_TABLE).
Proof. apply (bool_decide_unpack _). vm_compute. exact I. Qed.

Lemma table_numbers_range :
  Forall (λ d, 0 ≤ syscall_number (sd_syscall d) < 442) SYSCALL_DISPATCH_TABLE.
Proof. apply (bool_decide_unpack _). vm_compute. exact I. Qed.

Lemma table_known d : d ∈ SYSCALL_DISPATCH_TABLE → is_known (sd_syscall d) = true.
Proof.
  assert (Forall (λ d, is_known (sd_syscall d) = true) SYSCALL_DISPATCH_TABLE) as Hall.
  { apply (bool_decide_unpack _). vm_compute. exact I. }
  rewrite Forall_forall in Hall. apply Hall.
Qed.

Lemma list_find_proper {A} (P Q : A → Prop) `{∀ x, Decision (P x)} `{∀ x, Decision (Q x)}
    (l : list A) :
  (∀ x, x ∈ l → P x ↔ Q x) → list_find P l = list_find Q l.
Proof.
  induction l as [|x l IH]; intros HPQ; [done|]. cbn [list_find].
  specialize (HPQ x ltac:(set_solver)) as Hx.
  rewrite IH by (intros; apply HPQ; set_solver). repeat case_decide; naive_solver.
Qed.

Lemma descriptor_scan (s : Syscall) : syscall_descriptor s = scan_descriptor s.
Proof.
  unfold syscall_descriptor, scan_descriptor. destruct (is_known s) eqn:Hs.
  - unfold syscall_descriptor_by_number, build_syscall_descriptor_index.
    assert (0 ≤ syscall_number s) as Hpos by (destruct s; (discriminate || vm_compute; discriminate)).
    rewrite fill_descriptor_index_lookup; [|apply table_numbers_NoDup| |done].
    2:{ unfold zlen. rewrite length_replicate. apply table_numbers_range. }
    rewrite (list_find_proper _ (λ d, sd_syscall d = s)).
    2:{ intros d Hd%table_known. split; [by apply known_number_inj|by intros ->]. }
    destruct (list_find _ _) as [[j d]|] eqn:Hf; cbn [fmap option_fmap option_map snd].
    + by apply list_find_Some in Hf as (? & _).
    + destruct (_ !! Z.to_nat (syscall_number s)) as [[j|]|] eqn:Hr; [|done|done].
      by apply lookup_replicate_1 in Hr as [? _].
  - destruct (list_find _ _) as [[i d]|] eqn:Hf; [|done]. exfalso.
    apply list_find_Some in Hf as (Hi & <- & _).
    apply list_elem_of_lookup_2, table_known in Hi. congruence.
Qed.

Lemma known_in_table s : is_known s = true → ∃ d, d ∈ SYSCALL_DISPATCH_TABLE ∧ sd_syscall d = s.
Proof.
  intros Hs. assert (∃ i, (SYSCALL_DISPATCH_TABLE !! i) ≫= (λ d, Some (sd_syscall d)) = Some s) as [i Hi].
  { destruct s; try discriminate;
      match goal with |- context [Some ?x] =>
        let i := eval vm_compute in
          (default 0%nat (fst <$> list_find (λ d, sd_syscall d = x) SYSCALL_DISPATCH_TABLE)) in
        exists i; reflexivity end. }
  destruct (SYSCALL_DISPATCH_TABLE !! i) as [d|] eqn:Hd; [|done]. injection Hi as <-.
  exists d. split; [by eapply list_elem_of_lookup_2|done].
Qed.

(** the direct-indexed descriptor lookup agrees with a linear scan of the dispatch table on
    every system call, known or not. *)
Theorem descriptor_index_correct (s : Syscall) : syscall_descriptor s = scan_descriptor s.
Proof. apply descriptor_scan. Qed.

(** every known system call is routed: it has a descriptor, which is its own and the only
    one in the table, while an unknown number has none. *)
Theorem dispatch_table_total (s : Syscall) :
  if is_known s
  then ∃ sub, syscall_descriptor s = Some (descriptor_new s sub) ∧
       (∀ d, d ∈ SYSCALL_DISPATCH_TABLE → sd_syscall d = s → d = descriptor_new s sub)
  else syscall_descriptor s = None.
Proof.
  destruct (is_known s) eqn:Hs; [|by unfold syscall_descriptor; rewrite Hs].
  destruct (known_in_table s Hs) as ([s' sub] & Hin & Heq). simpl in Heq. subst s'.
  exists sub. assert (∀ d, d ∈ SYSCALL_DISPATCH_TABLE → sd_syscall d = s → d = descriptor_new s sub) as Hu.
  { intros d Hd Hds. apply list_elem_of_lookup in Hin as [i Hi].
    apply list_elem_of_lookup in Hd as [j Hj].
    assert (i = j) as ->; [|unfold descriptor_new; congruence].
    eapply (NoDup_lookup _ i j (syscall_number s) table_numbers_NoDup);
      rewrite list_lookup_fmap; rewrite ?Hi, ?Hj; simpl; [done|by rewrite Hds]. }
  split; [|done]. rewrite descriptor_scan. unfold scan_descriptor.
  destruct (list_find_elem_of (λ d, sd_syscall d = s) _ _ Hin eq_refl) as [[i d] Hf].
  rewrite Hf. simpl. f_equal. apply list_find_Some in Hf as (Hi & Hd & _).
  apply Hu; [by eapply list_elem_of_lookup_2|done].
Qed.
