(* ===== verification/Dispatcher.v ===== *)
(** * The system-call dispatcher of mcr-sys

    [SyscallDispatcher::dispatch] (crates/mcr-sys/src/dispatcher.rs) turns a guest
    context into a request, finds the subsystem of the call, runs it and reports to
    a tracer.  The subsystem traits and the tracer trait are type classes.  Trace
    events (trace.rs) carry no decoded fields and no host error text. *)

From S2P Require Import Prelude SysAbi SyscallTable.
From stdpp Require Import base gmap list sorting strings.
From Stdlib Require Import ZArith Lia.
Open Scope Z_scope.

(** ** Requests *)
Record TraceContext : Type := { tc_pid : Z; tc_tid : Z; tc_rip : Z }.

Record GuestContext : Type := {
  gc_pid : Z;
  gc_tid : Z;
  gc_registers : SyscallRegisters;
}.

Record SyscallRequest : Type := {
  rq_context : TraceContext;
  rq_syscall : Syscall;
  rq_number : Z;
  rq_args : SyscallArgs;
}.

Definition from_guest_context (context : GuestContext) : SyscallRequest :=
  let registers := gc_registers context in
  let number := sr_rax registers in
  {| rq_context := {| tc_pid := gc_pid context; tc_tid := gc_tid context; tc_rip := sr_rip registers |};
     rq_syscall := from_number number;
     rq_number := number;
     rq_args := registers_args registers |}.

(** ** Trace events (trace.rs) *)
Inductive SyscallTraceEvent : Type :=
| EvEnter (context : TraceContext) (syscall : Syscall) (args : SyscallArgs)
| EvExit (context : TraceContext) (syscall : Syscall) (args : SyscallArgs) (result : SyscallReturn)
| EvUnsupported (context : TraceContext) (syscall : Syscall) (number : Z) (args : SyscallArgs)
    (result : SyscallReturn).

Definition unsupported_event_new (context : TraceContext) (number : Z) (args : SyscallArgs)
    : SyscallTraceEvent :=
  EvUnsupported context (from_number number) number args unsupported_return.

Definition unsupported_event_for_syscall (context : TraceContext) (syscall : Syscall)
    (args : SyscallArgs) : SyscallTraceEvent :=
  EvUnsupported context syscall (syscall_number syscall) args unsupported_return.

Definition event_result (e : SyscallTraceEvent) : option SyscallReturn :=
  match e with
  | EvEnter _ _ _ => None
  | EvExit _ _ _ result => Some result
  | EvUnsupported _ _ _ _ result => Some result
  end.

(** ** The traits *)
Class SyscallTracer (T : Type) : Type := {
  tracer_enabled : T → bool;
  tracer_record : SyscallTraceEvent → T → T;
}.

#[export] Instance NoopSyscallTracer : SyscallTracer unit := {
  tracer_enabled _ := false;
  tracer_record _ t := t;
}.

#[export] Instance InMemorySyscallTracer : SyscallTracer (list SyscallTraceEvent) := {
  tracer_enabled _ := true;
  tracer_record e t := t ++ [e];
}.

Class SyscallSubsystems (S : Type) : Type := {
  dispatch_file : SyscallRequest → S → SyscallOutcome * S;
  dispatch_memory : SyscallRequest → S → SyscallOutcome * S;
  dispatch_task : SyscallRequest → S → SyscallOutcome * S;
  dispatch_time : SyscallRequest → S → SyscallOutcome * S;
  dispatch_network : SyscallRequest → S → SyscallOutcome * S;
  dispatch_event : SyscallRequest → S → SyscallOutcome * S;
  supports_fast_task : SyscallRequest → S → bool;
  dispatch_fast_task : SyscallRequest → S → SyscallOutcome * S;
}.

(** The traits' provided methods: a call the subsystem does not override is unsupported. *)
Definition unsupported_outcome (_ : SyscallRequest) : SyscallOutcome := outcome_unsupported.

Definition DefaultSyscallSubsystems : SyscallSubsystems unit := {|
  dispatch_file rq s := (unsupported_outcome rq, s);
  dispatch_memory rq s := (unsupported_outcome rq, s);
  dispatch_task rq s := (unsupported_outcome rq, s);
  dispatch_time rq s := (unsupported_outcome rq, s);
  dispatch_network rq s := (unsupported_outcome rq, s);
  dispatch_event rq s := (unsupported_outcome rq, s);
  supports_fast_task _ _ := false;
  dispatch_fast_task rq s := (unsupported_outcome rq, s);
|}.

(** What every subsystem of the repository satisfies: an outcome flagged unsupported is the
    one [SyscallOutcome::unsupported] builds, the only constructor that sets the flag. *)
Definition unsupported_is_enosys (o : SyscallOutcome) : Prop :=
  so_unsupported o = true → so_result o = unsupported_return.

Class SyscallSubsystemsLaws (S : Type) `{SyscallSubsystems S} : Prop := {
  subsystem_outcomes : ∀ rq s,
    unsupported_is_enosys (dispatch_file rq s).1 ∧
    unsupported_is_enosys (dispatch_memory rq s).1 ∧
    unsupported_is_enosys (dispatch_task rq s).1 ∧
    unsupported_is_enosys (dispatch_time rq s).1 ∧
    unsupported_is_enosys (dispatch_network rq s).1 ∧
    unsupported_is_enosys (dispatch_event rq s).1 ∧
    unsupported_is_enosys (dispatch_fast_task rq s).1;
}.

Record SyscallDispatchResult : Type := {
  dr_result : SyscallReturn;
  dr_encoded_rax : Z;
}.

Definition result_from_return (result : SyscallReturn) : SyscallDispatchResult :=
  {| dr_result := result; dr_encoded_rax := encode_u64 result |}.

(** ** Dispatch *)
Section dispatcher.
Context {S T : Type} `{SyscallSubsystems S} `{SyscallTracer T}.

Definition record_enter (rq : SyscallRequest) (t : T) : T :=
  if tracer_enabled t
  then tracer_record (EvEnter (rq_context rq) (rq_syscall rq) (rq_args rq)) t
  else t.

Definition record_outcome (rq : SyscallRequest) (o : SyscallOutcome) (t : T)
    : SyscallDispatchResult * T :=
  let result := so_result o in
  if negb (tracer_enabled t) then (result_from_return result, t) else
  let event :=
    if so_unsupported o
    then unsupported_event_for_syscall (rq_context rq) (rq_syscall rq) (rq_args rq)
    else EvExit (rq_context rq) (rq_syscall rq) (rq_args rq) result in
  (result_from_return result, tracer_record event t).

Definition dispatch_fast_no_memory_syscall (rq : SyscallRequest) (s : S) (t : T)
    : option (SyscallDispatchResult * S * T) :=
  let is_fast := match rq_syscall rq with SysGetpid | SysGettid => true | _ => false end in
  if negb is_fast || negb (supports_fast_task rq s) then None else
  let t := record_enter rq t in
  let (o, s) := dispatch_fast_task rq s in
  let (r, t) := record_outcome rq o t in
  Some (r, s, t).

Definition dispatch_subsystem (sub : SyscallSubsystem) : SyscallRequest → S → SyscallOutcome * S :=
  match sub with
  | SubFile => dispatch_file
  | SubMemory => dispatch_memory
  | SubTask => dispatch_task
  | SubTime => dispatch_time
  | SubNetwork => dispatch_network
  | SubEvent => dispatch_event
  end.

Definition dispatch (context : GuestContext) (s : S) (t : T) : SyscallDispatchResult * S * T :=
  let rq := from_guest_context context in
  match dispatch_fast_no_memory_syscall rq s t with
  | Some r => r
  | None =>
      match syscall_descriptor (rq_syscall rq) with
      | None =>
          if negb (tracer_enabled t) then (result_from_return unsupported_return, s, t) else
          let event := unsupported_event_new (rq_context rq) (rq_number rq) (rq_args rq) in
          (result_from_return unsupported_return, s, tracer_record event t)
      | Some descriptor =>
          let t := record_enter rq t in
          let (o, s) := dispatch_subsystem (sd_subsystem descriptor) rq s in
          let (r, t) := record_outcome rq o t in
          (r, s, t)
      end
  end.
End dispatcher.

(** ** Properties *)

Lemma record_outcome_result `{SyscallTracer T} rq o (t : T) :
  (record_outcome rq o t).1 = result_from_return (so_result o).
Proof. unfold record_outcome. by destruct (negb _). Qed.

(** What [dispatch] answers, with no tracer in it. *)
Definition dispatch_answer {S : Type} `{SyscallSubsystems S} (context : GuestContext) (s : S)
    : SyscallDispatchResult * S :=
  let rq := from_guest_context context in
  let is_fast := match rq_syscall rq with SysGetpid | SysGettid => true | _ => false end in
  let run (f : SyscallRequest → S → SyscallOutcome * S) :=
    (result_from_return (so_result (f rq s).1), (f rq s).2) in
  if is_fast && supports_fast_task rq s then run dispatch_fast_task else
  match scan_descriptor (rq_syscall rq) with
  | None => (result_from_return unsupported_return, s)
  | Some d => run (dispatch_subsystem (sd_subsystem d))
  end.

(** what the guest sees does not depend on tracing: whatever the tracer, [dispatch]
    returns the value, the encoded [rax] and the subsystem state of the subsystem the table
    names (the fast path included), and [ENOSYS] with the state untouched for an unknown call. *)
Theorem dispatch_tracer_independent {S T : Type} `{SyscallSubsystems S} `{SyscallTracer T}
    (context : GuestContext) (s : S) (t : T) :
  (dispatch context s t).1 = dispatch_answer context s.
Proof.
  unfold dispatch, dispatch_answer, dispatch_fast_no_memory_syscall.
  set (rq := from_guest_context context).
  rewrite <- descriptor_scan, <- negb_andb.
  destruct (match rq_syscall rq with SysGetpid | SysGettid => true | _ => false end &&
            supports_fast_task rq s); cbn [negb].
  - destruct (dispatch_fast_task rq s) as [o s'] eqn:Ho.
    pose proof (record_outcome_result rq o (record_enter rq t)) as Hr.
    destruct (record_outcome _ _ _) as [r t']. simpl in *. by subst.
  - destruct (syscall_descriptor (rq_syscall rq)) as [d|]; [|by destruct (negb _)].
    destruct (dispatch_subsystem (sd_subsystem d) rq s) as [o s'] eqn:Ho.
    pose proof (record_outcome_result rq o (record_enter rq t)) as Hr.
    destruct (record_outcome _ _ _) as [r t']. simpl in *. by subst.
Qed.

(** The events one traced dispatch appends. *)
Definition bracketed (rq : SyscallRequest) (r : SyscallReturn) (evs : list SyscallTraceEvent) : Prop :=
  (∃ ev, evs = [EvEnter (rq_context rq) (rq_syscall rq) (rq_args rq); ev] ∧
         event_result ev = Some r) ∨
  (∃ ev, evs = [ev] ∧ event_result ev = Some r ∧ is_known (rq_syscall rq) = false).

(** under the in-memory tracer every dispatch appends an enter event followed by exactly
    one exit or unsupported event whose result is the one returned to the guest (an unknown call
    appends the unsupported event alone). *)
Theorem dispatch_trace_bracketed {S : Type} `{SyscallSubsystemsLaws S}
    (context : GuestContext) (s : S) (t : list SyscallTraceEvent) :
  ∃ evs, (dispatch context s t).2 = t ++ evs ∧
         bracketed (from_guest_context context) (dr_result (dispatch context s t).1.1) evs.
Proof.
  unfold dispatch, dispatch_fast_no_memory_syscall. set (rq := from_guest_context context).
  destruct (subsystem_outcomes rq s) as (Hf & Hm & Htk & Hti & Hn & He & Hfast).
  assert (Hrun : ∀ o, unsupported_is_enosys o → ∃ evs,
    (record_outcome rq o (record_enter rq t)).2 = t ++ evs ∧ bracketed rq (so_result o) evs).
  { intros o Ho. unfold record_outcome, record_enter. simpl.
    destruct (so_unsupported o) eqn:Hu; eexists [_; _]; rewrite <- app_assoc; split; try done;
      left; eexists; split; try done; simpl. by rewrite (Ho Hu). }
  destruct (negb _ || negb _).
  - assert (Hsub : unsupported_is_enosys
              (dispatch_subsystem (default SubFile (sd_subsystem <$> syscall_descriptor (rq_syscall rq))) rq s).1)
      by (destruct (default _ _); done).
    destruct (syscall_descriptor (rq_syscall rq)) as [d|] eqn:Hd; simpl in Hsub.
    + destruct (dispatch_subsystem (sd_subsystem d) rq s) as [o s'].
      destruct (Hrun o Hsub) as (evs & Hevs & Hb). exists evs.
      pose proof (record_outcome_result rq o (record_enter rq t)) as Hr.
      destruct (record_outcome _ _ _) as [r t']. simpl in *. by subst.
    + eexists [_]. split; [done|]. right. eexists. split_and!; try done.
      destruct (is_known (rq_syscall rq)) eqn:Hk; [|done].
      destruct (known_in_table _ Hk) as (d & Hin & Hds). rewrite descriptor_scan in Hd.
      unfold scan_descriptor in Hd.
      destruct (list_find_elem_of (λ d, sd_syscall d = rq_syscall rq) _ _ Hin Hds) as [[i d'] Hfd].
      by rewrite Hfd in Hd.
  - destruct (dispatch_fast_task rq s) as [o s']. simpl in Hfast.
    destruct (Hrun o Hfast) as (evs & Hevs & Hb). exists evs.
    pose proof (record_outcome_result rq o (record_enter rq t)) as Hr.
    destruct (record_outcome _ _ _) as [r t']. simpl in *. by subst.
Qed.

Lemma dispatch_trace_bracketed_witness :
  let ctx := {| gc_pid := 1; gc_tid := 1;
                gc_registers := {| sr_rax := 0; sr_rdi := 3; sr_rsi := 0; sr_rdx := 0;
                                   sr_r10 := 0; sr_r8 := 0; sr_r9 := 0; sr_rip := 4096 |} |} in
  ∃ evs, (@dispatch unit _ DefaultSyscallSubsystems _ ctx tt []).2 = [] ++ evs ∧
         bracketed (from_guest_context ctx)
           (dr_result (@dispatch unit _ DefaultSyscallSubsystems _ ctx tt []).1.1) evs.
Proof.
  intros ctx. apply (@dispatch_trace_bracketed unit DefaultSyscallSubsystems).
  constructor. intros rq s. by split_and!.
Defined.
