(* ===== verification/HostMemory.v ===== *)
(** * Host memory blocks

    The part of the Windows adapter that guest memory is built on: owned host
    allocations with bounds-checked protection changes
    (crates/mcr-win/src/memory.rs), shared between guest memories through
    reference-counted [Arc]s.

    What the operating system answers to [VirtualAlloc], [VirtualProtect] and
    [FlushInstructionCache] is not code of the repository: it is the parameter
    [HostOs], consulted with a clock so that the same call may answer differently
    each time.  A block carries the sequence of protection requests the program
    sent for it, latest first. *)

From S2P Require Import Prelude SysAbi.
From stdpp Require Import base gmap list sorting strings.
From Stdlib Require Import ZArith Lia.
Open Scope Z_scope.

Inductive MemoryProtection : Type :=
| NoAccess | ReadOnly | ReadWrite | ExecuteRead | ExecuteReadWrite.

#[export] Instance MemoryProtection_eq_dec : EqDecision MemoryProtection.
Proof. solve_decision. Defined.

Record HostError : Type := { he_kind : HostErrorKind; he_code : option Z }.

Definition invalid_input : HostError := {| he_kind := HostInvalidInput; he_code := None |}.

(** One [VirtualProtect] request on a block. *)
Record ProtectRequest : Type := { pq_offset : Z; pq_len : Z; pq_protection : MemoryProtection }.

Record HostMemory : Type := {
  hm_bytes : list Z;
  hm_protections : list ProtectRequest;
}.

Definition hm_len (m : HostMemory) : Z := zlen (hm_bytes m).

(** The protection last requested for the byte at [off]. *)
Definition requested_protection (m : HostMemory) (off : Z) : option MemoryProtection :=
  (λ p : nat * ProtectRequest, pq_protection p.2) <$>
    list_find (λ r, pq_offset r ≤ off ∧ off < pq_offset r + pq_len r) (hm_protections m).

(** ** The operating system *)
Class HostOs : Type := {
  (** The allocation granularity the crate is compiled for (cfg(windows) or not). *)
  os_granularity : Z;
  (** clock, address, size, protection: the bytes of the new block or a failure. *)
  os_allocate : nat → option Z → Z → MemoryProtection → list Z + HostError;
  os_protect : nat → Z → Z → MemoryProtection → option HostError;
  os_flush : nat → Z → Z → option HostError;
}.

Class HostOsLaws (OS : HostOs) : Prop := {
  os_granularity_cfg : os_granularity = 0x1000 ∨ os_granularity = 0x10000;
  os_allocate_size : ∀ clock address size protection bytes,
    os_allocate clock address size protection = inl bytes → zlen bytes = size;
}.

(** ** The heap of shared blocks *)
Record ArcBlock : Type := { ab_memory : HostMemory; ab_strong : Z }.

Record HostHeap : Type := {
  hh_blocks : gmap Z ArcBlock;
  hh_next : Z;
  hh_clock : nat;
}.

Definition hh_set_blocks (f : gmap Z ArcBlock → gmap Z ArcBlock) (h : HostHeap) : HostHeap :=
  {| hh_blocks := f (hh_blocks h); hh_next := hh_next h; hh_clock := hh_clock h |}.
Definition hh_tick (h : HostHeap) : HostHeap :=
  {| hh_blocks := hh_blocks h; hh_next := hh_next h; hh_clock := S (hh_clock h) |}.

Definition HostM (A : Type) : Type := ST HostHeap HostError A.

Section host.
Context `{OS : HostOs}.

Definition allocate_platform (address : option Z) (size : Z) (protection : MemoryProtection)
    : HostM HostMemory :=
  let* clock := gets hh_clock in
  do* modify hh_tick;
  match os_allocate clock address size protection with
  | inl bytes => ret {| hm_bytes := bytes;
                        hm_protections := [{| pq_offset := 0; pq_len := zlen bytes;
                                              pq_protection := protection |}] |}
  | inr e => throw e
  end.

(** [HostMemory::allocate] *)
Definition allocate (size : Z) (protection : MemoryProtection) : HostM HostMemory :=
  if size =? 0 then throw invalid_input else allocate_platform None size protection.

(** [HostMemory::allocate_at] *)
Definition allocate_at (address size : Z) (protection : MemoryProtection) : HostM HostMemory :=
  if (address =? 0) || (size =? 0) then throw invalid_input
  else allocate_platform (Some address) size protection.

(** [HostMemory::protect_range] on a block that is not shared yet. *)
Definition protect_range (m : HostMemory) (offset len : Z) (protection : MemoryProtection)
    : HostM HostMemory :=
  match checked_add64 offset len with
  | None => throw invalid_input
  | Some end_ =>
      if (len =? 0) || (hm_len m <? end_) then throw invalid_input else
      let* clock := gets hh_clock in
      do* modify hh_tick;
      match os_protect clock offset len protection with
      | None => ret {| hm_bytes := hm_bytes m;
                       hm_protections := {| pq_offset := offset; pq_len := len;
                                            pq_protection := protection |} :: hm_protections m |}
      | Some e => throw e
      end
  end.

(** [HostMemory::flush_instruction_cache_range] *)
Definition flush_instruction_cache_range (m : HostMemory) (offset len : Z) : HostM unit :=
  match checked_add64 offset len with
  | None => throw invalid_input
  | Some end_ =>
      if (len =? 0) || (hm_len m <? end_) then throw invalid_input else
      let* clock := gets hh_clock in
      do* modify hh_tick;
      match os_flush clock offset len with
      | None => ret tt
      | Some e => throw e
      end
  end.

(** ** Shared blocks: [Arc<HostMemory>] *)
Definition arc_get (b : Z) : HostM HostMemory :=
  let* blocks := gets hh_blocks in
  lift (expect (ab_memory <$> blocks !! b)).

Definition arc_strong_count (b : Z) : HostM Z :=
  let* blocks := gets hh_blocks in
  lift (expect (ab_strong <$> blocks !! b)).

Definition arc_set (b : Z) (m : HostMemory) : HostM unit :=
  modify (hh_set_blocks (alter (λ a, {| ab_memory := m; ab_strong := ab_strong a |}) b)).

Definition arc_new (m : HostMemory) : HostM Z :=
  λ h, (Ok (hh_next h),
        {| hh_blocks := <[hh_next h := {| ab_memory := m; ab_strong := 1 |}]> (hh_blocks h);
           hh_next := hh_next h + 1; hh_clock := hh_clock h |}).

Definition arc_clone (b : Z) : HostM unit :=
  modify (hh_set_blocks (alter (λ a, {| ab_memory := ab_memory a;
                                        ab_strong := ab_strong a + 1 |}) b)).

(** Dropping a reference frees the block with the last one. *)
Definition drop_ref (b : Z) (blocks : gmap Z ArcBlock) : gmap Z ArcBlock :=
  match blocks !! b with
  | Some a => if ab_strong a =? 1 then delete b blocks
              else <[b := {| ab_memory := ab_memory a; ab_strong := ab_strong a - 1 |}]> blocks
  | None => blocks
  end.

Definition arc_drop (b : Z) : HostM unit := modify (hh_set_blocks (drop_ref b)).

(** [protect_range] and [protect] through a shared reference. *)
Definition arc_protect_range (b offset len : Z) (protection : MemoryProtection) : HostM unit :=
  let* m := arc_get b in
  let* m := protect_range m offset len protection in
  arc_set b m.

Definition arc_protect (b : Z) (protection : MemoryProtection) : HostM unit :=
  let* m := arc_get b in
  arc_protect_range b 0 (hm_len m) protection.

Definition arc_flush (b offset len : Z) : HostM unit :=
  let* m := arc_get b in
  flush_instruction_cache_range m offset len.
End host.
