(* ===== verification/GuestMemory.v ===== *)
(** * mcr-memory: addresses and data

    Page arithmetic and range validation (crates/mcr-memory/src/ranges.rs), on 64-bit words with
    their overflow checks; then the areas, the allocations and the operations on them that the
    calls share (crates/mcr-memory/src/lib.rs). *)

From S2P Require Import Prelude SysAbi HostMemory.
From stdpp Require Import base gmap list sorting strings.
From Stdlib Require Import ZArith Lia.
Open Scope Z_scope.

Inductive GuestMemoryError : Type :=
| InvalidAddress | InvalidLength | InvalidProtection | InvalidFlags | InvalidOffset
| BadFileDescriptor | AddressInUse | NotMapped | OutOfMemory | AccessDenied
| RegionTooLarge | Host (e : HostError).

Definition GUEST_PAGE_SIZE : Z := 4096.
Definition MIN_GUEST_ADDRESS : Z := GUEST_PAGE_SIZE.
Definition DEFAULT_MMAP_BASE : Z := 0x700000000000.
Definition GUEST_ADDRESS_SPACE_END : Z := 0x800000000000.

Definition is_page_aligned (value : Z) : bool := value mod GUEST_PAGE_SIZE =? 0.

Definition align_up (value : Z) : outcome Z GuestMemoryError :=
  let mask := GUEST_PAGE_SIZE - 1 in
  match checked_add64 value mask with
  | Some value => Ok (Z.land value (Z.lnot mask))
  | None => Err InvalidLength
  end.

Definition align_down_to (value alignment : Z) : Z := Z.land value (Z.lnot (alignment - 1)).

Definition align_up_to (value alignment : Z) : outcome Z GuestMemoryError :=
  let mask := alignment - 1 in
  match checked_add64 value mask with
  | Some value => Ok (Z.land value (Z.lnot mask))
  | None => Err InvalidLength
  end.

Definition page_round_length (length : Z) : outcome Z GuestMemoryError :=
  if length =? 0 then Err InvalidLength else align_up length.

Definition checked_raw_range (start length : Z) : outcome Z GuestMemoryError :=
  match checked_add64 start length with
  | Some end_ => if start <=? end_ then Ok end_ else Err InvalidLength
  | None => Err InvalidLength
  end.

Definition checked_page_range (start length : Z) : outcome Z GuestMemoryError :=
  if negb (is_page_aligned start) || (length =? 0) then Err InvalidAddress else
  let? length := page_round_length length in
  checked_raw_range start length.

Definition raw_ranges_overlap (lhs rhs len : Z) : outcome bool GuestMemoryError :=
  if len =? 0 then Ok false else
  let? lhs_end := checked_raw_range lhs len in
  let? rhs_end := checked_raw_range rhs len in
  Ok ((lhs <? rhs_end) && (rhs <? lhs_end)).

Definition checked_mapping_end (start length address_space_end : Z) : outcome Z GuestMemoryError :=
  if (start <? MIN_GUEST_ADDRESS) || negb (is_page_aligned start) then Err InvalidAddress else
  let? end_ := checked_raw_range start length in
  if address_space_end <? end_ then Err OutOfMemory else Ok end_.

Definition is_supported_madvise (advice : Z) : bool :=
  ((0 <=? advice) && (advice <=? 4)) || ((8 <=? advice) && (advice <=? 25)) ||
  (advice =? 100) || (advice =? 101).

(** [usize::try_from] on the 64-bit host. *)
Definition usize_try_from (value : Z) : outcome Z GuestMemoryError :=
  if (0 <=? value) && (value <=? U64_MAX) then Ok value else Err RegionTooLarge.

(** ** Lemmas *)
Definition aligned (value : Z) : Prop := value mod GUEST_PAGE_SIZE = 0.

Lemma is_page_aligned_spec v : is_page_aligned v = true ↔ aligned v.
Proof. unfold is_page_aligned, aligned. apply Z.eqb_eq. Qed.

Lemma aligned_mult v : aligned v ↔ ∃ k, v = k * 4096.
Proof.
  unfold aligned, GUEST_PAGE_SIZE. split.
  - intros H. exists (v / 4096). pose proof (Z.div_mod v 4096 ltac:(lia)). lia.
  - intros [k ->]. apply Z.mod_mul. lia.
Qed.

Lemma page_mask v : Z.land v (Z.lnot (GUEST_PAGE_SIZE - 1)) = v - v mod GUEST_PAGE_SIZE.
Proof. apply (land_lnot_ones v 12). lia. Qed.

Lemma round_down_aligned v : aligned (v - v mod GUEST_PAGE_SIZE).
Proof.
  unfold aligned, GUEST_PAGE_SIZE. rewrite Zminus_mod_idemp_r, Z.sub_diag. done.
Qed.

(** [align_up] fails exactly when the rounded value does not fit, and otherwise is
    the least page boundary not below its argument. *)
Lemma align_up_Ok v r :
  0 ≤ v → align_up v = Ok r ↔
  aligned r ∧ v ≤ r < v + GUEST_PAGE_SIZE ∧ v + (GUEST_PAGE_SIZE - 1) < 2 ^ 64.
Proof.
  unfold align_up. intros Hv. destruct (checked_add64 _ _) as [w|] eqn:Hc.
  - apply checked_add64_Some in Hc as [-> Hlt]. rewrite page_mask.
    pose proof (round_down_aligned (v + (GUEST_PAGE_SIZE - 1))) as Ha.
    pose proof (Z.mod_pos_bound (v + (GUEST_PAGE_SIZE - 1)) GUEST_PAGE_SIZE eq_refl).
    split; [intros [= <-]; unfold GUEST_PAGE_SIZE in *; split_and!; (exact Ha || lia)|].
    intros (Hr & Hb & _). f_equal. revert Ha. rewrite aligned_mult in Hr |- *.
    destruct Hr as [b ->]. intros [a Ha]. unfold GUEST_PAGE_SIZE in *. lia.
  - apply checked_add64_None in Hc. split; [done|]. lia.
Qed.

Lemma align_up_bounds v r : align_up v = Ok r → 0 ≤ v → aligned r ∧ v ≤ r < 2 ^ 64.
Proof. intros H Hv. apply align_up_Ok in H; [|done]. unfold GUEST_PAGE_SIZE in *. split; [tauto|].
  destruct H as (Ha & Hb & Hc). apply aligned_mult in Ha as [a ->]. lia. Qed.

Lemma align_up_aligned v : aligned v → 0 ≤ v → v + 4095 < 2 ^ 64 → align_up v = Ok v.
Proof. intros. apply align_up_Ok; [done|]. unfold GUEST_PAGE_SIZE in *. split_and!; (done || lia). Qed.

Lemma align_up_no_panic v : align_up v ≠ Panic.
Proof. unfold align_up. by destruct (checked_add64 _ _). Qed.

Lemma checked_raw_range_Ok start length r :
  0 ≤ length → checked_raw_range start length = Ok r ↔ r = start + length ∧ start + length < 2 ^ 64.
Proof.
  unfold checked_raw_range. intros. destruct (checked_add64 _ _) as [w|] eqn:Hc.
  - apply checked_add64_Some in Hc as [-> Hlt]. destruct (Z.leb_spec start (start + length)); [|lia].
    naive_solver.
  - apply checked_add64_None in Hc. split; [done|lia].
Qed.

Lemma checked_raw_range_no_panic s l : checked_raw_range s l ≠ Panic.
Proof. unfold checked_raw_range. destruct (checked_add64 _ _); [|done]. by destruct (_ <=? _). Qed.

Lemma checked_mapping_end_Ok start length space r :
  0 ≤ length → checked_mapping_end start length space = Ok r ↔
  r = start + length ∧ MIN_GUEST_ADDRESS ≤ start ∧ aligned start ∧
  start + length ≤ space ∧ start + length < 2 ^ 64.
Proof.
  intros Hl. unfold checked_mapping_end. rewrite <- (is_page_aligned_spec start).
  destruct (Z.ltb_spec start MIN_GUEST_ADDRESS); simpl; [split; [done|lia]|].
  destruct (is_page_aligned start); simpl; [|split; [done|naive_solver]].
  destruct (checked_raw_range start length) as [e|e|] eqn:Hr; simpl.
  - apply checked_raw_range_Ok in Hr as [-> ?]; [|done].
    destruct (Z.ltb_spec space (start + length)); naive_solver lia.
  - split; [done|]. intros (-> & _ & _ & _ & Hlt).
    assert (checked_raw_range start length = Ok (start + length)) by (by apply checked_raw_range_Ok).
    congruence.
  - by apply checked_raw_range_no_panic in Hr.
Qed.

Lemma checked_mapping_end_no_panic s l e : checked_mapping_end s l e ≠ Panic.
Proof.
  unfold checked_mapping_end. destruct (_ || _); [done|].
  pose proof (checked_raw_range_no_panic s l).
  destruct (checked_raw_range s l); simpl; try done. by destruct (_ <? _).
Qed.

Lemma checked_page_range_Ok start length r :
  0 ≤ start → 0 ≤ length → checked_page_range start length = Ok r →
  aligned start ∧ aligned r ∧ start < r < 2 ^ 64 ∧ start + length ≤ r < start + length + GUEST_PAGE_SIZE.
Proof.
  unfold checked_page_range, page_round_length. intros Hs Hl H.
  destruct (is_page_aligned start) eqn:Ha; simpl in H; [|done].
  destruct (Z.eqb_spec length 0); simpl in H; [done|].
  destruct (align_up length) as [len|e|] eqn:Hu; simpl in H; [|done|done].
  apply align_up_Ok in Hu as (Hal & Hb & Hc); [|lia].
  apply checked_raw_range_Ok in H as [-> Hlt]; [|lia].
  apply is_page_aligned_spec in Ha. unfold aligned, GUEST_PAGE_SIZE in *.
  split_and!; try lia. rewrite Z.add_mod, Ha, Hal by lia. done.
Qed.

(** A range check never panics. *)
Lemma checked_page_range_no_panic s l : checked_page_range s l ≠ Panic.
Proof.
  unfold checked_page_range, page_round_length. destruct (_ || _); [done|].
  destruct (l =? 0); [done|]. pose proof (align_up_no_panic l).
  destruct (align_up l); simpl; try done. apply checked_raw_range_no_panic.
Qed.

#[export] Hint Resolve align_up_no_panic checked_raw_range_no_panic checked_mapping_end_no_panic
  checked_page_range_no_panic : mcr.

(** ** Guest memory: data and operations

    The memory manager of crates/mcr-memory/src/lib.rs: virtual memory areas
    ([GuestVma]) over host allocations ([GuestAllocation]) that guest memories
    cloned by fork may share.

    A method on [&mut self] runs in [MemM], state passing over a [World]: the host
    heap of shared blocks and the memory itself.  An early return keeps the effects
    done so far, as in the source; [expect] and slice indexing can end in [Panic].
    [GuestAllocation::memory] is the identifier of an [Arc] block. *)

(** ** Data *)
Record GuestMemoryProtection : Type := { p_read : bool; p_write : bool; p_execute : bool }.

#[export] Instance GuestMemoryProtection_eq_dec : EqDecision GuestMemoryProtection.
Proof. solve_decision. Defined.

Definition protection_from_linux (prot : Z) : outcome GuestMemoryProtection GuestMemoryError :=
  if negb (without_bits prot LINUX_PROT_VALID_MASK =? 0) then Err InvalidProtection else
  Ok {| p_read := has_bits prot LINUX_PROT_READ;
        p_write := has_bits prot LINUX_PROT_WRITE;
        p_execute := has_bits prot LINUX_PROT_EXEC |}.

Definition to_host (p : GuestMemoryProtection) : MemoryProtection :=
  match p_read p, p_write p, p_execute p with
  | _, true, true => ExecuteReadWrite
  | _, true, false => ReadWrite
  | _, false, true => ExecuteRead
  | true, false, false => ReadOnly
  | false, false, false => NoAccess
  end.

Inductive GuestVmaKind : Type :=
| Anonymous
| Heap
| FileBacked (fd offset : Z) (shared : bool).

#[export] Instance GuestVmaKind_eq_dec : EqDecision GuestVmaKind.
Proof. solve_decision. Defined.

Definition is_heap (k : GuestVmaKind) : bool := match k with Heap => true | _ => false end.

Record GuestVma : Type := {
  v_start : Z;
  v_end : Z;
  v_protection : GuestMemoryProtection;
  v_kind : GuestVmaKind;
  v_allocation_id : Z;
  v_allocation_offset : Z;
}.

#[export] Instance GuestVma_eq_dec : EqDecision GuestVma.
Proof. solve_decision. Defined.

Definition vma_len (v : GuestVma) : Z := wsub (v_end v) (v_start v).
Definition vma_contains (v : GuestVma) (address : Z) : bool :=
  (v_start v <=? address) && (address <? v_end v).

Definition vma_with_end (v : GuestVma) (e : Z) : GuestVma :=
  {| v_start := v_start v; v_end := e; v_protection := v_protection v; v_kind := v_kind v;
     v_allocation_id := v_allocation_id v; v_allocation_offset := v_allocation_offset v |}.
Definition vma_with_start (v : GuestVma) (s off : Z) : GuestVma :=
  {| v_start := s; v_end := v_end v; v_protection := v_protection v; v_kind := v_kind v;
     v_allocation_id := v_allocation_id v; v_allocation_offset := off |}.
Definition vma_with_protection (p : GuestMemoryProtection) (v : GuestVma) : GuestVma :=
  {| v_start := v_start v; v_end := v_end v; v_protection := p; v_kind := v_kind v;
     v_allocation_id := v_allocation_id v; v_allocation_offset := v_allocation_offset v |}.
Definition vma_with_allocation (id off : Z) (v : GuestVma) : GuestVma :=
  {| v_start := v_start v; v_end := v_end v; v_protection := v_protection v; v_kind := v_kind v;
     v_allocation_id := id; v_allocation_offset := off |}.

Definition can_merge (left right : GuestVma) : bool :=
  (v_end left =? v_start right) &&
  bool_decide (v_protection left = v_protection right) &&
  bool_decide (v_kind left = v_kind right) &&
  (v_allocation_id left =? v_allocation_id right) &&
  (wadd (v_allocation_offset left) (vma_len left) =? v_allocation_offset right).

Record GuestAllocation : Type := { a_guest_start : Z; a_memory : Z }.

Inductive HostAddressMode : Type := Flexible | FixedGuest.
Definition is_fixed_guest (m : HostAddressMode) : bool :=
  match m with FixedGuest => true | Flexible => false end.

Record GuestMemory : Type := {
  gm_vmas : gmap Z GuestVma;
  gm_allocations : gmap Z GuestAllocation;
  gm_next_allocation_id : Z;
  gm_brk_base : Z;
  gm_current_brk : Z;
  gm_mmap_base : Z;
  gm_address_space_end : Z;
  gm_host_address_mode : HostAddressMode;
  gm_executable_write_generation : Z;
}.

Record World : Type := { w_host : HostHeap; w_mem : GuestMemory }.

Definition MemM (A : Type) : Type := ST World GuestMemoryError A.

Definition set_vmas (f : gmap Z GuestVma → gmap Z GuestVma) (m : GuestMemory) : GuestMemory :=
  {| gm_vmas := f (gm_vmas m); gm_allocations := gm_allocations m;
     gm_next_allocation_id := gm_next_allocation_id m; gm_brk_base := gm_brk_base m;
     gm_current_brk := gm_current_brk m; gm_mmap_base := gm_mmap_base m;
     gm_address_space_end := gm_address_space_end m;
     gm_host_address_mode := gm_host_address_mode m;
     gm_executable_write_generation := gm_executable_write_generation m |}.
Definition set_allocations (f : gmap Z GuestAllocation → gmap Z GuestAllocation)
    (m : GuestMemory) : GuestMemory :=
  {| gm_vmas := gm_vmas m; gm_allocations := f (gm_allocations m);
     gm_next_allocation_id := gm_next_allocation_id m; gm_brk_base := gm_brk_base m;
     gm_current_brk := gm_current_brk m; gm_mmap_base := gm_mmap_base m;
     gm_address_space_end := gm_address_space_end m;
     gm_host_address_mode := gm_host_address_mode m;
     gm_executable_write_generation := gm_executable_write_generation m |}.
Definition set_next_allocation_id (n : Z) (m : GuestMemory) : GuestMemory :=
  {| gm_vmas := gm_vmas m; gm_allocations := gm_allocations m;
     gm_next_allocation_id := n; gm_brk_base := gm_brk_base m;
     gm_current_brk := gm_current_brk m; gm_mmap_base := gm_mmap_base m;
     gm_address_space_end := gm_address_space_end m;
     gm_host_address_mode := gm_host_address_mode m;
     gm_executable_write_generation := gm_executable_write_generation m |}.
Definition set_current_brk (b : Z) (m : GuestMemory) : GuestMemory :=
  {| gm_vmas := gm_vmas m; gm_allocations := gm_allocations m;
     gm_next_allocation_id := gm_next_allocation_id m; gm_brk_base := gm_brk_base m;
     gm_current_brk := b; gm_mmap_base := gm_mmap_base m;
     gm_address_space_end := gm_address_space_end m;
     gm_host_address_mode := gm_host_address_mode m;
     gm_executable_write_generation := gm_executable_write_generation m |}.
Definition set_base (b : Z) (m : GuestMemory) : GuestMemory :=
  {| gm_vmas := gm_vmas m; gm_allocations := gm_allocations m;
     gm_next_allocation_id := gm_next_allocation_id m; gm_brk_base := gm_brk_base m;
     gm_current_brk := gm_current_brk m; gm_mmap_base := b;
     gm_address_space_end := gm_address_space_end m;
     gm_host_address_mode := gm_host_address_mode m;
     gm_executable_write_generation := gm_executable_write_generation m |}.
Definition set_mode (d : HostAddressMode) (m : GuestMemory) : GuestMemory :=
  {| gm_vmas := gm_vmas m; gm_allocations := gm_allocations m;
     gm_next_allocation_id := gm_next_allocation_id m; gm_brk_base := gm_brk_base m;
     gm_current_brk := gm_current_brk m; gm_mmap_base := gm_mmap_base m;
     gm_address_space_end := gm_address_space_end m;
     gm_host_address_mode := d;
     gm_executable_write_generation := gm_executable_write_generation m |}.
(** [record_executable_write] *)
Definition record_executable_write (m : GuestMemory) : GuestMemory :=
  {| gm_vmas := gm_vmas m; gm_allocations := gm_allocations m;
     gm_next_allocation_id := gm_next_allocation_id m; gm_brk_base := gm_brk_base m;
     gm_current_brk := gm_current_brk m; gm_mmap_base := gm_mmap_base m;
     gm_address_space_end := gm_address_space_end m;
     gm_host_address_mode := gm_host_address_mode m;
     gm_executable_write_generation := wadd (gm_executable_write_generation m) 1 |}.

Definition modify_mem (f : GuestMemory → GuestMemory) : MemM unit :=
  modify (λ w, {| w_host := w_host w; w_mem := f (w_mem w) |}).
Definition gets_mem {A} (f : GuestMemory → A) : MemM A := gets (λ w, f (w_mem w)).

(** [host_call().map_err(GuestMemoryError::Host)] *)
Definition host_op {A} (m : HostM A) : MemM A :=
  λ w, match m (w_host w) with
       | (Ok a, h) => (Ok a, {| w_host := h; w_mem := w_mem w |})
       | (Err e, h) => (Err (Host e), {| w_host := h; w_mem := w_mem w |})
       | (Panic, h) => (Panic, {| w_host := h; w_mem := w_mem w |})
       end.

(** ** Errors *)
Definition memory_host_error_errno (kind : HostErrorKind) : LinuxErrno :=
  match kind with
  | HostAccessDenied => EACCES
  | HostInvalidInput => EINVAL
  | HostOutOfMemory => ENOMEM
  | HostUnsupported => ENOSYS
  | HostInterrupted => EINTR
  | HostTimedOut => ETIMEDOUT
  | HostWouldBlock => EAGAIN
  | HostBrokenPipe => EPIPE
  | HostNotFound => ENOENT
  | HostAlreadyExists => EEXIST
  | HostPoisoned | HostUnavailable | HostOther => EIO
  end.

Definition memory_errno (e : GuestMemoryError) : LinuxErrno :=
  match e with
  | AccessDenied => EACCES
  | AddressInUse => EEXIST
  | BadFileDescriptor => EBADF
  | Host error => memory_host_error_errno (he_kind error)
  | NotMapped | OutOfMemory | RegionTooLarge => ENOMEM
  | InvalidAddress | InvalidLength | InvalidProtection | InvalidFlags | InvalidOffset => EINVAL
  end.

Definition memory_syscall_result (r : outcome Z GuestMemoryError) : outcome SyscallOutcome Empty_set :=
  match r with
  | Ok value => Ok (outcome_success value)
  | Err error => Ok (outcome_errno (memory_errno error))
  | Panic => Panic
  end.

(** ** Construction *)
Definition with_layout (initial_brk mmap_base address_space_end : Z)
    : outcome GuestMemory GuestMemoryError :=
  if negb (is_page_aligned initial_brk) || negb (is_page_aligned mmap_base) ||
     negb (is_page_aligned address_space_end) || (initial_brk <? MIN_GUEST_ADDRESS) ||
     (mmap_base <? MIN_GUEST_ADDRESS) || (address_space_end <=? MIN_GUEST_ADDRESS)
  then Err InvalidAddress else
  Ok {| gm_vmas := ∅; gm_allocations := ∅; gm_next_allocation_id := 1;
        gm_brk_base := initial_brk; gm_current_brk := initial_brk;
        gm_mmap_base := mmap_base; gm_address_space_end := address_space_end;
        gm_host_address_mode := Flexible; gm_executable_write_generation := 0 |}.

Definition memory_new (initial_brk : Z) : outcome GuestMemory GuestMemoryError :=
  with_layout initial_brk DEFAULT_MMAP_BASE GUEST_ADDRESS_SPACE_END.

Definition empty_clone_layout (m : GuestMemory) : GuestMemory :=
  {| gm_vmas := ∅; gm_allocations := ∅; gm_next_allocation_id := 1;
     gm_brk_base := gm_brk_base m; gm_current_brk := gm_current_brk m;
     gm_mmap_base := gm_mmap_base m; gm_address_space_end := gm_address_space_end m;
     gm_host_address_mode := gm_host_address_mode m;
     gm_executable_write_generation := gm_executable_write_generation m |}.

Definition set_mmap_base (mmap_base : Z) : MemM unit :=
  let* space_end := gets_mem gm_address_space_end in
  if (mmap_base <? MIN_GUEST_ADDRESS) || (space_end <=? mmap_base) ||
     negb (is_page_aligned mmap_base)
  then throw InvalidAddress else modify_mem (set_base mmap_base).

(** ** Looking areas up *)
Definition vma_containing (m : GuestMemory) (address : Z) : option GuestVma :=
  match bt_last_le (gm_vmas m) address with
  | Some (_, vma) => if vma_contains vma address then Some vma else None
  | None => None
  end.

Definition overlaps (m : GuestMemory) (start end_ : Z) : bool :=
  existsb (λ vma, (v_start vma <? end_) && (start <? v_end vma)) (bt_values (gm_vmas m)).

Fixpoint range_mapped_loop (vmas : list GuestVma) (cursor end_ : Z) : bool :=
  match vmas with
  | [] => false
  | vma :: vmas =>
      if cursor <? v_start vma then false else
      let cursor := if cursor <? v_end vma then v_end vma else cursor in
      if end_ <=? cursor then true else range_mapped_loop vmas cursor end_
  end.

Definition is_range_mapped (m : GuestMemory) (start end_ : Z) : bool :=
  range_mapped_loop (filter (λ vma, start < v_end vma) (bt_values (gm_vmas m))) start end_.

Fixpoint find_free_loop (vmas : list GuestVma) (space_end candidate length : Z)
    : outcome Z GuestMemoryError :=
  match vmas with
  | [] => let? _ := checked_mapping_end candidate length space_end in Ok candidate
  | vma :: vmas =>
      let? end_ := checked_mapping_end candidate length space_end in
      if end_ <=? v_start vma then Ok candidate else
      let? candidate := (if candidate <? v_end vma then align_up (v_end vma) else Ok candidate) in
      find_free_loop vmas space_end candidate length
  end.

Definition find_free_range (m : GuestMemory) (hint length : Z) : outcome Z GuestMemoryError :=
  let? candidate := align_up hint in
  let candidate := if candidate <? MIN_GUEST_ADDRESS then MIN_GUEST_ADDRESS else candidate in
  find_free_loop (bt_values (gm_vmas m)) (gm_address_space_end m) candidate length.

Definition range_overlaps_executable (m : GuestMemory) (start end_ : Z) : bool :=
  (start <? end_) &&
  existsb (λ vma, p_execute (v_protection vma) && (v_start vma <? end_) && (start <? v_end vma))
    (bt_values (gm_vmas m)).

(** ** Splitting, merging and dropping areas *)
Definition split_vmas_at (address : Z) (m : GuestMemory) : gmap Z GuestVma :=
  match vma_containing m address with
  | None => gm_vmas m
  | Some vma =>
      if (address =? v_start vma) || (address =? v_end vma) then gm_vmas m else
      let left := vma_with_end vma address in
      let right := vma_with_start vma address
                     (wadd (v_allocation_offset vma) (wsub address (v_start left))) in
      <[v_start right := right]> (<[v_start left := left]> (delete (v_start vma) (gm_vmas m)))
  end.

Definition split_vma_at (address : Z) : MemM unit :=
  modify_mem (λ m, set_vmas (λ _, split_vmas_at address m) m).

(** The allocations no area refers to any more are dropped, with their references. *)
Definition referenced (m : GuestMemory) : list Z := v_allocation_id <$> bt_values (gm_vmas m).

Definition drop_unreferenced_allocations : MemM unit :=
  λ w, let m := w_mem w in
       let dropped := filter (λ p : Z * GuestAllocation, p.1 ∉ referenced m)
                        (bt_iter (gm_allocations m)) in
       (Ok tt, {| w_host := hh_set_blocks
                    (λ bs, foldr (λ p bs, drop_ref (a_memory p.2) bs) bs dropped) (w_host w);
                  w_mem := set_allocations
                    (filter (λ p : Z * GuestAllocation, p.1 ∈ referenced m)) m |}).

Definition remove_keys (keys : list Z) (m : gmap Z GuestVma) : gmap Z GuestVma :=
  foldr (λ k m, delete k m) m keys.

Definition unmap_range (start end_ : Z) : MemM unit :=
  do* split_vma_at start;
  do* split_vma_at end_;
  let* vmas := gets_mem gm_vmas in
  let* entries := lift (bt_range vmas start end_) in
  do* modify_mem (set_vmas (remove_keys entries.*1));
  drop_unreferenced_allocations.

(** One step of [coalesce_adjacent]: extend the last merged area or start a new one. *)
Definition coalesce_step (merged : gmap Z GuestVma) (vma : GuestVma) : gmap Z GuestVma :=
  match last (bt_iter merged) with
  | Some (key, previous) =>
      if can_merge previous vma
      then <[key := vma_with_end previous (v_end vma)]> merged
      else <[v_start vma := vma]> merged
  | None => <[v_start vma := vma]> merged
  end.

Definition coalesced (vmas : gmap Z GuestVma) : gmap Z GuestVma :=
  foldl coalesce_step ∅ (bt_values vmas).

Definition coalesce_adjacent : MemM unit := modify_mem (set_vmas coalesced).

(** ** Protections of an allocation *)
Record AllocationProtectionRange : Type := {
  ap_offset : Z;
  ap_len : Z;
  ap_protection : GuestMemoryProtection;
}.

Definition allocation_protection_ranges (m : GuestMemory) (allocation_id : Z)
    : outcome (list AllocationProtectionRange) GuestMemoryError :=
  collect (λ vma,
      let? offset := usize_try_from (v_allocation_offset vma) in
      let? len := usize_try_from (vma_len vma) in
      Ok {| ap_offset := offset; ap_len := len; ap_protection := v_protection vma |})
    (filter (λ vma, v_allocation_id vma = allocation_id) (bt_values (gm_vmas m))).

Section operations.
Context `{OS : HostOs}.

(** [apply_allocation_protections] on a shared block. *)
Definition apply_allocation_protections (b : Z) (ranges : list AllocationProtectionRange)
    : MemM unit :=
  foreach ranges (λ r,
    host_op (arc_protect_range b (ap_offset r) (ap_len r) (to_host (ap_protection r)))).

(** [apply_allocation_protections] on a block not yet in an [Arc]. *)
Fixpoint apply_protections_local (memory : HostMemory) (ranges : list AllocationProtectionRange)
    : MemM HostMemory :=
  match ranges with
  | [] => ret memory
  | r :: ranges =>
      let* memory := host_op (protect_range memory (ap_offset r) (ap_len r)
                                (to_host (ap_protection r))) in
      apply_protections_local memory ranges
  end.

(** [AllocationProtectionGuard]: make the block readable and writable, run the body, restore
    the protections; an early return restores them too, ignoring errors. *)
Definition with_protection_guard {A} (b : Z) (ranges : list AllocationProtectionRange)
    (body : MemM A) : MemM A :=
  do* host_op (arc_protect b ReadWrite);
  on_err (let* a := body in
          do* apply_allocation_protections b ranges;
          ret a)
         (apply_allocation_protections b ranges).

Definition allocate_guest_host_memory_at (start len : Z) (protection : MemoryProtection)
    (mode : HostAddressMode) : MemM HostMemory :=
  match mode with
  | Flexible => host_op (allocate len protection)
  | FixedGuest =>
      let* address := lift (usize_try_from start) in
      host_op (allocate_at address len protection)
  end.

Definition host_allocation_range (start length : Z) : outcome (Z * Z) GuestMemoryError :=
  let? end_ := checked_raw_range start length in
  let guest_start := align_down_to start os_granularity in
  let? guest_end := align_up_to end_ os_granularity in
  Ok (guest_start, wsub guest_end guest_start).

(** [copy_from_slice] over a whole block: the lengths must agree. *)
Definition fill_block (memory : HostMemory) (bytes : list Z) : MemM HostMemory :=
  if zlen bytes =? hm_len memory
  then ret {| hm_bytes := bytes; hm_protections := hm_protections memory |}
  else lift Panic.

(** [&mut memory[offset..offset + bytes.len()]].copy_from_slice(bytes) *)
Definition write_block (memory : HostMemory) (offset : Z) (bytes : list Z) : MemM HostMemory :=
  if (0 <=? offset) && (offset + zlen bytes <=? hm_len memory)
  then ret {| hm_bytes := splice (hm_bytes memory) offset bytes;
              hm_protections := hm_protections memory |}
  else lift Panic.

Definition get_allocation (allocation_id : Z) : MemM (option GuestAllocation) :=
  gets_mem (λ m, gm_allocations m !! allocation_id).

(** [next_allocation_id] and its increment. *)
Definition take_allocation_id : MemM Z :=
  let* allocation_id := gets_mem gm_next_allocation_id in
  let* next := lift (ok_or (checked_add64 allocation_id 1) OutOfMemory) in
  do* modify_mem (set_next_allocation_id next);
  ret allocation_id.

Definition insert_allocation (allocation_id guest_start : Z) (memory : HostMemory) : MemM unit :=
  let* b := host_op (arc_new memory) in
  modify_mem (set_allocations
    (insert allocation_id {| a_guest_start := guest_start; a_memory := b |})).

(** *** Uniqueness: copy on write *)
Definition ensure_allocation_unique (allocation_id : Z) : MemM unit :=
  let* found := get_allocation allocation_id in
  match found with
  | None => throw NotMapped
  | Some allocation =>
      let* strong := host_op (arc_strong_count (a_memory allocation)) in
      if strong =? 1 then ret tt else
      let* ranges := let* m := gets_mem id in lift (allocation_protection_ranges m allocation_id) in
      let* bytes := with_protection_guard (a_memory allocation) ranges
                      (let* block := host_op (arc_get (a_memory allocation)) in
                       ret (hm_bytes block)) in
      let* mode := gets_mem gm_host_address_mode in
      let* memory := allocate_guest_host_memory_at (a_guest_start allocation) (zlen bytes)
                       ReadWrite mode in
      let* memory := fill_block memory bytes in
      let* memory := apply_protections_local memory ranges in
      do* host_op (arc_drop (a_memory allocation));
      insert_allocation allocation_id (a_guest_start allocation) memory
  end.

(** [allocation_memory_mut]: the block of an allocation, exclusively owned. *)
Definition allocation_memory_mut (allocation_id : Z) : MemM Z :=
  do* ensure_allocation_unique allocation_id;
  let* found := get_allocation allocation_id in
  let* allocation := lift (expect found) in
  let* strong := host_op (arc_strong_count (a_memory allocation)) in
  if strong =? 1 then ret (a_memory allocation) else throw AccessDenied.

(** [allocation_memory_mut(id)?.as_mut_slice()[off..].copy_from_slice(bytes)] *)
Definition write_allocation (allocation_id offset : Z) (bytes : list Z) : MemM unit :=
  let* b := allocation_memory_mut allocation_id in
  let* memory := host_op (arc_get b) in
  let* memory := write_block memory offset bytes in
  host_op (arc_set b memory).

(** Give the area at [vma.start] its own allocation when the block is shared. *)
Definition detach_shared_vma (vma : GuestVma) : MemM unit :=
  let* found := get_allocation (v_allocation_id vma) in
  match found with
  | None => throw NotMapped
  | Some allocation =>
      let* strong := host_op (arc_strong_count (a_memory allocation)) in
      if strong =? 1 then ret tt else
      let* len := lift (usize_try_from (vma_len vma)) in
      let* offset := lift (usize_try_from (v_allocation_offset vma)) in
      let* ranges := let* m := gets_mem id in
                     lift (allocation_protection_ranges m (v_allocation_id vma)) in
      let* bytes := with_protection_guard (a_memory allocation) ranges
                      (let* block := host_op (arc_get (a_memory allocation)) in
                       lift (expect (slice (hm_bytes block) offset (wadd offset len)))) in
      let* mode := gets_mem gm_host_address_mode in
      let* memory := allocate_guest_host_memory_at (v_start vma) len ReadWrite mode in
      let* memory := fill_block memory bytes in
      let* memory := host_op (protect_range memory 0 (hm_len memory)
                                (to_host (v_protection vma))) in
      let* allocation_id := take_allocation_id in
      do* insert_allocation allocation_id (v_start vma) memory;
      let* vmas := gets_mem gm_vmas in
      match vmas !! v_start vma with
      | None => throw NotMapped
      | Some _ =>
          modify_mem (set_vmas (alter (vma_with_allocation allocation_id 0) (v_start vma)))
      end
  end.

Definition ensure_guest_range_unique (start end_ : Z) : MemM unit :=
  if end_ <=? start then ret tt else
  let* mode := gets_mem gm_host_address_mode in
  if is_fixed_guest mode then
    let* ids := gets_mem (λ m, list_to_set (C := gset Z)
                  (v_allocation_id <$> filter (λ vma, v_start vma < end_ ∧ start < v_end vma)
                     (bt_values (gm_vmas m)))) in
    foreach (bs_iter ids) ensure_allocation_unique
  else
    do* split_vma_at start;
    do* split_vma_at end_;
    let* vmas := gets_mem gm_vmas in
    let* entries := lift (bt_range vmas start end_) in
    do* foreach entries.*1 (λ key,
          let* vmas := gets_mem gm_vmas in
          let* vma := lift (ok_or (vmas !! key) NotMapped) in
          detach_shared_vma vma);
    drop_unreferenced_allocations.

Definition ensure_guest_page_range_unique (start end_ : Z) : MemM unit :=
  if end_ <=? start then ret tt else
  let page_start := align_down_to start GUEST_PAGE_SIZE in
  let* page_end := lift (align_up_to end_ GUEST_PAGE_SIZE) in
  ensure_guest_range_unique page_start page_end.
End operations.
