(* ===== verification/GuestMemoryOps.v ===== *)
(** * Guest memory: the system-call level operations

    Host allocation of new mappings, [mmap], [munmap], [mprotect], [brk],
    [madvise], reads and writes, code patching, the libc intrinsics and the
    fork-time clone (crates/mcr-memory/src/lib.rs, syscalls.rs, intrinsics.rs). *)

From S2P Require Import Prelude SysAbi HostMemory GuestMemory.
From stdpp Require Import base gmap list sorting strings.
From Stdlib Require Import ZArith Lia.
Open Scope Z_scope.

Definition MMAP_HOST_CONFLICT_RETRIES : Z := 64.

Definition guest_end (blocks : gmap Z ArcBlock) (a : GuestAllocation) : Z :=
  saturating_add64 (a_guest_start a) (default 0 (hm_len <$> (ab_memory <$> blocks !! a_memory a))).
Definition contains_guest_range (blocks : gmap Z ArcBlock) (a : GuestAllocation) (start end_ : Z) : bool :=
  (a_guest_start a <=? start) && (end_ <=? guest_end blocks a).
Definition overlaps_guest_range (blocks : gmap Z ArcBlock) (a : GuestAllocation) (start end_ : Z) : bool :=
  (a_guest_start a <? end_) && (start <? guest_end blocks a).

Record SavedAllocation : Type := {
  sv_allocation_id : Z;
  sv_guest_start : Z;
  sv_bytes : list Z;
  sv_ranges : list AllocationProtectionRange;
}.

Inductive AccessKind : Type := AccessRead | AccessWrite.

Definition access_check (k : AccessKind) (p : GuestMemoryProtection) : outcome unit GuestMemoryError :=
  match k with
  | AccessRead => if p_read p then Ok tt else Err AccessDenied
  | AccessWrite => if p_write p then Ok tt else Err AccessDenied
  end.

Definition guest_slice_offset (vma : GuestVma) (address : Z) : outcome Z GuestMemoryError :=
  usize_try_from (wadd (v_allocation_offset vma) (wsub address (v_start vma))).

Record GuestBrkOutcome : Type := { bo_current : Z; bo_error : option GuestMemoryError }.

Definition mmap_kind (args : MmapSyscallArgs) : outcome GuestVmaKind GuestMemoryError :=
  if negb (without_bits (mm_flags args) LINUX_MAP_VALID_MASK =? 0) ||
     has_bits (mm_flags args) (Z.lor LINUX_MAP_HUGETLB LINUX_MAP_SYNC)
  then Err InvalidFlags else
  let map_type := Z.land (mm_flags args) LINUX_MAP_TYPE_MASK in
  if negb (map_type =? LINUX_MAP_PRIVATE) && negb (map_type =? LINUX_MAP_SHARED)
  then Err InvalidFlags else
  if is_anonymous args then
    if negb (mm_offset args =? 0) then Err InvalidOffset else Ok Anonymous
  else if mm_fd args <? 0 then Err BadFileDescriptor
  else if (mm_offset args <? 0) || negb (is_page_aligned (as_u64 (mm_offset args)))
  then Err InvalidOffset
  else Ok (FileBacked (mm_fd args) (mm_offset args) (has_bits (mm_flags args) LINUX_MAP_SHARED)).

Definition mmap_start (m : GuestMemory) (args : MmapSyscallArgs) (length : Z)
    : outcome Z GuestMemoryError :=
  if is_fixed args || is_fixed_noreplace args then
    if (mm_addr args <? MIN_GUEST_ADDRESS) || negb (is_page_aligned (mm_addr args))
    then Err InvalidAddress else
    let? _ := checked_mapping_end (mm_addr args) length (gm_address_space_end m) in
    if overlaps m (mm_addr args) (wadd (mm_addr args) length) && is_fixed_noreplace args
    then Err AddressInUse else Ok (mm_addr args)
  else
    let? hint := (if mm_addr args =? 0 then Ok (gm_mmap_base m)
                  else align_up (Z.max (mm_addr args) MIN_GUEST_ADDRESS)) in
    find_free_range m hint length.

Definition is_host_error (e : GuestMemoryError) : bool :=
  match e with Host _ => true | _ => false end.

Definition should_retry_mmap_host_conflict (m : GuestMemory) (args : MmapSyscallArgs)
    (attempts : Z) (error : GuestMemoryError) : bool :=
  is_fixed_guest (gm_host_address_mode m) && negb (is_fixed args) &&
  negb (is_fixed_noreplace args) && (attempts <? MMAP_HOST_CONFLICT_RETRIES) && is_host_error error.

Definition next_retry_mmap_start (m : GuestMemory) (previous_start length : Z)
    : outcome Z GuestMemoryError :=
  let? sum := ok_or (checked_add64 previous_start length) OutOfMemory in
  let? next_hint := align_up sum in
  if gm_address_space_end m <=? next_hint then Err OutOfMemory else
  find_free_range m next_hint length.

(** Heap areas *)
Definition heap_vma (m : GuestMemory) : option GuestVma :=
  find (λ vma, is_heap (v_kind vma)) (bt_values (gm_vmas m)).

Definition heap_mapped_end (m : GuestMemory) : Z :=
  match heap_vma m with
  | Some vma => Z.max (v_end vma) (gm_brk_base m)
  | None => gm_brk_base m
  end.

Definition ensure_brk_can_grow (m : GuestMemory) (old_mapped_end new_mapped_end : Z)
    : outcome unit GuestMemoryError :=
  if existsb (λ vma, negb (is_heap (v_kind vma)) && (v_start vma <? new_mapped_end) &&
                     (old_mapped_end <? v_end vma)) (bt_values (gm_vmas m))
  then Err OutOfMemory else Ok tt.

Definition remove_heap_vmas : MemM unit :=
  do* modify_mem (λ m, set_vmas (remove_keys
        (filter (λ p : Z * GuestVma, is_heap (v_kind p.2) = true) (bt_iter (gm_vmas m))).*1) m);
  drop_unreferenced_allocations.

Definition shrink_heap (mapped_end : Z) : MemM unit :=
  let* brk_base := gets_mem gm_brk_base in
  if mapped_end <=? brk_base then remove_heap_vmas else
  do* split_vma_at mapped_end;
  do* modify_mem (λ m, set_vmas (remove_keys
        (filter (λ p : Z * GuestVma, mapped_end ≤ p.1 ∧ is_heap (v_kind p.2) = true)
           (bt_iter (gm_vmas m))).*1) m);
  drop_unreferenced_allocations.

Section operations.
Context `{OS : HostOs}.

(** *** Host allocations for a guest range *)
Definition restore_saved_allocations (saved : list SavedAllocation) : MemM unit :=
  foreach saved (λ a,
    let* mode := gets_mem gm_host_address_mode in
    let* memory := allocate_guest_host_memory_at (sv_guest_start a) (zlen (sv_bytes a))
                     ReadWrite mode in
    let* memory := fill_block memory (sv_bytes a) in
    let* memory := apply_protections_local memory (sv_ranges a) in
    insert_allocation (sv_allocation_id a) (sv_guest_start a) memory).

Fixpoint save_allocations (ids : list Z) : MemM (list SavedAllocation) :=
  match ids with
  | [] => ret []
  | allocation_id :: ids =>
      let* ranges := let* m := gets_mem id in lift (allocation_protection_ranges m allocation_id) in
      let* found := get_allocation allocation_id in
      let* allocation := lift (expect found) in
      let* bytes := with_protection_guard (a_memory allocation) ranges
                      (let* block := host_op (arc_get (a_memory allocation)) in
                       ret (hm_bytes block)) in
      let* saved := save_allocations ids in
      ret ({| sv_allocation_id := allocation_id; sv_guest_start := a_guest_start allocation;
              sv_bytes := bytes; sv_ranges := ranges |} :: saved)
  end.

Definition remove_allocation (allocation_id : Z) : MemM unit :=
  let* found := get_allocation allocation_id in
  match found with
  | None => ret tt
  | Some a =>
      do* modify_mem (set_allocations (delete allocation_id));
      host_op (arc_drop (a_memory a))
  end.

Fixpoint copy_saved (memory : HostMemory) (guest_start : Z) (saved : list SavedAllocation)
    : MemM HostMemory :=
  match saved with
  | [] => ret memory
  | a :: saved =>
      let* offset := lift (usize_try_from (wsub (sv_guest_start a) guest_start)) in
      let* memory := write_block memory offset (sv_bytes a) in
      copy_saved memory guest_start saved
  end.

Definition retarget_vmas (ids : list Z) (allocation_id guest_start : Z)
    (vmas : gmap Z GuestVma) : gmap Z GuestVma :=
  (λ vma, if bool_decide (v_allocation_id vma ∈ ids)
          then vma_with_allocation allocation_id (wsub (v_start vma) guest_start) vma
          else vma) <$> vmas.

(** [match m { Ok(x) => x, Err(e) => { cleanup?; return Err(e) } }] *)
Definition or_else {A} (m : MemM A) (cleanup : MemM unit) : MemM A :=
  λ w, match m w with
       | (Err e, w) => (do* cleanup; throw e) w
       | r => r
       end.

Definition replace_overlapping_allocations (requested_start guest_start guest_end : Z)
    (allocation_ids : list Z) : MemM (Z * Z) :=
  let* saved := save_allocations allocation_ids in
  let* m := gets_mem id in
  let* replacement_ranges := lift (collect (λ vma,
      let? offset := usize_try_from (wsub (v_start vma) guest_start) in
      let? len := usize_try_from (vma_len vma) in
      Ok {| ap_offset := offset; ap_len := len; ap_protection := v_protection vma |})
    (filter (λ vma, v_allocation_id vma ∈ allocation_ids) (bt_values (gm_vmas m)))) in
  do* foreach allocation_ids remove_allocation;
  let* allocation_length := lift (ok_or (checked_sub64 guest_end guest_start) InvalidAddress) in
  let* len := lift (usize_try_from allocation_length) in
  let* mode := gets_mem gm_host_address_mode in
  let* memory := or_else (allocate_guest_host_memory_at guest_start len ReadWrite mode)
                   (restore_saved_allocations saved) in
  let* memory := copy_saved memory guest_start saved in
  let* allocation_id := take_allocation_id in
  do* insert_allocation allocation_id guest_start memory;
  let* found := get_allocation allocation_id in
  let* allocation := lift (expect found) in
  do* or_else (apply_allocation_protections (a_memory allocation) replacement_ranges)
        (do* remove_allocation allocation_id;
         restore_saved_allocations saved);
  do* modify_mem (set_vmas (retarget_vmas allocation_ids allocation_id guest_start));
  ret (allocation_id, wsub requested_start guest_start).

Definition ensure_host_allocation (start length : Z) : MemM (Z * Z) :=
  let* end_ := lift (checked_raw_range start length) in
  let* m := gets_mem id in
  let* blocks := gets (λ w, hh_blocks (w_host w)) in
  match find (λ p : Z * GuestAllocation, contains_guest_range blocks p.2 start end_)
          (bt_iter (gm_allocations m)) with
  | Some (allocation_id, allocation) => ret (allocation_id, wsub start (a_guest_start allocation))
  | None =>
      let* (guest_start0, allocation_length) := lift (host_allocation_range start length) in
      let* guest_end0 := lift (checked_raw_range guest_start0 allocation_length) in
      let overlapping := filter (λ p : Z * GuestAllocation,
            overlaps_guest_range blocks p.2 guest_start0 guest_end0 = true)
          (bt_iter (gm_allocations m)) in
      let guest_start := foldl (λ s p, Z.min s (a_guest_start p.2)) guest_start0 overlapping in
      let guest_end := foldl (λ e p, Z.max e (guest_end blocks p.2)) guest_end0 overlapping in
      match overlapping with
      | _ :: _ => replace_overlapping_allocations start guest_start guest_end overlapping.*1
      | [] =>
          let* allocation_offset := lift (ok_or (checked_sub64 start guest_start) InvalidAddress) in
          let* allocation_length := lift (ok_or (checked_sub64 guest_end guest_start) InvalidAddress) in
          let* len := lift (usize_try_from allocation_length) in
          let* mode := gets_mem gm_host_address_mode in
          let* memory := allocate_guest_host_memory_at guest_start len ReadWrite mode in
          let* allocation_id := take_allocation_id in
          do* insert_allocation allocation_id guest_start memory;
          ret (allocation_id, allocation_offset)
      end
  end.

Definition zero_allocation_range (allocation_id allocation_offset len : Z) : MemM unit :=
  let* offset := lift (usize_try_from allocation_offset) in
  let* _ := lift (ok_or (checked_add64 offset len) RegionTooLarge) in
  let* ranges := let* m := gets_mem id in lift (allocation_protection_ranges m allocation_id) in
  do* ensure_allocation_unique allocation_id;
  let* found := get_allocation allocation_id in
  let* allocation := lift (expect found) in
  do* host_op (arc_protect (a_memory allocation) ReadWrite);
  do* write_allocation allocation_id offset (replicate (Z.to_nat len) 0);
  let* found := get_allocation allocation_id in
  let* allocation := lift (expect found) in
  apply_allocation_protections (a_memory allocation) ranges.

Definition insert_vma (vma : GuestVma) : MemM unit :=
  modify_mem (set_vmas (insert (v_start vma) vma)).

Definition insert_mapping (start length : Z) (protection : GuestMemoryProtection)
    (kind : GuestVmaKind) : MemM unit :=
  let* m := gets_mem id in
  let* end_ := lift (checked_mapping_end start length (gm_address_space_end m)) in
  if overlaps m start end_ then throw AddressInUse else
  let* (allocation_id, allocation_offset) := ensure_host_allocation start length in
  let* offset := lift (usize_try_from allocation_offset) in
  let* len := lift (usize_try_from length) in
  do* zero_allocation_range allocation_id allocation_offset len;
  let* found := get_allocation allocation_id in
  let* allocation := lift (expect found) in
  do* host_op (arc_protect_range (a_memory allocation) offset len (to_host protection));
  insert_vma {| v_start := start; v_end := end_; v_protection := protection; v_kind := kind;
                v_allocation_id := allocation_id; v_allocation_offset := allocation_offset |}.

Definition insert_loaded_mapping (start length : Z) (protection : GuestMemoryProtection)
    (bytes : list Z) : MemM unit :=
  let* m := gets_mem id in
  let* end_ := lift (checked_mapping_end start length (gm_address_space_end m)) in
  if overlaps m start end_ then throw AddressInUse else
  let* len := lift (usize_try_from length) in
  if negb (zlen bytes =? len) then throw InvalidLength else
  let* (allocation_id, allocation_offset) := ensure_host_allocation start length in
  do* ensure_allocation_unique allocation_id;
  let* offset := lift (usize_try_from allocation_offset) in
  do* write_allocation allocation_id offset bytes;
  let* found := get_allocation allocation_id in
  let* allocation := lift (expect found) in
  do* host_op (arc_protect_range (a_memory allocation) offset len (to_host protection));
  insert_vma {| v_start := start; v_end := end_; v_protection := protection; v_kind := Anonymous;
                v_allocation_id := allocation_id; v_allocation_offset := allocation_offset |}.

(** *** mmap, munmap, mprotect *)

(** The retry loop of [mmap]; [fuel] bounds the attempts and never runs out. *)
Fixpoint mmap_loop (fuel : nat) (args : MmapSyscallArgs) (length : Z)
    (protection : GuestMemoryProtection) (kind : GuestVmaKind) (start attempts : Z) : MemM Z :=
  match fuel with
  | O => lift Panic
  | S fuel =>
      do* (if is_fixed args then unmap_range start (wadd start length) else ret tt);
      λ w, match insert_mapping start length protection kind w with
           | (Ok _, w) => (Ok start, w)
           | (Err error, w) =>
               if should_retry_mmap_host_conflict (w_mem w) args attempts error
               then (let* m := gets_mem id in
                     let* start := lift (next_retry_mmap_start m start length) in
                     mmap_loop fuel args length protection kind start (attempts + 1)) w
               else (Err error, w)
           | (Panic, w) => (Panic, w)
           end
  end.

Definition mmap (args : MmapSyscallArgs) : MemM Z :=
  let* protection := lift (protection_from_linux (mm_prot args)) in
  let* length := lift (page_round_length (mm_length args)) in
  let* kind := lift (mmap_kind args) in
  let* m := gets_mem id in
  let* start := lift (mmap_start m args length) in
  mmap_loop (S (S (Z.to_nat MMAP_HOST_CONFLICT_RETRIES))) args length protection kind start 0.

Definition munmap (args : MunmapSyscallArgs) : MemM unit :=
  let* end_ := lift (checked_page_range (mu_addr args) (mu_length args)) in
  unmap_range (mu_addr args) end_.

Definition protect_vmas (keys : list Z) (p : GuestMemoryProtection)
    (vmas : gmap Z GuestVma) : gmap Z GuestVma :=
  foldr (λ k m, alter (vma_with_protection p) k m) vmas keys.

Definition mprotect (args : MprotectSyscallArgs) : MemM unit :=
  let* protection := lift (protection_from_linux (mp_prot args)) in
  if mp_length args =? 0 then ret tt else
  let* end_ := lift (checked_page_range (mp_addr args) (mp_length args)) in
  let* m := gets_mem id in
  if negb (is_range_mapped m (mp_addr args) end_) then throw NotMapped else
  do* split_vma_at (mp_addr args);
  do* split_vma_at end_;
  do* ensure_guest_page_range_unique (mp_addr args) end_;
  let* vmas := gets_mem gm_vmas in
  let* entries := lift (bt_range vmas (mp_addr args) end_) in
  do* foreach entries (λ p,
        let vma := p.2 in
        let* offset := lift (usize_try_from (v_allocation_offset vma)) in
        let* len := lift (usize_try_from (vma_len vma)) in
        let* found := get_allocation (v_allocation_id vma) in
        let* allocation := lift (expect found) in
        host_op (arc_protect_range (a_memory allocation) offset len (to_host protection)));
  do* modify_mem (set_vmas (protect_vmas entries.*1 protection));
  coalesce_adjacent.

(** *** brk *)
Definition resize_heap (mapped_end : Z) : MemM unit :=
  let* m := gets_mem id in
  let brk_base := gm_brk_base m in
  if mapped_end =? brk_base then remove_heap_vmas else
  let old_mapped_end := heap_mapped_end m in
  let* new_size := lift (ok_or (checked_sub64 mapped_end brk_base) InvalidAddress) in
  let protection := {| p_read := true; p_write := true; p_execute := false |} in
  let* (allocation_id, allocation_offset) := ensure_host_allocation brk_base new_size in
  let zero_start := Z.max old_mapped_end brk_base in
  do* (if zero_start <? mapped_end then
         let* delta := lift (ok_or (checked_sub64 zero_start brk_base) InvalidAddress) in
         let* zero_offset := lift (ok_or (checked_add64 allocation_offset delta) RegionTooLarge) in
         let* zero_len := lift (usize_try_from (wsub mapped_end zero_start)) in
         zero_allocation_range allocation_id zero_offset zero_len
       else ret tt);
  do* insert_vma {| v_start := brk_base; v_end := mapped_end; v_protection := protection;
                    v_kind := Heap; v_allocation_id := allocation_id;
                    v_allocation_offset := allocation_offset |};
  let* offset := lift (usize_try_from allocation_offset) in
  let* len := lift (usize_try_from new_size) in
  do* ensure_allocation_unique allocation_id;
  let* found := get_allocation allocation_id in
  let* allocation := lift (expect found) in
  host_op (arc_protect_range (a_memory allocation) offset len (to_host protection)).

Definition try_set_brk (requested : Z) : MemM unit :=
  let* new_mapped_end := lift (align_up requested) in
  let* m := gets_mem id in
  if gm_address_space_end m <? new_mapped_end then throw OutOfMemory else
  let old_mapped_end := heap_mapped_end m in
  do* (if old_mapped_end <? new_mapped_end then
         let* _ := lift (ensure_brk_can_grow m old_mapped_end new_mapped_end) in
         resize_heap new_mapped_end
       else if new_mapped_end <? old_mapped_end then shrink_heap new_mapped_end
       else ret tt);
  modify_mem (set_current_brk requested).

Definition set_brk (requested : Z) : ST World Empty_set GuestBrkOutcome :=
  λ w,
    let current w := gm_current_brk (w_mem w) in
    if requested =? 0 then (Ok {| bo_current := current w; bo_error := None |}, w) else
    if requested <? gm_brk_base (w_mem w)
    then (Ok {| bo_current := current w; bo_error := Some InvalidAddress |}, w) else
    match try_set_brk requested w with
    | (Ok _, w) => (Ok {| bo_current := current w; bo_error := None |}, w)
    | (Err e, w) => (Ok {| bo_current := current w; bo_error := Some e |}, w)
    | (Panic, w) => (Panic, w)
    end.

Definition madvise (addr length advice : Z) : outcome Z GuestMemoryError :=
  if negb (is_page_aligned addr) then Err InvalidAddress else
  if negb (is_supported_madvise advice) then Err InvalidFlags else
  if length =? 0 then Ok 0 else
  let? _ := checked_raw_range addr length in Ok 0.

(** *** Reading and writing guest memory *)

(** One chunk of [copy_guest]: the bytes of [cursor..min(vma.end, end)]. *)
Definition copy_chunk (access : AccessKind) (cursor end_ : Z) : MemM (list Z) :=
  let* m := gets_mem id in
  let* vma := lift (ok_or (vma_containing m cursor) NotMapped) in
  let* _ := lift (access_check access (v_protection vma)) in
  let chunk_len := wsub (Z.min (v_end vma) end_) cursor in
  let* allocation := lift (expect (gm_allocations m !! v_allocation_id vma)) in
  let* allocation_offset := lift (guest_slice_offset vma cursor) in
  let* block := host_op (arc_get (a_memory allocation)) in
  lift (expect (slice (hm_bytes block) allocation_offset (wadd allocation_offset chunk_len))).

Fixpoint copy_guest_loop (fuel : nat) (access : AccessKind) (cursor end_ : Z) : MemM (list Z) :=
  match fuel with
  | O => lift Panic
  | S fuel =>
      if end_ <=? cursor then ret [] else
      let* chunk := copy_chunk access cursor end_ in
      let* rest := copy_guest_loop fuel access (wadd cursor (zlen chunk)) end_ in
      ret (chunk ++ rest)
  end.

(** [copy_guest(address, destination, access)], returning what fills the destination. *)
Definition copy_guest (address len : Z) (access : AccessKind) : MemM (list Z) :=
  let* end_ := lift (checked_raw_range address len) in
  copy_guest_loop (S (Z.to_nat len)) access address end_.

Definition read (address len : Z) : MemM (list Z) := copy_guest address len AccessRead.

(** The body of the loop of [write_guest]: one chunk, within one area. *)
Definition write_chunk (cursor end_ : Z) (bytes : list Z) : MemM (Z * bool) :=
  let* m := gets_mem id in
  let* vma := lift (ok_or (vma_containing m cursor) NotMapped) in
  let* _ := lift (access_check AccessWrite (v_protection vma)) in
  do* ensure_guest_page_range_unique cursor (Z.min (v_end vma) end_);
  let* m := gets_mem id in
  let* vma := lift (ok_or (vma_containing m cursor) NotMapped) in
  let chunk_len := wsub (Z.min (v_end vma) end_) cursor in
  let* allocation_offset := lift (guest_slice_offset vma cursor) in
  let* chunk := lift (expect (slice bytes 0 chunk_len)) in
  do* write_allocation (v_allocation_id vma) allocation_offset chunk;
  do* (if p_execute (v_protection vma) then
         let* found := get_allocation (v_allocation_id vma) in
         let* allocation := lift (expect found) in
         host_op (arc_flush (a_memory allocation) allocation_offset chunk_len)
       else ret tt);
  ret (chunk_len, p_execute (v_protection vma)).

Fixpoint write_guest_loop (fuel : nat) (cursor end_ : Z) (bytes : list Z)
    (touched_executable : bool) : MemM bool :=
  match fuel with
  | O => lift Panic
  | S fuel =>
      if end_ <=? cursor then ret touched_executable else
      let* (chunk_len, executable) := write_chunk cursor end_ bytes in
      write_guest_loop fuel (wadd cursor chunk_len) end_ (drop (Z.to_nat chunk_len) bytes)
        (touched_executable || executable)
  end.

Definition write_guest (address : Z) (bytes : list Z) : MemM unit :=
  let* end_ := lift (checked_raw_range address (zlen bytes)) in
  let* touched := write_guest_loop (S (length bytes)) address end_ bytes false in
  if (touched : bool) then modify_mem record_executable_write else ret tt.

Definition write (address : Z) (bytes : list Z) : MemM unit := write_guest address bytes.

Definition guest_slice (address len : Z) (access : AccessKind) : MemM (option (list Z)) :=
  let* end_ := lift (checked_raw_range address len) in
  if len =? 0 then ret (Some []) else
  let* m := gets_mem id in
  let* vma := lift (ok_or (vma_containing m address) NotMapped) in
  let* _ := lift (access_check access (v_protection vma)) in
  if v_end vma <? end_ then ret None else
  let* allocation := lift (expect (gm_allocations m !! v_allocation_id vma)) in
  let* offset := lift (guest_slice_offset vma address) in
  let* slice_end := lift (ok_or (checked_add64 offset len) RegionTooLarge) in
  let* block := host_op (arc_get (a_memory allocation)) in
  let* bytes := lift (expect (slice (hm_bytes block) offset slice_end)) in
  ret (Some bytes).

(** The position of the first NUL byte. *)
Definition position (needle : Z) (l : list Z) : option nat :=
  fst <$> list_find (λ b, b = needle) l.

Fixpoint read_c_string_loop (fuel : nat) (cursor max_len : Z) (bytes : list Z) : MemM (list Z) :=
  match fuel with
  | O => lift Panic
  | S fuel =>
      if max_len <=? zlen bytes then throw InvalidLength else
      let* m := gets_mem id in
      let* vma := lift (ok_or (vma_containing m cursor) NotMapped) in
      let* _ := lift (access_check AccessRead (v_protection vma)) in
      let remaining := max_len - zlen bytes in
      let* chunk_len := lift (usize_try_from (Z.min (wsub (v_end vma) cursor) remaining)) in
      if chunk_len =? 0 then throw InvalidLength else
      let* found := guest_slice cursor chunk_len AccessRead in
      let* chunk := lift (expect found) in
      match position 0 chunk with
      | Some nul => ret (bytes ++ take nul chunk)
      | None =>
          let* cursor := lift (ok_or (checked_add64 cursor chunk_len) InvalidLength) in
          read_c_string_loop fuel cursor max_len (bytes ++ chunk)
      end
  end.

Definition read_c_string_bytes (address max_len : Z) : MemM (list Z) :=
  read_c_string_loop (S (Z.to_nat max_len)) address max_len [].

(** *** Code patching *)
Definition patch_code (address : Z) (bytes : list Z) : MemM (list Z) :=
  let* end_ := lift (checked_raw_range address (zlen bytes)) in
  let* m := gets_mem id in
  let* vma := lift (ok_or (vma_containing m address) NotMapped) in
  if v_end vma <? end_ then throw InvalidLength else
  do* ensure_guest_page_range_unique address end_;
  let* m := gets_mem id in
  let* vma := lift (ok_or (vma_containing m address) NotMapped) in
  let* ranges := lift (allocation_protection_ranges m (v_allocation_id vma)) in
  let* allocation := lift (expect (gm_allocations m !! v_allocation_id vma)) in
  do* host_op (arc_protect (a_memory allocation) ReadWrite);
  let* allocation_offset := lift (guest_slice_offset vma address) in
  let* patch_end := lift (ok_or (checked_add64 allocation_offset (zlen bytes)) RegionTooLarge) in
  let* block := host_op (arc_get (a_memory allocation)) in
  let* old := lift (expect (slice (hm_bytes block) allocation_offset patch_end)) in
  do* write_allocation (v_allocation_id vma) allocation_offset bytes;
  let* found := get_allocation (v_allocation_id vma) in
  let* allocation := lift (expect found) in
  do* apply_allocation_protections (a_memory allocation) ranges;
  do* host_op (arc_flush (a_memory allocation) allocation_offset (zlen bytes));
  ret old.

(** The area of a patch of [n] bytes, and where the patch ends. *)
Definition patch_area (m : GuestMemory) (n address : Z) : outcome (Z * GuestVma) GuestMemoryError :=
  let? end_ := checked_raw_range address n in
  let? vma := ok_or (vma_containing m address) NotMapped in
  if v_end vma <? end_ then Err InvalidLength else Ok (end_, vma).

(** Patches of [n] bytes: first their pages are made the memory's own, then they are planned,
    then written allocation by allocation. *)
Definition patch_code_fixed (n : Z) (patches : list (Z * list Z)) : MemM unit :=
  let* m := gets_mem id in
  do* (if is_fixed_guest (gm_host_address_mode m) then
         let* ids := lift (collect (λ p, let? a := patch_area m n p.1 in Ok (v_allocation_id a.2)) patches) in
         foreach (bs_iter (list_to_set ids)) ensure_allocation_unique
       else foreach patches (λ p,
         let* m := gets_mem id in
         let* a := lift (patch_area m n p.1) in
         ensure_guest_page_range_unique p.1 a.1));
  let* m := gets_mem id in
  let* planned := lift (collect (λ p,
      let? a := patch_area m n p.1 in
      let? offset := guest_slice_offset a.2 p.1 in
      Ok (v_allocation_id a.2, (offset, p.2))) patches) in
  foreach (bs_iter (list_to_set planned.*1)) (λ allocation_id,
    let patches := (filter (λ p, p.1 = allocation_id) planned).*2 in
    let* m := gets_mem id in
    let* ranges := lift (allocation_protection_ranges m allocation_id) in
    let* allocation := lift (expect (gm_allocations m !! allocation_id)) in
    do* host_op (arc_protect (a_memory allocation) ReadWrite);
    do* foreach patches (λ p,
          let* _ := lift (ok_or (checked_add64 p.1 n) RegionTooLarge) in
          write_allocation allocation_id p.1 p.2);
    let* found := get_allocation allocation_id in
    let* allocation := lift (expect found) in
    do* apply_allocation_protections (a_memory allocation) ranges;
    foreach patches (λ p, host_op (arc_flush (a_memory allocation) p.1 n))).

(** *** libc intrinsics (intrinsics.rs) *)
Definition intrinsic_memset (address value len : Z) : MemM unit :=
  let* _ := lift (checked_raw_range address len) in
  write_guest address (replicate (Z.to_nat len) value).

Definition intrinsic_memmove (destination source len : Z) : MemM unit :=
  let* bytes := copy_guest source len AccessRead in
  write_guest destination bytes.

Definition first_difference (lhs rhs : list Z) : Z :=
  match list_find (λ p : Z * Z, p.1 ≠ p.2) (zip lhs rhs) with
  | Some (_, (l, r)) => l - r
  | None => 0
  end.

Definition intrinsic_memcmp (lhs rhs len : Z) : MemM Z :=
  let* lhs_bytes := copy_guest lhs len AccessRead in
  let* rhs_bytes := copy_guest rhs len AccessRead in
  ret (first_difference lhs_bytes rhs_bytes).

Definition intrinsic_memchr (address needle len : Z) : MemM (option Z) :=
  let* bytes := copy_guest address len AccessRead in
  ret ((λ index : nat, wadd address (Z.of_nat index)) <$> position needle bytes).

Definition intrinsic_strlen (address max_len : Z) : MemM (option Z) :=
  let* bytes := copy_guest address max_len AccessRead in
  ret (Z.of_nat <$> position 0 bytes).

(** *** Fork: cloning a guest memory *)
Definition allocation_is_readonly_shareable (m : GuestMemory) (allocation_id : Z) : bool :=
  negb (is_fixed_guest (gm_host_address_mode m)) &&
  forallb (λ vma, negb (p_write (v_protection vma)))
    (filter (λ vma, v_allocation_id vma = allocation_id) (bt_values (gm_vmas m))).

(** Dropping the clone under construction on an early return. *)
Definition drop_allocations (allocations : list (Z * GuestAllocation)) : MemM unit :=
  foreach allocations (λ p, host_op (arc_drop (a_memory p.2))).

Fixpoint clone_allocations (allow_readonly_sharing : bool)
    (allocate : GuestAllocation → Z → MemM HostMemory)
    (allocations done : list (Z * GuestAllocation)) : MemM (list (Z * GuestAllocation)) :=
  match allocations with
  | [] => ret done
  | (allocation_id, allocation) :: allocations =>
      let* m := gets_mem id in
      let* cloned := on_err
        (if allow_readonly_sharing && allocation_is_readonly_shareable m allocation_id then
           do* host_op (arc_clone (a_memory allocation));
           ret {| a_guest_start := a_guest_start allocation; a_memory := a_memory allocation |}
         else
           let* ranges := lift (allocation_protection_ranges m allocation_id) in
           let* memory := with_protection_guard (a_memory allocation) ranges
               (let* block := host_op (arc_get (a_memory allocation)) in
                let* memory := allocate allocation (hm_len block) in
                fill_block memory (hm_bytes block)) in
           let* memory := apply_protections_local memory ranges in
           let* b := host_op (arc_new memory) in
           ret {| a_guest_start := a_guest_start allocation; a_memory := b |})
        (drop_allocations done) in
      clone_allocations allow_readonly_sharing allocate allocations
        (done ++ [(allocation_id, cloned)])
  end.

Definition try_clone_runtime_with_allocator (allow_readonly_sharing : bool)
    (allocate : GuestAllocation → Z → MemM HostMemory) : MemM GuestMemory :=
  let* m := gets_mem id in
  let* allocations := clone_allocations allow_readonly_sharing allocate
                        (bt_iter (gm_allocations m)) [] in
  let* m := gets_mem id in
  ret {| gm_vmas := gm_vmas m; gm_allocations := list_to_map allocations;
         gm_next_allocation_id := gm_next_allocation_id m;
         gm_brk_base := gm_brk_base m; gm_current_brk := gm_current_brk m;
         gm_mmap_base := gm_mmap_base m; gm_address_space_end := gm_address_space_end m;
         gm_host_address_mode := Flexible;
         gm_executable_write_generation := gm_executable_write_generation m |}.

Definition try_clone_runtime : MemM GuestMemory :=
  try_clone_runtime_with_allocator true (λ _ len, host_op (allocate len ReadWrite)).

Definition try_clone_runtime_at_guest_addresses : MemM GuestMemory :=
  let* memory := try_clone_runtime_with_allocator false
    (λ allocation len, allocate_guest_host_memory_at (a_guest_start allocation) len ReadWrite FixedGuest) in
  ret (set_mode FixedGuest memory).
End operations.
