(* ===== verification/GuestVmas.v ===== *)
(** * Guest memory: the map of areas

    The well-formedness of the map of virtual memory areas and the abstract address
    space it stands for: [area_at vmas a] is what the address [a] is mapped to, if
    anything.  Splitting and coalescing areas do not change it, removing a range
    unmaps exactly the range, and the searches of the memory manager
    ([vma_containing], [overlaps], [is_range_mapped], [find_free_range]) answer
    questions about it. *)

From S2P Require Import Prelude SysAbi HostMemory GuestMemory GuestMemoryOps.
From stdpp Require Import base gmap list sorting strings.
From Stdlib Require Import ZArith Lia.
Open Scope Z_scope.

(** ** Well-formed maps of areas *)
Record vma_ok (space : Z) (v : GuestVma) : Prop := {
  vo_bounds : MIN_GUEST_ADDRESS ≤ v_start v < v_end v;
  vo_space : v_end v ≤ space;
  vo_start : aligned (v_start v);
  vo_end : aligned (v_end v);
  vo_offset : 0 ≤ v_allocation_offset v ≤ v_start v;
}.

Record vmas_wf (space : Z) (vmas : gmap Z GuestVma) : Prop := {
  vw_space : space + GUEST_PAGE_SIZE ≤ 2 ^ 64;
  vw_key : ∀ k v, vmas !! k = Some v → v_start v = k;
  vw_ok : ∀ k v, vmas !! k = Some v → vma_ok space v;
  vw_disjoint : ∀ k1 v1 k2 v2,
    vmas !! k1 = Some v1 → vmas !! k2 = Some v2 → k1 < k2 → v_end v1 ≤ k2;
}.

(** ** The abstract address space *)
Record Area : Type := {
  ar_protection : GuestMemoryProtection;
  ar_kind : GuestVmaKind;
  ar_allocation : Z;
  ar_offset : Z;
}.

Definition area_of (v : GuestVma) (a : Z) : Area :=
  {| ar_protection := v_protection v; ar_kind := v_kind v; ar_allocation := v_allocation_id v;
     ar_offset := v_allocation_offset v + (a - v_start v) |}.

Definition vma_at (vmas : gmap Z GuestVma) (a : Z) : option GuestVma :=
  match bt_last_le vmas a with
  | Some (_, v) => if vma_contains v a then Some v else None
  | None => None
  end.

Definition area_at (vmas : gmap Z GuestVma) (a : Z) : option Area :=
  (λ v, area_of v a) <$> vma_at vmas a.

Lemma vma_containing_at m a : vma_containing m a = vma_at (gm_vmas m) a.
Proof. done. Qed.

Lemma vma_contains_spec v a : vma_contains v a = true ↔ v_start v ≤ a < v_end v.
Proof. unfold vma_contains. rewrite andb_true_iff, Z.leb_le, Z.ltb_lt. done. Qed.

Section wf.
Context {space : Z} {vmas : gmap Z GuestVma} (Hwf : vmas_wf space vmas).

Lemma vma_lookup_start k v : vmas !! k = Some v → vmas !! v_start v = Some v.
Proof using Hwf. intros Hk. by rewrite (vw_key _ _ Hwf _ _ Hk). Qed.

Lemma vma_at_Some a v :
  vma_at vmas a = Some v ↔ vmas !! v_start v = Some v ∧ v_start v ≤ a < v_end v.
Proof using Hwf.
  unfold vma_at. destruct (bt_last_le vmas a) as [[k u]|] eqn:Hl.
  - apply bt_last_le_Some in Hl as (Hk & Hle & Hmax).
    pose proof (vw_key _ _ Hwf _ _ Hk) as Hs. split.
    + case_match eqn:Hc; [|done]. intros [= <-]. apply vma_contains_spec in Hc. split; [by rewrite Hs|done].
    + intros [Hv Ha]. assert (v_start v = k) as Heq.
      { assert (v_start v ≤ k) by (apply Hmax; [eauto|lia]).
        destruct (decide (v_start v = k)) as [|Hne]; [done|].
        pose proof (vw_disjoint _ _ Hwf _ _ _ _ Hv Hk ltac:(lia)). lia. }
      assert (v = u) as -> by congruence.
      assert (vma_contains u a = true) as -> by (by apply vma_contains_spec). done.
  - rewrite bt_last_le_None in Hl. split; [done|]. intros [Hv Ha].
    specialize (Hl _ _ Hv). lia.
Qed.

Lemma vma_at_None a :
  vma_at vmas a = None ↔ ∀ k v, vmas !! k = Some v → ¬ (v_start v ≤ a < v_end v).
Proof using Hwf.
  split.
  - intros Hn k v Hk Ha. assert (vma_at vmas a = Some v) by
      (apply vma_at_Some; split; [by rewrite (vw_key _ _ Hwf _ _ Hk)|done]). congruence.
  - intros H. destruct (vma_at vmas a) as [v|] eqn:Hv; [|done].
    apply vma_at_Some in Hv as [Hv Ha]. by destruct (H _ _ Hv).
Qed.

Lemma area_at_Some a x :
  area_at vmas a = Some x ↔
  ∃ v, vmas !! v_start v = Some v ∧ v_start v ≤ a < v_end v ∧ x = area_of v a.
Proof using Hwf.
  unfold area_at. rewrite fmap_Some. setoid_rewrite vma_at_Some. naive_solver.
Qed.

Lemma area_at_intro k v a :
  vmas !! k = Some v → v_start v ≤ a < v_end v → area_at vmas a = Some (area_of v a).
Proof using Hwf.
  intros Hk Ha. apply area_at_Some. exists v. split_and!; [by rewrite (vw_key _ _ Hwf _ _ Hk)|lia..|done].
Qed.

Lemma area_at_None a :
  area_at vmas a = None ↔ ∀ k v, vmas !! k = Some v → ¬ (v_start v ≤ a < v_end v).
Proof using Hwf. unfold area_at. rewrite fmap_None. apply vma_at_None. Qed.

(** Two areas that share an address are the same area. *)
Lemma vma_unique k1 v1 k2 v2 a :
  vmas !! k1 = Some v1 → vmas !! k2 = Some v2 →
  v_start v1 ≤ a < v_end v1 → v_start v2 ≤ a < v_end v2 → k1 = k2 ∧ v1 = v2.
Proof using Hwf.
  intros H1 H2 ??. pose proof (vw_key _ _ Hwf _ _ H1). pose proof (vw_key _ _ Hwf _ _ H2).
  destruct (Z.lt_trichotomy k1 k2) as [Hlt|[->|Hlt]].
  - pose proof (vw_disjoint _ _ Hwf _ _ _ _ H1 H2 Hlt). lia.
  - naive_solver.
  - pose proof (vw_disjoint _ _ Hwf _ _ _ _ H2 H1 Hlt). lia.
Qed.

Lemma vmas_wf_sub vmas' : vmas' ⊆ vmas → vmas_wf space vmas'.
Proof using Hwf.
  intros Hsub. split; [apply Hwf| | |].
  - intros k v Hk. eapply vw_key; [done|]. by eapply lookup_weaken.
  - intros k v Hk. eapply vw_ok; [done|]. by eapply lookup_weaken.
  - intros k1 v1 k2 v2 H1 H2. eapply vw_disjoint; [done|by eapply lookup_weaken..].
Qed.
End wf.

(** Two well-formed maps with the same areas at the same addresses. *)
Definition same_areas (vmas vmas' : gmap Z GuestVma) : Prop :=
  ∀ a, area_at vmas' a = area_at vmas a.

#[export] Instance same_areas_equiv : Equivalence same_areas.
Proof. split; [done|intros x y H a; by rewrite H|]. intros x y z H1 H2 a. by rewrite H2, H1. Qed.

(** No area straddles the address [x]. *)
Definition cut_at (x : Z) (vmas : gmap Z GuestVma) : Prop :=
  ∀ k v, vmas !! k = Some v → v_end v ≤ x ∨ x ≤ v_start v.

(** ** Splitting *)
Lemma vmas_wf_refine space vmas old pieces :
  vmas_wf space vmas →
  vmas !! v_start old = Some old →
  vmas_wf space pieces →
  (∀ k v, pieces !! k = Some v → v_start old ≤ v_start v ∧ v_end v ≤ v_end old) →
  vmas_wf space (pieces ∪ delete (v_start old) vmas).
Proof.
  intros Hwf Hold Hp Hin. split; [apply Hwf| | |].
  - intros k v [Hk|[_ [_ Hk]%lookup_delete_Some]]%lookup_union_Some_raw; [by apply (vw_key _ _ Hp)|by apply (vw_key _ _ Hwf)].
  - intros k v [Hk|[_ [_ Hk]%lookup_delete_Some]]%lookup_union_Some_raw; [by eapply (vw_ok _ _ Hp)|by eapply (vw_ok _ _ Hwf)].
  - intros k1 v1 k2 v2 H1 H2 Hlt.
    apply lookup_union_Some_raw in H1 as [H1|[_ [Hn1 H1]%lookup_delete_Some]];
    apply lookup_union_Some_raw in H2 as [H2|[_ [Hn2 H2]%lookup_delete_Some]].
    + by eapply (vw_disjoint _ _ Hp).
    + pose proof (Hin _ _ H1). pose proof (vw_key _ _ Hp _ _ H1).
      assert (v_end old ≤ k2); [|lia]. eapply (vw_disjoint _ _ Hwf); [done|done|].
      pose proof (vw_ok _ _ Hp _ _ H1) as []. lia.
    + pose proof (Hin _ _ H2). pose proof (vw_key _ _ Hp _ _ H2).
      pose proof (vw_ok _ _ Hp _ _ H2) as [].
      destruct (Z.lt_trichotomy k1 (v_start old)) as [Hl|[?|Hl]]; [|done|].
      * pose proof (vw_disjoint _ _ Hwf _ _ _ _ H1 Hold Hl). lia.
      * pose proof (vw_disjoint _ _ Hwf _ _ _ _ Hold H1 Hl). lia.
    + by eapply (vw_disjoint _ _ Hwf).
Qed.

(** The two halves of an area cut at [address]. *)
Definition halves (vma : GuestVma) (address : Z) : gmap Z GuestVma :=
  {[ address := vma_with_start vma address (v_allocation_offset vma + (address - v_start vma));
     v_start vma := vma_with_end vma address ]}.

Lemma halves_lookup vma address k v :
  v_start vma < address → halves vma address !! k = Some v ↔
  (k = address ∧ v = vma_with_start vma address (v_allocation_offset vma + (address - v_start vma)))
  ∨ (k = v_start vma ∧ v = vma_with_end vma address).
Proof.
  intros. unfold halves. rewrite lookup_insert_Some, lookup_singleton_Some. naive_solver lia.
Qed.

Lemma halves_wf space vma address :
  space + GUEST_PAGE_SIZE ≤ 2 ^ 64 → vma_ok space vma → aligned address → v_start vma < address < v_end vma →
  vmas_wf space (halves vma address).
Proof.
  intros Hsp [] Ha Hin. split; [done| | |].
  - intros k v [[-> ->]|[-> ->]]%halves_lookup; (done || lia).
  - intros k v [[-> ->]|[-> ->]]%halves_lookup; [| |lia]; split; simpl; (done || lia).
  - intros k1 v1 k2 v2 H1%halves_lookup H2%halves_lookup Hlt; [|lia..].
    destruct H1 as [[-> ->]|[-> ->]], H2 as [[-> ->]|[-> ->]]; simpl; lia.
Qed.

Lemma split_vmas_halves space m address :
  vmas_wf space (gm_vmas m) →
  split_vmas_at address m = gm_vmas m ∧ cut_at address (gm_vmas m) ∨
  ∃ vma, gm_vmas m !! v_start vma = Some vma ∧ v_start vma < address < v_end vma ∧
         split_vmas_at address m = halves vma address ∪ delete (v_start vma) (gm_vmas m).
Proof.
  intros Hwf. unfold split_vmas_at. rewrite vma_containing_at.
  destruct (vma_at (gm_vmas m) address) as [vma|] eqn:Hv.
  - apply (vma_at_Some Hwf) in Hv as [Hk Ha]. pose proof (vw_ok _ _ Hwf _ _ Hk) as [].
    pose proof (vw_space _ _ Hwf).
    destruct (Z.eqb_spec address (v_start vma)) as [->|]; simpl.
    { left. split; [done|]. intros k v Hk'. pose proof (vw_key _ _ Hwf _ _ Hk') as <-.
      destruct (Z.lt_trichotomy (v_start v) (v_start vma)) as [Hl|[->|Hl]].
      - left. by eapply (vw_disjoint _ _ Hwf).
      - by right.
      - right. lia. }
    destruct (Z.eqb_spec address (v_end vma)); [lia|]. right. exists vma.
    split_and!; [done|lia|lia|]. unfold MIN_GUEST_ADDRESS, GUEST_PAGE_SIZE in *.
    simpl. rewrite wsub_exact, wadd_exact by lia. unfold halves.
    by rewrite <- insert_union_l, <- insert_union_singleton_l.
  - left. split; [done|]. intros k v Hk.
    pose proof (proj1 (vma_at_None Hwf address) Hv _ _ Hk). lia.
Qed.

Lemma split_vmas_wf space m address :
  vmas_wf space (gm_vmas m) → aligned address → vmas_wf space (split_vmas_at address m).
Proof.
  intros Hwf Ha. destruct (split_vmas_halves _ _ address Hwf) as [[-> _]|(vma & Hk & Hin & ->)];
    [done|].
  apply vmas_wf_refine; [done|done| |].
  - apply halves_wf; [apply Hwf|by eapply vw_ok|done|lia].
  - intros k v [[-> ->]|[-> ->]]%halves_lookup; simpl; lia.
Qed.

(** Every area after a split is part of one before it, with the same attributes. *)
Lemma split_vmas_part space m address k v :
  vmas_wf space (gm_vmas m) → split_vmas_at address m !! k = Some v →
  ∃ u, gm_vmas m !! v_start u = Some u ∧ v_start u ≤ v_start v ∧ v_end v ≤ v_end u ∧
       (v_end v ≤ address ∨ address ≤ v_start v) ∧
       (∀ a, area_of v a = area_of u a).
Proof.
  intros Hwf. destruct (split_vmas_halves _ _ address Hwf) as [[-> Hc]|(vma & Hk & Hin & ->)].
  - intros Hk. exists v. split_and!; [by eapply vma_lookup_start|lia|lia|by eapply Hc|done].
  - intros [[[-> ->]|[-> ->]]%halves_lookup|[_ [Hne Hk']%lookup_delete_Some]]%lookup_union_Some_raw;
      [| |lia|].
    + exists vma. simpl. split_and!; [done|lia..|]. intros a. unfold area_of; simpl. f_equal. lia.
    + exists vma. simpl. split_and!; [done|lia..|]. intros a. unfold area_of; simpl. f_equal.
    + exists v. pose proof (vw_key _ _ Hwf _ _ Hk').
      split_and!; [by eapply vma_lookup_start|lia|lia| |done].
      destruct (Z.lt_trichotomy k (v_start vma)) as [Hl|[->|Hl]]; [|done|].
      * pose proof (vw_disjoint _ _ Hwf _ _ _ _ Hk' Hk Hl). lia.
      * pose proof (vw_disjoint _ _ Hwf _ _ _ _ Hk Hk' Hl). lia.
Qed.

Lemma split_vmas_cut space m address :
  vmas_wf space (gm_vmas m) → cut_at address (split_vmas_at address m).
Proof. intros Hwf k v Hk. destruct (split_vmas_part _ _ _ _ _ Hwf Hk) as (?&?&?&?&?&?). done. Qed.

Lemma split_vmas_cut_keep space m address x :
  vmas_wf space (gm_vmas m) → cut_at x (gm_vmas m) → cut_at x (split_vmas_at address m).
Proof.
  intros Hwf Hx k v Hk. destruct (split_vmas_part _ _ _ _ _ Hwf Hk) as (u&Hu&?&?&?&?).
  destruct (Hx _ _ Hu); lia.
Qed.

Lemma split_vmas_cover space m address u a :
  vmas_wf space (gm_vmas m) → gm_vmas m !! v_start u = Some u → v_start u ≤ a < v_end u →
  ∃ k v, split_vmas_at address m !! k = Some v ∧ v_start v ≤ a < v_end v.
Proof.
  intros Hwf Hu Ha. destruct (split_vmas_halves _ _ address Hwf) as [[-> Hc]|(vma & Hk & Hin & ->)];
    [eauto|].
  destruct (decide (v_start u = v_start vma)) as [Heq|Hne].
  - assert (u = vma) as -> by congruence. destruct (decide (a < address)).
    + exists (v_start vma), (vma_with_end vma address). split; [|simpl; lia].
      apply lookup_union_Some_raw. left. apply halves_lookup; [lia|]. by right.
    + eexists address, _. split; [apply lookup_union_Some_raw; left; apply halves_lookup; [lia|by left]|].
      simpl; lia.
  - exists (v_start u), u. split; [|done]. rewrite lookup_union_r; [by rewrite lookup_delete_ne|].
    apply eq_None_not_Some. intros [x [[Hx _]|[? _]]%halves_lookup]; [|congruence|lia].
    pose proof (vw_key _ _ Hwf _ _ Hu).
    destruct (Z.lt_trichotomy (v_start u) (v_start vma)) as [Hl|[?|Hl]]; [|done|].
    + lia.
    + pose proof (vw_disjoint _ _ Hwf _ _ _ _ Hk Hu Hl). lia.
Qed.

Lemma split_same_areas space m address :
  vmas_wf space (gm_vmas m) → aligned address → same_areas (gm_vmas m) (split_vmas_at address m).
Proof.
  intros Hwf Ha a. pose proof (split_vmas_wf _ _ _ Hwf Ha) as Hwf'.
  destruct (area_at (split_vmas_at address m) a) as [x|] eqn:Hx.
  - apply (area_at_Some Hwf') in Hx as (v & Hv & Hin & ->).
    destruct (split_vmas_part _ _ _ _ _ Hwf Hv) as (u & Hu & ? & ? & _ & ->).
    symmetry. apply (area_at_intro Hwf _ _ _ Hu). lia.
  - symmetry. apply (area_at_None Hwf). intros k u Hu Hin.
    pose proof (vw_key _ _ Hwf _ _ Hu) as <-.
    destruct (split_vmas_cover _ _ address _ _ Hwf Hu Hin) as (k' & v & Hv & Hin').
    by apply (proj1 (area_at_None Hwf' a) Hx _ _ Hv).
Qed.

(** ** Removing a range *)
Lemma remove_keys_lookup ks vmas k v :
  remove_keys ks vmas !! k = Some v ↔ vmas !! k = Some v ∧ k ∉ ks.
Proof.
  induction ks as [|x ks IH]; simpl; [set_solver|].
  rewrite lookup_delete_Some, IH. set_solver.
Qed.

Lemma remove_keys_sub ks vmas : remove_keys ks vmas ⊆ vmas.
Proof. apply map_subseteq_spec. intros k v. rewrite remove_keys_lookup. tauto. Qed.

Lemma bt_range_keys {V E} (m : gmap Z V) s e l k :
  bt_range (E:=E) m s e = Ok l → k ∈ l.*1 ↔ is_Some (m !! k) ∧ s ≤ k < e.
Proof.
  intros Hl. rewrite list_elem_of_fmap. split.
  - intros ([k' v] & -> & Hin). apply (elem_of_bt_range _ _ _ _ _ _ Hl) in Hin as [? ?]. eauto.
  - intros [[v Hk] ?]. exists (k, v). split; [done|]. by apply (elem_of_bt_range _ _ _ _ _ _ Hl).
Qed.

(** Removing the areas that start in a range whose ends are cut unmaps the range. *)
Lemma remove_range_areas {E} space vmas s e l :
  vmas_wf space vmas → cut_at s vmas → cut_at e vmas → bt_range (E:=E) vmas s e = Ok l →
  ∀ a, area_at (remove_keys l.*1 vmas) a = if (s <=? a) && (a <? e) then None else area_at vmas a.
Proof.
  intros Hwf Hs He Hl a.
  pose proof (vmas_wf_sub Hwf _ (remove_keys_sub l.*1 vmas)) as Hwf'.
  destruct ((s <=? a) && (a <? e)) eqn:Hin; bprop.
  - apply (area_at_None Hwf'). intros k v [Hk Hn]%remove_keys_lookup Ha. apply Hn.
    apply (bt_range_keys _ _ _ _ _ Hl). split; [eauto|].
    pose proof (vw_key _ _ Hwf _ _ Hk) as <-. destruct (Hs _ _ Hk), (He _ _ Hk); lia.
  - apply option_eq. intros x. rewrite (area_at_Some Hwf'), (area_at_Some Hwf).
    setoid_rewrite remove_keys_lookup. split; [naive_solver|].
    intros (v & Hk & Ha & ->). exists v. split_and!; try done; try lia.
    rewrite (bt_range_keys _ _ _ _ _ Hl). intros [_ ?]. destruct (He _ _ Hk); lia.
  - apply option_eq. intros x. rewrite (area_at_Some Hwf'), (area_at_Some Hwf).
    setoid_rewrite remove_keys_lookup. split; [naive_solver|].
    intros (v & Hk & Ha & ->). exists v. split_and!; try done; try lia.
    rewrite (bt_range_keys _ _ _ _ _ Hl). intros [_ ?]. destruct (He _ _ Hk); lia.
Qed.

(** ** Adding an area *)
Lemma vmas_wf_insert space vmas v :
  vmas_wf space vmas → vma_ok space v →
  (∀ k u, vmas !! k = Some u → v_end u ≤ v_start v ∨ v_end v ≤ v_start u) →
  vmas_wf space (<[v_start v := v]> vmas).
Proof.
  intros Hwf Hv Hd. split; [apply Hwf| | |].
  - intros k u [[<- <-]|[_ Hk]]%lookup_insert_Some; [done|by eapply (vw_key _ _ Hwf)].
  - intros k u [[<- <-]|[_ Hk]]%lookup_insert_Some; [done|by eapply (vw_ok _ _ Hwf)].
  - destruct Hv. intros k1 v1 k2 v2 H1 H2 Hlt.
    apply lookup_insert_Some in H1 as [[<- <-]|[_ H1]], H2 as [[<- <-]|[_ H2]].
    + lia.
    + pose proof (vw_key _ _ Hwf _ _ H2). pose proof (vw_ok _ _ Hwf _ _ H2) as [].
      destruct (Hd _ _ H2); lia.
    + pose proof (vw_key _ _ Hwf _ _ H1). destruct (Hd _ _ H1); lia.
    + by eapply (vw_disjoint _ _ Hwf).
Qed.

Lemma insert_areas space vmas v :
  vmas_wf space vmas → vma_ok space v →
  (∀ k u, vmas !! k = Some u → v_end u ≤ v_start v ∨ v_end v ≤ v_start u) →
  ∀ a, area_at (<[v_start v := v]> vmas) a =
       if vma_contains v a then Some (area_of v a) else area_at vmas a.
Proof.
  intros Hwf Hv Hd a. pose proof (vmas_wf_insert _ _ _ Hwf Hv Hd) as Hwf'.
  destruct (vma_contains v a) eqn:Hc.
  - apply vma_contains_spec in Hc. apply (area_at_intro Hwf' (v_start v)); [|done].
    by rewrite lookup_insert_eq.
  - assert (¬ v_start v ≤ a < v_end v) as Hout by (rewrite <- vma_contains_spec; congruence).
    apply option_eq. intros x. rewrite (area_at_Some Hwf'), (area_at_Some Hwf).
    split; intros (u & Hk & Ha & ->); exists u; split_and!; try done; try lia.
    + apply lookup_insert_Some in Hk as [[_ <-]|[_ Hk]]; [lia|done].
    + rewrite lookup_insert_ne; [done|]. intros Heq. destruct Hv. destruct (Hd _ _ Hk); lia.
Qed.

(** ** Changing attributes in place *)

(** [vmas'] has the areas of [vmas] at the same addresses, possibly with other attributes. *)
Definition reshaped (space : Z) (vmas vmas' : gmap Z GuestVma) : Prop :=
  (∀ k, is_Some (vmas' !! k) → is_Some (vmas !! k)) ∧
  ∀ k v, vmas !! k = Some v → ∃ v', vmas' !! k = Some v' ∧
    v_start v' = v_start v ∧ v_end v' = v_end v ∧ 0 ≤ v_allocation_offset v' ≤ v_start v.

Lemma reshaped_inv space vmas vmas' k v' :
  reshaped space vmas vmas' → vmas' !! k = Some v' →
  ∃ v, vmas !! k = Some v ∧ v_start v' = v_start v ∧ v_end v' = v_end v ∧
       0 ≤ v_allocation_offset v' ≤ v_start v.
Proof.
  intros [Hd H] Hk. destruct (Hd k ltac:(eauto)) as [v Hv]. exists v.
  destruct (H _ _ Hv) as (u & Hu & ?). assert (u = v') as -> by congruence. done.
Qed.

Lemma reshaped_wf space vmas vmas' :
  vmas_wf space vmas → reshaped space vmas vmas' → vmas_wf space vmas'.
Proof.
  intros Hwf Hr. split; [apply Hwf| | |].
  - intros k v Hk. destruct (reshaped_inv _ _ _ _ _ Hr Hk) as (u & Hu & -> & _).
    by apply (vw_key _ _ Hwf).
  - intros k v Hk. destruct (reshaped_inv _ _ _ _ _ Hr Hk) as (u & Hu & Hs & He & ?).
    pose proof (vw_ok _ _ Hwf _ _ Hu) as []. split; rewrite ?Hs, ?He; (done || lia).
  - intros k1 v1 k2 v2 H1 H2 Hlt.
    destruct (reshaped_inv _ _ _ _ _ Hr H1) as (u1 & Hu1 & Hs1 & -> & ?).
    destruct (reshaped_inv _ _ _ _ _ Hr H2) as (u2 & Hu2 & _).
    by eapply (vw_disjoint _ _ Hwf).
Qed.

Lemma reshaped_cut space vmas vmas' x :
  reshaped space vmas vmas' → cut_at x vmas → cut_at x vmas'.
Proof.
  intros Hr Hc k v Hk. destruct (reshaped_inv _ _ _ _ _ Hr Hk) as (u & Hu & -> & -> & _). by eapply Hc.
Qed.

Lemma protect_vmas_lookup ks p vmas k :
  protect_vmas ks p vmas !! k =
  if bool_decide (k ∈ ks) then vma_with_protection p <$> vmas !! k else vmas !! k.
Proof.
  induction ks as [|x ks IH]; simpl.
  - done.
  - destruct (decide (k = x)) as [->|Hne].
    + rewrite lookup_alter, IH, (bool_decide_eq_true_2 (x ∈ x :: ks)) by set_solver.
      rewrite decide_True by done. case_bool_decide; [|done]. by destruct (vmas !! x).
    + rewrite lookup_alter_ne, IH by done.
      destruct (decide (k ∈ ks)); [rewrite !bool_decide_eq_true_2 by set_solver; done|].
      rewrite !bool_decide_eq_false_2 by set_solver. done.
Qed.

Lemma protect_reshaped space ks p vmas :
  vmas_wf space vmas → reshaped space vmas (protect_vmas ks p vmas).
Proof.
  intros Hwf. split.
  - intros k [v Hk]. rewrite protect_vmas_lookup in Hk. case_bool_decide; [|eauto].
    apply fmap_Some in Hk as (u & -> & _). eauto.
  - intros k v Hk. pose proof (vw_ok _ _ Hwf _ _ Hk) as [].
    rewrite protect_vmas_lookup, Hk. case_bool_decide; eexists; split; eauto.
Qed.

(** The protection of an address changes exactly in the range, and nothing else does. *)
Definition reprotect (p : GuestMemoryProtection) (x : Area) : Area :=
  {| ar_protection := p; ar_kind := ar_kind x; ar_allocation := ar_allocation x;
     ar_offset := ar_offset x |}.

Lemma protect_range_areas {E} space vmas s e l p :
  vmas_wf space vmas → cut_at s vmas → cut_at e vmas → bt_range (E:=E) vmas s e = Ok l →
  ∀ a, area_at (protect_vmas l.*1 p vmas) a =
       if (s <=? a) && (a <? e) then reprotect p <$> area_at vmas a else area_at vmas a.
Proof.
  intros Hwf Hs He Hl a.
  pose proof (reshaped_wf _ _ _ Hwf (protect_reshaped _ l.*1 p _ Hwf)) as Hwf'.
  destruct (area_at vmas a) as [x|] eqn:Hx.
  - apply (area_at_Some Hwf) in Hx as (v & Hk & Ha & ->).
    destruct ((s <=? a) && (a <? e)) eqn:Hin; simpl.
    + rewrite (area_at_intro Hwf' (v_start v) (vma_with_protection p v) a); [done| |done].
      rewrite protect_vmas_lookup, bool_decide_eq_true_2, Hk; [done|].
      apply (bt_range_keys _ _ _ _ _ Hl). split; [eauto|]. bprop. destruct (Hs _ _ Hk), (He _ _ Hk); lia.
    + rewrite (area_at_intro Hwf' (v_start v) v a); [done| |done].
      rewrite protect_vmas_lookup, bool_decide_eq_false_2, Hk; [done|].
      rewrite (bt_range_keys _ _ _ _ _ Hl). intros [_ ?]. bprop; destruct (Hs _ _ Hk), (He _ _ Hk); lia.
  - rewrite (proj2 (area_at_None Hwf' a)); [by destruct (_ && _)|].
    intros k v Hk Ha. destruct (reshaped_inv _ _ _ _ _ (protect_reshaped _ l.*1 p _ Hwf) Hk) as (u & Hu & ? & ? & _).
    apply (proj1 (area_at_None Hwf a) Hx _ _ Hu). lia.
Qed.

(** ** Coalescing *)
Lemma last_bt_iter {V} (m : gmap Z V) k v :
  last (bt_iter m) = Some (k, v) → m !! k = Some v ∧ ∀ k', is_Some (m !! k') → k' ≤ k.
Proof.
  intros Hl. split; [by apply elem_of_bt_iter, last_elem_of|].
  intros k' [v' Hk']. apply elem_of_bt_iter in Hk'.
  apply last_Some in Hl as [l Hl]. pose proof (bt_iter_sorted m) as Hs.
  rewrite Hl in Hs, Hk'. clear Hl. induction l as [|p l IH]; simpl in *.
  - apply list_elem_of_singleton in Hk' as [= -> ->]. lia.
  - inversion Hs as [|? ? Hs' Hall]; subst. apply elem_of_cons in Hk' as [Hk'|Hk']; [|by apply IH].
    subst p.
    rewrite Forall_forall in Hall. specialize (Hall (k, v) ltac:(set_solver)). simpl in *. lia.
Qed.

Lemma last_bt_iter_None {V} (m : gmap Z V) : last (bt_iter m) = None → m = ∅.
Proof.
  intros Hl%last_None. apply map_eq. intros k. rewrite lookup_empty.
  destruct (m !! k) as [v|] eqn:Hk; [|done]. apply elem_of_bt_iter in Hk. rewrite Hl in Hk. set_solver.
Qed.

Lemma can_merge_spec space u v :
  space + GUEST_PAGE_SIZE ≤ 2 ^ 64 → vma_ok space u → can_merge u v = true →
  v_end u = v_start v ∧ v_protection u = v_protection v ∧ v_kind u = v_kind v ∧
  v_allocation_id u = v_allocation_id v ∧
  v_allocation_offset v = v_allocation_offset u + (v_end u - v_start u).
Proof.
  unfold can_merge, vma_len, MIN_GUEST_ADDRESS, GUEST_PAGE_SIZE. intros Hsp [] H.
  unfold MIN_GUEST_ADDRESS, GUEST_PAGE_SIZE in *. bprop.
  repeat match goal with H : bool_decide _ = true |- _ => apply bool_decide_eq_true in H end.
  rewrite wsub_exact in * by lia. rewrite wadd_exact in * by lia. naive_solver.
Qed.

(** Appending one area at the end of a well-formed map, merging it with the last. *)
Lemma coalesce_step_spec space merged v :
  vmas_wf space merged → vma_ok space v →
  (∀ k u, merged !! k = Some u → v_end u ≤ v_start v) →
  vmas_wf space (coalesce_step merged v) ∧
  (∀ a, area_at (coalesce_step merged v) a =
        if vma_contains v a then Some (area_of v a) else area_at merged a) ∧
  (∀ k u, coalesce_step merged v !! k = Some u → v_end u ≤ v_end v).
Proof.
  intros Hwf Hv Hle.
  assert (Hnew : vmas_wf space (<[v_start v := v]> merged) ∧
    (∀ a, area_at (<[v_start v := v]> merged) a =
          if vma_contains v a then Some (area_of v a) else area_at merged a) ∧
    (∀ k u, <[v_start v := v]> merged !! k = Some u → v_end u ≤ v_end v)).
  { split_and!; [by apply vmas_wf_insert; eauto|by eapply insert_areas; eauto|].
    intros k u [[_ <-]|[_ Hk]]%lookup_insert_Some; [lia|].
    destruct Hv. specialize (Hle _ _ Hk). lia. }
  unfold coalesce_step. destruct (last (bt_iter merged)) as [[key prev]|] eqn:Hl; [|done].
  destruct (can_merge prev v) eqn:Hc; [|done]. clear Hnew.
  apply last_bt_iter in Hl as [Hk Hmax]. pose proof (vw_key _ _ Hwf _ _ Hk) as Hs.
  pose proof (vw_ok _ _ Hwf _ _ Hk) as Hp.
  destruct (can_merge_spec _ _ _ (vw_space _ _ Hwf) Hp Hc) as (He & Hpr & Hki & Hid & Hoff).
  assert (Hp' := Hp). destruct Hv, Hp'. set (u := vma_with_end prev (v_end v)).
  assert (Hd : ∀ k w, delete key merged !! k = Some w → v_end w ≤ v_start u ∨ v_end u ≤ v_start w).
  { intros k w [Hne Hw]%lookup_delete_Some. left. simpl. rewrite Hs.
    eapply (vw_disjoint _ _ Hwf); [done|done|].
    pose proof (Hmax k ltac:(eauto)). lia. }
  assert (Hu : vma_ok space u) by (split; simpl; (done || lia)).
  assert (Hwfd : vmas_wf space (delete key merged)) by (eapply vmas_wf_sub; [done|apply delete_subseteq]).
  assert (<[key:=u]> merged = <[v_start u:=u]> (delete key merged)) as ->.
  { simpl. rewrite Hs. by rewrite insert_delete_eq. }
  split_and!.
  - by apply vmas_wf_insert.
  - intros a. rewrite (insert_areas space) by done.
    assert (merged = <[v_start prev := prev]> (delete key merged)) as Hm
      by (rewrite Hs; by rewrite insert_delete_id).
    assert (∀ k w, delete key merged !! k = Some w → v_end w ≤ v_start prev ∨ v_end prev ≤ v_start w)
      by (intros k w Hw; destruct (Hd k w Hw); simpl in *; lia).
    rewrite Hm at 2. rewrite (insert_areas space) by done.
    destruct (vma_contains v a) eqn:Hva.
    + apply vma_contains_spec in Hva.
      rewrite (proj2 (vma_contains_spec u a)) by (simpl; lia).
      unfold area_of; simpl. rewrite Hpr, Hki, Hid. f_equal. f_equal. lia.
    + destruct (vma_contains prev a) eqn:Hpa.
      * apply vma_contains_spec in Hpa. by rewrite (proj2 (vma_contains_spec u a)) by (simpl; lia).
      * destruct (vma_contains u a) eqn:Hua; [|done]. exfalso.
        apply vma_contains_spec in Hua. simpl in Hua.
        destruct (decide (a < v_end prev)).
        -- rewrite (proj2 (vma_contains_spec prev a)) in Hpa; [done|lia].
        -- rewrite (proj2 (vma_contains_spec v a)) in Hva; [done|lia].
  - intros k w [[_ <-]|[_ [_ Hw]%lookup_delete_Some]]%lookup_insert_Some; [simpl; lia|].
    specialize (Hle _ _ Hw). lia.
Qed.

Lemma coalesce_fold space l merged :
  vmas_wf space merged → StronglySorted (λ u v, v_end u ≤ v_start v) l → Forall (vma_ok space) l →
  (∀ k u v, merged !! k = Some u → v ∈ l → v_end u ≤ v_start v) →
  vmas_wf space (foldl coalesce_step merged l) ∧
  ∀ a x, area_at (foldl coalesce_step merged l) a = Some x ↔
         area_at merged a = Some x ∨ ∃ v, v ∈ l ∧ v_start v ≤ a < v_end v ∧ x = area_of v a.
Proof.
  intros Hwf Hs Hok Hle. revert merged Hwf Hle. induction Hs as [|v l Hs IH Hall]; intros merged Hwf Hle.
  { simpl. split; [done|]. set_solver. }
  inversion Hok as [|? ? Hv Hok']; subst.
  destruct (coalesce_step_spec space merged v Hwf Hv) as (Hwf' & Hareas & Hends); [set_solver|].
  destruct (IH Hok' (coalesce_step merged v) Hwf') as [Hwf'' Hfold].
  { intros k u w Hk Hw. rewrite Forall_forall in Hall. specialize (Hall _ Hw).
    specialize (Hends _ _ Hk). lia. }
  simpl. split; [done|]. intros a x. rewrite Hfold, Hareas.
  destruct (vma_contains v a) eqn:Hc.
  - apply vma_contains_spec in Hc. rewrite (proj2 (area_at_None Hwf a)).
    + split; [|set_solver]. intros [[= <-]|?]; set_solver.
    + intros k u Hk Ha. specialize (Hle _ _ v Hk ltac:(set_solver)). lia.
  - assert (¬ v_start v ≤ a < v_end v) as Hout by (rewrite <- vma_contains_spec; congruence).
    set_solver.
Qed.

Lemma bt_values_sorted space vmas :
  vmas_wf space vmas → StronglySorted (λ u v, v_end u ≤ v_start v) (bt_values vmas).
Proof.
  intros Hwf. unfold bt_values. pose proof (bt_iter_sorted vmas) as Hs.
  assert (Hin : ∀ p, p ∈ bt_iter vmas → vmas !! p.1 = Some p.2)
    by (intros [k v]; apply elem_of_bt_iter).
  induction Hs as [|p l Hs IH Hall]; simpl; [constructor|].
  constructor; [apply IH; set_solver|]. apply Forall_forall. intros v (q & -> & Hq)%list_elem_of_fmap.
  rewrite Forall_forall in Hall. specialize (Hall _ Hq).
  rewrite (vw_key _ _ Hwf q.1 q.2) by (apply Hin; set_solver).
  eapply (vw_disjoint _ _ Hwf); [apply Hin; set_solver..|done].
Qed.

Lemma bt_values_ok space vmas : vmas_wf space vmas → Forall (vma_ok space) (bt_values vmas).
Proof.
  intros Hwf. apply Forall_forall. intros v [k Hk]%elem_of_bt_values. by eapply vw_ok.
Qed.

Lemma empty_wf space : space + GUEST_PAGE_SIZE ≤ 2 ^ 64 → vmas_wf space ∅.
Proof. intros. split; [done|..]; intros *; by rewrite lookup_empty. Qed.

Lemma coalesced_spec space vmas :
  vmas_wf space vmas → vmas_wf space (coalesced vmas) ∧ same_areas vmas (coalesced vmas).
Proof.
  intros Hwf. destruct (coalesce_fold space (bt_values vmas) ∅) as [Hwf' Hareas].
  - apply empty_wf, (vw_space _ _ Hwf).
  - by eapply bt_values_sorted.
  - by apply bt_values_ok.
  - intros *. by rewrite lookup_empty.
  - split; [done|]. intros a. apply option_eq. intros x. unfold coalesced. rewrite Hareas.
    rewrite (area_at_Some Hwf). setoid_rewrite elem_of_bt_values. split.
    + intros [Hx|(v & (k & Hk) & Hin & ->)].
      * by rewrite (proj2 (area_at_None (empty_wf space (vw_space _ _ Hwf)) a)) in Hx.
      * exists v. split_and!; [by eapply vma_lookup_start|lia|lia|done].
    + intros (v & Hk & Hin & ->). right. eauto 10.
Qed.

(** ** Searching the map *)
Lemma existsb_elem {A} (f : A → bool) l : existsb f l = true ↔ ∃ x, x ∈ l ∧ f x = true.
Proof. rewrite existsb_exists. by setoid_rewrite list_elem_of_In. Qed.

Lemma overlaps_spec space m s e :
  vmas_wf space (gm_vmas m) → s < e →
  overlaps m s e = true ↔ ∃ a, s ≤ a < e ∧ is_Some (area_at (gm_vmas m) a).
Proof.
  intros Hwf Hse. unfold overlaps. rewrite existsb_elem. setoid_rewrite elem_of_bt_values.
  setoid_rewrite andb_true_iff. setoid_rewrite Z.ltb_lt. split.
  - intros (v & (k & Hk) & ? & ?). pose proof (vw_ok _ _ Hwf _ _ Hk) as [].
    exists (Z.max s (v_start v)). split; [lia|].
    rewrite (area_at_intro Hwf _ _ _ Hk); [eauto|lia].
  - intros (a & Ha & x & (v & Hk & ? & ->)%(area_at_Some Hwf)). exists v. split; [eauto|lia].
Qed.

Lemma overlaps_false space m s e :
  vmas_wf space (gm_vmas m) → s < e →
  overlaps m s e = false ↔ ∀ k v, gm_vmas m !! k = Some v → v_end v ≤ s ∨ e ≤ v_start v.
Proof.
  intros Hwf Hse. rewrite <- not_true_iff_false. unfold overlaps. rewrite existsb_elem.
  setoid_rewrite elem_of_bt_values. setoid_rewrite andb_true_iff. setoid_rewrite Z.ltb_lt. split.
  - intros H k v Hk. destruct (decide (v_end v ≤ s)); [by left|]. right.
    destruct (decide (e ≤ v_start v)); [done|]. destruct H. exists v. split; [eauto|lia].
  - intros H (v & (k & Hk) & ? & ?). destruct (H _ _ Hk); lia.
Qed.

Lemma range_mapped_loop_spec space l cursor e :
  StronglySorted (λ u v, v_end u ≤ v_start v) l → Forall (vma_ok space) l →
  Forall (λ v, cursor < v_end v) l → cursor < e →
  range_mapped_loop l cursor e = true ↔
  ∀ a, cursor ≤ a < e → ∃ v, v ∈ l ∧ v_start v ≤ a < v_end v.
Proof.
  intros Hs. revert cursor. induction Hs as [|v l Hs IH Hall]; intros cursor Hok Hgt Hce; simpl.
  - split; [done|]. intros H. destruct (H cursor ltac:(lia)) as (? & ? & ?). set_solver.
  - inversion Hok as [|? ? Hv Hok']; subst. inversion Hgt as [|? ? Hcv Hgt']; subst.
    rewrite Forall_forall in Hall. destruct (Z.ltb_spec cursor (v_start v)).
    { split; [done|]. intros Hc. destruct (Hc cursor ltac:(lia)) as (u & Hu & ?).
      apply elem_of_cons in Hu as [->|Hu]; [lia|]. specialize (Hall _ Hu). destruct Hv. lia. }
    rewrite (proj2 (Z.ltb_lt _ _) Hcv). destruct (Z.leb_spec e (v_end v)).
    { split; [|done]. intros _ a Ha. exists v. split; [set_solver|lia]. }
    rewrite IH; [|done| |lia].
    + split; intros Hc a Ha.
      * destruct (decide (a < v_end v)); [exists v; split; [set_solver|lia]|].
        destruct (Hc a ltac:(lia)) as (u & ? & ?). exists u. set_solver.
      * destruct (Hc a ltac:(lia)) as (u & Hu & ?).
        apply elem_of_cons in Hu as [->|Hu]; [lia|eauto].
    + rewrite Forall_forall in Hok' |- *. intros u Hu. specialize (Hall _ Hu).
      pose proof (Hok' _ Hu) as []. lia.
Qed.

(** [is_range_mapped] holds exactly when every address of the range is mapped. *)
Lemma is_range_mapped_spec space m s e :
  vmas_wf space (gm_vmas m) → s < e →
  is_range_mapped m s e = true ↔ ∀ a, s ≤ a < e → is_Some (area_at (gm_vmas m) a).
Proof.
  intros Hwf Hse. unfold is_range_mapped. rewrite (range_mapped_loop_spec space).
  - setoid_rewrite list_elem_of_filter. setoid_rewrite elem_of_bt_values. split.
    + intros H a Ha. destruct (H a Ha) as (v & (_ & k & Hk) & ?).
      rewrite (area_at_intro Hwf _ _ _ Hk); [eauto|done].
    + intros H a Ha. destruct (H a Ha) as (x & (v & Hk & ? & ->)%(area_at_Some Hwf)).
      exists v. split; [|done]. split; [lia|eauto].
  - apply StronglySorted_filter. by eapply bt_values_sorted.
  - pose proof (bt_values_ok _ _ Hwf) as Hok. rewrite Forall_forall in Hok |- *.
    intros v [_ Hv]%list_elem_of_filter. auto.
  - apply Forall_forall. intros v [? _]%list_elem_of_filter. done.
  - done.
Qed.

(** ** Finding free space *)

(** A place where [len] bytes can be mapped. *)
Definition free_place (m : GuestMemory) (len c : Z) : Prop :=
  aligned c ∧ MIN_GUEST_ADDRESS ≤ c ∧ c + len ≤ gm_address_space_end m ∧
  ∀ a, c ≤ a < c + len → area_at (gm_vmas m) a = None.

Definition fits (space : Z) (vmas : list GuestVma) (len c : Z) : Prop :=
  aligned c ∧ MIN_GUEST_ADDRESS ≤ c ∧ c + len ≤ space ∧
  Forall (λ v, v_end v ≤ c ∨ c + len ≤ v_start v) vmas.

Lemma free_place_fits space m len c :
  vmas_wf space (gm_vmas m) → 0 < len → gm_address_space_end m = space →
  free_place m len c ↔ fits space (bt_values (gm_vmas m)) len c.
Proof.
  intros Hwf Hlen <-. unfold free_place, fits. rewrite Forall_forall. setoid_rewrite elem_of_bt_values.
  split; intros (? & ? & ? & H); split_and!; try done.
  - intros v (k & Hk). pose proof (vw_ok _ _ Hwf _ _ Hk) as [].
    destruct (decide (v_end v ≤ c)); [by left|]. right.
    destruct (decide (c + len ≤ v_start v)); [done|].
    pose proof (proj1 (area_at_None Hwf _) (H (Z.max c (v_start v)) ltac:(lia)) _ _ Hk). lia.
  - intros a Ha. apply (area_at_None Hwf). intros k v Hk ?. destruct (H v); [eauto|lia|lia].
Qed.

(** The loop returns the least fit not below the candidate, or there is none. *)
Lemma find_free_loop_spec space l candidate len :
  space + GUEST_PAGE_SIZE ≤ 2 ^ 64 → 0 < len → aligned candidate → MIN_GUEST_ADDRESS ≤ candidate →
  StronglySorted (λ u v, v_end u ≤ v_start v) l → Forall (vma_ok space) l →
  match find_free_loop l space candidate len with
  | Ok r => fits space l len r ∧ candidate ≤ r ∧ ∀ c, fits space l len c → candidate ≤ c → r ≤ c
  | Err _ => ∀ c, fits space l len c → ¬ candidate ≤ c
  | Panic => False
  end.
Proof.
  intros Hsp Hlen Hal Hmin Hs. revert candidate Hal Hmin.
  assert (Hend : ∀ c0, aligned c0 → MIN_GUEST_ADDRESS ≤ c0 →
    (∃ e, checked_mapping_end c0 len space = Err e) → ∀ l c, fits space l len c → ¬ c0 ≤ c).
  { intros c0 Ha0 Hm0 [e He] l' c (_ & _ & Hb & _) Hle. unfold GUEST_PAGE_SIZE in *.
    assert (checked_mapping_end c0 len space = Ok (c0 + len)); [|congruence].
    apply checked_mapping_end_Ok; [lia|]. split_and!; (done || lia). }
  induction Hs as [|v l Hs IH Hall]; intros candidate Hal Hmin Hok; simpl.
  - pose proof (checked_mapping_end_no_panic candidate len space).
    destruct (checked_mapping_end candidate len space) as [r|e|] eqn:Hc; simpl; [| |done].
    + apply checked_mapping_end_Ok in Hc as (-> & ? & ? & ? & ?); [|lia].
      split_and!; [|lia|done]. repeat split; try done.
    + eapply Hend; eauto.
  - inversion Hok as [|? ? Hv Hok']; subst. rewrite Forall_forall in Hall.
    pose proof (checked_mapping_end_no_panic candidate len space).
    destruct (checked_mapping_end candidate len space) as [r|e|] eqn:Hc; simpl; [| |done].
    2: { eapply Hend; eauto. }
    apply checked_mapping_end_Ok in Hc as (-> & ? & ? & ? & ?); [|lia].
    destruct (Z.leb_spec (candidate + len) (v_start v)).
    { split_and!; [|lia|done]. repeat split; try done. constructor; [by right|].
      apply Forall_forall. intros u Hu. specialize (Hall _ Hu). destruct Hv. right. lia. }
    assert (Hskip : ∀ c, fits space (v :: l) len c → candidate ≤ c → v_end v ≤ c).
    { intros c (_ & _ & _ & Hf) Hle. inversion Hf; subst. lia. }
    assert (Htail : ∀ c, fits space (v :: l) len c → fits space l len c).
    { intros c (? & ? & ? & Hf). inversion Hf; subst. done. }
    destruct Hv. unfold MIN_GUEST_ADDRESS, GUEST_PAGE_SIZE in *.
    destruct (Z.ltb_spec candidate (v_end v)) as [Hlt|Hge]; simpl.
    + rewrite align_up_aligned by (done || lia). simpl.
      specialize (IH (v_end v) ltac:(done) ltac:(lia) Hok').
      destruct (find_free_loop l space (v_end v) len) as [r|e|]; [| |done].
      * destruct IH as ((? & ? & ? & ?) & ? & IH). split_and!; [|lia|].
        -- repeat split; try done. constructor; [by left|done].
        -- intros c Hf Hle. apply IH; [auto|]. by apply Hskip.
      * intros c Hf Hle. apply (IH c (Htail c Hf)). by apply Hskip.
    + specialize (IH candidate Hal Hmin Hok').
      destruct (find_free_loop l space candidate len) as [r|e|]; [| |done].
      * destruct IH as ((? & ? & ? & ?) & ? & IH). split_and!; [|lia|].
        -- repeat split; try done. constructor; [left; lia|done].
        -- intros c Hf Hle. apply IH; auto.
      * intros c Hf Hle. by apply (IH c (Htail c Hf)).
Qed.

Lemma find_free_range_fits space m hint len :
  vmas_wf space (gm_vmas m) → gm_address_space_end m = space → 0 ≤ hint → 0 < len →
  match find_free_range m hint len with
  | Ok r => free_place m len r ∧ hint ≤ r ∧ ∀ c, free_place m len c → hint ≤ c → r ≤ c
  | Err _ => ∀ c, free_place m len c → ¬ hint ≤ c
  | Panic => False
  end.
Proof.
  intros Hwf Hsp Hh Hlen. unfold find_free_range. pose proof (vw_space _ _ Hwf) as Hs.
  pose proof (align_up_no_panic hint). destruct (align_up hint) as [c0|e|] eqn:Hc0; simpl; [| |done].
  - apply align_up_Ok in Hc0 as (Ha0 & Hb0 & _); [|done]. rewrite Hsp.
    set (c1 := if c0 <? MIN_GUEST_ADDRESS then MIN_GUEST_ADDRESS else c0).
    assert (Hc1 : aligned c1 ∧ MIN_GUEST_ADDRESS ≤ c1 ∧ c1 = Z.max c0 MIN_GUEST_ADDRESS).
    { subst c1. destruct (Z.ltb_spec c0 MIN_GUEST_ADDRESS); split_and!; (done || lia). }
    destruct Hc1 as (Ha1 & Hm1 & Hmax).
    assert (Hge : ∀ c, free_place m len c → hint ≤ c → c1 ≤ c).
    { intros c (Ha & Hm & _) Hle. apply aligned_mult in Ha as [k ->], Ha0 as [k0 ->].
      unfold GUEST_PAGE_SIZE in *. lia. }
    pose proof (find_free_loop_spec space (bt_values (gm_vmas m)) c1 len Hs Hlen Ha1 Hm1
                  (bt_values_sorted _ _ Hwf) (bt_values_ok _ _ Hwf)) as Hloop.
    destruct (find_free_loop _ _ _ _) as [r|e|]; [| |done].
    + destruct Hloop as (Hfit & Hle & Hleast). rewrite <- free_place_fits in Hfit by done.
      split_and!; [done|lia|]. intros c Hf Hc. apply Hleast; [by apply free_place_fits|by apply Hge].
    + intros c Hf Hc. apply (Hloop c); [by apply free_place_fits|by apply Hge].
  - intros c (Ha & _ & Hb & _) Hle. apply aligned_mult in Ha as [k ->]. unfold align_up in Hc0.
    destruct (checked_add64 _ _) eqn:Hadd; [done|]. apply checked_add64_None in Hadd.
    unfold GUEST_PAGE_SIZE in *. lia.
Qed.
