(* ===== verification/GuestMemoryInv.v ===== *)
(** * Guest memory: the invariant and the abstract memory

    The abstract state of a guest memory is a flat address space: [cell_at w a] is
    the protection, the kind and the byte at the guest address [a], if it is mapped.
    [mem_wf] relates it to the areas, allocations and reference-counted blocks of the
    implementation; [others w b] counts the references to a block held outside this
    memory, and [respects_others] says that an operation changes neither that count
    nor the bytes of a block with such references (copy on write). *)

From S2P Require Import Prelude SysAbi HostMemory GuestMemory GuestMemoryOps GuestVmas.
From stdpp Require Import base gmap list sorting strings.
From Stdlib Require Import ZArith Lia.
Open Scope Z_scope.

(** ** What a heap holds, protections aside *)
Definition contents (h : HostHeap) (b : Z) : option (list Z * Z) :=
  (λ k, (hm_bytes (ab_memory k), ab_strong k)) <$> hh_blocks h !! b.

Definition strong (h : HostHeap) (b : Z) : Z := default 0 (snd <$> contents h b).

Record heap_eq (h h' : HostHeap) : Prop := {
  he_next : hh_next h' = hh_next h;
  he_contents : ∀ b, contents h' b = contents h b;
}.

#[export] Instance heap_eq_equiv : Equivalence heap_eq.
Proof.
  split.
  - by split.
  - intros x y [H1 H2]. split; [done|]. intros b. by rewrite H2.
  - intros x y z [H1 H2] [H3 H4]. split; [congruence|]. intros b. by rewrite H4.
Qed.

Record heap_wf (h : HostHeap) : Prop := {
  hw_fresh : ∀ b c, contents h b = Some c → b < hh_next h;
  hw_strong : ∀ b bytes n, contents h b = Some (bytes, n) → 1 ≤ n;
}.

#[export] Instance heap_wf_proper : Proper (heap_eq ==> iff) heap_wf.
Proof.
  intros h h' [Hn Hc]. split; intros [H1 H2]; split; intros *.
  - rewrite Hn, Hc. apply H1.
  - rewrite Hc. apply H2.
  - rewrite <- Hn, <- Hc. apply H1.
  - rewrite <- Hc. apply H2.
Qed.

Lemma heap_eq_strong h h' b : heap_eq h h' → strong h' b = strong h b.
Proof. intros [_ Hc]. unfold strong. by rewrite Hc. Qed.

(** ** The invariant of a guest memory *)

(** How many allocations of the memory refer to a block. *)
Definition refs (m : GuestMemory) (b : Z) : Z :=
  Z.of_nat (size (filter (λ p : Z * GuestAllocation, a_memory p.2 = b) (gm_allocations m))).

Definition vma_backed (h : HostHeap) (m : GuestMemory) (v : GuestVma) : Prop :=
  ∃ al bytes n, gm_allocations m !! v_allocation_id v = Some al ∧
    contents h (a_memory al) = Some (bytes, n) ∧
    a_guest_start al + v_allocation_offset v = v_start v ∧
    v_end v ≤ a_guest_start al + zlen bytes.

Record mem_wf (h : HostHeap) (m : GuestMemory) : Prop := {
  mw_heap : heap_wf h;
  mw_vmas : vmas_wf (gm_address_space_end m) (gm_vmas m);
  mw_ids : ∀ id al, gm_allocations m !! id = Some al → id < gm_next_allocation_id m;
  mw_alloc : ∀ id al, gm_allocations m !! id = Some al →
    ∃ bytes n, contents h (a_memory al) = Some (bytes, n) ∧
      0 ≤ a_guest_start al ∧ 0 < zlen bytes ∧ a_guest_start al + zlen bytes < 2 ^ 64;
  mw_refs : ∀ b, refs m b ≤ strong h b;
  mw_backed : ∀ k v, gm_vmas m !! k = Some v → vma_backed h m v;
}.

Definition world_wf (w : World) : Prop := mem_wf (w_host w) (w_mem w).

(** References held by other owners. *)
Definition others (w : World) (b : Z) : Z := strong (w_host w) b - refs (w_mem w) b.

Definition block_bytes (h : HostHeap) (b : Z) : option (list Z) := fst <$> contents h b.

(** What an operation may do to blocks with other owners: nothing they can observe. *)
Definition respects_others (w w' : World) : Prop :=
  hh_next (w_host w) ≤ hh_next (w_host w') ∧
  ∀ b, others w' b = others w b ∧
       (0 < others w b → block_bytes (w_host w') b = block_bytes (w_host w) b).

#[export] Instance respects_others_preorder : PreOrder respects_others.
Proof.
  split; [intros w; split; [lia|done]|].
  intros w1 w2 w3 [Hn H] [Hn' H']. split; [lia|]. intros b.
  destruct (H b) as [Ho Hb], (H' b) as [Ho' Hb']. split; [congruence|].
  intros Hpos. rewrite Hb', Hb; [done..|]. lia.
Qed.

(** ** The abstract memory *)
Record Cell : Type := {
  c_protection : GuestMemoryProtection;
  c_kind : GuestVmaKind;
  c_byte : Z;
}.

Definition area_byte (h : HostHeap) (m : GuestMemory) (x : Area) : option Z :=
  al ← gm_allocations m !! ar_allocation x;
  c ← contents h (a_memory al);
  byte_at c.1 (ar_offset x).

Definition cell_at (w : World) (a : Z) : option Cell :=
  x ← area_at (gm_vmas (w_mem w)) a;
  (λ byte, {| c_protection := ar_protection x; c_kind := ar_kind x; c_byte := byte |}) <$>
    area_byte (w_host w) (w_mem w) x.

Definition same_cells (w w' : World) : Prop := ∀ a, cell_at w' a = cell_at w a.

#[export] Instance same_cells_equiv : Equivalence same_cells.
Proof. split; [done|intros x y H a; by rewrite H|]. intros x y z H1 H2 a. by rewrite H2, H1. Qed.

Section invariant.
Context {h : HostHeap} {m : GuestMemory} (Hwf : mem_wf h m).

(** The byte behind an address of an area. *)
Lemma vma_byte k v a :
  gm_vmas m !! k = Some v → v_start v ≤ a < v_end v →
  ∃ al bytes n byte, gm_allocations m !! v_allocation_id v = Some al ∧
    contents h (a_memory al) = Some (bytes, n) ∧
    byte_at bytes (v_allocation_offset v + (a - v_start v)) = Some byte ∧
    area_byte h m (area_of v a) = Some byte.
Proof using Hwf.
  intros Hk Ha. destruct (mw_backed _ _ Hwf _ _ Hk) as (al & bytes & n & Hal & Hc & Hs & He).
  pose proof (vw_ok _ _ (mw_vmas _ _ Hwf) _ _ Hk) as [].
  destruct (mw_alloc _ _ Hwf _ _ Hal) as (? & ? & Hc' & ? & ? & ?). simplify_eq.
  destruct (byte_at_Some bytes (v_allocation_offset v + (a - v_start v))) as [byte Hb]; [lia|].
  exists al, bytes, n, byte. split_and!; [done..|]. unfold area_byte; simpl. by rewrite Hal; simpl; rewrite Hc.
Qed.

(** An address has a cell exactly when it is mapped. *)
Lemma cell_at_mapped a :
  is_Some (cell_at {| w_host := h; w_mem := m |} a) ↔ is_Some (area_at (gm_vmas m) a).
Proof using Hwf.
  unfold cell_at; simpl. destruct (area_at (gm_vmas m) a) as [x|] eqn:Hx; simpl; [|done].
  apply (area_at_Some (mw_vmas _ _ Hwf)) in Hx as (v & Hk & Ha & ->).
  destruct (vma_byte _ _ _ Hk Ha) as (? & ? & ? & byte & _ & _ & _ & ->). split; eauto.
Qed.
End invariant.

#[export] Instance mem_wf_proper : Proper (heap_eq ==> eq ==> iff) mem_wf.
Proof.
  assert (∀ h h' m, heap_eq h h' → mem_wf h m → mem_wf h' m) as Himp.
  { intros h h' m Heq [Hh Hv Hids Hal Hr Hb]. pose proof Heq as [Hn Hc]. split; [|done|done|..].
    - by rewrite <- Heq.
    - intros id al Hid. rewrite Hc. eauto.
    - intros b. rewrite (heap_eq_strong _ _ _ Heq). auto.
    - intros k v Hk. destruct (Hb k v Hk) as (al & bytes & n & ? & ? & ?).
      exists al, bytes, n. by rewrite Hc. }
  intros h h' Heq m ? <-. split; apply Himp; [done|by symmetry].
Qed.

Lemma heap_eq_cells h h' m :
  heap_eq h h' → same_cells {| w_host := h; w_mem := m |} {| w_host := h'; w_mem := m |}.
Proof.
  intros [_ Hc] a. unfold cell_at; simpl. destruct (area_at (gm_vmas m) a) as [x|]; simpl; [|done].
  f_equal. unfold area_byte. destruct (gm_allocations m !! ar_allocation x) as [al|]; simpl; [|done].
  by rewrite Hc.
Qed.

Lemma heap_eq_others h h' m :
  heap_eq h h' → respects_others {| w_host := h; w_mem := m |} {| w_host := h'; w_mem := m |}.
Proof.
  intros Heq. pose proof Heq as [Hn Hc]. split; [simpl; lia|]. intros b.
  unfold others, block_bytes; simpl. by rewrite (heap_eq_strong _ _ _ Heq), Hc.
Qed.

(** ** Counting references *)
Lemma refs_insert_new m id al b f :
  gm_allocations m !! id = None →
  f (gm_allocations m) = <[id := al]> (gm_allocations m) →
  refs (set_allocations f m) b = refs m b + (if bool_decide (a_memory al = b) then 1 else 0).
Proof.
  intros Hid Hf. unfold refs; simpl. rewrite Hf. case_bool_decide.
  - rewrite map_filter_insert_True by done. rewrite map_size_insert_None; [lia|].
    rewrite map_lookup_filter, Hid. done.
  - rewrite map_filter_insert_not' by (done || (intros y Hy; congruence)). lia.
Qed.

Lemma refs_delete m id al b f :
  gm_allocations m !! id = Some al →
  f (gm_allocations m) = delete id (gm_allocations m) →
  refs (set_allocations f m) b = refs m b - (if bool_decide (a_memory al = b) then 1 else 0).
Proof.
  intros Hid Hf. pose proof (insert_delete_id _ _ _ Hid) as Hm.
  assert (refs m b = refs (set_allocations f m) b + (if bool_decide (a_memory al = b) then 1 else 0)) as ->;
    [|lia].
  rewrite <- (refs_insert_new (set_allocations f m) id al b (λ _, gm_allocations m)).
  - done.
  - simpl. rewrite Hf. apply lookup_delete_eq.
  - simpl. by rewrite Hf.
Qed.

Lemma refs_pos m id al : gm_allocations m !! id = Some al → 1 ≤ refs m (a_memory al).
Proof.
  intros Hid. pose proof (refs_delete m id al (a_memory al) _ Hid eq_refl) as Hd.
  rewrite bool_decide_eq_true_2 in Hd by done. unfold refs in Hd at 1. lia.
Qed.

Lemma refs_set_vmas f m b : refs (set_vmas f m) b = refs m b.
Proof. done. Qed.

(** ** What an allocation holds: its guest address and its bytes *)
Definition alloc_view (w : World) (id : Z) : option (Z * list Z) :=
  al ← gm_allocations (w_mem w) !! id;
  bytes ← block_bytes (w_host w) (a_memory al);
  Some (a_guest_start al, bytes).

Lemma alloc_view_Some w id gs bytes :
  alloc_view w id = Some (gs, bytes) ↔
  ∃ al n, gm_allocations (w_mem w) !! id = Some al ∧ a_guest_start al = gs ∧
          contents (w_host w) (a_memory al) = Some (bytes, n).
Proof.
  unfold alloc_view, block_bytes. split.
  - intros (al & Hal & (bs & ([bs' n] & Hc & ->)%fmap_Some & [= <- <-])%bind_Some)%bind_Some.
    exists al, n. by rewrite Hc.
  - intros (al & n & Hal & <- & Hc). rewrite Hal; simpl. by rewrite Hc.
Qed.

Lemma area_byte_view w x :
  area_byte (w_host w) (w_mem w) x = (p ← alloc_view w (ar_allocation x); byte_at p.2 (ar_offset x)).
Proof.
  unfold area_byte, alloc_view, block_bytes.
  destruct (gm_allocations (w_mem w) !! ar_allocation x) as [al|]; simpl; [|done].
  by destruct (contents (w_host w) (a_memory al)).
Qed.

Lemma vma_backed_view w v :
  vma_backed (w_host w) (w_mem w) v ↔
  ∃ gs bytes, alloc_view w (v_allocation_id v) = Some (gs, bytes) ∧
    gs + v_allocation_offset v = v_start v ∧ v_end v ≤ gs + zlen bytes.
Proof.
  unfold vma_backed. setoid_rewrite alloc_view_Some. split.
  - intros (al & bytes & n & ? & ? & ? & ?). exists (a_guest_start al), bytes. eauto 10.
  - intros (gs & bytes & (al & n & ? & <- & ?) & ? & ?). exists al, bytes, n. done.
Qed.

Lemma cell_ext w w' a :
  area_at (gm_vmas (w_mem w')) a = area_at (gm_vmas (w_mem w)) a →
  (∀ id, alloc_view w' id = alloc_view w id) → cell_at w' a = cell_at w a.
Proof.
  intros Ha Hv. unfold cell_at. rewrite Ha. destruct (area_at (gm_vmas (w_mem w)) a) as [x|]; simpl; [|done].
  by rewrite !area_byte_view, Hv.
Qed.

Lemma cells_ext w w' :
  same_areas (gm_vmas (w_mem w)) (gm_vmas (w_mem w')) →
  (∀ id, alloc_view w' id = alloc_view w id) → same_cells w w'.
Proof. intros Ha Hv a. by apply cell_ext. Qed.

Lemma world_alloc w id al :
  world_wf w → gm_allocations (w_mem w) !! id = Some al →
  ∃ bytes n, contents (w_host w) (a_memory al) = Some (bytes, n) ∧
    alloc_view w id = Some (a_guest_start al, bytes) ∧
    0 ≤ a_guest_start al ∧ 0 < zlen bytes ∧ a_guest_start al + zlen bytes < 2 ^ 64.
Proof.
  intros Hwf Hal. destruct (mw_alloc _ _ Hwf _ _ Hal) as (bytes & n & Hc & ?).
  exists bytes, n. split_and!; try done; try lia. apply alloc_view_Some. eauto.
Qed.

Lemma world_vma w k v :
  world_wf w → gm_vmas (w_mem w) !! k = Some v →
  ∃ al bytes n, gm_allocations (w_mem w) !! v_allocation_id v = Some al ∧
    contents (w_host w) (a_memory al) = Some (bytes, n) ∧
    alloc_view w (v_allocation_id v) = Some (a_guest_start al, bytes) ∧
    a_guest_start al + v_allocation_offset v = v_start v ∧
    v_end v ≤ a_guest_start al + zlen bytes ∧ 0 ≤ a_guest_start al ∧
    a_guest_start al + zlen bytes < 2 ^ 64.
Proof.
  intros Hwf Hk. destruct (mw_backed _ _ Hwf _ _ Hk) as (al & bytes & n & Hal & Hc & Hs & He).
  destruct (world_alloc _ _ _ Hwf Hal) as (bytes' & n' & Hc' & Hv & ?). simplify_eq.
  exists al, bytes, n. naive_solver.
Qed.

(** The cell of an address, through the allocation behind its area. *)
Definition mk_cell (x : Area) (byte : Z) : Cell :=
  {| c_protection := ar_protection x; c_kind := ar_kind x; c_byte := byte |}.

Lemma cell_at_area w a x :
  area_at (gm_vmas (w_mem w)) a = Some x →
  cell_at w a = mk_cell x <$> (p ← alloc_view w (ar_allocation x); byte_at p.2 (ar_offset x)).
Proof. intros Hx. unfold cell_at. rewrite Hx. simpl. by rewrite area_byte_view. Qed.

Lemma cell_at_unmapped w a : area_at (gm_vmas (w_mem w)) a = None → cell_at w a = None.
Proof. intros Hx. unfold cell_at. by rewrite Hx. Qed.

Lemma surjective_pairing_world w : w = {| w_host := w_host w; w_mem := w_mem w |}.
Proof. by destruct w. Qed.
