(* ===== verification/GuestMemoryHost.v ===== *)
(** * Guest memory: steps on the host heap

    Specifications of the operations that reach the host: protection changes and cache
    flushes do not change what blocks hold, copying a shared allocation or detaching an
    area from it changes neither what the guest sees nor what other owners of the block
    see, and none of them panics on a well-formed memory. *)

From S2P Require Import Prelude SysAbi HostMemory GuestMemory GuestMemoryOps GuestVmas.
From S2P Require Import GuestMemoryInv.
From stdpp Require Import base gmap list sorting strings.
From Stdlib Require Import ZArith Lia.
Open Scope Z_scope.

(** ** Heap primitives *)
Lemma contents_lookup h b bytes n :
  contents h b = Some (bytes, n) ↔
  ∃ k, hh_blocks h !! b = Some k ∧ hm_bytes (ab_memory k) = bytes ∧ ab_strong k = n.
Proof.
  unfold contents. rewrite fmap_Some. split; intros (k & Hk & H); exists k; naive_solver.
Qed.

Lemma contents_alter h b b' k' :
  hh_blocks h !! b = Some k' → ∀ f : ArcBlock → ArcBlock,
  contents (hh_set_blocks (alter f b) h) b' =
  if bool_decide (b' = b) then Some (hm_bytes (ab_memory (f k')), ab_strong (f k')) else contents h b'.
Proof.
  intros Hk f. unfold contents; simpl. case_bool_decide.
  - subst. by rewrite lookup_alter, decide_True, Hk.
  - by rewrite lookup_alter_ne.
Qed.

Lemma contents_insert h b b' k next clock :
  contents {| hh_blocks := <[b := k]> (hh_blocks h); hh_next := next; hh_clock := clock |} b' =
  if bool_decide (b' = b) then Some (hm_bytes (ab_memory k), ab_strong k) else contents h b'.
Proof.
  unfold contents; simpl. case_bool_decide.
  - subst. by rewrite lookup_insert_eq.
  - by rewrite lookup_insert_ne.
Qed.

Lemma contents_drop h b b' bytes n :
  contents h b = Some (bytes, n) →
  contents (hh_set_blocks (drop_ref b) h) b' =
  if bool_decide (b' = b) then (if n =? 1 then None else Some (bytes, n - 1)) else contents h b'.
Proof.
  intros (k & Hk & <- & <-)%contents_lookup. unfold drop_ref, contents; simpl.
  rewrite Hk. case_bool_decide as Hb.
  - subst. destruct (_ =? 1); [by rewrite lookup_delete_eq|by rewrite lookup_insert_eq].
  - destruct (_ =? 1); [by rewrite lookup_delete_ne|by rewrite lookup_insert_ne].
Qed.

Lemma heap_eq_tick h : heap_eq h (hh_tick h).
Proof. by split. Qed.
#[export] Hint Resolve heap_eq_tick : mcr.

Section primitives.
Context `{OS : HostOs} `{OL : !HostOsLaws OS}.

Lemma wp_arc_get h b bytes n (Q : HostMemory → HostHeap → Prop) R :
  contents h b = Some (bytes, n) →
  (∀ k, hh_blocks h !! b = Some k → hm_bytes (ab_memory k) = bytes → Q (ab_memory k) h) →
  wp (arc_get b) Q R h.
Proof.
  intros (k & Hk & Hb & _)%contents_lookup HQ. unfold arc_get. wp_steps.
  apply wp_lift; rewrite Hk; simpl; [intros ? [= <-]; by apply HQ|done|done].
Qed.

Lemma wp_arc_strong_count h b bytes n (Q : Z → HostHeap → Prop) R :
  contents h b = Some (bytes, n) → Q n h → wp (arc_strong_count b) Q R h.
Proof.
  intros (k & Hk & _ & <-)%contents_lookup HQ. unfold arc_strong_count. wp_steps.
  apply wp_lift; rewrite Hk; simpl; [by intros ? [= <-]|done|done].
Qed.

Lemma wp_allocate_platform h address size p :
  wp (allocate_platform address size p)
     (λ mem h', zlen (hm_bytes mem) = size ∧ heap_eq h h') (λ _ h', heap_eq h h') h.
Proof.
  unfold allocate_platform. wp_steps. destruct (os_allocate _ _ _ _) as [bytes|e] eqn:Ho; wp_steps.
  - split; [by eapply os_allocate_size|auto with mcr].
  - auto with mcr.
Qed.

Lemma wp_protect_range h mem off len p :
  wp (protect_range mem off len p)
     (λ mem' h', hm_bytes mem' = hm_bytes mem ∧ heap_eq h h') (λ _ h', heap_eq h h') h.
Proof.
  unfold protect_range. destruct (checked_add64 off len); [|by wp_steps].
  destruct (_ || _); wp_steps; [done|].
  destruct (os_protect _ _ _ _); wp_steps; auto with mcr.
Qed.

Lemma wp_flush h mem off len :
  wp (flush_instruction_cache_range mem off len) (λ _ h', heap_eq h h') (λ _ h', heap_eq h h') h.
Proof.
  unfold flush_instruction_cache_range. destruct (checked_add64 off len); [|by wp_steps].
  destruct (_ || _); wp_steps; [done|].
  destruct (os_flush _ _ _); wp_steps; auto with mcr.
Qed.

(** Writing a block through its only reference. *)
Lemma arc_set_contents h b mem bytes n b' :
  contents h b = Some (bytes, n) →
  contents (hh_set_blocks (alter (λ a, {| ab_memory := mem; ab_strong := ab_strong a |}) b) h) b' =
  if bool_decide (b' = b) then Some (hm_bytes mem, n) else contents h b'.
Proof.
  intros (k & Hk & _ & <-)%contents_lookup. by rewrite (contents_alter _ _ _ _ Hk).
Qed.

Lemma arc_set_same h b mem bytes n :
  contents h b = Some (bytes, n) → hm_bytes mem = bytes →
  heap_eq h (hh_set_blocks (alter (λ a, {| ab_memory := mem; ab_strong := ab_strong a |}) b) h).
Proof.
  intros Hc <-. split; [done|]. intros b'. rewrite (arc_set_contents _ _ _ _ _ _ Hc).
  by case_bool_decide; subst.
Qed.

Lemma wp_arc_protect_range h b off len p bytes n :
  contents h b = Some (bytes, n) →
  wp (arc_protect_range b off len p) (λ _ h', heap_eq h h') (λ _ h', heap_eq h h') h.
Proof.
  intros Hc. unfold arc_protect_range. wp_steps. eapply wp_arc_get; [done|]. intros k Hk Hb.
  wp_steps. eapply wp_mono; [apply wp_protect_range| |by auto].
  intros mem h' [Hm Heq]. cbv beta. unfold arc_set. wp_steps.
  transitivity h'; [done|]. eapply arc_set_same; [by rewrite (he_contents _ _ Heq)|congruence].
Qed.

Lemma wp_arc_protect h b p bytes n :
  contents h b = Some (bytes, n) →
  wp (arc_protect b p) (λ _ h', heap_eq h h') (λ _ h', heap_eq h h') h.
Proof.
  intros Hc. unfold arc_protect. wp_steps. eapply wp_arc_get; [done|]. intros k Hk Hb.
  by eapply wp_arc_protect_range.
Qed.

Lemma wp_arc_flush h b off len bytes n :
  contents h b = Some (bytes, n) →
  wp (arc_flush b off len) (λ _ h', heap_eq h h') (λ _ h', heap_eq h h') h.
Proof.
  intros Hc. unfold arc_flush. wp_steps. eapply wp_arc_get; [done|]. intros k Hk Hb. apply wp_flush.
Qed.
End primitives.

(** ** Steps of a memory *)
Lemma wp_host_op {A} (op : HostM A) (Q : A → World → Prop) R w :
  wp op (λ a h, Q a {| w_host := h; w_mem := w_mem w |})
        (λ e h, R (Host e) {| w_host := h; w_mem := w_mem w |}) (w_host w) →
  wp (host_op op) Q R w.
Proof. unfold wp, host_op. by destruct (op (w_host w)) as [[a|e|] h]. Qed.

Lemma wp_gets_mem {A} (f : GuestMemory → A) (Q : A → World → Prop) R w :
  Q (f (w_mem w)) w → wp (gets_mem f) Q R w.
Proof. done. Qed.

Lemma wp_modify_mem f (Q : unit → World → Prop) R w :
  Q tt {| w_host := w_host w; w_mem := f (w_mem w) |} → wp (modify_mem f) Q R w.
Proof. done. Qed.

Ltac mem_step :=
  match goal with
  | |- wp (gets_mem _) _ _ _ => apply wp_gets_mem
  | |- wp (get_allocation _) _ _ _ => apply wp_gets_mem
  | |- wp (modify_mem _) _ _ _ => apply wp_modify_mem
  | |- wp (host_op _) _ _ _ => apply wp_host_op
  | _ => wp_step
  end; cbv beta; unfold id; simpl w_host; simpl w_mem.
Ltac mem_steps := repeat mem_step.

(** The heap with one more block. *)
Definition push_block (mem : HostMemory) (h : HostHeap) : HostHeap :=
  {| hh_blocks := <[hh_next h := {| ab_memory := mem; ab_strong := 1 |}]> (hh_blocks h);
     hh_next := hh_next h + 1; hh_clock := hh_clock h |}.

Lemma push_block_contents mem h b :
  contents (push_block mem h) b =
  if bool_decide (b = hh_next h) then Some (hm_bytes mem, 1) else contents h b.
Proof. apply contents_insert. Qed.

Lemma wp_insert_allocation id gs mem (Q : unit → World → Prop) R w :
  Q tt {| w_host := push_block mem (w_host w);
          w_mem := set_allocations (insert id {| a_guest_start := gs; a_memory := hh_next (w_host w) |})
                     (w_mem w) |} →
  wp (insert_allocation id gs mem) Q R w.
Proof. done. Qed.

(** A step that the memory's own state does not record. *)
Definition quiet (w w' : World) : Prop :=
  w_mem w' = w_mem w ∧ heap_eq (w_host w) (w_host w').

#[export] Instance quiet_equiv : Equivalence quiet.
Proof.
  split.
  - by split.
  - intros x y [H1 H2]. by split.
  - intros x y z [H1 H2] [H3 H4]. split; [congruence|by transitivity (w_host y)].
Qed.

(** An error that does not accuse the guest of a bad access: the host or a limit refused. *)
Definition resource_error (e : GuestMemoryError) : Prop :=
  match e with NotMapped | AccessDenied => False | _ => True end.

Definition quiet_failure (w : World) (e : GuestMemoryError) (w' : World) : Prop :=
  resource_error e ∧ quiet w w'.

(** The host refused. *)
Definition host_failure (w : World) (e : GuestMemoryError) (w' : World) : Prop :=
  is_host_error e = true ∧ quiet w w'.

Lemma host_quiet_failure w e w' : host_failure w e w' → quiet_failure w e w'.
Proof. intros [He Hq]. split; [by destruct e|done]. Qed.

Lemma host_failure_trans w w1 e w2 : quiet w w1 → host_failure w1 e w2 → host_failure w e w2.
Proof. intros Hq [He Hq']. split; [done|by transitivity w1]. Qed.

Lemma quiet_failure_trans w w1 e w2 : quiet w w1 → quiet_failure w1 e w2 → quiet_failure w e w2.
Proof. intros Hq [He Hq']. split; [done|by transitivity w1]. Qed.

(** The fields no internal step touches. *)
Definition same_layout (m m' : GuestMemory) : Prop :=
  gm_address_space_end m' = gm_address_space_end m ∧ gm_brk_base m' = gm_brk_base m ∧
  gm_current_brk m' = gm_current_brk m ∧ gm_mmap_base m' = gm_mmap_base m ∧
  gm_host_address_mode m' = gm_host_address_mode m ∧
  gm_executable_write_generation m' = gm_executable_write_generation m.

#[export] Instance same_layout_preorder : PreOrder same_layout.
Proof. split; [done|]. unfold same_layout. intros ???. intuition congruence. Qed.

(** A step that neither the guest nor another owner of a block can see. *)
Record invisible (w w' : World) : Prop := {
  iv_wf : world_wf w';
  iv_cells : same_cells w w';
  iv_others : respects_others w w';
  iv_layout : same_layout (w_mem w) (w_mem w');
}.

Lemma invisible_refl w : world_wf w → invisible w w.
Proof. by split. Qed.

Lemma invisible_trans w1 w2 w3 : invisible w1 w2 → invisible w2 w3 → invisible w1 w3.
Proof.
  intros [? ? ? L] [? ? ? L']. split; [done|by transitivity w2|by transitivity w2|].
  by transitivity (w_mem w2).
Qed.

Lemma quiet_invisible w w' : world_wf w → quiet w w' → invisible w w'.
Proof.
  destruct w as [h m], w' as [h' m']. intros Hwf [Hm Heq]. simpl in *. subst m'. split.
  - unfold world_wf in *; simpl in *. by rewrite <- Heq.
  - by apply heap_eq_cells.
  - by apply heap_eq_others.
  - done.
Qed.

Lemma quiet_wf w w' : world_wf w → quiet w w' → world_wf w'.
Proof. intros Hwf Hq. by destruct (quiet_invisible _ _ Hwf Hq). Qed.

#[export] Hint Resolve invisible_refl quiet_invisible : mcr.

Lemma collect_no_panic {A B E} (f : A → outcome B E) l : (∀ x, f x ≠ Panic) → collect f l ≠ Panic.
Proof.
  intros Hf. induction l as [|x l IH]; simpl; [done|].
  specialize (Hf x). destruct (f x); simpl; try done. by destruct (collect f l).
Qed.

Lemma usize_try_from_no_panic v : usize_try_from v ≠ Panic.
Proof. unfold usize_try_from. by destruct (_ && _). Qed.

Lemma usize_try_from_Ok v r : usize_try_from v = Ok r ↔ r = v ∧ 0 ≤ v < 2 ^ 64.
Proof.
  unfold usize_try_from, U64_MAX. destruct (Z.leb_spec 0 v), (Z.leb_spec v (2 ^ 64 - 1)); simpl;
    split; try done; try lia; try (intros [= <-]; lia). intros [-> _]. done.
Qed.

Lemma usize_try_from_Err v e : usize_try_from v = Err e → e = RegionTooLarge.
Proof. unfold usize_try_from. destruct (_ && _); congruence. Qed.

Lemma collect_Err {A B E} (P : E → Prop) (f : A → outcome B E) l e :
  (∀ x e, f x = Err e → P e) → collect f l = Err e → P e.
Proof.
  intros Hf. induction l as [|x l IH]; simpl; [done|]. specialize (Hf x).
  destruct (f x); simpl; [|naive_solver|done]. destruct (collect f l); simpl; naive_solver.
Qed.

Lemma allocation_protection_ranges_Err m id e :
  allocation_protection_ranges m id = Err e → resource_error e.
Proof.
  apply collect_Err. intros v e'. unfold usize_try_from.
  destruct (_ && _); simpl; [|by intros [= <-]]. destruct (_ && _); simpl; [done|by intros [= <-]].
Qed.

Lemma allocation_protection_ranges_no_panic m id : allocation_protection_ranges m id ≠ Panic.
Proof.
  apply collect_no_panic. intros v. unfold usize_try_from.
  destruct (_ && _); simpl; [|done]. by destruct (_ && _).
Qed.

Lemma ok_or_no_panic {A E} (o : option A) (e : E) : ok_or o e ≠ Panic.
Proof. by destruct o. Qed.

#[export] Hint Resolve usize_try_from_no_panic allocation_protection_ranges_no_panic ok_or_no_panic : mcr.

Section memory_steps.
Context `{OS : HostOs} `{OL : !HostOsLaws OS}.

Lemma wp_protections w b ranges bytes n :
  contents (w_host w) b = Some (bytes, n) →
  wp (apply_allocation_protections b ranges) (λ _ w', quiet w w') (host_failure w) w.
Proof.
  intros Hc. unfold apply_allocation_protections.
  apply (wp_foreach _ _ (λ _ w', quiet w w')); [done|].
  intros r l' w' [Hm Heq]. apply wp_host_op.
  eapply wp_mono; [eapply wp_arc_protect_range; by rewrite (he_contents _ _ Heq)|..];
    intros ? h' Heq'; cbv beta.
  - split; [done|by transitivity (w_host w')].
  - split; [done|]. split; [done|by transitivity (w_host w')].
Qed.

Lemma wp_protections_local w mem ranges :
  wp (apply_protections_local mem ranges)
     (λ mem' w', hm_bytes mem' = hm_bytes mem ∧ quiet w w') (host_failure w) w.
Proof.
  revert w mem. induction ranges as [|r ranges IH]; intros w mem; simpl; wp_steps; [done|].
  apply wp_host_op. eapply wp_mono; [apply wp_protect_range|..]; [|by intros e h' Heq; split; [|split]].
  intros mem' h' [Hm Heq]. cbv beta. eapply wp_mono; [apply IH|..]; cbv beta.
  - intros mem'' w'' [Hm' [??]]. split; [congruence|]. split; [done|by transitivity h'].
  - intros e w'' [? [??]]. split; [done|]. split; [done|by transitivity h'].
Qed.

(** The guard around a body that only reads the block. *)
Lemma wp_guard {A} w b ranges bytes n (body : MemM A) (Q : A → Prop) :
  contents (w_host w) b = Some (bytes, n) →
  (∀ w', quiet w w' → wp body (λ a w'', Q a ∧ quiet w w'') (quiet_failure w) w') →
  wp (with_protection_guard b ranges body) (λ a w', Q a ∧ quiet w w') (quiet_failure w) w.
Proof.
  intros Hc Hbody. unfold with_protection_guard. wp_steps. apply wp_host_op.
  eapply wp_mono; [by eapply wp_arc_protect|..]; [|by intros e h' Heq; split; [|split]].
  intros [] h' Heq. cbv beta. apply wp_on_err. wp_steps.
  assert (Hprot : ∀ w', quiet w w' →
    wp (apply_allocation_protections b ranges) (λ _ w'', quiet w w'') (quiet_failure w) w').
  { intros w' Hq. eapply wp_mono; [eapply wp_protections; by rewrite (he_contents _ _ (proj2 Hq))|..];
      intros ? w'' Hq'; [by transitivity w'|].
    eapply quiet_failure_trans; [done|by apply host_quiet_failure]. }
  assert (Hrest : ∀ e w', quiet_failure w e w' →
    wp (apply_allocation_protections b ranges) (λ _, quiet_failure w e) (λ _, quiet_failure w e) w').
  { intros e w' [He Hq]. eapply wp_mono; [by apply Hprot|..]; [done|]. by intros ? w'' [_ ?]. }
  eapply wp_mono; [by apply Hbody|..]; cbv beta.
  - intros a w' [HQ Hq]. wp_steps. eapply wp_mono; [by apply Hprot|..]; cbv beta.
    + intros _ w'' Hq'. wp_steps. done.
    + intros e w'' Hq'. by apply Hrest.
  - intros e w' Hq. by apply Hrest.
Qed.

Lemma wp_guarded_copy w b ranges bytes n :
  contents (w_host w) b = Some (bytes, n) →
  wp (with_protection_guard b ranges
        (let* block := host_op (arc_get b) in ret (hm_bytes block)))
     (λ bs w', bs = bytes ∧ quiet w w') (quiet_failure w) w.
Proof.
  intros Hc. apply (wp_guard _ _ _ bytes n _ (λ bs, bs = bytes)); [done|].
  intros w' Hq. wp_steps. apply wp_host_op.
  eapply wp_arc_get; [by rewrite (he_contents _ _ (proj2 Hq))|].
  intros k Hk Hb. wp_steps. split; [done|]. by destruct w', Hq.
Qed.

Lemma wp_allocate_guest w start len p mode :
  0 ≤ start < 2 ^ 64 →
  wp (allocate_guest_host_memory_at start len p mode)
     (λ mem w', zlen (hm_bytes mem) = len ∧ quiet w w') (host_failure w) w.
Proof.
  intros Hstart. assert (Hop : ∀ address, wp (host_op (allocate_platform address len p))
     (λ mem w', zlen (hm_bytes mem) = len ∧ quiet w w') (host_failure w) w).
  { intros address. apply wp_host_op. eapply wp_mono; [apply wp_allocate_platform|..]; cbv beta.
    - intros mem h' [??]. done.
    - intros e h' ?. split; [done|by split]. }
  unfold allocate_guest_host_memory_at. destruct mode.
  - unfold allocate. destruct (_ =? 0); [|apply Hop]. apply wp_host_op. by wp_steps.
  - wp_steps. apply wp_lift; [|intros e He|auto with mcr].
    2: { by rewrite (proj2 (usize_try_from_Ok start start)) in He. }
    intros address _.
    unfold allocate_at. destruct (_ || _); [|apply Hop]. apply wp_host_op. by wp_steps.
Qed.

Lemma wp_fill_block w mem bytes (Q : HostMemory → World → Prop) R :
  zlen (hm_bytes mem) = zlen bytes → (∀ mem', hm_bytes mem' = bytes → Q mem' w) →
  wp (fill_block mem bytes) Q R w.
Proof.
  intros Hlen HQ. unfold fill_block, hm_len. rewrite (proj2 (Z.eqb_eq _ _)) by done.
  wp_steps. by apply HQ.
Qed.
End memory_steps.

(** ** Giving an allocation a block of its own *)
Lemma refs_replace m id al al' b :
  gm_allocations m !! id = Some al →
  refs (set_allocations (insert id al') m) b =
  refs m b - (if bool_decide (a_memory al = b) then 1 else 0)
           + (if bool_decide (a_memory al' = b) then 1 else 0).
Proof.
  intros Hid. rewrite <- (refs_delete m id al b (delete id)) by done.
  rewrite <- (refs_insert_new _ id al' b (λ _, <[id := al']> (gm_allocations m))).
  - done.
  - simpl. apply lookup_delete_eq.
  - simpl. by rewrite insert_delete_eq.
Qed.

Section replace.
Context (h h' : HostHeap) (m : GuestMemory) (id : Z) (al : GuestAllocation) (bytes : list Z) (n : Z).
Context (Hwf : mem_wf h m).
Context (Hid : gm_allocations m !! id = Some al).
Context (Hc : contents h (a_memory al) = Some (bytes, n)).
Context (Hshared : n ≠ 1).
Context (Hnext : hh_next h' = hh_next h + 1).
Context (Hc' : ∀ b, contents h' b =
  if bool_decide (b = hh_next h) then Some (bytes, 1)
  else if bool_decide (b = a_memory al) then Some (bytes, n - 1) else contents h b).

Let al' : GuestAllocation := {| a_guest_start := a_guest_start al; a_memory := hh_next h |}.
Let m' : GuestMemory := set_allocations (insert id al') m.

(** The block of any allocation keeps its bytes. *)
Lemma replaced_contents id2 al2 bytes2 n2 :
  gm_allocations m !! id2 = Some al2 → contents h (a_memory al2) = Some (bytes2, n2) →
  ∃ al3 n3, gm_allocations m' !! id2 = Some al3 ∧ a_guest_start al3 = a_guest_start al2 ∧
            contents h' (a_memory al3) = Some (bytes2, n3).
Proof using Hwf Hid Hc Hc'.
  intros H2 Hc2. destruct (decide (id2 = id)) as [->|Hne].
  - simplify_eq. eexists _, _. split_and!; [apply lookup_insert_eq|done|].
    simpl. by rewrite Hc', bool_decide_eq_true_2.
  - exists al2. pose proof (hw_fresh _ (mw_heap _ _ Hwf) _ _ Hc2).
    destruct (decide (a_memory al2 = a_memory al)) as [Heq|Hneq].
    + rewrite Heq in *. simplify_eq. exists (n - 1). split_and!; [by apply lookup_insert_Some; right|done|].
      rewrite Hc', bool_decide_eq_false_2, bool_decide_eq_true_2 by (done || lia). done.
    + exists n2. split_and!; [by apply lookup_insert_Some; right|done|].
      rewrite Hc', !bool_decide_eq_false_2 by (done || lia). done.
Qed.

Lemma replaced_views id2 :
  alloc_view {| w_host := h'; w_mem := m' |} id2 = alloc_view {| w_host := h; w_mem := m |} id2.
Proof using Hwf Hid Hc Hc'.
  destruct (gm_allocations m !! id2) as [al2|] eqn:H2.
  - destruct (world_alloc {| w_host := h; w_mem := m |} _ _ Hwf H2) as (bytes2 & n2 & Hb & -> & _).
    destruct (replaced_contents _ _ _ _ H2 Hb) as (al3 & n3 & H3 & Hs & Hc3).
    apply alloc_view_Some. exists al3, n3. done.
  - unfold alloc_view; simpl. rewrite lookup_insert_ne, H2 by congruence. done.
Qed.

Lemma replaced_others b :
  others {| w_host := h'; w_mem := m' |} b = others {| w_host := h; w_mem := m |} b ∧
  block_bytes h' b = if bool_decide (b = hh_next h) then Some bytes else block_bytes h b.
Proof using Hwf Hid Hc Hc'.
  pose proof (hw_fresh _ (mw_heap _ _ Hwf) _ _ Hc) as Hf.
  assert (contents h (hh_next h) = None) as Hnone.
  { destruct (contents h (hh_next h)) eqn:Hx; [|done].
    pose proof (hw_fresh _ (mw_heap _ _ Hwf) _ _ Hx). lia. }
  unfold others, strong, block_bytes; simpl. unfold m'. rewrite (refs_replace _ _ _ al' _ Hid).
  rewrite Hc'. simpl. destruct (decide (b = hh_next h)) as [->|Hn].
  - rewrite !bool_decide_eq_true_2 by done. rewrite bool_decide_eq_false_2, Hnone by lia. simpl. split; [lia|done].
  - rewrite (bool_decide_eq_false_2 (b = hh_next h)) by done.
    rewrite (bool_decide_eq_false_2 (hh_next h = b)) by done.
    destruct (decide (b = a_memory al)) as [->|Hb].
    + rewrite !bool_decide_eq_true_2, Hc by done. simpl. split; [lia|done].
    + rewrite !bool_decide_eq_false_2 by done. split; [lia|done].
Qed.

Lemma replaced_invisible :
  invisible {| w_host := h; w_mem := m |} {| w_host := h'; w_mem := m' |}.
Proof using Hwf Hid Hc Hc' Hshared Hnext.
  assert (Hfresh := hw_fresh _ (mw_heap _ _ Hwf)).
  pose proof (hw_strong _ (mw_heap _ _ Hwf)) as Hst. split.
  - split; simpl.
    + split; intros b.
      * intros c. rewrite Hc', Hnext. repeat case_bool_decide; [lia| |].
        -- subst. pose proof (Hfresh _ _ Hc). lia.
        -- intros Hb. pose proof (Hfresh _ _ Hb). lia.
      * intros bs k. rewrite Hc'. repeat case_bool_decide; [by intros [= <- <-]| |by apply Hst].
        intros [= <- <-]. pose proof (Hst _ _ _ Hc). lia.
    + apply (mw_vmas _ _ Hwf).
    + intros id2 al2 [[<- _]|[_ H2]]%lookup_insert_Some; eapply (mw_ids _ _ Hwf); eauto.
    + intros id2 al2 H2. assert (∃ al0, gm_allocations m !! id2 = Some al0) as [al0 H0].
      { apply lookup_insert_Some in H2 as [[<- _]|[_ H2]]; eauto. }
      destruct (mw_alloc _ _ Hwf _ _ H0) as (bs & k & Hb & ?).
      destruct (replaced_contents _ _ _ _ H0 Hb) as (al3 & n3 & H3 & Hs & Hc3).
      assert (al3 = al2) as -> by (simpl in H3; congruence). exists bs, n3. by rewrite Hs.
    + intros b. destruct (replaced_others b) as [Ho _]. unfold others in Ho; simpl in Ho.
      pose proof (mw_refs _ _ Hwf b). lia.
    + intros k v Hk. destruct (mw_backed _ _ Hwf _ _ Hk) as (al0 & bs & k0 & H0 & Hb & ? & ?).
      destruct (replaced_contents _ _ _ _ H0 Hb) as (al3 & n3 & H3 & Hs & Hc3).
      exists al3, bs, n3. rewrite Hs. done.
  - by apply cells_ext, replaced_views.
  - split; [simpl; lia|]. intros b. destruct (replaced_others b) as [Ho Hb]. split; [done|].
    intros Hpos. simpl. rewrite Hb. case_bool_decide; [|done]. subst b.
    destruct (contents h (hh_next h)) eqn:Hx; [pose proof (Hfresh _ _ Hx); lia|].
    exfalso. clear Ho Hb. unfold others, strong in Hpos; simpl in Hpos. rewrite Hx in Hpos; simpl in Hpos.
    unfold refs in Hpos. lia.
  - done.
Qed.
End replace.

(** ** Copy on write *)

(** The memory is the only owner of the block behind the allocation. *)
Definition unique_block (w : World) (id : Z) : Prop :=
  ∃ al bytes, gm_allocations (w_mem w) !! id = Some al ∧
              contents (w_host w) (a_memory al) = Some (bytes, 1).

(** Only the blocks behind the allocations changed, and not what they hold. *)
Record reblocked (w w' : World) : Prop := {
  rb_invisible : invisible w w';
  rb_vmas : gm_vmas (w_mem w') = gm_vmas (w_mem w);
  rb_next : gm_next_allocation_id (w_mem w') = gm_next_allocation_id (w_mem w);
  rb_views : ∀ id, alloc_view w' id = alloc_view w id;
}.

Lemma quiet_views w w' id : quiet w w' → alloc_view w' id = alloc_view w id.
Proof.
  intros [Hm [_ Hc]]. unfold alloc_view, block_bytes. rewrite Hm.
  destruct (gm_allocations (w_mem w) !! id); simpl; [|done]. by rewrite Hc.
Qed.

Lemma quiet_reblocked w w' : world_wf w → quiet w w' → reblocked w w'.
Proof.
  intros Hwf Hq. split; [auto with mcr|by destruct Hq as [-> _]..|].
  intros id. by apply quiet_views.
Qed.

Lemma reblocked_trans w1 w2 w3 : reblocked w1 w2 → reblocked w2 w3 → reblocked w1 w3.
Proof.
  intros [? ? ? ?] [? ? ? ?].
  split; [by eapply invisible_trans|congruence..|]. intros id. etrans; eauto.
Qed.

Lemma quiet_unique w w' id : quiet w w' → unique_block w id → unique_block w' id.
Proof.
  intros [Hm [_ Hc]] (al & bytes & ? & ?). exists al, bytes. by rewrite Hm, Hc.
Qed.

Section cow.
Context `{OS : HostOs} `{OL : !HostOsLaws OS}.

Lemma wp_ensure_allocation_unique w id al :
  world_wf w → gm_allocations (w_mem w) !! id = Some al →
  wp (ensure_allocation_unique id)
     (λ _ w', reblocked w w' ∧ unique_block w' id) (quiet_failure w) w.
Proof.
  intros Hwf Hal. unfold ensure_allocation_unique. mem_steps. rewrite Hal.
  destruct (world_alloc _ _ _ Hwf Hal) as (bytes & n & Hc & Hv & Hgs). mem_steps.
  eapply wp_arc_strong_count; [done|]. destruct w as [h m]; simpl in *.
  destruct (Z.eqb_spec n 1) as [->|Hn].
  { mem_steps. split; [by apply quiet_reblocked|]. by exists al, bytes. }
  mem_steps. apply wp_lift; [|by intros e ?%allocation_protection_ranges_Err|auto with mcr]. intros ranges _. wp_steps.
  eapply wp_mono; [by eapply wp_guarded_copy|..]; [|done].
  intros bs w1 [-> Hq1]. mem_steps.
  eapply wp_mono; [apply wp_allocate_guest; lia|..];
    [|intros e w2 Hq2%host_quiet_failure; by eapply quiet_failure_trans].
  intros mem w2 [Hlen Hq2]. mem_steps. apply wp_fill_block; [done|]. intros mem2 Hmem2. mem_steps.
  eapply wp_mono; [apply wp_protections_local|..]; [|intros e w3 Hq3%host_quiet_failure; do 2 (eapply quiet_failure_trans; [done|]); done].
  intros mem3 w3 [Hmem3 Hq3]. cbv beta. unfold arc_drop. mem_steps. apply wp_insert_allocation.
  assert (Hq : quiet {| w_host := h; w_mem := m |} w3) by (transitivity w1; [|transitivity w2]; done).
  clear Hq1 Hq2 Hq3 w1 w2 Hlen. destruct Hq as [Hm Heq]. simpl in *.
  assert (Hc3 : contents (w_host w3) (a_memory al) = Some (bytes, n)) by (by rewrite (he_contents _ _ Heq)).
  rewrite Hm, (he_next _ _ Heq).
  pose proof (hw_fresh _ (mw_heap _ _ Hwf) _ _ Hc) as Hf.
  match goal with |- context [{| w_host := ?hh; w_mem := set_allocations _ _ |}] => set (h' := hh) end.
  assert (Hc' : ∀ b, contents h' b =
    if bool_decide (b = hh_next h) then Some (bytes, 1)
    else if bool_decide (b = a_memory al) then Some (bytes, n - 1) else contents h b).
  { intros b. subst h'. rewrite push_block_contents. simpl. rewrite Hmem3, Hmem2, (he_next _ _ Heq). case_bool_decide; [done|].
    rewrite (contents_drop _ _ _ _ _ Hc3), (he_contents _ _ Heq).
    case_bool_decide; [|done]. by rewrite (proj2 (Z.eqb_neq _ _) Hn). }
  assert (Hn' : hh_next h' = hh_next h + 1) by (simpl; by rewrite (he_next _ _ Heq)).
  split; [split|].
  - by eapply replaced_invisible.
  - done.
  - done.
  - intros id2. by eapply replaced_views.
  - eexists _, bytes. split; [apply lookup_insert_eq|]. simpl. by rewrite Hc', bool_decide_eq_true_2.
Qed.
End cow.

(** ** Writing an allocation *)
Lemma refs_two m id1 id2 al1 al2 :
  gm_allocations m !! id1 = Some al1 → gm_allocations m !! id2 = Some al2 → id1 ≠ id2 →
  a_memory al1 = a_memory al2 → 2 ≤ refs m (a_memory al1).
Proof.
  intros H1 H2 Hne Heq. pose proof (refs_delete m id1 al1 (a_memory al1) _ H1 eq_refl) as Hd.
  rewrite bool_decide_eq_true_2 in Hd by done.
  pose proof (refs_pos (set_allocations (delete id1) m) id2 al2) as Hp. simpl in Hp.
  rewrite lookup_delete_ne in Hp by done. specialize (Hp H2). rewrite <- Heq in Hp. lia.
Qed.

(** Overwriting the bytes of a block that only this memory owns. *)
Lemma unique_not_shared w id al bytes id2 al2 :
  world_wf w → gm_allocations (w_mem w) !! id = Some al →
  contents (w_host w) (a_memory al) = Some (bytes, 1) →
  gm_allocations (w_mem w) !! id2 = Some al2 → id2 ≠ id → a_memory al2 ≠ a_memory al.
Proof.
  intros Hwf Hal Hc H2 Hne Heq. pose proof (mw_refs _ _ Hwf (a_memory al)) as Hr.
  unfold strong in Hr. rewrite Hc in Hr; simpl in Hr.
  pose proof (refs_two _ _ _ _ _ Hal H2 ltac:(done) (eq_sym Heq)). lia.
Qed.

(** The effect of writing [bytes] at [off] in the allocation [id]. *)
Record written (w w' : World) (id off : Z) (bytes : list Z) : Prop := {
  wr_wf : world_wf w';
  wr_others : respects_others w w';
  wr_vmas : gm_vmas (w_mem w') = gm_vmas (w_mem w);
  wr_next : gm_next_allocation_id (w_mem w') = gm_next_allocation_id (w_mem w);
  wr_layout : same_layout (w_mem w) (w_mem w');
  wr_views : ∀ id2, alloc_view w' id2 =
    if bool_decide (id2 = id) then (λ p, (p.1, splice p.2 off bytes)) <$> alloc_view w id
    else alloc_view w id2;
}.

Lemma overwrite_block w id al old mem :
  world_wf w → gm_allocations (w_mem w) !! id = Some al →
  contents (w_host w) (a_memory al) = Some (old, 1) → zlen (hm_bytes mem) = zlen old →
  let w' := {| w_host := hh_set_blocks (alter (λ a, {| ab_memory := mem; ab_strong := ab_strong a |})
                                          (a_memory al)) (w_host w);
               w_mem := w_mem w |} in
  world_wf w' ∧ respects_others w w' ∧
  (∀ id2, alloc_view w' id2 = if bool_decide (id2 = id) then Some (a_guest_start al, hm_bytes mem)
                              else alloc_view w id2) ∧
  unique_block w' id.
Proof.
  intros Hwf Hal Hc Hlen w'.
  assert (Hc' : ∀ b, contents (w_host w') b =
    if bool_decide (b = a_memory al) then Some (hm_bytes mem, 1) else contents (w_host w) b).
  { intros b. unfold w'; simpl. by rewrite (arc_set_contents _ _ _ _ _ _ Hc). }
  assert (Hm' : w_mem w' = w_mem w) by done.
  assert (Hn' : hh_next (w_host w') = hh_next (w_host w)) by done. clearbody w'.
  assert (Hst : ∀ b, strong (w_host w') b = strong (w_host w) b).
  { intros b. unfold strong. rewrite Hc'. case_bool_decide; subst; by rewrite ?Hc. }
  assert (Hviews : ∀ id2, alloc_view w' id2 =
    if bool_decide (id2 = id) then Some (a_guest_start al, hm_bytes mem) else alloc_view w id2).
  { intros id2. case_bool_decide as Hid.
    - subst. apply alloc_view_Some. exists al, 1. rewrite Hm', Hc', bool_decide_eq_true_2; done.
    - unfold alloc_view, block_bytes. rewrite Hm'.
      destruct (gm_allocations (w_mem w) !! id2) as [al2|] eqn:H2; simpl; [|done].
      pose proof (unique_not_shared _ _ _ _ _ _ Hwf Hal Hc H2 Hid) as Hne.
      by rewrite Hc', bool_decide_eq_false_2. }
  split_and!; [| |done|].
  - split; rewrite ?Hm'.
    + destruct (mw_heap _ _ Hwf) as [Hf Hs]. split; intros b.
      * intros c. rewrite Hc', Hn'. case_bool_decide; [|apply Hf]. subst. intros _. by eapply Hf.
      * intros bs k. rewrite Hc'. case_bool_decide; [by intros [= _ <-]|apply Hs].
    + apply (mw_vmas _ _ Hwf).
    + apply (mw_ids _ _ Hwf).
    + intros id2 al2 H2. destruct (mw_alloc _ _ Hwf _ _ H2) as (bs & k & Hb & ? & ? & ?).
      rewrite Hc'. case_bool_decide as Hm; [|eauto 10].
      rewrite Hm in Hb. simplify_eq. exists (hm_bytes mem), 1. rewrite Hlen. done.
    + intros b. rewrite Hst. apply (mw_refs _ _ Hwf).
    + intros k v Hk. rewrite <- Hm'. apply vma_backed_view.
      destruct (world_vma _ _ _ Hwf Hk) as (al2 & bs & n & H2 & Hb & Hv & Hs & He & _).
      rewrite Hviews. case_bool_decide as Hid; [|eauto 10].
      rewrite Hid in H2. simplify_eq. eexists _, _. split_and!; [done|done|lia].
  - split; [lia|]. intros b. unfold others. rewrite Hst, Hm'. split; [done|].
    intros Hpos. unfold block_bytes. rewrite Hc'. case_bool_decide; [|done]. exfalso. subst b.
    pose proof (refs_pos _ _ _ Hal) as Hp. unfold strong in Hpos. rewrite Hc in Hpos. simpl in Hpos, Hp. lia.
  - exists al, (hm_bytes mem). rewrite Hm', Hc', bool_decide_eq_true_2; done.
Qed.

Section writing.
Context `{OS : HostOs} `{OL : !HostOsLaws OS}.

Lemma wp_allocation_memory_mut w id al0 :
  world_wf w → gm_allocations (w_mem w) !! id = Some al0 →
  wp (allocation_memory_mut id)
     (λ b w', reblocked w w' ∧ ∃ al bytes, gm_allocations (w_mem w') !! id = Some al ∧
                a_memory al = b ∧ contents (w_host w') b = Some (bytes, 1))
     (quiet_failure w) w.
Proof.
  intros Hwf Hal0. unfold allocation_memory_mut. mem_steps.
  eapply wp_mono; [by eapply wp_ensure_allocation_unique|..]; [|done].
  intros [] w1 [Hrb (al & bytes & Hal & Hc)]. mem_steps.
  rewrite Hal. apply wp_lift; [|done|done]. intros ? [= <-]. mem_steps.
  eapply wp_arc_strong_count; [done|]. simpl. mem_steps. destruct w1; simpl in *. eauto 10.
Qed.

Lemma wp_write_allocation w id off gs old bytes :
  world_wf w → alloc_view w id = Some (gs, old) → 0 ≤ off → off + zlen bytes ≤ zlen old →
  wp (write_allocation id off bytes)
     (λ _ w', written w w' id off bytes ∧ unique_block w' id) (quiet_failure w) w.
Proof.
  intros Hwf Hv Hoff Hlen. unfold write_allocation. mem_steps.
  pose proof (proj1 (alloc_view_Some _ _ _ _) Hv) as (al0 & _ & Hal0 & _).
  eapply wp_mono; [by eapply wp_allocation_memory_mut|..]; [|done].
  intros b w1 (Hrb & al & bs & Hal & <- & Hc). mem_steps. eapply wp_arc_get; [done|].
  intros k Hk Hbk. mem_steps.
  pose proof (iv_wf _ _ (rb_invisible _ _ Hrb)) as Hwf1.
  assert (gs = a_guest_start al ∧ bs = old) as [-> ->].
  { rewrite <- (rb_views _ _ Hrb) in Hv. apply alloc_view_Some in Hv as (al' & n & ? & ? & ?).
    by simplify_eq. }
  unfold write_block, hm_len. rewrite Hbk.
  rewrite (proj2 (Z.leb_le 0 off)), (proj2 (Z.leb_le (off + _) _)) by lia. simpl. mem_steps.
  unfold arc_set. mem_steps.
  edestruct (overwrite_block w1 id al old
     {| hm_bytes := splice old off bytes; hm_protections := hm_protections (ab_memory k) |})
    as (Hwf2 & Ho2 & Hv2 & Hu2); [done|done|done|unfold zlen; simpl; by rewrite length_splice|].
  split; [|done]. destruct Hrb as [Hiv Hvm Hnx Hvs]. split; simpl.
  - done.
  - transitivity w1; [by destruct Hiv|done].
  - done.
  - done.
  - by destruct Hiv.
  - intros id2. rewrite Hv2. simpl. case_bool_decide; [by rewrite Hv|done].
Qed.
End writing.
