(* ===== verification/GuestMemorySteps.v ===== *)
(** * Guest memory: steps on areas and allocations

    Splitting, coalescing and dropping unreferenced allocations are invisible to the
    guest; so is giving a shared area a block of its own ([detach_shared_vma],
    [ensure_guest_range_unique]). *)

From S2P Require Import Prelude SysAbi HostMemory GuestMemory GuestMemoryOps GuestVmas.
From S2P Require Import GuestMemoryInv GuestMemoryHost.
From stdpp Require Import base gmap list sorting strings.
From Stdlib Require Import ZArith Lia.
Open Scope Z_scope.

(** ** Replacing the map of areas *)
Definition with_vmas (w : World) (vmas : gmap Z GuestVma) : World :=
  {| w_host := w_host w; w_mem := set_vmas (λ _, vmas) (w_mem w) |}.

Lemma with_vmas_view w vmas id : alloc_view (with_vmas w vmas) id = alloc_view w id.
Proof. done. Qed.

Lemma with_vmas_others w vmas : respects_others w (with_vmas w vmas).
Proof. by split. Qed.

(** Areas that point where the old ones did are backed as they were. *)
Lemma backed_areas w vmas :
  world_wf w → vmas_wf (gm_address_space_end (w_mem w)) vmas →
  (∀ a x, area_at vmas a = Some x → ∃ y, area_at (gm_vmas (w_mem w)) a = Some y ∧
     ar_allocation y = ar_allocation x ∧ ar_offset y = ar_offset x) →
  world_wf (with_vmas w vmas).
Proof.
  intros Hwf Hv Hsub. pose proof (mw_vmas _ _ Hwf) as Hv0. split; simpl; try apply Hwf; [done|].
  intros k v Hk. pose proof (vw_ok _ _ Hv _ _ Hk) as [].
  destruct (Hsub (v_end v - 1) _ (area_at_intro Hv k v (v_end v - 1) Hk ltac:(lia))) as (y & Hy & Hid & Hoff).
  apply (area_at_Some Hv0) in Hy as (u & Hu & Hin & ->). simpl in Hid, Hoff.
  destruct (mw_backed _ _ Hwf _ _ Hu) as (al & bytes & n & Hal & Hc & Hs & He).
  exists al, bytes, n. simpl. rewrite <- Hid. split_and!; [done|done|lia|lia].
Qed.

Lemma same_areas_invisible w vmas :
  world_wf w → vmas_wf (gm_address_space_end (w_mem w)) vmas → same_areas (gm_vmas (w_mem w)) vmas →
  invisible w (with_vmas w vmas).
Proof.
  intros Hwf Hv Hs. split.
  - apply backed_areas; [done..|]. intros a x Hx. exists x. by rewrite <- Hs.
  - by apply cells_ext.
  - apply with_vmas_others.
  - done.
Qed.

Lemma split_invisible w address :
  world_wf w → aligned address → invisible w (with_vmas w (split_vmas_at address (w_mem w))).
Proof.
  intros Hwf Ha. pose proof (mw_vmas _ _ Hwf). apply same_areas_invisible; [done|..].
  - by apply split_vmas_wf.
  - by eapply split_same_areas.
Qed.

(** ** Dropping allocations *)
Record allocs_wf (h : HostHeap) (m : GuestMemory) : Prop := {
  aw_heap : heap_wf h;
  aw_ids : ∀ id al, gm_allocations m !! id = Some al → id < gm_next_allocation_id m;
  aw_alloc : ∀ id al, gm_allocations m !! id = Some al →
    ∃ bytes n, contents h (a_memory al) = Some (bytes, n) ∧
      0 ≤ a_guest_start al ∧ 0 < zlen bytes ∧ a_guest_start al + zlen bytes < 2 ^ 64;
  aw_refs : ∀ b, refs m b ≤ strong h b;
}.

Lemma mem_wf_allocs h m : mem_wf h m → allocs_wf h m.
Proof. intros []. by split. Qed.

(** The world without one allocation, its reference dropped. *)
Definition drop_one (w : World) (id b : Z) : World :=
  {| w_host := hh_set_blocks (drop_ref b) (w_host w); w_mem := set_allocations (delete id) (w_mem w) |}.

Lemma drop_one_contents w id al b :
  allocs_wf (w_host w) (w_mem w) → gm_allocations (w_mem w) !! id = Some al →
  ∃ bytes n, contents (w_host w) (a_memory al) = Some (bytes, n) ∧ 1 ≤ n ∧
  contents (hh_set_blocks (drop_ref (a_memory al)) (w_host w)) b =
    if bool_decide (b = a_memory al) then (if n =? 1 then None else Some (bytes, n - 1))
    else contents (w_host w) b.
Proof.
  intros Hwf Hal. destruct (aw_alloc _ _ Hwf _ _ Hal) as (bytes & n & Hc & _).
  exists bytes, n. split_and!; [done|by eapply hw_strong; [apply Hwf|]|by apply contents_drop].
Qed.

Lemma drop_one_others w id al b :
  allocs_wf (w_host w) (w_mem w) → gm_allocations (w_mem w) !! id = Some al →
  others (drop_one w id (a_memory al)) b = others w b.
Proof.
  intros Hwf Hal. destruct (drop_one_contents _ _ _ b Hwf Hal) as (bytes & n & Hc & Hn & Hc').
  unfold others, strong, drop_one; simpl. rewrite Hc', (refs_delete _ _ _ _ _ Hal eq_refl).
  case_bool_decide as Hb.
  - subst b. rewrite bool_decide_eq_true_2, Hc by done. destruct (Z.eqb_spec n 1); simpl; lia.
  - rewrite bool_decide_eq_false_2 by done. lia.
Qed.

Lemma drop_one_spec w id al :
  allocs_wf (w_host w) (w_mem w) → gm_allocations (w_mem w) !! id = Some al →
  let w' := drop_one w id (a_memory al) in
  allocs_wf (w_host w') (w_mem w') ∧ respects_others w w' ∧
  ∀ id2, alloc_view w' id2 = if bool_decide (id2 = id) then None else alloc_view w id2.
Proof.
  intros Hwf Hal w'.
  assert (Hdel : ∀ id2 al2, gm_allocations (w_mem w') !! id2 = Some al2 →
    id ≠ id2 ∧ gm_allocations (w_mem w) !! id2 = Some al2) by (intros id2 al2; apply lookup_delete_Some).
  assert (Hcont : ∀ id2 al2 bytes2 n2, gm_allocations (w_mem w') !! id2 = Some al2 →
    contents (w_host w) (a_memory al2) = Some (bytes2, n2) →
    ∃ n3, contents (w_host w') (a_memory al2) = Some (bytes2, n3)).
  { intros id2 al2 bytes2 n2 [Hne H2]%Hdel Hc2.
    destruct (drop_one_contents _ _ _ (a_memory al2) Hwf Hal) as (bytes & n & Hc & Hn & Hc').
    unfold w'; simpl. rewrite Hc'. case_bool_decide as Hb; [|eauto].
    rewrite Hb in Hc2. simplify_eq. destruct (Z.eqb_spec n2 1); [|eauto]. exfalso. subst n2.
    pose proof (refs_two _ _ _ _ _ Hal H2 ltac:(done) ltac:(done)) as H2r.
    pose proof (aw_refs _ _ Hwf (a_memory al)) as Hr. unfold strong in Hr. rewrite Hc2 in Hr. simpl in Hr. lia. }
  assert (Ho : ∀ b, others w' b = others w b) by (intros b; by apply drop_one_others).
  split_and!.
  - split.
    + destruct (aw_heap _ _ Hwf) as [Hf Hs]. split; intros b;
        destruct (drop_one_contents _ _ _ b Hwf Hal) as (bytes & n & Hc & Hn & Hc').
      * intros c. unfold w'; simpl. rewrite Hc'. case_bool_decide; [|apply Hf]. subst. intros _. by eapply Hf.
      * intros bs k. unfold w'; simpl. rewrite Hc'. case_bool_decide; [|apply Hs].
        destruct (Z.eqb_spec n 1); [done|]. intros [= _ <-]. lia.
    + intros id2 al2 [_ H2]%Hdel. by eapply (aw_ids _ _ Hwf).
    + intros id2 al2 H2. pose proof H2 as [_ H2']%Hdel.
      destruct (aw_alloc _ _ Hwf _ _ H2') as (bs & k & Hb & ?).
      destruct (Hcont _ _ _ _ H2 Hb) as [n3 ?]. eauto.
    + intros b. specialize (Ho b). unfold others in Ho. pose proof (aw_refs _ _ Hwf b). lia.
  - split; [simpl; lia|]. intros b. split; [done|]. intros Hpos. unfold block_bytes.
    destruct (drop_one_contents _ _ _ b Hwf Hal) as (bytes & n & Hc & Hn & Hc').
    unfold w'; simpl. rewrite Hc'. case_bool_decide as Hb; [|done]. subst b. rewrite Hc.
    destruct (Z.eqb_spec n 1); [|done]. exfalso. subst n. unfold others, strong in Hpos. rewrite Hc in Hpos.
    pose proof (refs_pos _ _ _ Hal). simpl in Hpos. lia.
  - intros id2. case_bool_decide as Hid.
    + subst. unfold alloc_view; simpl. by rewrite lookup_delete_eq.
    + destruct (gm_allocations (w_mem w) !! id2) as [al2|] eqn:H2.
      * destruct (aw_alloc _ _ Hwf _ _ H2) as (bs & k & Hb & _).
        assert (H2' : gm_allocations (w_mem w') !! id2 = Some al2) by (simpl; by rewrite lookup_delete_ne).
        destruct (Hcont _ _ _ _ H2' Hb) as [n3 Hn3].
        transitivity (Some (a_guest_start al2, bs)); [|symmetry]; apply alloc_view_Some; eauto.
      * unfold alloc_view; simpl. by rewrite lookup_delete_ne, H2.
Qed.

Lemma drop_list_spec (l : list (Z * GuestAllocation)) w :
  allocs_wf (w_host w) (w_mem w) → NoDup l.*1 →
  (∀ p, p ∈ l → gm_allocations (w_mem w) !! p.1 = Some p.2) →
  let w' := {| w_host := hh_set_blocks (λ bs, foldr (λ p bs, drop_ref (a_memory p.2) bs) bs l) (w_host w);
               w_mem := set_allocations (λ als, foldr (λ p als, delete p.1 als) als l) (w_mem w) |} in
  allocs_wf (w_host w') (w_mem w') ∧ respects_others w w' ∧
  ∀ id, alloc_view w' id = if bool_decide (id ∈ l.*1) then None else alloc_view w id.
Proof.
  intros Hwf Hnd Hin. induction l as [|[id0 al0] l IH]; simpl in *.
  { by destruct w as [[] []]. }
  apply NoDup_cons in Hnd as [Hn Hnd].
  destruct IH as (Hwf1 & Ho1 & Hv1); [done|set_solver|].
  match type of Ho1 with respects_others _ ?x => set (w1 := x) in * end.
  assert (H0 : gm_allocations (w_mem w1) !! id0 = Some al0).
  { specialize (Hin (id0, al0) ltac:(set_solver)). simpl in Hin. subst w1. simpl. clear -Hin Hn.
    induction l as [|p l IH]; simpl in *; [done|]. rewrite lookup_delete_ne by set_solver. apply IH. set_solver. }
  destruct (drop_one_spec w1 _ _ Hwf1 H0) as (Hwf2 & Ho2 & Hv2).
  split_and!; [done|by transitivity w1|]. intros id. specialize (Hv2 id). specialize (Hv1 id).
  unfold drop_one in Hv2. simpl in Hv2. etrans; [exact Hv2|]. rewrite Hv1.
  destruct (decide (id = id0)); [by rewrite !bool_decide_eq_true_2 by set_solver|].
  rewrite (bool_decide_eq_false_2 (id = id0)) by done.
  destruct (decide (id ∈ l.*1)); [by rewrite !bool_decide_eq_true_2 by set_solver|].
  by rewrite !bool_decide_eq_false_2 by set_solver.
Qed.

Lemma foldr_delete_lookup (l : list (Z * GuestAllocation)) (als : gmap Z GuestAllocation) id :
  foldr (λ p als, delete p.1 als) als l !! id = if bool_decide (id ∈ l.*1) then None else als !! id.
Proof.
  induction l as [|p l IH]; simpl; [done|].
  destruct (decide (id = p.1)) as [->|Hne].
  - rewrite lookup_delete_eq. by rewrite bool_decide_eq_true_2 by set_solver.
  - rewrite lookup_delete_ne, IH by done.
    destruct (decide (id ∈ l.*1)); [by rewrite !bool_decide_eq_true_2 by set_solver|].
    by rewrite !bool_decide_eq_false_2 by set_solver.
Qed.

Lemma elem_of_referenced m id :
  id ∈ referenced m ↔ ∃ k v, gm_vmas m !! k = Some v ∧ v_allocation_id v = id.
Proof.
  unfold referenced. rewrite list_elem_of_fmap. setoid_rewrite elem_of_bt_values. naive_solver.
Qed.

(** Dropping the allocations no area uses is invisible. *)
Lemma wp_drop_unreferenced w (Q : unit → World → Prop) R :
  world_wf w →
  (∀ w', invisible w w' → gm_vmas (w_mem w') = gm_vmas (w_mem w) →
         gm_next_allocation_id (w_mem w') = gm_next_allocation_id (w_mem w) →
         (∀ id, alloc_view w' id = if bool_decide (id ∈ referenced (w_mem w)) then alloc_view w id else None) →
         Q tt w') →
  wp drop_unreferenced_allocations Q R w.
Proof.
  intros Hwf HQ. unfold wp, drop_unreferenced_allocations.
  set (l := filter (λ p : Z * GuestAllocation, p.1 ∉ referenced (w_mem w))
              (bt_iter (gm_allocations (w_mem w)))).
  assert (Hl : ∀ p, p ∈ l ↔ (p.1 ∉ referenced (w_mem w)) ∧ gm_allocations (w_mem w) !! p.1 = Some p.2).
  { intros [id al]. unfold l. by rewrite list_elem_of_filter, elem_of_bt_iter. }
  assert (Hl1 : ∀ id, id ∈ l.*1 ↔ (id ∉ referenced (w_mem w)) ∧ is_Some (gm_allocations (w_mem w) !! id)).
  { intros id. rewrite list_elem_of_fmap. split.
    - intros (p & -> & Hp%Hl). naive_solver.
    - intros [? [al ?]]. exists (id, al). by rewrite Hl. }
  destruct (drop_list_spec l w) as (Hwf' & Ho & Hv).
  { by apply mem_wf_allocs. }
  { unfold l. pose proof (bt_iter_NoDup (gm_allocations (w_mem w))) as Hnd.
    eapply sublist_NoDup; [done|]. apply fmap_sublist. apply sublist_filter. }
  { intros p Hp. by apply Hl. }
  match goal with |- Q tt ?x => set (w' := x) end.
  match type of Ho with respects_others _ ?x => assert (x = w') as Heq end.
  { unfold w', set_allocations; simpl. f_equal. f_equal. apply map_eq. intros id.
    rewrite foldr_delete_lookup, map_lookup_filter. destruct (decide (id ∈ referenced (w_mem w))) as [Hr|Hr].
    - rewrite bool_decide_eq_false_2 by (rewrite Hl1; tauto).
      destruct (gm_allocations (w_mem w) !! id) eqn:Hid; simpl; [|done]. by rewrite option_guard_True.
    - destruct (gm_allocations (w_mem w) !! id) eqn:Hid; simpl.
      + rewrite bool_decide_eq_true_2 by (rewrite Hl1; eauto). by rewrite option_guard_False.
      + by destruct (bool_decide _). }
  rewrite Heq in *. clearbody l. assert (Hm : gm_vmas (w_mem w') = gm_vmas (w_mem w)) by done.
  assert (Hn : gm_next_allocation_id (w_mem w') = gm_next_allocation_id (w_mem w)) by done.
  assert (Hly : same_layout (w_mem w) (w_mem w')) by done. clearbody w'. clear Heq.
  assert (Hv' : ∀ id, id ∈ referenced (w_mem w) → alloc_view w' id = alloc_view w id).
  { intros id Hid. rewrite Hv. by rewrite bool_decide_eq_false_2 by (rewrite Hl1; tauto). }
  apply HQ; [|done..|].
  - split; [|intros a|done|done].
    + destruct Hwf'. split; [done| |done|done|done|].
      * rewrite Hm. destruct Hly as (-> & _). apply Hwf.
      * intros k v Hk. rewrite Hm in Hk. apply vma_backed_view. rewrite Hv' by (apply elem_of_referenced; eauto).
        apply vma_backed_view. by eapply (mw_backed _ _ Hwf).
    + unfold cell_at. rewrite Hm. destruct (area_at (gm_vmas (w_mem w)) a) as [x|] eqn:Hx; simpl; [|done].
      rewrite !area_byte_view. rewrite Hv'; [done|].
      apply (area_at_Some (mw_vmas _ _ Hwf)) in Hx as (v & Hk & _ & ->).
      apply elem_of_referenced. eauto.
  - intros id. rewrite Hv. destruct (decide (id ∈ referenced (w_mem w))).
    + rewrite (bool_decide_eq_true_2 (id ∈ referenced _)) by done. by rewrite bool_decide_eq_false_2 by (rewrite Hl1; tauto).
    + rewrite (bool_decide_eq_false_2 (id ∈ referenced _)) by done. case_bool_decide as Hd; [done|].
      unfold alloc_view. destruct (gm_allocations (w_mem w) !! id) eqn:Hid; [|done].
      destruct Hd. apply Hl1. eauto.
Qed.

(** ** A new allocation *)

(** Putting a fresh block behind an identifier. *)
Definition put_allocation (w : World) (id gs : Z) (mem : HostMemory) : World :=
  {| w_host := push_block mem (w_host w);
     w_mem := set_allocations (insert id {| a_guest_start := gs; a_memory := hh_next (w_host w) |}) (w_mem w) |}.

Section put_allocation.
Context (w : World) (id gs : Z) (mem : HostMemory).
Context (Hwf : allocs_wf (w_host w) (w_mem w)).
Context (Hfree : gm_allocations (w_mem w) !! id = None) (Hid : id < gm_next_allocation_id (w_mem w)).
Context (Hgs : 0 ≤ gs) (Hlen : 0 < zlen (hm_bytes mem)) (Hend : gs + zlen (hm_bytes mem) < 2 ^ 64).

Let w' := put_allocation w id gs mem.

Lemma heap_fresh : contents (w_host w) (hh_next (w_host w)) = None.
Proof using Hwf.
  destruct (contents (w_host w) (hh_next (w_host w))) as [c|] eqn:H; [|done].
  pose proof (hw_fresh _ (aw_heap _ _ Hwf) _ _ H). lia.
Qed.

Lemma put_contents b c : contents (w_host w) b = Some c → contents (w_host w') b = Some c.
Proof using Hwf.
  intros Hc. unfold w'; simpl. rewrite push_block_contents. case_bool_decide; [|done].
  subst. by rewrite heap_fresh in Hc.
Qed.

Lemma put_views id2 :
  alloc_view w' id2 = if bool_decide (id2 = id) then Some (gs, hm_bytes mem) else alloc_view w id2.
Proof using Hwf.
  case_bool_decide as Heq.
  - apply alloc_view_Some. eexists _, 1. split_and!; [unfold w'; simpl; subst; apply lookup_insert_eq|done|].
    unfold w'; simpl. by rewrite push_block_contents, bool_decide_eq_true_2.
  - destruct (gm_allocations (w_mem w) !! id2) as [al|] eqn:Hal.
    + destruct (aw_alloc _ _ Hwf _ _ Hal) as (bytes & n & Hc & _).
      transitivity (Some (a_guest_start al, bytes)); [|symmetry]; apply alloc_view_Some; exists al, n.
      * split_and!; [|done|by apply put_contents]. unfold w'; simpl. by rewrite lookup_insert_ne.
      * done.
    + unfold alloc_view, w'; simpl. by rewrite lookup_insert_ne, Hal.
Qed.

Lemma put_others b : others w' b = others w b.
Proof using Hwf Hfree.
  pose proof (refs_insert_new (w_mem w) id
    {| a_guest_start := gs; a_memory := hh_next (w_host w) |} b _ Hfree eq_refl) as Hr.
  unfold others, strong. change (w_host w') with (push_block mem (w_host w)).
  rewrite push_block_contents. unfold w', put_allocation; simpl w_mem. rewrite Hr.
  simpl a_memory. destruct (decide (b = hh_next (w_host w))) as [->|Hb].
  - rewrite !bool_decide_eq_true_2, heap_fresh by done. simpl. lia.
  - rewrite !bool_decide_eq_false_2 by done. lia.
Qed.

Lemma put_allocation_spec :
  allocs_wf (w_host w') (w_mem w') ∧ respects_others w w' ∧ unique_block w' id.
Proof using Hwf Hfree Hid Hgs Hlen Hend.
  destruct (aw_heap _ _ Hwf) as [Hf Hs]. split_and!.
  - split.
    + split; intros b; unfold w'; simpl.
      * intros c. rewrite push_block_contents. case_bool_decide; [lia|].
        intros Hc. specialize (Hf _ _ Hc). lia.
      * intros bs n. rewrite push_block_contents. case_bool_decide; [by intros [= _ <-]|apply Hs].
    + intros id2 al. unfold w'; simpl. intros [[<- _]|[_ H]]%lookup_insert_Some; [lia|].
      pose proof (aw_ids _ _ Hwf _ _ H). lia.
    + intros id2 al. unfold w'; simpl. intros [[<- <-]|[_ H]]%lookup_insert_Some; simpl.
      * exists (hm_bytes mem), 1. by rewrite push_block_contents, bool_decide_eq_true_2.
      * destruct (aw_alloc _ _ Hwf _ _ H) as (bytes & n & Hc & ?). exists bytes, n.
        split; [by apply put_contents|done].
    + intros b. pose proof (put_others b) as Ho. unfold others in Ho.
      pose proof (aw_refs _ _ Hwf b). lia.
  - split; [simpl; lia|]. intros b. split; [apply put_others|]. intros Hpos. unfold block_bytes, w'; simpl.
    rewrite push_block_contents. case_bool_decide; [|done]. exfalso. subst b.
    unfold others, strong in Hpos. rewrite heap_fresh in Hpos. simpl in Hpos. unfold refs in Hpos. lia.
  - eexists _, _. split; [unfold w'; simpl; apply lookup_insert_eq|].
    unfold w'; simpl. by rewrite push_block_contents, bool_decide_eq_true_2.
Qed.
End put_allocation.

(** Taking the next identifier. *)
Definition bump_id (w : World) : World :=
  {| w_host := w_host w;
     w_mem := set_next_allocation_id (gm_next_allocation_id (w_mem w) + 1) (w_mem w) |}.

Lemma bump_fresh w :
  allocs_wf (w_host w) (w_mem w) →
  allocs_wf (w_host (bump_id w)) (w_mem (bump_id w)) ∧
  gm_allocations (w_mem (bump_id w)) !! gm_next_allocation_id (w_mem w) = None.
Proof.
  intros Hwf. split.
  - destruct Hwf as [? Hids ? ?]. split; [done| |done|done].
    intros id al H. pose proof (Hids _ _ H). simpl. lia.
  - simpl. destruct (_ !! _) as [al|] eqn:H; [|done]. pose proof (aw_ids _ _ Hwf _ _ H). lia.
Qed.

Definition add_allocation (w : World) (gs : Z) (mem : HostMemory) : World :=
  put_allocation (bump_id w) (gm_next_allocation_id (w_mem w)) gs mem.

Lemma add_views w gs mem id :
  allocs_wf (w_host w) (w_mem w) →
  alloc_view (add_allocation w gs mem) id =
  if bool_decide (id = gm_next_allocation_id (w_mem w)) then Some (gs, hm_bytes mem) else alloc_view w id.
Proof. intros Hwf. unfold add_allocation. by rewrite put_views by (by apply bump_fresh). Qed.

Lemma add_allocation_spec w gs mem :
  allocs_wf (w_host w) (w_mem w) → 0 ≤ gs → 0 < zlen (hm_bytes mem) → gs + zlen (hm_bytes mem) < 2 ^ 64 →
  let w' := add_allocation w gs mem in
  allocs_wf (w_host w') (w_mem w') ∧ respects_others w w' ∧ unique_block w' (gm_next_allocation_id (w_mem w)).
Proof.
  intros Hwf Hgs Hlen Hend. destruct (bump_fresh _ Hwf) as [Hwfb Hfree].
  apply put_allocation_spec; try done. simpl. lia.
Qed.

Lemma wp_take_allocation_id w (Q : Z → World → Prop) R :
  Q (gm_next_allocation_id (w_mem w))
    (bump_id w) →
  (U64_MAX ≤ gm_next_allocation_id (w_mem w) → R OutOfMemory w) →
  wp take_allocation_id Q R w.
Proof.
  intros HQ HR. unfold take_allocation_id. mem_steps. apply wp_lift; [|..|auto with mcr].
  - intros n Hn. destruct (checked_add64 _ _) as [n'|] eqn:Hc; [|done]. injection Hn as <-.
    apply checked_add64_Some in Hc as [-> _]. mem_steps. done.
  - intros e He. destruct (checked_add64 _ _) as [n'|] eqn:Hc; [done|]. injection He as <-.
    apply HR. apply checked_add64_None in Hc. unfold U64_MAX. lia.
Qed.

(** ** Reshaping *)
Lemma reshaped_refl space vmas : vmas_wf space vmas → reshaped space vmas vmas.
Proof.
  intros Hwf. split; [done|]. intros k v Hk. exists v. pose proof (vw_ok _ _ Hwf _ _ Hk) as []. done.
Qed.

Lemma reshaped_trans space v1 v2 v3 : reshaped space v1 v2 → reshaped space v2 v3 → reshaped space v1 v3.
Proof.
  intros [Hd H] [Hd' H']. split; [auto|]. intros k v Hk.
  destruct (H _ _ Hk) as (u & Hu & Hs & He & ?), (H' _ _ Hu) as (t & Ht & Hs' & He' & ?).
  exists t. rewrite Hs', He'. rewrite Hs in *. done.
Qed.

(** ** Giving one area an allocation of its own *)
Section detach.
Context (w : World) (k : Z) (v : GuestVma) (al : GuestAllocation) (old bytes : list Z) (n : Z).
Context (mem : HostMemory).
Context (Hwf : world_wf w) (Hk : gm_vmas (w_mem w) !! k = Some v).
Context (Hal : gm_allocations (w_mem w) !! v_allocation_id v = Some al).
Context (Hc : contents (w_host w) (a_memory al) = Some (old, n)).
Context (Hslice : slice old (v_allocation_offset v)
                    (v_allocation_offset v + (v_end v - v_start v)) = Some bytes).
Context (Hmem : hm_bytes mem = bytes).

Let w1 := add_allocation w (v_start v) mem.
Let new := gm_next_allocation_id (w_mem w).
Let w' := with_vmas w1 (alter (vma_with_allocation new 0) (v_start v) (gm_vmas (w_mem w1))).

Lemma detach_lookup k2 v2 :
  gm_vmas (w_mem w') !! k2 = Some v2 →
  k2 = k ∧ v2 = vma_with_allocation new 0 v ∨ k2 ≠ k ∧ gm_vmas (w_mem w) !! k2 = Some v2.
Proof using Hwf Hk.
  unfold w'; simpl. pose proof (vw_key _ _ (mw_vmas _ _ Hwf) _ _ Hk) as Hs.
  destruct (decide (k2 = k)) as [->|Hne].
  - rewrite Hs, lookup_alter, decide_True, Hk by done. intros [= <-]. by left.
  - rewrite Hs, lookup_alter_ne by done. by right.
Qed.

Lemma detach_reshaped : reshaped (gm_address_space_end (w_mem w)) (gm_vmas (w_mem w)) (gm_vmas (w_mem w')).
Proof using Hwf Hk.
  clear Hal Hc Hslice Hmem. pose proof (vw_key _ _ (mw_vmas _ _ Hwf) _ _ Hk) as Hs. split.
  - intros k2 [v2 H2]. destruct (detach_lookup _ _ H2) as [[-> _]|[_ ?]]; eauto.
  - intros k2 v2 H2. pose proof (vw_ok _ _ (mw_vmas _ _ Hwf) _ _ H2) as [].
    unfold w'; simpl. destruct (decide (k2 = k)) as [->|Hne].
    + rewrite Hk in H2. injection H2 as <-. exists (vma_with_allocation new 0 v). rewrite Hs, lookup_alter, decide_True, Hk by done.
      unfold MIN_GUEST_ADDRESS, GUEST_PAGE_SIZE in *. split_and!; (done || simpl; lia).
    + exists v2. rewrite Hs, lookup_alter_ne by done. done.
Qed.

Lemma detach_invisible : invisible w w'.
Proof using Hwf Hk Hal Hc Hslice Hmem.
  pose proof (vw_ok _ _ (mw_vmas _ _ Hwf) _ _ Hk) as [].
  pose proof (vw_space _ _ (mw_vmas _ _ Hwf)) as Hsp.
  pose proof (slice_length _ _ _ _ Hslice) as Hlen.
  pose proof (vw_key _ _ (mw_vmas _ _ Hwf) _ _ Hk) as Hs.
  unfold MIN_GUEST_ADDRESS, GUEST_PAGE_SIZE in *.
  assert (Hawf : allocs_wf (w_host w) (w_mem w)) by (by apply mem_wf_allocs).
  destruct (add_allocation_spec w (v_start v) mem Hawf) as (Hwf1 & Ho1 & _); [rewrite ?Hmem; lia..|].
  assert (Hv1 := λ id, add_views w (v_start v) mem id Hawf). rewrite Hmem in Hv1.
  assert (Hid : ∀ k2 v2, gm_vmas (w_mem w) !! k2 = Some v2 →
    alloc_view w1 (v_allocation_id v2) = alloc_view w (v_allocation_id v2)).
  { intros k2 v2 H2. rewrite Hv1. case_bool_decide as Hb; [|done]. exfalso.
    destruct (world_vma _ _ _ Hwf H2) as (al2 & _ & _ & Hal2 & _).
    pose proof (mw_ids _ _ Hwf _ _ Hal2). lia. }
  assert (Hnew : alloc_view w1 new = Some (v_start v, bytes)).
  { rewrite Hv1. by rewrite bool_decide_eq_true_2. }
  assert (Hvw : vmas_wf (gm_address_space_end (w_mem w)) (gm_vmas (w_mem w'))).
  { eapply reshaped_wf; [apply (mw_vmas _ _ Hwf)|apply detach_reshaped]. }
  split.
  - destruct Hwf1. split; [done|done|done|done|done|].
    intros k2 v2 H2. apply vma_backed_view. unfold w'. rewrite with_vmas_view.
    destruct (detach_lookup _ _ H2) as [[-> ->]|[Hne H2']].
    + exists (v_start v), bytes. simpl. split_and!; [done|lia|lia].
    + rewrite (Hid _ _ H2'). apply vma_backed_view. by eapply (mw_backed _ _ Hwf).
  - intros a. destruct (area_at (gm_vmas (w_mem w)) a) as [x|] eqn:Hx.
    + rewrite (cell_at_area w a x Hx).
      apply (area_at_Some (mw_vmas _ _ Hwf)) in Hx as (v2 & H2 & Ha & ->).
      destruct (decide (v_start v2 = k)) as [Heq|Hne].
      * assert (v2 = v) as -> by congruence.
        rewrite (cell_at_area w' a (area_of (vma_with_allocation new 0 v) a)).
        2: { apply (area_at_intro Hvw k); [|done]. unfold w'; simpl.
             by rewrite Hs, lookup_alter, decide_True, Hk. }
        unfold w'. rewrite with_vmas_view. simpl ar_allocation. rewrite Hnew.
        assert (alloc_view w (v_allocation_id v) = Some (a_guest_start al, old)) as ->
          by (apply alloc_view_Some; eauto).
        simpl. rewrite (slice_byte _ _ _ _ _ Hslice) by lia. done.
      * rewrite (cell_at_area w' a (area_of v2 a)).
        2: { apply (area_at_intro Hvw (v_start v2)); [|done]. unfold w'; simpl.
             by rewrite lookup_alter_ne by congruence. }
        unfold w'. rewrite with_vmas_view. simpl ar_allocation. by rewrite (Hid _ _ H2).
    + rewrite (cell_at_unmapped w) by done. apply cell_at_unmapped.
      apply (area_at_None Hvw). intros k2 v2 H2 Ha.
      destruct (reshaped_inv _ _ _ _ _ detach_reshaped H2) as (u & Hu & ? & ? & _).
      apply (proj1 (area_at_None (mw_vmas _ _ Hwf) a) Hx _ _ Hu). lia.
  - transitivity w1; [done|apply with_vmas_others].
  - done.
Qed.
End detach.

Section unique.
Context `{OS : HostOs} `{OL : !HostOsLaws OS}.

(** [detach_shared_vma] on an area of the map. *)
Lemma wp_detach_shared_vma w k v :
  world_wf w → gm_vmas (w_mem w) !! k = Some v →
  wp (detach_shared_vma v)
     (λ _ w', invisible w w' ∧
        reshaped (gm_address_space_end (w_mem w)) (gm_vmas (w_mem w)) (gm_vmas (w_mem w')))
     (quiet_failure w) w.
Proof.
  intros Hwf Hk. pose proof (mw_vmas _ _ Hwf) as Hvw. pose proof (vw_ok _ _ Hvw _ _ Hk) as [].
  destruct (world_vma _ _ _ Hwf Hk) as (al & old & n & Hal & Hc & Hv & Hgs & He & ? & ?).
  unfold MIN_GUEST_ADDRESS, GUEST_PAGE_SIZE in *.
  unfold detach_shared_vma. mem_steps. rewrite Hal. mem_steps.
  eapply wp_arc_strong_count; [done|]. destruct w as [h m]; simpl in *.
  destruct (Z.eqb_spec n 1) as [->|Hn].
  { mem_steps. split; [auto with mcr|by apply reshaped_refl]. }
  mem_steps. assert (vma_len v = v_end v - v_start v) as Hvl.
  { unfold vma_len. apply wsub_exact; lia. }
  apply wp_lift; [|by intros e ->%usize_try_from_Err|auto with mcr]. intros len [-> Hlen]%usize_try_from_Ok. mem_steps.
  apply wp_lift; [|by intros e ->%usize_try_from_Err|auto with mcr]. intros off [-> Hoff]%usize_try_from_Ok. mem_steps.
  apply wp_lift; [|by intros e ?%allocation_protection_ranges_Err|auto with mcr]. intros ranges _. mem_steps.
  assert (Hslice : ∃ bytes, slice old (v_allocation_offset v)
    (v_allocation_offset v + (v_end v - v_start v)) = Some bytes) by (apply slice_Some; lia).
  destruct Hslice as [bytes Hslice].
  pose proof (slice_length _ _ _ _ Hslice) as Hbl.
  eapply wp_mono; [apply (wp_guard _ _ _ old n _ (λ bs, bs = bytes)); [done|]|..]; [| |done].
  { intros w1 Hq. wp_steps. apply wp_host_op.
    eapply wp_arc_get; [by rewrite (he_contents _ _ (proj2 Hq))|].
    intros kk _ Hb. rewrite Hb, Hvl, wadd_exact, Hslice by lia.
    apply wp_lift; [|done|done]. intros ? [= <-]. split; [done|]. by destruct w1, Hq. }
  intros bs w1 [-> Hq1]. mem_steps.
  eapply wp_mono; [apply wp_allocate_guest; lia|..];
    [|intros e w2 Hq2%host_quiet_failure; by eapply quiet_failure_trans].
  intros mem w2 [Hl Hq2]. mem_steps. apply wp_fill_block; [by rewrite Hl, Hvl, Hbl; lia|].
  intros mem2 Hmem2. mem_steps.
  assert (Hq : quiet {| w_host := h; w_mem := m |} w2) by (by transitivity w1).
  destruct Hq as [Hm2 Heq2]. simpl in *.
  eapply wp_mono; [apply wp_protect_range|..]; cbv beta.
  2: { intros e h3 Heq3. split; [done|]. split; [done|]. simpl. by transitivity (w_host w2). }
  intros mem3 h3 [Hmem3 Heq3]. mem_steps. rewrite Hm2.
  assert (Heq : heap_eq h h3) by (by transitivity (w_host w2)).
  apply wp_take_allocation_id; simpl; [|by intros _; split; [|split]]. mem_steps. apply wp_insert_allocation. mem_steps.
  simpl. rewrite (vma_lookup_start Hvw _ _ Hk). mem_steps.
  assert (Hwf3 : world_wf {| w_host := h3; w_mem := m |}).
  { eapply quiet_wf; [exact Hwf|]. by split. }
  split.
  - apply (invisible_trans _ {| w_host := h3; w_mem := m |}); [by apply quiet_invisible|].
    eapply (detach_invisible {| w_host := h3; w_mem := m |} k v al old bytes n mem3); simpl; try done.
    + by rewrite (he_contents _ _ Heq).
    + congruence.
  - apply (detach_reshaped {| w_host := h3; w_mem := m |} k v mem3); done.
Qed.

(** Invisible, and no new area straddles an address that was cut. *)
Definition unshared (w w' : World) : Prop :=
  invisible w w' ∧ ∀ x, cut_at x (gm_vmas (w_mem w)) → cut_at x (gm_vmas (w_mem w')).

Lemma unshared_refl w : world_wf w → unshared w w.
Proof. intros. split; auto with mcr. Qed.

Lemma unshared_trans w1 w2 w3 : unshared w1 w2 → unshared w2 w3 → unshared w1 w3.
Proof. intros [??] [??]. split; [by eapply invisible_trans|auto]. Qed.

Lemma unshared_wf w w' : unshared w w' → world_wf w'.
Proof. by intros [[]]. Qed.

Lemma quiet_unshared w w' : world_wf w → quiet w w' → unshared w w'.
Proof. intros Hwf Hq. split; [auto with mcr|]. destruct Hq as [-> _]. auto. Qed.

(** A failure that leaves what the guest sees as it was. *)
Definition unshared_failure (w : World) (e : GuestMemoryError) (w' : World) : Prop :=
  resource_error e ∧ unshared w w'.

Lemma quiet_unshared_failure w w1 e w2 :
  unshared w w1 → quiet_failure w1 e w2 → unshared_failure w e w2.
Proof.
  intros H1 [He Hq]. split; [done|]. eapply unshared_trans; [done|].
  apply quiet_unshared; [by eapply unshared_wf|done].
Qed.

Lemma split_unshared w address :
  world_wf w → aligned address → unshared w (with_vmas w (split_vmas_at address (w_mem w))).
Proof.
  intros Hwf Ha. split; [by apply split_invisible|]. intros x Hx. simpl.
  eapply split_vmas_cut_keep; [apply (mw_vmas _ _ Hwf)|done].
Qed.

Lemma wp_split w address (Q : unit → World → Prop) R :
  Q tt (with_vmas w (split_vmas_at address (w_mem w))) → wp (split_vma_at address) Q R w.
Proof. done. Qed.

Lemma wp_ensure_guest_range_unique w s e :
  world_wf w → aligned s → aligned e →
  wp (ensure_guest_range_unique s e) (λ _ w', unshared w w') (unshared_failure w) w.
Proof.
  intros Hwf Hs He. unfold ensure_guest_range_unique.
  destruct (Z.leb_spec e s); [mem_steps; by apply unshared_refl|]. mem_steps.
  destruct (is_fixed_guest _); mem_steps.
  - set (I := λ (ids : list Z) w', unshared w w' ∧
            ∀ id, id ∈ ids → is_Some (gm_allocations (w_mem w') !! id)).
    eapply wp_mono; [apply (wp_foreach _ _ I)|..]; [| |by intros [] w' []|done].
    + split; [by apply unshared_refl|]. intros id Hid%elem_of_bs_iter%elem_of_list_to_set.
      apply list_elem_of_fmap in Hid as (v & -> & [_ Hv]%list_elem_of_filter).
      apply elem_of_bt_values in Hv as [k Hk].
      destruct (world_vma _ _ _ Hwf Hk) as (al & _ & _ & Hal & _). eauto.
    + intros id ids w1 [H1 Hids]. pose proof (unshared_wf _ _ H1) as Hwf1.
      destruct (Hids id ltac:(set_solver)) as [al Hal].
      eapply wp_mono; [by eapply wp_ensure_allocation_unique|..]; cbv beta.
      * intros [] w2 [[Hiv Hvm _ Hviews] _]. split.
        -- eapply unshared_trans; [done|]. split; [done|]. by rewrite Hvm.
        -- intros id2 Hid2. destruct (Hids id2 ltac:(set_solver)) as [al2 Hal2].
           destruct (world_alloc _ _ _ Hwf1 Hal2) as (bs & n & _ & Hv & _).
           rewrite <- Hviews in Hv. apply alloc_view_Some in Hv as (al3 & _ & ? & _). eauto.
      * intros err w2 Hq. by eapply quiet_unshared_failure.
  - apply wp_split. apply wp_bind, wp_split. cbv beta.
    set (w1 := with_vmas w (split_vmas_at s (w_mem w))).
    set (w2 := with_vmas w1 (split_vmas_at e (w_mem w1))).
    assert (Hu2 : unshared w w2).
    { assert (unshared w w1) by (by apply split_unshared).
      eapply unshared_trans; [done|]. apply split_unshared; [by eapply unshared_wf|done]. }
    clearbody w2. clear w1. pose proof (unshared_wf _ _ Hu2) as Hwf2. mem_steps.
    destruct (bt_range_ok (E:=GuestMemoryError) (gm_vmas (w_mem w2)) s e ltac:(lia)) as [l Hl].
    rewrite Hl. apply wp_lift; [|done|done]. intros ? [= <-]. mem_steps.
    assert (Hkeys : ∀ k, k ∈ l.*1 → is_Some (gm_vmas (w_mem w2) !! k)).
    { intros k Hk. by apply (bt_range_keys _ _ _ _ _ Hl) in Hk as [? _]. }
    set (I := λ (ks : list Z) w', unshared w w' ∧ ∀ k, k ∈ ks → is_Some (gm_vmas (w_mem w') !! k)).
    eapply wp_mono; [apply (wp_foreach _ _ I (unshared_failure w)); [by split|]|..]; [| |done].
    + intros k ks w3 [Hu3 Hk3]. pose proof (unshared_wf _ _ Hu3) as Hwf3. mem_steps.
      destruct (Hk3 k ltac:(set_solver)) as [v Hv]. rewrite Hv.
      apply wp_lift; [|done|done]. intros ? [= <-].
      eapply wp_mono; [by eapply wp_detach_shared_vma|..]; cbv beta.
      * intros [] w4 [Hiv Hrs]. split.
        -- eapply unshared_trans; [done|]. split; [done|]. intros x. by eapply reshaped_cut.
        -- intros k' Hk'. destruct (Hk3 k' ltac:(set_solver)) as [v' Hv'].
           destruct (proj2 Hrs _ _ Hv') as (u & ? & _). eauto.
      * intros err w4 Hq. by eapply quiet_unshared_failure.
    + intros [] w3 [Hu3 _]. apply wp_drop_unreferenced; [by eapply unshared_wf|].
      intros w4 Hiv Hvm _ _. eapply unshared_trans; [done|]. split; [done|]. by rewrite Hvm.
Qed.

Lemma align_down_page v : align_down_to v GUEST_PAGE_SIZE = v - v mod GUEST_PAGE_SIZE.
Proof. apply page_mask. Qed.

Lemma align_up_to_page v : align_up_to v GUEST_PAGE_SIZE = align_up v.
Proof. done. Qed.

Lemma wp_ensure_guest_page_range_unique w s e :
  world_wf w → 0 ≤ s → wp (ensure_guest_page_range_unique s e) (λ _ w', unshared w w') (unshared_failure w) w.
Proof.
  intros Hwf Hs. unfold ensure_guest_page_range_unique.
  destruct (Z.leb_spec e s); [mem_steps; by apply unshared_refl|]. mem_steps.
  rewrite align_down_page, align_up_to_page.
  apply wp_lift; [|intros err Herr; split; [|by apply unshared_refl]|auto with mcr].
  2: { unfold align_up in Herr. destruct (checked_add64 _ _); [done|]. by injection Herr as <-. }
  intros pe Hpe. apply align_up_Ok in Hpe as (Ha & _ & _); [|lia].
  apply wp_ensure_guest_range_unique; [done|apply round_down_aligned|done].
Qed.

(** Splitting at both ends of a range cuts it out of the map. *)
Lemma wp_split_both {A} w s e (k : MemM A) Q R :
  world_wf w → aligned s → aligned e →
  (∀ w', unshared w w' → cut_at s (gm_vmas (w_mem w')) → cut_at e (gm_vmas (w_mem w')) →
         same_areas (gm_vmas (w_mem w)) (gm_vmas (w_mem w')) →
         (∀ id, alloc_view w' id = alloc_view w id) →
         gm_next_allocation_id (w_mem w') = gm_next_allocation_id (w_mem w) → wp k Q R w') →
  wp (do* split_vma_at s; do* split_vma_at e; k) Q R w.
Proof.
  intros Hwf Hs He Hk. pose proof (mw_vmas _ _ Hwf) as Hvw.
  set (w1 := with_vmas w (split_vmas_at s (w_mem w))).
  assert (Hu1 : unshared w w1) by (by apply split_unshared).
  pose proof (unshared_wf _ _ Hu1) as Hwf1. pose proof (mw_vmas _ _ Hwf1) as Hvw1.
  assert (Hu2 : unshared w1 (with_vmas w1 (split_vmas_at e (w_mem w1)))) by (by apply split_unshared).
  wp_step. apply wp_split. wp_step. apply wp_split. apply Hk.
  - by eapply unshared_trans.
  - apply (proj2 Hu2). by eapply split_vmas_cut.
  - by eapply split_vmas_cut.
  - transitivity (gm_vmas (w_mem w1)); [by eapply split_same_areas|by eapply (split_same_areas _ (w_mem w1))].
  - done.
  - done.
Qed.

(** Changing the host protections of listed areas. *)
Lemma wp_protect_entries w (l : list (Z * GuestVma)) p :
  world_wf w → (∀ k v, (k, v) ∈ l → gm_vmas (w_mem w) !! k = Some v) →
  wp (foreach l (λ q,
        let vma := q.2 in
        let* offset := lift (usize_try_from (v_allocation_offset vma)) in
        let* len := lift (usize_try_from (vma_len vma)) in
        let* found := get_allocation (v_allocation_id vma) in
        let* allocation := lift (expect found) in
        host_op (arc_protect_range (a_memory allocation) offset len p)))
     (λ _ w', quiet w w') (quiet_failure w) w.
Proof.
  intros Hwf Hl.
  eapply wp_mono; [apply (wp_foreach l _ (λ l' w', quiet w w' ∧ l' ⊆ l) (quiet_failure w)); [done|]|..]; cbv beta.
  2: by intros [] w' [].
  2: done.
  intros [k v] l' w1 [Hq Hsub]. simpl.
  destruct (world_vma _ _ _ Hwf (Hl k v ltac:(set_solver))) as (al & bytes & n & Hal & Hc & _). mem_steps.
  apply wp_lift; [|intros err ->%usize_try_from_Err; by split|auto with mcr]. intros off _. mem_steps.
  apply wp_lift; [|intros err ->%usize_try_from_Err; by split|auto with mcr]. intros len _. mem_steps.
  rewrite (proj1 Hq), Hal. apply wp_lift; [|done|done]. intros ? [= <-]. mem_steps.
  eapply wp_mono; [eapply wp_arc_protect_range; by rewrite (he_contents _ _ (proj2 Hq))|..]; cbv beta.
  - intros [] h' Heq. split; [|set_solver]. split; [apply Hq|]. simpl.
    transitivity (w_host w1); [apply Hq|done].
  - intros err h' Heq. split; [done|]. split; [apply Hq|]. simpl. transitivity (w_host w1); [apply Hq|done].
Qed.
End unique.
