(* ===== verification/GuestMemoryAccess.v ===== *)
(** * Guest memory: reads and writes

    What [read] and [write] do to the flat address space of [cell_at]: a read returns
    the bytes of the range or names the first fault, a write replaces them, and writes
    never reach a block another memory still refers to. *)

From S2P Require Import Prelude SysAbi HostMemory GuestMemory GuestMemoryOps GuestVmas.
From S2P Require Import GuestMemoryInv GuestMemoryHost GuestMemorySteps.
From stdpp Require Import base gmap list sorting strings.
From Stdlib Require Import ZArith Lia.
Open Scope Z_scope.

Definition allowed (access : AccessKind) (p : GuestMemoryProtection) : bool :=
  match access with AccessRead => p_read p | AccessWrite => p_write p end.

(** The access at [a] is allowed and finds the byte [b]. *)
Definition grants (access : AccessKind) (w : World) (a b : Z) : Prop :=
  ∃ c, cell_at w a = Some c ∧ allowed access (c_protection c) = true ∧ c_byte c = b.

Definition accessible (access : AccessKind) (w : World) (a : Z) : Prop := ∃ b, grants access w a b.

(** The access at [a] faults with the error [e]. *)
Definition fault (access : AccessKind) (w : World) (a : Z) (e : GuestMemoryError) : Prop :=
  match cell_at w a with
  | None => e = NotMapped
  | Some c => e = AccessDenied ∧ allowed access (c_protection c) = false
  end.

Lemma access_check_Ok access p u : access_check access p = Ok u ↔ allowed access p = true.
Proof. destruct u, access; simpl; [destruct (p_read p)|destruct (p_write p)]; done. Qed.

Lemma access_check_Err access p e :
  access_check access p = Err e ↔ e = AccessDenied ∧ allowed access p = false.
Proof. destruct access; simpl; [destruct (p_read p)|destruct (p_write p)]; naive_solver. Qed.

Lemma access_check_no_panic access p : access_check access p ≠ Panic.
Proof. destruct access; simpl; [by destruct (p_read p)|by destruct (p_write p)]. Qed.

#[export] Hint Resolve access_check_no_panic : mcr.

Lemma guest_slice_offset_Ok space v a :
  space + GUEST_PAGE_SIZE ≤ 2 ^ 64 → vma_ok space v → v_start v ≤ a < v_end v →
  guest_slice_offset v a = Ok (v_allocation_offset v + (a - v_start v)).
Proof.
  intros Hsp [] Ha. unfold MIN_GUEST_ADDRESS, GUEST_PAGE_SIZE in *. unfold guest_slice_offset.
  rewrite wsub_exact, wadd_exact by lia. apply usize_try_from_Ok. lia.
Qed.

(** Everything the code looks up about the area at a mapped address. *)
Lemma mapped_area w a v :
  world_wf w → vma_containing (w_mem w) a = Some v →
  ∃ al bytes n, gm_allocations (w_mem w) !! v_allocation_id v = Some al ∧
    contents (w_host w) (a_memory al) = Some (bytes, n) ∧
    alloc_view w (v_allocation_id v) = Some (a_guest_start al, bytes) ∧
    v_start v ≤ a < v_end v ∧ gm_vmas (w_mem w) !! v_start v = Some v ∧
    guest_slice_offset v a = Ok (v_allocation_offset v + (a - v_start v)) ∧
    0 ≤ v_allocation_offset v ∧
    v_allocation_offset v + (v_end v - v_start v) ≤ zlen bytes ∧
    zlen bytes < 2 ^ 64 ∧ v_end v < 2 ^ 64 ∧
    ∀ a', v_start v ≤ a' < v_end v →
      cell_at w a' = mk_cell (area_of v a') <$> byte_at bytes (v_allocation_offset v + (a' - v_start v)).
Proof.
  intros Hwf Hv. pose proof (mw_vmas _ _ Hwf) as Hvw. pose proof (vw_space _ _ Hvw).
  rewrite vma_containing_at in Hv. apply (vma_at_Some Hvw) in Hv as [Hk Ha].
  pose proof (vw_ok _ _ Hvw _ _ Hk) as Hok.
  destruct (world_vma _ _ _ Hwf Hk) as (al & bytes & n & Hal & Hc & Hview & Hs & He & ? & ?).
  exists al, bytes, n. split_and!; try done; try lia.
  - by eapply guest_slice_offset_Ok.
  - destruct Hok. lia.
  - intros a' Ha'. rewrite (cell_at_area w a' (area_of v a')) by (by apply (area_at_intro Hvw (v_start v))).
    simpl. by rewrite Hview.
Qed.

Lemma unmapped_cell w a : world_wf w → vma_containing (w_mem w) a = None → cell_at w a = None.
Proof. intros Hwf Hn. apply cell_at_unmapped. unfold area_at. by rewrite <- vma_containing_at, Hn. Qed.

(** ** Reading *)
Lemma wp_copy_chunk w access cursor e :
  world_wf w → 0 ≤ cursor < e →
  wp (copy_chunk access cursor e)
     (λ bs w', w' = w ∧ 0 < zlen bs ≤ e - cursor ∧
        ∀ i, 0 ≤ i < zlen bs → ∃ b, byte_at bs i = Some b ∧ grants access w (cursor + i) b)
     (λ err w', w' = w ∧ fault access w cursor err) w.
Proof.
  intros Hwf Hce. unfold copy_chunk. mem_steps.
  destruct (vma_containing (w_mem w) cursor) as [v|] eqn:Hv.
  2: { apply wp_lift; [done| |done]. intros err [= <-]. split; [done|].
       unfold fault. by rewrite (unmapped_cell _ _ Hwf Hv). }
  destruct (mapped_area _ _ _ Hwf Hv) as (al & bytes & n & Hal & Hc & _ & Ha & Hk & Hoff & ? & ? & ? & ? & Hcell).
  destruct (byte_at_Some bytes (v_allocation_offset v + (cursor - v_start v))) as [b0 Hb0]; [lia|].
  apply wp_lift; [|done|done]. intros ? [= <-]. mem_steps.
  apply wp_lift; [| |auto with mcr].
  2: { intros err [-> Hno]%access_check_Err. split; [done|]. unfold fault. by rewrite Hcell, Hb0. }
  intros ? Hyes%access_check_Ok. mem_steps. simpl. rewrite Hal.
  apply wp_lift; [|done|done]. intros ? [= <-]. mem_steps. rewrite Hoff.
  apply wp_lift; [|done|done]. intros ? [= <-]. mem_steps.
  eapply wp_arc_get; [done|]. intros k _ Hkb. rewrite Hkb.
  set (off := v_allocation_offset v + (cursor - v_start v)).
  set (len := Z.min (v_end v) e - cursor).
  assert (wsub (Z.min (v_end v) e) cursor = len) as -> by (apply wsub_exact; lia).
  rewrite wadd_exact by (unfold off, len; lia).
  destruct (slice_Some bytes off (off + len)) as [bs Hbs]; [unfold off, len; lia..|].
  rewrite Hbs. apply wp_lift; [|done|done]. intros ? [= <-].
  pose proof (slice_length _ _ _ _ Hbs) as Hlen.
  split; [by destruct w|]. split; [unfold len in *; lia|]. intros i Hi.
  rewrite (slice_byte _ _ _ _ _ Hbs) by lia.
  destruct (byte_at_Some bytes (off + i)) as [b Hb]; [unfold off, len in *; lia|].
  exists b. split; [done|]. exists (mk_cell (area_of v (cursor + i)) b). split_and!; [|done|done].
  rewrite Hcell by (unfold len in *; lia).
  replace (v_allocation_offset v + (cursor + i - v_start v)) with (off + i) by (unfold off; lia).
  by rewrite Hb.
Qed.

Lemma byte_at_app l1 l2 i :
  0 ≤ i → byte_at (l1 ++ l2) i = if i <? zlen l1 then byte_at l1 i else byte_at l2 (i - zlen l1).
Proof.
  intros. unfold byte_at, zlen. rewrite (proj2 (Z.ltb_ge i 0)) by lia.
  destruct (Z.ltb_spec i (Z.of_nat (length l1))).
  - apply lookup_app_l. lia.
  - rewrite (proj2 (Z.ltb_ge _ 0)) by lia. rewrite lookup_app_r by lia. f_equal. lia.
Qed.

Lemma wp_copy_guest_loop fuel access w cursor e :
  world_wf w → 0 ≤ cursor ≤ e → e < 2 ^ 64 → (Z.to_nat (e - cursor) < fuel)%nat →
  wp (copy_guest_loop fuel access cursor e)
     (λ bs w', w' = w ∧ zlen bs = e - cursor ∧
        ∀ i, 0 ≤ i < e - cursor → ∃ b, byte_at bs i = Some b ∧ grants access w (cursor + i) b)
     (λ err w', w' = w ∧ ∃ a, cursor ≤ a < e ∧ fault access w a err ∧
        ∀ a', cursor ≤ a' < a → accessible access w a') w.
Proof.
  intros Hwf Hce He. revert cursor Hce. induction fuel as [|fuel IH]; intros cursor Hce Hf; [lia|].
  simpl. destruct (Z.leb_spec e cursor).
  { mem_steps. split_and!; [done|unfold zlen; simpl; lia|lia]. }
  mem_steps. eapply wp_mono; [apply wp_copy_chunk; [done|lia]|..]; cbv beta.
  2: { intros err w' [-> Hft]. split; [done|]. exists cursor. split_and!; [lia|lia|done|lia]. }
  intros bs w' (-> & Hlen & Hbs). mem_steps. rewrite wadd_exact by lia.
  eapply wp_mono; [apply IH; lia|..]; cbv beta.
  - intros rest w' (-> & Hrl & Hrest). mem_steps. split; [done|].
    assert (zlen (bs ++ rest) = zlen bs + zlen rest) as -> by (unfold zlen; rewrite length_app; lia).
    split; [lia|]. intros i Hi. rewrite byte_at_app by lia.
    destruct (Z.ltb_spec i (zlen bs)); [apply Hbs; lia|].
    destruct (Hrest (i - zlen bs) ltac:(lia)) as (b & ? & Hg). exists b. split; [done|].
    by replace (cursor + i) with (cursor + zlen bs + (i - zlen bs)) by lia.
  - intros err w' (-> & a & Ha & Hft & Hbefore). split; [done|]. exists a. split_and!; [lia|lia|done|].
    intros a' Ha'. destruct (Z_lt_le_dec a' (cursor + zlen bs)); [|apply Hbefore; lia].
    destruct (Hbs (a' - cursor) ltac:(lia)) as (b & _ & Hg).
    replace (cursor + (a' - cursor)) with a' in Hg by lia. by exists b.
Qed.

(** What [copy_guest] (and so [read]) does: the bytes of the whole range, or the first
    address of the range that cannot be accessed. *)
Lemma wp_copy_guest w address len access :
  world_wf w → 0 ≤ address → 0 ≤ len →
  wp (copy_guest address len access)
     (λ bs w', w' = w ∧ zlen bs = len ∧
        ∀ i, 0 ≤ i < len → ∃ b, byte_at bs i = Some b ∧ grants access w (address + i) b)
     (λ e w', w' = w ∧
        (e = InvalidLength ∧ 2 ^ 64 ≤ address + len ∨
         ∃ a, address ≤ a < address + len ∧ fault access w a e ∧
              ∀ a', address ≤ a' < a → accessible access w a')) w.
Proof.
  intros Hwf Ha Hlen. unfold copy_guest. mem_steps.
  apply wp_lift; [| |auto with mcr].
  - intros e [-> He]%checked_raw_range_Ok; [|done].
    eapply wp_mono; [apply wp_copy_guest_loop; [done|lia..]|..]; cbv beta.
    + intros bs w' (-> & Hl & Hbs). replace (address + len - address) with len in * by lia. done.
    + intros e w' [-> Hf]. split; [done|]. by right.
  - intros e He. split; [done|]. left. unfold checked_raw_range in He.
    destruct (checked_add64 address len) as [x|] eqn:Hc.
    + apply checked_add64_Some in Hc as [-> ?]. rewrite (proj2 (Z.leb_le _ _)) in He by lia. done.
    + apply checked_add64_None in Hc. by injection He as <-.
Qed.

(** ** Writing *)
Definition set_byte (b : Z) (c : Cell) : Cell :=
  {| c_protection := c_protection c; c_kind := c_kind c; c_byte := b |}.

(** The cells after storing [bytes] at [address]. *)
Definition stored (w w' : World) (address : Z) (bytes : list Z) : Prop :=
  ∀ a, cell_at w' a = match byte_at bytes (a - address) with
                      | Some b => set_byte b <$> cell_at w a
                      | None => cell_at w a
                      end.

Definition executable (w : World) (a : Z) : Prop :=
  ∃ c, cell_at w a = Some c ∧ p_execute (c_protection c) = true.

(** Accesses depend on the protection of the address alone. *)
Definition prot_at (w : World) (a : Z) : option GuestMemoryProtection := c_protection <$> cell_at w a.

Lemma accessible_prot access w a :
  accessible access w a ↔ ∃ p, prot_at w a = Some p ∧ allowed access p = true.
Proof.
  unfold accessible, grants, prot_at. split.
  - intros (b & c & -> & ? & _). eauto.
  - intros (p & (c & Hc & ->)%fmap_Some & ?). eauto 10.
Qed.

Lemma fault_prot access w a e :
  fault access w a e ↔ match prot_at w a with
                       | None => e = NotMapped
                       | Some p => e = AccessDenied ∧ allowed access p = false
                       end.
Proof. unfold fault, prot_at. by destruct (cell_at w a). Qed.

Lemma executable_prot w a : executable w a ↔ ∃ p, prot_at w a = Some p ∧ p_execute p = true.
Proof.
  unfold executable, prot_at. split.
  - intros (c & -> & ?). eauto.
  - intros (p & (c & -> & ->)%fmap_Some & ?). eauto.
Qed.

Lemma stored_prot w w' address bytes a : stored w w' address bytes → prot_at w' a = prot_at w a.
Proof. intros H. unfold prot_at. rewrite H. destruct (byte_at _ _), (cell_at w a); done. Qed.

(** What a write leaves alone: the invariant, the other owners, the layout. *)
Record contained (w w' : World) : Prop := {
  ct_wf : world_wf w';
  ct_others : respects_others w w';
  ct_layout : same_layout (w_mem w) (w_mem w');
}.

Lemma contained_refl w : world_wf w → contained w w.
Proof. by split. Qed.

Lemma contained_trans w1 w2 w3 : contained w1 w2 → contained w2 w3 → contained w1 w3.
Proof. intros [] []. split; [done|by transitivity w2|by transitivity (w_mem w2)]. Qed.

Lemma invisible_contained w w' : invisible w w' → contained w w'.
Proof. by intros []. Qed.

Lemma byte_at_out l i : i < 0 ∨ zlen l ≤ i → byte_at l i = None.
Proof.
  unfold byte_at, zlen. intros H. destruct (Z.ltb_spec i 0); [done|].
  apply lookup_ge_None_2. lia.
Qed.

Lemma stored_nil w w' address : same_cells w w' → stored w w' address [].
Proof. intros H a. rewrite byte_at_out by (unfold zlen; simpl; lia). apply H. Qed.

Lemma stored_invisible w w1 w2 address bytes :
  same_cells w w1 → stored w1 w2 address bytes → stored w w2 address bytes.
Proof. intros H1 H2 a. rewrite H2. by rewrite H1. Qed.

Lemma stored_app w w1 w2 address l1 l2 :
  stored w w1 address l1 → stored w1 w2 (address + zlen l1) l2 → stored w w2 address (l1 ++ l2).
Proof.
  intros H1 H2 a. rewrite H2, H1.
  destruct (Z_lt_le_dec (a - address) 0).
  { by rewrite !byte_at_out by (unfold zlen; lia). }
  rewrite byte_at_app by lia. destruct (Z.ltb_spec (a - address) (zlen l1)).
  - rewrite (byte_at_out l2) by lia. done.
  - rewrite (byte_at_out l1) by lia. by replace (a - (address + zlen l1)) with (a - address - zlen l1) by lia.
Qed.

(** Writing part of an allocation through one area changes exactly those cells. *)
Lemma written_stored w w' v cursor chunk :
  world_wf w → vma_containing (w_mem w) cursor = Some v → cursor + zlen chunk ≤ v_end v →
  written w w' (v_allocation_id v) (v_allocation_offset v + (cursor - v_start v)) chunk →
  stored w w' cursor chunk.
Proof.
  intros Hwf Hv Hend Hw a. pose proof (mw_vmas _ _ Hwf) as Hvw.
  destruct (mapped_area _ _ _ Hwf Hv) as (al & bytes & n & Hal & Hc & Hview & Ha & Hk & _ & ? & ? & ? & ? & _).
  destruct (area_at (gm_vmas (w_mem w)) a) as [x|] eqn:Hx.
  2: { rewrite (cell_at_unmapped w) by done. rewrite (cell_at_unmapped w') by (by rewrite (wr_vmas _ _ _ _ _ Hw)).
       by destruct (byte_at _ _). }
  rewrite (cell_at_area w a x Hx), (cell_at_area w' a x) by (by rewrite (wr_vmas _ _ _ _ _ Hw)).
  rewrite (wr_views _ _ _ _ _ Hw). pose proof Hx as (u & Hu & Hau & ->)%(area_at_Some Hvw).
  destruct (world_vma _ _ _ Hwf Hk) as (al1 & b1 & n1 & Hal1 & _ & Hview1 & Hs1 & _).
  destruct (world_vma _ _ _ Hwf Hu) as (al2 & b2 & n2 & Hal2 & _ & Hview2 & Hs2 & He2 & ? & ?).
  pose proof (vw_ok _ _ Hvw _ _ Hu) as []. simpl.
  case_bool_decide as Hid.
  - rewrite Hid in Hview2, Hal2. rewrite Hid. simplify_eq. rewrite Hview. simpl.
    rewrite splice_byte by lia.
    replace (v_allocation_offset u + (a - v_start u)) with (a - a_guest_start al) by lia.
    destruct (Z_lt_le_dec (a - cursor) 0), (Z_lt_le_dec (a - cursor) (zlen chunk)).
    + rewrite (byte_at_out chunk (a - cursor)) by lia. by rewrite (proj2 (Z.leb_gt _ _)) by lia.
    + rewrite (byte_at_out chunk (a - cursor)) by lia. by rewrite (proj2 (Z.leb_gt _ _)) by lia.
    + rewrite (proj2 (Z.leb_le _ _)), (proj2 (Z.ltb_lt _ _)) by lia. simpl.
      destruct (byte_at_Some chunk (a - cursor)) as [b Hb]; [lia|].
      replace (a - a_guest_start al - (v_allocation_offset v + (cursor - v_start v))) with (a - cursor) by lia.
      rewrite Hb. simpl. destruct (byte_at_Some bytes (a - a_guest_start al)) as [b' Hb']; [lia|].
      by rewrite Hb'.
    + rewrite (byte_at_out chunk (a - cursor)) by lia. rewrite (proj2 (Z.leb_le _ _)), (proj2 (Z.ltb_ge _ _)) by lia. done.
  - rewrite (byte_at_out chunk); [done|].
    destruct (Z_lt_le_dec (a - cursor) 0); [by left|]. right.
    destruct (Z_lt_le_dec (a - cursor) (zlen chunk)); [|done]. destruct Hid.
    destruct (vma_unique Hvw _ _ _ _ a Hu Hk) as [_ ->]; [lia|lia|done].
Qed.

Section write.
Context `{OS : HostOs} `{OL : !HostOsLaws OS}.

Lemma wp_flush_area w al b off len bytes n :
  gm_allocations (w_mem w) !! b = Some al → contents (w_host w) (a_memory al) = Some (bytes, n) →
  wp (let* found := get_allocation b in
      let* allocation := lift (expect found) in
      host_op (arc_flush (a_memory allocation) off len))
     (λ _ w', quiet w w') (quiet_failure w) w.
Proof.
  intros Hal Hc. mem_steps. rewrite Hal. apply wp_lift; [|done|done]. intros ? [= <-]. mem_steps.
  eapply wp_mono; [by eapply wp_arc_flush|..]; cbv beta; intros ? h' ?; by repeat split; destruct H.
Qed.

Definition flag_executable (w : World) (cursor len : Z) (x : bool) : Prop :=
  ∀ a, cursor ≤ a < cursor + len → executable w a ↔ x = true.

(** One chunk: a positive number of bytes within one area. *)
Lemma wp_write_chunk w cursor e bytes :
  world_wf w → 0 ≤ cursor < e → zlen bytes = e - cursor →
  wp (write_chunk cursor e bytes)
     (λ r w', contained w w' ∧ 0 < r.1 ≤ e - cursor ∧
        stored w w' cursor (take (Z.to_nat r.1) bytes) ∧
        (∀ a, cursor ≤ a < cursor + r.1 → accessible AccessWrite w a) ∧
        flag_executable w cursor r.1 r.2)
     (λ err w', contained w w' ∧
        (same_cells w w' ∧ (resource_error err ∨ fault AccessWrite w cursor err) ∨
         resource_error err ∧ ∃ n, 0 < n ≤ e - cursor ∧ stored w w' cursor (take (Z.to_nat n) bytes) ∧
           ∀ a, cursor ≤ a < cursor + n → accessible AccessWrite w a)) w.
Proof.
  intros Hwf Hce Hlen. unfold write_chunk. mem_steps.
  destruct (vma_containing (w_mem w) cursor) as [v0|] eqn:Hv0.
  2: { apply wp_lift; [done| |done]. intros err [= <-]. split; [by apply contained_refl|]. left.
       split; [done|]. right. unfold fault. by rewrite (unmapped_cell _ _ Hwf Hv0). }
  destruct (mapped_area _ _ _ Hwf Hv0) as (al0 & b0 & n0 & _ & _ & _ & Ha0 & Hk0 & _ & ? & ? & ? & ? & Hcell0).
  destruct (byte_at_Some b0 (v_allocation_offset v0 + (cursor - v_start v0))) as [x0 Hx0]; [lia|].
  apply wp_lift; [|done|done]. intros ? [= <-]. mem_steps.
  apply wp_lift; [| |auto with mcr].
  2: { intros err [-> Hno]%access_check_Err. split; [by apply contained_refl|]. left. split; [done|]. right.
       unfold fault. by rewrite Hcell0, Hx0. }
  intros _ Hyes%access_check_Ok. mem_steps.
  eapply wp_mono; [apply wp_ensure_guest_page_range_unique; [done|lia]|..]; cbv beta.
  2: { intros err w1 [He [Hiv _]]. split; [by apply invisible_contained|]. left. split; [apply Hiv|by left]. }
  intros [] w1 [Hiv _]. pose proof (iv_wf _ _ Hiv) as Hwf1. mem_steps.
  assert (Hm1 : is_Some (vma_containing (w_mem w1) cursor)).
  { destruct (vma_containing (w_mem w1) cursor) eqn:Hn; [eauto|]. pose proof (iv_cells _ _ Hiv cursor) as Hc.
    rewrite (unmapped_cell _ _ Hwf1 Hn), Hcell0, Hx0 in Hc by done. done. }
  destruct Hm1 as [v Hv]. rewrite Hv. apply wp_lift; [|done|done]. intros ? [= <-]. mem_steps.
  destruct (mapped_area _ _ _ Hwf1 Hv) as (al & old & n & Hal & Hc & Hview & Ha & Hk & Hoff & ? & ? & ? & ? & Hcell).
  rewrite Hoff. apply wp_lift; [|done|done]. intros ? [= <-]. mem_steps.
  set (len := Z.min (v_end v) e - cursor).
  assert (wsub (Z.min (v_end v) e) cursor = len) as -> by (apply wsub_exact; lia).
  assert (Hl : 0 < len ≤ e - cursor ∧ cursor + len ≤ v_end v) by (unfold len; lia). clearbody len.
  assert (Hchunk : slice bytes 0 len = Some (take (Z.to_nat len) bytes)).
  { unfold slice. unfold zlen in Hlen. rewrite (proj2 (Z.leb_le 0 len)), (proj2 (Z.leb_le len _)) by lia. simpl.
    f_equal. rewrite Z.sub_0_r. by rewrite drop_0. }
  rewrite Hchunk. apply wp_lift; [|done|done]. intros ? [= <-]. mem_steps.
  set (chunk := take (Z.to_nat len) bytes) in *.
  assert (Hcl : zlen chunk = len) by (pose proof (slice_length _ _ _ _ Hchunk); lia).
  assert (Hp : ∀ a, cursor ≤ a < cursor + len → ∃ b, cell_at w a = Some (mk_cell (area_of v a) b)).
  { intros a Haa. rewrite <- (iv_cells _ _ Hiv), Hcell by lia.
    destruct (byte_at_Some old (v_allocation_offset v + (a - v_start v))) as [b ->]; [lia|]. eauto. }
  assert (Hprot : v_protection v = v_protection v0).
  { destruct (Hp cursor ltac:(lia)) as [b Hb]. rewrite Hcell0, Hx0 in Hb by done. by injection Hb. }
  assert (Hacc : ∀ a, cursor ≤ a < cursor + len → accessible AccessWrite w a).
  { intros a Haa. destruct (Hp a Haa) as [b Hb]. exists b, (mk_cell (area_of v a) b). simpl. by rewrite Hprot. }
  eapply wp_mono; [eapply (wp_write_allocation w1 _ _ _ old); [done|done|lia|rewrite Hcl; lia]|..]; cbv beta.
  2: { intros err w2 [He Hq]. split; [|left; split; [|by left]].
       - apply (contained_trans _ w1); [by apply invisible_contained|].
         apply invisible_contained. auto with mcr.
       - transitivity w1; [apply Hiv|]. by apply (quiet_invisible _ _ Hwf1 Hq). }
  intros [] w2 [Hw (al2 & old2 & Hal2 & Hc2)]. mem_steps.
  assert (Hst : stored w w2 cursor chunk).
  { eapply stored_invisible; [apply Hiv|]. eapply (written_stored w1); [done|done|lia|done]. }
  assert (Hct : contained w w2).
  { apply (contained_trans _ w1); [by apply invisible_contained|]. by destruct Hw. }
  assert (Hflag : ∀ x, p_execute (v_protection v) = x → flag_executable w cursor len x).
  { intros x Hx a Haa. destruct (Hp a Haa) as [b Hb]. unfold executable. rewrite Hb. split.
    - intros (c & [= <-] & Hex). simpl in Hex. congruence.
    - intros ->. eexists. split; [done|]. done. }
  eapply wp_mono with (Q' := λ _ w3, quiet w2 w3) (R' := quiet_failure w2).
  - destruct (p_execute _); [by eapply wp_flush_area|]. by mem_steps.
  - intros [] w3 Hq. mem_steps. pose proof (quiet_invisible _ _ (ct_wf _ _ Hct) Hq) as Hiv3.
    simpl. split_and!; [|lia|lia| |done|by apply Hflag].
    + eapply contained_trans; [done|]. by apply invisible_contained.
    + intros a. rewrite (iv_cells _ _ Hiv3). apply Hst.
  - intros err w3 [He Hq]. pose proof (quiet_invisible _ _ (ct_wf _ _ Hct) Hq) as Hiv3.
    split; [eapply contained_trans; [done|]; by apply invisible_contained|]. right.
    split; [done|]. exists len. split_and!; [lia|lia| |done]. intros a. rewrite (iv_cells _ _ Hiv3). apply Hst.
Qed.

(** What is known when a write of [bytes] at [cursor] stops early. *)
Definition write_failure (w : World) (cursor : Z) (bytes : list Z) (err : GuestMemoryError)
    (w' : World) : Prop :=
  contained w w' ∧ ∃ n, 0 ≤ n ≤ zlen bytes ∧ stored w w' cursor (take (Z.to_nat n) bytes) ∧
    (∀ a, cursor ≤ a < cursor + n → accessible AccessWrite w a) ∧
    (resource_error err ∨ n < zlen bytes ∧ fault AccessWrite w (cursor + n) err).

Lemma take_drop_stored w w1 w2 cursor bytes k n :
  0 ≤ k ≤ zlen bytes → 0 ≤ n ≤ zlen bytes - k →
  stored w w1 cursor (take (Z.to_nat k) bytes) →
  stored w1 w2 (cursor + k) (take (Z.to_nat n) (drop (Z.to_nat k) bytes)) →
  stored w w2 cursor (take (Z.to_nat (k + n)) bytes).
Proof.
  unfold zlen. intros Hk Hn H1 H2.
  replace (take (Z.to_nat (k + n)) bytes)
    with (take (Z.to_nat k) bytes ++ take (Z.to_nat n) (drop (Z.to_nat k) bytes)).
  - eapply stored_app; [done|]. unfold zlen. rewrite length_take.
    by replace (Z.of_nat (Z.to_nat k `min` length bytes)) with k by lia.
  - rewrite Z2Nat.inj_add by lia. by rewrite take_take_drop.
Qed.

Lemma wp_write_guest_loop fuel w cursor e bytes t :
  world_wf w → 0 ≤ cursor ≤ e → e < 2 ^ 64 → zlen bytes = e - cursor → (length bytes < fuel)%nat →
  wp (write_guest_loop fuel cursor e bytes t)
     (λ t' w', contained w w' ∧ stored w w' cursor bytes ∧
        (∀ a, cursor ≤ a < e → accessible AccessWrite w a) ∧
        (t' = true ↔ t = true ∨ ∃ a, cursor ≤ a < e ∧ executable w a))
     (write_failure w cursor bytes) w.
Proof.
  intros Hwf. revert w Hwf cursor bytes t. induction fuel as [|fuel IH]; [lia|].
  intros w Hwf cursor bytes t Hce He Hlen Hf. simpl. destruct (Z.leb_spec e cursor).
  { mem_steps. assert (bytes = []) as -> by (apply nil_length_inv; unfold zlen in *; lia).
    split_and!; [by apply contained_refl|by apply stored_nil|lia|].
    split; [auto|]. intros [?|(a & ? & _)]; [done|lia]. }
  wp_step. eapply wp_mono; [apply wp_write_chunk; [done|lia|done]|..]; cbv beta.
  2: { intros err w' [Hct [[Hc Hr]|(Hr & n & Hn & Hst & Hacc)]]; (split; [done|]).
       - exists 0. split_and!; [lia|lia|by apply stored_nil|lia|].
         rewrite Z.add_0_r. destruct Hr; [by left|right; split; [lia|done]].
       - exists n. split_and!; [lia|lia|done|done|by left]. }
  intros [len x] w1 (Hct & Hl & Hst & Hacc & Hflag). simpl in *. rewrite wadd_exact by lia.
  assert (Hdl : zlen (drop (Z.to_nat len) bytes) = e - (cursor + len))
    by (unfold zlen in *; rewrite length_drop; lia).
  assert (Hp : ∀ a, prot_at w1 a = prot_at w a) by (intros a; by eapply stored_prot).
  eapply wp_mono; [apply IH; [apply Hct|lia|lia|done|]|..]; cbv beta.
  - unfold zlen in *. rewrite length_drop. lia.
  - intros t' w2 (Hct2 & Hst2 & Hacc2 & Ht'). split_and!.
    + by eapply contained_trans.
    + rewrite <- (take_drop (Z.to_nat len) bytes). eapply stored_app; [done|].
      unfold zlen in *. rewrite length_take.
      by replace (Z.of_nat (Z.to_nat len `min` length bytes)) with len by lia.
    + intros a Ha. destruct (Z_lt_le_dec a (cursor + len)); [apply Hacc; lia|].
      apply accessible_prot. rewrite <- Hp. apply accessible_prot, Hacc2. lia.
    + rewrite Ht', orb_true_iff. setoid_rewrite executable_prot. setoid_rewrite Hp. split.
      * intros [[?|?]|(a & ? & ?)]; [by left| |right; exists a; split; [lia|done]].
        right. exists cursor. split; [lia|]. apply executable_prot. apply Hflag; [lia|done].
      * intros [?|(a & ? & Ha)]; [by left; left|]. destruct (Z_lt_le_dec a (cursor + len)).
        -- left. right. apply (Hflag a); [lia|]. by apply executable_prot.
        -- right. exists a. split; [lia|done].
  - intros err w2 (Hct2 & n & Hn & Hst2 & Hacc2 & Herr). split; [by eapply contained_trans|].
    exists (len + n). split_and!; [lia|lia|by eapply take_drop_stored; [lia|lia|..]|..].
    + intros a Ha. destruct (Z_lt_le_dec a (cursor + len)); [apply Hacc; lia|].
      apply accessible_prot. rewrite <- Hp. apply accessible_prot, Hacc2. lia.
    + destruct Herr as [?|[? Hft]]; [by left|]. right. split; [lia|].
      apply fault_prot. rewrite <- Hp. apply fault_prot. by rewrite Z.add_assoc.
Qed.

Lemma contained_generation w w' : contained w w' → contained w {| w_host := w_host w'; w_mem := w_mem w' |}.
Proof. by destruct w'. Qed.
End write.

(** The generation counter is not part of the invariant. *)
Lemma generation_wf w : world_wf w → world_wf {| w_host := w_host w; w_mem := record_executable_write (w_mem w) |}.
Proof. intros []. by split. Qed.
