(* ===== verification/GuestMemoryMmap.v ===== *)
(** * Guest memory: munmap and mprotect

    Refinement of [munmap] and [mprotect] to the flat address space: the range becomes
    unmapped, or changes protection, and nothing else changes. *)

From S2P Require Import Prelude SysAbi HostMemory GuestMemory GuestMemoryOps GuestVmas GuestMemoryInv GuestMemoryHost GuestMemorySteps GuestMemoryAccess.
From stdpp Require Import base gmap list sorting strings.
From Stdlib Require Import ZArith Lia.
Open Scope Z_scope.

Definition in_range (s e a : Z) : bool := (s <=? a) && (a <? e).

(** ** munmap *)
Definition unmapped (w w' : World) (s e : Z) : Prop :=
  ∀ a, cell_at w' a = if in_range s e a then None else cell_at w a.

Lemma wp_bt_range {A} w (m : gmap Z A) s e (Q : list (Z * A) → World → Prop) (R : GuestMemoryError → World → Prop) :
  s ≤ e → (∀ l, bt_range (E:=GuestMemoryError) m s e = Ok l → Q l w) → wp (lift (bt_range m s e)) Q R w.
Proof.
  intros Hse HQ. destruct (bt_range_ok (E:=GuestMemoryError) m s e Hse) as [l Hl].
  rewrite Hl. apply wp_lift; [|done|done]. intros ? [= <-]. auto.
Qed.

Section unmap.
Context `{OS : HostOs} `{OL : !HostOsLaws OS}.

Lemma wp_unmap_range w s e :
  world_wf w → aligned s → aligned e → s ≤ e →
  wp (unmap_range s e)
     (λ _ w', contained w w' ∧ unmapped w w' s e ∧
        (∀ a, area_at (gm_vmas (w_mem w')) a = if in_range s e a then None else area_at (gm_vmas (w_mem w)) a) ∧
        (∀ id p, alloc_view w' id = Some p → alloc_view w id = Some p)) (λ _ _, False) w.
Proof.
  intros Hwf Hs He Hse. unfold unmap_range. apply wp_split_both; [done..|].
  intros w2 Hu Hcs Hce Hsame Hviews Hn2. pose proof Hu as [Hiv2 _].
  pose proof (unshared_wf _ _ Hu) as Hwf2. pose proof (mw_vmas _ _ Hwf2) as Hvw2. mem_steps.
  apply wp_bt_range; [done|]. intros l Hl. mem_steps.
  set (w3 := with_vmas w2 (remove_keys l.*1 (gm_vmas (w_mem w2)))).
  assert (Hareas : ∀ a, area_at (gm_vmas (w_mem w3)) a =
    if in_range s e a then None else area_at (gm_vmas (w_mem w)) a).
  { intros a. rewrite <- Hsame. by eapply remove_range_areas. }
  assert (Hwf3 : world_wf w3).
  { apply backed_areas; [done| |].
    - eapply vmas_wf_sub; [exact Hvw2|apply remove_keys_sub].
    - intros a x. change (remove_keys l.*1 (gm_vmas (w_mem w2))) with (gm_vmas (w_mem w3)).
      rewrite Hareas, <- Hsame. destruct (in_range s e a); [done|]. eauto. }
  change {| w_host := _; w_mem := set_vmas _ _ |} with w3.
  apply wp_drop_unreferenced; [done|]. intros w4 Hiv Hvm _ Hv4. split_and!.
  - apply (contained_trans _ w3); [|by apply invisible_contained].
    split; [done| |apply Hiv2]. transitivity w2; [apply Hiv2|apply with_vmas_others].
  - intros a. rewrite (iv_cells _ _ Hiv). specialize (Hareas a). destruct (in_range s e a).
    + by apply cell_at_unmapped.
    + by apply cell_ext.
  - intros a. by rewrite Hvm, Hareas.
  - intros id p. rewrite Hv4. case_bool_decide; [|done]. intros Hp. by rewrite <- Hviews.
Qed.

Lemma wp_munmap w args :
  world_wf w → 0 ≤ mu_addr args → 0 ≤ mu_length args →
  wp (munmap args)
     (λ _ w', contained w w' ∧ ∃ e, checked_page_range (mu_addr args) (mu_length args) = Ok e ∧
        unmapped w w' (mu_addr args) e)
     (λ err w', w' = w ∧ checked_page_range (mu_addr args) (mu_length args) = Err err) w.
Proof.
  intros Hwf Ha Hl. unfold munmap. mem_steps. apply wp_lift; [|done|auto with mcr].
  intros e He. pose proof (checked_page_range_Ok _ _ _ Ha Hl He) as (? & ? & ? & ?).
  eapply wp_mono; [apply wp_unmap_range; [done|done|done|lia]|..]; [|done].
  intros [] w' (? & ? & _). eauto.
Qed.
End unmap.

(** ** mprotect *)
Definition set_cell_protection (p : GuestMemoryProtection) (c : Cell) : Cell :=
  {| c_protection := p; c_kind := c_kind c; c_byte := c_byte c |}.

Definition reprotected (w w' : World) (s e : Z) (p : GuestMemoryProtection) : Prop :=
  ∀ a, cell_at w' a = if in_range s e a then set_cell_protection p <$> cell_at w a else cell_at w a.

Lemma checked_page_range_Err start len err :
  checked_page_range start len = Err err → resource_error err.
Proof.
  unfold checked_page_range, page_round_length, align_up, checked_raw_range. intros H.
  repeat (case_match; simpl in H; simplify_eq); done.
Qed.

Lemma not_range_mapped w s e :
  world_wf w → s < e → is_range_mapped (w_mem w) s e = false →
  ∃ a, s ≤ a < e ∧ cell_at w a = None.
Proof.
  intros Hwf Hse Hm. apply not_true_iff_false in Hm.
  rewrite (is_range_mapped_spec _ _ _ _ (mw_vmas _ _ Hwf)) in Hm by lia.
  destruct (decide (Exists (λ a, area_at (gm_vmas (w_mem w)) a = None) (seqZ s (e - s)))) as [Hex|Hno].
  - apply Exists_exists in Hex as (a & Hin%elem_of_seqZ & Hn).
    exists a. split; [lia|by apply cell_at_unmapped].
  - exfalso. apply Hm. intros a Hin. destruct (area_at (gm_vmas (w_mem w)) a) eqn:Hx; [eauto|].
    exfalso. apply Hno. apply Exists_exists. exists a. split; [apply elem_of_seqZ; lia|done].
Qed.

Section protect.
Context `{OS : HostOs} `{OL : !HostOsLaws OS}.

Lemma protect_entries_contained w s e l p :
  world_wf w → cut_at s (gm_vmas (w_mem w)) → cut_at e (gm_vmas (w_mem w)) →
  bt_range (E:=GuestMemoryError) (gm_vmas (w_mem w)) s e = Ok l →
  let w' := with_vmas w (protect_vmas l.*1 p (gm_vmas (w_mem w))) in
  contained w w' ∧ reprotected w w' s e p.
Proof.
  intros Hwf Hcs Hce Hl w'. pose proof (mw_vmas _ _ Hwf) as Hvw.
  assert (Hareas : ∀ a, area_at (gm_vmas (w_mem w')) a =
    if in_range s e a then reprotect p <$> area_at (gm_vmas (w_mem w)) a
    else area_at (gm_vmas (w_mem w)) a) by (intros a; by eapply protect_range_areas).
  split.
  - split; [|apply with_vmas_others|done]. apply backed_areas; [done| |].
    + eapply reshaped_wf; [done|by apply protect_reshaped].
    + intros a x. change (protect_vmas _ _ _) with (gm_vmas (w_mem w')). rewrite Hareas.
      destruct (in_range s e a); [|eauto]. intros (y & Hy & ->)%fmap_Some. eauto.
  - intros a. specialize (Hareas a). destruct (area_at (gm_vmas (w_mem w)) a) as [x|] eqn:Hx.
    + destruct (in_range s e a); [|by apply cell_ext; [congruence|]].
      rewrite (cell_at_area w a x Hx), (cell_at_area w' a _ Hareas). simpl.
      unfold w'. rewrite with_vmas_view. by destruct (_ ≫= _).
    + rewrite (cell_at_unmapped w a Hx). rewrite (cell_at_unmapped w');
        by destruct (in_range s e a).
Qed.

Lemma wp_mprotect w args :
  world_wf w → 0 ≤ mp_addr args → 0 ≤ mp_length args →
  wp (mprotect args)
     (λ _ w', contained w w' ∧ ∃ p, protection_from_linux (mp_prot args) = Ok p ∧
        (mp_length args = 0 ∧ w' = w ∨
         ∃ e, checked_page_range (mp_addr args) (mp_length args) = Ok e ∧
              (∀ a, mp_addr args ≤ a < e → is_Some (cell_at w a)) ∧
              reprotected w w' (mp_addr args) e p))
     (λ err w', contained w w' ∧ same_cells w w' ∧
        (resource_error err ∨
         err = NotMapped ∧ ∃ e a, checked_page_range (mp_addr args) (mp_length args) = Ok e ∧
           mp_addr args ≤ a < e ∧ cell_at w a = None)) w.
Proof.
  intros Hwf Ha Hlen. unfold mprotect. mem_steps.
  apply wp_lift.
  2: { intros err Herr. split_and!; [by apply contained_refl|done|]. left.
       unfold protection_from_linux in Herr. destruct (negb _); [|done]. by injection Herr as <-. }
  2: { unfold protection_from_linux. by destruct (negb _). }
  intros p Hp. destruct (Z.eqb_spec (mp_length args) 0).
  { mem_steps. split; [by apply contained_refl|]. eauto. }
  mem_steps. apply wp_lift; [| |auto with mcr].
  2: { intros err Herr%checked_page_range_Err. split_and!; [by apply contained_refl|done|by left]. }
  intros e He. pose proof (checked_page_range_Ok _ _ _ Ha Hlen He) as (Has & Hae & Hse & _).
  set (s := mp_addr args) in *. mem_steps.
  destruct (is_range_mapped (w_mem w) s e) eqn:Hmapped; simpl negb; cbv iota.
  2: { mem_steps. split_and!; [by apply contained_refl|done|]. right. split; [done|].
       destruct (not_range_mapped _ s e Hwf ltac:(lia) Hmapped) as (a & ? & ?). eauto. }
  pose proof (proj1 (is_range_mapped_spec _ _ s e (mw_vmas _ _ Hwf) ltac:(lia)) Hmapped) as Hall.
  apply wp_split_both; [done..|]. intros w2 Hu Hcs Hce _ _ _.
  pose proof (unshared_wf _ _ Hu) as Hwf2. mem_steps.
  eapply wp_mono; [apply wp_ensure_guest_page_range_unique; [done|unfold s; lia]|..]; cbv beta.
  2: { intros err w3 [Herr Hu3]. destruct (unshared_trans _ _ _ Hu Hu3) as [Hiv _].
       split_and!; [by apply invisible_contained|apply Hiv|by left]. }
  intros [] w3 Hu3. apply (proj2 Hu3) in Hcs, Hce. assert (Hu' : unshared w w3) by (by eapply unshared_trans).
  clear Hu3 Hu Hwf2 w2. pose proof (unshared_wf _ _ Hu') as Hwf3. mem_steps.
  apply wp_bt_range; [lia|]. intros l Hl. mem_steps.
  eapply wp_mono; [apply (wp_protect_entries w3 l); [done|]|..]; cbv beta.
  - intros k v Hin. by apply (elem_of_bt_range _ _ _ _ _ _ Hl) in Hin as [? _].
  - intros [] w4 Hq. mem_steps. unfold coalesce_adjacent. mem_steps.
    assert (Hvm : gm_vmas (w_mem w4) = gm_vmas (w_mem w3)) by (by destruct Hq as [-> _]).
    assert (Hu4 : unshared w w4).
    { eapply unshared_trans; [done|]. by apply quiet_unshared. }
    pose proof (unshared_wf _ _ Hu4) as Hwf4. rewrite <- Hvm in Hcs, Hce, Hl.
    destruct (protect_entries_contained w4 s e l p Hwf4 Hcs Hce Hl) as [Hct Hrp].
    set (w5 := with_vmas w4 (protect_vmas l.*1 p (gm_vmas (w_mem w4)))) in *.
    pose proof (ct_wf _ _ Hct) as Hwf5. pose proof (coalesced_spec _ _ (mw_vmas _ _ Hwf5)) as [Hcw Hcsame].
    assert (Hiv : invisible w5 (with_vmas w5 (coalesced (gm_vmas (w_mem w5))))) by (by apply same_areas_invisible).
    change {| w_host := w_host w4; w_mem := _ |} with (with_vmas w5 (coalesced (gm_vmas (w_mem w5)))).
    split.
    { apply (contained_trans _ w4); [apply invisible_contained, Hu4|].
      eapply contained_trans; [done|]. by apply invisible_contained. }
    exists p. split; [done|]. right. exists e. split_and!; [done| |].
    + intros a Hin. rewrite (surjective_pairing_world w). by apply cell_at_mapped, Hall.
    + intros a. rewrite (iv_cells _ _ Hiv), Hrp. destruct Hu4 as [Hiv4 _]. by rewrite (iv_cells _ _ Hiv4).
  - intros err w4 [Herr Hq]. assert (Hu4 : unshared w w4).
    { eapply unshared_trans; [done|]. by apply quiet_unshared. }
    destruct Hu4 as [Hiv _]. split_and!; [by apply invisible_contained|apply Hiv|by left].
Qed.
End protect.

(** ** Guest memory: host allocations for a guest range

    [ensure_host_allocation] finds or makes an allocation that covers a range, merging
    the allocations the granularity of the host makes it overlap.  As long as the
    allocations of a memory do not overlap each other, the merge keeps every byte the
    guest can see. *)

(** Allocations of a memory cover disjoint guest ranges. *)
Definition allocs_disjoint (w : World) : Prop :=
  ∀ id1 id2 g1 b1 g2 b2, id1 ≠ id2 → alloc_view w id1 = Some (g1, b1) → alloc_view w id2 = Some (g2, b2) →
    g1 + zlen b1 ≤ g2 ∨ g2 + zlen b2 ≤ g1.

(** Steps that work on allocations only, areas left as they are (even dangling). *)
Record shaken (w w' : World) : Prop := {
  sk_allocs : allocs_wf (w_host w') (w_mem w');
  sk_others : respects_others w w';
  sk_vmas : gm_vmas (w_mem w') = gm_vmas (w_mem w);
  sk_layout : same_layout (w_mem w) (w_mem w');
  sk_next : gm_next_allocation_id (w_mem w) ≤ gm_next_allocation_id (w_mem w');
}.

Lemma shaken_refl w : allocs_wf (w_host w) (w_mem w) → shaken w w.
Proof. by split. Qed.

Lemma shaken_trans w1 w2 w3 : shaken w1 w2 → shaken w2 w3 → shaken w1 w3.
Proof.
  intros [] []. split; [done|by transitivity w2|congruence|by transitivity (w_mem w2)|lia].
Qed.

Lemma allocs_wf_quiet w w' : quiet w w' → allocs_wf (w_host w) (w_mem w) → allocs_wf (w_host w') (w_mem w').
Proof.
  intros [-> Heq] [Hh Hids Hal Hr]. split; [by rewrite <- Heq|done| |].
  - intros id al Hid. destruct (Hal _ _ Hid) as (bytes & n & ? & ?). exists bytes, n.
    by rewrite (he_contents _ _ Heq).
  - intros b. by rewrite (heap_eq_strong _ _ _ Heq).
Qed.

Lemma quiet_shaken w w' : allocs_wf (w_host w) (w_mem w) → quiet w w' → shaken w w'.
Proof.
  intros Hwf Hq. pose proof (allocs_wf_quiet _ _ Hq Hwf) as Hwf'. destruct w as [h m], w' as [h' m'].
  destruct Hq as [Hm Heq]; simpl in *; subst m'. split; [done|by apply heap_eq_others|done|done|simpl; lia].
Qed.

(** With every view kept the step is invisible. *)
Lemma shaken_invisible w w' :
  world_wf w → shaken w w' → (∀ id p, alloc_view w id = Some p → alloc_view w' id = Some p) → invisible w w'.
Proof.
  intros Hwf [[Hh Hids Hal Hr] Ho Hvm Hl Hn] Hviews.
  assert (Hvma : ∀ k v, gm_vmas (w_mem w) !! k = Some v →
    alloc_view w' (v_allocation_id v) = alloc_view w (v_allocation_id v)).
  { intros k v Hk. destruct (world_vma _ _ _ Hwf Hk) as (al & b & n & _ & _ & Hv & _). rewrite Hv. auto. }
  split; [| |done|done].
  - split; [done| |done|done|done|].
    + rewrite Hvm. destruct Hl as [-> _]. apply Hwf.
    + intros k v Hk. rewrite Hvm in Hk. apply vma_backed_view. rewrite (Hvma k) by done.
      apply vma_backed_view. by eapply (mw_backed _ _ Hwf).
  - intros a. destruct (area_at (gm_vmas (w_mem w)) a) as [x|] eqn:Hx.
    + rewrite (cell_at_area w a x Hx), (cell_at_area w' a x) by (by rewrite Hvm).
      apply (area_at_Some (mw_vmas _ _ Hwf)) in Hx as (v & Hk & _ & ->). simpl. by rewrite (Hvma _ _ Hk).
    + rewrite (cell_at_unmapped w) by done. apply cell_at_unmapped. by rewrite Hvm.
Qed.

Lemma view_alloc w id gs bytes :
  alloc_view w id = Some (gs, bytes) → ∃ al n, gm_allocations (w_mem w) !! id = Some al ∧
    a_guest_start al = gs ∧ contents (w_host w) (a_memory al) = Some (bytes, n).
Proof. apply alloc_view_Some. Qed.

Lemma allocs_view w id al :
  allocs_wf (w_host w) (w_mem w) → gm_allocations (w_mem w) !! id = Some al →
  ∃ bytes n, contents (w_host w) (a_memory al) = Some (bytes, n) ∧
    alloc_view w id = Some (a_guest_start al, bytes) ∧ 0 ≤ a_guest_start al ∧ 0 < zlen bytes ∧
    a_guest_start al + zlen bytes < 2 ^ 64.
Proof.
  intros Hwf Hal. destruct (aw_alloc _ _ Hwf _ _ Hal) as (bytes & n & Hc & ?).
  exists bytes, n. split_and!; try done; try lia. apply alloc_view_Some. eauto.
Qed.

Lemma view_bounds w id gs bytes :
  allocs_wf (w_host w) (w_mem w) → alloc_view w id = Some (gs, bytes) →
  0 ≤ gs ∧ 0 < zlen bytes ∧ gs + zlen bytes < 2 ^ 64.
Proof.
  intros Hwf (al & n & Hal & <- & Hc)%view_alloc.
  destruct (allocs_view _ _ _ Hwf Hal) as (bytes' & n' & Hc' & _ & ?). simplify_eq. done.
Qed.

Lemma view_None w id : allocs_wf (w_host w) (w_mem w) →
  alloc_view w id = None ↔ gm_allocations (w_mem w) !! id = None.
Proof.
  intros Hwf. destruct (gm_allocations (w_mem w) !! id) as [al|] eqn:Hal.
  - destruct (allocs_view _ _ _ Hwf Hal) as (bytes & n & _ & -> & _). done.
  - split; [done|]. intros _. unfold alloc_view. by rewrite Hal.
Qed.

(** ** Saving, removing and restoring allocations *)
Definition saved_as (w : World) (id : Z) (s : SavedAllocation) : Prop :=
  sv_allocation_id s = id ∧ alloc_view w id = Some (sv_guest_start s, sv_bytes s).

Section place.
Context `{OS : HostOs} `{OL : !HostOsLaws OS}.

Lemma wp_save_allocations w ids :
  allocs_wf (w_host w) (w_mem w) → (∀ id, id ∈ ids → is_Some (alloc_view w id)) →
  wp (save_allocations ids)
     (λ saved w', quiet w w' ∧ Forall2 (saved_as w) ids saved) (quiet_failure w) w.
Proof.
  intros Hwf Hin. induction ids as [|id ids IH] in w, Hwf, Hin |- *; simpl; mem_steps; [done|].
  destruct (Hin id ltac:(set_solver)) as [[gs bytes] Hv].
  pose proof (view_alloc _ _ _ _ Hv) as (al & n & Hal & <- & Hc).
  apply wp_lift; [|by intros e ?%allocation_protection_ranges_Err|auto with mcr]. intros ranges _. mem_steps.
  rewrite Hal. apply wp_lift; [|done|done]. intros ? [= <-]. mem_steps.
  eapply wp_mono; [by eapply wp_guarded_copy|..]; [|done].
  intros bs w1 [-> Hq1]. mem_steps.
  eapply wp_mono; [apply IH|..]; cbv beta.
  - by eapply allocs_wf_quiet.
  - intros id2 Hid2. rewrite (quiet_views _ _ _ Hq1). apply Hin. set_solver.
  - intros saved w2 [Hq2 Hall]. mem_steps. split; [by transitivity w1|]. constructor.
    + by split.
    + eapply Forall2_impl; [done|]. intros id2 s [? Hs]. split; [done|].
      by rewrite <- (quiet_views _ _ _ Hq1).
  - intros e w2 Hf. by eapply quiet_failure_trans.
Qed.

Lemma wp_remove_allocation w id :
  allocs_wf (w_host w) (w_mem w) →
  wp (remove_allocation id)
     (λ _ w', shaken w w' ∧ ∀ id2, alloc_view w' id2 = if bool_decide (id2 = id) then None else alloc_view w id2)
     (λ _ _, False) w.
Proof.
  intros Hwf. unfold remove_allocation. mem_steps.
  destruct (gm_allocations (w_mem w) !! id) as [al|] eqn:Hal.
  - unfold arc_drop. mem_steps.
    destruct (drop_one_spec _ _ _ Hwf Hal) as (Hwf' & Ho & Hv). split; [|done]. split; [done|done|done|done|simpl; lia].
  - mem_steps. split; [by apply shaken_refl|]. intros id2. case_bool_decide; [|done].
    subst. by apply view_None.
Qed.

Lemma wp_remove_allocations w ids :
  allocs_wf (w_host w) (w_mem w) →
  wp (foreach ids remove_allocation)
     (λ _ w', shaken w w' ∧ ∀ id, alloc_view w' id = if bool_decide (id ∈ ids) then None else alloc_view w id)
     (λ _ _, False) w.
Proof.
  intros Hwf. induction ids as [|id ids IH] in w, Hwf |- *; simpl; mem_steps.
  { split; [by apply shaken_refl|]. done. }
  eapply wp_mono; [by apply wp_remove_allocation|..]; [|done]. intros [] w1 [Hs1 Hv1]. cbv beta.
  eapply wp_mono; [apply IH, Hs1|..]; [|done]. intros [] w2 [Hs2 Hv2].
  split; [by eapply shaken_trans|]. intros id2. rewrite Hv2, Hv1.
  destruct (decide (id2 ∈ ids)).
  { by rewrite !bool_decide_eq_true_2 by set_solver. }
  rewrite (bool_decide_eq_false_2 (id2 ∈ ids)) by done. destruct (decide (id2 = id)).
  - by rewrite !bool_decide_eq_true_2 by set_solver.
  - by rewrite !bool_decide_eq_false_2 by set_solver.
Qed.

Definition restorable (w : World) (s : SavedAllocation) : Prop :=
  sv_allocation_id s < gm_next_allocation_id (w_mem w) ∧ alloc_view w (sv_allocation_id s) = None ∧
  0 ≤ sv_guest_start s ∧ 0 < zlen (sv_bytes s) ∧ sv_guest_start s + zlen (sv_bytes s) < 2 ^ 64.

Lemma wp_restore w saved :
  allocs_wf (w_host w) (w_mem w) → Forall (restorable w) saved → NoDup (sv_allocation_id <$> saved) →
  wp (restore_saved_allocations saved)
     (λ _ w', shaken w w' ∧
        (∀ s, s ∈ saved → alloc_view w' (sv_allocation_id s) = Some (sv_guest_start s, sv_bytes s)) ∧
        (∀ id, id ∉ sv_allocation_id <$> saved → alloc_view w' id = alloc_view w id))
     (λ e w', shaken w w' ∧ is_host_error e = true) w.
Proof.
  intros Hwf Hall Hnd. induction saved as [|s saved IH] in w, Hwf, Hall, Hnd |- *; simpl.
  { mem_steps. split_and!; [by apply shaken_refl|set_solver|done]. }
  apply Forall_cons in Hall as [(Hid & Hnone & Hgs & Hlen & Hend) Hall].
  rewrite fmap_cons in Hnd. apply NoDup_cons in Hnd as [Hnin Hnd].
  unfold restore_saved_allocations; simpl; fold (restore_saved_allocations saved). mem_steps.
  assert (Hfail : ∀ e w', host_failure w e w' → shaken w w' ∧ is_host_error e = true).
  { intros e w' [??]. split; [by apply quiet_shaken|done]. }
  eapply wp_mono; [apply wp_allocate_guest; lia|..]; [|done].
  intros mem w1 [Hml Hq1]. mem_steps. apply wp_fill_block; [done|]. intros mem2 Hmem2. mem_steps.
  eapply wp_mono; [apply wp_protections_local|..]; cbv beta.
  2: { intros e w2 Hf. apply Hfail. by eapply host_failure_trans. }
  intros mem3 w2 [Hmem3 Hq2]. apply wp_insert_allocation.
  assert (Hq : quiet w w2) by (by transitivity w1). clear Hq1 Hq2 w1.
  pose proof (allocs_wf_quiet _ _ Hq Hwf) as Hwf2.
  assert (Hnone2 : gm_allocations (w_mem w2) !! sv_allocation_id s = None).
  { destruct Hq as [-> _]. by apply view_None. }
  destruct (put_allocation_spec w2 (sv_allocation_id s) (sv_guest_start s) mem3) as (Hwf3 & Ho3 & _);
    [done|done|by destruct Hq as [-> _]|lia|by rewrite Hmem3, Hmem2|by rewrite Hmem3, Hmem2|].
  assert (Hv3 := λ id, put_views w2 (sv_allocation_id s) (sv_guest_start s) mem3 Hwf2 id).
  rewrite Hmem3, Hmem2 in Hv3. change {| w_host := push_block _ _; w_mem := _ |}
    with (put_allocation w2 (sv_allocation_id s) (sv_guest_start s) mem3).
  set (w3 := put_allocation w2 (sv_allocation_id s) (sv_guest_start s) mem3) in *.
  assert (Hs3 : shaken w w3).
  { eapply shaken_trans; [by apply quiet_shaken|]. split; [done|done|done|done|simpl; lia]. }
  assert (Hother : ∀ id, id ≠ sv_allocation_id s → alloc_view w3 id = alloc_view w id).
  { intros id Hne. rewrite Hv3, bool_decide_eq_false_2 by done. by apply quiet_views. }
  eapply wp_mono; [apply IH; [done| |done]|..]; cbv beta.
  - rewrite Forall_forall in Hall |- *. intros t Ht. destruct (Hall t Ht) as (? & Htn & ?).
    split_and!; [|rewrite Hother; [done|]|tauto..].
    + pose proof (sk_next _ _ Hs3). lia.
    + intros Heq. apply Hnin. rewrite <- Heq. by apply list_elem_of_fmap_2.
  - intros [] w4 (Hs4 & Hin4 & Hout4). split_and!.
    + by eapply shaken_trans.
    + intros t [->|Ht]%elem_of_cons; [|auto]. rewrite Hout4 by done. rewrite Hv3. by rewrite bool_decide_eq_true_2.
    + intros id Hn. rewrite Hout4, Hother by set_solver. done.
  - intros e w4 [Hs4 He]. split; [by eapply shaken_trans|done].
Qed.
End place.

(** ** Merging the bytes of allocations *)
Definition overlay (gs : Z) (saved : list SavedAllocation) (bytes : list Z) : list Z :=
  foldl (λ b s, splice b (sv_guest_start s - gs) (sv_bytes s)) bytes saved.

Definition inside (gs len : Z) (s : SavedAllocation) : Prop :=
  gs ≤ sv_guest_start s ∧ sv_guest_start s + zlen (sv_bytes s) ≤ gs + len.

Definition apart (s t : SavedAllocation) : Prop :=
  sv_guest_start s + zlen (sv_bytes s) ≤ sv_guest_start t ∨
  sv_guest_start t + zlen (sv_bytes t) ≤ sv_guest_start s.

Lemma inside_splice gs s bytes :
  inside gs (zlen bytes) s → zlen (splice bytes (sv_guest_start s - gs) (sv_bytes s)) = zlen bytes.
Proof. intros [? ?]. unfold zlen at 1. rewrite length_splice; [done|lia..]. Qed.

Lemma overlay_length gs saved bytes :
  Forall (inside gs (zlen bytes)) saved → zlen (overlay gs saved bytes) = zlen bytes.
Proof.
  induction saved as [|s saved IH] in bytes |- *; simpl; [done|]. intros [Hin Hall]%Forall_cons.
  assert (Hl : zlen (splice bytes (sv_guest_start s - gs) (sv_bytes s)) = zlen bytes)
    by (by apply inside_splice).
  rewrite IH; rewrite Hl; done.
Qed.

Lemma overlay_other gs saved bytes a :
  Forall (inside gs (zlen bytes)) saved →
  (∀ s, s ∈ saved → a < sv_guest_start s ∨ sv_guest_start s + zlen (sv_bytes s) ≤ a) →
  byte_at (overlay gs saved bytes) (a - gs) = byte_at bytes (a - gs).
Proof.
  induction saved as [|s saved IH] in bytes |- *; simpl; [done|]. intros [Hins Hall]%Forall_cons Hout.
  assert (Hl : zlen (splice bytes (sv_guest_start s - gs) (sv_bytes s)) = zlen bytes)
    by (by apply inside_splice).
  rewrite IH; [|by rewrite Hl|intros; apply Hout; set_solver]. destruct Hins. rewrite splice_byte by lia.
  destruct (Hout s ltac:(set_solver)).
  - by rewrite (proj2 (Z.leb_gt _ _)) by lia.
  - pose proof (zlen_nonneg (sv_bytes s)). rewrite (proj2 (Z.leb_le _ _)), (proj2 (Z.ltb_ge _ _)) by lia. done.
Qed.

(** Disjoint pieces all survive the merge. *)
Lemma overlay_byte gs saved bytes s a :
  Forall (inside gs (zlen bytes)) saved → StronglySorted apart saved → s ∈ saved →
  sv_guest_start s ≤ a < sv_guest_start s + zlen (sv_bytes s) →
  byte_at (overlay gs saved bytes) (a - gs) = byte_at (sv_bytes s) (a - sv_guest_start s).
Proof.
  induction saved as [|t saved IH] in bytes |- *; simpl; [set_solver|].
  intros [Hins Hall]%Forall_cons Hs Hin Ha. inversion Hs as [|? ? Hs' Hap]; subst.
  assert (Hl : zlen (splice bytes (sv_guest_start t - gs) (sv_bytes t)) = zlen bytes)
    by (by apply inside_splice).
  apply elem_of_cons in Hin as [->|Hin].
  - rewrite overlay_other; [| |].
    + destruct Hins. rewrite splice_byte by lia. rewrite (proj2 (Z.leb_le _ _)), (proj2 (Z.ltb_lt _ _)) by lia. simpl.
      f_equal. lia.
    + by rewrite Hl.
    + intros u Hu. rewrite Forall_forall in Hap. destruct (Hap u Hu); lia.
  - apply IH; [by rewrite Hl|done|done|done].
Qed.

(** ** Replacing overlapping allocations by one *)

(** A failed placement: either nothing changed, or the host refused twice (or the
    identifiers ran out) and allocations may be missing. *)
Definition place_failure (w : World) (e : GuestMemoryError) (w' : World) : Prop :=
  resource_error e ∧ shaken w w' ∧
  ((∀ id, alloc_view w' id = alloc_view w id) ∨ is_host_error e = true ∨
   U64_MAX ≤ gm_next_allocation_id (w_mem w')).

Lemma quiet_place_failure w e w' :
  allocs_wf (w_host w) (w_mem w) → quiet_failure w e w' → place_failure w e w'.
Proof.
  intros Hwf [He Hq]. split_and!; [done|by apply quiet_shaken|]. left. intros id. by apply quiet_views.
Qed.

Lemma host_resource e : is_host_error e = true → resource_error e.
Proof. by destruct e. Qed.

Section replace_overlapping.
Context `{OS : HostOs} `{OL : !HostOsLaws OS}.

Lemma wp_or_else {A} (m : MemM A) (cleanup : MemM unit) (Q : A → World → Prop) R w :
  wp m Q (λ e, wp (do* cleanup; throw e) Q R) w → wp (or_else m cleanup) Q R w.
Proof. unfold wp, or_else. by destruct (m w) as [[a|e|] w']. Qed.

Lemma wp_copy_saved w mem gs saved (Q : HostMemory → World → Prop) R :
  0 ≤ gs → gs + zlen (hm_bytes mem) < 2 ^ 64 → Forall (inside gs (zlen (hm_bytes mem))) saved →
  (∀ mem', hm_bytes mem' = overlay gs saved (hm_bytes mem) → Q mem' w) →
  wp (copy_saved mem gs saved) Q R w.
Proof.
  induction saved as [|s saved IH] in mem |- *; simpl; intros Hgs Hend Hall HQ.
  { mem_steps. by apply HQ. }
  apply Forall_cons in Hall as [Hins Hall]. pose proof (inside_splice _ _ _ Hins) as Hl.
  destruct Hins. pose proof (zlen_nonneg (sv_bytes s)).
  mem_steps. rewrite wsub_exact by lia.
  apply wp_lift; [|intros e He|auto with mcr].
  2: { rewrite (proj2 (usize_try_from_Ok _ (sv_guest_start s - gs))) in He; [done|lia]. }
  intros off [-> _]%usize_try_from_Ok. unfold write_block, hm_len.
  rewrite (proj2 (Z.leb_le 0 _)), (proj2 (Z.leb_le (_ + _) _)) by lia. simpl. mem_steps.
  apply IH; simpl; rewrite ?Hl; done.
Qed.

Context (w : World) (gs ge : Z) (ids : list Z).
Context (Hwf : world_wf w) (Hgs : 0 ≤ gs < ge) (Hge : ge < 2 ^ 64) (Hnd : NoDup ids).
Context (Hin : ∀ id, id ∈ ids → ∃ g b, alloc_view w id = Some (g, b) ∧ gs ≤ g ∧ g + zlen b ≤ ge).
Context (Hout : allocs_disjoint w → ∀ id g b, id ∉ ids → alloc_view w id = Some (g, b) → ge ≤ g ∨ g + zlen b ≤ gs).

Lemma saved_ids saved : Forall2 (saved_as w) ids saved → sv_allocation_id <$> saved = ids.
Proof. clear. induction 1 as [|id s ids saved [<- _] _ IH]; [done|]. by rewrite fmap_cons, IH. Qed.

Lemma saved_elem saved s :
  Forall2 (saved_as w) ids saved → s ∈ saved →
  sv_allocation_id s ∈ ids ∧ alloc_view w (sv_allocation_id s) = Some (sv_guest_start s, sv_bytes s).
Proof.
  clear. intros Hall. induction Hall as [|id t ids saved [<- Hv] _ IH]; [set_solver|].
  intros [->|Hs]%elem_of_cons; [split; [set_solver|done]|]. destruct (IH Hs). split; [set_solver|done].
Qed.

Lemma saved_inside saved : Forall2 (saved_as w) ids saved → Forall (inside gs (ge - gs)) saved.
Proof.
  intros Hall. apply Forall_forall. intros s Hs. destruct (saved_elem _ _ Hall Hs) as [Hid Hv].
  destruct (Hin _ Hid) as (g & b & Hv' & ? & ?). simplify_eq. split; lia.
Qed.

Lemma saved_apart saved : allocs_disjoint w → Forall2 (saved_as w) ids saved → StronglySorted apart saved.
Proof.
  clear Hin Hout. intros Hd Hall. induction Hall as [|id s ids' saved [<- Hv] Hall IH]; constructor.
  - apply IH. by apply NoDup_cons in Hnd as [_ ?].
  - apply Forall_forall. intros t Ht. apply NoDup_cons in Hnd as [Hn _].
    assert (sv_allocation_id t ∈ ids' ∧ alloc_view w (sv_allocation_id t) = Some (sv_guest_start t, sv_bytes t)) as [Hit Hvt].
    { clear -Hall Ht. induction Hall as [|id t' ids' saved [<- Hv] _ IH]; [set_solver|].
      apply elem_of_cons in Ht as [->|Hs]; [split; [set_solver|done]|]. destruct (IH Hs). split; [set_solver|done]. }
    assert (Hne : sv_allocation_id s ≠ sv_allocation_id t) by (intros Heq; apply Hn; by rewrite Heq).
    destruct (Hd _ _ _ _ _ _ Hne Hv Hvt); [by left|by right].
Qed.

(** Putting the saved allocations back undoes their removal. *)
Lemma wp_undo {A} w2 saved e (Q : A → World → Prop) :
  Forall2 (saved_as w) ids saved → shaken w w2 →
  (∀ id, alloc_view w2 id = if bool_decide (id ∈ ids) then None else alloc_view w id) →
  is_host_error e = true →
  wp (do* restore_saved_allocations saved; throw e) Q (place_failure w) w2.
Proof.
  intros Hall Hs Hv He. pose proof (mem_wf_allocs _ _ Hwf) as Hawf. mem_steps.
  pose proof (saved_ids _ Hall) as Hids.
  eapply wp_mono; [apply wp_restore; [apply Hs| |by rewrite Hids]|..]; cbv beta.
  - apply Forall_forall. intros s Hsi. destruct (saved_elem _ _ Hall Hsi) as [Hid Hvs].
    destruct (view_bounds _ _ _ _ Hawf Hvs) as (? & ? & ?).
    pose proof (view_alloc _ _ _ _ Hvs) as (al & _ & Hal & _). pose proof (aw_ids _ _ Hawf _ _ Hal).
    pose proof (sk_next _ _ Hs). split_and!; [lia| |done..]. by rewrite Hv, bool_decide_eq_true_2.
  - intros [] w3 (Hs3 & Hback & Hothers). mem_steps. split_and!; [by apply host_resource|by eapply shaken_trans|].
    left. intros id. destruct (decide (id ∈ ids)) as [Hid|Hid].
    + rewrite <- Hids in Hid. apply list_elem_of_fmap in Hid as (s & -> & Hsi).
      rewrite (Hback _ Hsi). by destruct (saved_elem _ _ Hall Hsi) as [_ ->].
    + rewrite Hothers by (by rewrite Hids). by rewrite Hv, bool_decide_eq_false_2.
  - intros e' w3 [Hs3 He']. split_and!; [by apply host_resource|by eapply shaken_trans|auto].
Qed.

(** *** The areas after the merge *)
Section merged.
Context (w' : World) (nid : Z) (saved : list SavedAllocation) (base : list Z).
Context (Hall : Forall2 (saved_as w) ids saved) (Hbase : zlen base = ge - gs).
Context (Hsk : shaken w w').
Context (Hnew : gm_next_allocation_id (w_mem w) ≤ nid).
Context (Hviews : ∀ id, alloc_view w' id =
  if bool_decide (id = nid) then Some (gs, overlay gs saved base)
  else if bool_decide (id ∈ ids) then None else alloc_view w id).

Let w'' := with_vmas w' (retarget_vmas ids nid gs (gm_vmas (w_mem w'))).

Lemma nid_fresh : (nid ∉ ids) ∧ alloc_view w nid = None.
Proof.
  pose proof (mem_wf_allocs _ _ Hwf) as Hawf.
  assert (alloc_view w nid = None) as Hn.
  { destruct (alloc_view w nid) as [[g b]|] eqn:Hv; [|done].
    apply view_alloc in Hv as (al & _ & Hal & _). pose proof (aw_ids _ _ Hawf _ _ Hal). lia. }
  split; [|done]. intros Hi. destruct (Hin _ Hi) as (? & ? & ? & _). congruence.
Qed.

Lemma overlay_len : zlen (overlay gs saved base) = ge - gs.
Proof.
  rewrite overlay_length; [done|]. rewrite Hbase. by apply saved_inside.
Qed.

Lemma retarget_lookup k :
  gm_vmas (w_mem w'') !! k =
  (λ v, if bool_decide (v_allocation_id v ∈ ids)
        then vma_with_allocation nid (wsub (v_start v) gs) v else v) <$> gm_vmas (w_mem w) !! k.
Proof. unfold w'', retarget_vmas; simpl. rewrite (sk_vmas _ _ Hsk). apply lookup_fmap. Qed.

(** An area of a merged allocation lies in the merged range. *)
Lemma merged_area k v :
  gm_vmas (w_mem w) !! k = Some v → v_allocation_id v ∈ ids →
  gs ≤ v_start v ∧ v_end v ≤ ge ∧ wsub (v_start v) gs = v_start v - gs ∧
  ∃ g b, alloc_view w (v_allocation_id v) = Some (g, b) ∧ g + v_allocation_offset v = v_start v ∧
         v_end v ≤ g + zlen b ∧ gs ≤ g.
Proof.
  intros Hk Hid. destruct (world_vma _ _ _ Hwf Hk) as (al & b & n & Hal & _ & Hv & Hs & He & _).
  destruct (Hin _ Hid) as (g & b' & Hv' & ? & ?). rewrite Hv in Hv'. injection Hv' as <- <-.
  pose proof (vw_ok _ _ (mw_vmas _ _ Hwf) _ _ Hk) as [].
  split_and!; [lia|lia|apply wsub_exact; lia|]. eexists _, _. split_and!; [done|lia|lia|lia].
Qed.

Lemma retarget_reshaped : reshaped (gm_address_space_end (w_mem w)) (gm_vmas (w_mem w)) (gm_vmas (w_mem w'')).
Proof.
  split.
  - intros k [v Hk]. rewrite retarget_lookup in Hk. apply fmap_Some in Hk as (u & -> & _). eauto.
  - intros k v Hk. pose proof (vw_ok _ _ (mw_vmas _ _ Hwf) _ _ Hk) as [].
    rewrite retarget_lookup, Hk; simpl. eexists; split; [done|]. case_bool_decide as Hid; [|done].
    destruct (merged_area _ _ Hk Hid) as (? & ? & Hw & _). simpl. rewrite Hw. split_and!; [done|done|lia|lia].
Qed.

Lemma merged_wf : world_wf w''.
Proof.
  destruct (sk_allocs _ _ Hsk) as [Hh Hids Hal Hr]. split; [done| |done|done|done|].
  - simpl. destruct (sk_layout _ _ Hsk) as [-> _].
    eapply reshaped_wf; [apply (mw_vmas _ _ Hwf)|apply retarget_reshaped].
  - intros k v' Hk. rewrite retarget_lookup in Hk. apply fmap_Some in Hk as (v & Hk & ->).
    apply vma_backed_view. unfold w''. rewrite with_vmas_view.
    destruct (decide (v_allocation_id v ∈ ids)) as [Hid|Hid].
    + rewrite (bool_decide_eq_true_2 _ Hid). simpl. rewrite Hviews, bool_decide_eq_true_2 by done.
      destruct (merged_area _ _ Hk Hid) as (? & ? & Hw & _).
      exists gs, (overlay gs saved base). rewrite overlay_len, Hw. split_and!; [done|lia|lia].
    + rewrite (bool_decide_eq_false_2 _ Hid), Hviews.
      destruct (world_vma _ _ _ Hwf Hk) as (al & b & n & _ & _ & Hv & ? & ? & _).
      rewrite !bool_decide_eq_false_2; [eauto 10|done|].
      intros Heq. destruct nid_fresh. congruence.
Qed.

Lemma merged_cells : allocs_disjoint w → same_cells w w''.
Proof.
  intros Hd a. pose proof (mw_vmas _ _ Hwf) as Hvw.
  pose proof (reshaped_wf _ _ _ Hvw retarget_reshaped) as Hvw''.
  destruct (area_at (gm_vmas (w_mem w)) a) as [x|] eqn:Hx.
  2: { rewrite (cell_at_unmapped w) by done. apply cell_at_unmapped, (area_at_None Hvw''). intros k v Hk Ha.
       destruct (reshaped_inv _ _ _ _ _ retarget_reshaped Hk) as (u & Hu & ? & ? & _).
       apply (proj1 (area_at_None Hvw a) Hx _ _ Hu). lia. }
  rewrite (cell_at_area w a x Hx). apply (area_at_Some Hvw) in Hx as (v & Hk & Ha & ->).
  destruct (decide (v_allocation_id v ∈ ids)) as [Hid|Hid].
  - destruct (merged_area _ _ Hk Hid) as (? & ? & Hw & g & b & Hv & Hs & He & ?).
    rewrite (cell_at_area w'' a (area_of (vma_with_allocation nid (wsub (v_start v) gs) v) a)).
    2: { apply (area_at_intro Hvw'' (v_start v)); [|done].
         rewrite retarget_lookup, Hk; simpl. by rewrite bool_decide_eq_true_2. }
    unfold w''. rewrite with_vmas_view. simpl ar_allocation. rewrite Hviews, bool_decide_eq_true_2 by done.
    rewrite Hv. simpl. rewrite Hw. replace (v_start v - gs + (a - v_start v)) with (a - gs) by lia.
    assert (∃ s, s ∈ saved ∧ sv_allocation_id s = v_allocation_id v) as (s & Hs1 & Hs2).
    { rewrite <- (saved_ids _ Hall) in Hid. apply list_elem_of_fmap in Hid as (s & -> & ?). eauto. }
    destruct (saved_elem _ _ Hall Hs1) as [_ Hv']. rewrite Hs2, Hv in Hv'. injection Hv' as -> ->.
    pose proof (vo_offset _ _ (vw_ok _ _ Hvw _ _ Hk)).
    rewrite (overlay_byte gs saved base s a);
      [|rewrite Hbase; by apply saved_inside|by apply saved_apart|done|lia].
    replace (v_allocation_offset v + (a - v_start v)) with (a - sv_guest_start s) by lia. done.
  - rewrite (cell_at_area w'' a (area_of v a)).
    2: { apply (area_at_intro Hvw'' (v_start v)); [|done].
         rewrite retarget_lookup, Hk; simpl. by rewrite bool_decide_eq_false_2. }
    unfold w''. rewrite with_vmas_view. simpl ar_allocation. rewrite Hviews.
    rewrite !bool_decide_eq_false_2; [done|done|]. intros Heq.
    destruct (world_vma _ _ _ Hwf Hk) as (al & b & n & _ & _ & Hv & _).
    destruct nid_fresh as [_ Hn]. congruence.
Qed.

Lemma merged_disjoint : allocs_disjoint w → allocs_disjoint w''.
Proof.
  intros Hd id1 id2 g1 b1 g2 b2 Hne H1 H2. unfold w'' in H1, H2. rewrite with_vmas_view in H1, H2.
  rewrite Hviews in H1, H2. pose proof overlay_len as Hl.
  destruct (decide (id1 = nid)), (decide (id2 = nid)); [congruence|..].
  - rewrite bool_decide_eq_true_2 in H1 by done. injection H1 as <- <-.
    rewrite bool_decide_eq_false_2 in H2 by done. case_bool_decide; [done|].
    destruct (Hout Hd id2 g2 b2); [done|done|left; lia|right; lia].
  - rewrite bool_decide_eq_true_2 in H2 by done. injection H2 as <- <-.
    rewrite bool_decide_eq_false_2 in H1 by done. case_bool_decide; [done|].
    destruct (Hout Hd id1 g1 b1); [done|done|right; lia|left; lia].
  - rewrite bool_decide_eq_false_2 in H1 by done. rewrite bool_decide_eq_false_2 in H2 by done.
    do 2 (case_bool_decide; [done|]). exact (Hd _ _ _ _ _ _ Hne H1 H2).
Qed.
End merged.

(** What a placement promises its caller. *)
Record placed (w1 : World) (start len : Z) (r : Z * Z) (w2 : World) : Prop := {
  pl_contained : contained w1 w2;
  pl_reshaped : reshaped (gm_address_space_end (w_mem w1)) (gm_vmas (w_mem w1)) (gm_vmas (w_mem w2));
  pl_view : ∃ g bytes, alloc_view w2 r.1 = Some (g, bytes) ∧ 0 ≤ r.2 ∧ g + r.2 = start ∧
                       start + len ≤ g + zlen bytes;
  pl_cells : allocs_disjoint w1 → same_cells w1 w2 ∧ allocs_disjoint w2;
}.

Lemma shaken_views_None w1 w2 id :
  shaken w1 w2 → alloc_view w2 id = None → gm_allocations (w_mem w2) !! id = None.
Proof. intros Hs. apply view_None, Hs. Qed.

Lemma wp_replace start len :
  gs ≤ start → 0 < len → start + len ≤ ge → NoDup ids →
  wp (replace_overlapping_allocations start gs ge ids) (placed w start len) (place_failure w) w.
Proof.
  intros Hstart Hlen Hend _. pose proof (mem_wf_allocs _ _ Hwf) as Hawf.
  unfold replace_overlapping_allocations. mem_steps.
  eapply wp_mono; [apply wp_save_allocations; [done|]|..]; cbv beta.
  { intros id Hid. destruct (Hin _ Hid) as (? & ? & -> & _). eauto. }
  2: { intros e w1 Hf. by apply quiet_place_failure. }
  intros saved w1 [Hq1 Hall]. mem_steps. apply wp_lift; [|intros e He|].
  2: { apply quiet_place_failure; [done|]. split; [|done]. revert He. apply collect_Err.
       intros v e'. unfold usize_try_from. destruct (_ && _); simpl; [|by intros [= <-]].
       destruct (_ && _); simpl; [done|by intros [= <-]]. }
  2: { apply collect_no_panic. intros v. unfold usize_try_from.
       destruct (_ && _); simpl; [|done]. by destruct (_ && _). }
  intros ranges _. mem_steps.
  assert (Hs1 : shaken w w1) by (by apply quiet_shaken).
  eapply wp_mono; [apply wp_remove_allocations, Hs1|..]; [|done]. intros [] w2 [Hs2 Hv2]. mem_steps.
  assert (Hs : shaken w w2) by (by eapply shaken_trans).
  assert (Hv : ∀ id, alloc_view w2 id = if bool_decide (id ∈ ids) then None else alloc_view w id).
  { intros id. rewrite Hv2. case_bool_decide; [done|]. by apply quiet_views. }
  assert (checked_sub64 ge gs = Some (ge - gs)) as -> by (apply checked_sub64_Some; lia).
  apply wp_lift; [|done|done]. intros ? [= <-]. mem_steps.
  rewrite (proj2 (usize_try_from_Ok (ge - gs) (ge - gs))) by lia.
  apply wp_lift; [|done|done]. intros ? [= <-]. mem_steps. apply wp_or_else.
  eapply wp_mono; [apply wp_allocate_guest; lia|..]; cbv beta.
  2: { intros e w3 [He Hq3]. apply (wp_undo w3 saved e); [done| | |done].
       - eapply shaken_trans; [done|]. apply quiet_shaken; [apply Hs|done].
       - intros id. by rewrite (quiet_views _ _ _ Hq3). }
  intros mem w3 [Hml Hq3]. mem_steps.
  assert (Hs3 : shaken w w3) by (eapply shaken_trans; [done|]; apply quiet_shaken; [apply Hs|done]).
  apply wp_copy_saved; [lia|lia|rewrite Hml; by apply saved_inside|]. intros mem' Hmem'. mem_steps.
  apply wp_take_allocation_id.
  2: { intros Hmax. split_and!; [done|done|]. by do 2 right. }
  mem_steps. apply wp_insert_allocation.
  change {| w_host := push_block _ _; w_mem := _ |} with (add_allocation w3 gs mem').
  set (nid := gm_next_allocation_id (w_mem w3)).
  assert (Hml' : zlen (hm_bytes mem') = ge - gs).
  { rewrite Hmem', overlay_length; [done|rewrite Hml; by apply saved_inside]. }
  destruct (add_allocation_spec w3 gs mem' (sk_allocs _ _ Hs3)) as (Hwf4 & Ho4 & Hu4); [lia..|].
  assert (Hv4 : ∀ id, alloc_view (add_allocation w3 gs mem') id =
    if bool_decide (id = nid) then Some (gs, overlay gs saved (hm_bytes mem))
    else if bool_decide (id ∈ ids) then None else alloc_view w id).
  { intros id. rewrite add_views by apply Hs3. rewrite Hmem'. fold nid. case_bool_decide; [done|].
    by rewrite (quiet_views _ _ _ Hq3). }
  assert (Hnid : gm_next_allocation_id (w_mem w) ≤ nid) by apply Hs3.
  fold nid in Hu4. set (w4 := add_allocation w3 gs mem') in *.
  assert (Hs4 : shaken w w4).
  { eapply shaken_trans; [done|]. split; [done|done|done|done|]. unfold w4; simpl. lia. }
  clearbody w4. clear Ho4. destruct Hu4 as (al & bytes & Hal & Hc). mem_steps. rewrite Hal.
  apply wp_lift; [|done|done]. intros ? [= <-]. mem_steps. apply wp_or_else.
  eapply wp_mono; [by eapply wp_protections|..]; cbv beta.
  - intros [] w5 Hq5. mem_steps.
    assert (Hs5 : shaken w w5) by (eapply shaken_trans; [done|]; by apply quiet_shaken).
    assert (Hv5 : ∀ id, alloc_view w5 id =
      if bool_decide (id = nid) then Some (gs, overlay gs saved (hm_bytes mem))
      else if bool_decide (id ∈ ids) then None else alloc_view w id).
    { intros id. by rewrite (quiet_views _ _ _ Hq5). }
    change {| w_host := w_host w5; w_mem := set_vmas _ _ |}
      with (with_vmas w5 (retarget_vmas ids nid gs (gm_vmas (w_mem w5)))).
    split.
    + split; [by apply (merged_wf w5 nid saved (hm_bytes mem))| |apply Hs5].
      transitivity w5; [apply Hs5|apply with_vmas_others].
    + by apply retarget_reshaped.
    + exists gs, (overlay gs saved (hm_bytes mem)). rewrite with_vmas_view, Hv5, bool_decide_eq_true_2 by done.
      simpl. rewrite wsub_exact by lia. rewrite (overlay_len saved) by (done || lia). simpl; split_and!; [done|lia..].
    + intros Hd. split; [by apply (merged_cells w5 nid saved (hm_bytes mem))|].
      by apply (merged_disjoint w5 nid saved (hm_bytes mem)).
  - intros e w5 [He Hq5]. mem_steps.
    assert (Hs5 : shaken w w5) by (eapply shaken_trans; [done|]; by apply quiet_shaken).
    eapply wp_mono; [apply wp_remove_allocation, Hs5|..]; [|done]. intros [] w6 [Hs6 Hv6]. cbv beta.
    apply wp_bind_inv, (wp_undo w6 saved); [done|by eapply shaken_trans| |done].
    intros id. rewrite Hv6, (quiet_views _ _ _ Hq5), Hv4. case_bool_decide; [|done]. subst id.
    destruct (nid_fresh nid Hnid) as [Hni ->]. by rewrite bool_decide_eq_false_2.
Qed.
End replace_overlapping.

(** ** Finding or making an allocation for a range *)
Section host_range.
Context `{OS : HostOs} `{OL : !HostOsLaws OS}.

Lemma granularity_mask v :
  Z.land v (Z.lnot (os_granularity - 1)) = v - v mod os_granularity ∧ 0 < os_granularity.
Proof.
  destruct (os_granularity_cfg) as [-> | ->]; (split; [|lia]).
  - apply (land_lnot_ones v 12). lia.
  - apply (land_lnot_ones v 16). lia.
Qed.

Lemma host_allocation_range_Ok start len gs l :
  0 ≤ start → 0 < len → host_allocation_range start len = Ok (gs, l) →
  0 ≤ gs ≤ start ∧ start + len ≤ gs + l ∧ gs + l < 2 ^ 64 ∧ 0 < l.
Proof.
  intros Hs Hl. unfold host_allocation_range, align_down_to, align_up_to.
  destruct (checked_raw_range start len) as [e|e|] eqn:He; simpl; [|done|done].
  apply checked_raw_range_Ok in He as [-> Hlt]; [|lia].
  destruct (checked_add64 _ _) as [u|] eqn:Hu; simpl; [|done].
  apply checked_add64_Some in Hu as [-> Hu].
  destruct (granularity_mask start) as [-> Hg].
  destruct (granularity_mask (start + len + (os_granularity - 1))) as [-> _].
  intros [= <- <-]. pose proof (Z.mod_pos_bound start os_granularity Hg).
  pose proof (Z.mod_pos_bound (start + len + (os_granularity - 1)) os_granularity Hg).
  pose proof (Z.mod_le start os_granularity Hs Hg).
  rewrite wsub_exact by lia. lia.
Qed.

Lemma host_allocation_range_no_panic start len : host_allocation_range start len ≠ Panic.
Proof.
  unfold host_allocation_range, align_up_to. pose proof (checked_raw_range_no_panic start len).
  destruct (checked_raw_range start len); simpl; [|done|done]. by destruct (checked_add64 _ _).
Qed.

Lemma host_allocation_range_Err start len e : host_allocation_range start len = Err e → resource_error e.
Proof.
  unfold host_allocation_range, align_up_to, checked_raw_range. intros H.
  repeat (case_match; simpl in H; simplify_eq); done.
Qed.
End host_range.

Lemma guest_end_view w id al :
  allocs_wf (w_host w) (w_mem w) → gm_allocations (w_mem w) !! id = Some al →
  ∃ bytes, alloc_view w id = Some (a_guest_start al, bytes) ∧
    guest_end (hh_blocks (w_host w)) al = a_guest_start al + zlen bytes.
Proof.
  intros Hwf Hal. destruct (allocs_view _ _ _ Hwf Hal) as (bytes & n & Hc & Hv & ? & ? & ?).
  exists bytes. split; [done|]. apply contents_lookup in Hc as (k & Hk & Hb & _).
  unfold guest_end, saturating_add64, hm_len, U64_MAX. rewrite Hk. simpl. rewrite Hb. lia.
Qed.

(** The hull of the allocations that overlap a range. *)
Lemma foldl_min (l : list (Z * GuestAllocation)) s :
  let r := foldl (λ s p, Z.min s (a_guest_start p.2)) s l in
  r ≤ s ∧ (∀ p, p ∈ l → r ≤ a_guest_start p.2) ∧ (r = s ∨ ∃ p, p ∈ l ∧ r = a_guest_start p.2).
Proof.
  induction l as [|p l IH] in s |- *; simpl; [set_solver by lia|].
  destruct (IH (Z.min s (a_guest_start p.2))) as (H1 & H2 & H3). split_and!; [lia| |].
  - intros q [->|Hq]%elem_of_cons; [lia|auto].
  - destruct H3 as [H3|(q & ? & ?)]; [|right; exists q; set_solver].
    destruct (Z.min_spec s (a_guest_start p.2)) as [[_ Hm]|[_ Hm]]; rewrite Hm in H3 at 2;
      [by left|right; exists p; set_solver].
Qed.

Lemma foldl_max (f : GuestAllocation → Z) (l : list (Z * GuestAllocation)) s :
  let r := foldl (λ s p, Z.max s (f p.2)) s l in
  s ≤ r ∧ (∀ p, p ∈ l → f p.2 ≤ r) ∧ (r = s ∨ ∃ p, p ∈ l ∧ r = f p.2).
Proof.
  induction l as [|p l IH] in s |- *; simpl; [set_solver by lia|].
  destruct (IH (Z.max s (f p.2))) as (H1 & H2 & H3). split_and!; [lia| |].
  - intros q [->|Hq]%elem_of_cons; [lia|auto].
  - destruct H3 as [H3|(q & ? & ?)]; [|right; exists q; set_solver].
    destruct (Z.max_spec s (f p.2)) as [[_ Hm]|[_ Hm]]; rewrite Hm in H3 at 2;
      [right; exists p; set_solver|by left].
Qed.

Section ensure.
Context `{OS : HostOs} `{OL : !HostOsLaws OS}.
Context (w : World) (start len : Z).
Context (Hwf : world_wf w) (Hstart : 0 ≤ start) (Hlen : 0 < len).

Let blocks := hh_blocks (w_host w).

(** The allocations a range meets, and the hull of the range with them. *)
Section hull.
Context (gs0 ge0 : Z) (Hr : 0 ≤ gs0 < ge0) (Hge0 : ge0 < 2 ^ 64).

Let hit := filter (λ p : Z * GuestAllocation, overlaps_guest_range blocks p.2 gs0 ge0 = true)
             (bt_iter (gm_allocations (w_mem w))).
Let gs := foldl (λ s p, Z.min s (a_guest_start p.2)) gs0 hit.
Let ge := foldl (λ e p, Z.max e (guest_end blocks p.2)) ge0 hit.

Lemma hit_spec id al :
  (id, al) ∈ hit ↔ gm_allocations (w_mem w) !! id = Some al ∧
                   a_guest_start al < ge0 ∧ gs0 < guest_end blocks al.
Proof.
  unfold hit, overlaps_guest_range.
  rewrite list_elem_of_filter, elem_of_bt_iter, andb_true_iff, !Z.ltb_lt. simpl. tauto.
Qed.

Lemma hit_NoDup : NoDup hit.*1.
Proof.
  unfold hit. eapply sublist_NoDup; [apply (bt_iter_NoDup (gm_allocations (w_mem w)))|]. apply fmap_sublist. apply sublist_filter.
Qed.

Lemma hit_inside id :
  id ∈ hit.*1 → ∃ g b, alloc_view w id = Some (g, b) ∧ gs ≤ g ∧ g + zlen b ≤ ge.
Proof.
  intros ([id' al] & -> & Hin)%list_elem_of_fmap. pose proof Hin as (Hal & _)%hit_spec.
  destruct (guest_end_view _ _ _ (mem_wf_allocs _ _ Hwf) Hal) as (b & Hv & He). fold blocks in He.
  exists (a_guest_start al), b. split; [done|].
  destruct (foldl_min hit gs0) as (_ & Hmin & _). destruct (foldl_max (guest_end blocks) hit ge0) as (_ & Hmax & _).
  specialize (Hmin _ Hin). specialize (Hmax _ Hin). simpl in *. unfold gs, ge. lia.
Qed.

Lemma hull_bounds : 0 ≤ gs ≤ gs0 ∧ ge0 ≤ ge < 2 ^ 64.
Proof.
  destruct (foldl_min hit gs0) as (Hm1 & _ & Hm3). destruct (foldl_max (guest_end blocks) hit ge0) as (Hx1 & _ & Hx3).
  fold gs in Hm1, Hm3. fold ge in Hx1, Hx3. split.
  - destruct Hm3 as [?|([id al] & Hin & Hm)]; [lia|]. apply hit_spec in Hin as (Hal & _).
    destruct (allocs_view _ _ _ (mem_wf_allocs _ _ Hwf) Hal) as (? & ? & _ & _ & ? & _). simpl in *. lia.
  - destruct Hx3 as [?|([id al] & Hin & Hm)]; [lia|]. apply hit_spec in Hin as (Hal & _).
    destruct (guest_end_view _ _ _ (mem_wf_allocs _ _ Hwf) Hal) as (b & Hv & He).
    pose proof (view_bounds _ _ _ _ (mem_wf_allocs _ _ Hwf) Hv). fold blocks in He. simpl in *. lia.
Qed.

(** With disjoint allocations, the others stay clear of the hull. *)
Lemma hull_clear id g b :
  allocs_disjoint w → id ∉ hit.*1 → alloc_view w id = Some (g, b) → ge ≤ g ∨ g + zlen b ≤ gs.
Proof.
  intros Hd Hn Hv. pose proof (mem_wf_allocs _ _ Hwf) as Hawf.
  pose proof (view_bounds _ _ _ _ Hawf Hv) as (? & ? & ?).
  assert (Hmiss : ge0 ≤ g ∨ g + zlen b ≤ gs0).
  { pose proof (view_alloc _ _ _ _ Hv) as (al & _ & Hal & Hg & _).
    destruct (guest_end_view _ _ _ Hawf Hal) as (b' & Hv' & He). simplify_eq. fold blocks in He.
    destruct (Z_le_gt_dec ge0 (a_guest_start al)); [by left|].
    destruct (Z_le_gt_dec (a_guest_start al + zlen b) gs0); [by right|]. exfalso. apply Hn.
    apply list_elem_of_fmap. exists (id, al). split; [done|]. apply hit_spec. split_and!; [done|lia|lia]. }
  assert (Hapart : ∀ id' al', (id', al') ∈ hit →
    ∃ b' : list Z, guest_end blocks al' = a_guest_start al' + zlen b' ∧ 0 < zlen b' ∧
          a_guest_start al' < ge0 ∧ gs0 < guest_end blocks al' ∧
          (a_guest_start al' + zlen b' ≤ g ∨ g + zlen b ≤ a_guest_start al')).
  { intros id' al' Hin. pose proof Hin as (Hal' & ? & ?)%hit_spec.
    destruct (guest_end_view _ _ _ Hawf Hal') as (b' & Hv' & He'). fold blocks in He'.
    pose proof (view_bounds _ _ _ _ Hawf Hv') as (_ & ? & _). exists b'. split_and!; try done.
    assert (id' ≠ id) as Hne by (intros ->; apply Hn, list_elem_of_fmap; by exists (id, al')).
    exact (Hd _ _ _ _ _ _ Hne Hv' Hv). }
  destruct (foldl_min hit gs0) as (_ & _ & Hm3). destruct (foldl_max (guest_end blocks) hit ge0) as (_ & _ & Hx3).
  fold gs in Hm3. fold ge in Hx3. destruct Hmiss.
  - left. destruct Hx3 as [->|([id' al'] & Hin & ->)]; [done|].
    destruct (Hapart _ _ Hin) as (b' & He' & ? & ? & ? & [?|?]); simpl; rewrite He'; lia.
  - right. destruct Hm3 as [->|([id' al'] & Hin & ->)]; [done|].
    destruct (Hapart _ _ Hin) as (b' & He' & ? & ? & ? & [?|?]); simpl; lia.
Qed.
End hull.

Lemma find_allocation end_ p :
  find (λ p : Z * GuestAllocation, contains_guest_range blocks p.2 start end_)
    (bt_iter (gm_allocations (w_mem w))) = Some p →
  gm_allocations (w_mem w) !! p.1 = Some p.2 ∧ a_guest_start p.2 ≤ start ∧ end_ ≤ guest_end blocks p.2.
Proof.
  intros [Hin Hc]%find_some. apply list_elem_of_In in Hin. destruct p as [id al].
  apply elem_of_bt_iter in Hin. apply andb_true_iff in Hc as [??]. simpl in *. split; [done|]. bprop. lia.
Qed.

(** A new allocation that meets no other. *)
Lemma added_placed w1 w2 gs mem :
  quiet w w1 → 0 ≤ gs ≤ start → start + len ≤ gs + zlen (hm_bytes mem) → gs + zlen (hm_bytes mem) < 2 ^ 64 →
  (allocs_disjoint w → ∀ id g b, alloc_view w id = Some (g, b) →
     gs + zlen (hm_bytes mem) ≤ g ∨ g + zlen b ≤ gs) →
  w2 = add_allocation w1 gs mem →
  placed w start len (gm_next_allocation_id (w_mem w1), start - gs) w2.
Proof.
  intros Hq Hgs Hend Hmax Hclear ->. pose proof (mem_wf_allocs _ _ Hwf) as Hawf.
  pose proof (allocs_wf_quiet _ _ Hq Hawf) as Hawf1.
  destruct (add_allocation_spec w1 gs mem Hawf1) as (Hwf2 & Ho2 & _); [lia..|].
  assert (Hv2 := λ id, add_views w1 gs mem id Hawf1). set (w2 := add_allocation w1 gs mem) in *.
  assert (Hs2 : shaken w w2).
  { eapply shaken_trans; [by apply quiet_shaken|]. split; [done|done|done|done|]. unfold w2; simpl. lia. }
  set (nid := gm_next_allocation_id (w_mem w1)) in *.
  assert (Hnone : alloc_view w nid = None).
  { destruct (alloc_view w nid) as [[g b]|] eqn:Hv; [|done]. pose proof (view_alloc _ _ _ _ Hv) as (al & _ & Hal & _).
    pose proof (aw_ids _ _ Hawf _ _ Hal). unfold nid in *. destruct Hq as [Hm _]. rewrite Hm in *. lia. }
  assert (Hviews : ∀ id, alloc_view w2 id =
    if bool_decide (id = nid) then Some (gs, hm_bytes mem) else alloc_view w id).
  { intros id. rewrite Hv2. case_bool_decide; [done|]. by apply quiet_views. }
  assert (Hiv : invisible w w2).
  { apply shaken_invisible; [done|done|]. intros id p Hp. rewrite Hviews. case_bool_decide; congruence. }
  clearbody w2. split; simpl.
  - by apply invisible_contained.
  - rewrite (sk_vmas _ _ Hs2). apply reshaped_refl, (mw_vmas _ _ Hwf).
  - exists gs, (hm_bytes mem). rewrite Hviews, bool_decide_eq_true_2 by done. split_and!; [done|lia..].
  - intros Hd. split; [apply Hiv|]. intros id1 id2 g1 b1 g2 b2 Hne H1 H2. rewrite Hviews in H1, H2.
    case_bool_decide; case_bool_decide; [congruence|..].
    + injection H2 as <- <-. destruct (Hclear Hd _ _ _ H1); [by right|by left].
    + injection H1 as <- <-. destruct (Hclear Hd _ _ _ H2); [by left|by right].
    + exact (Hd _ _ _ _ _ _ Hne H1 H2).
Qed.

Lemma wp_ensure_host_allocation :
  wp (ensure_host_allocation start len) (placed w start len) (place_failure w) w.
Proof.
  pose proof (mem_wf_allocs _ _ Hwf) as Hawf. unfold ensure_host_allocation. wp_steps.
  assert (Hquiet : ∀ e, resource_error e → place_failure w e w).
  { intros e He. by apply quiet_place_failure. }
  apply wp_lift; [| |auto with mcr].
  2: { intros e He. apply Hquiet. revert He. unfold checked_raw_range. intros He.
       repeat (case_match; simpl in He; simplify_eq); done. }
  intros end_ [-> Hend]%checked_raw_range_Ok; [|lia]. mem_steps. fold blocks.
  destruct (find _ _) as [[id al]|] eqn:Hfind.
  { apply find_allocation in Hfind as (Hal & Hle & Hge). simpl in *. mem_steps.
    destruct (guest_end_view _ _ _ Hawf Hal) as (b & Hv & He). fold blocks in He.
    pose proof (view_bounds _ _ _ _ Hawf Hv). rewrite wsub_exact by lia. split; simpl.
    - by apply contained_refl.
    - apply reshaped_refl, (mw_vmas _ _ Hwf).
    - exists (a_guest_start al), b. split_and!; [done|lia..].
    - done. }
  clear Hfind. wp_step. apply wp_lift; [|intros e He; by apply Hquiet, (host_allocation_range_Err _ _ _ He)
    |apply host_allocation_range_no_panic].
  intros [gs0 l] Hrange. apply host_allocation_range_Ok in Hrange as (Hg & He & Hm & Hl); [|done|done].
  wp_step. apply wp_lift; [| |auto with mcr].
  2: { intros e Her. exfalso. assert (checked_raw_range gs0 l = Ok (gs0 + l)); [|congruence].
       apply checked_raw_range_Ok; [lia|]. done. }
  intros ge0 [-> _]%checked_raw_range_Ok; [|lia].
  set (hit := filter _ _). set (gs := foldl _ gs0 hit). set (ge := foldl _ (gs0 + l) hit).
  destruct (hull_bounds gs0 (gs0 + l)) as [Hgs Hge]; [lia|lia|]. fold hit in Hgs, Hge. fold gs in Hgs. fold ge in Hge.
  destruct hit as [|p0 l0] eqn:Hhit.
  - assert (gs = gs0 ∧ ge = gs0 + l) as [-> ->] by done.
    assert (checked_sub64 start gs0 = Some (start - gs0)) as -> by (apply checked_sub64_Some; lia).
    wp_step. apply wp_lift; [|done|done]. intros ? [= <-]. wp_step.
    assert (checked_sub64 (gs0 + l) gs0 = Some l) as -> by (apply checked_sub64_Some; lia).
    apply wp_lift; [|done|done]. intros ? [= <-]. wp_step.
    rewrite (proj2 (usize_try_from_Ok l l)) by lia. apply wp_lift; [|done|done]. intros ? [= <-]. mem_steps.
    eapply wp_mono; [apply wp_allocate_guest; lia|..]; cbv beta.
    2: { intros e w1 Hf. apply quiet_place_failure; [done|]. by apply host_quiet_failure. }
    intros mem w1 [Hml Hq1]. mem_steps. apply wp_take_allocation_id.
    2: { intros Hmax. split_and!; [done|by apply quiet_shaken|]. by do 2 right. }
    mem_steps. apply wp_insert_allocation. mem_steps.
    apply (added_placed w1 _ gs0 mem); [done|lia|lia|lia| |done].
    intros Hd id g b Hv. rewrite Hml.
    assert (Hc : id ∉ hit.*1) by (rewrite Hhit; set_solver).
    pose proof (hull_clear gs0 (gs0 + l) ltac:(lia) id g b Hd Hc Hv) as Hcl.
    fold hit in Hcl. by rewrite Hhit in Hcl.
  - unfold gs, ge in *. clear gs ge. rewrite <- Hhit in Hgs, Hge |- *.
    apply wp_replace; [done|lia|lia|apply hit_NoDup| | |lia|done|lia|apply hit_NoDup].
    + intros id Hid. exact (hit_inside gs0 (gs0 + l) ltac:(lia) id Hid).
    + intros Hd id g b Hn Hv. apply (hull_clear gs0 (gs0 + l) ltac:(lia) id g b Hd Hn Hv).
Qed.
End ensure.

(** ** Guest memory: mmap

    New mappings.  [mmap] returns the start of a range that now reads as zeros with the
    requested protection; outside the range nothing changes as long as the allocations
    of the memory are disjoint, which [mmap] preserves. *)

(** ** Writes that compose with invisible steps *)
Lemma reblocked_written w w1 w2 id off bytes :
  reblocked w w1 → written w1 w2 id off bytes → written w w2 id off bytes.
Proof.
  intros [Hiv Hvm Hn Hv] [Hwf Ho Hvm' Hn' Hl Hv']. split; [done| |congruence|congruence| |].
  - transitivity w1; [apply Hiv|done].
  - transitivity (w_mem w1); [apply Hiv|done].
  - intros id2. rewrite Hv', !Hv. done.
Qed.

Lemma written_quiet w w1 w2 id off bytes :
  written w w1 id off bytes → quiet w1 w2 → written w w2 id off bytes.
Proof.
  intros Hw Hq. pose proof (quiet_invisible _ _ (wr_wf _ _ _ _ _ Hw) Hq) as Hiv.
  destruct Hw as [Hwf Ho Hvm Hn Hl Hv]. pose proof (proj1 Hq) as Hm. split; [apply Hiv| |congruence|congruence| |].
  - transitivity w1; [done|apply Hiv].
  - by rewrite Hm.
  - intros id2. rewrite (quiet_views _ _ _ Hq). apply Hv.
Qed.

Lemma written_contained w w' id off bytes : written w w' id off bytes → contained w w'.
Proof. by intros []. Qed.

(** Writing bytes no area maps changes no cell. *)
Lemma written_unmapped w w' id off bytes g old :
  world_wf w → written w w' id off bytes → alloc_view w id = Some (g, old) →
  0 ≤ off → off + zlen bytes ≤ zlen old →
  (∀ a, g + off ≤ a < g + off + zlen bytes → area_at (gm_vmas (w_mem w)) a = None) → same_cells w w'.
Proof.
  intros Hwf Hw Hv Hoff Hlen Hfree a. pose proof (mw_vmas _ _ Hwf) as Hvw.
  destruct (area_at (gm_vmas (w_mem w)) a) as [x|] eqn:Hx.
  2: { rewrite (cell_at_unmapped w) by done. apply cell_at_unmapped. by rewrite (wr_vmas _ _ _ _ _ Hw). }
  rewrite (cell_at_area w a x Hx), (cell_at_area w' a x) by (by rewrite (wr_vmas _ _ _ _ _ Hw)).
  rewrite (wr_views _ _ _ _ _ Hw). case_bool_decide as Hid; [|done]. rewrite Hid, Hv. simpl.
  pose proof Hx as (v & Hk & Ha & ->)%(area_at_Some Hvw). simpl in *.
  destruct (world_vma _ _ _ Hwf Hk) as (al & b & n & _ & _ & Hv' & Hs & _). rewrite Hid, Hv in Hv'. simplify_eq.
  rewrite splice_byte by lia.
  destruct (decide (a_guest_start al + off ≤ a < a_guest_start al + off + zlen bytes)) as [Hin|Hno].
  - by rewrite Hfree in Hx.
  - destruct (Z.leb_spec off (v_allocation_offset v + (a - v_start v))),
      (Z.ltb_spec (v_allocation_offset v + (a - v_start v)) (off + zlen bytes)); simpl; try done. lia.
Qed.

Definition zeros (len : Z) : list Z := replicate (Z.to_nat len) 0.

Lemma zlen_zeros len : 0 ≤ len → zlen (zeros len) = len.
Proof. intros. unfold zlen, zeros. rewrite length_replicate. lia. Qed.

Lemma zeros_byte len i : 0 ≤ i < len → byte_at (zeros len) i = Some 0.
Proof.
  intros. unfold byte_at, zeros. rewrite (proj2 (Z.ltb_ge _ _)) by lia. apply lookup_replicate_2. lia.
Qed.

Section mmap.
Context `{OS : HostOs} `{OL : !HostOsLaws OS}.

Lemma wp_zero w id off len g old :
  world_wf w → alloc_view w id = Some (g, old) → 0 ≤ off → 0 ≤ len → off + len ≤ zlen old →
  wp (zero_allocation_range id off len)
     (λ _ w', written w w' id off (zeros len))
     (λ e w', resource_error e ∧ (reblocked w w' ∨ written w w' id off (zeros len))) w.
Proof.
  intros Hwf Hv Hoff Hlen Hle. pose proof (mem_wf_allocs _ _ Hwf) as Hawf.
  pose proof (view_bounds _ _ _ _ Hawf Hv) as (? & ? & ?).
  assert (Hfail : ∀ w1 e w2, reblocked w w1 → quiet_failure w1 e w2 →
    resource_error e ∧ (reblocked w w2 ∨ written w w2 id off (zeros len))).
  { intros w1 e w2 Hr [He Hq]. split; [done|]. left. eapply reblocked_trans; [done|].
    apply quiet_reblocked; [apply Hr|done]. }
  unfold zero_allocation_range. mem_steps.
  rewrite (proj2 (usize_try_from_Ok off off)) by lia. apply wp_lift; [|done|done]. intros ? [= <-]. wp_step.
  rewrite (proj2 (checked_add64_Some off len (off + len))) by lia.
  apply wp_lift; [|done|done]. intros _ _. mem_steps.
  apply wp_lift; [| |auto with mcr].
  2: { intros e He%allocation_protection_ranges_Err. split; [done|]. left. by apply quiet_reblocked. }
  intros ranges _. wp_step. pose proof (view_alloc _ _ _ _ Hv) as (al0 & n0 & Hal0 & _).
  eapply wp_mono; [by eapply wp_ensure_allocation_unique|..]; cbv beta.
  2: { intros e w1 Hf. eapply Hfail; [|done]. by apply quiet_reblocked. }
  intros [] w1 [Hr1 (al & bytes & Hal & Hc)]. mem_steps. rewrite Hal.
  apply wp_lift; [|done|done]. intros ? [= <-]. mem_steps.
  pose proof (iv_wf _ _ (rb_invisible _ _ Hr1)) as Hwf1.
  eapply wp_mono; [by eapply wp_arc_protect|..]; cbv beta.
  2: { intros e h2 Heq. eapply Hfail; [done|]. split; [done|]. by split. }
  intros [] h2 Heq. wp_step.
  assert (Hq2 : quiet w1 {| w_host := h2; w_mem := w_mem w1 |}) by (by split).
  set (w2 := {| w_host := h2; w_mem := w_mem w1 |}) in *. clearbody w2.
  assert (Hr2 : reblocked w w2).
  { eapply reblocked_trans; [done|]. by apply quiet_reblocked. }
  pose proof (iv_wf _ _ (rb_invisible _ _ Hr2)) as Hwf2.
  assert (Hv2 : alloc_view w2 id = Some (g, old)) by (by rewrite (rb_views _ _ Hr2)).
  fold (zeros len). pose proof (zlen_zeros len Hlen) as Hzl.
  eapply wp_mono; [eapply wp_write_allocation; [done|done|lia|lia]|..]; cbv beta.
  2: { intros e w3 Hf. by eapply Hfail. }
  intros [] w3 [Hw3 (al3 & b3 & Hal3 & Hc3)]. mem_steps. rewrite Hal3.
  apply wp_lift; [|done|done]. intros ? [= <-]. 
  pose proof (reblocked_written _ _ _ _ _ _ Hr2 Hw3) as Hw.
  eapply wp_mono; [by eapply wp_protections|..]; cbv beta.
  - intros [] w4 Hq. by eapply written_quiet.
  - intros e w4 [He Hq]. split; [by apply host_resource|]. right. by eapply written_quiet.
Qed.

(** A failed mapping: the guest sees no change, or the host refused and allocations
    may be missing. *)
Definition map_failure (w : World) (e : GuestMemoryError) (w' : World) : Prop :=
  resource_error e ∧
  (contained w w' ∧ (allocs_disjoint w → same_cells w w' ∧ allocs_disjoint w') ∨
   shaken w w' ∧ (is_host_error e = true ∨ U64_MAX ≤ gm_next_allocation_id (w_mem w'))).

(** The new range reads as [content]; it was free; nothing else changed. *)
Record mapped_as (w w' : World) (s e : Z) (p : GuestMemoryProtection) (kind : GuestVmaKind) (content : Z → Z) : Prop := {
  mp_contained : contained w w';
  mp_free : ∀ a, s ≤ a < e → cell_at w a = None;
  mp_new : ∀ a, s ≤ a < e →
    cell_at w' a = Some {| c_protection := p; c_kind := kind; c_byte := content a |};
  mp_other : allocs_disjoint w →
    (∀ a, ¬ s ≤ a < e → cell_at w' a = cell_at w a) ∧ allocs_disjoint w';
}.

(** A mapping that reads as zeros. *)
Definition mapped (w w' : World) (s e : Z) (p : GuestMemoryProtection) (kind : GuestVmaKind) : Prop :=
  mapped_as w w' s e p kind (λ _, 0).

Lemma disjoint_views w w' :
  (∀ id p, alloc_view w' id = Some p → ∃ p', alloc_view w id = Some p' ∧ p'.1 = p.1 ∧ zlen p'.2 = zlen p.2) →
  allocs_disjoint w → allocs_disjoint w'.
Proof.
  intros Hv Hd id1 id2 g1 b1 g2 b2 Hne H1 H2.
  destruct (Hv _ _ H1) as ([g1' b1'] & H1' & Hg1 & Hl1), (Hv _ _ H2) as ([g2' b2'] & H2' & Hg2 & Hl2).
  simpl in *. subst. rewrite <- Hl1, <- Hl2. exact (Hd _ _ _ _ _ _ Hne H1' H2').
Qed.

Lemma written_disjoint w w' id off bytes g old :
  written w w' id off bytes → alloc_view w id = Some (g, old) → 0 ≤ off → off + zlen bytes ≤ zlen old →
  allocs_disjoint w → allocs_disjoint w'.
Proof.
  intros Hw Hv Hoff Hlen. apply disjoint_views. intros id2 p. rewrite (wr_views _ _ _ _ _ Hw).
  case_bool_decide as Hid; [|eauto]. subst. rewrite Hv. simpl. intros [= <-]. exists (g, old).
  split_and!; [done|done|]. simpl. unfold zlen at 2. by rewrite length_splice.
Qed.

Lemma map_failure_quiet w e : world_wf w → resource_error e → map_failure w e w.
Proof. intros Hwf He. split; [done|]. left. split; [by apply contained_refl|done]. Qed.

Lemma placed_failure w e w' : world_wf w → place_failure w e w' → map_failure w e w'.
Proof.
  intros Hwf (He & Hs & H). split; [done|]. destruct H as [Hv|H]; [left|by right].
  assert (Hiv : invisible w w') by (apply shaken_invisible; [done|done|]; intros id p; by rewrite Hv).
  split; [by apply invisible_contained|]. intros Hd. split; [apply Hiv|].
  revert Hd. apply disjoint_views. intros id p. rewrite Hv. eauto.
Qed.

(** After a placement, a step that only touches unmapped bytes of it. *)
Lemma after_placed w w1 w2 start len r e :
  placed w start len r w1 → resource_error e → contained w1 w2 →
  (same_cells w1 w2) → (allocs_disjoint w1 → allocs_disjoint w2) → map_failure w e w2.
Proof.
  intros [Hct _ _ Hcells] He Hct2 Hsame Hdis. split; [done|]. left. split; [by eapply contained_trans|].
  intros Hd. destruct (Hcells Hd) as [Hs Hd1]. split; [by transitivity w1|auto].
Qed.

(** The range that [overlaps] found free stays free in a reshaped map. *)
Lemma free_reshaped w w1 s e :
  world_wf w → world_wf w1 → s < e →
  reshaped (gm_address_space_end (w_mem w)) (gm_vmas (w_mem w)) (gm_vmas (w_mem w1)) →
  overlaps (w_mem w) s e = false →
  (∀ k v, gm_vmas (w_mem w1) !! k = Some v → v_end v ≤ s ∨ e ≤ v_start v) ∧
  (∀ a, s ≤ a < e → area_at (gm_vmas (w_mem w1)) a = None) ∧ (∀ a, s ≤ a < e → cell_at w a = None).
Proof.
  intros Hwf Hwf1 Hse Hrs Hov. rewrite (overlaps_false _ _ _ _ (mw_vmas _ _ Hwf) Hse) in Hov. split_and!.
  - intros k v Hk. destruct (reshaped_inv _ _ _ _ _ Hrs Hk) as (u & Hu & -> & -> & _). by eapply Hov.
  - intros a Ha. apply (area_at_None (mw_vmas _ _ Hwf1)). intros k v Hk Hin.
    destruct (reshaped_inv _ _ _ _ _ Hrs Hk) as (u & Hu & Hs & He & _). destruct (Hov _ _ Hu); lia.
  - intros a Ha. apply cell_at_unmapped, (area_at_None (mw_vmas _ _ Hwf)). intros k v Hk Hin.
    destruct (Hov _ _ Hk); lia.
Qed.

(** Adding the area of a fresh mapping. *)
Lemma insert_mapped w w1 w3 s e p kind id off g bytes content :
  world_wf w → aligned s → aligned e → MIN_GUEST_ADDRESS ≤ s < e → e ≤ gm_address_space_end (w_mem w) →
  contained w w1 → world_wf w3 → respects_others w1 w3 → same_layout (w_mem w1) (w_mem w3) →
  gm_vmas (w_mem w3) = gm_vmas (w_mem w1) → same_cells w1 w3 →
  (allocs_disjoint w → same_cells w w1 ∧ allocs_disjoint w3) →
  alloc_view w3 id = Some (g, bytes) → g + off = s → e ≤ g + zlen bytes → 0 ≤ g → 0 ≤ off →
  (∀ a, s ≤ a < e → byte_at bytes (a - g) = Some (content a)) →
  (∀ k v, gm_vmas (w_mem w1) !! k = Some v → v_end v ≤ s ∨ e ≤ v_start v) →
  (∀ a, s ≤ a < e → cell_at w a = None) →
  mapped_as w (with_vmas w3 (<[s := {| v_start := s; v_end := e; v_protection := p; v_kind := kind;
                                       v_allocation_id := id; v_allocation_offset := off |}]>
                              (gm_vmas (w_mem w3)))) s e p kind content.
Proof.
  intros Hwf Hs He Hse Hsp Hct Hwf3 Ho Hl Hvm Hsame Hdis Hv Hgs Hge Hg Hoff Hzero Hdj Hfree.
  set (v := {| v_start := s; v_end := e; v_protection := p; v_kind := kind;
               v_allocation_id := id; v_allocation_offset := off |}).
  assert (Hok : vma_ok (gm_address_space_end (w_mem w3)) v).
  { destruct Hl as [-> _]. destruct (ct_layout _ _ Hct) as [-> _]. split; simpl; (done || lia). }
  pose proof (mw_vmas _ _ Hwf3) as Hvw3. rewrite <- Hvm in Hdj.
  pose proof (vmas_wf_insert _ _ v Hvw3 Hok Hdj) as Hvw4.
  assert (Hareas := insert_areas _ _ v Hvw3 Hok Hdj). change (v_start v) with s in Hvw4, Hareas.
  set (w4 := with_vmas w3 (<[s := v]> (gm_vmas (w_mem w3)))).
  assert (Hwf4 : world_wf w4).
  { destruct Hwf3 as [? ? ? ? ? Hb]. split; [done|done|done|done|done|].
    intros k u Hk. unfold w4 in Hk; simpl in Hk.
    apply lookup_insert_Some in Hk as [[_ <-]|[_ Hk]]; [|by eapply Hb].
    apply (vma_backed_view w4). exists g, bytes. split_and!; [done|done|done]. }
  split.
  - split; [done| |].
    + transitivity w1; [apply Hct|]. transitivity w3; [done|apply with_vmas_others].
    + transitivity (w_mem w1); [apply Hct|done].
  - done.
  - intros a Ha. rewrite (cell_at_area w4 a (area_of v a)).
    2: { unfold w4; simpl. rewrite (Hareas a). by rewrite (proj2 (vma_contains_spec v a)). }
    unfold w4. rewrite with_vmas_view. simpl. rewrite Hv. simpl.
    replace (off + (a - s)) with (a - g) by lia. by rewrite Hzero.
  - intros Hd. destruct (Hdis Hd) as [Hsc Hd3]. split; [|done]. intros a Ha.
    rewrite <- Hsc, <- Hsame. apply cell_ext; [|done]. unfold w4; simpl. rewrite (Hareas a).
    destruct (vma_contains v a) eqn:Hc; [|done]. by apply vma_contains_spec in Hc.
Qed.

Lemma aligned_add a b : aligned a → aligned b → aligned (a + b).
Proof. rewrite !aligned_mult. intros [x ->] [y ->]. exists (x + y). lia. Qed.

Lemma checked_mapping_end_Err s l e err : checked_mapping_end s l e = Err err → resource_error err.
Proof.
  unfold checked_mapping_end, checked_raw_range. intros H.
  repeat (case_match; simpl in H; simplify_eq); done.
Qed.

(** Writing the placed range, which no area maps yet, changes no cell. *)
Lemma placed_written w w1 w2 start len id off new :
  world_wf w → 0 < len → overlaps (w_mem w) start (start + len) = false →
  placed w start len (id, off) w1 → written w1 w2 id off new → zlen new = len →
  same_cells w1 w2 ∧ (allocs_disjoint w1 → allocs_disjoint w2).
Proof.
  intros Hwf Hlen Hov Hpl Hw Hnew. pose proof (ct_wf _ _ (pl_contained _ _ _ _ _ Hpl)) as Hwf1.
  destruct (pl_view _ _ _ _ _ Hpl) as (g & bytes & Hv & Hoff & Hgs & Hge). simpl in Hv, Hoff, Hgs.
  destruct (free_reshaped w w1 start (start + len)) as (_ & Hunm & _); [done|done|lia|apply Hpl|done|].
  split.
  - eapply written_unmapped; [done|done|done|lia|lia|]. intros a Ha. apply Hunm. lia.
  - eapply written_disjoint; [done|done|lia|lia].
Qed.

Lemma placed_reblocked_failure w w1 w2 start len r e :
  placed w start len r w1 → resource_error e → reblocked w1 w2 → map_failure w e w2.
Proof.
  intros Hpl He Hr. eapply after_placed; [done|done|..].
  - apply invisible_contained, Hr.
  - apply Hr.
  - apply disjoint_views. intros id2 q. rewrite (rb_views _ _ Hr). eauto.
Qed.

Lemma placed_written_failure w w1 w2 start len id off new e :
  world_wf w → 0 < len → overlaps (w_mem w) start (start + len) = false →
  placed w start len (id, off) w1 → resource_error e → written w1 w2 id off new → zlen new = len →
  map_failure w e w2.
Proof.
  intros Hwf Hlen Hov Hpl He Hw Hnew. destruct (placed_written w w1 w2 start len id off new) as [Hs Hd]; [done..|].
  eapply after_placed; [done|done|by eapply written_contained|done|done].
Qed.

(** The end of a mapping: its range of the allocation holds [new], then the area is added. *)
Lemma wp_finish_mapping w w1 w2 start len p kind id off new content :
  world_wf w → 0 < len → aligned len → aligned start → MIN_GUEST_ADDRESS ≤ start →
  start + len ≤ gm_address_space_end (w_mem w) → overlaps (w_mem w) start (start + len) = false →
  placed w start len (id, off) w1 → written w1 w2 id off new → zlen new = len →
  (∀ a, start ≤ a < start + len → byte_at new (a - start) = Some (content a)) →
  wp (let* found := get_allocation id in
      let* allocation := lift (expect found) in
      do* host_op (arc_protect_range (a_memory allocation) off len (to_host p));
      insert_vma {| v_start := start; v_end := start + len; v_protection := p; v_kind := kind;
                    v_allocation_id := id; v_allocation_offset := off |})
     (λ _ w', mapped_as w w' start (start + len) p kind content) (map_failure w) w2.
Proof.
  intros Hwf Hlen Hal Has Hmin Hsp Hov Hpl Hw Hnew Hcontent.
  unfold MIN_GUEST_ADDRESS, GUEST_PAGE_SIZE in *.
  pose proof (ct_wf _ _ (pl_contained _ _ _ _ _ Hpl)) as Hwf1.
  destruct (pl_view _ _ _ _ _ Hpl) as (g & bytes & Hv & Hoff & Hgs & Hge). simpl in Hv, Hoff, Hgs.
  pose proof (view_bounds _ _ _ _ (mem_wf_allocs _ _ Hwf1) Hv) as (Hg & ? & ?).
  destruct (free_reshaped w w1 start (start + len)) as (Hdj & Hunm & Hfree);
    [done|done|lia|apply Hpl|done|].
  pose proof (wr_views _ _ _ _ _ Hw id) as Hv2.
  rewrite bool_decide_eq_true_2, Hv in Hv2 by done. simpl in Hv2.
  pose proof (view_alloc _ _ _ _ Hv2) as (al & n & Hal2 & _ & Hc2). mem_steps. rewrite Hal2.
  apply wp_lift; [|done|done]. intros ? [= <-]. mem_steps.
  eapply wp_mono; [by eapply wp_arc_protect_range|..]; cbv beta.
  2: { intros e h3 Heq. pose proof (written_quiet _ _ {| w_host := h3; w_mem := w_mem w2 |} _ _ _ Hw
         ltac:(by split)) as Hw3. eapply placed_written_failure; [exact Hwf|exact Hlen|exact Hov|exact Hpl|done|exact Hw3|exact Hnew]. }
  intros [] h3 Heq. unfold insert_vma. mem_steps.
  pose proof (written_quiet _ _ {| w_host := h3; w_mem := w_mem w2 |} _ _ _ Hw ltac:(by split)) as Hw3.
  destruct (placed_written w w1 _ start len id off new Hwf Hlen Hov Hpl Hw3 Hnew) as [Hsame3 Hd3].
  apply (insert_mapped w w1 {| w_host := h3; w_mem := w_mem w2 |} _ _ p kind id off g (splice bytes off new));
    try apply Hw3; try done; try lia;
    [by apply aligned_add|simpl; unfold MIN_GUEST_ADDRESS, GUEST_PAGE_SIZE; lia|apply Hpl| | | |].
  - intros Hd. destruct (pl_cells _ _ _ _ _ Hpl Hd) as [? ?]. split; [done|by apply Hd3].
  - rewrite (wr_views _ _ _ _ _ Hw3), bool_decide_eq_true_2, Hv by done. done.
  - unfold zlen at 1. rewrite length_splice; [done|lia|lia].
  - intros a Ha. simpl in Ha. rewrite splice_byte by lia.
    rewrite (proj2 (Z.leb_le _ _)), (proj2 (Z.ltb_lt _ _)) by lia. simpl.
    replace (a - g - off) with (a - start) by lia. by apply Hcontent.
Qed.

Lemma wp_insert_mapping w start len p kind :
  world_wf w → 0 < len → aligned len →
  wp (insert_mapping start len p kind)
     (λ _ w', mapped w w' start (start + len) p kind ∧
        aligned start ∧ MIN_GUEST_ADDRESS ≤ start ∧ start + len ≤ gm_address_space_end (w_mem w))
     (map_failure w) w.
Proof.
  intros Hwf Hlen Hal. unfold insert_mapping. mem_steps. apply wp_lift; [| |auto with mcr].
  2: { intros e He%checked_mapping_end_Err. by apply map_failure_quiet. }
  intros e (-> & Hmin & Has & Hsp & Hlt)%checked_mapping_end_Ok; [|lia].
  destruct (overlaps (w_mem w) start (start + len)) eqn:Hov; mem_steps; [by apply map_failure_quiet|].
  unfold MIN_GUEST_ADDRESS, GUEST_PAGE_SIZE in *.
  eapply wp_mono; [apply wp_ensure_host_allocation; [done|lia|lia]|..]; cbv beta.
  2: { intros e w1 Hf. by apply placed_failure. }
  intros [id off] w1 Hpl. pose proof (ct_wf _ _ (pl_contained _ _ _ _ _ Hpl)) as Hwf1.
  destruct (pl_view _ _ _ _ _ Hpl) as (g & bytes & Hv & Hoff & Hgs & Hge). simpl in Hv, Hoff, Hgs.
  pose proof (view_bounds _ _ _ _ (mem_wf_allocs _ _ Hwf1) Hv) as (Hg & ? & ?).
  wp_step. rewrite (proj2 (usize_try_from_Ok off off)) by lia. apply wp_lift; [|done|done]. intros ? [= <-].
  wp_step. rewrite (proj2 (usize_try_from_Ok len len)) by lia. apply wp_lift; [|done|done]. intros ? [= <-].
  wp_step. pose proof (zlen_zeros len ltac:(lia)) as Hzl.
  eapply wp_mono; [eapply wp_zero; [done|done|lia|lia|lia]|..]; cbv beta.
  2: { intros e w2 [He [Hr|Hw]]; [exact (placed_reblocked_failure _ _ _ _ _ _ _ Hpl He Hr)|exact (placed_written_failure _ _ _ _ _ _ _ _ _ Hwf Hlen Hov Hpl He Hw Hzl)]. }
  intros [] w2 Hw. eapply wp_mono; [eapply (wp_finish_mapping w w1 w2 start len p kind id off); try done; try lia|..]; cbv beta.
  - intros a Ha. apply (zeros_byte len (a - start)). lia.
  - intros [] w3 Hm. split_and!; [done|done|lia|lia].
  - done.
Qed.

(** The area of a loaded program: its bytes are those of the region. *)
Lemma wp_insert_loaded_mapping w start len p bytes content :
  world_wf w → 0 < len → aligned len →
  (∀ a, start ≤ a < start + len → zlen bytes = len → byte_at bytes (a - start) = Some (content a)) →
  wp (insert_loaded_mapping start len p bytes)
     (λ _ w', mapped_as w w' start (start + len) p Anonymous content ∧
        aligned start ∧ MIN_GUEST_ADDRESS ≤ start ∧ start + len ≤ gm_address_space_end (w_mem w) ∧ zlen bytes = len)
     (map_failure w) w.
Proof.
  intros Hwf Hlen Hal Hcontent. unfold insert_loaded_mapping. mem_steps. apply wp_lift; [| |auto with mcr].
  2: { intros e He%checked_mapping_end_Err. by apply map_failure_quiet. }
  intros e (-> & Hmin & Has & Hsp & Hlt)%checked_mapping_end_Ok; [|lia].
  destruct (overlaps (w_mem w) start (start + len)) eqn:Hov; mem_steps; [by apply map_failure_quiet|].
  unfold MIN_GUEST_ADDRESS, GUEST_PAGE_SIZE in *.
  rewrite (proj2 (usize_try_from_Ok len len)) by lia. apply wp_lift; [|done|done]. intros ? [= <-].
  destruct (Z.eqb_spec (zlen bytes) len) as [Hzl|]; simpl; [|by apply map_failure_quiet].
  wp_step. eapply wp_mono; [apply wp_ensure_host_allocation; [done|lia|lia]|..]; cbv beta.
  2: { intros e w1 Hf. by apply placed_failure. }
  intros [id off] w1 Hpl. pose proof (ct_wf _ _ (pl_contained _ _ _ _ _ Hpl)) as Hwf1.
  destruct (pl_view _ _ _ _ _ Hpl) as (g & old & Hv & Hoff & Hgs & Hge). simpl in Hv, Hoff, Hgs.
  pose proof (view_bounds _ _ _ _ (mem_wf_allocs _ _ Hwf1) Hv) as (Hg & ? & ?).
  wp_step. pose proof (view_alloc _ _ _ _ Hv) as (al0 & n0 & Hal0 & _).
  eapply wp_mono; [by eapply wp_ensure_allocation_unique|..]; cbv beta.
  2: { intros e w2 [He Hq]. eapply placed_reblocked_failure; [done|done|]. by apply quiet_reblocked. }
  intros [] w2 [Hr _]. pose proof (iv_wf _ _ (rb_invisible _ _ Hr)) as Hwf2.
  assert (Hv2 : alloc_view w2 id = Some (g, old)) by (by rewrite (rb_views _ _ Hr)).
  wp_step. rewrite (proj2 (usize_try_from_Ok off off)) by lia. apply wp_lift; [|done|done]. intros ? [= <-].
  wp_step. eapply wp_mono; [eapply wp_write_allocation; [done|done|lia|lia]|..]; cbv beta.
  2: { intros e w3 [He Hq]. eapply placed_reblocked_failure; [done|done|]. eapply reblocked_trans; [done|]. by apply quiet_reblocked. }
  intros [] w3 [Hw3 _]. pose proof (reblocked_written _ _ _ _ _ _ Hr Hw3) as Hw.
  eapply wp_mono; [eapply (wp_finish_mapping w w1 w3 start len p Anonymous id off); try done; try lia|..]; cbv beta.
  - intros a Ha. by apply Hcontent.
  - intros [] w4 Hm. split_and!; [done|done|lia|lia|done].
  - done.
Qed.

(** *** mmap *)
Lemma align_up_Err v e : align_up v = Err e → resource_error e.
Proof. unfold align_up. destruct (checked_add64 _ _); [done|]. by intros [= <-]. Qed.

Lemma find_free_range_Err m hint len e : find_free_range m hint len = Err e → resource_error e.
Proof.
  unfold find_free_range. destruct (align_up hint) as [c|e'|] eqn:Ha; simpl; [|intros [= <-]; by eapply align_up_Err|done].
  generalize (if c <? MIN_GUEST_ADDRESS then MIN_GUEST_ADDRESS else c). clear Ha c.
  induction (bt_values (gm_vmas m)) as [|v l IH]; intros c; simpl;
    (destruct (checked_mapping_end _ _ _) eqn:Hc; simpl; [|intros [= <-]; by eapply checked_mapping_end_Err|done]); [done|].
  destruct (_ <=? _); [done|]. destruct (c <? v_end v); [|apply IH].
  destruct (align_up (v_end v)) as [c'|e'|] eqn:Ha; simpl; [apply IH|intros [= <-]; by eapply align_up_Err|done].
Qed.

Lemma mmap_start_spec w args len :
  world_wf w → 0 ≤ gm_mmap_base (w_mem w) → 0 ≤ mm_addr args → 0 < len →
  match mmap_start (w_mem w) args len with
  | Ok s => aligned s ∧ MIN_GUEST_ADDRESS ≤ s ∧ s + len ≤ gm_address_space_end (w_mem w) ∧
      (if is_fixed args || is_fixed_noreplace args then s = mm_addr args
       else free_place (w_mem w) len s) ∧
      (is_fixed_noreplace args = true → overlaps (w_mem w) s (s + len) = false)
  | Err e => resource_error e
  | Panic => False
  end.
Proof.
  intros Hwf Hbase Ha Hlen. pose proof (mw_vmas _ _ Hwf) as Hvw. pose proof (vw_space _ _ Hvw) as Hsp.
  unfold mmap_start, GUEST_PAGE_SIZE in *. destruct (is_fixed args || is_fixed_noreplace args) eqn:Hfix.
  - destruct ((mm_addr args <? MIN_GUEST_ADDRESS) || negb (is_page_aligned (mm_addr args))); [exact I|].
    pose proof (checked_mapping_end_no_panic (mm_addr args) len (gm_address_space_end (w_mem w))).
    destruct (checked_mapping_end _ _ _) as [e|e|] eqn:He; simpl; [|by eapply checked_mapping_end_Err|done].
    apply checked_mapping_end_Ok in He as (_ & Hm & Hal & Hse & Hlt); [|lia].
    rewrite wadd_exact by lia. destruct (overlaps _ _ _) eqn:Ho, (is_fixed_noreplace args) eqn:Hn; simpl; try done;
      (split_and!; try done; lia).
  - apply orb_false_iff in Hfix as [_ Hn]. rewrite Hn.
    assert (Hfind : ∀ hint, 0 ≤ hint →
      match find_free_range (w_mem w) hint len with
      | Ok s => aligned s ∧ MIN_GUEST_ADDRESS ≤ s ∧ s + len ≤ gm_address_space_end (w_mem w) ∧
          free_place (w_mem w) len s ∧ (false = true → overlaps (w_mem w) s (s + len) = false)
      | Err e => resource_error e
      | Panic => False
      end).
    { intros hint Hh. pose proof (find_free_range_fits _ _ hint len Hvw eq_refl Hh Hlen) as Hf.
      destruct (find_free_range _ _ _) as [s|e|] eqn:He; [| |done].
      - destruct Hf as [Hf _]. pose proof Hf as (? & ? & ? & _). done.
      - by eapply find_free_range_Err. }
    destruct (Z.eqb_spec (mm_addr args) 0); simpl.
    + by apply Hfind.
    + pose proof (align_up_no_panic (Z.max (mm_addr args) MIN_GUEST_ADDRESS)).
      destruct (align_up _) as [hint|e|] eqn:Hu; simpl; [|by eapply align_up_Err|done].
      apply align_up_bounds in Hu as [_ Hb]; [|unfold MIN_GUEST_ADDRESS, GUEST_PAGE_SIZE; lia].
      apply Hfind. lia.
Qed.

(** What [mmap] has done before it inserts the mapping: nothing, or with [MAP_FIXED]
    unmapped the range. *)
Definition cleared (w w1 : World) (fixed : bool) (s e : Z) : Prop :=
  if fixed then contained w w1 ∧ unmapped w w1 s e ∧ (allocs_disjoint w → allocs_disjoint w1)
  else w1 = w.

Lemma cleared_contained w w1 fixed s e : world_wf w → cleared w w1 fixed s e → contained w w1.
Proof. intros Hwf. destruct fixed; [by intros []|intros ->; by apply contained_refl]. Qed.

Lemma wp_clear w (fixed : bool) s e :
  world_wf w → aligned s → aligned e → s ≤ e →
  wp (if fixed then unmap_range s e else ret tt) (λ _ w1, cleared w w1 fixed s e) (λ _ _, False) w.
Proof.
  intros Hwf Hs He Hse. destruct fixed; [|by wp_steps].
  eapply wp_mono; [by apply wp_unmap_range|..]; [|done]. intros [] w1 (Hct & Hun & _ & Hv).
  split_and!; [done|done|]. apply disjoint_views. intros id p Hp. exists p. auto.
Qed.

Lemma wp_mmap_once w fuel args len p kind s :
  world_wf w → gm_host_address_mode (w_mem w) = Flexible →
  0 < len → aligned len → aligned s → MIN_GUEST_ADDRESS ≤ s → s + len ≤ gm_address_space_end (w_mem w) →
  wp (mmap_loop (S fuel) args len p kind s 0)
     (λ s' w', s' = s ∧ ∃ w1, cleared w w1 (is_fixed args) s (s + len) ∧ mapped w1 w' s (s + len) p kind)
     (λ e w', ∃ w1, cleared w w1 (is_fixed args) s (s + len) ∧ map_failure w1 e w') w.
Proof.
  intros Hwf Hmode Hlen Hal Has Hmin Hsp. pose proof (vw_space _ _ (mw_vmas _ _ Hwf)) as Hspace.
  unfold MIN_GUEST_ADDRESS, GUEST_PAGE_SIZE in *. simpl. wp_step. rewrite wadd_exact by lia.
  eapply wp_mono; [apply wp_clear; [done|done|by apply aligned_add|lia]|..]; [|done].
  intros [] w1 Hcl. cbv beta. pose proof (cleared_contained _ _ _ _ _ Hwf Hcl) as Hct.
  pose proof (wp_insert_mapping w1 s len p kind (ct_wf _ _ Hct) Hlen Hal) as Hins.
  unfold wp in Hins |- *. destruct (insert_mapping s len p kind w1) as [[[]|e|] w2]; [| |done].
  - destruct Hins as [Hm _]. eauto.
  - assert (gm_host_address_mode (w_mem w2) = Flexible) as Hm2.
    { rewrite <- Hmode. destruct (ct_layout _ _ Hct) as (_ & _ & _ & _ & <- & _).
      destruct Hins as [_ [[[_ _ Hl] _]|[[_ _ _ Hl _] _]]]; by destruct Hl as (_ & _ & _ & _ & -> & _). }
    unfold should_retry_mmap_host_conflict. rewrite Hm2. simpl. eauto.
Qed.

Lemma page_round_length_Ok l r : 0 ≤ l → page_round_length l = Ok r → 0 < r ∧ aligned r.
Proof.
  unfold page_round_length. intros Hl. destruct (Z.eqb_spec l 0); [done|].
  intros H. apply align_up_bounds in H as [? ?]; [|done]. split; [lia|done].
Qed.

Lemma mmap_kind_Err args e : mmap_kind args = Err e → resource_error e.
Proof. unfold mmap_kind. intros H. repeat (case_match; simplify_eq); done. Qed.

Lemma mmap_kind_no_panic args : mmap_kind args ≠ Panic.
Proof. unfold mmap_kind. by repeat case_match. Qed.

Lemma protection_from_linux_Err prot e : protection_from_linux prot = Err e → resource_error e.
Proof. unfold protection_from_linux. destruct (negb _); [by intros [= <-]|done]. Qed.

Lemma protection_from_linux_no_panic prot : protection_from_linux prot ≠ Panic.
Proof. unfold protection_from_linux. by destruct (negb _). Qed.

(** The whole of [mmap] on a memory at flexible host addresses. *)
Lemma wp_mmap w args :
  world_wf w → gm_host_address_mode (w_mem w) = Flexible → 0 ≤ gm_mmap_base (w_mem w) →
  0 ≤ mm_addr args → 0 ≤ mm_length args →
  wp (mmap args)
     (λ s w', ∃ p kind len w1, protection_from_linux (mm_prot args) = Ok p ∧ mmap_kind args = Ok kind ∧
        page_round_length (mm_length args) = Ok len ∧
        aligned s ∧ MIN_GUEST_ADDRESS ≤ s ∧ s + len ≤ gm_address_space_end (w_mem w) ∧
        (if is_fixed args || is_fixed_noreplace args then s = mm_addr args else free_place (w_mem w) len s) ∧
        cleared w w1 (is_fixed args) s (s + len) ∧ mapped w1 w' s (s + len) p kind)
     (λ e w', resource_error e ∧
        (w' = w ∨ ∃ s len w1, cleared w w1 (is_fixed args) s (s + len) ∧ map_failure w1 e w')) w.
Proof.
  intros Hwf Hmode Hbase Ha Hl. unfold mmap. mem_steps.
  apply wp_lift; [|intros e ?%protection_from_linux_Err; auto|apply protection_from_linux_no_panic].
  intros p Hp. wp_step. apply wp_lift; [| |].
  2: { intros e He. unfold page_round_length in He. destruct (_ =? 0); [injection He as <-; split; [exact I|by left]|].
       apply align_up_Err in He. auto. }
  2: { unfold page_round_length. destruct (_ =? 0); [done|]. apply align_up_no_panic. }
  intros len Hlen. pose proof (page_round_length_Ok _ _ Hl Hlen) as [Hpos Hal]. wp_step.
  apply wp_lift; [|intros e ?%mmap_kind_Err; auto|apply mmap_kind_no_panic]. intros kind Hk. mem_steps.
  pose proof (mmap_start_spec w args len Hwf Hbase Ha Hpos) as Hst. unfold id in *.
  apply wp_lift; destruct (mmap_start (w_mem w) args len) as [s0|e0|] eqn:Hstart; try done.
  2: { intros e [= <-]. auto. }
  intros s [= <-]. destruct Hst as (Has & Hmin & Hsp & Hplace & _).
  eapply wp_mono; [by apply wp_mmap_once|..]; cbv beta.
  - intros s' w' (-> & w1 & Hcl & Hm). exists p, kind, len, w1. split_and!; done.
  - intros e w' (w1 & Hcl & Hf). split; [apply Hf|]. right. eauto.
Qed.
End mmap.
