(* ===== verification/GuestMemoryFork.v ===== *)
(** * Guest memory: fork

    Several guest memories over one heap of shared blocks.  An operation that respects
    the other owners ([respects_others]) leaves every other memory's cells alone; a clone
    starts with the parent's cells, and a failed clone gives every reference back. *)

From S2P Require Import Prelude SysAbi HostMemory GuestMemory GuestMemoryOps GuestVmas.
From S2P Require Import GuestMemoryInv GuestMemoryHost GuestMemorySteps GuestMemoryAccess.
From S2P Require Import GuestMemoryMmap.
From stdpp Require Import base gmap list sorting strings.
From Stdlib Require Import ZArith Lia.
Open Scope Z_scope.

(** ** Two memories over one heap *)
Definition coexist (h : HostHeap) (m1 m2 : GuestMemory) : Prop := ∀ b, refs m1 b + refs m2 b ≤ strong h b.

Definition at_heap (h : HostHeap) (m : GuestMemory) : World := {| w_host := h; w_mem := m |}.

Lemma refs_nonneg m b : 0 ≤ refs m b.
Proof. unfold refs. lia. Qed.

Lemma isolation h h' m1 m1' m2 :
  respects_others (at_heap h m1) (at_heap h' m1') → heap_wf h' → mem_wf h m2 → coexist h m1 m2 →
  mem_wf h' m2 ∧ coexist h' m1' m2 ∧ same_cells (at_heap h m2) (at_heap h' m2).
Proof.
  intros [_ Ho] Hh' Hwf Hco.
  assert (Hkeep : ∀ id al, gm_allocations m2 !! id = Some al →
    block_bytes h' (a_memory al) = block_bytes h (a_memory al)).
  { intros id al Hal. destruct (Ho (a_memory al)) as [_ Hb]. apply Hb. unfold others; simpl.
    pose proof (refs_pos _ _ _ Hal). specialize (Hco (a_memory al)). lia. }
  assert (Hviews : ∀ id, alloc_view (at_heap h' m2) id = alloc_view (at_heap h m2) id).
  { intros id. unfold alloc_view; simpl. destruct (gm_allocations m2 !! id) as [al|] eqn:Hal; simpl; [|done].
    by rewrite (Hkeep _ _ Hal). }
  assert (Hco' : coexist h' m1' m2).
  { intros b. destruct (Ho b) as [Heq _]. unfold others in Heq; simpl in Heq. specialize (Hco b). lia. }
  split_and!; [|done|by apply cells_ext].
  destruct Hwf as [Hh Hv Hids Hal Hr Hb]. split; [done|done|done| | |].
  - intros id al Hid. destruct (Hal _ _ Hid) as (bytes & n & Hc & ?). pose proof (Hkeep _ _ Hid) as Hk.
    unfold block_bytes in Hk. rewrite Hc in Hk. simpl in Hk.
    apply fmap_Some in Hk as ([bs n'] & Hc' & ->). simpl in *. eauto.
  - intros b. specialize (Hco' b). pose proof (refs_nonneg m1' b). lia.
  - intros k v Hk. apply (vma_backed_view (at_heap h' m2)). rewrite Hviews. apply vma_backed_view. eauto.
Qed.

(** ** Cloning *)
Definition count_block (l : list (Z * GuestAllocation)) (b : Z) : Z :=
  zlen (filter (λ p : Z * GuestAllocation, a_memory p.2 = b) l).

Lemma count_block_cons p l b :
  count_block (p :: l) b = (if bool_decide (a_memory p.2 = b) then 1 else 0) + count_block l b.
Proof.
  unfold count_block, zlen. rewrite filter_cons. case_bool_decide.
  - rewrite decide_True by done. simpl. lia.
  - rewrite decide_False by done. lia.
Qed.

Lemma count_block_app l1 l2 b : count_block (l1 ++ l2) b = count_block l1 b + count_block l2 b.
Proof. unfold count_block. by rewrite filter_app, zlen_app. Qed.

Lemma count_block_nonneg l b : 0 ≤ count_block l b.
Proof. apply zlen_nonneg. Qed.

Lemma count_block_in l p : p ∈ l → 1 ≤ count_block l (a_memory p.2).
Proof.
  intros Hin. induction l as [|q l IH]; [set_solver|]. rewrite count_block_cons.
  pose proof (count_block_nonneg l (a_memory p.2)). apply elem_of_cons in Hin as [->|Hin].
  - rewrite bool_decide_eq_true_2 by done. lia.
  - specialize (IH Hin). case_bool_decide; lia.
Qed.

(** The references of a memory built from a list of allocations. *)
Lemma refs_list m (l : list (Z * GuestAllocation)) b :
  NoDup l.*1 → gm_allocations m = list_to_map l → refs m b = count_block l b.
Proof.
  revert m. induction l as [|[id al] l IH]; intros m Hnd Hm.
  { unfold refs, count_block. rewrite Hm. simpl. by rewrite map_filter_empty. }
  rewrite fmap_cons in Hnd. apply NoDup_cons in Hnd as [Hn Hnd]. rewrite count_block_cons.
  assert (Hnone : (list_to_map l : gmap Z GuestAllocation) !! id = None) by (by apply not_elem_of_list_to_map_1).
  specialize (IH (set_allocations (λ _, list_to_map l) m) Hnd eq_refl).
  pose proof (refs_insert_new (set_allocations (λ _, list_to_map l) m) id al b (insert id al) Hnone eq_refl) as Hr.
  rewrite IH in Hr. unfold refs in *. simpl in *. rewrite Hm. simpl. lia.
Qed.

(** The state of a clone under construction, from the world [w]. *)
Record cloning (w w' : World) (done : list (Z * GuestAllocation)) : Prop := {
  cl_mem : w_mem w' = w_mem w;
  cl_heap : heap_wf (w_host w');
  cl_next : hh_next (w_host w) ≤ hh_next (w_host w');
  cl_bytes : ∀ b bytes n, contents (w_host w) b = Some (bytes, n) → block_bytes (w_host w') b = Some bytes;
  cl_strong : ∀ b, strong (w_host w') b = strong (w_host w) b + count_block done b;
  cl_done : ∀ p, p ∈ done → ∃ bytes, alloc_view w p.1 = Some (a_guest_start p.2, bytes) ∧
    block_bytes (w_host w') (a_memory p.2) = Some bytes;
}.

Lemma cloning_start w : heap_wf (w_host w) → cloning w w [].
Proof.
  intros Hh. split; [done|done|lia| | |set_solver].
  - intros b bytes n Hc. unfold block_bytes. by rewrite Hc.
  - intros b. unfold count_block. simpl. unfold zlen; simpl. lia.
Qed.

Lemma cloning_quiet w w1 w2 l : cloning w w1 l → quiet w1 w2 → cloning w w2 l.
Proof.
  intros [Hm Hh Hn Hb Hs Hd] [Hm' Heq]. pose proof Heq as [Hn' Hc'].
  assert (Hbb : ∀ b, block_bytes (w_host w2) b = block_bytes (w_host w1) b)
    by (intros b; unfold block_bytes; by rewrite Hc').
  split; [congruence|by rewrite <- Heq|lia| | |].
  - intros *. rewrite Hbb. apply Hb.
  - intros b. by rewrite (heap_eq_strong _ _ _ Heq).
  - intros p Hp. rewrite Hbb. auto.
Qed.

(** A clone that is given up: the parent's view is as before. *)
Lemma cloning_invisible w w' : world_wf w → cloning w w' [] → invisible w w'.
Proof.
  intros Hwf [Hm Hh Hn Hb Hs _].
  assert (Hs' : ∀ b, strong (w_host w') b = strong (w_host w) b).
  { intros b. rewrite Hs. unfold count_block, zlen. simpl. lia. }
  apply shaken_invisible; [done| |].
  - split; [|split; [done|]|by rewrite Hm|by rewrite Hm|rewrite Hm; lia].
    + split; [done|rewrite Hm; apply Hwf| |].
      * intros id al Hal. rewrite Hm in Hal. destruct (mw_alloc _ _ Hwf _ _ Hal) as (bytes & n & Hc & ?).
        pose proof (Hb _ _ _ Hc) as ([bs n'] & Hc' & ->)%fmap_Some. eauto.
      * intros b. rewrite Hm, Hs'. apply Hwf.
    + intros b. unfold others. rewrite Hs', Hm. split; [done|]. intros Hpos.
      unfold block_bytes at 2. destruct (contents (w_host w) b) as [[bytes n]|] eqn:Hc; [by eapply Hb|].
      exfalso. unfold strong in Hpos. rewrite Hc in Hpos. simpl in Hpos. pose proof (refs_nonneg (w_mem w) b). lia.
  - intros id [g bytes] (al & n & Hal & <- & Hc)%view_alloc. unfold alloc_view. rewrite Hm, Hal. simpl.
    by rewrite (Hb _ _ _ Hc).
Qed.

Lemma strong_block h b n : heap_wf h → strong h b = n → 1 ≤ n → ∃ bytes, contents h b = Some (bytes, n).
Proof.
  intros Hh Hs Hn. unfold strong in Hs. destruct (contents h b) as [[bytes k]|]; simpl in Hs; [|lia].
  subst. eauto.
Qed.

(** Giving one reference of the clone back. *)
Lemma cloning_drop w w1 p l :
  heap_wf (w_host w) → cloning w w1 (p :: l) →
  cloning w {| w_host := hh_set_blocks (drop_ref (a_memory p.2)) (w_host w1); w_mem := w_mem w1 |} l.
Proof.
  intros Hh0 [Hm Hh Hn Hb Hs Hd]. set (b0 := a_memory p.2).
  assert (Hn0 : 1 ≤ strong (w_host w1) b0).
  { destruct (Hd p ltac:(set_solver)) as (bytes & _ & Hc). unfold block_bytes in Hc.
    apply fmap_Some in Hc as ([bs n] & Hc & _). unfold strong. fold b0 in Hc. rewrite Hc. simpl.
    by eapply hw_strong. }
  destruct (strong_block _ _ _ Hh eq_refl Hn0) as [bytes0 Hc0]. set (n0 := strong (w_host w1) b0) in *.
  pose proof (contents_drop (w_host w1) b0) as Hdrop.
  assert (Hc' : ∀ b, contents (hh_set_blocks (drop_ref b0) (w_host w1)) b =
    if bool_decide (b = b0) then (if n0 =? 1 then None else Some (bytes0, n0 - 1)) else contents (w_host w1) b)
    by (intros b; by apply Hdrop).
  assert (Hs' : ∀ b, strong (hh_set_blocks (drop_ref b0) (w_host w1)) b = strong (w_host w) b + count_block l b).
  { intros b. unfold strong at 1. rewrite Hc'. specialize (Hs b). rewrite count_block_cons in Hs. fold b0 in Hs.
    destruct (decide (b = b0)) as [->|Hbb].
    - rewrite bool_decide_eq_true_2 in Hs |- * by done. fold n0 in Hs. destruct (Z.eqb_spec n0 1); simpl; lia.
    - rewrite bool_decide_eq_false_2 in Hs |- * by done. unfold strong in Hs at 1. lia. }
  assert (Hkeep : ∀ b bytes, block_bytes (w_host w1) b = Some bytes →
    1 ≤ strong (w_host w) b + count_block l b →
    block_bytes (hh_set_blocks (drop_ref b0) (w_host w1)) b = Some bytes).
  { intros b bytes Hby Hpos. rewrite <- Hs' in Hpos. unfold block_bytes, strong in *. rewrite Hc' in *.
    case_bool_decide; [|done]. subst. rewrite Hc0 in Hby. destruct (n0 =? 1); simpl in *; [lia|done]. }
  split; simpl; [done| |done| |done|].
  - split; intros b.
    + intros c. rewrite Hc'. case_bool_decide as Hbb; [|apply Hh]. intros _. rewrite Hbb.
      by eapply (hw_fresh _ Hh).
    + intros bs k. rewrite Hc'. case_bool_decide; [|apply Hh]. destruct (Z.eqb_spec n0 1); [done|].
      intros [= _ <-]. lia.
  - intros b bytes n Hc. apply Hkeep; [by eapply Hb|].
    pose proof (hw_strong _ Hh0 _ _ _ Hc). unfold strong. rewrite Hc. simpl. pose proof (count_block_nonneg l b). lia.
  - intros q Hq. destruct (Hd q ltac:(set_solver)) as (bytes & ? & Hby). exists bytes. split; [done|].
    apply Hkeep; [done|]. pose proof (count_block_in _ _ Hq).
    assert (0 ≤ strong (w_host w) (a_memory q.2)); [|lia].
    unfold strong. destruct (contents (w_host w) (a_memory q.2)) as [[? n]|] eqn:Hc; simpl; [|lia].
    pose proof (hw_strong _ Hh0 _ _ _ Hc). lia.
Qed.

(** Sharing a block with the clone. *)
Lemma cloning_share w w1 l id al :
  world_wf w → cloning w w1 l → gm_allocations (w_mem w) !! id = Some al →
  cloning w {| w_host := hh_set_blocks (alter (λ a, {| ab_memory := ab_memory a;
                            ab_strong := ab_strong a + 1 |}) (a_memory al)) (w_host w1);
               w_mem := w_mem w1 |}
    (l ++ [(id, {| a_guest_start := a_guest_start al; a_memory := a_memory al |})]).
Proof.
  intros Hwf [Hm Hh Hn Hb Hs Hd] Hal. destruct (world_alloc _ _ _ Hwf Hal) as (bytes & n & Hc & Hv & _).
  set (b0 := a_memory al) in *. pose proof (Hb _ _ _ Hc) as ([bs n1] & Hc1 & Heq)%fmap_Some. simpl in Heq. subst bs.
  pose proof Hc1 as (k & Hk & Hkb & Hkn)%contents_lookup.
  assert (Hc' : ∀ b, contents (hh_set_blocks (alter (λ a, {| ab_memory := ab_memory a;
      ab_strong := ab_strong a + 1 |}) b0) (w_host w1)) b =
    if bool_decide (b = b0) then Some (bytes, n1 + 1) else contents (w_host w1) b).
  { intros b. rewrite (contents_alter _ _ _ _ Hk). simpl. by rewrite Hkb, Hkn. }
  assert (Hbb : ∀ b x, block_bytes (w_host w1) b = Some x → block_bytes (hh_set_blocks (alter (λ a,
      {| ab_memory := ab_memory a; ab_strong := ab_strong a + 1 |}) b0) (w_host w1)) b = Some x).
  { intros b x. unfold block_bytes. rewrite Hc'. case_bool_decide; [|done]. subst. by rewrite Hc1. }
  split; simpl; [done| |done| | |].
  - split; intros b.
    + intros c. rewrite Hc'. case_bool_decide as Hbd; [|apply Hh]. intros _. rewrite Hbd.
      by eapply (hw_fresh _ Hh).
    + intros x j. rewrite Hc'. case_bool_decide; [|apply Hh]. intros [= _ <-].
      pose proof (hw_strong _ Hh _ _ _ Hc1). lia.
  - intros b x j Hx. by apply Hbb, (Hb _ _ _ Hx).
  - intros b. unfold strong at 1. rewrite Hc', count_block_app, count_block_cons. simpl. fold b0.
    unfold count_block at 2, zlen; simpl. specialize (Hs b). unfold strong at 1 in Hs.
    destruct (decide (b = b0)) as [->|Hne].
    + rewrite !bool_decide_eq_true_2 by done. rewrite Hc1 in Hs. simpl in *. lia.
    + rewrite !bool_decide_eq_false_2 by done. lia.
  - intros p [Hp|Hp%list_elem_of_singleton]%elem_of_app.
    + destruct (Hd p Hp) as (x & ? & ?). exists x. auto.
    + subst p. simpl. exists bytes. split; [done|]. apply Hbb. unfold block_bytes. by rewrite Hc1.
Qed.

(** Copying a block for the clone. *)
Lemma cloning_copy w w1 l id al mem bytes :
  world_wf w → cloning w w1 l → alloc_view w id = Some (a_guest_start al, bytes) →
  hm_bytes mem = bytes →
  cloning w {| w_host := push_block mem (w_host w1); w_mem := w_mem w1 |}
    (l ++ [(id, {| a_guest_start := a_guest_start al; a_memory := hh_next (w_host w1) |})]).
Proof.
  intros Hwf [Hm Hh Hn Hb Hs Hd] Hv Hmem. set (b0 := hh_next (w_host w1)).
  assert (Hnone : contents (w_host w1) b0 = None).
  { destruct (contents (w_host w1) b0) eqn:Hx; [|done]. pose proof (hw_fresh _ Hh _ _ Hx). unfold b0 in *. lia. }
  assert (Hbb : ∀ b x, block_bytes (w_host w1) b = Some x → block_bytes (push_block mem (w_host w1)) b = Some x).
  { intros b x. unfold block_bytes. rewrite push_block_contents. fold b0. case_bool_decide; [|done].
    subst b. by rewrite Hnone. }
  split; simpl; [done| |lia| | |].
  - split; intros b.
    + intros c. rewrite push_block_contents. simpl. case_bool_decide; [lia|].
      intros Hx. pose proof (hw_fresh _ Hh _ _ Hx). lia.
    + intros x j. rewrite push_block_contents. case_bool_decide; [by intros [= _ <-]|apply Hh].
  - intros b x j Hx. by apply Hbb, (Hb _ _ _ Hx).
  - intros b. unfold strong at 1. rewrite push_block_contents, count_block_app, count_block_cons. simpl. fold b0.
    unfold count_block at 2, zlen; simpl. specialize (Hs b). unfold strong at 1 in Hs.
    destruct (decide (b = b0)) as [->|Hne].
    + rewrite !bool_decide_eq_true_2 by done. rewrite Hnone in Hs. simpl in *. lia.
    + rewrite !bool_decide_eq_false_2 by done. lia.
  - intros p [Hp|Hp%list_elem_of_singleton]%elem_of_app.
    + destruct (Hd p Hp) as (x & ? & ?). exists x. auto.
    + subst p. simpl. exists bytes. split; [done|]. unfold block_bytes.
      rewrite push_block_contents. fold b0. by rewrite bool_decide_eq_true_2, Hmem.
Qed.

Section clone.
Context `{OS : HostOs} `{OL : !HostOsLaws OS}.

Lemma wp_drop_allocations w w1 l (Q R : World → Prop) :
  world_wf w → cloning w w1 l → (∀ w', invisible w w' → w_mem w' = w_mem w → Q w') →
  wp (drop_allocations l) (λ _, Q) (λ (_ : GuestMemoryError), R) w1.
Proof.
  intros Hwf Hcl HQ. revert w1 Hcl. induction l as [|p l IH]; intros w1 Hcl.
  - unfold drop_allocations; simpl. mem_steps. apply HQ; [by apply cloning_invisible|apply Hcl].
  - unfold drop_allocations; simpl; fold (drop_allocations l). unfold arc_drop. mem_steps.
    apply IH. apply cloning_drop; [apply Hwf|done].
Qed.

Definition allocates (alloc : GuestAllocation → Z → MemM HostMemory) : Prop :=
  ∀ al len w, 0 ≤ a_guest_start al < 2 ^ 64 →
    wp (alloc al len) (λ mem w', zlen (hm_bytes mem) = len ∧ quiet w w') (host_failure w) w.

(** A failed clone: the parent is as it was, all references given back. *)
Definition clone_failure (w : World) (e : GuestMemoryError) (w' : World) : Prop :=
  resource_error e ∧ invisible w w' ∧ w_mem w' = w_mem w.

Lemma wp_clone_one w w1 l (sharing : bool) alloc id al :
  world_wf w → allocates alloc → cloning w w1 l → gm_allocations (w_mem w) !! id = Some al →
  wp (on_err
        (if sharing && allocation_is_readonly_shareable (w_mem w1) id then
           do* host_op (arc_clone (a_memory al));
           ret {| a_guest_start := a_guest_start al; a_memory := a_memory al |}
         else
           let* ranges := lift (allocation_protection_ranges (w_mem w1) id) in
           let* memory := with_protection_guard (a_memory al) ranges
               (let* block := host_op (arc_get (a_memory al)) in
                let* memory := alloc al (hm_len block) in
                fill_block memory (hm_bytes block)) in
           let* memory := apply_protections_local memory ranges in
           let* b := host_op (arc_new memory) in
           ret {| a_guest_start := a_guest_start al; a_memory := b |})
        (drop_allocations l))
     (λ cl w2, a_guest_start cl = a_guest_start al ∧ cloning w w2 (l ++ [(id, cl)]))
     (clone_failure w) w1.
Proof.
  intros Hwf Halloc Hcl Hal. destruct (world_alloc _ _ _ Hwf Hal) as (bytes & n & Hc & Hv & Hgs & Hpos & Hend).
  apply wp_on_err.
  assert (Hfail : ∀ e w2, quiet_failure w1 e w2 →
    wp (drop_allocations l) (λ _, clone_failure w e) (λ _ : GuestMemoryError, clone_failure w e) w2).
  { intros e w2 [He Hq]. apply (wp_drop_allocations w); [done|by eapply cloning_quiet|]. done. }
  destruct (sharing && _).
  - unfold arc_clone. mem_steps. split; [done|]. by apply cloning_share.
  - wp_step. apply wp_lift; [| |auto with mcr].
    2: { intros e He%allocation_protection_ranges_Err. apply Hfail. by split. }
    intros ranges _. wp_step. pose proof (cl_bytes _ _ _ Hcl _ _ _ Hc) as ([bs n1] & Hc1 & Heq)%fmap_Some.
    simpl in Heq. subst bs.
    eapply wp_mono; [apply (wp_guard w1 (a_memory al) ranges bytes n1 _ (λ mem, hm_bytes mem = bytes)); [done|]|..]; cbv beta.
    + intros w2 Hq. mem_steps. eapply wp_arc_get; [by rewrite (he_contents _ _ (proj2 Hq))|].
      intros k _ Hkb. mem_steps. eapply wp_mono; [apply Halloc; lia|..]; cbv beta.
      * intros mem w3 [Hml Hq3]. apply wp_fill_block; [done|]. intros mem' Hmem'.
        split; [congruence|]. transitivity w2; [done|]. by destruct w2.
      * intros e w3 Hf%host_quiet_failure. eapply quiet_failure_trans; [done|]. by destruct w2.
    + intros mem w2 [Hmem Hq2]. mem_steps.
      eapply wp_mono; [apply wp_protections_local|..]; cbv beta.
      * intros mem' w3 [Hmem' Hq3]. mem_steps. unfold arc_new, wp; simpl. split; [done|].
        apply (cloning_copy w w3 l id al mem' bytes); [done| |done|congruence].
        apply (cloning_quiet _ w1); [done|]. by transitivity w2.
      * intros e w3 Hf%host_quiet_failure. apply Hfail. by eapply quiet_failure_trans.
    + intros e w2 Hf. by apply Hfail.
Qed.

Lemma wp_clone_allocations w w1 (sharing : bool) alloc todo done :
  world_wf w → allocates alloc → cloning w w1 done →
  (∀ p, p ∈ todo → gm_allocations (w_mem w) !! p.1 = Some p.2) →
  wp (clone_allocations sharing alloc todo done)
     (λ all w2, cloning w w2 all ∧ all.*1 = done.*1 ++ todo.*1) (clone_failure w) w1.
Proof.
  intros Hwf Halloc. revert w1 done. induction todo as [|[id al] todo IH]; intros w1 done Hcl Hin; simpl.
  { mem_steps. split; [exact Hcl|]. by rewrite app_nil_r. }
  mem_steps. eapply wp_mono; [apply wp_clone_one; [exact Hwf|exact Halloc|exact Hcl|]|..]; cbv beta.
  - apply (Hin (id, al)). set_solver.
  - intros cl w2 [_ Hcl2]. eapply wp_mono; [apply IH; [exact Hcl2|set_solver]|..]; cbv beta; [|auto].
    intros all w3 [Hcl3 Hk]. split; [exact Hcl3|]. rewrite Hk, fmap_app. simpl. by rewrite <- app_assoc.
  - auto.
Qed.

(** The clone: a memory of its own with the parent's cells. *)
Record cloned (w : World) (child : GuestMemory) (w' : World) : Prop := {
  cd_parent_mem : w_mem w' = w_mem w;
  cd_parent : world_wf w';
  cd_parent_cells : same_cells w w';
  cd_child : mem_wf (w_host w') child;
  cd_child_cells : same_cells w (at_heap (w_host w') child);
  cd_coexist : coexist (w_host w') (w_mem w') child;
  cd_others : ∀ b, strong (w_host w') b - refs (w_mem w') b - refs child b = others w b;
  cd_bytes : ∀ b bytes n, contents (w_host w) b = Some (bytes, n) → block_bytes (w_host w') b = Some bytes;
}.

Lemma cloning_cloned w w' all child :
  world_wf w → cloning w w' all → all.*1 = (bt_iter (gm_allocations (w_mem w))).*1 →
  gm_vmas child = gm_vmas (w_mem w) → gm_allocations child = list_to_map all →
  gm_next_allocation_id child = gm_next_allocation_id (w_mem w) →
  gm_address_space_end child = gm_address_space_end (w_mem w) →
  cloned w child w'.
Proof.
  intros Hwf Hcl Hkeys Hvm Hals Hnext Hend. pose proof Hcl as [Hm Hh Hn Hb Hs Hd].
  assert (Hnd : NoDup all.*1) by (rewrite Hkeys; apply bt_iter_NoDup).
  assert (Hrefs : ∀ b, refs child b = count_block all b) by (intros b; by apply refs_list).
  assert (Hlook : ∀ id al, gm_allocations child !! id = Some al ↔ (id, al) ∈ all).
  { intros id al. rewrite Hals. symmetry. by apply elem_of_list_to_map. }
  assert (Hviews : ∀ id, alloc_view (at_heap (w_host w') child) id = alloc_view w id).
  { intros id. destruct (gm_allocations child !! id) as [al|] eqn:Hal.
    - apply Hlook in Hal as Hin. destruct (Hd _ Hin) as (bytes & Hv & Hbb). simpl in *. rewrite Hv.
      unfold alloc_view; simpl. rewrite Hal. simpl. by rewrite Hbb.
    - unfold alloc_view at 1; simpl. rewrite Hal. simpl. symmetry. apply view_None; [by apply mem_wf_allocs|].
      destruct (gm_allocations (w_mem w) !! id) as [al|] eqn:Hp; [|done]. exfalso.
      assert (id ∈ all.*1) as ([id' al'] & -> & Hin)%list_elem_of_fmap.
      { rewrite Hkeys. apply list_elem_of_fmap. exists (id, al). split; [done|]. by apply elem_of_bt_iter. }
      apply Hlook in Hin. simpl in *. congruence. }
  assert (Hpv : ∀ id, alloc_view w' id = alloc_view w id).
  { intros id. unfold alloc_view. rewrite Hm. destruct (gm_allocations (w_mem w) !! id) as [al|] eqn:Hal; simpl; [|done].
    destruct (world_alloc _ _ _ Hwf Hal) as (bytes & n & Hc & _). rewrite (Hb _ _ _ Hc).
    unfold block_bytes. by rewrite Hc. }
  assert (Hsum : ∀ b, strong (w_host w') b - refs (w_mem w') b - refs child b = others w b).
  { intros b. rewrite Hm, Hrefs, Hs. unfold others. lia. }
  assert (Hnonneg : ∀ b, 0 ≤ others w b).
  { intros b. unfold others. pose proof (mw_refs _ _ Hwf b). lia. }
  split; [done| | | | | |done|done].
  - split; rewrite ?Hm; [done|apply Hwf|apply Hwf| | |].
    + intros id al Hal. destruct (mw_alloc _ _ Hwf _ _ Hal) as (bytes & n & Hc & ?).
      pose proof (Hb _ _ _ Hc) as ([bs n'] & Hc' & ->)%fmap_Some. eauto.
    + intros b. specialize (Hsum b). specialize (Hnonneg b). rewrite Hm in Hsum.
      pose proof (refs_nonneg child b). lia.
    + intros k v Hk. rewrite <- Hm. apply vma_backed_view. rewrite Hpv. apply vma_backed_view.
      by eapply (mw_backed _ _ Hwf).
  - apply cells_ext; [by rewrite Hm|done].
  - split; [done|rewrite Hend, Hvm; apply Hwf| | | |].
    + intros id al Hal%Hlook. rewrite Hnext. destruct (Hd _ Hal) as (bytes & Hv & _).
      apply view_alloc in Hv as (al' & _ & Hal' & _). by eapply (mw_ids _ _ Hwf).
    + intros id al Hal. pose proof Hal as Hin%Hlook. destruct (Hd _ Hin) as (bytes & Hv & Hbb). simpl in *.
      apply fmap_Some in Hbb as ([bs n'] & Hc' & ->). simpl in *. exists bs, n'. split; [done|].
      by apply (view_bounds _ _ _ _ (mem_wf_allocs _ _ Hwf) Hv).
    + intros b. specialize (Hsum b). specialize (Hnonneg b). pose proof (refs_nonneg (w_mem w') b). lia.
    + intros k v Hk. rewrite Hvm in Hk. apply (vma_backed_view (at_heap (w_host w') child)). rewrite Hviews.
      apply vma_backed_view. by eapply (mw_backed _ _ Hwf).
  - apply cells_ext; [simpl; by rewrite Hvm|done].
  - intros b. specialize (Hsum b). specialize (Hnonneg b). lia.
Qed.

Lemma wp_try_clone_with w (sharing : bool) alloc :
  world_wf w → allocates alloc →
  wp (try_clone_runtime_with_allocator sharing alloc) (cloned w) (clone_failure w) w.
Proof.
  intros Hwf Halloc. unfold try_clone_runtime_with_allocator. mem_steps.
  eapply wp_mono; [apply (wp_clone_allocations w); [done|done|apply cloning_start, Hwf|]|..]; cbv beta.
  - intros [id al]. by rewrite elem_of_bt_iter.
  - intros all w' [Hcl Hk]. mem_steps. simpl in Hk. pose proof (cl_mem _ _ _ Hcl) as Hm.
    apply (cloning_cloned w w' all); simpl; try done; by rewrite Hm.
  - done.
Qed.

Lemma wp_try_clone_runtime w :
  world_wf w → wp try_clone_runtime (cloned w) (clone_failure w) w.
Proof.
  intros Hwf. apply wp_try_clone_with; [done|]. intros al len w1 Hgs. apply (wp_allocate_guest w1 0 len ReadWrite Flexible). lia.
Qed.

Lemma wp_try_clone_fixed w :
  world_wf w → wp try_clone_runtime_at_guest_addresses (cloned w) (clone_failure w) w.
Proof.
  intros Hwf. unfold try_clone_runtime_at_guest_addresses. wp_step.
  eapply wp_mono; [apply wp_try_clone_with; [done|]|..]; cbv beta; [| |done].
  - intros al len w1 Hgs. by apply wp_allocate_guest.
  - intros child w' [? ? ? Hc Hcc Hco ? ?]. wp_step. split; try done.
    destruct Hc as [? ? ? ? ? Hbk]. by split.
Qed.
End clone.
