(* ===== verification/GuestMemorySystem.v ===== *)
(** * Guest memory: the memories of several processes

    A system is one host heap and a guest memory per process.  Processes read, write,
    map, unmap, protect, fork and exit in any order; the invariant is that every memory
    is well formed and that the references of all memories to a block never exceed its
    count, and no step of one process changes a cell of another. *)

From S2P Require Import Prelude SysAbi HostMemory GuestMemory GuestMemoryOps GuestVmas.
From S2P Require Import GuestMemoryInv GuestMemoryHost GuestMemorySteps GuestMemoryAccess.
From S2P Require Import GuestMemoryMmap GuestMemoryFork.
From stdpp Require Import base gmap list sorting strings.
From Stdlib Require Import ZArith Lia.
Open Scope Z_scope.

Record System : Type := { s_heap : HostHeap; s_memories : gmap Z GuestMemory }.

(** References to a block, over all memories. *)
Definition sum_refs (ms : gmap Z GuestMemory) (b : Z) : Z := map_fold (λ _ m acc, refs m b + acc) 0 ms.

Lemma sum_refs_delete ms p m b :
  ms !! p = Some m → sum_refs ms b = refs m b + sum_refs (delete p ms) b.
Proof.
  intros Hp. unfold sum_refs. rewrite (map_fold_delete_L _ _ p m ms); [done| |done]. intros. lia.
Qed.

Lemma sum_refs_insert ms p m b :
  ms !! p = None → sum_refs (<[p := m]> ms) b = refs m b + sum_refs ms b.
Proof.
  intros Hp. unfold sum_refs. rewrite map_fold_insert_L; [done| |done]. intros. lia.
Qed.

Lemma sum_refs_nonneg ms b : 0 ≤ sum_refs ms b.
Proof.
  induction ms as [|p m ms Hp IH] using map_ind; [done|]. rewrite sum_refs_insert by done.
  pose proof (refs_nonneg m b). lia.
Qed.

Lemma sum_refs_two ms p q m1 m2 b :
  ms !! p = Some m1 → ms !! q = Some m2 → p ≠ q → refs m1 b + refs m2 b ≤ sum_refs ms b.
Proof.
  intros Hp Hq Hne. rewrite (sum_refs_delete _ _ _ _ Hp).
  rewrite (sum_refs_delete (delete p ms) q m2) by (by rewrite lookup_delete_ne).
  pose proof (sum_refs_nonneg (delete q (delete p ms)) b). lia.
Qed.

Lemma sum_refs_update ms p m m' b :
  ms !! p = Some m → sum_refs (<[p := m']> ms) b = sum_refs ms b - refs m b + refs m' b.
Proof.
  intros Hp. rewrite <- insert_delete_eq, sum_refs_insert by apply lookup_delete_eq.
  rewrite (sum_refs_delete ms p m) by done. lia.
Qed.

Record sys_wf (s : System) : Prop := {
  sw_heap : heap_wf (s_heap s);
  sw_mem : ∀ p m, s_memories s !! p = Some m → mem_wf (s_heap s) m;
  sw_refs : ∀ b, sum_refs (s_memories s) b ≤ strong (s_heap s) b;
}.

(** The memory a process sees. *)
Definition view_of (s : System) (p a : Z) : option Cell :=
  m ← s_memories s !! p; cell_at (at_heap (s_heap s) m) a.

Definition put (s : System) (p : Z) (w : World) : System :=
  {| s_heap := w_host w; s_memories := <[p := w_mem w]> (s_memories s) |}.

(** One process moved from [m] to the world [w'], minding the others. *)
Lemma update_process s p m w' :
  sys_wf s → s_memories s !! p = Some m → world_wf w' →
  respects_others (at_heap (s_heap s) m) w' →
  sys_wf (put s p w') ∧ ∀ q, q ≠ p → ∀ a, view_of (put s p w') q a = view_of s q a.
Proof.
  intros [Hh Hm Hr] Hp Hwf' Ho.
  assert (Hiso : ∀ q mq, q ≠ p → s_memories s !! q = Some mq →
    mem_wf (w_host w') mq ∧ same_cells (at_heap (s_heap s) mq) (at_heap (w_host w') mq)).
  { intros q mq Hne Hq. destruct (isolation (s_heap s) (w_host w') m (w_mem w') mq) as (? & _ & ?).
    - by destruct w'.
    - apply Hwf'.
    - eauto.
    - intros b. specialize (Hr b). pose proof (sum_refs_two _ _ _ _ _ b Hp Hq ltac:(done)). lia.
    - done. }
  split.
  - split; simpl; [apply Hwf'| |].
    + intros q mq Hq. destruct (decide (q = p)) as [->|Hne].
      * rewrite lookup_insert_eq in Hq. injection Hq as <-. apply Hwf'.
      * rewrite lookup_insert_ne in Hq by done. by apply (Hiso q).
    + intros b. rewrite (sum_refs_update _ _ _ _ _ Hp). specialize (Hr b).
      destruct (proj2 Ho b) as [Heq _]. unfold others in Heq. simpl in Heq. lia.
  - intros q Hne a. unfold view_of; simpl. rewrite lookup_insert_ne by done.
    destruct (s_memories s !! q) as [mq|] eqn:Hq; simpl; [|done]. by apply (Hiso q).
Qed.

(** ** Steps *)

Definition fork_to (s : System) (q : Z) (child : GuestMemory) (w' : World) : System :=
  {| s_heap := w_host w'; s_memories := <[q := child]> (s_memories s) |}.

Definition exit_to (s : System) (p : Z) (m : GuestMemory) : System :=
  {| s_heap := hh_set_blocks
       (λ bs, foldr (λ x bs, drop_ref (a_memory x.2) bs) bs (bt_iter (gm_allocations m))) (s_heap s);
     s_memories := delete p (s_memories s) |}.

Inductive Access : Type :=
| DoRead (address len : Z)
| DoWrite (address : Z) (bytes : list Z)
| DoMunmap (args : MunmapSyscallArgs)
| DoMprotect (args : MprotectSyscallArgs).

Definition unsigned_args (o : Access) : Prop :=
  match o with
  | DoRead a l => 0 ≤ a ∧ 0 ≤ l
  | DoWrite a _ => 0 ≤ a
  | DoMunmap args => 0 ≤ mu_addr args ∧ 0 ≤ mu_length args
  | DoMprotect args => 0 ≤ mp_addr args ∧ 0 ≤ mp_length args
  end.

Section system.
Context `{OS : HostOs} `{OL : !HostOsLaws OS}.

Definition run_access (o : Access) : MemM unit :=
  match o with
  | DoRead a l => let* _ := read a l in ret tt
  | DoWrite a bytes => write a bytes
  | DoMunmap args => munmap args
  | DoMprotect args => mprotect args
  end.

(** What a process does, and whose view it may change. *)
Inductive Action : Type :=
| Act (p : Z) (o : Access)
| Map (p : Z) (args : MmapSyscallArgs)
| Fork (p q : Z)
| Exit (p : Z).

Definition changed (l : Action) : Z :=
  match l with Act p _ | Map p _ | Exit p => p | Fork _ q => q end.

(** A mapping that the host refused may leave the memory that asked for it in pieces. *)
Definition refused (r : outcome Z GuestMemoryError) (w' : World) : bool :=
  match r with
  | Err e => is_host_error e || (U64_MAX <=? gm_next_allocation_id (w_mem w'))
  | _ => false
  end.

Definition may_map (m : GuestMemory) (args : MmapSyscallArgs) : Prop :=
  0 ≤ mm_addr args ∧ 0 ≤ mm_length args ∧ gm_host_address_mode m = Flexible ∧ 0 ≤ gm_mmap_base m.

(** An access or a mmap, whatever it returns, unless the host refuses the mapping; a fork; an exit. *)
Inductive step : Action → System → System → Prop :=
| step_access s p m o r w' :
    s_memories s !! p = Some m → unsigned_args o →
    run_access o (at_heap (s_heap s) m) = (r, w') → step (Act p o) s (put s p w')
| step_mmap s p m args r w' :
    s_memories s !! p = Some m → may_map m args →
    mmap args (at_heap (s_heap s) m) = (r, w') → refused r w' = false → step (Map p args) s (put s p w')
| step_fork s p q m child w' :
    s_memories s !! p = Some m → s_memories s !! q = None →
    try_clone_runtime (at_heap (s_heap s) m) = (Ok child, w') →
    step (Fork p q) s (fork_to s q child w')
| step_exit s p m :
    s_memories s !! p = Some m →
    step (Exit p) s (exit_to s p m).

(** A step, or a mapping that the host refuses. *)
Inductive attempt : Action → System → System → Prop :=
| attempt_step l s s' : step l s s' → attempt l s s'
| attempt_refused s p m args e w' :
    s_memories s !! p = Some m → may_map m args →
    mmap args (at_heap (s_heap s) m) = (Err e, w') → attempt (Map p args) s (put s p w').

Lemma write_generation w w' :
  contained w w' →
  contained w w' ∧ world_wf {| w_host := w_host w'; w_mem := record_executable_write (w_mem w') |} ∧
  respects_others w {| w_host := w_host w'; w_mem := record_executable_write (w_mem w') |}.
Proof. intros [Hwf Ho Hl]. split_and!; [done|by apply generation_wf|done]. Qed.

Lemma run_access_safe w o :
  world_wf w → unsigned_args o →
  wp (run_access o) (λ _ w', world_wf w' ∧ respects_others w w') (λ _ w', world_wf w' ∧ respects_others w w') w.
Proof.
  intros Hwf Hun. destruct o as [a l|a bytes|args|args]; simpl in *.
  - wp_step. eapply wp_mono; [apply wp_copy_guest; [done|lia|lia]|..]; cbv beta.
    + by intros bs w' [-> _].
    + by intros e w' [-> _].
  - unfold write, write_guest. wp_step. apply wp_lift; [|done|auto with mcr].
    intros e [-> He]%checked_raw_range_Ok; [|apply zlen_nonneg]. wp_step.
    pose proof (zlen_nonneg bytes).
    eapply wp_mono; [apply wp_write_guest_loop; [done|lia|lia|lia|lia]|..]; cbv beta.
    + intros t w' (Hct & _). destruct (write_generation _ _ Hct) as (_ & ? & ?).
      destruct t; mem_steps; [done|]. by destruct Hct.
    + intros err w' [[] _]. done.
  - eapply wp_mono; [apply wp_munmap; [done|lia|lia]|..]; cbv beta.
    + by intros [] w' [[] _].
    + by intros e w' [-> _].
  - eapply wp_mono; [apply wp_mprotect; [done|lia|lia]|..]; cbv beta.
    + by intros [] w' [[] _].
    + by intros e w' [[] _].
Qed.

(** A heap that only grew keeps every memory. *)
Lemma heap_grown h h' m :
  mem_wf h m → heap_wf h' → (∀ b, strong h b ≤ strong h' b) →
  (∀ b bytes n, contents h b = Some (bytes, n) → block_bytes h' b = Some bytes) →
  mem_wf h' m ∧ same_cells (at_heap h m) (at_heap h' m).
Proof.
  intros Hwf Hh' Hst Hby.
  assert (Hviews : ∀ id, alloc_view (at_heap h' m) id = alloc_view (at_heap h m) id).
  { intros id. unfold alloc_view; simpl. destruct (gm_allocations m !! id) as [al|] eqn:Hal; simpl; [|done].
    destruct (mw_alloc _ _ Hwf _ _ Hal) as (bytes & n & Hc & _). rewrite (Hby _ _ _ Hc).
    unfold block_bytes. by rewrite Hc. }
  split; [|by apply cells_ext]. destruct Hwf as [_ Hv Hids Hal Hr Hb]. split; [done|done|done| | |].
  - intros id al Hid. destruct (Hal _ _ Hid) as (bytes & n & Hc & ?).
    pose proof (Hby _ _ _ Hc) as ([bs n'] & Hc' & ->)%fmap_Some. eauto.
  - intros b. specialize (Hst b). specialize (Hr b). lia.
  - intros k v Hk. apply (vma_backed_view (at_heap h' m)). rewrite Hviews. apply vma_backed_view. eauto.
Qed.

Lemma fork_process s p q m child w' :
  sys_wf s → s_memories s !! p = Some m → s_memories s !! q = None →
  cloned (at_heap (s_heap s) m) child w' →
  sys_wf (fork_to s q child w') ∧
  (∀ r a, r ≠ q → view_of (fork_to s q child w') r a = view_of s r a) ∧
  (∀ a, view_of (fork_to s q child w') q a = view_of s p a).
Proof.
  intros [Hh Hm Hr] Hp Hq [Hpm Hpw Hpc Hcw Hcc Hco Hoth Hby].
  assert (Hst : ∀ b, strong (w_host w') b = strong (s_heap s) b + refs child b).
  { intros b. specialize (Hoth b). rewrite Hpm in Hoth. unfold others in Hoth. simpl in Hoth. lia. }
  assert (Hgrow : ∀ r mr, s_memories s !! r = Some mr →
    mem_wf (w_host w') mr ∧ same_cells (at_heap (s_heap s) mr) (at_heap (w_host w') mr)).
  { intros r mr Hmr. apply heap_grown; [by eapply Hm|apply Hpw| |done].
    intros b. rewrite Hst. pose proof (refs_nonneg child b). lia. }
  split_and!.
  - split; simpl; [apply Hpw| |].
    + intros r mr [[<- <-]|[_ Hmr]]%lookup_insert_Some; [done|by apply (Hgrow r)].
    + intros b. rewrite sum_refs_insert, Hst by done. specialize (Hr b). lia.
  - intros r a Hne. unfold view_of; simpl. rewrite lookup_insert_ne by done.
    destruct (s_memories s !! r) as [mr|] eqn:Hmr; simpl; [|done]. by apply (Hgrow r).
  - intros a. unfold view_of; simpl. rewrite lookup_insert_eq, Hp. simpl. apply Hcc.
Qed.

Lemma exit_process s p m :
  sys_wf s → s_memories s !! p = Some m →
  sys_wf (exit_to s p m) ∧ ∀ q, q ≠ p → ∀ a, view_of (exit_to s p m) q a = view_of s q a.
Proof.
  intros [Hh Hm Hr] Hp. pose proof (Hm _ _ Hp) as Hwf.
  destruct (drop_list_spec (bt_iter (gm_allocations m)) (at_heap (s_heap s) m)) as (Haw & Ho & _).
  { by apply mem_wf_allocs. }
  { apply bt_iter_NoDup. }
  { intros [id al]. apply elem_of_bt_iter. }
  set (h' := s_heap (exit_to s p m)).
  set (m0 := set_allocations (λ als, foldr (λ p als, delete p.1 als) als (bt_iter (gm_allocations m))) m).
  change (allocs_wf h' m0) in Haw. change (respects_others (at_heap (s_heap s) m) (at_heap h' m0)) in Ho.
  assert (Hm0 : ∀ b, refs m0 b = 0).
  { intros b. unfold refs, m0; simpl.
    assert (foldr (λ p als, delete p.1 als) (gm_allocations m) (bt_iter (gm_allocations m)) = ∅) as ->.
    { apply map_eq. intros id. rewrite foldr_delete_lookup, lookup_empty. case_bool_decide as Hk; [done|].
      destruct (gm_allocations m !! id) eqn:Hid; [|done]. exfalso. apply Hk. apply elem_of_bt_keys. eauto. }
    by rewrite map_filter_empty. }
  assert (Hst : ∀ b, strong h' b = strong (s_heap s) b - refs m b).
  { intros b. destruct (proj2 Ho b) as [Heq _]. unfold others in Heq. simpl in Heq.
    specialize (Hm0 b). lia. }
  assert (Hiso : ∀ q mq, q ≠ p → s_memories s !! q = Some mq →
    mem_wf h' mq ∧ same_cells (at_heap (s_heap s) mq) (at_heap h' mq)).
  { intros q mq Hne Hq. destruct (isolation (s_heap s) h' m m0 mq) as (? & _ & ?); [done|apply Haw|eauto| |done].
    intros b. specialize (Hr b). pose proof (sum_refs_two _ _ _ _ _ b Hp Hq ltac:(done)). lia. }
  split.
  - split; [apply Haw| |].
    + intros q mq Hq. simpl in Hq. apply lookup_delete_Some in Hq as [Hne Hq]. by apply (Hiso q).
    + intros b. change (s_heap (exit_to s p m)) with h'. rewrite Hst. specialize (Hr b).
      simpl. rewrite (sum_refs_delete _ _ _ _ Hp) in Hr. lia.
  - intros q Hne a. unfold view_of. change (s_heap (exit_to s p m)) with h'. simpl.
    rewrite lookup_delete_ne by done. destruct (s_memories s !! q) as [mq|] eqn:Hq; simpl; [|done].
    by apply (Hiso q).
Qed.

(** A mmap minds the other memories whatever it returns, and keeps its own well formed unless the
    host refuses it. *)
Lemma mmap_respects w args r w' :
  world_wf w → may_map (w_mem w) args → mmap args w = (r, w') →
  r ≠ Panic ∧ respects_others w w' ∧ heap_wf (w_host w') ∧ (refused r w' = false → world_wf w').
Proof.
  intros Hwf (Ha & Hl & Hmode & Hbase) Hrun. pose proof (wp_mmap w args Hwf Hmode Hbase Ha Hl) as Hwp.
  unfold wp in Hwp. rewrite Hrun in Hwp. destruct r as [a|e|]; [| |done].
  - destruct Hwp as (pr & kind & len & w1 & _ & _ & _ & _ & _ & _ & _ & Hcl & Hmp).
    pose proof (contained_trans _ _ _ (cleared_contained _ _ _ _ _ Hwf Hcl) (mp_contained _ _ _ _ _ _ _ Hmp)) as [Hwf' Ho _].
    split_and!; [done|done|apply Hwf'|done].
  - destruct Hwp as [_ [->|(a & len & w1 & Hcl & _ & Hf)]]; [split_and!; [done|done|apply Hwf|done]|].
    pose proof (cleared_contained _ _ _ _ _ Hwf Hcl) as Hct. destruct Hf as [[Hct' _]|[Hs Hr]].
    + pose proof (contained_trans _ _ _ Hct Hct') as [Hwf' Ho _]. split_and!; [done|done|apply Hwf'|done].
    + split_and!; [done|by etransitivity; [apply Hct|apply Hs]|apply Hs|]. unfold refused.
      destruct Hr as [-> |Hid]; [done|]. rewrite (proj2 (Z.leb_le _ _) Hid). by rewrite orb_true_r.
Qed.

(** Whatever happens to one memory, the others see what they saw. *)
Lemma others_view s p m w' :
  sys_wf s → s_memories s !! p = Some m → heap_wf (w_host w') → respects_others (at_heap (s_heap s) m) w' →
  ∀ q, q ≠ p → ∀ a, view_of (put s p w') q a = view_of s q a.
Proof.
  intros [Hh Hm Hr] Hp Hh' Ho q Hne a. unfold view_of; simpl. rewrite lookup_insert_ne by done.
  destruct (s_memories s !! q) as [mq|] eqn:Hq; simpl; [|done].
  destruct (isolation (s_heap s) (w_host w') m (w_mem w') mq) as (_ & _ & H); [by destruct w'|done|eauto| |apply H].
  intros b. specialize (Hr b). pose proof (sum_refs_two _ _ _ _ _ b Hp Hq ltac:(done)). lia.
Qed.

(** Every step keeps the invariant, and changes the view of one process only. *)
Lemma step_safe l s s' :
  sys_wf s → step l s s' → sys_wf s' ∧ ∀ q, q ≠ changed l → ∀ a, view_of s' q a = view_of s q a.
Proof.
  intros Hs Hstep. destruct Hstep as [s p m o r w' Hp Hun Hrun|s p m args r w' Hp Hmap Hrun Hno
    |s p q m child w' Hp Hq Hrun|s p m Hp].
  - pose proof (run_access_safe (at_heap (s_heap s) m) o (sw_mem _ Hs _ _ Hp) Hun) as Hwp.
    unfold wp in Hwp. rewrite Hrun in Hwp. assert (world_wf w' ∧ respects_others (at_heap (s_heap s) m) w') as [Hwf' Ho]
      by (by destruct r). by apply (update_process _ _ _ _ Hs Hp Hwf' Ho).
  - destruct (mmap_respects (at_heap (s_heap s) m) _ _ _ (sw_mem _ Hs _ _ Hp) Hmap Hrun) as (_ & Ho & _ & Hwf').
    by apply (update_process _ _ _ _ Hs Hp (Hwf' Hno) Ho).
  - pose proof (wp_try_clone_runtime (at_heap (s_heap s) m) (sw_mem _ Hs _ _ Hp)) as Hwp.
    unfold wp in Hwp. rewrite Hrun in Hwp.
    destruct (fork_process _ _ _ _ _ _ Hs Hp Hq Hwp) as (Hwf' & Hother & _).
    split; [exact Hwf'|]. intros r Hne a. by apply Hother.
  - by apply exit_process.
Qed.

(** After a fork the child sees what its parent saw. *)
Lemma fork_step_view p q s s' :
  sys_wf s → step (Fork p q) s s' → ∀ a, view_of s' q a = view_of s p a.
Proof.
  intros Hs Hstep a. inversion Hstep as [| |? ? ? m child w' Hp Hq Hrun|]; subst.
  pose proof (wp_try_clone_runtime (at_heap (s_heap s) m) (sw_mem _ Hs _ _ Hp)) as Hwp.
  unfold wp in Hwp. rewrite Hrun in Hwp. by apply (fork_process _ _ _ _ _ _ Hs Hp Hq Hwp).
Qed.

Lemma attempt_others l s s' :
  sys_wf s → attempt l s s' → ∀ q, q ≠ changed l → ∀ a, view_of s' q a = view_of s q a.
Proof.
  intros Hs Ha. destruct Ha as [l s s' Hst|s p m args e w' Hp Hmap Hrun]; [by apply (step_safe l)|].
  destruct (mmap_respects (at_heap (s_heap s) m) _ _ _ (sw_mem _ Hs _ _ Hp) Hmap Hrun) as (_ & Ho & Hh & _). by apply (others_view _ _ m).
Qed.

(** Any interleaving of steps. *)
Definition steps : relation System := rtc (λ s s', ∃ l, step l s s').

Lemma steps_safe s s' : sys_wf s → steps s s' → sys_wf s'.
Proof. intros Hs Hr. induction Hr as [s|s1 s2 s3 [l Hst] _ IH]; [done|]. apply IH. by apply (step_safe l s1). Qed.
End system.
