(* ===== verification/GuestMemoryTheorems.v ===== *)
(** * Guest memory: theorems

    The properties of the memory manager, stated against the flat address space
    [cell_at], with concrete instances, and the scenarios in which the code departs from
    what it means to do. *)

From S2P Require Import Prelude SysAbi HostMemory GuestMemory GuestMemoryOps GuestVmas.
From S2P Require Import GuestMemoryInv GuestMemoryHost GuestMemorySteps GuestMemoryAccess.
From S2P Require Import GuestMemoryMmap GuestMemoryFork.
From S2P Require Import GuestMemorySystem.
From stdpp Require Import base gmap list sorting strings.
From Stdlib Require Import ZArith Lia.
Open Scope Z_scope.

(** ** A concrete host and memory *)
#[local] Instance PlainOs : HostOs := {|
  os_granularity := 0x1000;
  os_allocate _ _ size _ := if size <? 0 then inr invalid_input else inl (replicate (Z.to_nat size) 0);
  os_protect _ _ _ _ := None;
  os_flush _ _ _ := None;
|}.

#[local] Instance PlainOsLaws : HostOsLaws PlainOs.
Proof.
  split; [by left|]. intros clock address size p bytes. unfold os_allocate; simpl.
  destruct (Z.ltb_spec size 0); [done|]. intros [= <-]. unfold zlen. rewrite length_replicate. lia.
Qed.

Definition empty_heap : HostHeap := {| hh_blocks := ∅; hh_next := 1; hh_clock := O |}.

Definition empty_memory : GuestMemory :=
  {| gm_vmas := ∅; gm_allocations := ∅; gm_next_allocation_id := 1;
     gm_brk_base := 0x400000; gm_current_brk := 0x400000; gm_mmap_base := 0x700000;
     gm_address_space_end := 0x800000; gm_host_address_mode := Flexible;
     gm_executable_write_generation := 0 |}.

Definition empty_world : World := {| w_host := empty_heap; w_mem := empty_memory |}.

Lemma empty_memory_layout : with_layout 0x400000 0x700000 0x800000 = Ok empty_memory.
Proof. reflexivity. Qed.

(** A memory fresh from [with_layout] is well formed. *)
Lemma empty_world_wf : world_wf empty_world.
Proof.
  split; simpl.
  - split; intros b; unfold contents; simpl; by rewrite lookup_empty.
  - apply empty_wf. unfold GUEST_PAGE_SIZE. lia.
  - intros id al. by rewrite lookup_empty.
  - intros id al. by rewrite lookup_empty.
  - intros b. unfold refs, strong, contents; simpl. by rewrite map_filter_empty, lookup_empty.
  - intros k v. by rewrite lookup_empty.
Qed.

Lemma empty_world_disjoint : allocs_disjoint empty_world.
Proof. intros id1 id2 g1 b1 g2 b2 _. unfold alloc_view; simpl. by rewrite lookup_empty. Qed.

Definition page_args : MmapSyscallArgs :=
  {| mm_addr := 0; mm_length := 4096; mm_prot := 7; mm_flags := 0x22; mm_fd := -1; mm_offset := 0 |}.

(** One page at 0x700000, readable, writable and executable. *)
Definition page_world : World := (mmap page_args empty_world).2.

Lemma page_mapped : ∃ w1, cleared empty_world w1 false 0x700000 0x701000 ∧
  mapped w1 page_world 0x700000 0x701000 {| p_read := true; p_write := true; p_execute := true |} Anonymous.
Proof.
  pose proof (wp_mmap empty_world page_args empty_world_wf eq_refl ltac:(simpl; lia) ltac:(simpl; lia) ltac:(simpl; lia)) as H.
  unfold wp in H. assert (Hr : (mmap page_args empty_world).1 = Ok 0x700000) by (vm_compute; reflexivity).
  unfold page_world. destruct (mmap page_args empty_world) as [r w']. simpl in Hr. subst r.
  destruct H as (p & kind & len & w1 & Hp & Hk & Hl & _ & _ & _ & _ & Hcl & Hm). simpl in *.
  vm_compute in Hp, Hk, Hl. simplify_eq. eauto.
Qed.

Lemma page_world_wf : world_wf page_world.
Proof. destruct page_mapped as (w1 & _ & [[] _ _ _]). done. Qed.

(** ** What the operations promise *)
Section promises.
Context `{OS : HostOs}.

(** [read] returned the bytes of the range, every one readable. *)
Definition read_done (w : World) (address len : Z) (bs : list Z) (w' : World) : Prop :=
  w' = w ∧ zlen bs = len ∧
  ∀ i, 0 ≤ i < len → ∃ b, byte_at bs i = Some b ∧ grants AccessRead w (address + i) b.

(** [read] met the end of the integers, or the first address that faults. *)
Definition read_faulted (w : World) (address len : Z) (e : GuestMemoryError) (w' : World) : Prop :=
  w' = w ∧
  (e = InvalidLength ∧ 2 ^ 64 ≤ address + len ∨
   ∃ a, address ≤ a < address + len ∧ fault AccessRead w a e ∧
        ∀ a', address ≤ a' < a → accessible AccessRead w a').

(** The generation counter after a write that did or did not touch executable cells. *)
Definition generation_after (w w' : World) (touched : bool) : Prop :=
  gm_executable_write_generation (w_mem w') =
  (if touched then wadd (gm_executable_write_generation (w_mem w)) 1
   else gm_executable_write_generation (w_mem w)).

Definition write_done (w : World) (address : Z) (bytes : list Z) (w' : World) : Prop :=
  world_wf w' ∧ respects_others w w' ∧ stored w w' address bytes ∧
  (∀ a, address ≤ a < address + zlen bytes → accessible AccessWrite w a) ∧
  ∃ touched, generation_after w w' touched ∧
    (touched = true ↔ ∃ a, address ≤ a < address + zlen bytes ∧ executable w a).

Definition write_stopped (w : World) (address : Z) (bytes : list Z) (e : GuestMemoryError) (w' : World) : Prop :=
  world_wf w' ∧ respects_others w w' ∧ generation_after w w' false ∧
  (e = InvalidLength ∧ w' = w ∨
   ∃ n, 0 ≤ n ≤ zlen bytes ∧ stored w w' address (take (Z.to_nat n) bytes) ∧
     (∀ a, address ≤ a < address + n → accessible AccessWrite w a) ∧
     (resource_error e ∨ n < zlen bytes ∧ fault AccessWrite w (address + n) e)).

Definition unmap_done (w : World) (args : MunmapSyscallArgs) (w' : World) : Prop :=
  contained w w' ∧ ∃ e, checked_page_range (mu_addr args) (mu_length args) = Ok e ∧
    unmapped w w' (mu_addr args) e.

Definition unmap_refused (w : World) (args : MunmapSyscallArgs) (e : GuestMemoryError) (w' : World) : Prop :=
  w' = w ∧ checked_page_range (mu_addr args) (mu_length args) = Err e.

Definition protect_done (w : World) (args : MprotectSyscallArgs) (w' : World) : Prop :=
  contained w w' ∧ ∃ p, protection_from_linux (mp_prot args) = Ok p ∧
    (mp_length args = 0 ∧ w' = w ∨
     ∃ e, checked_page_range (mp_addr args) (mp_length args) = Ok e ∧
          (∀ a, mp_addr args ≤ a < e → is_Some (cell_at w a)) ∧
          reprotected w w' (mp_addr args) e p).

Definition protect_refused (w : World) (args : MprotectSyscallArgs) (e : GuestMemoryError) (w' : World) : Prop :=
  contained w w' ∧ same_cells w w' ∧
  (resource_error e ∨
   e = NotMapped ∧ ∃ last a, checked_page_range (mp_addr args) (mp_length args) = Ok last ∧
     mp_addr args ≤ a < last ∧ cell_at w a = None).

(** Where [mmap] puts a mapping of [len] bytes. *)
Definition chosen (w : World) (args : MmapSyscallArgs) (len s : Z) : Prop :=
  aligned s ∧ MIN_GUEST_ADDRESS ≤ s ∧ s + len ≤ gm_address_space_end (w_mem w) ∧
  if is_fixed args || is_fixed_noreplace args then s = mm_addr args else free_place (w_mem w) len s.

(** [mmap] mapped [s, s+len): zeros with the requested protection; the range was free
    unless the mapping is fixed; the rest of the address space is as it was. *)
Definition map_done (w : World) (args : MmapSyscallArgs) (s : Z) (w' : World) : Prop :=
  contained w w' ∧ ∃ p kind len, protection_from_linux (mm_prot args) = Ok p ∧
    mmap_kind args = Ok kind ∧ page_round_length (mm_length args) = Ok len ∧ chosen w args len s ∧
    (∀ a, s ≤ a < s + len →
       cell_at w' a = Some {| c_protection := p; c_kind := kind; c_byte := 0 |} ∧
       (is_fixed args = false → cell_at w a = None)) ∧
    (allocs_disjoint w → (∀ a, ¬ s ≤ a < s + len → cell_at w' a = cell_at w a) ∧ allocs_disjoint w').
End promises.

(** ** The guest's own accesses *)

(** [read] returns the bytes of the whole range, or the error of the first address that
    is unmapped or unreadable, and changes nothing. *)
Theorem read_spec `{OS : HostOs} `{OL : !HostOsLaws OS} (w : World) (address len : Z)
    (Hwf : world_wf w) (Ha : 0 ≤ address) (Hl : 0 ≤ len) :
  wp (read address len) (read_done w address len) (read_faulted w address len) w.
Proof. by apply wp_copy_guest. Qed.

Lemma read_spec_witness :
  world_wf page_world ∧ 0 ≤ 0x700ff0 ∧ 0 ≤ 8 ∧
  wp (read 0x700ff0 8) (read_done page_world 0x700ff0 8) (read_faulted page_world 0x700ff0 8) page_world.
Proof.
  split; [exact page_world_wf|]. split; [lia|]. split; [lia|].
  apply (read_spec page_world 0x700ff0 8 page_world_wf); lia.
Defined.

Lemma write_guest_spec `{OS : HostOs} `{OL : !HostOsLaws OS} w address bytes :
  world_wf w → 0 ≤ address →
  wp (write_guest address bytes) (λ _, write_done w address bytes) (write_stopped w address bytes) w.
Proof.
  intros Hwf Ha. pose proof (zlen_nonneg bytes). unfold write_guest. wp_step.
  apply wp_lift; [| |auto with mcr].
  - intros e [-> He]%checked_raw_range_Ok; [|done]. wp_step.
    eapply wp_mono; [apply wp_write_guest_loop; [done|lia|lia|lia|lia]|..]; cbv beta.
    + intros t w' (Hct & Hst & Hacc & Ht). destruct (write_generation _ _ Hct) as (_ & ? & ?).
      pose proof (ct_layout _ _ Hct) as (_ & _ & _ & _ & _ & Hg).
      destruct t; mem_steps.
      * split_and!; [done|done|exact Hst|done|]. exists true.
        split; [unfold generation_after; simpl; by rewrite Hg|]. rewrite Ht. naive_solver.
      * split_and!; [apply Hct|apply Hct|done|done|]. exists false.
        split; [unfold generation_after; by rewrite Hg|]. split; [done|]. intros Hex. apply Ht. by right.
    + intros e w' (Hct & n & Hn & Hst & Hacc & Herr).
      pose proof (ct_layout _ _ Hct) as (_ & _ & _ & _ & _ & Hg).
      split_and!; [apply Hct|apply Hct|done|]. right. exists n. done.
  - intros e He. split_and!; [done|done|done|]. left. split; [|done].
    unfold checked_raw_range in He. repeat (case_match; simplify_eq); done.
Qed.

(** C1. [write] stores exactly the given bytes in exactly the given range when it succeeds,
    and then every address was writable; when it fails it stored a prefix, up to the
    first address that faults (or a host refusal).  No other cell of this memory, no
    block of another owner changes, and the generation counter of executable writes moves
    exactly when a successful write touched an executable cell. *)
Theorem write_spec `{OS : HostOs} `{OL : !HostOsLaws OS} (w : World) (address : Z) (bytes : list Z)
    (Hwf : world_wf w) (Ha : 0 ≤ address) :
  wp (write address bytes) (λ _, write_done w address bytes) (write_stopped w address bytes) w.
Proof. by apply write_guest_spec. Qed.

Lemma write_spec_witness :
  world_wf page_world ∧ 0 ≤ 0x700ffe ∧
  wp (write 0x700ffe [1; 2]) (λ _, write_done page_world 0x700ffe [1; 2])
     (write_stopped page_world 0x700ffe [1; 2]) page_world.
Proof.
  split; [exact page_world_wf|]. split; [lia|].
  apply (write_spec page_world 0x700ffe [1; 2] page_world_wf); lia.
Defined.

(** Writing bytes and reading the range back gives the bytes, when the range is readable. *)
Theorem write_then_read `{OS : HostOs} `{OL : !HostOsLaws OS} (w w1 : World) (address : Z) (bytes : list Z)
    (Hwf : world_wf w) (Ha : 0 ≤ address) (Hw : write address bytes w = (Ok tt, w1))
    (Hr : ∀ a, address ≤ a < address + zlen bytes → accessible AccessRead w a) :
  read address (zlen bytes) w1 = (Ok bytes, w1).
Proof.
  pose proof (write_guest_spec w address bytes Hwf Ha) as Hwp. unfold wp in Hwp.
  unfold write in Hw. rewrite Hw in Hwp. destruct Hwp as (Hwf1 & _ & Hst & _).
  pose proof (wp_copy_guest w1 address (zlen bytes) AccessRead Hwf1 Ha (zlen_nonneg bytes)) as Hrd.
  unfold wp in Hrd. unfold read. destruct (copy_guest address (zlen bytes) AccessRead w1) as [[bs|e|] w2] eqn:Hcp;
    [| |done].
  - destruct Hrd as (-> & Hlen & Hbs). f_equal. f_equal. apply bytes_ext; [done|]. intros i Hi.
    destruct (Hbs i ltac:(lia)) as (b & Hb & c & Hc & _ & <-). rewrite Hst in Hc.
    replace (address + i - address) with i in Hc by lia.
    destruct (byte_at_Some bytes i ltac:(lia)) as [b' Hb']. rewrite Hb' in Hc.
    apply fmap_Some in Hc as (c0 & _ & ->). rewrite Hb, Hb'. done.
  - exfalso. destruct Hrd as [_ [[_ Hov]|(a & Ha' & Hft & _)]].
    + unfold write_guest, bind, lift in Hw. destruct (checked_raw_range address (zlen bytes)) as [e'|e'|] eqn:He; [|done|done].
      apply checked_raw_range_Ok in He as [_ ?]; [lia|apply zlen_nonneg].
    + destruct (Hr a Ha') as (b & Hg). apply fault_prot in Hft. rewrite (stored_prot _ _ _ _ _ Hst) in Hft.
      apply (ex_intro _ b), accessible_prot in Hg as (p & Hp & Hal). rewrite Hp in Hft. destruct Hft. congruence.
Qed.

Lemma write_then_read_witness :
  world_wf page_world ∧ 0 ≤ 0x700010 ∧
  write 0x700010 [1; 2; 3] page_world = (Ok tt, (write 0x700010 [1; 2; 3] page_world).2) ∧
  (∀ a, 0x700010 ≤ a < 0x700010 + zlen [1; 2; 3] → accessible AccessRead page_world a) ∧
  read 0x700010 (zlen [1; 2; 3]) (write 0x700010 [1; 2; 3] page_world).2 =
    (Ok [1; 2; 3], (write 0x700010 [1; 2; 3] page_world).2).
Proof.
  assert (Hw : write 0x700010 [1; 2; 3] page_world = (Ok tt, (write 0x700010 [1; 2; 3] page_world).2))
    by (vm_compute; reflexivity).
  assert (Hr : ∀ a, 0x700010 ≤ a < 0x700010 + zlen [1; 2; 3] → accessible AccessRead page_world a).
  { destruct page_mapped as (w1 & _ & [_ _ Hnew _]). intros a Ha. unfold zlen in Ha; simpl in Ha.
    exists 0. eexists. split; [apply Hnew; lia|]. split; reflexivity. }
  split; [exact page_world_wf|]. split; [lia|]. split; [exact Hw|]. split; [exact Hr|].
  apply (write_then_read page_world _ 0x700010 [1; 2; 3] page_world_wf); [lia|exact Hw|exact Hr].
Defined.

(** ** Changing the map *)

(** [munmap] rejects a bad range and changes nothing, or unmaps exactly the pages of the
    range: every other address keeps its byte, protection and kind, even where a VMA is
    split or a shared block is detached. *)
Theorem munmap_spec `{OS : HostOs} `{OL : !HostOsLaws OS} (w : World) (args : MunmapSyscallArgs)
    (Hwf : world_wf w) (Ha : 0 ≤ mu_addr args) (Hl : 0 ≤ mu_length args) :
  wp (munmap args) (λ _, unmap_done w args) (unmap_refused w args) w.
Proof. by apply wp_munmap. Qed.

Lemma munmap_spec_witness :
  let args := {| mu_addr := 0x700000; mu_length := 100 |} in
  world_wf page_world ∧ 0 ≤ mu_addr args ∧ 0 ≤ mu_length args ∧
  wp (munmap args) (λ _, unmap_done page_world args) (unmap_refused page_world args) page_world.
Proof.
  intros args. split; [exact page_world_wf|]. split; [simpl; lia|]. split; [simpl; lia|].
  apply (munmap_spec page_world args page_world_wf); simpl; lia.
Defined.

(** C35. [mprotect] changes the protection of exactly the pages of a fully mapped range and
    keeps every byte; when it fails no cell changes, and the error is [NotMapped] only if
    an address of the range is unmapped. *)
Theorem mprotect_spec `{OS : HostOs} `{OL : !HostOsLaws OS} (w : World) (args : MprotectSyscallArgs)
    (Hwf : world_wf w) (Ha : 0 ≤ mp_addr args) (Hl : 0 ≤ mp_length args) :
  wp (mprotect args) (λ _, protect_done w args) (protect_refused w args) w.
Proof. by apply wp_mprotect. Qed.

Lemma mprotect_spec_witness :
  let args := {| mp_addr := 0x700000; mp_length := 4096; mp_prot := 1 |} in
  world_wf page_world ∧ 0 ≤ mp_addr args ∧ 0 ≤ mp_length args ∧
  wp (mprotect args) (λ _, protect_done page_world args) (protect_refused page_world args) page_world.
Proof.
  intros args. split; [exact page_world_wf|]. split; [simpl; lia|]. split; [simpl; lia|].
  apply (mprotect_spec page_world args page_world_wf); simpl; lia.
Defined.

Lemma wp_map_done `{OS : HostOs} `{OL : !HostOsLaws OS} w args :
  world_wf w → gm_host_address_mode (w_mem w) = Flexible → 0 ≤ gm_mmap_base (w_mem w) →
  0 ≤ mm_addr args → 0 ≤ mm_length args →
  wp (mmap args) (map_done w args) (λ e _, resource_error e) w.
Proof.
  intros Hwf Hmode Hbase Ha Hl. eapply wp_mono; [by apply wp_mmap|..]; cbv beta; [|by intros e w' [? _]].
  intros s w' (p & kind & len & w1 & Hp & Hk & Hlen & Has & Hmin & Hsp & Hplace & Hcl & [Hct Hfree Hnew Hother]).
  pose proof (cleared_contained _ _ _ _ _ Hwf Hcl) as Hct1.
  split; [by eapply contained_trans|]. exists p, kind, len. split_and!; [done..| |].
  - intros a Hin. split; [by apply Hnew|]. intros Hf. rewrite Hf in Hcl. simpl in Hcl. subst w1. by apply Hfree.
  - intros Hd. unfold cleared in Hcl. destruct (is_fixed args).
    + destruct Hcl as (_ & Hun & Hd1). destruct (Hother (Hd1 Hd)) as [Hoth ?]. split; [|done].
      intros a Hout. rewrite Hoth, Hun by done. unfold in_range.
      destruct (Z.leb_spec s a), (Z.ltb_spec a (s + len)); simpl; (done || lia).
    + subst w1. by apply Hother.
Qed.

(** C4. A successful [mmap] of anonymous memory in a flexible address space returns an aligned
    start within the address space (the requested one with MAP_FIXED, else one whose range
    is free); the range now reads as zeros with the requested protection, and as long as
    host allocations do not overlap, which [mmap] preserves, no other address changes. *)
Theorem mmap_spec `{OS : HostOs} `{OL : !HostOsLaws OS} (w : World) (args : MmapSyscallArgs)
    (Hwf : world_wf w) (Hmode : gm_host_address_mode (w_mem w) = Flexible)
    (Hbase : 0 ≤ gm_mmap_base (w_mem w)) (Ha : 0 ≤ mm_addr args) (Hl : 0 ≤ mm_length args) :
  wp (mmap args) (map_done w args) (λ e _, resource_error e) w.
Proof. by apply wp_map_done. Qed.

Lemma mmap_spec_witness :
  let args := {| mm_addr := 0x700000; mm_length := 8192; mm_prot := 3; mm_flags := 0x32; mm_fd := -1; mm_offset := 0 |} in
  world_wf page_world ∧ gm_host_address_mode (w_mem page_world) = Flexible ∧
  0 ≤ gm_mmap_base (w_mem page_world) ∧ 0 ≤ mm_addr args ∧ 0 ≤ mm_length args ∧
  wp (mmap args) (map_done page_world args) (λ e _, resource_error e) page_world.
Proof.
  intros args. assert (Hm : gm_host_address_mode (w_mem page_world) = Flexible) by (vm_compute; reflexivity).
  assert (Hb : 0 ≤ gm_mmap_base (w_mem page_world)) by (vm_compute; discriminate).
  split; [exact page_world_wf|]. split; [exact Hm|]. split; [exact Hb|]. split; [simpl; lia|]. split; [simpl; lia|].
  apply (mmap_spec page_world args page_world_wf Hm Hb); simpl; lia.
Defined.

(** The address search returns the least page-aligned free place at or above the hint, and
    fails only when the address space has no free place there. *)
Theorem find_free_range_least (m : GuestMemory) (hint len : Z)
    (Hwf : vmas_wf (gm_address_space_end m) (gm_vmas m)) (Hh : 0 ≤ hint) (Hl : 0 < len) :
  match find_free_range m hint len with
  | Ok r => free_place m len r ∧ hint ≤ r ∧ ∀ c, free_place m len c → hint ≤ c → r ≤ c
  | Err _ => ∀ c, free_place m len c → ¬ hint ≤ c
  | Panic => False
  end.
Proof. by apply (find_free_range_fits (gm_address_space_end m)). Qed.

Lemma find_free_range_least_witness :
  vmas_wf (gm_address_space_end (w_mem page_world)) (gm_vmas (w_mem page_world)) ∧ 0 ≤ 0x700000 ∧ 0 < 0x1000 ∧
  match find_free_range (w_mem page_world) 0x700000 0x1000 with
  | Ok r => free_place (w_mem page_world) 0x1000 r ∧ 0x700000 ≤ r ∧
      ∀ c, free_place (w_mem page_world) 0x1000 c → 0x700000 ≤ c → r ≤ c
  | Err _ => ∀ c, free_place (w_mem page_world) 0x1000 c → ¬ 0x700000 ≤ c
  | Panic => False
  end.
Proof.
  pose proof (mw_vmas _ _ page_world_wf) as Hwf. split; [exact Hwf|]. split; [lia|]. split; [lia|].
  apply (find_free_range_least (w_mem page_world) 0x700000 0x1000 Hwf); lia.
Defined.

(** ** Several processes *)

(** C18. [try_clone_runtime] gives the child of a fork the same bytes, protections and kinds at
    every address; the parent's memory is untouched, nobody else's references to a block
    change, and the two memories together stay within the reference counts, so that a later
    write of either is copied first. *)
Theorem fork_spec `{OS : HostOs} `{OL : !HostOsLaws OS} (w : World) (Hwf : world_wf w) :
  wp try_clone_runtime (cloned w) (clone_failure w) w.
Proof. by apply wp_try_clone_runtime. Qed.

Lemma fork_spec_witness :
  world_wf page_world ∧ wp try_clone_runtime (cloned page_world) (clone_failure page_world) page_world.
Proof. split; [exact page_world_wf|]. apply (fork_spec page_world page_world_wf). Defined.

(** A single process. *)
Definition alone (w : World) : System := {| s_heap := w_host w; s_memories := {[ 1 := w_mem w ]} |}.

Lemma alone_wf w : world_wf w → sys_wf (alone w).
Proof.
  intros [Hh Hv Hi Ha Hr Hb]. split; simpl; [done| |].
  - intros p m [<- <-]%lookup_singleton_Some. by split.
  - intros b. rewrite <- insert_empty, (sum_refs_insert ∅) by done. unfold sum_refs. rewrite map_fold_empty.
    specialize (Hr b). lia.
Qed.

Definition one_process : System := alone page_world.

Lemma one_process_wf : sys_wf one_process.
Proof. apply alone_wf, page_world_wf. Qed.


(** A process forks, writes to the page it shares with its child, and then the child writes there. *)
Definition forked_page : System :=
  match try_clone_runtime (at_heap (s_heap one_process) (w_mem page_world)) with
  | (Ok child, w') => fork_to one_process 2 child w'
  | _ => one_process
  end.

Definition write_by (p address byte : Z) (s : System) : System :=
  match s_memories s !! p with
  | Some m => put s p (run_access (DoWrite address [byte]) (at_heap (s_heap s) m)).2
  | None => s
  end.

Lemma write_by_step p address byte s m :
  s_memories s !! p = Some m → 0 ≤ address → step (Act p (DoWrite address [byte])) s (write_by p address byte s).
Proof.
  intros Hm Ha. unfold write_by. rewrite Hm.
  by eapply step_access; [exact Hm|exact Ha|apply surjective_pairing].
Qed.


(** ** Scenarios in which the code departs from what it means to do *)

Definition then_ {A B} (m : MemM A) (k : MemM B) : MemM B := bind m (λ _, k).

Definition map_at (address length prot flags : Z) : MemM unit :=
  bind (mmap {| mm_addr := address; mm_length := length; mm_prot := prot; mm_flags := flags;
                mm_fd := -1; mm_offset := 0 |}) (λ _, ret tt).

(** A write that runs off the mapping fails, but its prefix has changed an executable byte
    while the generation counter, by which the patch cache notices changed code, has not
    moved. *)
Example partial_write_hides_new_code :
  let '(r, w') := write 0x700FFF [1; 2] page_world in
  r = Err NotMapped ∧
  c_byte <$> cell_at page_world 0x700FFF = Some 0 ∧ c_byte <$> cell_at w' 0x700FFF = Some 1 ∧
  p_execute ∘ c_protection <$> cell_at w' 0x700FFF = Some true ∧
  gm_executable_write_generation (w_mem w') = gm_executable_write_generation (w_mem page_world).
Proof. vm_compute. repeat split. Qed.

(** [set_brk], which has no error of its own. *)
Definition brk_to (address : Z) : MemM unit := λ w,
  match set_brk address w with
  | (Ok _, w') => (Ok tt, w')
  | (Err e, _) => match e with end
  | (Panic, w') => (Panic, w')
  end.

(** brk to two pages, a byte stored in the second, which is then made read-only. *)
Definition split_heap : World :=
  (then_ (brk_to 0x402000) (then_ (write 0x401000 [42])
     (mprotect {| mp_addr := 0x401000; mp_length := 0x1000; mp_prot := 1 |})) empty_world).2.

(** Growing a heap that mprotect has split extends its first VMA over the second: two VMAs
    then overlap, and the byte stored in the heap reads as zero. *)
Example grown_split_heap_overlaps :
  let '(r, w') := brk_to 0x403000 split_heap in
  r = Ok tt ∧
  c_byte <$> cell_at split_heap 0x401000 = Some 42 ∧
  (λ p : Z * GuestVma, (v_start p.2, v_end p.2)) <$> bt_iter (gm_vmas (w_mem w')) =
    [(0x400000, 0x403000); (0x401000, 0x402000)] ∧
  c_byte <$> cell_at w' 0x401000 = Some 0.
Proof. vm_compute. repeat split. Qed.

(** A page of a forked mapping is made private, unmapped and mapped again, so that the old
    allocation, which still carries the stale bytes, has the greater id. *)
Definition stale_allocation : World :=
  (then_ (map_at 0x700000 0x6000 1 0x32) (then_ try_clone_runtime
     (then_ (mprotect {| mp_addr := 0x700000; mp_length := 0x3000; mp_prot := 3 |})
     (then_ (munmap {| mu_addr := 0x700000; mu_length := 0x1000 |})
     (then_ (map_at 0x700000 0x1000 3 0x32)
     (then_ (munmap {| mu_addr := 0x702000; mu_length := 0x4000 |})
     (write 0x700000 [7])))))) empty_world).2.

(** A mapping next to it then merges the allocations in the order of their ids, and the
    stale byte replaces the one the guest has just written. *)
Example merge_restores_stale_byte :
  let '(r, w') := map_at 0x702000 0x5000 3 0x100022 stale_allocation in
  r = Ok tt ∧ (read 0x700000 1 stale_allocation).1 = Ok [7] ∧ (read 0x700000 1 w').1 = Ok [0].
Proof. vm_compute. repeat split. Qed.
