(* ===== verification/Bytes.v ===== *)
(** * Byte buffers

    Little-endian words, writes to a range of a buffer and the stable sort by a key that
    the loaders use. *)

From S2P Require Import Prelude.
From stdpp Require Import base list sorting.
From Stdlib Require Import ZArith Lia.
From Stdlib Require Strings.Byte.
Open Scope Z_scope.

(** [Result::map_err] *)
Definition map_err {A E F} (f : E → F) (o : outcome A E) : outcome A F :=
  match o with
  | Ok a => Ok a
  | Err e => Err (f e)
  | Panic => Panic
  end.

(** A loop over a slice with a [?] in its body, threading an accumulator. *)
Fixpoint try_fold {A B E} (f : B → A → outcome B E) (acc : B) (l : list A) : outcome B E :=
  match l with
  | [] => Ok acc
  | x :: l => let? acc := f acc x in try_fold f acc l
  end.

(** ** Little-endian words *)
Fixpoint le_value (l : list Z) : Z :=
  match l with
  | [] => 0
  | b :: l => b + 256 * le_value l
  end.

(** [to_le_bytes] at a width of [n] bytes. *)
Fixpoint le_bytes (n : nat) (z : Z) : list Z :=
  match n with
  | O => []
  | S n => z mod 256 :: le_bytes n (z / 256)
  end.

(** [uN::from_le_bytes] of the [n] bytes at an offset; an index out of range panics. *)
Definition read_le {E} (n : Z) (bytes : list Z) (offset : Z) : outcome Z E :=
  let? word := expect (slice bytes offset (offset + n)) in Ok (le_value word).

Definition read_u16 {E} (bytes : list Z) (offset : Z) : outcome Z E := read_le 2 bytes offset.
Definition read_u32 {E} (bytes : list Z) (offset : Z) : outcome Z E := read_le 4 bytes offset.
Definition read_u64 {E} (bytes : list Z) (offset : Z) : outcome Z E := read_le 8 bytes offset.

(** [vec![0; n]] *)
Definition zero_vec (n : Z) : list Z := replicate (Z.to_nat n) 0.

(** [bytes[from..to].copy_from_slice(source)]: the range must lie in the buffer and have the
    length of the source. *)
Definition copy_into {E} (bytes : list Z) (from to : Z) (source : list Z) : outcome (list Z) E :=
  if (0 <=? from) && (from <=? to) && (to <=? zlen bytes) && (zlen source =? to - from)
  then Ok (splice bytes from source) else Panic.

(** ** The stable [sort_by_key] *)
Section sort.
Context {A : Type} (key : A → Z).

Fixpoint insert_by_key (x : A) (l : list A) : list A :=
  match l with
  | [] => [x]
  | y :: l' => if key x <? key y then x :: l else y :: insert_by_key x l'
  end.

Definition sort_by_key (l : list A) : list A := foldl (λ acc x, insert_by_key x acc) [] l.

Definition sorted_by_key (l : list A) : Prop := StronglySorted (λ x y, key x ≤ key y) l.

Lemma insert_by_key_perm x l : insert_by_key x l ≡ₚ x :: l.
Proof.
  induction l as [|y l IH]; simpl; [done|]. destruct (_ <? _); [done|]. rewrite IH. constructor.
Qed.

Lemma foldl_insert_perm acc l : foldl (λ acc x, insert_by_key x acc) acc l ≡ₚ acc ++ l.
Proof.
  revert acc. induction l as [|x l IH]; intros acc; simpl; [by rewrite app_nil_r|].
  rewrite IH, insert_by_key_perm. by rewrite <- Permutation_middle.
Qed.

Lemma sort_by_key_perm l : sort_by_key l ≡ₚ l.
Proof. apply (foldl_insert_perm []). Qed.

Lemma insert_by_key_sorted x l : sorted_by_key l → sorted_by_key (insert_by_key x l).
Proof.
  induction 1 as [|y l Hs IH Hall]; simpl; [repeat constructor|].
  destruct (Z.ltb_spec (key x) (key y)).
  - repeat constructor; [done|done|lia|]. eapply Forall_impl; [exact Hall|]. simpl. lia.
  - constructor; [done|]. rewrite insert_by_key_perm. constructor; [lia|done].
Qed.

Lemma sort_by_key_sorted l : sorted_by_key (sort_by_key l).
Proof.
  unfold sort_by_key. generalize (SSorted_nil (λ x y, key x ≤ key y)). generalize (@nil A).
  induction l as [|x l IH]; intros acc Hacc; simpl; [done|]. by apply IH, insert_by_key_sorted.
Qed.
End sort.

(** ** Lemmas *)
Definition is_byte (b : Z) : Prop := 0 ≤ b < 256.

Lemma length_le_bytes n z : length (le_bytes n z) = n.
Proof. revert z. induction n; simpl; auto. Qed.

Lemma le_bytes_byte n z : Forall is_byte (le_bytes n z).
Proof.
  revert z. induction n as [|n IH]; simpl; intros z; constructor; [|done].
  unfold is_byte. apply Z.mod_pos_bound. lia.
Qed.

Lemma le_value_bound l : Forall is_byte l → 0 ≤ le_value l < 256 ^ zlen l.
Proof.
  induction 1 as [|b l Hb _ IH]; simpl; [done|]. unfold zlen in *. simpl length.
  rewrite Nat2Z.inj_succ, Z.pow_succ_r by lia. unfold is_byte in Hb. lia.
Qed.

Lemma le_value_bytes n z : le_value (le_bytes n z) = z mod 256 ^ Z.of_nat n.
Proof.
  revert z. induction n as [|n IH]; intros z; simpl le_bytes; simpl le_value.
  - by rewrite Z.pow_0_r, Z.mod_1_r.
  - rewrite IH, Nat2Z.inj_succ, Z.pow_succ_r by lia.
    rewrite Z.rem_mul_r; lia.
Qed.

Lemma read_le_Ok {E} n bytes offset :
  0 ≤ offset → 0 ≤ n → offset + n ≤ zlen bytes → ∃ v, read_le (E:=E) n bytes offset = Ok v.
Proof.
  intros. unfold read_le. destruct (slice_Some bytes offset (offset + n)) as [l ->]; [lia|lia|].
  simpl. eauto.
Qed.

Lemma slice_bytes l a b bs : Forall is_byte l → slice l a b = Some bs → Forall is_byte bs.
Proof.
  intros Hl. unfold slice. case_match; [|done]. intros [= <-]. by apply Forall_take, Forall_drop.
Qed.

Lemma read_le_bound {E} n bytes offset v :
  0 ≤ n → Forall is_byte bytes → read_le (E:=E) n bytes offset = Ok v → 0 ≤ v < 256 ^ n.
Proof.
  intros Hn Hb. unfold read_le. destruct (slice _ _ _) as [l|] eqn:Hs; simpl; [|done]. intros [= <-].
  pose proof (le_value_bound l (slice_bytes _ _ _ _ Hb Hs)) as Hv.
  rewrite (slice_length _ _ _ _ Hs) in Hv. by replace (offset + n - offset) with n in Hv by lia.
Qed.

Lemma zlen_zero_vec n : 0 ≤ n → zlen (zero_vec n) = n.
Proof. intros. unfold zlen, zero_vec. rewrite length_replicate. lia. Qed.

Lemma copy_into_Ok {E} bytes from to source :
  0 ≤ from ≤ to → to ≤ zlen bytes → zlen source = to - from →
  copy_into (E:=E) bytes from to source = Ok (splice bytes from source).
Proof. intros. unfold copy_into. case_match; [done|]. bprop; lia. Qed.

(** ** Bytes of a file

    The bytes of a [Vec<u8>] as integers. *)
Definition u8s (l : list Byte.byte) : list Z := (λ b, Z.of_N (Byte.to_N b)) <$> l.

Lemma u8s_bytes l : Forall is_byte (u8s l).
Proof.
  apply Forall_fmap, Forall_true. intros b. unfold is_byte; simpl.
  pose proof (Byte.to_N_bounded b). lia.
Qed.

(** ** Results that satisfy a postcondition

    [safe P o]: no panic, and [P] of the value when there is one. *)
Definition safe {A E} (P : A → Prop) (o : outcome A E) : Prop :=
  match o with
  | Ok a => P a
  | Err _ => True
  | Panic => False
  end.

Section safe.
Context {A B E F : Type}.

Lemma safe_bind (P : A → Prop) (Q : B → Prop) (o : outcome A E) (f : A → outcome B E) :
  safe P o → (∀ a, o = Ok a → P a → safe Q (f a)) → safe Q (obind o f).
Proof. destruct o; simpl; auto. Qed.

Lemma safe_weaken (P Q : A → Prop) (o : outcome A E) : safe P o → (∀ a, P a → Q a) → safe Q o.
Proof. destruct o; simpl; auto. Qed.

Lemma safe_map_err (P : A → Prop) (f : E → F) (o : outcome A E) : safe P o → safe P (map_err f o).
Proof. by destruct o. Qed.

Lemma safe_ok_or (P : A → Prop) (o : option A) (e : E) : (∀ a, o = Some a → P a) → safe P (ok_or o e).
Proof. destruct o; simpl; auto. Qed.

Lemma safe_expect (P : A → Prop) (o : option A) : (∃ a, o = Some a ∧ P a) → safe (E:=E) P (expect o).
Proof. by intros (a & -> & ?). Qed.

Lemma safe_Ok (P : A → Prop) (o : outcome A E) a : safe P o → o = Ok a → P a.
Proof. by intros H ->. Qed.

Lemma safe_no_panic (P : A → Prop) (o : outcome A E) : safe P o → o ≠ Panic.
Proof. by intros H ->. Qed.

End safe.

Lemma safe_try_fold {A B E} (I : B → Prop) (f : B → A → outcome B E) l acc :
  I acc → (∀ b x, x ∈ l → I b → safe I (f b x)) → safe I (try_fold f acc l).
Proof.
  revert acc. induction l as [|x l IH]; intros acc Hacc Hf; simpl; [done|].
  eapply safe_bind; [apply Hf; [by left|done]|]. intros b _ Hb. apply IH; [done|].
  intros c y Hy. apply Hf. by right.
Qed.

Lemma safe_collect {A B E} (P : B → Prop) (f : A → outcome B E) l :
  (∀ x, x ∈ l → safe P (f x)) → safe (Forall P) (collect f l).
Proof.
  induction l as [|x l IH]; intros Hf; simpl; [constructor|].
  eapply safe_bind; [apply Hf; by left|]. intros b _ Hb.
  eapply safe_bind; [apply IH; intros y Hy; apply Hf; by right|]. intros bs _ Hbs. simpl. by constructor.
Qed.
