(* ===== verification/SysCodec.v ===== *)
(** * mcr-sys: structures in guest memory

    codec.rs: what the system calls read from and write to the memory of the guest.  The memory
    is the class [GuestMemoryAccess], after the trait of that name; [GuestMemoryAccessLaws]
    states what the codecs' theorems rely on, and [SysCodecMemory] shows that the memory of
    mcr-memory provides it. *)

From S2P Require Import Prelude SysAbi Bytes.
From stdpp Require Import base list strings.
From Stdlib Require Import ZArith Lia.
Open Scope Z_scope.

Definition E2BIG : LinuxErrno := 7.
Definition EAFNOSUPPORT : LinuxErrno := 97.

Definition LINUX_IOV_MAX : Z := 1024.
Definition LINUX_MAX_C_STRING_LEN : nat := Z.to_nat 4096.
Definition LINUX_MAX_VECTOR_ITEMS : nat := Z.to_nat 4096.
Definition LINUX_MAX_SELECT_FDS : Z := 4096.
Definition LINUX_SELECT_FD_BITS : Z := 64.
Definition LINUX_SOCKADDR_IN_LEN : Z := 16.
Definition LINUX_SOCKADDR_IN6_LEN : Z := 28.
Definition LINUX_SOCKADDR_UN_PATH_LEN : Z := 108.
Definition LINUX_SOCKADDR_UN_LEN : Z := 2 + LINUX_SOCKADDR_UN_PATH_LEN.

Definition LINUX_AF_UNIX : Z := 1.
Definition LINUX_AF_INET : Z := 2.
Definition LINUX_AF_INET6 : Z := 10.

Definition LINUX_POLLIN : Z := 0x0001.
Definition LINUX_POLLPRI : Z := 0x0002.
Definition LINUX_POLLOUT : Z := 0x0004.
Definition LINUX_POLLERR : Z := 0x0008.
Definition LINUX_POLLHUP : Z := 0x0010.
Definition LINUX_POLLNVAL : Z := 0x0020.
Definition LINUX_POLLRDNORM : Z := 0x0040.
Definition LINUX_POLLWRNORM : Z := 0x0100.

(** [x as i16] *)
Definition as_i16 (z : Z) : Z := let w := z mod 2 ^ 16 in if w <? 2 ^ 15 then w else w - 2 ^ 16.

(** ** The memory of the guest *)
Inductive GuestMemoryAccessError : Type := Fault.

(** A read does not change the memory; a write that fails may have. *)
Class GuestMemoryAccess (M : Type) : Type := {
  read_bytes : Z → Z → M → outcome (list Z) GuestMemoryAccessError;
  write_bytes : Z → list Z → ST M GuestMemoryAccessError unit;
}.

Inductive LinuxSocketAddress : Type :=
| LinuxUnix (path : list Z) (len : Z)
| LinuxInet (address : list Z) (port : Z)
| LinuxInet6 (address : list Z) (port flowinfo scope_id : Z).

(** [LinuxSocketAddress::unix]; the array of the path has 108 bytes. *)
Definition linux_unix (path : list Z) : outcome LinuxSocketAddress LinuxErrno :=
  if LINUX_SOCKADDR_UN_PATH_LEN <? zlen path then Err EINVAL
  else Ok (LinuxUnix (splice (zero_vec LINUX_SOCKADDR_UN_PATH_LEN) 0 path) (zlen path)).

Record LinuxSelectInterest : Type := {
  si_fd : Z; si_events : Z; si_read : bool; si_write : bool; si_exceptional : bool;
}.

Record LinuxTimespec : Type := { tv_sec : Z; tv_nsec : Z }.
Record LinuxPollfd : Type := { pf_fd : Z; pf_events : Z; pf_revents : Z }.
Record LinuxIovec : Type := { iov_base : Z; iov_len : Z }.
Record LinuxMsghdr : Type := {
  msg_name : Z; msg_namelen : Z; msg_pad1 : Z; msg_iov : Z; msg_iovlen : Z;
  msg_control : Z; msg_controllen : Z; msg_flags : Z; msg_pad2 : Z;
}.

(** [Duration::new], in nanoseconds. *)
Definition duration_new (secs nanos : Z) : Z := secs * 1000000000 + nanos.

Definition memory_errno (e : GuestMemoryAccessError) : LinuxErrno := EFAULT.

Section codec.
Context {M : Type} `{!GuestMemoryAccess M}.

(** A reader takes the memory it reads from. *)
Definition Reader (A : Type) : Type := M → outcome A LinuxErrno.
Definition Writer : Type → Type := ST M LinuxErrno.

Definition reader (addr len : Z) : Reader (list Z) := λ m, map_err memory_errno (read_bytes addr len m).
Definition writer (addr : Z) (bytes : list Z) : Writer unit :=
  λ m, let '(r, m') := write_bytes addr bytes m in (map_err memory_errno r, m').
(** A writer that reads. *)
Definition reading_memory {A} (f : Reader A) : Writer A := λ m, (f m, m).

Definition fault_add (addr offset : Z) : outcome Z LinuxErrno := ok_or (checked_add64 addr offset) EFAULT.

Definition read_guest_u32 (addr : Z) : Reader Z :=
  λ m, let? bytes := reader addr 4 m in Ok (le_value bytes).
Definition write_guest_u32 (addr value : Z) : Writer unit := writer addr (le_bytes 4 value).
Definition read_guest_i64 (addr : Z) : Reader Z :=
  λ m, let? bytes := reader addr 8 m in Ok (as_i64 (le_value bytes)).
Definition read_guest_u64 (addr : Z) : Reader Z :=
  λ m, let? bytes := reader addr 8 m in Ok (le_value bytes).

(** The loop over the offsets of a string, [budget] of which may still be read. *)
Fixpoint c_bytes_loop (budget : nat) (addr offset : Z) (bytes : list Z) : Reader (list Z) := λ m,
  match budget with
  | O => Err ENAMETOOLONG
  | S budget =>
      let? a := fault_add addr offset in
      let? byte := reader a 1 m in
      let? b := expect (head byte) in
      if b =? 0 then Ok bytes else c_bytes_loop budget addr (offset + 1) (bytes ++ [b]) m
  end.

Definition read_guest_c_bytes (addr : Z) : Reader (list Z) :=
  c_bytes_loop LINUX_MAX_C_STRING_LEN addr 0 [].

Fixpoint vector_loop (budget : nat) (vector_addr index : Z) (values : list (list Z)) : Reader (list (list Z)) := λ m,
  match budget with
  | O => Err E2BIG
  | S budget =>
      let? item_addr := fault_add vector_addr (index * 8) in
      let? ptr := read_guest_u64 item_addr m in
      if ptr =? 0 then Ok values else
      let? value := read_guest_c_bytes ptr m in
      vector_loop budget vector_addr (index + 1) (values ++ [value]) m
  end.

Definition read_guest_vector (vector_addr : Z) : Reader (list (list Z)) := λ m,
  if vector_addr =? 0 then Ok [] else vector_loop LINUX_MAX_VECTOR_ITEMS vector_addr 0 [] m.

(** *** Times *)
Definition read_guest_timespec (addr : Z) : Reader LinuxTimespec := λ m,
  let? sec := read_guest_i64 addr m in
  let? addr := fault_add addr 8 in
  let? nsec := read_guest_i64 addr m in
  Ok {| tv_sec := sec; tv_nsec := nsec |}.

Definition write_guest_timespec (addr : Z) (timespec : LinuxTimespec) : Writer unit :=
  do* writer addr (le_bytes 8 (tv_sec timespec));
  let* addr := lift (fault_add addr 8) in
  writer addr (le_bytes 8 (tv_nsec timespec)).

Definition read_required_timespec_duration (addr : Z) : Reader Z := λ m,
  let? timespec := read_guest_timespec addr m in
  if (tv_sec timespec <? 0) || negb ((0 <=? tv_nsec timespec) && (tv_nsec timespec <? 1000000000))
  then Err EINVAL else Ok (duration_new (tv_sec timespec) (tv_nsec timespec)).

Definition read_select_timeout (addr : Z) : Reader (option Z) := λ m,
  if addr =? 0 then Ok None else
  let? sec := read_guest_i64 addr m in
  let? addr := fault_add addr 8 in
  let? usec := read_guest_i64 addr m in
  if (sec <? 0) || negb ((0 <=? usec) && (usec <? 1000000)) then Err EINVAL
  else Ok (Some (duration_new sec (usec * 1000))).

(** *** Poll and select *)
Definition read_pollfd (addr : Z) : Reader LinuxPollfd := λ m,
  let? bytes := reader addr 8 m in
  let? fd := read_le 4 bytes 0 in
  let? events := read_le 2 bytes 4 in
  let? revents := read_le 2 bytes 6 in
  Ok {| pf_fd := as_i32 fd; pf_events := as_i16 events; pf_revents := as_i16 revents |}.

Definition write_pollfd_revents (addr revents : Z) : Writer unit :=
  let* addr := lift (fault_add addr 6) in writer addr (le_bytes 2 revents).

Definition select_nfds (raw : Z) : outcome Z LinuxErrno :=
  let signed := as_i64 raw in
  if signed <? 0 then Err EINVAL else if LINUX_MAX_SELECT_FDS <? signed then Err EINVAL else Ok signed.

Definition select_fd_word_addr (set_addr fd : Z) : outcome Z LinuxErrno :=
  fault_add set_addr (fd / LINUX_SELECT_FD_BITS * 8).
Definition select_fd_bit (fd : Z) : Z := Z.shiftl 1 (fd mod LINUX_SELECT_FD_BITS).

Definition select_fd_set_contains (set_addr fd : Z) : Reader bool := λ m,
  if set_addr =? 0 then Ok false else
  let? word_addr := select_fd_word_addr set_addr fd in
  let? word := read_guest_u64 word_addr m in
  Ok (negb (Z.land word (select_fd_bit fd) =? 0)).

(** One turn of the loop over the descriptors. *)
Definition select_interest (readfds_addr writefds_addr exceptfds_addr fd : Z) : Reader (option LinuxSelectInterest) := λ m,
  let? read := select_fd_set_contains readfds_addr fd m in
  let? write := select_fd_set_contains writefds_addr fd m in
  let? exceptional := select_fd_set_contains exceptfds_addr fd m in
  if negb read && negb write && negb exceptional then Ok None else
  let events := 0 in
  let events := if read then Z.lor events (Z.lor LINUX_POLLIN LINUX_POLLRDNORM) else events in
  let events := if write then Z.lor events (Z.lor LINUX_POLLOUT LINUX_POLLWRNORM) else events in
  let events := if exceptional then Z.lor events LINUX_POLLPRI else events in
  if I32_MAX <? fd then Err EINVAL else
  Ok (Some {| si_fd := fd; si_events := events; si_read := read; si_write := write; si_exceptional := exceptional |}).

Definition read_select_interests (nfds readfds_addr writefds_addr exceptfds_addr : Z)
    : Reader (list LinuxSelectInterest) := λ m,
  try_fold (λ interests fd,
    let? interest := select_interest readfds_addr writefds_addr exceptfds_addr fd m in
    Ok (match interest with Some i => interests ++ [i] | None => interests end)) [] (seqZ 0 nfds).

Definition select_fd_set_len (nfds : Z) : outcome Z LinuxErrno :=
  match checked_add64 nfds (LINUX_SELECT_FD_BITS - 1) with
  | Some bits => Ok (bits / LINUX_SELECT_FD_BITS * 8)
  | None => Err EINVAL
  end.

Definition write_zeroed (addr len : Z) : Writer unit := writer addr (zero_vec len).

(** The bit of one ready descriptor. *)
Definition set_select_bit (set_addr nfds fd : Z) : Writer unit :=
  if fd <? 0 then ret tt else
  if nfds <=? fd then ret tt else
  let* word_addr := lift (select_fd_word_addr set_addr fd) in
  let* word := reading_memory (read_guest_u64 word_addr) in
  writer word_addr (le_bytes 8 (Z.lor word (select_fd_bit fd))).

Definition write_select_fd_set (set_addr nfds : Z) (fds : list Z) : Writer unit :=
  if set_addr =? 0 then ret tt else
  let* len := lift (select_fd_set_len nfds) in
  do* write_zeroed set_addr len;
  foreach fds (set_select_bit set_addr nfds).

(** *** Vectors of buffers *)
Definition read_iovec (addr index : Z) : Reader LinuxIovec := λ m,
  let? item_addr := fault_add addr (index * 16) in
  let? bytes := reader item_addr 16 m in
  let? base := read_le 8 bytes 0 in
  let? len := read_le 8 bytes 8 in
  Ok {| iov_base := base; iov_len := len |}.

Definition read_iovecs (addr count : Z) : Reader (list LinuxIovec) := λ m,
  if LINUX_IOV_MAX <? count then Err EINVAL else collect (λ index, read_iovec addr index m) (seqZ 0 count).

(** [vec![0; len]] panics when its capacity is over [isize::MAX]. *)
Definition vec_zeroed {E} (len : Z) : outcome (list Z) E :=
  if len <? 2 ^ 63 then Ok (zero_vec len) else Panic.

Definition read_iovec_buffers (iovecs : list LinuxIovec) : Reader (list (list Z)) := λ m,
  collect (λ iovec,
    let? buffer := vec_zeroed (iov_len iovec) in
    reader (iov_base iovec) (zlen buffer) m) iovecs.

Definition iovec_output_buffers (iovecs : list LinuxIovec) : outcome (list (list Z)) LinuxErrno :=
  collect (λ iovec, vec_zeroed (iov_len iovec)) iovecs.

(** [buffer[..write_len]] panics past the end of the buffer. *)
Fixpoint write_buffers_loop (pairs : list (LinuxIovec * list Z)) (bytes_written consumed : Z) : Writer unit :=
  match pairs with
  | [] => ret tt
  | (iovec, buffer) :: pairs =>
      let remaining := Z.max 0 (bytes_written - consumed) in
      let write_len := Z.min (iov_len iovec) remaining in
      do* (if 0 <? write_len then
             let* bytes := lift (expect (slice buffer 0 write_len)) in writer (iov_base iovec) bytes
           else ret tt);
      let consumed := consumed + write_len in
      if bytes_written <=? consumed then ret tt else write_buffers_loop pairs bytes_written consumed
  end.

Definition write_iovec_buffers (iovecs : list LinuxIovec) (buffers : list (list Z)) (bytes_written : Z) : Writer unit :=
  write_buffers_loop (zip iovecs buffers) bytes_written 0.

(** *** Messages *)
Definition read_msghdr (addr : Z) : Reader LinuxMsghdr := λ m,
  let? bytes := reader addr 56 m in
  let? name := read_le 8 bytes 0 in
  let? namelen := read_le 4 bytes 8 in
  let? pad1 := read_le 4 bytes 12 in
  let? iov := read_le 8 bytes 16 in
  let? iovlen := read_le 8 bytes 24 in
  let? control := read_le 8 bytes 32 in
  let? controllen := read_le 8 bytes 40 in
  let? flags := read_le 4 bytes 48 in
  let? pad2 := read_le 4 bytes 52 in
  Ok {| msg_name := name; msg_namelen := namelen; msg_pad1 := pad1; msg_iov := iov; msg_iovlen := iovlen;
        msg_control := control; msg_controllen := controllen; msg_flags := flags; msg_pad2 := pad2 |}.

Definition write_msghdr_namelen (msghdr namelen : Z) : Writer unit :=
  writer (wadd msghdr 8) (le_bytes 4 namelen).
Definition write_msghdr_flags (msghdr flags : Z) : Writer unit :=
  writer (wadd msghdr 48) (le_bytes 4 flags).

(** *** Addresses of sockets *)

(** [u16::from_be_bytes] and [to_be_bytes]. *)
Definition read_be16 {E} (bytes : list Z) (offset : Z) : outcome Z E :=
  let? word := expect (slice bytes offset (offset + 2)) in Ok (le_value (rev word)).
Definition be_bytes16 (z : Z) : list Z := rev (le_bytes 2 z).

(** Where the path of a Unix address ends: a path name at its first NUL. *)
Fixpoint find_nul (path : list Z) : nat :=
  match path with [] => O | b :: path => if b =? 0 then O else S (find_nul path) end.

Definition unix_path_len (path : list Z) : nat :=
  match path with
  | [] => O
  | b :: _ => if b =? 0 then length path else find_nul path
  end.

Definition decode_unix (bytes : list Z) : outcome LinuxSocketAddress LinuxErrno :=
  let path := drop 2 bytes in linux_unix (take (unix_path_len path) path).

Definition decode_inet (bytes : list Z) : outcome LinuxSocketAddress LinuxErrno :=
  let? address := expect (slice bytes 4 8) in
  let? port := read_be16 bytes 2 in
  Ok (LinuxInet address port).

Definition decode_inet6 (bytes : list Z) : outcome LinuxSocketAddress LinuxErrno :=
  let? address := expect (slice bytes 8 24) in
  let? port := read_be16 bytes 2 in
  let? flowinfo := read_le 4 bytes 4 in
  let? scope_id := read_le 4 bytes 24 in
  Ok (LinuxInet6 address port flowinfo scope_id).

Definition read_socket_address (sockaddr addrlen : Z) : Reader LinuxSocketAddress := λ m,
  if addrlen <? 2 then Err EINVAL else
  let? family := reader sockaddr 2 m in
  let family := le_value family in
  if family =? LINUX_AF_UNIX then
    let? bytes := reader sockaddr (Z.min addrlen LINUX_SOCKADDR_UN_LEN) m in decode_unix bytes
  else if family =? LINUX_AF_INET then
    if addrlen <? LINUX_SOCKADDR_IN_LEN then Err EINVAL else
    let? bytes := reader sockaddr LINUX_SOCKADDR_IN_LEN m in decode_inet bytes
  else if family =? LINUX_AF_INET6 then
    if addrlen <? LINUX_SOCKADDR_IN6_LEN then Err EINVAL else
    let? bytes := reader sockaddr LINUX_SOCKADDR_IN6_LEN m in decode_inet6 bytes
  else Err EAFNOSUPPORT.

(** The slice of the path panics past the end of its array. *)
Definition encode_socket_address (address : LinuxSocketAddress) : outcome (list Z) LinuxErrno :=
  match address with
  | LinuxUnix path len =>
      let terminator := if (len <? LINUX_SOCKADDR_UN_PATH_LEN) && negb (bool_decide (head path = Some 0))
                        then [0] else [] in
      let? stored := expect (slice path 0 len) in
      Ok (le_bytes 2 LINUX_AF_UNIX ++ stored ++ terminator)
  | LinuxInet address port =>
      Ok (le_bytes 2 LINUX_AF_INET ++ be_bytes16 port ++ address ++ zero_vec 8)
  | LinuxInet6 address port flowinfo scope_id =>
      Ok (le_bytes 2 LINUX_AF_INET6 ++ be_bytes16 port ++ le_bytes 4 flowinfo ++ address ++ le_bytes 4 scope_id)
  end.

(** The truncated address, when there is room for any of it. *)
Definition write_address_prefix (sockaddr addrlen : Z) (encoded : list Z) : Writer unit :=
  let write_len := Z.min addrlen (zlen encoded) in
  if 0 <? write_len then writer sockaddr (take (Z.to_nat write_len) encoded) else ret tt.

Definition write_socket_address (sockaddr addrlen_addr : Z) (address : LinuxSocketAddress) : Writer unit :=
  let* encoded := lift (encode_socket_address address) in
  let* addrlen := reading_memory (read_guest_u32 addrlen_addr) in
  do* write_address_prefix sockaddr addrlen encoded;
  writer addrlen_addr (le_bytes 4 (zlen encoded)).

Definition write_optional_socket_address (sockaddr addrlen_addr : Z) (address : LinuxSocketAddress) : Writer unit :=
  if sockaddr =? 0 then ret tt else
  if addrlen_addr =? 0 then throw EFAULT else
  write_socket_address sockaddr addrlen_addr address.

Definition write_socket_address_to_msghdr_name (msghdr sockaddr addrlen : Z) (address : LinuxSocketAddress)
    : Writer unit :=
  if sockaddr =? 0 then ret tt else
  let* encoded := lift (encode_socket_address address) in
  do* write_address_prefix sockaddr addrlen encoded;
  write_msghdr_namelen msghdr (zlen encoded).
End codec.
Arguments Reader : clear implicits.
Arguments Writer : clear implicits.

(** ** What a memory promises

    [view m a] is the byte that the guest may read at [a]; [I] is an invariant. *)
Class GuestMemoryAccessLaws (M : Type) `{!GuestMemoryAccess M} (view : M → Z → option Z) (I : M → Prop) : Prop := {
  (** A read of bytes that are all readable gives them; another one fails. *)
  read_bytes_law m addr len : I m → 0 ≤ addr → 0 ≤ len → addr + len < 2 ^ 64 →
    match read_bytes addr len m with
    | Ok bytes => zlen bytes = len ∧ ∀ i b, byte_at bytes i = Some b → view m (addr + i) = Some b
    | Err _ => ∃ a, addr ≤ a < addr + len ∧ view m a = None
    | Panic => False
    end;
  (** A write that succeeds stores its bytes and nothing else; one that fails leaves what is
      readable readable. *)
  write_bytes_law m addr bytes : I m → 0 ≤ addr →
    match write_bytes addr bytes m with
    | (Ok _, m') => I m' ∧ ∀ a, view m' a =
        if (addr <=? a) && (a <? addr + zlen bytes) then (λ _, default 0 (byte_at bytes (a - addr))) <$> view m a
        else view m a
    | (Err _, m') => I m' ∧ ∀ a, is_Some (view m' a) ↔ is_Some (view m a)
    | (Panic, _) => False
    end;
}.
