(* ===== verification/SysCodecTheorems.v ===== *)
(** * mcr-sys on the guest memory

    The memory of mcr-memory provides what the codecs of [SysCodec] ask for (mcr-memory
    memory_access.rs). *)

From S2P Require Import Prelude SysAbi HostMemory GuestMemory GuestMemoryOps GuestMemoryInv GuestMemoryAccess GuestMemoryTheorems Bytes SysCodec.
From stdpp Require Import base gmap list strings.
From Stdlib Require Import ZArith Lia.
Open Scope Z_scope.

Definition access_fault (e : GuestMemoryError) : GuestMemoryAccessError := Fault.

Section memory.
Context {OS : HostOs} {OL : HostOsLaws OS}.

#[export] Instance guest_memory_access : SysCodec.GuestMemoryAccess World := {
  read_bytes addr len w := map_err access_fault (GuestMemoryOps.read addr len w).1;
  write_bytes addr bytes w := let '(r, w') := GuestMemoryOps.write addr bytes w in (map_err access_fault r, w');
}.

(** The byte that the guest may read. *)
Definition readable_byte (w : World) (a : Z) : option Z :=
  c ← cell_at w a; if allowed AccessRead (c_protection c) then Some (c_byte c) else None.

Lemma grants_readable w a b : grants AccessRead w a b ↔ readable_byte w a = Some b.
Proof.
  unfold grants, readable_byte. destruct (cell_at w a) as [c|]; simpl; [|by split; [intros (? & ? & _)|]].
  split.
  - intros (c1 & Hc & Hal & <-). injection Hc as <-. by rewrite Hal.
  - destruct (p_read (c_protection c)) eqn:E; [|done]. intros [= <-]. by exists c.
Qed.

Lemma fault_unreadable w a e : fault AccessRead w a e → readable_byte w a = None.
Proof.
  unfold fault, readable_byte. destruct (cell_at w a) as [c|]; simpl; [|done]. by intros [_ ->].
Qed.

Lemma stored_readable w w' address bytes a :
  stored w w' address bytes →
  readable_byte w' a = if (address <=? a) && (a <? address + zlen bytes)
                       then (λ _, default 0 (byte_at bytes (a - address))) <$> readable_byte w a
                       else readable_byte w a.
Proof.
  intros Hst. unfold readable_byte. rewrite Hst. destruct ((address <=? a) && (a <? address + zlen bytes)) eqn:E.
  - bprop. destruct (byte_at_Some bytes (a - address)) as [b Hb]; [lia|]. rewrite Hb.
    destruct (cell_at w a) as [c|]; simpl; [|done]. by destruct (p_read _).
  - assert (byte_at bytes (a - address) = None) as ->; [|done].
    unfold byte_at. destruct (Z.ltb_spec (a - address) 0); [done|]. apply lookup_ge_None. unfold zlen in E.
    apply andb_false_iff in E as [E|E]; bprop; lia.
Qed.

#[export] Instance guest_memory_access_laws : SysCodec.GuestMemoryAccessLaws World readable_byte world_wf.
Proof.
  split.
  - intros w addr len Hwf Ha Hl Hfit. pose proof (wp_copy_guest w addr len AccessRead Hwf Ha Hl) as H.
    unfold wp in H. simpl. unfold GuestMemoryOps.read. destruct (copy_guest addr len AccessRead w) as [[bs|e|] w']; simpl; [| |done].
    + destruct H as (_ & Hlen & Hbs). split; [done|]. intros i b Hb. apply grants_readable.
      assert (0 ≤ i < len) as Hi.
      { unfold byte_at in Hb. destruct (Z.ltb_spec i 0); [done|]. apply lookup_lt_Some in Hb. unfold zlen in Hlen. lia. }
      destruct (Hbs i Hi) as (b' & Hb' & Hg). congruence.
    + destruct H as (_ & [[_ ?]|(a & Ha' & Hf & _)]); [lia|]. exists a. split; [done|]. by eapply fault_unreadable.
  - intros w addr bytes Hwf Ha. pose proof (write_guest_spec w addr bytes Hwf Ha) as H. unfold wp in H.
    simpl. unfold GuestMemoryOps.write. destruct (write_guest addr bytes w) as [[[]|e|] w']; simpl; [| |done].
    + destruct H as (Hwf' & _ & Hst & _). split; [done|]. intros a. by apply stored_readable.
    + destruct H as (Hwf' & _ & _ & [[_ ->]|(n & _ & Hst & _)]); [done|]. split; [done|]. intros a.
      rewrite (stored_readable _ _ _ _ a Hst). destruct (_ && _); [|done]. by destruct (readable_byte w a).
Qed.
End memory.

(** ** mcr-sys: what the codecs read and write

    Against any memory that keeps [GuestMemoryAccessLaws]. *)

Section codec.
Context {M : Type} {access : SysCodec.GuestMemoryAccess M} (view : M → Z → option Z) (I : M → Prop)
  {laws : SysCodec.GuestMemoryAccessLaws M view I}.

(** The bytes [bs] are readable at [addr]. *)
Definition holds_bytes (m : M) (addr : Z) (bs : list Z) : Prop :=
  ∀ i b, byte_at bs i = Some b → view m (addr + i) = Some b.

Lemma holds_nil m addr : holds_bytes m addr [].
Proof. intros i b Hb. unfold byte_at in Hb. by destruct (i <? 0). Qed.

(** Some bytes are. *)
Definition readable (m : M) (addr len : Z) : Prop := ∀ a, addr ≤ a < addr + len → is_Some (view m a).

Definition apart (a1 n1 a2 n2 : Z) : Prop := a1 + n1 ≤ a2 ∨ a2 + n2 ≤ a1.

Lemma byte_at_bound bs i b : byte_at bs i = Some b → 0 ≤ i < zlen bs.
Proof.
  unfold byte_at, zlen. destruct (Z.ltb_spec i 0); [done|]. intros Hlt%lookup_lt_Some. lia.
Qed.

Lemma byte_at_app_l l1 l2 i : i < zlen l1 → byte_at (l1 ++ l2) i = byte_at l1 i.
Proof. unfold byte_at, zlen. intros. destruct (Z.ltb_spec i 0); [done|]. apply lookup_app_l. lia. Qed.

Lemma byte_at_app_r l1 l2 i : zlen l1 ≤ i → byte_at (l1 ++ l2) i = byte_at l2 (i - zlen l1).
Proof.
  unfold byte_at, zlen. intros. destruct (Z.ltb_spec i 0); [lia|]. destruct (Z.ltb_spec (i - Z.of_nat (length l1)) 0); [lia|].
  rewrite lookup_app_r by lia. f_equal. lia.
Qed.

Lemma holds_app m addr l1 l2 : holds_bytes m addr (l1 ++ l2) ↔ holds_bytes m addr l1 ∧ holds_bytes m (addr + zlen l1) l2.
Proof.
  split.
  - intros H. split; intros i b Hb; pose proof (byte_at_bound _ _ _ Hb).
    + apply H. by rewrite byte_at_app_l by lia.
    + rewrite <- Z.add_assoc. apply H. rewrite byte_at_app_r by lia. by replace (zlen l1 + i - zlen l1) with i by lia.
  - intros [H1 H2] i b Hb. pose proof (byte_at_bound _ _ _ Hb) as Hi. rewrite zlen_app in Hi.
    destruct (Z.lt_ge_cases i (zlen l1)).
    + apply H1. by rewrite byte_at_app_l in Hb by lia.
    + rewrite byte_at_app_r in Hb by lia. apply H2 in Hb. by replace (addr + zlen l1 + (i - zlen l1)) with (addr + i) in Hb by lia.
Qed.

Lemma holds_readable m addr bs : holds_bytes m addr bs → readable m addr (zlen bs).
Proof.
  intros H a Ha. destruct (byte_at_Some bs (a - addr)) as [b Hb]; [lia|]. apply H in Hb.
  replace (addr + (a - addr)) with a in Hb by lia. eauto.
Qed.

(** ** Reading and writing *)
Lemma reader_holds m addr bs :
  I m → 0 ≤ addr → addr + zlen bs < 2 ^ 64 → holds_bytes m addr bs → reader addr (zlen bs) m = Ok bs.
Proof.
  intros HI Ha Hfit Hh. pose proof (read_bytes_law m addr (zlen bs) HI Ha (zlen_nonneg bs) Hfit) as H.
  unfold reader. destruct (read_bytes _ _ _) as [bs'|e|]; simpl; [| |done].
  - f_equal. destruct H as [Hlen Hbs]. apply bytes_ext; [lia|]. intros i Hi.
    destruct (byte_at_Some bs i) as [b Hb]; [lia|]. destruct (byte_at_Some bs' i) as [b' Hb']; [lia|].
    apply Hh in Hb as E. apply Hbs in Hb' as E'. congruence.
  - exfalso. destruct H as (a & Hin & Hn). destruct (holds_readable _ _ _ Hh a Hin). congruence.
Qed.

Lemma reader_readable m addr len :
  I m → 0 ≤ addr → 0 ≤ len → addr + len < 2 ^ 64 → readable m addr len →
  ∃ bs, reader addr len m = Ok bs ∧ zlen bs = len ∧ holds_bytes m addr bs.
Proof.
  intros HI Ha Hl Hfit Hr. pose proof (read_bytes_law m addr len HI Ha Hl Hfit) as H. unfold reader.
  destruct (read_bytes _ _ _) as [bs|e|]; simpl; [| |done].
  - exists bs. by destruct H.
  - exfalso. destruct H as (a & Hin & Hn). destruct (Hr a Hin). congruence.
Qed.

Lemma u64_holds m addr v :
  I m → 0 ≤ addr → addr + 8 < 2 ^ 64 → is_u64 v → holds_bytes m addr (le_bytes 8 v) → read_guest_u64 addr m = Ok v.
Proof.
  intros HI Ha Hfit Hv Hh. unfold read_guest_u64.
  assert (Hl : zlen (le_bytes 8 v) = 8) by (unfold zlen; by rewrite length_le_bytes).
  rewrite <- Hl, reader_holds by (done || lia). cbn [obind]. rewrite le_value_bytes, Z.mod_small; [done|]. unfold is_u64 in Hv. lia.
Qed.

Lemma u32_holds m addr v :
  I m → 0 ≤ addr → addr + 4 < 2 ^ 64 → is_u32 v → holds_bytes m addr (le_bytes 4 v) → read_guest_u32 addr m = Ok v.
Proof.
  intros HI Ha Hfit Hv Hh. unfold read_guest_u32.
  assert (Hl : zlen (le_bytes 4 v) = 4) by (unfold zlen; by rewrite length_le_bytes).
  rewrite <- Hl, reader_holds by (done || lia). cbn [obind]. rewrite le_value_bytes, Z.mod_small; [done|]. unfold is_u32 in Hv. lia.
Qed.

(** What a write leaves. *)
Record written (m m' : M) (addr : Z) (bs : list Z) : Prop := {
  wr_inv : I m';
  wr_readable a n : readable m a n → readable m' a n;
  wr_bytes : readable m addr (zlen bs) → holds_bytes m' addr bs;
  wr_other a bs' : apart addr (zlen bs) a (zlen bs') → holds_bytes m a bs' → holds_bytes m' a bs';
}.

Lemma writer_wp m addr bs :
  I m → 0 ≤ addr → wp (writer addr bs) (λ _ m', written m m' addr bs)
    (λ e m', e = EFAULT ∧ I m' ∧ ∀ a n, readable m a n → readable m' a n) m.
Proof.
  intros HI Ha. pose proof (write_bytes_law m addr bs HI Ha) as H. unfold wp, writer.
  destruct (write_bytes addr bs m) as [[[]|e|] m']; simpl; [| |done].
  - destruct H as [HI' Hv]. split; [done|..].
    + intros a n Hr x Hx. rewrite Hv. specialize (Hr x Hx). destruct (_ && _); [by apply fmap_is_Some|done].
    + intros Hr i b Hb. pose proof (byte_at_bound _ _ _ Hb). rewrite Hv.
      rewrite (proj2 (Z.leb_le _ _)), (proj2 (Z.ltb_lt _ _)) by lia. destruct (Hr (addr + i)) as [x Hx]; [lia|].
      rewrite Hx. simpl. replace (addr + i - addr) with i by lia. by rewrite Hb.
    + intros a bs' Hap Hh i b Hb. pose proof (byte_at_bound _ _ _ Hb). rewrite Hv. unfold apart in Hap.
      replace ((addr <=? a + i) && (a + i <? addr + zlen bs)) with false; [by apply Hh|].
      symmetry. apply andb_false_iff. rewrite Z.leb_gt, Z.ltb_ge. lia.
  - destruct H as [HI' Hv]. split; [done|]. split; [done|]. intros a n Hr x Hx. apply Hv, Hr, Hx.
Qed.

Lemma slice_middle_first (l tail : list Z) : slice (l ++ tail) 0 (zlen l) = Some l.
Proof.
  unfold slice, zlen. rewrite length_app, (proj2 (andb_true_iff _ _)) by (rewrite andb_true_iff, !Z.leb_le; lia).
  rewrite drop_0, Z.sub_0_r, Nat2Z.id. by rewrite take_app_length.
Qed.

(** ** Addresses of sockets *)

(** An address as the code makes them: a Unix path is one that [linux_unix] takes, either a name
    without NUL or an abstract one, which starts with NUL. *)
Definition address_ok (a : LinuxSocketAddress) : Prop :=
  match a with
  | LinuxUnix _ _ => ∃ name, linux_unix name = Ok a ∧ (head name = Some 0 ∨ 0 ∉ name)
  | LinuxInet address port => zlen address = 4 ∧ 0 ≤ port < 2 ^ 16
  | LinuxInet6 address port flowinfo scope_id =>
      zlen address = 16 ∧ 0 ≤ port < 2 ^ 16 ∧ is_u32 flowinfo ∧ is_u32 scope_id
  end.

Lemma find_nul_none name tail : 0 ∉ name → find_nul (name ++ 0 :: tail) = length name.
Proof.
  induction name as [|b name IH]; [done|]. intros [Hb Hn]%not_elem_of_cons. simpl.
  destruct (Z.eqb_spec b 0); [lia|]. by rewrite IH.
Qed.

Lemma find_nul_end name : 0 ∉ name → find_nul name = length name.
Proof.
  induction name as [|b name IH]; [done|]. intros [Hb Hn]%not_elem_of_cons. simpl.
  destruct (Z.eqb_spec b 0); [lia|]. by rewrite IH.
Qed.

Lemma linux_unix_encode name a : linux_unix name = Ok a →
  zlen name ≤ 108 ∧
  encode_socket_address a = Ok (le_bytes 2 LINUX_AF_UNIX ++ name ++
    if (zlen name <? 108) && negb (bool_decide (head name = Some 0 ∨ name = [])) then [0] else []).
Proof.
  unfold linux_unix, LINUX_SOCKADDR_UN_PATH_LEN. destruct (Z.ltb_spec 108 (zlen name)); [done|]. intros [= <-].
  split; [done|]. unfold encode_socket_address, LINUX_SOCKADDR_UN_PATH_LEN.
  assert (Hs : splice (zero_vec 108) 0 name = name ++ drop (length name) (zero_vec 108)) by done.
  rewrite Hs. assert (Hsl : slice (name ++ drop (length name) (zero_vec 108)) 0 (zlen name) = Some name).
  { exact (slice_middle_first name _). }
  rewrite Hsl. cbn [expect obind]. do 4 f_equal. destruct (zlen name <? 108) eqn:El; [|done]. bprop.
  destruct name as [|b name]; [done|]. simpl.
  by rewrite (bool_decide_ext (Some b = Some 0) (Some b = Some 0 ∨ b :: name = [])) by naive_solver.
Qed.

(** What the path of an encoded Unix address reads as. *)
Lemma unix_path_read name (tail : list Z) :
  head name = Some 0 ∨ 0 ∉ name →
  tail = (if (zlen name <? 108) && negb (bool_decide (head name = Some 0 ∨ name = [])) then [0] else []) →
  take (unix_path_len (name ++ tail)) (name ++ tail) = name.
Proof.
  intros Hn ->. destruct name as [|b name]; [by rewrite bool_decide_eq_true_2, andb_false_r by by right|].
  simpl in Hn. destruct (Z.eqb_spec b 0) as [->|Hb].
  - rewrite bool_decide_eq_true_2, andb_false_r, app_nil_r by by left. unfold unix_path_len. simpl.
    by rewrite firstn_all.
  - destruct Hn as [[= ?]|Hn]; [done|]. unfold unix_path_len. cbn [app].
    rewrite (proj2 (Z.eqb_neq b 0) Hb). rewrite app_comm_cons. destruct (_ && _).
    + rewrite find_nul_none by done. by rewrite take_app_length.
    + rewrite app_nil_r, find_nul_end by done. by rewrite firstn_all.
Qed.

Lemma read_be16_encoded {E} (l : list Z) port : 0 ≤ port < 2 ^ 16 →
  slice l 2 4 = Some (be_bytes16 port) → read_be16 (E:=E) l 2 = Ok port.
Proof.
  intros Hp Hs. unfold read_be16. change (2 + 2) with 4. rewrite Hs. cbn [expect obind]. unfold be_bytes16.
  rewrite rev_involutive, le_value_bytes, Z.mod_small; [done|]. lia.
Qed.

(** Pieces of a concatenation. *)
Lemma slice_at (pre l post : list Z) a b : zlen pre = a → zlen l = b - a → slice (pre ++ l ++ post) a b = Some l.
Proof.
  unfold slice, zlen. intros <- Hl. rewrite !length_app.
  rewrite (proj2 (andb_true_iff _ _)) by (rewrite andb_true_iff, !Z.leb_le; lia).
  rewrite drop_app_length' by lia. by rewrite take_app_length' by lia.
Qed.

Lemma read_le_at {E} (pre post : list Z) n v a : zlen pre = a → 0 ≤ v < 256 ^ Z.of_nat n →
  read_le (E:=E) (Z.of_nat n) (pre ++ le_bytes n v ++ post) a = Ok v.
Proof.
  intros Hp Hv. unfold read_le. rewrite (slice_at _ _ _ a) by (unfold zlen in *; rewrite ?length_le_bytes; lia).
  cbn [expect obind]. by rewrite le_value_bytes, Z.mod_small.
Qed.

Lemma zlen_le_bytes n v : zlen (le_bytes n v) = Z.of_nat n.
Proof. unfold zlen. by rewrite length_le_bytes. Qed.

Lemma zlen_be16 v : zlen (be_bytes16 v) = 2.
Proof. unfold zlen, be_bytes16. by rewrite length_rev, length_le_bytes. Qed.

Lemma decode_encoded_inet address port : zlen address = 4 → 0 ≤ port < 2 ^ 16 →
  decode_inet (le_bytes 2 LINUX_AF_INET ++ be_bytes16 port ++ address ++ zero_vec 8) = Ok (LinuxInet address port).
Proof.
  intros Ha Hp. unfold decode_inet. rewrite app_assoc at 1.
  rewrite slice_at by (rewrite ?zlen_app, ?zlen_le_bytes, ?zlen_be16; lia). cbn [expect obind].
  rewrite (read_be16_encoded _ port) by (done || by apply slice_at; rewrite ?zlen_le_bytes, ?zlen_be16).
  done.
Qed.

Lemma decode_encoded_inet6 address port flowinfo scope_id :
  zlen address = 16 → 0 ≤ port < 2 ^ 16 → is_u32 flowinfo → is_u32 scope_id →
  decode_inet6 (le_bytes 2 LINUX_AF_INET6 ++ be_bytes16 port ++ le_bytes 4 flowinfo ++ address ++ le_bytes 4 scope_id) =
  Ok (LinuxInet6 address port flowinfo scope_id).
Proof.
  intros Ha Hp Hf Hs. unfold decode_inet6.
  assert (E : ∀ e : list Z, le_bytes 2 LINUX_AF_INET6 ++ be_bytes16 port ++ le_bytes 4 flowinfo ++ e =
    ((le_bytes 2 LINUX_AF_INET6 ++ be_bytes16 port) ++ le_bytes 4 flowinfo) ++ e) by (intros; by rewrite !app_assoc).
  rewrite E at 1.
  rewrite slice_at by (rewrite ?zlen_app, ?zlen_le_bytes, ?zlen_be16; lia). cbn [expect obind].
  rewrite (read_be16_encoded _ port) by (done || by apply slice_at; rewrite ?zlen_le_bytes, ?zlen_be16). cbn [obind].
  rewrite app_assoc at 1. rewrite (read_le_at _ _ 4 flowinfo)
    by (rewrite ?zlen_app, ?zlen_le_bytes, ?zlen_be16; unfold is_u32 in *; lia). cbn [obind].
  rewrite E, app_assoc, <- (app_nil_r (le_bytes 4 scope_id)). rewrite (read_le_at _ _ 4 scope_id); [done| |].
  - rewrite !zlen_app, !zlen_le_bytes, zlen_be16. lia.
  - unfold is_u32 in *. lia.
Qed.

Lemma Ok_inj {A E} (a b : A) : @Ok A E a = Ok b → a = b.
Proof. congruence. Qed.

Lemma read_encoded m sockaddr a enc :
  I m → 0 ≤ sockaddr → sockaddr + zlen enc < 2 ^ 64 → address_ok a → encode_socket_address a = Ok enc →
  holds_bytes m sockaddr enc → read_socket_address sockaddr (zlen enc) m = Ok a.
Proof.
  intros HI Hs Hfit Hok He Hh. unfold read_socket_address.
  assert (Hfam : ∀ f rest, enc = le_bytes 2 f ++ rest → reader sockaddr 2 m = Ok (le_bytes 2 f) ∧ 2 ≤ zlen enc).
  { intros f rest ->. rewrite zlen_app, zlen_le_bytes in *. pose proof (zlen_nonneg rest).
    apply holds_app in Hh as [Hh _]. split; [|lia]. apply (reader_holds m sockaddr (le_bytes 2 f)); [done|done| |done].
    rewrite zlen_le_bytes. lia. }
  pose proof (reader_holds m sockaddr enc HI Hs Hfit Hh) as Hall.
  destruct a as [path len|address port|address port flowinfo scope_id].
  - destruct Hok as (name & Hu & Hn). destruct (linux_unix_encode name _ Hu) as [Hlen Henc].
    rewrite Henc in He. apply Ok_inj in He. destruct (Hfam LINUX_AF_UNIX _ (eq_sym He)) as [-> H2].
    rewrite (proj2 (Z.ltb_ge _ _)) by lia. cbn [obind]. change (le_value (le_bytes 2 LINUX_AF_UNIX) =? LINUX_AF_UNIX) with true. cbv iota.
    rewrite Z.min_l; [rewrite Hall; cbn [obind]|].
    + unfold decode_unix. rewrite <- He. cbn [skipn le_bytes app]. rewrite !drop_0.
      rewrite unix_path_read by done. done.
    + rewrite <- He. unfold LINUX_SOCKADDR_UN_LEN, LINUX_SOCKADDR_UN_PATH_LEN.
      destruct (Z.ltb_spec (zlen name) 108); simpl; [destruct (negb _)|]; unfold zlen in *; simpl; rewrite length_app; simpl; lia.
  - destruct Hok as [Ha Hp].
    apply (Ok_inj (le_bytes 2 LINUX_AF_INET ++ be_bytes16 port ++ address ++ zero_vec 8)) in He. destruct (Hfam LINUX_AF_INET _ (eq_sym He)) as [-> H2].
    rewrite (proj2 (Z.ltb_ge _ _)) by lia. cbn [obind]. change (le_value (le_bytes 2 LINUX_AF_INET) =? LINUX_AF_UNIX) with false.
    change (le_value (le_bytes 2 LINUX_AF_INET) =? LINUX_AF_INET) with true. cbv iota.
    assert (Hl : zlen enc = LINUX_SOCKADDR_IN_LEN)
      by (rewrite <- He, !zlen_app, zlen_le_bytes, zlen_be16, Ha, zlen_zero_vec by lia; done).
    rewrite Hl in Hall |- *. rewrite Z.ltb_irrefl, Hall. cbn [obind]. rewrite <- He. by apply decode_encoded_inet.
  - destruct Hok as (Ha & Hp & Hf & Hsc).
    apply (Ok_inj (le_bytes 2 LINUX_AF_INET6 ++ be_bytes16 port ++ le_bytes 4 flowinfo ++ address ++ le_bytes 4 scope_id)) in He. destruct (Hfam LINUX_AF_INET6 _ (eq_sym He)) as [-> H2].
    rewrite (proj2 (Z.ltb_ge _ _)) by lia. cbn [obind]. change (le_value (le_bytes 2 LINUX_AF_INET6) =? LINUX_AF_UNIX) with false.
    change (le_value (le_bytes 2 LINUX_AF_INET6) =? LINUX_AF_INET) with false.
    change (le_value (le_bytes 2 LINUX_AF_INET6) =? LINUX_AF_INET6) with true. cbv iota.
    assert (Hl : zlen enc = LINUX_SOCKADDR_IN6_LEN)
      by (rewrite <- He, !zlen_app, !zlen_le_bytes, zlen_be16, Ha; done).
    rewrite Hl in Hall |- *. rewrite Z.ltb_irrefl, Hall. cbn [obind]. rewrite <- He. by apply decode_encoded_inet6.
Qed.
Lemma encode_total a : address_ok a → ∃ enc, encode_socket_address a = Ok enc ∧ zlen enc ≤ LINUX_SOCKADDR_UN_LEN.
Proof.
  unfold LINUX_SOCKADDR_UN_LEN, LINUX_SOCKADDR_UN_PATH_LEN.
  destruct a as [path len|address port|address port flowinfo scope_id].
  - intros (name & Hu & _). destruct (linux_unix_encode name _ Hu) as [Hlen ->]. eexists. split; [done|].
    rewrite !zlen_app, zlen_le_bytes. destruct (Z.ltb_spec (zlen name) 108); simpl; [destruct (negb _)|]; unfold zlen in *; simpl; lia.
  - intros [Ha _]. eexists. split; [done|]. rewrite !zlen_app, zlen_le_bytes, zlen_be16, Ha, zlen_zero_vec by lia. lia.
  - intros (Ha & _). eexists. split; [done|]. rewrite !zlen_app, !zlen_le_bytes, zlen_be16, Ha. lia.
Qed.

Lemma readable_sub m a n a' n' : readable m a n → a ≤ a' → a' + n' ≤ a + n → readable m a' n'.
Proof. intros H ?? x Hx. apply H. lia. Qed.

(** A write of a prefix that may be empty. *)
Lemma address_prefix_wp m sockaddr capacity enc :
  I m → 0 ≤ sockaddr → 0 ≤ capacity →
  wp (write_address_prefix sockaddr capacity enc)
    (λ _ m', written m m' sockaddr (take (Z.to_nat capacity) enc))
    (λ e m', e = EFAULT) m.
Proof.
  intros HI Hs Hc. unfold write_address_prefix. pose proof (zlen_nonneg enc).
  assert (Ht : take (Z.to_nat (Z.min capacity (zlen enc))) enc = take (Z.to_nat capacity) enc).
  { destruct (Z.min_spec capacity (zlen enc)) as [[_ ->]|[? ->]]; [done|]. unfold zlen in *.
    rewrite !firstn_all2 by lia. done. }
  destruct (Z.ltb_spec 0 (Z.min capacity (zlen enc))).
  - rewrite Ht. eapply wp_mono; [by apply writer_wp|done|]. by intros e m' [? _].
  - apply wp_ret. assert (Hnil : take (Z.to_nat capacity) enc = []).
    { rewrite <- Ht. replace (Z.to_nat (Z.min capacity (zlen enc))) with 0%nat by lia. done. }
    rewrite Hnil. split; [done|done| |done]. intros _ i b Hb. pose proof (byte_at_bound _ _ _ Hb). unfold zlen in *. simpl in *. lia.
Qed.

Lemma write_address_wp m sockaddr addrlen_addr a capacity :
  I m → 0 ≤ sockaddr → sockaddr + LINUX_SOCKADDR_UN_LEN < 2 ^ 64 → 0 ≤ addrlen_addr → addrlen_addr + 4 < 2 ^ 64 →
  readable m sockaddr LINUX_SOCKADDR_UN_LEN → readable m addrlen_addr 4 →
  apart sockaddr LINUX_SOCKADDR_UN_LEN addrlen_addr 4 → address_ok a →
  read_guest_u32 addrlen_addr m = Ok capacity → 0 ≤ capacity →
  ∃ enc, encode_socket_address a = Ok enc ∧
    wp (write_socket_address sockaddr addrlen_addr a)
      (λ _ m', I m' ∧ read_guest_u32 addrlen_addr m' = Ok (zlen enc) ∧
               holds_bytes m' sockaddr (take (Z.to_nat capacity) enc) ∧
               (zlen enc ≤ capacity → read_socket_address sockaddr (zlen enc) m' = Ok a))
      (λ e m', e = EFAULT) m.
Proof.
  intros HI Hs Hsf Hl Hlf Hrs Hrl Hap Hok Hcap Hc0. destruct (encode_total a Hok) as (enc & Henc & Hlen).
  exists enc. split; [done|]. pose proof (zlen_nonneg enc) as H0. unfold LINUX_SOCKADDR_UN_LEN, LINUX_SOCKADDR_UN_PATH_LEN in *.
  unfold write_socket_address. apply wp_bind. rewrite Henc. apply wp_lift; [|done|done]. intros ? [= <-].
  apply wp_bind. unfold reading_memory, wp at 1. rewrite Hcap. apply wp_bind.
  eapply wp_mono; [by apply address_prefix_wp|cbv beta|done]. intros [] m1 Hw1. pose proof (wr_inv _ _ _ _ Hw1) as HI1.
  eapply wp_mono; [by apply writer_wp|cbv beta|by intros e m' [? _]]. intros [] m2 Hw2. pose proof (wr_inv _ _ _ _ Hw2) as HI2.
  assert (Hpl : zlen (take (Z.to_nat capacity) enc) ≤ zlen enc) by (unfold zlen; rewrite length_take; lia).
  assert (Hheld : holds_bytes m2 sockaddr (take (Z.to_nat capacity) enc)).
  { eapply wr_other; [exact Hw2| |].
    - rewrite zlen_le_bytes. unfold apart in *. lia.
    - apply (wr_bytes _ _ _ _ Hw1). eapply readable_sub; [exact Hrs|lia|lia]. }
  split; [done|]. split_and!.
  - apply u32_holds; [done|done|lia|unfold is_u32; lia|]. apply (wr_bytes _ _ _ _ Hw2). rewrite zlen_le_bytes.
    by apply (wr_readable _ _ _ _ Hw1).
  - done.
  - intros Hfit. apply read_encoded; [done|done|lia|done|done|].
    rewrite firstn_all2 in Hheld by (unfold zlen in Hfit; lia). done.
Qed.
(** ** Sets of descriptors *)

(** The set at [addr] of [words] words has exactly the descriptors of [S]. *)
Definition fd_set_is (m : M) (addr words : Z) (S : Z → bool) : Prop :=
  ∃ v : Z → Z, (∀ k, 0 ≤ k < words → is_u64 (v k) ∧ holds_bytes m (addr + 8 * k) (le_bytes 8 (v k))) ∧
    ∀ fd, 0 ≤ fd < 64 * words → Z.testbit (v (fd / 64)) (fd mod 64) = S fd.

Lemma select_bit_test word fd :
  0 ≤ fd → negb (Z.land word (select_fd_bit fd) =? 0) = Z.testbit word (fd mod 64).
Proof.
  intros Hf. unfold select_fd_bit, LINUX_SELECT_FD_BITS. rewrite Z.shiftl_1_l.
  pose proof (Z.mod_pos_bound fd 64 ltac:(lia)). destruct (Z.testbit word (fd mod 64)) eqn:E.
  - apply negb_true_iff, Z.eqb_neq. intros Hz. assert (Z.testbit (Z.land word (2 ^ (fd mod 64))) (fd mod 64) = false) as F
      by by rewrite Hz, Z.bits_0.
    rewrite Z.land_spec, E, Z.pow2_bits_true in F by lia. done.
  - apply negb_false_iff, Z.eqb_eq, Z.bits_inj'. intros n Hn. rewrite Z.land_spec, Z.bits_0, Z.pow2_bits_eqb by lia.
    destruct (Z.eqb_spec (fd mod 64) n) as [<-|]; [by rewrite E|by rewrite andb_false_r].
Qed.

Lemma fd_div fd words : 0 ≤ fd < 64 * words → 0 ≤ fd / 64 < words.
Proof. intros [??]. split; [by apply Z.div_pos|]. apply Z.div_lt_upper_bound; lia. Qed.

Lemma contains_holds m addr words S fd :
  I m → 0 < addr → addr + 8 * words < 2 ^ 64 → fd_set_is m addr words S → 0 ≤ fd < 64 * words →
  select_fd_set_contains addr fd m = Ok (S fd).
Proof.
  intros HI Ha Hfit (v & Hv & Hbits) Hfd. pose proof (fd_div _ _ Hfd) as Hk. unfold select_fd_set_contains.
  rewrite (proj2 (Z.eqb_neq _ _)) by lia. unfold select_fd_word_addr, fault_add, LINUX_SELECT_FD_BITS.
  rewrite checked_add64_fit by lia. cbn [ok_or obind]. destruct (Hv _ Hk) as [Hu Hh].
  rewrite (Z.mul_comm _ 8). rewrite (u64_holds _ _ (v (fd / 64))) by (done || lia). cbn [obind].
  by rewrite select_bit_test, Hbits by lia.
Qed.

Lemma set_bit_wp m addr words nfds fd S :
  I m → 0 < addr → addr + 8 * words < 2 ^ 64 → nfds ≤ 64 * words → fd_set_is m addr words S →
  wp (set_select_bit addr nfds fd)
    (λ _ m', I m' ∧ fd_set_is m' addr words (λ x, S x || ((x =? fd) && (x <? nfds)))) (λ e _, e = EFAULT) m.
Proof.
  intros HI Ha Hfit Hn HS. unfold set_select_bit.
  assert (Hskip : ¬ 0 ≤ fd < nfds → fd_set_is m addr words (λ x, S x || ((x =? fd) && (x <? nfds)))).
  { intros Hout. destruct HS as (v & Hv & Hbits). exists v. split; [done|]. intros x Hx. rewrite Hbits by done.
    destruct (Z.eqb_spec x fd) as [->|]; [|by rewrite orb_false_r]. destruct (Z.ltb_spec fd nfds); [lia|by rewrite orb_false_r]. }
  destruct (Z.ltb_spec fd 0); [apply wp_ret; split; [done|apply Hskip; lia]|].
  destruct (Z.leb_spec nfds fd); [apply wp_ret; split; [done|apply Hskip; lia]|]. clear Hskip.
  destruct HS as (v & Hv & Hbits). assert (Hfd : 0 ≤ fd < 64 * words) by lia. pose proof (fd_div _ _ Hfd) as Hk.
  destruct (Hv _ Hk) as [Hu Hh]. apply wp_bind. unfold select_fd_word_addr, fault_add, LINUX_SELECT_FD_BITS.
  rewrite checked_add64_fit by lia. apply wp_lift; [|done|done]. intros ? [= <-]. apply wp_bind.
  unfold reading_memory, wp at 1. rewrite (Z.mul_comm _ 8). rewrite (u64_holds _ _ (v (fd / 64))) by (done || lia).
  pose proof (Z.mod_pos_bound fd 64 ltac:(lia)) as Hmod.
  assert (Hnew : is_u64 (Z.lor (v (fd / 64)) (select_fd_bit fd))).
  { unfold is_u64, select_fd_bit, LINUX_SELECT_FD_BITS in *. rewrite Z.shiftl_1_l.
    assert (0 ≤ 2 ^ (fd mod 64) < 2 ^ 64) as Hp by (split; [lia|apply Z.pow_lt_mono_r; lia]).
    split; [apply Z.lor_nonneg; lia|]. destruct (decide (Z.lor (v (fd / 64)) (2 ^ (fd mod 64)) = 0)) as [->|]; [lia|].
    apply Z.log2_lt_pow2; [|rewrite Z.log2_lor by lia; apply Z.max_lub_lt].
    - assert (0 ≤ Z.lor (v (fd / 64)) (2 ^ (fd mod 64))) by (apply Z.lor_nonneg; lia). lia.
    - destruct (decide (v (fd / 64) = 0)) as [->|]; [done|]. apply Z.log2_lt_pow2; lia.
    - rewrite Z.log2_pow2 by lia. lia. }
  eapply wp_mono; [apply writer_wp; [done|lia]|cbv beta|by intros e m' [? _]]. intros [] m' Hw. split; [apply Hw|].
  exists (λ k, if k =? fd / 64 then Z.lor (v k) (select_fd_bit fd) else v k). split.
  - intros k Hkw. destruct (Z.eqb_spec k (fd / 64)) as [->|Hne].
    + split; [done|]. apply (wr_bytes _ _ _ _ Hw). rewrite zlen_le_bytes. by apply holds_readable in Hh; rewrite zlen_le_bytes in Hh.
    + destruct (Hv k Hkw) as [? Hhk]. split; [done|]. eapply wr_other; [exact Hw| |exact Hhk]. unfold apart. rewrite !zlen_le_bytes. lia.
  - intros x Hx. cbv beta. destruct (Z.eqb_spec (x / 64) (fd / 64)) as [Ek|Ek].
    + rewrite Z.lor_spec, Ek, <- Ek, Hbits by done. f_equal. unfold select_fd_bit, LINUX_SELECT_FD_BITS.
      rewrite Z.shiftl_1_l, Z.pow2_bits_eqb by lia.
      destruct (Z.eqb_spec x fd) as [->|Hne]; [by rewrite Z.eqb_refl, (proj2 (Z.ltb_lt _ _)) by lia|].
      simpl. apply Z.eqb_neq. intros Em. apply Hne. rewrite (Z.div_mod x 64), (Z.div_mod fd 64) by lia. congruence.
    + rewrite Hbits by done. destruct (Z.eqb_spec x fd) as [->|]; [done|]. by rewrite orb_false_r.
Qed.

Lemma fd_set_ext m addr words S S' :
  (∀ x, 0 ≤ x < 64 * words → S x = S' x) → fd_set_is m addr words S → fd_set_is m addr words S'.
Proof. intros HE (v & Hv & Hb). exists v. split; [done|]. intros x Hx. rewrite Hb by done. by apply HE. Qed.

Lemma set_bits_wp addr words nfds fds : ∀ m S,
  I m → 0 < addr → addr + 8 * words < 2 ^ 64 → nfds ≤ 64 * words → fd_set_is m addr words S →
  wp (foreach fds (set_select_bit addr nfds))
    (λ _ m', I m' ∧ fd_set_is m' addr words (λ x, S x || (bool_decide (x ∈ fds) && (x <? nfds)))) (λ e _, e = EFAULT) m.
Proof.
  induction fds as [|fd fds IH]; intros m S HI Ha Hfit Hn HS; simpl.
  - apply wp_ret. split; [done|]. eapply fd_set_ext; [|done]. intros x _. by rewrite orb_false_r.
  - apply wp_bind. eapply wp_mono; [by apply set_bit_wp|cbv beta|done]. intros [] m1 [HI1 HS1].
    eapply wp_mono; [by apply IH|cbv beta|done]. intros [] m2 [HI2 HS2]. split; [done|].
    eapply fd_set_ext; [|done]. intros x _. cbv beta. rewrite <- orb_assoc. f_equal.
    destruct (x <? nfds); [|by rewrite !andb_false_r]. rewrite !andb_true_r. destruct (Z.eqb_spec x fd) as [->|Hne]; simpl.
    + rewrite bool_decide_eq_true_2; [done|by left].
    + apply bool_decide_ext. rewrite elem_of_cons. naive_solver.
Qed.

(** Zeros are the empty set. *)
Lemma holds_zero_words m addr words :
  holds_bytes m addr (zero_vec (8 * words)) → fd_set_is m addr words (λ _, false).
Proof.
  intros Hz. exists (λ _, 0). split.
  - intros k Hk. split; [unfold is_u64; lia|]. intros i b Hb. pose proof (byte_at_bound _ _ _ Hb) as Hi. rewrite zlen_le_bytes in Hi.
    assert (b = 0) as ->.
    { unfold byte_at in Hb. destruct (Z.ltb_spec i 0); [done|]. change (le_bytes 8 0) with (replicate 8 0) in Hb.
      by apply lookup_replicate in Hb as [-> _]. }
    rewrite <- Z.add_assoc. apply Hz. unfold byte_at, zero_vec. destruct (Z.ltb_spec (8 * k + i) 0); [lia|].
    apply lookup_replicate_2. lia.
  - intros fd _. apply Z.bits_0.
Qed.
Lemma write_fd_set_wp m set_addr nfds fds words :
  I m → 0 < set_addr → 0 ≤ nfds → words = (nfds + 63) / 64 → set_addr + 8 * words < 2 ^ 64 → nfds + 63 < 2 ^ 64 →
  readable m set_addr (8 * words) →
  wp (write_select_fd_set set_addr nfds fds)
    (λ _ m', I m' ∧ fd_set_is m' set_addr words (λ fd, bool_decide (fd ∈ fds) && (fd <? nfds))) (λ e _, e = EFAULT) m.
Proof.
  intros HI Ha Hn -> Hfit Hn64 Hr. unfold write_select_fd_set. rewrite (proj2 (Z.eqb_neq _ _)) by lia.
  assert (Hw : 0 ≤ (nfds + 63) / 64) by (apply Z.div_pos; lia).
  assert (Hcover : nfds ≤ 64 * ((nfds + 63) / 64)).
  { pose proof (Z.mod_pos_bound (nfds + 63) 64 ltac:(lia)). pose proof (Z.div_mod (nfds + 63) 64 ltac:(lia)). lia. }
  apply wp_bind. unfold select_fd_set_len, LINUX_SELECT_FD_BITS. change (64 - 1) with 63. rewrite checked_add64_fit by done.
  apply wp_lift; [|done|done]. intros ? [= <-]. apply wp_bind. unfold write_zeroed. rewrite (Z.mul_comm _ 8).
  eapply wp_mono; [apply writer_wp; [done|lia]|cbv beta|by intros e m' [? _]]. intros [] m1 Hw1.
  eapply wp_mono; [apply (set_bits_wp set_addr ((nfds + 63) / 64) nfds fds m1 (λ _, false)); try done|done|done].
  - apply Hw1.
  - apply holds_zero_words, (wr_bytes _ _ _ _ Hw1). by rewrite zlen_zero_vec by lia.
Qed.

(** ** Strings *)
Lemma c_bytes_loop_spec m addr : I m → 0 ≤ addr → addr + 4096 < 2 ^ 64 →
  ∀ budget pre, holds_bytes m addr pre → 0 ∉ pre → zlen pre + Z.of_nat budget ≤ 4096 →
  match c_bytes_loop budget addr (zlen pre) pre m with
  | Ok s => ∃ tail, s = pre ++ tail ∧ (0 ∉ s) ∧ holds_bytes m addr (s ++ [0]) ∧ zlen tail < Z.of_nat budget
  | Err e => (e = ENAMETOOLONG ∧ ∃ s, (0 ∉ s) ∧ zlen s = zlen pre + Z.of_nat budget ∧ holds_bytes m addr s) ∨
             (e = EFAULT ∧ ∃ s, (0 ∉ s) ∧ holds_bytes m addr s ∧ view m (addr + zlen s) = None)
  | Panic => False
  end.
Proof.
  intros HI Ha Hfit. induction budget as [|budget IH]; intros pre Hh Hn Hle.
  - simpl. left. split; [done|]. exists pre. split; [done|]. split; [lia|done].
  - cbn [c_bytes_loop]. pose proof (zlen_nonneg pre). unfold fault_add. rewrite checked_add64_fit by lia. cbn [ok_or obind].
    destruct (view m (addr + zlen pre)) as [b|] eqn:Ev.
    + assert (Hb : holds_bytes m (addr + zlen pre) [b]).
      { intros i x Hx. pose proof (byte_at_bound _ _ _ Hx) as Hi. change (zlen [b]) with 1 in Hi. assert (i = 0) as -> by lia.
        injection Hx as <-. by rewrite Z.add_0_r. }
      assert (Hrd : reader (addr + zlen pre) 1 m = Ok [b]).
      { apply (reader_holds m (addr + zlen pre) [b]); [done|lia| |done]. change (zlen [b]) with 1. lia. }
      rewrite Hrd. cbn [obind head expect]. destruct (Z.eqb_spec b 0) as [->|Hb0].
      * exists []. rewrite app_nil_r. split; [done|]. split; [done|]. split; [by apply holds_app|]. unfold zlen. simpl. lia.
      * assert (Hl : zlen (pre ++ [b]) = zlen pre + 1) by (rewrite zlen_app; done).
        assert (Hh' : holds_bytes m addr (pre ++ [b])) by by apply holds_app.
        assert (Hn' : 0 ∉ pre ++ [b]) by (rewrite not_elem_of_app, list_elem_of_singleton; split; [done|lia]).
        specialize (IH (pre ++ [b]) Hh' Hn' ltac:(lia)). rewrite Hl in IH. destruct (c_bytes_loop _ _ _ _ _) as [s|e|]; [| |done].
        -- destruct IH as (tail & -> & ? & ? & ?). exists (b :: tail). split; [by rewrite <- app_assoc|]. split; [done|]. split; [done|].
           unfold zlen in *. simpl. lia.
        -- destruct IH as [(-> & s & ? & Hs & ?)|IH]; [left|by right]. split; [done|]. exists s. split; [done|]. split; [lia|done].
    + pose proof (read_bytes_law m (addr + zlen pre) 1 HI ltac:(lia) ltac:(lia) ltac:(lia)) as Hrd. unfold reader.
      destruct (read_bytes _ _ _) as [bs|[]|]; cbn [map_err obind]; [| |done].
      * exfalso. destruct Hrd as [Hl Hbs]. destruct (byte_at_Some bs 0) as [x Hx]; [lia|]. apply Hbs in Hx.
        rewrite Z.add_0_r in Hx. congruence.
      * right. split; [done|]. by exists pre.
Qed.
End codec.

(** ** The properties *)

(** C14. A socket address that is written to the guest reads back as the same address, for
    every family, when the guest gave room for it; with less room the guest gets the prefix
    that fits.  In both cases the length it is told is that of the whole address.  The write
    fails only with EFAULT. *)
Theorem socket_address_round_trip {M : Type} {access : SysCodec.GuestMemoryAccess M} (view : M → Z → option Z)
    (I : M → Prop) {laws : SysCodec.GuestMemoryAccessLaws M view I}
    (m : M) (sockaddr addrlen_addr capacity : Z) (a : LinuxSocketAddress)
    (HI : I m) (Ha : address_ok a)
    (Hs : 0 ≤ sockaddr ∧ sockaddr + LINUX_SOCKADDR_UN_LEN < 2 ^ 64) (Hl : 0 ≤ addrlen_addr ∧ addrlen_addr + 4 < 2 ^ 64)
    (Hap : apart sockaddr LINUX_SOCKADDR_UN_LEN addrlen_addr 4)
    (Hrs : readable view m sockaddr LINUX_SOCKADDR_UN_LEN) (Hrl : readable view m addrlen_addr 4)
    (Hcap : read_guest_u32 addrlen_addr m = Ok capacity ∧ 0 ≤ capacity) :
  ∃ enc, encode_socket_address a = Ok enc ∧
    wp (write_socket_address sockaddr addrlen_addr a)
      (λ _ m', I m' ∧ read_guest_u32 addrlen_addr m' = Ok (zlen enc) ∧
               holds_bytes view m' sockaddr (take (Z.to_nat capacity) enc) ∧
               (zlen enc ≤ capacity → read_socket_address sockaddr (zlen enc) m' = Ok a))
      (λ e m', e = EFAULT) m.
Proof. destruct Hs, Hl, Hcap. by eapply write_address_wp. Qed.

#[local] Existing Instances GuestMemoryTheorems.PlainOs GuestMemoryTheorems.PlainOsLaws.

(** "/tmp/s" as a Unix address. *)
Definition sample_unix : LinuxSocketAddress :=
  LinuxUnix ([47; 116; 109; 112; 47; 115] ++ replicate 102 0) 6.

Lemma sample_unix_ok : address_ok sample_unix.
Proof. exists [47; 116; 109; 112; 47; 115]. split; [reflexivity|]. right. rewrite !not_elem_of_cons. split_and!; [lia..|apply not_elem_of_nil]. Qed.

(** The page of [page_world], with the capacity stored at 0x700100. *)
Definition socket_world : World := (write_guest_u32 0x700100 110 page_world).2.

Definition readable_in (w : World) (addr len : Z) : bool :=
  forallb (λ a, bool_decide (is_Some (readable_byte w a))) (seqZ addr len).

Lemma readable_in_spec w addr len : readable_in w addr len = true → readable readable_byte w addr len.
Proof.
  unfold readable_in. rewrite forallb_forall. intros H a Ha. apply (bool_decide_eq_true_1 _), H.
  apply list_elem_of_In, elem_of_seqZ. lia.
Qed.

Lemma socket_page_readable : readable_in socket_world 0x700000 110 = true ∧ readable_in socket_world 0x700100 4 = true.
Proof. split; vm_compute; reflexivity. Qed.

Lemma socket_world_wf : world_wf socket_world.
Proof.
  pose proof (write_bytes_law (view := readable_byte) page_world 0x700100 (le_bytes 4 110) page_world_wf ltac:(lia)) as H.
  unfold socket_world, write_guest_u32, writer. destruct (write_bytes _ _ _) as [[[]|e|] m']; [apply H|apply H|done].
Qed.

Lemma socket_address_round_trip_witness :
  world_wf socket_world ∧ address_ok sample_unix ∧ read_guest_u32 0x700100 socket_world = Ok 110 ∧
  ∃ enc, encode_socket_address sample_unix = Ok enc ∧
    wp (write_socket_address 0x700000 0x700100 sample_unix)
      (λ _ m', world_wf m' ∧ read_guest_u32 0x700100 m' = Ok (zlen enc) ∧
               holds_bytes readable_byte m' 0x700000 (take (Z.to_nat 110) enc) ∧
               (zlen enc ≤ 110 → read_socket_address 0x700000 (zlen enc) m' = Ok sample_unix))
      (λ e m', e = EFAULT) socket_world.
Proof.
  assert (Hc : read_guest_u32 0x700100 socket_world = Ok 110) by (vm_compute; reflexivity).
  split; [exact socket_world_wf|]. split; [exact sample_unix_ok|]. split; [exact Hc|].
  apply (socket_address_round_trip readable_byte world_wf).
  - exact socket_world_wf.
  - exact sample_unix_ok.
  - unfold LINUX_SOCKADDR_UN_LEN, LINUX_SOCKADDR_UN_PATH_LEN. lia.
  - lia.
  - left. unfold LINUX_SOCKADDR_UN_LEN, LINUX_SOCKADDR_UN_PATH_LEN. lia.
  - apply readable_in_spec, socket_page_readable.
  - apply readable_in_spec, socket_page_readable.
  - split; [exact Hc|lia].
Defined.

(** The descriptor set that [select] writes back is exactly the set of the ready
    descriptors below [nfds]: reading the bit of any descriptor of the set's words tells whether
    it was ready.  Duplicates and descriptors that are out of range change nothing, and the write
    fails only with EFAULT. *)
Theorem select_set_reads_back {M : Type} {access : SysCodec.GuestMemoryAccess M} (view : M → Z → option Z)
    (I : M → Prop) {laws : SysCodec.GuestMemoryAccessLaws M view I}
    (m : M) (set_addr nfds : Z) (fds : list Z)
    (HI : I m) (Hs : 0 < set_addr ∧ set_addr + 8 * ((nfds + 63) / 64) < 2 ^ 64) (Hn : select_nfds nfds = Ok nfds)
    (Hr : readable view m set_addr (8 * ((nfds + 63) / 64))) :
  wp (write_select_fd_set set_addr nfds fds)
    (λ _ m', I m' ∧ ∀ fd, 0 ≤ fd < 64 * ((nfds + 63) / 64) →
       select_fd_set_contains set_addr fd m' = Ok (bool_decide (fd ∈ fds) && (fd <? nfds)))
    (λ e _, e = EFAULT) m.
Proof.
  destruct Hs. assert (0 ≤ nfds ≤ 4096).
  { unfold select_nfds, LINUX_MAX_SELECT_FDS in Hn. destruct (Z.ltb_spec (as_i64 nfds) 0); [done|].
    destruct (Z.ltb_spec 4096 (as_i64 nfds)); [done|]. injection Hn as Hn. lia. }
  eapply wp_mono; [by eapply (write_fd_set_wp view I m set_addr nfds fds); try done; lia|cbv beta|done].
  intros _ m' [HI' Hset]. split; [done|]. intros fd Hfd.
  exact (contains_holds view I m' set_addr _ _ fd HI' ltac:(done) ltac:(done) Hset Hfd).
Qed.

Lemma select_set_reads_back_witness :
  world_wf page_world ∧
  wp (write_select_fd_set 0x700000 70 [3; 68; 3; 90; -1])
    (λ _ m', world_wf m' ∧ ∀ fd, 0 ≤ fd < 64 * ((70 + 63) / 64) →
       select_fd_set_contains 0x700000 fd m' = Ok (bool_decide (fd ∈ [3; 68; 3; 90; -1]) && (fd <? 70)))
    (λ e _, e = EFAULT) page_world.
Proof.
  split; [exact page_world_wf|]. apply (select_set_reads_back readable_byte world_wf page_world 0x700000 70).
  - exact page_world_wf.
  - split; vm_compute; reflexivity.
  - reflexivity.
  - apply readable_in_spec. vm_compute. reflexivity.
Defined.

(** A C string is read up to its first NUL and never past it: the result is the bytes
    before that NUL, fewer than 4096.  The call says ENAMETOOLONG only when 4096 bytes hold no
    NUL, and EFAULT only when a byte that cannot be read comes before the NUL. *)
Theorem c_string_is_read {M : Type} {access : SysCodec.GuestMemoryAccess M} (view : M → Z → option Z)
    (I : M → Prop) {laws : SysCodec.GuestMemoryAccessLaws M view I}
    (m : M) (addr : Z) (HI : I m) (Ha : 0 ≤ addr ∧ addr + 4096 < 2 ^ 64) :
  match read_guest_c_bytes addr m with
  | Ok s => (0 ∉ s) ∧ holds_bytes view m addr (s ++ [0]) ∧ zlen s < 4096
  | Err e => (e = ENAMETOOLONG ∧ ∃ s, (0 ∉ s) ∧ zlen s = 4096 ∧ holds_bytes view m addr s) ∨
             (e = EFAULT ∧ ∃ s, (0 ∉ s) ∧ holds_bytes view m addr s ∧ view m (addr + zlen s) = None)
  | Panic => False
  end.
Proof.
  destruct Ha. unfold read_guest_c_bytes.
  pose proof (c_bytes_loop_spec view I m addr HI ltac:(lia) ltac:(lia) LINUX_MAX_C_STRING_LEN [] (holds_nil view m addr)
                (not_elem_of_nil 0) ltac:(done)) as Hs.
  change (zlen []) with 0 in Hs. change (Z.of_nat LINUX_MAX_C_STRING_LEN) with 4096 in Hs.
  destruct (c_bytes_loop _ _ _ _ _) as [s|e|]; [|done|done]. by destruct Hs as (tail & -> & ? & ? & ?).
Qed.

(** "/bin" at 0x700010, and the zeros of a fresh page after it. *)
Lemma c_string_is_read_witness :
  world_wf page_world ∧
  read_guest_c_bytes 0x700010 (write_bytes 0x700010 [47; 98; 105; 110] page_world).2 = Ok [47; 98; 105; 110] ∧
  match read_guest_c_bytes 0x700000 page_world with
  | Ok s => (0 ∉ s) ∧ holds_bytes readable_byte page_world 0x700000 (s ++ [0]) ∧ zlen s < 4096
  | Err e => (e = ENAMETOOLONG ∧ ∃ s, (0 ∉ s) ∧ zlen s = 4096 ∧ holds_bytes readable_byte page_world 0x700000 s) ∨
             (e = EFAULT ∧ ∃ s, (0 ∉ s) ∧ holds_bytes readable_byte page_world 0x700000 s ∧
                                readable_byte page_world (0x700000 + zlen s) = None)
  | Panic => False
  end.
Proof.
  split; [exact page_world_wf|]. split; [vm_compute; reflexivity|].
  apply (c_string_is_read readable_byte world_wf page_world 0x700000); [exact page_world_wf|lia].
Defined.

(** A length that no buffer can have is not refused: the call panics. *)
Example iovec_length_panics :
  iovec_output_buffers [{| iov_base := 0x700000; iov_len := 2 ^ 63 |}] = Panic ∧
  read_iovec_buffers [{| iov_base := 0x700000; iov_len := 2 ^ 63 |}] page_world = Panic.
Proof. split; reflexivity. Qed.
