(* ===== verification/ElfParser.v ===== *)
(** * mcr-elf: the load plan

    [parse_load_plan] (plan.rs and parser.rs): the ELF header and the program headers of a
    file, checked and turned into the segments to map, the interpreter and the entry
    point.  A file is a list of bytes; an index out of range would be [Panic]. *)

From S2P Require Import Prelude Bytes.
From stdpp Require Import base list sorting.
From Stdlib Require Import ZArith Lia.
Open Scope Z_scope.

Definition ELF64_HEADER_SIZE : Z := 64.
Definition ELF64_PROGRAM_HEADER_SIZE : Z := 56.
Definition PAGE_SIZE : Z := 4096.
Definition EI_CLASS : Z := 4.
Definition EI_DATA : Z := 5.
Definition EI_VERSION : Z := 6.
Definition ELFCLASS64 : Z := 2.
Definition ELFDATA2LSB : Z := 1.
Definition EV_CURRENT_U8 : Z := 1.
Definition EV_CURRENT_U32 : Z := 1.
Definition ET_EXEC : Z := 2.
Definition ET_DYN : Z := 3.
Definition EM_X86_64 : Z := 62.
Definition PT_LOAD : Z := 1.
Definition PT_INTERP : Z := 3.
Definition PT_PHDR : Z := 6.
Definition PF_X : Z := 1.
Definition PF_W : Z := 2.
Definition PF_R : Z := 4.
Definition PF_SUPPORTED : Z := Z.lor (Z.lor PF_X PF_W) PF_R.

Inductive ElfValidationError : Type :=
| FileTooSmall (expected_at_least actual : Z)
| InvalidMagic
| UnsupportedClass (value : Z)
| UnsupportedEndian (value : Z)
| UnsupportedIdentVersion (value : Z)
| UnsupportedFileVersion (value : Z)
| UnsupportedObjectType (value : Z)
| UnsupportedMachine (value : Z)
| InvalidHeaderSize (expected actual : Z)
| MissingProgramHeaders
| InvalidProgramHeaderEntrySize (expected actual : Z)
| ProgramHeaderTableOverflow
| ProgramHeaderTableOutOfBounds (offset size file_size : Z)
| SegmentFileSizeExceedsMemorySize (index file_size memory_size : Z)
| SegmentFileRangeOverflow (index offset file_size : Z)
| SegmentFileRangeOutOfBounds (index offset file_size file_len : Z)
| SegmentAddressOverflow (index virtual_address memory_size : Z)
| SegmentMappingOverflow (index : Z)
| InvalidSegmentAlignment (index alignment : Z)
| MisalignedSegment (index file_offset virtual_address alignment : Z)
| UnsupportedSegmentFlags (index flags : Z)
| MissingLoadSegments
| OverlappingLoadSegments (first_index second_index : Z)
| EntrypointNotExecutable (entrypoint : Z)
| DuplicateInterpreter (first_index second_index : Z)
| InterpreterRangeOverflow (index offset file_size : Z)
| InterpreterOutOfBounds (index offset file_size file_len : Z)
| UnterminatedInterpreter (index : Z)
| EmptyInterpreter (index : Z).

(** ** The load plan *)
Inductive ElfObjectType : Type := Executable | SharedObject.

Definition object_type_from_raw (raw : Z) : outcome ElfObjectType ElfValidationError :=
  if raw =? ET_EXEC then Ok Executable
  else if raw =? ET_DYN then Ok SharedObject
  else Err (UnsupportedObjectType raw).

Record ProgramHeaderTable : Type := {
  pt_file_offset : Z;
  pt_entry_size : Z;
  pt_entry_count : Z;
  pt_virtual_address : option Z;
}.

Record SegmentPermissions : Type := { sp_read : bool; sp_write : bool; sp_execute : bool }.

(** [SegmentPermissions::try_from]: the error is the flags. *)
Definition permissions_try_from (flags : Z) : outcome SegmentPermissions Z :=
  if negb (without_bits flags PF_SUPPORTED =? 0) then Err flags
  else Ok {| sp_read := has_bits flags PF_R; sp_write := has_bits flags PF_W;
             sp_execute := has_bits flags PF_X |}.

Record MemoryMapping : Type := {
  mm_start : Z;
  mm_end : Z;
  mm_file_offset : Z;
  mm_file_size : Z;
  mm_permissions : SegmentPermissions;
}.

Definition mapping_memory_size (m : MemoryMapping) : Z := wsub (mm_end m) (mm_start m).

Record LoadSegment : Type := {
  ls_program_header_index : Z;
  ls_file_offset : Z;
  ls_virtual_address : Z;
  ls_file_size : Z;
  ls_memory_size : Z;
  ls_alignment : Z;
  ls_permissions : SegmentPermissions;
  ls_mapping : MemoryMapping;
}.

Definition contains_virtual_address (s : LoadSegment) (address : Z) : bool :=
  (ls_virtual_address s <=? address) &&
  (address <? wadd (ls_virtual_address s) (ls_memory_size s)).

Record LoadPlan : Type := {
  lp_object_type : ElfObjectType;
  lp_entrypoint : Z;
  lp_program_headers : ProgramHeaderTable;
  lp_interpreter : option (list Z);
  lp_segments : list LoadSegment;
}.

(** ** Arithmetic on offsets *)
Inductive FileRangeError : Type := Overflow | OutOfBounds.

Definition checked_file_range (offset size file_len : Z) : outcome (Z * Z) FileRangeError :=
  let? end_ := ok_or (checked_add64 offset size) Overflow in
  if file_len <? end_ then Err OutOfBounds else Ok (offset, end_).

Definition align_down (value alignment : Z) : Z := value / alignment * alignment.

Definition align_up (value alignment : Z) : option Z :=
  let remainder := value mod alignment in
  if remainder =? 0 then Some value else checked_add64 value (alignment - remainder).

Definition is_power_of_two (value : Z) : bool := (0 <? value) && (2 ^ Z.log2 value =? value).

(** ** Headers *)
Definition ELF_MAGIC : list Z := [0x7f; 0x45; 0x4c; 0x46].

Definition is_elf64 (bytes : list Z) : bool :=
  (5 <=? zlen bytes) && bool_decide (slice bytes 0 4 = Some ELF_MAGIC) &&
  bool_decide (byte_at bytes EI_CLASS = Some ELFCLASS64).

Definition validate_ident (bytes : list Z) : outcome unit ElfValidationError :=
  if zlen bytes <? ELF64_HEADER_SIZE then Err (FileTooSmall ELF64_HEADER_SIZE (zlen bytes)) else
  let? magic := expect (slice bytes 0 4) in
  if negb (bool_decide (magic = ELF_MAGIC)) then Err InvalidMagic else
  let? class := expect (byte_at bytes EI_CLASS) in
  if negb (class =? ELFCLASS64) then Err (UnsupportedClass class) else
  let? data := expect (byte_at bytes EI_DATA) in
  if negb (data =? ELFDATA2LSB) then Err (UnsupportedEndian data) else
  let? version := expect (byte_at bytes EI_VERSION) in
  if negb (version =? EV_CURRENT_U8) then Err (UnsupportedIdentVersion version) else
  Ok tt.

Record ElfHeader : Type := {
  eh_object_type : Z;
  eh_machine : Z;
  eh_version : Z;
  eh_entrypoint : Z;
  eh_program_header_offset : Z;
  eh_header_size : Z;
  eh_program_header_entry_size : Z;
  eh_program_header_count : Z;
}.

Definition parse_elf_header (bytes : list Z) : outcome ElfHeader ElfValidationError :=
  let? object_type := read_u16 bytes 16 in
  let? machine := read_u16 bytes 18 in
  let? version := read_u32 bytes 20 in
  let? entrypoint := read_u64 bytes 24 in
  let? program_header_offset := read_u64 bytes 32 in
  let? header_size := read_u16 bytes 52 in
  let? program_header_entry_size := read_u16 bytes 54 in
  let? program_header_count := read_u16 bytes 56 in
  if negb (version =? EV_CURRENT_U32) then Err (UnsupportedFileVersion version) else
  if negb (machine =? EM_X86_64) then Err (UnsupportedMachine machine) else
  Ok {| eh_object_type := object_type; eh_machine := machine; eh_version := version;
        eh_entrypoint := entrypoint; eh_program_header_offset := program_header_offset;
        eh_header_size := header_size;
        eh_program_header_entry_size := program_header_entry_size;
        eh_program_header_count := program_header_count |}.

Definition validate_program_header_table (header : ElfHeader) (file_size : Z)
    : outcome unit ElfValidationError :=
  if negb (eh_header_size header =? ELF64_HEADER_SIZE)
  then Err (InvalidHeaderSize ELF64_HEADER_SIZE (eh_header_size header)) else
  if eh_program_header_count header =? 0 then Err MissingProgramHeaders else
  if negb (eh_program_header_entry_size header =? ELF64_PROGRAM_HEADER_SIZE)
  then Err (InvalidProgramHeaderEntrySize ELF64_PROGRAM_HEADER_SIZE
              (eh_program_header_entry_size header)) else
  let product := eh_program_header_entry_size header * eh_program_header_count header in
  let? table_size := (if product <=? U64_MAX then Ok product else Err ProgramHeaderTableOverflow) in
  let? table_end := ok_or (checked_add64 (eh_program_header_offset header) table_size)
                      ProgramHeaderTableOverflow in
  if file_size <? table_end
  then Err (ProgramHeaderTableOutOfBounds (eh_program_header_offset header) table_size file_size)
  else Ok tt.

Record RawProgramHeader : Type := {
  ph_index : Z;
  ph_header_type : Z;
  ph_flags : Z;
  ph_file_offset : Z;
  ph_virtual_address : Z;
  ph_file_size : Z;
  ph_memory_size : Z;
  ph_alignment : Z;
}.

Definition parse_program_header (index : Z) (bytes : list Z) (offset : Z)
    : outcome RawProgramHeader ElfValidationError :=
  let? (from, to) := map_err
      (λ e, match e with
            | Overflow => ProgramHeaderTableOverflow
            | OutOfBounds => ProgramHeaderTableOutOfBounds offset ELF64_PROGRAM_HEADER_SIZE (zlen bytes)
            end)
      (checked_file_range offset ELF64_PROGRAM_HEADER_SIZE (zlen bytes)) in
  let? bytes := expect (slice bytes from to) in
  let? header_type := read_u32 bytes 0 in
  let? flags := read_u32 bytes 4 in
  let? file_offset := read_u64 bytes 8 in
  let? virtual_address := read_u64 bytes 16 in
  let? file_size := read_u64 bytes 32 in
  let? memory_size := read_u64 bytes 40 in
  let? alignment := read_u64 bytes 48 in
  Ok {| ph_index := index; ph_header_type := header_type; ph_flags := flags;
        ph_file_offset := file_offset; ph_virtual_address := virtual_address;
        ph_file_size := file_size; ph_memory_size := memory_size; ph_alignment := alignment |}.

Definition parse_program_headers (bytes : list Z) (header : ElfHeader)
    : outcome (list RawProgramHeader) ElfValidationError :=
  collect
    (λ index,
       let offset := wadd (eh_program_header_offset header)
                       (wrap64 (index * eh_program_header_entry_size header)) in
       parse_program_header index bytes offset)
    (seqZ 0 (eh_program_header_count header)).

(** ** Segments *)
Definition validate_segment_alignment (header : RawProgramHeader) : outcome unit ElfValidationError :=
  if (1 <? ph_alignment header) && negb (is_power_of_two (ph_alignment header))
  then Err (InvalidSegmentAlignment (ph_index header) (ph_alignment header)) else
  if (1 <? ph_alignment header) &&
     negb (ph_file_offset header mod ph_alignment header =?
           ph_virtual_address header mod ph_alignment header)
  then Err (MisalignedSegment (ph_index header) (ph_file_offset header)
              (ph_virtual_address header) (ph_alignment header))
  else Ok tt.

Definition build_memory_mapping (header : RawProgramHeader) (permissions : SegmentPermissions)
    : outcome MemoryMapping ElfValidationError :=
  let overflow := SegmentMappingOverflow (ph_index header) in
  let start := align_down (ph_virtual_address header) PAGE_SIZE in
  let page_offset := wsub (ph_virtual_address header) start in
  let? unaligned_end := ok_or (checked_add64 (ph_virtual_address header) (ph_memory_size header))
                          overflow in
  let? end_ := ok_or (align_up unaligned_end PAGE_SIZE) overflow in
  let? file_offset := ok_or (checked_sub64 (ph_file_offset header) page_offset) overflow in
  let? file_size := ok_or (checked_add64 (ph_file_size header) page_offset) overflow in
  Ok {| mm_start := start; mm_end := end_; mm_file_offset := file_offset;
        mm_file_size := file_size; mm_permissions := permissions |}.

Definition load_segment_from_header (header : RawProgramHeader) (file_len : Z)
    : outcome LoadSegment ElfValidationError :=
  let index := ph_index header in
  if ph_memory_size header <? ph_file_size header
  then Err (SegmentFileSizeExceedsMemorySize index (ph_file_size header) (ph_memory_size header)) else
  let? file_end := ok_or (checked_add64 (ph_file_offset header) (ph_file_size header))
                     (SegmentFileRangeOverflow index (ph_file_offset header) (ph_file_size header)) in
  if file_len <? file_end
  then Err (SegmentFileRangeOutOfBounds index (ph_file_offset header) (ph_file_size header) file_len) else
  let? _ := ok_or (checked_add64 (ph_virtual_address header) (ph_memory_size header))
              (SegmentAddressOverflow index (ph_virtual_address header) (ph_memory_size header)) in
  let? _ := validate_segment_alignment header in
  let? permissions := map_err (UnsupportedSegmentFlags index) (permissions_try_from (ph_flags header)) in
  let? mapping := build_memory_mapping header permissions in
  Ok {| ls_program_header_index := index; ls_file_offset := ph_file_offset header;
        ls_virtual_address := ph_virtual_address header; ls_file_size := ph_file_size header;
        ls_memory_size := ph_memory_size header; ls_alignment := ph_alignment header;
        ls_permissions := permissions; ls_mapping := mapping |}.

(** [segments.windows(2)] *)
Fixpoint validate_non_overlapping_segments (segments : list LoadSegment)
    : outcome unit ElfValidationError :=
  match segments with
  | first :: ((second :: _) as rest) =>
      if (ls_memory_size first =? 0) || (ls_memory_size second =? 0)
      then validate_non_overlapping_segments rest else
      if ls_virtual_address second <? wadd (ls_virtual_address first) (ls_memory_size first)
      then Err (OverlappingLoadSegments (ls_program_header_index first)
                  (ls_program_header_index second))
      else validate_non_overlapping_segments rest
  | _ => Ok tt
  end.

Definition validate_entrypoint (entrypoint : Z) (segments : list LoadSegment)
    : outcome unit ElfValidationError :=
  if existsb (λ s, sp_execute (ls_permissions s) && contains_virtual_address s entrypoint) segments
  then Ok tt else Err (EntrypointNotExecutable entrypoint).

(** ** The interpreter *)
Record ParsedInterpreter : Type := { pi_index : Z; pi_interpreter : list Z }.

Definition parse_interpreter (header : RawProgramHeader) (bytes : list Z)
    : outcome ParsedInterpreter ElfValidationError :=
  let index := ph_index header in
  let? (from, to) := map_err
      (λ e, match e with
            | Overflow => InterpreterRangeOverflow index (ph_file_offset header) (ph_file_size header)
            | OutOfBounds => InterpreterOutOfBounds index (ph_file_offset header)
                               (ph_file_size header) (zlen bytes)
            end)
      (checked_file_range (ph_file_offset header) (ph_file_size header) (zlen bytes)) in
  let? bytes := expect (slice bytes from to) in
  if negb (bool_decide (last bytes = Some 0)) then Err (UnterminatedInterpreter index) else
  let? path := expect (slice bytes 0 (zlen bytes - 1)) in
  if zlen path =? 0 then Err (EmptyInterpreter index) else
  Ok {| pi_index := index; pi_interpreter := path |}.

(** [find_map] over the segments: a [None] from [?] moves on to the next one. *)
Fixpoint infer_program_header_virtual_address (segments : list LoadSegment) (header : ElfHeader)
    : option Z :=
  match segments with
  | [] => None
  | segment :: segments =>
      match
        phoff_in_segment ← checked_sub64 (eh_program_header_offset header) (ls_file_offset segment);
        phend_in_segment ← checked_add64 phoff_in_segment
          (eh_program_header_entry_size header * eh_program_header_count header);
        if phend_in_segment <=? ls_file_size segment
        then Some (wadd (ls_virtual_address segment) phoff_in_segment) else None
      with
      | Some address => Some address
      | None => infer_program_header_virtual_address segments header
      end
  end.

(** ** parse_load_plan *)
Record ParseState : Type := {
  ps_segments : list LoadSegment;
  ps_interpreter : option ParsedInterpreter;
  ps_program_header_virtual_address : option Z;
}.

(** The body of the loop over the program headers. *)
Definition parse_header_step (bytes : list Z) (st : ParseState) (header : RawProgramHeader)
    : outcome ParseState ElfValidationError :=
  if ph_header_type header =? PT_LOAD then
    let? segment := load_segment_from_header header (zlen bytes) in
    Ok {| ps_segments := ps_segments st ++ [segment]; ps_interpreter := ps_interpreter st;
          ps_program_header_virtual_address := ps_program_header_virtual_address st |}
  else if ph_header_type header =? PT_INTERP then
    match ps_interpreter st with
    | Some existing => Err (DuplicateInterpreter (pi_index existing) (ph_index header))
    | None =>
        let? interpreter := parse_interpreter header bytes in
        Ok {| ps_segments := ps_segments st; ps_interpreter := Some interpreter;
              ps_program_header_virtual_address := ps_program_header_virtual_address st |}
    end
  else if ph_header_type header =? PT_PHDR then
    Ok {| ps_segments := ps_segments st; ps_interpreter := ps_interpreter st;
          ps_program_header_virtual_address := Some (ph_virtual_address header) |}
  else Ok st.

Definition parse_load_plan (bytes : list Z) : outcome LoadPlan ElfValidationError :=
  let? _ := validate_ident bytes in
  let? header := parse_elf_header bytes in
  let? object_type := object_type_from_raw (eh_object_type header) in
  let? _ := validate_program_header_table header (zlen bytes) in
  let? raw_headers := parse_program_headers bytes header in
  let? st := try_fold (parse_header_step bytes)
      {| ps_segments := []; ps_interpreter := None; ps_program_header_virtual_address := None |}
      raw_headers in
  if bool_decide (ps_segments st = []) then Err MissingLoadSegments else
  let segments := sort_by_key ls_virtual_address (ps_segments st) in
  let? _ := validate_non_overlapping_segments segments in
  let? _ := validate_entrypoint (eh_entrypoint header) segments in
  Ok {| lp_object_type := object_type; lp_entrypoint := eh_entrypoint header;
        lp_program_headers :=
          {| pt_file_offset := eh_program_header_offset header;
             pt_entry_size := eh_program_header_entry_size header;
             pt_entry_count := eh_program_header_count header;
             pt_virtual_address :=
               match ps_program_header_virtual_address st with
               | Some address => Some address
               | None => infer_program_header_virtual_address segments header
               end |};
        lp_interpreter := pi_interpreter <$> ps_interpreter st;
        lp_segments := segments |}.
