(* ===== verification/ElfImage.v ===== *)
(** * mcr-elf: the initial stack and the memory image

    [build_initial_stack] (stack.rs, auxv.rs): the strings, the random bytes and the
    pointer area that a Linux program finds above its stack pointer. *)

From S2P Require Import Prelude Bytes ElfParser.
From stdpp Require Import base list strings sorting.
From Stdlib Require Import ZArith Lia.
Open Scope Z_scope.

Definition AT_RANDOM_BYTES : Z := 16.
Definition INITIAL_STACK_ALIGNMENT : Z := 16.
Definition DEFAULT_PLATFORM : list Z := [0x78; 0x38; 0x36; 0x5f; 0x36; 0x34].
Definition DEFAULT_CLOCK_TICKS_PER_SECOND : Z := 100.

Definition AT_NULL : Z := 0.
Definition AT_PHDR : Z := 3.
Definition AT_PHENT : Z := 4.
Definition AT_PHNUM : Z := 5.
Definition AT_PAGESZ : Z := 6.
Definition AT_BASE : Z := 7.
Definition AT_FLAGS : Z := 8.
Definition AT_ENTRY : Z := 9.
Definition AT_UID : Z := 11.
Definition AT_EUID : Z := 12.
Definition AT_GID : Z := 13.
Definition AT_EGID : Z := 14.
Definition AT_PLATFORM : Z := 15.
Definition AT_HWCAP : Z := 16.
Definition AT_CLKTCK : Z := 17.
Definition AT_SECURE : Z := 23.
Definition AT_RANDOM : Z := 25.
Definition AT_HWCAP2 : Z := 26.
Definition AT_EXECFN : Z := 31.

Record AuxiliaryVectorEntry : Type := { av_key : Z; av_value : Z }.

Definition aux (key value : Z) : AuxiliaryVectorEntry := {| av_key := key; av_value := value |}.

Record InitialStackConfig : Type := {
  sc_stack_top : Z;
  sc_stack_size : Z;
  sc_executable_path : list Z;
  sc_argv : list (list Z);
  sc_envp : list (list Z);
  sc_random_bytes : list Z;
  sc_executable_load_bias : Z;
  sc_interpreter_base : Z;
  sc_platform : list Z;
}.

Definition stack_config_new (stack_top stack_size : Z) (executable_path : list Z)
    : InitialStackConfig :=
  {| sc_stack_top := stack_top; sc_stack_size := stack_size;
     sc_executable_path := executable_path; sc_argv := [executable_path]; sc_envp := [];
     sc_random_bytes := zero_vec AT_RANDOM_BYTES; sc_executable_load_bias := 0;
     sc_interpreter_base := 0; sc_platform := DEFAULT_PLATFORM |}.

Definition with_argv (argv : list (list Z)) (c : InitialStackConfig) : InitialStackConfig :=
  {| sc_stack_top := sc_stack_top c; sc_stack_size := sc_stack_size c;
     sc_executable_path := sc_executable_path c; sc_argv := argv; sc_envp := sc_envp c;
     sc_random_bytes := sc_random_bytes c; sc_executable_load_bias := sc_executable_load_bias c;
     sc_interpreter_base := sc_interpreter_base c; sc_platform := sc_platform c |}.

Definition with_envp (envp : list (list Z)) (c : InitialStackConfig) : InitialStackConfig :=
  {| sc_stack_top := sc_stack_top c; sc_stack_size := sc_stack_size c;
     sc_executable_path := sc_executable_path c; sc_argv := sc_argv c; sc_envp := envp;
     sc_random_bytes := sc_random_bytes c; sc_executable_load_bias := sc_executable_load_bias c;
     sc_interpreter_base := sc_interpreter_base c; sc_platform := sc_platform c |}.

Definition with_executable_load_bias (bias : Z) (c : InitialStackConfig) : InitialStackConfig :=
  {| sc_stack_top := sc_stack_top c; sc_stack_size := sc_stack_size c;
     sc_executable_path := sc_executable_path c; sc_argv := sc_argv c; sc_envp := sc_envp c;
     sc_random_bytes := sc_random_bytes c; sc_executable_load_bias := bias;
     sc_interpreter_base := sc_interpreter_base c; sc_platform := sc_platform c |}.

Definition with_interpreter_base (base : Z) (c : InitialStackConfig) : InitialStackConfig :=
  {| sc_stack_top := sc_stack_top c; sc_stack_size := sc_stack_size c;
     sc_executable_path := sc_executable_path c; sc_argv := sc_argv c; sc_envp := sc_envp c;
     sc_random_bytes := sc_random_bytes c; sc_executable_load_bias := sc_executable_load_bias c;
     sc_interpreter_base := base; sc_platform := sc_platform c |}.

Record InitialStack : Type := {
  is_stack_top : Z;
  is_stack_size : Z;
  is_stack_pointer : Z;
  is_bytes : list Z;
  is_argv_addresses : list Z;
  is_envp_addresses : list Z;
  is_executable_path_address : Z;
  is_platform_address : Z;
  is_random_address : Z;
  is_auxv_entries : list AuxiliaryVectorEntry;
}.

Definition stack_base (s : InitialStack) : Z := wsub (is_stack_top s) (is_stack_size s).

Inductive InitialStackError : Type :=
| MissingProgramHeaderAddress
| InvalidStackSize (stack_size : Z)
| StackRangeUnderflow (stack_top stack_size : Z)
| StackLayoutOverflow
| StackDataExceedsStack (needed stack_size : Z)
| RelocatedAddressOverflow (address load_bias : Z)
| InteriorNul (field : string) (index : Z)
| EmptyPlatform.

(** ** Validation *)
Definition validate_no_interior_nul (field : string) (index : Z) (bytes : list Z)
    : outcome unit InitialStackError :=
  if bool_decide (0 ∈ bytes) then Err (InteriorNul field index) else Ok tt.

(** The loop over [entries.iter().enumerate()] from an index. *)
Fixpoint validate_entries_from (index : Z) (field : string) (entries : list (list Z))
    : outcome unit InitialStackError :=
  match entries with
  | [] => Ok tt
  | entry :: entries =>
      let? _ := validate_no_interior_nul field index entry in
      validate_entries_from (index + 1) field entries
  end.

Definition validate_no_interior_nul_entries (field : string) (entries : list (list Z))
    : outcome unit InitialStackError := validate_entries_from 0 field entries.

Definition validate_stack_config (config : InitialStackConfig) : outcome unit InitialStackError :=
  if sc_stack_size config =? 0 then Err (InvalidStackSize (sc_stack_size config)) else
  let? _ := validate_no_interior_nul "executable_path" 0 (sc_executable_path config) in
  let? _ := validate_no_interior_nul_entries "argv" (sc_argv config) in
  let? _ := validate_no_interior_nul_entries "envp" (sc_envp config) in
  if bool_decide (sc_platform config = []) then Err EmptyPlatform else
  validate_no_interior_nul "platform" 0 (sc_platform config).

Definition relocated_address (address load_bias : Z) : outcome Z InitialStackError :=
  ok_or (checked_add64 address load_bias) (RelocatedAddressOverflow address load_bias).

(** ** Placement, from the top of the stack downwards *)
Record PlacedStackBytes : Type := { pb_address : Z; pb_bytes : list Z }.

(** The cursor and the bytes placed so far. *)
Definition Placement : Type := Z * list PlacedStackBytes.

Definition place_c_string (p : Placement) (bytes : list Z)
    : outcome (Z * Placement) InitialStackError :=
  let? len_with_nul := ok_or (checked_add64 (zlen bytes) 1) StackLayoutOverflow in
  let? cursor := ok_or (checked_sub64 p.1 len_with_nul) StackLayoutOverflow in
  Ok (cursor, (cursor, p.2 ++ [{| pb_address := cursor; pb_bytes := bytes ++ [0] |}])).

(** [place_c_strings] walks the strings from the last to the first. *)
Fixpoint place_reversed (p : Placement) (strings : list (list Z)) (addresses : list Z)
    : outcome (list Z * Placement) InitialStackError :=
  match strings with
  | [] => Ok (addresses, p)
  | string :: strings =>
      let? (address, p) := place_c_string p string in
      place_reversed p strings (addresses ++ [address])
  end.

Definition place_c_strings (p : Placement) (strings : list (list Z))
    : outcome (list Z * Placement) InitialStackError :=
  let? (addresses, p) := place_reversed p (rev strings) [] in Ok (rev addresses, p).

Definition push_u64 (bytes : list Z) (value : Z) : list Z := bytes ++ le_bytes 8 value.

Definition build_pointer_area (argv_addresses envp_addresses : list Z)
    (auxv_entries : list AuxiliaryVectorEntry) : outcome (list Z) InitialStackError :=
  let bytes := push_u64 [] (zlen argv_addresses) in
  let bytes := foldl push_u64 bytes argv_addresses in
  let bytes := push_u64 bytes 0 in
  let bytes := foldl push_u64 bytes envp_addresses in
  let bytes := push_u64 bytes 0 in
  let bytes := foldl (λ bytes e, push_u64 (push_u64 bytes (av_key e)) (av_value e)) bytes auxv_entries in
  Ok bytes.

(** Copying the placed bytes to their offsets from the stack pointer. *)
Definition copy_placed (stack_pointer : Z) (bytes : list Z) (item : PlacedStackBytes)
    : outcome (list Z) InitialStackError :=
  let offset := wsub (pb_address item) stack_pointer in
  let? end_ := ok_or (checked_add64 offset (zlen (pb_bytes item))) StackLayoutOverflow in
  copy_into bytes offset end_ (pb_bytes item).

Definition auxiliary_vector (load_plan : LoadPlan) (config : InitialStackConfig)
    (phdr_address entrypoint random_address executable_path_address platform_address : Z)
    : list AuxiliaryVectorEntry :=
  [ aux AT_PHDR phdr_address;
    aux AT_PHENT (pt_entry_size (lp_program_headers load_plan));
    aux AT_PHNUM (pt_entry_count (lp_program_headers load_plan));
    aux AT_PAGESZ PAGE_SIZE;
    aux AT_BASE (sc_interpreter_base config);
    aux AT_FLAGS 0;
    aux AT_ENTRY entrypoint;
    aux AT_UID 0;
    aux AT_EUID 0;
    aux AT_GID 0;
    aux AT_EGID 0;
    aux AT_HWCAP 0;
    aux AT_CLKTCK DEFAULT_CLOCK_TICKS_PER_SECOND;
    aux AT_SECURE 0;
    aux AT_RANDOM random_address;
    aux AT_HWCAP2 0;
    aux AT_EXECFN executable_path_address;
    aux AT_PLATFORM platform_address;
    aux AT_NULL 0 ].

Definition build_initial_stack (load_plan : LoadPlan) (config : InitialStackConfig)
    : outcome InitialStack InitialStackError :=
  let? _ := validate_stack_config config in
  let? phdr := ok_or (pt_virtual_address (lp_program_headers load_plan)) MissingProgramHeaderAddress in
  let? phdr_address := relocated_address phdr (sc_executable_load_bias config) in
  let? entrypoint := relocated_address (lp_entrypoint load_plan) (sc_executable_load_bias config) in
  let? base := ok_or (checked_sub64 (sc_stack_top config) (sc_stack_size config))
                 (StackRangeUnderflow (sc_stack_top config) (sc_stack_size config)) in
  let? (executable_path_address, p) := place_c_string (sc_stack_top config, []) (sc_executable_path config) in
  let? (platform_address, p) := place_c_string p (sc_platform config) in
  let? (envp_addresses, p) := place_c_strings p (sc_envp config) in
  let? (argv_addresses, p) := place_c_strings p (sc_argv config) in
  let? random_address := ok_or (checked_sub64 p.1 AT_RANDOM_BYTES) StackLayoutOverflow in
  let placed := p.2 ++ [{| pb_address := random_address; pb_bytes := sc_random_bytes config |}] in
  let cursor := align_down random_address INITIAL_STACK_ALIGNMENT in
  let auxv_entries := auxiliary_vector load_plan config phdr_address entrypoint random_address
                        executable_path_address platform_address in
  let? pointer_area := build_pointer_area argv_addresses envp_addresses auxv_entries in
  let? below := ok_or (checked_sub64 cursor (zlen pointer_area)) StackLayoutOverflow in
  let stack_pointer := align_down below INITIAL_STACK_ALIGNMENT in
  if stack_pointer <? base
  then Err (StackDataExceedsStack (wsub (sc_stack_top config) stack_pointer) (sc_stack_size config)) else
  let used_len := wsub (sc_stack_top config) stack_pointer in
  let? bytes := copy_into (zero_vec used_len) 0 (zlen pointer_area) pointer_area in
  let? bytes := try_fold (copy_placed stack_pointer) bytes placed in
  Ok {| is_stack_top := sc_stack_top config; is_stack_size := sc_stack_size config;
        is_stack_pointer := stack_pointer; is_bytes := bytes;
        is_argv_addresses := argv_addresses; is_envp_addresses := envp_addresses;
        is_executable_path_address := executable_path_address;
        is_platform_address := platform_address; is_random_address := random_address;
        is_auxv_entries := auxv_entries |}.

(** ** mcr-elf: the memory image of a program

    [build_guest_memory_image_with_interpreter] (image.rs): the areas and the bytes of the
    executable, its interpreter and its stack. *)

Definition DEFAULT_POSITION_INDEPENDENT_EXECUTABLE_BASE : Z := 0x400000.
Definition DEFAULT_INTERPRETER_LOAD_BASE : Z := 0x70000000.

Inductive GuestVmaKind : Type :=
| ElfLoad (program_header_index file_offset file_size : Z)
| InterpreterLoad (path : list Z) (program_header_index file_offset file_size : Z)
| StackArea.

Record GuestVma : Type := {
  iv_start : Z;
  iv_end : Z;
  iv_permissions : SegmentPermissions;
  iv_kind : GuestVmaKind;
}.

Record GuestMemoryRegion : Type := { rg_start : Z; rg_end : Z; rg_bytes : list Z }.

Record LoadedInterpreter : Type := {
  li_path : list Z;
  li_load_bias : Z;
  li_entrypoint : Z;
  li_program_headers : ProgramHeaderTable;
}.

Record GuestMemoryImage : Type := {
  im_entrypoint : Z;
  im_initial_stack_pointer : Z;
  im_initial_stack : InitialStack;
  im_executable_load_bias : Z;
  im_interpreter : option LoadedInterpreter;
  im_brk : Z;
  im_vmas : list GuestVma;
  im_regions : list GuestMemoryRegion;
}.

Inductive GuestImageError : Type :=
| StackError (e : InitialStackError)
| InterpreterError (e : ElfValidationError)
| MissingInterpreterBytes
| UnsupportedInterpreter (path : list Z)
| ImageSegmentFileRangeOverflow (index file_offset file_size : Z)
| ImageSegmentFileRangeOutOfBounds (index file_offset file_size file_len : Z)
| AddressRangeOverflow (start size : Z)
| ImageRegionTooLarge (start size : Z)
| InvalidVmaRange (start end_ : Z)
| VmaOverlap (existing requested : GuestVma).

(** [GuestMemoryRegion::new]; a length always fits in 64 bits. *)
Definition region_new (start : Z) (bytes : list Z) : outcome GuestMemoryRegion GuestImageError :=
  let? end_ := ok_or (checked_add64 start (zlen bytes)) (AddressRangeOverflow start (zlen bytes)) in
  Ok {| rg_start := start; rg_end := end_; rg_bytes := bytes |}.

(** [GuestMemoryImage::read]; the [None] of the code is [Err tt]. *)
Definition image_read (image : GuestMemoryImage) (address len : Z) : outcome (list Z) unit :=
  let? end_ := ok_or (checked_add64 address len) tt in
  let? region := ok_or (List.find (λ r, (rg_start r <=? address) && (end_ <=? rg_end r))
                          (im_regions image)) tt in
  let offset := address - rg_start region in
  let? to := ok_or (checked_add64 offset len) tt in
  expect (slice (rg_bytes region) offset to).

Definition executable_load_bias (load_plan : LoadPlan) : Z :=
  match lp_object_type load_plan with
  | Executable => 0
  | SharedObject =>
      match lp_interpreter load_plan with
      | Some _ => DEFAULT_POSITION_INDEPENDENT_EXECUTABLE_BASE
      | None => 0
      end
  end.

Definition relocated_image_address (address load_bias : Z) : outcome Z GuestImageError :=
  ok_or (checked_add64 address load_bias) (AddressRangeOverflow address load_bias).

Definition read_segment_mapping_bytes (elf_bytes : list Z) (index file_offset file_size : Z)
    : outcome (list Z) GuestImageError :=
  let? file_end := ok_or (checked_add64 file_offset file_size)
                     (ImageSegmentFileRangeOverflow index file_offset file_size) in
  if zlen elf_bytes <? file_end
  then Err (ImageSegmentFileRangeOutOfBounds index file_offset file_size (zlen elf_bytes))
  else expect (slice elf_bytes file_offset file_end).

Definition register_vma (vmas : list GuestVma) (vma : GuestVma)
    : outcome (list GuestVma) GuestImageError :=
  if iv_end vma <=? iv_start vma then Err (InvalidVmaRange (iv_start vma) (iv_end vma)) else
  match List.find (λ existing, (iv_start existing <? iv_end vma) && (iv_start vma <? iv_end existing)) vmas with
  | Some existing => Err (VmaOverlap existing vma)
  | None => Ok (sort_by_key iv_start (vmas ++ [vma]))
  end.

(** Areas and regions so far. *)
Definition Layout : Type := list GuestVma * list GuestMemoryRegion.

(** The body of the two loops over the segments: place one segment at its load bias. *)
Definition place_segment (elf_bytes : list Z) (load_bias : Z)
    (kind : LoadSegment → GuestVmaKind) (l : Layout) (segment : LoadSegment)
    : outcome Layout GuestImageError :=
  let mapping := ls_mapping segment in
  let? mapping_start := relocated_image_address (mm_start mapping) load_bias in
  let? mapping_end := relocated_image_address (mm_end mapping) load_bias in
  let? mapped_bytes := read_segment_mapping_bytes elf_bytes (ls_program_header_index segment)
                         (mm_file_offset mapping) (mm_file_size mapping) in
  let? region_bytes := copy_into (zero_vec (mapping_memory_size mapping)) 0 (zlen mapped_bytes)
                         mapped_bytes in
  let? vmas := register_vma l.1 {| iv_start := mapping_start; iv_end := mapping_end;
                                   iv_permissions := mm_permissions mapping;
                                   iv_kind := kind segment |} in
  let? region := region_new mapping_start region_bytes in
  Ok (vmas, l.2 ++ [region]).

Definition elf_load_kind (segment : LoadSegment) : GuestVmaKind :=
  ElfLoad (ls_program_header_index segment) (mm_file_offset (ls_mapping segment))
    (mm_file_size (ls_mapping segment)).

Definition interpreter_load_kind (path : list Z) (segment : LoadSegment) : GuestVmaKind :=
  InterpreterLoad path (ls_program_header_index segment) (mm_file_offset (ls_mapping segment))
    (mm_file_size (ls_mapping segment)).

Definition load_interpreter_image (interpreter : list Z) (interpreter_plan : LoadPlan)
    (interpreter_bytes : list Z) (load_bias : Z) (l : Layout)
    : outcome (LoadedInterpreter * Layout) GuestImageError :=
  match lp_interpreter interpreter_plan with
  | Some _ => Err (UnsupportedInterpreter interpreter)
  | None =>
      let? l := try_fold (place_segment interpreter_bytes load_bias (interpreter_load_kind interpreter))
                  l (lp_segments interpreter_plan) in
      let? entrypoint := relocated_image_address (lp_entrypoint interpreter_plan) load_bias in
      let table := lp_program_headers interpreter_plan in
      let? virtual_address :=
        match pt_virtual_address table with
        | None => Ok None
        | Some address => let? a := relocated_image_address address load_bias in Ok (Some a)
        end in
      Ok ({| li_path := interpreter; li_load_bias := load_bias; li_entrypoint := entrypoint;
             li_program_headers :=
               {| pt_file_offset := pt_file_offset table; pt_entry_size := pt_entry_size table;
                  pt_entry_count := pt_entry_count table; pt_virtual_address := virtual_address |} |},
          l)
  end.

(** The stack as an area and a region. *)
Definition place_stack (initial_stack : InitialStack) (l : Layout) : outcome Layout GuestImageError :=
  let base := stack_base initial_stack in
  let stack_offset := wsub (is_stack_pointer initial_stack) base in
  let? stack_end := ok_or (checked_add64 stack_offset (zlen (is_bytes initial_stack)))
      (AddressRangeOverflow (is_stack_pointer initial_stack) (zlen (is_bytes initial_stack))) in
  let? stack_region := copy_into (zero_vec (is_stack_size initial_stack)) stack_offset stack_end
                         (is_bytes initial_stack) in
  let? vmas := register_vma l.1
      {| iv_start := base; iv_end := is_stack_top initial_stack;
         iv_permissions := {| sp_read := true; sp_write := true; sp_execute := false |};
         iv_kind := StackArea |} in
  let? region := region_new base stack_region in
  Ok (vmas, l.2 ++ [region]).

Definition build_guest_memory_image_with_interpreter (load_plan : LoadPlan) (elf_bytes : list Z)
    (interpreter_bytes : option (list Z)) (stack_config : InitialStackConfig)
    : outcome GuestMemoryImage GuestImageError :=
  let bias := executable_load_bias load_plan in
  let? (interpreter, l) :=
    match lp_interpreter load_plan with
    | None => Ok (None, ([], []))
    | Some path =>
        let? interpreter_bytes := ok_or interpreter_bytes MissingInterpreterBytes in
        let? interpreter_plan := map_err InterpreterError (parse_load_plan interpreter_bytes) in
        let? (loaded, l) := load_interpreter_image path interpreter_plan interpreter_bytes
                              DEFAULT_INTERPRETER_LOAD_BASE ([], []) in
        Ok (Some loaded, l)
    end in
  let? l := try_fold (place_segment elf_bytes bias elf_load_kind) l (lp_segments load_plan) in
  let config := with_interpreter_base (from_option li_load_bias 0 interpreter)
                  (with_executable_load_bias bias stack_config) in
  let? initial_stack := map_err StackError (build_initial_stack load_plan config) in
  let? l := place_stack initial_stack l in
  let? own_entrypoint := relocated_image_address (lp_entrypoint load_plan) bias in
  let? ends := collect (λ segment, relocated_image_address (mm_end (ls_mapping segment)) bias)
                 (lp_segments load_plan) in
  Ok {| im_entrypoint := from_option li_entrypoint own_entrypoint interpreter;
        im_initial_stack_pointer := is_stack_pointer initial_stack;
        im_initial_stack := initial_stack; im_executable_load_bias := bias;
        im_interpreter := interpreter; im_brk := foldr Z.max 0 ends;
        im_vmas := l.1; im_regions := sort_by_key rg_start l.2 |}.

Definition build_guest_memory_image (load_plan : LoadPlan) (elf_bytes : list Z)
    (stack_config : InitialStackConfig) : outcome GuestMemoryImage GuestImageError :=
  build_guest_memory_image_with_interpreter load_plan elf_bytes None stack_config.
