(* ===== verification/ElfPlan.v ===== *)
(** * mcr-elf: what a load plan promises

    [parse_load_plan] never panics, and the segments of a plan satisfy what the image
    builder relies on. *)

From S2P Require Import Prelude Bytes ElfParser.
From stdpp Require Import base list sorting.
From Stdlib Require Import ZArith Lia Sorting.Sorted.
Open Scope Z_scope.

(** ** Reads *)
Lemma safe_read_le {E} n bytes offset :
  Forall is_byte bytes → 0 ≤ n → 0 ≤ offset → offset + n ≤ zlen bytes →
  safe (E:=E) (λ v, 0 ≤ v < 256 ^ n) (read_le n bytes offset).
Proof.
  intros Hb Hn Ho Hlen. destruct (read_le_Ok (E:=E) n bytes offset) as [v Hv]; [done|done|done|].
  rewrite Hv. by eapply read_le_bound.
Qed.

Lemma safe_read_u16 {E} bytes offset :
  Forall is_byte bytes → 0 ≤ offset → offset + 2 ≤ zlen bytes → safe (E:=E) (λ v, 0 ≤ v < 2 ^ 16) (read_u16 bytes offset).
Proof. intros. by apply safe_read_le. Qed.

Lemma safe_read_u32 {E} bytes offset :
  Forall is_byte bytes → 0 ≤ offset → offset + 4 ≤ zlen bytes → safe (E:=E) is_u32 (read_u32 bytes offset).
Proof. intros. by apply safe_read_le. Qed.

Lemma safe_read_u64 {E} bytes offset :
  Forall is_byte bytes → 0 ≤ offset → offset + 8 ≤ zlen bytes → safe (E:=E) is_u64 (read_u64 bytes offset).
Proof. intros. by apply safe_read_le. Qed.

Lemma safe_file_range (offset size file_len : Z) :
  0 ≤ offset → 0 ≤ size →
  safe (λ r, r.1 = offset ∧ r.2 = offset + size ∧ r.2 ≤ file_len) (checked_file_range offset size file_len).
Proof.
  intros Ho Hs. unfold checked_file_range. destruct (checked_add64 offset size) as [e|] eqn:He; simpl; [|done].
  apply checked_add64_Some in He as [-> _]. destruct (Z.ltb_spec file_len (offset + size)); simpl; auto.
Qed.

(** One step of a chain of reads and checks. *)
Ltac safe_step P := eapply (safe_bind P); [|intros ? ? ?].

(** ** The words of the file *)

(** The word of [n] bytes at an offset of the file, low byte first. *)
Definition word_at (bytes : list Z) (offset n : Z) : option Z := le_value <$> slice bytes offset (offset + n).

Lemma read_le_word {E} n bytes offset v : read_le (E:=E) n bytes offset = Ok v → word_at bytes offset n = Some v.
Proof. unfold read_le, word_at. destruct (slice _ _ _); simpl; [|done]. by intros [= <-]. Qed.

Lemma slice_slice l a b bs c d :
  slice l a b = Some bs → 0 ≤ c ≤ d → d ≤ b - a → slice bs c d = slice l (a + c) (a + d).
Proof.
  intros Hs Hc Hd. pose proof (slice_length _ _ _ _ Hs) as Hlen.
  assert (Hr : 0 ≤ a ∧ a ≤ b ∧ b ≤ zlen l) by (unfold slice in Hs; unfold zlen; case_match; [|done]; bprop; auto).
  destruct (slice_Some bs c d) as [x Hx]; [lia|lia|]. destruct (slice_Some l (a + c) (a + d)) as [y Hy]; [lia|lia|].
  rewrite Hx, Hy. f_equal. apply list_eq. intros i.
  pose proof (slice_length _ _ _ _ Hx) as Lx. pose proof (slice_length _ _ _ _ Hy) as Ly. unfold zlen in *.
  destruct (Nat.lt_ge_cases i (length x)) as [Hi|Hi]; [|by rewrite !lookup_ge_None_2 by lia].
  pose proof (slice_byte _ _ _ _ (Z.of_nat i) Hx ltac:(lia)) as Bx.
  pose proof (slice_byte _ _ _ _ (Z.of_nat i) Hy ltac:(lia)) as By.
  rewrite (slice_byte _ _ _ _ (c + Z.of_nat i) Hs ltac:(lia)) in Bx.
  replace (a + (c + Z.of_nat i)) with (a + c + Z.of_nat i) in Bx by lia. rewrite <- By in Bx.
  unfold byte_at in Bx. repeat case_match; bprop; try lia. by rewrite !Nat2Z.id in Bx.
Qed.

Lemma word_in_slice l a b bs offset n v :
  slice l a b = Some bs → 0 ≤ offset → 0 ≤ n → offset + n ≤ b - a →
  word_at bs offset n = Some v → word_at l (a + offset) n = Some v.
Proof.
  intros Hs Ho Hn Hle. unfold word_at. rewrite (slice_slice _ _ _ _ _ _ Hs) by lia. by rewrite Z.add_assoc.
Qed.

Lemma collect_pointwise {A B E} (f : A → outcome B E) l r : collect f l = Ok r → Forall2 (λ x y, f x = Ok y) l r.
Proof.
  revert r. induction l as [|x l IH]; simpl; intros r; [intros [= <-]; constructor|].
  destruct (f x) as [y| |] eqn:Hx; simpl; [|done..]. destruct (collect f l) as [ys| |]; simpl; [|done..].
  intros [= <-]. constructor; [done|]. by apply IH.
Qed.

(** ** What the headers of the file say *)

(** The file header: the machine and the version are checked, the rest is kept. *)
Record header_at (bytes : list Z) (h : ElfHeader) : Prop := {
  ha_object_type : word_at bytes 16 2 = Some (eh_object_type h);
  ha_machine : word_at bytes 18 2 = Some EM_X86_64;
  ha_version : word_at bytes 20 4 = Some EV_CURRENT_U32;
  ha_entrypoint : word_at bytes 24 8 = Some (eh_entrypoint h);
  ha_offset : word_at bytes 32 8 = Some (eh_program_header_offset h);
  ha_size : word_at bytes 52 2 = Some (eh_header_size h);
  ha_entry_size : word_at bytes 54 2 = Some (eh_program_header_entry_size h);
  ha_count : word_at bytes 56 2 = Some (eh_program_header_count h);
}.

(** The program header whose 56 bytes start at [base]. *)
Record program_header_at (bytes : list Z) (base index : Z) (h : RawProgramHeader) : Prop := {
  pa_index : ph_index h = index;
  pa_type : word_at bytes base 4 = Some (ph_header_type h);
  pa_flags : word_at bytes (base + 4) 4 = Some (ph_flags h);
  pa_offset : word_at bytes (base + 8) 8 = Some (ph_file_offset h);
  pa_address : word_at bytes (base + 16) 8 = Some (ph_virtual_address h);
  pa_file_size : word_at bytes (base + 32) 8 = Some (ph_file_size h);
  pa_memory_size : word_at bytes (base + 40) 8 = Some (ph_memory_size h);
  pa_alignment : word_at bytes (base + 48) 8 = Some (ph_alignment h);
}.

(** Takes the [?]s of a parser apart, keeping the words that were read. *)
Ltac words_read :=
  repeat match goal with
    | H : obind ?o _ = Ok _ |- _ =>
        let v := fresh "v" in let Hv := fresh "Hv" in
        destruct o as [v| |] eqn:Hv; simpl in H; [|discriminate H..]; apply read_le_word in Hv
    end.

Lemma parse_elf_header_at bytes h : parse_elf_header bytes = Ok h → header_at bytes h.
Proof.
  unfold parse_elf_header. intros H. words_read.
  destruct (Z.eqb_spec v1 EV_CURRENT_U32) as [->|]; [|discriminate H].
  destruct (Z.eqb_spec v0 EM_X86_64) as [->|]; [|discriminate H]. injection H as <-. by split.
Qed.

Lemma parse_program_header_at index bytes base h :
  0 ≤ base → parse_program_header index bytes base = Ok h → program_header_at bytes base index h.
Proof.
  intros Hb. unfold parse_program_header, checked_file_range.
  destruct (checked_add64 base ELF64_PROGRAM_HEADER_SIZE) as [e|] eqn:He; simpl; [|done].
  apply checked_add64_Some in He as [-> _]. destruct (_ <? _); simpl; [done|].
  destruct (slice bytes base _) as [bs|] eqn:Hs; simpl; [|done]. intros H. words_read. injection H as <-.
  unfold ELF64_PROGRAM_HEADER_SIZE in Hs.
  split; simpl; first [done|rewrite <- (Z.add_0_r base); by apply (word_in_slice _ _ _ _ _ _ _ Hs); [lia..|]|idtac].
  all: by apply (word_in_slice _ _ _ _ _ _ _ Hs); [lia..|].
Qed.

(** The table: [count] headers of 56 bytes each, from the offset the file header gives. *)
Record table_at (bytes : list Z) (offset count : Z) (headers : list RawProgramHeader) : Prop := {
  ta_in_file : offset + 56 * count ≤ zlen bytes;
  ta_count : zlen headers = count;
  ta_header : ∀ i h, headers !! i = Some h → program_header_at bytes (offset + 56 * Z.of_nat i) (Z.of_nat i) h;
}.


(** ** Headers *)
Lemma safe_validate_ident bytes : safe (λ _, 64 ≤ zlen bytes) (validate_ident bytes).
Proof.
  unfold validate_ident, ELF64_HEADER_SIZE. destruct (Z.ltb_spec (zlen bytes) 64) as [|Hl]; simpl; [done|].
  destruct (slice_Some bytes 0 4) as [m ->]; [lia|lia|]. simpl. destruct (negb _); simpl; [done|].
  destruct (byte_at_Some bytes EI_CLASS) as [c ->]; [unfold EI_CLASS; lia|]. simpl. destruct (negb _); simpl; [done|].
  destruct (byte_at_Some bytes EI_DATA) as [d ->]; [unfold EI_DATA; lia|]. simpl. destruct (negb _); simpl; [done|].
  destruct (byte_at_Some bytes EI_VERSION) as [v ->]; [unfold EI_VERSION; lia|]. simpl. by destruct (negb _).
Qed.

Record header_ok (h : ElfHeader) : Prop := {
  ho_entrypoint : is_u64 (eh_entrypoint h);
  ho_offset : is_u64 (eh_program_header_offset h);
  ho_entry_size : 0 ≤ eh_program_header_entry_size h < 2 ^ 16;
  ho_count : 0 ≤ eh_program_header_count h < 2 ^ 16;
}.

Lemma safe_parse_elf_header bytes :
  Forall is_byte bytes → 64 ≤ zlen bytes → safe header_ok (parse_elf_header bytes).
Proof.
  intros Hb Hl. unfold parse_elf_header.
  eapply safe_bind; [apply safe_read_u16; [done|lia|lia]|intros ? _ _].
  eapply safe_bind; [apply safe_read_u16; [done|lia|lia]|intros ? _ _].
  eapply safe_bind; [apply safe_read_u32; [done|lia|lia]|intros ? _ _].
  eapply safe_bind; [apply safe_read_u64; [done|lia|lia]|intros ? _ He].
  eapply safe_bind; [apply safe_read_u64; [done|lia|lia]|intros ? _ Ho].
  eapply safe_bind; [apply safe_read_u16; [done|lia|lia]|intros ? _ _].
  eapply safe_bind; [apply safe_read_u16; [done|lia|lia]|intros ? _ Hs].
  eapply safe_bind; [apply safe_read_u16; [done|lia|lia]|intros ? _ Hc].
  destruct (negb _); [done|]. destruct (negb _); [done|]. by split.
Qed.

Record raw_ok (h : RawProgramHeader) : Prop := {
  ro_offset : is_u64 (ph_file_offset h);
  ro_address : is_u64 (ph_virtual_address h);
  ro_file_size : is_u64 (ph_file_size h);
  ro_memory_size : is_u64 (ph_memory_size h);
  ro_alignment : is_u64 (ph_alignment h);
}.

Lemma safe_parse_program_header index bytes offset :
  Forall is_byte bytes → 0 ≤ offset → safe raw_ok (parse_program_header index bytes offset).
Proof.
  intros Hb Ho. unfold parse_program_header.
  eapply safe_bind; [apply safe_map_err, safe_file_range; [done|by vm_compute]|].
  intros [from to] _ (Hf & Ht & Hle). simpl in *. subst from to. unfold ELF64_PROGRAM_HEADER_SIZE in *.
  destruct (slice_Some bytes offset (offset + 56)) as [bs Hbs]; [lia|lia|]. rewrite Hbs. simpl.
  pose proof (slice_length _ _ _ _ Hbs) as Hlen. pose proof (slice_bytes _ _ _ _ Hb Hbs) as Hbb.
  eapply safe_bind; [apply safe_read_u32; [done|lia|lia]|intros ? _ _].
  eapply safe_bind; [apply safe_read_u32; [done|lia|lia]|intros ? _ _].
  eapply safe_bind; [apply safe_read_u64; [done|lia|lia]|intros ? _ H1].
  eapply safe_bind; [apply safe_read_u64; [done|lia|lia]|intros ? _ H2].
  eapply safe_bind; [apply safe_read_u64; [done|lia|lia]|intros ? _ H3].
  eapply safe_bind; [apply safe_read_u64; [done|lia|lia]|intros ? _ H4].
  eapply safe_bind; [apply safe_read_u64; [done|lia|lia]|intros ? _ H5]. by split.
Qed.

Lemma validate_table_spec header file_size :
  header_ok header → validate_program_header_table header file_size = Ok tt →
  eh_program_header_entry_size header = 56 ∧ eh_program_header_count header ≠ 0 ∧
  eh_program_header_offset header + 56 * eh_program_header_count header ≤ file_size ∧
  eh_program_header_offset header + 56 * eh_program_header_count header < 2 ^ 64.
Proof.
  intros _. unfold validate_program_header_table, ELF64_PROGRAM_HEADER_SIZE.
  destruct (negb (eh_header_size header =? _)); [done|].
  destruct (Z.eqb_spec (eh_program_header_count header) 0); [done|].
  destruct (Z.eqb_spec (eh_program_header_entry_size header) 56) as [->|]; simpl; [|done].
  destruct (_ <=? U64_MAX); simpl; [|done].
  destruct (checked_add64 _ _) as [e|] eqn:He; simpl; [|done]. apply checked_add64_Some in He as [-> He].
  destruct (Z.ltb_spec file_size (eh_program_header_offset header + 56 * eh_program_header_count header)); [done|].
  intros _. lia.
Qed.

(** Every entry of the table is read, from where it is. *)
Lemma parse_program_headers_at bytes header headers :
  header_ok header → validate_program_header_table header (zlen bytes) = Ok tt →
  parse_program_headers bytes header = Ok headers →
  table_at bytes (eh_program_header_offset header) (eh_program_header_count header) headers.
Proof.
  intros Hok Hval Hp. destruct (validate_table_spec _ _ Hok Hval) as (He & _ & Hin & Hlt).
  destruct Hok as [_ Ho _ Hc]. unfold is_u64 in Ho. unfold parse_program_headers in Hp. rewrite He in Hp.
  apply collect_pointwise in Hp. split; [done|..].
  - apply Forall2_length in Hp. unfold zlen. rewrite <- Hp, length_seqZ. lia.
  - intros i h Hi. destruct (Forall2_lookup_r _ _ _ _ _ Hp Hi) as (x & Hx & Hh).
    apply lookup_seqZ in Hx as [-> Hx]. rewrite Z.add_0_l in Hh.
    unfold wrap64 in Hh. rewrite Z.mod_small in Hh by lia. rewrite wadd_exact in Hh by lia.
    replace (56 * Z.of_nat i) with (Z.of_nat i * 56) by lia. apply parse_program_header_at; [lia|done].
Qed.

Lemma safe_parse_program_headers bytes header :
  Forall is_byte bytes → header_ok header → safe (Forall raw_ok) (parse_program_headers bytes header).
Proof.
  intros Hb Hh. unfold parse_program_headers. apply safe_collect. intros index _.
  apply safe_parse_program_header; [done|]. unfold wadd. apply wrap64_bound.
Qed.

Lemma safe_validate_table header file_size : safe (λ _, True) (validate_program_header_table header file_size).
Proof.
  unfold validate_program_header_table. repeat first [destruct (negb _); [done|]|destruct (_ =? 0); [done|]].
  destruct (_ <=? U64_MAX); simpl; [|done]. destruct (checked_add64 _ _); simpl; [|done]. by destruct (_ <? _).
Qed.

(** ** Segments *)

(** The pages of a segment, and the part of the file they hold. *)
Record mapping_ok (s : LoadSegment) : Prop := {
  mo_start : mm_start (ls_mapping s) = ls_virtual_address s - ls_virtual_address s mod PAGE_SIZE;
  mo_end_page : mm_end (ls_mapping s) mod PAGE_SIZE = 0;
  mo_end : ls_virtual_address s + ls_memory_size s ≤ mm_end (ls_mapping s)
           < ls_virtual_address s + ls_memory_size s + PAGE_SIZE;
  mo_end_u64 : mm_end (ls_mapping s) < 2 ^ 64;
  mo_file_offset : mm_file_offset (ls_mapping s) = ls_file_offset s - ls_virtual_address s mod PAGE_SIZE;
  mo_file_offset_nonneg : 0 ≤ mm_file_offset (ls_mapping s);
  mo_file_size : mm_file_size (ls_mapping s) = ls_file_size s + ls_virtual_address s mod PAGE_SIZE;
  mo_permissions : mm_permissions (ls_mapping s) = ls_permissions s;
}.

Record segment_ok (file_len : Z) (s : LoadSegment) : Prop := {
  so_address : is_u64 (ls_virtual_address s);
  so_sizes : 0 ≤ ls_file_size s ≤ ls_memory_size s;
  so_file : 0 ≤ ls_file_offset s ∧ ls_file_offset s + ls_file_size s ≤ file_len;
  so_range : ls_virtual_address s + ls_memory_size s < 2 ^ 64;
  so_alignment : ls_alignment s ≤ 1 ∨
    (∃ n, 0 ≤ n ∧ ls_alignment s = 2 ^ n) ∧ ls_file_offset s mod ls_alignment s = ls_virtual_address s mod ls_alignment s;
  so_mapping : mapping_ok s;
}.

Lemma safe_alignment h :
  raw_ok h →
  safe (λ _, ph_alignment h ≤ 1 ∨ (∃ n, 0 ≤ n ∧ ph_alignment h = 2 ^ n) ∧
    ph_file_offset h mod ph_alignment h = ph_virtual_address h mod ph_alignment h) (validate_segment_alignment h).
Proof.
  intros _. unfold validate_segment_alignment. destruct (Z.ltb_spec 1 (ph_alignment h)) as [Hgt|]; simpl; [|by left].
  destruct (is_power_of_two (ph_alignment h)) eqn:Hp; simpl; [|done].
  destruct (Z.eqb_spec (ph_file_offset h mod ph_alignment h) (ph_virtual_address h mod ph_alignment h)) as [He|];
    simpl; [|done].
  right. split; [|done]. apply andb_true_iff in Hp as [_ Hp%Z.eqb_eq]. exists (Z.log2 (ph_alignment h)).
  split; [apply Z.log2_nonneg|done].
Qed.

Lemma align_down_mod value alignment : 0 < alignment → align_down value alignment = value - value mod alignment.
Proof. intros. unfold align_down. rewrite Z.mod_eq by lia. lia. Qed.

Lemma align_up_Some value alignment r :
  0 < alignment → 0 ≤ value < 2 ^ 64 → align_up value alignment = Some r →
  r mod alignment = 0 ∧ value ≤ r < value + alignment ∧ r < 2 ^ 64.
Proof.
  intros Ha Hv. unfold align_up. pose proof (Z.mod_pos_bound value alignment Ha).
  destruct (Z.eqb_spec (value mod alignment) 0) as [Hz|Hz].
  - intros [= <-]. split; [done|]. lia.
  - intros [-> Hr]%checked_add64_Some. split; [|lia].
    replace (value + (alignment - value mod alignment)) with ((value / alignment + 1) * alignment).
    + apply Z_mod_mult.
    + rewrite Z.mod_eq by lia. lia.
Qed.

Lemma safe_load_segment h file_len :
  raw_ok h → safe (segment_ok file_len) (load_segment_from_header h file_len).
Proof.
  intros Hr. unfold load_segment_from_header.
  pose proof (ro_offset _ Hr). pose proof (ro_address _ Hr). pose proof (ro_file_size _ Hr).
  pose proof (ro_memory_size _ Hr). unfold is_u64 in *.
  destruct (Z.ltb_spec (ph_memory_size h) (ph_file_size h)); [done|].
  destruct (checked_add64 (ph_file_offset h) (ph_file_size h)) as [fe|] eqn:Hfe; simpl; [|done].
  apply checked_add64_Some in Hfe as [-> _]. destruct (Z.ltb_spec file_len (ph_file_offset h + ph_file_size h)); [done|].
  destruct (checked_add64 (ph_virtual_address h) (ph_memory_size h)) as [ve|] eqn:Hve; simpl; [|done].
  apply checked_add64_Some in Hve as [-> Hve]. eapply safe_bind; [by apply safe_alignment|intros ? _ Hal].
  destruct (permissions_try_from (ph_flags h)) as [perms|e|] eqn:Hperm; simpl; [|done|].
  2: { unfold permissions_try_from in Hperm. by destruct (negb _). }
  unfold build_memory_mapping. rewrite (proj2 (checked_add64_Some _ _ _) (conj eq_refl Hve)). simpl.
  destruct (align_up _ PAGE_SIZE) as [e|] eqn:Hup; simpl; [|done].
  apply align_up_Some in Hup as (Hmod & Hge & Hlt); [|done|lia].
  pose proof (Z.mod_pos_bound (ph_virtual_address h) PAGE_SIZE eq_refl) as Hpo.
  rewrite align_down_mod by done.
  assert (Hmle : ph_virtual_address h mod PAGE_SIZE ≤ ph_virtual_address h) by (apply Z.mod_le; [lia|done]).
  rewrite wsub_exact by lia.
  replace (ph_virtual_address h - (ph_virtual_address h - ph_virtual_address h mod PAGE_SIZE))
    with (ph_virtual_address h mod PAGE_SIZE) by lia.
  destruct (checked_sub64 _ _) as [fo|] eqn:Hfo; simpl; [|done]. apply checked_sub64_Some in Hfo as [-> Hfo].
  destruct (checked_add64 (ph_file_size h) _) as [fs|] eqn:Hfs; simpl; [|done]. apply checked_add64_Some in Hfs as [-> Hfs].
  split; simpl; unfold is_u64; try done; try lia. split; simpl; try done; lia.
Qed.

(** A segment says what its program header says. *)
Record segment_of (h : RawProgramHeader) (s : LoadSegment) : Prop := {
  sg_index : ls_program_header_index s = ph_index h;
  sg_offset : ls_file_offset s = ph_file_offset h;
  sg_address : ls_virtual_address s = ph_virtual_address h;
  sg_file_size : ls_file_size s = ph_file_size h;
  sg_memory_size : ls_memory_size s = ph_memory_size h;
  sg_alignment : ls_alignment s = ph_alignment h;
  sg_read : sp_read (ls_permissions s) = Z.testbit (ph_flags h) 2;
  sg_write : sp_write (ls_permissions s) = Z.testbit (ph_flags h) 1;
  sg_execute : sp_execute (ls_permissions s) = Z.testbit (ph_flags h) 0;
}.

Lemma has_bit x i : 0 ≤ i → has_bits x (2 ^ i) = Z.testbit x i.
Proof.
  intros Hi. unfold has_bits.
  assert (Hb : Z.land x (2 ^ i) = if Z.testbit x i then 2 ^ i else 0).
  { apply Z.bits_inj'. intros n Hn. rewrite Z.land_spec, Z.pow2_bits_eqb by done.
    destruct (Z.eqb_spec i n) as [<-|Hne].
    - destruct (Z.testbit x i); [by rewrite Z.pow2_bits_true by done|by rewrite Z.bits_0].
    - rewrite andb_false_r. destruct (Z.testbit x i); [by rewrite Z.pow2_bits_false by done|by rewrite Z.bits_0]. }
  rewrite Hb. destruct (Z.testbit x i); [|done]. pose proof (Z.pow_pos_nonneg 2 i ltac:(lia) Hi).
  by destruct (Z.eqb_spec (2 ^ i) 0); [lia|].
Qed.

Lemma load_segment_of h file_len s : load_segment_from_header h file_len = Ok s → segment_of h s.
Proof.
  unfold load_segment_from_header. destruct (_ <? _); [done|]. destruct (checked_add64 _ _); simpl; [|done].
  destruct (_ <? _); [done|]. destruct (checked_add64 _ _); simpl; [|done].
  destruct (validate_segment_alignment h); simpl; [|done..].
  unfold permissions_try_from. destruct (negb _); simpl; [done|].
  destruct (build_memory_mapping _ _); simpl; [|done..]. intros [= <-].
  split; simpl; try done; [apply (has_bit _ 2)|apply (has_bit _ 1)|apply (has_bit _ 0)]; lia.
Qed.

(** ** The interpreter *)
Lemma safe_parse_interpreter h bytes :
  raw_ok h →
  safe (λ i, slice bytes (ph_file_offset h) (ph_file_offset h + ph_file_size h) = Some (pi_interpreter i ++ [0]) ∧
             pi_interpreter i ≠ []) (parse_interpreter h bytes).
Proof.
  intros [R1 _ R3 _ _]. unfold is_u64 in *. unfold parse_interpreter.
  eapply safe_bind; [apply safe_map_err, safe_file_range; [lia|lia]|].
  intros [from to] _ (Hf & Ht & Hle). simpl in *. subst from to.
  destruct (slice_Some bytes (ph_file_offset h) (ph_file_offset h + ph_file_size h)) as [bs Hbs]; [lia|lia|].
  rewrite Hbs. simpl. case_bool_decide as Hlast; simpl; [|done].
  apply last_Some in Hlast as [path ->].
  assert (Hz : zlen (path ++ [0]) = zlen path + 1) by (unfold zlen; rewrite length_app; simpl; lia).
  destruct (slice_Some (path ++ [0]) 0 (zlen (path ++ [0]) - 1)) as [bs2 Hbs2]; [unfold zlen in *; lia|lia|].
  rewrite Hbs2. simpl.
  assert (bs2 = path) as ->.
  { unfold slice in Hbs2. case_match; [|done]. injection Hbs2 as <-. rewrite Hz, drop_0.
    rewrite take_app_le by (unfold zlen; lia). apply take_ge. unfold zlen; lia. }
  destruct (Z.eqb_spec (zlen path) 0) as [|Hne]; simpl; [done|]. split; [done|]. intros ->. by apply Hne.
Qed.

(** ** The plan *)

(** The headers of a type, in order. *)
Definition headers_of (type : Z) (headers : list RawProgramHeader) : list RawProgramHeader :=
  filter (λ h, ph_header_type h = type) headers.

(** The interpreter a file asks for is the NUL-terminated path of its only PT_INTERP header. *)
Definition interpreter_named (bytes : list Z) (headers : list RawProgramHeader) (path : option (list Z)) : Prop :=
  match path with
  | Some path => ∃ h, headers_of PT_INTERP headers = [h] ∧ path ≠ [] ∧
      slice bytes (ph_file_offset h) (ph_file_offset h + ph_file_size h) = Some (path ++ [0])
  | None => headers_of PT_INTERP headers = []
  end.

Record state_ok (bytes : list Z) (headers : list RawProgramHeader) (st : ParseState) : Prop := {
  st_segments : Forall2 (λ h s, load_segment_from_header h (zlen bytes) = Ok s) (headers_of PT_LOAD headers) (ps_segments st);
  st_address : ps_program_header_virtual_address st = ph_virtual_address <$> last (headers_of PT_PHDR headers);
  st_interpreter : interpreter_named bytes headers (pi_interpreter <$> ps_interpreter st);
}.

Lemma headers_of_snoc type headers h :
  headers_of type (headers ++ [h]) = headers_of type headers ++ (if decide (ph_header_type h = type) then [h] else []).
Proof. unfold headers_of. rewrite filter_app, filter_cons. by case_decide. Qed.

Lemma headers_of_skip type headers h : ph_header_type h ≠ type → headers_of type (headers ++ [h]) = headers_of type headers.
Proof. intros Hne. rewrite headers_of_snoc, decide_False by done. apply app_nil_r. Qed.

Lemma headers_of_same type headers h : ph_header_type h = type → headers_of type (headers ++ [h]) = headers_of type headers ++ [h].
Proof. intros He. by rewrite headers_of_snoc, decide_True. Qed.

Lemma interpreter_skip bytes headers h path :
  ph_header_type h ≠ PT_INTERP → interpreter_named bytes headers path → interpreter_named bytes (headers ++ [h]) path.
Proof. intros Hne. destruct path; simpl; by rewrite headers_of_skip. Qed.

Lemma safe_parse_header_step bytes headers st h :
  raw_ok h → state_ok bytes headers st → safe (state_ok bytes (headers ++ [h])) (parse_header_step bytes st h).
Proof.
  intros Hr [S1 S2 S3]. unfold parse_header_step.
  destruct (Z.eqb_spec (ph_header_type h) PT_LOAD) as [Hl|Hl].
  { eapply (safe_bind (λ s, load_segment_from_header h (zlen bytes) = Ok s)).
    { pose proof (safe_load_segment h (zlen bytes) Hr) as Hs. by destruct (load_segment_from_header h (zlen bytes)). }
    intros s _ Hs. split; simpl.
    - rewrite headers_of_same by done. apply Forall2_app; [done|]. by constructor.
    - by rewrite headers_of_skip by (by rewrite Hl).
    - apply interpreter_skip; [by rewrite Hl|done]. }
  destruct (Z.eqb_spec (ph_header_type h) PT_INTERP) as [Hi|Hi].
  { destruct (ps_interpreter st); [done|]. eapply safe_bind; [by apply safe_parse_interpreter|].
    intros i _ [Hs Hne]. simpl in S3. split; simpl; [by rewrite headers_of_skip|by rewrite headers_of_skip by (by rewrite Hi)|].
    exists h. by rewrite headers_of_same, S3. }
  destruct (Z.eqb_spec (ph_header_type h) PT_PHDR) as [Hp|Hp]; simpl.
  - split; simpl; [by rewrite headers_of_skip|by rewrite headers_of_same, last_snoc|by apply interpreter_skip].
  - split; simpl; [by rewrite headers_of_skip|by rewrite headers_of_skip|by apply interpreter_skip].
Qed.

Lemma safe_parse_headers bytes done_headers headers st :
  Forall raw_ok headers → state_ok bytes done_headers st →
  safe (state_ok bytes (done_headers ++ headers)) (try_fold (parse_header_step bytes) st headers).
Proof.
  intros Hall. revert done_headers st. induction Hall as [|h headers Hh _ IH]; intros d st Hst; simpl.
  - by rewrite app_nil_r.
  - eapply safe_bind; [by apply safe_parse_header_step|]. intros st' _ Hst'.
    replace (d ++ h :: headers) with ((d ++ [h]) ++ headers) by (by rewrite <- app_assoc). by apply IH.
Qed.

(** Neighbours with bytes do not overlap. *)
Definition neighbours_disjoint (segments : list LoadSegment) : Prop :=
  ∀ i s1 s2, segments !! i = Some s1 → segments !! S i = Some s2 →
    ls_memory_size s1 ≠ 0 → ls_memory_size s2 ≠ 0 →
    ls_virtual_address s1 + ls_memory_size s1 ≤ ls_virtual_address s2.

Lemma validate_non_overlapping_spec file_len segments :
  Forall (segment_ok file_len) segments →
  validate_non_overlapping_segments segments = Ok tt ↔ neighbours_disjoint segments.
Proof.
  induction 1 as [|s1 segments H1 Hall IH].
  { split; [intros _ [|i] ? ? ?; done|done]. }
  destruct segments as [|s2 segments].
  { split; [intros _ [|i] ? ? ? ?; done|done]. }
  simpl in *. pose proof (so_range _ _ H1) as Hr. pose proof (so_address _ _ H1) as Ha. pose proof (so_sizes _ _ H1) as Hs.
  unfold is_u64 in Ha.
  assert (Htail : neighbours_disjoint (s1 :: s2 :: segments) ↔
    (ls_memory_size s1 ≠ 0 → ls_memory_size s2 ≠ 0 → ls_virtual_address s1 + ls_memory_size s1 ≤ ls_virtual_address s2) ∧
    neighbours_disjoint (s2 :: segments)).
  { split.
    - intros Hn. split; [by apply (Hn 0%nat)|]. intros i. apply (Hn (S i)).
    - intros [Hn0 Hn] [|i] t1 t2; simpl; [intros [= <-] [= <-]; done|apply (Hn i)]. }
  rewrite Htail, <- IH. rewrite (wadd_exact (ls_virtual_address s1)) by lia.
  destruct (Z.eqb_spec (ls_memory_size s1) 0), (Z.eqb_spec (ls_memory_size s2) 0); simpl; try (split; [done|by intros [_ ?]]).
  destruct (Z.ltb_spec (ls_virtual_address s2) (ls_virtual_address s1 + ls_memory_size s1)).
  - split; [done|]. intros [Hn _]. specialize (Hn ltac:(done) ltac:(done)). lia.
  - split; [done|]. by intros [_ ?].
Qed.

Lemma validate_entrypoint_spec entrypoint segments :
  match validate_entrypoint entrypoint segments with
  | Ok _ => ∃ s, s ∈ segments ∧ sp_execute (ls_permissions s) = true ∧ contains_virtual_address s entrypoint = true
  | Err e => e = EntrypointNotExecutable entrypoint ∧
      ∀ s, s ∈ segments → sp_execute (ls_permissions s) = true → contains_virtual_address s entrypoint = false
  | Panic => False
  end.
Proof.
  unfold validate_entrypoint. destruct (existsb _ segments) eqn:He.
  - apply existsb_exists in He as (s & Hin%list_elem_of_In & [? ?]%andb_true_iff). eauto.
  - split; [done|]. intros s Hin Hx. apply not_true_iff_false. intros Hc. apply not_true_iff_false in He. apply He.
    apply existsb_exists. exists s. split; [by apply list_elem_of_In|]. by rewrite Hx, Hc.
Qed.

(** One of the segments holds the table, at address [a]. *)
Definition table_in (segments : list LoadSegment) (offset count a : Z) : Prop :=
  ∃ s, s ∈ segments ∧ ls_file_offset s ≤ offset ∧ offset + 56 * count ≤ ls_file_offset s + ls_file_size s ∧
    a = ls_virtual_address s + (offset - ls_file_offset s).

(** The plan says what the file says: its header, and every entry of its program header table. *)
Record plan_of_headers (bytes : list Z) (headers : list RawProgramHeader) (plan : LoadPlan) : Prop := {
  po_object_type : word_at bytes 16 2 = Some (match lp_object_type plan with Executable => ET_EXEC | SharedObject => ET_DYN end);
  po_entrypoint : word_at bytes 24 8 = Some (lp_entrypoint plan);
  po_table_offset : word_at bytes 32 8 = Some (pt_file_offset (lp_program_headers plan));
  po_table_count : word_at bytes 56 2 = Some (pt_entry_count (lp_program_headers plan));
  po_table : table_at bytes (pt_file_offset (lp_program_headers plan)) (pt_entry_count (lp_program_headers plan)) headers;
  po_segments : ∃ segments, Forall2 segment_of (headers_of PT_LOAD headers) segments ∧
    lp_segments plan ≡ₚ segments ∧ sorted_by_key ls_virtual_address (lp_segments plan);
  po_table_address :
    match last (headers_of PT_PHDR headers) with
    | Some h => pt_virtual_address (lp_program_headers plan) = Some (ph_virtual_address h)
    | None => ∀ a, pt_virtual_address (lp_program_headers plan) = Some a →
        table_in (lp_segments plan) (pt_file_offset (lp_program_headers plan)) (pt_entry_count (lp_program_headers plan)) a
    end;
  po_interpreter : interpreter_named bytes headers (lp_interpreter plan);
}.

(** What a plan promises about its file. *)
Record plan_ok (bytes : list Z) (plan : LoadPlan) : Prop := {
  pk_headers : ∃ headers, plan_of_headers bytes headers plan;
  pk_nonempty : lp_segments plan ≠ [];
  pk_segments : Forall (segment_ok (zlen bytes)) (lp_segments plan);
  pk_neighbours : neighbours_disjoint (lp_segments plan);
  pk_entrypoint : is_u64 (lp_entrypoint plan) ∧ ∃ s, s ∈ lp_segments plan ∧ sp_execute (ls_permissions s) = true ∧
    ls_virtual_address s ≤ lp_entrypoint plan < ls_virtual_address s + ls_memory_size s;
  pk_phdr : ∀ a, pt_virtual_address (lp_program_headers plan) = Some a → is_u64 a;
  pk_table : 0 ≤ pt_entry_size (lp_program_headers plan) < 2 ^ 16 ∧ 0 ≤ pt_entry_count (lp_program_headers plan) < 2 ^ 16;
  pk_interpreter : ∀ path, lp_interpreter plan = Some path → path ≠ [];
}.

Lemma infer_spec file_len segments header a :
  Forall (segment_ok file_len) segments → eh_program_header_entry_size header = 56 → 0 ≤ eh_program_header_count header →
  infer_program_header_virtual_address segments header = Some a →
  table_in segments (eh_program_header_offset header) (eh_program_header_count header) a.
Proof.
  intros Hall He Hc. induction Hall as [|s segments Hs _ IH]; simpl; [done|].
  assert (Hrest : infer_program_header_virtual_address segments header = Some a →
    table_in (s :: segments) (eh_program_header_offset header) (eh_program_header_count header) a).
  { intros H. destruct (IH H) as (s' & Hin & H'). exists s'. split; [by right|exact H']. }
  destruct (checked_sub64 _ _) as [p|] eqn:Ep; simpl; [|exact Hrest]. apply checked_sub64_Some in Ep as [-> Ep].
  destruct (checked_add64 _ _) as [e|] eqn:Ee; simpl; [|exact Hrest]. apply checked_add64_Some in Ee as [-> Ee].
  rewrite He in *. destruct (Z.leb_spec (eh_program_header_offset header - ls_file_offset s + 56 * eh_program_header_count header) (ls_file_size s));
    [|exact Hrest].
  intros [= <-]. pose proof (so_range _ _ Hs). pose proof (so_sizes _ _ Hs). pose proof (so_address _ _ Hs) as [? _].
  exists s. split; [by left|]. split; [lia|]. split; [lia|]. apply wadd_exact. lia.
Qed.

Lemma infer_u64 segments header a :
  infer_program_header_virtual_address segments header = Some a → is_u64 a.
Proof.
  induction segments as [|s segments IH]; simpl; [done|].
  destruct (checked_sub64 _ _) as [p|]; simpl; [|done]. destruct (checked_add64 _ _) as [e|]; simpl; [|done].
  destruct (_ <=? _); [|done]. intros [= <-]. unfold wadd. apply wrap64_bound.
Qed.

(** The plan the code builds from the headers. *)
Lemma built_plan_of_headers bytes header object_type headers st :
  header_ok header → parse_elf_header bytes = Ok header → object_type_from_raw (eh_object_type header) = Ok object_type →
  validate_program_header_table header (zlen bytes) = Ok tt → parse_program_headers bytes header = Ok headers →
  state_ok bytes headers st →
  let segments := sort_by_key ls_virtual_address (ps_segments st) in
  Forall (segment_ok (zlen bytes)) segments →
  plan_of_headers bytes headers
    {| lp_object_type := object_type; lp_entrypoint := eh_entrypoint header;
       lp_program_headers :=
         {| pt_file_offset := eh_program_header_offset header;
            pt_entry_size := eh_program_header_entry_size header;
            pt_entry_count := eh_program_header_count header;
            pt_virtual_address :=
              match ps_program_header_virtual_address st with
              | Some address => Some address
              | None => infer_program_header_virtual_address segments header
              end |};
       lp_interpreter := pi_interpreter <$> ps_interpreter st; lp_segments := segments |}.
Proof.
  intros Hok Hh Hot Hval Hph [S1 S2 S3] segments Hseg. apply parse_elf_header_at in Hh.
  destruct (validate_table_spec _ _ Hok Hval) as (He & _ & _).
  split; simpl; try apply Hh; try done.
  - rewrite (ha_object_type _ _ Hh). f_equal. unfold object_type_from_raw in Hot.
    destruct (Z.eqb_spec (eh_object_type header) ET_EXEC); [by injection Hot as <-|].
    destruct (Z.eqb_spec (eh_object_type header) ET_DYN); [by injection Hot as <-|done].
  - by apply parse_program_headers_at.
  - exists (ps_segments st). split; [|split; [apply sort_by_key_perm|apply sort_by_key_sorted]].
    eapply Forall2_impl; [exact S1|]. intros h s. apply load_segment_of.
  - rewrite S2. destruct (last _) as [h|]; simpl; [done|]. intros a.
    apply (infer_spec (zlen bytes)); [done|done|]. apply Hok.
Qed.

Lemma safe_parse_load_plan bytes : Forall is_byte bytes → safe (plan_ok bytes) (parse_load_plan bytes).
Proof.
  intros Hb. unfold parse_load_plan.
  eapply safe_bind; [apply safe_validate_ident|intros ? _ Hlen].
  eapply safe_bind; [by apply safe_parse_elf_header|intros header Hheader Hh].
  eapply (safe_bind (λ _, True)); [unfold object_type_from_raw; repeat (destruct (_ =? _); [done|]); done|intros ot Hot _].
  eapply safe_bind; [apply safe_validate_table|intros [] Hval _].
  destruct (parse_program_headers bytes header) as [headers|e|] eqn:Hph; simpl; [|done|].
  2: { pose proof (safe_parse_program_headers bytes header Hb Hh) as Hs. by rewrite Hph in Hs. }
  pose proof (safe_Ok _ _ _ (safe_parse_program_headers bytes header Hb Hh) Hph) as Hraw.
  eapply safe_bind; [apply (safe_parse_headers bytes []); [done|]|].
  { by split; [constructor|..]. }
  intros st _ Hst. simpl in Hst. pose proof Hst as [S1 S2 S3]. case_bool_decide as Hne; [done|].
  set (segments := sort_by_key ls_virtual_address (ps_segments st)).
  assert (Hseg : Forall (segment_ok (zlen bytes)) segments).
  { unfold segments. rewrite sort_by_key_perm. apply Forall_forall. intros s Hin.
    apply list_elem_of_lookup in Hin as [i Hi]. destruct (Forall2_lookup_r _ _ _ _ _ S1 Hi) as (h & Hhi & Hload).
    assert (Hrh : raw_ok h).
    { rewrite Forall_forall in Hraw. apply Hraw. apply list_elem_of_lookup_2 in Hhi.
      by apply list_elem_of_filter in Hhi as [_ ?]. }
    exact (safe_Ok _ _ _ (safe_load_segment h (zlen bytes) Hrh) Hload). }
  destruct (validate_non_overlapping_segments segments) as [[]|e|] eqn:Hov; simpl; [|done|].
  2: { exfalso. clear -Hov. induction segments as [|s1 [|s2 l] IH]; try done. simpl in Hov.
       destruct (_ || _); [by apply IH|]. destruct (_ <? _); [done|by apply IH]. }
  apply (validate_non_overlapping_spec (zlen bytes)) in Hov; [|done].
  pose proof (validate_entrypoint_spec (eh_entrypoint header) segments) as He.
  destruct (validate_entrypoint _ segments) as [[]|e|]; simpl; [|done|done].
  destruct He as (s & Hin & Hx & Hc). split; simpl.
  - exists headers. by apply built_plan_of_headers.
  - intros Hnil. apply Hne. apply (Permutation_nil_r (ps_segments st)). rewrite <- Hnil. symmetry. apply (sort_by_key_perm ls_virtual_address).
  - done.
  - done.
  - split; [apply Hh|]. exists s. split; [done|]. split; [done|]. unfold contains_virtual_address in Hc.
    rewrite Forall_forall in Hseg. destruct (Hseg _ Hin) as [A1 A2 _ A4 _ _]. unfold is_u64 in A1.
    rewrite wadd_exact in Hc by lia. apply andb_true_iff in Hc as [?%Z.leb_le ?%Z.ltb_lt]. lia.
  - intros va. rewrite S2. destruct (last (headers_of PT_PHDR headers)) as [h|] eqn:Hl; simpl; [|apply infer_u64].
    intros [= <-]. apply last_Some_elem_of, list_elem_of_filter in Hl as [_ Hl].
    rewrite Forall_forall in Hraw. apply (ro_address _ (Hraw _ Hl)).
  - split; apply Hh.
  - intros path Hpath. rewrite Hpath in S3. by destruct S3 as (h & _ & Hpath_ne & _).
Qed.
