(* ===== verification/ElfLayout.v ===== *)
(** * mcr-elf: the layout of the initial stack

    Where the strings, the random bytes and the pointer area end up in the bytes that
    [build_initial_stack] returns. *)

From S2P Require Import Prelude Bytes ElfParser ElfImage ElfPlan.
From stdpp Require Import base list strings sorting.
From Stdlib Require Import ZArith Lia Sorting.Sorted.
Open Scope Z_scope.

(** ** Placed bytes

    The items from the top of the stack downwards, each ending where the one before begins. *)
Fixpoint stacked (top : Z) (items : list PlacedStackBytes) (cursor : Z) : Prop :=
  match items with
  | [] => cursor = top
  | item :: items => pb_address item + zlen (pb_bytes item) = top ∧ stacked (pb_address item) items cursor
  end.

Lemma stacked_app top items1 items2 mid cursor :
  stacked top items1 mid → stacked mid items2 cursor → stacked top (items1 ++ items2) cursor.
Proof.
  revert top. induction items1 as [|item items1 IH]; intros top; simpl; [by intros ->|].
  intros [He H1] H2. split; [done|by apply IH].
Qed.

Lemma stacked_le top items cursor : stacked top items cursor → cursor ≤ top.
Proof.
  revert top. induction items as [|item items IH]; intros top; simpl; [lia|].
  intros [He H]. specialize (IH _ H). pose proof (zlen_nonneg (pb_bytes item)). lia.
Qed.

Lemma stacked_item top items cursor item :
  stacked top items cursor → item ∈ items → cursor ≤ pb_address item ∧ pb_address item + zlen (pb_bytes item) ≤ top.
Proof.
  revert top. induction items as [|x items IH]; intros top; simpl; [by intros _ ?%not_elem_of_nil|].
  intros [He H] [->|Hin]%elem_of_cons.
  - pose proof (stacked_le _ _ _ H). lia.
  - destruct (IH _ H Hin). pose proof (zlen_nonneg (pb_bytes x)). lia.
Qed.

(** The bytes of an item of a stack. *)
Definition holds (sp : Z) (bytes : list Z) (item : PlacedStackBytes) : Prop :=
  ∀ j, 0 ≤ j < zlen (pb_bytes item) → byte_at bytes (pb_address item - sp + j) = byte_at (pb_bytes item) j.

Lemma copy_placed_all sp top items cursor bytes :
  stacked top items cursor → 0 ≤ sp ≤ cursor → top < 2 ^ 64 → top - sp ≤ zlen bytes →
  ∃ bytes', try_fold (copy_placed sp) bytes items = Ok bytes' ∧ zlen bytes' = zlen bytes ∧
    (∀ i, i < cursor - sp ∨ top - sp ≤ i → byte_at bytes' i = byte_at bytes i) ∧
    Forall (holds sp bytes') items.
Proof.
  revert top bytes. induction items as [|item items IH]; intros top bytes; simpl.
  - intros -> Hsp Htop Hlen. by exists bytes.
  - intros [He Hst] Hsp Htop Hlen. pose proof (stacked_le _ _ _ Hst) as Hle. pose proof (zlen_nonneg (pb_bytes item)) as Hn.
    unfold copy_placed at 1. rewrite wsub_exact by lia.
    rewrite checked_add64_fit by lia. simpl.
    rewrite copy_into_Ok by lia. simpl.
    assert (Hl2 : zlen (splice bytes (pb_address item - sp) (pb_bytes item)) = zlen bytes).
    { unfold zlen. rewrite length_splice; [done|lia|lia]. }
    destruct (IH (pb_address item) (splice bytes (pb_address item - sp) (pb_bytes item)) Hst) as (bytes' & Hf & Hl & Hout & Hin);
      [lia|lia|lia|].
    exists bytes'. split_and!; [done|lia| |].
    + intros i Hi. rewrite Hout by lia. rewrite splice_byte by lia.
      destruct (Z.leb_spec (pb_address item - sp) i), (Z.ltb_spec i (pb_address item - sp + zlen (pb_bytes item))); simpl; try done; lia.
    + constructor; [|done]. intros j Hj. rewrite Hout by lia. rewrite splice_byte by lia.
      destruct (Z.leb_spec (pb_address item - sp) (pb_address item - sp + j)),
        (Z.ltb_spec (pb_address item - sp + j) (pb_address item - sp + zlen (pb_bytes item))); simpl; try lia.
      f_equal. lia.
Qed.

(** ** Strings *)
Definition string_item (address : Z) (string : list Z) (item : PlacedStackBytes) : Prop :=
  pb_address item = address ∧ pb_bytes item = string ++ [0].

Lemma safe_place_c_string p string :
  safe (λ r, ∃ item, string_item r.1 string item ∧ r.2.2 = p.2 ++ [item] ∧ r.2.1 = r.1 ∧ 0 ≤ r.1 ∧
    stacked p.1 [item] r.2.1) (place_c_string p string).
Proof.
  unfold place_c_string. destruct (checked_add64 _ 1) as [n|] eqn:Hn; simpl; [|done].
  apply checked_add64_Some in Hn as [-> _]. destruct (checked_sub64 _ _) as [c|] eqn:Hc; simpl; [|done].
  apply checked_sub64_Some in Hc as [-> Hc]. exists {| pb_address := p.1 - (zlen string + 1); pb_bytes := string ++ [0] |}.
  split; [by split|]. split; [done|]. split; [done|]. split; [simpl; lia|].
  simpl. split; [|done]. rewrite zlen_app. change (zlen [0]) with 1. lia.
Qed.

Definition placed_strings (addresses : list Z) (strings : list (list Z)) (items : list PlacedStackBytes) : Prop :=
  Forall2 (λ a s, ∃ item, item ∈ items ∧ string_item a s item) addresses strings ∧
  length items = length strings ∧ Forall (λ item, 1 ≤ zlen (pb_bytes item)) items.

Lemma placed_strings_app a1 a2 s1 s2 i1 i2 :
  placed_strings a1 s1 i1 → placed_strings a2 s2 i2 → placed_strings (a1 ++ a2) (s1 ++ s2) (i1 ++ i2).
Proof.
  intros (F1 & L1 & B1) (F2 & L2 & B2). split_and!.
  - apply Forall2_app; (eapply Forall2_impl; [eassumption|]; intros a s (item & Hin & ?); exists item; rewrite elem_of_app; tauto).
  - rewrite !length_app. lia.
  - by apply Forall_app.
Qed.

Lemma placed_strings_reverse a s items : placed_strings a s items → placed_strings (reverse a) (reverse s) items.
Proof. intros (F & L & B). split_and!; [by apply Forall2_reverse|by rewrite length_reverse|done]. Qed.

Lemma safe_place_reversed p strings before prev items :
  placed_strings before prev items →
  safe (λ r, ∃ new, placed_strings r.1 (prev ++ strings) (items ++ new) ∧ r.2.2 = p.2 ++ new ∧ stacked p.1 new r.2.1)
    (place_reversed p strings before).
Proof.
  revert p before prev items. induction strings as [|s strings IH]; intros p before prev items Hb; simpl.
  - exists []. by rewrite !app_nil_r.
  - eapply safe_bind; [apply (safe_place_c_string p s)|]. intros [a p'] _ (item & Hitem & Hp & Hc & H0 & Hst). simpl in *.
    eapply safe_weaken; [apply (IH p' (before ++ [a]) (prev ++ [s]) (items ++ [item]))|].
    + apply placed_strings_app; [done|]. split_and!; [|done|].
      * constructor; [|constructor]. exists item. split; [by left|done].
      * constructor; [|constructor]. destruct Hitem as [_ ->]. rewrite zlen_app. change (zlen [0]) with 1.
        pose proof (zlen_nonneg s). lia.
    + intros r (new & Hnew & Hp2 & Hst2). exists (item :: new).
      rewrite <- !app_assoc in Hnew. split_and!; [done| |].
      * rewrite Hp2, Hp. by rewrite <- app_assoc.
      * simpl. destruct Hst as [He Heq]. rewrite Heq in Hst2. done.
Qed.

Lemma safe_place_c_strings p strings :
  safe (λ r, ∃ new, placed_strings r.1 strings new ∧ r.2.2 = p.2 ++ new ∧ stacked p.1 new r.2.1)
    (place_c_strings p strings).
Proof.
  unfold place_c_strings. eapply safe_bind; [apply (safe_place_reversed p (rev strings) [] [] [])|].
  { split_and!; [constructor|done|constructor]. }
  intros [addresses p'] _ (new & Hnew & Hp & Hst). simpl in *. exists new. split_and!; [|done|done].
  apply placed_strings_reverse in Hnew. rewrite <- (rev_involutive strings), !rev_alt.
  rewrite rev_alt in Hnew. exact Hnew.
Qed.

(** Every string takes a byte, so their number is bounded by the space. *)
Lemma stacked_count top items cursor :
  stacked top items cursor → Forall (λ item, 1 ≤ zlen (pb_bytes item)) items → zlen items ≤ top - cursor.
Proof.
  intros Hst Hall. revert top Hst. induction Hall as [|item items H1 _ IH]; intros top; simpl.
  - intros ->. unfold zlen; simpl. lia.
  - intros [He Hst]. specialize (IH _ Hst). unfold zlen in *. simpl length. lia.
Qed.

(** ** The pointer area *)
Definition encode_words (words : list Z) : list Z := concat (le_bytes 8 <$> words).

Definition auxv_words (entries : list AuxiliaryVectorEntry) : list Z :=
  concat ((λ e, [av_key e; av_value e]) <$> entries).

(** The words of the pointer area, from the stack pointer upwards. *)
Definition initial_words (argv envp : list Z) (auxv : list AuxiliaryVectorEntry) : list Z :=
  zlen argv :: argv ++ 0 :: envp ++ 0 :: auxv_words auxv.

Lemma encode_words_app w1 w2 : encode_words (w1 ++ w2) = encode_words w1 ++ encode_words w2.
Proof. unfold encode_words. by rewrite fmap_app, concat_app. Qed.

Lemma foldl_push bytes words : foldl push_u64 bytes words = bytes ++ encode_words words.
Proof.
  revert bytes. induction words as [|w words IH]; intros bytes; simpl; [by rewrite app_nil_r|].
  rewrite IH. unfold push_u64, encode_words. simpl. by rewrite <- app_assoc.
Qed.

Lemma foldl_push_auxv bytes entries :
  foldl (λ bytes e, push_u64 (push_u64 bytes (av_key e)) (av_value e)) bytes entries =
  bytes ++ encode_words (auxv_words entries).
Proof.
  revert bytes. induction entries as [|e entries IH]; intros bytes; simpl; [by rewrite app_nil_r|].
  rewrite IH. unfold push_u64. change (auxv_words (e :: entries)) with ([av_key e; av_value e] ++ auxv_words entries).
  rewrite encode_words_app. rewrite <- !app_assoc. done.
Qed.

Lemma build_pointer_area_spec argv envp auxv :
  build_pointer_area argv envp auxv = Ok (encode_words (initial_words argv envp auxv)).
Proof.
  unfold build_pointer_area, initial_words. f_equal. rewrite foldl_push_auxv, !foldl_push. unfold push_u64.
  change (zlen argv :: argv ++ 0 :: envp ++ 0 :: auxv_words auxv)
    with ([zlen argv] ++ argv ++ [0] ++ envp ++ [0] ++ auxv_words auxv).
  rewrite !encode_words_app. change (encode_words [zlen argv]) with (le_bytes 8 (zlen argv) ++ []).
  change (encode_words [0]) with (le_bytes 8 0 ++ []). rewrite !app_nil_r. by rewrite <- !app_assoc.
Qed.

Lemma zlen_encode_words words : zlen (encode_words words) = 8 * zlen words.
Proof.
  unfold encode_words, zlen. induction words as [|w words IH]; [done|].
  rewrite fmap_cons. cbn [concat]. rewrite length_app, length_le_bytes. rewrite length_cons. lia.
Qed.

(** Reading back the words of a buffer that starts with them. *)
Lemma read_encoded_word {E} words i w bytes :
  words !! i = Some w → is_u64 w → (∀ j, 0 ≤ j < zlen (encode_words words) → byte_at bytes j = byte_at (encode_words words) j) →
  zlen (encode_words words) ≤ zlen bytes → read_u64 (E:=E) bytes (8 * Z.of_nat i) = Ok w.
Proof.
  intros Hi Hw Hb Hlen. rewrite zlen_encode_words in Hb, Hlen.
  pose proof (lookup_lt_Some _ _ _ Hi) as Hlt. unfold read_u64, read_le.
  assert (Hsl : slice bytes (8 * Z.of_nat i) (8 * Z.of_nat i + 8) = Some (le_bytes 8 w)).
  { destruct (slice_Some bytes (8 * Z.of_nat i) (8 * Z.of_nat i + 8)) as [bs Hbs]; [lia|unfold zlen in *; lia|].
    rewrite Hbs. f_equal. pose proof (slice_length _ _ _ _ Hbs) as Hl.
    apply bytes_ext; [unfold zlen in *; rewrite length_le_bytes; lia|]. intros j Hj. rewrite Hl in Hj.
    rewrite (slice_byte _ _ _ _ j Hbs) by lia. rewrite Hb by (unfold zlen; lia).
    rewrite <- (take_drop_middle _ _ _ Hi) at 1. rewrite encode_words_app.
    change (encode_words (w :: drop (S i) words)) with (le_bytes 8 w ++ encode_words (drop (S i) words)).
    assert (Hpre : zlen (encode_words (take i words)) = 8 * Z.of_nat i).
    { rewrite zlen_encode_words. unfold zlen. rewrite length_take. lia. }
    unfold byte_at, zlen in *. destruct (Z.ltb_spec (8 * Z.of_nat i + j) 0), (Z.ltb_spec j 0); try lia.
    rewrite lookup_app_r by lia. rewrite lookup_app_l by (rewrite length_le_bytes; lia). f_equal. lia. }
  rewrite Hsl. cbn [expect obind]. f_equal. rewrite le_value_bytes. apply Z.mod_small. exact Hw.
Qed.

(** ** The initial stack *)

(** The bytes of a stack at an address. *)
Definition string_at (s : InitialStack) (address : Z) (bytes : list Z) : Prop :=
  is_stack_pointer s ≤ address ∧
  slice (is_bytes s) (address - is_stack_pointer s) (address - is_stack_pointer s + zlen bytes) = Some bytes.

Lemma holds_string sp bytes item :
  holds sp bytes item → sp ≤ pb_address item → pb_address item - sp + zlen (pb_bytes item) ≤ zlen bytes →
  slice bytes (pb_address item - sp) (pb_address item - sp + zlen (pb_bytes item)) = Some (pb_bytes item).
Proof.
  intros Hh Hsp Hlen. pose proof (zlen_nonneg (pb_bytes item)).
  destruct (slice_Some bytes (pb_address item - sp) (pb_address item - sp + zlen (pb_bytes item))) as [bs Hbs]; [lia|lia|].
  rewrite Hbs. f_equal. pose proof (slice_length _ _ _ _ Hbs) as Hl. apply bytes_ext; [lia|]. intros j Hj.
  rewrite (slice_byte _ _ _ _ j Hbs) by lia. apply Hh. lia.
Qed.

(** What the configuration's Rust types promise. *)
Record config_ok (c : InitialStackConfig) : Prop := {
  co_top : is_u64 (sc_stack_top c);
  co_size : is_u64 (sc_stack_size c);
  co_random : zlen (sc_random_bytes c) = AT_RANDOM_BYTES;
  co_base : is_u64 (sc_interpreter_base c);
}.

Record table_ok (plan : LoadPlan) : Prop := {
  to_entry_size : 0 ≤ pt_entry_size (lp_program_headers plan) < 2 ^ 16;
  to_entry_count : 0 ≤ pt_entry_count (lp_program_headers plan) < 2 ^ 16;
  to_address : ∀ a, pt_virtual_address (lp_program_headers plan) = Some a → 0 ≤ a;
  to_entry : 0 ≤ lp_entrypoint plan;
}.

(** Everything a program finds on its stack. *)
Record stack_ok (plan : LoadPlan) (config : InitialStackConfig) (s : InitialStack) : Prop := {
  sk_aligned : is_stack_pointer s mod INITIAL_STACK_ALIGNMENT = 0;
  sk_top : is_stack_top s = sc_stack_top config ∧ is_stack_size s = sc_stack_size config;
  sk_range : 0 ≤ is_stack_top s - is_stack_size s ≤ is_stack_pointer s ∧ is_stack_pointer s < is_stack_top s;
  sk_length : zlen (is_bytes s) = is_stack_top s - is_stack_pointer s;
  sk_words : ∀ i w, initial_words (is_argv_addresses s) (is_envp_addresses s) (is_auxv_entries s) !! i = Some w →
    read_u64 (E:=unit) (is_bytes s) (8 * Z.of_nat i) = Ok w;
  sk_argv : Forall2 (λ a string, string_at s a (string ++ [0])) (is_argv_addresses s) (sc_argv config);
  sk_envp : Forall2 (λ a string, string_at s a (string ++ [0])) (is_envp_addresses s) (sc_envp config);
  sk_path : string_at s (is_executable_path_address s) (sc_executable_path config ++ [0]);
  sk_platform : string_at s (is_platform_address s) (sc_platform config ++ [0]);
  sk_random : string_at s (is_random_address s) (sc_random_bytes config);
  sk_auxv : ∃ phdr, pt_virtual_address (lp_program_headers plan) = Some phdr ∧
    is_auxv_entries s = auxiliary_vector plan config (phdr + sc_executable_load_bias config)
      (lp_entrypoint plan + sc_executable_load_bias config) (is_random_address s)
      (is_executable_path_address s) (is_platform_address s);
}.

Lemma safe_relocated_address a bias :
  safe (λ r, r = a + bias ∧ a + bias < 2 ^ 64) (relocated_address a bias).
Proof. unfold relocated_address. apply safe_ok_or. by intros r [-> ?]%checked_add64_Some. Qed.

Lemma safe_validate_entries field entries : ∀ index, safe (λ _, True) (validate_entries_from index field entries).
Proof.
  induction entries as [|e entries IH]; intros index; simpl; [done|]. unfold validate_no_interior_nul.
  case_bool_decide; simpl; [done|]. apply IH.
Qed.

Lemma safe_validate_config config : safe (λ _, True) (validate_stack_config config).
Proof.
  unfold validate_stack_config, validate_no_interior_nul, validate_no_interior_nul_entries.
  destruct (_ =? 0); [done|]. case_bool_decide; simpl; [done|].
  eapply safe_bind; [apply safe_validate_entries|intros _ _ _].
  eapply safe_bind; [apply safe_validate_entries|intros _ _ _].
  case_bool_decide; [done|]. by case_bool_decide.
Qed.

Lemma align_down_spec value alignment :
  0 < alignment → align_down value alignment mod alignment = 0 ∧ value - alignment < align_down value alignment ≤ value.
Proof.
  intros Ha. split; [apply Z_mod_mult|]. rewrite align_down_mod by done.
  pose proof (Z.mod_pos_bound value alignment Ha). lia.
Qed.

(** The words of the pointer area fit in 64 bits. *)
Lemma initial_words_u64 argv envp auxv :
  is_u64 (zlen argv) → Forall is_u64 argv → Forall is_u64 envp → Forall (λ e, is_u64 (av_key e) ∧ is_u64 (av_value e)) auxv →
  Forall is_u64 (initial_words argv envp auxv).
Proof.
  intros H1 H2 H3 H4. unfold initial_words. constructor; [done|]. apply Forall_app. split; [done|].
  constructor; [done|]. apply Forall_app. split; [done|]. constructor; [done|].
  induction H4 as [|e l [? ?] _ IH]; unfold auxv_words in *; [apply Forall_nil_2|].
  rewrite fmap_cons. cbn [concat]. apply Forall_app. split; [|done]. by repeat apply Forall_cons_2.
Qed.

(** The bytes of a stack: the words at its bottom, the items at their addresses. *)
Lemma stack_bytes_spec {E} sp top items cursor words :
  stacked top items cursor → 0 ≤ sp → sp + 8 * zlen words ≤ cursor → top < 2 ^ 64 → Forall is_u64 words →
  ∃ start bytes, copy_into (E:=InitialStackError) (zero_vec (top - sp)) 0 (zlen (encode_words words)) (encode_words words) = Ok start ∧
    try_fold (copy_placed sp) start items = Ok bytes ∧ zlen bytes = top - sp ∧
    (∀ i w, words !! i = Some w → read_u64 (E:=E) bytes (8 * Z.of_nat i) = Ok w) ∧
    ∀ item, item ∈ items → sp ≤ pb_address item ∧
      slice bytes (pb_address item - sp) (pb_address item - sp + zlen (pb_bytes item)) = Some (pb_bytes item).
Proof.
  intros Hst Hsp Hcur Htop Hw. pose proof (stacked_le _ _ _ Hst) as Hle. pose proof (zlen_encode_words words) as Hpa.
  pose proof (zlen_nonneg words) as Hn0. assert (Hz : zlen (zero_vec (top - sp)) = top - sp) by (apply zlen_zero_vec; lia).
  exists (splice (zero_vec (top - sp)) 0 (encode_words words)).
  assert (Hl : zlen (splice (zero_vec (top - sp)) 0 (encode_words words)) = top - sp).
  { unfold zlen. rewrite length_splice; [exact Hz|lia|lia]. }
  destruct (copy_placed_all sp top items cursor (splice (zero_vec (top - sp)) 0 (encode_words words)) Hst)
    as (bytes & Hf & Hlen & Hout & Hin); [lia|lia|lia|].
  exists bytes. split_and!; [apply copy_into_Ok; lia|done|lia| |].
  - intros i w Hi. apply (read_encoded_word words); [done| | |lia].
    + rewrite Forall_forall in Hw. apply Hw. by eapply list_elem_of_lookup_2.
    + intros j Hj. rewrite Hout by lia. rewrite splice_byte by lia.
      destruct (Z.leb_spec 0 j), (Z.ltb_spec j (0 + zlen (encode_words words))); simpl; try lia. f_equal. lia.
  - intros item Hitem. destruct (stacked_item _ _ _ _ Hst Hitem). split; [lia|].
    apply holds_string; [|lia|lia]. rewrite Forall_forall in Hin. by apply Hin.
Qed.

(** What is placed above the pointer area. *)
Record placed_all (config : InitialStackConfig) (path platform : Z) (envp argv : list Z)
    (items : list PlacedStackBytes) (random : Z) : Prop := {
  pa_stacked : stacked (sc_stack_top config) items random;
  pa_random : ∃ item, item ∈ items ∧ pb_address item = random ∧ pb_bytes item = sc_random_bytes config;
  pa_path : ∃ item, item ∈ items ∧ string_item path (sc_executable_path config) item;
  pa_platform : ∃ item, item ∈ items ∧ string_item platform (sc_platform config) item;
  pa_envp : Forall2 (λ a s, ∃ item, item ∈ items ∧ string_item a s item) envp (sc_envp config);
  pa_argv : Forall2 (λ a s, ∃ item, item ∈ items ∧ string_item a s item) argv (sc_argv config);
  pa_count : zlen argv ≤ sc_stack_top config - random;
  pa_bounds : 0 ≤ random;
}.

Lemma Forall2_items_app (a : list Z) (s : list (list Z)) (items items' : list PlacedStackBytes) :
  (∀ item, item ∈ items → item ∈ items') →
  Forall2 (λ a s, ∃ item, item ∈ items ∧ string_item a s item) a s →
  Forall2 (λ a s, ∃ item, item ∈ items' ∧ string_item a s item) a s.
Proof. intros Hsub HF. eapply Forall2_impl; [exact HF|]. intros ? ? (item & ? & ?). eauto. Qed.

Definition place_all (config : InitialStackConfig)
    : outcome (Z * Z * list Z * list Z * Z * list PlacedStackBytes) InitialStackError :=
  let? (path, p) := place_c_string (sc_stack_top config, []) (sc_executable_path config) in
  let? (platform, p) := place_c_string p (sc_platform config) in
  let? (envp, p) := place_c_strings p (sc_envp config) in
  let? (argv, p) := place_c_strings p (sc_argv config) in
  let? random := ok_or (checked_sub64 p.1 AT_RANDOM_BYTES) StackLayoutOverflow in
  Ok (path, platform, envp, argv, random, p.2 ++ [{| pb_address := random; pb_bytes := sc_random_bytes config |}]).

Lemma safe_place_all config :
  zlen (sc_random_bytes config) = AT_RANDOM_BYTES →
  safe (λ '(path, platform, envp, argv, random, items), placed_all config path platform envp argv items random)
    (place_all config).
Proof.
  intros Hr. unfold place_all.
  eapply safe_bind; [apply safe_place_c_string|]. intros [path p1] _ (i1 & Hi1 & Hp1 & Hc1 & _ & Hs1). simpl in *.
  eapply safe_bind; [apply safe_place_c_string|]. intros [platform p2] _ (i2 & Hi2 & Hp2 & Hc2 & _ & Hs2).
  cbn [fst snd] in *.
  eapply safe_bind; [apply safe_place_c_strings|]. intros [envp p3] _ (n3 & Hn3 & Hp3 & Hs3). cbn [fst snd] in *.
  eapply safe_bind; [apply safe_place_c_strings|]. intros [argv p4] _ (n4 & Hn4 & Hp4 & Hs4). cbn [fst snd] in *.
  destruct (checked_sub64 p4.1 AT_RANDOM_BYTES) as [random|] eqn:Hrand; simpl; [|done].
  apply checked_sub64_Some in Hrand as [-> Hrand]. rewrite Hp4, Hp3, Hp2, Hp1. simpl.
  set (ri := Build_PlacedStackBytes _ _). assert (Hst : stacked (sc_stack_top config) ((((i1 :: [i2]) ++ n3) ++ n4) ++ [ri]) (p4.1 - AT_RANDOM_BYTES)).
  { eapply stacked_app; [eapply stacked_app; [eapply stacked_app|]|].
    - simpl. destruct Hs1 as [? Hs1]. split; [done|]. rewrite <- Hs1. exact Hs2.
    - exact Hs3.
    - exact Hs4.
    - simpl. split; [|done]. rewrite Hr. lia. }
  pose proof (stacked_le _ _ _ Hst). destruct Hn4 as (F4 & L4 & B4). destruct Hn3 as (F3 & L3 & B3).
  simpl. split.
  - exact Hst.
  - exists ri. split; [|done]. rewrite elem_of_cons, elem_of_cons, elem_of_app, list_elem_of_singleton. tauto.
  - exists i1. split; [by left|done].
  - exists i2. split; [right; by left|done].
  - eapply Forall2_items_app; [|exact F3]. intros item Hin. rewrite !elem_of_cons, !elem_of_app. tauto.
  - eapply Forall2_items_app; [|exact F4]. intros item Hin. rewrite !elem_of_cons, !elem_of_app. tauto.
  - pose proof (stacked_count _ _ _ Hs4 B4). apply Forall2_length in F4.
    pose proof (stacked_le _ _ _ Hs3). simpl in Hs1, Hs2. destruct Hs2 as [E2 Hs2], Hs1 as [E1 Hs1].
    assert (p2.1 ≤ sc_stack_top config).
    { pose proof (zlen_nonneg (pb_bytes i1)). pose proof (zlen_nonneg (pb_bytes i2)). lia. }
    unfold zlen, AT_RANDOM_BYTES in *. lia.
  - lia.
Qed.

Lemma auxv_u64 plan config phdr entry random path platform :
  config_ok config → table_ok plan → is_u64 phdr → is_u64 entry → is_u64 random → is_u64 path → is_u64 platform →
  Forall (λ e, is_u64 (av_key e) ∧ is_u64 (av_value e)) (auxiliary_vector plan config phdr entry random path platform).
Proof.
  intros Hc Ht **. pose proof (to_entry_size _ Ht). pose proof (to_entry_count _ Ht). pose proof (co_base _ Hc).
  assert (Hsmall : ∀ x, 0 ≤ x < 2 ^ 16 → is_u64 x) by (unfold is_u64; lia).
  assert (Hconst : ∀ k, (0 <=? k) && (k <? 2 ^ 16) = true → is_u64 k) by (intros k ?; bprop; by apply Hsmall).
  assert (Hkey : ∀ k v l, (0 <=? k) && (k <? 2 ^ 16) = true → is_u64 v → Forall (λ e, is_u64 (av_key e) ∧ is_u64 (av_value e)) l →
    Forall (λ e, is_u64 (av_key e) ∧ is_u64 (av_value e)) (aux k v :: l)).
  { intros k v l Hk Hv Hl. apply Forall_cons_2; [|done]. split; [by apply Hconst|done]. }
  unfold auxiliary_vector.
  do 19 (apply Hkey; [reflexivity|first [assumption|apply Hsmall; assumption|apply Hconst; reflexivity]|]). apply Forall_nil_2.
Qed.

Section placed.
Context (config : InitialStackConfig) (path platform : Z) (envp argv : list Z) (items : list PlacedStackBytes) (random : Z).
Context (Hall : placed_all config path platform envp argv items random) (Htop : sc_stack_top config < 2 ^ 64).

Lemma item_u64 item : item ∈ items → is_u64 (pb_address item).
Proof.
  intros Hin. destruct (stacked_item _ _ _ _ (pa_stacked _ _ _ _ _ _ _ Hall) Hin).
  pose proof (pa_bounds _ _ _ _ _ _ _ Hall). pose proof (zlen_nonneg (pb_bytes item)). unfold is_u64. lia.
Qed.

Lemma placed_u64 addresses strings :
  Forall2 (λ a s, ∃ item, item ∈ items ∧ string_item a s item) addresses strings → Forall is_u64 addresses.
Proof.
  intros HF. apply (Forall2_Forall_l _ _ _ _ HF). apply Forall_forall. intros s _ a (item & Hin & <- & _). by apply item_u64.
Qed.

Lemma string_u64 a s : (∃ item, item ∈ items ∧ string_item a s item) → is_u64 a.
Proof. intros (item & Hin & <- & _). by apply item_u64. Qed.

Lemma placed_words_u64 plan phdr entry :
  config_ok config → table_ok plan → is_u64 phdr → is_u64 entry →
  Forall is_u64 (initial_words argv envp (auxiliary_vector plan config phdr entry random path platform)).
Proof.
  intros Hc Ht Hp He. apply initial_words_u64.
  - pose proof (pa_count _ _ _ _ _ _ _ Hall). pose proof (pa_bounds _ _ _ _ _ _ _ Hall).
    pose proof (zlen_nonneg argv). unfold is_u64. lia.
  - eapply placed_u64, Hall.
  - eapply placed_u64, Hall.
  - apply auxv_u64; try done.
    + destruct (pa_random _ _ _ _ _ _ _ Hall) as (item & Hin & Hr & _). rewrite <- Hr. by apply item_u64.
    + eapply string_u64, Hall.
    + eapply string_u64, Hall.
Qed.

(** The placed strings are where the items are. *)
Lemma placed_strings_read s addresses strings :
  (∀ item, item ∈ items → string_at s (pb_address item) (pb_bytes item)) →
  Forall2 (λ a s, ∃ item, item ∈ items ∧ string_item a s item) addresses strings →
  Forall2 (λ a string, string_at s a (string ++ [0])) addresses strings.
Proof. intros Hat HF. eapply Forall2_impl; [exact HF|]. intros a string (item & Hin & <- & <-). by apply Hat. Qed.
End placed.

(** [build_initial_stack] never panics and lays the stack out as Linux programs expect it. *)
Lemma safe_build_initial_stack plan config :
  config_ok config → table_ok plan → 0 ≤ sc_executable_load_bias config →
  safe (stack_ok plan config) (build_initial_stack plan config).
Proof.
  intros Hc Ht Hbias. unfold build_initial_stack.
  eapply safe_bind; [apply safe_validate_config|intros _ _ _].
  destruct (pt_virtual_address (lp_program_headers plan)) as [phdr|] eqn:Hphdr; cbn [ok_or obind]; [|done].
  pose proof (to_address _ Ht _ Hphdr) as Hphdr0. pose proof (to_entry _ Ht) as Hent0.
  eapply safe_bind; [apply safe_relocated_address|intros pa _ (-> & Hpa)].
  eapply safe_bind; [apply safe_relocated_address|intros en _ (-> & Hen)].
  destruct (checked_sub64 (sc_stack_top config) (sc_stack_size config)) as [base|] eqn:Hbase; cbn [ok_or obind]; [|done].
  apply checked_sub64_Some in Hbase as [-> Hbase].
  pose proof (safe_place_all config (co_random _ Hc)) as Hall. unfold place_all in Hall.
  destruct (place_c_string (sc_stack_top config, []) (sc_executable_path config)) as [[path p1]|e|]; cbn [obind] in *; [|done|done].
  destruct (place_c_string p1 (sc_platform config)) as [[platform p2]|e|]; cbn [obind] in *; [|done|done].
  destruct (place_c_strings p2 (sc_envp config)) as [[envp p3]|e|]; cbn [obind] in *; [|done|done].
  destruct (place_c_strings p3 (sc_argv config)) as [[argv p4]|e|]; cbn [obind] in *; [|done|done].
  destruct (checked_sub64 p4.1 AT_RANDOM_BYTES) as [random|]; cbn [ok_or obind safe] in *; [|done].
  set (items := p4.2 ++ _) in *. clearbody items.
  set (auxv := auxiliary_vector _ _ _ _ _ _ _).
  rewrite build_pointer_area_spec. cbn [obind]. set (words := initial_words argv envp auxv).
  pose proof (co_top _ Hc) as Htop. pose proof (co_size _ Hc) as Hsize. unfold is_u64 in Htop, Hsize.
  destruct (align_down_spec random INITIAL_STACK_ALIGNMENT eq_refl) as [_ Hd1].
  destruct (checked_sub64 (align_down random INITIAL_STACK_ALIGNMENT) (zlen (encode_words words))) as [below|] eqn:Hb;
    cbn [ok_or obind]; [|done].
  apply checked_sub64_Some in Hb as [-> Hb]. rewrite zlen_encode_words in *.
  destruct (align_down_spec (align_down random INITIAL_STACK_ALIGNMENT - 8 * zlen words) INITIAL_STACK_ALIGNMENT eq_refl) as [Hmod Hd2].
  set (sp := align_down (align_down random INITIAL_STACK_ALIGNMENT - 8 * zlen words) INITIAL_STACK_ALIGNMENT) in *.
  destruct (Z.ltb_spec sp (sc_stack_top config - sc_stack_size config)) as [|Hsp]; [done|].
  assert (Hw : Forall is_u64 words).
  { apply (placed_words_u64 config path platform envp argv items random Hall); [lia|done|done|unfold is_u64; lia|unfold is_u64; lia]. }
  destruct Hall as [A1 A2 A3 A4 A5 A6 A7 A8]. pose proof (stacked_le _ _ _ A1) as Hle.
  assert (Hwords : 0 < zlen words) by (unfold words, initial_words, zlen; simpl; lia).
  rewrite wsub_exact by lia.
  destruct (stack_bytes_spec (E:=unit) sp (sc_stack_top config) items random words A1) as (start & bytes & Hs & Hf & Hlen & Hrd & Hit);
    [lia|lia|lia|done|].
  rewrite zlen_encode_words in Hs. rewrite Hs. cbn [obind]. rewrite Hf. cbn [obind].
  split; cbn [is_stack_pointer is_stack_top is_stack_size is_bytes is_argv_addresses is_envp_addresses
    is_executable_path_address is_platform_address is_random_address is_auxv_entries]; try done; try lia.
  - by eapply placed_strings_read.
  - by eapply placed_strings_read.
  - destruct A3 as (item & Hin & <- & <-). by apply Hit.
  - destruct A4 as (item & Hin & <- & <-). by apply Hit.
  - destruct A2 as (item & Hin & <- & <-). by apply Hit.
  - by exists phdr.
Qed.

(** ** mcr-elf: what the memory image holds

    Building an image never panics; its areas are sorted and disjoint, each has a region of
    bytes, and the bytes of a segment are those of the file followed by zeros. *)

(** ** Areas *)
Definition apart (u v : GuestVma) : Prop := iv_end u ≤ iv_start v ∨ iv_end v ≤ iv_start u.

Record areas_ok (vmas : list GuestVma) : Prop := {
  ar_sorted : sorted_by_key iv_start vmas;
  ar_starts : NoDup (iv_start <$> vmas);
  ar_nonempty : Forall (λ v, iv_start v < iv_end v) vmas;
  ar_apart : ∀ u v, u ∈ vmas → v ∈ vmas → u = v ∨ apart u v;
}.

Lemma areas_ok_nil : areas_ok [].
Proof. split; [constructor|constructor|constructor|by intros u v ?%not_elem_of_nil]. Qed.

(** Sorted and apart: each area ends before the next begins. *)
Lemma areas_sorted vmas : areas_ok vmas → StronglySorted (λ u v, iv_end u ≤ iv_start v) vmas.
Proof.
  intros [Hs Hnd Hne Hap]. induction Hs as [|v vmas Hs IH Hall]; [constructor|].
  apply NoDup_cons in Hnd as [Hnin Hnd]. apply Forall_cons in Hne as [Hv Hne]. constructor.
  - apply IH; [done|done|]. intros u w Hu Hw. apply Hap; by right.
  - rewrite Forall_forall in Hall, Hne |- *. intros w Hw. specialize (Hall _ Hw). specialize (Hne _ Hw). simpl in Hall.
    destruct (Hap v w) as [->|[?|?]]; [by left|by right|exfalso; apply Hnin; apply list_elem_of_fmap; eauto|done|lia].
Qed.

Lemma safe_register_vma vmas vma :
  areas_ok vmas → safe (λ vmas', areas_ok vmas' ∧ vmas' ≡ₚ vma :: vmas ∧ iv_start vma < iv_end vma) (register_vma vmas vma).
Proof.
  intros [Hs Hnd Hne Hap]. unfold register_vma. destruct (Z.leb_spec (iv_end vma) (iv_start vma)); [done|].
  destruct (List.find _ vmas) as [e|] eqn:Hf; simpl; [done|].
  assert (Hnew : ∀ u, u ∈ vmas → apart u vma).
  { intros u Hu%list_elem_of_In. apply (List.find_none _ _ Hf) in Hu. unfold apart.
    apply andb_false_iff in Hu as [Hu|Hu]; apply Z.ltb_ge in Hu; lia. }
  assert (Hp : sort_by_key iv_start (vmas ++ [vma]) ≡ₚ vma :: vmas).
  { rewrite sort_by_key_perm. by rewrite Permutation_app_comm. }
  split_and!; [|done|done]. split.
  - apply sort_by_key_sorted.
  - rewrite Hp. simpl. constructor; [|done]. intros (u & Heq & Hu)%list_elem_of_fmap.
    rewrite Forall_forall in Hne. specialize (Hne _ Hu). specialize (Hnew _ Hu). unfold apart in Hnew. lia.
  - rewrite Hp. by constructor.
  - intros u v. rewrite Hp, !elem_of_cons. intros [->|Hu] [->|Hv]; [by left| | |by apply Hap]; right.
    + specialize (Hnew _ Hv). unfold apart in *. tauto.
    + by apply Hnew.
Qed.

(** ** Regions

    Every area has its region of bytes, and every region its area. *)
Definition region_of (v : GuestVma) (r : GuestMemoryRegion) : Prop :=
  rg_start r = iv_start v ∧ rg_end r = iv_end v ∧ zlen (rg_bytes r) = iv_end v - iv_start v.

Record layout_ok (l : Layout) : Prop := {
  ly_areas : areas_ok l.1;
  ly_start : Forall (λ v, 0 ≤ iv_start v) l.1;
  ly_region : ∀ v, v ∈ l.1 → ∃ r, r ∈ l.2 ∧ region_of v r;
  ly_area : ∀ r, r ∈ l.2 → ∃ v, v ∈ l.1 ∧ region_of v r;
  ly_starts : NoDup (rg_start <$> l.2);
}.

Lemma layout_ok_nil : layout_ok ([], []).
Proof. split; simpl; [apply areas_ok_nil|constructor|..]; try (by intros ? ?%not_elem_of_nil). constructor. Qed.

(** Adding an area with its bytes. *)
Lemma safe_add_region l vma bytes :
  layout_ok l → 0 ≤ iv_start vma → zlen bytes = iv_end vma - iv_start vma → 
  safe (λ l', layout_ok l' ∧ l'.1 ≡ₚ vma :: l.1 ∧ ∃ r, l'.2 = l.2 ++ [r] ∧ region_of vma r ∧ rg_bytes r = bytes)
    (let? vmas := register_vma l.1 vma in
     let? region := region_new (iv_start vma) bytes in Ok (vmas, l.2 ++ [region])).
Proof.
  intros [La Lst Lr Lv Ls] H0 Hlen. eapply safe_bind; [by apply safe_register_vma|]. intros vmas _ (Hok & Hp & Hlt).
  unfold region_new. destruct (checked_add64 (iv_start vma) (zlen bytes)) as [e|] eqn:He; simpl; [|done].
  apply checked_add64_Some in He as [-> _]. set (r := Build_GuestMemoryRegion _ _ _).
  assert (Hr : region_of vma r) by (split_and!; simpl; [done|lia|lia]).
  split; [|split; [done|by exists r]]. split; simpl.
  - done.
  - rewrite Hp. by constructor.
  - intros v. rewrite Hp, elem_of_cons. intros [->|Hv].
    + exists r. split; [apply elem_of_app; right; by left|done].
    + destruct (Lr _ Hv) as (q & Hq & ?). exists q. split; [apply elem_of_app; by left|done].
  - intros q [Hq|Hq%list_elem_of_singleton]%elem_of_app; setoid_rewrite Hp.
    + destruct (Lv _ Hq) as (v & Hv & ?). exists v. split; [by right|done].
    + subst q. exists vma. split; [by left|done].
  - rewrite fmap_app. apply NoDup_app. split_and!; [done| |simpl; apply NoDup_singleton].
    intros x (q & -> & Hq)%list_elem_of_fmap Hx. apply list_elem_of_singleton in Hx.
    destruct (Lv _ Hq) as (v & Hv & Hvs & _). pose proof (ar_starts _ Hok) as Hnd.
    rewrite Hp in Hnd. apply NoDup_cons in Hnd as [Hnin _]. apply Hnin. apply list_elem_of_fmap. exists v.
    split; [|done]. rewrite <- Hvs. symmetry. exact Hx.
Qed.

(** ** Segments *)

(** The bytes of a segment's pages: the file, then zeros. *)
Definition segment_bytes (elf_bytes : list Z) (s : LoadSegment) (bytes : list Z) : Prop :=
  zlen bytes = mm_end (ls_mapping s) - mm_start (ls_mapping s) ∧
  ∀ i, 0 ≤ i < zlen bytes →
    byte_at bytes i = if i <? mm_file_size (ls_mapping s) then byte_at elf_bytes (mm_file_offset (ls_mapping s) + i)
                      else Some 0.

Lemma byte_at_zero n i : 0 ≤ i < n → byte_at (zero_vec n) i = Some 0.
Proof.
  intros Hi. unfold byte_at, zero_vec. destruct (Z.ltb_spec i 0); [lia|]. apply lookup_replicate_2. lia.
Qed.

(** The region of a segment in the layout. *)
Definition holds_segment (elf_bytes : list Z) (bias : Z) (regions : list GuestMemoryRegion) (s : LoadSegment) : Prop :=
  ∃ r, r ∈ regions ∧ rg_start r = mm_start (ls_mapping s) + bias ∧ segment_bytes elf_bytes s (rg_bytes r).

Lemma segment_mapping_bounds file_len s :
  segment_ok file_len s →
  0 ≤ mm_start (ls_mapping s) ≤ mm_end (ls_mapping s) ∧ 0 ≤ mm_file_size (ls_mapping s) ∧
  mm_file_size (ls_mapping s) ≤ mm_end (ls_mapping s) - mm_start (ls_mapping s) ∧
  mm_file_offset (ls_mapping s) + mm_file_size (ls_mapping s) ≤ file_len ∧ mm_end (ls_mapping s) < 2 ^ 64 ∧
  0 ≤ mm_file_offset (ls_mapping s).
Proof.
  intros [A1 A2 A3 A4 A5 [M1 M2 M3 M4 M5 M6 M7 M8]]. unfold is_u64 in *.
  pose proof (Z.mod_pos_bound (ls_virtual_address s) PAGE_SIZE eq_refl).
  assert (ls_virtual_address s mod PAGE_SIZE ≤ ls_virtual_address s) by (apply Z.mod_le; [lia|done]). lia.
Qed.

Lemma safe_place_segment elf_bytes bias kind l s :
  layout_ok l → segment_ok (zlen elf_bytes) s → 0 ≤ bias → 
  safe (λ l', layout_ok l' ∧ (∃ r, l'.2 = l.2 ++ [r]) ∧ holds_segment elf_bytes bias l'.2 s ∧
      ∃ v, l'.1 ≡ₚ v :: l.1 ∧ iv_start v = mm_start (ls_mapping s) + bias ∧ iv_end v = mm_end (ls_mapping s) + bias ∧
        iv_permissions v = ls_permissions s)
    (place_segment elf_bytes bias kind l s).
Proof.
  intros Hl Hs Hbias. destruct (segment_mapping_bounds _ _ Hs) as (B1 & B2 & B3 & B4 & B5 & B6). unfold place_segment, relocated_image_address.
  destruct (checked_add64 (mm_start (ls_mapping s)) bias) as [st|] eqn:Hst; cbn [ok_or obind]; [|done].
  apply checked_add64_Some in Hst as [-> Hst].
  destruct (checked_add64 (mm_end (ls_mapping s)) bias) as [en|] eqn:Hen; cbn [ok_or obind]; [|done].
  apply checked_add64_Some in Hen as [-> Hen]. unfold read_segment_mapping_bytes.
  destruct (checked_add64 (mm_file_offset (ls_mapping s)) (mm_file_size (ls_mapping s))) as [fe|] eqn:Hfe; cbn [ok_or obind]; [|done].
  apply checked_add64_Some in Hfe as [-> _]. destruct (Z.ltb_spec (zlen elf_bytes) (mm_file_offset (ls_mapping s) + mm_file_size (ls_mapping s))); [done|].
  destruct (slice_Some elf_bytes (mm_file_offset (ls_mapping s)) (mm_file_offset (ls_mapping s) + mm_file_size (ls_mapping s))) as [bs Hbs]; [lia|lia|].
  rewrite Hbs. cbn [expect obind]. pose proof (slice_length _ _ _ _ Hbs) as Hbl. unfold mapping_memory_size. rewrite wsub_exact by lia.
  assert (Hz : zlen (zero_vec (mm_end (ls_mapping s) - mm_start (ls_mapping s))) = mm_end (ls_mapping s) - mm_start (ls_mapping s))
    by (apply zlen_zero_vec; lia).
  rewrite copy_into_Ok by lia. cbn [obind]. set (bytes := splice _ 0 bs).
  assert (Hbytes : segment_bytes elf_bytes s bytes).
  { assert (Hlen : zlen bytes = mm_end (ls_mapping s) - mm_start (ls_mapping s)).
    { unfold bytes, zlen. rewrite length_splice; [exact Hz|lia|lia]. }
    split; [done|]. intros i Hi. unfold bytes. rewrite splice_byte by lia.
    destruct (Z.leb_spec 0 i); [|lia]. replace (0 + zlen bs) with (mm_file_size (ls_mapping s)) by lia. simpl.
    destruct (Z.ltb_spec i (mm_file_size (ls_mapping s))).
    - rewrite (slice_byte _ _ _ _ (i - 0) Hbs) by lia. f_equal. lia.
    - apply byte_at_zero. lia. }
  set (vma := Build_GuestVma _ _ _ _).
  change (mm_start (ls_mapping s) + bias) with (iv_start vma) at 1.
  eapply safe_weaken; [apply (safe_add_region l vma bytes Hl)|].
  - simpl. lia.
  - simpl. destruct Hbytes as [-> _]. lia.
  - intros l' (Hl' & Hp & r & Hr & Hreg & Hrb). split_and!; [done|by exists r| |].
    + exists r. rewrite Hr, Hrb. split; [apply elem_of_app; right; by left|]. split; [apply Hreg|done].
    + exists vma. split_and!; [done|done|done|]. simpl. apply (mo_permissions _ (so_mapping _ _ Hs)).
Qed.

(** ** A list of segments *)

(** The area and the region of a placed segment. *)
Definition has_area (vmas : list GuestVma) (bias : Z) (s : LoadSegment) : Prop :=
  ∃ v, v ∈ vmas ∧ iv_start v = mm_start (ls_mapping s) + bias ∧ iv_end v = mm_end (ls_mapping s) + bias ∧
    iv_permissions v = ls_permissions s.

Definition placed_segment (elf_bytes : list Z) (bias : Z) (l : Layout) (s : LoadSegment) : Prop :=
  holds_segment elf_bytes bias l.2 s ∧ has_area l.1 bias s.

(** A layout that keeps what another one has. *)
Definition extends (l l' : Layout) : Prop := (∀ v, v ∈ l.1 → v ∈ l'.1) ∧ ∀ r, r ∈ l.2 → r ∈ l'.2.

Lemma placed_extends elf_bytes bias l l' s : extends l l' → placed_segment elf_bytes bias l s → placed_segment elf_bytes bias l' s.
Proof.
  intros [E1 E2] [(r & Hr & ?) (v & Hv & ?)]. split; [exists r; split; [by apply E2|done]|exists v; split; [by apply E1|done]].
Qed.

Lemma safe_place_segments elf_bytes bias kind segments l :
  layout_ok l → 0 ≤ bias → Forall (segment_ok (zlen elf_bytes)) segments →
  safe (λ l', layout_ok l' ∧ extends l l' ∧ Forall (placed_segment elf_bytes bias l') segments)
    (try_fold (place_segment elf_bytes bias kind) l segments).
Proof.
  intros Hl Hbias Hall. revert l Hl. induction Hall as [|s segments Hs _ IH]; intros l Hl; simpl.
  - split_and!; [done|by split|constructor].
  - eapply safe_bind; [by apply safe_place_segment|]. intros l1 _ (Hl1 & (r & Hr) & Hh & v & Hv & Hvs & Hve & Hvp).
    assert (Hext : extends l l1).
    { split; [intros u Hu; rewrite Hv; by right|intros u Hu; rewrite Hr; apply elem_of_app; by left]. }
    eapply safe_weaken; [by apply IH|]. intros l2 (Hl2 & [E1 E2] & Hf). split_and!; [done| |].
    + destruct Hext as [X1 X2]. split; auto.
    + constructor; [|done]. apply (placed_extends _ _ l1); [by split|]. split; [done|]. exists v.
      rewrite Hv. split; [by left|done].
Qed.

Lemma safe_load_interpreter path plan bytes bias l :
  layout_ok l → 0 ≤ bias → Forall (segment_ok (zlen bytes)) (lp_segments plan) →
  safe (λ r, layout_ok r.2 ∧ extends l r.2 ∧ Forall (placed_segment bytes bias r.2) (lp_segments plan) ∧
      li_load_bias r.1 = bias ∧ li_entrypoint r.1 = lp_entrypoint plan + bias ∧ lp_interpreter plan = None)
    (load_interpreter_image path plan bytes bias l).
Proof.
  intros Hl Hb Hseg. unfold load_interpreter_image. destruct (lp_interpreter plan); [done|].
  eapply safe_bind; [by apply safe_place_segments|]. intros l' _ (H1 & H2 & H3). unfold relocated_image_address.
  destruct (checked_add64 (lp_entrypoint plan) bias) as [e|] eqn:He; cbn [ok_or obind]; [|done].
  apply checked_add64_Some in He as [-> _].
  eapply (safe_bind (λ _, True)).
  { destruct (pt_virtual_address _) as [a|]; [|done]. by destruct (checked_add64 a bias). }
  intros va _ _. done.
Qed.

(** ** The stack *)
Definition holds_stack (s : InitialStack) (regions : list GuestMemoryRegion) : Prop :=
  ∃ r, r ∈ regions ∧ rg_start r = is_stack_top s - is_stack_size s ∧ rg_end r = is_stack_top s ∧
    ∀ i, 0 ≤ i < zlen (is_bytes s) → byte_at (rg_bytes r) (is_stack_pointer s - rg_start r + i) = byte_at (is_bytes s) i.

Lemma safe_place_stack plan config s l :
  layout_ok l → config_ok config → stack_ok plan config s →
  safe (λ l', layout_ok l' ∧ extends l l' ∧ holds_stack s l'.2) (place_stack s l).
Proof.
  intros Hl Hc Hs. destruct (sk_top _ _ _ Hs) as [Htop Hsize]. destruct (sk_range _ _ _ Hs) as [Hr1 Hr2].
  pose proof (sk_length _ _ _ Hs) as Hlen. pose proof (co_top _ Hc) as Ht. pose proof (co_size _ Hc) as Hz.
  unfold is_u64 in *. unfold place_stack, stack_base. rewrite (wsub_exact (is_stack_top s)) by lia. rewrite wsub_exact by lia.
  rewrite checked_add64_fit by lia. cbn [ok_or obind].
  pose proof (zlen_nonneg (is_bytes s)) as Hnn.
  assert (Hzero : zlen (zero_vec (is_stack_size s)) = is_stack_size s) by (apply zlen_zero_vec; lia).
  rewrite copy_into_Ok by lia. cbn [obind]. set (bytes := splice _ _ _).
  assert (Hbl : zlen bytes = is_stack_size s).
  { unfold bytes, zlen. rewrite length_splice; [exact Hzero|lia|lia]. }
  set (vma := Build_GuestVma _ _ _ _). change (is_stack_top s - is_stack_size s) with (iv_start vma).
  eapply safe_weaken; [apply (safe_add_region l vma bytes Hl)|].
  - simpl. lia.
  - simpl. lia.
  - intros l' (Hl' & Hp & r & Hr & (Hrs & Hre & _) & Hrb). split_and!; [done| |].
    + split; [intros v Hv; rewrite Hp; by right|intros v Hv; rewrite Hr; apply elem_of_app; by left].
    + exists r. rewrite Hr. split; [apply elem_of_app; right; by left|]. split; [done|]. split; [done|].
      intros i Hi. rewrite Hrs, Hrb. simpl. unfold bytes. rewrite splice_byte by lia.
      destruct (Z.leb_spec (is_stack_pointer s - (is_stack_top s - is_stack_size s))
        (is_stack_pointer s - (is_stack_top s - is_stack_size s) + i)),
        (Z.ltb_spec (is_stack_pointer s - (is_stack_top s - is_stack_size s) + i)
          (is_stack_pointer s - (is_stack_top s - is_stack_size s) + zlen (is_bytes s))); simpl; try lia.
      f_equal. lia.
Qed.

(** ** The image *)
Record image_ok (plan : LoadPlan) (elf_bytes : list Z) (image : GuestMemoryImage) : Prop := {
  ig_layout : layout_ok (im_vmas image, im_regions image);
  ig_sorted : sorted_by_key rg_start (im_regions image);
  ig_segments : Forall (placed_segment elf_bytes (im_executable_load_bias image) (im_vmas image, im_regions image)) (lp_segments plan);
  ig_stack : holds_stack (im_initial_stack image) (im_regions image);
  ig_bias : im_executable_load_bias image = executable_load_bias plan;
  ig_pointer : im_initial_stack_pointer image = is_stack_pointer (im_initial_stack image);
  ig_entry : im_entrypoint image =
    match im_interpreter image with
    | Some interpreter => li_entrypoint interpreter
    | None => lp_entrypoint plan + executable_load_bias plan
    end;
  ig_interpreter : is_Some (im_interpreter image) ↔ is_Some (lp_interpreter plan);
  ig_brk : ∀ s, s ∈ lp_segments plan → mm_end (ls_mapping s) + executable_load_bias plan ≤ im_brk image;
}.

Lemma bias_nonneg plan : 0 ≤ executable_load_bias plan.
Proof. unfold executable_load_bias. destruct (lp_object_type plan); [done|]. by destruct (lp_interpreter plan). Qed.

Lemma layout_perm vmas regions regions' : regions ≡ₚ regions' → layout_ok (vmas, regions) → layout_ok (vmas, regions').
Proof.
  intros Hp [H1 H2 H3 H4 H5]. split; simpl in *; try done.
  - intros v Hv. destruct (H3 v Hv) as (r & Hr & ?). exists r. by rewrite <- Hp.
  - intros r. rewrite <- Hp. apply H4.
  - by rewrite <- Hp.
Qed.

Lemma max_fold_spec l x : x ∈ l → x ≤ foldr Z.max 0 l.
Proof. induction l as [|y l IH]; simpl; [by intros ?%not_elem_of_nil|]. intros [->|Hx%IH]%elem_of_cons; lia. Qed.

Lemma collect_Ok {A B E} (f : A → outcome B E) l ys :
  collect f l = Ok ys → ∀ x, x ∈ l → ∃ y, f x = Ok y ∧ y ∈ ys.
Proof.
  revert ys. induction l as [|a l IH]; intros ys; simpl; [by intros _ x ?%not_elem_of_nil|].
  destruct (f a) as [y|e|] eqn:Hf; simpl; [|done|done]. destruct (collect f l) as [ys'|e|]; simpl; [|done|done].
  intros [= <-] x [->|Hx]%elem_of_cons; [exists y; split; [done|by left]|].
  destruct (IH _ eq_refl _ Hx) as (z & ? & ?). exists z. split; [done|by right].
Qed.

Lemma plan_table_ok bytes plan : plan_ok bytes plan → table_ok plan.
Proof.
  intros Hp. split; [apply Hp|apply Hp| |apply Hp]. intros a Ha. apply (pk_phdr _ _ Hp _ Ha).
Qed.

(** The executable and its interpreter in the layout. *)
Definition loaded_ok (plan : LoadPlan) (r : option LoadedInterpreter * Layout) : Prop :=
  layout_ok r.2 ∧ is_u64 (from_option li_load_bias 0 r.1) ∧ (is_Some r.1 ↔ is_Some (lp_interpreter plan)).

Lemma safe_load_program_interpreter plan interpreter_bytes :
  match interpreter_bytes with Some bytes => Forall is_byte bytes | None => True end →
  safe (loaded_ok plan)
    match lp_interpreter plan with
    | None => Ok (None, ([], []))
    | Some path =>
        let? interpreter_bytes := ok_or interpreter_bytes MissingInterpreterBytes in
        let? interpreter_plan := map_err InterpreterError (parse_load_plan interpreter_bytes) in
        let? (loaded, l) := load_interpreter_image path interpreter_plan interpreter_bytes
                              DEFAULT_INTERPRETER_LOAD_BASE ([], []) in
        Ok (Some loaded, l)
    end.
Proof.
  intros Hb. destruct (lp_interpreter plan) as [path|] eqn:Hp.
  - destruct interpreter_bytes as [bytes|]; simpl; [|done].
    eapply safe_bind; [by apply safe_map_err, safe_parse_load_plan|]. intros iplan _ Hplan.
    eapply safe_bind; [apply safe_load_interpreter; [apply layout_ok_nil|done|apply Hplan]|].
    intros [loaded l] _ (Hl & _ & _ & Hbias & _). cbn [fst snd] in *. split; [done|].
    cbn [fst snd from_option]. rewrite Hbias, Hp. split; [done|]. split; eauto.
  - split; [apply layout_ok_nil|]. split; [done|]. cbn [fst]. rewrite Hp. by split; intros [? ?].
Qed.

Lemma safe_build_image plan elf_bytes interpreter_bytes config :
  Forall is_byte elf_bytes → match interpreter_bytes with Some bytes => Forall is_byte bytes | None => True end →
  plan_ok elf_bytes plan → is_u64 (sc_stack_top config) → is_u64 (sc_stack_size config) →
  zlen (sc_random_bytes config) = AT_RANDOM_BYTES →
  safe (λ image, image_ok plan elf_bytes image ∧ ∃ config', stack_ok plan config' (im_initial_stack image) ∧
      sc_argv config' = sc_argv config ∧ sc_envp config' = sc_envp config ∧ sc_stack_top config' = sc_stack_top config ∧
      sc_executable_load_bias config' = executable_load_bias plan)
    (build_guest_memory_image_with_interpreter plan elf_bytes interpreter_bytes config).
Proof.
  intros Hb Hib Hplan Htop Hsize Hrandom. unfold build_guest_memory_image_with_interpreter.
  pose proof (bias_nonneg plan) as Hbias.
  eapply safe_bind; [by apply safe_load_program_interpreter|]. intros [interp l0] _ (Hl0 & Hbase & Hsome). cbn [fst snd] in *.
  eapply safe_bind; [apply safe_place_segments; [done|done|apply Hplan]|]. intros l1 _ (Hl1 & _ & Hseg).
  set (config' := with_interpreter_base _ _).
  assert (Hc : config_ok config') by (by split).
  eapply safe_bind; [apply safe_map_err, (safe_build_initial_stack plan config' Hc); [by eapply plan_table_ok|done]|].
  intros stack _ Hstack.
  eapply safe_bind; [by eapply safe_place_stack|]. intros l2 _ (Hl2 & Hext & Hst).
  unfold relocated_image_address.
  destruct (checked_add64 (lp_entrypoint plan) _) as [en|] eqn:Hen; cbn [ok_or obind]; [|done].
  apply checked_add64_Some in Hen as [-> _].
  destruct (collect _ (lp_segments plan)) as [ends|e|] eqn:Hends; cbn [obind]; [|done|].
  2: { exfalso. clear -Hends. revert Hends. induction (lp_segments plan) as [|s ss IH]; simpl; [done|].
       destruct (checked_add64 _ _); simpl; [|done]. destruct (collect _ ss); simpl; [done|done|by intros; apply IH]. }
  split; [|exists config'; done].
  assert (Hperm : l2.2 ≡ₚ sort_by_key rg_start l2.2) by (symmetry; apply sort_by_key_perm).
  destruct l2 as [vmas regions]. cbn [fst snd] in *. split; cbn [im_vmas im_regions im_initial_stack
    im_executable_load_bias im_initial_stack_pointer im_entrypoint im_interpreter im_brk]; try done.
  - by apply (layout_perm _ regions).
  - apply sort_by_key_sorted.
  - eapply Forall_impl; [exact Hseg|]. intros s Hs. apply (placed_extends _ _ l1); [|done].
    destruct Hext as [E1 E2]. split; [done|]. cbn [snd]. intros r Hr. rewrite <- Hperm. by apply E2.
  - destruct Hst as (r & Hr & ?). exists r. rewrite <- Hperm. done.
  - intros s Hs. destruct (collect_Ok _ _ _ Hends s Hs) as (y & Hy & Hin).
    destruct (checked_add64 _ _) as [z|] eqn:Hz; simpl in Hy; [|done]. injection Hy as <-.
    apply checked_add64_Some in Hz as [-> _]. by apply max_fold_spec.
Qed.

(** ** Reading the image *)
Lemma same_region vmas regions r r' a :
  layout_ok (vmas, regions) → r ∈ regions → r' ∈ regions →
  rg_start r ≤ a < rg_end r → rg_start r' ≤ a < rg_end r' → r = r'.
Proof.
  intros [Ha _ _ Hv Hnd] Hr Hr' Hin Hin'. cbn [fst snd] in *.
  destruct (Hv r Hr) as (v & Hvin & E1 & E2 & _), (Hv r' Hr') as (v' & Hvin' & E1' & E2' & _).
  assert (v = v') as <-.
  { destruct (ar_apart _ Ha v v' Hvin Hvin') as [|[?|?]]; [done|lia|lia]. }
  apply list_elem_of_lookup in Hr as [i Hi], Hr' as [j Hj].
  assert (i = j) as <-; [|by simplify_eq]. eapply NoDup_lookup; [exact Hnd|rewrite list_lookup_fmap, Hi; done|].
  rewrite list_lookup_fmap, Hj. simpl. f_equal. lia.
Qed.

(** [image_read] returns the bytes of the region that holds the range. *)
Lemma image_read_spec plan elf_bytes image r address len :
  image_ok plan elf_bytes image → r ∈ im_regions image → 0 < len → rg_start r ≤ address → address + len ≤ rg_end r →
  rg_end r < 2 ^ 64 →
  image_read image address len = expect (slice (rg_bytes r) (address - rg_start r) (address - rg_start r + len)) ∧
  is_Some (slice (rg_bytes r) (address - rg_start r) (address - rg_start r + len)).
Proof.
  intros Hok Hr Hlen Hs He Hu. pose proof (ig_layout _ _ _ Hok) as Hl.
  destruct (ly_area _ Hl r Hr) as (v & Hv & E1 & E2 & E3).
  pose proof (ly_start _ Hl) as Hst. rewrite Forall_forall in Hst. specialize (Hst _ Hv). simpl in Hst.
  split; [|apply slice_Some; lia]. unfold image_read. rewrite checked_add64_fit by lia. cbn [ok_or obind].
  destruct (List.find _ (im_regions image)) as [r'|] eqn:Hf.
  - apply List.find_some in Hf as [Hr' [Ha%Z.leb_le Hb%Z.leb_le]%andb_true_iff].
    apply list_elem_of_In in Hr'.
    assert (r' = r) as -> by (apply (same_region _ _ _ _ address Hl Hr' Hr); lia).
    cbn [ok_or obind]. rewrite checked_add64_fit by lia. done.
  - exfalso. apply (List.find_none _ _ Hf) in Hr as Hno || (apply list_elem_of_In in Hr; pose proof (List.find_none _ _ Hf _ Hr) as Hno).
    cbv beta in Hno. apply andb_false_iff in Hno as [?%Z.leb_gt|?%Z.leb_gt]; lia.
Qed.

(** A byte of a segment, at its run-time address. *)
Lemma image_segment_byte plan elf_bytes image s j :
  plan_ok elf_bytes plan → image_ok plan elf_bytes image → s ∈ lp_segments plan → 0 ≤ j < ls_memory_size s →
  ls_virtual_address s + ls_memory_size s + executable_load_bias plan + PAGE_SIZE ≤ 2 ^ 64 →
  ∃ b, image_read image (ls_virtual_address s + executable_load_bias plan + j) 1 = Ok [b] ∧
    if j <? ls_file_size s then byte_at elf_bytes (ls_file_offset s + j) = Some b else b = 0.
Proof.
  intros Hplan Hok Hs Hj Hfit. pose proof (pk_segments _ _ Hplan) as Hseg. rewrite Forall_forall in Hseg.
  specialize (Hseg _ Hs). pose proof (segment_mapping_bounds _ _ Hseg) as (B1 & B2 & B3 & B4 & B5 & B6).
  destruct (so_mapping _ _ Hseg) as [M1 M2 M3 M4 M5 M6 M7 M8]. destruct (so_sizes _ _ Hseg) as [S1 S2].
  pose proof (Z.mod_pos_bound (ls_virtual_address s) PAGE_SIZE eq_refl) as Hpo.
  pose proof (ig_segments _ _ _ Hok) as Hps. rewrite Forall_forall in Hps.
  destruct (Hps _ Hs) as [(r & Hr & Hrs & Hrl & Hrb) _]. rewrite (ig_bias _ _ _ Hok) in Hrs. cbn [snd] in Hr.
  destruct (ly_area _ (ig_layout _ _ _ Hok) r Hr) as (v & _ & E1 & E2 & E3).
  set (i := ls_virtual_address s mod PAGE_SIZE + j).
  destruct (image_read_spec plan elf_bytes image r (ls_virtual_address s + executable_load_bias plan + j) 1) as [Hread [bs Hbs]];
    [done|done|lia|lia|lia|lia|].
  rewrite Hread, Hbs. cbn [expect]. pose proof (slice_length _ _ _ _ Hbs) as Hl.
  pose proof (slice_byte _ _ _ _ 0 Hbs ltac:(lia)) as Hb0. unfold zlen in Hl.
  destruct bs as [|b [|b' bs]]; [simpl in Hl; lia| |simpl in Hl; lia]. exists b. split; [done|].
  change (byte_at [b] 0) with (Some b) in Hb0.
  replace (ls_virtual_address s + executable_load_bias plan + j - rg_start r + 0) with i in Hb0 by (unfold i; lia).
  rewrite (Hrb i) in Hb0 by (unfold i; lia). rewrite M7, M5 in Hb0.
  destruct (Z.ltb_spec i (ls_file_size s + ls_virtual_address s mod PAGE_SIZE)), (Z.ltb_spec j (ls_file_size s));
    unfold i in *; try lia.
  - rewrite Hb0. f_equal. lia.
  - by injection Hb0 as <-.
Qed.
