(* ===== verification/ElfTheorems.v ===== *)
(** * mcr-elf: the properties

    What the loader promises, with a small executable as the witness. *)

From S2P Require Import Prelude Bytes ElfParser ElfImage ElfPlan ElfLayout.
From stdpp Require Import base list sorting.
From Stdlib Require Import ZArith Lia Sorting.Sorted.
Open Scope Z_scope.

(** ** A small executable *)
Definition sample_header (entrypoint count : Z) : list Z :=
  ELF_MAGIC ++ [2; 1; 1] ++ zero_vec 9 ++ le_bytes 2 ET_EXEC ++ le_bytes 2 EM_X86_64 ++ le_bytes 4 1 ++
  le_bytes 8 entrypoint ++ le_bytes 8 64 ++ zero_vec 12 ++ le_bytes 2 64 ++ le_bytes 2 56 ++ le_bytes 2 count ++ zero_vec 6.

Definition sample_load (flags offset address file_size memory_size : Z) : list Z :=
  le_bytes 4 PT_LOAD ++ le_bytes 4 flags ++ le_bytes 8 offset ++ le_bytes 8 address ++ le_bytes 8 address ++
  le_bytes 8 file_size ++ le_bytes 8 memory_size ++ le_bytes 8 1.

(** One segment that holds the whole file and 100 bytes more; two bytes of code at the end. *)
Definition sample_elf : list Z :=
  sample_header 0x400078 1 ++ sample_load 5 0 0x400000 122 222 ++ [0x0f; 0x05].

Lemma bytes_checked l : forallb (λ b, (0 <=? b) && (b <? 256)) l = true → Forall is_byte l.
Proof.
  intros H. apply Forall_forall. intros b Hb%list_elem_of_In. rewrite forallb_forall in H. specialize (H b Hb). bprop.
  split; done.
Qed.

Lemma sample_bytes : Forall is_byte sample_elf.
Proof. apply bytes_checked. by vm_compute. Qed.

Definition plan_of (o : outcome LoadPlan ElfValidationError) : LoadPlan :=
  match o with
  | Ok plan => plan
  | _ => {| lp_object_type := Executable; lp_entrypoint := 0;
            lp_program_headers := {| pt_file_offset := 0; pt_entry_size := 0; pt_entry_count := 0; pt_virtual_address := None |};
            lp_interpreter := None; lp_segments := [] |}
  end.

Definition sample_plan : LoadPlan := Eval vm_compute in plan_of (parse_load_plan sample_elf).

Definition sample_config : InitialStackConfig :=
  with_argv [[97; 98]; [99]] (stack_config_new 0x100200000 4096 [47; 97]).

Lemma sample_parse : parse_load_plan sample_elf = Ok sample_plan.
Proof. vm_compute. reflexivity. Qed.

(** ** Properties *)

(** C37. On every list of bytes [parse_load_plan] returns a plan or an error, never panics; and a
    plan says what the file says.  Its entry point and its table are the words of the file
    header, the table lies in the file, and the segments are one for each of its [e_phnum]
    entries of type PT_LOAD, with the offset, address, sizes, alignment and permissions in the
    56 bytes of the entry, put in address order; the interpreter is the path of the only
    PT_INTERP entry, and the address of the table is that of the last PT_PHDR entry or of the
    segment that holds the table.  Each segment is within the file, with a page-aligned mapping
    that covers it, the entry point lies in an executable segment, and neighbouring segments
    with bytes do not overlap. *)
Theorem parse_load_plan_sound bytes :
  Forall is_byte bytes →
  match parse_load_plan bytes with
  | Ok plan => plan_ok bytes plan
  | Err _ => True
  | Panic => False
  end.
Proof. apply safe_parse_load_plan. Qed.

Lemma parse_load_plan_sound_witness :
  parse_load_plan sample_elf = Ok sample_plan ∧ length (lp_segments sample_plan) = 1%nat ∧ plan_ok sample_elf sample_plan.
Proof.
  split; [exact sample_parse|]. split; [reflexivity|].
  pose proof (parse_load_plan_sound sample_elf sample_bytes) as H. rewrite sample_parse in H. exact H.
Defined.

(** Without empty segments, neighbours suffice. *)
Lemma neighbours_pairwise file_len segments :
  sorted_by_key ls_virtual_address segments → Forall (segment_ok file_len) segments →
  Forall (λ s, ls_memory_size s ≠ 0) segments → neighbours_disjoint segments →
  StronglySorted (λ s1 s2, ls_virtual_address s1 + ls_memory_size s1 ≤ ls_virtual_address s2) segments.
Proof.
  intros Hs Hok Hne Hn. induction Hs as [|s1 segments Hs IH Hall]; [constructor|].
  apply Forall_cons in Hok as [Hok1 Hok], Hne as [Hne1 Hne]. constructor.
  - apply IH; [done|done|]. intros i. apply (Hn (S i)).
  - destruct segments as [|s2 segments]; [constructor|].
    pose proof (Hn 0%nat s1 s2 eq_refl eq_refl Hne1) as H12. apply Forall_cons in Hne as [Hne2 _].
    specialize (H12 Hne2). constructor; [done|].
    apply StronglySorted_inv in Hs as [_ Hall2]. eapply Forall_impl; [exact Hall2|]. intros s3. simpl. lia.
Qed.

(** When no segment is empty, the check of [validate_non_overlapping_segments] on
    neighbours accepts the sorted segments exactly when they are pairwise disjoint. *)
Theorem overlap_check_complete file_len segments :
  sorted_by_key ls_virtual_address segments → Forall (segment_ok file_len) segments →
  Forall (λ s, ls_memory_size s ≠ 0) segments →
  validate_non_overlapping_segments segments = Ok tt ↔
  StronglySorted (λ s1 s2, ls_virtual_address s1 + ls_memory_size s1 ≤ ls_virtual_address s2) segments.
Proof.
  intros Hs Hok Hne. rewrite (validate_non_overlapping_spec file_len) by done. split.
  - by apply (neighbours_pairwise file_len).
  - intros Hp i s1 s2 H1 H2 _ _. revert i H1 H2. induction Hp as [|s segments' _ IH Hall]; intros [|i]; simpl; try done.
    + intros [= ->] H2. rewrite Forall_forall in Hall. apply Hall. by eapply list_elem_of_lookup_2.
    + apply StronglySorted_inv in Hs as [Hs _]. apply Forall_cons in Hok as [_ Hok], Hne as [_ Hne]. by apply IH.
Qed.

Lemma overlap_check_complete_witness :
  validate_non_overlapping_segments (lp_segments sample_plan) = Ok tt ↔
  StronglySorted (λ s1 s2, ls_virtual_address s1 + ls_memory_size s1 ≤ ls_virtual_address s2) (lp_segments sample_plan).
Proof.
  apply (overlap_check_complete 122).
  - repeat constructor.
  - pose proof (safe_parse_load_plan sample_elf sample_bytes) as H. rewrite sample_parse in H. apply (pk_segments _ _ H).
  - repeat constructor; vm_compute; discriminate.
Defined.

(** Two overlapping segments with an empty one between them. *)
Definition hidden_overlap_elf : list Z :=
  sample_header 0x400000 3 ++ sample_load 5 0 0x400000 8 0x3000 ++ sample_load 4 0 0x401000 0 0 ++
  sample_load 6 0 0x402000 8 0x3000.

(** An empty segment between two overlapping ones hides the overlap: the file is accepted
    although two of its segments claim the same addresses. *)
Theorem empty_segment_hides_overlap :
  ∃ plan s1 s2, parse_load_plan hidden_overlap_elf = Ok plan ∧ lp_segments plan !! 0%nat = Some s1 ∧
    lp_segments plan !! 2%nat = Some s2 ∧ ls_memory_size s1 ≠ 0 ∧ ls_memory_size s2 ≠ 0 ∧
    ls_virtual_address s2 < ls_virtual_address s1 + ls_memory_size s1.
Proof.
  eexists _, _, _. split; [vm_compute; reflexivity|]. split; [reflexivity|]. split; [reflexivity|].
  split_and!; by vm_compute.
Qed.

(** C34. [build_initial_stack] never panics; the stack it returns is 16-byte aligned and inside
    its area, starts with argc, the argument pointers, the environment pointers and the
    auxiliary vector, every pointer leads to its NUL-terminated string, and the auxiliary
    vector carries the program headers, the entry point and the random bytes. *)
Theorem initial_stack_layout plan config :
  config_ok config → table_ok plan → 0 ≤ sc_executable_load_bias config →
  match build_initial_stack plan config with
  | Ok s => stack_ok plan config s
  | Err _ => True
  | Panic => False
  end.
Proof. apply safe_build_initial_stack. Qed.

Lemma initial_stack_layout_witness :
  match build_initial_stack sample_plan sample_config with
  | Ok s => stack_ok sample_plan sample_config s
  | Err _ => True
  | Panic => False
  end.
Proof.
  apply (initial_stack_layout sample_plan sample_config).
  - split; by vm_compute.
  - split; try (by vm_compute). intros a. vm_compute. intros [= <-]. done.
  - by vm_compute.
Defined.

(** Building the image of a parsed file never panics, and the areas of an image are sorted
    and pairwise disjoint, each backed by a region of its size: every segment has an area with
    its permissions, the stack has its area, and brk is above every segment. *)
Theorem image_well_formed plan elf_bytes interpreter_bytes config :
  Forall is_byte elf_bytes → match interpreter_bytes with Some bytes => Forall is_byte bytes | None => True end →
  parse_load_plan elf_bytes = Ok plan → config_ok config →
  match build_guest_memory_image_with_interpreter plan elf_bytes interpreter_bytes config with
  | Ok image => image_ok plan elf_bytes image ∧
      StronglySorted (λ u v, iv_end u ≤ iv_start v) (im_vmas image) ∧
      (∀ s, s ∈ lp_segments plan → has_area (im_vmas image) (executable_load_bias plan) s)
  | Err _ => True
  | Panic => False
  end.
Proof.
  intros Hb Hib Hparse Hc.
  pose proof (safe_Ok _ _ _ (safe_parse_load_plan elf_bytes Hb) Hparse) as Hplan.
  pose proof (safe_build_image plan elf_bytes interpreter_bytes config Hb Hib Hplan (co_top _ Hc) (co_size _ Hc) (co_random _ Hc)) as H.
  destruct (build_guest_memory_image_with_interpreter _ _ _ _) as [image|e|]; [|done|done].
  destruct H as [Hok _]. split; [done|]. split; [apply areas_sorted, Hok|].
  intros s Hs. pose proof (ig_segments _ _ _ Hok) as Hseg. rewrite Forall_forall in Hseg.
  destruct (Hseg _ Hs) as [_ Ha]. by rewrite (ig_bias _ _ _ Hok) in Ha.
Qed.

Lemma image_well_formed_witness :
  match build_guest_memory_image_with_interpreter sample_plan sample_elf None sample_config with
  | Ok image => image_ok sample_plan sample_elf image ∧
      StronglySorted (λ u v, iv_end u ≤ iv_start v) (im_vmas image) ∧
      (∀ s, s ∈ lp_segments sample_plan → has_area (im_vmas image) (executable_load_bias sample_plan) s)
  | Err _ => True
  | Panic => False
  end.
Proof.
  apply (image_well_formed sample_plan sample_elf None sample_config); [exact sample_bytes|done|exact sample_parse|].
  split; by vm_compute.
Defined.

(** C20. What the program sees: reading a byte of a segment at its run-time address gives the
    byte of the file, and zero past the file part of the segment. *)
Theorem image_holds_file plan elf_bytes interpreter_bytes config image s j :
  Forall is_byte elf_bytes → match interpreter_bytes with Some bytes => Forall is_byte bytes | None => True end →
  parse_load_plan elf_bytes = Ok plan → config_ok config →
  build_guest_memory_image_with_interpreter plan elf_bytes interpreter_bytes config = Ok image →
  s ∈ lp_segments plan → 0 ≤ j < ls_memory_size s →
  ls_virtual_address s + ls_memory_size s + executable_load_bias plan + PAGE_SIZE ≤ 2 ^ 64 →
  ∃ b, image_read image (ls_virtual_address s + executable_load_bias plan + j) 1 = Ok [b] ∧
    if j <? ls_file_size s then byte_at elf_bytes (ls_file_offset s + j) = Some b else b = 0.
Proof.
  intros Hb Hib Hparse Hc Hbuild Hs Hj Hfit.
  pose proof (safe_Ok _ _ _ (safe_parse_load_plan elf_bytes Hb) Hparse) as Hplan.
  pose proof (safe_Ok _ _ _ (safe_build_image plan elf_bytes interpreter_bytes config Hb Hib Hplan (co_top _ Hc) (co_size _ Hc) (co_random _ Hc)) Hbuild)
    as [Hok _].
  by apply (image_segment_byte plan).
Qed.

Definition sample_segment : LoadSegment :=
  Eval vm_compute in
    match lp_segments sample_plan with
    | s :: _ => s
    | [] => {| ls_program_header_index := 0; ls_file_offset := 0; ls_virtual_address := 0; ls_file_size := 0;
               ls_memory_size := 0; ls_alignment := 0;
               ls_permissions := {| sp_read := false; sp_write := false; sp_execute := false |};
               ls_mapping := {| mm_start := 0; mm_end := 0; mm_file_offset := 0; mm_file_size := 0;
                 mm_permissions := {| sp_read := false; sp_write := false; sp_execute := false |} |} |}
    end.

Lemma sample_segment_in : sample_segment ∈ lp_segments sample_plan.
Proof. by left. Qed.

Lemma sample_config_ok : config_ok sample_config.
Proof. split; by vm_compute. Qed.

Lemma sample_builds : is_ok (build_guest_memory_image_with_interpreter sample_plan sample_elf None sample_config) = true.
Proof. vm_compute. reflexivity. Qed.

Lemma is_ok_ex {A E} (o : outcome A E) : is_ok o = true → ∃ a, o = Ok a.
Proof. destruct o; [eauto|done|done]. Qed.

Lemma image_holds_file_witness :
  ∃ image b, build_guest_memory_image_with_interpreter sample_plan sample_elf None sample_config = Ok image ∧
    image_read image (ls_virtual_address sample_segment + executable_load_bias sample_plan + 121) 1 = Ok [b] ∧
    byte_at sample_elf (ls_file_offset sample_segment + 121) = Some b.
Proof.
  destruct (is_ok_ex _ sample_builds) as [image Hb].
  assert (Hj : 0 ≤ 121 < ls_memory_size sample_segment) by (split; [discriminate|reflexivity]).
  assert (Hfit : ls_virtual_address sample_segment + ls_memory_size sample_segment + executable_load_bias sample_plan + PAGE_SIZE ≤ 2 ^ 64)
    by (vm_compute; discriminate).
  pose proof (image_holds_file sample_plan sample_elf None sample_config image sample_segment 121
                sample_bytes I sample_parse sample_config_ok Hb sample_segment_in Hj Hfit) as H.
  change (121 <? ls_file_size sample_segment) with true in H. cbv iota in H.
  destruct H as (b & Hread & Hbyte). exists image, b. split; [exact Hb|]. split; [exact Hread|exact Hbyte].
Defined.
