(* ===== verification/ImageMemory.v ===== *)
(** * mcr-memory: the memory of a program

    [GuestMemory::from_image] (mcr-memory lib.rs): an empty memory, then one mapping for every
    area of the image of mcr-elf, with the bytes of the area's region.  [from_image_spec]: the
    memory shows exactly the image, and every other owner of the host's blocks is left alone.
    [drop_guest_memory] is the drop of a memory. *)

From S2P Require Import Prelude HostMemory GuestMemory GuestMemoryOps GuestVmas GuestMemoryInv GuestMemoryHost GuestMemorySteps GuestMemoryAccess GuestMemoryMmap GuestMemoryFork GuestMemorySystem Bytes ElfParser ElfImage ElfPlan ElfLayout.
From stdpp Require Import base gmap list.
From Stdlib Require Import ZArith Lia.
Open Scope Z_scope.

(** The drop of a memory: each allocation gives up its block. *)
Definition drop_guest_memory (m : GuestMemory.GuestMemory) (h : HostHeap) : HostHeap :=
  hh_set_blocks (λ bs, foldr (λ x bs, drop_ref (a_memory x.2) bs) bs (bt_iter (gm_allocations m))) h.

Definition from_segment (p : SegmentPermissions) : GuestMemoryProtection :=
  {| p_read := sp_read p; p_write := sp_write p; p_execute := sp_execute p |}.

(** The region of an area. *)
Definition find_region (vma : ElfImage.GuestVma) (regions : list GuestMemoryRegion) : option GuestMemoryRegion :=
  List.find (λ r, (rg_start r =? iv_start vma) && (rg_end r =? iv_end vma)) regions.

Section image.
Context {OS : HostOs}.

Definition load_area (regions : list GuestMemoryRegion) (vma : ElfImage.GuestVma) : MemM unit :=
  let* region := lift (ok_or (find_region vma regions) InvalidAddress) in
  let* length := lift (ok_or (checked_sub64 (iv_end vma) (iv_start vma)) InvalidAddress) in
  insert_loaded_mapping (iv_start vma) length (from_segment (iv_permissions vma)) (rg_bytes region).

(** A failure drops what was built. *)
Definition from_image (image : ElfImage.GuestMemoryImage) (h : HostHeap)
    : outcome GuestMemory.GuestMemory GuestMemoryError * HostHeap :=
  match (let? initial_brk := GuestMemory.align_up (Z.max (im_brk image) MIN_GUEST_ADDRESS) in memory_new initial_brk) with
  | Ok memory =>
      match foreach (im_vmas image) (load_area (im_regions image)) {| w_host := h; w_mem := memory |} with
      | (Ok _, w) => (Ok (w_mem w), w_host w)
      | (Err e, w) => (Err e, drop_guest_memory (w_mem w) (w_host w))
      | (Panic, w) => (Panic, w_host w)
      end
  | Err e => (Err e, h)
  | Panic => (Panic, h)
  end.

(** ** What the memory of an image shows *)
Definition image_cell (vmas : list ElfImage.GuestVma) (regions : list GuestMemoryRegion) (a : Z) : option Cell :=
  vma ← List.find (λ v, (iv_start v <=? a) && (a <? iv_end v)) vmas;
  region ← find_region vma regions;
  b ← byte_at (rg_bytes region) (a - iv_start vma);
  Some {| c_protection := from_segment (iv_permissions vma); c_kind := GuestMemory.Anonymous; c_byte := b |}.

(** Areas of whole pages, apart from each other, each with its region. *)
Definition loadable (vmas : list ElfImage.GuestVma) (regions : list GuestMemoryRegion) : Prop :=
  Forall (λ v, 0 ≤ iv_start v < iv_end v ∧ aligned (iv_end v - iv_start v) ∧
               ∀ r, find_region v regions = Some r → zlen (rg_bytes r) = iv_end v - iv_start v) vmas ∧
  ∀ u v a, u ∈ vmas → v ∈ vmas → iv_start u ≤ a < iv_end u → iv_start v ≤ a < iv_end v → u = v.

Context {OL : HostOsLaws OS}.

Lemma wp_load_area regions v w :
  world_wf w → 0 ≤ iv_start v < iv_end v → aligned (iv_end v - iv_start v) →
  (∀ r, find_region v regions = Some r → zlen (rg_bytes r) = iv_end v - iv_start v) →
  wp (load_area regions v)
     (λ _ w', ∃ r, find_region v regions = Some r ∧
        mapped_as w w' (iv_start v) (iv_end v) (from_segment (iv_permissions v)) GuestMemory.Anonymous
          (λ a, default 0 (byte_at (rg_bytes r) (a - iv_start v))))
     (map_failure w) w.
Proof.
  intros Hwf Hv Hal Hr. unfold load_area. apply wp_bind, wp_lift; [| |by destruct (find_region v regions)].
  2: { intros e He. destruct (find_region v regions); [done|]. injection He as <-. by apply map_failure_quiet. }
  intros r Hf. destruct (find_region v regions) as [r'|] eqn:Hfind; [|done]. injection Hf as ->. specialize (Hr r eq_refl).
  apply wp_bind, wp_lift; [| |by destruct (checked_sub64 _ _)].
  2: { intros e He. destruct (checked_sub64 _ _); [done|]. injection He as <-. by apply map_failure_quiet. }
  intros len Hsub. destruct (checked_sub64 (iv_end v) (iv_start v)) as [d|] eqn:Hd; [|done]. injection Hsub as ->.
  assert (len = iv_end v - iv_start v) as -> by (unfold checked_sub64 in Hd; case_match; simplify_eq; lia).
  eapply wp_mono; [apply (wp_insert_loaded_mapping w (iv_start v) _ _ (rg_bytes r)
    (λ a, default 0 (byte_at (rg_bytes r) (a - iv_start v)))); [done|lia|done|]|..]; cbv beta.
  - intros a Ha Hz. unfold byte_at. rewrite (proj2 (Z.ltb_ge _ _)) by lia.
    destruct (rg_bytes r !! Z.to_nat (a - iv_start v)) eqn:Hb; [done|].
    apply lookup_ge_None in Hb. unfold zlen in Hz. lia.
  - intros [] w' (Hm & _). replace (iv_start v + (iv_end v - iv_start v)) with (iv_end v) in Hm by lia. eauto.
  - done.
Qed.

(** A failure on the way: what was built can still be dropped, and nobody else noticed. *)
Definition load_failure (w : World) (e : GuestMemoryError) (w' : World) : Prop :=
  resource_error e ∧ allocs_wf (w_host w') (w_mem w') ∧ respects_others w w'.

Lemma map_load_failure w e w' : map_failure w e w' → load_failure w e w'.
Proof.
  intros [He [[[Hwf Ho _] _]|[[Ha Ho _ _ _] _]]]; (split_and!; [done| |done]); [|done]. by apply mem_wf_allocs.
Qed.

Lemma image_cell_cons v l regions a :
  image_cell (v :: l) regions a =
  if (iv_start v <=? a) && (a <? iv_end v) then image_cell [v] regions a else image_cell l regions a.
Proof. unfold image_cell. simpl. by destruct ((iv_start v <=? a) && (a <? iv_end v)) eqn:Hv; simpl; rewrite ?Hv. Qed.

Lemma image_cell_one v l regions a :
  loadable (v :: l) regions → iv_start v ≤ a < iv_end v → image_cell l regions a = None ∨
  image_cell l regions a = image_cell [v] regions a.
Proof.
  intros [_ Hap] Ha. unfold image_cell at 1 2. destruct (List.find _ l) as [u|] eqn:Hf; simpl; [|by left].
  apply List.find_some in Hf as [Hin Hu%andb_prop]. apply list_elem_of_In in Hin.
  assert (u = v) as -> by (apply (Hap u v a); [by right|by left|lia|done]). right. unfold image_cell. simpl.
  by rewrite (proj2 (Z.leb_le _ _)), (proj2 (Z.ltb_lt _ _)) by lia.
Qed.

Lemma wp_load_areas regions l w :
  world_wf w → allocs_disjoint w → loadable l regions →
  wp (foreach l (load_area regions))
     (λ _ w', contained w w' ∧ allocs_disjoint w' ∧
        ∀ a, cell_at w' a = match image_cell l regions a with Some c => Some c | None => cell_at w a end)
     (load_failure w) w.
Proof.
  revert w. induction l as [|v l IH]; intros w Hwf Hd Hl; simpl.
  { split_and!; [by apply contained_refl|done|]. by intros a. }
  pose proof Hl as [[[Hv [Hal Hr]] Hall]%Forall_cons Hap].
  apply wp_bind. eapply wp_mono; [by apply wp_load_area|..]; cbv beta; [|by intros e w' ?%map_load_failure].
  intros [] w1 (r & Hf & [Hct Hfree Hnew Hother]). destruct (Hother Hd) as [Hsame Hd1].
  eapply wp_mono; [apply IH; [apply Hct|done|]|..]; cbv beta.
  - split; [done|]. intros u x a Hu Hx. apply Hap; by right.
  - intros [] w2 (Hct2 & Hd2 & Hc). split_and!; [by eapply contained_trans|done|]. intros a. rewrite Hc, image_cell_cons.
    destruct (Z.leb_spec (iv_start v) a), (Z.ltb_spec a (iv_end v)); simpl; try (destruct (image_cell l regions a); [done|]; apply Hsame; lia).
    assert (Hone : image_cell [v] regions a = cell_at w1 a).
    { rewrite Hnew by lia. unfold image_cell. simpl. rewrite (proj2 (Z.leb_le _ _)), (proj2 (Z.ltb_lt _ _)) by lia. simpl.
      rewrite Hf. simpl. destruct (byte_at (rg_bytes r) (a - iv_start v)) eqn:Hb; [done|].
      specialize (Hr r Hf). unfold byte_at in Hb. rewrite (proj2 (Z.ltb_ge _ _)) in Hb by lia.
      apply lookup_ge_None in Hb. unfold zlen in Hr. lia. }
    destruct (image_cell_one v l regions a Hl) as [->| ->]; [lia|..]; by rewrite Hone, Hnew by lia.
  - intros e w2 (He & Ha & Ho). split_and!; [done|done|]. etransitivity; [apply Hct|done].
Qed.

(** A fresh memory on a heap in use. *)
Lemma fresh_memory_wf h m :
  heap_wf h → gm_vmas m = ∅ → gm_allocations m = ∅ → gm_address_space_end m + GUEST_PAGE_SIZE ≤ 2 ^ 64 →
  world_wf {| w_host := h; w_mem := m |} ∧ allocs_disjoint {| w_host := h; w_mem := m |} ∧ (∀ b, refs m b = 0) ∧
  ∀ a, cell_at {| w_host := h; w_mem := m |} a = None.
Proof.
  intros Hh Hv Ha Hsp. assert (Hrefs : ∀ b, refs m b = 0) by (intros b; unfold refs; by rewrite Ha, map_filter_empty).
  assert (Hwf : vmas_wf (gm_address_space_end m) (gm_vmas m)) by (rewrite Hv; by apply empty_wf).
  split_and!; [|intros ? ? ? ? ? ? _; unfold alloc_view; simpl; by rewrite Ha, lookup_empty|done|].
  - split; simpl; [done|done| | | |]; rewrite ?Ha, ?Hv.
    + intros id al. by rewrite lookup_empty.
    + intros id al. by rewrite lookup_empty.
    + intros b. rewrite Hrefs. unfold strong. destruct (contents h b) as [[bs n]|] eqn:Hc; simpl; [|done].
      pose proof (hw_strong _ Hh _ _ _ Hc). lia.
    + intros k v. by rewrite lookup_empty.
  - intros a. apply cell_at_unmapped, (area_at_None Hwf). simpl. intros k v. by rewrite Hv, lookup_empty.
Qed.

Lemma heap_others h m b : (∀ b, refs m b = 0) → others {| w_host := h; w_mem := m |} b = strong h b.
Proof. intros Hr. unfold others. simpl. rewrite Hr. lia. Qed.

Lemma memory_new_Ok brk m :
  memory_new brk = Ok m → gm_vmas m = ∅ ∧ gm_allocations m = ∅ ∧ gm_address_space_end m = GUEST_ADDRESS_SPACE_END.
Proof. unfold memory_new, with_layout. case_match; [done|]. intros [= <-]. done. Qed.

Lemma refs_empty m b : gm_allocations m = ∅ → refs m b = 0.
Proof. intros Ha. unfold refs. by rewrite Ha, map_filter_empty. Qed.

Lemma drop_empty m h : gm_allocations m = ∅ → drop_guest_memory m h = h.
Proof. intros Ha. unfold drop_guest_memory. rewrite Ha. by destruct h. Qed.

(** Dropping a memory gives up its references and nothing else. *)
Lemma drop_guest_memory_spec w m' :
  allocs_wf (w_host w) (w_mem w) → (∀ b, refs m' b = 0) →
  heap_wf (drop_guest_memory (w_mem w) (w_host w)) ∧
  respects_others w {| w_host := drop_guest_memory (w_mem w) (w_host w); w_mem := m' |}.
Proof.
  intros Hwf Hr. destruct (drop_list_spec (bt_iter (gm_allocations (w_mem w))) w Hwf) as (Haw & Ho & _).
  { apply bt_iter_NoDup. }
  { intros [id al]. apply elem_of_bt_iter. }
  split; [apply Haw|]. destruct Ho as [Hn Ho]. split; [exact Hn|]. intros b. destruct (Ho b) as [Hb Hc]. split; [|exact Hc].
  rewrite <- Hb. unfold others. simpl. rewrite Hr. f_equal.
  unfold refs at 1; simpl.
  assert (foldr (λ p als, delete p.1 als) (gm_allocations (w_mem w)) (bt_iter (gm_allocations (w_mem w))) = ∅) as ->.
  { apply map_eq. intros id. rewrite foldr_delete_lookup, lookup_empty. case_bool_decide as Hk; [done|].
    destruct (gm_allocations (w_mem w) !! id) eqn:Hid; [|done]. exfalso. apply Hk. apply elem_of_bt_keys. eauto. }
  by rewrite map_filter_empty.
Qed.

(** The memory of an image, made on a heap that others use: [m0] has no blocks, so that all
    blocks of [h] belong to others. *)
Lemma from_image_spec image h m0 :
  heap_wf h → (∀ b, refs m0 b = 0) → loadable (im_vmas image) (im_regions image) →
  match from_image image h with
  | (Ok m, h') => world_wf {| w_host := h'; w_mem := m |} ∧
                  respects_others {| w_host := h; w_mem := m0 |} {| w_host := h'; w_mem := m |} ∧
                  ∀ a, cell_at {| w_host := h'; w_mem := m |} a = image_cell (im_vmas image) (im_regions image) a
  | (Err e, h') => resource_error e ∧ heap_wf h' ∧
                   respects_others {| w_host := h; w_mem := m0 |} {| w_host := h'; w_mem := m0 |}
  | (Panic, _) => False
  end.
Proof.
  intros Hh Hm0 Hl. unfold from_image.
  destruct (GuestMemory.align_up _) as [brk|e|] eqn:Hup; simpl.
  2: { split_and!; [by eapply align_up_Err|done|done]. }
  2: { unfold GuestMemory.align_up in Hup. by destruct (checked_add64 _ _). }
  destruct (memory_new brk) as [m|e|] eqn:Hm; simpl.
  2: { unfold memory_new, with_layout in Hm. case_match; [|done]. by injection Hm as <-. }
  2: { unfold memory_new, with_layout in Hm. by case_match. }
  apply memory_new_Ok in Hm as (Hv & Ha & Hsp).
  destruct (fresh_memory_wf h m Hh Hv Ha) as (Hwf & Hd & Hr & Hc); [rewrite Hsp; unfold GUEST_ADDRESS_SPACE_END, GUEST_PAGE_SIZE; lia|].
  assert (Hfrom : ∀ w', respects_others {| w_host := h; w_mem := m |} w' → respects_others {| w_host := h; w_mem := m0 |} w').
  { intros w' [Hn Ho]. split; [exact Hn|]. intros b. specialize (Ho b). rewrite heap_others in Ho |- * by done. exact Ho. }
  pose proof (wp_load_areas (im_regions image) (im_vmas image) _ Hwf Hd Hl) as Hwp. unfold wp in Hwp.
  destruct (foreach _ _ _) as [[[]|e|] w']; [| |done].
  - destruct Hwp as (Hct & _ & Hcells). destruct w' as [h' m']. split_and!; [apply Hct|apply Hfrom, Hct|].
    intros a. simpl. rewrite Hcells, Hc. by destruct (image_cell _ _ a).
  - destruct Hwp as (He & Haw & Ho). destruct (drop_guest_memory_spec w' m0 Haw Hm0) as [Hh' Ho'].
    split_and!; [done|done|]. apply Hfrom. by etransitivity.
Qed.
End image.

(** ** The images that mcr-elf builds can be loaded

    Every area of an image is made of whole pages: segments are placed at page boundaries, and
    the stack is as large as its configuration says. *)
Lemma obind_Ok_inv {A B E} (o : outcome A E) (f : A → outcome B E) b :
  obind o f = Ok b → ∃ a, o = Ok a ∧ f a = Ok b.
Proof. destruct o as [a| |]; simpl; [eauto|done|done]. Qed.

Lemma map_err_Ok {A E F} (f : E → F) (o : outcome A E) a : map_err f o = Ok a → o = Ok a.
Proof. destruct o; simpl; congruence. Qed.

Definition whole_pages (v : ElfImage.GuestVma) : Prop := aligned (iv_end v - iv_start v).
Definition paged (l : Layout) : Prop := Forall whole_pages l.1.

Lemma register_paged vmas v vmas' :
  Forall whole_pages vmas → whole_pages v → register_vma vmas v = Ok vmas' → Forall whole_pages vmas'.
Proof.
  intros Hl Hv. unfold register_vma. destruct (_ <=? _); [done|]. destruct (List.find _ _); [done|]. intros [= <-].
  rewrite sort_by_key_perm. apply Forall_app. by repeat constructor.
Qed.

Lemma place_segment_paged bytes bias kind l s l' :
  segment_ok (zlen bytes) s → paged l → place_segment bytes bias kind l s = Ok l' → paged l'.
Proof.
  intros Hs Hl H. unfold place_segment, relocated_image_address in H.
  apply obind_Ok_inv in H as (st & Hst & H). apply obind_Ok_inv in H as (en & Hen & H).
  destruct (checked_add64 (mm_start _) bias) as [x|] eqn:Hx; [|done]. apply checked_add64_Some in Hx as [-> _]. injection Hst as <-.
  destruct (checked_add64 (mm_end _) bias) as [x|] eqn:Hx; [|done]. apply checked_add64_Some in Hx as [-> _]. injection Hen as <-.
  apply obind_Ok_inv in H as (mapped & _ & H). apply obind_Ok_inv in H as (region & _ & H).
  apply obind_Ok_inv in H as (vmas & Hv & H). apply obind_Ok_inv in H as (r & _ & [= <-]).
  eapply register_paged; [exact Hl| |exact Hv]. unfold whole_pages, aligned. simpl.
  destruct (so_mapping _ _ Hs) as [M1 M2 _ _ _ _ _ _]. change GUEST_PAGE_SIZE with PAGE_SIZE.
  replace (_ - _) with (mm_end (ls_mapping s) - mm_start (ls_mapping s)) by lia. rewrite M1.
  replace (ls_virtual_address s - ls_virtual_address s mod PAGE_SIZE) with (PAGE_SIZE * (ls_virtual_address s / PAGE_SIZE)).
  2: { pose proof (Z.div_mod (ls_virtual_address s) PAGE_SIZE ltac:(done)). lia. }
  rewrite Zminus_mod, M2, Z.mul_comm, Z_mod_mult. done.
Qed.

Lemma place_segments_paged bytes bias kind segments l l' :
  Forall (segment_ok (zlen bytes)) segments → paged l →
  try_fold (place_segment bytes bias kind) l segments = Ok l' → paged l'.
Proof.
  intros Hall. revert l. induction Hall as [|s segments Hs _ IH]; intros l Hl; simpl; [by intros [= <-]|].
  intros (l1 & H1 & H)%obind_Ok_inv. eapply IH; [|exact H]. by eapply place_segment_paged.
Qed.

Lemma place_stack_paged s l l' : aligned (is_stack_size s) → paged l → place_stack s l = Ok l' → paged l'.
Proof.
  intros Hs Hl H. unfold place_stack in H.
  apply obind_Ok_inv in H as (e & _ & H). apply obind_Ok_inv in H as (region & _ & H).
  apply obind_Ok_inv in H as (vmas & Hv & H). apply obind_Ok_inv in H as (r & _ & [= <-]).
  eapply register_paged; [exact Hl| |exact Hv]. unfold whole_pages, aligned, stack_base, wsub, wrap64 in *. simpl.
  rewrite Zminus_mod, Z.mod_mod_divide, <- Zminus_mod by (by exists (2 ^ 52)).
  by replace (is_stack_top s - (is_stack_top s - is_stack_size s)) with (is_stack_size s) by lia.
Qed.

Lemma built_image_paged plan bytes interpreter_bytes config image :
  Forall is_byte bytes → match interpreter_bytes with Some b => Forall is_byte b | None => True end →
  plan_ok bytes plan → is_u64 (sc_stack_top config) → is_u64 (sc_stack_size config) →
  zlen (sc_random_bytes config) = AT_RANDOM_BYTES → aligned (sc_stack_size config) →
  build_guest_memory_image_with_interpreter plan bytes interpreter_bytes config = Ok image →
  Forall whole_pages (im_vmas image).
Proof.
  intros Hb Hib Hplan Htop Hsize Hrandom Hal H. unfold build_guest_memory_image_with_interpreter in H.
  apply obind_Ok_inv in H as ([interp l0] & Hl0 & H).
  assert (H0 : loaded_ok plan (interp, l0) ∧ paged l0).
  { split; [exact (safe_Ok _ _ _ (safe_load_program_interpreter plan interpreter_bytes Hib) Hl0)|].
    destruct (lp_interpreter plan) as [path|]; [|injection Hl0 as <- <-; constructor].
    apply obind_Ok_inv in Hl0 as (ib & Hi & Hl0). destruct interpreter_bytes as [ib'|]; [|done]. injection Hi as ->.
    apply obind_Ok_inv in Hl0 as (iplan & Hp%map_err_Ok & Hl0). apply obind_Ok_inv in Hl0 as ([loaded l] & Hload & [= _ <-]).
    unfold load_interpreter_image in Hload. destruct (lp_interpreter iplan); [done|].
    apply obind_Ok_inv in Hload as (l1 & Hl1 & Hload). apply obind_Ok_inv in Hload as (en & _ & Hload).
    apply obind_Ok_inv in Hload as (va & _ & [= _ <-]). eapply place_segments_paged; [| |exact Hl1]; [|apply Forall_nil_2].
    apply (safe_Ok _ _ _ (safe_parse_load_plan ib Hib) Hp). }
  destruct H0 as [(Hok0 & Hbase & _) Hp0]. cbn [fst snd] in *.
  apply obind_Ok_inv in H as (l1 & Hl1 & H). apply obind_Ok_inv in H as (stack & Hstack%map_err_Ok & H).
  apply obind_Ok_inv in H as (l2 & Hl2 & H). apply obind_Ok_inv in H as (en & _ & H).
  apply obind_Ok_inv in H as (ends & _ & [= <-]). cbn [im_vmas].
  assert (Hst : is_stack_size stack = sc_stack_size config).
  { set (config' := with_interpreter_base _ _) in Hstack. assert (Hc : config_ok config') by (by split).
    pose proof (safe_build_initial_stack plan config' Hc ltac:(by eapply plan_table_ok) (bias_nonneg plan)) as Hs.
    apply (safe_Ok _ _ _ Hs Hstack). }
  eapply place_stack_paged; [by rewrite Hst| |exact Hl2]. eapply place_segments_paged; [apply Hplan|exact Hp0|exact Hl1].
Qed.

(** An image of areas and regions that match, in whole pages. *)
Lemma layout_loadable vmas regions : layout_ok (vmas, regions) → Forall whole_pages vmas → loadable vmas regions.
Proof.
  intros [[_ _ Hne Hap] Hst _ Har _] Hp. simpl in *. split.
  - rewrite Forall_forall in Hne, Hst, Hp |- *. intros v Hv. split; [split; [by apply Hst|by apply Hne]|]. split; [by apply Hp|].
    intros r [Hr [Hs%Z.eqb_eq He%Z.eqb_eq]%andb_prop]%List.find_some. apply list_elem_of_In in Hr.
    destruct (Har r Hr) as (u & _ & Hus & Hue & Hl). lia.
  - intros u v a Hu Hv Hua Hva. destruct (Hap u v Hu Hv) as [|[|]]; [done|lia|lia].
Qed.

(** A process that gets a memory made on the heap of the others. *)
Lemma add_process {OS : HostOs} {OL : HostOsLaws OS} (y : System) p m0 m h' :
  sys_wf y → s_memories y !! p = None → (∀ b, refs m0 b = 0) → world_wf {| w_host := h'; w_mem := m |} →
  respects_others {| w_host := s_heap y; w_mem := m0 |} {| w_host := h'; w_mem := m |} →
  let y' := {| s_heap := h'; s_memories := <[p := m]> (s_memories y) |} in
  sys_wf y' ∧ ∀ q, q ≠ p → ∀ a, view_of y' q a = view_of y q a.
Proof.
  intros [Hh Hm Hr] Hp H0 Hwf Ho y'.
  assert (Hiso : ∀ q mq, s_memories y !! q = Some mq → mem_wf h' mq ∧ same_cells (at_heap (s_heap y) mq) (at_heap h' mq)).
  { intros q mq Hq. destruct (isolation (s_heap y) h' m0 m mq) as (? & _ & ?); [exact Ho|apply Hwf|by eapply Hm| |done].
    intros b. rewrite H0. specialize (Hr b). rewrite (sum_refs_delete _ _ _ _ Hq) in Hr.
    pose proof (sum_refs_nonneg (delete q (s_memories y)) b). lia. }
  split; [split; simpl|].
  - apply Hwf.
  - intros q mq [[<- <-]|[_ Hq]]%lookup_insert_Some; [exact Hwf|by apply (Hiso q)].
  - intros b. rewrite sum_refs_insert by done. specialize (Hr b). destruct (proj2 Ho b) as [Heq _].
    rewrite (heap_others (s_heap y) m0) in Heq by done. unfold others in Heq. simpl in Heq. lia.
  - intros q Hne a. unfold view_of. simpl. rewrite lookup_insert_ne by done.
    destruct (s_memories y !! q) as [mq|] eqn:Hq; simpl; [|done]. by apply (Hiso q).
Qed.

(** A heap on which something was made and given up again serves every memory as before. *)
Lemma untouched_heap {OS : HostOs} {OL : HostOsLaws OS} (h h' : HostHeap) m0 m :
  (∀ b, refs m0 b = 0) → heap_wf h' →
  respects_others {| w_host := h; w_mem := m0 |} {| w_host := h'; w_mem := m0 |} → mem_wf h m →
  invisible (at_heap h m) (at_heap h' m).
Proof.
  intros H0 Hh' Ho Hm. destruct (isolation h h' m0 m0 m Ho Hh' Hm) as (Hm' & _ & Hc).
  { intros b. rewrite H0. apply (mw_refs _ _ Hm). }
  assert (Hst : ∀ b, strong h' b = strong h b).
  { intros b. destruct (proj2 Ho b) as [Heq _]. by rewrite !heap_others in Heq. }
  split; [exact Hm'|exact Hc| |done]. destruct Ho as [Hn Ho]. split; [exact Hn|]. intros b. specialize (Ho b).
  rewrite !heap_others in Ho by done. unfold others. simpl. rewrite Hst. split; [done|]. intros Hpos. apply Ho.
  pose proof (refs_nonneg m b). lia.
Qed.
