(* ===== verification/TaskTypes.v ===== *)
(** * mcr-task: processes, tasks and programs

    The data of the task kernel (lib.rs, errors.rs, registers.rs, process.rs, task.rs,
    fd.rs, program.rs) and the small operations on it. *)

From S2P Require Import Prelude SysAbi Bytes ElfParser ElfImage.
From stdpp Require Import base gmap list strings countable.
From Stdlib Require Import ZArith Lia.
From Stdlib Require Strings.Byte.
Open Scope Z_scope.

Definition INITIAL_GUEST_PID : Z := 1.
Definition INITIAL_GUEST_TID : Z := 1.
(** The constant of a Windows host. *)
Definition DEFAULT_STACK_TOP : Z := 0x100200000.
Definition DEFAULT_STACK_SIZE : Z := 0x200000.
Definition X86_64_SYSCALL_INSTRUCTION_LEN : Z := 2.
Definition X86_64_DEFAULT_RFLAGS : Z := 0x202.
Definition ARCH_SET_GS : Z := 0x1001.
Definition ARCH_SET_FS : Z := 0x1002.
Definition ARCH_GET_FS : Z := 0x1003.
Definition ARCH_GET_GS : Z := 0x1004.
Definition LINUX_SIGKILL : Z := 9.
Definition LINUX_SIGSTOP : Z := 19.
Definition LINUX_SIGNAL_COUNT : Z := 64.

(** ** Default signal actions *)
Inductive LinuxDefaultSignalAction : Type := Ignore | Terminate.

Definition default_signal_action (signal : Z) : LinuxDefaultSignalAction :=
  if ((1 <=? signal) && (signal <=? 15)) || ((24 <=? signal) && (signal <=? 27)) ||
     ((30 <=? signal) && (signal <=? 31))
  then Terminate else Ignore.

Definition signal_exit_status (signal : Z) : Z := 128 + signal.

(** ** Errors *)
Inductive TaskError : Type :=
| BadFd (fd : Z)
| InvalidCloneFlags (flags : Z)
| InvalidRobustListLength (length : Z)
| InvalidSignal (signal : Z)
| InvalidSignalMaskHow (how : Z)
| InvalidSigsetSize (size : Z)
| InvalidWaitOptions (options : Z)
| NoChild
| PidExhausted
| TidExhausted
| UnknownPid (pid : Z)
| UnknownTid (tid : Z)
| UnsupportedSignalTarget (pid : Z)
| WouldBlock
| TaskElf (e : ElfValidationError)
| TaskImage (e : GuestImageError).

Definition linux_errno (e : TaskError) : LinuxErrno :=
  match e with
  | BadFd _ => EBADF
  | InvalidCloneFlags _ | InvalidRobustListLength _ | InvalidSignal _ | InvalidSignalMaskHow _
  | InvalidSigsetSize _ | InvalidWaitOptions _ | UnsupportedSignalTarget _ => EINVAL
  | NoChild => ECHILD
  | PidExhausted | TidExhausted => EAGAIN
  | UnknownPid _ | UnknownTid _ => ESRCH
  | WouldBlock => EAGAIN
  | TaskElf _ | TaskImage _ => ENOEXEC
  end.

Definition into_outcome (e : TaskError) : SyscallOutcome := outcome_errno (linux_errno e).

(** ** Registers *)
Record TlsState : Type := { fs_base : Z; gs_base : Z }.

Definition tls_new : TlsState := {| fs_base := 0; gs_base := 0 |}.

Record GprState : Type := {
  r_rip : Z; r_rsp : Z; r_rax : Z; r_rbx : Z; r_rcx : Z; r_rdi : Z; r_rsi : Z; r_rdx : Z;
  r_rbp : Z; r_r10 : Z; r_r8 : Z; r_r9 : Z; r_r11 : Z; r_r12 : Z; r_r13 : Z; r_r14 : Z;
  r_r15 : Z; r_rflags : Z;
}.

Definition gpr_new (rip rsp : Z) : GprState :=
  {| r_rip := rip; r_rsp := rsp; r_rax := 0; r_rbx := 0; r_rcx := 0; r_rdi := 0; r_rsi := 0;
     r_rdx := 0; r_rbp := 0; r_r10 := 0; r_r8 := 0; r_r9 := 0; r_r11 := 0; r_r12 := 0;
     r_r13 := 0; r_r14 := 0; r_r15 := 0; r_rflags := X86_64_DEFAULT_RFLAGS |}.

Definition with_syscall_return (rip rax : Z) (r : GprState) : GprState :=
  {| r_rip := rip; r_rsp := r_rsp r; r_rax := rax; r_rbx := r_rbx r; r_rcx := r_rcx r;
     r_rdi := r_rdi r; r_rsi := r_rsi r; r_rdx := r_rdx r; r_rbp := r_rbp r; r_r10 := r_r10 r;
     r_r8 := r_r8 r; r_r9 := r_r9 r; r_r11 := r_r11 r; r_r12 := r_r12 r; r_r13 := r_r13 r;
     r_r14 := r_r14 r; r_r15 := r_r15 r; r_rflags := r_rflags r |}.

Definition with_rsp (rsp : Z) (r : GprState) : GprState :=
  {| r_rip := r_rip r; r_rsp := rsp; r_rax := r_rax r; r_rbx := r_rbx r; r_rcx := r_rcx r;
     r_rdi := r_rdi r; r_rsi := r_rsi r; r_rdx := r_rdx r; r_rbp := r_rbp r; r_r10 := r_r10 r;
     r_r8 := r_r8 r; r_r9 := r_r9 r; r_r11 := r_r11 r; r_r12 := r_r12 r; r_r13 := r_r13 r;
     r_r14 := r_r14 r; r_r15 := r_r15 r; r_rflags := r_rflags r |}.

(** ** Descriptor tables *)
Record GuestFdEntry : Type := { fe_description : string; fe_cloexec : bool }.

Definition GuestFdTable : Type := gmap Z GuestFdEntry.

Definition stdio (name : string) : GuestFdEntry := {| fe_description := name; fe_cloexec := false |}.

Definition insert_exact (fd : Z) (entry : GuestFdEntry) (cloexec : bool) (table : GuestFdTable)
    : outcome GuestFdTable TaskError :=
  if (fd <? 0) || bool_decide (is_Some (table !! fd)) then Err (BadFd fd)
  else Ok (<[fd := {| fe_description := fe_description entry; fe_cloexec := cloexec |}]> table).

(** The three [expect]s insert into an empty table. *)
Definition with_stdio : GuestFdTable :=
  <[2 := stdio "stderr"]> (<[1 := stdio "stdout"]> (<[0 := stdio "stdin"]> ∅)).

Definition set_cloexec (fd : Z) (cloexec : bool) (table : GuestFdTable)
    : outcome GuestFdTable TaskError :=
  let? entry := ok_or (table !! fd) (BadFd fd) in
  Ok (<[fd := {| fe_description := fe_description entry; fe_cloexec := cloexec |}]> table).

Definition close_on_exec (table : GuestFdTable) : GuestFdTable :=
  filter (λ p : Z * GuestFdEntry, fe_cloexec p.2 = false) table.

(** ** Programs *)
Record GuestExecutable : Type := { ge_path : list Z; ge_bytes : list Byte.byte }.

Record GuestProgram : Type := {
  gp_executable : GuestExecutable;
  gp_interpreter : option GuestExecutable;
  gp_argv : list (list Z);
  gp_envp : list (list Z);
}.

Definition program_new (executable : GuestExecutable) : GuestProgram :=
  {| gp_executable := executable; gp_interpreter := None; gp_argv := [ge_path executable];
     gp_envp := [] |}.

Definition with_interpreter (interpreter : GuestExecutable) (p : GuestProgram) : GuestProgram :=
  {| gp_executable := gp_executable p; gp_interpreter := Some interpreter;
     gp_argv := gp_argv p; gp_envp := gp_envp p |}.

Record GuestImageState : Type := {
  gi_executable : GuestExecutable;
  gi_interpreter : option GuestExecutable;
  gi_argv : list (list Z);
  gi_envp : list (list Z);
  gi_memory : GuestMemoryImage;
}.

Definition load_program (program : GuestProgram) : outcome GuestImageState TaskError :=
  let executable := gp_executable program in
  let? load_plan := map_err TaskElf (parse_load_plan (u8s (ge_bytes executable))) in
  let? memory := map_err TaskImage
      (build_guest_memory_image_with_interpreter load_plan (u8s (ge_bytes executable))
         ((λ e, u8s (ge_bytes e)) <$> gp_interpreter program)
         (with_envp (gp_envp program) (with_argv (gp_argv program)
            (stack_config_new DEFAULT_STACK_TOP DEFAULT_STACK_SIZE (ge_path executable))))) in
  Ok {| gi_executable := executable; gi_interpreter := gp_interpreter program;
        gi_argv := gp_argv program; gi_envp := gp_envp program; gi_memory := memory |}.

(** ** Processes *)
Inductive ExitState : Type := Running | ExitedWith (status : Z).

#[export] Instance ExitState_eq_dec : EqDecision ExitState.
Proof. solve_decision. Defined.

Record GuestSignalAction : Type := {
  sa_action : Z; sa_flags : Z; sa_restorer : Z; sa_mask : Z;
}.

Definition signal_action_new (action : Z) : GuestSignalAction :=
  {| sa_action := action; sa_flags := 0; sa_restorer := 0; sa_mask := 0 |}.

Definition SignalState : Type := gmap Z GuestSignalAction.

Definition set_action (signal : Z) (action : GuestSignalAction) (s : SignalState) : SignalState :=
  <[signal := action]> s.

Definition linux_wait_exit_status (status : Z) : Z := Z.shiftl (Z.land (as_u32 status) 0xff) 8.

Record WaitedChild : Type := { wc_pid : Z; wc_status : Z; wc_wait_status : Z }.

Definition waited_child_new (pid status : Z) : WaitedChild :=
  {| wc_pid := pid; wc_status := status; wc_wait_status := linux_wait_exit_status status |}.

Record GuestProcess : Type := {
  p_pid : Z;
  p_parent : option Z;
  p_pgid : Z;
  p_sid : Z;
  p_image : GuestImageState;
  p_files : GuestFdTable;
  p_signals : SignalState;
  p_pending_signals : gset Z;
  p_children : gset Z;
  p_exit_state : ExitState;
}.

(** ** Tasks *)
Record FutexWaitKey : Type := { fk_pid : option Z; fk_uaddr : Z }.

#[export] Instance FutexWaitKey_eq_dec : EqDecision FutexWaitKey.
Proof. solve_decision. Defined.

#[export] Instance FutexWaitKey_countable : Countable FutexWaitKey.
Proof.
  refine (inj_countable' (λ k, (fk_pid k, fk_uaddr k)) (λ p, {| fk_pid := p.1; fk_uaddr := p.2 |}) _).
  by intros [].
Defined.

Definition futex_key_new (pid uaddr : Z) (private : bool) : FutexWaitKey :=
  {| fk_pid := if private then Some pid else None; fk_uaddr := uaddr |}.

Inductive TaskState : Type :=
| Runnable
| WaitingForChild (args : Wait4SyscallArgs)
| WaitingForVfork (child_pid : Z)
| WaitingForSignalSet (mask : Z)
| WaitingForSignalSuspend (mask : Z)
| WaitingForFd (fd : Z) (write : bool)
| WaitingForFutex (key : FutexWaitKey)
| WaitingForSleep
| Exited (status : Z).

#[export] Instance TaskState_eq_dec : EqDecision TaskState.
Proof. solve_decision. Defined.

Record GuestTask : Type := {
  t_tid : Z;
  t_pid : Z;
  t_regs : GprState;
  t_tls : TlsState;
  t_state : TaskState;
  t_robust_list : option Z;
  t_clear_child_tid : option Z;
  t_signal_mask : Z;
  t_pending_signals : gset Z;
  t_pending_signal_delivery : option Z;
}.

Definition task_initial (tid pid : Z) (image : GuestMemoryImage) : GuestTask :=
  {| t_tid := tid; t_pid := pid;
     t_regs := gpr_new (im_entrypoint image) (im_initial_stack_pointer image);
     t_tls := tls_new; t_state := Runnable; t_robust_list := None; t_clear_child_tid := None;
     t_signal_mask := 0; t_pending_signals := ∅; t_pending_signal_delivery := None |}.

Record CompletedWait : Type := {
  cw_tid : Z; cw_pid : Z; cw_args : Wait4SyscallArgs; cw_waited : WaitedChild;
}.

(** ** Field updates *)
Definition set_t_state (st : TaskState) (t : GuestTask) : GuestTask :=
  {| t_tid := t_tid t; t_pid := t_pid t; t_regs := t_regs t; t_tls := t_tls t; t_state := st;
     t_robust_list := t_robust_list t; t_clear_child_tid := t_clear_child_tid t;
     t_signal_mask := t_signal_mask t; t_pending_signals := t_pending_signals t;
     t_pending_signal_delivery := t_pending_signal_delivery t |}.

Definition set_t_regs (regs : GprState) (t : GuestTask) : GuestTask :=
  {| t_tid := t_tid t; t_pid := t_pid t; t_regs := regs; t_tls := t_tls t; t_state := t_state t;
     t_robust_list := t_robust_list t; t_clear_child_tid := t_clear_child_tid t;
     t_signal_mask := t_signal_mask t; t_pending_signals := t_pending_signals t;
     t_pending_signal_delivery := t_pending_signal_delivery t |}.

Definition set_t_tls (tls : TlsState) (t : GuestTask) : GuestTask :=
  {| t_tid := t_tid t; t_pid := t_pid t; t_regs := t_regs t; t_tls := tls; t_state := t_state t;
     t_robust_list := t_robust_list t; t_clear_child_tid := t_clear_child_tid t;
     t_signal_mask := t_signal_mask t; t_pending_signals := t_pending_signals t;
     t_pending_signal_delivery := t_pending_signal_delivery t |}.

Definition set_t_robust_list (head : option Z) (t : GuestTask) : GuestTask :=
  {| t_tid := t_tid t; t_pid := t_pid t; t_regs := t_regs t; t_tls := t_tls t;
     t_state := t_state t; t_robust_list := head; t_clear_child_tid := t_clear_child_tid t;
     t_signal_mask := t_signal_mask t; t_pending_signals := t_pending_signals t;
     t_pending_signal_delivery := t_pending_signal_delivery t |}.

Definition set_t_clear_child_tid (address : option Z) (t : GuestTask) : GuestTask :=
  {| t_tid := t_tid t; t_pid := t_pid t; t_regs := t_regs t; t_tls := t_tls t;
     t_state := t_state t; t_robust_list := t_robust_list t; t_clear_child_tid := address;
     t_signal_mask := t_signal_mask t; t_pending_signals := t_pending_signals t;
     t_pending_signal_delivery := t_pending_signal_delivery t |}.

Definition set_t_signal_mask (mask : Z) (t : GuestTask) : GuestTask :=
  {| t_tid := t_tid t; t_pid := t_pid t; t_regs := t_regs t; t_tls := t_tls t;
     t_state := t_state t; t_robust_list := t_robust_list t;
     t_clear_child_tid := t_clear_child_tid t; t_signal_mask := mask;
     t_pending_signals := t_pending_signals t;
     t_pending_signal_delivery := t_pending_signal_delivery t |}.

Definition set_t_pending (pending : gset Z) (t : GuestTask) : GuestTask :=
  {| t_tid := t_tid t; t_pid := t_pid t; t_regs := t_regs t; t_tls := t_tls t;
     t_state := t_state t; t_robust_list := t_robust_list t;
     t_clear_child_tid := t_clear_child_tid t; t_signal_mask := t_signal_mask t;
     t_pending_signals := pending; t_pending_signal_delivery := t_pending_signal_delivery t |}.

Definition set_t_delivery (signal : option Z) (t : GuestTask) : GuestTask :=
  {| t_tid := t_tid t; t_pid := t_pid t; t_regs := t_regs t; t_tls := t_tls t;
     t_state := t_state t; t_robust_list := t_robust_list t;
     t_clear_child_tid := t_clear_child_tid t; t_signal_mask := t_signal_mask t;
     t_pending_signals := t_pending_signals t; t_pending_signal_delivery := signal |}.

Definition set_p_pgid (pgid : Z) (p : GuestProcess) : GuestProcess :=
  {| p_pid := p_pid p; p_parent := p_parent p; p_pgid := pgid; p_sid := p_sid p;
     p_image := p_image p; p_files := p_files p; p_signals := p_signals p;
     p_pending_signals := p_pending_signals p; p_children := p_children p;
     p_exit_state := p_exit_state p |}.

Definition set_p_sid (sid : Z) (p : GuestProcess) : GuestProcess :=
  {| p_pid := p_pid p; p_parent := p_parent p; p_pgid := p_pgid p; p_sid := sid;
     p_image := p_image p; p_files := p_files p; p_signals := p_signals p;
     p_pending_signals := p_pending_signals p; p_children := p_children p;
     p_exit_state := p_exit_state p |}.

Definition set_p_signals (signals : SignalState) (p : GuestProcess) : GuestProcess :=
  {| p_pid := p_pid p; p_parent := p_parent p; p_pgid := p_pgid p; p_sid := p_sid p;
     p_image := p_image p; p_files := p_files p; p_signals := signals;
     p_pending_signals := p_pending_signals p; p_children := p_children p;
     p_exit_state := p_exit_state p |}.

Definition set_p_pending (pending : gset Z) (p : GuestProcess) : GuestProcess :=
  {| p_pid := p_pid p; p_parent := p_parent p; p_pgid := p_pgid p; p_sid := p_sid p;
     p_image := p_image p; p_files := p_files p; p_signals := p_signals p;
     p_pending_signals := pending; p_children := p_children p;
     p_exit_state := p_exit_state p |}.

Definition set_p_children (children : gset Z) (p : GuestProcess) : GuestProcess :=
  {| p_pid := p_pid p; p_parent := p_parent p; p_pgid := p_pgid p; p_sid := p_sid p;
     p_image := p_image p; p_files := p_files p; p_signals := p_signals p;
     p_pending_signals := p_pending_signals p; p_children := children;
     p_exit_state := p_exit_state p |}.

Definition set_p_exit_state (st : ExitState) (p : GuestProcess) : GuestProcess :=
  {| p_pid := p_pid p; p_parent := p_parent p; p_pgid := p_pgid p; p_sid := p_sid p;
     p_image := p_image p; p_files := p_files p; p_signals := p_signals p;
     p_pending_signals := p_pending_signals p; p_children := p_children p;
     p_exit_state := st |}.

(** What [exec_task] does to the process. *)
Definition set_p_image (image : GuestImageState) (p : GuestProcess) : GuestProcess :=
  {| p_pid := p_pid p; p_parent := p_parent p; p_pgid := p_pgid p; p_sid := p_sid p;
     p_image := image; p_files := close_on_exec (p_files p); p_signals := p_signals p;
     p_pending_signals := p_pending_signals p; p_children := p_children p;
     p_exit_state := Running |}.
