(* ===== verification/TaskKernel.v ===== *)
(** * mcr-task: the task kernel

    [GuestKernel] with its tables and indexes, the creation of tasks and exec
    (kernel/mod.rs, clone.rs, exec.rs).  A method on [&mut self] is a function from the kernel to its result and
    the kernel it leaves; one that returns a [Result] is in the [ST] monad, where an early
    return keeps the effects already done.  The host worker pools are not part of the
    state: no operation of the kernel reads them. *)

From S2P Require Import Prelude SysAbi SyscallTable Dispatcher Bytes ElfParser ElfImage.
From S2P Require Import TaskTypes.
From stdpp Require Import base gmap list strings.
From Stdlib Require Import ZArith Lia.
Open Scope Z_scope.

Record GuestKernel : Type := {
  k_next_pid : Z;
  k_next_tid : Z;
  k_processes : gmap Z GuestProcess;
  k_tasks : gmap Z GuestTask;
  k_runnable : gset Z;
  k_child_wait : gset Z;
  k_fd_wait : gset Z;
  k_futex_wait : gmap FutexWaitKey (gset Z);
}.

Definition TaskM (A : Type) : Type := ST GuestKernel TaskError A.

(** ** Field updates *)
Definition set_processes (f : gmap Z GuestProcess → gmap Z GuestProcess) (k : GuestKernel) : GuestKernel :=
  {| k_next_pid := k_next_pid k; k_next_tid := k_next_tid k; k_processes := f (k_processes k);
     k_tasks := k_tasks k; k_runnable := k_runnable k; k_child_wait := k_child_wait k;
     k_fd_wait := k_fd_wait k; k_futex_wait := k_futex_wait k |}.

Definition set_tasks (f : gmap Z GuestTask → gmap Z GuestTask) (k : GuestKernel) : GuestKernel :=
  {| k_next_pid := k_next_pid k; k_next_tid := k_next_tid k; k_processes := k_processes k;
     k_tasks := f (k_tasks k); k_runnable := k_runnable k; k_child_wait := k_child_wait k;
     k_fd_wait := k_fd_wait k; k_futex_wait := k_futex_wait k |}.

Definition set_next_pid (n : Z) (k : GuestKernel) : GuestKernel :=
  {| k_next_pid := n; k_next_tid := k_next_tid k; k_processes := k_processes k;
     k_tasks := k_tasks k; k_runnable := k_runnable k; k_child_wait := k_child_wait k;
     k_fd_wait := k_fd_wait k; k_futex_wait := k_futex_wait k |}.

Definition set_next_tid (n : Z) (k : GuestKernel) : GuestKernel :=
  {| k_next_pid := k_next_pid k; k_next_tid := n; k_processes := k_processes k;
     k_tasks := k_tasks k; k_runnable := k_runnable k; k_child_wait := k_child_wait k;
     k_fd_wait := k_fd_wait k; k_futex_wait := k_futex_wait k |}.

Definition set_indexes (runnable child_wait fd_wait : gset Z → gset Z)
    (futex : gmap FutexWaitKey (gset Z) → gmap FutexWaitKey (gset Z)) (k : GuestKernel) : GuestKernel :=
  {| k_next_pid := k_next_pid k; k_next_tid := k_next_tid k; k_processes := k_processes k;
     k_tasks := k_tasks k; k_runnable := runnable (k_runnable k);
     k_child_wait := child_wait (k_child_wait k); k_fd_wait := fd_wait (k_fd_wait k);
     k_futex_wait := futex (k_futex_wait k) |}.

(** [task_mut(tid)] and [process_mut(pid)] followed by an assignment. *)
Definition update_task (tid : Z) (f : GuestTask → GuestTask) : GuestKernel → GuestKernel :=
  set_tasks (alter f tid).
Definition update_process (pid : Z) (f : GuestProcess → GuestProcess) : GuestKernel → GuestKernel :=
  set_processes (alter f pid).

(** ** Task states and their indexes (mod.rs) *)
Definition index_task_state (tid : Z) (state : TaskState) (k : GuestKernel) : GuestKernel :=
  match state with
  | Runnable => set_indexes (union {[tid]}) id id id k
  | WaitingForChild _ => set_indexes id (union {[tid]}) id id k
  | WaitingForFd _ _ => set_indexes id id (union {[tid]}) id k
  | WaitingForFutex key =>
      set_indexes id id id (λ m, <[key := {[tid]} ∪ default ∅ (m !! key)]> m) k
  | WaitingForVfork _ | WaitingForSleep | WaitingForSignalSuspend _ | WaitingForSignalSet _
  | Exited _ => k
  end.

Definition unindex_task_state (tid : Z) (state : TaskState) (k : GuestKernel) : GuestKernel :=
  match state with
  | Runnable => set_indexes (λ s, s ∖ {[tid]}) id id id k
  | WaitingForChild _ => set_indexes id (λ s, s ∖ {[tid]}) id id k
  | WaitingForFd _ _ => set_indexes id id (λ s, s ∖ {[tid]}) id k
  | WaitingForFutex key =>
      set_indexes id id id
        (λ m, match m !! key with
              | None => m
              | Some waiters =>
                  let waiters := waiters ∖ {[tid]} in
                  if bool_decide (waiters = ∅) then delete key m else <[key := waiters]> m
              end) k
  | WaitingForVfork _ | WaitingForSleep | WaitingForSignalSuspend _ | WaitingForSignalSet _
  | Exited _ => k
  end.

Definition insert_task (task : GuestTask) (k : GuestKernel) : GuestKernel :=
  set_tasks (insert (t_tid task) task) (index_task_state (t_tid task) (t_state task) k).

Definition remove_task (tid : Z) (k : GuestKernel) : GuestKernel :=
  match k_tasks k !! tid with
  | None => k
  | Some task => unindex_task_state (t_tid task) (t_state task) (set_tasks (delete tid) k)
  end.

(** [set_task_state]: the previous state, [None] for an unknown task. *)
Definition set_task_state (tid : Z) (state : TaskState) (k : GuestKernel)
    : option TaskState * GuestKernel :=
  match k_tasks k !! tid with
  | None => (None, k)
  | Some task =>
      if decide (t_state task = state) then (Some (t_state task), k) else
      let k := unindex_task_state tid (t_state task) k in
      let k := update_task tid (set_t_state state) k in
      (Some (t_state task), index_task_state tid state k)
  end.

Definition put_state (tid : Z) (state : TaskState) (k : GuestKernel) : GuestKernel :=
  (set_task_state tid state k).2.

Definition allocate_pid : TaskM Z :=
  let* pid := gets k_next_pid in
  let* next := lift (ok_or (checked_add32 pid 1) PidExhausted) in
  do* modify (set_next_pid next);
  ret pid.

Definition allocate_tid : TaskM Z :=
  let* tid := gets k_next_tid in
  let* next := lift (ok_or (checked_add32 tid 1) TidExhausted) in
  do* modify (set_next_tid next);
  ret tid.

Definition create_initial_process (program : GuestProgram) : TaskM unit :=
  let* pid := allocate_pid in
  let* tid := allocate_tid in
  let* image := lift (load_program program) in
  do* modify (set_processes (insert pid
        {| p_pid := pid; p_parent := None; p_pgid := pid; p_sid := pid; p_image := image;
           p_files := with_stdio; p_signals := ∅; p_pending_signals := ∅; p_children := ∅;
           p_exit_state := Running |}));
  modify (insert_task (task_initial tid pid (gi_memory image))).

Definition empty_kernel : GuestKernel :=
  {| k_next_pid := INITIAL_GUEST_PID; k_next_tid := INITIAL_GUEST_TID; k_processes := ∅;
     k_tasks := ∅; k_runnable := ∅; k_child_wait := ∅; k_fd_wait := ∅; k_futex_wait := ∅ |}.

(** [GuestKernel::new]: the kernel is dropped when the program does not load. *)
Definition kernel_new (program : GuestProgram) : outcome GuestKernel TaskError :=
  let '(r, k) := create_initial_process program empty_kernel in
  let? _ := r in Ok k.

Definition current_syscall_return_rip (k : GuestKernel) (tid : Z) : Z :=
  match k_tasks k !! tid with
  | None => 0
  | Some task => saturating_add64 (r_rip (t_regs task)) X86_64_SYSCALL_INSTRUCTION_LEN
  end.

(** Turning a [Result] into the outcome of a system call. *)
Definition outcome_of {A} (f : A → SyscallOutcome) (r : outcome A TaskError)
    : outcome SyscallOutcome Empty_set :=
  match r with
  | Ok a => Ok (f a)
  | Err e => Ok (into_outcome e)
  | Panic => Panic
  end.

(** ** fork, vfork and clone (clone.rs) *)
Definition is_supported_fork_like_clone (flags : Z) : bool :=
  let semantic_flags := without_bits flags LINUX_CLONE_EXIT_SIGNAL_MASK in
  let exit_signal := Z.land flags LINUX_CLONE_EXIT_SIGNAL_MASK in
  ((exit_signal =? 0) || (exit_signal =? LINUX_SIGCHLD)) &&
  ((semantic_flags =? 0) || (semantic_flags =? Z.lor LINUX_CLONE_VM LINUX_CLONE_VFORK)) &&
  (without_bits flags (Z.lor (Z.lor LINUX_CLONE_EXIT_SIGNAL_MASK LINUX_CLONE_VM) LINUX_CLONE_VFORK) =? 0).

Definition THREAD_REQUIRED : Z :=
  Z.lor (Z.lor (Z.lor (Z.lor LINUX_CLONE_VM LINUX_CLONE_FS) LINUX_CLONE_FILES) LINUX_CLONE_SIGHAND)
    LINUX_CLONE_THREAD.
Definition THREAD_OPTIONAL : Z :=
  Z.lor (Z.lor (Z.lor (Z.lor (Z.lor LINUX_CLONE_SYSVSEM LINUX_CLONE_SETTLS) LINUX_CLONE_PARENT_SETTID)
    LINUX_CLONE_CHILD_CLEARTID) LINUX_CLONE_CHILD_SETTID) LINUX_CLONE_DETACHED.

Definition is_supported_thread_clone (flags : Z) : bool :=
  let exit_signal := Z.land flags LINUX_CLONE_EXIT_SIGNAL_MASK in
  (exit_signal =? 0) && (Z.land flags THREAD_REQUIRED =? THREAD_REQUIRED) &&
  (without_bits flags (Z.lor THREAD_REQUIRED THREAD_OPTIONAL) =? 0).

Definition clone_fork_like_child_regs (args : CloneSyscallArgs) (child_regs : GprState) : GprState :=
  if negb (cl_child_stack args =? 0) then with_rsp (cl_child_stack args) child_regs else child_regs.

(** The task of a forked child: the parent's, with its own ids and no pending signals. *)
Definition forked_task (child_pid child_tid : Z) (parent_task : GuestTask) : GuestTask :=
  {| t_tid := child_tid; t_pid := child_pid; t_regs := t_regs parent_task;
     t_tls := t_tls parent_task; t_state := Runnable; t_robust_list := t_robust_list parent_task;
     t_clear_child_tid := t_clear_child_tid parent_task;
     t_signal_mask := t_signal_mask parent_task; t_pending_signals := ∅;
     t_pending_signal_delivery := None |}.

Definition forked_process (child_pid parent_pid : Z) (parent : GuestProcess) : GuestProcess :=
  {| p_pid := child_pid; p_parent := Some parent_pid; p_pgid := p_pgid parent;
     p_sid := p_sid parent; p_image := p_image parent; p_files := p_files parent;
     p_signals := p_signals parent; p_pending_signals := ∅; p_children := ∅;
     p_exit_state := Running |}.

Definition fork_child_task (tid : Z) : TaskM (Z * Z) :=
  let* tasks := gets k_tasks in
  let* parent_task := lift (ok_or (tasks !! tid) (UnknownTid tid)) in
  let parent_pid := t_pid parent_task in
  let* processes := gets k_processes in
  let* parent := lift (ok_or (processes !! parent_pid) (UnknownPid parent_pid)) in
  if negb (bool_decide (p_exit_state parent = Running)) then throw (UnknownPid parent_pid) else
  let* child_pid := allocate_pid in
  let* child_tid := allocate_tid in
  do* modify (set_processes (insert child_pid (forked_process child_pid parent_pid parent)));
  do* modify (insert_task (forked_task child_pid child_tid parent_task));
  let* processes := gets k_processes in
  let* _ := lift (ok_or (processes !! parent_pid) (UnknownPid parent_pid)) in
  do* modify (update_process parent_pid (λ p, set_p_children ({[child_pid]} ∪ p_children p) p));
  ret (child_pid, child_tid).

Definition fork_child (tid : Z) : TaskM Z :=
  let* (child_pid, _) := fork_child_task tid in ret child_pid.

(** The common body: fork, give the child its registers, block the parent of a vfork. *)
Definition fork_like_regs_and_maybe_block_parent (tid : Z) (child_regs : GprState → GprState)
    (block_parent_for_vfork : bool) (k : GuestKernel) : outcome SyscallOutcome Empty_set * GuestKernel :=
  match fork_child_task tid k with
  | (Ok (child_pid, child_tid), k) =>
      let k := update_task child_tid (λ t, set_t_regs (child_regs (t_regs t)) t) k in
      let k := if block_parent_for_vfork then put_state tid (WaitingForVfork child_pid) k else k in
      (Ok (outcome_success child_pid), k)
  | (Err e, k) => (Ok (into_outcome e), k)
  | (Panic, k) => (Panic, k)
  end.

(** [fork_like_current_and_maybe_block_parent] *)
Definition fork_like_current_and_maybe_block_parent (tid child_return_rip : Z) (block : bool) :
    GuestKernel → outcome SyscallOutcome Empty_set * GuestKernel :=
  fork_like_regs_and_maybe_block_parent tid (with_syscall_return child_return_rip 0) block.

Definition fork_like_current (tid child_return_rip : Z) :
    GuestKernel → outcome SyscallOutcome Empty_set * GuestKernel :=
  fork_like_current_and_maybe_block_parent tid child_return_rip false.

(** [fork_like_current_with_child_regs_and_maybe_block_parent] *)
Definition fork_like_current_with_child_regs_and_maybe_block_parent (tid : Z) (child_regs : GprState) (block : bool) :
    GuestKernel → outcome SyscallOutcome Empty_set * GuestKernel :=
  fork_like_regs_and_maybe_block_parent tid (λ _, child_regs) block.

Definition fork_like_current_with_child_regs (tid : Z) (child_regs : GprState) :
    GuestKernel → outcome SyscallOutcome Empty_set * GuestKernel :=
  fork_like_current_with_child_regs_and_maybe_block_parent tid child_regs false.

Definition fork_current (tid : Z) (k : GuestKernel) : outcome SyscallOutcome Empty_set * GuestKernel :=
  fork_like_current tid (current_syscall_return_rip k tid) k.

Definition vfork_current (tid : Z) (k : GuestKernel) : outcome SyscallOutcome Empty_set * GuestKernel :=
  fork_like_current_and_maybe_block_parent tid (current_syscall_return_rip k tid) true k.

Definition fork_current_with_child_regs (tid : Z) (child_regs : GprState) :
    GuestKernel → outcome SyscallOutcome Empty_set * GuestKernel :=
  fork_like_current_with_child_regs tid child_regs.

Definition vfork_current_with_child_regs (tid : Z) (child_regs : GprState) :
    GuestKernel → outcome SyscallOutcome Empty_set * GuestKernel :=
  fork_like_current_with_child_regs_and_maybe_block_parent tid child_regs true.

(** The task of a new thread. *)
Definition thread_task (child_tid : Z) (args : CloneSyscallArgs) (child_regs : GprState)
    (parent_task : GuestTask) : GuestTask :=
  {| t_tid := child_tid; t_pid := t_pid parent_task; t_regs := child_regs;
     t_tls := if has_clone_settls args
              then {| fs_base := cl_tls args; gs_base := gs_base (t_tls parent_task) |}
              else t_tls parent_task;
     t_state := Runnable; t_robust_list := None;
     t_clear_child_tid := if has_clone_child_cleartid args && negb (cl_child_tid args =? 0)
                          then Some (cl_child_tid args) else None;
     t_signal_mask := t_signal_mask parent_task; t_pending_signals := ∅;
     t_pending_signal_delivery := None |}.

Definition thread_current_with_child_regs (tid : Z) (args : CloneSyscallArgs) (child_regs : GprState)
    (k : GuestKernel) : outcome SyscallOutcome Empty_set * GuestKernel :=
  if negb (is_supported_thread_clone (cl_flags args))
  then (Ok (into_outcome (InvalidCloneFlags (cl_flags args))), k) else
  match k_tasks k !! tid with
  | None => (Ok (outcome_errno ESRCH), k)
  | Some parent_task =>
      if negb (bool_decide (is_Some (k_processes k !! t_pid parent_task)))
      then (Ok (outcome_errno ESRCH), k) else
      match allocate_tid k with
      | (Ok child_tid, k) =>
          let child_regs := clone_fork_like_child_regs args child_regs in
          (Ok (outcome_success child_tid),
           insert_task (thread_task child_tid args child_regs parent_task) k)
      | (Err e, k) => (Ok (into_outcome e), k)
      | (Panic, k) => (Panic, k)
      end
  end.

Definition clone_fork_like_current (tid : Z) (args : CloneSyscallArgs) (child_return_rip : Z)
    (k : GuestKernel) : outcome SyscallOutcome Empty_set * GuestKernel :=
  match k_tasks k !! tid with
  | None => (Ok (outcome_errno ESRCH), k)
  | Some parent_task =>
      let child_regs := clone_fork_like_child_regs args
                          (with_syscall_return child_return_rip 0 (t_regs parent_task)) in
      fork_like_current_with_child_regs_and_maybe_block_parent tid child_regs (has_clone_vfork args) k
  end.

Definition clone_current_with_return (tid : Z) (args : CloneSyscallArgs) (child_return_rip : Z)
    (k : GuestKernel) : outcome SyscallOutcome Empty_set * GuestKernel :=
  if has_clone_thread args then
    match k_tasks k !! tid with
    | None => (Ok (outcome_errno ESRCH), k)
    | Some task =>
        thread_current_with_child_regs tid args
          (with_syscall_return child_return_rip 0 (t_regs task)) k
    end
  else if negb (is_supported_fork_like_clone (cl_flags args))
  then (Ok (into_outcome (InvalidCloneFlags (cl_flags args))), k)
  else clone_fork_like_current tid args child_return_rip k.

Definition clone_current (tid : Z) (args : CloneSyscallArgs) (k : GuestKernel)
    : outcome SyscallOutcome Empty_set * GuestKernel :=
  clone_current_with_return tid args (current_syscall_return_rip k tid) k.

Definition clone_current_with_child_regs (tid : Z) (args : CloneSyscallArgs) (child_regs : GprState)
    (k : GuestKernel) : outcome SyscallOutcome Empty_set * GuestKernel :=
  if has_clone_thread args then thread_current_with_child_regs tid args child_regs k
  else if negb (is_supported_fork_like_clone (cl_flags args))
  then (Ok (into_outcome (InvalidCloneFlags (cl_flags args))), k)
  else fork_like_current_with_child_regs_and_maybe_block_parent tid (clone_fork_like_child_regs args child_regs)
         (has_clone_vfork args) k.

(** The tasks that wait for the vfork child, made runnable one by one. *)
Definition vfork_waiters (child_pid parent_pid : Z) (k : GuestKernel) : list Z :=
  omap (λ t, if bool_decide (t_pid t = parent_pid) && bool_decide (t_state t = WaitingForVfork child_pid)
             then Some (t_tid t) else None)
    (bt_values (k_tasks k)).

Definition resume_vfork_parent (child_pid : Z) (k : GuestKernel) : GuestKernel :=
  match k_processes k !! child_pid ≫= p_parent with
  | None => k
  | Some parent_pid =>
      foldl (λ k tid, put_state tid Runnable k) k (vfork_waiters child_pid parent_pid k)
  end.

(** ** exec (exec.rs) *)
Definition exec_task (tid : Z) (program : GuestProgram) : TaskM unit :=
  let* tasks := gets k_tasks in
  let* task := lift (ok_or (tasks !! tid) (UnknownTid tid)) in
  let pid := t_pid task in
  let* image := lift (load_program program) in
  let* processes := gets k_processes in
  let* _ := lift (ok_or (processes !! pid) (UnknownPid pid)) in
  do* modify (update_process pid (set_p_image image));
  let memory := gi_memory image in
  do* modify (update_task tid (λ t,
        set_t_clear_child_tid None (set_t_robust_list None (set_t_tls tls_new
          (set_t_regs (gpr_new (im_entrypoint memory) (im_initial_stack_pointer memory)) t)))));
  do* modify (put_state tid Runnable);
  modify (resume_vfork_parent pid).

Definition execve_current (tid : Z) (program : GuestProgram) (k : GuestKernel)
    : outcome SyscallOutcome Empty_set * GuestKernel :=
  let '(r, k) := exec_task tid program k in (outcome_of (λ _, outcome_success 0) r, k).
