(* ===== verification/TaskWait.v ===== *)
(** * mcr-task: waiting and waking

    wait4, and the tasks blocked on children, descriptors, futexes and sleeps (kernel/wait.rs). *)

From S2P Require Import Prelude SysAbi SyscallTable Dispatcher Bytes ElfParser ElfImage.
From S2P Require Import TaskTypes TaskKernel.
From stdpp Require Import base gmap list strings.
From Stdlib Require Import ZArith Lia.
Open Scope Z_scope.

(** ** Children *)
Definition child_matches (k : GuestKernel) (parent : GuestProcess) (child_pid selector : Z) : bool :=
  match k_processes k !! child_pid with
  | None => false
  | Some child =>
      if selector =? -1 then true
      else if selector =? 0 then p_pgid child =? p_pgid parent
      else if 0 <? selector then child_pid =? as_u32 selector
      else p_pgid child =? Z.abs selector
  end.

Definition matching_children (parent_pid selector : Z) (k : GuestKernel) : outcome (list Z) TaskError :=
  let? parent := ok_or (k_processes k !! parent_pid) (UnknownPid parent_pid) in
  Ok (filter (λ child_pid, child_matches k parent child_pid selector = true)
        (bs_iter (p_children parent))).

Definition has_exited (k : GuestKernel) (pid : Z) : bool :=
  match p_exit_state <$> k_processes k !! pid with
  | Some (ExitedWith _) => true
  | _ => false
  end.

Definition exited_waitable_child (parent_pid selector : Z) (k : GuestKernel)
    : outcome (option Z) TaskError :=
  let? children := matching_children parent_pid selector k in
  Ok (List.find (has_exited k) children).

Definition has_waitable_child (parent_pid selector : Z) (k : GuestKernel) : outcome bool TaskError :=
  let? children := matching_children parent_pid selector k in
  Ok (negb (bool_decide (children = []))).

Definition tids_of (pid : Z) (k : GuestKernel) : list Z :=
  omap (λ t, if bool_decide (t_pid t = pid) then Some (t_tid t) else None) (bt_values (k_tasks k)).

Definition reap_child (parent_pid child_pid : Z) : TaskM WaitedChild :=
  let* processes := gets k_processes in
  let* child := lift (ok_or (processes !! child_pid) (UnknownPid child_pid)) in
  match p_exit_state child with
  | Running => throw WouldBlock
  | ExitedWith status =>
      let* child_tids := gets (tids_of child_pid) in
      do* modify (λ k, foldl (λ k tid, remove_task tid k) k child_tids);
      do* modify (set_processes (delete child_pid));
      let* processes := gets k_processes in
      let* _ := lift (ok_or (processes !! parent_pid) (UnknownPid parent_pid)) in
      do* modify (update_process parent_pid (λ p, set_p_children (p_children p ∖ {[child_pid]}) p));
      ret (waited_child_new child_pid status)
  end.

Definition wait4_child (parent_pid : Z) (args : Wait4SyscallArgs) : TaskM (option WaitedChild) :=
  if has_unsupported_options args then throw (InvalidWaitOptions (w4_options args)) else
  let* k := gets id in
  let* child_pid := lift (exited_waitable_child parent_pid (w4_pid args) k) in
  match child_pid with
  | Some child_pid => let* waited := reap_child parent_pid child_pid in ret (Some waited)
  | None =>
      let* has := lift (has_waitable_child parent_pid (w4_pid args) k) in
      if has && no_hang args then ret None
      else if has then throw WouldBlock
      else throw NoChild
  end.

Definition wait4_current_with_return (tid : Z) (args : Wait4SyscallArgs) (return_rip : Z)
    (k : GuestKernel) : outcome SyscallOutcome Empty_set * GuestKernel :=
  match k_tasks k !! tid with
  | None => (Ok (outcome_errno ESRCH), k)
  | Some task =>
      match wait4_child (t_pid task) args k with
      | (Ok (Some waited), k) => (Ok (outcome_success (wc_pid waited)), k)
      | (Ok None, k) => (Ok (outcome_success 0), k)
      | (Err WouldBlock, k) =>
          match k_tasks k !! tid with
          | None => (Ok (outcome_errno ESRCH), k)
          | Some _ =>
              let k := update_task tid
                (λ t, set_t_regs (with_syscall_return return_rip (r_rax (t_regs t)) (t_regs t)) t) k in
              (Ok (outcome_success 0), put_state tid (WaitingForChild args) k)
          end
      | (Err e, k) => (Ok (into_outcome e), k)
      | (Panic, k) => (Panic, k)
      end
  end.

Definition wait4_current (tid : Z) (args : Wait4SyscallArgs) (k : GuestKernel)
    : outcome SyscallOutcome Empty_set * GuestKernel :=
  wait4_current_with_return tid args (current_syscall_return_rip k tid) k.

Definition runnable_tids (k : GuestKernel) : list Z := bs_iter (k_runnable k).

(** The snapshot of the blocked waits. *)
Definition child_waiters (k : GuestKernel) : list (Z * Z * Wait4SyscallArgs) :=
  omap (λ tid, match k_tasks k !! tid with
               | Some task => match t_state task with
                              | WaitingForChild args => Some (t_tid task, t_pid task, args)
                              | _ => None
                              end
               | None => None
               end)
    (bs_iter (k_child_wait k)).

Definition resume_waiting_task (tid parent_pid : Z) (args : Wait4SyscallArgs) (k : GuestKernel)
    : option CompletedWait * GuestKernel :=
  match wait4_child parent_pid args k with
  | (Ok (Some waited), k) =>
      let k := update_task tid
        (λ t, set_t_regs (with_syscall_return (r_rip (t_regs t)) (wc_pid waited) (t_regs t)) t) k in
      (Some {| cw_tid := tid; cw_pid := parent_pid; cw_args := args; cw_waited := waited |},
       put_state tid Runnable k)
  | (_, k) => (None, k)
  end.

Fixpoint resume_waiting_loop (waiting : list (Z * Z * Wait4SyscallArgs)) (k : GuestKernel)
    : list CompletedWait * GuestKernel :=
  match waiting with
  | [] => ([], k)
  | (tid, parent_pid, args) :: waiting =>
      let '(done, k) := resume_waiting_task tid parent_pid args k in
      let '(rest, k) := resume_waiting_loop waiting k in
      (match done with Some c => c :: rest | None => rest end, k)
  end.

Definition resume_waiting_tasks (k : GuestKernel) : list CompletedWait * GuestKernel :=
  resume_waiting_loop (child_waiters k) k.

(** ** Descriptors, futexes and sleeps *)
Definition block_task (tid : Z) (state : TaskState) (k : GuestKernel) : outcome unit TaskError * GuestKernel :=
  let '(previous, k) := set_task_state tid state k in
  (let? _ := ok_or previous (UnknownTid tid) in Ok tt, k).

Definition block_task_for_fd (tid fd : Z) (write : bool) : TaskM unit :=
  block_task tid (WaitingForFd fd write).
Definition block_task_for_futex (tid : Z) (key : FutexWaitKey) : TaskM unit :=
  block_task tid (WaitingForFutex key).
Definition block_task_for_sleep (tid : Z) : TaskM unit := block_task tid WaitingForSleep.

(** [ready] is the caller's closure over the descriptors. *)
Fixpoint resume_fd_loop (ready : Z → Z → bool → bool) (tids : list Z) (k : GuestKernel) : Z * GuestKernel :=
  match tids with
  | [] => (0, k)
  | tid :: tids =>
      match k_tasks k !! tid with
      | None => resume_fd_loop ready tids k
      | Some task =>
          match t_state task with
          | WaitingForFd fd write =>
              if ready (t_pid task) fd write then
                let '(n, k) := resume_fd_loop ready tids (put_state tid Runnable k) in (n + 1, k)
              else resume_fd_loop ready tids k
          | _ => resume_fd_loop ready tids k
          end
      end
  end.

Definition resume_fd_waiters (ready : Z → Z → bool → bool) (k : GuestKernel) : Z * GuestKernel :=
  resume_fd_loop ready (bs_iter (k_fd_wait k)) k.

Definition resume_sleep_waiter (tid : Z) (k : GuestKernel) : bool * GuestKernel :=
  match t_state <$> k_tasks k !! tid with
  | Some WaitingForSleep =>
      let '(previous, k) := set_task_state tid Runnable k in (bool_decide (is_Some previous), k)
  | _ => (false, k)
  end.

Definition futex_waiters (key : FutexWaitKey) (k : GuestKernel) : list Z :=
  bs_iter (default ∅ (k_futex_wait k !! key)).

(** Move the waiters of [key] among [tids] to [state], at most [limit] more of them. *)
Fixpoint move_futex_waiters (key : FutexWaitKey) (state : TaskState) (limit : Z) (tids : list Z)
    (k : GuestKernel) : Z * GuestKernel :=
  match tids with
  | [] => (0, k)
  | tid :: tids =>
      match t_state <$> k_tasks k !! tid with
      | Some st =>
          if decide (st = WaitingForFutex key) then
            let k := put_state tid state k in
            if limit =? 1 then (1, k) else
            let '(n, k) := move_futex_waiters key state (limit - 1) tids k in (n + 1, k)
          else move_futex_waiters key state limit tids k
      | None => move_futex_waiters key state limit tids k
      end
  end.

Definition wake_futex_waiters (key : FutexWaitKey) (limit : Z) (k : GuestKernel) : Z * GuestKernel :=
  if limit =? 0 then (0, k)
  else move_futex_waiters key Runnable limit (futex_waiters key k) k.

Definition requeue_futex_waiters (source target : FutexWaitKey) (wake_limit requeue_limit : Z)
    (k : GuestKernel) : Z * GuestKernel :=
  let '(affected, k) := wake_futex_waiters source wake_limit k in
  if (requeue_limit =? 0) || bool_decide (source = target) then (affected, k) else
  let '(requeued, k) :=
    move_futex_waiters source (WaitingForFutex target) requeue_limit (futex_waiters source k) k in
  (affected + requeued, k).

(** A futex wait that ends with an error: a timeout or a signal. *)
Definition fail_futex_waiter (errno : LinuxErrno) (tid : Z) (k : GuestKernel) : bool * GuestKernel :=
  match t_state <$> k_tasks k !! tid with
  | Some (WaitingForFutex _) =>
      let k := update_task tid
        (λ t, set_t_regs (with_syscall_return (r_rip (t_regs t)) (encode_u64 (Errno errno)) (t_regs t)) t) k in
      let '(previous, k) := set_task_state tid Runnable k in (bool_decide (is_Some previous), k)
  | _ => (false, k)
  end.

Definition timeout_futex_waiter : Z → GuestKernel → bool * GuestKernel := fail_futex_waiter ETIMEDOUT.
