(* ===== verification/TaskSyscalls.v ===== *)
(** * mcr-task: exit, signals and the task system calls

    Exit of tasks and processes, signal actions, masks, queues and waits (kernel/signal.rs);
    [dispatch_for_current_task] and the calls it answers itself (kernel/syscalls.rs). *)

From S2P Require Import Prelude SysAbi SyscallTable Dispatcher Bytes ElfParser ElfImage TaskTypes TaskKernel TaskWait.
From stdpp Require Import base gmap list strings.
From Stdlib Require Import ZArith Lia.
Open Scope Z_scope.

(** ** Validation and masks *)
Definition validate_signal (signal : Z) : outcome unit TaskError :=
  if (0 <? signal) && (signal <=? LINUX_SIGNAL_COUNT) && negb (signal =? LINUX_SIGKILL) &&
     negb (signal =? LINUX_SIGSTOP)
  then Ok tt else Err (InvalidSignal signal).

Definition validate_signal_or_probe (signal : Z) : outcome unit TaskError :=
  if signal <=? LINUX_SIGNAL_COUNT then Ok tt else Err (InvalidSignal signal).

Definition signal_matches_mask (signal signal_mask : Z) : bool :=
  (0 <? signal) && (signal <=? LINUX_SIGNAL_COUNT) &&
  negb (Z.land signal_mask (Z.shiftl 1 (signal - 1)) =? 0).

Definition unblockable_signal_mask : Z :=
  Z.lor (Z.shiftl 1 (LINUX_SIGKILL - 1)) (Z.shiftl 1 (LINUX_SIGSTOP - 1)).

Definition sanitize_signal_mask (mask : Z) : Z := without_bits mask unblockable_signal_mask.

(** [take_pending_signal]: the least matching signal, removed from the set. *)
Definition take_pending_signal (pending : gset Z) (signal_mask : Z) : option (Z * gset Z) :=
  match List.find (λ signal, signal_matches_mask signal signal_mask) (bs_iter pending) with
  | Some signal => Some (signal, pending ∖ {[signal]})
  | None => None
  end.

Definition apply_task_signal_mask (how signal_mask : Z) (task : GuestTask) : outcome GuestTask TaskError :=
  let mask := sanitize_signal_mask signal_mask in
  if how =? LINUX_SIG_BLOCK
  then Ok (set_t_signal_mask (sanitize_signal_mask (Z.lor (t_signal_mask task) mask)) task)
  else if how =? LINUX_SIG_UNBLOCK
  then Ok (set_t_signal_mask (without_bits (t_signal_mask task) mask) task)
  else if how =? LINUX_SIG_SETMASK
  then Ok (set_t_signal_mask mask task)
  else Err (InvalidSignalMaskHow how).

(** ** Delivery *)
Definition take_pending_signal_for_task (tid pid signal_mask : Z) (k : GuestKernel)
    : option Z * GuestKernel :=
  match k_tasks k !! tid ≫= λ t, take_pending_signal (t_pending_signals t) signal_mask with
  | Some (signal, pending) => (Some signal, update_task tid (set_t_pending pending) k)
  | None =>
      match k_processes k !! pid ≫= λ p, take_pending_signal (p_pending_signals p) signal_mask with
      | Some (signal, pending) => (Some signal, update_process pid (set_p_pending pending) k)
      | None => (None, k)
      end
  end.

Definition take_pending_signal_for_return_to_user (tid : Z) (k : GuestKernel) : option Z * GuestKernel :=
  match k_tasks k !! tid with
  | None => (None, k)
  | Some task =>
      match t_pending_signal_delivery task with
      | Some signal => (Some signal, update_task tid (set_t_delivery None) k)
      | None => take_pending_signal_for_task tid (t_pid task) (U64_MAX - t_signal_mask task) k
      end
  end.

(** The tasks of a process that wait for a signal: the mask, and whether the system call
    returns the signal. *)
Definition signal_waiters (pid : Z) (k : GuestKernel) : list (Z * Z * bool) :=
  omap (λ t, match t_state t with
             | WaitingForSignalSet mask => if bool_decide (t_pid t = pid) then Some (t_tid t, mask, true) else None
             | WaitingForSignalSuspend mask => if bool_decide (t_pid t = pid) then Some (t_tid t, mask, false) else None
             | _ => None
             end)
    (bt_values (k_tasks k)).

Definition wake_signal_waiter (pid tid mask : Z) (returns_signal : bool) (k : GuestKernel)
    : Z * GuestKernel :=
  match take_pending_signal_for_task tid pid mask k with
  | (None, k) => (0, k)
  | (Some signal, k) =>
      match k_tasks k !! tid with
      | None => (0, k)
      | Some _ =>
          let result := if returns_signal then signal else encode_u64 (Errno EINTR) in
          let k := update_task tid
            (λ t, set_t_regs (with_syscall_return (r_rip (t_regs t)) result (t_regs t))
                    (if returns_signal then t else set_t_delivery (Some signal) t)) k in
          (1, put_state tid Runnable k)
      end
  end.

Fixpoint wake_signal_loop (pid : Z) (waiters : list (Z * Z * bool)) (k : GuestKernel) : Z * GuestKernel :=
  match waiters with
  | [] => (0, k)
  | (tid, mask, returns_signal) :: waiters =>
      let '(woken, k) := wake_signal_waiter pid tid mask returns_signal k in
      let '(rest, k) := wake_signal_loop pid waiters k in
      (woken + rest, k)
  end.

Definition wake_signal_waiters (pid : Z) (k : GuestKernel) : Z * GuestKernel :=
  wake_signal_loop pid (signal_waiters pid k) k.

Definition signal_blocked (tid signal : Z) (k : GuestKernel) : bool :=
  match k_tasks k !! tid with
  | None => false
  | Some task => signal_matches_mask signal (t_signal_mask task)
  end.

Definition interrupt_futex_waiter : Z → GuestKernel → bool * GuestKernel := fail_futex_waiter EINTR.

Definition queue_process_signal (pid signal : Z) (k : GuestKernel) : GuestKernel :=
  let k := update_process pid (λ p, set_p_pending ({[signal]} ∪ p_pending_signals p) p) k in
  (wake_signal_waiters pid k).2.

Definition queue_task_signal (tid signal : Z) (k : GuestKernel) : GuestKernel :=
  match k_tasks k !! tid with
  | None => k
  | Some task =>
      let k := update_task tid (λ t, set_t_pending ({[signal]} ∪ t_pending_signals t) t) k in
      let k := (wake_signal_waiters (t_pid task) k).2 in
      if negb (signal_blocked tid signal k) then (interrupt_futex_waiter tid k).2 else k
  end.

(** ** Exit *)
Definition is_exited (st : TaskState) : bool := match st with Exited _ => true | _ => false end.

(** The end of a process: its exit state, the vfork parent, SIGCHLD. *)
Definition finish_process (pid status : Z) (k : GuestKernel) : GuestKernel :=
  let parent := k_processes k !! pid ≫= p_parent in
  let k := update_process pid (set_p_exit_state (ExitedWith status)) k in
  let k := resume_vfork_parent pid k in
  match parent with
  | Some parent => queue_process_signal parent LINUX_SIGCHLD k
  | None => k
  end.

Definition exit_task (tid status : Z) (k : GuestKernel) : SyscallOutcome * GuestKernel :=
  match k_tasks k !! tid with
  | None => (outcome_errno ESRCH, k)
  | Some task =>
      let pid := t_pid task in
      let k := put_state tid (Exited status) k in
      let all_exited := forallb (λ t, is_exited (t_state t))
                          (filter (λ t, t_pid t = pid) (bt_values (k_tasks k))) in
      (outcome_success 0, if all_exited then finish_process pid status k else k)
  end.

Definition exit_group (pid status : Z) (k : GuestKernel) : SyscallOutcome * GuestKernel :=
  if negb (bool_decide (is_Some (k_processes k !! pid))) then (outcome_errno ESRCH, k) else
  let k := foldl (λ k tid, put_state tid (Exited status) k) k (tids_of pid k) in
  (outcome_success 0, finish_process pid status k).

(** ** Signal system calls *)
Definition rt_sigaction_current_with_action (tid : Z) (args : RtSigactionSyscallArgs)
    (action : option GuestSignalAction) (k : GuestKernel) : SyscallOutcome * GuestKernel :=
  match k_tasks k !! tid with
  | None => (outcome_errno ESRCH, k)
  | Some task =>
      match validate_signal (sa_sig args) with
      | Err e => (into_outcome e, k)
      | _ =>
          if negb (sa_sigsetsize args =? LINUX_KERNEL_SIGSET_SIZE)
          then (into_outcome (InvalidSigsetSize (sa_sigsetsize args)), k) else
          match action with
          | None => (outcome_success 0, k)
          | Some action =>
              match k_processes k !! t_pid task with
              | None => (outcome_errno ESRCH, k)
              | Some _ =>
                  (outcome_success 0,
                   update_process (t_pid task)
                     (λ p, set_p_signals (set_action (sa_sig args) action (p_signals p)) p) k)
              end
          end
      end
  end.

Definition rt_sigaction_current (tid : Z) (args : RtSigactionSyscallArgs) (k : GuestKernel)
    : SyscallOutcome * GuestKernel :=
  rt_sigaction_current_with_action tid args
    (if negb (sa_act args =? 0) then Some (signal_action_new (sa_act args)) else None) k.

Definition rt_sigprocmask_current_mask (tid how : Z) (signal_mask : option Z) (sigsetsize : Z)
    (k : GuestKernel) : SyscallOutcome * GuestKernel :=
  match k_tasks k !! tid with
  | None => (outcome_errno ESRCH, k)
  | Some task =>
      if negb (sigsetsize =? LINUX_KERNEL_SIGSET_SIZE)
      then (into_outcome (InvalidSigsetSize sigsetsize), k) else
      if negb (supported_how how) then (into_outcome (InvalidSignalMaskHow how), k) else
      match signal_mask with
      | None => (outcome_success 0, k)
      | Some mask =>
          match apply_task_signal_mask how mask task with
          | Ok task' => (outcome_success 0, update_task tid (λ _, task') k)
          | Err e => (into_outcome e, k)
          | Panic => (outcome_success 0, k)
          end
      end
  end.

(** The kernel's own fallback takes the pointer of the set as the mask. *)
Definition rt_sigprocmask_current (tid : Z) (args : RtSigprocmaskSyscallArgs) (k : GuestKernel)
    : SyscallOutcome * GuestKernel :=
  rt_sigprocmask_current_mask tid (sp_how args)
    (if negb (sp_set args =? 0) then Some (sp_set args) else None) (sp_sigsetsize args) k.

Definition set_task_signal_mask (tid signal_mask : Z) (k : GuestKernel) : bool * GuestKernel :=
  match k_tasks k !! tid with
  | None => (false, k)
  | Some _ => (true, update_task tid (set_t_signal_mask (sanitize_signal_mask signal_mask)) k)
  end.

(** Block in a signal wait, to return after the system call instruction. *)
Definition block_in_signal_wait (tid : Z) (state : TaskState) (k : GuestKernel) : GuestKernel :=
  let return_rip := current_syscall_return_rip k tid in
  put_state tid state
    (update_task tid
       (λ t, set_t_regs (with_syscall_return return_rip (r_rax (t_regs t)) (t_regs t)) t) k).

Definition rt_sigtimedwait_current (tid signal_mask sigsetsize : Z) (wait_indefinitely : bool)
    (k : GuestKernel) : SyscallOutcome * GuestKernel :=
  if negb (sigsetsize =? LINUX_KERNEL_SIGSET_SIZE)
  then (into_outcome (InvalidSigsetSize sigsetsize), k) else
  match k_tasks k !! tid with
  | None => (outcome_errno ESRCH, k)
  | Some task =>
      match take_pending_signal_for_task tid (t_pid task) signal_mask k with
      | (Some signal, k) => (outcome_success signal, k)
      | (None, k) =>
          if wait_indefinitely
          then (outcome_success 0, block_in_signal_wait tid (WaitingForSignalSet signal_mask) k)
          else (outcome_errno EAGAIN, k)
      end
  end.

Definition rt_sigsuspend_current (tid signal_mask sigsetsize : Z) (k : GuestKernel)
    : SyscallOutcome * GuestKernel :=
  if negb (sigsetsize =? LINUX_KERNEL_SIGSET_SIZE)
  then (into_outcome (InvalidSigsetSize sigsetsize), k) else
  match k_tasks k !! tid with
  | None => (outcome_errno ESRCH, k)
  | Some task =>
      match take_pending_signal_for_task tid (t_pid task) signal_mask k with
      | (Some signal, k) => (outcome_errno EINTR, update_task tid (set_t_delivery (Some signal)) k)
      | (None, k) =>
          (outcome_success 0, block_in_signal_wait tid (WaitingForSignalSuspend signal_mask) k)
      end
  end.

Definition kill_current (args : KillSyscallArgs) (k : GuestKernel) : SyscallOutcome * GuestKernel :=
  if kill_pid args <=? 0 then (into_outcome (UnsupportedSignalTarget (kill_pid args)), k) else
  let pid := as_u32 (kill_pid args) in
  if negb (bool_decide (is_Some (k_processes k !! pid))) then (outcome_errno ESRCH, k) else
  match validate_signal_or_probe (kill_sig args) with
  | Err e => (into_outcome e, k)
  | _ =>
      if kill_sig args =? 0 then (outcome_success 0, k)
      else (outcome_success 0, queue_process_signal pid (kill_sig args) k)
  end.

Definition tkill_current (args : TkillSyscallArgs) (k : GuestKernel) : SyscallOutcome * GuestKernel :=
  if tkill_tid args <=? 0 then (into_outcome (UnsupportedSignalTarget (tkill_tid args)), k) else
  let tid := as_u32 (tkill_tid args) in
  match k_tasks k !! tid with
  | None => (outcome_errno ESRCH, k)
  | Some _ =>
      match validate_signal_or_probe (tkill_sig args) with
      | Err e => (into_outcome e, k)
      | _ =>
          if tkill_sig args =? 0 then (outcome_success 0, k)
          else (outcome_success 0, queue_task_signal tid (tkill_sig args) k)
      end
  end.

Definition tgkill_current (args : TgkillSyscallArgs) (k : GuestKernel) : SyscallOutcome * GuestKernel :=
  if (tgkill_tgid args <=? 0) || (tgkill_tid args <=? 0)
  then (into_outcome (UnsupportedSignalTarget (tgkill_tid args)), k) else
  let pid := as_u32 (tgkill_tgid args) in
  let tid := as_u32 (tgkill_tid args) in
  match k_tasks k !! tid with
  | None => (outcome_errno ESRCH, k)
  | Some task =>
      if negb (t_pid task =? pid) then (outcome_errno ESRCH, k) else
      match validate_signal_or_probe (tgkill_sig args) with
      | Err e => (into_outcome e, k)
      | _ =>
          if tgkill_sig args =? 0 then (outcome_success 0, k)
          else (outcome_success 0, queue_task_signal tid (tgkill_sig args) k)
      end
  end.

Definition set_tid_address_current (tid : Z) (args : SetTidAddressSyscallArgs) (k : GuestKernel)
    : SyscallOutcome * GuestKernel :=
  match k_tasks k !! tid with
  | None => (outcome_errno ESRCH, k)
  | Some _ =>
      (outcome_success tid,
       update_task tid
         (set_t_clear_child_tid (if negb (sta_tidptr args =? 0) then Some (sta_tidptr args) else None)) k)
  end.

Definition set_robust_list_current (tid : Z) (args : SetRobustListSyscallArgs) (k : GuestKernel)
    : SyscallOutcome * GuestKernel :=
  if negb (srl_len args =? LINUX_ROBUST_LIST_HEAD_SIZE)
  then (into_outcome (InvalidRobustListLength (srl_len args)), k) else
  match k_tasks k !! tid with
  | None => (outcome_errno ESRCH, k)
  | Some _ =>
      (outcome_success 0,
       update_task tid
         (set_t_robust_list (if negb (srl_head args =? 0) then Some (srl_head args) else None)) k)
  end.

(** ** System calls *)

Definition low_exit_status (raw : Z) : Z := Z.land raw 0xff.

Definition child_return_rip (request : SyscallRequest) : Z :=
  saturating_add64 (tc_rip (rq_context request)) X86_64_SYSCALL_INSTRUCTION_LEN.

(** [GuestPid::try_from(raw)] *)
Definition pid_try_from (raw : Z) : option Z := if raw <=? U32_MAX then Some raw else None.

(** [task_process]: the process of a task, which must exist. *)
Definition task_process (k : GuestKernel) (pid : Z) : outcome GuestProcess Empty_set :=
  expect (k_processes k !! pid).

Definition setpgid_current (current_pid raw_pid raw_pgid : Z) (k : GuestKernel)
    : SyscallOutcome * GuestKernel :=
  match (if raw_pid =? 0 then Some current_pid else pid_try_from raw_pid) with
  | None => (outcome_errno EINVAL, k)
  | Some pid =>
      match (if raw_pgid =? 0 then Some pid else pid_try_from raw_pgid) with
      | None => (outcome_errno EINVAL, k)
      | Some pgid =>
          match k_processes k !! pid with
          | None => (outcome_errno ESRCH, k)
          | Some process =>
              if negb (bool_decide (p_parent process = Some current_pid)) && negb (pid =? current_pid)
              then (outcome_errno EPERM, k)
              else (outcome_success 0, update_process pid (set_p_pgid pgid) k)
          end
      end
  end.

Definition setsid_current (current_pid : Z) (k : GuestKernel) : SyscallOutcome * GuestKernel :=
  match k_processes k !! current_pid with
  | None => (outcome_errno ESRCH, k)
  | Some _ =>
      (outcome_success current_pid,
       update_process current_pid (λ p, set_p_pgid current_pid (set_p_sid current_pid p)) k)
  end.

(** [getpgid_current] and [getsid_current], by the field they read. *)
Definition get_id_current (field : GuestProcess → Z) (current_pid raw_pid : Z) (k : GuestKernel)
    : SyscallOutcome :=
  match (if raw_pid =? 0 then Some current_pid else pid_try_from raw_pid) with
  | None => outcome_errno ESRCH
  | Some pid =>
      match k_processes k !! pid with
      | None => outcome_errno ESRCH
      | Some process => outcome_success (field process)
      end
  end.

Definition getpgid_current : Z → Z → GuestKernel → SyscallOutcome := get_id_current p_pgid.
Definition getsid_current : Z → Z → GuestKernel → SyscallOutcome := get_id_current p_sid.

Definition arch_prctl (tid code address : Z) (k : GuestKernel) : SyscallOutcome * GuestKernel :=
  match k_tasks k !! tid with
  | None => (outcome_errno ESRCH, k)
  | Some task =>
      if code =? ARCH_SET_FS then
        (outcome_success 0,
         update_task tid (λ t, set_t_tls {| fs_base := address; gs_base := gs_base (t_tls t) |} t) k)
      else if code =? ARCH_SET_GS then
        (outcome_success 0,
         update_task tid (λ t, set_t_tls {| fs_base := fs_base (t_tls t); gs_base := address |} t) k)
      else if code =? ARCH_GET_FS then (outcome_success (fs_base (t_tls task)), k)
      else if code =? ARCH_GET_GS then (outcome_success (gs_base (t_tls task)), k)
      else (outcome_errno EINVAL, k)
  end.

Definition uname (buffer : Z) : SyscallOutcome :=
  if buffer =? 0 then outcome_errno EFAULT else outcome_success 0.

(** A call that cannot panic. *)
Definition total (r : SyscallOutcome * GuestKernel) : outcome SyscallOutcome Empty_set * GuestKernel :=
  (Ok r.1, r.2).

Definition clone_args (args : SyscallArgs) : CloneSyscallArgs :=
  {| cl_flags := arg args 0; cl_child_stack := arg args 1; cl_parent_tid := arg args 2;
     cl_child_tid := arg args 3; cl_tls := arg args 4 |}.

Definition wait4_args (args : SyscallArgs) : Wait4SyscallArgs :=
  {| w4_pid := as_i32 (arg args 0); w4_wstatus := arg args 1; w4_options := as_u32 (arg args 2);
     w4_rusage := arg args 3 |}.

Definition sigaction_args (args : SyscallArgs) : RtSigactionSyscallArgs :=
  {| sa_sig := as_u32 (arg args 0); sa_act := arg args 1; sa_oldact := arg args 2;
     sa_sigsetsize := arg args 3 |}.

Definition sigprocmask_args (args : SyscallArgs) : RtSigprocmaskSyscallArgs :=
  {| sp_how := as_u32 (arg args 0); sp_set := arg args 1; sp_oldset := arg args 2;
     sp_sigsetsize := arg args 3 |}.

Definition dispatch_for_current_task (request : SyscallRequest) (k : GuestKernel)
    : outcome SyscallOutcome Empty_set * GuestKernel :=
  let tid := tc_tid (rq_context request) in
  let args := rq_args request in
  match k_tasks k !! tid with
  | None => (Ok (outcome_errno ESRCH), k)
  | Some task =>
      let pid := t_pid task in
      if negb (pid =? tc_pid (rq_context request)) then (Ok (outcome_errno ESRCH), k) else
      match rq_syscall request with
      | SysGetpid => (Ok (outcome_success pid), k)
      | SysGettid => (Ok (outcome_success (t_tid task)), k)
      | SysGetppid =>
          (let? p := task_process k pid in Ok (outcome_success (default 0 (p_parent p))), k)
      | SysGetpgrp => (let? p := task_process k pid in Ok (outcome_success (p_pgid p)), k)
      | SysGetpgid => (Ok (getpgid_current pid (arg args 0) k), k)
      | SysGetsid => (Ok (getsid_current pid (arg args 0) k), k)
      | SysGetuid | SysGeteuid | SysGetgid | SysGetegid => (Ok (outcome_success 0), k)
      | SysSetuid | SysSetgid | SysSetreuid | SysSetregid => (Ok (outcome_success 0), k)
      | SysSetpgid => total (setpgid_current pid (arg args 0) (arg args 1) k)
      | SysSetsid => total (setsid_current pid k)
      | SysFork => fork_like_current tid (child_return_rip request) k
      | SysVfork => vfork_current tid k
      | SysClone => clone_current_with_return tid (clone_args args) (child_return_rip request) k
      | SysExit => total (exit_task tid (low_exit_status (arg args 0)) k)
      | SysExitGroup => total (exit_group pid (low_exit_status (arg args 0)) k)
      | SysWait4 => wait4_current_with_return tid (wait4_args args) (child_return_rip request) k
      | SysRtSigaction => total (rt_sigaction_current tid (sigaction_args args) k)
      | SysRtSigprocmask => total (rt_sigprocmask_current tid (sigprocmask_args args) k)
      | SysRtSigreturn => (Ok (outcome_success 0), k)
      | SysRtSigtimedwait => total (rt_sigtimedwait_current tid 0 (arg args 3) false k)
      | SysKill =>
          total (kill_current {| kill_pid := as_i32 (arg args 0); kill_sig := as_u32 (arg args 1) |} k)
      | SysTkill =>
          total (tkill_current {| tkill_tid := as_i32 (arg args 0); tkill_sig := as_u32 (arg args 1) |} k)
      | SysTgkill =>
          total (tgkill_current {| tgkill_tgid := as_i32 (arg args 0); tgkill_tid := as_i32 (arg args 1);
                                   tgkill_sig := as_u32 (arg args 2) |} k)
      | SysSetTidAddress => total (set_tid_address_current tid {| sta_tidptr := arg args 0 |} k)
      | SysSetRobustList =>
          total (set_robust_list_current tid {| srl_head := arg args 0; srl_len := arg args 1 |} k)
      | SysUname => (Ok (uname (arg args 0)), k)
      | SysArchPrctl => total (arch_prctl tid (arg args 0) (arg args 1) k)
      | SysExecve =>
          match task_process k pid with
          | Ok process =>
              let image := p_image process in
              let program := program_new (gi_executable image) in
              let program := match gi_interpreter image with
                             | Some interpreter => with_interpreter interpreter program
                             | None => program
                             end in
              execve_current tid program k
          | Err e => (Err e, k)
          | Panic => (Panic, k)
          end
      | _ => (Ok outcome_unsupported, k)
      end
  end.
