(* ===== verification/TaskInv.v ===== *)
(** * mcr-task: the indexes of the kernel

    The sets of runnable, child-waiting and descriptor-waiting tasks and the futex queues
    hold exactly the tasks in the corresponding state, through every change of state. *)

From S2P Require Import Prelude SysAbi SyscallTable Dispatcher Bytes ElfParser ElfImage TaskTypes TaskKernel TaskWait TaskSyscalls.
From stdpp Require Import base gmap list strings functions sorting.
From Stdlib Require Import ZArith Lia Sorting.Sorted.
Open Scope Z_scope.

(** ** Indexes *)
Definition state_of (k : GuestKernel) (tid : Z) : option TaskState := t_state <$> k_tasks k !! tid.

(** The indexes of [k] describe the states [σ]. *)
Record indexed (k : GuestKernel) (σ : Z → option TaskState) : Prop := {
  ix_runnable : ∀ tid, tid ∈ k_runnable k ↔ σ tid = Some Runnable;
  ix_child : ∀ tid, tid ∈ k_child_wait k ↔ ∃ args, σ tid = Some (WaitingForChild args);
  ix_fd : ∀ tid, tid ∈ k_fd_wait k ↔ ∃ fd write, σ tid = Some (WaitingForFd fd write);
  ix_futex : ∀ key tid, tid ∈ default ∅ (k_futex_wait k !! key) ↔ σ tid = Some (WaitingForFutex key);
  ix_nonempty : ∀ key s, k_futex_wait k !! key = Some s → s ≠ ∅;
}.

Definition index_wf (k : GuestKernel) : Prop := indexed k (state_of k).

Lemma indexed_ext k σ σ' : (∀ tid, σ tid = σ' tid) → indexed k σ → indexed k σ'.
Proof.
  intros He [H1 H2 H3 H4 H5]. split; try done.
  - intros tid. by rewrite <- (He tid).
  - intros tid. by rewrite <- (He tid).
  - intros tid. by rewrite <- (He tid).
  - intros key tid. by rewrite <- (He tid).
Qed.

Lemma fn_insert_eq (σ : Z → option TaskState) tid st : <[tid := st]> σ tid = st.
Proof. apply fn_lookup_insert. Qed.

Lemma fn_insert_ne (σ : Z → option TaskState) tid tid' st : tid ≠ tid' → <[tid := st]> σ tid' = σ tid'.
Proof. apply fn_lookup_insert_ne. Qed.

(** One membership fact after an update of the described states. *)
Ltac index_case tid tid' :=
  destruct (decide (tid = tid')) as [<-|];
  [rewrite ?fn_insert_eq|rewrite ?fn_insert_ne by done].

Lemma index_state k σ tid st :
  σ tid = None → indexed k σ → indexed (index_task_state tid st k) (<[tid := Some st]> σ).
Proof.
  intros Hn [H1 H2 H3 H4 H5].
  split.
  - intros tid'. index_case tid tid'; destruct st; simpl; rewrite ?elem_of_union, ?elem_of_singleton, H1; try naive_solver congruence.
  - intros tid'. index_case tid tid'; destruct st; simpl; rewrite ?elem_of_union, ?elem_of_singleton, H2; try naive_solver congruence.
  - intros tid'. index_case tid tid'; destruct st; simpl; rewrite ?elem_of_union, ?elem_of_singleton, H3; try naive_solver congruence.
  - intros key tid'. destruct st as [| | | | | |key'| |]; simpl; try (rewrite H4; index_case tid tid'; naive_solver congruence).
    destruct (decide (key' = key)) as [->|Hk].
    + rewrite lookup_insert_eq. simpl. rewrite elem_of_union, elem_of_singleton, H4.
      index_case tid tid'; naive_solver congruence.
    + rewrite lookup_insert_ne by done. rewrite H4. index_case tid tid'; naive_solver congruence.
  - intros key s. destruct st as [| | | | | |key'| |]; simpl; try apply H5.
    intros [[-> <-]|[_ Hs]]%lookup_insert_Some; [set_solver|by eapply H5].
Qed.

Lemma unindex_state k σ tid st :
  σ tid = Some st → indexed k σ → indexed (unindex_task_state tid st k) (<[tid := None]> σ).
Proof.
  intros Hs [H1 H2 H3 H4 H5]. split.
  - intros tid'. index_case tid tid'; destruct st; simpl; rewrite ?elem_of_difference, ?elem_of_singleton, H1; naive_solver congruence.
  - intros tid'. index_case tid tid'; destruct st; simpl; rewrite ?elem_of_difference, ?elem_of_singleton, H2; naive_solver congruence.
  - intros tid'. index_case tid tid'; destruct st; simpl; rewrite ?elem_of_difference, ?elem_of_singleton, H3; naive_solver congruence.
  - intros key tid'. destruct st as [| | | | | |key'| |]; simpl; try (rewrite H4; index_case tid tid'; naive_solver congruence).
    pose proof (H4 key' tid) as Htid. destruct (k_futex_wait k !! key') as [s|] eqn:Hk; simpl in Htid; [|set_solver].
    destruct (decide (key' = key)) as [<-|Hne].
    + assert (tid' ∈ s ↔ σ tid' = Some (WaitingForFutex key')) as Hs' by (rewrite <- H4, Hk; done).
      transitivity (tid' ∈ s ∖ {[tid]}).
      { case_bool_decide as He; [rewrite lookup_delete_eq, He|rewrite lookup_insert_eq]; done. }
      rewrite elem_of_difference, elem_of_singleton, Hs'. index_case tid tid'; naive_solver congruence.
    + assert (∀ m, default ∅ (m !! key) = default ∅ (k_futex_wait k !! key) →
        tid' ∈ default ∅ ((m : gmap FutexWaitKey (gset Z)) !! key) ↔ <[tid := None]> σ tid' = Some (WaitingForFutex key)) as Hm.
      { intros m ->. rewrite H4. index_case tid tid'; naive_solver congruence. }
      apply Hm. case_bool_decide; [by rewrite lookup_delete_ne|by rewrite lookup_insert_ne].
  - intros key s. destruct st as [| | | | | |key'| |]; simpl; try apply H5.
    destruct (k_futex_wait k !! key') as [s0|] eqn:Hk; [|apply H5]. case_bool_decide as He.
    + intros [_ Hs']%lookup_delete_Some. by eapply H5.
    + intros [[-> <-]|[_ Hs']]%lookup_insert_Some; [done|by eapply H5].
Qed.

(** Updates of the other fields are invisible to the indexes. *)
Lemma indexed_fields k k' σ :
  k_runnable k' = k_runnable k → k_child_wait k' = k_child_wait k → k_fd_wait k' = k_fd_wait k →
  k_futex_wait k' = k_futex_wait k → indexed k σ → indexed k' σ.
Proof. intros H1 H2 H3 H4 []. split; rewrite ?H1, ?H2, ?H3, ?H4; done. Qed.

(** [core_of]: the state without its indexes. *)
Definition core_of (k : GuestKernel) : Z * Z * gmap Z GuestProcess * gmap Z GuestTask :=
  (k_next_pid k, k_next_tid k, k_processes k, k_tasks k).

Lemma index_core tid st k : core_of (index_task_state tid st k) = core_of k.
Proof. by destruct st. Qed.

Lemma unindex_core tid st k : core_of (unindex_task_state tid st k) = core_of k.
Proof. by destruct st. Qed.

Lemma set_t_state_same t : set_t_state (t_state t) t = t.
Proof. by destruct t. Qed.

Lemma alter_same {A} (f : A → A) i x (m : gmap Z A) : m !! i = Some x → f x = x → alter f i m = m.
Proof.
  intros Hi Hf. apply map_eq. intros j. destruct (decide (i = j)) as [<-|].
  - by rewrite lookup_alter_eq, Hi; simpl; rewrite Hf.
  - by rewrite lookup_alter_ne.
Qed.

Lemma alter_None {A} (f : A → A) i (m : gmap Z A) : m !! i = None → alter f i m = m.
Proof.
  intros Hi. apply map_eq. intros j. destruct (decide (i = j)) as [<-|].
  - by rewrite lookup_alter_eq, Hi.
  - by rewrite lookup_alter_ne.
Qed.

(** [set_task_state] changes one state, and the indexes with it. *)
Lemma put_state_core tid st k :
  core_of (put_state tid st k) = (k_next_pid k, k_next_tid k, k_processes k, alter (set_t_state st) tid (k_tasks k)).
Proof.
  unfold put_state, set_task_state. destruct (k_tasks k !! tid) as [t|] eqn:Ht; simpl.
  - destruct (decide (t_state t = st)) as [<-|]; simpl.
    + unfold core_of. rewrite (alter_same _ _ _ _ Ht); [done|apply set_t_state_same].
    + rewrite index_core. unfold update_task, set_tasks, core_of; simpl.
      pose proof (unindex_core tid (t_state t) k) as Hc. unfold core_of in Hc. by injection Hc as -> -> -> ->.
  - unfold core_of. by rewrite alter_None.
Qed.

Lemma core_tasks k np nt ps ts : core_of k = (np, nt, ps, ts) → k_tasks k = ts.
Proof. by intros [= _ _ _ ->]. Qed.

Lemma core_processes k np nt ps ts : core_of k = (np, nt, ps, ts) → k_processes k = ps.
Proof. by intros [= _ _ -> _]. Qed.

Lemma core_next_pid k np nt ps ts : core_of k = (np, nt, ps, ts) → k_next_pid k = np.
Proof. by intros [= -> _ _ _]. Qed.

Lemma core_next_tid k np nt ps ts : core_of k = (np, nt, ps, ts) → k_next_tid k = nt.
Proof. by intros [= _ -> _ _]. Qed.

Lemma put_state_tasks tid st k : k_tasks (put_state tid st k) = alter (set_t_state st) tid (k_tasks k).
Proof. exact (core_tasks _ _ _ _ _ (put_state_core tid st k)). Qed.

Lemma put_state_index tid st k : index_wf k → index_wf (put_state tid st k).
Proof.
  intros Hwf. pose proof (put_state_tasks tid st k) as Htasks. unfold put_state, set_task_state in *.
  destruct (k_tasks k !! tid) as [t|] eqn:Ht; [|done].
  destruct (decide (t_state t = st)) as [|Hne]; [done|]. simpl in *.
  assert (state_of k tid = Some (t_state t)) as Hs by (unfold state_of; by rewrite Ht).
  pose proof (unindex_state k (state_of k) tid _ Hs Hwf) as Hu.
  set (k1 := unindex_task_state tid (t_state t) k) in *.
  assert (Hi : indexed (index_task_state tid st (update_task tid (set_t_state st) k1))
                 (<[tid := Some st]> (<[tid := None]> (state_of k)))).
  { apply index_state; [by rewrite fn_insert_eq|]. by eapply indexed_fields; [..|exact Hu]. }
  unfold index_wf. eapply indexed_ext; [|exact Hi]. intros tid'.
  unfold state_of. rewrite Htasks.
  index_case tid tid'; [by rewrite lookup_alter_eq, Ht|]. by rewrite lookup_alter_ne.
Qed.

Lemma insert_task_core t k :
  core_of (insert_task t k) = (k_next_pid k, k_next_tid k, k_processes k, <[t_tid t := t]> (k_tasks k)).
Proof.
  unfold insert_task. pose proof (index_core (t_tid t) (t_state t) k) as Hc. unfold core_of in *. simpl.
  by injection Hc as -> -> -> ->.
Qed.

Lemma insert_task_index t k :
  k_tasks k !! t_tid t = None → index_wf k → index_wf (insert_task t k).
Proof.
  intros Hn Hwf. pose proof (core_tasks _ _ _ _ _ (insert_task_core t k)) as Htasks.
  unfold index_wf. eapply indexed_ext; [|eapply indexed_fields;
    [..|apply (index_state k (state_of k) (t_tid t) (t_state t)); [unfold state_of; by rewrite Hn|done]]]; try done.
  intros tid'. unfold state_of. rewrite Htasks. index_case (t_tid t) tid'; [by rewrite lookup_insert_eq|].
  by rewrite lookup_insert_ne.
Qed.

Lemma remove_task_core tid k :
  (∀ t, k_tasks k !! tid = Some t → t_tid t = tid) →
  core_of (remove_task tid k) = (k_next_pid k, k_next_tid k, k_processes k, delete tid (k_tasks k)).
Proof.
  intros Hid. unfold remove_task. destruct (k_tasks k !! tid) as [t|] eqn:Ht.
  - by rewrite unindex_core.
  - unfold core_of. by rewrite delete_id.
Qed.

Lemma remove_task_index tid k :
  (∀ t, k_tasks k !! tid = Some t → t_tid t = tid) → index_wf k → index_wf (remove_task tid k).
Proof.
  intros Hid Hwf. pose proof (core_tasks _ _ _ _ _ (remove_task_core tid k Hid)) as Htasks.
  unfold index_wf. assert (Hst : ∀ tid', (<[tid := None]> (state_of k)) tid' = state_of (remove_task tid k) tid').
  { intros tid'. unfold state_of. rewrite Htasks. index_case tid tid'; [by rewrite lookup_delete_eq|].
    by rewrite lookup_delete_ne. }
  eapply indexed_ext; [exact Hst|]. unfold remove_task.
  destruct (k_tasks k !! tid) as [t|] eqn:Ht.
  - rewrite (Hid t eq_refl). eapply (indexed_fields (unindex_task_state tid (t_state t) k)); [by destruct (t_state t)..|].
    apply unindex_state; [|done]. unfold state_of. by rewrite Ht.
  - eapply indexed_ext; [|exact Hwf]. intros tid'. index_case tid tid'; [|done]. unfold state_of. by rewrite Ht.
Qed.

(** A task update that keeps the states. *)
Lemma update_task_index tid f k :
  (∀ t, t_state (f t) = t_state t) → index_wf k → index_wf (update_task tid f k).
Proof.
  intros Hf Hwf. eapply indexed_ext; [|by eapply (indexed_fields k)]. intros tid'.
  unfold state_of, update_task; simpl. destruct (decide (tid = tid')) as [<-|].
  - rewrite lookup_alter_eq. destruct (k_tasks k !! tid); simpl; [|done]. by rewrite Hf.
  - by rewrite lookup_alter_ne.
Qed.

Lemma set_processes_index f k : index_wf k → index_wf (set_processes f k).
Proof. intros Hwf. by eapply (indexed_fields k). Qed.

(** ** mcr-task: the invariant of the kernel

    What every reachable kernel satisfies: the indexes are exact, ids are fresh, every
    task has its process, parents and children agree, a process is running exactly while
    one of its tasks lives, and nobody waits for a wake-up that has already happened. *)

Definition parent_of (ps : gmap Z GuestProcess) (c : Z) : option Z := ps !! c ≫= p_parent.

Definition live (t : GuestTask) : Prop := is_exited (t_state t) = false.

Definition sane_mask (mask : Z) : Prop := Z.land mask unblockable_signal_mask = 0.

(** The signals a state waits for. *)
Definition waits_for (st : TaskState) : option Z :=
  match st with
  | WaitingForSignalSet mask | WaitingForSignalSuspend mask => Some mask
  | _ => None
  end.

Definition no_match (pending : gset Z) (mask : Z) : Prop :=
  ∀ signal, signal ∈ pending → signal_matches_mask signal mask = false.

(** Ids, owners, family and masks. *)
Record graph_wf (np nt : Z) (ps : gmap Z GuestProcess) (ts : gmap Z GuestTask) : Prop := {
  gw_first : 1 ≤ np ≤ U32_MAX ∧ 1 ≤ nt ≤ U32_MAX;
  gw_pid : ∀ pid p, ps !! pid = Some p → p_pid p = pid ∧ 1 ≤ pid < np;
  gw_tid : ∀ tid t, ts !! tid = Some t → t_tid t = tid ∧ 1 ≤ tid < nt;
  gw_owner : ∀ tid t, ts !! tid = Some t → is_Some (ps !! t_pid t);
  gw_child : ∀ pid p c, ps !! pid = Some p → c ∈ p_children p ↔ parent_of ps c = Some pid;
  gw_parent : ∀ pid q, parent_of ps pid = Some q → 1 ≤ q < pid;
  gw_mask : ∀ tid t, ts !! tid = Some t → sane_mask (t_signal_mask t);
}.

(** A process runs exactly while one of its tasks lives. *)
Definition live_at (ps : gmap Z GuestProcess) (ts : gmap Z GuestTask) (pid : Z) : Prop :=
  ∀ p, ps !! pid = Some p →
    p_exit_state p = Running ↔ ∃ tid t, ts !! tid = Some t ∧ t_pid t = pid ∧ live t.

(** A task waits for a vfork child only while the child is its process's and running. *)
Definition vfork_at (ps : gmap Z GuestProcess) (ts : gmap Z GuestTask) (c : Z) : Prop :=
  ∀ tid t, ts !! tid = Some t → t_state t = WaitingForVfork c →
    ∃ q, ps !! c = Some q ∧ p_parent q = Some (t_pid t) ∧ p_exit_state q = Running.

(** No task of the process waits for a signal that is already pending. *)
Definition signal_at (ps : gmap Z GuestProcess) (ts : gmap Z GuestTask) (pid : Z) : Prop :=
  ∀ tid t mask, ts !! tid = Some t → t_pid t = pid → waits_for (t_state t) = Some mask →
    no_match (t_pending_signals t) mask ∧
    ∀ p, ps !! pid = Some p → no_match (p_pending_signals p) mask.

(** The invariant, with the last three clauses restricted to some ids: an operation breaks
    them for one id and repairs them. *)
Record wf_for (L V S : Z → Prop) (k : GuestKernel) : Prop := {
  kw_index : index_wf k;
  kw_graph : graph_wf (k_next_pid k) (k_next_tid k) (k_processes k) (k_tasks k);
  kw_live : ∀ pid, L pid → live_at (k_processes k) (k_tasks k) pid;
  kw_vfork : ∀ c, V c → vfork_at (k_processes k) (k_tasks k) c;
  kw_signal : ∀ pid, S pid → signal_at (k_processes k) (k_tasks k) pid;
}.

Definition everywhere (_ : Z) : Prop := True.
Definition except (x y : Z) : Prop := y ≠ x.

Definition kernel_wf : GuestKernel → Prop := wf_for everywhere everywhere everywhere.

Lemma wf_for_weaken (L V S L' V' S' : Z → Prop) k :
  (∀ x, L' x → L x) → (∀ x, V' x → V x) → (∀ x, S' x → S x) → wf_for L V S k → wf_for L' V' S' k.
Proof. intros HL HV HS []. split; auto. Qed.

(** ** Updates that keep ids, states and family *)
Record lesser_task (t t' : GuestTask) : Prop := {
  lt_tid : t_tid t' = t_tid t;
  lt_pid : t_pid t' = t_pid t;
  lt_state : t_state t' = t_state t;
  lt_mask : sane_mask (t_signal_mask t) → sane_mask (t_signal_mask t');
  lt_pending : t_pending_signals t' ⊆ t_pending_signals t;
}.

Record lesser_process (p p' : GuestProcess) : Prop := {
  lp_pid : p_pid p' = p_pid p;
  lp_parent : p_parent p' = p_parent p;
  lp_children : p_children p' = p_children p;
  lp_exit : p_exit_state p' = p_exit_state p;
  lp_pending : p_pending_signals p' ⊆ p_pending_signals p;
}.

Lemma no_match_sub s s' mask : s' ⊆ s → no_match s mask → no_match s' mask.
Proof. intros Hs H signal Hin. apply H. set_solver. Qed.

Lemma alter_lookup {A} (f : A → A) i j (m : gmap Z A) :
  alter f i m !! j = if decide (i = j) then f <$> m !! j else m !! j.
Proof. case_decide as H; [subst; apply lookup_alter_eq|by apply lookup_alter_ne]. Qed.

(** An altered task is an old task, changed or not. *)
Lemma alter_inv {A} (f : A → A) i j (m : gmap Z A) y :
  alter f i m !! j = Some y → ∃ x, m !! j = Some x ∧ (y = x ∨ i = j ∧ y = f x).
Proof.
  rewrite alter_lookup. case_decide; [|eauto]. intros (x & Hx & ->)%fmap_Some. eauto.
Qed.

Section updates.
Context (np nt : Z) (ps : gmap Z GuestProcess) (ts : gmap Z GuestTask).

(** The family is untouched by a process update that keeps parents. *)
Lemma parent_of_alter pid f c :
  (∀ p, ps !! pid = Some p → p_parent (f p) = p_parent p) →
  parent_of (alter f pid ps) c = parent_of ps c.
Proof.
  intros Hf. unfold parent_of. rewrite alter_lookup. case_decide as H; [subst|done].
  destruct (ps !! c) as [p|] eqn:Hp; simpl; [by apply Hf|done].
Qed.

Lemma graph_task tid f :
  (∀ t, ts !! tid = Some t → t_tid (f t) = t_tid t ∧ t_pid (f t) = t_pid t ∧
     (sane_mask (t_signal_mask t) → sane_mask (t_signal_mask (f t)))) →
  graph_wf np nt ps ts → graph_wf np nt ps (alter f tid ts).
Proof.
  intros Hf [H1 H2 H3 H4 H5 H6 H7]. split; try done.
  - intros tid' t (x & Hx & [->|[-> ->]])%alter_inv; [by apply H3|].
    destruct (Hf _ Hx) as (-> & _). by apply H3.
  - intros tid' t (x & Hx & [->|[-> ->]])%alter_inv; [by eapply H4|].
    destruct (Hf _ Hx) as (_ & -> & _). by eapply H4.
  - intros tid' t (x & Hx & [->|[-> ->]])%alter_inv; [by eapply H7|].
    destruct (Hf _ Hx) as (_ & _ & Hm). by eapply Hm, H7.
Qed.

Lemma graph_process pid f :
  (∀ p, ps !! pid = Some p → p_pid (f p) = p_pid p ∧ p_parent (f p) = p_parent p ∧ p_children (f p) = p_children p) →
  graph_wf np nt ps ts → graph_wf np nt (alter f pid ps) ts.
Proof.
  intros Hf [H1 H2 H3 H4 H5 H6 H7].
  assert (Hpar : ∀ c, parent_of (alter f pid ps) c = parent_of ps c).
  { intros c. apply parent_of_alter. intros p Hp. by destruct (Hf _ Hp) as (_ & ? & _). }
  split; try done.
  - intros pid' p (x & Hx & [->|[-> ->]])%alter_inv; [by apply H2|].
    destruct (Hf _ Hx) as (-> & _). by apply H2.
  - intros tid t Ht. rewrite alter_lookup. case_decide; [|by eapply H4].
    apply fmap_is_Some. by eapply H4.
  - intros pid' p c (x & Hx & [->|[-> ->]])%alter_inv; rewrite Hpar; [by apply H5|].
    destruct (Hf _ Hx) as (_ & _ & ->). by apply H5.
  - intros pid' q. rewrite Hpar. apply H6.
Qed.
End updates.

Lemma wf_update_task L V S tid f k :
  (∀ t, k_tasks k !! tid = Some t → lesser_task t (f t)) → wf_for L V S k →
  wf_for L V S (update_task tid f k).
Proof.
  intros Hf [H1 H2 H3 H4 H5]. split; simpl.
  - eapply indexed_ext; [|by eapply (indexed_fields k)]. intros tid'. unfold state_of; simpl.
    rewrite alter_lookup. case_decide as Hd; [subst|done].
    destruct (k_tasks k !! tid') as [t|] eqn:Ht; simpl; [|done]. by rewrite (lt_state _ _ (Hf _ eq_refl)).
  - apply graph_task; [|done]. intros t Ht. by destruct (Hf _ Ht).
  - intros pid HL p Hp. rewrite (H3 pid HL p Hp). split; intros (tid' & t & Ht & Hpid & Hlv).
    + exists tid'. rewrite alter_lookup. case_decide as Hd; [subst|eauto]. rewrite Ht. exists (f t).
      destruct (Hf _ Ht) as [_ Hp' Hs' _ _]. unfold live. by rewrite Hp', Hs'.
    + apply alter_inv in Ht as (x & Hx & [->|[-> ->]]); [eauto|].
      destruct (Hf _ Hx) as [_ Hp' Hs' _ _]. unfold live in Hlv. rewrite Hp' in Hpid. rewrite Hs' in Hlv.
      unfold live. eauto.
  - intros c HV tid' t (x & Hx & [->|[-> ->]])%alter_inv Hst; [by eapply H4|].
    destruct (Hf _ Hx) as [_ Hp' Hs' _ _]. rewrite Hp'. rewrite Hs' in Hst. by eapply H4.
  - intros pid HS tid' t mask (x & Hx & [->|[-> ->]])%alter_inv Hpid Hw; [by eapply H5|].
    destruct (Hf _ Hx) as [_ Hp' Hs' _ Hsub]. rewrite Hp' in Hpid. rewrite Hs' in Hw.
    destruct (H5 _ HS _ _ _ Hx Hpid Hw) as [Hn ?]. split; [|done]. by eapply no_match_sub.
Qed.

Lemma wf_update_process L V S pid f k :
  (∀ p, k_processes k !! pid = Some p → lesser_process p (f p)) → wf_for L V S k →
  wf_for L V S (update_process pid f k).
Proof.
  intros Hf [H1 H2 H3 H4 H5]. split; simpl.
  - by apply set_processes_index.
  - apply graph_process; [|done]. intros p Hp. by destruct (Hf _ Hp).
  - intros pid' HL p (x & Hx & [->|[-> ->]])%alter_inv; [by apply H3|].
    destruct (Hf _ Hx) as [_ _ _ He _]. rewrite He. by apply H3.
  - intros c HV tid t Ht Hst. destruct (H4 _ HV _ _ Ht Hst) as (q & Hq & Hpar & Hrun).
    rewrite alter_lookup. case_decide as Hd; [subst|eauto]. rewrite Hq. exists (f q).
    destruct (Hf _ Hq) as [_ -> _ -> _]. done.
  - intros pid' HS tid t mask Ht Hpid Hw. destruct (H5 _ HS _ _ _ Ht Hpid Hw) as [Hn Hp'].
    split; [done|]. intros p (x & Hx & [->|[-> ->]])%alter_inv; [by apply Hp'|].
    eapply no_match_sub; [|by apply Hp']. apply (Hf _ Hx).
Qed.

(** ** Changes of state *)
Lemma wf_for_core (L V S : Z → Prop) k np nt ps ts :
  core_of k = (np, nt, ps, ts) → index_wf k → graph_wf np nt ps ts →
  (∀ pid, L pid → live_at ps ts pid) → (∀ c, V c → vfork_at ps ts c) →
  (∀ pid, S pid → signal_at ps ts pid) → wf_for L V S k.
Proof. unfold core_of. intros [= <- <- <- <-]. by split. Qed.

(** A living task takes another living state. *)
Lemma wf_put_state (L V S : Z → Prop) tid st t k :
  k_tasks k !! tid = Some t → live t → is_exited st = false →
  (∀ c, st = WaitingForVfork c → V c →
     ∃ q, k_processes k !! c = Some q ∧ p_parent q = Some (t_pid t) ∧ p_exit_state q = Running) →
  (∀ mask, waits_for st = Some mask → S (t_pid t) → no_match (t_pending_signals t) mask ∧
     ∀ p, k_processes k !! t_pid t = Some p → no_match (p_pending_signals p) mask) →
  wf_for L V S k → wf_for L V S (put_state tid st k).
Proof.
  intros Ht Hlv Hst Hvf Hsg [H1 H2 H3 H4 H5].
  eapply wf_for_core; [apply put_state_core|by apply put_state_index|..].
  - by apply graph_task.
  - intros pid HL p Hp. rewrite (H3 pid HL p Hp). split; intros (tid' & t' & Ht' & Hpid & Hlv').
    + exists tid'. rewrite alter_lookup. case_decide as Hd; [subst tid'|eauto]. rewrite Ht'. exists (set_t_state st t').
      done.
    + apply alter_inv in Ht' as (x & Hx & [->|[-> ->]]); [eauto|]. simplify_eq. eauto.
  - intros c HV tid' t' (x & Hx & [->|[-> ->]])%alter_inv Hst'; [by eapply H4|]. simplify_eq. by apply Hvf.
  - intros pid HS tid' t' mask (x & Hx & [->|[-> ->]])%alter_inv Hpid Hw; [by eapply H5|].
    simplify_eq/=. by apply Hsg.
Qed.

(** The states a task takes without a condition. *)
Definition plain (st : TaskState) : Prop :=
  match st with
  | WaitingForVfork _ | WaitingForSignalSet _ | WaitingForSignalSuspend _ | Exited _ => False
  | _ => True
  end.

Lemma wf_put_plain L V S tid st k :
  (∀ t, k_tasks k !! tid = Some t → live t) → plain st → wf_for L V S k → wf_for L V S (put_state tid st k).
Proof.
  intros Hlv Hst Hwf. destruct (k_tasks k !! tid) as [t|] eqn:Ht.
  - eapply wf_put_state; eauto; by destruct st.
  - unfold put_state, set_task_state. by rewrite Ht.
Qed.

(** A task exits: its process may have no living task left. *)
Lemma wf_put_exited (L V S : Z → Prop) tid status t k :
  k_tasks k !! tid = Some t → wf_for L V S k →
  wf_for (λ pid, L pid ∧ pid ≠ t_pid t) V S (put_state tid (Exited status) k).
Proof.
  intros Ht [H1 H2 H3 H4 H5].
  eapply wf_for_core; [apply put_state_core|by apply put_state_index|..].
  - by apply graph_task.
  - intros pid [HL Hne] p Hp. rewrite (H3 pid HL p Hp). split; intros (tid' & t' & Ht' & Hpid & Hlv').
    + exists tid'. rewrite alter_lookup. case_decide as Hd; [|eauto]. subst tid'. congruence.
    + apply alter_inv in Ht' as (x & Hx & [->|[-> ->]]); [eauto|]. by simplify_eq.
  - intros c HV tid' t' (x & Hx & [->|[-> ->]])%alter_inv Hst'; [by eapply H4|done].
  - intros pid HS tid' t' mask (x & Hx & [->|[-> ->]])%alter_inv Hpid Hw; [by eapply H5|done].
Qed.

Lemma foldl_inv {A B} (P : B → Prop) (f : B → A → B) l b :
  P b → (∀ b x, x ∈ l → P b → P (f b x)) → P (foldl f b l).
Proof.
  revert b. induction l as [|x l IH]; intros b Hb Hf; simpl; [done|].
  apply IH; [apply Hf; [by left|done]|]. intros b' y Hy. apply Hf. by right.
Qed.

(** ** The tasks of a process *)
Lemma elem_of_omap_tasks {A} (f : GuestTask → option A) k x :
  x ∈ omap f (bt_values (k_tasks k)) ↔ ∃ tid t, k_tasks k !! tid = Some t ∧ f t = Some x.
Proof.
  rewrite list_elem_of_omap. setoid_rewrite elem_of_bt_values. naive_solver.
Qed.

Lemma elem_of_tids_of L V S pid k tid :
  wf_for L V S k → tid ∈ tids_of pid k ↔ ∃ t, k_tasks k !! tid = Some t ∧ t_pid t = pid.
Proof.
  intros Hwf. unfold tids_of. rewrite elem_of_omap_tasks. split.
  - intros (tid' & t & Ht & Hf). case_bool_decide; [|done]. injection Hf as <-.
    destruct (gw_tid _ _ _ _ (kw_graph _ _ _ _ Hwf) _ _ Ht) as [-> _]. eauto.
  - intros (t & Ht & <-). exists tid, t. split; [done|]. rewrite bool_decide_eq_true_2 by done.
    by destruct (gw_tid _ _ _ _ (kw_graph _ _ _ _ Hwf) _ _ Ht) as [-> _].
Qed.

Lemma elem_of_vfork_waiters L V S c parent k tid :
  wf_for L V S k →
  tid ∈ vfork_waiters c parent k ↔
  ∃ t, k_tasks k !! tid = Some t ∧ t_pid t = parent ∧ t_state t = WaitingForVfork c.
Proof.
  intros Hwf. unfold vfork_waiters. rewrite elem_of_omap_tasks. split.
  - intros (tid' & t & Ht & Hf). destruct (bool_decide (t_pid t = parent)) eqn:H1,
      (bool_decide (t_state t = WaitingForVfork c)) eqn:H2; simpl in Hf; try done. injection Hf as <-.
    apply bool_decide_eq_true in H1, H2.
    destruct (gw_tid _ _ _ _ (kw_graph _ _ _ _ Hwf) _ _ Ht) as [-> _]. eauto.
  - intros (t & Ht & H1 & H2). exists tid, t. split; [done|]. rewrite !bool_decide_eq_true_2 by done.
    simpl. by destruct (gw_tid _ _ _ _ (kw_graph _ _ _ _ Hwf) _ _ Ht) as [-> _].
Qed.

(** Making a list of tasks runnable. *)
Definition wake_all (tids : list Z) (k : GuestKernel) : GuestKernel :=
  foldl (λ k tid, put_state tid Runnable k) k tids.

Lemma wake_all_tasks tids k tid :
  k_tasks (wake_all tids k) !! tid =
  (if decide (tid ∈ tids) then set_t_state Runnable else id) <$> k_tasks k !! tid.
Proof.
  unfold wake_all. revert k. induction tids as [|x tids IH]; intros k; simpl.
  - by destruct (k_tasks k !! tid).
  - rewrite IH, put_state_tasks, alter_lookup.
    repeat case_decide; subst; try (exfalso; set_solver); by destruct (k_tasks k !! tid).
Qed.

Lemma wake_all_core tids k :
  k_processes (wake_all tids k) = k_processes k ∧ k_next_pid (wake_all tids k) = k_next_pid k ∧
  k_next_tid (wake_all tids k) = k_next_tid k.
Proof.
  unfold wake_all. revert k. induction tids as [|x tids IH]; intros k; simpl; [done|].
  destruct (IH (put_state x Runnable k)) as (-> & -> & ->).
  pose proof (put_state_core x Runnable k) as [= -> -> -> _]. done.
Qed.

Lemma wf_wake_all L V S tids k :
  (∀ tid t, tid ∈ tids → k_tasks k !! tid = Some t → live t) → wf_for L V S k → wf_for L V S (wake_all tids k).
Proof.
  unfold wake_all. revert k. induction tids as [|x tids IH]; intros k Hlv Hwf; simpl; [done|]. apply IH.
  - intros tid t Hin. rewrite put_state_tasks. intros (t' & Ht' & [->|[-> ->]])%alter_inv; [|done].
    eapply Hlv; [|done]. by right.
  - apply wf_put_plain; [|done|done]. intros t. apply Hlv. by left.
Qed.

(** ** vfork *)
Lemma wf_resume_vfork (L V S : Z → Prop) c k :
  wf_for L V S k →
  (∀ tid t, k_tasks k !! tid = Some t → t_state t = WaitingForVfork c →
     parent_of (k_processes k) c = Some (t_pid t)) →
  wf_for L (λ x, V x ∨ x = c) S (resume_vfork_parent c k).
Proof.
  intros Hwf Hpar. unfold resume_vfork_parent.
  change (k_processes k !! c ≫= p_parent) with (parent_of (k_processes k) c).
  destruct (parent_of (k_processes k) c) as [parent|] eqn:Hp.
  - fold (wake_all (vfork_waiters c parent k) k).
    assert (Hw : wf_for L V S (wake_all (vfork_waiters c parent k) k)).
    { apply wf_wake_all; [|done]. intros tid t Hin Ht.
      apply (elem_of_vfork_waiters _ _ _ _ _ _ _ Hwf) in Hin as (t' & Ht' & _ & Hst). simplify_eq.
      unfold live. by rewrite Hst. }
    destruct Hw as [H1 H2 H3 H4 H5]. split; [done|done|done| |done].
    intros x [HV| ->]; [by apply H4|]. intros tid t Ht Hst. exfalso. rewrite wake_all_tasks in Ht.
    apply fmap_Some in Ht as (t0 & Ht0 & ->). case_decide as Hin; [done|]. apply Hin.
    apply (elem_of_vfork_waiters _ _ _ _ _ _ _ Hwf). exists t0. split; [done|]. split; [|done].
    specialize (Hpar _ _ Ht0 Hst). simpl in Hpar. congruence.
  - destruct Hwf as [H1 H2 H3 H4 H5]. split; [done|done|done| |done].
    intros x [HV| ->]; [by apply H4|]. intros tid t Ht Hst. by specialize (Hpar _ _ Ht Hst).
Qed.

(** ** Signals *)
Lemma find_None {A} (f : A → bool) l x : List.find f l = None → x ∈ l → f x = false.
Proof. intros H Hin. apply (List.find_none f l H). by apply list_elem_of_In. Qed.

Lemma find_Some {A} (f : A → bool) l x : List.find f l = Some x → x ∈ l ∧ f x = true.
Proof. intros [Hin ?]%List.find_some. split; [by apply list_elem_of_In|done]. Qed.

Lemma take_pending_None pending mask : take_pending_signal pending mask = None → no_match pending mask.
Proof.
  unfold take_pending_signal. destruct (List.find _ _) eqn:Hf; [done|]. intros _ signal Hin.
  apply (find_None _ _ _ Hf). by apply elem_of_bs_iter.
Qed.

Lemma take_pending_Some pending mask signal rest :
  take_pending_signal pending mask = Some (signal, rest) →
  signal ∈ pending ∧ signal_matches_mask signal mask = true ∧ rest = pending ∖ {[signal]} ∧
  ∀ s, s ∈ pending → signal_matches_mask s mask = true → signal ≤ s.
Proof.
  unfold take_pending_signal. destruct (List.find _ _) as [x|] eqn:Hf; [|done]. intros [= -> <-].
  pose proof (find_Some _ _ _ Hf) as [Hin Hm]. apply elem_of_bs_iter in Hin. split_and!; try done.
  intros s Hs Hms. pose proof (bs_iter_sorted pending) as Hsorted. apply elem_of_bs_iter in Hs.
  revert Hsorted Hs Hf. generalize (bs_iter pending). intros l. induction l as [|y l IH]; [set_solver|].
  intros Hsorted Hs. simpl. apply StronglySorted_inv in Hsorted as [Hsorted Hall].
  destruct (signal_matches_mask y mask) eqn:Hy.
  - intros [= ->]. apply elem_of_cons in Hs as [->|Hs]; [lia|]. rewrite Forall_forall in Hall. apply Z.lt_le_incl, Hall, Hs.
  - intros Hf. apply elem_of_cons in Hs as [->|Hs]; [congruence|]. by apply IH.
Qed.

(** A signal is taken from the task, else from the process. *)
Definition taken (tid pid mask : Z) (k : GuestKernel) (signal : option Z) (k' : GuestKernel) : Prop :=
  match signal with
  | None => k' = k ∧ (∀ t, k_tasks k !! tid = Some t → no_match (t_pending_signals t) mask) ∧
            ∀ p, k_processes k !! pid = Some p → no_match (p_pending_signals p) mask
  | Some s => signal_matches_mask s mask = true ∧
      ((∃ t, k_tasks k !! tid = Some t ∧ s ∈ t_pending_signals t ∧
          k' = update_task tid (set_t_pending (t_pending_signals t ∖ {[s]})) k) ∨
       (∃ p, k_processes k !! pid = Some p ∧ s ∈ p_pending_signals p ∧
          k' = update_process pid (set_p_pending (p_pending_signals p ∖ {[s]})) k))
  end.

Lemma take_spec tid pid mask k :
  let '(signal, k') := take_pending_signal_for_task tid pid mask k in taken tid pid mask k signal k'.
Proof.
  unfold take_pending_signal_for_task.
  destruct (k_tasks k !! tid ≫= _) as [[s rest]|] eqn:Htask.
  - apply bind_Some in Htask as (t & Ht & (Hin & Hm & -> & _)%take_pending_Some). split; [done|]. left. eauto.
  - assert (Hnt : ∀ t, k_tasks k !! tid = Some t → no_match (t_pending_signals t) mask).
    { intros t Ht. rewrite Ht in Htask. by apply take_pending_None. }
    destruct (k_processes k !! pid ≫= _) as [[s rest]|] eqn:Hproc.
    + apply bind_Some in Hproc as (p & Hp & (Hin & Hm & -> & _)%take_pending_Some). split; [done|]. right. eauto.
    + split_and!; [done|done|]. intros p Hp. rewrite Hp in Hproc. by apply take_pending_None.
Qed.

Lemma pending_lesser_task t s : s ⊆ t_pending_signals t → lesser_task t (set_t_pending s t).
Proof. by split. Qed.

Lemma pending_lesser_process p s : s ⊆ p_pending_signals p → lesser_process p (set_p_pending s p).
Proof. by split. Qed.

Lemma wf_taken L V S tid pid mask k signal k' :
  taken tid pid mask k signal k' → wf_for L V S k → wf_for L V S k'.
Proof.
  destruct signal as [s|]; [|by intros (-> & _)].
  intros [_ [(t & Ht & _ & ->)|(p & Hp & _ & ->)]] Hwf.
  - apply wf_update_task; [|done]. intros t' Ht'. simplify_eq. apply pending_lesser_task. set_solver.
  - apply wf_update_process; [|done]. intros p' Hp'. simplify_eq. apply pending_lesser_process. set_solver.
Qed.

Definition quiet_task (t t' : GuestTask) : Prop :=
  t_tid t' = t_tid t ∧ t_pid t' = t_pid t ∧ t_state t' = t_state t ∧
  t_signal_mask t' = t_signal_mask t ∧ t_pending_signals t' = t_pending_signals t.

Lemma quiet_lesser t t' : quiet_task t t' → lesser_task t t'.
Proof. intros (H1 & H2 & H3 & H4 & H5). split; rewrite ?H4, ?H5; done. Qed.

(** What one wake of a signal waiter may do to the tasks and processes. *)
Definition calmer (tid pid : Z) (k k' : GuestKernel) : Prop :=
  (∀ x t', k_tasks k' !! x = Some t' → ∃ t, k_tasks k !! x = Some t ∧ t_pid t' = t_pid t ∧
     t_pending_signals t' ⊆ t_pending_signals t ∧
     (t_state t' = t_state t ∨ x = tid ∧ t_state t' = Runnable)) ∧
  (∀ x p', k_processes k' !! x = Some p' → ∃ p, k_processes k !! x = Some p ∧
     p_pending_signals p' ⊆ p_pending_signals p).

Lemma taken_calmer tid pid mask k signal k' : taken tid pid mask k signal k' → calmer tid pid k k'.
Proof.
  destruct signal as [s|]; [|intros (-> & _); split; eauto 10].
  intros [_ [(t & Ht & _ & ->)|(p & Hp & _ & ->)]]; split; simpl.
  - intros x t' (t0 & Ht0 & [->|[-> ->]])%alter_inv; [eauto 10|]. simplify_eq. exists t. split_and!; try done; [|by left].
    simpl. set_solver.
  - eauto.
  - eauto 10.
  - intros x p' (p0 & Hp0 & [->|[-> ->]])%alter_inv; [eauto|]. simplify_eq. exists p. split; [done|]. simpl. set_solver.
Qed.

Lemma wake_one_spec (L V S : Z → Prop) pid tid mask r k :
  wf_for L V S k → (∀ t, k_tasks k !! tid = Some t → live t) →
  let k' := (wake_signal_waiter pid tid mask r k).2 in
  wf_for L V S k' ∧ calmer tid pid k k' ∧
  ∀ t', k_tasks k' !! tid = Some t' →
    t_state t' = Runnable ∨
    k' = k ∧ no_match (t_pending_signals t') mask ∧
    ∀ p, k_processes k !! pid = Some p → no_match (p_pending_signals p) mask.
Proof.
  intros Hwf Hlv. unfold wake_signal_waiter. pose proof (take_spec tid pid mask k) as Htk.
  destruct (take_pending_signal_for_task tid pid mask k) as [[s|] k1].
  2: { destruct Htk as (-> & Hnt & Hnp). split_and!; [done|by split; eauto 10|]. simpl. eauto. }
  pose proof (wf_taken _ _ _ _ _ _ _ _ _ Htk Hwf) as Hwf1. pose proof (taken_calmer _ _ _ _ _ _ Htk) as [Hc1 Hc2].
  destruct (k_tasks k1 !! tid) as [t1|] eqn:Ht1; simpl; [|split_and!; [done|done|by rewrite Ht1]].
  set (f := λ t, set_t_regs _ _).
  assert (Hf : ∀ t, quiet_task t (f t)) by (intros t; unfold f; by destruct r).
  assert (Hlv2 : ∀ t, k_tasks (update_task tid f k1) !! tid = Some t → live t).
  { intros t (t2 & Ht2 & Hor)%alter_inv. destruct (Hc1 _ _ Ht2) as (t0 & Ht0 & _ & _ & Hst).
    assert (live t2) by (unfold live; destruct Hst as [->|[_ ->]]; [by apply Hlv|done]).
    destruct Hor as [->|[_ ->]]; [done|]. unfold live. by destruct (Hf t2) as (_ & _ & -> & _). }
  split_and!.
  - apply wf_put_plain; [done|done|]. apply wf_update_task; [|done]. intros t _. by apply quiet_lesser.
  - split.
    + intros x t'. rewrite put_state_tasks. intros (t2 & (t3 & Ht3 & H3)%alter_inv & H2)%alter_inv.
      destruct (Hc1 _ _ Ht3) as (t0 & Ht0 & Hpid & Hpend & Hst). exists t0.
      assert (quiet_task t3 t2) as (_ & Hy1 & Hy2 & _ & Hy3) by (destruct H3 as [->|[_ ->]]; [by split_and!|apply Hf]).
      destruct H2 as [->|[-> ->]]; simpl; rewrite Hy1, Hy3, ?Hy2; eauto 10.
    + pose proof (put_state_core tid Runnable (update_task tid f k1)) as Hc.
      rewrite (core_processes _ _ _ _ _ Hc). apply Hc2.
  - intros t'. rewrite put_state_tasks, alter_lookup, decide_True by done.
    intros (t2 & _ & ->)%fmap_Some. by left.
Qed.
