(* ===== verification/TaskSteps.v ===== *)
(** * mcr-task: every operation keeps the invariant *)

From S2P Require Import Prelude SysAbi SyscallTable Dispatcher Bytes ElfParser ElfImage.
From S2P Require Import TaskTypes TaskKernel TaskWait TaskSyscalls TaskInv.
From stdpp Require Import base gmap list sorting strings.
From Stdlib Require Import ZArith Lia.
Open Scope Z_scope.

(** ** Waking the signal waiters of a process *)

(** Every waiter is in the list, or has nothing to wake up for. *)
Definition served (pid : Z) (l : list (Z * Z * bool)) (k : GuestKernel) : Prop :=
  ∀ tid t mask, k_tasks k !! tid = Some t → t_pid t = pid → waits_for (t_state t) = Some mask →
    (∃ r, (tid, mask, r) ∈ l) ∨
    no_match (t_pending_signals t) mask ∧
    ∀ p, k_processes k !! pid = Some p → no_match (p_pending_signals p) mask.

Lemma wf_wake_loop (L V S : Z → Prop) pid l k :
  wf_for L V S k → served pid l k →
  (∀ tid mask r t, (tid, mask, r) ∈ l → k_tasks k !! tid = Some t → live t) →
  wf_for L V (λ x, S x ∨ x = pid) (wake_signal_loop pid l k).2.
Proof.
  revert k. induction l as [|[[tid mask] r] l IH]; intros k Hwf Hs Hlv; simpl.
  - destruct Hwf as [H1 H2 H3 H4 H5]. split; [done|done|done|done|].
    intros x [HS| ->]; [by apply H5|]. intros tid t mask Ht Hpid Hw.
    destruct (Hs _ _ _ Ht Hpid Hw) as [(r & Hin)|Hn]; [by apply not_elem_of_nil in Hin|].
    by destruct Hn.
  - pose proof (wake_one_spec L V S pid tid mask r k Hwf) as Hone.
    destruct (wake_signal_waiter pid tid mask r k) as [n k1].
    destruct Hone as (Hwf1 & [Hc1 Hc2] & Hself); [intros t; apply (Hlv tid mask r); by left|]. simpl in *.
    specialize (IH k1 Hwf1). destruct (wake_signal_loop pid l k1) as [m k2]. apply IH.
    + intros tid' t' mask' Ht' Hpid' Hw'. destruct (Hc1 _ _ Ht') as (t & Ht & Hpid & Hpend & Hst).
      destruct Hst as [Hst|[_ Hst]]; [|by rewrite Hst in Hw'].
      rewrite Hpid in Hpid'. rewrite Hst in Hw'.
      destruct (Hs _ _ _ Ht Hpid' Hw') as [(r' & Hin)|[Hn Hp]].
      * apply elem_of_cons in Hin as [[= -> -> ->]|Hin]; [|eauto]. right.
        destruct (Hself _ Ht') as [Hrun|(-> & Hn & Hp)]; [|done].
        rewrite <- Hst, Hrun in Hw'. done.
      * right. split; [by eapply no_match_sub|]. intros p' Hp'. destruct (Hc2 _ _ Hp') as (p & Hp0 & Hsub).
        eapply no_match_sub; [done|]. by apply Hp.
    + intros tid' mask' r' t' Hin Ht'. destruct (Hc1 _ _ Ht') as (t & Ht & _ & _ & Hst).
      unfold live. destruct Hst as [->|[_ ->]]; [|done]. eapply Hlv; [|done]. by right.
Qed.

Lemma wf_wake_signals (L V S : Z → Prop) pid k :
  wf_for L V S k → wf_for L V (λ x, S x ∨ x = pid) (wake_signal_waiters pid k).2.
Proof.
  intros Hwf. apply wf_wake_loop; [done|..].
  - intros tid t mask Ht Hpid Hw. left. unfold signal_waiters. setoid_rewrite elem_of_omap_tasks.
    pose proof (proj1 (gw_tid _ _ _ _ (kw_graph _ _ _ _ Hwf) _ _ Ht)) as Htid.
    destruct (t_state t) eqn:Hst; simpl in Hw; try done; injection Hw as ->.
    + exists true, tid, t. rewrite Hst, bool_decide_eq_true_2 by done. by rewrite Htid.
    + exists false, tid, t. rewrite Hst, bool_decide_eq_true_2 by done. by rewrite Htid.
  - intros tid mask r t Hin Ht. unfold signal_waiters in Hin. apply elem_of_omap_tasks in Hin as (tid' & t' & Ht' & Hf).
    pose proof (proj1 (gw_tid _ _ _ _ (kw_graph _ _ _ _ Hwf) _ _ Ht')) as Htid.
    destruct (t_state t') eqn:Hst; try done; case_bool_decide; simplify_eq; unfold live; by rewrite Hst.
Qed.

(** ** Queues *)
Lemma pending_family L V S pid s k :
  wf_for L V S k →
  wf_for L V (λ x, S x ∧ x ≠ pid) (update_process pid (λ p, set_p_pending (s p) p) k).
Proof.
  intros [H1 H2 H3 H4 H5]. split; simpl.
  - by apply set_processes_index.
  - by apply graph_process.
  - intros pid' HL p (x & Hx & [->|[-> ->]])%alter_inv; [by apply H3|exact (H3 _ HL _ Hx)].
  - intros c HV tid t Ht Hst. destruct (H4 _ HV _ _ Ht Hst) as (q & Hq & Hpar & Hrun).
    rewrite alter_lookup. case_decide; [subst; rewrite Hq; simpl|]; eauto.
  - intros pid' [HS Hne] tid t mask Ht Hpid Hw. destruct (H5 _ HS _ _ _ Ht Hpid Hw) as [Hn Hp].
    split; [done|]. intros p (x & Hx & [->|[-> ->]])%alter_inv; [by apply Hp|done].
Qed.

Lemma wf_queue_process (L V S : Z → Prop) pid signal k :
  wf_for L V S k → wf_for L V S (queue_process_signal pid signal k).
Proof.
  intros Hwf. unfold queue_process_signal.
  eapply wf_for_weaken; [..|apply wf_wake_signals; by apply pending_family]; [auto|auto|].
  simpl. intros x HS. destruct (decide (x = pid)); auto.
Qed.

Lemma pending_task L V S tid t s k :
  k_tasks k !! tid = Some t → wf_for L V S k →
  wf_for L V (λ x, S x ∧ x ≠ t_pid t) (update_task tid (λ t, set_t_pending (s t) t) k).
Proof.
  intros Ht [H1 H2 H3 H4 H5]. split; simpl.
  - by apply update_task_index.
  - by apply graph_task.
  - intros pid HL p Hp. rewrite (H3 pid HL p Hp). split; intros (tid' & t' & Ht' & Hpid & Hlv').
    + exists tid'. rewrite alter_lookup, Ht'. case_decide; [|eauto]. simpl. eauto.
    + apply alter_inv in Ht' as (x & Hx & [->|[-> ->]]); eauto.
  - intros c HV tid' t' (x & Hx & [->|[-> ->]])%alter_inv Hst; [by eapply H4|exact (H4 _ HV _ _ Hx Hst)].
  - intros pid [HS Hne] tid' t' mask (x & Hx & [->|[-> ->]])%alter_inv Hpid Hw; [by eapply H5|].
    simplify_eq/=.
Qed.

Lemma wf_fail_futex L V S errno tid k : wf_for L V S k → wf_for L V S (fail_futex_waiter errno tid k).2.
Proof.
  intros Hwf. unfold fail_futex_waiter. destruct (k_tasks k !! tid) as [t|] eqn:Ht; simpl; [|done].
  destruct (t_state t) eqn:Hst; try done.
  set (f := λ t, set_t_regs _ _). destruct (set_task_state _ _ _) as [o k'] eqn:Hset.
  change k' with (o, k').2. rewrite <- Hset. simpl. apply wf_put_plain; [|done|].
  - intros t' (x & Hx & [->|[_ ->]])%alter_inv; simplify_eq; unfold live; simpl; by rewrite Hst.
  - apply wf_update_task; [|done]. intros t' _. by apply quiet_lesser.
Qed.

Lemma wf_queue_task (L V S : Z → Prop) tid signal k :
  wf_for L V S k → wf_for L V S (queue_task_signal tid signal k).
Proof.
  intros Hwf. unfold queue_task_signal. destruct (k_tasks k !! tid) as [t|] eqn:Ht; [|done].
  assert (Hw : wf_for L V S (wake_signal_waiters (t_pid t)
    (update_task tid (λ t, set_t_pending ({[signal]} ∪ t_pending_signals t) t) k)).2).
  { eapply wf_for_weaken; [..|apply wf_wake_signals; by apply pending_task]; [auto|auto|].
    simpl. intros x HS. destruct (decide (x = t_pid t)); auto. }
  destruct (negb _); [by apply wf_fail_futex|done].
Qed.

(** ** The end of a process *)
Lemma wf_finish_process pid status k :
  wf_for (except pid) everywhere everywhere k →
  (∀ tid t, k_tasks k !! tid = Some t → t_pid t = pid → is_exited (t_state t) = true) →
  kernel_wf (finish_process pid status k).
Proof.
  intros Hwf Hdead. unfold finish_process.
  set (k1 := update_process pid (set_p_exit_state (ExitedWith status)) k).
  assert (Hwf1 : wf_for everywhere (except pid) everywhere k1).
  { destruct Hwf as [H1 H2 H3 H4 H5]. split; simpl.
    - by apply set_processes_index.
    - by apply graph_process.
    - intros pid' _ p. rewrite alter_lookup. case_decide as Hd; [subst pid'|by apply H3].
      intros (x & Hx & ->)%fmap_Some. split; [done|]. intros (tid & t & Ht & Hpid & Hlv).
      specialize (Hdead _ _ Ht Hpid). unfold live in Hlv. congruence.
    - intros c HV tid t Ht Hst. destruct (H4 _ I _ _ Ht Hst) as (q & Hq & Hpar & Hrun).
      rewrite lookup_alter_ne by done. eauto.
    - intros pid' _ tid t mask Ht Hpid Hw. destruct (H5 _ I _ _ _ Ht Hpid Hw) as [Hn Hp].
      split; [done|]. intros p (x & Hx & [->|[-> ->]])%alter_inv; [by apply Hp|exact (Hp _ Hx)]. }
  assert (Hwf2 : kernel_wf (resume_vfork_parent pid k1)).
  { eapply wf_for_weaken; [..|apply wf_resume_vfork; [exact Hwf1|]]; [done| |done|].
    - intros c _. destruct (decide (c = pid)); [by right|by left].
    - intros tid t Ht Hst. destruct (kw_vfork _ _ _ _ Hwf pid I _ _ Ht Hst) as (q & Hq & Hpar & _).
      unfold k1; simpl. rewrite parent_of_alter by done. unfold parent_of. by rewrite Hq. }
  destruct (_ ≫= p_parent); [by apply wf_queue_process|done].
Qed.

Lemma wf_exit_task tid status k : kernel_wf k → kernel_wf (exit_task tid status k).2.
Proof.
  intros Hwf. unfold exit_task. destruct (k_tasks k !! tid) as [t|] eqn:Ht; [|done]. simpl.
  pose proof (wf_put_exited _ _ _ tid status t k Ht Hwf) as Hwf1. set (k1 := put_state tid (Exited status) k) in *.
  destruct (forallb _ _) eqn:Hall.
  - apply wf_finish_process.
    + eapply wf_for_weaken; [..|exact Hwf1]; [by split|done|done].
    + intros tid' t' Ht' Hpid. rewrite forallb_forall in Hall. apply Hall. apply list_elem_of_In.
      apply list_elem_of_filter. split; [done|]. apply elem_of_bt_values. eauto.
  - destruct Hwf1 as [H1 H2 H3 H4 H5]. split; [done|done| |done|done].
    intros pid _. destruct (decide (pid = t_pid t)) as [->|Hne]; [|by apply H3].
    assert (Hex : ∃ tid' t', k_tasks k1 !! tid' = Some t' ∧ t_pid t' = t_pid t ∧ live t').
    { apply not_true_iff_false in Hall. rewrite forallb_forall in Hall.
      destruct (decide (Exists (λ t', is_exited (t_state t') = false)
        (filter (λ t0, t_pid t0 = t_pid t) (bt_values (k_tasks k1))))) as [Hex|Hno].
      - apply Exists_exists in Hex as (t' & (Hpid & (tid' & Ht')%elem_of_bt_values)%list_elem_of_filter & Hlv). eauto.
      - exfalso. apply Hall. intros t' Hin%list_elem_of_In. destruct (is_exited (t_state t')) eqn:Hx; [done|].
        exfalso. apply Hno, Exists_exists. eauto. }
    intros p Hp. split; [done|]. intros _. destruct Hex as (tid' & t' & Ht' & Hpid & Hlv).
    unfold k1 in Ht'. rewrite put_state_tasks in Ht'. pose proof Ht' as (x & Hx & [->|[-> ->]])%alter_inv; [|done].
    pose proof (put_state_core tid (Exited status) k) as Hc. unfold k1 in Hp. rewrite (core_processes _ _ _ _ _ Hc) in Hp.
    apply (kw_live _ _ _ _ Hwf (t_pid t) I p Hp). eauto.
Qed.

(** A list of tasks exits. *)
Lemma wf_put_exited_all (L V S : Z → Prop) pid status tids k :
  (∀ tid t, tid ∈ tids → k_tasks k !! tid = Some t → t_pid t = pid) → wf_for L V S k →
  let k' := foldl (λ k tid, put_state tid (Exited status) k) k tids in
  wf_for (λ x, L x ∧ x ≠ pid) V S k' ∧ k_processes k' = k_processes k ∧
  ∀ x t', k_tasks k' !! x = Some t' → ∃ t, k_tasks k !! x = Some t ∧ t_pid t' = t_pid t ∧
    (x ∈ tids → is_exited (t_state t') = true) ∧ (t_state t' = t_state t ∨ is_exited (t_state t') = true).
Proof.
  revert k L. induction tids as [|tid tids IH]; intros k L Hpid Hwf; simpl.
  - split_and!; [|done|]. { eapply wf_for_weaken; [..|exact Hwf]; naive_solver. }
    intros x t' Ht. exists t'. split_and!; [done|done|by intros ?%not_elem_of_nil|by left].
  - set (k1 := put_state tid (Exited status) k).
    assert (Hwf1 : wf_for (λ x, L x ∧ x ≠ pid) V S k1).
    { destruct (k_tasks k !! tid) as [t|] eqn:Ht.
      - assert (t_pid t = pid) as <- by (by eapply Hpid; [left|]). by apply wf_put_exited.
      - unfold k1, put_state, set_task_state. rewrite Ht. eapply wf_for_weaken; [..|exact Hwf]; naive_solver. }
    destruct (IH k1 (λ x, L x ∧ x ≠ pid)) as (Hwf2 & Hps & Hts); [|exact Hwf1|].
    { intros x t Hin. unfold k1. rewrite put_state_tasks. intros (t0 & Ht0 & Hor)%alter_inv.
      assert (t_pid t = t_pid t0) as -> by (by destruct Hor as [->|[_ ->]]). eapply Hpid; [by right|done]. }
    split_and!.
    + eapply wf_for_weaken; [..|exact Hwf2]; naive_solver.
    + rewrite Hps. unfold k1. by rewrite (core_processes _ _ _ _ _ (put_state_core _ _ _)).
    + intros x t' Ht'. destruct (Hts _ _ Ht') as (t1 & Ht1 & Hp1 & Hin1 & Hor1).
      unfold k1 in Ht1. rewrite put_state_tasks, alter_lookup in Ht1. case_decide as Hd.
      * apply fmap_Some in Ht1 as (t0 & Ht0 & ->). exists t0. simpl in *.
        assert (is_exited (t_state t') = true) by (destruct Hor1 as [->|]; done). split_and!; auto.
      * exists t1. split_and!; [done|done| |done]. intros [->|Hin]%elem_of_cons; [done|auto].
Qed.

Lemma wf_exit_group pid status k : kernel_wf k → kernel_wf (exit_group pid status k).2.
Proof.
  intros Hwf. unfold exit_group. destruct (negb _); [done|]. simpl.
  destruct (wf_put_exited_all everywhere everywhere everywhere pid status (tids_of pid k) k) as (Hwf1 & Hps & Hts).
  - intros tid t Hin Ht. apply (elem_of_tids_of _ _ _ _ _ _ Hwf) in Hin as (t' & Ht' & <-). by simplify_eq.
  - done.
  - apply wf_finish_process.
    + eapply wf_for_weaken; [..|exact Hwf1]; [by split|done|done].
    + intros tid t' Ht' Hpid. destruct (Hts _ _ Ht') as (t & Ht & Hp & Hin & _). apply Hin.
      apply (elem_of_tids_of _ _ _ _ _ _ Hwf). exists t. split; congruence.
Qed.

(** ** Ids *)
Lemma allocate_pid_spec k :
  match allocate_pid k with
  | (Ok pid, k') => pid = k_next_pid k ∧ k_next_pid k + 1 ≤ U32_MAX ∧ k' = set_next_pid (k_next_pid k + 1) k
  | (Err e, k') => e = PidExhausted ∧ k' = k
  | (Panic, _) => False
  end.
Proof.
  unfold allocate_pid, bind, gets, lift, checked_add32. zcase; simpl; auto.
Qed.

Lemma allocate_tid_spec k :
  match allocate_tid k with
  | (Ok tid, k') => tid = k_next_tid k ∧ k_next_tid k + 1 ≤ U32_MAX ∧ k' = set_next_tid (k_next_tid k + 1) k
  | (Err e, k') => e = TidExhausted ∧ k' = k
  | (Panic, _) => False
  end.
Proof.
  unfold allocate_tid, bind, gets, lift, checked_add32. zcase; simpl; auto.
Qed.

Lemma wf_next_pid L V S n k :
  k_next_pid k ≤ n ≤ U32_MAX → wf_for L V S k → wf_for L V S (set_next_pid n k).
Proof.
  intros Hn [H1 [G1 G2 G3 G4 G5 G6 G7] H3 H4 H5]. split; try done; [by eapply (indexed_fields k)|].
  split; try done; simpl; [lia|]. intros pid p Hp. destruct (G2 _ _ Hp). split; [done|lia].
Qed.

Lemma wf_next_tid L V S n k :
  k_next_tid k ≤ n ≤ U32_MAX → wf_for L V S k → wf_for L V S (set_next_tid n k).
Proof.
  intros Hn [H1 [G1 G2 G3 G4 G5 G6 G7] H3 H4 H5]. split; try done; [by eapply (indexed_fields k)|].
  split; try done; simpl; [lia|]. intros tid t Ht. destruct (G3 _ _ Ht). split; [done|lia].
Qed.

Lemma fresh_tid L V S k tid : wf_for L V S k → k_next_tid k ≤ tid → k_tasks k !! tid = None.
Proof.
  intros Hwf Hle. destruct (k_tasks k !! tid) as [t|] eqn:Ht; [|done].
  destruct (gw_tid _ _ _ _ (kw_graph _ _ _ _ Hwf) _ _ Ht). lia.
Qed.

Lemma fresh_pid L V S k pid : wf_for L V S k → k_next_pid k ≤ pid → k_processes k !! pid = None.
Proof.
  intros Hwf Hle. destruct (k_processes k !! pid) as [p|] eqn:Hp; [|done].
  destruct (gw_pid _ _ _ _ (kw_graph _ _ _ _ Hwf) _ _ Hp). lia.
Qed.

(** ** A new task of a running process *)
Lemma wf_insert_task (L V S : Z → Prop) t p k :
  wf_for L V S k → k_tasks k !! t_tid t = None → 1 ≤ t_tid t < k_next_tid k →
  k_processes k !! t_pid t = Some p → p_exit_state p = Running → t_state t = Runnable →
  sane_mask (t_signal_mask t) → wf_for L V S (insert_task t k).
Proof.
  intros [H1 [G1 G2 G3 G4 G5 G6 G7] H3 H4 H5] Hn Htid Hp Hrun Hst Hm.
  eapply wf_for_core; [apply insert_task_core|by apply insert_task_index|..].
  - split; try done.
    + intros tid t' [[<- <-]|[_ Ht']]%lookup_insert_Some; [done|by apply G3].
    + intros tid t' [[<- <-]|[_ Ht']]%lookup_insert_Some; [by rewrite Hp|by eapply G4].
    + intros tid t' [[<- <-]|[_ Ht']]%lookup_insert_Some; [done|by eapply G7].
  - intros pid HL q Hq. rewrite (H3 pid HL q Hq). split; intros (tid & t' & Ht' & Hpid & Hlv).
    + exists tid, t'. split; [|done]. rewrite lookup_insert_ne; [done|]. intros <-. congruence.
    + apply lookup_insert_Some in Ht' as [[<- <-]|[_ Ht']]; [|eauto].
      apply (H3 pid HL q Hq). rewrite Hpid in Hp. congruence.
  - intros c HV tid t' [[<- <-]|[_ Ht']]%lookup_insert_Some Hst'; [congruence|by eapply H4].
  - intros pid HS tid t' mask [[<- <-]|[_ Ht']]%lookup_insert_Some Hpid Hw; [by rewrite Hst in Hw|by eapply H5].
Qed.

(** ** fork *)
Definition add_child (child_pid : Z) (p : GuestProcess) : GuestProcess :=
  set_p_children ({[child_pid]} ∪ p_children p) p.

(** The processes after a fork of [parent_pid]. *)
Definition forked_processes (child_pid parent_pid : Z) (parent : GuestProcess)
    (ps : gmap Z GuestProcess) : gmap Z GuestProcess :=
  alter (add_child child_pid) parent_pid (<[child_pid := forked_process child_pid parent_pid parent]> ps).

Definition forked_core (tid : Z) (t : GuestTask) (p : GuestProcess) (k k' : GuestKernel) : Prop :=
  core_of k' = (k_next_pid k + 1, k_next_tid k + 1,
                forked_processes (k_next_pid k) (t_pid t) p (k_processes k),
                <[k_next_tid k := forked_task (k_next_pid k) (k_next_tid k) t]> (k_tasks k)).

Section fork.
Context (np nt : Z) (ps : gmap Z GuestProcess) (ts : gmap Z GuestTask) (tid : Z) (t : GuestTask) (p : GuestProcess).
Context (Hg : graph_wf np nt ps ts) (Ht : ts !! tid = Some t) (Hp : ps !! t_pid t = Some p).
Context (Hnp : np + 1 ≤ U32_MAX) (Hnt : nt + 1 ≤ U32_MAX).

Let ps' := forked_processes np (t_pid t) p ps.
Let ts' := <[nt := forked_task np nt t]> ts.

Lemma fork_parent_bound : 1 ≤ t_pid t < np.
Proof. by destruct (gw_pid _ _ _ _ Hg _ _ Hp). Qed.

Lemma fork_lookup pid q : ps' !! pid = Some q →
  pid = np ∧ q = forked_process np (t_pid t) p ∨
  pid = t_pid t ∧ q = add_child np p ∨
  pid ≠ np ∧ pid ≠ t_pid t ∧ ps !! pid = Some q.
Proof.
  pose proof fork_parent_bound. unfold ps', forked_processes. rewrite alter_lookup.
  case_decide as Hd; [subst pid; rewrite lookup_insert_ne, Hp by lia; intros [= <-]; auto|].
  intros [[<- <-]|[? Hq]]%lookup_insert_Some; auto.
Qed.

Lemma fork_lookup_child : ps' !! np = Some (forked_process np (t_pid t) p).
Proof.
  pose proof fork_parent_bound. unfold ps', forked_processes. by rewrite lookup_alter_ne, lookup_insert_eq by lia.
Qed.

Lemma fork_lookup_old pid : pid ≠ np → ps' !! pid = (if decide (pid = t_pid t) then add_child np else id) <$> ps !! pid.
Proof.
  pose proof fork_parent_bound. intros Hne. unfold ps', forked_processes. rewrite alter_lookup, lookup_insert_ne by done.
  repeat case_decide; subst; try done; by destruct (ps !! pid).
Qed.

Lemma fork_fresh_pid : ps !! np = None.
Proof. destruct (ps !! np) as [q|] eqn:Hq; [|done]. destruct (gw_pid _ _ _ _ Hg _ _ Hq). lia. Qed.

Lemma fork_fresh_tid : ts !! nt = None.
Proof. destruct (ts !! nt) as [q|] eqn:Hq; [|done]. destruct (gw_tid _ _ _ _ Hg _ _ Hq). lia. Qed.

Lemma fork_parent_of c : parent_of ps' c = if decide (c = np) then Some (t_pid t) else parent_of ps c.
Proof.
  unfold parent_of. case_decide as Hd; [subst; by rewrite fork_lookup_child|].
  rewrite fork_lookup_old by done. case_decide; destruct (ps !! c); done.
Qed.

Lemma fork_graph : graph_wf (np + 1) (nt + 1) ps' ts'.
Proof.
  pose proof fork_parent_bound as Hb. destruct Hg as [G1 G2 G3 G4 G5 G6 G7].
  split.
  - lia.
  - intros pid q [(-> & ->)|[(-> & ->)|(_ & _ & Hq)]]%fork_lookup; simpl; [split; [done|lia]| |].
    + destruct (G2 _ _ Hp). split; [done|lia].
    + destruct (G2 _ _ Hq). split; [done|lia].
  - intros tid' t' [[<- <-]|[_ Ht']]%lookup_insert_Some; [split; [done|lia]|].
    destruct (G3 _ _ Ht'). split; [done|lia].
  - intros tid' t' [[<- <-]|[_ Ht']]%lookup_insert_Some; [simpl; rewrite fork_lookup_child; eauto|].
    destruct (G4 _ _ Ht') as [q Hq]. destruct (G2 _ _ Hq). rewrite fork_lookup_old by lia. rewrite Hq. eauto.
  - intros pid q c Hq. rewrite fork_parent_of.
    apply fork_lookup in Hq as [(-> & ->)|[(-> & ->)|(Hn1 & Hn2 & Hq)]]; simpl.
    + split; [set_solver|]. case_decide; [intros [= ?]; lia|]. intros Hpar. pose proof (G6 _ _ Hpar).
      unfold parent_of in Hpar. destruct (ps !! c) as [qc|] eqn:Hc; [|done]. destruct (G2 _ _ Hc). lia.
    + rewrite elem_of_union, elem_of_singleton, (G5 _ _ c Hp). case_decide; naive_solver.
    + rewrite (G5 _ _ c Hq). case_decide; [|done]. subst c. unfold parent_of. rewrite fork_fresh_pid. naive_solver.
  - intros pid q. rewrite fork_parent_of. case_decide; [intros [= <-]; lia|apply G6].
  - intros tid' t' [[<- <-]|[_ Ht']]%lookup_insert_Some; [exact (G7 _ _ Ht)|by eapply G7].
Qed.
End fork.

Lemma wf_forked tid t p k k' :
  kernel_wf k → k_tasks k !! tid = Some t → k_processes k !! t_pid t = Some p → p_exit_state p = Running →
  k_next_pid k + 1 ≤ U32_MAX → k_next_tid k + 1 ≤ U32_MAX →
  index_wf k' → forked_core tid t p k k' → kernel_wf k'.
Proof.
  intros [H1 H2 H3 H4 H5] Ht Hp Hrun Hnp Hnt Hix Hcore.
  pose proof (fork_parent_bound _ _ _ _ t p H2 Hp) as Hb.
  pose proof (fork_fresh_tid _ _ _ _ H2) as Hft.
  eapply wf_for_core; [exact Hcore|done|by eapply fork_graph|..].
  - intros pid _ q Hq. apply (fork_lookup _ _ _ _ _ _ H2 Hp) in Hq as [(-> & ->)|[(-> & ->)|(Hn1 & Hn2 & Hq)]].
    + simpl. split; [|done]. intros _. exists (k_next_tid k). eexists. rewrite lookup_insert_eq. done.
    + simpl. rewrite Hrun. split; [|done]. intros _. destruct (proj1 (H3 _ I _ Hp) Hrun) as (x & tx & Hx & ? & ?).
      exists x, tx. rewrite lookup_insert_ne by (intros <-; congruence). done.
    + rewrite (H3 _ I _ Hq). split; intros (x & tx & Hx & Hpid & Hlv).
      * exists x, tx. rewrite lookup_insert_ne by (intros <-; congruence). done.
      * apply lookup_insert_Some in Hx as [[_ <-]|[_ Hx]]; [simpl in Hpid; congruence|eauto].
  - intros c _ tid' t' [[<- <-]|[_ Ht']]%lookup_insert_Some Hst; [done|].
    destruct (H4 _ I _ _ Ht' Hst) as (q & Hq & Hpar & Hrunq). destruct (gw_pid _ _ _ _ H2 _ _ Hq).
    rewrite (fork_lookup_old _ _ _ _ _ _ H2 Hp) by lia. rewrite Hq. case_decide; simpl; eauto.
  - intros pid _ tid' t' mask [[<- <-]|[_ Ht']]%lookup_insert_Some Hpid Hw; [done|].
    destruct (H5 _ I _ _ _ Ht' Hpid Hw) as [Hn Hpn]. split; [done|].
    intros q [(-> & ->)|[(-> & ->)|(_ & _ & Hq)]]%(fork_lookup _ _ _ _ _ _ H2 Hp); [by intros ? ?%not_elem_of_empty| |auto].
    intros s. simpl. by apply Hpn.
Qed.

(** [fork_child_task]: the next ids, a copy of the caller, and nothing else. *)
Lemma fork_child_spec tid k :
  kernel_wf k →
  match fork_child_task tid k with
  | (Ok (child_pid, child_tid), k') =>
      kernel_wf k' ∧ child_pid = k_next_pid k ∧ child_tid = k_next_tid k ∧
      ∃ t p, k_tasks k !! tid = Some t ∧ k_processes k !! t_pid t = Some p ∧ p_exit_state p = Running ∧
        forked_core tid t p k k'
  | (Err e, k') => kernel_wf k' ∧ k_tasks k' = k_tasks k ∧ k_processes k' = k_processes k
  | (Panic, _) => False
  end.
Proof.
  intros Hwf. unfold fork_child_task, bind at 1 2 3 4, gets at 1, lift at 1.
  destruct (k_tasks k !! tid) as [t|] eqn:Ht; simpl; [|done].
  unfold bind at 1 2, gets at 1, lift at 1.
  destruct (k_processes k !! t_pid t) as [p|] eqn:Hp; simpl; [|done].
  destruct (bool_decide (p_exit_state p = Running)) eqn:Hrun; simpl; [|done].
  apply bool_decide_eq_true in Hrun. unfold bind at 1.
  pose proof (allocate_pid_spec k) as Hap. destruct (allocate_pid k) as [[cp|e|] k1]; [| |done].
  2: { destruct Hap as [_ ->]. done. }
  destruct Hap as (-> & Hnp & ->). unfold bind at 1.
  set (k1 := set_next_pid (k_next_pid k + 1) k).
  assert (Hwf1 : kernel_wf k1) by (apply wf_next_pid; [lia|done]).
  pose proof (allocate_tid_spec k1) as Hat. destruct (allocate_tid k1) as [[ct|e|] k2]; [| |done].
  2: { destruct Hat as [_ ->]. done. }
  destruct Hat as (-> & Hnt & ->). unfold bind, modify, gets, lift.
  set (k2 := set_processes _ (set_next_tid _ k1)).
  assert (Hin : k_processes (insert_task (forked_task (k_next_pid k) (k_next_tid k1) t) k2) !! t_pid t = Some p).
  { rewrite (core_processes _ _ _ _ _ (insert_task_core _ _)). simpl.
    destruct (gw_pid _ _ _ _ (kw_graph _ _ _ _ Hwf) _ _ Hp). rewrite lookup_insert_ne by lia. done. }
  rewrite Hin. simpl. set (k' := update_process _ _ _).
  assert (Hcore : forked_core tid t p k k').
  { unfold forked_core, k', update_process, set_processes, core_of; cbn [k_next_pid k_next_tid k_processes k_tasks].
    pose proof (insert_task_core (forked_task (k_next_pid k) (k_next_tid k) t) k2) as Hc.
    by rewrite (core_next_pid _ _ _ _ _ Hc), (core_next_tid _ _ _ _ _ Hc), (core_processes _ _ _ _ _ Hc),
      (core_tasks _ _ _ _ _ Hc). }
  change (k_next_tid k1) with (k_next_tid k) in Hnt.
  split_and!; [|done|done|eauto 10].
  apply (wf_forked tid t p k k'); try done. apply set_processes_index, insert_task_index.
  - apply (fresh_tid everywhere everywhere everywhere k); [done|simpl; lia].
  - apply set_processes_index. by eapply (indexed_fields k1); [..|apply Hwf1].
Qed.

(** The caller of a system call is alive. *)
Definition alive (tid : Z) (k : GuestKernel) : Prop := ∀ t, k_tasks k !! tid = Some t → live t.

Lemma regs_quiet f t : quiet_task t (set_t_regs (f t) t).
Proof. done. Qed.

Lemma wf_fork_like tid regs block k :
  kernel_wf k → alive tid k → kernel_wf (fork_like_regs_and_maybe_block_parent tid regs block k).2 ∧
  (fork_like_regs_and_maybe_block_parent tid regs block k).1 ≠ Panic.
Proof.
  intros Hwf Hal. unfold fork_like_regs_and_maybe_block_parent.
  pose proof (fork_child_spec tid k Hwf) as Hf.
  destruct (fork_child_task tid k) as [[[cp ct]|e|] k1]; [|by split; [apply Hf|]|done].
  destruct Hf as (Hwf1 & -> & -> & t & p & Ht & Hp & Hrun & Hcore). simpl. split; [|done].
  set (f := λ t, set_t_regs _ _).
  assert (Hwf2 : kernel_wf (update_task (k_next_tid k) f k1)).
  { apply wf_update_task; [|done]. intros t' _. by apply quiet_lesser. }
  destruct block; [|done].
  assert (Hne : tid ≠ k_next_tid k).
  { destruct (gw_tid _ _ _ _ (kw_graph _ _ _ _ Hwf) _ _ Ht). lia. }
  assert (Ht2 : k_tasks (update_task (k_next_tid k) f k1) !! tid = Some t).
  { simpl. rewrite lookup_alter_ne by done. rewrite (core_tasks _ _ _ _ _ Hcore). by rewrite lookup_insert_ne. }
  eapply wf_put_state; [exact Ht2|by apply Hal|done| |done|done].
  intros c [= <-] _. exists (forked_process (k_next_pid k) (t_pid t) p). split; [|done].
  simpl. rewrite (core_processes _ _ _ _ _ Hcore).
  by apply (fork_lookup_child _ _ _ _ _ _ (kw_graph _ _ _ _ Hwf) Hp).
Qed.

Lemma thread_task_fields ct args regs t :
  t_tid (thread_task ct args regs t) = ct ∧ t_pid (thread_task ct args regs t) = t_pid t ∧
  t_state (thread_task ct args regs t) = Runnable ∧ t_signal_mask (thread_task ct args regs t) = t_signal_mask t.
Proof. done. Qed.

Lemma wf_thread tid args regs k :
  kernel_wf k → alive tid k → kernel_wf (thread_current_with_child_regs tid args regs k).2 ∧
  (thread_current_with_child_regs tid args regs k).1 ≠ Panic.
Proof.
  intros Hwf Hal. unfold thread_current_with_child_regs. destruct (negb _); [done|].
  destruct (k_tasks k !! tid) as [t|] eqn:Ht; [|done].
  destruct (gw_owner _ _ _ _ (kw_graph _ _ _ _ Hwf) _ _ Ht) as [p Hp].
  rewrite Hp, bool_decide_eq_true_2 by eauto. simpl.
  pose proof (allocate_tid_spec k) as Hat. destruct (allocate_tid k) as [[ct|e|] k1]; [| |done].
  2: { destruct Hat as [_ ->]. done. }
  destruct Hat as (-> & Hnt & ->). simpl. split; [|done].
  pose proof (gw_first _ _ _ _ (kw_graph _ _ _ _ Hwf)) as [_ ?].
  eapply (wf_insert_task _ _ _ _ p); simpl; try done.
  - apply wf_next_tid; [lia|done].
  - apply (fresh_tid everywhere everywhere everywhere k); [done|lia].
  - lia.
  - apply (kw_live _ _ _ _ Hwf _ I _ Hp). exists tid, t. split_and!; [done|done|by apply Hal].
  - by apply (gw_mask _ _ _ _ (kw_graph _ _ _ _ Hwf) _ _ Ht).
Qed.

Lemma wf_clone tid args rip k :
  kernel_wf k → alive tid k → kernel_wf (clone_current_with_return tid args rip k).2 ∧
  (clone_current_with_return tid args rip k).1 ≠ Panic.
Proof.
  intros Hwf Hal. unfold clone_current_with_return. destruct (has_clone_thread args).
  - destruct (k_tasks k !! tid); [by apply wf_thread|done].
  - destruct (negb _); [done|]. unfold clone_fork_like_current. destruct (k_tasks k !! tid); [|done].
    by apply wf_fork_like.
Qed.

Lemma wf_clone_regs tid args regs k :
  kernel_wf k → alive tid k → kernel_wf (clone_current_with_child_regs tid args regs k).2 ∧
  (clone_current_with_child_regs tid args regs k).1 ≠ Panic.
Proof.
  intros Hwf Hal. unfold clone_current_with_child_regs. destruct (has_clone_thread args); [by apply wf_thread|].
  destruct (negb _); [done|]. by apply wf_fork_like.
Qed.

(** ** exec *)
(** The process of a living task takes a new image. *)
Lemma wf_set_image tid t image k :
  kernel_wf k → k_tasks k !! tid = Some t → live t → kernel_wf (update_process (t_pid t) (set_p_image image) k).
Proof.
  intros [H1 H2 H3 H4 H5] Ht Hlv. split; simpl.
  - by apply set_processes_index.
  - by apply graph_process.
  - intros pid _ p (x & Hx & [->|[<- ->]])%alter_inv; [by apply H3|]. simpl. split; [eauto|done].
  - intros c _ tid' t' Ht' Hst. destruct (H4 _ I _ _ Ht' Hst) as (q & Hq & Hpar & Hrun).
    rewrite alter_lookup. case_decide as Hd; [rewrite Hq; simpl|]; eauto.
  - intros pid _ tid' t' mask Ht' Hpid Hw. destruct (H5 _ I _ _ _ Ht' Hpid Hw) as [Hn Hp].
    split; [done|]. intros p (x & Hx & [->|[_ ->]])%alter_inv; [by apply Hp|exact (Hp _ Hx)].
Qed.

Lemma wf_exec tid program k :
  kernel_wf k → alive tid k → kernel_wf (exec_task tid program k).2.
Proof.
  intros Hwf Hal. unfold exec_task, bind at 1 2, gets at 1, lift at 1.
  destruct (k_tasks k !! tid) as [t|] eqn:Ht; simpl; [|done].
  unfold bind at 1, lift at 1. destruct (load_program program) as [image|e|]; simpl; [|done|done].
  unfold bind at 1 2, gets, lift. destruct (k_processes k !! t_pid t) as [p|] eqn:Hp; simpl; [|done].
  unfold bind, modify. simpl. set (k1 := update_process _ _ k). set (k2 := update_task tid _ k1).
  assert (Hwf1 : kernel_wf k1) by (by eapply wf_set_image; [..|apply Hal]).
  assert (Hwf2 : kernel_wf k2).
  { apply wf_update_task; [|done]. intros t' _. by split. }
  assert (Hwf3 : kernel_wf (put_state tid Runnable k2)).
  { apply wf_put_plain; [|done|done]. unfold k2; simpl.
    intros t' (x & Hx & [->|[_ ->]])%alter_inv; rewrite Ht in Hx; injection Hx as <-; exact (Hal _ Ht). }
  eapply wf_for_weaken; [..|apply wf_resume_vfork; [exact Hwf3|]]; [done|by left|done|].
  intros tid' t' Ht' Hst. destruct (kw_vfork _ _ _ _ Hwf3 _ I _ _ Ht' Hst) as (q & Hq & Hpar & _).
  unfold parent_of. by rewrite Hq.
Qed.
