(* ===== verification/TaskReap.v ===== *)
(** * mcr-task: reaping and waking keep the invariant

    What wait4 finds and removes, and the wake-ups of child, descriptor, sleep and futex
    waiters (kernel/wait.rs). *)

From S2P Require Import Prelude SysAbi SyscallTable Dispatcher Bytes ElfParser ElfImage TaskTypes TaskKernel TaskWait TaskSyscalls TaskInv TaskSteps.
From stdpp Require Import base gmap list sorting strings.
From Stdlib Require Import ZArith Lia Sorting.Sorted.
Open Scope Z_scope.

(** ** The children a wait selects *)
Definition waitable (k : GuestKernel) (pid selector c : Z) : Prop :=
  ∃ p, k_processes k !! pid = Some p ∧ c ∈ p_children p ∧ child_matches k p c selector = true.

Lemma matching_children_spec pid selector k :
  match matching_children pid selector k with
  | Ok l => (∀ c, c ∈ l ↔ waitable k pid selector c) ∧ StronglySorted Z.lt l ∧ is_Some (k_processes k !! pid)
  | Err e => e = UnknownPid pid ∧ k_processes k !! pid = None
  | Panic => False
  end.
Proof.
  unfold matching_children. destruct (k_processes k !! pid) as [p|] eqn:Hp; simpl; [|done].
  split_and!; [|by apply StronglySorted_filter, bs_iter_sorted|eauto].
  intros c. rewrite list_elem_of_filter, elem_of_bs_iter. unfold waitable. rewrite Hp. naive_solver.
Qed.

(** The first element of a sorted list that satisfies a test is the least one. *)
Lemma find_least f (l : list Z) x :
  StronglySorted Z.lt l → List.find f l = Some x → x ∈ l ∧ f x = true ∧ ∀ y, y ∈ l → f y = true → x ≤ y.
Proof.
  induction l as [|z l IH]; [done|]. intros [Hs Hall]%StronglySorted_inv. simpl. destruct (f z) eqn:Hz.
  - intros [= <-]. split_and!; [by left|done|]. intros y [->|Hy]%elem_of_cons _; [lia|].
    rewrite Forall_forall in Hall. apply Z.lt_le_incl, Hall, Hy.
  - intros (Hin & Hx & Hleast)%IH; [|done]. split_and!; [by right|done|].
    intros y [->|Hy]%elem_of_cons; [congruence|auto].
Qed.

(** The least exited child among the selected ones. *)
Definition exited_child (k : GuestKernel) (pid selector c : Z) : Prop :=
  waitable k pid selector c ∧ has_exited k c = true.

Lemma exited_waitable_child_spec pid selector k :
  match exited_waitable_child pid selector k with
  | Ok (Some c) => exited_child k pid selector c ∧ ∀ d, exited_child k pid selector d → c ≤ d
  | Ok None => ∀ d, ¬ exited_child k pid selector d
  | Err e => e = UnknownPid pid ∧ k_processes k !! pid = None
  | Panic => False
  end.
Proof.
  unfold exited_waitable_child. pose proof (matching_children_spec pid selector k) as Hm.
  destruct (matching_children pid selector k) as [l|e|]; simpl; [|done|done].
  destruct Hm as (Hin & Hs & _). destruct (List.find (has_exited k) l) as [c|] eqn:Hf.
  - apply find_least in Hf as (Hc & Hx & Hleast); [|done]. split; [split; [by apply Hin|done]|].
    intros d [Hd Hxd]. apply Hleast; [by apply Hin|done].
  - intros d [Hd Hx]. apply Hin in Hd. pose proof (find_None _ _ _ Hf Hd). congruence.
Qed.

Lemma has_waitable_child_spec pid selector k :
  match has_waitable_child pid selector k with
  | Ok b => b = true ↔ ∃ c, waitable k pid selector c
  | Err e => e = UnknownPid pid ∧ k_processes k !! pid = None
  | Panic => False
  end.
Proof.
  unfold has_waitable_child. pose proof (matching_children_spec pid selector k) as Hm.
  destruct (matching_children pid selector k) as [l|e|]; simpl; [|done|done].
  destruct Hm as (Hin & _). rewrite negb_true_iff, bool_decide_eq_false. split.
  - intros Hne. destruct l as [|c l]; [done|]. exists c. apply Hin. by left.
  - intros [c Hc%Hin] ->. by apply not_elem_of_nil in Hc.
Qed.

(** ** Reaping *)
Lemma remove_all_core tids k :
  (∀ tid t, k_tasks k !! tid = Some t → t_tid t = tid) → index_wf k →
  let k' := foldl (λ k tid, remove_task tid k) k tids in
  index_wf k' ∧ core_of k' = (k_next_pid k, k_next_tid k, k_processes k, filter (λ x, x.1 ∉ tids) (k_tasks k)).
Proof.
  revert k. induction tids as [|tid tids IH]; intros k Hid Hix; simpl.
  - split; [done|]. unfold core_of. f_equal. symmetry. apply map_filter_id. intros i x _. apply not_elem_of_nil.
  - pose proof (remove_task_core tid k (Hid tid)) as Hc.
    destruct (IH (remove_task tid k)) as [Hix' Hcore].
    + intros tid' t. rewrite (core_tasks _ _ _ _ _ Hc). intros [_ Ht]%lookup_delete_Some. by apply Hid.
    + apply remove_task_index; [apply Hid|done].
    + split; [done|]. rewrite Hcore, (core_next_pid _ _ _ _ _ Hc), (core_next_tid _ _ _ _ _ Hc),
        (core_processes _ _ _ _ _ Hc), (core_tasks _ _ _ _ _ Hc). f_equal.
      apply map_eq. intros i. apply option_eq. intros t.
      rewrite !map_lookup_filter_Some, lookup_delete_Some. simpl. set_solver.
Qed.

Definition without_child (child_pid : Z) (p : GuestProcess) : GuestProcess :=
  set_p_children (p_children p ∖ {[child_pid]}) p.

(** What reaping removes: the child, its tasks, and its entry in the parent. *)
Definition reaped_core (parent_pid child_pid : Z) (k k' : GuestKernel) : Prop :=
  core_of k' = (k_next_pid k, k_next_tid k,
                alter (without_child child_pid) parent_pid (delete child_pid (k_processes k)),
                filter (λ x, t_pid x.2 ≠ child_pid) (k_tasks k)).

Lemma reaped_parent_of ps parent c x :
  parent_of (alter (without_child c) parent (delete c ps)) x = if decide (x = c) then None else parent_of ps x.
Proof.
  unfold parent_of. rewrite alter_lookup. destruct (decide (x = c)) as [->|Hne].
  - rewrite lookup_delete_eq. by case_decide.
  - rewrite lookup_delete_ne by done. case_decide; [|done]. by destruct (ps !! x).
Qed.

Lemma wf_reaped parent c p q status k k' :
  kernel_wf k → k_processes k !! parent = Some p → c ∈ p_children p →
  k_processes k !! c = Some q → p_exit_state q = ExitedWith status →
  index_wf k' → reaped_core parent c k k' → kernel_wf k'.
Proof.
  intros [H1 [G1 G2 G3 G4 G5 G6 G7] H3 H4 H5] Hp Hin Hq Hex Hix Hcore.
  assert (Hpar : parent_of (k_processes k) c = Some parent) by (by apply (G5 _ _ _ Hp)).
  assert (Hne : c ≠ parent) by (destruct (G6 _ _ Hpar); lia).
  assert (Hlook : ∀ x y, alter (without_child c) parent (delete c (k_processes k)) !! x = Some y →
            x ≠ c ∧ ∃ y0, k_processes k !! x = Some y0 ∧ (y = y0 ∧ x ≠ parent ∨ x = parent ∧ y = without_child c y0)).
  { intros x y. rewrite alter_lookup. case_decide as Hd.
    - intros (y0 & [Hc Hy]%lookup_delete_Some & ->)%fmap_Some. eauto 10.
    - intros [Hc Hy]%lookup_delete_Some. eauto 10. }
  assert (Hts : ∀ tid t, filter (λ x : Z * GuestTask, t_pid x.2 ≠ c) (k_tasks k) !! tid = Some t ↔
                  k_tasks k !! tid = Some t ∧ t_pid t ≠ c) by (intros; apply map_lookup_filter_Some).
  eapply wf_for_core; [exact Hcore|done|..].
  - split.
    + done.
    + intros pid y (_ & y0 & Hy0 & [[-> _]|[_ ->]])%Hlook; exact (G2 _ _ Hy0).
    + intros tid t [Ht _]%Hts. by apply G3.
    + intros tid t [Ht Hpid]%Hts. rewrite alter_lookup, lookup_delete_ne by done.
      case_decide; [apply fmap_is_Some|]; by eapply G4.
    + intros pid y d (Hc & y0 & Hy0 & Hor)%Hlook. rewrite reaped_parent_of.
      destruct Hor as [[-> Hpid]|[-> ->]]; simpl; [rewrite (G5 _ _ d Hy0)|rewrite elem_of_difference, elem_of_singleton, (G5 _ _ d Hy0)];
        case_decide; naive_solver congruence.
    + intros pid x. rewrite reaped_parent_of. case_decide; [done|apply G6].
    + intros tid t [Ht _]%Hts. by eapply G7.
  - intros pid _ y (Hc & y0 & Hy0 & Hor)%Hlook.
    assert (p_exit_state y = p_exit_state y0) as -> by (destruct Hor as [[-> _]|[_ ->]]; done).
    rewrite (H3 pid I y0 Hy0). setoid_rewrite Hts. naive_solver.
  - intros d _ tid t [Ht Hpid]%Hts Hst. destruct (H4 d I _ _ Ht Hst) as (r & Hr & Hrp & Hrun).
    assert (d ≠ c) by (intros ->; congruence). rewrite alter_lookup, lookup_delete_ne by done.
    case_decide; [|eauto]. rewrite Hr. simpl. eauto.
  - intros pid _ tid t mask [Ht _]%Hts Hpid Hw. destruct (H5 pid I _ _ _ Ht Hpid Hw) as [Hn Hpn]. split; [done|].
    intros y (_ & y0 & Hy0 & [[-> _]|[_ ->]])%Hlook; exact (Hpn _ Hy0).
Qed.

Lemma has_exited_inv k c :
  has_exited k c = true → ∃ q status, k_processes k !! c = Some q ∧ p_exit_state q = ExitedWith status.
Proof.
  unfold has_exited. destruct (k_processes k !! c) as [q|]; simpl; [|done].
  destruct (p_exit_state q) as [|status] eqn:He; [done|eauto].
Qed.

(** An exited child is reaped whole. *)
Lemma reap_child_spec parent selector c k :
  kernel_wf k → exited_child k parent selector c →
  ∃ q status k', reap_child parent c k = (Ok (waited_child_new c status), k') ∧
    k_processes k !! c = Some q ∧ p_exit_state q = ExitedWith status ∧
    reaped_core parent c k k' ∧ kernel_wf k'.
Proof.
  intros Hwf [(p & Hp & Hin & _) (q & status & Hq & He)%has_exited_inv].
  assert (Hpar : parent_of (k_processes k) c = Some parent)
    by (by apply (gw_child _ _ _ _ (kw_graph _ _ _ _ Hwf) _ _ _ Hp)).
  assert (Hne : c ≠ parent) by (destruct (gw_parent _ _ _ _ (kw_graph _ _ _ _ Hwf) _ _ Hpar); lia).
  unfold reap_child, bind at 1 2, gets at 1, lift at 1. rewrite Hq. simpl. rewrite He.
  destruct (remove_all_core (tids_of c k) k) as [Hix Hcore]; [|apply Hwf|].
  { intros tid t Ht. apply (gw_tid _ _ _ _ (kw_graph _ _ _ _ Hwf) _ _ Ht). }
  unfold bind, gets, modify, lift, ret. simpl. set (k1 := foldl _ _ _) in *.
  rewrite (core_processes _ _ _ _ _ Hcore), lookup_delete_ne, Hp by done. simpl.
  set (k' := update_process _ _ _).
  assert (Hr : reaped_core parent c k k').
  { unfold reaped_core, k', core_of; simpl. rewrite (core_next_pid _ _ _ _ _ Hcore), (core_next_tid _ _ _ _ _ Hcore),
      (core_processes _ _ _ _ _ Hcore), (core_tasks _ _ _ _ _ Hcore). f_equal.
    apply map_filter_ext. intros tid t Ht. simpl. rewrite (elem_of_tids_of _ _ _ _ _ _ Hwf). naive_solver. }
  exists q, status, k'. split_and!; [done|done|done|done|].
  apply (wf_reaped parent c p q status k k'); try done. unfold k'. apply set_processes_index.
  by eapply (indexed_fields k1).
Qed.

(** [wait4_child] on every branch. *)
Lemma wait4_child_spec parent args k :
  kernel_wf k →
  match wait4_child parent args k with
  | (Ok (Some waited), k') => ∃ c q status,
      has_unsupported_options args = false ∧
      exited_child k parent (w4_pid args) c ∧ (∀ d, exited_child k parent (w4_pid args) d → c ≤ d) ∧
      k_processes k !! c = Some q ∧ p_exit_state q = ExitedWith status ∧
      waited = waited_child_new c status ∧ reaped_core parent c k k' ∧ kernel_wf k'
  | (Ok None, k') => k' = k ∧ no_hang args = true ∧ (∃ c, waitable k parent (w4_pid args) c) ∧
      ∀ c, ¬ exited_child k parent (w4_pid args) c
  | (Err e, k') => k' = k ∧
      match e with
      | InvalidWaitOptions options => options = w4_options args ∧ has_unsupported_options args = true
      | UnknownPid pid => pid = parent ∧ k_processes k !! parent = None
      | WouldBlock => no_hang args = false ∧ has_unsupported_options args = false ∧
          (∃ c, waitable k parent (w4_pid args) c) ∧ ∀ c, ¬ exited_child k parent (w4_pid args) c
      | NoChild => ∀ c, ¬ waitable k parent (w4_pid args) c
      | _ => False
      end
  | (Panic, _) => False
  end.
Proof.
  intros Hwf. unfold wait4_child. destruct (has_unsupported_options args) eqn:Hopt; [done|].
  unfold bind at 1, gets, bind at 1, lift at 1.
  pose proof (exited_waitable_child_spec parent (w4_pid args) k) as Hx. unfold id.
  destruct (exited_waitable_child parent (w4_pid args) k) as [[c|]|e|]; [|..|done].
  - destruct Hx as [Hc Hleast]. destruct (reap_child_spec _ _ _ _ Hwf Hc) as (q & status & k' & Hr & ?).
    unfold bind. rewrite Hr. simpl. exists c, q, status. tauto.
  - unfold bind, lift. pose proof (has_waitable_child_spec parent (w4_pid args) k) as Hh.
    destruct (has_waitable_child parent (w4_pid args) k) as [b|e|]; [|by destruct Hh as [-> ?]|done].
    destruct b; simpl.
    + destruct (no_hang args); simpl; naive_solver.
    + split; [done|]. intros c Hc. by discriminate (proj2 Hh (ex_intro _ c Hc)).
  - by destruct Hx as [-> ?].
Qed.

(** Reaping keeps the living tasks and adds no exited child. *)
Lemma reaped_frame parent selector c k k' :
  kernel_wf k → exited_child k parent selector c → reaped_core parent c k k' →
  (∀ tid t, k_tasks k !! tid = Some t → live t → k_tasks k' !! tid = Some t) ∧
  (∀ tid t, k_tasks k' !! tid = Some t → k_tasks k !! tid = Some t) ∧
  ∀ pid sel d, exited_child k' pid sel d → exited_child k pid sel d.
Proof.
  intros Hwf [_ (q & status & Hq & He)%has_exited_inv] Hcore.
  unfold exited_child, waitable, has_exited, child_matches.
  rewrite (core_tasks _ _ _ _ _ Hcore), (core_processes _ _ _ _ _ Hcore). split_and!.
  - intros tid t Ht Hlv. apply map_lookup_filter_Some. split; [done|]. simpl. intros <-.
    assert (p_exit_state q = Running) by (apply (kw_live _ _ _ _ Hwf _ I _ Hq); eauto). congruence.
  - intros tid t [Ht _]%map_lookup_filter_Some. done.
  - assert (Hlook : ∀ x y, alter (without_child c) parent (delete c (k_processes k)) !! x = Some y →
        ∃ y0, k_processes k !! x = Some y0 ∧ p_children y ⊆ p_children y0 ∧ p_exit_state y = p_exit_state y0 ∧ p_pgid y = p_pgid y0).
    { intros x y (y0 & [_ Hy]%lookup_delete_Some & [->|[_ ->]])%alter_inv; exists y0; split_and!; try done. simpl. set_solver. }
    intros pid sel d [(p' & (p0 & Hp & Hsub & _ & Hpg)%Hlook & Hin & Hm) Hx].
    destruct (alter _ _ _ !! d) as [qd|] eqn:Hd; [|done].
    apply Hlook in Hd as (q0 & Hq0 & _ & He0 & Hpg0). rewrite Hq0. simpl in Hx |- *. rewrite <- He0.
    split; [|done]. exists p0. rewrite Hpg, Hpg0 in Hm. split_and!; [done|set_solver|done].
Qed.

Definition child_waiter (k : GuestKernel) (tid pid : Z) (args : Wait4SyscallArgs) : Prop :=
  ∃ t, k_tasks k !! tid = Some t ∧ t_pid t = pid ∧ t_state t = WaitingForChild args.

(** The task of a completed wait runs, with the child's id as the result. *)
Definition completed (k : GuestKernel) (c : CompletedWait) : Prop :=
  ∃ t, k_tasks k !! cw_tid c = Some t ∧ t_state t = Runnable ∧ t_pid t = cw_pid c ∧
    r_rax (t_regs t) = wc_pid (cw_waited c).

(** One step of the loop: what it keeps, and what it does for its own waiter. *)
Record resumed_step (tid pid : Z) (args : Wait4SyscallArgs) (done : option CompletedWait) (k k' : GuestKernel) : Prop := {
  rs_wf : kernel_wf k';
  rs_keep : ∀ x t, x ≠ tid → live t → k_tasks k !! x = Some t → k_tasks k' !! x = Some t;
  rs_old : ∀ x t, x ≠ tid → k_tasks k' !! x = Some t → k_tasks k !! x = Some t;
  rs_exited : ∀ p sel d, exited_child k' p sel d → exited_child k p sel d;
  rs_result : match done with
    | Some c => cw_tid c = tid ∧ completed k' c ∧ cw_args c = args ∧ ∃ status, cw_waited c = waited_child_new (wc_pid (cw_waited c)) status ∧
        exited_child k pid (w4_pid args) (wc_pid (cw_waited c))
    | None => k' = k ∧ (has_unsupported_options args = false → ∀ c, ¬ exited_child k pid (w4_pid args) c)
    end;
}.

Lemma resume_waiting_task_spec tid pid args k :
  kernel_wf k → child_waiter k tid pid args →
  let '(done, k') := resume_waiting_task tid pid args k in resumed_step tid pid args done k k'.
Proof.
  intros Hwf (t & Ht & Hpid & Hst). unfold resume_waiting_task.
  pose proof (wait4_child_spec pid args k Hwf) as Hw.
  destruct (wait4_child pid args k) as [[[w|]|e|] k1]; [..|done].
  - destruct Hw as (c & q & status & Hopt & Hx & Hleast & Hq & He & -> & Hcore & Hwf1).
    destruct (reaped_frame _ _ _ _ _ Hwf Hx Hcore) as (F1 & F2 & F3).
    assert (Hlv : live t) by (unfold live; by rewrite Hst).
    set (f := λ t0, set_t_regs _ t0).
    assert (Hts : k_tasks (put_state tid Runnable (update_task tid f k1)) = alter (set_t_state Runnable) tid (alter f tid (k_tasks k1)))
      by apply put_state_tasks.
    assert (Hps : k_processes (put_state tid Runnable (update_task tid f k1)) = k_processes k1)
      by (by rewrite (core_processes _ _ _ _ _ (put_state_core _ _ _))).
    split; simpl.
    + apply wf_put_plain; [|done|].
      * intros t' (x & Hx1 & Hor)%alter_inv. apply F2 in Hx1. destruct Hor as [->|[_ ->]]; simplify_eq; exact Hlv.
      * apply wf_update_task; [|done]. intros t' _. by apply quiet_lesser.
    + intros x tx Hne Hlx Hx'. rewrite Hts, !lookup_alter_ne by done. by apply F1.
    + intros x tx Hne. rewrite Hts, !lookup_alter_ne by done. apply F2.
    + intros p sel d. unfold exited_child, waitable, has_exited, child_matches. rewrite Hps. apply F3.
    + split_and!; [done| |done|eauto]. exists (set_t_state Runnable (f t)). simpl.
      rewrite Hts, !lookup_alter_eq, (F1 _ _ Ht Hlv). done.
  - destruct Hw as (-> & _ & _ & Hno). split; eauto.
  - destruct Hw as (-> & He). split; eauto. split; [done|]. intros Hopt c Hx.
    destruct e; try done.
    + destruct He as [_ He]. congruence.
    + by apply (He c), Hx.
    + destruct Hx as [(p & Hp & _) _], He as [-> He]. congruence.
    + destruct He as (_ & _ & _ & Hno). by apply (Hno c).
Qed.

Lemma resume_waiting_loop_spec waiting k :
  kernel_wf k → NoDup waiting.*1.*1 →
  (∀ tid pid args, (tid, pid, args) ∈ waiting → child_waiter k tid pid args) →
  (∀ tid pid args, child_waiter k tid pid args → has_unsupported_options args = false →
     (tid, pid, args) ∈ waiting ∨ ∀ c, ¬ exited_child k pid (w4_pid args) c) →
  let '(cs, k') := resume_waiting_loop waiting k in
  kernel_wf k' ∧
  (∀ tid t, tid ∉ waiting.*1.*1 → live t → k_tasks k !! tid = Some t → k_tasks k' !! tid = Some t) ∧
  Forall (λ c, cw_tid c ∈ waiting.*1.*1 ∧ completed k' c) cs ∧
  (∀ tid pid args, child_waiter k' tid pid args → has_unsupported_options args = false →
     ∀ c, ¬ exited_child k' pid (w4_pid args) c).
Proof.
  revert k. induction waiting as [|[[tid pid] args] waiting IH]; intros k Hwf Hnd Hin Hserved; simpl.
  - split_and!; [done|done|constructor|]. intros tid pid args Hc Hopt.
    destruct (Hserved _ _ _ Hc Hopt) as [?%not_elem_of_nil|]; done.
  - apply NoDup_cons in Hnd as [Hnin Hnd]. simpl in Hnin.
    pose proof (resume_waiting_task_spec tid pid args k Hwf (Hin _ _ _ ltac:(left))) as Hs.
    destruct (resume_waiting_task tid pid args k) as [done1 k1]. destruct Hs as [Hwf1 Hkeep Hold Hex Hres].
    assert (Hother : ∀ x p a, (x, p, a) ∈ waiting → x ≠ tid).
    { intros x p a Hx ->. apply Hnin. apply list_elem_of_fmap. exists (tid, p). split; [done|].
      apply list_elem_of_fmap. by exists (tid, p, a). }
    specialize (IH k1 Hwf1 Hnd). destruct (resume_waiting_loop waiting k1) as [cs k2].
    destruct IH as (Hwf2 & Hkeep2 & Hcs & Hno).
    + intros x p a Hx. destruct (Hin x p a ltac:(by right)) as (t & Ht & Hp & Hst). exists t. split; [|done].
      apply Hkeep; [by eapply Hother|unfold live; by rewrite Hst|done].
    + intros x p a (t & Ht & Hp & Hst) Hopt. destruct (decide (x = tid)) as [->|Hne].
      * right. destruct done1 as [c|].
        -- destruct Hres as (Htid & (t' & Ht' & Hrun & _) & _). rewrite Htid in Ht'. simplify_eq. congruence.
        -- destruct Hres as [-> Hres]. destruct (Hin tid pid args ltac:(left)) as (t' & Ht' & Hp' & Hst').
           simplify_eq. rewrite Hst' in Hst. injection Hst as <-. by apply Hres.
      * destruct (Hserved x p a) as [[[= -> ->]|Hx]%elem_of_cons|Hn]; [|done|done|by left|].
        { exists t. split; [by apply Hold|done]. }
        right. intros c Hc. by eapply Hn, Hex.
    + split_and!; [done| | |done].
      * intros x t Hx Hlv Ht. apply not_elem_of_cons in Hx as [Hne Hx]. apply Hkeep2; [done|done|]. by apply Hkeep.
      * assert (Hcs' : Forall (λ c, cw_tid c ∈ tid :: waiting.*1.*1 ∧ completed k2 c) cs).
        { eapply Forall_impl; [exact Hcs|]. intros c [? ?]. split; [by right|done]. }
        destruct done1 as [c|]; [|done]. constructor; [|done].
        destruct Hres as (<- & (t' & Ht' & Hrun & ?) & _). split; [by left|]. exists t'. split; [|done].
        apply Hkeep2; [done|unfold live; by rewrite Hrun|done].
Qed.

Lemma elem_of_child_waiters k tid pid args :
  kernel_wf k → (tid, pid, args) ∈ child_waiters k ↔ child_waiter k tid pid args.
Proof.
  intros Hwf. unfold child_waiters, child_waiter. rewrite list_elem_of_omap. setoid_rewrite elem_of_bs_iter. split.
  - intros (x & _ & Hx). destruct (k_tasks k !! x) as [t|] eqn:Ht; [|done].
    pose proof (proj1 (gw_tid _ _ _ _ (kw_graph _ _ _ _ Hwf) _ _ Ht)) as Htid.
    destruct (t_state t) eqn:Hst; try done. injection Hx as <- <- <-. rewrite Htid. eauto.
  - intros (t & Ht & Hp & Hst). exists tid. split.
    + apply (ix_child _ _ (kw_index _ _ _ _ Hwf)). exists args. unfold state_of. by rewrite Ht, <- Hst.
    + rewrite Ht, Hst. pose proof (proj1 (gw_tid _ _ _ _ (kw_graph _ _ _ _ Hwf) _ _ Ht)) as Htid. congruence.
Qed.

Lemma child_waiters_NoDup k : kernel_wf k → NoDup (child_waiters k).*1.*1.
Proof.
  intros Hwf. unfold child_waiters. pose proof (bs_iter_NoDup (k_child_wait k)) as Hnd.
  induction Hnd as [|x l Hx Hnd IH]; simpl; [constructor|].
  destruct (k_tasks k !! x) as [t|] eqn:Ht; [|done]. destruct (t_state t) eqn:Hst; try done.
  pose proof (proj1 (gw_tid _ _ _ _ (kw_graph _ _ _ _ Hwf) _ _ Ht)) as Htid.
  simpl. constructor; [|done]. rewrite Htid. intros ([a b] & -> & ([[a' b'] ar] & [= <- <-] & Hin)%list_elem_of_fmap)%list_elem_of_fmap.
  apply list_elem_of_omap in Hin as (y & Hy & Hf). simpl in *. apply Hx.
  destruct (k_tasks k !! y) as [t'|] eqn:Ht'; [|done]. destruct (t_state t') eqn:Hst'; try done.
  injection Hf as Hf _ _. pose proof (proj1 (gw_tid _ _ _ _ (kw_graph _ _ _ _ Hwf) _ _ Ht')). congruence.
Qed.

(** ** mcr-task: blocking and waking on descriptors, sleeps and futexes

    The invariant, and what a futex wake or requeue moves (kernel/wait.rs). *)

(** ** The state of several tasks *)
Definition put_all (st : TaskState) (tids : list Z) (k : GuestKernel) : GuestKernel :=
  foldl (λ k tid, put_state tid st k) k tids.

Lemma put_all_tasks st tids k tid :
  k_tasks (put_all st tids k) !! tid = (if decide (tid ∈ tids) then set_t_state st else id) <$> k_tasks k !! tid.
Proof.
  unfold put_all. revert k. induction tids as [|x tids IH]; intros k; simpl.
  - by destruct (k_tasks k !! tid).
  - rewrite IH, put_state_tasks, alter_lookup.
    repeat case_decide; subst; try (exfalso; set_solver); by destruct (k_tasks k !! tid).
Qed.

Lemma put_all_processes st tids k : k_processes (put_all st tids k) = k_processes k.
Proof.
  unfold put_all. revert k. induction tids as [|x tids IH]; intros k; simpl; [done|].
  by rewrite IH, (core_processes _ _ _ _ _ (put_state_core _ _ _)).
Qed.

Lemma alive_put tid x st k : is_exited st = false → alive tid k → alive tid (put_state x st k).
Proof.
  intros Hst Hal t. rewrite put_state_tasks. intros (t0 & Ht0 & [->|[_ ->]])%alter_inv; [by apply Hal|exact Hst].
Qed.

Lemma plain_living st : plain st → is_exited st = false.
Proof. by destruct st. Qed.

Lemma wf_put_all st tids k :
  plain st → (∀ tid, tid ∈ tids → alive tid k) → kernel_wf k → kernel_wf (put_all st tids k).
Proof.
  intros Hst. unfold put_all. revert k. induction tids as [|x tids IH]; intros k Hlv Hwf; simpl; [done|]. apply IH.
  - intros tid Hin. apply alive_put; [by apply plain_living|]. apply Hlv. by right.
  - apply wf_put_plain; [|done|done]. apply Hlv. by left.
Qed.

(** ** Blocking *)
Lemma wf_block_task tid st k : kernel_wf k → alive tid k → plain st → kernel_wf (block_task tid st k).2.
Proof.
  intros Hwf Hal Hst. unfold block_task. destruct (set_task_state tid st k) as [o k'] eqn:He.
  change (kernel_wf k'). change k' with (o, k').2. rewrite <- He. by apply wf_put_plain.
Qed.

(** ** Descriptors and sleeps *)
Lemma alive_waiting tid k t : k_tasks k !! tid = Some t → is_exited (t_state t) = false → alive tid k.
Proof. intros Ht Hst t' Ht'. by simplify_eq. Qed.

Lemma wf_resume_fd ready tids k : kernel_wf k → kernel_wf (resume_fd_loop ready tids k).2.
Proof.
  revert k. induction tids as [|tid tids IH]; intros k Hwf; simpl; [done|].
  destruct (k_tasks k !! tid) as [t|] eqn:Ht; [|by apply IH].
  destruct (t_state t) as [| | | | |fd w| | |] eqn:Hst; try by apply IH.
  destruct (ready (t_pid t) fd w); [|by apply IH].
  pose proof (IH (put_state tid Runnable k)) as H. destruct (resume_fd_loop _ _ _). apply H.
  apply wf_put_plain; [|done|done]. eapply alive_waiting; [done|by rewrite Hst].
Qed.

Lemma wf_resume_sleep tid k : kernel_wf k → kernel_wf (resume_sleep_waiter tid k).2.
Proof.
  intros Hwf. unfold resume_sleep_waiter. destruct (k_tasks k !! tid) as [t|] eqn:Ht; simpl; [|done].
  destruct (t_state t) eqn:Hst; try done. destruct (set_task_state tid Runnable k) as [o k'] eqn:He.
  change (kernel_wf k'). change k' with (o, k').2. rewrite <- He. apply wf_put_plain; [|done|done].
  eapply alive_waiting; [done|by rewrite Hst].
Qed.

(** The descriptor waiters whose descriptor is ready. *)
Definition fd_ready (ready : Z → Z → bool → bool) (k : GuestKernel) (tid : Z) : bool :=
  match k_tasks k !! tid with
  | Some t => match t_state t with WaitingForFd fd write => ready (t_pid t) fd write | _ => false end
  | None => false
  end.

Lemma resume_fd_spec ready tids k :
  NoDup tids →
  resume_fd_loop ready tids k =
  (zlen (filter (λ tid, fd_ready ready k tid = true) tids),
   put_all Runnable (filter (λ tid, fd_ready ready k tid = true) tids) k).
Proof.
  intros Hnd. revert k. induction Hnd as [|tid tids Hnin Hnd IH]; intros k; [done|].
  assert (Hskip : fd_ready ready k tid = false → resume_fd_loop ready tids k =
    (zlen (filter (λ tid, fd_ready ready k tid = true) (tid :: tids)),
     put_all Runnable (filter (λ tid, fd_ready ready k tid = true) (tid :: tids)) k)).
  { intros Hf. rewrite filter_cons, Hf. rewrite decide_False by done. apply IH. }
  simpl resume_fd_loop. unfold fd_ready at 1 in Hskip.
  destruct (k_tasks k !! tid) as [t|] eqn:Ht; [|by apply Hskip].
  destruct (t_state t) as [| | | | |fd w| | |] eqn:Hst; try by apply Hskip.
  destruct (ready (t_pid t) fd w) eqn:Hr; [|by apply Hskip]. rewrite IH. clear IH.
  assert (Hf : fd_ready ready k tid = true) by (unfold fd_ready; by rewrite Ht, Hst).
  rewrite filter_cons, Hf, decide_True by done.
  assert (Hsame : filter (λ x, fd_ready ready (put_state tid Runnable k) x = true) tids =
                  filter (λ x, fd_ready ready k x = true) tids).
  { apply list_filter_ext_in. intros x Hx. unfold fd_ready. rewrite put_state_tasks, lookup_alter_ne; [done|].
    by intros <-. }
  rewrite Hsame. unfold zlen. simpl. f_equal. lia.
Qed.

(** ** Futexes *)
Definition on_futex (key : FutexWaitKey) (k : GuestKernel) (tid : Z) : Prop :=
  state_of k tid = Some (WaitingForFutex key).

Lemma move_futex_spec key st limit tids k :
  NoDup tids → Forall (on_futex key k) tids → 1 ≤ limit →
  move_futex_waiters key st limit tids k =
  (Z.min limit (zlen tids), put_all st (take (Z.to_nat limit) tids) k).
Proof.
  intros Hnd. revert limit k. induction Hnd as [|tid tids Hnin Hnd IH]; intros limit k Hall Hlim; simpl.
  - unfold zlen; simpl. rewrite take_nil. f_equal. lia.
  - apply Forall_cons in Hall as [Htid Hall]. unfold on_futex, state_of in Htid. rewrite Htid, decide_True by done.
    destruct (Z.eqb_spec limit 1) as [->|Hne].
    + change (take (Z.to_nat 1) (tid :: tids)) with [tid]. unfold zlen; simpl. f_equal. lia.
    + rewrite IH; [|..|lia].
      * replace (Z.to_nat limit) with (S (Z.to_nat (limit - 1))) by lia. simpl. unfold zlen; simpl. f_equal. lia.
      * rewrite Forall_forall in Hall |- *. intros x Hx. unfold on_futex, state_of.
        rewrite put_state_tasks, lookup_alter_ne by (intros <-; done). by apply Hall.
Qed.

Lemma futex_waiters_spec key k :
  index_wf k → NoDup (futex_waiters key k) ∧ ∀ tid, tid ∈ futex_waiters key k ↔ on_futex key k tid.
Proof.
  intros Hix. split; [apply bs_iter_NoDup|]. intros tid. unfold futex_waiters. rewrite elem_of_bs_iter.
  apply (ix_futex _ _ Hix).
Qed.

(** A wake moves the first [limit] waiters, by task id, and no other task. *)
Lemma wake_futex_spec key limit k :
  index_wf k → 0 ≤ limit →
  wake_futex_waiters key limit k =
  (Z.min limit (zlen (futex_waiters key k)), put_all Runnable (take (Z.to_nat limit) (futex_waiters key k)) k).
Proof.
  intros Hix Hlim. unfold wake_futex_waiters. destruct (futex_waiters_spec key k Hix) as [Hnd Hin].
  destruct (Z.eqb_spec limit 0) as [->|Hne].
  - pose proof (zlen_nonneg (futex_waiters key k)). rewrite take_0. f_equal. lia.
  - apply move_futex_spec; [done| |lia]. apply Forall_forall. intros tid. apply Hin.
Qed.

Lemma put_all_index st tids k : index_wf k → index_wf (put_all st tids k).
Proof.
  unfold put_all. revert k. induction tids as [|x tids IH]; intros k Hix; simpl; [done|].
  by apply IH, put_state_index.
Qed.

(** The waiters that stay after some were woken. *)
Lemma futex_waiters_rest key st n k :
  index_wf k → st ≠ WaitingForFutex key →
  futex_waiters key (put_all st (take n (futex_waiters key k)) k) = drop n (futex_waiters key k).
Proof.
  intros Hix Hst. set (l := futex_waiters key k).
  destruct (futex_waiters_spec key k Hix) as [Hnd Hin]. fold l in Hnd, Hin.
  pose proof (bs_iter_sorted (default ∅ (k_futex_wait k !! key))) as Hs. change (StronglySorted Z.lt l) in Hs.
  set (k' := put_all st (take n l) k).
  assert (Hix' : index_wf k') by (by apply put_all_index).
  destruct (futex_waiters_spec key k' Hix') as [Hnd' Hin'].
  apply (StronglySorted_unique Z.le).
  - apply sorted_lt_le, bs_iter_sorted.
  - apply sorted_lt_le. rewrite <- (take_drop n l) in Hs. by apply StronglySorted_app_1_r in Hs.
  - rewrite <- (take_drop n l) in Hnd. apply NoDup_app in Hnd as (_ & Hdis & Hnd2).
    apply NoDup_Permutation; [done|done|]. intros tid. rewrite Hin'. unfold on_futex, state_of, k'.
    rewrite put_all_tasks.
    assert (Hl : tid ∈ l ↔ tid ∈ take n l ∨ tid ∈ drop n l) by (by rewrite <- (take_drop n l) at 1; rewrite elem_of_app).
    unfold on_futex, state_of in Hin. specialize (Hin tid).
    case_decide as Hd; destruct (k_tasks k !! tid); simpl in *; naive_solver congruence.
Qed.

(** A requeue wakes the first waiters and moves the next ones to the other queue. *)
Lemma requeue_futex_spec source target wake_limit requeue_limit k :
  index_wf k → 0 ≤ wake_limit → 0 ≤ requeue_limit →
  let l := futex_waiters source k in
  let woken := take (Z.to_nat wake_limit) l in
  let moved := if decide (source = target) then [] else take (Z.to_nat requeue_limit) (drop (Z.to_nat wake_limit) l) in
  requeue_futex_waiters source target wake_limit requeue_limit k =
  (zlen woken + zlen moved, put_all (WaitingForFutex target) moved (put_all Runnable woken k)).
Proof.
  intros Hix Hw Hr. simpl. unfold requeue_futex_waiters. rewrite wake_futex_spec by done.
  assert (Hlen : Z.min wake_limit (zlen (futex_waiters source k)) = zlen (take (Z.to_nat wake_limit) (futex_waiters source k))).
  { unfold zlen. rewrite length_take. lia. }
  rewrite Hlen. destruct (decide (source = target)) as [->|Hne].
  { rewrite bool_decide_eq_true_2, orb_true_r by done. unfold zlen at 3. simpl. f_equal. lia. }
  rewrite bool_decide_eq_false_2, orb_false_r by done.
  destruct (Z.eqb_spec requeue_limit 0) as [->|Hn0].
  { rewrite take_0. unfold zlen at 3. simpl. f_equal. lia. }
  rewrite futex_waiters_rest by done. set (k1 := put_all Runnable _ k).
  assert (Hix1 : index_wf k1) by (by apply put_all_index).
  destruct (futex_waiters_spec source k1 Hix1) as [Hnd Hin].
  rewrite <- (futex_waiters_rest source Runnable (Z.to_nat wake_limit) k Hix) by done. fold k1.
  rewrite move_futex_spec; [|done|apply Forall_forall; intros tid; apply Hin|lia].
  f_equal. f_equal. unfold zlen. rewrite length_take. lia.
Qed.

Lemma alive_on_futex key k tid : on_futex key k tid → alive tid k.
Proof. unfold on_futex, state_of. intros Hst t Ht. rewrite Ht in Hst. injection Hst as Hst. unfold live. by rewrite Hst. Qed.

Lemma wf_wake_futex key limit k : kernel_wf k → 0 ≤ limit → kernel_wf (wake_futex_waiters key limit k).2.
Proof.
  intros Hwf Hlim. rewrite wake_futex_spec by (try apply Hwf; done). apply wf_put_all; [done| |done].
  intros tid Hin%elem_of_take. destruct Hin as (i & Hi & _). apply list_elem_of_lookup_2 in Hi.
  apply (futex_waiters_spec key k) in Hi; [|apply Hwf]. by eapply alive_on_futex.
Qed.

Lemma wf_requeue_futex source target wake_limit requeue_limit k :
  kernel_wf k → 0 ≤ wake_limit → 0 ≤ requeue_limit →
  kernel_wf (requeue_futex_waiters source target wake_limit requeue_limit k).2.
Proof.
  intros Hwf Hw Hr. rewrite requeue_futex_spec by (try apply Hwf; done). simpl.
  assert (Hal : ∀ tid, tid ∈ futex_waiters source k → alive tid k).
  { intros tid Hin%(futex_waiters_spec source k); [|apply Hwf]. by eapply alive_on_futex. }
  apply wf_put_all; [done| |apply wf_put_all; [done| |done]].
  - intros tid Hin t. rewrite put_all_tasks. intros (t0 & Ht0 & ->)%fmap_Some.
    destruct (decide (tid ∈ take _ _)); [done|]. apply (Hal tid); [|done]. case_decide; [by apply not_elem_of_nil in Hin|].
    apply elem_of_take in Hin as (i & Hi & _). rewrite lookup_drop in Hi. by eapply list_elem_of_lookup_2.
  - intros tid (i & Hi%list_elem_of_lookup_2 & _)%elem_of_take. by apply Hal.
Qed.
