(* ===== verification/TaskSystem.v ===== *)
(** * mcr-task: the system calls keep the invariant

    Signal masks and waits, kill and its variants, process groups, thread-local state, and
    [dispatch_for_current_task] itself (kernel/signal.rs, kernel/syscalls.rs). *)

From S2P Require Import Prelude SysAbi SyscallTable Dispatcher Bytes ElfParser ElfImage ElfPlan ElfLayout ElfTheorems TaskTypes TaskKernel TaskWait TaskSyscalls TaskInv TaskSteps TaskReap.
From stdpp Require Import base gmap list sorting strings relations.
From Stdlib Require Import ZArith Lia.
Open Scope Z_scope.

(** ** Masks *)
Lemma sane_without m x : sane_mask m → sane_mask (without_bits m x).
Proof.
  unfold sane_mask, without_bits. intros Hm. rewrite <- Z.land_assoc, (Z.land_comm (Z.lnot x)), Z.land_assoc, Hm.
  apply Z.land_0_l.
Qed.

Lemma sane_sanitize m : sane_mask (sanitize_signal_mask m).
Proof.
  unfold sane_mask, sanitize_signal_mask, without_bits.
  rewrite <- Z.land_assoc, (Z.land_comm (Z.lnot _)), Z.land_lnot_diag. apply Z.land_0_r.
Qed.

(** A sane mask never blocks SIGKILL or SIGSTOP. *)
Lemma sane_unblocked mask signal :
  sane_mask mask → signal = LINUX_SIGKILL ∨ signal = LINUX_SIGSTOP → signal_matches_mask signal mask = false.
Proof.
  intros Hm Hs. unfold signal_matches_mask. apply andb_false_iff. right. apply negb_false_iff, Z.eqb_eq.
  apply Z.bits_inj'. intros n Hn. rewrite Z.bits_0, Z.land_spec.
  assert (Hbit : Z.testbit mask (signal - 1) = false).
  { pose proof (f_equal (λ x, Z.testbit x (signal - 1)) Hm) as Hb. cbv beta in Hb.
    rewrite Z.land_spec, Z.bits_0 in Hb. apply andb_false_iff in Hb as [Hb|Hb]; [done|].
    by destruct Hs as [->| ->]. }
  destruct (decide (n = signal - 1)) as [->|Hne]; [by rewrite Hbit|].
  apply andb_false_iff. right. rewrite Z.shiftl_1_l. apply Z.pow2_bits_false. lia.
Qed.

Definition quiet_but_mask (t t' : GuestTask) : Prop :=
  t_tid t' = t_tid t ∧ t_pid t' = t_pid t ∧ t_state t' = t_state t ∧ t_pending_signals t' = t_pending_signals t ∧
  (sane_mask (t_signal_mask t) → sane_mask (t_signal_mask t')).

Lemma masked_lesser t t' : quiet_but_mask t t' → lesser_task t t'.
Proof. intros (H1 & H2 & H3 & H4 & H5). split; rewrite ?H4; done. Qed.

Lemma apply_mask_quiet how mask t t' : apply_task_signal_mask how mask t = Ok t' → quiet_but_mask t t'.
Proof.
  unfold apply_task_signal_mask. intros H.
  repeat case_match; simplify_eq; split_and!; try done; intros ?; simpl; try apply sane_sanitize.
  by apply sane_without.
Qed.

(** ** Signal waits *)
Lemma wf_block_in_signal_wait tid st mask k :
  kernel_wf k → alive tid k → waits_for st = Some mask →
  (∀ t, k_tasks k !! tid = Some t → no_match (t_pending_signals t) mask ∧
     ∀ p, k_processes k !! t_pid t = Some p → no_match (p_pending_signals p) mask) →
  kernel_wf (block_in_signal_wait tid st k).
Proof.
  intros Hwf Hal Hst Hno. unfold block_in_signal_wait. set (f := λ t, set_t_regs _ t).
  assert (Hwf1 : kernel_wf (update_task tid f k)).
  { apply wf_update_task; [|done]. intros t _. by apply quiet_lesser. }
  destruct (k_tasks k !! tid) as [t|] eqn:Ht.
  - eapply (wf_put_state _ _ _ tid st (f t)); [|exact (Hal _ Ht)|by destruct st| |..|done].
    + simpl. by rewrite lookup_alter_eq, Ht.
    + intros c ->. done.
    + intros mask' Hm _. rewrite Hst in Hm. injection Hm as <-. exact (Hno _ eq_refl).
  - unfold put_state, set_task_state. simpl. rewrite lookup_alter_eq, Ht. done.
Qed.

Lemma taken_none tid pid mask k k' :
  take_pending_signal_for_task tid pid mask k = (None, k') →
  k' = k ∧ (∀ t, k_tasks k !! tid = Some t → no_match (t_pending_signals t) mask) ∧
  ∀ p, k_processes k !! pid = Some p → no_match (p_pending_signals p) mask.
Proof. intros H. pose proof (take_spec tid pid mask k) as Hs. by rewrite H in Hs. Qed.

Lemma wf_take tid pid mask k signal k' :
  take_pending_signal_for_task tid pid mask k = (signal, k') → kernel_wf k → kernel_wf k'.
Proof. intros H. pose proof (take_spec tid pid mask k) as Hs. rewrite H in Hs. by eapply wf_taken. Qed.

Lemma wf_rt_sigtimedwait tid mask size indefinitely k :
  kernel_wf k → alive tid k → kernel_wf (rt_sigtimedwait_current tid mask size indefinitely k).2.
Proof.
  intros Hwf Hal. unfold rt_sigtimedwait_current. destruct (negb _); [done|].
  destruct (k_tasks k !! tid) as [t|] eqn:Ht; [|done].
  destruct (take_pending_signal_for_task tid (t_pid t) mask k) as [[s|] k'] eqn:Htk; [by eapply wf_take|].
  apply taken_none in Htk as (-> & Hn & Hp). destruct indefinitely; [|done]. simpl.
  eapply wf_block_in_signal_wait; [done|done|done|]. intros t' Ht'. simplify_eq. auto.
Qed.

Lemma wf_rt_sigsuspend tid mask size k :
  kernel_wf k → alive tid k → kernel_wf (rt_sigsuspend_current tid mask size k).2.
Proof.
  intros Hwf Hal. unfold rt_sigsuspend_current. destruct (negb _); [done|].
  destruct (k_tasks k !! tid) as [t|] eqn:Ht; [|done].
  destruct (take_pending_signal_for_task tid (t_pid t) mask k) as [[s|] k'] eqn:Htk.
  - apply wf_update_task; [|by eapply wf_take]. intros t' _. by apply quiet_lesser.
  - apply taken_none in Htk as (-> & Hn & Hp). simpl.
    eapply wf_block_in_signal_wait; [done|done|done|]. intros t' Ht'. simplify_eq. auto.
Qed.

Lemma wf_take_return tid k : kernel_wf k → kernel_wf (take_pending_signal_for_return_to_user tid k).2.
Proof.
  intros Hwf. unfold take_pending_signal_for_return_to_user. destruct (k_tasks k !! tid) as [t|]; [|done].
  destruct (t_pending_signal_delivery t).
  - apply wf_update_task; [|done]. intros t' _. by apply quiet_lesser.
  - destruct (take_pending_signal_for_task _ _ _ _) as [s k'] eqn:Htk. by eapply wf_take.
Qed.

Lemma wf_set_task_signal_mask tid mask k : kernel_wf k → kernel_wf (set_task_signal_mask tid mask k).2.
Proof.
  intros Hwf. unfold set_task_signal_mask. destruct (k_tasks k !! tid); [|done]. simpl.
  apply wf_update_task; [|done]. intros t _. split; try done. intros _. apply sane_sanitize.
Qed.

(** ** Calls that change one task or one process *)
Ltac wf_calls := repeat (case_match; simpl; try done).

Lemma wf_rt_sigaction tid args action k :
  kernel_wf k → kernel_wf (rt_sigaction_current_with_action tid args action k).2.
Proof.
  intros Hwf. unfold rt_sigaction_current_with_action. wf_calls;
    (apply wf_update_process; [|done]; intros p' _; by split).
Qed.

Lemma wf_rt_sigprocmask tid how mask size k :
  kernel_wf k → kernel_wf (rt_sigprocmask_current_mask tid how mask size k).2.
Proof.
  intros Hwf. unfold rt_sigprocmask_current_mask. destruct (k_tasks k !! tid) as [t|] eqn:Ht; [|done].
  destruct (negb _); [done|]. destruct (negb _); [done|]. destruct mask as [mask|]; [|done].
  destruct (apply_task_signal_mask how mask t) as [t'|e|] eqn:Ha; [|done|done].
  apply wf_update_task; [|done]. intros t0 Ht0. simplify_eq. by eapply masked_lesser, apply_mask_quiet.
Qed.

Lemma wf_kill args k : kernel_wf k → kernel_wf (kill_current args k).2.
Proof. intros Hwf. unfold kill_current. wf_calls; by apply wf_queue_process. Qed.

Lemma wf_tkill args k : kernel_wf k → kernel_wf (tkill_current args k).2.
Proof. intros Hwf. unfold tkill_current. wf_calls; by apply wf_queue_task. Qed.

Lemma wf_tgkill args k : kernel_wf k → kernel_wf (tgkill_current args k).2.
Proof. intros Hwf. unfold tgkill_current. wf_calls; by apply wf_queue_task. Qed.

Lemma wf_set_tid_address tid args k : kernel_wf k → kernel_wf (set_tid_address_current tid args k).2.
Proof.
  intros Hwf. unfold set_tid_address_current. wf_calls; (apply wf_update_task; [|done]; intros t' _; by apply quiet_lesser).
Qed.

Lemma wf_set_robust_list tid args k : kernel_wf k → kernel_wf (set_robust_list_current tid args k).2.
Proof.
  intros Hwf. unfold set_robust_list_current. wf_calls; (apply wf_update_task; [|done]; intros t' _; by apply quiet_lesser).
Qed.

Lemma wf_setpgid pid raw_pid raw_pgid k : kernel_wf k → kernel_wf (setpgid_current pid raw_pid raw_pgid k).2.
Proof.
  intros Hwf. unfold setpgid_current. wf_calls; (apply wf_update_process; [|done]; intros p' _; by split).
Qed.

Lemma wf_setsid pid k : kernel_wf k → kernel_wf (setsid_current pid k).2.
Proof.
  intros Hwf. unfold setsid_current. wf_calls; (apply wf_update_process; [|done]; intros p' _; by split).
Qed.

Lemma wf_arch_prctl tid code address k : kernel_wf k → kernel_wf (arch_prctl tid code address k).2.
Proof.
  intros Hwf. unfold arch_prctl. wf_calls; (apply wf_update_task; [|done]; intros t' _; by apply quiet_lesser).
Qed.

Lemma wf_wait4 tid args rip k :
  kernel_wf k → alive tid k → kernel_wf (wait4_current_with_return tid args rip k).2 ∧
  (wait4_current_with_return tid args rip k).1 ≠ Panic.
Proof.
  intros Hwf Hal. unfold wait4_current_with_return. destruct (k_tasks k !! tid) as [t|] eqn:Ht; [|done].
  pose proof (wait4_child_spec (t_pid t) args k Hwf) as Hw.
  destruct (wait4_child (t_pid t) args k) as [[[w|]|e|] k1]; [..|done].
  - destruct Hw as (c & q & status & _ & _ & _ & _ & _ & _ & _ & Hwf1). done.
  - by destruct Hw as [-> _].
  - destruct Hw as [-> He]. destruct e; try done. rewrite Ht. simpl. split; [|done].
    set (f := λ t0, set_t_regs _ t0). apply wf_put_plain; [|done|].
    + intros t' (x & Hx & [->|[_ ->]])%alter_inv; exact (Hal _ Hx).
    + apply wf_update_task; [|done]. intros t' _. by apply quiet_lesser.
Qed.

(** ** Dispatch *)
Lemma wf_execve tid program k :
  kernel_wf k → alive tid k → kernel_wf (execve_current tid program k).2.
Proof.
  intros Hwf Hal. unfold execve_current. pose proof (wf_exec tid program k Hwf Hal) as He.
  by destruct (exec_task tid program k).
Qed.

Lemma execve_no_panic tid program k :
  load_program program ≠ Panic → (execve_current tid program k).1 ≠ Panic.
Proof.
  intros Hl. unfold execve_current, exec_task, bind, gets, lift, modify.
  destruct (k_tasks k !! tid) as [t|]; simpl; [|done].
  destruct (load_program program); simpl; [|done|done]. by destruct (k_processes k !! t_pid t).
Qed.

(** One call of [dispatch_for_current_task]. *)
Ltac wf_call :=
  first [apply wf_rt_sigaction | apply wf_rt_sigprocmask | apply wf_rt_sigtimedwait | apply wf_clone
        | apply wf_fork_like | apply wf_exit_task | apply wf_exit_group | apply wf_wait4 | apply wf_kill
        | apply wf_tkill | apply wf_tgkill | apply wf_setpgid | apply wf_setsid | apply wf_arch_prctl
        | apply wf_set_tid_address | apply wf_set_robust_list | apply execve_no_panic].

Lemma wf_dispatch request k :
  kernel_wf k → alive (tc_tid (rq_context request)) k → kernel_wf (dispatch_for_current_task request k).2.
Proof.
  intros Hwf Hal. unfold dispatch_for_current_task.
  destruct (k_tasks k !! tc_tid (rq_context request)) as [t|] eqn:Ht; [|done].
  destruct (negb _); [done|]. destruct (rq_syscall request); try done; unfold total; cbn [snd];
    try (by wf_call). destruct (task_process k (t_pid t)); [|done|done]. by apply wf_execve.
Qed.

Lemma owner_process tid t k :
  kernel_wf k → k_tasks k !! tid = Some t → ∃ p, task_process k (t_pid t) = Ok p.
Proof.
  intros Hwf Ht. destruct (gw_owner _ _ _ _ (kw_graph _ _ _ _ Hwf) _ _ Ht) as [p Hp].
  exists p. unfold task_process. by rewrite Hp.
Qed.

Lemma dispatch_no_panic_if request k :
  (∀ program, load_program program ≠ Panic) →
  kernel_wf k → alive (tc_tid (rq_context request)) k → (dispatch_for_current_task request k).1 ≠ Panic.
Proof.
  intros Hload Hwf Hal. unfold dispatch_for_current_task.
  destruct (k_tasks k !! tc_tid (rq_context request)) as [t|] eqn:Ht; [|done].
  destruct (negb _); [done|]. destruct (owner_process _ _ _ Hwf Ht) as [p Hp].
  destruct (rq_syscall request); try done; rewrite ?Hp; try done; by wf_call.
Qed.

(** ** The initial process *)
Lemma kernel_wf_empty_graph : index_wf empty_kernel.
Proof.
  split; unfold state_of; simpl; intros; rewrite ?lookup_empty; simpl; try set_solver.
Qed.

(** The kernel of a loaded program: one process with one task. *)
Definition initial_process (image : GuestImageState) : GuestProcess :=
  {| p_pid := INITIAL_GUEST_PID; p_parent := None; p_pgid := INITIAL_GUEST_PID; p_sid := INITIAL_GUEST_PID;
     p_image := image; p_files := with_stdio; p_signals := ∅; p_pending_signals := ∅; p_children := ∅;
     p_exit_state := Running |}.

Definition initial_kernel (image : GuestImageState) : GuestKernel :=
  insert_task (task_initial INITIAL_GUEST_TID INITIAL_GUEST_PID (gi_memory image))
    (set_processes (insert INITIAL_GUEST_PID (initial_process image))
      (set_next_tid (INITIAL_GUEST_TID + 1) (set_next_pid (INITIAL_GUEST_PID + 1) empty_kernel))).

Lemma kernel_new_initial program :
  kernel_new program = let? image := load_program program in Ok (initial_kernel image).
Proof.
  unfold kernel_new, create_initial_process, bind, lift, modify.
  assert (Hp : allocate_pid empty_kernel = (Ok INITIAL_GUEST_PID, set_next_pid (INITIAL_GUEST_PID + 1) empty_kernel)) by done.
  rewrite Hp. set (k1 := set_next_pid _ _).
  assert (Ht : allocate_tid k1 = (Ok INITIAL_GUEST_TID, set_next_tid (INITIAL_GUEST_TID + 1) k1)) by done.
  rewrite Ht. by destruct (load_program program).
Qed.

Lemma wf_initial image : kernel_wf (initial_kernel image).
Proof.
  unfold initial_kernel. set (t := task_initial _ _ _). set (k2 := set_processes _ _).
  assert (Hix : index_wf k2) by (apply set_processes_index; by eapply (indexed_fields empty_kernel); [..|apply kernel_wf_empty_graph]).
  assert (Hp : ∀ pid q, k_processes k2 !! pid = Some q → pid = 1 ∧ q = initial_process image).
  { intros pid q. change (k_processes k2) with (<[INITIAL_GUEST_PID := initial_process image]> (∅ : gmap Z GuestProcess)).
    intros [[<- <-]|[_ Hq]]%lookup_insert_Some; [done|by rewrite lookup_empty in Hq]. }
  assert (Ht : ∀ tid q, <[t_tid t := t]> (k_tasks k2) !! tid = Some q → tid = 1 ∧ q = t).
  { intros tid q. change (k_tasks k2) with (∅ : gmap Z GuestTask).
    intros [[<- <-]|[_ Hq]]%lookup_insert_Some; [done|by rewrite lookup_empty in Hq]. }
  assert (Hpar : ∀ c, parent_of (k_processes k2) c = None).
  { intros c. unfold parent_of. destruct (_ !! c) as [r|] eqn:Hr; [|done]. by apply Hp in Hr as [_ ->]. }
  eapply wf_for_core; [apply insert_task_core|by apply insert_task_index|..].
  - split.
    + split; by vm_compute.
    + intros pid q [-> ->]%Hp. done.
    + intros tid q [-> ->]%Ht. done.
    + intros tid q [-> ->]%Ht. by eexists.
    + intros pid q c [-> ->]%Hp. rewrite Hpar. set_solver.
    + intros c q. by rewrite Hpar.
    + intros tid q [-> ->]%Ht. done.
  - intros pid _ q [-> ->]%Hp. split; [|done]. intros _. exists 1, t. by rewrite lookup_insert_eq.
  - intros c _ tid q [-> ->]%Ht. done.
  - intros pid _ tid q m [-> ->]%Ht. done.
Qed.

Lemma wf_kernel_new program k : kernel_new program = Ok k → kernel_wf k.
Proof.
  rewrite kernel_new_initial. destruct (load_program program) as [image|e|]; simpl; [|done|done].
  intros [= <-]. apply wf_initial.
Qed.

(** ** mcr-task: the kernel as a transition system

    The steps of the kernel, the reachable kernels, and lemmas on exit and signals that the
    properties use. *)

(** ** Loading a program *)
Lemma load_program_total program : load_program program ≠ Panic.
Proof.
  unfold load_program. apply (safe_no_panic (λ _, True)).
  eapply safe_bind; [apply safe_map_err, safe_parse_load_plan, u8s_bytes|]. intros plan _ Hplan.
  eapply safe_bind; [apply safe_map_err, safe_build_image|done]; try done; [apply u8s_bytes|].
  destruct (gp_interpreter program); simpl; [apply u8s_bytes|done].
Qed.

(** ** Steps of the kernel

    Every public operation that changes the kernel.  The caller of a system call and a task
    that is blocked are alive: the runtime only runs runnable tasks. *)
Inductive kstep (k : GuestKernel) : GuestKernel → Prop :=
| step_dispatch request : alive (tc_tid (rq_context request)) k → kstep k (dispatch_for_current_task request k).2
| step_clone tid args regs : alive tid k → kstep k (clone_current_with_child_regs tid args regs k).2
| step_exec tid program : alive tid k → kstep k (exec_task tid program k).2
| step_exit_task tid status : kstep k (exit_task tid status k).2
| step_exit_group pid status : kstep k (exit_group pid status k).2
| step_wait4 tid args rip : alive tid k → kstep k (wait4_current_with_return tid args rip k).2
| step_resume_waiting : kstep k (resume_waiting_tasks k).2
| step_block_fd tid fd write : alive tid k → kstep k (block_task_for_fd tid fd write k).2
| step_resume_fd ready : kstep k (resume_fd_waiters ready k).2
| step_block_futex tid key : alive tid k → kstep k (block_task_for_futex tid key k).2
| step_wake_futex key limit : 0 ≤ limit → kstep k (wake_futex_waiters key limit k).2
| step_requeue_futex source target wake requeue : 0 ≤ wake → 0 ≤ requeue →
    kstep k (requeue_futex_waiters source target wake requeue k).2
| step_timeout_futex tid : kstep k (timeout_futex_waiter tid k).2
| step_block_sleep tid : alive tid k → kstep k (block_task_for_sleep tid k).2
| step_resume_sleep tid : kstep k (resume_sleep_waiter tid k).2
| step_return_to_user tid : kstep k (take_pending_signal_for_return_to_user tid k).2
| step_sigaction tid args action : kstep k (rt_sigaction_current_with_action tid args action k).2
| step_sigprocmask tid how mask size : kstep k (rt_sigprocmask_current_mask tid how mask size k).2
| step_signal_mask tid mask : kstep k (set_task_signal_mask tid mask k).2
| step_sigtimedwait tid mask size indefinitely : alive tid k → kstep k (rt_sigtimedwait_current tid mask size indefinitely k).2
| step_sigsuspend tid mask size : alive tid k → kstep k (rt_sigsuspend_current tid mask size k).2
| step_registers tid regs : kstep k (update_task tid (set_t_regs regs) k).

(** The kernels a loaded program can lead to. *)
Definition reachable (image : GuestImageState) (k : GuestKernel) : Prop := rtc kstep (initial_kernel image) k.

Lemma resume_waiting_spec k :
  kernel_wf k →
  let '(cs, k') := resume_waiting_tasks k in
  kernel_wf k' ∧
  Forall (λ c, (∃ pid args, child_waiter k (cw_tid c) pid args) ∧ completed k' c) cs ∧
  (∀ tid pid args, child_waiter k' tid pid args → has_unsupported_options args = false →
     ∀ c, ¬ exited_child k' pid (w4_pid args) c).
Proof.
  intros Hwf. pose proof (resume_waiting_loop_spec (child_waiters k) k Hwf (child_waiters_NoDup k Hwf)) as H.
  unfold resume_waiting_tasks. destruct (resume_waiting_loop (child_waiters k) k) as [cs k'].
  destruct H as (Hwf' & _ & Hcs & Hno).
  - intros tid pid args. by apply elem_of_child_waiters.
  - intros tid pid args Hc _. left. by apply elem_of_child_waiters.
  - split_and!; [done| |done]. eapply Forall_impl; [exact Hcs|]. intros c [Hin Hdone]. split; [|done].
    apply list_elem_of_fmap in Hin as ([a b] & -> & ([[tid pid] args] & [= -> ->] & Hin)%list_elem_of_fmap).
    apply elem_of_child_waiters in Hin; [|done]. eauto.
Qed.

Lemma kstep_wf k k' : kernel_wf k → kstep k k' → kernel_wf k'.
Proof.
  intros Hwf Hstep. destruct Hstep.
  - by apply wf_dispatch.
  - by apply wf_clone_regs.
  - by apply wf_exec.
  - by apply wf_exit_task.
  - by apply wf_exit_group.
  - by apply wf_wait4.
  - pose proof (resume_waiting_spec k Hwf) as H. by destruct (resume_waiting_tasks k); apply H.
  - by apply wf_block_task.
  - by apply wf_resume_fd.
  - by apply wf_block_task.
  - by apply wf_wake_futex.
  - by apply wf_requeue_futex.
  - by apply wf_fail_futex.
  - by apply wf_block_task.
  - by apply wf_resume_sleep.
  - by apply wf_take_return.
  - by apply wf_rt_sigaction.
  - by apply wf_rt_sigprocmask.
  - by apply wf_set_task_signal_mask.
  - by apply wf_rt_sigtimedwait.
  - by apply wf_rt_sigsuspend.
  - apply wf_update_task; [|done]. intros t _. by apply quiet_lesser.
Qed.

Lemma reachable_wf image k : reachable image k → kernel_wf k.
Proof.
  unfold reachable. intros Hsteps. pose proof (wf_initial image) as Hwf. revert Hwf.
  induction Hsteps as [|k1 k2 k3 Hstep _ IH]; [done|]. intros Hwf. by apply IH, (kstep_wf k1).
Qed.

(** ** Exit *)

(** The exit states of the processes, which only [finish_process] changes. *)
Definition exits (k : GuestKernel) : gmap Z ExitState := p_exit_state <$> k_processes k.

Lemma exits_update pid f k : (∀ p, p_exit_state (f p) = p_exit_state p) → exits (update_process pid f k) = exits k.
Proof.
  intros Hf. apply map_eq. intros x. unfold exits; simpl. rewrite !lookup_fmap, alter_lookup.
  case_decide; [|done]. destruct (k_processes k !! x); simpl; [by rewrite Hf|done].
Qed.

Lemma exits_put tid st k : exits (put_state tid st k) = exits k.
Proof. unfold exits. by rewrite (core_processes _ _ _ _ _ (put_state_core _ _ _)). Qed.

Lemma exits_take tid pid mask k : exits (take_pending_signal_for_task tid pid mask k).2 = exits k.
Proof.
  unfold take_pending_signal_for_task. destruct (_ ≫= _) as [[s rest]|]; [done|].
  destruct (_ ≫= _) as [[s rest]|]; [|done]. by apply exits_update.
Qed.

Lemma exits_wake pid l k : exits (wake_signal_loop pid l k).2 = exits k.
Proof.
  revert k. induction l as [|[[tid mask] r] l IH]; intros k; simpl; [done|].
  assert (H1 : exits (wake_signal_waiter pid tid mask r k).2 = exits k).
  { unfold wake_signal_waiter. pose proof (exits_take tid pid mask k) as Ht.
    destruct (take_pending_signal_for_task tid pid mask k) as [[s|] k1]; [|done]. simpl in Ht.
    destruct (k_tasks k1 !! tid); simpl; [|done]. by rewrite exits_put. }
  destruct (wake_signal_waiter pid tid mask r k) as [n k1]. simpl in H1. specialize (IH k1).
  destruct (wake_signal_loop pid l k1). simpl in *. congruence.
Qed.

Lemma exits_queue pid signal k : exits (queue_process_signal pid signal k) = exits k.
Proof. unfold queue_process_signal, wake_signal_waiters. rewrite exits_wake. by apply exits_update. Qed.

Lemma exits_resume_vfork c k : exits (resume_vfork_parent c k) = exits k.
Proof.
  unfold resume_vfork_parent. destruct (_ ≫= _) as [parent|]; [|done].
  unfold exits. pose proof (wake_all_core (vfork_waiters c parent k) k) as (Hp & _). unfold wake_all in Hp. by rewrite Hp.
Qed.

Lemma exits_finish pid status k :
  exits (finish_process pid status k) = alter (λ _, ExitedWith status) pid (exits k).
Proof.
  assert (H : exits (resume_vfork_parent pid (update_process pid (set_p_exit_state (ExitedWith status)) k)) =
              alter (λ _, ExitedWith status) pid (exits k)).
  { rewrite exits_resume_vfork. apply map_eq. intros x. unfold exits; simpl.
    rewrite lookup_fmap, !alter_lookup, lookup_fmap. case_decide; [|done]. by destruct (k_processes k !! x). }
  unfold finish_process. destruct (_ ≫= _); [by rewrite exits_queue|done].
Qed.

Lemma exits_put_all st tids k : exits (foldl (λ k tid, put_state tid st k) k tids) = exits k.
Proof. change (exits (put_all st tids k) = exits k). unfold exits. by rewrite put_all_processes. Qed.

(** A process that has exited has no living task and no vfork waiter. *)
Lemma exited_is_dead k pid p status :
  kernel_wf k → k_processes k !! pid = Some p → p_exit_state p = ExitedWith status →
  (∀ tid t, k_tasks k !! tid = Some t → t_pid t = pid → is_exited (t_state t) = true) ∧
  (∀ tid t, k_tasks k !! tid = Some t → t_state t ≠ WaitingForVfork pid).
Proof.
  intros Hwf Hp He. split.
  - intros tid t Ht Hpid. destruct (is_exited (t_state t)) eqn:Hx; [done|].
    assert (p_exit_state p = Running) by (apply (kw_live _ _ _ _ Hwf pid I p Hp); eauto). congruence.
  - intros tid t Ht Hst. destruct (kw_vfork _ _ _ _ Hwf pid I _ _ Ht Hst) as (q & Hq & _ & Hrun). congruence.
Qed.

(** ** SIGCHLD *)

(** Without a task of the process in a signal wait, a queued signal stays pending. *)
Lemma no_signal_waiters pid k :
  (∀ tid t, k_tasks k !! tid = Some t → t_pid t = pid → waits_for (t_state t) = None) → signal_waiters pid k = [].
Proof.
  intros Hno. unfold signal_waiters. apply elem_of_nil_inv.
  intros x (tid & t & Ht & Hf)%elem_of_omap_tasks. specialize (Hno _ _ Ht).
  destruct (t_state t); try done; case_bool_decide; try done; by discriminate Hno.
Qed.

Lemma queue_process_pending pid signal p k :
  (∀ tid t, k_tasks k !! tid = Some t → t_pid t = pid → waits_for (t_state t) = None) →
  k_processes k !! pid = Some p →
  ∃ q, k_processes (queue_process_signal pid signal k) !! pid = Some q ∧ signal ∈ p_pending_signals q.
Proof.
  intros Hno Hp. unfold queue_process_signal, wake_signal_waiters. rewrite no_signal_waiters by done. simpl.
  rewrite lookup_alter_eq, Hp. eexists. split; [done|]. simpl. set_solver.
Qed.

(** The tasks after the vfork parent is resumed: some are made runnable. *)
Lemma resume_vfork_tasks c k tid t' :
  k_tasks (resume_vfork_parent c k) !! tid = Some t' →
  ∃ t, k_tasks k !! tid = Some t ∧ (t' = t ∨ t' = set_t_state Runnable t).
Proof.
  unfold resume_vfork_parent. destruct (_ ≫= _) as [parent|]; [|eauto].
  change (foldl _ k _) with (wake_all (vfork_waiters c parent k) k). rewrite wake_all_tasks.
  intros (t & Ht & ->)%fmap_Some. exists t. split; [done|]. case_decide; auto.
Qed.

Lemma resume_vfork_core c k :
  k_processes (resume_vfork_parent c k) = k_processes k ∧ k_next_pid (resume_vfork_parent c k) = k_next_pid k ∧
  k_next_tid (resume_vfork_parent c k) = k_next_tid k.
Proof. unfold resume_vfork_parent. destruct (_ ≫= _) as [parent|]; [apply wake_all_core|done]. Qed.

Lemma resume_vfork_processes c k : k_processes (resume_vfork_parent c k) = k_processes k.
Proof. apply resume_vfork_core. Qed.

Lemma finish_process_sigchld pid status p parent q k :
  k_processes k !! pid = Some p → p_parent p = Some parent → k_processes k !! parent = Some q → parent ≠ pid →
  (∀ tid t, k_tasks k !! tid = Some t → t_pid t = parent → waits_for (t_state t) = None) →
  ∃ q', k_processes (finish_process pid status k) !! parent = Some q' ∧ LINUX_SIGCHLD ∈ p_pending_signals q'.
Proof.
  intros Hp Hpar Hq Hne Hno. unfold finish_process. rewrite Hp. simpl. rewrite Hpar.
  apply (queue_process_pending _ _ q).
  - intros tid t Ht Hpid. apply resume_vfork_tasks in Ht as (t0 & Ht0 & [->| ->]); [by apply (Hno _ _ Ht0)|done].
  - rewrite resume_vfork_processes. simpl. by rewrite lookup_alter_ne.
Qed.

(** ** exec *)

(** The process after an exec: its image and its descriptors are new, and it runs; who it is,
    its family and its signals stay. *)
Record exec_process (image : GuestImageState) (p p' : GuestProcess) : Prop := {
  xp_image : p_image p' = image;
  xp_files : ∀ fd e, p_files p' !! fd = Some e ↔ p_files p !! fd = Some e ∧ fe_cloexec e = false;
  xp_running : p_exit_state p' = Running;
  xp_identity : p_pid p' = p_pid p ∧ p_pgid p' = p_pgid p ∧ p_sid p' = p_sid p;
  xp_family : p_parent p' = p_parent p ∧ p_children p' = p_children p;
  xp_signals : p_signals p' = p_signals p ∧ p_pending_signals p' = p_pending_signals p;
}.

(** The task that called, after its exec. *)
Record exec_task_restarted (image : GuestImageState) (u u' : GuestTask) : Prop := {
  xt_state : t_state u' = Runnable;
  xt_regs : t_regs u' = gpr_new (im_entrypoint (gi_memory image)) (im_initial_stack_pointer (gi_memory image));
  xt_tls : t_tls u' = tls_new;
  xt_robust_list : t_robust_list u' = None;
  xt_clear_child_tid : t_clear_child_tid u' = None;
  xt_identity : t_tid u' = t_tid u ∧ t_pid u' = t_pid u;
  xt_signals : t_signal_mask u' = t_signal_mask u ∧ t_pending_signals u' = t_pending_signals u ∧
    t_pending_signal_delivery u' = t_pending_signal_delivery u;
}.

(** The tasks before and after an exec of [tid], of process [pid]: no task comes or goes, and of
    the others only those that wait for the vfork of [pid] are made runnable. *)
Definition exec_tasks (tid pid : Z) (image : GuestImageState) (before after : gmap Z GuestTask) : Prop :=
  dom after = dom before ∧
  ∀ x u, before !! x = Some u → ∃ u', after !! x = Some u' ∧
    if decide (x = tid) then exec_task_restarted image u u'
    else u' = if decide (t_state u = WaitingForVfork pid) then set_t_state Runnable u else u.

(** Who is resumed: exactly the tasks that wait for the child, when they are its parent's. *)
Lemma resume_vfork_exactly c k x :
  (∀ y t, k_tasks k !! y = Some t → t_tid t = y) →
  (∀ y t, k_tasks k !! y = Some t → t_state t = WaitingForVfork c → parent_of (k_processes k) c = Some (t_pid t)) →
  k_tasks (resume_vfork_parent c k) !! x =
    (λ t, if decide (t_state t = WaitingForVfork c) then set_t_state Runnable t else t) <$> k_tasks k !! x.
Proof.
  intros Hid Hpar. unfold resume_vfork_parent. change (k_processes k !! c ≫= p_parent) with (parent_of (k_processes k) c).
  destruct (k_tasks k !! x) as [t|] eqn:Ht; simpl.
  - destruct (parent_of (k_processes k) c) as [parent|] eqn:Hp.
    + change (foldl _ k _) with (wake_all (vfork_waiters c parent k) k). rewrite wake_all_tasks, Ht. simpl. f_equal.
      assert (Hin : x ∈ vfork_waiters c parent k ↔ t_state t = WaitingForVfork c); [|by repeat case_decide; tauto].
      unfold vfork_waiters. rewrite elem_of_omap_tasks. split.
      * intros (y & t' & Ht' & Hf). destruct (bool_decide (t_pid t' = parent)), (bool_decide (t_state t' = WaitingForVfork c)) eqn:H2;
          simpl in Hf; try done. injection Hf as Hf. rewrite (Hid _ _ Ht') in Hf. subst y. simplify_eq. by apply bool_decide_eq_true in H2.
      * intros Hst. pose proof (Hpar _ _ Ht Hst) as Hp'. injection Hp' as ->. exists x, t. split; [done|].
        rewrite !bool_decide_eq_true_2 by done. simpl. by rewrite (Hid _ _ Ht).
    + case_decide as Hst; [|done]. by specialize (Hpar _ _ Ht Hst).
  - destruct (parent_of (k_processes k) c) as [parent|]; [|done].
    change (foldl _ k _) with (wake_all (vfork_waiters c parent k) k). by rewrite wake_all_tasks, Ht.
Qed.

Lemma alter_as_insert {A} (f : A → A) (m : gmap Z A) i x : m !! i = Some x → alter f i m = <[i := f x]> m.
Proof.
  intros Hx. apply map_eq. intros j. rewrite alter_lookup.
  case_decide as Hj; [subst j; by rewrite Hx, lookup_insert_eq|by rewrite lookup_insert_ne by congruence].
Qed.

Lemma exec_process_image image p : exec_process image p (set_p_image image p).
Proof.
  split; try done. intros fd e.
  apply (map_lookup_filter_Some (M := gmap Z) (λ x : Z * GuestFdEntry, fe_cloexec x.2 = false)).
Qed.

(** Each task of the kernel that is left when the parent has been resumed. *)
Lemma exec_tasks_after tid t image k k1 :
  kernel_wf k → k_tasks k !! tid = Some t →
  k_processes k1 = alter (set_p_image image) (t_pid t) (k_processes k) →
  k_tasks k1 = alter (set_t_state Runnable) tid (alter (λ t,
    set_t_clear_child_tid None (set_t_robust_list None (set_t_tls tls_new
      (set_t_regs (gpr_new (im_entrypoint (gi_memory image)) (im_initial_stack_pointer (gi_memory image))) t)))) tid (k_tasks k)) →
  exec_tasks tid (t_pid t) image (k_tasks k) (k_tasks (resume_vfork_parent (t_pid t) k1)).
Proof.
  intros Hwf Ht Hps Hts.
  assert (Hat : ∀ y, y ≠ tid → k_tasks k1 !! y = k_tasks k !! y).
  { intros y Hne. by rewrite Hts, !lookup_alter_ne by done. }
  assert (Hself : ∃ u, k_tasks k1 !! tid = Some u ∧ exec_task_restarted image t u).
  { rewrite Hts, !lookup_alter_eq, Ht. simpl. eexists. by split. }
  destruct Hself as (u & Hu & Hnew).
  assert (Hres : ∀ x, k_tasks (resume_vfork_parent (t_pid t) k1) !! x =
    (λ v, if decide (t_state v = WaitingForVfork (t_pid t)) then set_t_state Runnable v else v) <$> k_tasks k1 !! x).
  { intros x. apply resume_vfork_exactly.
    - intros y v Hv. destruct (decide (y = tid)) as [->|Hne].
      + rewrite Hu in Hv. injection Hv as <-. rewrite (proj1 (xt_identity _ _ _ Hnew)).
        by apply (gw_tid _ _ _ _ (kw_graph _ _ _ _ Hwf) _ _ Ht).
      + rewrite Hat in Hv by done. by apply (gw_tid _ _ _ _ (kw_graph _ _ _ _ Hwf) _ _ Hv).
    - intros y v Hv Hst. destruct (decide (y = tid)) as [->|Hne].
      + rewrite Hu in Hv. injection Hv as <-. by rewrite (xt_state _ _ _ Hnew) in Hst.
      + rewrite Hat in Hv by done. destruct (kw_vfork _ _ _ _ Hwf _ I _ _ Hv Hst) as (q & Hq & Hpar & _).
        unfold parent_of. by rewrite Hps, lookup_alter_eq, Hq. }
  split.
  - apply set_eq. intros x. rewrite !elem_of_dom, Hres, fmap_is_Some, Hts, !lookup_alter_is_Some. done.
  - intros x v Hv. rewrite Hres. destruct (decide (x = tid)) as [->|Hne].
    + rewrite Hu. simpl. eexists. split; [done|]. rewrite decide_False by (by rewrite (xt_state _ _ _ Hnew)).
      by replace v with t by congruence.
    + rewrite Hat, Hv by done. simpl. eauto.
Qed.

Lemma exec_task_spec tid program k :
  kernel_wf k →
  match exec_task tid program k with
  | (Ok _, k') => ∃ t p image, k_tasks k !! tid = Some t ∧ k_processes k !! t_pid t = Some p ∧
      load_program program = Ok image ∧
      k_processes k' = alter (set_p_image image) (t_pid t) (k_processes k) ∧
      k_next_pid k' = k_next_pid k ∧ k_next_tid k' = k_next_tid k ∧
      exec_tasks tid (t_pid t) image (k_tasks k) (k_tasks k')
  | (Err _, k') => k' = k
  | (Panic, _) => False
  end.
Proof.
  intros Hwf. unfold exec_task, bind, gets, lift, modify.
  destruct (k_tasks k !! tid) as [t|] eqn:Ht; simpl; [|done].
  pose proof (load_program_total program) as Htot. destruct (load_program program) as [image|e|] eqn:Hl; simpl; [|done|done].
  destruct (k_processes k !! t_pid t) as [p|] eqn:Hp; simpl; [|done].
  exists t, p, image. set (k1 := put_state _ _ _). pose proof (put_state_core tid Runnable) as Hcore.
  destruct (resume_vfork_core (t_pid t) k1) as (Hr1 & Hr2 & Hr3).
  split_and!; try done.
  - rewrite Hr1. exact (core_processes _ _ _ _ _ (Hcore _)).
  - rewrite Hr2. exact (core_next_pid _ _ _ _ _ (Hcore _)).
  - rewrite Hr3. exact (core_next_tid _ _ _ _ _ (Hcore _)).
  - apply exec_tasks_after; [done|done|..].
    + exact (core_processes _ _ _ _ _ (Hcore _)).
    + exact (core_tasks _ _ _ _ _ (Hcore _)).
Qed.

(** ** Masks and delivery *)
Lemma matches_complement signal mask :
  1 ≤ signal ≤ LINUX_SIGNAL_COUNT → is_u64 mask →
  signal_matches_mask signal (U64_MAX - mask) = negb (signal_matches_mask signal mask).
Proof.
  intros Hs Hm. unfold LINUX_SIGNAL_COUNT in Hs.
  assert (Hbit : ∀ m, signal_matches_mask signal m = Z.testbit m (signal - 1)).
  { intros m. unfold signal_matches_mask. destruct (Z.ltb_spec 0 signal); [|lia].
    destruct (Z.leb_spec signal LINUX_SIGNAL_COUNT); [|unfold LINUX_SIGNAL_COUNT in *; lia]. simpl.
    rewrite Z.shiftl_1_l. destruct (Z.testbit m (signal - 1)) eqn:Hb.
    - apply negb_true_iff, Z.eqb_neq. intros Hz. apply (f_equal (λ x, Z.testbit x (signal - 1))) in Hz. cbv beta in Hz.
      rewrite Z.land_spec, Hb, Z.pow2_bits_true, Z.bits_0 in Hz by lia. done.
    - apply negb_false_iff, Z.eqb_eq. apply Z.bits_inj'. intros n Hn. rewrite Z.land_spec, Z.bits_0.
      destruct (decide (n = signal - 1)) as [->|]; [by rewrite Hb|]. rewrite Z.pow2_bits_false by lia. apply andb_false_r. }
  rewrite !Hbit. unfold U64_MAX. replace (2 ^ 64 - 1) with (Z.ones 64) by done.
  rewrite Z.sub_nocarry_ldiff.
  - rewrite Z.ldiff_spec, Z.ones_spec_low by lia. done.
  - apply Z.bits_inj'. intros n Hn. rewrite Z.ldiff_spec, Z.bits_0. destruct (decide (n < 64)).
    + rewrite Z.ones_spec_low by lia. apply andb_false_r.
    + destruct (decide (mask = 0)) as [->|]; [by rewrite Z.bits_0|]. rewrite Z.bits_above_log2; [done|apply Hm|].
      assert (Z.log2 mask < 64); [|lia]. apply Z.log2_lt_pow2; [unfold is_u64 in Hm; lia|apply Hm].
Qed.

(** ** Which processes there are

    Only a wait takes a process away. *)
Definition keeps_processes (k k' : GuestKernel) : Prop :=
  ∀ pid, is_Some (k_processes k !! pid) → is_Some (k_processes k' !! pid).

#[export] Instance keeps_processes_preorder : PreOrder keeps_processes.
Proof. split; [by intros k pid|]. intros k1 k2 k3 H1 H2 pid H. auto. Qed.

Lemma same_processes_keeps k k' : k_processes k' = k_processes k → keeps_processes k k'.
Proof. intros H pid. by rewrite H. Qed.

Lemma exits_keeps k k' : exits k' = exits k → keeps_processes k k'.
Proof.
  intros H pid [p Hp]. pose proof (f_equal (lookup pid) H) as Hx. unfold exits in Hx.
  rewrite !lookup_fmap, Hp in Hx. destruct (k_processes k' !! pid); [eauto|done].
Qed.

Lemma keeps_update_process pid f k : keeps_processes k (update_process pid f k).
Proof.
  intros q Hq. simpl. rewrite alter_lookup. case_decide; [|done]. by apply fmap_is_Some.
Qed.

Lemma keeps_put tid st k : keeps_processes k (put_state tid st k).
Proof. apply exits_keeps, exits_put. Qed.

Lemma keeps_queue_process pid signal k : keeps_processes k (queue_process_signal pid signal k).
Proof. apply exits_keeps, exits_queue. Qed.

Lemma keeps_fail_futex errno tid k : keeps_processes k (fail_futex_waiter errno tid k).2.
Proof.
  unfold fail_futex_waiter. destruct (t_state <$> k_tasks k !! tid) as [[]|]; simpl; try done.
  match goal with |- context [set_task_state ?t ?s ?k0] => pose proof (keeps_put t s k0) as Hk; unfold put_state in Hk;
    destruct (set_task_state t s k0) as [p k1] end. exact Hk.
Qed.

Lemma keeps_queue_task tid signal k : keeps_processes k (queue_task_signal tid signal k).
Proof.
  unfold queue_task_signal, interrupt_futex_waiter. destruct (k_tasks k !! tid) as [t|]; [|done].
  match goal with |- keeps_processes _ (if _ then _ else ?k0) => assert (Hk : keeps_processes k k0) end.
  { apply exits_keeps. unfold wake_signal_waiters. by rewrite exits_wake. }
  destruct (negb _); [|done]. etransitivity; [exact Hk|apply keeps_fail_futex].
Qed.

Lemma keeps_finish_process pid status k : keeps_processes k (finish_process pid status k).
Proof.
  intros q [p Hp]. pose proof (f_equal (lookup q) (exits_finish pid status k)) as H. unfold exits in H.
  rewrite alter_lookup, !lookup_fmap, Hp in H. destruct (k_processes (finish_process pid status k) !! q); [eauto|].
  by case_decide.
Qed.

Lemma keeps_take tid pid mask k : keeps_processes k (take_pending_signal_for_task tid pid mask k).2.
Proof. apply exits_keeps, exits_take. Qed.

Lemma keeps_block tid st k : keeps_processes k (block_in_signal_wait tid st k).
Proof. unfold block_in_signal_wait. etransitivity; [|apply keeps_put]. by apply same_processes_keeps. Qed.

Lemma keeps_move_futex key st limit tids k : keeps_processes k (move_futex_waiters key st limit tids k).2.
Proof.
  revert limit k. induction tids as [|tid tids IH]; intros limit k; simpl; [done|].
  destruct (t_state <$> k_tasks k !! tid) as [x|]; [|apply IH]. case_decide; [|apply IH].
  destruct (limit =? 1); [apply keeps_put|]. pose proof (IH (limit - 1) (put_state tid st k)) as Hk.
  destruct (move_futex_waiters _ _ _ _ _) as [n k1]. etransitivity; [apply keeps_put|exact Hk].
Qed.

Lemma keeps_wake_futex key limit k : keeps_processes k (wake_futex_waiters key limit k).2.
Proof. unfold wake_futex_waiters. destruct (limit =? 0); [done|apply keeps_move_futex]. Qed.

Lemma keeps_requeue source target wake requeue k : keeps_processes k (requeue_futex_waiters source target wake requeue k).2.
Proof.
  unfold requeue_futex_waiters. pose proof (keeps_wake_futex source wake k) as Hk.
  destruct (wake_futex_waiters source wake k) as [n k1]. destruct (_ || _); [done|].
  pose proof (keeps_move_futex source (WaitingForFutex target) requeue (futex_waiters source k1) k1) as H1.
  destruct (move_futex_waiters _ _ _ _ _) as [n1 k2]. etransitivity; [exact Hk|exact H1].
Qed.

Lemma keeps_block_task tid st k : keeps_processes k (block_task tid st k).2.
Proof.
  unfold block_task. pose proof (keeps_put tid st k) as Hk. unfold put_state in Hk. by destruct (set_task_state tid st k).
Qed.

Lemma keeps_resume_sleep tid k : keeps_processes k (resume_sleep_waiter tid k).2.
Proof.
  unfold resume_sleep_waiter. destruct (t_state <$> k_tasks k !! tid) as [[]|]; try done.
  pose proof (keeps_put tid Runnable k) as Hk. unfold put_state in Hk. by destruct (set_task_state tid Runnable k).
Qed.

(** The calls other than a wait, a fork and an exec. *)
Definition changes_processes (call : Syscall) : bool :=
  match call with SysWait4 | SysFork | SysVfork | SysClone | SysExecve => true | _ => false end.

Lemma keeps_exit_task tid status k : keeps_processes k (exit_task tid status k).2.
Proof.
  unfold exit_task. destruct (k_tasks k !! tid); [|done]. simpl. destruct (forallb _ _); [|apply keeps_put].
  etransitivity; [apply keeps_put|apply keeps_finish_process].
Qed.

Lemma keeps_exit_group pid status k : keeps_processes k (exit_group pid status k).2.
Proof.
  unfold exit_group. destruct (negb _); [done|]. simpl. etransitivity; [|apply keeps_finish_process]. apply exits_keeps, exits_put_all.
Qed.

Lemma keeps_sigtimedwait tid mask size indefinitely k :
  keeps_processes k (rt_sigtimedwait_current tid mask size indefinitely k).2.
Proof.
  unfold rt_sigtimedwait_current. destruct (negb _); [done|]. destruct (k_tasks k !! tid) as [t|]; [|done].
  pose proof (keeps_take tid (t_pid t) mask k) as Hk. destruct (take_pending_signal_for_task _ _ _ _) as [[x|] k1]; [done|].
  destruct indefinitely; [|done]. simpl. etransitivity; [exact Hk|apply keeps_block].
Qed.

Lemma keeps_sigsuspend tid mask size k : keeps_processes k (rt_sigsuspend_current tid mask size k).2.
Proof.
  unfold rt_sigsuspend_current. destruct (negb _); [done|]. destruct (k_tasks k !! tid) as [t|]; [|done].
  pose proof (keeps_take tid (t_pid t) mask k) as Hk. destruct (take_pending_signal_for_task _ _ _ _) as [[x|] k1]; [exact Hk|].
  simpl. etransitivity; [exact Hk|apply keeps_block].
Qed.

Lemma keeps_update_task tid f k : keeps_processes k (update_task tid f k).
Proof. by apply same_processes_keeps. Qed.

Lemma keeps_sigaction tid args action k : keeps_processes k (rt_sigaction_current_with_action tid args action k).2.
Proof. unfold rt_sigaction_current_with_action. wf_calls; apply keeps_update_process. Qed.

Lemma keeps_sigprocmask tid how mask size k : keeps_processes k (rt_sigprocmask_current_mask tid how mask size k).2.
Proof. unfold rt_sigprocmask_current_mask. wf_calls. apply keeps_update_task. Qed.

Lemma keeps_process_call pid k :
  (∀ raw_pid raw_pgid, keeps_processes k (setpgid_current pid raw_pid raw_pgid k).2) ∧ keeps_processes k (setsid_current pid k).2.
Proof. unfold setpgid_current, setsid_current. split; intros; wf_calls; apply keeps_update_process. Qed.

Lemma keeps_kill args k : keeps_processes k (kill_current args k).2.
Proof. unfold kill_current. wf_calls; apply keeps_queue_process. Qed.

Lemma keeps_thread_kill k :
  (∀ args, keeps_processes k (tkill_current args k).2) ∧ ∀ args, keeps_processes k (tgkill_current args k).2.
Proof. unfold tkill_current, tgkill_current. split; intros; wf_calls; apply keeps_queue_task. Qed.

Lemma keeps_task_call tid k :
  (∀ args, keeps_processes k (set_tid_address_current tid args k).2) ∧
  (∀ args, keeps_processes k (set_robust_list_current tid args k).2) ∧
  ∀ code address, keeps_processes k (arch_prctl tid code address k).2.
Proof. unfold set_tid_address_current, set_robust_list_current, arch_prctl. split_and!; intros; wf_calls; apply keeps_update_task. Qed.

Lemma keeps_dispatch request k :
  changes_processes (rq_syscall request) = false → keeps_processes k (dispatch_for_current_task request k).2.
Proof.
  intros Hc. unfold dispatch_for_current_task. destruct (k_tasks k !! _) as [t|]; [|done]. destruct (negb _); [done|].
  destruct (rq_syscall request); try done; unfold total; cbn [snd];
    first [ apply keeps_exit_task | apply keeps_exit_group | apply keeps_sigtimedwait | apply keeps_sigaction
          | apply keeps_sigprocmask | apply keeps_process_call | apply keeps_kill | apply keeps_thread_kill
          | apply keeps_task_call ].
Qed.

(** A fork adds one process, which was not there. *)
Definition adds_process (o : SyscallOutcome) (k k' : GuestKernel) : Prop :=
  keeps_processes k k' ∧
  match so_result o with
  | Success child => k_processes k !! child = None ∧ is_Some (k_processes k' !! child)
  | Errno _ => True
  end.

Lemma fork_like_adds tid regs block k :
  kernel_wf k →
  match fork_like_regs_and_maybe_block_parent tid regs block k with
  | (Ok o, k') => adds_process o k k'
  | _ => False
  end.
Proof.
  intros Hwf. unfold fork_like_regs_and_maybe_block_parent. pose proof (fork_child_spec tid k Hwf) as Hf.
  destruct (fork_child_task tid k) as [[[cp ct]|e|] k1]; [| |done].
  - destruct Hf as (_ & -> & -> & t & p & Ht & Hp & _ & Hcore).
    set (k2 := update_task _ _ _).
    assert (Hk2 : k_processes (if block then put_state tid (WaitingForVfork (k_next_pid k)) k2 else k2) =
                  forked_processes (k_next_pid k) (t_pid t) p (k_processes k)).
    { destruct block; [rewrite (core_processes _ _ _ _ _ (put_state_core _ _ _))|];
        change (k_processes k2) with (k_processes k1); apply (core_processes _ _ _ _ _ Hcore). }
    split; [|split].
    + intros q Hq. rewrite Hk2. unfold forked_processes. rewrite alter_lookup.
      destruct (decide (k_next_pid k = q)) as [->|Hne]; [rewrite lookup_insert_eq|rewrite lookup_insert_ne by done];
        case_decide; eauto; by apply fmap_is_Some.
    + by eapply fresh_pid.
    + rewrite Hk2. unfold forked_processes. rewrite alter_lookup, lookup_insert_eq. case_decide; simpl; eauto.
  - destruct Hf as (_ & _ & Hps). split; [by apply same_processes_keeps|done].
Qed.

(** The calls that fork a process. *)
Definition forks (request : SyscallRequest) : Prop :=
  match rq_syscall request with
  | SysFork | SysVfork => True
  | SysClone => has_clone_thread (clone_args (rq_args request)) = false
  | _ => False
  end.

Lemma forks_add request k :
  kernel_wf k → forks request →
  match dispatch_for_current_task request k with
  | (Ok o, k') => adds_process o k k'
  | _ => False
  end.
Proof.
  intros Hwf Hr. unfold dispatch_for_current_task, forks in *.
  destruct (k_tasks k !! tc_tid (rq_context request)) as [t|] eqn:Ht; [|done]. destruct (negb _); [done|].
  destruct (rq_syscall request); try contradiction;
    unfold clone_current_with_return, clone_fork_like_current, fork_like_current_with_child_regs_and_maybe_block_parent,
      vfork_current, fork_like_current, fork_like_current_and_maybe_block_parent; try (by apply fork_like_adds).
  rewrite Hr, ?Ht. destruct (negb _); [done|]. by apply fork_like_adds.
Qed.
