(* ===== verification/TaskTheorems.v ===== *)
(** * mcr-task: the properties

    The invariant of reachable kernels, panic freedom, and what fork, wait4, exit, exec,
    futexes and signals do, each with a concrete kernel as its witness. *)

From S2P Require Import Prelude SysAbi SyscallTable Dispatcher Bytes ElfParser ElfImage ElfTheorems.
From S2P Require Import TaskTypes TaskKernel TaskWait TaskSyscalls TaskInv TaskSteps TaskReap TaskSystem.
From S2P Require Import TaskSystem.
From stdpp Require Import base gmap list relations sorting strings.
From Stdlib Require Import ZArith Lia Sorting.Sorted.
Open Scope Z_scope.

(** ** Sample kernels *)
Definition sample_memory : GuestMemoryImage :=
  {| im_entrypoint := 0x400000; im_initial_stack_pointer := 0x10000;
     im_initial_stack := {| is_stack_top := 0; is_stack_size := 0; is_stack_pointer := 0; is_bytes := [];
       is_argv_addresses := []; is_envp_addresses := []; is_executable_path_address := 0;
       is_platform_address := 0; is_random_address := 0; is_auxv_entries := [] |};
     im_executable_load_bias := 0; im_interpreter := None; im_brk := 0; im_vmas := []; im_regions := [] |}.

Definition sample_state : GuestImageState :=
  {| gi_executable := {| ge_path := []; ge_bytes := [] |}; gi_interpreter := None; gi_argv := []; gi_envp := [];
     gi_memory := sample_memory |}.

(** Process 1 with its task 1; after a fork, a vfork and a new thread. *)
Definition kernel_one : GuestKernel := initial_kernel sample_state.
Definition request_of (syscall : Syscall) (args : SyscallArgs) : SyscallRequest :=
  {| rq_context := {| tc_pid := 1; tc_tid := 1; tc_rip := 0x400000 |}; rq_number := 0; rq_syscall := syscall; rq_args := args |}.

Definition no_args : SyscallArgs := {| arg0 := 0; arg1 := 0; arg2 := 0; arg3 := 0; arg4 := 0; arg5 := 0 |}.

Definition kernel_forked : GuestKernel := (dispatch_for_current_task (request_of SysFork no_args) kernel_one).2.
Definition kernel_zombie : GuestKernel := (exit_group 2 7 kernel_forked).2.
Definition kernel_vforked : GuestKernel := (dispatch_for_current_task (request_of SysVfork no_args) kernel_one).2.

Definition thread_args : CloneSyscallArgs :=
  {| cl_flags := THREAD_REQUIRED; cl_child_stack := 0x9000; cl_parent_tid := 0; cl_child_tid := 0; cl_tls := 0 |}.
Definition kernel_threads : GuestKernel :=
  (clone_current_with_child_regs 1 thread_args (gpr_new 0 0) kernel_one).2.

Definition any_child : Wait4SyscallArgs := {| w4_pid := -1; w4_wstatus := 0; w4_options := 0; w4_rusage := 0 |}.

Lemma alive_by tid k : match k_tasks k !! tid with Some t => is_exited (t_state t) = false | None => True end → alive tid k.
Proof. intros H t Ht. by rewrite Ht in H. Qed.

Lemma reach_step k k' : reachable sample_state k → kstep k k' → reachable sample_state k'.
Proof. unfold reachable. intros H Hs. by eapply rtc_r. Qed.

Lemma reach_one : reachable sample_state kernel_one.
Proof. unfold reachable. apply rtc_refl. Qed.

Lemma reach_forked : reachable sample_state kernel_forked.
Proof. apply (reach_step kernel_one); [apply reach_one|]. apply step_dispatch, alive_by. by vm_compute. Qed.

Lemma reach_zombie : reachable sample_state kernel_zombie.
Proof. apply (reach_step kernel_forked); [apply reach_forked|]. apply step_exit_group. Qed.

Lemma reach_vforked : reachable sample_state kernel_vforked.
Proof. apply (reach_step kernel_one); [apply reach_one|]. apply step_dispatch, alive_by. by vm_compute. Qed.

Lemma reach_threads : reachable sample_state kernel_threads.
Proof. apply (reach_step kernel_one); [apply reach_one|]. apply step_clone, alive_by. by vm_compute. Qed.

(** ** Properties *)

(** C3. Every kernel reachable from a loaded program satisfies the invariant: the runnable,
    child-wait, descriptor and futex indexes hold exactly the tasks in those states; ids are
    fresh; parents and children agree; a process is running exactly while it has a living
    task; whoever waits for a vfork child has a running child; nobody waits for a signal that
    is already pending; and no mask blocks SIGKILL or SIGSTOP. *)
Theorem reachable_invariant image k : reachable image k → kernel_wf k.
Proof. apply reachable_wf. Qed.

Lemma reachable_invariant_witness : kernel_wf kernel_zombie.
Proof. exact (reachable_invariant sample_state kernel_zombie reach_zombie). Defined.

(** C39. No system call panics: in a reachable kernel, [dispatch_for_current_task] of a living
    caller returns an outcome, whatever the call and its arguments. *)
Theorem dispatch_never_panics image k request :
  reachable image k → alive (tc_tid (rq_context request)) k → ∃ outcome, (dispatch_for_current_task request k).1 = Ok outcome.
Proof.
  intros Hr Hal. pose proof (dispatch_no_panic_if request k load_program_total (reachable_wf image k Hr) Hal) as H.
  destruct (dispatch_for_current_task request k).1 as [o|[]|]; [eauto|done].
Qed.

Lemma dispatch_never_panics_witness :
  ∃ outcome, (dispatch_for_current_task (request_of SysWait4 no_args) kernel_zombie).1 = Ok outcome.
Proof.
  apply (dispatch_never_panics sample_state kernel_zombie (request_of SysWait4 no_args) reach_zombie).
  apply alive_by. by vm_compute.
Defined.

(** C29. [wait4_child] on every branch: it reaps the least exited child the selector matches,
    with its tasks and its entry in the parent; otherwise it changes nothing and answers no
    child with WNOHANG, would-block while a matching child runs, and ECHILD without one. *)
Theorem wait4_child_reaps_least parent args k :
  kernel_wf k →
  match wait4_child parent args k with
  | (Ok (Some waited), k') => ∃ c q status,
      has_unsupported_options args = false ∧
      exited_child k parent (w4_pid args) c ∧ (∀ d, exited_child k parent (w4_pid args) d → c ≤ d) ∧
      k_processes k !! c = Some q ∧ p_exit_state q = ExitedWith status ∧
      waited = waited_child_new c status ∧ reaped_core parent c k k' ∧ kernel_wf k'
  | (Ok None, k') => k' = k ∧ no_hang args = true ∧ (∃ c, waitable k parent (w4_pid args) c) ∧
      ∀ c, ¬ exited_child k parent (w4_pid args) c
  | (Err e, k') => k' = k ∧
      match e with
      | InvalidWaitOptions options => options = w4_options args ∧ has_unsupported_options args = true
      | UnknownPid pid => pid = parent ∧ k_processes k !! parent = None
      | WouldBlock => no_hang args = false ∧ has_unsupported_options args = false ∧
          (∃ c, waitable k parent (w4_pid args) c) ∧ ∀ c, ¬ exited_child k parent (w4_pid args) c
      | NoChild => ∀ c, ¬ waitable k parent (w4_pid args) c
      | _ => False
      end
  | (Panic, _) => False
  end.
Proof. apply wait4_child_spec. Qed.

Lemma wait4_child_reaps_least_witness :
  (wait4_child 1 any_child kernel_zombie).1 = Ok (Some (waited_child_new 2 7)) ∧
  kernel_wf (wait4_child 1 any_child kernel_zombie).2.
Proof.
  pose proof (wait4_child_reaps_least 1 any_child kernel_zombie (reachable_wf _ _ reach_zombie)) as H.
  assert (Hr : (wait4_child 1 any_child kernel_zombie).1 = Ok (Some (waited_child_new 2 7))) by (vm_compute; reflexivity).
  destruct (wait4_child 1 any_child kernel_zombie) as [r k']. cbn [fst snd] in *. subst r. split; [reflexivity|].
  destruct H as (c & q & status & _ & _ & _ & _ & _ & _ & _ & Hwf). exact Hwf.
Defined.

(** C19. [resume_waiting_tasks] loses no wake-up: afterwards no blocked wait4 has an exited
    child it could collect, and every completed wait is a task that was waiting and now runs
    with the pid of its child as the result. *)
Theorem resume_waiting_complete k :
  kernel_wf k →
  let '(cs, k') := resume_waiting_tasks k in
  kernel_wf k' ∧
  Forall (λ c, (∃ pid args, child_waiter k (cw_tid c) pid args) ∧ completed k' c) cs ∧
  (∀ tid pid args, child_waiter k' tid pid args → has_unsupported_options args = false →
     ∀ c, ¬ exited_child k' pid (w4_pid args) c).
Proof. apply resume_waiting_spec. Qed.

(** Process 1 waits, then its child exits. *)
Definition kernel_waiting : GuestKernel :=
  (exit_group 2 7 (wait4_current_with_return 1 any_child 0x400002 kernel_forked).2).2.

Lemma wf_waiting : kernel_wf kernel_waiting.
Proof.
  apply wf_exit_group, wf_wait4; [exact (reachable_wf _ _ reach_forked)|]. apply alive_by. by vm_compute.
Qed.

Lemma resume_waiting_complete_witness :
  let '(cs, k') := resume_waiting_tasks kernel_waiting in
  cw_waited <$> cs = [waited_child_new 2 7] ∧ kernel_wf k'.
Proof.
  pose proof (resume_waiting_complete kernel_waiting wf_waiting) as H.
  assert (Hc : cw_waited <$> (resume_waiting_tasks kernel_waiting).1 = [waited_child_new 2 7]) by (vm_compute; reflexivity).
  destruct (resume_waiting_tasks kernel_waiting) as [cs k']. split; [exact Hc|apply H].
Defined.

(** C36. A vfork parent is never stranded: in a reachable kernel, a task that waits for a vfork
    child has that child running, with a task of its own that is alive; and when the child's
    process exits, nobody waits for it any more. *)
Theorem vfork_parent_not_stranded image k tid t child :
  reachable image k → k_tasks k !! tid = Some t → t_state t = WaitingForVfork child →
  (∃ q x u, k_processes k !! child = Some q ∧ p_parent q = Some (t_pid t) ∧ p_exit_state q = Running ∧
     k_tasks k !! x = Some u ∧ t_pid u = child ∧ live u) ∧
  ∀ status x u, k_tasks (exit_group child status k).2 !! x = Some u → t_state u ≠ WaitingForVfork child.
Proof.
  intros Hr Ht Hst. pose proof (reachable_wf _ _ Hr) as Hwf.
  destruct (kw_vfork _ _ _ _ Hwf child I _ _ Ht Hst) as (q & Hq & Hpar & Hrun). split.
  - destruct (proj1 (kw_live _ _ _ _ Hwf child I q Hq) Hrun) as (x & u & Hu & Hpid & Hlv). eauto 10.
  - intros status. pose proof (wf_exit_group child status k Hwf) as Hwf'.
    assert (He : exits (exit_group child status k).2 !! child = Some (ExitedWith status)).
    { unfold exit_group. rewrite Hq, bool_decide_eq_true_2 by eauto. simpl. rewrite exits_finish, exits_put_all.
      rewrite lookup_alter_eq. unfold exits. by rewrite lookup_fmap, Hq. }
    unfold exits in He. rewrite lookup_fmap in He. apply fmap_Some in He as (q' & Hq' & He).
    apply (exited_is_dead _ child q' status Hwf' Hq'). done.
Qed.

Lemma vfork_parent_not_stranded_witness :
  (∃ q x u, k_processes kernel_vforked !! 2 = Some q ∧ p_parent q = Some 1 ∧ p_exit_state q = Running ∧
     k_tasks kernel_vforked !! x = Some u ∧ t_pid u = 2 ∧ live u) ∧
  ∀ status x u, k_tasks (exit_group 2 status kernel_vforked).2 !! x = Some u → t_state u ≠ WaitingForVfork 2.
Proof.
  assert (Hv : (λ t, (t_state t, t_pid t)) <$> k_tasks kernel_vforked !! 1 = Some (WaitingForVfork 2, 1)) by (vm_compute; reflexivity).
  destruct (k_tasks kernel_vforked !! 1) as [t|] eqn:Ht; [|discriminate].
  assert (Hst : t_state t = WaitingForVfork 2 ∧ t_pid t = 1).
  { cbn [fmap option_fmap option_map] in Hv. injection Hv as Hst Hpid. done. }
  destruct Hst as [Hst Hpid]. rewrite <- Hpid.
  exact (vfork_parent_not_stranded sample_state kernel_vforked 1 t 2 reach_vforked Ht Hst).
Defined.

(** fork: with ids left, the child is the caller with the next pid and tid, return value 0
    and no pending signals, its process a copy of the parent's with the same descriptors and
    image; the parent gains the child, gets its pid as the result, and nothing else changes.
    Otherwise the call fails and no process or task changes. *)
Theorem task_fork_spec tid rip k :
  kernel_wf k →
  match fork_like_current tid rip k with
  | (Ok r, k') =>
      kernel_wf k' ∧
      ((∃ e, r = outcome_errno e ∧ k_tasks k' = k_tasks k ∧ k_processes k' = k_processes k) ∨
       ∃ t p, k_tasks k !! tid = Some t ∧ k_processes k !! t_pid t = Some p ∧ p_exit_state p = Running ∧
         r = outcome_success (k_next_pid k) ∧
         k_processes k' = forked_processes (k_next_pid k) (t_pid t) p (k_processes k) ∧
         k_tasks k' = <[k_next_tid k := set_t_regs (with_syscall_return rip 0 (t_regs t))
                                          (forked_task (k_next_pid k) (k_next_tid k) t)]> (k_tasks k))
  | (Err _, _) => False
  | (Panic, _) => False
  end.
Proof.
  intros Hwf. unfold fork_like_current, fork_like_current_and_maybe_block_parent, fork_like_regs_and_maybe_block_parent.
  pose proof (fork_child_spec tid k Hwf) as Hf. destruct (fork_child_task tid k) as [[[cp ct]|e|] k1]; [| |done].
  - destruct Hf as (Hwf1 & -> & -> & t & p & Ht & Hp & Hrun & Hcore). split.
    + apply wf_update_task; [|done]. intros t' _. by apply quiet_lesser.
    + right. exists t, p. split_and!; try done; simpl.
      * by rewrite (core_processes _ _ _ _ _ Hcore).
      * rewrite (core_tasks _ _ _ _ _ Hcore). apply map_eq. intros x. rewrite alter_lookup, lookup_insert.
        rewrite lookup_insert. by repeat case_decide.
  - destruct Hf as (Hwf1 & Hts & Hps). split; [done|]. left. by exists (linux_errno e).
Qed.

Lemma task_fork_spec_witness :
  kernel_wf (fork_like_current 1 0x400002 kernel_one).2 ∧
  (fork_like_current 1 0x400002 kernel_one).1 = Ok (outcome_success 2).
Proof.
  pose proof (task_fork_spec 1 0x400002 kernel_one (reachable_wf _ _ reach_one)) as H.
  assert (Hr : (fork_like_current 1 0x400002 kernel_one).1 = Ok (outcome_success 2)) by (vm_compute; reflexivity).
  destruct (fork_like_current 1 0x400002 kernel_one) as [r k']. cbn [fst snd] in *. subst r. split; [apply H|reflexivity].
Defined.

(** A futex wake resumes the [limit] waiters of the key with the least task ids, or all of
    them when there are fewer, returns their number and touches no other task or process. *)
Theorem futex_wake_spec key limit k :
  kernel_wf k → 0 ≤ limit →
  let waiters := futex_waiters key k in
  let '(n, k') := wake_futex_waiters key limit k in
  StronglySorted Z.lt waiters ∧ (∀ tid, tid ∈ waiters ↔ on_futex key k tid) ∧
  n = Z.min limit (zlen waiters) ∧ k_processes k' = k_processes k ∧
  ∀ tid, k_tasks k' !! tid =
    (if decide (tid ∈ take (Z.to_nat limit) waiters) then set_t_state Runnable else id) <$> k_tasks k !! tid.
Proof.
  intros Hwf Hlim. simpl. rewrite wake_futex_spec by (try apply Hwf; done).
  split_and!; [apply bs_iter_sorted| |done|apply put_all_processes|apply put_all_tasks].
  apply (futex_waiters_spec key k). apply Hwf.
Qed.

Definition sample_key : FutexWaitKey := futex_key_new 1 0x5000 true.

(** Tasks 1 and 2 of process 1 on one futex. *)
Definition kernel_futex : GuestKernel :=
  (block_task_for_futex 2 sample_key (block_task_for_futex 1 sample_key kernel_threads).2).2.

Lemma wf_kernel_futex : kernel_wf kernel_futex.
Proof.
  apply wf_block_task; [apply wf_block_task|..]; try done; [exact (reachable_wf _ _ reach_threads)|..]; apply alive_by; by vm_compute.
Qed.

Lemma futex_wake_spec_witness :
  (wake_futex_waiters sample_key 1 kernel_futex).1 = Z.min 1 (zlen (futex_waiters sample_key kernel_futex)) ∧
  futex_waiters sample_key kernel_futex = [1; 2].
Proof.
  pose proof (futex_wake_spec sample_key 1 kernel_futex wf_kernel_futex ltac:(lia)) as H.
  assert (Hw : futex_waiters sample_key kernel_futex = [1; 2]) by (vm_compute; reflexivity).
  destruct (wake_futex_waiters sample_key 1 kernel_futex) as [n k']. split; [apply H|exact Hw].
Defined.

(** C28. A futex requeue wakes the first waiters of the source and moves the next ones, still
    blocked, to the queue of the target, at most as many as asked for. *)
Theorem futex_requeue_spec source target wake_limit requeue_limit k :
  kernel_wf k → source ≠ target → 0 ≤ wake_limit → 0 ≤ requeue_limit →
  let waiters := futex_waiters source k in
  let woken := take (Z.to_nat wake_limit) waiters in
  let moved := take (Z.to_nat requeue_limit) (drop (Z.to_nat wake_limit) waiters) in
  let '(n, k') := requeue_futex_waiters source target wake_limit requeue_limit k in
  kernel_wf k' ∧ n = zlen woken + zlen moved ∧
  ∀ tid t, k_tasks k !! tid = Some t → ∃ t', k_tasks k' !! tid = Some t' ∧
    (tid ∈ woken → t_state t' = Runnable) ∧
    (tid ∈ moved → t_state t' = WaitingForFutex target) ∧
    (tid ∉ woken → tid ∉ moved → t' = t).
Proof.
  intros Hwf Hne Hw Hr. simpl. pose proof (wf_requeue_futex source target wake_limit requeue_limit k Hwf Hw Hr) as Hwf'.
  rewrite requeue_futex_spec in * by (try apply Hwf; done). rewrite decide_False in * by done.
  set (woken := take (Z.to_nat wake_limit) (futex_waiters source k)) in *.
  set (moved := take _ (drop _ _)) in *. split; [exact Hwf'|]. split; [done|].
  intros tid t Ht. setoid_rewrite put_all_tasks. setoid_rewrite put_all_tasks. rewrite Ht. simpl.
  assert (Hdis : tid ∈ woken → tid ∉ moved).
  { intros Hin Hm. destruct (futex_waiters_spec source k (kw_index _ _ _ _ Hwf)) as [Hnd _].
    rewrite <- (take_drop (Z.to_nat wake_limit) (futex_waiters source k)) in Hnd.
    apply NoDup_app in Hnd as (_ & Hd & _). apply (Hd tid Hin).
    apply elem_of_take in Hm as (i & Hi & _). by eapply list_elem_of_lookup_2. }
  eexists. split; [reflexivity|]. split_and!.
  - intros Hin. rewrite decide_False by auto. by rewrite decide_True.
  - intros Hin. by rewrite decide_True.
  - intros H1 H2. by rewrite !decide_False.
Qed.

Lemma futex_requeue_spec_witness :
  kernel_wf (requeue_futex_waiters sample_key (futex_key_new 1 0x6000 true) 1 5 kernel_futex).2 ∧
  (requeue_futex_waiters sample_key (futex_key_new 1 0x6000 true) 1 5 kernel_futex).1 = 2.
Proof.
  pose proof (futex_requeue_spec sample_key (futex_key_new 1 0x6000 true) 1 5 kernel_futex wf_kernel_futex
                ltac:(discriminate) ltac:(lia) ltac:(lia)) as H.
  assert (Hn : (requeue_futex_waiters sample_key (futex_key_new 1 0x6000 true) 1 5 kernel_futex).1 = 2) by (vm_compute; reflexivity).
  destruct (requeue_futex_waiters sample_key (futex_key_new 1 0x6000 true) 1 5 kernel_futex) as [n k']. split; [apply H|exact Hn].
Defined.

(** exit_group ends a process: its state becomes the exit status, none of its tasks is
    alive, nobody waits for it as a vfork child, the other processes keep their exit states,
    and SIGCHLD stays pending for a parent none of whose tasks is in a signal wait. *)
Theorem exit_group_spec pid status p k :
  kernel_wf k → k_processes k !! pid = Some p →
  let k' := (exit_group pid status k).2 in
  kernel_wf k' ∧ exits k' = <[pid := ExitedWith status]> (exits k) ∧
  (∀ tid t, k_tasks k' !! tid = Some t → t_pid t = pid → is_exited (t_state t) = true) ∧
  (∀ tid t, k_tasks k' !! tid = Some t → t_state t ≠ WaitingForVfork pid) ∧
  ∀ parent q, p_parent p = Some parent → k_processes k !! parent = Some q →
    (∀ tid t, k_tasks k !! tid = Some t → t_pid t = parent → waits_for (t_state t) = None) →
    ∃ q', k_processes k' !! parent = Some q' ∧ LINUX_SIGCHLD ∈ p_pending_signals q'.
Proof.
  intros Hwf Hp k'. pose proof (wf_exit_group pid status k Hwf : kernel_wf k') as Hwf'.
  assert (Hk' : k' = finish_process pid status (put_all (Exited status) (tids_of pid k) k)).
  { unfold k', exit_group. rewrite Hp, bool_decide_eq_true_2 by eauto. done. }
  assert (Hx : exits k' = <[pid := ExitedWith status]> (exits k)).
  { rewrite Hk', exits_finish. unfold put_all. rewrite exits_put_all. apply map_eq. intros x.
    rewrite alter_lookup, lookup_insert. unfold exits. rewrite lookup_fmap.
    repeat case_decide; try done. subst. by rewrite Hp. }
  assert (He : exits k' !! pid = Some (ExitedWith status)) by (by rewrite Hx, lookup_insert_eq).
  unfold exits at 1 in He. rewrite lookup_fmap in He. apply fmap_Some in He as (q & Hq & He).
  destruct (exited_is_dead k' pid q status Hwf' Hq (eq_sym He)) as [Hdead Hvf].
  split_and!; [done|done|done|done|]. intros parent pq Hpar Hpq Hno. rewrite Hk'.
  assert (Hlt : 1 ≤ parent < pid).
  { apply (gw_parent _ _ _ _ (kw_graph _ _ _ _ Hwf)). unfold parent_of. by rewrite Hp. }
  apply (finish_process_sigchld _ _ p _ pq); try rewrite put_all_processes; try done; [lia|].
  intros tid t. rewrite put_all_tasks. intros (t0 & Ht0 & ->)%fmap_Some Hpid. case_decide; [done|]. by apply (Hno tid).
Qed.

Lemma exit_group_spec_witness :
  exits (exit_group 2 7 kernel_forked).2 = <[2 := ExitedWith 7]> (exits kernel_forked) ∧
  kernel_wf (exit_group 2 7 kernel_forked).2.
Proof.
  assert (Hp : is_Some (k_processes kernel_forked !! 2)) by (vm_compute; eauto).
  destruct Hp as [p Hp].
  pose proof (exit_group_spec 2 7 p kernel_forked (reachable_wf _ _ reach_forked) Hp) as H. split; apply H.
Defined.

(** C38. exec on every branch: a failed exec changes nothing.  A successful one gives the caller's
    process the image of the program, closes exactly its close-on-exec descriptors and keeps its
    identity, family and signals; the calling task restarts at the new entry point and stack
    with fresh registers, keeping its mask and its pending signals; no task appears or goes
    away, exactly the tasks that wait for the vfork of this process become runnable, and every
    other task, process and id counter is unchanged; and the kernel is well-formed again.  The
    other threads of the process are among the unchanged tasks: [exec_task] does not end them. *)
Theorem exec_task_atomic tid program k :
  kernel_wf k →
  match exec_task tid program k with
  | (Ok _, k') => ∃ t p image p', k_tasks k !! tid = Some t ∧ k_processes k !! t_pid t = Some p ∧
      load_program program = Ok image ∧ exec_process image p p' ∧
      k_processes k' = <[t_pid t := p']> (k_processes k) ∧
      k_next_pid k' = k_next_pid k ∧ k_next_tid k' = k_next_tid k ∧
      exec_tasks tid (t_pid t) image (k_tasks k) (k_tasks k') ∧
      (live t → kernel_wf k')
  | (Err _, k') => k' = k
  | (Panic, _) => False
  end.
Proof.
  intros Hwf. pose proof (exec_task_spec tid program k Hwf) as H.
  pose proof (wf_exec tid program k Hwf) as Hwf'.
  destruct (exec_task tid program k) as [[[]|e|] k']; [|done|done].
  destruct H as (t & p & image & H1 & H2 & H3 & H4 & H5 & H6 & H7). exists t, p, image, (set_p_image image p).
  split_and!; try done; [apply exec_process_image|rewrite H4; by apply alter_as_insert|].
  intros Hlive. apply Hwf'. intros t' Ht'. by simplify_eq.
Qed.

(** The child of a vfork, with its parent in the wait, executes the sample file. *)
Definition byte_of (z : Z) : Byte.byte := default Byte.x00 (Byte.of_N (Z.to_N z)).
Definition sample_program : GuestProgram := program_new {| ge_path := [47; 97]; ge_bytes := byte_of <$> sample_elf |}.

Lemma exec_task_atomic_witness :
  let k' := (exec_task 2 sample_program kernel_vforked).2 in
  (exec_task 2 sample_program kernel_vforked).1 = Ok tt ∧
  t_state <$> k_tasks kernel_vforked !! 1 = Some (WaitingForVfork 2) ∧ t_state <$> k_tasks k' !! 1 = Some Runnable ∧
  t_state <$> k_tasks k' !! 2 = Some Runnable ∧ dom (k_tasks k') = dom (k_tasks kernel_vforked) ∧ kernel_wf k'.
Proof.
  cbv zeta.
  assert (Hr : (exec_task 2 sample_program kernel_vforked).1 = Ok tt) by (vm_compute; reflexivity).
  assert (H1 : t_state <$> k_tasks kernel_vforked !! 1 = Some (WaitingForVfork 2)) by (vm_compute; reflexivity).
  assert (H2 : (λ t, (t_pid t, t_state t)) <$> k_tasks kernel_vforked !! 2 = Some (2, Runnable)) by (vm_compute; reflexivity).
  pose proof (exec_task_atomic 2 sample_program kernel_vforked (reachable_wf _ _ reach_vforked)) as H.
  destruct (exec_task 2 sample_program kernel_vforked) as [r k']. cbn [fst snd] in *. subst r.
  destruct H as (t & p & image & p' & Ht & _ & _ & _ & _ & _ & _ & [Hdom Htasks] & Hwf).
  rewrite Ht in H2. cbn [fmap option_fmap option_map] in H2. injection H2 as Hpid Hst. rewrite Hpid in Htasks.
  split; [reflexivity|]. split; [exact H1|]. split; [|split; [|split; [exact Hdom|]]].
  - apply fmap_Some in H1 as (u & Hu & Hw). destruct (Htasks 1 u Hu) as (u' & Hu' & Heq).
    rewrite decide_False, decide_True in Heq by done. by rewrite Hu', Heq.
  - destruct (Htasks 2 t Ht) as (u' & Hu' & Heq). rewrite decide_True in Heq by done.
    rewrite Hu'. cbn [fmap option_fmap option_map]. f_equal. apply Heq.
  - apply Hwf. unfold live. by rewrite Hst.
Defined.

(** Delivery on return to user mode: a signal that [take_pending_signal_for_return_to_user]
    takes from a queue is pending and not blocked by the task's mask; when it takes none,
    every signal pending for the task or its process is blocked; and SIGKILL and SIGSTOP
    never are. *)
Theorem delivery_respects_mask tid t k :
  kernel_wf k → k_tasks k !! tid = Some t → is_u64 (t_signal_mask t) → t_pending_signal_delivery t = None →
  (match take_pending_signal_for_return_to_user tid k with
   | (Some s, k') => kernel_wf k' ∧ signal_matches_mask s (t_signal_mask t) = false ∧
       (s ∈ t_pending_signals t ∨ ∃ p, k_processes k !! t_pid t = Some p ∧ s ∈ p_pending_signals p)
   | (None, k') => k' = k ∧
       (∀ s, s ∈ t_pending_signals t → 1 ≤ s ≤ LINUX_SIGNAL_COUNT → signal_matches_mask s (t_signal_mask t) = true) ∧
       (∀ p s, k_processes k !! t_pid t = Some p → s ∈ p_pending_signals p → 1 ≤ s ≤ LINUX_SIGNAL_COUNT →
          signal_matches_mask s (t_signal_mask t) = true)
   end) ∧
  signal_matches_mask LINUX_SIGKILL (t_signal_mask t) = false ∧ signal_matches_mask LINUX_SIGSTOP (t_signal_mask t) = false.
Proof.
  intros Hwf Ht Hm Hd. pose proof (gw_mask _ _ _ _ (kw_graph _ _ _ _ Hwf) _ _ Ht) as Hsane.
  split; [|split; apply sane_unblocked; auto].
  pose proof (wf_take_return tid k Hwf) as Hwf'. unfold take_pending_signal_for_return_to_user in *. rewrite Ht, Hd in *.
  pose proof (take_spec tid (t_pid t) (U64_MAX - t_signal_mask t) k) as Htk.
  destruct (take_pending_signal_for_task tid (t_pid t) (U64_MAX - t_signal_mask t) k) as [[s|] k'].
  - destruct Htk as [Hmatch Hor]. split; [done|]. split.
    + assert (Hr : 1 ≤ s ≤ LINUX_SIGNAL_COUNT).
      { unfold signal_matches_mask in Hmatch. bprop. lia. }
      rewrite matches_complement in Hmatch by done. by apply negb_true_iff in Hmatch.
    + destruct Hor as [(t' & Ht' & Hin & _)|(p & Hp & Hin & _)]; [left; by simplify_eq|eauto].
  - destruct Htk as (-> & Hnt & Hnp). split_and!; [done| |].
    + intros s Hs Hr. specialize (Hnt _ Ht s Hs). rewrite matches_complement in Hnt by done. by apply negb_false_iff in Hnt.
    + intros p s Hp Hs Hr. specialize (Hnp _ Hp s Hs). rewrite matches_complement in Hnp by done. by apply negb_false_iff in Hnp.
Qed.

(** SIGTERM is queued for process 1. *)
Definition kernel_signalled : GuestKernel := queue_process_signal 1 15 kernel_one.

Lemma delivery_respects_mask_witness :
  ∃ t, k_tasks kernel_signalled !! 1 = Some t ∧ signal_matches_mask LINUX_SIGKILL (t_signal_mask t) = false ∧
    (take_pending_signal_for_return_to_user 1 kernel_signalled).1 = Some 15.
Proof.
  assert (Hv : (λ t, (t_signal_mask t, t_pending_signal_delivery t)) <$> k_tasks kernel_signalled !! 1 = Some (0, None)) by (vm_compute; reflexivity).
  assert (Hs : (take_pending_signal_for_return_to_user 1 kernel_signalled).1 = Some 15) by (vm_compute; reflexivity).
  assert (Hwf : kernel_wf kernel_signalled) by (apply wf_queue_process; exact (reachable_wf _ _ reach_one)).
  destruct (k_tasks kernel_signalled !! 1) as [t|] eqn:Ht; [|discriminate].
  cbn [fmap option_fmap option_map] in Hv. injection Hv as Hm Hd. exists t. split; [reflexivity|]. split; [|exact Hs].
  apply (delivery_respects_mask 1 t kernel_signalled Hwf Ht); [rewrite Hm; split; [reflexivity|reflexivity]|exact Hd].
Defined.

(** ** What modelling showed *)

(** Two threads of process 1 wait for its only child. *)
Definition kernel_two_waiters : GuestKernel :=
  let k := (fork_like_current 1 0x400002 kernel_threads).2 in
  let k := (wait4_current_with_return 1 any_child 0x400002 k).2 in
  let k := (wait4_current_with_return 2 any_child 0x9002 k).2 in
  (exit_group 2 7 k).2.

(** The second of two threads that wait for the same child is left blocked: after the
    first has reaped it, the process has no child left, so wait4 would fail with ECHILD, but
    [resume_waiting_tasks] skips every error and the thread stays in its wait for ever. *)
Theorem sibling_waiter_stays_blocked :
  ∃ k', (resume_waiting_tasks kernel_two_waiters).2 = k' ∧
    (resume_waiting_tasks k').1 = [] ∧ child_waiters k' = [(2, 1, any_child)] ∧
    (wait4_child 1 any_child k').1 = Err NoChild.
Proof. eexists. split; [reflexivity|]. split_and!; vm_compute; reflexivity. Qed.

(** Asking for the action of SIGKILL, a call with a null new action, fails with EINVAL:
    the signal is validated as if an action were installed. *)
Theorem sigaction_query_rejected tid t args k :
  k_tasks k !! tid = Some t → sa_sig args = LINUX_SIGKILL → sa_act args = 0 →
  rt_sigaction_current tid args k = (outcome_errno EINVAL, k).
Proof.
  intros Ht Hs Ha. unfold rt_sigaction_current, rt_sigaction_current_with_action. rewrite Ht, Hs. done.
Qed.

Lemma sigaction_query_rejected_witness :
  (rt_sigaction_current 1 {| sa_sig := 9; sa_act := 0; sa_oldact := 0x1000; sa_sigsetsize := 8 |} kernel_one).1 = outcome_errno EINVAL.
Proof.
  assert (Ht : is_Some (k_tasks kernel_one !! 1)) by (vm_compute; eauto). destruct Ht as [t Ht].
  rewrite (sigaction_query_rejected 1 t _ kernel_one Ht); reflexivity.
Defined.

(** A forked child inherits the robust list and the clear-child-tid address of its parent,
    which Linux resets in the child. *)
Theorem fork_inherits_thread_pointers tid rip t k cp :
  kernel_wf k → k_tasks k !! tid = Some t → (fork_like_current tid rip k).1 = Ok (outcome_success cp) →
  ∃ u, k_tasks (fork_like_current tid rip k).2 !! k_next_tid k = Some u ∧ t_robust_list u = t_robust_list t ∧
    t_clear_child_tid u = t_clear_child_tid t.
Proof.
  intros Hwf Ht Hr. unfold fork_like_current, fork_like_current_and_maybe_block_parent, fork_like_regs_and_maybe_block_parent in *.
  pose proof (fork_child_spec tid k Hwf) as Hf.
  destruct (fork_child_task tid k) as [[[p ct]|e|] k1]; simpl in *; [|by destruct e|done].
  destruct Hf as (_ & _ & -> & t' & pr & Ht' & _ & _ & Hcore). simplify_eq.
  eexists. split; [rewrite (core_tasks _ _ _ _ _ Hcore), lookup_alter_eq, lookup_insert_eq; reflexivity|]. done.
Qed.

Lemma fork_inherits_thread_pointers_witness :
  ∃ u, k_tasks (fork_like_current 1 0 kernel_one).2 !! 2 = Some u ∧ t_robust_list u = None.
Proof.
  assert (Ht : t_robust_list <$> k_tasks kernel_one !! 1 = Some None) by (vm_compute; reflexivity).
  destruct (k_tasks kernel_one !! 1) as [t|] eqn:Hk; [|discriminate]. cbn [fmap option_fmap option_map] in Ht. injection Ht as Ht.
  destruct (fork_inherits_thread_pointers 1 0 t kernel_one 2 (reachable_wf _ _ reach_one) Hk) as (u & Hu & Hr & _);
    [vm_compute; reflexivity|]. exists u. split; [exact Hu|]. rewrite Hr. exact Ht.
Defined.
