(* ===== verification/VfsTypes.v ===== *)
(** * mcr-vfs: constants, errors and attributes

    The Linux constants of the file system (lib.rs), its errors (error.rs), open flags and
    file kinds (fd.rs), and file attributes with their updates (path.rs). *)

From S2P Require Import Prelude SysAbi Bytes.
From stdpp Require Import base gmap list strings.
From Stdlib Require Import ZArith Lia.
Open Scope Z_scope.

(** ** Constants (lib.rs) *)
Definition AT_FDCWD : Z := -100.
Definition AT_EMPTY_PATH : Z := 0x1000.
Definition AT_REMOVEDIR : Z := 0x200.
Definition AT_SYMLINK_FOLLOW : Z := 0x400.
Definition AT_SYMLINK_NOFOLLOW : Z := 0x100.
Definition DEFAULT_UMASK : Z := 0x12.
Definition DT_UNKNOWN : Z := 0.
Definition DT_CHR : Z := 2.
Definition DT_DIR : Z := 4.
Definition DT_REG : Z := 8.
Definition DT_LNK : Z := 10.
Definition DT_SOCK : Z := 12.
Definition F_DUPFD : Z := 0.
Definition F_GETFD : Z := 1.
Definition F_SETFD : Z := 2.
Definition F_GETFL : Z := 3.
Definition F_SETFL : Z := 4.
Definition F_SETLK : Z := 6.
Definition F_SETLKW : Z := 7.
Definition F_DUPFD_CLOEXEC : Z := 1030.
Definition F_SETPIPE_SZ : Z := 1031.
Definition F_GETPIPE_SZ : Z := 1032.
Definition FD_CLOEXEC : Z := 1.
Definition F_OK : Z := 0.
Definition O_ACCMODE : Z := 3.
Definition O_RDONLY : Z := 0.
Definition O_WRONLY : Z := 1.
Definition O_RDWR : Z := 2.
Definition O_CREAT : Z := 0x40.
Definition O_EXCL : Z := 0x80.
Definition O_TRUNC : Z := 0x200.
Definition O_APPEND : Z := 0x400.
Definition O_NONBLOCK : Z := 0x800.
Definition O_DIRECTORY : Z := 0x10000.
Definition O_NOFOLLOW : Z := 0x20000.
Definition O_CLOEXEC : Z := 0x80000.
Definition FIONREAD : Z := 0x541b.
Definition R_OK : Z := 4.
Definition W_OK : Z := 2.
Definition X_OK : Z := 1.
Definition RENAME_NOREPLACE : Z := 1.
Definition RENAME_EXCHANGE : Z := 2.
Definition SUPPORTED_RENAME_FLAGS : Z := Z.lor RENAME_NOREPLACE RENAME_EXCHANGE.
Definition S_IFMT : Z := 0xf000.
Definition S_IFIFO : Z := 0x1000.
Definition S_IFDIR : Z := 0x4000.
Definition S_IFREG : Z := 0x8000.
Definition S_IFLNK : Z := 0xa000.
Definition S_IFCHR : Z := 0x2000.
Definition S_IFSOCK : Z := 0xc000.

Definition DEV_NULL_INODE_ID : Z := 2 ^ 61.
Definition DEV_ZERO_INODE_ID : Z := DEV_NULL_INODE_ID + 1.
Definition DEV_URANDOM_INODE_ID : Z := DEV_NULL_INODE_ID + 2.
Definition FIRST_ALLOC_FD : Z := 0.
Definition FIRST_PIPE_INODE_ID : Z := 2 ^ 62.
Definition PROC_INODE_ID : Z := 2 ^ 60.
Definition PROC_SELF_INODE_ID : Z := PROC_INODE_ID + 1.
Definition PROC_SELF_EXE_INODE_ID : Z := PROC_INODE_ID + 2.
Definition PROC_SELF_CMDLINE_INODE_ID : Z := PROC_INODE_ID + 3.
Definition PROC_SELF_ENVIRON_INODE_ID : Z := PROC_INODE_ID + 4.
Definition PROC_SELF_FD_INODE_ID : Z := PROC_INODE_ID + 5.
Definition FIRST_PROC_SELF_FD_LINK_INODE_ID : Z := PROC_INODE_ID + 1024.
Definition DEFAULT_PIPE_CAPACITY : Z := 65536.
Definition MIN_PIPE_CAPACITY : Z := 4096.
Definition ROOT_INODE_ID : Z := 1.
Definition FIRST_SOCKET_INODE_ID : Z := 2 ^ 59.
Definition FIRST_EPOLL_INODE_ID : Z := 2 ^ 59 + 2 ^ 58.
Definition FIRST_EVENTFD_INODE_ID : Z := 2 ^ 59 + 2 ^ 57.
Definition SETFL_MUTABLE_FLAGS : Z := Z.lor O_APPEND O_NONBLOCK.
Definition SYMLINK_LIMIT : nat := 40.
Definition SMALL_READ_CACHE_LIMIT : Z := 4096.
Definition HOST_READ_HANDLE_CACHE_LIMIT : nat := 32.

(** ** Errors (error.rs) *)
Inductive VfsError : Type :=
| AlreadyExists | BadFd | BrokenPipe | Busy | InvalidPath | IsDirectory | Loop | NameTooLong
| NoEntry | NotEmpty | NoSpace | NotSeekable | NotSocket | NotTerminal | NotDirectory
| NotPermitted | PermissionDenied | WouldBlock.

#[export] Instance VfsError_eq_dec : EqDecision VfsError.
Proof. solve_decision. Defined.

Definition linux_errno_value (e : VfsError) : LinuxErrno :=
  match e with
  | AlreadyExists => EEXIST
  | BadFd => EBADF
  | BrokenPipe => EPIPE
  | Busy => EBUSY
  | InvalidPath => EINVAL
  | IsDirectory => EISDIR
  | Loop => ELOOP
  | NameTooLong => ENAMETOOLONG
  | NoEntry => ENOENT
  | NotEmpty => ENOTEMPTY
  | NoSpace => ENOSPC
  | NotSeekable => ESPIPE
  | NotSocket => ENOTSOCK
  | NotTerminal => ENOTTY
  | NotDirectory => ENOTDIR
  | NotPermitted => EPERM
  | PermissionDenied => EACCES
  | WouldBlock => EWOULDBLOCK
  end.

(** [vfs_error_from_host] (io_helpers.rs) *)
Definition vfs_error_from_host (kind : HostErrorKind) : VfsError :=
  match kind with
  | HostNotFound => NoEntry
  | HostAccessDenied => PermissionDenied
  | HostInterrupted | HostWouldBlock => WouldBlock
  | HostBrokenPipe => BrokenPipe
  | HostAlreadyExists | HostInvalidInput | HostTimedOut | HostOutOfMemory | HostUnsupported
  | HostPoisoned | HostUnavailable | HostOther => InvalidPath
  end.

(** ** Open flags (fd.rs) *)
Record OpenFlags : Type := { of_raw : Z }.

Definition flags_new (raw : Z) : OpenFlags := {| of_raw := raw |}.
Definition access_mode (f : OpenFlags) : Z := Z.land (of_raw f) O_ACCMODE.
Definition can_read (f : OpenFlags) : bool := (access_mode f =? O_RDONLY) || (access_mode f =? O_RDWR).
Definition can_write (f : OpenFlags) : bool := (access_mode f =? O_WRONLY) || (access_mode f =? O_RDWR).
Definition cloexec_flag (f : OpenFlags) : bool := has_bits (of_raw f) O_CLOEXEC.
Definition create_flag (f : OpenFlags) : bool := has_bits (of_raw f) O_CREAT.
Definition exclusive (f : OpenFlags) : bool := has_bits (of_raw f) O_EXCL.
Definition truncate_flag (f : OpenFlags) : bool := has_bits (of_raw f) O_TRUNC.
Definition append_flag (f : OpenFlags) : bool := has_bits (of_raw f) O_APPEND.
Definition directory_flag (f : OpenFlags) : bool := has_bits (of_raw f) O_DIRECTORY.
Definition nofollow (f : OpenFlags) : bool := has_bits (of_raw f) O_NOFOLLOW.

Definition with_status_flags (f : OpenFlags) (status_flags : Z) : OpenFlags :=
  {| of_raw := Z.lor (without_bits (of_raw f) SETFL_MUTABLE_FLAGS)
                     (Z.land status_flags SETFL_MUTABLE_FLAGS) |}.

(** ** Kinds of files (fd.rs, node.rs, path.rs) *)
Inductive StdioKind : Type := Stdin | Stdout | Stderr.

Inductive DevNodeKind : Type := DevNull | DevZero | DevUrandom | DevStdin | DevStdout | DevStderr.

#[export] Instance DevNodeKind_eq_dec : EqDecision DevNodeKind.
Proof. solve_decision. Defined.

Definition dev_of_stdio (k : StdioKind) : DevNodeKind :=
  match k with Stdin => DevStdin | Stdout => DevStdout | Stderr => DevStderr end.

Definition dev_name (k : DevNodeKind) : string :=
  match k with
  | DevNull => "null" | DevZero => "zero" | DevUrandom => "urandom"
  | DevStdin => "stdin" | DevStdout => "stdout" | DevStderr => "stderr"
  end.

Definition stdio_name (k : StdioKind) : string :=
  match k with Stdin => "stdin" | Stdout => "stdout" | Stderr => "stderr" end.

Inductive FileKind : Type :=
| KRegular | KDirectory | KSymlink | KDev (k : DevNodeKind) | KPipeRead | KPipeWrite
| KSocket | KEpoll | KEventfd | KStdio (k : StdioKind).

Inductive ProcNodeKind : Type :=
| ProcDirectory | ProcExe | ProcCmdline | ProcEnviron | ProcFdDirectory | ProcFdLink (fd : Z).

#[export] Instance ProcNodeKind_eq_dec : EqDecision ProcNodeKind.
Proof. solve_decision. Defined.

Inductive PathNodeKind : Type :=
| NDirectory | NFile | NDevice (k : DevNodeKind) | NProc (k : ProcNodeKind) | NSymlink (target : string).

Definition proc_file_kind (k : ProcNodeKind) : FileKind :=
  match k with
  | ProcDirectory | ProcFdDirectory => KDirectory
  | ProcExe | ProcFdLink _ => KSymlink
  | ProcCmdline | ProcEnviron => KRegular
  end.

Definition proc_name (k : ProcNodeKind) : string :=
  match k with
  | ProcDirectory => "directory" | ProcExe => "self/exe" | ProcCmdline => "self/cmdline"
  | ProcEnviron => "self/environ" | ProcFdDirectory | ProcFdLink _ => "self/fd"
  end.

Definition is_directory_kind (k : PathNodeKind) : bool :=
  match k with NDirectory | NProc ProcDirectory | NProc ProcFdDirectory => true | _ => false end.

(** ** Attributes (path.rs) *)
Record LinuxFileAttr : Type := {
  at_inode : Z; at_mode : Z; at_uid : Z; at_gid : Z; at_nlink : Z; at_size : Z;
  at_blksize : Z; at_blocks : Z; at_atime_sec : Z; at_atime_nsec : Z; at_mtime_sec : Z;
  at_mtime_nsec : Z; at_ctime_sec : Z; at_ctime_nsec : Z;
}.

Definition div_ceil512 (size : Z) : Z := (size + 511) / 512.

Definition attr_new (inode mode size : Z) : LinuxFileAttr :=
  {| at_inode := inode; at_mode := mode; at_uid := 0; at_gid := 0;
     at_nlink := if Z.land mode S_IFMT =? S_IFDIR then 2 else 1;
     at_size := size; at_blksize := 4096; at_blocks := div_ceil512 size;
     at_atime_sec := 0; at_atime_nsec := 0; at_mtime_sec := 0; at_mtime_nsec := 0;
     at_ctime_sec := 0; at_ctime_nsec := 0 |}.

Definition directory_with_mode (inode mode : Z) : LinuxFileAttr :=
  attr_new inode (Z.lor S_IFDIR (Z.land mode 0xfff)) 0.
Definition directory_attr (inode : Z) : LinuxFileAttr := directory_with_mode inode 0x1ed.
Definition regular (inode mode size : Z) : LinuxFileAttr :=
  attr_new inode (Z.lor S_IFREG (Z.land mode 0xfff)) size.
Definition symlink (inode size : Z) : LinuxFileAttr :=
  attr_new inode (Z.lor S_IFLNK 0x1ff) size.
Definition character_device (inode mode : Z) : LinuxFileAttr :=
  attr_new inode (Z.lor S_IFCHR (Z.land mode 0xfff)) 0.
Definition socket_attr (inode : Z) : LinuxFileAttr := attr_new inode (Z.lor S_IFSOCK 0x1b6) 0.
Definition fifo (inode : Z) : LinuxFileAttr := attr_new inode (Z.lor S_IFIFO 0x180) 0.

Definition kind_bits (a : LinuxFileAttr) : Z := Z.land (at_mode a) S_IFMT.
Definition is_directory_attr (a : LinuxFileAttr) : bool := kind_bits a =? S_IFDIR.
Definition is_symlink_attr (a : LinuxFileAttr) : bool := kind_bits a =? S_IFLNK.

Definition dirent_type (a : LinuxFileAttr) : Z :=
  if kind_bits a =? S_IFDIR then DT_DIR
  else if kind_bits a =? S_IFREG then DT_REG
  else if kind_bits a =? S_IFLNK then DT_LNK
  else if kind_bits a =? S_IFCHR then DT_CHR
  else if kind_bits a =? S_IFSOCK then DT_SOCK
  else DT_UNKNOWN.

Definition check_access (a : LinuxFileAttr) (mode : Z) : outcome unit VfsError :=
  let permissions := Z.land (at_mode a) 0x1ff in
  if negb (without_bits mode (Z.lor (Z.lor R_OK W_OK) X_OK) =? 0) then Err InvalidPath
  else if mode =? F_OK then Ok tt
  else if has_bits mode R_OK && (Z.land permissions 0x124 =? 0) then Err PermissionDenied
  else if has_bits mode W_OK && (Z.land permissions 0x92 =? 0) then Err PermissionDenied
  else if has_bits mode X_OK && (Z.land permissions 0x49 =? 0) then Err PermissionDenied
  else Ok tt.

Definition proc_attr (k : ProcNodeKind) (inode mode : Z) : LinuxFileAttr :=
  match k with
  | ProcDirectory | ProcFdDirectory => directory_with_mode inode mode
  | ProcExe | ProcFdLink _ => symlink inode 0
  | ProcCmdline | ProcEnviron => regular inode mode 0
  end.

(** [MetadataSidecar], a wrapper of the attributes, and its updates. *)
Definition saturating_inc_i64 (n : Z) : Z := Z.min (n + 1) I64_MAX.

Definition touch_ctime (a : LinuxFileAttr) : LinuxFileAttr :=
  {| at_inode := at_inode a; at_mode := at_mode a; at_uid := at_uid a; at_gid := at_gid a;
     at_nlink := at_nlink a; at_size := at_size a; at_blksize := at_blksize a;
     at_blocks := at_blocks a; at_atime_sec := at_atime_sec a; at_atime_nsec := at_atime_nsec a;
     at_mtime_sec := at_mtime_sec a; at_mtime_nsec := at_mtime_nsec a;
     at_ctime_sec := at_ctime_sec a; at_ctime_nsec := saturating_inc_i64 (at_ctime_nsec a) |}.

Definition touch_mtime (a : LinuxFileAttr) : LinuxFileAttr :=
  {| at_inode := at_inode a; at_mode := at_mode a; at_uid := at_uid a; at_gid := at_gid a;
     at_nlink := at_nlink a; at_size := at_size a; at_blksize := at_blksize a;
     at_blocks := at_blocks a; at_atime_sec := at_atime_sec a; at_atime_nsec := at_atime_nsec a;
     at_mtime_sec := at_mtime_sec a; at_mtime_nsec := saturating_inc_i64 (at_mtime_nsec a);
     at_ctime_sec := at_ctime_sec a; at_ctime_nsec := at_ctime_nsec a |}.

(** The fields that some update replaces: mode, owner, links, size with blocks, times. *)
Definition attr_with (mode uid gid nlink size blocks atime_sec atime_nsec mtime_sec mtime_nsec : Z)
    (a : LinuxFileAttr) : LinuxFileAttr :=
  {| at_inode := at_inode a; at_mode := mode; at_uid := uid; at_gid := gid; at_nlink := nlink;
     at_size := size; at_blksize := at_blksize a; at_blocks := blocks;
     at_atime_sec := atime_sec; at_atime_nsec := atime_nsec; at_mtime_sec := mtime_sec;
     at_mtime_nsec := mtime_nsec; at_ctime_sec := at_ctime_sec a;
     at_ctime_nsec := at_ctime_nsec a |}.

Definition set_mode (mode : Z) (a : LinuxFileAttr) : LinuxFileAttr :=
  touch_ctime (attr_with (Z.lor (Z.land (at_mode a) S_IFMT) (Z.land mode 0xfff)) (at_uid a)
    (at_gid a) (at_nlink a) (at_size a) (at_blocks a) (at_atime_sec a) (at_atime_nsec a)
    (at_mtime_sec a) (at_mtime_nsec a) a).

Definition set_owner (uid gid : option Z) (a : LinuxFileAttr) : LinuxFileAttr :=
  touch_ctime (attr_with (at_mode a) (default (at_uid a) uid) (default (at_gid a) gid)
    (at_nlink a) (at_size a) (at_blocks a) (at_atime_sec a) (at_atime_nsec a)
    (at_mtime_sec a) (at_mtime_nsec a) a).

Definition set_file_size (size : Z) (a : LinuxFileAttr) : LinuxFileAttr :=
  touch_ctime (touch_mtime (attr_with (at_mode a) (at_uid a) (at_gid a) (at_nlink a) size
    (div_ceil512 size) (at_atime_sec a) (at_atime_nsec a) (at_mtime_sec a) (at_mtime_nsec a) a)).

Definition set_nlink (nlink : Z) (a : LinuxFileAttr) : LinuxFileAttr :=
  touch_ctime (attr_with (at_mode a) (at_uid a) (at_gid a) nlink (at_size a) (at_blocks a)
    (at_atime_sec a) (at_atime_nsec a) (at_mtime_sec a) (at_mtime_nsec a) a).

Definition increment_link_count (a : LinuxFileAttr) : outcome LinuxFileAttr VfsError :=
  let? nlink := ok_or (checked_add64 (at_nlink a) 1) NoSpace in Ok (set_nlink nlink a).

Definition decrement_link_count (a : LinuxFileAttr) : LinuxFileAttr :=
  set_nlink (Z.max 0 (at_nlink a - 1)) a.

Record FileTimes : Type := {
  ft_atime_sec : Z; ft_atime_nsec : Z; ft_mtime_sec : Z; ft_mtime_nsec : Z;
}.

Definition set_times (t : FileTimes) (a : LinuxFileAttr) : LinuxFileAttr :=
  touch_ctime (attr_with (at_mode a) (at_uid a) (at_gid a) (at_nlink a) (at_size a) (at_blocks a)
    (ft_atime_sec t) (ft_atime_nsec t) (ft_mtime_sec t) (ft_mtime_nsec t) a).

(** ** statfs *)
Inductive LinuxFsKind : Type := ExtLike | TmpfsLike.

Record LinuxStatfs : Type := {
  sf_kind : LinuxFsKind; sf_block_size : Z; sf_blocks : Z; sf_blocks_free : Z;
  sf_blocks_available : Z; sf_files : Z; sf_files_free : Z; sf_name_max : Z;
}.

Definition ext_like : LinuxStatfs :=
  {| sf_kind := ExtLike; sf_block_size := 4096; sf_blocks := 262144; sf_blocks_free := 196608;
     sf_blocks_available := 196608; sf_files := 65536; sf_files_free := 49152;
     sf_name_max := 255 |}.

Definition tmpfs_like : LinuxStatfs :=
  {| sf_kind := TmpfsLike; sf_block_size := 4096; sf_blocks := 65536; sf_blocks_free := 49152;
     sf_blocks_available := 49152; sf_files := 32768; sf_files_free := 24576;
     sf_name_max := 255 |}.
