(* ===== verification/VfsPath.v ===== *)
(** * mcr-vfs: paths, the tree of files and path resolution

    Guest paths, the path tree with its three maps (paths to inodes, inodes to nodes, and
    the index of the children of each directory), the contents of a node, directory entries
    and the resolver (path.rs).  A string is its bytes. *)

From S2P Require Import Prelude SysAbi Bytes VfsTypes.
From stdpp Require Import base gmap list strings sorting.
From Stdlib Require Import ZArith Lia.
From Stdlib Require Import Strings.Ascii.
Open Scope Z_scope.

(** ** Order of names and paths

    [BTreeMap]s keyed by names and paths iterate in the order of Rust's [Ord]: bytes are
    compared first to last, and so are the components of a path. *)
Section lex.
Context {A : Type} `{EqDecision A} (le : A → A → bool).

Fixpoint lex_leb (l1 l2 : list A) : bool :=
  match l1, l2 with
  | [], _ => true
  | _ :: _, [] => false
  | x :: l1, y :: l2 => if decide (x = y) then lex_leb l1 l2 else le x y
  end.
End lex.

Definition string_bytes (s : string) : list Z :=
  (λ c, Z.of_N (Ascii.N_of_ascii c)) <$> String.list_ascii_of_string s.

Definition name_leb (s1 s2 : string) : bool := lex_leb Z.leb (string_bytes s1) (string_bytes s2).

Section sort_by.
Context {A : Type} (le : A → A → bool).

(** The stable [sort_by]. *)
Fixpoint insert_by (x : A) (l : list A) : list A :=
  match l with
  | [] => [x]
  | y :: l => if le x y then x :: y :: l else y :: insert_by x l
  end.
Definition sort_by (l : list A) : list A := foldr insert_by [] l.
End sort_by.

(** ** Guest paths *)
(** The components, root first. *)
Abbreviation GuestPath := (list string) (only parsing).

Definition path_leb (p q : GuestPath) : bool := lex_leb name_leb p q.

Definition parent (p : GuestPath) : option GuestPath :=
  match p with [] => None | _ => Some (removelast p) end.
Definition file_name (p : GuestPath) : option string := last p.
Definition starts_with (p other : GuestPath) : bool := bool_decide (other `prefix_of` p).
Definition is_root (p : GuestPath) : bool := bool_decide (p = []).
Definition join_component (p : GuestPath) (component : string) : GuestPath := p ++ [component].

(** [components.join("/")] *)
Fixpoint join_slash (p : GuestPath) : string :=
  match p with
  | [] => EmptyString
  | [c] => c
  | c :: p => c +:+ "/" +:+ join_slash p
  end.

(** *** Splitting *)
Definition is_slash (c : Ascii.ascii) : bool := Ascii.eqb c "/"%char.

(** [path.split('/')] *)
Fixpoint split_slash (s : string) : list string :=
  match s with
  | EmptyString => [EmptyString]
  | String c s =>
      if is_slash c then EmptyString :: split_slash s
      else match split_slash s with
           | w :: ws => String c w :: ws
           | [] => [String c EmptyString]
           end
  end.

Definition contains_nul (s : string) : bool := bool_decide (0 ∈ string_bytes s).
Definition starts_with_slash (s : string) : bool :=
  match s with String c _ => is_slash c | EmptyString => false end.
Fixpoint ends_with_slash (s : string) : bool :=
  match s with
  | EmptyString => false
  | String c EmptyString => is_slash c
  | String _ s => ends_with_slash s
  end.

Definition split_guest_components (path : string) : outcome (list string) VfsError :=
  if contains_nul path then Err InvalidPath else
  collect (λ part, if 255 <? Z.of_nat (String.length part) then Err NameTooLong else Ok part)
    (filter (λ part, part ≠ EmptyString) (split_slash path)).

Definition parse_absolute_path (path : string) : outcome GuestPath VfsError :=
  if negb (starts_with_slash path) then Err InvalidPath else split_guest_components path.

(** ** The host side

    Files of the host root are read through these operations; the functions stand for a
    host file system that does not change while the guest runs, and for the system's random
    source. *)
Abbreviation HostPath := (list string) (only parsing).

Class HostFs : Type := {
  host_read_file : HostPath → option (list Z);
  host_open_read : HostPath → outcome unit HostErrorKind;
  host_read_at : HostPath → Z → Z → outcome (list Z) HostErrorKind;
  host_random : Z → option (list Z);
}.

(** ** Nodes *)
Record PathNode : Type := {
  pn_inode_id : Z;
  pn_kind : PathNodeKind;
  pn_attr : LinuxFileAttr;
  pn_data : list Z;
  pn_deferred_host_path : option HostPath;
}.

Definition node_new (inode_id : Z) (kind : PathNodeKind) (attr : LinuxFileAttr) : PathNode :=
  {| pn_inode_id := inode_id; pn_kind := kind; pn_attr := attr; pn_data := [];
     pn_deferred_host_path := None |}.

Definition node_directory (inode_id : Z) : PathNode :=
  node_new inode_id NDirectory (directory_attr inode_id).

Definition is_directory (n : PathNode) : bool := is_directory_kind (pn_kind n).
Definition is_file_kind (k : PathNodeKind) : bool := match k with NFile => true | _ => false end.

Definition set_attr (f : LinuxFileAttr → LinuxFileAttr) (n : PathNode) : PathNode :=
  {| pn_inode_id := pn_inode_id n; pn_kind := pn_kind n; pn_attr := f (pn_attr n);
     pn_data := pn_data n; pn_deferred_host_path := pn_deferred_host_path n |}.

Definition set_content (data : list Z) (n : PathNode) : PathNode :=
  {| pn_inode_id := pn_inode_id n; pn_kind := pn_kind n; pn_attr := pn_attr n;
     pn_data := data; pn_deferred_host_path := None |}.

(** [Vec::resize(len, 0)] panics beyond [isize::MAX] bytes. *)
Definition resize_zero (len : Z) (data : list Z) : outcome (list Z) VfsError :=
  if I64_MAX <? len then Panic
  else Ok (take (Z.to_nat len) data ++ zero_vec (len - zlen data)).

Section node.
Context `{HostFs}.

Definition materialize_deferred_content (n : PathNode) : outcome PathNode VfsError :=
  match pn_deferred_host_path n with
  | None => Ok n
  | Some path => let? data := ok_or (host_read_file path) NoEntry in Ok (set_content data n)
  end.

Definition set_len (length : Z) (n : PathNode) : outcome PathNode VfsError :=
  if negb (is_file_kind (pn_kind n)) then Err InvalidPath else
  let? n := materialize_deferred_content n in
  let? data := resize_zero length (pn_data n) in
  Ok (set_attr (set_file_size length) (set_content data n)).

Definition truncate_node (n : PathNode) : outcome PathNode VfsError := set_len 0 n.

(** The number of bytes written and the node afterwards, which keeps the content it has been
    given before an error. *)
Definition write_at (offset : Z) (data : list Z) (n : PathNode) : outcome Z VfsError * PathNode :=
  if negb (is_file_kind (pn_kind n)) then (Err InvalidPath, n) else
  match materialize_deferred_content n with
  | Err e => (Err e, n)
  | Panic => (Panic, n)
  | Ok n =>
      match checked_add64 offset (zlen data) with
      | None => (Err InvalidPath, n)
      | Some end_ =>
          match (if zlen (pn_data n) <? end_ then resize_zero end_ (pn_data n) else Ok (pn_data n)) with
          | Ok bytes =>
              let bytes := splice bytes offset data in
              (Ok (zlen data), set_attr (set_file_size (zlen bytes)) (set_content bytes n))
          | Err e => (Err e, n)
          | Panic => (Panic, n)
          end
      end
  end.
End node.

(** ** The tree *)
Record PathTree : Type := {
  tr_nodes : gmap GuestPath Z;
  tr_inodes : gmap Z PathNode;
  tr_children : gmap GuestPath (gmap string Z);
  tr_next_inode_id : Z;
}.

Definition TreeM : Type → Type := ST PathTree VfsError.

Definition set_nodes (f : gmap GuestPath Z → gmap GuestPath Z) (t : PathTree) : PathTree :=
  {| tr_nodes := f (tr_nodes t); tr_inodes := tr_inodes t; tr_children := tr_children t;
     tr_next_inode_id := tr_next_inode_id t |}.
Definition set_inodes (f : gmap Z PathNode → gmap Z PathNode) (t : PathTree) : PathTree :=
  {| tr_nodes := tr_nodes t; tr_inodes := f (tr_inodes t); tr_children := tr_children t;
     tr_next_inode_id := tr_next_inode_id t |}.
Definition set_children (f : gmap GuestPath (gmap string Z) → gmap GuestPath (gmap string Z))
    (t : PathTree) : PathTree :=
  {| tr_nodes := tr_nodes t; tr_inodes := tr_inodes t; tr_children := f (tr_children t);
     tr_next_inode_id := tr_next_inode_id t |}.
Definition set_next_inode_id (id : Z) (t : PathTree) : PathTree :=
  {| tr_nodes := tr_nodes t; tr_inodes := tr_inodes t; tr_children := tr_children t;
     tr_next_inode_id := id |}.

Definition tree_new : PathTree :=
  {| tr_nodes := {[ [] := ROOT_INODE_ID ]};
     tr_inodes := {[ ROOT_INODE_ID := node_directory ROOT_INODE_ID ]};
     tr_children := ∅;
     tr_next_inode_id := ROOT_INODE_ID + 1 |}.

Definition lookup_path (t : PathTree) (path : GuestPath) : option PathNode :=
  tr_nodes t !! path ≫= λ inode_id, tr_inodes t !! inode_id.
Definition lookup_inode (t : PathTree) (inode_id : Z) : option PathNode := tr_inodes t !! inode_id.

(** The paths of the tree in key order. *)
Definition tree_paths (t : PathTree) : list GuestPath :=
  sort_by path_leb (map_to_list (tr_nodes t)).*1.

Definition first_path_for_inode (t : PathTree) (inode_id : Z) : option GuestPath :=
  head (filter (λ p, tr_nodes t !! p = Some inode_id) (tree_paths t)).

Definition index_child (path : GuestPath) (inode_id : Z) (t : PathTree) : PathTree :=
  match parent path, file_name path with
  | Some parent, Some name =>
      set_children (λ c, <[parent := <[name := inode_id]> (default ∅ (c !! parent))]> c) t
  | _, _ => t
  end.

Definition unindex_child (path : GuestPath) (t : PathTree) : PathTree :=
  match parent path, file_name path with
  | Some parent, Some name =>
      set_children
        (λ c, match c !! parent with
              | None => c
              | Some children =>
                  let children := delete name children in
                  if bool_decide (children = ∅) then delete parent c else <[parent := children]> c
              end) t
  | _, _ => t
  end.

(** [next_inode_id += 1] *)
Definition allocate_inode_id : TreeM Z :=
  let* inode_id := gets tr_next_inode_id in
  do* modify (set_next_inode_id (wadd inode_id 1));
  ret inode_id.

Definition ensure_parent_dir (t : PathTree) (path : GuestPath) : outcome unit VfsError :=
  if is_root path then Err InvalidPath else
  let? parent := ok_or (parent path) InvalidPath in
  match lookup_path t parent with
  | Some node => if is_directory node then Ok tt else Err NotDirectory
  | None => Err NoEntry
  end.

Definition insert_path_node (path : GuestPath) (node : PathNode) : TreeM unit :=
  let* t := gets id in
  if bool_decide (is_Some (tr_nodes t !! path)) then throw AlreadyExists else
  do* modify (set_inodes (insert (pn_inode_id node) node));
  do* modify (set_nodes (insert path (pn_inode_id node)));
  modify (index_child path (pn_inode_id node)).

Definition insert_link (path : GuestPath) (inode_id : Z) : TreeM unit :=
  let* t := gets id in
  if bool_decide (is_Some (tr_nodes t !! path)) then throw AlreadyExists else
  if negb (bool_decide (is_Some (tr_inodes t !! inode_id))) then throw NoEntry else
  do* modify (set_nodes (insert path inode_id));
  modify (index_child path inode_id).

Definition node_attr_for (kind : PathNodeKind) (inode_id mode : Z) : LinuxFileAttr :=
  match kind with
  | NDirectory => directory_with_mode inode_id mode
  | NFile => regular inode_id mode 0
  | NDevice _ => character_device inode_id mode
  | NProc k => proc_attr k inode_id mode
  | NSymlink target => symlink inode_id (Z.of_nat (String.length target))
  end.

Definition insert_node (path : GuestPath) (kind : PathNodeKind) (mode : Z) : TreeM Z :=
  let* t := gets id in
  if bool_decide (is_Some (tr_nodes t !! path)) then throw AlreadyExists else
  let* inode_id := allocate_inode_id in
  do* insert_path_node path (node_new inode_id kind (node_attr_for kind inode_id mode));
  ret inode_id.

Definition replace_path_node (path : GuestPath) (node : PathNode) (t : PathTree) : PathTree :=
  let t := match tr_nodes t !! path with
           | Some existing => set_inodes (delete existing) t
           | None => t
           end in
  let t := set_nodes (insert path (pn_inode_id node)) t in
  let t := index_child path (pn_inode_id node) t in
  set_inodes (insert (pn_inode_id node) node) t.

Definition remove_path_link (path : GuestPath) : TreeM Z :=
  let* t := gets id in
  let* inode_id := lift (ok_or (tr_nodes t !! path) NoEntry) in
  do* modify (set_nodes (delete path));
  do* modify (unindex_child path);
  ret inode_id.

Definition is_empty_directory (t : PathTree) (path : GuestPath) : bool :=
  match tr_children t !! path with
  | None => true
  | Some children => bool_decide (children = ∅)
  end.

Definition paths_under_prefix (t : PathTree) (prefix : GuestPath) : list GuestPath :=
  filter (λ path, starts_with path prefix) (tree_paths t).

Definition link_count (t : PathTree) (inode_id : Z) : nat :=
  length (filter (λ p : GuestPath * Z, p.2 = inode_id) (map_to_list (tr_nodes t))).

Definition replace_prefix (path old_prefix new_prefix : GuestPath) : GuestPath :=
  new_prefix ++ drop (length old_prefix) path.

(** *** Creating files *)
Definition create_node_at (path : string) (kind : PathNodeKind) (mode : Z) : TreeM Z :=
  let* path := lift (parse_absolute_path path) in
  let* t := gets id in
  let* _ := lift (ensure_parent_dir t path) in
  insert_node path kind mode.

Definition create_dir (path : string) : TreeM Z := create_node_at path NDirectory 0x1ed.
Definition create_file (path : string) : TreeM Z := create_node_at path NFile 0x1a4.
Definition create_symlink (path target : string) : TreeM Z := create_node_at path (NSymlink target) 0x1ff.

Definition create_file_with_content (path : string) (data : list Z) (mode : Z) : TreeM Z :=
  let* path := lift (parse_absolute_path path) in
  let* t := gets id in
  let* _ := lift (ensure_parent_dir t path) in
  let* inode_id := allocate_inode_id in
  do* insert_path_node path
        {| pn_inode_id := inode_id; pn_kind := NFile; pn_attr := regular inode_id mode (zlen data);
           pn_data := data; pn_deferred_host_path := None |};
  ret inode_id.

Definition create_file_with_host_content (path : string) (host_path : HostPath) (size mode : Z) : TreeM Z :=
  let* path := lift (parse_absolute_path path) in
  let* t := gets id in
  let* _ := lift (ensure_parent_dir t path) in
  let* inode_id := allocate_inode_id in
  do* insert_path_node path
        {| pn_inode_id := inode_id; pn_kind := NFile; pn_attr := regular inode_id mode size;
           pn_data := []; pn_deferred_host_path := Some host_path |};
  ret inode_id.

Definition create_dir_if_missing (path : string) : TreeM Z :=
  let* path := lift (parse_absolute_path path) in
  let* t := gets id in
  match lookup_path t path with
  | Some node => if is_directory node then ret (pn_inode_id node) else throw NotDirectory
  | None =>
      let* _ := lift (ensure_parent_dir t path) in
      insert_node path NDirectory 0x1ed
  end.

Definition insert_dev_node (path : string) (inode_id : Z) (kind : DevNodeKind) : TreeM unit :=
  let* path := lift (parse_absolute_path path) in
  let* t := gets id in
  match lookup_path t path with
  | Some node =>
      match pn_kind node with
      | NDevice existing => if decide (existing = kind) then ret tt else throw AlreadyExists
      | _ => throw AlreadyExists
      end
  | None =>
      let* _ := lift (ensure_parent_dir t path) in
      insert_path_node path (node_new inode_id (NDevice kind) (character_device inode_id 0x1b6))
  end.

Definition insert_proc_static_node (path : string) (inode_id : Z) (kind : ProcNodeKind) (mode : Z)
    : TreeM unit :=
  let* path := lift (parse_absolute_path path) in
  let* t := gets id in
  let node := node_new inode_id (NProc kind) (proc_attr kind inode_id mode) in
  match lookup_path t path with
  | Some existing =>
      match pn_kind existing, kind with
      | NProc k, _ => if decide (k = kind) then ret tt else throw AlreadyExists
      | NDirectory, (ProcDirectory | ProcFdDirectory) => modify (replace_path_node path node)
      | _, _ => throw AlreadyExists
      end
  | None =>
      let* _ := if is_root path then ret tt else lift (ensure_parent_dir t path) in
      insert_path_node path node
  end.

Definition tree_mount_minimal_devfs : TreeM unit :=
  do* create_dir_if_missing "/dev";
  do* insert_dev_node "/dev/null" DEV_NULL_INODE_ID DevNull;
  do* insert_dev_node "/dev/zero" DEV_ZERO_INODE_ID DevZero;
  insert_dev_node "/dev/urandom" DEV_URANDOM_INODE_ID DevUrandom.

Definition tree_mount_minimal_procfs : TreeM unit :=
  do* insert_proc_static_node "/proc" PROC_INODE_ID ProcDirectory 0x16d;
  do* insert_proc_static_node "/proc/self" PROC_SELF_INODE_ID ProcDirectory 0x16d;
  do* insert_proc_static_node "/proc/self/exe" PROC_SELF_EXE_INODE_ID ProcExe 0x1ff;
  do* insert_proc_static_node "/proc/self/cmdline" PROC_SELF_CMDLINE_INODE_ID ProcCmdline 0x124;
  do* insert_proc_static_node "/proc/self/environ" PROC_SELF_ENVIRON_INODE_ID ProcEnviron 0x100;
  insert_proc_static_node "/proc/self/fd" PROC_SELF_FD_INODE_ID ProcFdDirectory 0x16d.

(** *** Listing *)
Record DirectoryChild : Type := { dc_name : string; dc_inode : Z; dc_file_type : Z }.

(** The children of a directory in the order of their names. *)
Definition children_iter (c : gmap string Z) : list (string * Z) :=
  sort_by (λ p q, name_leb p.1 q.1) (map_to_list c).

Definition static_children (t : PathTree) (path : GuestPath) : outcome (list DirectoryChild) VfsError :=
  let? node := ok_or (lookup_path t path) NoEntry in
  if negb (is_directory node) then Err NotDirectory else
  collect (λ p : string * Z,
             let? child := ok_or (tr_inodes t !! p.2) InvalidPath in
             Ok {| dc_name := p.1; dc_inode := pn_inode_id child;
                   dc_file_type := dirent_type (pn_attr child) |})
    (children_iter (default ∅ (tr_children t !! path))).

Record DirectoryEntry : Type := {
  de_inode : Z; de_offset : Z; de_file_type : Z; de_name : string;
}.

Definition align_up8 (value : Z) : Z := Z.land (value + 8 - 1) (Z.lnot (8 - 1)).

Definition record_len (e : DirectoryEntry) : Z :=
  align_up8 (19 + Z.of_nat (String.length (de_name e)) + 1).

Definition encode_linux_dirent64 (e : DirectoryEntry) (buffer : list Z) : outcome (list Z) VfsError :=
  let len := record_len e in
  if 65535 <? len then Err InvalidPath else
  Ok (buffer ++ le_bytes 8 (de_inode e) ++ le_bytes 8 (as_u64 (de_offset e)) ++ le_bytes 2 len ++
      [de_file_type e] ++ string_bytes (de_name e) ++ [0] ++
      zero_vec (len - 19 - Z.of_nat (String.length (de_name e)) - 1)).

(** ** Resolution *)
Record Rootfs : Type := { rf_host_root : HostPath; rf_root : GuestPath; rf_cwd : GuestPath }.

Definition rootfs_new (host_root : HostPath) : Rootfs :=
  {| rf_host_root := host_root; rf_root := []; rf_cwd := [] |}.

Definition with_guest_root (host_root : HostPath) (root : GuestPath) : Rootfs :=
  {| rf_host_root := host_root; rf_root := root; rf_cwd := root |}.

Definition set_cwd (cwd : GuestPath) (r : Rootfs) : outcome Rootfs VfsError :=
  if starts_with cwd (rf_root r)
  then Ok {| rf_host_root := rf_host_root r; rf_root := rf_root r; rf_cwd := cwd |}
  else Err NoEntry.

Definition visible_path (r : Rootfs) (path : GuestPath) : outcome string VfsError :=
  if negb (starts_with path (rf_root r)) then Err NoEntry
  else Ok ("/" +:+ join_slash (drop (length (rf_root r)) path)).

Record SymlinkPlaceholder : Type := { sp_parent : GuestPath; sp_target : string }.

Definition append_component (target component : string) : string :=
  (if ends_with_slash target then target else target +:+ "/") +:+ component.

(** The ancestors of [path] of at most [n] components, longest first. *)
Fixpoint lookup_symlink_from (t : PathTree) (path : GuestPath) (n : nat) : option SymlinkPlaceholder :=
  match n with
  | O => None
  | S m =>
      let ancestor := take n path in
      match lookup_path t ancestor with
      | None => lookup_symlink_from t path m
      | Some node =>
          match pn_kind node with
          | NDirectory | NProc ProcDirectory | NProc ProcFdDirectory => lookup_symlink_from t path m
          | NFile | NDevice _ | NProc _ => None
          | NSymlink target =>
              Some {| sp_parent := default [] (parent ancestor);
                      sp_target := foldl append_component target (drop n path) |}
          end
      end
  end.

Definition lookup_symlink_placeholder (t : PathTree) (path : GuestPath) : option SymlinkPlaceholder :=
  lookup_symlink_from t path (length path).

Section resolver.
Context (rootfs : Rootfs) (tree : PathTree) (follow_final_symlink : bool).

Definition enforce_jail (path : GuestPath) : outcome unit VfsError :=
  guard_ok (starts_with path (rf_root rootfs)) NoEntry.

Definition allow_missing_leaf (current : GuestPath) (pending : list string) : bool :=
  starts_with current (rf_root rootfs) && bool_decide (pending = []).

(** The loop of [walk]: the head of [pending] is the next component, and [budget] symbolic
    links may still be followed. *)
Fixpoint walk (budget : nat) : GuestPath → list string → outcome GuestPath VfsError :=
  fix step (current : GuestPath) (pending : list string) {struct pending} :=
    match pending with
    | [] => Ok current
    | component :: pending =>
        if bool_decide (component = EmptyString) || bool_decide (component = "."%string) then
          let? _ := enforce_jail current in step current pending
        else if bool_decide (component = ".."%string) then
          let current := if (length (rf_root rootfs) <? length current)%nat
                         then removelast current else current in
          let? _ := enforce_jail current in step current pending
        else
          let next_path := join_component current component in
          let? _ := enforce_jail next_path in
          match lookup_symlink_placeholder tree next_path with
          | Some link =>
              if negb follow_final_symlink && bool_decide (pending = []) then step next_path pending
              else match budget with
                   | O => Err Loop
                   | S budget =>
                       let current := if starts_with_slash (sp_target link) then rf_root rootfs
                                      else sp_parent link in
                       let? parts := split_guest_components (sp_target link) in
                       let? _ := enforce_jail current in
                       walk budget current (parts ++ pending)
                   end
          | None =>
              match lookup_path tree next_path with
              | Some node =>
                  if negb (is_directory_kind (pn_kind node)) && negb (bool_decide (pending = []))
                  then Err NotDirectory else step next_path pending
              | None =>
                  if allow_missing_leaf next_path pending then Ok next_path else Err NoEntry
              end
          end
    end.

Definition resolve (path : string) : outcome GuestPath VfsError :=
  if bool_decide (path = EmptyString) || contains_nul path then Err InvalidPath else
  let base := if starts_with_slash path then rf_root rootfs else rf_cwd rootfs in
  let? components := split_guest_components path in
  walk SYMLINK_LIMIT base components.
End resolver.

Record ResolvedPath : Type := { rp_guest_path : GuestPath; rp_inode : option Z }.

Definition resolve_path_with_options (rootfs : Rootfs) (path : string) (tree : PathTree)
    (follow_final_symlink : bool) : outcome ResolvedPath VfsError :=
  let? resolved := resolve rootfs tree follow_final_symlink path in
  Ok {| rp_guest_path := resolved; rp_inode := pn_inode_id <$> lookup_path tree resolved |}.

Definition resolve_path (rootfs : Rootfs) (path : string) (tree : PathTree)
    : outcome ResolvedPath VfsError := resolve_path_with_options rootfs path tree true.

(** ** /proc/self *)
Record ProcSelfData : Type := { ps_executable_path : list Z; ps_argv : list (list Z); ps_envp : list (list Z) }.

Definition nul_joined_entries (entries : list (list Z)) : list Z :=
  foldl (λ bytes entry, bytes ++ entry ++ [0]) [] entries.

Definition cmdline_bytes (p : ProcSelfData) : list Z := nul_joined_entries (ps_argv p).
Definition environ_bytes (p : ProcSelfData) : list Z := nul_joined_entries (ps_envp p).
