(* ===== verification/VfsFd.v ===== *)
(** * mcr-vfs: descriptor tables

    File references, open file descriptions, pipes and event counters, and the descriptor
    table with its reads, writes, seeks and directory listings (fd.rs, node.rs,
    io_helpers.rs).

    What the code shares through [Arc]s lives in a heap: descriptors made by [dup] or by the
    clone of a table at fork have the same description, both ends of a pipe the same pipe.
    A pipe here is the in-memory one, which [PipeInner::new] uses when the host gives no
    pipe pair. *)

From S2P Require Import Prelude SysAbi Bytes VfsTypes VfsPath.
From stdpp Require Import base gmap list strings sorting pretty.
From Stdlib Require Import ZArith Lia.
Open Scope Z_scope.

(** ** Inodes and file references *)
Inductive InodeBackend : Type :=
| HostPathBackend (path : HostPath)
| ProcVirtual (name : string)
| DevVirtual (kind : DevNodeKind)
| PipeBackend (id pipe : Z)
| SocketBackend (id : Z)
| EpollBackend (id : Z)
| EventfdBackend (id eventfd : Z).

Record Inode : Type := { in_id : Z; in_backend : InodeBackend }.

Record FileRef : Type := { fr_inode : Inode; fr_kind : FileKind }.

Definition file_stdio (kind : StdioKind) : FileRef :=
  {| fr_inode := {| in_id := match kind with Stdin => 0 | Stdout => 1 | Stderr => 2 end;
                    in_backend := DevVirtual (dev_of_stdio kind) |};
     fr_kind := KStdio kind |}.

(** ** Pipes (node.rs) *)
Record PipeState : Type := {
  pi_buffer : list Z; pi_capacity : Z; pi_readers : Z; pi_writers : Z;
}.

Definition pipe_state_new (capacity : Z) : PipeState :=
  {| pi_buffer := []; pi_capacity := capacity; pi_readers := 0; pi_writers := 0 |}.

Definition available (p : PipeState) : Z := zlen (pi_buffer p).

Definition set_pipe_buffer (buffer : list Z) (p : PipeState) : PipeState :=
  {| pi_buffer := buffer; pi_capacity := pi_capacity p; pi_readers := pi_readers p;
     pi_writers := pi_writers p |}.

(** The bytes read from the front. *)
Definition pipe_state_read (len : Z) (p : PipeState) : list Z * PipeState :=
  let count := Z.to_nat (Z.min (available p) len) in
  (take count (pi_buffer p), set_pipe_buffer (drop count (pi_buffer p)) p).

Definition pipe_state_write (buffer : list Z) (p : PipeState) : outcome Z VfsError * PipeState :=
  let free := Z.max 0 (pi_capacity p - available p) in
  if (free =? 0) && negb (bool_decide (buffer = [])) then (Err WouldBlock, p) else
  let count := Z.min free (zlen buffer) in
  (Ok count, set_pipe_buffer (pi_buffer p ++ take (Z.to_nat count) buffer) p).

Definition set_capacity (capacity : Z) (p : PipeState) : outcome Z VfsError * PipeState :=
  let capacity := Z.max capacity MIN_PIPE_CAPACITY in
  if capacity <? available p then (Err Busy, p) else
  (Ok capacity, {| pi_buffer := pi_buffer p; pi_capacity := capacity; pi_readers := pi_readers p;
                   pi_writers := pi_writers p |}).

Definition register_endpoint (kind : FileKind) (p : PipeState) : PipeState :=
  match kind with
  | KPipeRead => {| pi_buffer := pi_buffer p; pi_capacity := pi_capacity p;
                    pi_readers := pi_readers p + 1; pi_writers := pi_writers p |}
  | KPipeWrite => {| pi_buffer := pi_buffer p; pi_capacity := pi_capacity p;
                     pi_readers := pi_readers p; pi_writers := pi_writers p + 1 |}
  | _ => p
  end.

Definition unregister_endpoint (kind : FileKind) (p : PipeState) : PipeState :=
  match kind with
  | KPipeRead => {| pi_buffer := pi_buffer p; pi_capacity := pi_capacity p;
                    pi_readers := Z.max 0 (pi_readers p - 1); pi_writers := pi_writers p |}
  | KPipeWrite => {| pi_buffer := pi_buffer p; pi_capacity := pi_capacity p;
                     pi_readers := pi_readers p; pi_writers := Z.max 0 (pi_writers p - 1) |}
  | _ => p
  end.

(** ** Event counters (node.rs) *)
Definition MAX_COUNTER : Z := U64_MAX - 1.

Definition eventfd_readable (counter : Z) : bool := 0 <? counter.
Definition eventfd_writable (counter : Z) : bool := counter <? MAX_COUNTER.

Definition eventfd_state_read (len counter : Z) : outcome (list Z) VfsError * Z :=
  if len <? 8 then (Err InvalidPath, counter)
  else if counter =? 0 then (Err WouldBlock, counter)
  else (Ok (le_bytes 8 counter), 0).

Definition eventfd_state_write (buffer : list Z) (counter : Z) : outcome Z VfsError * Z :=
  if zlen buffer <? 8 then (Err InvalidPath, counter) else
  let value := le_value (take 8 buffer) in
  if value =? U64_MAX then (Err InvalidPath, counter) else
  match checked_add64 counter value with
  | None => (Err WouldBlock, counter)
  | Some next => if MAX_COUNTER <? next then (Err WouldBlock, counter) else (Ok 8, next)
  end.

(** ** The table and the heap *)
Record FdDescription : Type := { fd_offset : Z; fd_flags : OpenFlags; fd_dir_cursor : Z }.

Record FdEntry : Type := { en_file : FileRef; en_description : Z; en_path : option GuestPath }.

Record StdioCaptureState : Type := { sc_stdout : list Z; sc_stderr : list Z }.

Record FdHeap : Type := {
  h_descriptions : gmap Z FdDescription;
  h_pipes : gmap Z PipeState;
  h_eventfds : gmap Z Z;
  h_stdio : gmap Z StdioCaptureState;
  h_next : Z;
}.

Record FdTable : Type := {
  ft_entries : gmap Z FdEntry;
  ft_cloexec : gset Z;
  ft_next_pipe_id : Z;
  ft_next_eventfd_id : Z;
  ft_stdio : Z;
}.

Record FdWorld : Type := { fw_table : FdTable; fw_heap : FdHeap }.

Definition FdM : Type → Type := ST FdWorld VfsError.

Definition heap_empty : FdHeap :=
  {| h_descriptions := ∅; h_pipes := ∅; h_eventfds := ∅; h_stdio := ∅; h_next := 0 |}.

Definition set_descriptions (f : gmap Z FdDescription → gmap Z FdDescription) (h : FdHeap) : FdHeap :=
  {| h_descriptions := f (h_descriptions h); h_pipes := h_pipes h; h_eventfds := h_eventfds h;
     h_stdio := h_stdio h; h_next := h_next h |}.
Definition set_pipes (f : gmap Z PipeState → gmap Z PipeState) (h : FdHeap) : FdHeap :=
  {| h_descriptions := h_descriptions h; h_pipes := f (h_pipes h); h_eventfds := h_eventfds h;
     h_stdio := h_stdio h; h_next := h_next h |}.
Definition set_eventfds (f : gmap Z Z → gmap Z Z) (h : FdHeap) : FdHeap :=
  {| h_descriptions := h_descriptions h; h_pipes := h_pipes h; h_eventfds := f (h_eventfds h);
     h_stdio := h_stdio h; h_next := h_next h |}.
Definition set_stdio (f : gmap Z StdioCaptureState → gmap Z StdioCaptureState) (h : FdHeap) : FdHeap :=
  {| h_descriptions := h_descriptions h; h_pipes := h_pipes h; h_eventfds := h_eventfds h;
     h_stdio := f (h_stdio h); h_next := h_next h |}.
Definition set_next (next : Z) (h : FdHeap) : FdHeap :=
  {| h_descriptions := h_descriptions h; h_pipes := h_pipes h; h_eventfds := h_eventfds h;
     h_stdio := h_stdio h; h_next := next |}.

Definition set_entries (f : gmap Z FdEntry → gmap Z FdEntry) (t : FdTable) : FdTable :=
  {| ft_entries := f (ft_entries t); ft_cloexec := ft_cloexec t;
     ft_next_pipe_id := ft_next_pipe_id t; ft_next_eventfd_id := ft_next_eventfd_id t;
     ft_stdio := ft_stdio t |}.
Definition set_cloexec_set (f : gset Z → gset Z) (t : FdTable) : FdTable :=
  {| ft_entries := ft_entries t; ft_cloexec := f (ft_cloexec t);
     ft_next_pipe_id := ft_next_pipe_id t; ft_next_eventfd_id := ft_next_eventfd_id t;
     ft_stdio := ft_stdio t |}.
Definition set_id_counters (pipe eventfd : Z) (t : FdTable) : FdTable :=
  {| ft_entries := ft_entries t; ft_cloexec := ft_cloexec t; ft_next_pipe_id := pipe;
     ft_next_eventfd_id := eventfd; ft_stdio := ft_stdio t |}.

Definition on_table (f : FdTable → FdTable) (w : FdWorld) : FdWorld :=
  {| fw_table := f (fw_table w); fw_heap := fw_heap w |}.
Definition on_heap (f : FdHeap → FdHeap) (w : FdWorld) : FdWorld :=
  {| fw_table := fw_table w; fw_heap := f (fw_heap w) |}.

(** [Arc::new]: a fresh address. *)
Definition fresh : FdM Z :=
  let* w := gets id in
  do* modify (on_heap (set_next (h_next (fw_heap w) + 1)));
  ret (h_next (fw_heap w)).

(** *** Pipe ends of a file *)
Definition pipe_node (file : FileRef) : outcome Z VfsError :=
  match in_backend (fr_inode file) with PipeBackend _ pipe => Ok pipe | _ => Err BadFd end.

Definition eventfd_node (file : FileRef) : outcome Z VfsError :=
  match in_backend (fr_inode file) with EventfdBackend _ eventfd => Ok eventfd | _ => Err BadFd end.

Definition register_fd_endpoint (file : FileRef) (h : FdHeap) : FdHeap :=
  match pipe_node file with
  | Ok pipe => set_pipes (alter (register_endpoint (fr_kind file)) pipe) h
  | _ => h
  end.

Definition unregister_fd_endpoint (file : FileRef) (h : FdHeap) : FdHeap :=
  match pipe_node file with
  | Ok pipe => set_pipes (alter (unregister_endpoint (fr_kind file)) pipe) h
  | _ => h
  end.

(** The clone of a table at fork, and its drop. *)
Definition table_clone (w : FdWorld) : FdTable * FdHeap :=
  (fw_table w,
   foldl (λ h e, register_fd_endpoint (en_file e) h) (fw_heap w) (bt_values (ft_entries (fw_table w)))).

Definition table_drop (w : FdWorld) : FdHeap :=
  foldl (λ h e, unregister_fd_endpoint (en_file e) h) (fw_heap w) (bt_values (ft_entries (fw_table w))).

(** ** Inserting *)
(** The loop of [next_fd_from]; the table has an end, so some descriptor after its last one
    is free. *)
Fixpoint next_fd_loop (fuel : nat) (t : FdTable) (fd : Z) : outcome Z VfsError :=
  match fuel with
  | O => Panic
  | S fuel =>
      if negb (bool_decide (is_Some (ft_entries t !! fd))) then Ok fd
      else if fd + 1 <=? I32_MAX then next_fd_loop fuel t (fd + 1) else Err BadFd
  end.

Definition next_fd_from (t : FdTable) (min_fd : Z) : outcome Z VfsError :=
  if min_fd <? 0 then Err BadFd else next_fd_loop (S (size (ft_entries t))) t min_fd.

Definition set_cloexec (fd : Z) (cloexec : bool) : FdM unit :=
  let* w := gets id in
  if negb (bool_decide (is_Some (ft_entries (fw_table w) !! fd))) then throw BadFd else
  modify (on_table (set_cloexec_set (λ s, if cloexec then {[fd]} ∪ s else s ∖ {[fd]}))).

Definition get (fd : Z) : FdM FdEntry :=
  let* w := gets id in lift (ok_or (ft_entries (fw_table w) !! fd) BadFd).

Definition insert_entry (fd : Z) (file : FileRef) (cloexec : bool) (flags : OpenFlags)
    (path : option GuestPath) : FdM Z :=
  let* w := gets id in
  if fd <? 0 then throw BadFd else
  if bool_decide (is_Some (ft_entries (fw_table w) !! fd)) then throw BadFd else
  do* modify (on_heap (register_fd_endpoint file));
  let* description := fresh in
  do* modify (on_heap (set_descriptions (insert description
        {| fd_offset := 0; fd_flags := flags; fd_dir_cursor := 0 |})));
  do* modify (on_table (set_entries (insert fd
        {| en_file := file; en_description := description; en_path := path |})));
  do* set_cloexec fd cloexec;
  ret fd.

Definition insert_exact (fd : Z) (file : FileRef) (cloexec : bool) : FdM unit :=
  do* insert_entry fd file cloexec (flags_new O_RDWR) None; ret tt.

Definition insert_at_or_above (min_fd : Z) (file : FileRef) (cloexec : bool) : FdM Z :=
  let* w := gets id in
  let* fd := lift (next_fd_from (fw_table w) min_fd) in
  do* insert_exact fd file cloexec;
  ret fd.

Definition insert_file (file : FileRef) (cloexec : bool) : FdM Z :=
  insert_at_or_above FIRST_ALLOC_FD file cloexec.

Definition insert_open (file : FileRef) (flags : OpenFlags) (path : option GuestPath) : FdM Z :=
  let* w := gets id in
  let* fd := lift (next_fd_from (fw_table w) FIRST_ALLOC_FD) in
  insert_entry fd file (cloexec_flag flags) flags path.

Definition table_new : FdM unit :=
  let* stdio := fresh in
  do* modify (on_heap (set_stdio (insert stdio {| sc_stdout := []; sc_stderr := [] |})));
  modify (on_table (λ _, {| ft_entries := ∅; ft_cloexec := ∅; ft_next_pipe_id := 1;
                            ft_next_eventfd_id := 1; ft_stdio := stdio |})).

Definition with_stdio : FdM unit :=
  do* table_new;
  do* insert_exact 0 (file_stdio Stdin) false;
  do* insert_exact 1 (file_stdio Stdout) false;
  insert_exact 2 (file_stdio Stderr) false.

Definition close (fd : Z) : FdM FileRef :=
  let* w := gets id in
  let* entry := lift (ok_or (ft_entries (fw_table w) !! fd) BadFd) in
  do* modify (on_table (set_entries (delete fd)));
  do* modify (on_table (set_cloexec_set (λ s, s ∖ {[fd]})));
  do* modify (on_heap (unregister_fd_endpoint (en_file entry)));
  ret (en_file entry).

(** *** Pipes, sockets, epoll and event descriptors *)
Definition allocate_pipe_id : FdM Z :=
  let* w := gets id in
  let pipe := ft_next_pipe_id (fw_table w) in
  let* next := lift (ok_or (checked_add64 pipe 1) BadFd) in
  do* modify (on_table (λ t, set_id_counters next (ft_next_eventfd_id t) t));
  ret pipe.

Definition allocate_eventfd_id : FdM Z :=
  let* w := gets id in
  let eventfd := ft_next_eventfd_id (fw_table w) in
  let* next := lift (ok_or (checked_add64 eventfd 1) BadFd) in
  do* modify (on_table (λ t, set_id_counters (ft_next_pipe_id t) next t));
  ret eventfd.

Definition checked_add_i32 (a b : Z) : option Z := if a + b <=? I32_MAX then Some (a + b) else None.

Definition pipe (flags : OpenFlags) : FdM (Z * Z) :=
  if negb (without_bits (of_raw flags) (Z.lor O_CLOEXEC O_NONBLOCK) =? 0) then throw InvalidPath else
  let* w := gets id in
  let* read_fd := lift (next_fd_from (fw_table w) FIRST_ALLOC_FD) in
  let* above := lift (ok_or (checked_add_i32 read_fd 1) BadFd) in
  let* write_fd := lift (next_fd_from (fw_table w) above) in
  let* pipe_id := allocate_pipe_id in
  let* inode_id := lift (ok_or (checked_add64 FIRST_PIPE_INODE_ID pipe_id) BadFd) in
  let* pipe := fresh in
  do* modify (on_heap (set_pipes (insert pipe (pipe_state_new DEFAULT_PIPE_CAPACITY))));
  let inode := {| in_id := inode_id; in_backend := PipeBackend pipe_id pipe |} in
  let nonblock := Z.land (of_raw flags) O_NONBLOCK in
  do* insert_entry read_fd {| fr_inode := inode; fr_kind := KPipeRead |} (cloexec_flag flags)
        (flags_new (Z.lor O_RDONLY nonblock)) None;
  do* on_err (insert_entry write_fd {| fr_inode := inode; fr_kind := KPipeWrite |}
                (cloexec_flag flags) (flags_new (Z.lor O_WRONLY nonblock)) None)
             (close read_fd);
  ret (read_fd, write_fd).

Definition socket_inode_id (socket_id : Z) : outcome Z VfsError :=
  ok_or (checked_add64 FIRST_SOCKET_INODE_ID socket_id) BadFd.
Definition epoll_inode_id (epoll_id : Z) : outcome Z VfsError :=
  ok_or (checked_add64 FIRST_EPOLL_INODE_ID epoll_id) BadFd.
Definition eventfd_inode_id (eventfd_id : Z) : outcome Z VfsError :=
  ok_or (checked_add64 FIRST_EVENTFD_INODE_ID eventfd_id) BadFd.

Definition insert_socket (socket_id : Z) (flags : OpenFlags) : FdM Z :=
  let mode := access_mode flags in
  if negb (without_bits (of_raw flags) (Z.lor (Z.lor O_ACCMODE O_CLOEXEC) O_NONBLOCK) =? 0) ||
     (negb (mode =? 0) && negb (mode =? O_RDWR)) then throw InvalidPath else
  let* inode_id := lift (socket_inode_id socket_id) in
  let* w := gets id in
  let* fd := lift (next_fd_from (fw_table w) FIRST_ALLOC_FD) in
  insert_entry fd {| fr_inode := {| in_id := inode_id; in_backend := SocketBackend socket_id |};
                     fr_kind := KSocket |}
    (cloexec_flag flags) (flags_new (Z.lor O_RDWR (Z.land (of_raw flags) O_NONBLOCK))) None.

Definition insert_epoll (epoll_id : Z) (flags : OpenFlags) : FdM Z :=
  if negb (without_bits (of_raw flags) (Z.lor O_ACCMODE O_CLOEXEC) =? 0) ||
     negb (access_mode flags =? 0) then throw InvalidPath else
  let* inode_id := lift (epoll_inode_id epoll_id) in
  let* w := gets id in
  let* fd := lift (next_fd_from (fw_table w) FIRST_ALLOC_FD) in
  insert_entry fd {| fr_inode := {| in_id := inode_id; in_backend := EpollBackend epoll_id |};
                     fr_kind := KEpoll |}
    (cloexec_flag flags) (flags_new (Z.lor O_RDONLY (Z.land (of_raw flags) O_CLOEXEC))) None.

Definition eventfd (initial : Z) (flags : OpenFlags) : FdM Z :=
  let mode := access_mode flags in
  if negb (without_bits (of_raw flags) (Z.lor (Z.lor O_ACCMODE O_CLOEXEC) O_NONBLOCK) =? 0) ||
     (negb (mode =? 0) && negb (mode =? O_RDWR)) then throw InvalidPath else
  let* eventfd_id := allocate_eventfd_id in
  let* inode_id := lift (eventfd_inode_id eventfd_id) in
  let* counter := fresh in
  do* modify (on_heap (set_eventfds (insert counter initial)));
  let* w := gets id in
  let* fd := lift (next_fd_from (fw_table w) FIRST_ALLOC_FD) in
  insert_entry fd {| fr_inode := {| in_id := inode_id; in_backend := EventfdBackend eventfd_id counter |};
                     fr_kind := KEventfd |}
    (cloexec_flag flags) (flags_new (Z.lor O_RDWR (Z.land (of_raw flags) O_NONBLOCK))) None.

(** *** Duplicating and closing *)
Definition dup (oldfd min_fd : Z) (cloexec : bool) : FdM Z :=
  if min_fd <? 0 then throw BadFd else
  let* entry := get oldfd in
  let* w := gets id in
  let* newfd := lift (next_fd_from (fw_table w) min_fd) in
  do* modify (on_heap (register_fd_endpoint (en_file entry)));
  do* modify (on_table (set_entries (insert newfd entry)));
  do* set_cloexec newfd cloexec;
  ret newfd.

(** [let _ = self.close(newfd)] *)
Definition close_ignoring (fd : Z) : FdM unit :=
  λ w, match close fd w with (Panic, w) => (Panic, w) | (_, w) => (Ok tt, w) end.

Definition dup2 (oldfd newfd : Z) (cloexec : bool) : FdM Z :=
  if newfd <? 0 then throw BadFd else
  let* entry := get oldfd in
  if oldfd =? newfd then ret newfd else
  do* close_ignoring newfd;
  do* modify (on_heap (register_fd_endpoint (en_file entry)));
  do* modify (on_table (set_entries (insert newfd entry)));
  do* set_cloexec newfd cloexec;
  ret newfd.

Definition fds_in_range (t : FdTable) (first last : Z) : list Z :=
  filter (λ fd, first ≤ fd ∧ fd ≤ last) (bt_keys (ft_entries t)).

Definition socket_id_for_entry (e : FdEntry) : option Z :=
  match fr_kind (en_file e), in_backend (fr_inode (en_file e)) with
  | KSocket, SocketBackend id => Some id
  | _, _ => None
  end.

Definition epoll_id_for_entry (e : FdEntry) : option Z :=
  match fr_kind (en_file e), in_backend (fr_inode (en_file e)) with
  | KEpoll, EpollBackend id => Some id
  | _, _ => None
  end.

Definition socket_ids (t : FdTable) : list Z := omap socket_id_for_entry (bt_values (ft_entries t)).
Definition epoll_ids (t : FdTable) : list Z := omap epoll_id_for_entry (bt_values (ft_entries t)).
Definition socket_fd_count (t : FdTable) (socket_id : Z) : nat :=
  length (filter (λ id, id = socket_id) (socket_ids t)).
Definition epoll_fd_count (t : FdTable) (epoll_id : Z) : nat :=
  length (filter (λ id, id = epoll_id) (epoll_ids t)).

Definition socket_id_for_fd (fd : Z) : FdM Z :=
  let* entry := get fd in
  match in_backend (fr_inode (en_file entry)) with
  | SocketBackend id => ret id
  | _ => throw NotSocket
  end.

Definition epoll_id_for_fd (fd : Z) : FdM Z :=
  let* entry := get fd in
  match in_backend (fr_inode (en_file entry)) with
  | EpollBackend id => ret id
  | _ => throw BadFd
  end.

Record ClosedFdIds : Type := { cl_socket_ids : list Z; cl_epoll_ids : list Z }.

Definition add_entry (e : FdEntry) (c : ClosedFdIds) : ClosedFdIds :=
  {| cl_socket_ids := cl_socket_ids c ++ option_list (socket_id_for_entry e);
     cl_epoll_ids := cl_epoll_ids c ++ option_list (epoll_id_for_entry e) |}.

(** The descriptors come out of a [HashSet], in an order the code does not fix. *)
Definition close_on_exec (w : FdWorld) : ClosedFdIds * FdWorld :=
  foldl (λ '(closed, w) fd,
           match ft_entries (fw_table w) !! fd with
           | None => (closed, w)
           | Some entry =>
               (add_entry entry closed,
                on_heap (unregister_fd_endpoint (en_file entry))
                  (on_table (set_entries (delete fd)) w))
           end)
    ({| cl_socket_ids := []; cl_epoll_ids := [] |}, on_table (set_cloexec_set (λ _, ∅)) w)
    (elements (ft_cloexec (fw_table w))).

(** ** Flags *)
Definition cloexec (fd : Z) : FdM bool :=
  do* get fd; let* w := gets id in ret (bool_decide (fd ∈ ft_cloexec (fw_table w))).

Definition set_fd_flags (fd flags : Z) : FdM unit := set_cloexec fd (has_bits flags FD_CLOEXEC).

Definition fd_flags_of (fd : Z) : FdM Z :=
  let* b := cloexec fd in ret (if b then FD_CLOEXEC else 0).

(** [entry.description()]: the description an entry refers to. *)
Definition description (entry : FdEntry) : FdM FdDescription :=
  let* w := gets id in lift (expect (h_descriptions (fw_heap w) !! en_description entry)).

Definition put_description (entry : FdEntry) (d : FdDescription) : FdM unit :=
  modify (on_heap (set_descriptions (insert (en_description entry) d))).

Definition set_offset (offset : Z) (d : FdDescription) : FdDescription :=
  {| fd_offset := offset; fd_flags := fd_flags d; fd_dir_cursor := fd_dir_cursor d |}.

Definition status_flags (fd : Z) : FdM Z :=
  let* entry := get fd in let* d := description entry in ret (of_raw (fd_flags d)).

Definition set_status_flags (fd flags : Z) : FdM unit :=
  let* entry := get fd in
  let* d := description entry in
  put_description entry {| fd_offset := fd_offset d; fd_flags := with_status_flags (fd_flags d) flags;
                           fd_dir_cursor := fd_dir_cursor d |}.

Definition pipe_state (file : FileRef) : FdM PipeState :=
  let* pipe := lift (pipe_node file) in
  let* w := gets id in
  lift (expect (h_pipes (fw_heap w) !! pipe)).

Definition put_pipe (file : FileRef) (p : PipeState) : FdM unit :=
  let* pipe := lift (pipe_node file) in modify (on_heap (set_pipes (insert pipe p))).

Definition pipe_capacity (fd : Z) : FdM Z :=
  let* entry := get fd in let* p := pipe_state (en_file entry) in ret (pi_capacity p).

Definition set_pipe_capacity (fd capacity : Z) : FdM Z :=
  let* entry := get fd in
  let* p := pipe_state (en_file entry) in
  let (r, p) := set_capacity capacity p in
  do* put_pipe (en_file entry) p;
  lift r.

(** *** Captured output *)
Definition stdio_write (kind : StdioKind) (buffer : list Z) : FdM Z :=
  let* w := gets id in
  let stdio := ft_stdio (fw_table w) in
  match kind with
  | Stdin => throw BadFd
  | Stdout =>
      do* modify (on_heap (set_stdio (alter (λ c,
            {| sc_stdout := sc_stdout c ++ buffer; sc_stderr := sc_stderr c |}) stdio)));
      ret (zlen buffer)
  | Stderr =>
      do* modify (on_heap (set_stdio (alter (λ c,
            {| sc_stdout := sc_stdout c; sc_stderr := sc_stderr c ++ buffer |}) stdio)));
      ret (zlen buffer)
  end.

Definition stdio_snapshot (w : FdWorld) (kind : StdioKind) : list Z :=
  match h_stdio (fw_heap w) !! ft_stdio (fw_table w), kind with
  | Some c, Stdout => sc_stdout c
  | Some c, Stderr => sc_stderr c
  | _, _ => []
  end.

Definition stdio_take (kind : StdioKind) (w : FdWorld) : list Z * FdWorld :=
  (stdio_snapshot w kind,
   on_heap (set_stdio (alter (λ c, match kind with
                                   | Stdin => c
                                   | Stdout => {| sc_stdout := []; sc_stderr := sc_stderr c |}
                                   | Stderr => {| sc_stdout := sc_stdout c; sc_stderr := [] |}
                                   end) (ft_stdio (fw_table w)))) w).

(** ** Reading and writing *)
(** The bytes of [data] from an offset, at most [len]. *)
Definition read_memory_at (data : list Z) (offset len : Z) : list Z :=
  take (Z.to_nat len) (drop (Z.to_nat offset) data).

Section io.
Context `{HostFs}.

Definition read_host_file_at (path : HostPath) (offset len : Z) : outcome (list Z) VfsError :=
  if len =? 0 then Ok [] else
  let? bytes := map_err vfs_error_from_host (host_read_at path offset len) in
  Ok (take (Z.to_nat len) bytes).

Definition open_host_read_handle (path : HostPath) : outcome unit VfsError :=
  map_err vfs_error_from_host (host_open_read path).

Definition read_host_path_at (path : HostPath) (offset len : Z) : outcome (list Z) VfsError :=
  let? _ := open_host_read_handle path in read_host_file_at path offset len.

(** [have_handle]: the caller passes an open handle of the deferred file. *)
Definition read_regular_node_at (node : PathNode) (proc_self : ProcSelfData) (offset len : Z)
    (have_handle : bool) : outcome (list Z) VfsError :=
  match pn_kind node with
  | NProc ProcCmdline => Ok (read_memory_at (cmdline_bytes proc_self) offset len)
  | NProc ProcEnviron => Ok (read_memory_at (environ_bytes proc_self) offset len)
  | _ =>
      match pn_deferred_host_path node with
      | Some path => if have_handle then read_host_file_at path offset len
                     else read_host_path_at path offset len
      | None => Ok (read_memory_at (pn_data node) offset len)
      end
  end.

Definition fill_urandom (len : Z) : outcome (list Z) VfsError := ok_or (host_random len) InvalidPath.

Definition pipe_read (entry : FdEntry) (len : Z) : FdM (list Z) :=
  let* p := pipe_state (en_file entry) in
  if (available p =? 0) && negb (len =? 0) && (0 <? pi_writers p) then throw WouldBlock else
  let (bytes, p) := pipe_state_read len p in
  do* put_pipe (en_file entry) p;
  ret bytes.

Definition pipe_write (entry : FdEntry) (buffer : list Z) : FdM Z :=
  let* p := pipe_state (en_file entry) in
  if pi_readers p =? 0 then throw BrokenPipe else
  if (pi_capacity p =? available p) && negb (bool_decide (buffer = [])) && (0 <? pi_readers p)
  then throw WouldBlock else
  let (r, p) := pipe_state_write buffer p in
  do* put_pipe (en_file entry) p;
  lift r.

Definition eventfd_counter (entry : FdEntry) : FdM Z :=
  let* eventfd := lift (eventfd_node (en_file entry)) in
  let* w := gets id in
  lift (expect (h_eventfds (fw_heap w) !! eventfd)).

Definition put_eventfd (entry : FdEntry) (counter : Z) : FdM unit :=
  let* eventfd := lift (eventfd_node (en_file entry)) in
  modify (on_heap (set_eventfds (insert eventfd counter))).

Definition eventfd_read (entry : FdEntry) (len : Z) : FdM (list Z) :=
  let* counter := eventfd_counter entry in
  let (r, counter) := eventfd_state_read len counter in
  do* put_eventfd entry counter;
  lift r.

Definition eventfd_write (entry : FdEntry) (buffer : list Z) : FdM Z :=
  let* counter := eventfd_counter entry in
  let (r, counter) := eventfd_state_write buffer counter in
  do* put_eventfd entry counter;
  lift r.

(** A read of [len] bytes; the result is what it stores in the buffer. *)
Definition fd_read (tree : PathTree) (proc_self : ProcSelfData) (fd len : Z) : FdM (list Z) :=
  let* entry := get fd in
  let* d := description entry in
  if negb (can_read (fd_flags d)) then throw BadFd else
  match fr_kind (en_file entry) with
  | KRegular | KSymlink =>
      let* node := lift (ok_or (lookup_inode tree (in_id (fr_inode (en_file entry)))) NoEntry) in
      if is_directory_attr (pn_attr node) then throw IsDirectory else
      let* bytes := lift (read_regular_node_at node proc_self (fd_offset d) len false) in
      do* put_description entry (set_offset (wadd (fd_offset d) (zlen bytes)) d);
      ret bytes
  | KDev DevNull | KDev DevStdin => ret []
  | KDev DevZero => ret (zero_vec len)
  | KDev DevUrandom => lift (fill_urandom len)
  | KDev _ => throw BadFd
  | KPipeRead => pipe_read entry len
  | KPipeWrite | KSocket | KEpoll => throw BadFd
  | KEventfd => eventfd_read entry len
  | KDirectory => throw IsDirectory
  | KStdio Stdin => ret []
  | KStdio _ => throw BadFd
  end.

Definition fd_pread (tree : PathTree) (proc_self : ProcSelfData) (fd offset len : Z) : FdM (list Z) :=
  let* entry := get fd in
  let* d := description entry in
  if negb (can_read (fd_flags d)) then throw BadFd else
  match fr_kind (en_file entry) with
  | KRegular | KSymlink =>
      let* node := lift (ok_or (lookup_inode tree (in_id (fr_inode (en_file entry)))) NoEntry) in
      if is_directory_attr (pn_attr node) then throw IsDirectory else
      lift (read_regular_node_at node proc_self offset len false)
  | KDev DevNull | KDev DevStdin => ret []
  | KDev DevZero => ret (zero_vec len)
  | KDev DevUrandom => lift (fill_urandom len)
  | KDev _ | KPipeRead | KPipeWrite | KSocket | KEpoll | KEventfd | KDirectory | KStdio _ =>
      throw BadFd
  end.

(** Reading the target of an open symbolic link. *)
Definition readlink_open (tree : PathTree) (fd len : Z) : FdM (list Z) :=
  let* entry := get fd in
  let* node := lift (ok_or (lookup_inode tree (in_id (fr_inode (en_file entry)))) NoEntry) in
  match pn_kind node with
  | NSymlink target => ret (take (Z.to_nat len) (string_bytes target))
  | _ => throw InvalidPath
  end.

(** A write through the tree, whose node it may change even when it fails. *)
Definition write_node (inode_id offset : Z) (buffer : list Z) : ST PathTree VfsError Z :=
  let* t := gets id in
  let* node := lift (ok_or (lookup_inode t inode_id) NoEntry) in
  let (r, node) := write_at offset buffer node in
  do* modify (set_inodes (insert inode_id node));
  lift r.

(** [FdTable::write], on the tree and the table. *)
Definition fd_write (fd : Z) (buffer : list Z) : ST (PathTree * FdWorld) VfsError Z :=
  λ '(tree, w),
    let on_fds (m : FdM Z) := let (r, w) := m w in (r, (tree, w)) in
    match (let* entry := get fd in let* d := description entry in ret (entry, d)) w with
    | (Err e, _) => (Err e, (tree, w))
    | (Panic, _) => (Panic, (tree, w))
    | (Ok (entry, d), _) =>
        if negb (can_write (fd_flags d)) then (Err BadFd, (tree, w)) else
        match fr_kind (en_file entry) with
        | KRegular =>
            let inode_id := in_id (fr_inode (en_file entry)) in
            match lookup_inode tree inode_id with
            | None => (Err NoEntry, (tree, w))
            | Some node =>
                let offset := if append_flag (fd_flags d) then at_size (pn_attr node) else fd_offset d in
                match write_node inode_id offset buffer tree with
                | (Ok count, tree) =>
                    (Ok count, (tree, (put_description entry (set_offset (wadd offset count) d) w).2))
                | (Err e, tree) => (Err e, (tree, w))
                | (Panic, tree) => (Panic, (tree, w))
                end
            end
        | KDev DevStdin => (Err BadFd, (tree, w))
        | KDev _ => (Ok (zlen buffer), (tree, w))
        | KDirectory => (Err IsDirectory, (tree, w))
        | KSymlink => (Err InvalidPath, (tree, w))
        | KPipeRead | KSocket | KEpoll => (Err BadFd, (tree, w))
        | KPipeWrite => on_fds (pipe_write entry buffer)
        | KEventfd => on_fds (eventfd_write entry buffer)
        | KStdio kind => on_fds (stdio_write kind buffer)
        end
    end.
End io.

(** ** Seeking *)
Inductive SeekWhence : Type := SeekSet | SeekCur | SeekEnd.

Definition whence_from_linux (value : Z) : outcome SeekWhence VfsError :=
  if value =? 0 then Ok SeekSet else if value =? 1 then Ok SeekCur
  else if value =? 2 then Ok SeekEnd else Err InvalidPath.

Definition seek (tree : PathTree) (fd offset : Z) (whence : SeekWhence) : FdM Z :=
  let* entry := get fd in
  let* size :=
    match fr_kind (en_file entry) with
    | KRegular | KSymlink =>
        let* node := lift (ok_or (lookup_inode tree (in_id (fr_inode (en_file entry)))) NoEntry) in
        ret (at_size (pn_attr node))
    | KDirectory => ret 0
    | _ => throw NotSeekable
    end in
  let* d := description entry in
  let base := match whence with SeekSet => 0 | SeekCur => fd_offset d | SeekEnd => size end in
  let next := base + offset in
  if (next <? 0) || (U64_MAX <? next) then throw InvalidPath else
  do* put_description entry
        {| fd_offset := next; fd_flags := fd_flags d;
           fd_dir_cursor := match fr_kind (en_file entry) with KDirectory => next
                            | _ => fd_dir_cursor d end |};
  ret next.

(** ** Readiness *)
Definition available_bytes (tree : PathTree) (fd : Z) : FdM Z :=
  let* entry := get fd in
  match fr_kind (en_file entry) with
  | KRegular | KSymlink =>
      let* node := lift (ok_or (lookup_inode tree (in_id (fr_inode (en_file entry)))) NoEntry) in
      let* d := description entry in
      ret (if at_size (pn_attr node) <=? fd_offset d then 0 else at_size (pn_attr node) - fd_offset d)
  | KPipeRead | KPipeWrite => let* p := pipe_state (en_file entry) in ret (available p)
  | _ => ret 0
  end.

Record FdReadiness : Type := { rd_readable : bool; rd_writable : bool; rd_hang_up : bool; rd_error : bool }.

Definition poll_readiness (fd : Z) : FdM FdReadiness :=
  let* entry := get fd in
  let* d := description entry in
  let ready r w := ret {| rd_readable := r; rd_writable := w; rd_hang_up := false; rd_error := false |} in
  match fr_kind (en_file entry) with
  | KRegular | KSymlink | KDirectory => ready true (can_write (fd_flags d))
  | KDev (DevNull | DevZero | DevUrandom) => ready (can_read (fd_flags d)) (can_write (fd_flags d))
  | KDev _ | KStdio _ => ready false (can_write (fd_flags d))
  | KPipeRead =>
      let* p := pipe_state (en_file entry) in
      ret {| rd_readable := (0 <? available p) || (pi_writers p =? 0); rd_writable := false;
             rd_hang_up := pi_writers p =? 0; rd_error := false |}
  | KPipeWrite =>
      let* p := pipe_state (en_file entry) in
      ret {| rd_readable := false;
             rd_writable := (0 <? pi_readers p) && (available p <? pi_capacity p);
             rd_hang_up := pi_readers p =? 0; rd_error := false |}
  | KSocket | KEpoll => ready false false
  | KEventfd =>
      let* counter := eventfd_counter entry in
      ready (eventfd_readable counter) (eventfd_writable counter)
  end.

(** ** Directory listings *)
Definition is_proc_self_fd_directory (tree : PathTree) (path : GuestPath) : bool :=
  match pn_kind <$> lookup_path tree path with Some (NProc ProcFdDirectory) => true | _ => false end.

Definition proc_self_fd_link_inode (fd : Z) : outcome Z VfsError :=
  if fd <? 0 then Err BadFd else ok_or (checked_add64 FIRST_PROC_SELF_FD_LINK_INODE_ID fd) BadFd.

Record DirectoryListingSource : Type := { ls_inode : Z; ls_path : GuestPath; ls_cacheable : bool }.

Definition directory_listing_source (tree : PathTree) (fd : Z) : FdM DirectoryListingSource :=
  let* entry := get fd in
  match fr_kind (en_file entry) with
  | KDirectory =>
      let* path := lift (ok_or (en_path entry) BadFd) in
      let* node := lift (ok_or (lookup_path tree path) NoEntry) in
      ret {| ls_inode := pn_inode_id node; ls_path := path;
             ls_cacheable := negb (is_proc_self_fd_directory tree path) |}
  | _ => throw NotDirectory
  end.

Definition proc_fd_children (t : FdTable) : list DirectoryChild :=
  omap (λ fd, match proc_self_fd_link_inode fd with
              | Ok inode => Some {| dc_name := pretty fd; dc_inode := inode; dc_file_type := DT_LNK |}
              | _ => None
              end)
    (bt_keys (ft_entries t)).

Definition directory_entries_from_children (tree : PathTree) (path : GuestPath)
    (children : list DirectoryChild) : outcome (list DirectoryEntry) VfsError :=
  let children := sort_by (λ l r, name_leb (dc_name l) (dc_name r)) children in
  let? node := ok_or (lookup_path tree path) NoEntry in
  let dot offset name := {| de_inode := pn_inode_id node; de_offset := offset;
                            de_file_type := DT_DIR; de_name := name |} in
  Ok (dot 1 "."%string :: dot 2 ".."%string ::
      imap (λ index child, {| de_inode := dc_inode child; de_offset := Z.of_nat index + 3;
                              de_file_type := dc_file_type child; de_name := dc_name child |}) children).

Definition static_directory_entries (tree : PathTree) (path : GuestPath)
    : outcome (list DirectoryEntry) VfsError :=
  let? children := static_children tree path in directory_entries_from_children tree path children.

Definition directory_entries (t : FdTable) (tree : PathTree) (path : GuestPath)
    : outcome (list DirectoryEntry) VfsError :=
  let? children := static_children tree path in
  let children := if is_proc_self_fd_directory tree path then children ++ proc_fd_children t
                  else children in
  directory_entries_from_children tree path children.

(** The loop of [consume_directory_entries] over the entries after the cursor. *)
Fixpoint consume_loop (items : list DirectoryEntry) (max_bytes used : Z)
    (returned : list DirectoryEntry) (d : FdDescription)
    : outcome (list DirectoryEntry) VfsError * FdDescription :=
  match items with
  | [] => (Ok returned, d)
  | item :: items =>
      if max_bytes <? used + record_len item then
        (if bool_decide (returned = []) then Err InvalidPath else Ok returned, d)
      else
        consume_loop items max_bytes (used + record_len item) (returned ++ [item])
          {| fd_offset := fd_dir_cursor d + 1; fd_flags := fd_flags d;
             fd_dir_cursor := fd_dir_cursor d + 1 |}
  end.

Definition consume_directory_entries (fd max_bytes : Z) (entries : list DirectoryEntry)
    : FdM (list DirectoryEntry) :=
  let* entry := get fd in
  let* d := description entry in
  let (r, d) := consume_loop (drop (Z.to_nat (fd_dir_cursor d)) entries) max_bytes 0 [] d in
  do* put_description entry d;
  lift r.

Definition fd_getdents64 (tree : PathTree) (fd max_bytes : Z) : FdM (list DirectoryEntry) :=
  let* source := directory_listing_source tree fd in
  let* w := gets id in
  let* entries := lift (directory_entries (fw_table w) tree (ls_path source)) in
  consume_directory_entries fd max_bytes entries.

(** ** Across the table *)
Definition open_count (t : FdTable) (inode_id : Z) : nat :=
  length (filter (λ e, in_id (fr_inode (en_file e)) = inode_id) (bt_values (ft_entries t))).

Definition rebind_path (old_path new_path : GuestPath) (e : FdEntry) : FdEntry :=
  match en_path e with
  | None => e
  | Some path =>
      if starts_with path old_path
      then {| en_file := en_file e; en_description := en_description e;
              en_path := Some (replace_prefix path old_path new_path) |}
      else e
  end.

Definition rebind_paths (old_path new_path : GuestPath) (t : FdTable) : FdTable :=
  set_entries (fmap (rebind_path old_path new_path)) t.
