(* ===== verification/VfsCache.v ===== *)
(** * mcr-vfs: the cache

    Directory listings, attributes, small file contents and host read handles, each under
    the inode and its generation, with the invalidations that keep them fresh (cache.rs). *)

From S2P Require Import Prelude SysAbi Bytes VfsTypes VfsPath VfsFd.
From stdpp Require Import base gmap list strings.
From Stdlib Require Import ZArith Lia.
Open Scope Z_scope.

(** [VfsCacheKey]: an inode and its generation. *)
Definition VfsCacheKey : Type := Z * Z.

(** A cached handle is an open file: what it reads depends on its path only. *)
Record HostReadHandleCacheEntry : Type := { hr_generation : Z; hr_path : HostPath }.

Record VfsCache : Type := {
  ca_generation : Z;
  ca_global_generation : Z;
  ca_inode_generations : gmap Z Z;
  ca_directory_listings : gmap VfsCacheKey (list DirectoryEntry);
  ca_metadata : gmap VfsCacheKey LinuxFileAttr;
  ca_small_reads : gmap VfsCacheKey (list Z);
  ca_host_read_handles : gmap Z HostReadHandleCacheEntry;
  ca_host_read_lru : list Z;
}.

Definition cache_new : VfsCache :=
  {| ca_generation := 0; ca_global_generation := 0; ca_inode_generations := ∅;
     ca_directory_listings := ∅; ca_metadata := ∅; ca_small_reads := ∅;
     ca_host_read_handles := ∅; ca_host_read_lru := [] |}.

Definition key_generation (inode : Z) (c : VfsCache) : Z :=
  wadd (ca_global_generation c) (default 0 (ca_inode_generations c !! inode)).

Definition key (inode : Z) (c : VfsCache) : VfsCacheKey := (inode, key_generation inode c).

Definition invalidate_all (c : VfsCache) : VfsCache :=
  {| ca_generation := wadd (ca_generation c) 1;
     ca_global_generation := wadd (ca_global_generation c) 1;
     ca_inode_generations := ca_inode_generations c;
     ca_directory_listings := ∅; ca_metadata := ∅; ca_small_reads := ∅;
     ca_host_read_handles := ∅; ca_host_read_lru := [] |}.

Definition invalidate_proc_views (c : VfsCache) : VfsCache :=
  {| ca_generation := wadd (ca_generation c) 1;
     ca_global_generation := ca_global_generation c;
     ca_inode_generations := ca_inode_generations c;
     ca_directory_listings := ∅; ca_metadata := ∅; ca_small_reads := ∅;
     ca_host_read_handles := ca_host_read_handles c; ca_host_read_lru := ca_host_read_lru c |}.

Definition bump_generation (c : VfsCache) : VfsCache :=
  {| ca_generation := wadd (ca_generation c) 1;
     ca_global_generation := ca_global_generation c;
     ca_inode_generations := ca_inode_generations c;
     ca_directory_listings := ca_directory_listings c; ca_metadata := ca_metadata c;
     ca_small_reads := ca_small_reads c; ca_host_read_handles := ca_host_read_handles c;
     ca_host_read_lru := ca_host_read_lru c |}.

Definition bump_inode_generation (inode : Z) (c : VfsCache) : VfsCache :=
  {| ca_generation := ca_generation c;
     ca_global_generation := ca_global_generation c;
     ca_inode_generations :=
       <[inode := match ca_inode_generations c !! inode with
                  | Some generation => wadd generation 1
                  | None => 1
                  end]> (ca_inode_generations c);
     ca_directory_listings := ca_directory_listings c; ca_metadata := ca_metadata c;
     ca_small_reads := ca_small_reads c; ca_host_read_handles := ca_host_read_handles c;
     ca_host_read_lru := ca_host_read_lru c |}.

Definition keep_other {V} (inode : Z) (m : gmap VfsCacheKey V) : gmap VfsCacheKey V :=
  filter (λ p : VfsCacheKey * V, p.1.1 ≠ inode) m.

Definition remove_inode_entries (inode : Z) (c : VfsCache) : VfsCache :=
  {| ca_generation := ca_generation c;
     ca_global_generation := ca_global_generation c;
     ca_inode_generations := ca_inode_generations c;
     ca_directory_listings := keep_other inode (ca_directory_listings c);
     ca_metadata := keep_other inode (ca_metadata c);
     ca_small_reads := keep_other inode (ca_small_reads c);
     ca_host_read_handles := delete inode (ca_host_read_handles c);
     ca_host_read_lru := filter (λ i, i ≠ inode) (ca_host_read_lru c) |}.

Definition invalidate_inode (inode : Z) (c : VfsCache) : VfsCache :=
  remove_inode_entries inode (bump_inode_generation inode (bump_generation c)).

Definition invalidate_inodes (inodes : list Z) (c : VfsCache) : VfsCache :=
  let c' := foldl (λ c inode, remove_inode_entries inode (bump_inode_generation inode c)) c inodes in
  if bool_decide (inodes = []) then c' else bump_generation c'.

(** *** Lookups and insertions *)
Definition directory_listing (inode : Z) (c : VfsCache) : option (list DirectoryEntry) :=
  ca_directory_listings c !! key inode c.
Definition metadata (inode : Z) (c : VfsCache) : option LinuxFileAttr := ca_metadata c !! key inode c.
Definition small_read (inode : Z) (c : VfsCache) : option (list Z) := ca_small_reads c !! key inode c.

(** The cache with other listings, attributes or small contents. *)
Definition with_entries (listings : gmap VfsCacheKey (list DirectoryEntry))
    (attrs : gmap VfsCacheKey LinuxFileAttr) (reads : gmap VfsCacheKey (list Z)) (c : VfsCache)
    : VfsCache :=
  {| ca_generation := ca_generation c; ca_global_generation := ca_global_generation c;
     ca_inode_generations := ca_inode_generations c; ca_directory_listings := listings;
     ca_metadata := attrs; ca_small_reads := reads;
     ca_host_read_handles := ca_host_read_handles c; ca_host_read_lru := ca_host_read_lru c |}.

Definition insert_directory_listing (inode : Z) (entries : list DirectoryEntry) (c : VfsCache) : VfsCache :=
  with_entries (<[key inode c := entries]> (ca_directory_listings c)) (ca_metadata c) (ca_small_reads c) c.
Definition insert_metadata (inode : Z) (attr : LinuxFileAttr) (c : VfsCache) : VfsCache :=
  with_entries (ca_directory_listings c) (<[key inode c := attr]> (ca_metadata c)) (ca_small_reads c) c.
Definition insert_small_read (inode : Z) (data : list Z) (c : VfsCache) : VfsCache :=
  with_entries (ca_directory_listings c) (ca_metadata c) (<[key inode c := data]> (ca_small_reads c)) c.

(** *** Host read handles, least recently used first *)
Definition with_handles (handles : gmap Z HostReadHandleCacheEntry) (lru : list Z) (c : VfsCache)
    : VfsCache :=
  {| ca_generation := ca_generation c; ca_global_generation := ca_global_generation c;
     ca_inode_generations := ca_inode_generations c;
     ca_directory_listings := ca_directory_listings c; ca_metadata := ca_metadata c;
     ca_small_reads := ca_small_reads c; ca_host_read_handles := handles; ca_host_read_lru := lru |}.

Definition touch_host_read_lru (inode : Z) (c : VfsCache) : VfsCache :=
  with_handles (ca_host_read_handles c) (filter (λ i, i ≠ inode) (ca_host_read_lru c) ++ [inode]) c.

(** The [while] loop pops one entry of the list per round. *)
Fixpoint evict_loop (lru : list Z) (handles : gmap Z HostReadHandleCacheEntry)
    : gmap Z HostReadHandleCacheEntry * list Z :=
  if (size handles <=? HOST_READ_HANDLE_CACHE_LIMIT)%nat then (handles, lru) else
  match lru with
  | [] => (handles, [])
  | inode :: lru => evict_loop lru (delete inode handles)
  end.

Definition evict_host_read_handles (c : VfsCache) : VfsCache :=
  let (handles, lru) := evict_loop (ca_host_read_lru c) (ca_host_read_handles c) in
  with_handles handles lru c.

Section handles.
Context `{HostFs}.

(** The path of the handle and the cache afterwards. *)
Definition host_read_handle (inode : Z) (path : HostPath) : ST VfsCache VfsError HostPath :=
  let* c := gets id in
  let generation := key_generation inode c in
  let cached :=
    match ca_host_read_handles c !! inode with
    | Some entry => if (hr_generation entry =? generation) && bool_decide (hr_path entry = path)
                    then Some (hr_path entry) else None
    | None => None
    end in
  match cached with
  | Some handle => do* modify (touch_host_read_lru inode); ret handle
  | None =>
      let* _ := lift (open_host_read_handle path) in
      do* modify (λ c, with_handles (<[inode := {| hr_generation := generation; hr_path := path |}]>
                                       (ca_host_read_handles c)) (ca_host_read_lru c) c);
      do* modify (touch_host_read_lru inode);
      do* modify evict_host_read_handles;
      ret path
  end.
End handles.
