(* ===== verification/VfsSystem.v ===== *)
(** * mcr-vfs: the virtual file system

    [VirtualFileSystem] (filesystem.rs): the operations of the file system calls over the
    tree, the descriptor table and the cache.  A method on [&mut self], and one on [&self]
    that fills the cache, is a state-passing function; the others are functions of the
    state. *)

From S2P Require Import Prelude SysAbi Bytes VfsTypes VfsPath VfsFd VfsCache.
From stdpp Require Import base gmap list strings sorting pretty.
From Stdlib Require Import ZArith Lia Strings.Ascii.
Open Scope Z_scope.

Record Vfs : Type := {
  v_rootfs : Rootfs;
  v_tree : PathTree;
  v_fds : FdWorld;
  v_proc_self : ProcSelfData;
  v_umask : Z;
  v_cache : VfsCache;
}.

Definition VfsM : Type → Type := ST Vfs VfsError.

Definition set_rootfs (r : Rootfs) (v : Vfs) : Vfs :=
  {| v_rootfs := r; v_tree := v_tree v; v_fds := v_fds v; v_proc_self := v_proc_self v;
     v_umask := v_umask v; v_cache := v_cache v |}.
Definition set_tree (t : PathTree) (v : Vfs) : Vfs :=
  {| v_rootfs := v_rootfs v; v_tree := t; v_fds := v_fds v; v_proc_self := v_proc_self v;
     v_umask := v_umask v; v_cache := v_cache v |}.
Definition set_fds (w : FdWorld) (v : Vfs) : Vfs :=
  {| v_rootfs := v_rootfs v; v_tree := v_tree v; v_fds := w; v_proc_self := v_proc_self v;
     v_umask := v_umask v; v_cache := v_cache v |}.
Definition set_proc_umask (p : ProcSelfData) (umask : Z) (v : Vfs) : Vfs :=
  {| v_rootfs := v_rootfs v; v_tree := v_tree v; v_fds := v_fds v; v_proc_self := p;
     v_umask := umask; v_cache := v_cache v |}.
Definition set_cache (c : VfsCache) (v : Vfs) : Vfs :=
  {| v_rootfs := v_rootfs v; v_tree := v_tree v; v_fds := v_fds v; v_proc_self := v_proc_self v;
     v_umask := v_umask v; v_cache := c |}.

(** Operations of the parts run on the whole. *)
Definition on_tree {A} (m : TreeM A) : VfsM A :=
  λ v, let (r, t) := m (v_tree v) in (r, set_tree t v).
Definition on_fds {A} (m : FdM A) : VfsM A :=
  λ v, let (r, w) := m (v_fds v) in (r, set_fds w v).
Definition on_cache {A} (m : ST VfsCache VfsError A) : VfsM A :=
  λ v, let (r, c) := m (v_cache v) in (r, set_cache c v).

Definition invalidate_vfs_caches : VfsM unit := on_cache (modify invalidate_all).
Definition invalidate_proc_caches : VfsM unit := on_cache (modify invalidate_proc_views).
Definition invalidate_inode_cache (inode_id : Z) : VfsM unit := on_cache (modify (invalidate_inode inode_id)).
Definition invalidate_inode_caches (inode_ids : list Z) : VfsM unit :=
  on_cache (modify (invalidate_inodes inode_ids)).

(** The node of an inode or a path is replaced by what the update makes of it. *)
Definition update_inode (inode_id : Z) (f : PathNode → outcome PathNode VfsError) : TreeM unit :=
  let* t := gets id in
  let* node := lift (ok_or (lookup_inode t inode_id) NoEntry) in
  let* node := lift (f node) in
  modify (set_inodes (insert inode_id node)).

Definition update_path (path : GuestPath) (f : PathNode → outcome PathNode VfsError) : TreeM unit :=
  let* t := gets id in
  let* inode_id := lift (ok_or (tr_nodes t !! path) NoEntry) in
  update_inode inode_id f.

Definition entry_of (v : Vfs) (fd : Z) : outcome FdEntry VfsError :=
  ok_or (ft_entries (fw_table (v_fds v)) !! fd) BadFd.

Definition inode_id_of (e : FdEntry) : Z := in_id (fr_inode (en_file e)).

(** ** Permissions and resolution *)
Fixpoint traversal_loop (t : PathTree) (ancestor : GuestPath) (components : list string)
    : outcome unit VfsError :=
  match components with
  | [] => Ok tt
  | component :: components =>
      let ancestor := join_component ancestor component in
      match lookup_path t ancestor with
      | None => Ok tt
      | Some node =>
          let? _ := (if is_directory_attr (pn_attr node) then check_access (pn_attr node) X_OK
                     else Ok tt) in
          traversal_loop t ancestor components
      end
  end.

Definition check_traversal_permissions (t : PathTree) (path : GuestPath) : outcome unit VfsError :=
  traversal_loop t [] (removelast path).

Definition check_parent_write_permissions (t : PathTree) (path : GuestPath) : outcome unit VfsError :=
  let? parent := ok_or (parent path) InvalidPath in
  let? node := ok_or (lookup_path t parent) NoEntry in
  if negb (is_directory node) then Err NotDirectory
  else check_access (pn_attr node) (Z.lor W_OK X_OK).

Definition resolve_at (v : Vfs) (dirfd : Z) (path : string) (follow require_directory_base : bool)
    : outcome ResolvedPath VfsError :=
  if bool_decide (path = EmptyString) then Err NoEntry else
  if starts_with_slash path || (dirfd =? AT_FDCWD) then
    let? resolved := resolve_path_with_options (v_rootfs v) path (v_tree v) follow in
    let? _ := check_traversal_permissions (v_tree v) (rp_guest_path resolved) in
    Ok resolved
  else
    let? entry := entry_of v dirfd in
    let? base := ok_or (en_path entry) NotDirectory in
    let? base_node := ok_or (lookup_path (v_tree v) base) NoEntry in
    if negb (is_directory base_node) then Err NotDirectory else
    let? _ := (if require_directory_base then check_access (pn_attr base_node) X_OK else Ok tt) in
    let? scoped_rootfs := set_cwd base (v_rootfs v) in
    let? resolved := resolve_path_with_options scoped_rootfs path (v_tree v) follow in
    let? _ := check_traversal_permissions (v_tree v) (rp_guest_path resolved) in
    Ok resolved.

Definition parent_inode (t : PathTree) (path : GuestPath) : option Z :=
  parent path ≫= λ parent, pn_inode_id <$> lookup_path t parent.

Definition invalidate_parent_cache (path : GuestPath) : VfsM unit :=
  let* v := gets id in
  match parent_inode (v_tree v) path with
  | Some parent => invalidate_inode_cache parent
  | None => ret tt
  end.

(** ** Construction *)
Definition mount_minimal_devfs : VfsM unit :=
  do* on_tree tree_mount_minimal_devfs; invalidate_vfs_caches.

Definition mount_minimal_procfs : VfsM unit :=
  do* on_tree tree_mount_minimal_procfs; invalidate_vfs_caches.

Definition from_parts (rootfs : Rootfs) (tree : PathTree) (fds : FdWorld) : Vfs :=
  {| v_rootfs := rootfs; v_tree := tree; v_fds := fds;
     v_proc_self := {| ps_executable_path := []; ps_argv := []; ps_envp := [] |};
     v_umask := DEFAULT_UMASK; v_cache := cache_new |}.

(** [VirtualFileSystem::new]; its [expect]s never fail. *)
Definition vfs_new (host_root : HostPath) : outcome Vfs VfsError :=
  let empty := {| fw_table := {| ft_entries := ∅; ft_cloexec := ∅; ft_next_pipe_id := 1;
                                 ft_next_eventfd_id := 1; ft_stdio := 0 |};
                  fw_heap := heap_empty |} in
  match with_stdio empty with
  | (Ok _, fds) =>
      match mount_minimal_devfs (from_parts (rootfs_new host_root) tree_new fds) with
      | (Ok _, v) => Ok v
      | _ => Panic
      end
  | _ => Panic
  end.

Definition set_proc_self (p : ProcSelfData) : VfsM unit :=
  do* modify (λ v, set_proc_umask p (v_umask v) v); invalidate_proc_caches.

Definition replace_fds (fds : FdTable) (v : Vfs) : FdTable * Vfs :=
  (fw_table (v_fds v), set_fds {| fw_table := fds; fw_heap := fw_heap (v_fds v) |} v).

Definition getcwd (v : Vfs) : outcome string VfsError :=
  visible_path (v_rootfs v) (rf_cwd (v_rootfs v)).

Definition chdir (path : string) : VfsM unit :=
  let* v := gets id in
  let* resolved := lift (resolve_at v AT_FDCWD path true false) in
  let* node := lift (ok_or (lookup_path (v_tree v) (rp_guest_path resolved)) NoEntry) in
  if negb (is_directory node) then throw NotDirectory else
  let* _ := lift (check_access (pn_attr node) X_OK) in
  let* rootfs := lift (set_cwd (rp_guest_path resolved) (v_rootfs v)) in
  modify (set_rootfs rootfs).

Definition umask (mask : Z) (v : Vfs) : Z * Vfs :=
  (v_umask v, set_proc_umask (v_proc_self v) (Z.land mask 0x1ff) v).

(** ** The cache in front of the tree *)
Definition cached_metadata (node : PathNode) : VfsM LinuxFileAttr :=
  let* v := gets id in
  match metadata (pn_inode_id node) (v_cache v) with
  | Some attr => ret attr
  | None => do* on_cache (modify (insert_metadata (pn_inode_id node) (pn_attr node))); ret (pn_attr node)
  end.

Definition cached_directory_entries (inode_id : Z) (path : GuestPath) : VfsM (list DirectoryEntry) :=
  let* v := gets id in
  match directory_listing inode_id (v_cache v) with
  | Some entries => ret entries
  | None =>
      let* entries := lift (static_directory_entries (v_tree v) path) in
      do* on_cache (modify (insert_directory_listing inode_id entries));
      ret entries
  end.

Definition cached_small_read_data (inode_id : Z) (data : list Z) : VfsM (list Z) :=
  let* v := gets id in
  match small_read inode_id (v_cache v) with
  | Some cached => ret cached
  | None => do* on_cache (modify (insert_small_read inode_id data)); ret data
  end.

(** ** Opening and closing *)
Definition inode_backend_for_path_node (node : PathNode) (host_path : HostPath) : InodeBackend :=
  match pn_kind node with
  | NDevice kind => DevVirtual kind
  | NProc kind => ProcVirtual (proc_name kind)
  | NDirectory | NFile | NSymlink _ => HostPathBackend host_path
  end.

Definition host_path (v : Vfs) (path : GuestPath) : HostPath := rf_host_root (v_rootfs v) ++ path.

Definition create_resolved_file (path : GuestPath) (mode : Z) : VfsM unit :=
  on_tree (let* t := gets id in
           let* _ := lift (ensure_parent_dir t path) in
           let* inode_id := allocate_inode_id in
           insert_path_node path (node_new inode_id NFile (regular inode_id mode 0))).

Definition file_kind_of (kind : PathNodeKind) : FileKind :=
  match kind with
  | NDirectory => KDirectory
  | NFile => KRegular
  | NDevice kind => KDev kind
  | NProc kind => proc_file_kind kind
  | NSymlink _ => KSymlink
  end.

Definition requested_access (flags : OpenFlags) : Z :=
  Z.lor (if can_read flags then R_OK else F_OK) (if can_write flags then W_OK else F_OK).

Definition invalidate_opt (inode : option Z) : VfsM unit :=
  match inode with Some inode => invalidate_inode_cache inode | None => ret tt end.

Section operations.
Context `{HostFs}.

(** The first half of [openat]: create the file when it is missing. *)
Definition open_create (resolved : ResolvedPath) (flags : OpenFlags) (mode : Z) : VfsM (option Z) :=
  let path := rp_guest_path resolved in
  match rp_inode resolved with
  | None =>
      if negb (create_flag flags) then throw NoEntry else
      let* v := gets id in
      let* _ := lift (ensure_parent_dir (v_tree v) path) in
      let* _ := lift (check_parent_write_permissions (v_tree v) path) in
      do* create_resolved_file path (without_bits mode (v_umask v));
      let* v := gets id in
      ret (parent_inode (v_tree v) path)
  | Some _ =>
      if create_flag flags && exclusive flags then throw AlreadyExists else ret None
  end.

(** The checks on the node before it is opened. *)
Definition open_check (node : PathNode) (flags : OpenFlags) (created : bool) : outcome unit VfsError :=
  if directory_flag flags && negb (is_directory_attr (pn_attr node)) then Err NotDirectory
  else if is_symlink_attr (pn_attr node) && nofollow flags then Err Loop
  else if is_directory_attr (pn_attr node) && can_write flags then Err IsDirectory
  else if created then Ok tt else check_access (pn_attr node) (requested_access flags).

Definition openat (dirfd : Z) (path : string) (flags : OpenFlags) (mode : Z) : VfsM Z :=
  let* v := gets id in
  let* resolved := lift (resolve_at v dirfd path (negb (nofollow flags)) false) in
  let path := rp_guest_path resolved in
  let* created_parent := open_create resolved flags mode in
  let* v := gets id in
  let* node := lift (ok_or (lookup_path (v_tree v) path) NoEntry) in
  let* _ := lift (open_check node flags (bool_decide (is_Some created_parent))) in
  let* truncated_inode :=
    if truncate_flag flags && can_write flags && is_file_kind (pn_kind node) then
      do* on_tree (update_path path truncate_node); ret (Some (pn_inode_id node))
    else ret None in
  let* v := gets id in
  let* node := lift (ok_or (lookup_path (v_tree v) path) NoEntry) in
  let* fd := on_fds (insert_open
      {| fr_inode := {| in_id := pn_inode_id node;
                        in_backend := inode_backend_for_path_node node (host_path v path) |};
         fr_kind := file_kind_of (pn_kind node) |} flags (Some path)) in
  do* invalidate_opt created_parent;
  do* invalidate_opt truncated_inode;
  ret fd.

(** [close_with_file]: an unlinked inode goes with the descriptor. *)
Definition close_with_file (fd : Z) : VfsM FileRef :=
  let* file := on_fds (close fd) in
  let inode_id := in_id (fr_inode file) in
  let* v := gets id in
  if bool_decide (is_Some (lookup_inode (v_tree v) inode_id)) && (link_count (v_tree v) inode_id =? 0)%nat
  then
    do* on_tree (modify (set_inodes (delete inode_id)));
    do* invalidate_inode_cache inode_id;
    ret file
  else ret file.

Definition vfs_close (fd : Z) : VfsM unit := do* close_with_file fd; ret tt.

(** ** Reading *)
Definition regular_read_request (fd : Z) : FdM (option (Z * Z)) :=
  let* entry := get fd in
  let* d := description entry in
  if negb (can_read (fd_flags d)) then throw BadFd else
  match fr_kind (en_file entry) with
  | KRegular | KSymlink => ret (Some (inode_id_of entry, fd_offset d))
  | _ => ret None
  end.

Definition cached_host_read_handle (inode_id : Z) (path : HostPath) : VfsM HostPath :=
  on_cache (host_read_handle inode_id path).

Definition read_regular_inode_at (inode_id offset len : Z) : VfsM (list Z) :=
  let* v := gets id in
  let* node := lift (ok_or (lookup_inode (v_tree v) inode_id) NoEntry) in
  if is_directory_attr (pn_attr node) then throw IsDirectory else
  do* match pn_deferred_host_path node with
      | Some path => do* cached_host_read_handle inode_id path; ret tt
      | None => ret tt
      end;
  lift (read_regular_node_at node (v_proc_self v) offset len true).

Definition cached_small_read_for_entry (entry : FdEntry) (offset len : Z) : VfsM (option (list Z)) :=
  let* d := on_fds (description entry) in
  if negb (can_read (fd_flags d)) then throw BadFd else
  match fr_kind (en_file entry) with
  | KRegular =>
      if len =? 0 then ret (Some []) else
      let* v := gets id in
      let* node := lift (ok_or (lookup_inode (v_tree v) (inode_id_of entry)) NoEntry) in
      if negb (is_file_kind (pn_kind node)) then ret None else
      if bool_decide (is_Some (pn_deferred_host_path node)) then ret None else
      if SMALL_READ_CACHE_LIMIT <? zlen (pn_data node) then ret None else
      let* data := cached_small_read_data (inode_id_of entry) (pn_data node) in
      ret (Some (read_memory_at data offset len))
  | _ => ret None
  end.

Definition advance (entry : FdEntry) (offset count : Z) : FdM unit :=
  let* next := lift (ok_or (checked_add64 offset count) InvalidPath) in
  let* d := description entry in
  put_description entry (set_offset next d).

Definition read_from_small_cache (fd len : Z) : VfsM (option (list Z)) :=
  let* entry := on_fds (get fd) in
  let* d := on_fds (description entry) in
  let* r := cached_small_read_for_entry entry (fd_offset d) len in
  match r with
  | None => ret None
  | Some bytes => do* on_fds (advance entry (fd_offset d) (zlen bytes)); ret (Some bytes)
  end.

Definition cached_small_read_at (fd offset len : Z) : VfsM (option (list Z)) :=
  let* entry := on_fds (get fd) in cached_small_read_for_entry entry offset len.

Definition read (fd len : Z) : VfsM (list Z) :=
  let* small := read_from_small_cache fd len in
  match small with
  | Some bytes => ret bytes
  | None =>
      let* request := on_fds (regular_read_request fd) in
      match request with
      | None => let* v := gets id in on_fds (fd_read (v_tree v) (v_proc_self v) fd len)
      | Some (inode_id, offset) =>
          let* bytes := read_regular_inode_at inode_id offset len in
          let* entry := on_fds (get fd) in
          do* on_fds (advance entry offset (zlen bytes));
          ret bytes
      end
  end.

Definition pread (fd offset len : Z) : VfsM (list Z) :=
  let* small := cached_small_read_at fd offset len in
  match small with
  | Some bytes => ret bytes
  | None =>
      let* request := on_fds (regular_read_request fd) in
      match request with
      | None => let* v := gets id in on_fds (fd_pread (v_tree v) (v_proc_self v) fd offset len)
      | Some (inode_id, _) => read_regular_inode_at inode_id offset len
      end
  end.

(** Vectors of buffers are given by their lengths and filled in order. *)
Fixpoint vectored_len (lengths : list Z) (total : Z) : outcome Z VfsError :=
  match lengths with
  | [] => Ok total
  | len :: lengths =>
      let? total := ok_or (checked_add64 total len) InvalidPath in vectored_len lengths total
  end.

Fixpoint scatter_vectored (source : list Z) (lengths : list Z) : list (list Z) :=
  match lengths with
  | [] => []
  | len :: lengths => take (Z.to_nat len) source :: scatter_vectored (drop (Z.to_nat len) source) lengths
  end.

Definition readv_regular (fd : Z) (lengths : list Z) : VfsM (option (list (list Z))) :=
  let* request := on_fds (regular_read_request fd) in
  match request with
  | None => ret None
  | Some (inode_id, offset) =>
      let* total_len := lift (vectored_len lengths 0) in
      if total_len =? 0 then ret (Some (scatter_vectored [] lengths)) else
      let* bytes := read_regular_inode_at inode_id offset total_len in
      let* entry := on_fds (get fd) in
      do* on_fds (advance entry offset (zlen bytes));
      ret (Some (scatter_vectored bytes lengths))
  end.

Definition can_regular_readv_fast_path (fd : Z) : FdM bool :=
  let* entry := get fd in
  let* d := description entry in
  if negb (can_read (fd_flags d)) then throw BadFd else
  ret (match fr_kind (en_file entry) with KRegular | KSymlink => true | _ => false end).

Definition can_regular_writev_fast_path (fd : Z) : FdM bool :=
  let* entry := get fd in
  let* d := description entry in
  if negb (can_write (fd_flags d)) then throw BadFd else
  ret (match fr_kind (en_file entry) with KRegular => true | _ => false end).

Record RegularFileCacheKey : Type := { rk_inode : Z; rk_generation : Z }.

Definition regular_file_cache_key (v : Vfs) (fd : Z) : outcome (option RegularFileCacheKey) VfsError :=
  let? entry := entry_of v fd in
  let? d := expect (h_descriptions (fw_heap (v_fds v)) !! en_description entry) in
  if negb (can_read (fd_flags d)) then Err BadFd else
  match fr_kind (en_file entry), lookup_inode (v_tree v) (inode_id_of entry) with
  | KRegular, Some node =>
      if is_file_kind (pn_kind node)
      then Ok (Some {| rk_inode := inode_id_of entry;
                       rk_generation := key_generation (inode_id_of entry) (v_cache v) |})
      else Ok None
  | _, _ => Ok None
  end.

(** ** Writing *)
Definition write (fd : Z) (buffer : list Z) : VfsM Z :=
  let* v := gets id in
  let regular_inode :=
    match entry_of v fd with
    | Ok entry => match fr_kind (en_file entry) with KRegular => Some (inode_id_of entry) | _ => None end
    | _ => None
    end in
  let* count := λ v, let (r, tw) := fd_write fd buffer (v_tree v, v_fds v) in
                     (r, set_fds tw.2 (set_tree tw.1 v)) in
  do* if 0 <? count then invalidate_opt regular_inode else ret tt;
  ret count.

Definition writev_regular (fd : Z) (buffers : list (list Z)) : VfsM (option Z) :=
  let* entry := on_fds (get fd) in
  let* d := on_fds (description entry) in
  if negb (can_write (fd_flags d)) then throw BadFd else
  match fr_kind (en_file entry) with
  | KRegular =>
      let* v := gets id in
      let inode_id := inode_id_of entry in
      let* node := lift (ok_or (lookup_inode (v_tree v) inode_id) NoEntry) in
      let* total_len := lift (vectored_len (zlen <$> buffers) 0) in
      if total_len =? 0 then ret (Some 0) else
      let staging := mjoin buffers in
      let offset := if append_flag (fd_flags d) then at_size (pn_attr node) else fd_offset d in
      let* count := on_tree (write_node inode_id offset staging) in
      do* on_fds (put_description entry (set_offset (wadd offset count) d));
      do* if 0 <? count then invalidate_inode_cache inode_id else ret tt;
      ret (Some count)
  | _ => ret None
  end.

Definition pwrite (fd offset : Z) (buffer : list Z) : VfsM Z :=
  let* entry := on_fds (get fd) in
  let* d := on_fds (description entry) in
  if negb (can_write (fd_flags d)) then throw BadFd else
  match fr_kind (en_file entry) with
  | KRegular =>
      let* count := on_tree (write_node (inode_id_of entry) offset buffer) in
      do* if 0 <? count then invalidate_inode_cache (inode_id_of entry) else ret tt;
      ret count
  | _ => throw BadFd
  end.

Definition lseek (fd offset : Z) (whence : SeekWhence) : VfsM Z :=
  let* v := gets id in on_fds (seek (v_tree v) fd offset whence).

Definition ftruncate (fd length : Z) : VfsM unit :=
  let* entry := on_fds (get fd) in
  let* d := on_fds (description entry) in
  if negb (can_write (fd_flags d)) then throw BadFd else
  match fr_kind (en_file entry) with
  | KRegular =>
      do* on_tree (update_inode (inode_id_of entry) (set_len length));
      invalidate_inode_cache (inode_id_of entry)
  | _ => throw InvalidPath
  end.

Definition fallocate (fd offset length : Z) : VfsM unit :=
  let* end_ := lift (ok_or (checked_add64 offset length) NoSpace) in
  let* entry := on_fds (get fd) in
  let* d := on_fds (description entry) in
  if negb (can_write (fd_flags d)) then throw BadFd else
  match fr_kind (en_file entry) with
  | KRegular =>
      let* v := gets id in
      let* node := lift (ok_or (lookup_inode (v_tree v) (inode_id_of entry)) NoEntry) in
      if at_size (pn_attr node) <? end_ then
        do* on_tree (update_inode (inode_id_of entry) (set_len end_));
        invalidate_inode_cache (inode_id_of entry)
      else ret tt
  | _ => throw InvalidPath
  end.

(** ** Attributes *)
Definition anonymous_attr (file : FileRef) : LinuxFileAttr :=
  let id := in_id (fr_inode file) in
  match fr_kind file with
  | KStdio _ | KPipeRead | KPipeWrite => fifo id
  | KSocket => socket_attr id
  | KEpoll | KEventfd => regular id 0x180 0
  | KDev _ => character_device id 0x1b6
  | KRegular | KDirectory | KSymlink => attr_new 0 (Z.lor S_IFREG 0x1b6) 0
  end.

Definition fstat (fd : Z) : VfsM LinuxFileAttr :=
  let* entry := on_fds (get fd) in
  match fr_kind (en_file entry) with
  | KStdio _ | KPipeRead | KPipeWrite | KSocket | KEpoll | KEventfd =>
      ret (anonymous_attr (en_file entry))
  | _ =>
      let* v := gets id in
      match lookup_inode (v_tree v) (inode_id_of entry) with
      | Some node => cached_metadata node
      | None => ret (anonymous_attr (en_file entry))
      end
  end.

Definition sync_fd (v : Vfs) (fd : Z) : outcome unit VfsError :=
  let? entry := entry_of v fd in
  match fr_kind (en_file entry) with KRegular | KDirectory => Ok tt | _ => Err InvalidPath end.

Definition statfs_for_path_node (node : PathNode) : LinuxStatfs :=
  match pn_kind node with
  | NProc _ | NDevice _ => tmpfs_like
  | NDirectory | NFile | NSymlink _ => ext_like
  end.

Definition statfs_for_file (file : FileRef) : LinuxStatfs :=
  match fr_kind file with
  | KDev _ | KPipeRead | KPipeWrite | KSocket | KEpoll | KEventfd | KStdio _ => tmpfs_like
  | KRegular | KDirectory | KSymlink => ext_like
  end.

Definition statfs (v : Vfs) (path : string) : outcome LinuxStatfs VfsError :=
  if bool_decide (path = EmptyString) then Err NoEntry else
  let? resolved := resolve_path (v_rootfs v) path (v_tree v) in
  let? _ := check_traversal_permissions (v_tree v) (rp_guest_path resolved) in
  let? node := ok_or (lookup_path (v_tree v) (rp_guest_path resolved)) NoEntry in
  Ok (statfs_for_path_node node).

Definition fstatfs (v : Vfs) (fd : Z) : outcome LinuxStatfs VfsError :=
  let? entry := entry_of v fd in
  Ok (match lookup_inode (v_tree v) (inode_id_of entry) with
      | Some node => statfs_for_path_node node
      | None => statfs_for_file (en_file entry)
      end).

(** *** Targets of /proc/self/fd *)
Fixpoint parse_digits (s : string) (acc : Z) : option Z :=
  match s with
  | EmptyString => Some acc
  | String c s =>
      let d := Z.of_N (Ascii.N_of_ascii c) - 48 in
      if (0 <=? d) && (d <=? 9) then parse_digits s (acc * 10 + d) else None
  end.

(** [parse::<i32>().ok().filter(|fd| *fd >= 0)]: digits with an optional sign. *)
Definition parse_fd (s : string) : option Z :=
  let (negative, digits) :=
    match s with
    | String c rest => if Ascii.eqb c "-"%char then (true, rest)
                       else if Ascii.eqb c "+"%char then (false, rest) else (false, s)
    | EmptyString => (false, s)
    end in
  if bool_decide (digits = EmptyString) then None else
  match parse_digits digits 0 with
  | Some n => if negative then (if n =? 0 then Some 0 else None)
              else if n <=? I32_MAX then Some n else None
  | None => None
  end.

Definition proc_self_fd_path_fd (path : GuestPath) : option Z :=
  match path with
  | [a; b; c; fd] =>
      if bool_decide (a = "proc"%string) && bool_decide (b = "self"%string) &&
         bool_decide (c = "fd"%string) then parse_fd fd else None
  | _ => None
  end.

Definition bracketed (name : string) (id : Z) : string := name +:+ pretty id +:+ "]".

Definition proc_fd_target (v : Vfs) (fd : Z) : outcome string VfsError :=
  let? entry := ok_or (ft_entries (fw_table (v_fds v)) !! fd) NoEntry in
  match fr_kind (en_file entry) with
  | KRegular | KDirectory | KSymlink =>
      let? path := ok_or (en_path entry) NoEntry in visible_path (v_rootfs v) path
  | KDev kind => Ok ("/dev/" +:+ dev_name kind)
  | KPipeRead | KPipeWrite => Ok (bracketed "pipe:[" (inode_id_of entry))
  | KSocket => Ok (bracketed "socket:[" (inode_id_of entry))
  | KEpoll => Ok (bracketed "anon_inode:[eventpoll:" (inode_id_of entry))
  | KEventfd => Ok (bracketed "anon_inode:[eventfd:" (inode_id_of entry))
  | KStdio kind => Ok ("/dev/" +:+ stdio_name kind)
  end.

Definition stat_path (path : GuestPath) : VfsM LinuxFileAttr :=
  let* v := gets id in
  match proc_self_fd_path_fd path with
  | Some fd =>
      let* target := lift (proc_fd_target v fd) in
      let* inode := lift (proc_self_fd_link_inode fd) in
      ret (symlink inode (Z.of_nat (String.length target)))
  | None =>
      match lookup_path (v_tree v) path with
      | Some node => cached_metadata node
      | None => throw NoEntry
      end
  end.

Definition newfstatat (dirfd : Z) (path : string) (flags : Z) : VfsM LinuxFileAttr :=
  if bool_decide (path = EmptyString) && has_bits flags AT_EMPTY_PATH then fstat dirfd else
  let* v := gets id in
  let* resolved := lift (resolve_at v dirfd path (negb (has_bits flags AT_SYMLINK_NOFOLLOW)) false) in
  stat_path (rp_guest_path resolved).

Definition statx (dirfd : Z) (path : string) (flags : Z) : VfsM LinuxFileAttr := newfstatat dirfd path flags.

Definition update_resolved (path : string) (f : LinuxFileAttr → LinuxFileAttr) : VfsM unit :=
  let* v := gets id in
  let* resolved := lift (resolve_at v AT_FDCWD path true false) in
  let* node := lift (ok_or (lookup_path (v_tree v) (rp_guest_path resolved)) NoEntry) in
  do* on_tree (update_path (rp_guest_path resolved) (λ n, Ok (set_attr f n)));
  invalidate_inode_cache (pn_inode_id node).

Definition chmod (path : string) (mode : Z) : VfsM unit := update_resolved path (set_mode mode).
Definition chown (path : string) (uid gid : option Z) : VfsM unit :=
  update_resolved path (set_owner uid gid).

Definition utimensat (dirfd : Z) (path : string) (times : FileTimes) (flags : Z) : VfsM unit :=
  if negb (without_bits flags (Z.lor AT_SYMLINK_NOFOLLOW AT_EMPTY_PATH) =? 0) then throw InvalidPath else
  let* v := gets id in
  let* inode_id := lift
    (if bool_decide (path = EmptyString) && has_bits flags AT_EMPTY_PATH then
       let? entry := entry_of v dirfd in Ok (inode_id_of entry)
     else
       let? resolved := resolve_at v dirfd path (negb (has_bits flags AT_SYMLINK_NOFOLLOW)) false in
       ok_or (rp_inode resolved) NoEntry) in
  do* on_tree (update_inode inode_id (λ n, Ok (set_attr (set_times times) n)));
  invalidate_inode_cache inode_id.

Definition access (path : string) (mode : Z) : VfsM unit :=
  if bool_decide (path = EmptyString) then throw NoEntry else
  let* v := gets id in
  let* resolved := lift (resolve_path (v_rootfs v) path (v_tree v)) in
  let* _ := lift (check_traversal_permissions (v_tree v) (rp_guest_path resolved)) in
  let* attr := stat_path (rp_guest_path resolved) in
  lift (check_access attr mode).

Definition faccessat2 (dirfd : Z) (path : string) (mode flags : Z) : VfsM unit :=
  if negb (without_bits flags (Z.lor AT_EMPTY_PATH AT_SYMLINK_NOFOLLOW) =? 0) then throw InvalidPath else
  let* attr :=
    if bool_decide (path = EmptyString) && has_bits flags AT_EMPTY_PATH then fstat dirfd
    else if bool_decide (path = EmptyString) then throw NoEntry
    else
      let* v := gets id in
      let* resolved := lift (resolve_at v dirfd path (negb (has_bits flags AT_SYMLINK_NOFOLLOW)) false) in
      stat_path (rp_guest_path resolved) in
  lift (check_access attr mode).

(** ** Links *)
Definition readlink_resolved (v : Vfs) (path : GuestPath) (len : Z) : outcome (list Z) VfsError :=
  let? target :=
    match proc_self_fd_path_fd path with
    | Some fd => let? target := proc_fd_target v fd in Ok (string_bytes target)
    | None =>
        let? node := ok_or (lookup_path (v_tree v) path) NoEntry in
        match pn_kind node with
        | NSymlink target => Ok (string_bytes target)
        | NProc ProcExe => Ok (ps_executable_path (v_proc_self v))
        | NProc (ProcFdLink fd) => let? target := proc_fd_target v fd in Ok (string_bytes target)
        | _ => Err InvalidPath
        end
    end in
  Ok (take (Z.to_nat len) target).

Definition readlink (v : Vfs) (path : string) (len : Z) : outcome (list Z) VfsError :=
  if bool_decide (path = EmptyString) then Err NoEntry else
  let? resolved := resolve_path_with_options (v_rootfs v) path (v_tree v) false in
  let? _ := check_traversal_permissions (v_tree v) (rp_guest_path resolved) in
  readlink_resolved v (rp_guest_path resolved) len.

Definition readlinkat (v : Vfs) (dirfd : Z) (path : string) (len : Z) : outcome (list Z) VfsError :=
  if bool_decide (path = EmptyString) then
    let? entry := entry_of v dirfd in
    let? path := ok_or (en_path entry) NoEntry in
    readlink_resolved v path len
  else
    let? resolved := resolve_at v dirfd path false false in
    readlink_resolved v (rp_guest_path resolved) len.

Definition getdents64 (fd max_bytes : Z) : VfsM (list DirectoryEntry) :=
  let* v := gets id in
  let* source := on_fds (directory_listing_source (v_tree v) fd) in
  let* entries :=
    if ls_cacheable source then cached_directory_entries (ls_inode source) (ls_path source)
    else lift (directory_entries (fw_table (v_fds v)) (v_tree v) (ls_path source)) in
  on_fds (consume_directory_entries fd max_bytes entries).

(** [mkdirat] and [symlinkat] insert a new node. *)
Definition insert_new (resolved : ResolvedPath) (kind : PathNodeKind) (attr : Z → LinuxFileAttr) : VfsM unit :=
  let path := rp_guest_path resolved in
  if bool_decide (is_Some (rp_inode resolved)) then throw AlreadyExists else
  let* v := gets id in
  let* _ := lift (ensure_parent_dir (v_tree v) path) in
  let* _ := lift (check_parent_write_permissions (v_tree v) path) in
  do* on_tree (let* inode_id := allocate_inode_id in
               insert_path_node path (node_new inode_id kind (attr inode_id)));
  invalidate_parent_cache path.

Definition mkdirat (dirfd : Z) (path : string) (mode : Z) : VfsM unit :=
  let* v := gets id in
  let* resolved := lift (resolve_at v dirfd path false false) in
  insert_new resolved NDirectory (λ inode_id, directory_with_mode inode_id (without_bits mode (v_umask v))).

Definition symlinkat (target : string) (newdirfd : Z) (linkpath : string) : VfsM unit :=
  if bool_decide (target = EmptyString) || contains_nul target then throw InvalidPath else
  let* v := gets id in
  let* resolved := lift (resolve_at v newdirfd linkpath false false) in
  insert_new resolved (NSymlink target) (λ inode_id, symlink inode_id (Z.of_nat (String.length target))).

Definition drop_link (inode_id : Z) : VfsM unit :=
  do* on_tree (modify (set_inodes (alter (set_attr decrement_link_count) inode_id)));
  let* v := gets id in
  if (link_count (v_tree v) inode_id =? 0)%nat && (open_count (fw_table (v_fds v)) inode_id =? 0)%nat
  then on_tree (modify (set_inodes (delete inode_id)))
  else ret tt.

Definition unlinkat (dirfd : Z) (path : string) (flags : Z) : VfsM unit :=
  if negb (without_bits flags AT_REMOVEDIR =? 0) then throw InvalidPath else
  let remove_dir := has_bits flags AT_REMOVEDIR in
  let* v := gets id in
  let* resolved := lift (resolve_at v dirfd path false false) in
  let target := rp_guest_path resolved in
  if is_root target then throw PermissionDenied else
  let* node := lift (ok_or (lookup_path (v_tree v) target) NoEntry) in
  let* _ := lift
    (if remove_dir then
       if negb (is_directory node) then Err NotDirectory
       else if negb (is_empty_directory (v_tree v) target) then Err NotEmpty
       else Ok tt
     else if is_directory node then Err IsDirectory else Ok tt) in
  let* _ := lift (check_parent_write_permissions (v_tree v) target) in
  let parent := parent_inode (v_tree v) target in
  let* inode_id := on_tree (remove_path_link target) in
  do* drop_link inode_id;
  invalidate_inode_caches (option_list parent ++ [inode_id]).

Definition linkat (olddirfd : Z) (oldpath : string) (newdirfd : Z) (newpath : string) (flags : Z) : VfsM unit :=
  if negb (without_bits flags (Z.lor AT_SYMLINK_FOLLOW AT_EMPTY_PATH) =? 0) then throw InvalidPath else
  if bool_decide (oldpath = EmptyString) && negb (has_bits flags AT_EMPTY_PATH) then throw NoEntry else
  let* v := gets id in
  let* old_resolved := lift
    (if bool_decide (oldpath = EmptyString) && has_bits flags AT_EMPTY_PATH then
       let? entry := entry_of v olddirfd in
       let? path := ok_or (en_path entry) NoEntry in
       Ok {| rp_guest_path := path; rp_inode := Some (inode_id_of entry) |}
     else resolve_at v olddirfd oldpath (has_bits flags AT_SYMLINK_FOLLOW) false) in
  let* old_inode := lift (ok_or (rp_inode old_resolved) NoEntry) in
  let* old_node := lift (ok_or (lookup_inode (v_tree v) old_inode) NoEntry) in
  if is_directory old_node then throw NotPermitted else
  let* new_resolved := lift (resolve_at v newdirfd newpath false false) in
  let new_path := rp_guest_path new_resolved in
  if bool_decide (is_Some (rp_inode new_resolved)) then throw AlreadyExists else
  let* _ := lift (ensure_parent_dir (v_tree v) new_path) in
  let* _ := lift (check_parent_write_permissions (v_tree v) new_path) in
  do* on_tree (update_inode old_inode
        (λ n, let? attr := increment_link_count (pn_attr n) in Ok (set_attr (λ _, attr) n)));
  do* on_tree (insert_link new_path old_inode);
  let* v := gets id in
  invalidate_inode_caches (option_list (parent_inode (v_tree v) new_path) ++ [old_inode]).

(** *** rename *)
Definition validate_rename_replacement (t : PathTree) (old_inode target_inode : Z) (target_path : GuestPath)
    : outcome unit VfsError :=
  let? old_node := ok_or (lookup_inode t old_inode) NoEntry in
  let? target_node := ok_or (lookup_inode t target_inode) NoEntry in
  match is_directory old_node, is_directory target_node with
  | true, false => Err NotDirectory
  | false, true => Err IsDirectory
  | true, true => if negb (is_empty_directory t target_path) then Err NotEmpty else Ok tt
  | false, false => Ok tt
  end.

Definition remove_existing_rename_target (target_path : GuestPath) (target_inode : Z) : VfsM unit :=
  let* v := gets id in
  let* target_node := lift (ok_or (lookup_inode (v_tree v) target_inode) NoEntry) in
  if is_directory target_node && negb (is_empty_directory (v_tree v) target_path) then throw NotEmpty else
  do* on_tree (remove_path_link target_path);
  drop_link target_inode.

(** Unlink each path; what comes back is where each of them goes, with its inode. *)
Fixpoint remove_links (paths : list GuestPath) (old_path new_path : GuestPath)
    : TreeM (list (GuestPath * Z)) :=
  match paths with
  | [] => ret []
  | path :: paths =>
      let* inode_id := remove_path_link path in
      let* updates := remove_links paths old_path new_path in
      ret ((replace_prefix path old_path new_path, inode_id) :: updates)
  end.

Definition insert_links (updates : list (GuestPath * Z)) : TreeM unit :=
  foreach updates (λ p, insert_link p.1 p.2).

Definition move_path (old_path new_path : GuestPath) : VfsM unit :=
  do* on_tree (let* t := gets id in
               let* updates := remove_links (paths_under_prefix t old_path) old_path new_path in
               insert_links updates);
  on_fds (modify (on_table (rebind_paths old_path new_path))).

Definition exchange_paths (old_path : GuestPath) (old_inode : Z) (new_path : GuestPath) (new_inode : Z)
    : VfsM unit :=
  let* v := gets id in
  let* old_node := lift (ok_or (lookup_inode (v_tree v) old_inode) NoEntry) in
  let* new_node := lift (ok_or (lookup_inode (v_tree v) new_inode) NoEntry) in
  if is_directory old_node && starts_with new_path old_path then throw InvalidPath else
  if is_directory new_node && starts_with old_path new_path then throw InvalidPath else
  do* on_tree
    (let* t := gets id in
     let old_paths := if is_directory old_node then paths_under_prefix t old_path else [old_path] in
     let new_paths := if is_directory new_node then paths_under_prefix t new_path else [new_path] in
     let* updates1 := remove_links old_paths old_path new_path in
     let* updates2 := remove_links new_paths new_path old_path in
     insert_links (updates1 ++ updates2));
  do* on_fds (modify (on_table (rebind_paths old_path new_path)));
  on_fds (modify (on_table (rebind_paths new_path old_path))).

Definition renameat2 (olddirfd : Z) (oldpath : string) (newdirfd : Z) (newpath : string) (flags : Z) : VfsM unit :=
  if negb (without_bits flags SUPPORTED_RENAME_FLAGS =? 0) then throw InvalidPath else
  let noreplace := has_bits flags RENAME_NOREPLACE in
  let exchange := has_bits flags RENAME_EXCHANGE in
  if noreplace && exchange then throw InvalidPath else
  let* v := gets id in
  let* old_resolved := lift (resolve_at v olddirfd oldpath false false) in
  let* new_resolved := lift (resolve_at v newdirfd newpath false false) in
  let old_path := rp_guest_path old_resolved in
  let new_path := rp_guest_path new_resolved in
  if is_root old_path || is_root new_path then throw PermissionDenied else
  let* old_inode := lift (ok_or (rp_inode old_resolved) NoEntry) in
  if bool_decide (old_path = new_path) then ret tt else
  let* old_node := lift (ok_or (lookup_inode (v_tree v) old_inode) NoEntry) in
  let new_inode := rp_inode new_resolved in
  if noreplace && bool_decide (is_Some new_inode) then throw AlreadyExists else
  if is_directory old_node && starts_with new_path old_path && negb exchange then throw InvalidPath else
  let* _ := lift (ensure_parent_dir (v_tree v) new_path) in
  let* _ := lift (check_parent_write_permissions (v_tree v) old_path) in
  let* _ := lift (check_parent_write_permissions (v_tree v) new_path) in
  if exchange then
    let* new_inode := lift (ok_or new_inode NoEntry) in
    do* exchange_paths old_path old_inode new_path new_inode;
    invalidate_vfs_caches
  else
    do* match new_inode with
        | Some target_inode =>
            let* _ := lift (validate_rename_replacement (v_tree v) old_inode target_inode new_path) in
            remove_existing_rename_target new_path target_inode
        | None => ret tt
        end;
    let* v := gets id in
    let old_parent := parent_inode (v_tree v) old_path in
    let new_parent := parent_inode (v_tree v) new_path in
    do* move_path old_path new_path;
    invalidate_inode_caches (option_list old_parent ++ option_list new_parent ++ option_list new_inode).
End operations.

(** ** Descriptor calls *)
Definition vfs_dup (oldfd : Z) : VfsM Z := on_fds (dup oldfd FIRST_ALLOC_FD false).
Definition vfs_dup2 (oldfd newfd : Z) : VfsM Z := on_fds (dup2 oldfd newfd false).
Definition dup3 (oldfd newfd : Z) (flags : OpenFlags) : VfsM Z :=
  if negb (without_bits (of_raw flags) O_CLOEXEC =? 0) || (oldfd =? newfd) then throw InvalidPath
  else on_fds (dup2 oldfd newfd (cloexec_flag flags)).

Definition fcntl (fd cmd arg : Z) : VfsM Z :=
  let fd_arg := if arg <=? I32_MAX then Ok arg else Err BadFd in
  if cmd =? F_DUPFD then let* min_fd := lift fd_arg in on_fds (dup fd min_fd false)
  else if cmd =? F_DUPFD_CLOEXEC then let* min_fd := lift fd_arg in on_fds (dup fd min_fd true)
  else if cmd =? F_GETFD then on_fds (fd_flags_of fd)
  else if cmd =? F_SETFD then do* on_fds (set_fd_flags fd (as_u32 arg)); ret 0
  else if cmd =? F_GETFL then on_fds (status_flags fd)
  else if cmd =? F_SETFL then do* on_fds (set_status_flags fd (as_u32 arg)); ret 0
  else if (cmd =? F_SETLK) || (cmd =? F_SETLKW) then do* on_fds (get fd); ret 0
  else if cmd =? F_GETPIPE_SZ then on_fds (pipe_capacity fd)
  else if cmd =? F_SETPIPE_SZ then on_fds (set_pipe_capacity fd arg)
  else throw InvalidPath.

Inductive IoctlReply : Type := ReplyNone | ReplyU32 (value : Z).

Definition ioctl (fd request : Z) : VfsM IoctlReply :=
  do* on_fds (get fd);
  if request =? FIONREAD then
    let* v := gets id in
    let* n := on_fds (available_bytes (v_tree v) fd) in
    ret (ReplyU32 (if n <=? U32_MAX then n else U32_MAX))
  else throw NotTerminal.
