(* ===== verification/VfsTree.v ===== *)
(** * mcr-vfs: the invariant of the path tree

    The children index lists exactly the paths of the tree, every path but the root has a
    directory above it, directories have one path, link counts are right, and inode ids are
    fresh; each operation of the tree keeps this. *)

From S2P Require Import Prelude SysAbi Bytes VfsTypes VfsPath VfsFd VfsCache VfsSystem.
From stdpp Require Import base gmap list strings sorting.
From Stdlib Require Import ZArith Lia.
Open Scope Z_scope.

Implicit Types (p q : GuestPath) (t : PathTree).

(** ** Paths *)
Lemma parent_snoc p x : parent (p ++ [x]) = Some p.
Proof. unfold parent. destruct (p ++ [x]) eqn:E; [by destruct p|]. by rewrite <- E, removelast_last. Qed.

Lemma file_name_snoc p x : file_name (p ++ [x]) = Some x.
Proof. unfold file_name. by rewrite last_snoc. Qed.

Lemma path_cases (p : GuestPath) : p = [] ∨ ∃ q x, p = q ++ [x].
Proof. destruct p as [|x q _] using rev_ind; [by left|right; eauto]. Qed.

Lemma parent_Some p q : parent p = Some q → ∃ x, p = q ++ [x].
Proof. destruct (path_cases p) as [->|(r & x & ->)]; [done|]. rewrite parent_snoc. intros [= ->]. eauto. Qed.

Lemma starts_with_true p q : starts_with p q = true ↔ q `prefix_of` p.
Proof. unfold starts_with. by rewrite bool_decide_eq_true. Qed.

Lemma starts_with_false p q : starts_with p q = false ↔ ¬ q `prefix_of` p.
Proof. unfold starts_with. by rewrite bool_decide_eq_false. Qed.

Lemma replace_prefix_app old r new : replace_prefix (old ++ r) old new = new ++ r.
Proof. unfold replace_prefix. by rewrite drop_app_length. Qed.

Lemma replace_prefix_inj p q old new :
  old `prefix_of` p → old `prefix_of` q → replace_prefix p old new = replace_prefix q old new → p = q.
Proof. intros [r ->] [s ->]. rewrite !replace_prefix_app. intros H. by apply app_inv_head in H as ->. Qed.

Lemma prefix_snoc_cases (p q : GuestPath) x : p `prefix_of` q ++ [x] → p = q ++ [x] ∨ p `prefix_of` q.
Proof.
  intros [r H]. destruct (path_cases r) as [->|(s & y & ->)].
  - left. by rewrite app_nil_r in H.
  - right. rewrite app_assoc in H. apply app_inj_tail in H as [-> _]. by exists s.
Qed.

(** ** Counting links *)
Definition links (m : gmap GuestPath Z) (inode : Z) : nat :=
  length (filter (λ p : GuestPath * Z, p.2 = inode) (map_to_list m)).

Lemma link_count_links t i : link_count t i = links (tr_nodes t) i.
Proof. done. Qed.

Definition one_if (P : Prop) `{Decision P} : nat := if decide P then 1%nat else 0%nat.

Lemma links_insert m p i j : m !! p = None → links (<[p := i]> m) j = (one_if (i = j) + links m j)%nat.
Proof.
  intros H. unfold links, one_if. rewrite map_to_list_insert by done. rewrite filter_cons. simpl.
  by destruct (decide (i = j)).
Qed.

Lemma links_delete m p i j : m !! p = Some i → links m j = (one_if (i = j) + links (delete p m) j)%nat.
Proof.
  intros H. rewrite <- (insert_delete_id m p i) at 1 by done. apply links_insert, lookup_delete_eq.
Qed.

Lemma links_zero m i : links m i = 0%nat ↔ ∀ p, m !! p ≠ Some i.
Proof.
  unfold links. rewrite length_zero_iff_nil. split.
  - intros H p Hp. assert (Hin : (p, i) ∈ filter (λ p : GuestPath * Z, p.2 = i) (map_to_list m)).
    { apply list_elem_of_filter. split; [done|]. by apply elem_of_map_to_list. }
    rewrite H in Hin. by apply elem_of_nil in Hin.
  - intros H. apply elem_of_nil_inv. intros [p j] Hin. apply list_elem_of_filter in Hin as [Hj Hin].
    simpl in Hj. subst j. apply elem_of_map_to_list in Hin. by apply (H p).
Qed.

Lemma links_unique m p i : links m i = 1%nat → m !! p = Some i → ∀ q, m !! q = Some i → q = p.
Proof.
  intros H1 Hp q Hq. destruct (decide (q = p)) as [|Hne]; [done|exfalso].
  rewrite (links_delete m p i i Hp) in H1. unfold one_if in H1. rewrite decide_True in H1 by done.
  assert (H0 : links (delete p m) i = 0%nat) by lia.
  apply (proj1 (links_zero _ _) H0 q). by rewrite lookup_delete_ne.
Qed.

(** ** The invariant *)
Definition child (t : PathTree) (p : GuestPath) (x : string) : option Z :=
  tr_children t !! p ≫= λ c, c !! x.

(** The index of children. *)
Record tree_index (t : PathTree) : Prop := {
  ti_child p x : child t p x = tr_nodes t !! (p ++ [x]);
  ti_nonempty p c : tr_children t !! p = Some c → c ≠ ∅;
}.

(** What the tree says of a node. *)
Record node_wf (t : PathTree) (i : Z) (n : PathNode) : Prop := {
  nw_id : pn_inode_id n = i;
  nw_dir : is_directory_attr (pn_attr n) = is_directory n;
  nw_links : is_directory n = false → at_nlink (pn_attr n) = Z.of_nat (links (tr_nodes t) i);
  nw_one : is_directory n = true → (links (tr_nodes t) i ≤ 1)%nat;
  nw_fresh : 0 ≤ i < tr_next_inode_id t ∨ PROC_INODE_ID ≤ i;
  nw_deferred : is_Some (pn_deferred_host_path n) → pn_kind n = NFile;
}.

Definition dir_at (t : PathTree) (p : GuestPath) : Prop :=
  ∃ n, lookup_path t p = Some n ∧ is_directory n = true.

Record tree_wf (t : PathTree) : Prop := {
  tw_index : tree_index t;
  tw_root : dir_at t [];
  tw_dom p i : tr_nodes t !! p = Some i → is_Some (tr_inodes t !! i);
  tw_parent p x i : tr_nodes t !! (p ++ [x]) = Some i → dir_at t p;
  tw_node i n : tr_inodes t !! i = Some n → node_wf t i n;
  tw_next : 1 ≤ tr_next_inode_id t ≤ PROC_INODE_ID;
}.

Lemma lookup_path_Some t p n :
  lookup_path t p = Some n ↔ ∃ i, tr_nodes t !! p = Some i ∧ tr_inodes t !! i = Some n.
Proof. unfold lookup_path. rewrite bind_Some. done. Qed.

Lemma lookup_path_None t p : tree_wf t → lookup_path t p = None ↔ tr_nodes t !! p = None.
Proof.
  intros Hwf. unfold lookup_path. destruct (tr_nodes t !! p) as [i|] eqn:E; simpl; [|done].
  destruct (tw_dom t Hwf p i E) as [n ->]. done.
Qed.

Lemma lookup_path_id t p n : tree_wf t → lookup_path t p = Some n → tr_nodes t !! p = Some (pn_inode_id n).
Proof.
  intros Hwf (i & Hp & Hn)%lookup_path_Some. by rewrite (nw_id _ _ _ (tw_node t Hwf i n Hn)).
Qed.

Lemma tree_prefix_dir t p r i :
  tree_wf t → tr_nodes t !! (p ++ r) = Some i → r ≠ [] → dir_at t p.
Proof.
  intros Hwf. revert i. induction r as [|x r IH] using rev_ind; [done|]. intros i Hi _.
  rewrite app_assoc in Hi. pose proof (tw_parent t Hwf _ _ _ Hi) as Hd.
  destruct r as [|y r]; [by rewrite app_nil_r in Hd|].
  destruct Hd as (n & (j & Hj & _)%lookup_path_Some & _). by apply (IH j).
Qed.

Lemma dir_path_unique t p q i n :
  tree_wf t → tr_nodes t !! p = Some i → tr_nodes t !! q = Some i → tr_inodes t !! i = Some n →
  is_directory n = true → q = p.
Proof.
  intros Hwf Hp Hq Hn Hd. pose proof (nw_one _ _ _ (tw_node t Hwf i n Hn) Hd) as H1.
  assert (links (tr_nodes t) i ≠ 0%nat).
  { intros H0. by apply (proj1 (links_zero _ _) H0 p). }
  eapply links_unique; [|exact Hp|exact Hq]. lia.
Qed.

(** ** The index of children *)
Lemma index_child_nodes p i t : tr_nodes (index_child p i t) = tr_nodes t.
Proof. unfold index_child. by repeat case_match. Qed.
Lemma index_child_inodes p i t : tr_inodes (index_child p i t) = tr_inodes t.
Proof. unfold index_child. by repeat case_match. Qed.
Lemma index_child_next p i t : tr_next_inode_id (index_child p i t) = tr_next_inode_id t.
Proof. unfold index_child. by repeat case_match. Qed.
Lemma unindex_child_nodes p t : tr_nodes (unindex_child p t) = tr_nodes t.
Proof. unfold unindex_child. by repeat case_match. Qed.
Lemma unindex_child_inodes p t : tr_inodes (unindex_child p t) = tr_inodes t.
Proof. unfold unindex_child. by repeat case_match. Qed.
Lemma unindex_child_next p t : tr_next_inode_id (unindex_child p t) = tr_next_inode_id t.
Proof. unfold unindex_child. by repeat case_match. Qed.

Lemma index_child_child p x i t q y :
  child (index_child (p ++ [x]) i t) q y = if decide (q = p ∧ y = x) then Some i else child t q y.
Proof.
  unfold index_child, child. rewrite parent_snoc, file_name_snoc. simpl.
  destruct (decide (q = p)) as [->|Hq].
  - rewrite lookup_insert_eq. simpl. destruct (decide (y = x)) as [->|Hy].
    + rewrite lookup_insert_eq, decide_True by done. done.
    + rewrite lookup_insert_ne, decide_False by naive_solver.
      destruct (tr_children t !! p); [done|]. apply lookup_empty.
  - rewrite lookup_insert_ne, decide_False by naive_solver. done.
Qed.

Lemma unindex_child_child p x t q y :
  child (unindex_child (p ++ [x]) t) q y = if decide (q = p ∧ y = x) then None else child t q y.
Proof.
  unfold unindex_child, child. rewrite parent_snoc, file_name_snoc. simpl.
  destruct (tr_children t !! p) as [c|] eqn:Ec.
  - case_bool_decide as Hc.
    + destruct (decide (q = p)) as [->|Hq].
      * rewrite lookup_delete_eq. simpl. destruct (decide (p = p ∧ y = x)) as [|Hy]; [done|].
        assert (Hd : delete x c !! y = None) by (by rewrite Hc). rewrite lookup_delete_ne in Hd by naive_solver. by rewrite Ec.
      * rewrite lookup_delete_ne, decide_False by naive_solver. done.
    + destruct (decide (q = p)) as [->|Hq].
      * rewrite lookup_insert_eq, Ec. simpl. destruct (decide (y = x)) as [->|Hy].
        -- rewrite lookup_delete_eq, decide_True by done. done.
        -- rewrite lookup_delete_ne, decide_False by naive_solver. done.
      * rewrite lookup_insert_ne, decide_False by naive_solver. done.
  - destruct (decide (q = p ∧ y = x)) as [[-> ->]|]; [by rewrite Ec|done].
Qed.

Lemma index_child_nonempty p i t :
  (∀ q c, tr_children t !! q = Some c → c ≠ ∅) →
  ∀ q c, tr_children (index_child p i t) !! q = Some c → c ≠ ∅.
Proof.
  intros H q c. unfold index_child. repeat case_match; [|by apply H..]. simpl.
  intros [[-> <-]|[_ Hc]]%lookup_insert_Some; [apply insert_non_empty|by eapply H].
Qed.

Lemma unindex_child_nonempty p t :
  (∀ q c, tr_children t !! q = Some c → c ≠ ∅) →
  ∀ q c, tr_children (unindex_child p t) !! q = Some c → c ≠ ∅.
Proof.
  intros H q c. unfold unindex_child. destruct (parent p) as [d|]; [|by apply H].
  destruct (file_name p) as [x|]; [|by apply H]. simpl.
  destruct (tr_children t !! d) as [cs|]; [|by apply H]. case_bool_decide.
  - intros [_ Hc]%lookup_delete_Some. by eapply H.
  - intros [[-> <-]|[_ Hc]]%lookup_insert_Some; [done|by eapply H].
Qed.

(** Linking and unlinking one path. *)
Definition link_at (p : GuestPath) (i : Z) (t : PathTree) : PathTree :=
  index_child p i (set_nodes (insert p i) t).
Definition unlink_at (p : GuestPath) (t : PathTree) : PathTree :=
  unindex_child p (set_nodes (delete p) t).

Lemma link_at_nodes p i t : tr_nodes (link_at p i t) = <[p := i]> (tr_nodes t).
Proof. unfold link_at. by rewrite index_child_nodes. Qed.
Lemma link_at_inodes p i t : tr_inodes (link_at p i t) = tr_inodes t.
Proof. unfold link_at. by rewrite index_child_inodes. Qed.
Lemma link_at_next p i t : tr_next_inode_id (link_at p i t) = tr_next_inode_id t.
Proof. unfold link_at. by rewrite index_child_next. Qed.
Lemma unlink_at_nodes p t : tr_nodes (unlink_at p t) = delete p (tr_nodes t).
Proof. unfold unlink_at. by rewrite unindex_child_nodes. Qed.
Lemma unlink_at_inodes p t : tr_inodes (unlink_at p t) = tr_inodes t.
Proof. unfold unlink_at. by rewrite unindex_child_inodes. Qed.
Lemma unlink_at_next p t : tr_next_inode_id (unlink_at p t) = tr_next_inode_id t.
Proof. unfold unlink_at. by rewrite unindex_child_next. Qed.

Lemma link_at_index p i t : p ≠ [] → tree_index t → tree_index (link_at p i t).
Proof.
  intros Hp [Hc Hne]. destruct (path_cases p) as [->|(q & x & ->)]; [done|]. split.
  - intros r y. rewrite link_at_nodes. unfold link_at. rewrite index_child_child.
    destruct (decide (r = q ∧ y = x)) as [[-> ->]|Hry]; [by rewrite lookup_insert_eq|].
    rewrite lookup_insert_ne; [apply Hc|]. intros E. apply app_inj_tail in E as [-> ->]. by apply Hry.
  - unfold link_at. by apply index_child_nonempty.
Qed.

Lemma unlink_at_index p t : p ≠ [] → tree_index t → tree_index (unlink_at p t).
Proof.
  intros Hp [Hc Hne]. destruct (path_cases p) as [->|(q & x & ->)]; [done|]. split.
  - intros r y. rewrite unlink_at_nodes. unfold unlink_at. rewrite unindex_child_child.
    destruct (decide (r = q ∧ y = x)) as [[-> ->]|Hry]; [by rewrite lookup_delete_eq|].
    rewrite lookup_delete_ne; [apply Hc|]. intros E. apply app_inj_tail in E as [-> ->]. by apply Hry.
  - unfold unlink_at. by apply unindex_child_nonempty.
Qed.

Lemma tree_index_inodes f t : tree_index t → tree_index (set_inodes f t).
Proof. intros [H1 H2]. by split. Qed.

Lemma is_empty_directory_spec t p :
  tree_index t → is_empty_directory t p = true ↔ ∀ x, tr_nodes t !! (p ++ [x]) = None.
Proof.
  intros [Hc Hne]. unfold is_empty_directory. split.
  - intros H x. rewrite <- Hc. unfold child. destruct (tr_children t !! p) as [c|] eqn:E; [|done].
    apply bool_decide_eq_true in H. by destruct (Hne p c E).
  - intros H. destruct (tr_children t !! p) as [c|] eqn:E; [|done]. apply bool_decide_eq_true.
    apply map_empty. intros x. rewrite <- (H x), <- Hc. unfold child. by rewrite E.
Qed.

(** ** Changing a node in place *)
Lemma lookup_path_set_inode t i n p :
  lookup_path (set_inodes (insert i n) t) p =
  if decide (tr_nodes t !! p = Some i) then Some n else lookup_path t p.
Proof.
  unfold lookup_path. simpl. destruct (tr_nodes t !! p) as [j|]; [|done]. cbn [mbind option_bind].
  destruct (decide (Some j = Some i)) as [[= ->]|Hne]; [by rewrite lookup_insert_eq|].
  rewrite lookup_insert_ne; [done|]. congruence.
Qed.

(** An update of a node that keeps its kind, its id and its link count. *)
Record same_shape (n n' : PathNode) : Prop := {
  ss_id : pn_inode_id n' = pn_inode_id n;
  ss_kind : pn_kind n' = pn_kind n;
  ss_bits : kind_bits (pn_attr n') = kind_bits (pn_attr n);
  ss_nlink : at_nlink (pn_attr n') = at_nlink (pn_attr n);
  ss_deferred : is_Some (pn_deferred_host_path n') → is_Some (pn_deferred_host_path n);
}.

Lemma same_shape_directory n n' : same_shape n n' → is_directory n' = is_directory n.
Proof. intros [_ Hk _ _ _]. unfold is_directory. by rewrite Hk. Qed.

Lemma same_shape_dir_attr n n' : same_shape n n' → is_directory_attr (pn_attr n') = is_directory_attr (pn_attr n).
Proof. intros [_ _ Hb _ _]. unfold is_directory_attr. by rewrite Hb. Qed.

Lemma dir_at_set_inode t i n n' p :
  tr_inodes t !! i = Some n → is_directory n' = is_directory n →
  dir_at t p → dir_at (set_inodes (insert i n') t) p.
Proof.
  intros Hn Hd (m & Hm & Hdm). unfold dir_at. rewrite lookup_path_set_inode.
  destruct (decide (tr_nodes t !! p = Some i)) as [E|]; [|by eauto].
  exists n'. split; [done|]. apply lookup_path_Some in Hm as (j & Hj & Hm).
  rewrite E in Hj. injection Hj as <-. rewrite Hn in Hm. injection Hm as <-. by rewrite Hd.
Qed.

Lemma node_wf_nodes t t' i n :
  (∀ j, links (tr_nodes t') j = links (tr_nodes t) j) → tr_next_inode_id t = tr_next_inode_id t' →
  node_wf t i n → node_wf t' i n.
Proof. intros Hl Hx [H1 H2 H3 H4 H5 H6]. split; rewrite ?Hl, <- ?Hx; done. Qed.

Lemma tree_wf_update t i n n' :
  tree_wf t → tr_inodes t !! i = Some n → same_shape n n' → tree_wf (set_inodes (insert i n') t).
Proof.
  intros Hwf Hn Hs. pose proof (same_shape_directory _ _ Hs) as Hd.
  pose proof (same_shape_dir_attr _ _ Hs) as Hda.
  assert (Hdir : ∀ p, dir_at t p → dir_at (set_inodes (insert i n') t) p).
  { intros p. by apply (dir_at_set_inode t i n n' p). }
  destruct Hwf as [[Hi1 Hi2] Hr Hdom Hpar Hnode Hnext]. split; simpl; try done.
  - by apply Hdir.
  - intros p j Hj. destruct (decide (j = i)) as [->|]; [by rewrite lookup_insert_eq|].
    rewrite lookup_insert_ne by done. by eapply Hdom.
  - intros p x j Hj. by eapply Hdir, Hpar.
  - intros j m. destruct (decide (j = i)) as [->|Hne].
    + rewrite lookup_insert_eq. intros [= <-]. destruct (Hnode i n Hn) as [H1 H2 H3 H4 H5 H6].
      split; simpl; rewrite ?Hd, ?Hda, ?(ss_id _ _ Hs), ?(ss_nlink _ _ Hs), ?(ss_kind _ _ Hs); try done.
      intros Hn'. by apply H6, (ss_deferred _ _ Hs).
    + rewrite lookup_insert_ne by done. intros Hm. destruct (Hnode j m Hm). by split.
Qed.

(** An update of the attributes that keeps the type and the link count. *)
Definition keeps_type (f : LinuxFileAttr → LinuxFileAttr) : Prop :=
  ∀ a, kind_bits (f a) = kind_bits a ∧ at_nlink (f a) = at_nlink a.

Lemma same_shape_attr f n : keeps_type f → same_shape n (set_attr f n).
Proof. intros H. split; try done; apply H. Qed.

Lemma land_masks m a b : Z.land a b = b → Z.land (Z.land m a) b = Z.land m b.
Proof. intros H. by rewrite <- Z.land_assoc, H. Qed.

Lemma set_mode_keeps mode : keeps_type (set_mode mode).
Proof.
  intros a. split; [|done]. unfold kind_bits. simpl. rewrite Z.land_lor_distr_l, <- !Z.land_assoc.
  change (Z.land 0xfff S_IFMT) with 0. rewrite Z.land_0_r, Z.lor_0_r. by change (Z.land S_IFMT S_IFMT) with S_IFMT.
Qed.

Lemma set_owner_keeps uid gid : keeps_type (set_owner uid gid).
Proof. done. Qed.
Lemma set_file_size_keeps size : keeps_type (set_file_size size).
Proof. done. Qed.
Lemma set_times_keeps times : keeps_type (set_times times).
Proof. done. Qed.

(** ** Fresh nodes *)
Lemma attr_new_bits inode mode size :
  kind_bits (attr_new inode mode size) = Z.land mode S_IFMT.
Proof. done. Qed.

Lemma typed_mode_bits kind mode :
  Z.land kind S_IFMT = kind → Z.land (Z.lor kind (Z.land mode 0xfff)) S_IFMT = kind.
Proof.
  intros Hk. rewrite Z.land_lor_distr_l, Hk, <- Z.land_assoc. change (Z.land 0xfff S_IFMT) with 0.
  by rewrite Z.land_0_r, Z.lor_0_r.
Qed.

Lemma directory_bits inode mode : kind_bits (directory_with_mode inode mode) = S_IFDIR.
Proof. unfold directory_with_mode. rewrite attr_new_bits. by apply typed_mode_bits. Qed.
Lemma regular_bits inode mode size : kind_bits (regular inode mode size) = S_IFREG.
Proof. unfold regular. rewrite attr_new_bits. by apply typed_mode_bits. Qed.
Lemma character_device_bits inode mode : kind_bits (character_device inode mode) = S_IFCHR.
Proof. unfold character_device. rewrite attr_new_bits. by apply typed_mode_bits. Qed.
Lemma regular_nlink inode mode size : at_nlink (regular inode mode size) = 1.
Proof.
  unfold regular, attr_new. cbn [at_nlink]. rewrite typed_mode_bits by done. done.
Qed.
Lemma character_device_nlink inode mode : at_nlink (character_device inode mode) = 1.
Proof.
  unfold character_device, attr_new. cbn [at_nlink]. rewrite typed_mode_bits by done. done.
Qed.

(** A new node: the type bits agree with the kind, and a file starts with one link. *)
Record new_node (n : PathNode) : Prop := {
  nn_dir : is_directory_attr (pn_attr n) = is_directory n;
  nn_link : is_directory n = false → at_nlink (pn_attr n) = 1;
  nn_deferred : is_Some (pn_deferred_host_path n) → pn_kind n = NFile;
}.

Lemma new_file i mode size data host :
  new_node {| pn_inode_id := i; pn_kind := NFile; pn_attr := regular i mode size; pn_data := data;
              pn_deferred_host_path := host |}.
Proof.
  split; [|intros _; apply regular_nlink|done]. unfold is_directory_attr. simpl. by rewrite regular_bits.
Qed.

Lemma new_directory i mode : new_node (node_new i NDirectory (directory_with_mode i mode)).
Proof. split; [|done|by intros []]. unfold is_directory_attr. simpl. by rewrite directory_bits. Qed.

Lemma new_symlink i target size : new_node (node_new i (NSymlink target) (symlink i size)).
Proof. split; try done. by intros []. Qed.

Lemma new_device i kind mode : new_node (node_new i (NDevice kind) (character_device i mode)).
Proof.
  split; [|intros _; apply character_device_nlink|by intros []]. unfold is_directory_attr. simpl. by rewrite character_device_bits.
Qed.

Lemma new_proc i kind mode : new_node (node_new i (NProc kind) (proc_attr kind i mode)).
Proof.
  destruct kind; split; first
    [ intros _; apply regular_nlink | done | by intros []
    | unfold is_directory_attr; cbn [pn_attr node_new proc_attr];
      rewrite ?directory_bits, ?regular_bits; done ].
Qed.

(** ** The operations, in one equation each *)
Lemma insert_path_node_eq p n t :
  insert_path_node p n t =
  if bool_decide (is_Some (tr_nodes t !! p)) then (Err AlreadyExists, t)
  else (Ok tt, link_at p (pn_inode_id n) (set_inodes (insert (pn_inode_id n) n) t)).
Proof. unfold insert_path_node, bind, gets, id. by case_bool_decide. Qed.

Lemma insert_link_eq p i t :
  insert_link p i t =
  if bool_decide (is_Some (tr_nodes t !! p)) then (Err AlreadyExists, t)
  else if negb (bool_decide (is_Some (tr_inodes t !! i))) then (Err NoEntry, t)
  else (Ok tt, link_at p i t).
Proof. unfold insert_link, bind, gets, id. by repeat case_bool_decide. Qed.

Lemma remove_path_link_eq p t :
  remove_path_link p t =
  match tr_nodes t !! p with
  | None => (Err NoEntry, t)
  | Some i => (Ok i, unlink_at p t)
  end.
Proof. unfold remove_path_link, bind, gets, lift, id. by destruct (tr_nodes t !! p). Qed.

Lemma allocate_inode_id_eq t :
  allocate_inode_id t = (Ok (tr_next_inode_id t), set_next_inode_id (wadd (tr_next_inode_id t) 1) t).
Proof. done. Qed.

Lemma ensure_parent_dir_Ok t p :
  ensure_parent_dir t p = Ok tt ↔ ∃ q x, p = q ++ [x] ∧ dir_at t q.
Proof.
  unfold ensure_parent_dir, is_root. destruct (path_cases p) as [->|(q & x & ->)].
  - split; [done|]. intros (q & x & E & _). by destruct q.
  - rewrite bool_decide_eq_false_2 by (by destruct q). rewrite parent_snoc. cbn [ok_or obind]. split.
    + intros H. exists q, x. split; [done|]. destruct (lookup_path t q) as [n|] eqn:E; [|done].
      exists n. split; [done|]. by destruct (is_directory n).
    + intros (q' & x' & E & n & Hn & Hd). apply app_inj_tail in E as [<- <-]. by rewrite Hn, Hd.
Qed.

Lemma ensure_parent_dir_no_panic t p : ensure_parent_dir t p ≠ Panic.
Proof.
  unfold ensure_parent_dir. case_match; [done|]. destruct (parent p); [|done]. simpl. by repeat case_match.
Qed.

(** ** The operations keep the invariant *)
Lemma tree_fresh_id t : tree_wf t → tr_next_inode_id t < PROC_INODE_ID → tr_inodes t !! tr_next_inode_id t = None.
Proof.
  intros Hwf Hlt. destruct (tr_inodes t !! tr_next_inode_id t) as [n|] eqn:E; [|done].
  destruct (nw_fresh _ _ _ (tw_node t Hwf _ n E)); lia.
Qed.

Lemma tree_wf_allocate t :
  tree_wf t → tr_next_inode_id t < PROC_INODE_ID →
  tree_wf (set_next_inode_id (wadd (tr_next_inode_id t) 1) t).
Proof.
  intros [[Hi1 Hi2] Hr Hdom Hpar Hnode Hnext] Hlt.
  rewrite wadd_exact by (unfold PROC_INODE_ID in *; lia). split; simpl; try done; [|lia].
  intros i n Hn. destruct (Hnode i n Hn) as [H1 H2 H3 H4 H5 H6]. split; try done. simpl. lia.
Qed.

Lemma links_fresh t i : tree_wf t → tr_inodes t !! i = None → links (tr_nodes t) i = 0%nat.
Proof.
  intros Hwf Hi. apply links_zero. intros p Hp. destruct (tw_dom t Hwf p i Hp) as [n Hn]. congruence.
Qed.

Lemma lookup_link_new t p i n q :
  tree_wf t → tr_inodes t !! i = None →
  lookup_path (link_at p i (set_inodes (insert i n) t)) q = if decide (q = p) then Some n else lookup_path t q.
Proof.
  intros Hwf Hi. unfold lookup_path. rewrite link_at_nodes, link_at_inodes. simpl.
  destruct (decide (q = p)) as [->|Hq].
  - rewrite lookup_insert_eq. simpl. by rewrite lookup_insert_eq.
  - rewrite lookup_insert_ne by done. destruct (tr_nodes t !! q) as [j|] eqn:E; [|done]. simpl.
    rewrite lookup_insert_ne; [done|]. intros <-. destruct (tw_dom t Hwf q i E). congruence.
Qed.

Lemma tree_wf_insert t p q x i n :
  tree_wf t → p = q ++ [x] → dir_at t q → tr_nodes t !! p = None → tr_inodes t !! i = None →
  pn_inode_id n = i → new_node n → 0 ≤ i < tr_next_inode_id t ∨ PROC_INODE_ID ≤ i →
  tree_wf (link_at p i (set_inodes (insert i n) t)).
Proof.
  intros Hwf Hp Hq Hnone Hi Hid [Hnd Hnl Hnf] Hfr. pose proof (links_fresh t i Hwf Hi) as Hl0.
  assert (Hdir : ∀ r, dir_at t r → dir_at (link_at p i (set_inodes (insert i n) t)) r).
  { intros r (m & Hm & Hd). exists m. split; [|done]. rewrite lookup_link_new by done.
    destruct (decide (r = p)) as [->|]; [|done].
    apply lookup_path_Some in Hm as (j & Hj & _). congruence. }
  assert (Hlk : ∀ j, links (<[p := i]> (tr_nodes t)) j = (one_if (i = j) + links (tr_nodes t) j)%nat).
  { intros j. by apply links_insert. }
  split.
  - apply link_at_index; [subst p; by destruct q|]. apply tree_index_inodes, Hwf.
  - apply Hdir, Hwf.
  - intros r j. rewrite link_at_nodes, link_at_inodes. simpl. intros [[<- <-]|[Hne Hj]]%lookup_insert_Some.
    + by rewrite lookup_insert_eq.
    + destruct (decide (j = i)) as [->|]; [by rewrite lookup_insert_eq|].
      rewrite lookup_insert_ne by done. by eapply Hwf.
  - intros r y j. rewrite link_at_nodes. intros [[E <-]|[Hne Hj]]%lookup_insert_Some.
    + rewrite Hp in E. apply app_inj_tail in E as [<- _]. by apply Hdir.
    + by eapply Hdir, tw_parent.
  - intros j m. rewrite link_at_inodes. simpl. intros [[<- <-]|[Hne Hm]]%lookup_insert_Some.
    + split; try done; rewrite ?link_at_nodes, ?link_at_next; simpl; try done; rewrite Hlk, Hl0;
        unfold one_if; rewrite decide_True by done; [|lia]. intros Hd. by rewrite Hnl.
    + destruct (tw_node t Hwf j m Hm) as [H1 H2 H3 H4 H5 H6].
      split; try done; rewrite ?link_at_nodes, ?link_at_next; simpl; rewrite ?Hlk; unfold one_if;
        rewrite ?decide_False by done; done.
  - rewrite link_at_next. apply Hwf.
Qed.

(** *** Hard links *)
Definition with_nlink (f : LinuxFileAttr → LinuxFileAttr) (d : Z) : Prop :=
  ∀ a, kind_bits (f a) = kind_bits a ∧ at_nlink (f a) = at_nlink a + d.

Lemma increment_keeps a b : increment_link_count a = Ok b → kind_bits b = kind_bits a ∧ at_nlink b = at_nlink a + 1.
Proof.
  unfold increment_link_count. destruct (checked_add64 _ _) as [k|] eqn:E; [|done]. simpl. intros [= <-].
  apply checked_add64_Some in E as [-> _]. done.
Qed.

Lemma lookup_link_old t p i q :
  tr_nodes t !! p = None →
  lookup_path (link_at p i t) q = if decide (q = p) then tr_inodes t !! i else lookup_path t q.
Proof.
  intros Hp. unfold lookup_path. rewrite link_at_nodes, link_at_inodes.
  destruct (decide (q = p)) as [->|Hq]; [by rewrite lookup_insert_eq|]. by rewrite lookup_insert_ne.
Qed.

Lemma tree_wf_link t p q x i n n' :
  tree_wf t → p = q ++ [x] → dir_at t q → tr_nodes t !! p = None → tr_inodes t !! i = Some n →
  is_directory n = false → pn_inode_id n' = i → pn_kind n' = pn_kind n →
  kind_bits (pn_attr n') = kind_bits (pn_attr n) → at_nlink (pn_attr n') = at_nlink (pn_attr n) + 1 →
  (is_Some (pn_deferred_host_path n') → is_Some (pn_deferred_host_path n)) →
  tree_wf (link_at p i (set_inodes (insert i n') t)).
Proof.
  intros Hwf Hp Hq Hnone Hi Hnd Hid Hk Hb Hl Hdef. destruct (tw_node t Hwf i n Hi) as [N1 N2 N3 N4 N5 N6].
  assert (Hd' : is_directory n' = is_directory n) by (unfold is_directory; by rewrite Hk).
  assert (Hdir : ∀ r, dir_at t r → dir_at (link_at p i (set_inodes (insert i n') t)) r).
  { intros r Hr. apply (dir_at_set_inode t i n n' r) in Hr as (m & Hm & Hd); [|done..].
    exists m. split; [|done]. rewrite lookup_link_old by done. destruct (decide (r = p)) as [->|]; [|done].
    apply lookup_path_Some in Hm as (j & Hj & _). simpl in Hj. congruence. }
  assert (Hlk : ∀ j, links (<[p := i]> (tr_nodes t)) j = (one_if (i = j) + links (tr_nodes t) j)%nat).
  { intros j. by apply links_insert. }
  split.
  - apply link_at_index; [subst p; by destruct q|]. apply tree_index_inodes, Hwf.
  - apply Hdir, Hwf.
  - intros r j. rewrite link_at_nodes, link_at_inodes. simpl. intros Hr.
    destruct (decide (j = i)) as [->|Hne]; [by rewrite lookup_insert_eq|]. rewrite lookup_insert_ne by done.
    apply lookup_insert_Some in Hr as [[_ <-]|[_ Hr]]; [done|by eapply Hwf].
  - intros r y j. rewrite link_at_nodes. intros [[E <-]|[Hne Hj]]%lookup_insert_Some.
    + rewrite Hp in E. apply app_inj_tail in E as [<- _]. by apply Hdir.
    + by eapply Hdir, tw_parent.
  - intros j m. rewrite link_at_inodes. simpl. intros [[<- <-]|[Hne Hm]]%lookup_insert_Some.
    + split; rewrite ?link_at_nodes, ?link_at_next; simpl; rewrite ?Hd'; try done.
      * unfold is_directory_attr in *. by rewrite Hb.
      * intros _. rewrite Hlk, Hl, N3 by done. unfold one_if. rewrite decide_True by done. lia.
      * congruence.
      * intros Hn. rewrite Hk. auto.
    + destruct (tw_node t Hwf j m Hm) as [H1 H2 H3 H4 H5 H6].
      split; try done; rewrite ?link_at_nodes, ?link_at_next; simpl; rewrite ?Hlk; unfold one_if;
        rewrite ?decide_False by done; done.
  - rewrite link_at_next. apply Hwf.
Qed.

(** *** Removing a link and dropping an inode without one *)
Definition drop_one (t : PathTree) (i : Z) : PathTree :=
  set_inodes (alter (set_attr decrement_link_count) i) t.

Lemma decrement_keeps a : kind_bits (decrement_link_count a) = kind_bits a.
Proof. done. Qed.

Lemma lookup_unlink t p i q n :
  tr_inodes t !! i = Some n →
  lookup_path (drop_one (unlink_at p t) i) q =
  if decide (q = p) then None
  else if decide (tr_nodes t !! q = Some i) then Some (set_attr decrement_link_count n) else lookup_path t q.
Proof.
  intros Hn. unfold lookup_path, drop_one. simpl. rewrite unlink_at_nodes, unlink_at_inodes.
  destruct (decide (q = p)) as [->|Hq]; [by rewrite lookup_delete_eq|]. rewrite lookup_delete_ne by done.
  destruct (tr_nodes t !! q) as [j|]; [|done]. cbn [mbind option_bind].
  destruct (decide (Some j = Some i)) as [[= ->]|Hne].
  - by rewrite lookup_alter_eq, Hn.
  - rewrite lookup_alter_ne; [done|]. congruence.
Qed.

(** Removing the link of [p]: a directory must be empty. *)
Lemma tree_wf_unlink t p q x i n :
  tree_wf t → p = q ++ [x] → tr_nodes t !! p = Some i → tr_inodes t !! i = Some n →
  (is_directory n = true → ∀ y, tr_nodes t !! (p ++ [y]) = None) →
  tree_wf (drop_one (unlink_at p t) i).
Proof.
  intros Hwf Hp Hi Hn Hempty. set (t' := drop_one (unlink_at p t) i).
  assert (Hlk : ∀ j, links (tr_nodes t) j = (one_if (i = j) + links (delete p (tr_nodes t)) j)%nat).
  { intros j. by apply links_delete. }
  assert (Hdir : ∀ r, r ≠ p → dir_at t r → dir_at t' r).
  { intros r Hr (m & Hm & Hd). unfold dir_at, t'. rewrite (lookup_unlink t p i r n Hn), decide_False by done.
    destruct (decide (tr_nodes t !! r = Some i)) as [E|]; [|by eauto].
    exists (set_attr decrement_link_count n). split; [done|].
    apply lookup_path_Some in Hm as (j & Hj & Hm). rewrite E in Hj. injection Hj as <-.
    rewrite Hn in Hm. injection Hm as <-. done. }
  assert (Hpne : p ≠ []) by (subst p; by destruct q). split.
  - unfold t', drop_one. apply tree_index_inodes, unlink_at_index; [done|apply Hwf].
  - apply Hdir; [done|apply Hwf].
  - intros r j. unfold t', drop_one. simpl. rewrite unlink_at_nodes, unlink_at_inodes.
    intros [_ Hj]%lookup_delete_Some. rewrite lookup_alter_is_Some. by eapply Hwf.
  - intros r y j. unfold t' at 1, drop_one. simpl. rewrite unlink_at_nodes.
    intros [Hne Hj]%lookup_delete_Some. pose proof (tw_parent t Hwf r y j Hj) as Hrd.
    apply Hdir; [|done]. intros ->. destruct Hrd as (m & (k & Hk & Hm)%lookup_path_Some & Hd).
    rewrite Hi in Hk. injection Hk as <-. rewrite Hn in Hm. injection Hm as <-.
    rewrite Hempty in Hj; done.
  - intros j m. unfold t', drop_one. simpl. rewrite unlink_at_inodes.
    destruct (decide (j = i)) as [->|Hne].
    + rewrite lookup_alter_eq, Hn. intros [= <-]. destruct (tw_node t Hwf i n Hn) as [H1 H2 H3 H4 H5 H6].
      specialize (Hlk i). unfold one_if in Hlk. rewrite decide_True in Hlk by done.
      split; simpl; rewrite ?unlink_at_nodes, ?unlink_at_next; try done.
      * intros Hd. rewrite H3 by done. lia.
      * intros Hd. specialize (H4 Hd). lia.
    + rewrite lookup_alter_ne by done. intros Hm. destruct (tw_node t Hwf j m Hm) as [H1 H2 H3 H4 H5 H6].
      assert (E : links (delete p (tr_nodes t)) j = links (tr_nodes t) j).
      { rewrite Hlk. unfold one_if. rewrite decide_False by done. done. }
      split; simpl; rewrite ?unlink_at_nodes, ?unlink_at_next, ?E; done.
  - unfold t', drop_one. simpl. rewrite unlink_at_next. apply Hwf.
Qed.

Lemma tree_wf_delete t i : tree_wf t → links (tr_nodes t) i = 0%nat → tree_wf (set_inodes (delete i) t).
Proof.
  intros Hwf Hl. pose proof (proj1 (links_zero _ _) Hl) as Hno.
  assert (Hlk : ∀ r, lookup_path (set_inodes (delete i) t) r = lookup_path t r).
  { intros r. unfold lookup_path. simpl. destruct (tr_nodes t !! r) as [j|] eqn:E; [|done]. simpl.
    rewrite lookup_delete_ne; [done|]. intros <-. by apply (Hno r). }
  assert (Hdir : ∀ r, dir_at t r → dir_at (set_inodes (delete i) t) r).
  { intros r (m & Hm & Hd). exists m. by rewrite Hlk. }
  split.
  - apply tree_index_inodes, Hwf.
  - apply Hdir, Hwf.
  - simpl. intros r j Hj. rewrite lookup_delete_ne; [by eapply Hwf|]. intros <-. by apply (Hno r).
  - simpl. intros r y j Hj. by eapply Hdir, tw_parent.
  - simpl. intros j m [_ Hm]%lookup_delete_Some. destruct (tw_node t Hwf j m Hm). by split.
  - simpl. apply Hwf.
Qed.

(** ** Renaming a set of paths

    [remove_links] takes the paths out and [insert_links] puts them back elsewhere. *)
Definition only_paths (t t' : PathTree) : Prop :=
  tr_inodes t' = tr_inodes t ∧ tr_next_inode_id t' = tr_next_inode_id t.

Lemma only_paths_trans t1 t2 t3 : only_paths t1 t2 → only_paths t2 t3 → only_paths t1 t3.
Proof. intros [H1 H2] [H3 H4]. split; congruence. Qed.

(** ** mcr-vfs: renaming in the tree

    What [remove_links] and [insert_links] do to the paths, and the renamings of a subtree
    and of two subtrees built from them. *)

Implicit Types (old new : GuestPath).

(** The paths of the tree, listed once each. *)
Lemma insert_by_perm {A} (le : A → A → bool) x l : insert_by le x l ≡ₚ x :: l.
Proof. induction l as [|y l IH]; simpl; [done|]. case_match; [done|]. rewrite IH. apply perm_swap. Qed.

Lemma sort_by_perm {A} (le : A → A → bool) l : sort_by le l ≡ₚ l.
Proof. induction l as [|x l IH]; simpl; [done|]. rewrite insert_by_perm. by constructor. Qed.

Lemma elem_of_tree_paths t p : p ∈ tree_paths t ↔ is_Some (tr_nodes t !! p).
Proof.
  unfold tree_paths. rewrite sort_by_perm, list_elem_of_fmap. split.
  - intros ([q i] & -> & Hin). apply elem_of_map_to_list in Hin. eauto.
  - intros [i Hi]. exists (p, i). split; [done|]. by apply elem_of_map_to_list.
Qed.

Lemma NoDup_tree_paths t : NoDup (tree_paths t).
Proof. unfold tree_paths. rewrite sort_by_perm. apply NoDup_fst_map_to_list. Qed.

Lemma elem_of_paths_under t p old : p ∈ paths_under_prefix t old ↔ old `prefix_of` p ∧ is_Some (tr_nodes t !! p).
Proof.
  unfold paths_under_prefix, starts_with. by rewrite list_elem_of_filter, elem_of_tree_paths, bool_decide_spec.
Qed.

Lemma NoDup_paths_under t old : NoDup (paths_under_prefix t old).
Proof. apply NoDup_filter, NoDup_tree_paths. Qed.

(** ** Removing and inserting *)
Fixpoint unlink_all (ps : list GuestPath) (t : PathTree) : PathTree :=
  match ps with [] => t | p :: ps => unlink_all ps (unlink_at p t) end.

Fixpoint link_all (ups : list (GuestPath * Z)) (t : PathTree) : PathTree :=
  match ups with [] => t | (p, i) :: ups => link_all ups (link_at p i t) end.

(** The new place of each path with the inode it had. *)
Definition moved (t : PathTree) (f : GuestPath → GuestPath) (ps : list GuestPath) : list (GuestPath * Z) :=
  omap (λ p, (λ i, (f p, i)) <$> tr_nodes t !! p) ps.

Lemma moved_cons t f p ps :
  moved t f (p :: ps) =
  match tr_nodes t !! p with Some i => (f p, i) :: moved t f ps | None => moved t f ps end.
Proof. unfold moved. simpl. by destruct (tr_nodes t !! p). Qed.

Lemma moved_ext t t' f ps :
  (∀ p, p ∈ ps → tr_nodes t' !! p = tr_nodes t !! p) → moved t' f ps = moved t f ps.
Proof.
  induction ps as [|p ps IH]; [done|]. intros H. rewrite !moved_cons, (H p) by (by left).
  rewrite IH; [done|]. intros q Hq. apply H. by right.
Qed.

Lemma remove_links_eq ps old new t :
  NoDup ps → (∀ p, p ∈ ps → is_Some (tr_nodes t !! p)) →
  remove_links ps old new t = (Ok (moved t (λ p, replace_prefix p old new) ps), unlink_all ps t).
Proof.
  revert t. induction ps as [|p ps IH]; intros t Hnd Hin; [done|].
  apply NoDup_cons in Hnd as [Hp Hnd]. destruct (Hin p) as [i Hi]; [by left|].
  rewrite moved_cons. cbn [remove_links unlink_all]. unfold bind at 1. rewrite remove_path_link_eq, Hi.
  unfold bind. rewrite IH; [|done|].
  - unfold ret. do 3 f_equal. apply moved_ext. intros q Hq. rewrite unlink_at_nodes, lookup_delete_ne; [done|]. by intros ->.
  - intros q Hq. rewrite unlink_at_nodes, lookup_delete_ne; [|by intros ->]. apply Hin. by right.
Qed.

Lemma unlink_all_nodes ps t q :
  tr_nodes (unlink_all ps t) !! q = if decide (q ∈ ps) then None else tr_nodes t !! q.
Proof.
  revert t. induction ps as [|p ps IH]; intros t; [done|]. simpl. rewrite IH, unlink_at_nodes.
  destruct (decide (q ∈ ps)) as [Hq|Hq].
  - rewrite decide_True by (by right). done.
  - destruct (decide (q = p)) as [->|Hne].
    + rewrite lookup_delete_eq, decide_True by (by left). done.
    + rewrite lookup_delete_ne, decide_False by (by rewrite ?not_elem_of_cons). done.
Qed.

Lemma unlink_all_only ps t : only_paths t (unlink_all ps t).
Proof.
  revert t. induction ps as [|p ps IH]; intros t; [done|]. simpl. eapply only_paths_trans; [|apply IH].
  split; [apply unlink_at_inodes|apply unlink_at_next].
Qed.

Lemma unlink_all_index ps t : [] ∉ ps → tree_index t → tree_index (unlink_all ps t).
Proof.
  revert t. induction ps as [|p ps IH]; intros t Hp Ht; [done|]. apply not_elem_of_cons in Hp as [Hp1 Hp2].
  simpl. apply IH; [done|]. by apply unlink_at_index.
Qed.

Lemma insert_links_eq ups t :
  NoDup ups.*1 → (∀ u, u ∈ ups → tr_nodes t !! u.1 = None ∧ is_Some (tr_inodes t !! u.2)) →
  insert_links ups t = (Ok tt, link_all ups t).
Proof.
  unfold insert_links. revert t. induction ups as [|[p i] ups IH]; intros t Hnd Hin; [done|].
  simpl in Hnd. apply NoDup_cons in Hnd as [Hp Hnd]. destruct (Hin (p, i)) as [Hn Hi]; [by left|]. simpl in Hn, Hi.
  simpl. unfold bind at 1. rewrite insert_link_eq. simpl.
  rewrite bool_decide_eq_false_2 by (rewrite Hn; by intros []). rewrite bool_decide_eq_true_2 by done. simpl.
  apply IH; [done|]. intros u Hu. rewrite link_at_nodes, link_at_inodes.
  rewrite lookup_insert_ne; [apply Hin; by right|]. intros ->. apply Hp, list_elem_of_fmap. eauto.
Qed.

Lemma link_all_nodes ups t q i :
  NoDup ups.*1 →
  tr_nodes (link_all ups t) !! q = Some i ↔ (q, i) ∈ ups ∨ ((q ∉ ups.*1) ∧ tr_nodes t !! q = Some i).
Proof.
  revert t. induction ups as [|[p j] ups IH]; intros t Hnd.
  { simpl. split; [|by intros [H%elem_of_nil|[_ H]]]. right. split; [apply not_elem_of_nil|done]. }
  simpl in Hnd. apply NoDup_cons in Hnd as [Hp Hnd]. simpl. rewrite IH by done. rewrite link_at_nodes.
  rewrite elem_of_cons, not_elem_of_cons, lookup_insert_Some. split.
  - intros [H|[H1 [[-> ->]|[H2 H3]]]]; [by left; right|by left; left|]. right. split; [split; [done|done]|done].
  - intros [[[= -> ->]|H]|[[H1 H2] H3]].
    + right. split; [done|]. by left.
    + by left.
    + right. split; [done|]. by right.
Qed.

Lemma link_all_only ups t : only_paths t (link_all ups t).
Proof.
  revert t. induction ups as [|[p i] ups IH]; intros t; [done|]. simpl. eapply only_paths_trans; [|apply IH].
  split; [apply link_at_inodes|apply link_at_next].
Qed.

Lemma link_all_index ups t : [] ∉ ups.*1 → tree_index t → tree_index (link_all ups t).
Proof.
  revert t. induction ups as [|[p i] ups IH]; intros t Hp Ht; [done|]. simpl in Hp.
  apply not_elem_of_cons in Hp as [Hp1 Hp2]. simpl. apply IH; [done|]. by apply link_at_index.
Qed.

Lemma elem_of_moved t f ps q i : (q, i) ∈ moved t f ps ↔ ∃ p, p ∈ ps ∧ q = f p ∧ tr_nodes t !! p = Some i.
Proof.
  unfold moved. rewrite list_elem_of_omap. split.
  - intros (p & Hp & (j & Hj & [= -> ->])%fmap_Some). eauto.
  - intros (p & Hp & -> & Hi). exists p. split; [done|]. by rewrite Hi.
Qed.

Lemma moved_fst t f ps : (∀ p, p ∈ ps → is_Some (tr_nodes t !! p)) → (moved t f ps).*1 = f <$> ps.
Proof.
  induction ps as [|p ps IH]; intros H; [done|]. rewrite moved_cons.
  destruct (H p) as [i Hi]; [by left|]. rewrite Hi. simpl. f_equal. apply IH. intros q Hq. apply H. by right.
Qed.

(** ** Link counts of a renaming *)
Definition count_links (ups : list (GuestPath * Z)) (j : Z) : nat :=
  length (filter (λ u : GuestPath * Z, u.2 = j) ups).

Lemma unlink_all_links ps t f j :
  NoDup ps → (∀ p, p ∈ ps → is_Some (tr_nodes t !! p)) →
  links (tr_nodes t) j = (count_links (moved t f ps) j + links (tr_nodes (unlink_all ps t)) j)%nat.
Proof.
  revert t. induction ps as [|p ps IH]; intros t Hnd Hin; [done|].
  apply NoDup_cons in Hnd as [Hp Hnd]. destruct (Hin p) as [i Hi]; [by left|].
  rewrite (links_delete _ p i j Hi), moved_cons, Hi. unfold count_links. rewrite filter_cons. simpl.
  assert (Hps : ∀ q, q ∈ ps → tr_nodes (unlink_at p t) !! q = tr_nodes t !! q).
  { intros q Hq. rewrite unlink_at_nodes, lookup_delete_ne; [done|]. by intros ->. }
  pose proof (IH (unlink_at p t) Hnd) as IH1. rewrite unlink_at_nodes in IH1. unfold one_if.
  rewrite <- (moved_ext t (unlink_at p t) f ps Hps). unfold count_links in IH1.
  rewrite IH1; [|intros q Hq; rewrite <- unlink_at_nodes, Hps by done; apply Hin; by right].
  destruct (decide (i = j)); simpl; lia.
Qed.

Lemma link_all_links ups t j :
  NoDup ups.*1 → (∀ u, u ∈ ups → tr_nodes t !! u.1 = None) →
  links (tr_nodes (link_all ups t)) j = (count_links ups j + links (tr_nodes t) j)%nat.
Proof.
  revert t. induction ups as [|[p i] ups IH]; intros t Hnd Hin; [done|].
  simpl in Hnd. apply NoDup_cons in Hnd as [Hp Hnd]. simpl. rewrite IH; [|done|].
  - rewrite link_at_nodes, links_insert by (by apply (Hin (p, i)); left).
    unfold count_links, one_if. rewrite filter_cons. simpl. destruct (decide (i = j)); simpl; lia.
  - intros u Hu. rewrite link_at_nodes, lookup_insert_ne; [apply Hin; by right|].
    intros ->. apply Hp, list_elem_of_fmap. eauto.
Qed.

(** ** The tree after a renaming

    [f] renames the paths [ps], which keep their inodes; the others stay. *)
Record renaming (t : PathTree) (ps : list GuestPath) (f : GuestPath → GuestPath) : Prop := {
  rn_nodup : NoDup ps;
  rn_in p : p ∈ ps → is_Some (tr_nodes t !! p);
  rn_inj p q : p ∈ ps → q ∈ ps → f p = f q → p = q;
  rn_free p : p ∈ ps → f p ∉ ps → tr_nodes t !! (f p) = None;
  rn_root : [] ∉ ps;
  rn_root' p : p ∈ ps → f p ≠ [];
}.

Definition renamed (t : PathTree) (ps : list GuestPath) (f : GuestPath → GuestPath) : PathTree :=
  link_all (moved t f ps) (unlink_all ps t).

Section renaming.
Context (t : PathTree) (ps : list GuestPath) (f : GuestPath → GuestPath).
Hypothesis (Hwf : tree_wf t) (Hrn : renaming t ps f).

Lemma moved_nodup : NoDup (moved t f ps).*1.
Proof.
  rewrite moved_fst by apply Hrn. destruct Hrn as [Hnd _ Hinj _ _ _]. clear Hrn.
  induction ps as [|p l IH]; [constructor|]. apply NoDup_cons in Hnd as [Hp Hnd]. simpl. apply NoDup_cons. split.
  - intros (q & Hq & Hin)%list_elem_of_fmap. apply Hp. rewrite (Hinj p q); [done|by left|by right|done].
  - apply IH; [done|]. intros q r Hq Hr. apply Hinj; by right.
Qed.

Lemma moved_free u : u ∈ moved t f ps → tr_nodes (unlink_all ps t) !! u.1 = None.
Proof.
  destruct u as [q i]. intros (p & Hp & -> & Hi)%elem_of_moved. simpl. rewrite unlink_all_nodes.
  destruct (decide (f p ∈ ps)); [done|]. by apply Hrn.
Qed.

Lemma renamed_nodes q i :
  tr_nodes (renamed t ps f) !! q = Some i ↔
  (∃ p, p ∈ ps ∧ q = f p ∧ tr_nodes t !! p = Some i) ∨
  ((q ∉ ps) ∧ (∀ p, p ∈ ps → q ≠ f p) ∧ tr_nodes t !! q = Some i).
Proof.
  unfold renamed. rewrite link_all_nodes by apply moved_nodup. rewrite elem_of_moved, moved_fst by apply Hrn.
  rewrite unlink_all_nodes, list_elem_of_fmap. split.
  - intros [H|[H1 H2]]; [by left|right]. destruct (decide (q ∈ ps)); [done|]. split_and!; [done| |done].
    intros p Hp ->. apply H1. eauto.
  - intros [H|(H1 & H2 & H3)]; [by left|right]. rewrite decide_False by done. split; [|done].
    intros (p & -> & Hp). by apply (H2 p).
Qed.

Lemma renamed_only : only_paths t (renamed t ps f).
Proof. eapply only_paths_trans; [apply unlink_all_only|apply link_all_only]. Qed.

Lemma renamed_links j : links (tr_nodes (renamed t ps f)) j = links (tr_nodes t) j.
Proof.
  unfold renamed. rewrite link_all_links; [|apply moved_nodup|apply moved_free].
  symmetry. apply unlink_all_links; apply Hrn.
Qed.

Lemma renamed_index : tree_index (renamed t ps f).
Proof.
  apply link_all_index; [|apply unlink_all_index; [apply Hrn|apply Hwf]].
  rewrite moved_fst by apply Hrn. intros (p & Hp & Hin)%list_elem_of_fmap. by destruct (rn_root' _ _ _ Hrn p Hin).
Qed.

Lemma renamed_lookup q n :
  lookup_path (renamed t ps f) q = Some n ↔
  (∃ p, p ∈ ps ∧ q = f p ∧ lookup_path t p = Some n) ∨
  ((q ∉ ps) ∧ (∀ p, p ∈ ps → q ≠ f p) ∧ lookup_path t q = Some n).
Proof.
  rewrite lookup_path_Some. destruct renamed_only as [Hi _]. setoid_rewrite Hi. setoid_rewrite renamed_nodes.
  setoid_rewrite lookup_path_Some. naive_solver.
Qed.

(** The tree stays well formed when every new place has its directory. *)
Lemma renamed_wf :
  (∀ p x q, p ∈ ps → f p = q ++ [x] → dir_at (renamed t ps f) q) →
  (∀ p x i, p ++ [x] ∉ ps → tr_nodes t !! (p ++ [x]) = Some i → (p ∉ ps) ∧ ∀ q, q ∈ ps → p ≠ f q) →
  tree_wf (renamed t ps f).
Proof.
  intros Hnew Hstay. destruct renamed_only as [Hi Hx]. split.
  - apply renamed_index.
  - destruct (tw_root t Hwf) as (n & Hn & Hd). exists n. split; [|done]. apply renamed_lookup. right.
    split_and!; [apply Hrn| |done]. intros p Hp E. by destruct (rn_root' _ _ _ Hrn p Hp).
  - intros p i [(q & Hq & -> & H)|(_ & _ & H)]%renamed_nodes; rewrite Hi; by eapply Hwf.
  - intros p x i [(q & Hq & E & H)|(H1 & H2 & H)]%renamed_nodes.
    + by eapply Hnew.
    + destruct (tw_parent t Hwf p x i H) as (n & Hn & Hd). exists n. split; [|done].
      apply renamed_lookup. right. by destruct (Hstay p x i H1 H).
  - intros i n. rewrite Hi. intros Hn. eapply node_wf_nodes; [apply renamed_links|by rewrite Hx|]. by apply Hwf.
  - rewrite Hx. apply Hwf.
Qed.
End renaming.

(** ** Moving a subtree *)
Lemma prefix_dir t p q : tree_wf t → dir_at t q → p `prefix_of` q → dir_at t p.
Proof.
  intros Hwf Hq [r ->]. destruct r as [|x r]; [by rewrite app_nil_r in Hq|].
  destruct Hq as (n & (i & Hi & _)%lookup_path_Some & _). by eapply tree_prefix_dir.
Qed.

Lemma prefix_app_cases (a b r : GuestPath) : a `prefix_of` b ++ r → a `prefix_of` b ∨ b `prefix_of` a.
Proof. intros H. eapply prefix_weak_total; [exact H|by apply prefix_app_r]. Qed.

Record can_move (t : PathTree) (old new : GuestPath) : Prop := {
  cm_old : old ≠ [];
  cm_new : new ≠ [];
  cm_exists : is_Some (tr_nodes t !! old);
  cm_free : tr_nodes t !! new = None;
  cm_parent q x : new = q ++ [x] → dir_at t q;
  cm_apart : ¬ old `prefix_of` new;
}.

Section move.
Context (t : PathTree) (old new : GuestPath).
Hypothesis (Hwf : tree_wf t) (Hcm : can_move t old new).

Lemma nothing_below_free r : tr_nodes t !! (new ++ r) = None.
Proof.
  destruct (tr_nodes t !! (new ++ r)) as [i|] eqn:E; [|done]. pose proof (cm_free _ _ _ Hcm) as Hf.
  destruct r as [|x r]; [rewrite app_nil_r in E; congruence|].
  destruct (tree_prefix_dir t new (x :: r) i Hwf E) as (n & (j & Hj & _)%lookup_path_Some & _); [done|]. congruence.
Qed.

Lemma move_renaming : renaming t (paths_under_prefix t old) (λ p, replace_prefix p old new).
Proof.
  split.
  - apply NoDup_paths_under.
  - by intros p [_ Hp]%elem_of_paths_under.
  - intros p q [Hp _]%elem_of_paths_under [Hq _]%elem_of_paths_under. by apply replace_prefix_inj.
  - intros p [[r ->] _]%elem_of_paths_under _. rewrite replace_prefix_app. apply nothing_below_free.
  - intros [H _]%elem_of_paths_under. apply (cm_old _ _ _ Hcm). by apply prefix_nil_inv.
  - intros p [[r ->] _]%elem_of_paths_under. rewrite replace_prefix_app. intros [H _]%app_eq_nil.
    by apply (cm_new _ _ _ Hcm).
Qed.

Definition moved_tree : PathTree := renamed t (paths_under_prefix t old) (λ p, replace_prefix p old new).

Lemma moved_tree_nodes q i :
  tr_nodes moved_tree !! q = Some i ↔
  (∃ r, q = new ++ r ∧ tr_nodes t !! (old ++ r) = Some i) ∨
  ((¬ old `prefix_of` q) ∧ tr_nodes t !! q = Some i).
Proof.
  unfold moved_tree. rewrite renamed_nodes by apply move_renaming. split.
  - intros [(p & [[r ->] _]%elem_of_paths_under & -> & H)|(H1 & H2 & H3)].
    + left. exists r. by rewrite replace_prefix_app.
    + right. split; [|done]. intros Hp. apply H1. apply elem_of_paths_under. eauto.
  - intros [(r & -> & H)|(H1 & H2)].
    + left. exists (old ++ r). split_and!; [|by rewrite replace_prefix_app|done].
      apply elem_of_paths_under. split; [by apply prefix_app_r|eauto].
    + right. split_and!; [by intros [? _]%elem_of_paths_under| |done].
      intros p [[r ->] _]%elem_of_paths_under ->. rewrite replace_prefix_app, nothing_below_free in H2. done.
Qed.

Lemma moved_tree_wf : tree_wf moved_tree.
Proof.
  apply renamed_wf; [done|apply move_renaming| |].
  - intros p x q Hp Hq. pose proof Hp as [[r ->] Hin]%elem_of_paths_under. rewrite replace_prefix_app in Hq.
    destruct (path_cases r) as [->|(s & y & ->)].
    + rewrite app_nil_r in Hq. destruct (cm_parent _ _ _ Hcm q x Hq) as (n & Hn & Hd).
      exists n. split; [|done]. apply renamed_lookup; [apply move_renaming|]. right. split_and!; [| |done].
      * intros [Ho _]%elem_of_paths_under. apply (cm_apart _ _ _ Hcm). rewrite Hq. by apply prefix_app_r.
      * intros p' [[r' ->] _]%elem_of_paths_under ->. rewrite replace_prefix_app in Hq.
        apply (f_equal length) in Hq. rewrite !length_app in Hq. simpl in Hq. lia.
    + rewrite app_assoc in Hq. apply app_inj_tail in Hq as [<- <-]. destruct Hin as [i Hi].
      rewrite app_assoc in Hi. destruct (tw_parent t Hwf _ _ _ Hi) as (n & Hn & Hd).
      exists n. split; [|done]. apply renamed_lookup; [apply move_renaming|]. left. exists (old ++ s).
      split_and!; [|by rewrite replace_prefix_app|done]. apply elem_of_paths_under.
      split; [by apply prefix_app_r|]. apply lookup_path_Some in Hn as (j & Hj & _). eauto.
  - intros p x i Hnin Hi. split.
    + intros [Ho _]%elem_of_paths_under. apply Hnin, elem_of_paths_under. split; [by apply prefix_app_r|eauto].
    + intros q [[r ->] _]%elem_of_paths_under ->. rewrite replace_prefix_app, <- app_assoc, nothing_below_free in Hi. done.
Qed.

Lemma move_eq :
  (let* t := gets id in
   let* updates := remove_links (paths_under_prefix t old) old new in
   insert_links updates) t = (Ok tt, moved_tree).
Proof.
  pose proof move_renaming as Hrn. unfold bind at 1, gets, id. unfold bind.
  rewrite remove_links_eq; [|apply Hrn|apply Hrn]. rewrite insert_links_eq; [done|by apply moved_nodup|].
  intros u Hu. split; [by eapply moved_free|]. destruct u as [q i]. apply elem_of_moved in Hu as (p & _ & _ & Hi).
  destruct (unlink_all_only (paths_under_prefix t old) t) as [-> _]. simpl. by eapply Hwf.
Qed.

Lemma moved_tree_only : only_paths t moved_tree.
Proof. apply renamed_only. Qed.

Lemma moved_tree_lookup q n :
  lookup_path moved_tree q = Some n ↔
  (∃ r, q = new ++ r ∧ lookup_path t (old ++ r) = Some n) ∨
  ((¬ old `prefix_of` q) ∧ lookup_path t q = Some n).
Proof.
  rewrite !lookup_path_Some. destruct moved_tree_only as [Hi _]. setoid_rewrite Hi.
  setoid_rewrite moved_tree_nodes. setoid_rewrite lookup_path_Some. naive_solver.
Qed.
End move.

(** ** Exchanging two subtrees *)
Record can_exchange (t : PathTree) (old new : GuestPath) : Prop := {
  ce_old : is_Some (tr_nodes t !! old);
  ce_new : is_Some (tr_nodes t !! new);
  ce_apart1 : ¬ old `prefix_of` new;
  ce_apart2 : ¬ new `prefix_of` old;
}.

Definition exchange (old new p : GuestPath) : GuestPath :=
  if starts_with p old then replace_prefix p old new
  else if starts_with p new then replace_prefix p new old
  else p.

Section exchange.
Context (t : PathTree) (old new : GuestPath).
Hypothesis (Hwf : tree_wf t) (Hce : can_exchange t old new).

Lemma not_both p : old `prefix_of` p → new `prefix_of` p → False.
Proof.
  intros H1 H2. destruct Hce as [_ _ Ha Hb].
  by destruct (prefix_weak_total _ _ _ H1 H2).
Qed.

Lemma exchange_old r : exchange old new (old ++ r) = new ++ r.
Proof.
  unfold exchange. rewrite (proj2 (starts_with_true _ _)) by (by apply prefix_app_r). apply replace_prefix_app.
Qed.

Lemma exchange_new r : exchange old new (new ++ r) = old ++ r.
Proof.
  unfold exchange. rewrite (proj2 (starts_with_false _ _)).
  - rewrite (proj2 (starts_with_true _ _)) by (by apply prefix_app_r). apply replace_prefix_app.
  - intros H. eapply not_both; [exact H|by apply prefix_app_r].
Qed.

Lemma exchange_other p : ¬ old `prefix_of` p → ¬ new `prefix_of` p → exchange old new p = p.
Proof. intros H1 H2. unfold exchange. by rewrite !(proj2 (starts_with_false _ _)). Qed.

Lemma exchange_cases p :
  (∃ r, p = old ++ r) ∨ (∃ r, p = new ++ r) ∨ (¬ old `prefix_of` p ∧ ¬ new `prefix_of` p).
Proof.
  destruct (decide (old `prefix_of` p)) as [[r ->]|]; [left; eauto|].
  destruct (decide (new `prefix_of` p)) as [[r ->]|]; [right; left; eauto|]. by right; right.
Qed.

Lemma exchange_involutive p : exchange old new (exchange old new p) = p.
Proof.
  destruct (exchange_cases p) as [[r ->]|[[r ->]|[H1 H2]]].
  - by rewrite exchange_old, exchange_new.
  - by rewrite exchange_new, exchange_old.
  - by rewrite !exchange_other by (rewrite ?exchange_other; done).
Qed.

Definition exchanged_paths : list GuestPath := paths_under_prefix t old ++ paths_under_prefix t new.

Lemma elem_of_exchanged p :
  p ∈ exchanged_paths ↔ (old `prefix_of` p ∨ new `prefix_of` p) ∧ is_Some (tr_nodes t !! p).
Proof. unfold exchanged_paths. rewrite elem_of_app, !elem_of_paths_under. naive_solver. Qed.

Lemma exchange_renaming : renaming t exchanged_paths (exchange old new).
Proof.
  assert (Hne : old ≠ [] ∧ new ≠ []).
  { split; intros ->; [by apply (ce_apart1 _ _ _ Hce), prefix_nil|by apply (ce_apart2 _ _ _ Hce), prefix_nil]. }
  split.
  - unfold exchanged_paths. apply NoDup_app. split_and!; [apply NoDup_paths_under| |apply NoDup_paths_under].
    intros p [H1 _]%elem_of_paths_under [H2 _]%elem_of_paths_under. by eapply not_both.
  - by intros p [_ Hp]%elem_of_exchanged.
  - intros p q _ _ H. rewrite <- (exchange_involutive p), H. apply exchange_involutive.
  - intros p [Hp _]%elem_of_exchanged Hnin. destruct (tr_nodes t !! exchange old new p) as [i|] eqn:E; [|done].
    exfalso. apply Hnin, elem_of_exchanged. split; [|eauto].
    destruct Hp as [[r ->]|[r ->]]; rewrite ?exchange_old, ?exchange_new; [right|left]; by apply prefix_app_r.
  - intros [[H|H] _]%elem_of_exchanged; apply prefix_nil_inv in H; tauto.
  - intros p [[[r ->]|[r ->]] _]%elem_of_exchanged; rewrite ?exchange_old, ?exchange_new; intros [H _]%app_eq_nil; tauto.
Qed.

Definition exchanged_tree : PathTree := renamed t exchanged_paths (exchange old new).

Lemma exchanged_tree_nodes q : tr_nodes exchanged_tree !! q = tr_nodes t !! (exchange old new q).
Proof.
  apply option_eq. intros i. unfold exchanged_tree. rewrite renamed_nodes by apply exchange_renaming. split.
  - intros [(p & Hp & -> & H)|(H1 & H2 & H3)]; [by rewrite exchange_involutive|].
    destruct (exchange_cases q) as [[r ->]|[[r ->]|[Ho Hn]]]; [exfalso..|by rewrite exchange_other];
      apply H1, elem_of_exchanged; (split; [|eauto]); [left|right]; by apply prefix_app_r.
  - intros H. destruct (exchange_cases q) as [[r ->]|[[r ->]|[Ho Hn]]].
    + rewrite exchange_old in H. left. exists (new ++ r). split_and!; [|by rewrite exchange_new|done].
      apply elem_of_exchanged. split; [right; by apply prefix_app_r|eauto].
    + rewrite exchange_new in H. left. exists (old ++ r). split_and!; [|by rewrite exchange_old|done].
      apply elem_of_exchanged. split; [left; by apply prefix_app_r|eauto].
    + rewrite exchange_other in H by done. right. split_and!; [by intros [[?|?] _]%elem_of_exchanged| |done].
      intros p [[[r ->]|[r ->]] _]%elem_of_exchanged ->; rewrite ?exchange_old, ?exchange_new in *;
        [by apply Hn, prefix_app_r|by apply Ho, prefix_app_r].
Qed.

Lemma exchanged_tree_lookup q : lookup_path exchanged_tree q = lookup_path t (exchange old new q).
Proof.
  unfold lookup_path. rewrite exchanged_tree_nodes. destruct (renamed_only t exchanged_paths (exchange old new)) as [Hi _].
  unfold exchanged_tree. by rewrite Hi.
Qed.

(** The directory of an exchanged path is the exchanged directory or the same one. *)
Lemma exchanged_parent q x i :
  tr_nodes t !! exchange old new (q ++ [x]) = Some i → dir_at exchanged_tree q.
Proof.
  intros Hi. assert (Hp : dir_at t (exchange old new q) → dir_at exchanged_tree q).
  { intros (n & Hn & Hd). exists n. by rewrite exchanged_tree_lookup. }
  apply Hp. destruct (exchange_cases (q ++ [x])) as [[r E]|[[r E]|[Ho Hn]]].
  - destruct (path_cases r) as [->|(s & y & ->)].
    + rewrite app_nil_r in E. destruct (ce_old _ _ _ Hce) as [j Hj]. rewrite <- E in Hj.
      rewrite exchange_other; [by eapply tw_parent| |].
      * intros H. apply prefix_length in H. rewrite <- E, length_app in H. simpl in H. lia.
      * intros H. apply (ce_apart2 _ _ _ Hce). rewrite <- E. by apply prefix_app_r.
    + rewrite app_assoc in E. apply app_inj_tail in E as [-> ->].
      rewrite <- app_assoc, exchange_old, app_assoc in Hi. rewrite exchange_old. by eapply tw_parent.
  - destruct (path_cases r) as [->|(s & y & ->)].
    + rewrite app_nil_r in E. destruct (ce_new _ _ _ Hce) as [j Hj]. rewrite <- E in Hj.
      rewrite exchange_other; [by eapply tw_parent| |].
      * intros H. apply (ce_apart1 _ _ _ Hce). rewrite <- E. by apply prefix_app_r.
      * intros H. apply prefix_length in H. rewrite <- E, length_app in H. simpl in H. lia.
    + rewrite app_assoc in E. apply app_inj_tail in E as [-> ->].
      rewrite <- app_assoc, exchange_new, app_assoc in Hi. rewrite exchange_new. by eapply tw_parent.
  - rewrite exchange_other in Hi by done. rewrite exchange_other; [by eapply tw_parent| |].
    + intros H. by apply Ho, prefix_app_r.
    + intros H. by apply Hn, prefix_app_r.
Qed.

Lemma exchanged_tree_wf : tree_wf exchanged_tree.
Proof.
  apply renamed_wf; [done|apply exchange_renaming| |].
  - intros p x q Hp Hq. apply (exchanged_parent q x (default 0 (tr_nodes t !! p))).
    rewrite <- Hq, exchange_involutive. apply elem_of_exchanged in Hp as [_ [i ->]]. done.
  - intros p x i Hnin Hi. rewrite elem_of_exchanged in Hnin.
    assert (Hp : ¬ old `prefix_of` p ∧ ¬ new `prefix_of` p).
    { split; intros H; apply Hnin; (split; [|eauto]); [left|right]; by apply prefix_app_r. }
    split; [by intros [[?|?] _]%elem_of_exchanged; tauto|].
    intros q [[[r ->]|[r ->]] _]%elem_of_exchanged ->; rewrite ?exchange_old, ?exchange_new in Hp;
      [apply (proj2 Hp)|apply (proj1 Hp)]; by apply prefix_app_r.
Qed.
End exchange.

(** *** The code's exchange *)
Lemma unlink_all_app ps1 ps2 t : unlink_all (ps1 ++ ps2) t = unlink_all ps2 (unlink_all ps1 t).
Proof. revert t. induction ps1 as [|p ps1 IH]; intros t; [done|]. simpl. apply IH. Qed.

Lemma moved_app t f ps1 ps2 : moved t f (ps1 ++ ps2) = moved t f ps1 ++ moved t f ps2.
Proof. unfold moved. apply omap_app. Qed.

Lemma moved_fun t f g ps : (∀ p, p ∈ ps → f p = g p) → moved t f ps = moved t g ps.
Proof.
  induction ps as [|p ps IH]; intros Hfg; [done|]. rewrite !moved_cons, (Hfg p) by (by left).
  rewrite IH; [done|]. intros q Hq. apply Hfg. by right.
Qed.

(** Nothing is under a path that is not a directory. *)
Lemma paths_under_file t p n :
  tree_wf t → lookup_path t p = Some n → is_directory n = false → paths_under_prefix t p = [p].
Proof.
  intros Hwf Hn Hd.
  assert (Hp : tr_nodes t !! p ≠ None).
  { apply lookup_path_Some in Hn as (i & Hi & _). congruence. }
  assert (Hall : ∀ q, q ∈ paths_under_prefix t p → q = p).
  { intros q [[r ->] [i Hi]]%elem_of_paths_under. destruct r as [|x r]; [by rewrite app_nil_r|].
    destruct (tree_prefix_dir t p (x :: r) i Hwf Hi) as (m & Hm & Hmd); [done|]. rewrite Hn in Hm. congruence. }
  assert (Hin : p ∈ paths_under_prefix t p) by (apply elem_of_paths_under; split; [done|by apply not_eq_None_Some]).
  pose proof (NoDup_paths_under t p) as Hnd. destruct (paths_under_prefix t p) as [|a [|b l]].
  - by apply elem_of_nil in Hin.
  - by rewrite (Hall a) by by left.
  - rewrite (Hall a), (Hall b) in Hnd by set_solver. apply NoDup_cons in Hnd as [Hnd _]. set_solver.
Qed.

Lemma exchange_eq t old new :
  tree_wf t → can_exchange t old new →
  (let* updates1 := remove_links (paths_under_prefix t old) old new in
   let* updates2 := remove_links (paths_under_prefix t new) new old in
   insert_links (updates1 ++ updates2)) t = (Ok tt, exchanged_tree t old new).
Proof.
  intros Hwf Hce. pose proof (exchange_renaming t old new Hce) as Hrn.
  assert (Hf1 : ∀ p, p ∈ paths_under_prefix t old → replace_prefix p old new = exchange old new p).
  { intros p [[r ->] _]%elem_of_paths_under. by rewrite replace_prefix_app, exchange_old. }
  assert (Hf2 : ∀ p, p ∈ paths_under_prefix t new → replace_prefix p new old = exchange old new p).
  { intros p [[r ->] _]%elem_of_paths_under. by rewrite replace_prefix_app, (exchange_new t) by done. }
  assert (Hstill : ∀ p, p ∈ paths_under_prefix t new →
            tr_nodes (unlink_all (paths_under_prefix t old) t) !! p = tr_nodes t !! p).
  { intros p [Hp _]%elem_of_paths_under. rewrite unlink_all_nodes, decide_False; [done|].
    intros [Ho _]%elem_of_paths_under. by eapply (not_both t). }
  unfold bind. rewrite remove_links_eq; [|apply NoDup_paths_under|by intros p [_ ?]%elem_of_paths_under].
  rewrite remove_links_eq; [|apply NoDup_paths_under|].
  2: { intros p Hp. rewrite Hstill by done. by apply elem_of_paths_under in Hp as [_ ?]. }
  rewrite (moved_fun t _ (exchange old new)) by done.
  rewrite (moved_fun _ (λ p, replace_prefix p new old) (exchange old new)) by done.
  rewrite (moved_ext t (unlink_all (paths_under_prefix t old) t)) by done. rewrite <- moved_app, <- unlink_all_app. fold (exchanged_paths t old new).
  rewrite insert_links_eq; [done|by apply (moved_nodup t)|].
  intros u Hu. split; [by eapply moved_free|]. destruct u as [q i]. apply elem_of_moved in Hu as (p & _ & _ & Hi).
  destruct (unlink_all_only (exchanged_paths t old new) t) as [-> _]. simpl. by eapply Hwf.
Qed.
