(* ===== verification/VfsResolve.v ===== *)
(** * mcr-vfs: where path resolution can end

    A resolved path stays under the root of the guest, has only proper names as components
    and, when the final symbolic link is followed, is not a symbolic link; and the string
    that [visible_path] prints for a path of the tree resolves to that path again. *)

From S2P Require Import Prelude SysAbi Bytes VfsTypes VfsPath VfsFd VfsCache VfsTree.
From stdpp Require Import base gmap list strings sorting.
From Stdlib Require Import ZArith Lia Strings.Ascii.
Open Scope Z_scope.

Implicit Types (p q : GuestPath).

(** ** Names *)
Fixpoint has_slash (s : string) : bool :=
  match s with EmptyString => false | String c s => is_slash c || has_slash s end.

Record proper_name (c : string) : Prop := {
  pr_empty : c ≠ EmptyString;
  pr_dot : c ≠ "."%string;
  pr_dotdot : c ≠ ".."%string;
  pr_slash : has_slash c = false;
  pr_nul : contains_nul c = false;
  pr_short : Z.of_nat (String.length c) ≤ 255;
}.

(** What splitting a string gives: names and the two dots. *)
Record component_ok (c : string) : Prop := {
  co_empty : c ≠ EmptyString;
  co_slash : has_slash c = false;
  co_nul : contains_nul c = false;
  co_short : Z.of_nat (String.length c) ≤ 255;
}.

Lemma proper_component c : component_ok c → c ≠ "."%string → c ≠ ".."%string → proper_name c.
Proof. intros [] ??. by split. Qed.

Lemma split_slash_cons s : ∃ w ws, split_slash s = w :: ws.
Proof. destruct s as [|c s]; simpl; [eauto|]. destruct (is_slash c); [eauto|]. destruct (split_slash s); eauto. Qed.

Lemma split_slash_no_slash s : Forall (λ c, has_slash c = false) (split_slash s).
Proof.
  induction s as [|c s IH]; simpl; [by repeat constructor|]. destruct (is_slash c) eqn:E; [by constructor|].
  destruct (split_slash s) as [|w ws]; inversion_clear IH; constructor; simpl; by rewrite ?E.
Qed.

Lemma string_bytes_cons c s : string_bytes (String c s) = Z.of_N (Ascii.N_of_ascii c) :: string_bytes s.
Proof. done. Qed.

Lemma contains_nul_false s : contains_nul s = false ↔ 0 ∉ string_bytes s.
Proof. unfold contains_nul. apply bool_decide_eq_false. Qed.

Lemma split_slash_nul s : contains_nul s = false → Forall (λ c, contains_nul c = false) (split_slash s).
Proof.
  induction s as [|c s IH]; simpl; [by repeat constructor|].
  rewrite contains_nul_false, string_bytes_cons, not_elem_of_cons. intros [Hc Hs].
  apply contains_nul_false in Hs. specialize (IH Hs). destruct (is_slash c); [by constructor|].
  destruct (split_slash s) as [|w ws]; [by constructor; [apply contains_nul_false; set_solver|]|].
  inversion_clear IH as [|? ? H1 H2]. constructor; [|done].
  rewrite contains_nul_false in H1 |- *. rewrite string_bytes_cons, not_elem_of_cons. done.
Qed.

Lemma collect_short l r :
  collect (λ part, if 255 <? Z.of_nat (String.length part) then Err NameTooLong else Ok part) l = Ok r →
  r = l ∧ Forall (λ c, Z.of_nat (String.length c) ≤ 255) l.
Proof.
  revert r. induction l as [|x l IH]; intros r; simpl; [by intros [= <-]|].
  destruct (Z.ltb_spec 255 (Z.of_nat (String.length x))); [done|]. simpl.
  destruct (collect _ l) as [ys| |]; [|done..]. simpl. intros [= <-].
  destruct (IH ys eq_refl) as [-> Hl]. split; [done|]. by constructor.
Qed.

Lemma split_components_ok s l : split_guest_components s = Ok l → Forall component_ok l.
Proof.
  unfold split_guest_components. destruct (contains_nul s) eqn:En; [done|]. intros [-> Hl]%collect_short.
  pose proof (split_slash_nul s En) as Hn. pose proof (split_slash_no_slash s) as Hs.
  rewrite Forall_forall in *. intros c Hc. specialize (Hl c Hc). apply list_elem_of_filter in Hc as [? ?]. split; auto.
Qed.

(** ** Resolution *)
(** Neither empty nor one of the two dots. *)
Definition named (c : string) : Prop :=
  bool_decide (c = EmptyString) || bool_decide (c = "."%string) = false ∧ c ≠ ".."%string.

Definition not_link (t : PathTree) (p : GuestPath) : Prop :=
  ∀ n target, lookup_path t p = Some n → pn_kind n ≠ NSymlink target.

Lemma dir_not_link t p : dir_at t p → not_link t p.
Proof. intros (n & Hn & Hd) m target Hm. rewrite Hn in Hm. injection Hm as <-. unfold is_directory in Hd. by destruct (pn_kind n). Qed.

Lemma dir_prefix t p q i : tree_wf t → tr_nodes t !! (p ++ q) = Some i → q ≠ [] → dir_at t p.
Proof.
  intros Hwf Hi Hq. destruct (path_cases q) as [->|(r & x & ->)]; [done|].
  rewrite app_assoc in Hi. pose proof (tw_parent _ Hwf _ _ _ Hi) as Hd. clear Hi Hq.
  induction r as [|y r IH] using rev_ind; [by rewrite app_nil_r in Hd|].
  destruct Hd as (n & (j & Hj & _)%lookup_path_Some & _). rewrite app_assoc in Hj.
  by apply IH, (tw_parent _ Hwf _ _ _ Hj).
Qed.

Section resolve.
Context (rootfs : Rootfs) (tree : PathTree) (follow : bool).
Context (Hwf : tree_wf tree) (Hroot : dir_at tree (rf_root rootfs)).

Lemma lookup_symlink_parent path n link :
  lookup_symlink_from tree path n = Some link →
  dir_at tree (sp_parent link) ∧ ∃ r, path = sp_parent link ++ r.
Proof.
  induction n as [|n IH]; [done|]. simpl lookup_symlink_from.
  destruct (lookup_path tree (take (S n) path)) as [node|] eqn:E; [|done].
  destruct (pn_kind node) as [| | |[]|target]; try done. intros [= <-]. cbn [sp_parent].
  destruct (path_cases (take (S n) path)) as [->|(q & x & Hq)].
  - simpl. split; [by apply tw_root|by exists path].
  - rewrite Hq, parent_snoc. simpl. split.
    + apply lookup_path_Some in E as (i & Hi & _). rewrite Hq in Hi. by apply (tw_parent _ Hwf _ _ _ Hi).
    + exists (x :: drop (S n) path). rewrite <- (take_drop (S n) path) at 1. by rewrite Hq, <- app_assoc.
Qed.

(** No placeholder on the way to a path: the path itself is not a link. *)
Lemma no_placeholder path : path ≠ [] → lookup_symlink_placeholder tree path = None → not_link tree path.
Proof.
  intros Hp Hl n target Hn Hk. unfold lookup_symlink_placeholder in Hl.
  destruct (length path) as [|m] eqn:E; [by destruct path|].
  simpl in Hl. rewrite <- E, firstn_all in Hl. rewrite Hn, Hk in Hl. done.
Qed.

(** What [walk] keeps of its current path, and what it returns. *)
Record here_ok (p : GuestPath) : Prop := {
  ho_jail : rf_root rootfs `prefix_of` p;
  ho_names : Forall proper_name p;
  ho_dir : dir_at tree p;
}.

Record result_ok (p : GuestPath) : Prop := {
  ro_jail : rf_root rootfs `prefix_of` p;
  ro_names : Forall proper_name p;
  ro_parent : dir_at tree p ∨ ∃ q x, p = q ++ [x] ∧ dir_at tree q;
  ro_link : follow = true → not_link tree p;
}.

Lemma here_result p : here_ok p → result_ok p.
Proof. intros []. split; auto using dir_not_link. Qed.

Lemma enforce_jail_ok p : enforce_jail rootfs p = Ok tt ↔ rf_root rootfs `prefix_of` p.
Proof. unfold enforce_jail, guard_ok. rewrite <- starts_with_true. by destruct (starts_with p (rf_root rootfs)). Qed.

Lemma here_up p : here_ok p → (length (rf_root rootfs) < length p)%nat → here_ok (removelast p).
Proof.
  intros [H1 H2 H3] Hl. destruct (path_cases p) as [->|(q & x & ->)]; [simpl in Hl; lia|].
  rewrite removelast_last. split.
  - apply prefix_snoc_cases in H1 as [Heq|]; [|done]. rewrite Heq in Hl. lia.
  - by apply Forall_app in H2 as [? _].
  - destruct H3 as (n & (i & Hi & _)%lookup_path_Some & _). by apply (tw_parent _ Hwf _ _ _ Hi).
Qed.

Definition walk_result (r : outcome GuestPath VfsError) : Prop :=
  match r with Ok p => result_ok p | Err _ => True | Panic => False end.

Lemma split_no_panic s : split_guest_components s ≠ Panic.
Proof.
  unfold split_guest_components. destruct (contains_nul s); [done|].
  induction (filter _ _) as [|x l IH]; [done|]. simpl. destruct (255 <? _); [done|]. simpl. by destruct (collect _ l).
Qed.

(** One component of [walk], for any budget. *)
Lemma walk_unfold budget p c pending :
  walk rootfs tree follow budget p (c :: pending) =
    if bool_decide (c = EmptyString) || bool_decide (c = "."%string) then
      let? _ := enforce_jail rootfs p in walk rootfs tree follow budget p pending
    else if bool_decide (c = ".."%string) then
      let current := if (length (rf_root rootfs) <? length p)%nat then removelast p else p in
      let? _ := enforce_jail rootfs current in walk rootfs tree follow budget current pending
    else
      let next := p ++ [c] in
      let? _ := enforce_jail rootfs next in
      match lookup_symlink_placeholder tree next with
      | Some link =>
          if negb follow && bool_decide (pending = []) then walk rootfs tree follow budget next pending
          else match budget with
               | O => Err Loop
               | S budget =>
                   let current := if starts_with_slash (sp_target link) then rf_root rootfs else sp_parent link in
                   let? parts := split_guest_components (sp_target link) in
                   let? _ := enforce_jail rootfs current in
                   walk rootfs tree follow budget current (parts ++ pending)
               end
      | None =>
          match lookup_path tree next with
          | Some node =>
              if negb (is_directory_kind (pn_kind node)) && negb (bool_decide (pending = []))
              then Err NotDirectory else walk rootfs tree follow budget next pending
          | None => if allow_missing_leaf rootfs next pending then Ok next else Err NoEntry
          end
      end.
Proof. by destruct budget. Qed.

(** The walk without a bound: from the directory [p], following the names [pending] leads to
    [q] over [n] symbolic links. *)
Inductive leads : GuestPath → list string → nat → GuestPath → Prop :=
| leads_end p : leads p [] 0 p
| leads_here p c pending n q :
    c = EmptyString ∨ c = "."%string → rf_root rootfs `prefix_of` p →
    leads p pending n q → leads p (c :: pending) n q
| leads_up p p' pending n q :
    p' = (if (length (rf_root rootfs) <? length p)%nat then removelast p else p) →
    rf_root rootfs `prefix_of` p' → leads p' pending n q → leads p (".."%string :: pending) n q
| leads_last_link p c link :
    named c → rf_root rootfs `prefix_of` p ++ [c] →
    lookup_symlink_placeholder tree (p ++ [c]) = Some link → follow = false → leads p [c] 0 (p ++ [c])
| leads_link p p' c pending link parts n q :
    named c → rf_root rootfs `prefix_of` p ++ [c] →
    lookup_symlink_placeholder tree (p ++ [c]) = Some link → follow = true ∨ pending ≠ [] →
    p' = (if starts_with_slash (sp_target link) then rf_root rootfs else sp_parent link) →
    split_guest_components (sp_target link) = Ok parts → rf_root rootfs `prefix_of` p' →
    leads p' (parts ++ pending) n q → leads p (c :: pending) (S n) q
| leads_node p c pending node n q :
    named c → rf_root rootfs `prefix_of` p ++ [c] →
    lookup_symlink_placeholder tree (p ++ [c]) = None → lookup_path tree (p ++ [c]) = Some node →
    is_directory_kind (pn_kind node) = true ∨ pending = [] →
    leads (p ++ [c]) pending n q → leads p (c :: pending) n q
| leads_missing p c pending :
    named c → rf_root rootfs `prefix_of` p ++ [c] →
    lookup_symlink_placeholder tree (p ++ [c]) = None → lookup_path tree (p ++ [c]) = None →
    allow_missing_leaf rootfs (p ++ [c]) pending = true → leads p (c :: pending) 0 (p ++ [c]).

(** A bounded walk is that walk up to its bound, and ELOOP beyond it. *)
Lemma leads_walk p pending n q : leads p pending n q → ∀ budget,
  walk rootfs tree follow budget p pending = if (n <=? budget)%nat then Ok q else Err Loop.
Proof.
  induction 1 as [p|p c pending n q Hc Hj _ IH|p p' pending n q -> Hj _ IH|p c link [Hd Hdd] Hj Hl Hf
    |p p' c pending link parts n q [Hd Hdd] Hj Hl Hf -> Hs Hj' _ IH|p c pending node n q [Hd Hdd] Hj Hl Hn Hk _ IH
    |p c pending [Hd Hdd] Hj Hl Hn Ha]; intros budget; [by destruct budget|rewrite walk_unfold..].
  - replace (bool_decide (c = EmptyString) || bool_decide (c = "."%string)) with true
      by (by destruct Hc as [-> | ->]). rewrite (proj2 (enforce_jail_ok p) Hj). cbn [obind]. apply IH.
  - change (bool_decide (".."%string = EmptyString) || bool_decide (".."%string = "."%string)) with false.
    change (bool_decide (".."%string = ".."%string)) with true. cbv beta iota zeta.
    rewrite (proj2 (enforce_jail_ok _) Hj). cbn [obind]. apply IH.
  - rewrite Hd, (bool_decide_eq_false_2 _ Hdd). cbv zeta.
    rewrite (proj2 (enforce_jail_ok _) Hj). cbn [obind]. rewrite Hl, Hf. by destruct budget.
  - rewrite Hd, (bool_decide_eq_false_2 _ Hdd). cbv zeta.
    rewrite (proj2 (enforce_jail_ok _) Hj). cbn [obind]. rewrite Hl.
    replace (negb follow && bool_decide (pending = [])) with false
      by (destruct Hf as [-> |Hf]; [done|by rewrite (bool_decide_eq_false_2 _ Hf), andb_false_r]).
    destruct budget as [|budget]; [done|]. rewrite Hs. cbn [obind].
    rewrite (proj2 (enforce_jail_ok _) Hj'). cbn [obind]. apply IH.
  - rewrite Hd, (bool_decide_eq_false_2 _ Hdd). cbv zeta.
    rewrite (proj2 (enforce_jail_ok _) Hj). cbn [obind]. rewrite Hl, Hn.
    replace (negb (is_directory_kind (pn_kind node)) && negb (bool_decide (pending = []))) with false
      by (destruct Hk as [-> | ->]; [done|by rewrite andb_false_r]). apply IH.
  - rewrite Hd, (bool_decide_eq_false_2 _ Hdd). cbv zeta.
    rewrite (proj2 (enforce_jail_ok _) Hj). cbn [obind]. by rewrite Hl, Hn, Ha.
Qed.

Lemma walk_leads budget : ∀ pending p q,
  walk rootfs tree follow budget p pending = Ok q → ∃ n, leads p pending n q.
Proof.
  induction budget as [budget IHb] using lt_wf_ind. induction pending as [|c pending IH]; intros p q.
  { destruct budget; intros [= ->]; eauto using leads. }
  rewrite walk_unfold. destruct (bool_decide (c = EmptyString) || _) eqn:Ed.
  { destruct (enforce_jail rootfs p) as [[]| |] eqn:Ej; [|done..]. apply enforce_jail_ok in Ej.
    intros [n Hn]%IH. exists n. apply leads_here; [|done..].
    apply orb_true_iff in Ed as [?%bool_decide_eq_true| ?%bool_decide_eq_true]; auto. }
  destruct (bool_decide (c = ".."%string)) eqn:Edd.
  { apply bool_decide_eq_true in Edd as ->. cbv zeta. destruct (enforce_jail rootfs _) as [[]| |] eqn:Ej; [|done..].
    apply enforce_jail_ok in Ej. intros [n Hn]%IH. exists n. by eapply leads_up. }
  assert (Hc : named c) by (split; [done|by apply bool_decide_eq_false in Edd]).
  cbv zeta. destruct (enforce_jail rootfs (p ++ [c])) as [[]| |] eqn:Ej; [|done..]. apply enforce_jail_ok in Ej. cbn [obind].
  destruct (lookup_symlink_placeholder tree (p ++ [c])) as [link|] eqn:El.
  - destruct (negb follow && bool_decide (pending = [])) eqn:Ef.
    + apply andb_true_iff in Ef as [Hf%negb_true_iff ->%bool_decide_eq_true].
      destruct budget; intros [= <-]; eauto using leads.
    + destruct budget as [|budget]; [done|].
      destruct (split_guest_components (sp_target link)) as [parts| |] eqn:Es; [|done..]. cbn [obind].
      destruct (enforce_jail rootfs _) as [[]| |] eqn:Ej'; [|done..]. apply enforce_jail_ok in Ej'.
      intros [n Hn]%IHb; [|lia]. exists (S n). eapply leads_link; try done.
      apply andb_false_iff in Ef as [?%negb_false_iff|?%bool_decide_eq_false]; auto.
  - destruct (lookup_path tree (p ++ [c])) as [node|] eqn:En.
    + destruct (negb _ && _) eqn:Ek; [done|]. intros [n Hn]%IH. exists n. eapply leads_node; try done.
      apply andb_false_iff in Ek as [?%negb_false_iff|?%negb_false_iff%bool_decide_eq_true]; auto.
    + destruct (allow_missing_leaf rootfs (p ++ [c]) pending) eqn:Ea; [|done]. intros [= <-]. eauto using leads.
Qed.

Lemma walk_bounded budget p pending q :
  walk rootfs tree follow budget p pending = Ok q ↔ ∃ n, (n ≤ budget)%nat ∧ leads p pending n q.
Proof.
  split.
  - intros Hw. destruct (walk_leads _ _ _ _ Hw) as [n Hn]. exists n. split; [|done].
    rewrite (leads_walk _ _ _ _ Hn) in Hw. by destruct (Nat.leb_spec n budget).
  - intros (n & Hle & Hn). rewrite (leads_walk _ _ _ _ Hn). by rewrite (proj2 (Nat.leb_le _ _) Hle).
Qed.

Lemma walk_spec budget : ∀ pending p,
  here_ok p → Forall component_ok pending → walk_result (walk rootfs tree follow budget p pending).
Proof.
  induction budget as [budget IHb] using lt_wf_ind.
  induction pending as [|c pending IH]; intros p Hp Hpend.
  { destruct budget; by apply here_result. }
  apply Forall_cons in Hpend as [Hc Hpend].
  rewrite walk_unfold.
  destruct (bool_decide (c = EmptyString) || bool_decide (c = "."%string)) eqn:Ed.
  { rewrite (proj2 (enforce_jail_ok p) (ho_jail _ Hp)). simpl. by apply IH. }
  apply orb_false_iff in Ed as [_ Hdot%bool_decide_eq_false].
  destruct (bool_decide (c = ".."%string)) eqn:Edd.
  { cbv zeta. destruct (Nat.ltb_spec (length (rf_root rootfs)) (length p)) as [Hl|Hl].
    - pose proof (here_up _ Hp Hl) as Hup.
      rewrite (proj2 (enforce_jail_ok _) (ho_jail _ Hup)). simpl. by apply IH.
    - rewrite (proj2 (enforce_jail_ok p) (ho_jail _ Hp)). simpl. by apply IH. }
  apply bool_decide_eq_false in Edd. cbv zeta.
  assert (Hnames : Forall proper_name (p ++ [c])).
  { apply Forall_app. split; [apply (ho_names _ Hp)|]. constructor; [|done]. by apply proper_component. }
  assert (Hjail : rf_root rootfs `prefix_of` p ++ [c]) by (apply prefix_app_r, (ho_jail _ Hp)).
  assert (Hpar : dir_at tree (p ++ [c]) ∨ ∃ q x, p ++ [c] = q ++ [x] ∧ dir_at tree q).
  { right. exists p, c. split; [done|apply (ho_dir _ Hp)]. }
  rewrite (proj2 (enforce_jail_ok _) Hjail). cbn [obind].
  destruct (lookup_symlink_placeholder tree (p ++ [c])) as [link|] eqn:El.
  - destruct (negb follow && bool_decide (pending = [])) eqn:Ef.
    { apply andb_true_iff in Ef as [Hf%negb_true_iff ->%bool_decide_eq_true].
      destruct budget; simpl; split; try done; congruence. }
    destruct budget as [|budget]; [done|].
    destruct (split_guest_components (sp_target link)) as [parts|err|] eqn:Es; simpl; [|done|by apply split_no_panic in Es].
    destruct (lookup_symlink_parent _ _ _ El) as [Hd [r Hr]].
    destruct (enforce_jail rootfs _) as [[]|err|] eqn:Ej; simpl; [|done|unfold enforce_jail, guard_ok in Ej; by destruct (starts_with _ _)].
    apply enforce_jail_ok in Ej. apply IHb; [lia| |apply Forall_app; split; [by eapply split_components_ok|done]].
    destruct (starts_with_slash (sp_target link)); split; try done.
    + pose proof (ho_names _ Hp) as Hn. destruct (ho_jail _ Hp) as [s ->]. by apply Forall_app in Hn as [? _].
    + rewrite Hr in Hnames. by apply Forall_app in Hnames as [? _].
  - destruct (lookup_path tree (p ++ [c])) as [node|] eqn:En.
    + destruct (negb (is_directory_kind (pn_kind node)) && negb (bool_decide (pending = []))) eqn:Ek; [done|].
      apply andb_false_iff in Ek as [Hd%negb_false_iff|He%negb_false_iff].
      * apply IH; [|done]. split; [done|done|]. by exists node.
      * apply bool_decide_eq_true in He as ->.
        assert (Hr : result_ok (p ++ [c])). { split; auto. intros _. apply no_placeholder; [by destruct p|done]. }
        by destruct budget.
    + unfold allow_missing_leaf. destruct (starts_with _ _ && _); [|done].
      split; auto. intros _ n target Hn. congruence.
Qed.
End resolve.

(** The directory a path is resolved from. *)
Definition base_of (rootfs : Rootfs) (path : string) : GuestPath :=
  if starts_with_slash path then rf_root rootfs else rf_cwd rootfs.

Record rootfs_ok (rootfs : Rootfs) (tree : PathTree) : Prop := {
  rk_root : dir_at tree (rf_root rootfs);
  rk_jail : rf_root rootfs `prefix_of` rf_cwd rootfs;
  rk_names : Forall proper_name (rf_cwd rootfs);
}.

Lemma rootfs_here rootfs tree path :
  rootfs_ok rootfs tree → dir_at tree (base_of rootfs path) → here_ok rootfs tree (base_of rootfs path).
Proof.
  intros [H1 [r Hr] H3] Hd. unfold base_of in *. destruct (starts_with_slash path); split; auto.
  - rewrite Hr in H3. by apply Forall_app in H3 as [? _].
  - by exists r.
Qed.

Lemma resolve_result rootfs tree follow path :
  tree_wf tree → rootfs_ok rootfs tree → dir_at tree (base_of rootfs path) →
  walk_result rootfs tree follow (resolve rootfs tree follow path).
Proof.
  intros Hwf Hr Hd. unfold resolve. destruct (bool_decide (path = EmptyString) || contains_nul path); [done|].
  fold (base_of rootfs path).
  destruct (split_guest_components path) as [l|err|] eqn:E; cbn [obind]; [|done|by apply split_no_panic in E].
  apply walk_spec; [done|apply Hr|by apply rootfs_here|by eapply split_components_ok].
Qed.

Lemma resolve_leads rootfs tree follow path p :
  resolve rootfs tree follow path = Ok p →
  ∃ components n, split_guest_components path = Ok components ∧ (n ≤ SYMLINK_LIMIT)%nat ∧
    leads rootfs tree follow (base_of rootfs path) components n p.
Proof.
  unfold resolve. destruct (bool_decide (path = EmptyString) || contains_nul path); [done|]. fold (base_of rootfs path).
  destruct (split_guest_components path) as [l| |]; [|done..]. cbn [obind]. intros (n & Hn & Hl)%walk_bounded. eauto.
Qed.

Lemma leads_resolve rootfs tree follow path components n p :
  path ≠ EmptyString → contains_nul path = false → split_guest_components path = Ok components →
  leads rootfs tree follow (base_of rootfs path) components n p →
  resolve rootfs tree follow path = if (n <=? SYMLINK_LIMIT)%nat then Ok p else Err Loop.
Proof.
  intros Hp Hn Hs Hl. unfold resolve. rewrite (bool_decide_eq_false_2 _ Hp), Hn. fold (base_of rootfs path).
  cbn [orb]. rewrite Hs. cbn [obind]. by apply leads_walk.
Qed.

(** ** Printing and resolving *)
Lemma split_slash_name c : has_slash c = false → split_slash c = [c].
Proof.
  induction c as [|a c IH]; [done|]. simpl. intros [-> Hc]%orb_false_iff. by rewrite (IH Hc).
Qed.

Lemma split_slash_app c s : has_slash c = false → split_slash (c +:+ String "/" s) = c :: split_slash s.
Proof.
  induction c as [|a c IH]; [done|]. simpl. intros [Ha Hc]%orb_false_iff. by rewrite Ha, (IH Hc).
Qed.

Lemma split_join l : l ≠ [] → Forall (λ c, has_slash c = false) l → split_slash (join_slash l) = l.
Proof.
  induction l as [|c l IH]; [done|]. intros _ [Hc Hl]%Forall_cons.
  destruct l as [|d l]; [by apply split_slash_name|].
  change (join_slash (c :: d :: l)) with (c +:+ String "/" (join_slash (d :: l))).
  rewrite split_slash_app by done. by rewrite IH.
Qed.

Lemma string_bytes_app s t : string_bytes (s +:+ t) = string_bytes s ++ string_bytes t.
Proof.
  induction s as [|a s IH]; [done|]. change (String a s +:+ t) with (String a (s +:+ t)).
  by rewrite !string_bytes_cons, IH.
Qed.

Lemma join_no_nul l : Forall (λ c, contains_nul c = false) l → contains_nul (join_slash l) = false.
Proof.
  induction l as [|c l IH]; [done|]. intros [Hc Hl]%Forall_cons. specialize (IH Hl).
  destruct l as [|d l]; [done|].
  change (join_slash (c :: d :: l)) with (c +:+ "/" +:+ join_slash (d :: l)).
  rewrite contains_nul_false in *. rewrite !string_bytes_app, !not_elem_of_app. split_and!; [done| |done].
  by vm_compute; intros ?%list_elem_of_singleton.
Qed.

Lemma collect_short_id l :
  Forall (λ c, Z.of_nat (String.length c) ≤ 255) l →
  collect (λ part, if 255 <? Z.of_nat (String.length part) then Err NameTooLong else Ok part) l = Ok l.
Proof.
  induction l as [|c l IH]; [done|]. intros [Hc Hl]%Forall_cons. simpl.
  destruct (Z.ltb_spec 255 (Z.of_nat (String.length c))); [lia|]. simpl. by rewrite (IH Hl).
Qed.

Lemma split_printed l : Forall proper_name l → split_guest_components ("/" +:+ join_slash l) = Ok l.
Proof.
  intros Hl. unfold split_guest_components.
  assert (Hn : contains_nul ("/" +:+ join_slash l) = false).
  { assert (H : contains_nul (join_slash l) = false).
    { apply join_no_nul. eapply Forall_impl; [done|]. by intros c []. }
    rewrite contains_nul_false in *. rewrite string_bytes_app, not_elem_of_app. split; [|done].
    by vm_compute; intros ?%list_elem_of_singleton. }
  rewrite Hn. change ("/" +:+ join_slash l) with (String "/" (join_slash l)).
  change (split_slash (String "/" (join_slash l))) with (EmptyString :: split_slash (join_slash l)).
  rewrite filter_cons, decide_False by naive_solver.
  destruct (decide (l = [])) as [->|Hne]; [done|].
  rewrite split_join; [|done|by eapply Forall_impl; [done|]; intros c []].
  replace (filter (λ part, part ≠ EmptyString) l) with l.
  - apply collect_short_id. eapply Forall_impl; [done|]. by intros c [].
  - clear Hne Hn. induction Hl as [|c l Hc Hl IH]; [done|]. rewrite filter_cons, decide_True by apply Hc. by rewrite <- IH.
Qed.

Section printed.
Context (rootfs : Rootfs) (tree : PathTree) (follow : bool).
Context (Hwf : tree_wf tree).

Lemma lookup_symlink_dirs p n : (∀ k, (k ≤ n)%nat → dir_at tree (take k p)) → lookup_symlink_from tree p n = None.
Proof.
  induction n as [|n IH]; intros H; [done|]. simpl lookup_symlink_from.
  assert (IHn : lookup_symlink_from tree p n = None) by (apply IH; intros; apply H; lia).
  destruct (H (S n) ltac:(lia)) as (m & -> & Hm). unfold is_directory in Hm.
  by destruct (pn_kind m) as [| | |[]|].
Qed.

Lemma dirs_above p q : dir_at tree (p ++ q) → dir_at tree p.
Proof.
  intros (n & (i & Hi & Hn)%lookup_path_Some & Hd). destruct (decide (q = [])) as [->|Hq].
  - rewrite app_nil_r in Hi. exists n. split; [|done]. apply lookup_path_Some. eauto.
  - by eapply dir_prefix.
Qed.

Lemma walk_existing budget l p :
  rf_root rootfs `prefix_of` p → Forall proper_name l → dir_at tree p →
  is_Some (lookup_path tree (p ++ l)) → not_link tree (p ++ l) →
  walk rootfs tree follow budget p l = Ok (p ++ l).
Proof.
  revert p. induction l as [|c l IH]; intros p Hj Hl Hd [m Hm] Hnl.
  { rewrite app_nil_r. by destruct budget. }
  apply Forall_cons in Hl as [Hc Hl].
  replace (p ++ c :: l) with ((p ++ [c]) ++ l) in * by by rewrite <- app_assoc.
  assert (Hjail : rf_root rootfs `prefix_of` p ++ [c]) by by apply prefix_app_r.
  assert (Hnext : dir_at tree (p ++ [c]) ∨ l = []).
  { destruct (decide (l = [])) as [->|Hne]; [by right|left].
    apply lookup_path_Some in Hm as (i & Hi & _). by eapply dir_prefix. }
  assert (Hnode : ∃ n, lookup_path tree (p ++ [c]) = Some n ∧
            negb (is_directory_kind (pn_kind n)) && negb (bool_decide (l = [])) = false ∧
            lookup_symlink_placeholder tree (p ++ [c]) = None).
  { assert (Habove : ∀ k, (k ≤ length p)%nat → dir_at tree (take k (p ++ [c]))).
    { intros k Hk. rewrite take_app_le by done. apply (dirs_above _ (drop k p)). by rewrite take_drop. }
    destruct Hnext as [Hdn| ->].
    - assert (Hplace : lookup_symlink_placeholder tree (p ++ [c]) = None).
      { unfold lookup_symlink_placeholder. apply lookup_symlink_dirs. intros k Hk.
        destruct (decide (k ≤ length p)%nat); [auto|]. rewrite take_ge; [done|]. rewrite length_app in *. simpl in *. lia. }
      destruct Hdn as (n & Hn & Hdir). exists n. split_and!; [done| |done]. unfold is_directory in Hdir. by rewrite Hdir.
    - rewrite app_nil_r in Hm, Hnl. exists m. split_and!; [done|by rewrite andb_false_r|].
      unfold lookup_symlink_placeholder. rewrite length_app. simpl length. rewrite Nat.add_1_r. simpl.
      rewrite take_ge by (rewrite length_app; simpl; lia). rewrite Hm.
      pose proof (lookup_symlink_dirs (p ++ [c]) (length p) Habove) as Hrec.
      destruct (pn_kind m) as [| | |[]|target] eqn:Ek; try done. by destruct (Hnl m target Hm). }
  destruct Hnode as (n & Hn & Hk & Hlp).
  assert (Hstep : walk rootfs tree follow budget p (c :: l) = walk rootfs tree follow budget (p ++ [c]) l).
  { assert (Hb : bool_decide (c = EmptyString) || bool_decide (c = "."%string) = false).
    { destruct Hc. by rewrite !bool_decide_eq_false_2. }
    assert (Hb2 : bool_decide (c = ".."%string) = false) by (destruct Hc; by apply bool_decide_eq_false_2).
    assert (He : enforce_jail rootfs (join_component p c) = Ok tt) by by apply enforce_jail_ok.
    destruct budget; simpl; rewrite Hb, Hb2, He; cbn [obind]; unfold join_component; by rewrite Hlp, Hn, Hk. }
  rewrite Hstep. destruct Hnext as [Hdn| ->].
  - apply IH; eauto.
  - rewrite app_nil_r. by destruct budget.
Qed.

Lemma resolve_visible p s :
  dir_at tree (rf_root rootfs) → is_Some (lookup_path tree p) → not_link tree p →
  Forall proper_name p → visible_path rootfs p = Ok s →
  resolve rootfs tree follow s = Ok p.
Proof.
  intros Hr Hp Hnl Hnames. unfold visible_path. destruct (starts_with p (rf_root rootfs)) eqn:E; [|done].
  apply starts_with_true in E as [r ->]. rewrite drop_app_length. intros [= <-].
  apply Forall_app in Hnames as [_ Hnames]. unfold resolve. pose proof (split_printed r Hnames) as Hs.
  assert (Hz : bool_decide (("/" +:+ join_slash r) = EmptyString) || contains_nul ("/" +:+ join_slash r) = false).
  { unfold split_guest_components in Hs. destruct (contains_nul ("/" +:+ join_slash r)); [done|].
    by rewrite bool_decide_eq_false_2. }
  rewrite Hz, Hs. cbn [obind]. change (starts_with_slash ("/" +:+ join_slash r)) with true.
  by apply walk_existing.
Qed.
End printed.

(** ** mcr-vfs: the cache agrees with the tree

    Every cached listing, attribute and content, of whatever generation, is what the tree
    gives now for its inode.  An operation that changes the tree keeps this when it
    invalidates the inodes for which the answer may change. *)

Implicit Types (t : PathTree) (c : VfsCache).

(** ** What stays true of an inode when the tree changes *)
Record stays t t' (i : Z) : Prop := {
  sy_attr n : tr_inodes t !! i = Some n → ∃ n', tr_inodes t' !! i = Some n' ∧ pn_attr n' = pn_attr n;
  sy_data n : tr_inodes t !! i = Some n → pn_deferred_host_path n = None →
    ∃ n', tr_inodes t' !! i = Some n' ∧ pn_deferred_host_path n' = None ∧ pn_data n' = pn_data n;
  sy_listing p l : tr_nodes t !! p = Some i → static_directory_entries t p = Ok l →
    ∃ p', tr_nodes t' !! p' = Some i ∧ static_directory_entries t' p' = Ok l;
}.

(** ** The cache *)
Section cache.
Context `{HostFs}.

Record cache_ok t c : Prop := {
  co_metadata i g a : ca_metadata c !! (i, g) = Some a → ∃ n, tr_inodes t !! i = Some n ∧ pn_attr n = a;
  co_read i g d : ca_small_reads c !! (i, g) = Some d →
    ∃ n, tr_inodes t !! i = Some n ∧ pn_deferred_host_path n = None ∧ pn_data n = d;
  co_listing i g l : ca_directory_listings c !! (i, g) = Some l →
    ∃ p, tr_nodes t !! p = Some i ∧ static_directory_entries t p = Ok l;
  co_handle i h : ca_host_read_handles c !! i = Some h → open_host_read_handle (hr_path h) = Ok tt;
}.

Lemma cache_ok_new t : cache_ok t cache_new.
Proof. by split. Qed.

(** ** What an invalidation leaves *)
Record cache_without (S : list Z) c c' : Prop := {
  cw_metadata i g a : ca_metadata c' !! (i, g) = Some a → ca_metadata c !! (i, g) = Some a ∧ i ∉ S;
  cw_read i g d : ca_small_reads c' !! (i, g) = Some d → ca_small_reads c !! (i, g) = Some d ∧ i ∉ S;
  cw_listing i g l : ca_directory_listings c' !! (i, g) = Some l → ca_directory_listings c !! (i, g) = Some l ∧ i ∉ S;
  cw_handle i h : ca_host_read_handles c' !! i = Some h → ca_host_read_handles c !! i = Some h;
}.

Lemma cache_without_nil c : cache_without [] c c.
Proof. split; intros; try done; (split; [done|apply not_elem_of_nil]). Qed.

Lemma cache_without_trans S1 S2 c1 c2 c3 :
  cache_without S1 c1 c2 → cache_without S2 c2 c3 → cache_without (S1 ++ S2) c1 c3.
Proof.
  intros [H1 H2 H3 X1] [H4 H5 H6 X2]. split; [..|intros i h Hh; auto]; intros i g x Hx;
    [destruct (H4 _ _ _ Hx) as [[Ha Hb]%H1 Hc]|destruct (H5 _ _ _ Hx) as [[Ha Hb]%H2 Hc]
    |destruct (H6 _ _ _ Hx) as [[Ha Hb]%H3 Hc]]; (split; [done|rewrite elem_of_app; tauto]).
Qed.

Lemma keep_other_Some {V} (inode i g : Z) (m : gmap VfsCacheKey V) (x : V) :
  keep_other inode m !! (i, g) = Some x → m !! (i, g) = Some x ∧ (i ∉ [inode]).
Proof. unfold keep_other. intros [H1 H2]%map_lookup_filter_Some. split; [done|]. by intros ->%list_elem_of_singleton. Qed.

Lemma remove_inode_without (inode : Z) c : cache_without [inode] c (remove_inode_entries inode (bump_inode_generation inode c)).
Proof.
  split; simpl; [intros i g x; apply keep_other_Some..|]. by intros i h [_ Hh]%lookup_delete_Some.
Qed.

Lemma invalidate_inode_without (inode : Z) c : cache_without [inode] c (invalidate_inode inode c).
Proof.
  split; simpl; [intros i g x; apply keep_other_Some..|]. by intros i h [_ Hh]%lookup_delete_Some.
Qed.

Lemma invalidate_inodes_without inodes c : cache_without inodes c (invalidate_inodes inodes c).
Proof.
  assert (Hw : cache_without inodes c
    (foldl (λ c inode, remove_inode_entries inode (bump_inode_generation inode c)) c inodes)).
  { revert c. induction inodes as [|i l IH]; intros c; [apply cache_without_nil|]. simpl.
    change (i :: l) with ([i] ++ l). eapply cache_without_trans; [apply remove_inode_without|apply IH]. }
  unfold invalidate_inodes. case_bool_decide; [done|]. by destruct Hw.
Qed.

Lemma invalidate_all_ok t c : cache_ok t (invalidate_all c).
Proof. by split. Qed.

Lemma invalidate_proc_ok t c : cache_ok t c → cache_ok t (invalidate_proc_views c).
Proof. intros [_ _ _ Hh]. by split. Qed.

Lemma cache_ok_step t t' c c' S :
  cache_ok t c → cache_without S c c' → (∀ i, i ∉ S → stays t t' i) → cache_ok t' c'.
Proof.
  intros [H1 H2 H3 X1] [H4 H5 H6 X2] Hs. split; [..|by eauto].
  - intros i g a [Ha Hi]%H4. destruct (H1 _ _ _ Ha) as (n & Hn & <-). by apply (sy_attr _ _ _ (Hs i Hi)).
  - intros i g d [Hd Hi]%H5. destruct (H2 _ _ _ Hd) as (n & Hn & He & <-). by apply (sy_data _ _ _ (Hs i Hi)).
  - intros i g l [Hl Hi]%H6. destruct (H3 _ _ _ Hl) as (p & Hp & Hl'). by apply (sy_listing _ _ _ (Hs i Hi) p).
Qed.
End cache.

Lemma stays_refl t i : stays t t i.
Proof. split; eauto. Qed.

Lemma stays_trans t1 t2 t3 i : stays t1 t2 i → stays t2 t3 i → stays t1 t3 i.
Proof.
  intros [A1 D1 L1] [A2 D2 L2]. split.
  - intros n Hn. destruct (A1 n Hn) as (n' & Hn' & <-). eauto.
  - intros n Hn Hd. destruct (D1 n Hn Hd) as (n' & Hn' & Hd' & <-). eauto.
  - intros p l Hp Hl. destruct (L1 p l Hp Hl) as (p' & Hp' & Hl'). eauto.
Qed.

(** *** Listings *)
Record alike (n n' : PathNode) : Prop := {
  al_id : pn_inode_id n' = pn_inode_id n;
  al_bits : kind_bits (pn_attr n') = kind_bits (pn_attr n);
  al_dir : is_directory n' = is_directory n;
}.

Lemma alike_refl n : alike n n.
Proof. done. Qed.

Lemma same_shape_alike n n' : same_shape n n' → alike n n'.
Proof. intros Hs. pose proof (same_shape_directory _ _ Hs). by destruct Hs. Qed.

(** The inodes linked afterwards keep their id and type. *)
Definition linked_alike t t' : Prop :=
  ∀ p j n, tr_nodes t' !! p = Some j → tr_inodes t !! j = Some n →
  ∃ n', tr_inodes t' !! j = Some n' ∧ alike n n'.

Lemma children_same t t' p p' :
  tree_index t → tree_index t' → (∀ x, tr_nodes t' !! (p' ++ [x]) = tr_nodes t !! (p ++ [x])) →
  default ∅ (tr_children t' !! p') = default ∅ (tr_children t !! p).
Proof.
  intros [H1 _] [H2 _] Hx. apply map_eq. intros x. specialize (Hx x). rewrite <- H1, <- H2 in Hx.
  unfold child in Hx. by destruct (tr_children t' !! p'), (tr_children t !! p).
Qed.

Lemma collect_ext {A B E} (f g : A → outcome B E) l : (∀ x, x ∈ l → f x = g x) → collect f l = collect g l.
Proof.
  induction l as [|x l IH]; intros H; [done|]. simpl. rewrite (H x) by by left. rewrite IH; [done|].
  intros y Hy. apply H. by right.
Qed.

Lemma collect_Ok_in {A B E} (f : A → outcome B E) l ys x : collect f l = Ok ys → x ∈ l → ∃ y, f x = Ok y.
Proof.
  revert ys. induction l as [|z l IH]; intros ys; simpl; [by intros _ ?%elem_of_nil|].
  destruct (f z) as [y| |] eqn:E1; [|done..]. simpl. destruct (collect f l) as [ys'| |] eqn:E2; [|done..].
  intros _ [->|Hx]%elem_of_cons; eauto.
Qed.

Lemma dirent_type_bits a b : kind_bits a = kind_bits b → dirent_type a = dirent_type b.
Proof. intros H. unfold dirent_type. by rewrite H. Qed.

Lemma elem_of_children_iter ch x j : (x, j) ∈ children_iter ch ↔ ch !! x = Some j.
Proof. unfold children_iter. rewrite sort_by_perm. apply elem_of_map_to_list. Qed.

Lemma static_children_same t t' p p' i l :
  tree_index t → tree_index t' → tr_nodes t !! p = Some i → tr_nodes t' !! p' = Some i →
  (∀ x, tr_nodes t' !! (p' ++ [x]) = tr_nodes t !! (p ++ [x])) → linked_alike t t' →
  static_children t p = Ok l → static_children t' p' = Ok l.
Proof.
  intros Hi Hi' Hp Hp' Hx Ha. unfold static_children, lookup_path. rewrite Hp, Hp'. simpl.
  destruct (tr_inodes t !! i) as [n|] eqn:En; [|done]. simpl.
  destruct (Ha p' i n Hp' En) as (n' & -> & Hal). simpl. rewrite (al_dir _ _ Hal).
  destruct (negb (is_directory n)); [done|]. rewrite (children_same t t' p p') by done.
  intros Hl. rewrite <- Hl. apply collect_ext. intros [x j] Hin. simpl.
  destruct (collect_Ok_in _ _ _ _ Hl Hin) as [y Hy]. simpl in Hy.
  destruct (tr_inodes t !! j) as [m|] eqn:Em; [|done].
  apply elem_of_children_iter in Hin.
  assert (Hj : tr_nodes t' !! (p' ++ [x]) = Some j).
  { rewrite Hx, <- (ti_child _ Hi). unfold child. destruct (tr_children t !! p); [done|]. simpl in Hin. by rewrite lookup_empty in Hin. }
  destruct (Ha _ j m Hj Em) as (m' & -> & Hm). simpl. rewrite (al_id _ _ Hm).
  by rewrite (dirent_type_bits _ _ (al_bits _ _ Hm)).
Qed.

Lemma listing_same t t' p p' i l :
  tree_index t → tree_index t' → tr_nodes t !! p = Some i → tr_nodes t' !! p' = Some i →
  (∀ x, tr_nodes t' !! (p' ++ [x]) = tr_nodes t !! (p ++ [x])) → linked_alike t t' →
  static_directory_entries t p = Ok l → static_directory_entries t' p' = Ok l.
Proof.
  intros Hi Hi' Hp Hp' Hx Ha. unfold static_directory_entries.
  destruct (static_children t p) as [ch| |] eqn:Ec; [|done..]. simpl.
  rewrite (static_children_same t t' p p' i ch) by done. simpl.
  unfold directory_entries_from_children, lookup_path. rewrite Hp, Hp'. simpl.
  destruct (tr_inodes t !! i) as [n|] eqn:En; [|done]. destruct (Ha p' i n Hp' En) as (n' & -> & Hal).
  simpl. by rewrite (al_id _ _ Hal).
Qed.

Lemma listing_dir t p l : static_directory_entries t p = Ok l → dir_at t p.
Proof.
  unfold static_directory_entries, static_children. destruct (lookup_path t p) as [n|] eqn:E; [|done]. simpl.
  destruct (is_directory n) eqn:Ed; [|done]. intros _. by exists n.
Qed.

(** What an inode needs to stay. *)
Lemma stays_intro t t' i :
  tree_index t → tree_index t' → linked_alike t t' →
  (∀ n, tr_inodes t !! i = Some n → ∃ n', tr_inodes t' !! i = Some n' ∧ pn_attr n' = pn_attr n ∧
     (pn_deferred_host_path n = None → pn_deferred_host_path n' = None ∧ pn_data n' = pn_data n)) →
  (∀ p, tr_nodes t !! p = Some i → dir_at t p →
     ∃ p', tr_nodes t' !! p' = Some i ∧ ∀ x, tr_nodes t' !! (p' ++ [x]) = tr_nodes t !! (p ++ [x])) →
  stays t t' i.
Proof.
  intros Hi Hi' Ha Hn Hp. split.
  - intros n E. destruct (Hn n E) as (n' & ? & ? & _). eauto.
  - intros n E Hd. destruct (Hn n E) as (n' & ? & ? & H). destruct (H Hd). eauto.
  - intros p l E El. destruct (Hp p E (listing_dir _ _ _ El)) as (p' & Hp' & Hx). exists p'. split; [done|].
    exact (listing_same t t' p p' i l Hi Hi' E Hp' Hx Ha El).
Qed.

Lemma same_node (n : PathNode) (o : option PathNode) : o = Some n →
  ∃ n', o = Some n' ∧ pn_attr n' = pn_attr n ∧
     (pn_deferred_host_path n = None → pn_deferred_host_path n' = None ∧ pn_data n' = pn_data n).
Proof. eauto. Qed.

(** ** The changes of the tree *)
Lemma stays_update t i0 n n' i :
  tree_index t → tr_inodes t !! i0 = Some n → alike n n' → i ≠ i0 →
  stays t (set_inodes (insert i0 n') t) i.
Proof.
  intros Hi Hn Ha Hne. apply stays_intro; [done|by apply tree_index_inodes| | |].
  - intros p j m _ Hm. simpl. destruct (decide (j = i0)) as [->|].
    + rewrite lookup_insert_eq. rewrite Hn in Hm. injection Hm as <-. eauto.
    + rewrite lookup_insert_ne by done. eauto using alike_refl.
  - intros m Hm. apply same_node. simpl. by rewrite lookup_insert_ne.
  - intros p Hp _. by exists p.
Qed.

(** A change that keeps the attributes, and the contents that may be cached. *)
Lemma stays_materialize t i0 n n' i :
  tree_index t → tr_inodes t !! i0 = Some n → alike n n' → pn_attr n' = pn_attr n →
  (pn_deferred_host_path n = None → pn_deferred_host_path n' = None ∧ pn_data n' = pn_data n) →
  stays t (set_inodes (insert i0 n') t) i.
Proof.
  intros Hi Hn Ha Hattr Hdata. destruct (decide (i = i0)) as [->|]; [|by eapply stays_update].
  apply stays_intro; [done|by apply tree_index_inodes| | |].
  - intros p j m _ Hm. simpl. destruct (decide (j = i0)) as [->|].
    + rewrite lookup_insert_eq. rewrite Hn in Hm. injection Hm as <-. eauto.
    + rewrite lookup_insert_ne by done. eauto using alike_refl.
  - intros m Hm. rewrite Hn in Hm. injection Hm as <-. simpl. rewrite lookup_insert_eq. eauto.
  - intros p Hp _. by exists p.
Qed.

Lemma sibling_free q p (x y : string) (m : gmap GuestPath Z) (i : Z) : p ≠ q → <[q ++ [x] := i]> m !! (p ++ [y]) = m !! (p ++ [y]).
Proof. intros Hne. rewrite lookup_insert_ne; [done|]. by intros [-> _]%app_inj_tail. Qed.

(** A link to a new or an old inode: the directory of the link and the inode may change. *)
Lemma stays_link t q x i0 n0 k i :
  tree_wf t → tr_nodes t !! q = Some k → tr_nodes t !! (q ++ [x]) = None →
  (∀ n, tr_inodes t !! i0 = Some n → alike n n0) → i ≠ k → i ≠ i0 →
  stays t (link_at (q ++ [x]) i0 (set_inodes (insert i0 n0) t)) i.
Proof.
  intros Hwf Hq Hfree Ha Hk Hi0. apply stays_intro.
  - apply Hwf.
  - apply link_at_index; [by destruct q|]. apply tree_index_inodes, Hwf.
  - intros p j m _ Hm. rewrite link_at_inodes. simpl. destruct (decide (j = i0)) as [->|].
    + rewrite lookup_insert_eq. eauto.
    + rewrite lookup_insert_ne by done. eauto using alike_refl.
  - intros m Hm. apply same_node. rewrite link_at_inodes. simpl. by rewrite lookup_insert_ne.
  - intros p Hp _. exists p. rewrite link_at_nodes. simpl. split.
    + rewrite lookup_insert_ne; [done|]. intros <-. congruence.
    + intros y. apply sibling_free. intros ->. congruence.
Qed.

(** A link that goes, its inode with one link less. *)
Lemma stays_unlink t q x i0 n0 k i :
  tree_wf t → tr_nodes t !! q = Some k → tr_nodes t !! (q ++ [x]) = Some i0 → tr_inodes t !! i0 = Some n0 →
  (is_directory n0 = true → ∀ y, tr_nodes t !! ((q ++ [x]) ++ [y]) = None) →
  i ≠ k → i ≠ i0 → stays t (drop_one (unlink_at (q ++ [x]) t) i0) i.
Proof.
  intros Hwf Hq Hp Hn He Hk Hi0. pose proof (tree_wf_unlink t _ q x i0 n0 Hwf eq_refl Hp Hn He) as Hwf'.
  apply stays_intro; [apply Hwf|apply Hwf'| | |].
  - intros p j m _ Hm. unfold drop_one. simpl. rewrite unlink_at_inodes. destruct (decide (j = i0)) as [->|].
    + rewrite lookup_alter_eq. rewrite Hm. simpl. eexists. split; [done|]. by split.
    + rewrite lookup_alter_ne by done. eauto using alike_refl.
  - intros m Hm. apply same_node. unfold drop_one. simpl. rewrite unlink_at_inodes. by rewrite lookup_alter_ne.
  - intros p Hpi _. exists p. unfold drop_one. simpl. rewrite unlink_at_nodes. split.
    + rewrite lookup_delete_ne; [done|]. intros <-. congruence.
    + intros y. rewrite lookup_delete_ne; [done|]. intros [-> _]%app_inj_tail. congruence.
Qed.

Lemma stays_delete t i0 i :
  tree_wf t → links (tr_nodes t) i0 = 0%nat → i ≠ i0 → stays t (set_inodes (delete i0) t) i.
Proof.
  intros Hwf Hl Hi. pose proof (proj1 (links_zero _ _) Hl) as Hno.
  apply stays_intro; [apply Hwf|apply tree_index_inodes, Hwf| | |].
  - intros p j m Hp Hm. simpl in *. rewrite lookup_delete_ne; [eauto using alike_refl|].
    intros <-. by apply (Hno p).
  - intros m Hm. apply same_node. simpl. by rewrite lookup_delete_ne.
  - intros p Hp _. by exists p.
Qed.

(** A subtree that moves: only the two directories above it change. *)
Lemma stays_moved t old new k1 k2 i :
  tree_wf t → can_move t old new →
  (∀ q x, old = q ++ [x] → tr_nodes t !! q = Some k1) → (∀ q x, new = q ++ [x] → tr_nodes t !! q = Some k2) →
  i ≠ k1 → i ≠ k2 → stays t (moved_tree t old new) i.
Proof.
  intros Hwf Hcm Hk1 Hk2 H1 H2. destruct (moved_tree_only t old new) as [Hi _].
  pose proof (moved_tree_nodes t old new Hwf Hcm) as Hnodes.
  apply stays_intro; [apply Hwf|by apply moved_tree_wf| | |].
  - intros p j m _ Hm. rewrite Hi. eauto using alike_refl.
  - intros m Hm. apply same_node. by rewrite Hi.
  - intros p Hp _. destruct (decide (old `prefix_of` p)) as [[r ->]|Hno].
    + exists (new ++ r). split; [apply Hnodes; left; eauto|]. intros y. apply option_eq. intros j.
      rewrite Hnodes. split.
      * intros [(r' & E & H)|[_ H]].
        -- rewrite <- app_assoc in E. apply app_inv_head in E as <-. by rewrite <- app_assoc.
        -- rewrite <- app_assoc, (nothing_below_free t old new Hwf Hcm) in H. done.
      * intros H. left. exists (r ++ [y]). by rewrite <- !app_assoc in *.
    + exists p. split; [apply Hnodes; right; done|]. intros y. apply option_eq. intros j. rewrite Hnodes. split.
      * intros [(r & E & H)|[_ H]]; [|done]. exfalso.
        destruct (path_cases r) as [->|(s & z & ->)].
        -- rewrite app_nil_r in E. rewrite (Hk2 p y) in Hp by done. congruence.
        -- rewrite app_assoc in E. apply app_inj_tail in E as [-> _].
           rewrite (nothing_below_free t old new Hwf Hcm) in Hp. done.
      * intros H. right. split; [|done]. intros [E|]%prefix_snoc_cases; [|done].
        rewrite (Hk1 p y) in Hp by done. congruence.
Qed.
