(* ===== verification/VfsFdOps.v ===== *)
(** * mcr-vfs: the invariant of a descriptor table

    Every entry refers to a live description and, for a pipe or an event counter, to a live
    object; close-on-exec marks open descriptors only; and the reader and writer counts of a
    pipe are those of the entries of this table plus the ones other tables hold
    ([others]).  Every operation of the table keeps this, and [next_fd_from] finds the
    lowest free descriptor. *)

From S2P Require Import Prelude SysAbi Bytes VfsTypes VfsPath VfsFd.
From stdpp Require Import base gmap list strings sorting.
From Stdlib Require Import ZArith Lia.
Open Scope Z_scope.

(** ** Counting the ends of a pipe *)
Definition is_end (read : bool) (pipe : Z) (e : FdEntry) : bool :=
  match pipe_node (en_file e), fr_kind (en_file e), read with
  | Ok p, KPipeRead, true | Ok p, KPipeWrite, false => p =? pipe
  | _, _, _ => false
  end.

Definition ends (m : gmap Z FdEntry) (read : bool) (pipe : Z) : Z :=
  zlen (filter (λ p : Z * FdEntry, is_end read pipe p.2 = true) (map_to_list m)).

Definition z_if (b : bool) : Z := if b then 1 else 0.

Lemma ends_insert m fd e b p : m !! fd = None → ends (<[fd := e]> m) b p = z_if (is_end b p e) + ends m b p.
Proof.
  intros H. unfold ends, zlen, z_if. rewrite map_to_list_insert by done. rewrite filter_cons. cbn [snd].
  destruct (is_end b p e); [rewrite decide_True by done|rewrite decide_False by done]; simpl; lia.
Qed.

Lemma ends_delete m fd e b p : m !! fd = Some e → ends m b p = z_if (is_end b p e) + ends (delete fd m) b p.
Proof.
  intros H. rewrite <- (insert_delete_id m fd e) at 1 by done. apply ends_insert, lookup_delete_eq.
Qed.

Lemma ends_nonneg m b p : 0 ≤ ends m b p.
Proof. apply zlen_nonneg. Qed.

Lemma ends_pos m fd e b p : m !! fd = Some e → is_end b p e = true → 0 < ends m b p.
Proof.
  intros H He. rewrite (ends_delete m fd e b p H), He. simpl. pose proof (ends_nonneg (delete fd m) b p). lia.
Qed.

(** ** The invariant *)
Definition file_kind_ok (f : FileRef) : Prop :=
  match fr_kind f with
  | KPipeRead | KPipeWrite => ∃ p, pipe_node f = Ok p
  | KEventfd => ∃ c, eventfd_node f = Ok c
  | _ => pipe_node f = Err BadFd
  end.

Record file_ok (h : FdHeap) (f : FileRef) : Prop := {
  fk_kind : file_kind_ok f;
  fk_pipe p : pipe_node f = Ok p → is_Some (h_pipes h !! p);
  fk_eventfd c : eventfd_node f = Ok c → is_Some (h_eventfds h !! c);
}.

Record pipe_ok (s : PipeState) (readers writers : Z) : Prop := {
  po_readers : pi_readers s = readers;
  po_writers : pi_writers s = writers;
  po_room : available s ≤ pi_capacity s;
  po_capacity : MIN_PIPE_CAPACITY ≤ pi_capacity s;
}.

Record heap_fresh (h : FdHeap) : Prop := {
  hf_desc a : is_Some (h_descriptions h !! a) → a < h_next h;
  hf_pipe a : is_Some (h_pipes h !! a) → a < h_next h;
  hf_eventfd a : is_Some (h_eventfds h !! a) → a < h_next h;
}.

(** What other tables hold of each pipe: readers, writers. *)
Definition Others : Type := bool → Z → Z.

Record fd_wf (o : Others) (w : FdWorld) : Prop := {
  fw_file fd e : ft_entries (fw_table w) !! fd = Some e → file_ok (fw_heap w) (en_file e);
  fw_desc fd e : ft_entries (fw_table w) !! fd = Some e → is_Some (h_descriptions (fw_heap w) !! en_description e);
  fw_range fd : is_Some (ft_entries (fw_table w) !! fd) → 0 ≤ fd ≤ I32_MAX;
  fw_cloexec fd : fd ∈ ft_cloexec (fw_table w) → is_Some (ft_entries (fw_table w) !! fd);
  fw_pipes p s : h_pipes (fw_heap w) !! p = Some s →
    pipe_ok s (ends (ft_entries (fw_table w)) true p + o true p) (ends (ft_entries (fw_table w)) false p + o false p);
  fw_fresh : heap_fresh (fw_heap w);
  fw_others b p : 0 ≤ o b p;
  fw_dead b p : h_pipes (fw_heap w) !! p = None → o b p = 0;
}.

(** ** The lowest free descriptor *)
Lemma next_fd_loop_spec fuel t fd :
  0 ≤ fd ≤ I32_MAX →
  (Z.of_nat (size (filter (λ p : Z * FdEntry, fd ≤ p.1) (ft_entries t))) < Z.of_nat fuel) →
  match next_fd_loop fuel t fd with
  | Ok r => fd ≤ r ≤ I32_MAX ∧ ft_entries t !! r = None ∧ ∀ k, fd ≤ k < r → is_Some (ft_entries t !! k)
  | Err e => e = BadFd ∧ ∀ k, fd ≤ k ≤ I32_MAX → is_Some (ft_entries t !! k)
  | Panic => False
  end.
Proof.
  revert fd. induction fuel as [|fuel IH]; intros fd Hfd Hf; [lia|]. simpl.
  destruct (ft_entries t !! fd) as [e|] eqn:E.
  - rewrite bool_decide_eq_true_2 by eauto. cbn [negb]. destruct (Z.leb_spec (fd + 1) I32_MAX).
    + assert (Hsz : (size (filter (λ p : Z * FdEntry, (fd + 1 ≤ p.1)%Z) (ft_entries t)) <
                     size (filter (λ p : Z * FdEntry, (fd ≤ p.1)%Z) (ft_entries t)))%nat).
      { apply map_subset_size. apply map_subset_alt. split.
        - apply map_subseteq_spec. intros k x Hk. apply map_lookup_filter_Some in Hk as [Hk1 Hk2].
          apply map_lookup_filter_Some. split; [done|]. simpl in *. lia.
        - exists fd. split; [|exists e; apply map_lookup_filter_Some; done].
          apply map_lookup_filter_None. right. intros x _. simpl. lia. }
      specialize (IH (fd + 1) ltac:(lia) ltac:(lia)).
      destruct (next_fd_loop fuel t (fd + 1)) as [r|err|]; [|split; [apply IH|]|done].
      * destruct IH as (H1 & H2 & H3). split_and!; [lia|lia|done|]. intros k Hk.
        destruct (decide (k = fd)) as [->|]; [eauto|]. apply H3. lia.
      * intros k Hk. destruct (decide (k = fd)) as [->|]; [eauto|]. apply IH. lia.
    + split; [done|]. intros k Hk. assert (k = fd) as -> by lia. eauto.
  - rewrite bool_decide_eq_false_2 by (by intros []). cbn [negb]. split_and!; [lia|lia|done|]. intros k Hk. lia.
Qed.

Lemma next_fd_from_spec t min_fd :
  min_fd ≤ I32_MAX →
  match next_fd_from t min_fd with
  | Ok r => 0 ≤ min_fd ≤ r ∧ r ≤ I32_MAX ∧ ft_entries t !! r = None ∧ ∀ k, min_fd ≤ k < r → is_Some (ft_entries t !! k)
  | Err e => e = BadFd ∧ (min_fd < 0 ∨ ∀ k, min_fd ≤ k ≤ I32_MAX → is_Some (ft_entries t !! k))
  | Panic => False
  end.
Proof.
  intros Hm. unfold next_fd_from. destruct (Z.ltb_spec min_fd 0); [split; [done|by left]|].
  pose proof (next_fd_loop_spec (S (size (ft_entries t))) t min_fd ltac:(lia)) as Hl.
  assert (Hsz : (size (filter (λ p : Z * FdEntry, (min_fd ≤ p.1)%Z) (ft_entries t)) ≤ size (ft_entries t))%nat).
  { apply map_subseteq_size, map_filter_subseteq. }
  specialize (Hl ltac:(lia)). destruct (next_fd_loop _ _ _); [naive_solver lia|naive_solver|done].
Qed.

(** ** Entering and leaving the table *)
Definition reg (f : FileRef) (p : Z) (s : PipeState) : PipeState :=
  match pipe_node f with Ok q => if q =? p then register_endpoint (fr_kind f) s else s | _ => s end.
Definition unreg (f : FileRef) (p : Z) (s : PipeState) : PipeState :=
  match pipe_node f with Ok q => if q =? p then unregister_endpoint (fr_kind f) s else s | _ => s end.

Lemma register_pipes f h p : h_pipes (register_fd_endpoint f h) !! p = reg f p <$> h_pipes h !! p.
Proof.
  unfold register_fd_endpoint, reg. destruct (pipe_node f) as [q| |]; simpl.
  - destruct (Z.eqb_spec q p) as [->|]; [by rewrite lookup_alter_eq|].
    rewrite lookup_alter_ne by done. by destruct (h_pipes h !! p).
  - by destruct (h_pipes h !! p).
  - by destruct (h_pipes h !! p).
Qed.

Lemma unregister_pipes f h p : h_pipes (unregister_fd_endpoint f h) !! p = unreg f p <$> h_pipes h !! p.
Proof.
  unfold unregister_fd_endpoint, unreg. destruct (pipe_node f) as [q| |]; simpl.
  - destruct (Z.eqb_spec q p) as [->|]; [by rewrite lookup_alter_eq|].
    rewrite lookup_alter_ne by done. by destruct (h_pipes h !! p).
  - by destruct (h_pipes h !! p).
  - by destruct (h_pipes h !! p).
Qed.

(** Everything of a heap but the states of its pipes. *)
Record same_but_pipes (h h' : FdHeap) : Prop := {
  sb_desc : h_descriptions h' = h_descriptions h;
  sb_eventfds : h_eventfds h' = h_eventfds h;
  sb_stdio : h_stdio h' = h_stdio h;
  sb_next : h_next h' = h_next h;
  sb_pipes p : is_Some (h_pipes h' !! p) ↔ is_Some (h_pipes h !! p);
}.

Lemma same_but_pipes_refl h : same_but_pipes h h.
Proof. by split. Qed.

Lemma same_but_pipes_trans h1 h2 h3 : same_but_pipes h1 h2 → same_but_pipes h2 h3 → same_but_pipes h1 h3.
Proof. intros [] []. split; try congruence. intros p. naive_solver. Qed.

Lemma register_same f h : same_but_pipes h (register_fd_endpoint f h).
Proof.
  split; try (unfold register_fd_endpoint; by destruct (pipe_node f)).
  intros p. rewrite register_pipes. apply fmap_is_Some.
Qed.

Lemma unregister_same f h : same_but_pipes h (unregister_fd_endpoint f h).
Proof.
  split; try (unfold unregister_fd_endpoint; by destruct (pipe_node f)).
  intros p. rewrite unregister_pipes. apply fmap_is_Some.
Qed.

Lemma reg_ok f e p s r w : en_file e = f → file_kind_ok f →
  pipe_ok s r w → pipe_ok (reg f p s) (z_if (is_end true p e) + r) (z_if (is_end false p e) + w).
Proof.
  intros <- Hk [H1 H2 H3 H4]. unfold reg, is_end, z_if, file_kind_ok in *.
  destruct (pipe_node (en_file e)) as [q|err|]; [|by split..].
  destruct (Z.eqb_spec q p) as [->|].
  - destruct (fr_kind (en_file e)); simpl; try done; split; simpl in *; unfold available in *; simpl; lia.
  - destruct (fr_kind (en_file e)); by split.
Qed.

Lemma unreg_ok f e p s r w : en_file e = f → file_kind_ok f → 0 ≤ r → 0 ≤ w →
  pipe_ok s (z_if (is_end true p e) + r) (z_if (is_end false p e) + w) → pipe_ok (unreg f p s) r w.
Proof.
  intros <- Hk Hr Hw [H1 H2 H3 H4]. unfold unreg, is_end, z_if, file_kind_ok in *.
  destruct (pipe_node (en_file e)) as [q|err|]; [|by split..].
  destruct (Z.eqb_spec q p) as [->|].
  - destruct (fr_kind (en_file e)); simpl; try done; split; simpl in *; unfold available in *; simpl; lia.
  - destruct (fr_kind (en_file e)); by split.
Qed.

Lemma file_ok_same h h' f : same_but_pipes h h' → file_ok h f → file_ok h' f.
Proof.
  intros Hs [H1 H2 H3]. split; [done| |].
  - intros p Hp. apply (sb_pipes _ _ Hs). auto.
  - intros c Hc. rewrite (sb_eventfds _ _ Hs). auto.
Qed.

Lemma heap_fresh_same h h' : same_but_pipes h h' → heap_fresh h → heap_fresh h'.
Proof.
  intros Hs [H1 H2 H3]. split; intros a; rewrite (sb_next _ _ Hs).
  - rewrite (sb_desc _ _ Hs). auto.
  - rewrite (sb_pipes _ _ Hs). auto.
  - rewrite (sb_eventfds _ _ Hs). auto.
Qed.

(** An entry is added at a free descriptor, with its end registered. *)
Definition enter (fd : Z) (e : FdEntry) (w : FdWorld) : FdWorld :=
  {| fw_table := set_entries (insert fd e) (fw_table w);
     fw_heap := register_fd_endpoint (en_file e) (fw_heap w) |}.

(** An entry leaves, its end unregistered. *)
Definition leave (fd : Z) (e : FdEntry) (w : FdWorld) : FdWorld :=
  {| fw_table := set_cloexec_set (λ s, s ∖ {[fd]}) (set_entries (delete fd) (fw_table w));
     fw_heap := unregister_fd_endpoint (en_file e) (fw_heap w) |}.

Lemma enter_wf o w fd e :
  fd_wf o w → ft_entries (fw_table w) !! fd = None → file_ok (fw_heap w) (en_file e) →
  is_Some (h_descriptions (fw_heap w) !! en_description e) → 0 ≤ fd ≤ I32_MAX → fd_wf o (enter fd e w).
Proof.
  intros Hwf Hfree Hfile Hdesc Hrange. destruct Hwf as [F D R C P H O X].
  pose proof (register_same (en_file e) (fw_heap w)) as Hs. split; unfold enter; simpl.
  - intros fd' e'. rewrite lookup_insert. case_decide; [|intros Hl; eapply file_ok_same; eauto].
    intros [= <-]. by eapply file_ok_same.
  - intros fd' e'. rewrite (sb_desc _ _ Hs), lookup_insert. case_decide; [by intros [= <-]|apply D].
  - intros fd'. rewrite lookup_insert. case_decide; [by subst|apply R].
  - intros fd' Hc. rewrite lookup_insert. case_decide; eauto.
  - intros p s. rewrite register_pipes. destruct (h_pipes (fw_heap w) !! p) as [s0|] eqn:E; [|done].
    intros [= <-]. rewrite !ends_insert by done. rewrite <- !Z.add_assoc.
    apply reg_ok; [done|apply (fk_kind _ _ Hfile)|by apply P].
  - by eapply heap_fresh_same.
  - done.
  - intros b p Hn. apply X, eq_None_not_Some. rewrite <- (sb_pipes _ _ Hs), <- not_eq_None_Some. naive_solver.
Qed.

Lemma leave_wf o w fd e :
  fd_wf o w → ft_entries (fw_table w) !! fd = Some e → fd_wf o (leave fd e w).
Proof.
  intros Hwf He. destruct Hwf as [F D R C P H O X].
  pose proof (unregister_same (en_file e) (fw_heap w)) as Hs. split; unfold leave; simpl.
  - intros fd' e' [_ Hl]%lookup_delete_Some. eapply file_ok_same; eauto.
  - intros fd' e' [_ Hl]%lookup_delete_Some. rewrite (sb_desc _ _ Hs). eauto.
  - intros fd' [e' [_ Hl]%lookup_delete_Some]. eauto.
  - intros fd' Hc. rewrite lookup_delete_ne by set_solver. apply C. set_solver.
  - intros p s. rewrite unregister_pipes. destruct (h_pipes (fw_heap w) !! p) as [s0|] eqn:E; [|done].
    intros [= <-]. apply (unreg_ok _ e); [done|apply (fk_kind _ _ (F _ _ He))| | |].
    1,2: apply Z.add_nonneg_nonneg; [apply ends_nonneg|apply O].
    rewrite !Z.add_assoc, <- !ends_delete by done. by apply P.
  - by eapply heap_fresh_same.
  - done.
  - intros b p Hn. apply X, eq_None_not_Some. rewrite <- (sb_pipes _ _ Hs), <- not_eq_None_Some. naive_solver.
Qed.

(** ** mcr-vfs: the operations of a descriptor table keep its invariant

    Each operation of [FdTable] runs without panic on a well-formed table and leaves it
    well-formed, with what it returns and how the table changes stated where other files
    need it. *)

(** ** Changes of the heap *)
Record heap_grows (h h' : FdHeap) : Prop := {
  hg_pipes p : is_Some (h_pipes h !! p) → is_Some (h_pipes h' !! p);
  hg_eventfds c : is_Some (h_eventfds h !! c) → is_Some (h_eventfds h' !! c);
  hg_desc a : is_Some (h_descriptions h !! a) → is_Some (h_descriptions h' !! a);
}.

Lemma file_ok_grows h h' f : heap_grows h h' → file_ok h f → file_ok h' f.
Proof. intros [] []. split; eauto. Qed.

Lemma fd_wf_heap o w h :
  fd_wf o w → heap_grows (fw_heap w) h → heap_fresh h →
  (∀ p s, h_pipes h !! p = Some s →
     pipe_ok s (ends (ft_entries (fw_table w)) true p + o true p) (ends (ft_entries (fw_table w)) false p + o false p)) →
  fd_wf o {| fw_table := fw_table w; fw_heap := h |}.
Proof.
  intros [F D R C P H O X] Hg Hf Hp. split; simpl; try done.
  - intros fd e He. eapply file_ok_grows; eauto.
  - intros fd e He. eapply (hg_desc _ _ Hg); eauto.
  - intros b p Hn. apply X, eq_None_not_Some. intros Hs%(hg_pipes _ _ Hg). rewrite Hn in Hs. by destruct Hs.
Qed.

Lemma insert_grows {V} (m : gmap Z V) k v a : is_Some (m !! a) → is_Some (<[k := v]> m !! a).
Proof. intros. apply lookup_insert_is_Some. destruct (decide (k = a)); auto. Qed.

Lemma insert_old {V} (m : gmap Z V) k v a : is_Some (m !! k) → is_Some (<[k := v]> m !! a) → is_Some (m !! a).
Proof. intros Hk [->|[_ ?]]%lookup_insert_is_Some; done. Qed.

Definition put_desc (a : Z) (d : FdDescription) (w : FdWorld) : FdWorld :=
  on_heap (set_descriptions (insert a d)) w.

Lemma put_desc_wf o w a d : fd_wf o w → is_Some (h_descriptions (fw_heap w) !! a) → fd_wf o (put_desc a d w).
Proof.
  intros Hwf Ha. apply fd_wf_heap; [done| | |apply (fw_pipes _ _ Hwf)].
  - split; simpl; auto using insert_grows.
  - destruct (fw_fresh _ _ Hwf). split; simpl; eauto using insert_old.
Qed.

(** A new description. *)
Definition new_desc (d : FdDescription) (w : FdWorld) : FdWorld :=
  on_heap (λ h, set_descriptions (insert (h_next h) d) (set_next (h_next h + 1) h)) w.

Lemma heap_fresh_next {V} (m : gmap Z V) (n a : Z) (v : V) :
  (∀ b, is_Some (m !! b) → b < n) → is_Some (<[n := v]> m !! a) → a < n + 1.
Proof. intros Hm [<-|[_ Ha]]%lookup_insert_is_Some; [lia|]. specialize (Hm a Ha). lia. Qed.

Lemma below_next {V} (m : gmap Z V) (n a : Z) :
  (∀ b, is_Some (m !! b) → b < n) → is_Some (m !! a) → a < n + 1.
Proof. intros Hm Ha. specialize (Hm a Ha). lia. Qed.

Lemma new_desc_wf o w d : fd_wf o w → fd_wf o (new_desc d w).
Proof.
  intros Hwf. apply fd_wf_heap; [done| | |apply (fw_pipes _ _ Hwf)].
  - split; simpl; auto using insert_grows.
  - destruct (fw_fresh _ _ Hwf). split; simpl; eauto using heap_fresh_next, below_next.
Qed.

(** A new pipe, to which nothing refers. *)
Definition new_pipe (s : PipeState) (w : FdWorld) : FdWorld :=
  on_heap (λ h, set_pipes (insert (h_next h) s) (set_next (h_next h + 1) h)) w.

Lemma no_ends o w b p : fd_wf o w → h_pipes (fw_heap w) !! p = None → ends (ft_entries (fw_table w)) b p = 0.
Proof.
  intros Hwf Hp. unfold ends, zlen. destruct (filter _ _) as [|[fd e] l] eqn:E; [done|].
  assert (Hin : (fd, e) ∈ filter (λ q : Z * FdEntry, is_end b p q.2 = true) (map_to_list (ft_entries (fw_table w)))).
  { rewrite E. by left. }
  apply list_elem_of_filter in Hin as [He Hin%elem_of_map_to_list]. simpl in He.
  pose proof (fw_file _ _ Hwf _ _ Hin) as [_ Hf _]. unfold is_end in He.
  destruct (pipe_node (en_file e)) as [q| |]; [|done..].
  assert (q = p) as -> by (destruct (fr_kind (en_file e)), b; try done; by apply Z.eqb_eq in He).
  destruct (Hf p eq_refl) as [? ?]. congruence.
Qed.

Lemma new_pipe_wf o w c :
  fd_wf o w → MIN_PIPE_CAPACITY ≤ c → fd_wf o (new_pipe (pipe_state_new c) w).
Proof.
  intros Hwf Hc. destruct (fw_fresh _ _ Hwf) as [F1 F2 F3].
  assert (Hn : h_pipes (fw_heap w) !! h_next (fw_heap w) = None).
  { apply eq_None_not_Some. intros H%F2. lia. }
  apply fd_wf_heap; [done| | |].
  - split; simpl; auto using insert_grows.
  - split; simpl; eauto using heap_fresh_next, below_next.
  - intros p s. simpl. rewrite lookup_insert. case_decide as Hd; [|apply (fw_pipes _ _ Hwf)].
    subst p. intros [= <-]. rewrite !(no_ends o) by done. rewrite !(fw_dead _ _ Hwf) by done.
    split; simpl; unfold available, zlen; simpl; unfold MIN_PIPE_CAPACITY in *; lia.
Qed.

Definition new_eventfd (initial : Z) (w : FdWorld) : FdWorld :=
  on_heap (λ h, set_eventfds (insert (h_next h) initial) (set_next (h_next h + 1) h)) w.

Lemma new_eventfd_wf o w i : fd_wf o w → fd_wf o (new_eventfd i w).
Proof.
  intros Hwf. apply fd_wf_heap; [done| | |apply (fw_pipes _ _ Hwf)].
  - split; simpl; auto using insert_grows.
  - destruct (fw_fresh _ _ Hwf). split; simpl; eauto using heap_fresh_next, below_next.
Qed.

(** A pipe in another state, with the same ends. *)
Record pipe_step (s s' : PipeState) : Prop := {
  ps_readers : pi_readers s' = pi_readers s;
  ps_writers : pi_writers s' = pi_writers s;
  ps_room : available s' ≤ pi_capacity s';
  ps_capacity : MIN_PIPE_CAPACITY ≤ pi_capacity s';
}.

Lemma put_pipe_wf o w p s s' :
  fd_wf o w → h_pipes (fw_heap w) !! p = Some s → pipe_step s s' →
  fd_wf o (on_heap (set_pipes (insert p s')) w).
Proof.
  intros Hwf Hp Hs. apply fd_wf_heap; [done| | |].
  - split; simpl; auto using insert_grows.
  - destruct (fw_fresh _ _ Hwf). split; simpl; eauto using insert_old.
  - intros q u. simpl. rewrite lookup_insert. case_decide; [|apply (fw_pipes _ _ Hwf)].
    subst q. intros [= <-]. destruct (fw_pipes _ _ Hwf _ _ Hp), Hs. split; congruence.
Qed.

Lemma put_eventfd_wf o w c i :
  fd_wf o w → is_Some (h_eventfds (fw_heap w) !! c) → fd_wf o (on_heap (set_eventfds (insert c i)) w).
Proof.
  intros Hwf Hc. apply fd_wf_heap; [done| | |apply (fw_pipes _ _ Hwf)].
  - split; simpl; auto using insert_grows.
  - destruct (fw_fresh _ _ Hwf). split; simpl; eauto using insert_old.
Qed.

Lemma stdio_wf o w f : fd_wf o w → fd_wf o (on_heap (set_stdio f) w).
Proof. intros Hwf. apply fd_wf_heap; [done|by split| |apply (fw_pipes _ _ Hwf)]. by destruct (fw_fresh _ _ Hwf). Qed.

(** Changes of the table that keep the entries. *)
Lemma fd_wf_table o w t :
  fd_wf o w → ft_entries t = ft_entries (fw_table w) →
  (∀ fd, fd ∈ ft_cloexec t → is_Some (ft_entries (fw_table w) !! fd)) →
  fd_wf o {| fw_table := t; fw_heap := fw_heap w |}.
Proof. intros [] He Hc. split; simpl; rewrite ?He; try done. Qed.

Definition mark (fd : Z) (c : bool) (w : FdWorld) : FdWorld :=
  on_table (set_cloexec_set (λ s, if c then {[fd]} ∪ s else s ∖ {[fd]})) w.

Lemma mark_wf o w fd c : fd_wf o w → is_Some (ft_entries (fw_table w) !! fd) → fd_wf o (mark fd c w).
Proof.
  intros Hwf Hfd. apply fd_wf_table; [done|done|]. intros fd'. simpl. pose proof (fw_cloexec _ _ Hwf fd') as Hc.
  destruct c; [|set_solver]. intros [->%elem_of_singleton|]%elem_of_union; auto.
Qed.

Lemma ids_wf o w p e : fd_wf o w → fd_wf o (on_table (set_id_counters p e) w).
Proof. intros Hwf. apply fd_wf_table; [done|done|]. apply (fw_cloexec _ _ Hwf). Qed.

(** ** The basic operations, as equations *)
Lemma get_eq fd w :
  get fd w = (match ft_entries (fw_table w) !! fd with Some e => Ok e | None => Err BadFd end, w).
Proof. unfold get, bind, gets, lift. simpl. by destruct (ft_entries (fw_table w) !! fd). Qed.

Lemma set_cloexec_eq fd c w :
  is_Some (ft_entries (fw_table w) !! fd) → set_cloexec fd c w = (Ok tt, mark fd c w).
Proof. intros H. unfold set_cloexec, bind, gets. simpl. by rewrite bool_decide_eq_true_2. Qed.

Lemma set_cloexec_bad fd c w : ft_entries (fw_table w) !! fd = None → set_cloexec fd c w = (Err BadFd, w).
Proof. intros H. unfold set_cloexec, bind, gets. simpl. by rewrite bool_decide_eq_false_2 by (rewrite H; by intros []). Qed.

Definition open_desc (flags : OpenFlags) : FdDescription :=
  {| fd_offset := 0; fd_flags := flags; fd_dir_cursor := 0 |}.

(** The world after an entry is opened at a free descriptor. *)
Definition opened (fd : Z) (file : FileRef) (c : bool) (flags : OpenFlags) (path : option GuestPath)
    (w : FdWorld) : FdWorld :=
  mark fd c (enter fd {| en_file := file; en_description := h_next (fw_heap w); en_path := path |}
               (new_desc (open_desc flags) w)).

Lemma insert_entry_eq fd file c flags path w :
  0 ≤ fd → ft_entries (fw_table w) !! fd = None →
  insert_entry fd file c flags path w = (Ok fd, opened fd file c flags path w).
Proof.
  intros H0 Hf. unfold insert_entry, fresh, bind, gets, modify, ret, throw, id.
  destruct (Z.ltb_spec fd 0); [lia|]. rewrite bool_decide_eq_false_2 by (rewrite Hf; by intros []).
  simpl. rewrite set_cloexec_eq by (simpl; rewrite lookup_insert_eq; eauto).
  unfold opened, mark, enter, new_desc, on_table, on_heap, register_fd_endpoint. simpl.
  by destruct (pipe_node file).
Qed.

Lemma insert_entry_bad fd file c flags path w :
  (fd < 0 ∨ is_Some (ft_entries (fw_table w) !! fd)) → insert_entry fd file c flags path w = (Err BadFd, w).
Proof.
  intros H. unfold insert_entry. unfold bind at 1, gets, id. destruct (Z.ltb_spec fd 0); [done|].
  destruct H; [lia|]. by rewrite bool_decide_eq_true_2.
Qed.

Lemma opened_wf o w fd file c flags path :
  fd_wf o w → ft_entries (fw_table w) !! fd = None → 0 ≤ fd ≤ I32_MAX → file_ok (fw_heap w) file →
  fd_wf o (opened fd file c flags path w).
Proof.
  intros Hwf Hf Hr Hk. unfold opened. apply mark_wf; [|simpl; rewrite lookup_insert_eq; eauto].
  apply enter_wf; simpl; [by apply new_desc_wf|done| | |done].
  - eapply file_ok_grows; [|done]. split; simpl; auto using insert_grows.
  - rewrite lookup_insert_eq. eauto.
Qed.

Lemma close_eq fd w :
  close fd w = match ft_entries (fw_table w) !! fd with
               | Some e => (Ok (en_file e), leave fd e w)
               | None => (Err BadFd, w)
               end.
Proof.
  unfold close. unfold bind at 1, gets, id. unfold bind at 1, lift.
  by destruct (ft_entries (fw_table w) !! fd).
Qed.

Lemma close_ignoring_eq fd w :
  close_ignoring fd w = (Ok tt, match ft_entries (fw_table w) !! fd with Some e => leave fd e w | None => w end).
Proof. unfold close_ignoring. rewrite close_eq. by destruct (ft_entries (fw_table w) !! fd). Qed.

(** A descriptor that takes over the entry of another. *)
Definition shared_at (fd : Z) (e : FdEntry) (c : bool) (w : FdWorld) : FdWorld := mark fd c (enter fd e w).

Lemma shared_at_wf o w fd fd' e c :
  fd_wf o w → ft_entries (fw_table w) !! fd' = Some e → ft_entries (fw_table w) !! fd = None →
  0 ≤ fd ≤ I32_MAX → fd_wf o (shared_at fd e c w).
Proof.
  intros Hwf He Hf Hr. unfold shared_at. apply mark_wf; [|simpl; rewrite lookup_insert_eq; eauto].
  apply enter_wf; eauto using fw_file, fw_desc.
Qed.

Lemma dup_eq oldfd min_fd c w :
  dup oldfd min_fd c w =
  if min_fd <? 0 then (Err BadFd, w) else
  match ft_entries (fw_table w) !! oldfd with
  | None => (Err BadFd, w)
  | Some e =>
      match next_fd_from (fw_table w) min_fd with
      | Ok fd => (Ok fd, shared_at fd e c w)
      | Err err => (Err err, w)
      | Panic => (Panic, w)
      end
  end.
Proof.
  unfold dup. destruct (min_fd <? 0); [done|]. unfold bind at 1. rewrite get_eq.
  destruct (ft_entries (fw_table w) !! oldfd) as [e|]; [|done].
  unfold bind at 1, gets, id. unfold bind at 1, lift.
  destruct (next_fd_from (fw_table w) min_fd) as [fd| |]; [|done..].
  unfold bind at 1, modify. unfold bind at 1. unfold bind at 1.
  rewrite set_cloexec_eq by (simpl; rewrite lookup_insert_eq; eauto). done.
Qed.

Lemma dup2_eq oldfd newfd c w :
  dup2 oldfd newfd c w =
  if newfd <? 0 then (Err BadFd, w) else
  match ft_entries (fw_table w) !! oldfd with
  | None => (Err BadFd, w)
  | Some e =>
      if oldfd =? newfd then (Ok newfd, w) else
      (Ok newfd, shared_at newfd e c
         match ft_entries (fw_table w) !! newfd with Some e' => leave newfd e' w | None => w end)
  end.
Proof.
  unfold dup2. destruct (newfd <? 0); [done|]. unfold bind at 1. rewrite get_eq.
  destruct (ft_entries (fw_table w) !! oldfd) as [e|]; [|done].
  destruct (oldfd =? newfd); [done|]. unfold bind at 1. rewrite close_ignoring_eq.
  unfold bind at 1, modify. unfold bind at 1. unfold bind at 1.
  by rewrite set_cloexec_eq by (simpl; rewrite lookup_insert_eq; eauto).
Qed.

(** ** Symbolic execution of the operations *)
Section rules.
Context (o : Others).

Lemma wp_get fd (Q : FdEntry → FdWorld → Prop) (R : VfsError → FdWorld → Prop) w :
  (∀ e, ft_entries (fw_table w) !! fd = Some e → Q e w) →
  (ft_entries (fw_table w) !! fd = None → R BadFd w) → wp (get fd) Q R w.
Proof. intros HQ HR. unfold wp. rewrite get_eq. destruct (ft_entries (fw_table w) !! fd); auto. Qed.

Lemma wp_description fd e (Q : FdDescription → FdWorld → Prop) (R : VfsError → FdWorld → Prop) w :
  fd_wf o w → ft_entries (fw_table w) !! fd = Some e →
  (∀ d, h_descriptions (fw_heap w) !! en_description e = Some d → Q d w) → wp (description e) Q R w.
Proof.
  intros Hwf He HQ. destruct (fw_desc _ _ Hwf _ _ He) as [d Hd].
  unfold wp, description, bind, gets, lift, id. rewrite Hd. simpl. auto.
Qed.

Lemma wp_pipe_state fd e (Q : PipeState → FdWorld → Prop) (R : VfsError → FdWorld → Prop) w :
  fd_wf o w → ft_entries (fw_table w) !! fd = Some e →
  (∀ p s, pipe_node (en_file e) = Ok p → h_pipes (fw_heap w) !! p = Some s → Q s w) →
  (pipe_node (en_file e) = Err BadFd → R BadFd w) → wp (pipe_state (en_file e)) Q R w.
Proof.
  intros Hwf He HQ HR. pose proof (fw_file _ _ Hwf _ _ He) as [_ Hp _].
  unfold wp, pipe_state, bind, gets, lift, id. destruct (pipe_node (en_file e)) as [p|err|] eqn:E.
  - destruct (Hp p eq_refl) as [s Hs]. rewrite Hs. simpl. eauto.
  - unfold pipe_node in E. destruct (in_backend _); try done; injection E as <-; auto.
  - unfold pipe_node in E. by destruct (in_backend _).
Qed.

Lemma wp_eventfd_counter fd e (Q : Z → FdWorld → Prop) (R : VfsError → FdWorld → Prop) w :
  fd_wf o w → ft_entries (fw_table w) !! fd = Some e → fr_kind (en_file e) = KEventfd →
  (∀ c i, eventfd_node (en_file e) = Ok c → h_eventfds (fw_heap w) !! c = Some i → Q i w) →
  wp (eventfd_counter e) Q R w.
Proof.
  intros Hwf He Hk HQ. pose proof (fw_file _ _ Hwf _ _ He) as [Hf _ Hc].
  unfold file_kind_ok in Hf. rewrite Hk in Hf. destruct Hf as [c Ec]. destruct (Hc c Ec) as [i Hi].
  unfold wp, eventfd_counter, bind, gets, lift, id. rewrite Ec, Hi. simpl. eauto.
Qed.

Lemma pipe_step_read len s r w : pipe_ok s r w → pipe_step s (pipe_state_read len s).2.
Proof.
  intros [H1 H2 H3 H4]. split; simpl; try done.
  unfold available, zlen in *; simpl. rewrite length_drop. lia.
Qed.

Lemma pipe_step_write buffer s r w : pipe_ok s r w → pipe_step s (pipe_state_write buffer s).2.
Proof.
  intros [H1 H2 H3 H4]. unfold pipe_state_write. case_match; [by split|].
  split; simpl; try done. unfold available, zlen in *; simpl. rewrite length_app, length_take. lia.
Qed.

Lemma pipe_step_capacity c s r w : pipe_ok s r w → pipe_step s (set_capacity c s).2.
Proof.
  intros [H1 H2 H3 H4]. unfold set_capacity. case_match; [by split|]. bprop. split; simpl; try done; lia.
Qed.

Lemma wp_put_pipe fd e p s s' (Q : unit → FdWorld → Prop) (R : VfsError → FdWorld → Prop) w :
  fd_wf o w → ft_entries (fw_table w) !! fd = Some e → pipe_node (en_file e) = Ok p →
  h_pipes (fw_heap w) !! p = Some s → pipe_step s s' →
  (∀ w', fd_wf o w' → fw_table w' = fw_table w → Q tt w') → wp (put_pipe (en_file e) s') Q R w.
Proof.
  intros Hwf He Ep Hs Hst HQ. unfold wp, put_pipe, bind, lift, modify. rewrite Ep.
  apply HQ; [by eapply put_pipe_wf|done].
Qed.

(** The outcome has no panic and the invariant holds after it. *)
Definition fd_keeps {A} (m : FdM A) : Prop :=
  ∀ w, fd_wf o w → wp m (λ _, fd_wf o) (λ _, fd_wf o) w.

Lemma wp_next_fd min_fd t (Q : Z → FdWorld → Prop) (R : VfsError → FdWorld → Prop) w :
  min_fd ≤ I32_MAX →
  (∀ fd, 0 ≤ min_fd ≤ fd → fd ≤ I32_MAX → ft_entries t !! fd = None →
     (∀ k, min_fd ≤ k < fd → is_Some (ft_entries t !! k)) → Q fd w) →
  R BadFd w → wp (lift (next_fd_from t min_fd)) Q R w.
Proof.
  intros Hm HQ HR. pose proof (next_fd_from_spec t min_fd Hm) as Hn. unfold wp, lift.
  destruct (next_fd_from t min_fd) as [fd|err|]; [|by destruct Hn as [-> _]|done].
  destruct Hn as (? & ? & ? & ?). auto.
Qed.

Lemma wp_insert_entry fd file c flags path (Q : Z → FdWorld → Prop) (R : VfsError → FdWorld → Prop) w :
  0 ≤ fd → ft_entries (fw_table w) !! fd = None → Q fd (opened fd file c flags path w) →
  wp (insert_entry fd file c flags path) Q R w.
Proof. intros H0 Hf HQ. unfold wp. by rewrite insert_entry_eq. Qed.

Lemma set_cloexec_keeps fd c : fd_keeps (set_cloexec fd c).
Proof.
  intros w Hwf. unfold wp. destruct (ft_entries (fw_table w) !! fd) as [e|] eqn:E.
  - rewrite set_cloexec_eq by eauto. apply mark_wf; eauto.
  - by rewrite set_cloexec_bad.
Qed.

Lemma close_keeps fd : fd_keeps (close fd).
Proof.
  intros w Hwf. unfold wp. rewrite close_eq. destruct (ft_entries (fw_table w) !! fd) eqn:E; [|done].
  by apply leave_wf.
Qed.

Lemma dup_keeps oldfd min_fd c : min_fd ≤ I32_MAX → fd_keeps (dup oldfd min_fd c).
Proof.
  intros Hm w Hwf. unfold wp. rewrite dup_eq. destruct (min_fd <? 0); [done|].
  destruct (ft_entries (fw_table w) !! oldfd) as [e|] eqn:E; [|done].
  pose proof (next_fd_from_spec (fw_table w) min_fd Hm) as Hn.
  destruct (next_fd_from (fw_table w) min_fd) as [fd|err|]; [|done..].
  destruct Hn as (? & ? & ? & ?). eapply shared_at_wf; eauto; lia.
Qed.

Lemma dup2_keeps oldfd newfd c : newfd ≤ I32_MAX → fd_keeps (dup2 oldfd newfd c).
Proof.
  intros Hm w Hwf. unfold wp. rewrite dup2_eq. destruct (Z.ltb_spec newfd 0); [done|].
  destruct (ft_entries (fw_table w) !! oldfd) as [e|] eqn:E; [|done].
  destruct (Z.eqb_spec oldfd newfd); [done|].
  destruct (ft_entries (fw_table w) !! newfd) as [e'|] eqn:E'.
  - eapply (shared_at_wf _ _ _ oldfd); [by apply leave_wf|simpl; by rewrite lookup_delete_ne| |lia].
    simpl. by rewrite lookup_delete_eq.
  - eapply shared_at_wf; eauto; lia.
Qed.

(** *** Descriptions and capacities *)
Lemma put_description_keeps fd e d w :
  fd_wf o w → ft_entries (fw_table w) !! fd = Some e → fd_wf o (put_desc (en_description e) d w).
Proof. intros Hwf He. apply put_desc_wf; [done|]. by eapply fw_desc. Qed.

Lemma status_flags_keeps fd : fd_keeps (status_flags fd).
Proof.
  intros w Hwf. apply wp_bind, wp_get; [|done]. intros e He.
  apply wp_bind. eapply wp_description; eauto.
Qed.

Lemma set_status_flags_keeps fd flags : fd_keeps (set_status_flags fd flags).
Proof.
  intros w Hwf. apply wp_bind, wp_get; [|done]. intros e He.
  apply wp_bind. eapply wp_description; eauto. intros d Hd. by eapply put_description_keeps.
Qed.

Lemma cloexec_keeps fd : fd_keeps (cloexec fd).
Proof. intros w Hwf. apply wp_bind, wp_get; [|done]. intros e He. by repeat wp_step. Qed.

Lemma pipe_capacity_keeps fd : fd_keeps (pipe_capacity fd).
Proof.
  intros w Hwf. apply wp_bind, wp_get; [|done]. intros e He.
  apply wp_bind. eapply wp_pipe_state; eauto.
Qed.

Lemma wp_lift_keeps {A} (r : outcome A VfsError) w : fd_wf o w → r ≠ Panic → wp (lift r) (λ _, fd_wf o) (λ _, fd_wf o) w.
Proof. intros. by apply wp_lift. Qed.

Lemma set_pipe_capacity_keeps fd c : fd_keeps (set_pipe_capacity fd c).
Proof.
  intros w Hwf. apply wp_bind, wp_get; [|done]. intros e He.
  apply wp_bind. eapply wp_pipe_state; eauto. intros p s Hp Hs.
  pose proof (pipe_step_capacity c _ _ _ (fw_pipes _ _ Hwf _ _ Hs)) as Hst.
  destruct (set_capacity c s) as [r s'] eqn:Er. apply wp_bind. eapply wp_put_pipe; eauto.
  intros w' Hw' _. apply wp_lift_keeps; [done|]. unfold set_capacity in Er. repeat case_match; naive_solver.
Qed.

Lemma stdio_write_keeps kind buffer : fd_keeps (stdio_write kind buffer).
Proof. intros w Hwf. unfold stdio_write. wp_step. wp_step. destruct kind; wp_steps; try done; by apply stdio_wf. Qed.

(** *** Reading *)
Lemma pipe_read_keeps fd e len w :
  fd_wf o w → ft_entries (fw_table w) !! fd = Some e →
  wp (pipe_read e len) (λ _, fd_wf o) (λ _, fd_wf o) w.
Proof.
  intros Hwf He. apply wp_bind. eapply wp_pipe_state; eauto. intros p s Hp Hs.
  case_match; [done|]. apply wp_bind. eapply wp_put_pipe; eauto.
  by eapply pipe_step_read, fw_pipes.
Qed.

Lemma pipe_write_keeps fd e buffer w :
  fd_wf o w → ft_entries (fw_table w) !! fd = Some e →
  wp (pipe_write e buffer) (λ _, fd_wf o) (λ _, fd_wf o) w.
Proof.
  intros Hwf He. apply wp_bind. eapply wp_pipe_state; eauto. intros p s Hp Hs.
  do 2 (case_match; [done|]).
  pose proof (pipe_step_write buffer _ _ _ (fw_pipes _ _ Hwf _ _ Hs)) as Hst.
  destruct (pipe_state_write buffer s) as [r s'] eqn:Er. apply wp_bind. eapply wp_put_pipe; eauto.
  intros w' Hw' _. apply wp_lift_keeps; [done|]. unfold pipe_state_write in Er. repeat case_match; naive_solver.
Qed.

Lemma eventfd_read_keeps fd e len w :
  fd_wf o w → ft_entries (fw_table w) !! fd = Some e → fr_kind (en_file e) = KEventfd →
  wp (eventfd_read e len) (λ _, fd_wf o) (λ _, fd_wf o) w.
Proof.
  intros Hwf He Hk. apply wp_bind. eapply wp_eventfd_counter; eauto. intros c i Hc Hi.
  destruct (eventfd_state_read len i) as [r i'] eqn:Er. unfold put_eventfd. rewrite Hc.
  apply wp_bind, wp_bind. unfold wp at 1, lift at 1. apply wp_modify, wp_lift_keeps.
  - apply put_eventfd_wf; eauto.
  - unfold eventfd_state_read in Er. repeat case_match; naive_solver.
Qed.

Lemma eventfd_write_keeps fd e buffer w :
  fd_wf o w → ft_entries (fw_table w) !! fd = Some e → fr_kind (en_file e) = KEventfd →
  wp (eventfd_write e buffer) (λ _, fd_wf o) (λ _, fd_wf o) w.
Proof.
  intros Hwf He Hk. apply wp_bind. eapply wp_eventfd_counter; eauto. intros c i Hc Hi.
  destruct (eventfd_state_write buffer i) as [r i'] eqn:Er. unfold put_eventfd. rewrite Hc.
  apply wp_bind, wp_bind. unfold wp at 1, lift at 1. apply wp_modify, wp_lift_keeps.
  - apply put_eventfd_wf; eauto.
  - unfold eventfd_state_write in Er. repeat case_match; naive_solver.
Qed.
End rules.
