(* ===== verification/VfsFdWf.v ===== *)
(** * mcr-vfs: descriptors are opened, read, listed, cloned and dropped soundly

    The rest of the table's operations over the invariant of [VfsFds.v]: the ones that make
    descriptors, reads and writes, listings, exec and fork. *)

From S2P Require Import Prelude SysAbi Bytes VfsTypes VfsPath VfsFd VfsFdOps.
From stdpp Require Import base gmap list strings sorting.
From Stdlib Require Import ZArith Lia.
Open Scope Z_scope.

Lemma first_fd_fits : FIRST_ALLOC_FD ≤ I32_MAX.
Proof. done. Qed.

Section ops.
Context (o : Others).

(** A file that is neither a pipe nor an event counter. *)
Definition plain_file (f : FileRef) : Prop :=
  match in_backend (fr_inode f) with PipeBackend _ _ | EventfdBackend _ _ => False | _ => True end ∧
  match fr_kind f with KPipeRead | KPipeWrite | KEventfd => False | _ => True end.

Lemma plain_file_ok h f : plain_file f → file_ok h f.
Proof.
  intros [Hb Hk]. assert (Hp : pipe_node f = Err BadFd) by (unfold pipe_node; by destruct (in_backend _)).
  split.
  - unfold file_kind_ok. by destruct (fr_kind f).
  - intros p Hn. congruence.
  - intros c Hn. unfold eventfd_node in Hn. by destruct (in_backend _).
Qed.

(** Opening a descriptor at the lowest free one. *)
Lemma wp_open fd min_fd file c flags path (Q : Z → FdWorld → Prop) (R : VfsError → FdWorld → Prop) w :
  fd_wf o w → file_ok (fw_heap w) file → 0 ≤ min_fd ≤ fd → fd ≤ I32_MAX →
  ft_entries (fw_table w) !! fd = None →
  (fd_wf o (opened fd file c flags path w) → Q fd (opened fd file c flags path w)) →
  wp (insert_entry fd file c flags path) Q R w.
Proof. intros Hwf Hk ? ? Hf HQ. apply wp_insert_entry; [lia|done|]. apply HQ, opened_wf; auto; lia. Qed.

Lemma open_keeps file c flags path w :
  fd_wf o w → file_ok (fw_heap w) file →
  wp (let* w := gets id in
      let* fd := lift (next_fd_from (fw_table w) FIRST_ALLOC_FD) in
      insert_entry fd file c flags path) (λ _, fd_wf o) (λ _, fd_wf o) w.
Proof.
  intros Hwf Hk. wp_step. wp_step. apply wp_bind, wp_next_fd; [apply first_fd_fits| |done].
  intros fd ? ? Hf _. eapply wp_open; eauto.
Qed.

Lemma insert_open_keeps file flags path : plain_file file → fd_keeps o (insert_open file flags path).
Proof. intros Hp w Hwf. apply open_keeps; [done|by apply plain_file_ok]. Qed.

Lemma insert_exact_keeps fd file c : plain_file file → fd ≤ I32_MAX → fd_keeps o (insert_exact fd file c).
Proof.
  intros Hp Hm w Hwf. apply wp_bind. destruct (decide (0 ≤ fd)) as [H0|H0];
    [destruct (ft_entries (fw_table w) !! fd) as [e|] eqn:E|].
  - unfold wp. by rewrite insert_entry_bad by eauto.
  - apply wp_insert_entry; [done|done|]. wp_step. apply opened_wf; auto using plain_file_ok.
  - unfold wp. by rewrite insert_entry_bad by (left; lia).
Qed.

Lemma insert_at_or_above_keeps min_fd file c :
  plain_file file → min_fd ≤ I32_MAX → fd_keeps o (insert_at_or_above min_fd file c).
Proof.
  intros Hp Hm w Hwf. unfold insert_at_or_above. wp_step. wp_step. apply wp_bind, wp_next_fd; [done| |done].
  intros fd ? ? Hf _. apply wp_bind. eapply wp_mono; [by apply insert_exact_keeps| |done].
  intros [] w' Hw'. by wp_step.
Qed.

Lemma insert_socket_keeps id flags : fd_keeps o (insert_socket id flags).
Proof.
  intros w Hwf. unfold insert_socket. case_match; [done|]. apply wp_bind, wp_lift; [|done|].
  - intros inode _. apply open_keeps; [done|]. by apply plain_file_ok.
  - unfold socket_inode_id. by destruct (checked_add64 _ _).
Qed.

Lemma insert_epoll_keeps id flags : fd_keeps o (insert_epoll id flags).
Proof.
  intros w Hwf. unfold insert_epoll. case_match; [done|]. apply wp_bind, wp_lift; [|done|].
  - intros inode _. apply open_keeps; [done|]. by apply plain_file_ok.
  - unfold epoll_inode_id. by destruct (checked_add64 _ _).
Qed.

Lemma wp_ok_or {A} (x : option A) e (Q : A → FdWorld → Prop) (R : VfsError → FdWorld → Prop) w :
  (∀ a, x = Some a → Q a w) → R e w → wp (lift (ok_or x e)) Q R w.
Proof. intros HQ HR. unfold wp, lift, ok_or. destruct x; auto. Qed.

Lemma eventfd_keeps initial flags : fd_keeps o (eventfd initial flags).
Proof.
  intros w Hwf. unfold eventfd. case_match; [done|]. unfold allocate_eventfd_id.
  apply wp_bind, wp_bind, wp_gets, wp_bind, wp_ok_or; [|done]. intros next _. apply wp_bind, wp_modify, wp_ret.
  set (w1 := on_table _ w). assert (Hw1 : fd_wf o w1) by (by apply ids_wf).
  apply wp_bind, wp_ok_or; [|done]. intros inode _.
  unfold fresh. do 2 apply wp_bind. apply wp_gets, wp_bind, wp_modify, wp_ret, wp_bind, wp_modify.
  apply (open_keeps _ _ _ _ (new_eventfd initial w1)); [by apply new_eventfd_wf|].
  split; simpl.
  - unfold file_kind_ok. simpl. eauto.
  - done.
  - intros c [= <-]. simpl. rewrite lookup_insert_eq. eauto.
Qed.

(** *** [pipe]: both ends or neither *)
Lemma pipe_end_ok h inode id kind p :
  is_Some (h_pipes h !! p) → kind = KPipeRead ∨ kind = KPipeWrite →
  file_ok h {| fr_inode := {| in_id := inode; in_backend := PipeBackend id p |}; fr_kind := kind |}.
Proof.
  intros Hp Hk. split; simpl.
  - unfold file_kind_ok. destruct Hk as [-> | ->]; simpl; unfold pipe_node; simpl; eauto.
  - unfold pipe_node. simpl. by intros ? [= <-].
  - done.
Qed.

Lemma opened_heap fd file c flags path w :
  heap_grows (fw_heap w) (fw_heap (opened fd file c flags path w)).
Proof.
  pose proof (register_same file (fw_heap (new_desc (open_desc flags) w))) as Hs.
  simpl in Hs. split; simpl.
  - intros p Hp. by apply (sb_pipes _ _ Hs).
  - intros q Hq. by rewrite (sb_eventfds _ _ Hs).
  - intros a Ha. rewrite (sb_desc _ _ Hs). simpl. by apply insert_grows.
Qed.

(** The world in which the ends of a new pipe are opened. *)
Definition with_pipe (next : Z) (w : FdWorld) : FdWorld :=
  new_pipe (pipe_state_new DEFAULT_PIPE_CAPACITY)
    (on_table (λ t, set_id_counters next (ft_next_eventfd_id t) t) w).

Definition pipe_file (inode id p : Z) (kind : FileKind) : FileRef :=
  {| fr_inode := {| in_id := inode; in_backend := PipeBackend id p |}; fr_kind := kind |}.

(** Two free descriptors, the lowest ones, and the pipe behind them. *)
Lemma pipe_spec flags w :
  fd_wf o w →
  wp (pipe flags)
    (λ r w', let '(read_fd, write_fd) := r in ∃ next inode id,
       let w0 := with_pipe next w in
       let p := h_next (fw_heap w) in
       let c := cloexec_flag flags in
       let nonblock := Z.land (of_raw flags) O_NONBLOCK in
       w' = opened write_fd (pipe_file inode id p KPipeWrite) c (flags_new (Z.lor O_WRONLY nonblock)) None
              (opened read_fd (pipe_file inode id p KPipeRead) c (flags_new (Z.lor O_RDONLY nonblock)) None w0) ∧
       fd_wf o w' ∧ 0 ≤ read_fd < write_fd ∧
       ft_entries (fw_table w) !! read_fd = None ∧ ft_entries (fw_table w) !! write_fd = None ∧
       ∀ k, 0 ≤ k < write_fd → k ≠ read_fd → is_Some (ft_entries (fw_table w) !! k))
    (λ _ w', fd_wf o w' ∧ ft_entries (fw_table w') = ft_entries (fw_table w)) w.
Proof.
  intros Hwf. unfold pipe. case_match; [done|]. wp_step. wp_step.
  apply wp_bind, wp_next_fd; [apply first_fd_fits| |done]. intros rfd Hr1 Hr2 Hrf Hrl.
  unfold FIRST_ALLOC_FD, id in *.
  apply wp_bind, wp_ok_or; [|done]. unfold checked_add_i32. intros above Ha.
  destruct (Z.leb_spec (rfd + 1) I32_MAX); [|done]. injection Ha as <-.
  apply wp_bind, wp_next_fd; [done| |done]. intros wfd Hw1 Hw2 Hwfr Hwl.
  unfold allocate_pipe_id.
  apply wp_bind, wp_bind, wp_gets, wp_bind, wp_ok_or; [|done]. intros next _. apply wp_bind, wp_modify, wp_ret.
  set (w1 := on_table _ w). assert (Hw1' : fd_wf o w1) by (by apply ids_wf).
  apply wp_bind, wp_ok_or; [|done]. intros inode _.
  unfold fresh. do 2 apply wp_bind. apply wp_gets, wp_bind, wp_modify, wp_ret, wp_bind, wp_modify. simpl.
  change (on_heap _ (on_heap _ w1)) with (with_pipe next w).
  assert (Hw2' : fd_wf o (with_pipe next w)) by (by apply new_pipe_wf).
  set (id := ft_next_pipe_id (fw_table w)). set (p := h_next (fw_heap w)).
  assert (Hp : is_Some (h_pipes (fw_heap (with_pipe next w)) !! p)) by (simpl; rewrite lookup_insert_eq; eauto).
  apply wp_bind. apply (wp_open _ 0); [done|by apply pipe_end_ok; auto|lia|done|done|]. intros Hw3.
  apply wp_bind, wp_on_err. apply (wp_open _ 0); [done| |lia|done|simpl; rewrite lookup_insert_ne by lia; done|].
  { apply pipe_end_ok; [|auto]. apply (hg_pipes _ _ (opened_heap _ _ _ _ _ _)), Hp. }
  intros Hw4. apply wp_ret. exists next, inode, id. do 5 (split; [done || lia|]).
  intros k Hk Hne. destruct (decide (k < rfd)); [apply Hrl; lia|apply Hwl; lia].
Qed.

(** ** Reading and writing *)
Class QuietHost `{HostFs} : Prop := {
  quiet_open p : host_open_read p ≠ Panic;
  quiet_read p offset len : host_read_at p offset len ≠ Panic;
}.

Section io.
Context `{QuietHost}.

Lemma read_host_file_at_no_panic p offset len : read_host_file_at p offset len ≠ Panic.
Proof.
  unfold read_host_file_at. case_match; [done|]. pose proof (quiet_read p offset len).
  by destruct (host_read_at p offset len).
Qed.

Lemma read_regular_no_panic node ps offset len b : read_regular_node_at node ps offset len b ≠ Panic.
Proof.
  unfold read_regular_node_at, read_host_path_at, open_host_read_handle.
  destruct (pn_kind node) as [| | |[]|]; try done;
    (destruct (pn_deferred_host_path node) as [p|]; [|done]; destruct b;
     [apply read_host_file_at_no_panic|]; pose proof (quiet_open p);
     pose proof (read_host_file_at_no_panic p offset len); destruct (host_open_read p); simpl; done).
Qed.

Lemma fd_read_keeps tree ps fd len : fd_keeps o (fd_read tree ps fd len).
Proof.
  intros w Hwf. apply wp_bind, wp_get; [|done]. intros e He.
  apply wp_bind. eapply wp_description; eauto. intros d Hd. case_match; [done|].
  assert (Hreg : wp (let* node := lift (ok_or (lookup_inode tree (in_id (fr_inode (en_file e)))) NoEntry) in
      if is_directory_attr (pn_attr node) then throw IsDirectory else
      let* bytes := lift (read_regular_node_at node ps (fd_offset d) len false) in
      do* put_description e (set_offset (wadd (fd_offset d) (zlen bytes)) d);
      ret bytes) (λ _, fd_wf o) (λ _, fd_wf o) w).
  { apply wp_bind, wp_ok_or; [|done]. intros node _. case_match; [done|].
    apply wp_bind, wp_lift; [|done|apply read_regular_no_panic]. intros bytes _.
    apply wp_bind, wp_modify, wp_ret. by eapply put_description_keeps. }
  destruct (fr_kind (en_file e)) as [| | |[]| | | | | |[]] eqn:Ek; try done.
  - apply wp_lift_keeps; [done|]. unfold fill_urandom. by destruct (host_random len).
  - by eapply pipe_read_keeps.
  - by eapply eventfd_read_keeps.
Qed.

Lemma fd_pread_keeps tree ps fd offset len : fd_keeps o (fd_pread tree ps fd offset len).
Proof.
  intros w Hwf. apply wp_bind, wp_get; [|done]. intros e He.
  apply wp_bind. eapply wp_description; eauto. intros d Hd. case_match; [done|].
  assert (Hreg : wp (let* node := lift (ok_or (lookup_inode tree (in_id (fr_inode (en_file e)))) NoEntry) in
      if is_directory_attr (pn_attr node) then throw IsDirectory else
      lift (read_regular_node_at node ps offset len false)) (λ _, fd_wf o) (λ _, fd_wf o) w).
  { apply wp_bind, wp_ok_or; [|done]. intros node _. case_match; [done|].
    apply wp_lift_keeps; [done|apply read_regular_no_panic]. }
  destruct (fr_kind (en_file e)) as [| | |[]| | | | | |[]] eqn:Ek; try done.
  apply wp_lift_keeps; [done|]. unfold fill_urandom. by destruct (host_random len).
Qed.

(** A write keeps the table well-formed whatever its outcome; it panics only when the
    content of the file cannot grow to the offset. *)
Lemma fd_write_keeps fd buffer tree w : fd_wf o w → fd_wf o (fd_write fd buffer (tree, w)).2.2.
Proof.
  intros Hwf. unfold fd_write. unfold bind at 1. rewrite get_eq.
  destruct (ft_entries (fw_table w) !! fd) as [e|] eqn:He; [|done].
  destruct (fw_desc _ _ Hwf _ _ He) as [d Hd].
  unfold bind, description, gets, lift, ret, id. simpl. rewrite Hd. simpl.
  assert (Hany : ∀ m : FdM Z, wp m (λ _, fd_wf o) (λ _, fd_wf o) w →
            fd_wf o (let (r, w) := m w in (r, (tree, w))).2.2).
  { intros m. unfold wp. by destruct (m w) as [[]]. }
  destruct (negb (can_write (fd_flags d))); [done|].
  destruct (fr_kind (en_file e)) as [| | |k| | | | | |kind] eqn:Ek; try done.
  - destruct (lookup_inode tree _); [|done]. destruct (write_node _ _ _ _) as [[count| |] tree']; simpl; [|done..].
    by eapply put_description_keeps.
  - by destruct k.
  - by eapply Hany, pipe_write_keeps.
  - by eapply Hany, eventfd_write_keeps.
  - apply Hany. by apply stdio_write_keeps.
Qed.

(** ** Seeking, readiness, listings *)
Lemma seek_keeps tree fd offset whence : fd_keeps o (seek tree fd offset whence).
Proof.
  intros w Hwf. apply wp_bind, wp_get; [|done]. intros e He.
  apply wp_bind. apply (wp_mono _ _ (λ _ w', w' = w) _ (λ _ w', w' = w)).
  - destruct (fr_kind (en_file e)); try done; (apply wp_bind, wp_ok_or; [intros; by apply wp_ret|done]).
  - intros size ? ->. apply wp_bind. eapply wp_description; eauto. intros d Hd.
    cbv zeta. destruct (_ || _); [by apply wp_throw|]. apply wp_bind, wp_modify, wp_ret. by eapply put_description_keeps.
  - by intros ? ? ->.
Qed.

Lemma available_bytes_keeps tree fd : fd_keeps o (available_bytes tree fd).
Proof.
  intros w Hwf. apply wp_bind, wp_get; [|done]. intros e He.
  assert (Hreg : wp (let* node := lift (ok_or (lookup_inode tree (in_id (fr_inode (en_file e)))) NoEntry) in
      let* d := description e in
      ret (if at_size (pn_attr node) <=? fd_offset d then 0 else at_size (pn_attr node) - fd_offset d))
      (λ _, fd_wf o) (λ _, fd_wf o) w).
  { apply wp_bind, wp_ok_or; [|done]. intros node _. apply wp_bind. by eapply wp_description. }
  assert (Hpipe : wp (let* p := pipe_state (en_file e) in ret (available p)) (λ _, fd_wf o) (λ _, fd_wf o) w).
  { apply wp_bind. by eapply wp_pipe_state. }
  by destruct (fr_kind (en_file e)).
Qed.

Lemma poll_readiness_keeps fd : fd_keeps o (poll_readiness fd).
Proof.
  intros w Hwf. apply wp_bind, wp_get; [|done]. intros e He.
  apply wp_bind. eapply wp_description; eauto. intros d Hd.
  destruct (fr_kind (en_file e)) as [| | |[]| | | | | |] eqn:Ek; try done; apply wp_bind;
    (by eapply wp_pipe_state) || by eapply wp_eventfd_counter.
Qed.

Lemma directory_listing_source_keeps tree fd w :
  wp (directory_listing_source tree fd) (λ _ w', w' = w) (λ _ w', w' = w) w.
Proof.
  apply wp_bind, wp_get; [|done]. intros e He. destruct (fr_kind (en_file e)); try done.
  apply wp_bind, wp_ok_or; [|done]. intros path _. by apply wp_bind, wp_ok_or.
Qed.

Lemma consume_loop_no_panic items max used acc d : (consume_loop items max used acc d).1 ≠ Panic.
Proof. revert used acc d. induction items as [|i items IH]; intros; simpl; [done|]. case_match; [by case_match|apply IH]. Qed.

Lemma consume_directory_entries_keeps fd max entries : fd_keeps o (consume_directory_entries fd max entries).
Proof.
  intros w Hwf. apply wp_bind, wp_get; [|done]. intros e He.
  apply wp_bind. eapply wp_description; eauto. intros d Hd.
  pose proof (consume_loop_no_panic (drop (Z.to_nat (fd_dir_cursor d)) entries) max 0 [] d) as Hn.
  destruct (consume_loop _ _ _ _ _) as [r d']. apply wp_bind, wp_modify, wp_lift_keeps; [|done].
  by eapply put_description_keeps.
Qed.
End io.

(** ** Renamed paths *)
Lemma rebind_file old new e : en_file (rebind_path old new e) = en_file e.
Proof. unfold rebind_path. destruct (en_path e); [|done]. by case_match. Qed.
Lemma rebind_desc old new e : en_description (rebind_path old new e) = en_description e.
Proof. unfold rebind_path. destruct (en_path e); [|done]. by case_match. Qed.

Lemma ends_fmap (f : FdEntry → FdEntry) m b p :
  (∀ e, en_file (f e) = en_file e) → ends (f <$> m) b p = ends m b p.
Proof.
  intros Hf. induction m as [|fd e m Hm IH] using map_ind; [by rewrite fmap_empty|].
  rewrite fmap_insert, !ends_insert by (done || by rewrite lookup_fmap, Hm). rewrite IH. f_equal.
  unfold is_end. by rewrite Hf.
Qed.

Lemma rebind_paths_wf old new w : fd_wf o w → fd_wf o (on_table (rebind_paths old new) w).
Proof.
  intros [F D R C P H O X]. split; simpl; try done.
  - intros fd e. rewrite lookup_fmap. intros (e0 & He & ->)%fmap_Some. rewrite rebind_file. eauto.
  - intros fd e. rewrite lookup_fmap. intros (e0 & He & ->)%fmap_Some. rewrite rebind_desc. eauto.
  - intros fd. rewrite lookup_fmap, fmap_is_Some. auto.
  - intros fd. rewrite lookup_fmap, fmap_is_Some. auto.
  - intros p s Hs. rewrite !ends_fmap by apply rebind_file. auto.
Qed.
End ops.

(** ** mcr-vfs: descriptor tables across exec and fork

    [close_on_exec] closes exactly the marked descriptors.  The clone of a table counts its
    entries as further ends of their pipes, and the drop of a table takes them back. *)

(** ** exec *)
Definition exec_step (cw : ClosedFdIds * FdWorld) (fd : Z) : ClosedFdIds * FdWorld :=
  match ft_entries (fw_table cw.2) !! fd with
  | None => cw
  | Some entry =>
      (add_entry entry cw.1,
       on_heap (unregister_fd_endpoint (en_file entry)) (on_table (set_entries (delete fd)) cw.2))
  end.

Lemma close_on_exec_eq w :
  close_on_exec w =
  foldl exec_step ({| cl_socket_ids := []; cl_epoll_ids := [] |}, on_table (set_cloexec_set (λ _, ∅)) w)
    (elements (ft_cloexec (fw_table w))).
Proof.
  unfold close_on_exec. generalize (elements (ft_cloexec (fw_table w))).
  generalize ({| cl_socket_ids := []; cl_epoll_ids := [] |}, on_table (set_cloexec_set (λ _, ∅)) w).
  intros cw l. revert cw. induction l as [|fd l IH]; intros [c v]; [done|]. simpl. rewrite IH. f_equal.
Qed.

Lemma exec_step_leave c w fd :
  ft_cloexec (fw_table w) = ∅ →
  (exec_step (c, w) fd).2 =
  match ft_entries (fw_table w) !! fd with Some e => leave fd e w | None => w end.
Proof.
  intros Hc. unfold exec_step. simpl. destruct (ft_entries (fw_table w) !! fd) as [e|]; [|done].
  unfold leave, on_heap, on_table, set_cloexec_set, set_entries. simpl. rewrite Hc.
  by replace (∅ ∖ {[fd]} : gset Z) with (∅ : gset Z) by set_solver.
Qed.

Lemma exec_fold o l c w :
  fd_wf o w → ft_cloexec (fw_table w) = ∅ →
  let w' := (foldl exec_step (c, w) l).2 in
  fd_wf o w' ∧ ft_cloexec (fw_table w') = ∅ ∧
  ∀ fd, ft_entries (fw_table w') !! fd = if decide (fd ∈ l) then None else ft_entries (fw_table w) !! fd.
Proof.
  revert c w. induction l as [|fd l IH]; intros c w Hwf Hc; simpl; [done|].
  pose proof (exec_step_leave c w fd Hc) as Hs. destruct (exec_step (c, w) fd) as [c' w'] eqn:E.
  simpl in Hs. subst w'.
  destruct (ft_entries (fw_table w) !! fd) as [e|] eqn:He.
  - assert (Hc' : ft_cloexec (fw_table (leave fd e w)) = ∅) by (simpl; rewrite Hc; set_solver).
    destruct (IH c' _ (leave_wf _ _ _ _ Hwf He) Hc') as (H1 & H2 & H3). split_and!; [done|done|].
    intros fd'. rewrite H3. simpl. destruct (decide (fd' = fd)) as [->|Hne].
    + rewrite lookup_delete_eq. rewrite (decide_True (P := fd ∈ fd :: l)) by by left. by destruct (decide (fd ∈ l)).
    + rewrite lookup_delete_ne by done. do 2 case_decide; set_solver.
  - destruct (IH c' _ Hwf Hc) as (H1 & H2 & H3). split_and!; [done|done|].
    intros fd'. rewrite H3. destruct (decide (fd' = fd)) as [->|Hne].
    + rewrite (decide_True (P := fd ∈ fd :: l)) by by left. by destruct (decide (fd ∈ l)).
    + do 2 case_decide; set_solver.
Qed.

Lemma close_on_exec_spec o w :
  fd_wf o w →
  let w' := (close_on_exec w).2 in
  fd_wf o w' ∧ ft_cloexec (fw_table w') = ∅ ∧
  ∀ fd, ft_entries (fw_table w') !! fd =
        if decide (fd ∈ ft_cloexec (fw_table w)) then None else ft_entries (fw_table w) !! fd.
Proof.
  intros Hwf. rewrite close_on_exec_eq.
  destruct (exec_fold o (elements (ft_cloexec (fw_table w))) {| cl_socket_ids := []; cl_epoll_ids := [] |}
              (on_table (set_cloexec_set (λ _, ∅)) w)) as (H1 & H2 & H3).
  - apply fd_wf_table; [done|done|]. simpl. set_solver.
  - done.
  - split_and!; [done|done|]. intros fd. rewrite H3. simpl.
    do 2 case_decide; try done; rewrite elem_of_elements in *; done.
Qed.

(** ** fork *)
Definition count_ends (l : list FdEntry) (b : bool) (p : Z) : Z :=
  zlen (filter (λ e, is_end b p e = true) l).

Lemma count_ends_cons e l b p : count_ends (e :: l) b p = z_if (is_end b p e) + count_ends l b p.
Proof.
  unfold count_ends, zlen, z_if. rewrite filter_cons.
  destruct (is_end b p e); [rewrite decide_True by done|rewrite decide_False by done]; simpl; lia.
Qed.

Lemma ends_values m b p : ends m b p = count_ends (bt_values m) b p.
Proof.
  unfold ends, count_ends, bt_values, bt_iter, zlen. f_equal.
  transitivity (length (filter (λ q : Z * FdEntry, is_end b p q.2 = true) (merge_sort key_le (map_to_list m)))).
  { apply Permutation_length, filter_Permutation. by rewrite merge_sort_Permutation. }
  induction (merge_sort key_le (map_to_list m)) as [|[fd e] l IH]; [done|]. simpl.
  rewrite !filter_cons. simpl. case_decide; simpl; by rewrite IH.
Qed.

Lemma register_all_same l h : same_but_pipes h (foldl (λ h e, register_fd_endpoint (en_file e) h) h l).
Proof.
  revert h. induction l as [|e l IH]; intros h; [apply same_but_pipes_refl|]. simpl.
  eapply same_but_pipes_trans; [apply register_same|apply IH].
Qed.

Lemma unregister_all_same l h : same_but_pipes h (foldl (λ h e, unregister_fd_endpoint (en_file e) h) h l).
Proof.
  revert h. induction l as [|e l IH]; intros h; [apply same_but_pipes_refl|]. simpl.
  eapply same_but_pipes_trans; [apply unregister_same|apply IH].
Qed.

Lemma register_all_pipe l h p s r w :
  Forall (λ e, file_kind_ok (en_file e)) l → h_pipes h !! p = Some s → pipe_ok s r w →
  ∃ s', h_pipes (foldl (λ h e, register_fd_endpoint (en_file e) h) h l) !! p = Some s' ∧
        pipe_ok s' (count_ends l true p + r) (count_ends l false p + w).
Proof.
  revert h s r w. induction l as [|e l IH]; intros h s r w Hl Hs Hok; [eauto|].
  apply Forall_cons in Hl as [He Hl]. simpl.
  destruct (IH (register_fd_endpoint (en_file e) h) (reg (en_file e) p s)
              (z_if (is_end true p e) + r) (z_if (is_end false p e) + w)) as (s' & Hs' & Hok'); [done| | |].
  - by rewrite register_pipes, Hs.
  - by apply reg_ok.
  - exists s'. split; [done|]. rewrite !count_ends_cons.
    destruct Hok'. split; try done; lia.
Qed.

Lemma unregister_all_pipe l h p s r w :
  Forall (λ e, file_kind_ok (en_file e)) l → h_pipes h !! p = Some s → 0 ≤ r → 0 ≤ w →
  pipe_ok s (count_ends l true p + r) (count_ends l false p + w) →
  ∃ s', h_pipes (foldl (λ h e, unregister_fd_endpoint (en_file e) h) h l) !! p = Some s' ∧ pipe_ok s' r w.
Proof.
  revert h s. induction l as [|e l IH]; intros h s Hl Hs Hr Hw Hok; [eauto|].
  apply Forall_cons in Hl as [He Hl]. simpl.
  apply (IH (unregister_fd_endpoint (en_file e) h) (unreg (en_file e) p s)); [done| |done|done|].
  - by rewrite unregister_pipes, Hs.
  - rewrite !count_ends_cons, <- !Z.add_assoc in Hok. apply (unreg_ok _ e); try done;
      apply Z.add_nonneg_nonneg; try done; apply zlen_nonneg.
Qed.

Lemma table_kinds o w : fd_wf o w → Forall (λ e, file_kind_ok (en_file e)) (bt_values (ft_entries (fw_table w))).
Proof.
  intros Hwf. apply Forall_forall. intros e [fd He]%elem_of_bt_values. apply (fk_kind _ _ (fw_file _ _ Hwf _ _ He)).
Qed.

Lemma fd_wf_same o o' w h :
  fd_wf o w → same_but_pipes (fw_heap w) h → (∀ b p, 0 ≤ o' b p) →
  (∀ b p, h_pipes (fw_heap w) !! p = None → o' b p = 0) →
  (∀ p s, h_pipes h !! p = Some s →
     pipe_ok s (ends (ft_entries (fw_table w)) true p + o' true p) (ends (ft_entries (fw_table w)) false p + o' false p)) →
  fd_wf o' {| fw_table := fw_table w; fw_heap := h |}.
Proof.
  intros [F D R C P H O X] Hs Ho Hx Hp. split; simpl; try done.
  - intros fd e He. eapply file_ok_same; eauto.
  - intros fd e He. rewrite (sb_desc _ _ Hs). eauto.
  - by eapply heap_fresh_same.
  - intros b p Hn. apply Hx, eq_None_not_Some. rewrite <- (sb_pipes _ _ Hs), <- not_eq_None_Some. naive_solver.
Qed.

Definition plus_others (o o' : Others) : Others := λ b p, o b p + o' b p.

Lemma table_clone_wf o w :
  fd_wf o w →
  let (t, h) := table_clone w in
  t = fw_table w ∧ fd_wf (plus_others o (ends (ft_entries t))) {| fw_table := fw_table w; fw_heap := h |}.
Proof.
  intros Hwf. unfold table_clone. split; [done|].
  pose proof (register_all_same (bt_values (ft_entries (fw_table w))) (fw_heap w)) as Hs.
  eapply fd_wf_same; [done|done| | |].
  - intros b p. apply Z.add_nonneg_nonneg; [by eapply fw_others|apply ends_nonneg].
  - intros b p Hn. unfold plus_others. rewrite (fw_dead _ _ Hwf), (no_ends o) by done. done.
  - intros p s Hp. destruct (proj1 (sb_pipes _ _ Hs p) (ex_intro _ _ Hp)) as [s0 Hs0].
    destruct (register_all_pipe _ _ _ _ _ _ (table_kinds _ _ Hwf) Hs0 (fw_pipes _ _ Hwf _ _ Hs0)) as (s' & Hs' & Hok).
    rewrite Hp in Hs'. injection Hs' as <-. rewrite <- !ends_values in Hok. destruct Hok.
    unfold plus_others. split; try done; lia.
Qed.

(** Dropping a table [t]: the others no longer count its ends. *)
Lemma table_drop_wf o w t :
  fd_wf (plus_others o (ends (ft_entries t))) w → Forall (λ e, file_kind_ok (en_file e)) (bt_values (ft_entries t)) →
  (∀ b p, 0 ≤ o b p) →
  fd_wf o {| fw_table := fw_table w; fw_heap := table_drop {| fw_table := t; fw_heap := fw_heap w |} |}.
Proof.
  intros Hwf Ht Ho. unfold table_drop. simpl.
  pose proof (unregister_all_same (bt_values (ft_entries t)) (fw_heap w)) as Hs.
  eapply fd_wf_same; [done|done|done| |].
  - intros b p Hn. pose proof (fw_dead _ _ Hwf b p Hn) as H0. unfold plus_others in H0.
    pose proof (ends_nonneg (ft_entries t) b p). specialize (Ho b p). lia.
  - intros p s Hp. destruct (proj1 (sb_pipes _ _ Hs p) (ex_intro _ _ Hp)) as [s0 Hs0].
    destruct (unregister_all_pipe (bt_values (ft_entries t)) (fw_heap w) p s0
      (ends (ft_entries (fw_table w)) true p + o true p) (ends (ft_entries (fw_table w)) false p + o false p))
      as (s' & Hs' & Hok); [done|done| | | |].
    1,2: apply Z.add_nonneg_nonneg; [apply ends_nonneg|apply Ho].
    + rewrite <- !ends_values. destruct (fw_pipes _ _ Hwf _ _ Hs0) as [H1 H2 H3 H4]. unfold plus_others in *.
      split; try done; lia.
    + rewrite Hp in Hs'. by injection Hs' as <-.
Qed.
