(* ===== verification/VfsOk.v ===== *)
(** * mcr-vfs: the invariant of the file system and its rules

    The invariants of the tree, of the descriptor table and of the cache together; [runs] is
    a postcondition for each way an operation can end, and the lemmas lift what the parts
    keep to the whole. *)

From S2P Require Import Prelude SysAbi Bytes VfsTypes VfsPath VfsFd VfsCache VfsSystem VfsTree VfsResolve VfsFdOps VfsFdWf.
From stdpp Require Import base gmap list strings sorting.
From Stdlib Require Import ZArith Lia.
Open Scope Z_scope.

(** ** Postconditions *)
Definition runs {S E A} (m : ST S E A) (Q : A → S → Prop) (R : S → Prop) (s : S) : Prop :=
  match m s with (Ok a, s') => Q a s' | (_, s') => R s' end.

Section runs.
Context {S E : Type}.
Implicit Types (R : S → Prop) (s : S).

Lemma runs_bind {A B} (m : ST S E A) (k : A → ST S E B) Q R s :
  runs m (λ a, runs (k a) Q R) R s → runs (bind m k) Q R s.
Proof. unfold runs, bind. by destruct (m s) as [[a|e|] s']. Qed.

Lemma runs_ret {A} (a : A) (Q : A → S → Prop) R s : Q a s → runs (E := E) (ret a) Q R s.
Proof. done. Qed.

Lemma runs_throw {A} (e : E) (Q : A → S → Prop) R s : R s → runs (throw e) Q R s.
Proof. done. Qed.

Lemma runs_gets {A} (f : S → A) (Q : A → S → Prop) R s : Q (f s) s → runs (E := E) (gets f) Q R s.
Proof. done. Qed.

Lemma runs_modify (f : S → S) (Q : unit → S → Prop) R s : Q tt (f s) → runs (E := E) (modify f) Q R s.
Proof. done. Qed.

Lemma runs_lift {A} (x : outcome A E) (Q : A → S → Prop) R s :
  (∀ a, x = Ok a → Q a s) → R s → runs (lift x) Q R s.
Proof. unfold runs, lift. destruct x; auto. Qed.

Lemma runs_mono {A} (m : ST S E A) Q Q' R R' s :
  runs m Q' R' s → (∀ a s', Q' a s' → Q a s') → (∀ s', R' s' → R s') → runs m Q R s.
Proof. unfold runs. destruct (m s) as [[a|e|] s']; auto. Qed.

Lemma runs_wp {A} (m : ST S E A) Q R s : wp m Q (λ _, R) s → runs m Q R s.
Proof. unfold wp, runs. by destruct (m s) as [[a|e|] s']. Qed.
End runs.

Ltac run_step :=
  match goal with
  | |- runs (bind _ _) _ _ _ => apply runs_bind
  | |- runs (ret _) _ _ _ => apply runs_ret
  | |- runs (throw _) _ _ _ => apply runs_throw
  | |- runs (gets _) _ _ _ => apply runs_gets; unfold id
  | |- runs (modify _) _ _ _ => apply runs_modify
  end; cbv beta.
Ltac run_steps := repeat run_step.

Section invariant.
Context `{HostFs}.

(** ** The invariant *)
Record vfs_ok (o : Others) (v : Vfs) : Prop := {
  vo_tree : tree_wf (v_tree v);
  vo_fds : fd_wf o (v_fds v);
  vo_cache : cache_ok (v_tree v) (v_cache v);
}.

Definition keeps {A} (o : Others) (m : VfsM A) : Prop :=
  ∀ v, vfs_ok o v → runs m (λ _, vfs_ok o) (vfs_ok o) v.

Context (o : Others).

Lemma keeps_bind {A B} (m : VfsM A) (k : A → VfsM B) : keeps o m → (∀ a, keeps o (k a)) → keeps o (let* a := m in k a).
Proof.
  intros Hm Hk v Hv. apply runs_bind. eapply runs_mono; [by apply Hm| |done]. intros a v' Hv'. by apply Hk.
Qed.

Lemma keeps_ret {A} (a : A) : keeps o (ret a).
Proof. by intros v Hv. Qed.

Lemma keeps_throw {A} (e : VfsError) : keeps o (throw (A := A) e).
Proof. by intros v Hv. Qed.

Lemma keeps_lift {A} (x : outcome A VfsError) : keeps o (lift x).
Proof. intros v Hv. by apply runs_lift. Qed.

Lemma keeps_gets {A} (k : Vfs → VfsM A) : (∀ u, keeps o (k u)) → keeps o (let* v := gets id in k v).
Proof. intros Hk v Hv. run_steps. by apply Hk. Qed.

(** *** Parts *)
Lemma set_fds_ok v w : vfs_ok o v → fd_wf o w → vfs_ok o (set_fds w v).
Proof. by intros [H1 H2 H3] Hw. Qed.

Lemma set_cache_ok v c : vfs_ok o v → cache_ok (v_tree v) c → vfs_ok o (set_cache c v).
Proof. by intros [H1 H2 H3] Hc. Qed.

Lemma set_rootfs_ok v r : vfs_ok o v → vfs_ok o (set_rootfs r v).
Proof. by intros [H1 H2 H3]. Qed.

Lemma set_proc_ok v p u : vfs_ok o v → vfs_ok o (set_proc_umask p u v).
Proof. by intros [H1 H2 H3]. Qed.

Lemma runs_on_fds {A} (m : FdM A) Q R v :
  runs m (λ a w, Q a (set_fds w v)) (λ w, R (set_fds w v)) (v_fds v) → runs (on_fds m) Q R v.
Proof. unfold runs, on_fds. by destruct (m (v_fds v)) as [[a|e|] w]. Qed.

Lemma runs_on_tree {A} (m : TreeM A) Q R v :
  runs m (λ a t, Q a (set_tree t v)) (λ t, R (set_tree t v)) (v_tree v) → runs (on_tree m) Q R v.
Proof. unfold runs, on_tree. by destruct (m (v_tree v)) as [[a|e|] t]. Qed.

Lemma keeps_on_fds {A} (m : FdM A) : fd_keeps o m → keeps o (on_fds m).
Proof.
  intros Hm v Hv. apply runs_on_fds, runs_wp. eapply wp_mono; [by apply Hm, vo_fds| |];
    intros; by apply set_fds_ok.
Qed.

Lemma set_fds_id v : set_fds (v_fds v) v = v.
Proof. by destruct v. Qed.

(** Reading an entry and its description. *)
Lemma runs_entry fd (Q : FdEntry → Vfs → Prop) R v :
  (∀ e, ft_entries (fw_table (v_fds v)) !! fd = Some e → Q e v) → R v → runs (on_fds (get fd)) Q R v.
Proof.
  intros HQ HR. unfold runs, on_fds. rewrite get_eq, set_fds_id.
  destruct (ft_entries (fw_table (v_fds v)) !! fd); auto.
Qed.

Lemma runs_description fd e (Q : FdDescription → Vfs → Prop) R v :
  vfs_ok o v → ft_entries (fw_table (v_fds v)) !! fd = Some e →
  (∀ d, h_descriptions (fw_heap (v_fds v)) !! en_description e = Some d → Q d v) →
  runs (on_fds (description e)) Q R v.
Proof.
  intros Hv He HQ. apply runs_on_fds, runs_wp. eapply wp_description; [apply Hv|done|].
  intros d Hd. rewrite set_fds_id. auto.
Qed.

(** *** The cache *)
Lemma set_cache_id v : set_cache (v_cache v) v = v.
Proof. by destruct v. Qed.

Lemma cached_metadata_eq node v :
  vfs_ok o v → tr_inodes (v_tree v) !! pn_inode_id node = Some node →
  ∃ c, cached_metadata node v = (Ok (pn_attr node), set_cache c v) ∧ cache_ok (v_tree v) c.
Proof.
  intros Hv Hn. pose proof (vo_cache _ _ Hv) as Hc. unfold cached_metadata, bind at 1, gets, id.
  destruct (metadata (pn_inode_id node) (v_cache v)) as [a|] eqn:E.
  - exists (v_cache v). rewrite set_cache_id. split; [|done].
    destruct (co_metadata _ _ Hc _ _ _ E) as (n & Hn' & <-). rewrite Hn in Hn'. by injection Hn' as <-.
  - eexists. split; [done|]. destruct Hc as [H1 H2 H3 X]. split; simpl; try done.
    intros i g a [[E1 <-]|[_ Ha]]%lookup_insert_Some; [|by eapply H1]. injection E1 as <- <-. eauto.
Qed.

Lemma cached_directory_entries_eq inode path v :
  vfs_ok o v → tr_nodes (v_tree v) !! path = Some inode →
  ∃ c, cached_directory_entries inode path v = (static_directory_entries (v_tree v) path, set_cache c v) ∧
       cache_ok (v_tree v) c.
Proof.
  intros Hv Hp. pose proof (vo_cache _ _ Hv) as Hc. unfold cached_directory_entries, bind at 1, gets, id.
  destruct (directory_listing inode (v_cache v)) as [l|] eqn:E.
  - exists (v_cache v). rewrite set_cache_id. split; [|done].
    destruct (co_listing _ _ Hc _ _ _ E) as (p & Hp' & Hl).
    destruct (listing_dir _ _ _ Hl) as (n & Hn & Hd). apply lookup_path_Some in Hn as (i & Hi & Hn).
    assert (i = inode) as -> by congruence.
    by rewrite (dir_path_unique _ _ _ _ _ (vo_tree _ _ Hv) Hp' Hp Hn Hd), Hl.
  - unfold bind, lift. destruct (static_directory_entries (v_tree v) path) as [l|e|] eqn:El;
      [|exists (v_cache v); by rewrite set_cache_id..].
    eexists. split; [done|]. destruct Hc as [H1 H2 H3 X]. split; simpl; try done.
    intros i g a [[E1 <-]|[_ Ha]]%lookup_insert_Some; [|by eapply H3]. injection E1 as <- <-. eauto.
Qed.

Lemma cached_small_read_eq inode node v :
  vfs_ok o v → tr_inodes (v_tree v) !! inode = Some node → pn_deferred_host_path node = None →
  ∃ c, cached_small_read_data inode (pn_data node) v = (Ok (pn_data node), set_cache c v) ∧ cache_ok (v_tree v) c.
Proof.
  intros Hv Hn Hd. pose proof (vo_cache _ _ Hv) as Hc. unfold cached_small_read_data, bind at 1, gets, id.
  destruct (small_read inode (v_cache v)) as [d|] eqn:E.
  - exists (v_cache v). rewrite set_cache_id. split; [|done].
    destruct (co_read _ _ Hc _ _ _ E) as (n & Hn' & _ & <-). rewrite Hn in Hn'. by injection Hn' as <-.
  - eexists. split; [done|]. destruct Hc as [H1 H2 H3 X]. split; simpl; try done.
    intros i g a [[E1 <-]|[_ Ha]]%lookup_insert_Some; [|by eapply H2]. injection E1 as <- <-. eauto.
Qed.

(** Handles on host files are not part of the invariant. *)
Lemma with_handles_ok t c h l :
  cache_ok t c → (∀ i x, h !! i = Some x → open_host_read_handle (hr_path x) = Ok tt) → cache_ok t (with_handles h l c).
Proof. by intros [H1 H2 H3 _] Hh. Qed.

Lemma evict_loop_sub lru h i x : (evict_loop lru h).1 !! i = Some x → h !! i = Some x.
Proof.
  revert h. induction lru as [|j lru IH]; intros h; simpl; destruct (size h <=? _)%nat; simpl; try done.
  by intros [_ ?]%IH%lookup_delete_Some.
Qed.

Lemma evict_ok t c : cache_ok t c → cache_ok t (evict_host_read_handles c).
Proof.
  intros Hc. unfold evict_host_read_handles.
  pose proof (evict_loop_sub (ca_host_read_lru c) (ca_host_read_handles c)) as Hs.
  destruct (evict_loop _ _) as [h l]. apply with_handles_ok; [done|]. intros i x Hx. by eapply (co_handle _ _ Hc), Hs.
Qed.

(** A cached handle is used as if the file were opened again. *)
Lemma host_handle_eq inode path v :
  vfs_ok o v →
  ∃ c, cached_host_read_handle inode path v =
       ((let? _ := open_host_read_handle path in Ok path), set_cache c v) ∧ cache_ok (v_tree v) c.
Proof.
  intros Hv. pose proof (vo_cache _ _ Hv) as Hc. unfold cached_host_read_handle, on_cache, host_read_handle.
  unfold bind at 1, gets, id. destruct (ca_host_read_handles (v_cache v) !! inode) as [x|] eqn:Ex;
    [destruct ((hr_generation x =? key_generation inode (v_cache v)) && bool_decide (hr_path x = path)) eqn:Eg|].
  1: { apply andb_true_iff in Eg as [_ <-%bool_decide_eq_true]. eexists. unfold bind, modify, ret.
       rewrite (co_handle _ _ Hc _ _ Ex). split; [done|]. apply with_handles_ok; [done|apply Hc]. }
  all: unfold bind, lift; destruct (open_host_read_handle path) as [[]|e|] eqn:Eo;
    [|by exists (v_cache v)|by exists (v_cache v)].
  all: unfold modify, ret; eexists; split; [done|]; apply evict_ok, with_handles_ok; simpl;
    [apply with_handles_ok; [done|]|]; intros i y [[_ <-]|[_ Hs]]%lookup_insert_Some; try done;
    by apply (co_handle _ _ Hc _ _ Hs).
Qed.

(** *** The tree changes and the cache follows *)
Definition tree_cache (t : PathTree) (c : VfsCache) (v : Vfs) : Vfs := set_cache c (set_tree t v).

Lemma tree_cache_ok S v t c :
  vfs_ok o v → tree_wf t → cache_without S (v_cache v) c → (∀ i, i ∉ S → stays (v_tree v) t i) →
  vfs_ok o (tree_cache t c v).
Proof. intros [H1 H2 H3] Ht Hc Hs. split; simpl; [done|done|]. by eapply cache_ok_step. Qed.

Lemma invalidate_inode_eq i v : invalidate_inode_cache i v = (Ok tt, set_cache (invalidate_inode i (v_cache v)) v).
Proof. done. Qed.

Lemma invalidate_inodes_eq l v : invalidate_inode_caches l v = (Ok tt, set_cache (invalidate_inodes l (v_cache v)) v).
Proof. done. Qed.

Lemma runs_invalidate_inode i (Q : unit → Vfs → Prop) R v :
  Q tt (set_cache (invalidate_inode i (v_cache v)) v) → runs (invalidate_inode_cache i) Q R v.
Proof. done. Qed.

Lemma runs_invalidate_inodes l (Q : unit → Vfs → Prop) R v :
  Q tt (set_cache (invalidate_inodes l (v_cache v)) v) → runs (invalidate_inode_caches l) Q R v.
Proof. done. Qed.

Lemma keeps_invalidate_inode i : keeps o (invalidate_inode_cache i).
Proof.
  intros v Hv. apply runs_invalidate_inode, set_cache_ok; [done|].
  eapply cache_ok_step; [apply Hv|apply invalidate_inode_without|]. intros; apply stays_refl.
Qed.
End invariant.

(** ** mcr-vfs: reads, writes and attributes keep the invariant

    The calls that work on open files and on the attributes of nodes, over the invariant of
    [VfsOk.v]; and what a cached read or listing returns is what the tree holds. *)

(** ** Nodes that change in place *)
Section nodes.
Context `{HostFs}.

Lemma materialize_node n n' :
  materialize_deferred_content n = Ok n' →
  pn_inode_id n' = pn_inode_id n ∧ pn_kind n' = pn_kind n ∧ pn_attr n' = pn_attr n ∧
  pn_deferred_host_path n' = None ∧ (pn_deferred_host_path n = None → pn_data n' = pn_data n).
Proof.
  unfold materialize_deferred_content. destruct (pn_deferred_host_path n) eqn:E; [|by intros [= <-]].
  destruct (host_read_file _); [|done]. simpl. by intros [= <-].
Qed.

Lemma set_len_shape length n n' : set_len length n = Ok n' → same_shape n n'.
Proof.
  unfold set_len. destruct (negb (is_file_kind (pn_kind n))); [done|].
  destruct (materialize_deferred_content n) as [m| |] eqn:E; [|done..]. simpl.
  apply materialize_node in E as (H1 & H2 & H3 & _). destruct (resize_zero _ _); [|done..]. simpl.
  intros [= <-]. split; simpl; try done; rewrite ?H3; try done; by intros [].
Qed.

(** A write either changes the node in shape only, or fails and keeps what is cached. *)
Lemma write_at_cases offset data n :
  let '(r, n') := write_at offset data n in
  same_shape n n' ∧
  (r = Ok (zlen data) ∨
   ((∀ c, r ≠ Ok c) ∧ pn_attr n' = pn_attr n ∧
    (pn_deferred_host_path n = None → pn_deferred_host_path n' = None ∧ pn_data n' = pn_data n))).
Proof.
  unfold write_at. destruct (negb (is_file_kind (pn_kind n))); [by split; [|right]|].
  destruct (materialize_deferred_content n) as [m| |] eqn:E; [|by split; [|right]..].
  apply materialize_node in E as (H1 & H2 & H3 & H4 & H5).
  assert (Hm : same_shape n m) by (split; rewrite ?H3, ?H4; try done; by intros []).
  destruct (checked_add64 offset (zlen data)); [|split; [done|right; split_and!; auto]].
  destruct (if zlen (pn_data m) <? z then _ else _) as [bytes| |]; [|split; [done|right; split_and!; auto]..].
  split; [|by left]. destruct Hm. split; simpl; try done.
Qed.
End nodes.

Section ops.
Context `{QuietHost} (o : Others).

(** An update of one inode and its invalidation. *)
Lemma update_then_invalidate i f v :
  vfs_ok o v → (∀ n n', f n = Ok n' → same_shape n n') →
  runs (do* on_tree (update_inode i f); invalidate_inode_cache i) (λ _, vfs_ok o) (vfs_ok o) v.
Proof.
  intros Hv Hf. apply runs_bind, runs_on_tree. unfold update_inode. run_steps.
  assert (Hid : vfs_ok o (set_tree (v_tree v) v)) by (by destruct v).
  apply runs_lift; [|done]. intros n Hn. apply runs_bind, runs_lift; [|done]. intros n' Hn'.
  run_steps. apply runs_invalidate_inode. unfold lookup_inode, ok_or in Hn.
  destruct (tr_inodes (v_tree v) !! i) as [m|] eqn:E; [|done]. injection Hn as ->.
  apply (tree_cache_ok o [i] v (set_inodes (insert i n') (v_tree v))); [done| |apply invalidate_inode_without|].
  - by eapply tree_wf_update; [apply Hv|..]; eauto.
  - intros j Hj. eapply stays_update; [apply Hv|done|by apply same_shape_alike, Hf|set_solver].
Qed.

Lemma attr_shape f n n' : keeps_type f → Ok (E := VfsError) (set_attr f n) = Ok n' → same_shape n n'.
Proof. intros Hf [= <-]. by apply same_shape_attr. Qed.

Lemma runs_lift_keep {A} (x : outcome A VfsError) (Q : A → Vfs → Prop) v :
  vfs_ok o v → (∀ a, x = Ok a → Q a v) → runs (lift x) Q (vfs_ok o) v.
Proof. intros. by apply runs_lift. Qed.

Lemma update_resolved_keeps path f : keeps_type f → keeps o (update_resolved path f).
Proof.
  intros Hf v Hv. unfold update_resolved. run_steps. apply runs_lift_keep; [done|]. intros r Hr.
  apply runs_bind, runs_lift_keep; [done|]. intros n Hn.
  unfold ok_or in Hn. destruct (lookup_path _ _) as [m|] eqn:E; [|done]. injection Hn as ->.
  pose proof (lookup_path_id _ _ _ (vo_tree _ _ Hv) E) as Hid.
  assert (Heq : update_path (rp_guest_path r) (λ n, Ok (set_attr f n)) (v_tree v) =
                update_inode (pn_inode_id n) (λ n, Ok (set_attr f n)) (v_tree v)).
  { unfold update_path, bind, gets, id, lift. by rewrite Hid. }
  pose proof (update_then_invalidate (pn_inode_id n) (λ n, Ok (set_attr f n)) v Hv
                (λ n n', attr_shape f n n' Hf)) as Hu.
  unfold runs, bind, on_tree in Hu |- *. by rewrite Heq.
Qed.

Lemma chmod_keeps path mode : keeps o (chmod path mode).
Proof. apply update_resolved_keeps, set_mode_keeps. Qed.

Lemma chown_keeps path uid gid : keeps o (chown path uid gid).
Proof. apply update_resolved_keeps, set_owner_keeps. Qed.

Lemma utimensat_keeps dirfd path times flags : keeps o (utimensat dirfd path times flags).
Proof.
  intros v Hv. unfold utimensat. case_match; [done|]. run_steps. apply runs_lift_keep; [done|].
  intros i _. apply update_then_invalidate; [done|]. intros n n'. by apply attr_shape.
Qed.

(** *** Truncating and allocating *)
Lemma ftruncate_keeps fd length : keeps o (ftruncate fd length).
Proof.
  intros v Hv. apply runs_bind, runs_entry; [|done]. intros e He.
  apply runs_bind. eapply runs_description; [done|done|]. intros d Hd. case_match; [done|].
  destruct (fr_kind (en_file e)); try done. apply update_then_invalidate; [done|]. apply set_len_shape.
Qed.

Lemma fallocate_keeps fd offset length : keeps o (fallocate fd offset length).
Proof.
  intros v Hv. apply runs_bind, runs_lift_keep; [done|]. intros end_ _.
  apply runs_bind, runs_entry; [|done]. intros e He.
  apply runs_bind. eapply runs_description; [done|done|]. intros d Hd. case_match; [done|].
  destruct (fr_kind (en_file e)); try done. run_steps. apply runs_lift_keep; [done|]. intros n _.
  case_match; [|done]. apply update_then_invalidate; [done|]. apply set_len_shape.
Qed.

(** *** Writing *)
Lemma write_node_tree i offset buffer t :
  tree_wf t →
  let '(r, t') := write_node i offset buffer t in
  tree_wf t' ∧ (∀ j, j ≠ i → stays t t' j) ∧ (r = Ok (zlen buffer) ∨ (∀ c, r ≠ Ok c) ∧ stays t t' i).
Proof.
  intros Hwf. unfold write_node, bind, gets, id, lift, lookup_inode.
  destruct (tr_inodes t !! i) as [n|] eqn:En; simpl.
  - pose proof (write_at_cases offset buffer n) as Hc. destruct (write_at offset buffer n) as [r n'].
    destruct Hc as [Hs Hr]. simpl. split_and!.
    + by eapply tree_wf_update.
    + intros j Hj. eapply stays_update; [apply Hwf|done|by apply same_shape_alike|done].
    + destruct Hr as [?|(? & ? & ?)]; [by left|right]. split; [done|].
      eapply stays_materialize; [apply Hwf|done|by apply same_shape_alike|done|done].
  - split_and!; [done|intros; apply stays_refl|right]. split; [done|apply stays_refl].
Qed.

(** After the write of a node, with the invalidation the code does when bytes were written. *)
Lemma node_written i offset buffer v w :
  vfs_ok o v → fd_wf o w → buffer ≠ [] →
  let '(r, t) := write_node i offset buffer (v_tree v) in
  (r = Ok (zlen buffer) ∧ vfs_ok o (set_cache (invalidate_inode i (v_cache v)) (set_fds w (set_tree t v)))) ∨
  ((∀ c, r ≠ Ok c) ∧ vfs_ok o (set_fds w (set_tree t v))).
Proof.
  intros Hv Hw Hb. pose proof (write_node_tree i offset buffer (v_tree v) (vo_tree _ _ Hv)) as Ht.
  destruct (write_node _ _ _ _) as [r t]. destruct Ht as (Hwf & Hs & Hr). destruct Hr as [->|[Hn Hi]].
  - left. split; [done|]. split; simpl; [done|done|].
    eapply (cache_ok_step (v_tree v)); [apply Hv|apply invalidate_inode_without|]. intros j Hj. apply Hs. set_solver.
  - right. split; [done|]. split; simpl; [done|done|].
    eapply cache_ok_step; [apply Hv|apply cache_without_nil|]. intros j _.
    destruct (decide (j = i)) as [->|]; auto.
Qed.

Lemma zlen_pos {A} (l : list A) : l ≠ [] → 0 < zlen l.
Proof. destruct l; [done|]. intros _. unfold zlen. simpl. lia. Qed.

Lemma pwrite_keeps fd offset buffer : buffer ≠ [] → keeps o (pwrite fd offset buffer).
Proof.
  intros Hb v Hv. apply runs_bind, runs_entry; [|done]. intros e He.
  apply runs_bind. eapply runs_description; [done|done|]. intros d Hd. case_match; [done|].
  destruct (fr_kind (en_file e)); try done. apply runs_bind, runs_on_tree.
  pose proof (node_written (inode_id_of e) offset buffer v (v_fds v) Hv (vo_fds _ _ Hv) Hb) as Hw.
  unfold runs. destruct (write_node _ _ _ _) as [r t]. destruct Hw as [[-> Hw]|[Hn Hw]].
  - unfold bind. destruct (Z.ltb_spec 0 (zlen buffer)); [|pose proof (zlen_pos buffer Hb); lia].
    rewrite invalidate_inode_eq. by destruct v.
  - destruct r; [naive_solver|by destruct v..].
Qed.

(** A write through a descriptor is the write of a node, or leaves the tree alone. *)
Lemma fd_write_cases fd buffer t w :
  fd_wf o w →
  let '(r, (t', w')) := fd_write fd buffer (t, w) in
  fd_wf o w' ∧
  ((∃ e offset, ft_entries (fw_table w) !! fd = Some e ∧ fr_kind (en_file e) = KRegular ∧
      write_node (inode_id_of e) offset buffer t = (r, t')) ∨
   (t' = t ∧ ((∀ c, r ≠ Ok c) ∨ ∃ e, ft_entries (fw_table w) !! fd = Some e ∧ fr_kind (en_file e) ≠ KRegular))).
Proof.
  intros Hw. pose proof (fd_write_keeps o fd buffer t w Hw) as Hk.
  destruct (fd_write fd buffer (t, w)) as [r [t' w']] eqn:E. split; [done|]. clear Hk.
  unfold fd_write in E. unfold bind at 1 in E. rewrite get_eq in E.
  destruct (ft_entries (fw_table w) !! fd) as [e|] eqn:He; [|right; split; [naive_solver|left; naive_solver]].
  destruct (fw_desc _ _ Hw _ _ He) as [d Hd].
  unfold bind, description, gets, lift, ret, id in E. simpl in E. rewrite Hd in E. simpl in E.
  destruct (negb (can_write (fd_flags d))); [right; split; [naive_solver|left; naive_solver]|].
  destruct (fr_kind (en_file e)) as [| | |k| | | | | |kind] eqn:Ek;
    try (right; split; [|right; exists e; by rewrite Ek]; naive_solver).
  - destruct (lookup_inode t _) as [n|]; [|right; split; [naive_solver|left; naive_solver]].
    left. exists e, (if append_flag (fd_flags d) then at_size (pn_attr n) else fd_offset d).
    split_and!; [done|done|]. unfold inode_id_of. destruct (write_node _ _ _ _) as [[c|err|] t1]; naive_solver.
  - right. split; [|right; exists e; by rewrite Ek]. destruct k; naive_solver.
  - right. split; [|right; exists e; by rewrite Ek]. destruct (pipe_write e buffer w); naive_solver.
  - right. split; [|right; exists e; by rewrite Ek]. destruct (eventfd_write e buffer w); naive_solver.
  - right. split; [|right; exists e; by rewrite Ek]. destruct (stdio_write kind buffer w); naive_solver.
Qed.

Definition regular_inode (v : Vfs) (fd : Z) : option Z :=
  match entry_of v fd with
  | Ok entry => match fr_kind (en_file entry) with KRegular => Some (inode_id_of entry) | _ => None end
  | _ => None
  end.

Lemma write_keeps fd buffer : buffer ≠ [] → keeps o (write fd buffer).
Proof.
  intros Hb v Hv. unfold write. run_step. run_step. cbv zeta. fold (regular_inode v fd).
  apply runs_bind. unfold runs at 1.
  pose proof (fd_write_cases fd buffer (v_tree v) (v_fds v) (vo_fds _ _ Hv)) as Hc.
  destruct (fd_write fd buffer (v_tree v, v_fds v)) as [r [t w]] eqn:E. simpl. destruct Hc as [Hw [Hc|[-> Hc]]].
  - destruct Hc as (e & offset & He & Hk & Hn).
    pose proof (node_written (inode_id_of e) offset buffer v w Hv Hw Hb) as Hnode. rewrite Hn in Hnode.
    unfold regular_inode, entry_of. rewrite He. simpl. rewrite Hk. destruct Hnode as [[-> Hok]|[Hno Hok]].
    + destruct (Z.ltb_spec 0 (zlen buffer)); [|pose proof (zlen_pos buffer Hb); lia].
      apply runs_bind. simpl. by apply runs_invalidate_inode.
    + destruct r; [naive_solver|done..].
  - assert (Hok : vfs_ok o (set_fds w (set_tree (v_tree v) v))) by (by destruct Hv).
    destruct r as [c|err|]; [|done..]. destruct Hc as [Hc|(e & He & Hk)]; [naive_solver|].
    unfold regular_inode, entry_of. rewrite He. simpl. run_step. destruct (fr_kind (en_file e)); try done; by destruct (0 <? c).
Qed.

Lemma mjoin_nonempty (buffers : list (list Z)) total :
  vectored_len (zlen <$> buffers) 0 = Ok total → total ≠ 0 → mjoin buffers ≠ [].
Proof.
  assert (Hgen : ∀ acc, vectored_len (zlen <$> buffers) acc = Ok total → mjoin buffers = [] → total = acc).
  { induction buffers as [|b l IH]; intros acc; simpl; [by intros [= ->]|].
    destruct (checked_add64 acc (zlen b)) as [n|] eqn:E; [|done]. simpl. intros Hl [-> Hj]%app_eq_nil.
    apply checked_add64_Some in E as [-> _]. rewrite (IH _ Hl Hj). unfold zlen. simpl. lia. }
  intros Hl Ht Hj. apply Ht. by apply Hgen.
Qed.

Lemma writev_keeps fd buffers : keeps o (writev_regular fd buffers).
Proof.
  intros v Hv. apply runs_bind, runs_entry; [|done]. intros e He.
  apply runs_bind. eapply runs_description; [done|done|]. intros d Hd. case_match; [done|].
  destruct (fr_kind (en_file e)); try done. run_step. run_step. cbv zeta.
  apply runs_bind, runs_lift_keep; [done|]. intros n Hn. apply runs_bind, runs_lift_keep; [done|]. intros total Ht.
  destruct (Z.eqb_spec total 0) as [|Hne]; [done|]. pose proof (mjoin_nonempty _ _ Ht Hne) as Hb.
  set (offset := if append_flag (fd_flags d) then at_size (pn_attr n) else fd_offset d).
  apply runs_bind, runs_on_tree.
  pose proof (node_written (inode_id_of e) offset (mjoin buffers) v (v_fds v) Hv (vo_fds _ _ Hv) Hb) as Hw.
  pose proof (put_description_keeps o fd e (set_offset (wadd offset (zlen (mjoin buffers))) d) (v_fds v) (vo_fds _ _ Hv) He) as Hput.
  unfold runs. destruct (write_node _ _ _ _) as [r t]. destruct Hw as [[-> Hw]|[Hno Hw]].
  - unfold bind, on_fds, put_description, modify, put_desc in *. simpl.
    destruct (Z.ltb_spec 0 (zlen (mjoin buffers))); [|pose proof (zlen_pos _ Hb); lia].
    rewrite invalidate_inode_eq. unfold ret. destruct Hw. by split.
  - destruct r; [naive_solver|by destruct v..].
Qed.
End ops.
