(* ===== verification/VfsLinks.v ===== *)
(** * mcr-vfs: the cache is transparent

    Reads, attributes and listings of the file system return what the descriptor table
    reads from the tree without a cache, and change nothing but the cache and the offset. *)

From S2P Require Import Prelude SysAbi Bytes VfsTypes VfsPath VfsFd VfsCache VfsSystem VfsTree VfsResolve VfsFdOps VfsFdWf VfsOk.
From stdpp Require Import base gmap list strings sorting.
From Stdlib Require Import ZArith Lia.
Open Scope Z_scope.

Section reads.
Context `{HostFs} (o : Others).

(** A step that leaves another cache, still right. *)
Definition recached {A} (v : Vfs) (r : outcome A VfsError * FdWorld) (x : outcome A VfsError * Vfs) : Prop :=
  ∃ c, cache_ok (v_tree v) c ∧ x = (r.1, set_cache c (set_fds r.2 v)).

Lemma recached_ok {A} v (r : outcome A VfsError * FdWorld) x :
  vfs_ok o v → fd_wf o r.2 → recached v r x → vfs_ok o x.2.
Proof. intros [H1 H2 H3] Hw (c & Hc & ->). by split. Qed.

Lemma on_fds_get fd v :
  on_fds (get fd) v = (match ft_entries (fw_table (v_fds v)) !! fd with Some e => Ok e | None => Err BadFd end, v).
Proof. unfold on_fds. by rewrite get_eq, set_fds_id. Qed.

Lemma on_fds_description e d v :
  h_descriptions (fw_heap (v_fds v)) !! en_description e = Some d → on_fds (description e) v = (Ok d, v).
Proof. intros Hd. unfold on_fds, description, bind, gets, lift, id. rewrite Hd. simpl. by rewrite set_fds_id. Qed.

(** Opening a file and using its handle is the same as using a cached handle. *)
Lemma read_regular_handle node ps offset len :
  (∀ p, pn_deferred_host_path node = Some p → open_host_read_handle p = Ok tt) →
  read_regular_node_at node ps offset len true = read_regular_node_at node ps offset len false.
Proof.
  intros Ho. unfold read_regular_node_at, read_host_path_at.
  destruct (pn_deferred_host_path node) as [p|]; [|done]. by rewrite (Ho p eq_refl).
Qed.

Lemma read_regular_inode_eq inode offset len v :
  vfs_ok o v →
  recached v
    ((let? node := ok_or (lookup_inode (v_tree v) inode) NoEntry in
      if is_directory_attr (pn_attr node) then Err IsDirectory else
      read_regular_node_at node (v_proc_self v) offset len false), v_fds v)
    (read_regular_inode_at inode offset len v).
Proof.
  intros Hv. unfold read_regular_inode_at, lookup_inode. unfold bind at 1, gets, id. unfold bind at 1, lift at 1.
  destruct (tr_inodes (v_tree v) !! inode) as [n|] eqn:En; simpl;
    [|exists (v_cache v); simpl; rewrite set_fds_id, set_cache_id; split; [apply Hv|done]].
  destruct (is_directory_attr (pn_attr n)); [exists (v_cache v); simpl; rewrite set_fds_id, set_cache_id; split; [apply Hv|done]|].
  destruct (pn_deferred_host_path n) as [p|] eqn:Ed.
  - assert (Hk : pn_kind n = NFile) by (apply (tw_node _ (vo_tree _ _ Hv) _ _ En); by rewrite Ed). destruct (host_handle_eq o inode p v Hv) as (c & Hc & Hok). exists c. split; [done|].
    unfold bind. rewrite Hc. simpl. rewrite set_fds_id.
    destruct (open_host_read_handle p) as [[]|e|] eqn:Eo; simpl; unfold ret, lift.
    + rewrite read_regular_handle; [done|]. intros p' Hp'. congruence.
    + by unfold read_regular_node_at, read_host_path_at; rewrite Hk, Ed, Eo.
    + by unfold read_regular_node_at, read_host_path_at; rewrite Hk, Ed, Eo.
  - exists (v_cache v). split; [apply Hv|]. simpl. rewrite set_fds_id, set_cache_id. unfold bind, ret, lift.
    rewrite read_regular_handle; [done|congruence].
Qed.

(** A recached step that goes on with a step of the same kind. *)
Lemma recached_same {A} v (r : outcome A VfsError) x :
  recached v (r, v_fds v) x ↔ ∃ c, cache_ok (v_tree v) c ∧ x = (r, set_cache c v).
Proof. unfold recached. simpl. by rewrite set_fds_id. Qed.

Lemma recached_pure {A} v (r : outcome A VfsError) : vfs_ok o v → recached v (r, v_fds v) (r, v).
Proof. intros Hv. apply recached_same. exists (v_cache v). split; [apply Hv|by rewrite set_cache_id]. Qed.

Lemma small_read_eq fd e d offset len v :
  vfs_ok o v → ft_entries (fw_table (v_fds v)) !! fd = Some e →
  h_descriptions (fw_heap (v_fds v)) !! en_description e = Some d → can_read (fd_flags d) = true → 0 < len →
  (∃ n c, fr_kind (en_file e) = KRegular ∧ tr_inodes (v_tree v) !! inode_id_of e = Some n ∧
     pn_kind n = NFile ∧ pn_deferred_host_path n = None ∧ cache_ok (v_tree v) c ∧
     cached_small_read_for_entry e offset len v = (Ok (Some (read_memory_at (pn_data n) offset len)), set_cache c v)) ∨
  (fr_kind (en_file e) = KRegular ∧ tr_inodes (v_tree v) !! inode_id_of e = None ∧
     cached_small_read_for_entry e offset len v = (Err NoEntry, v)) ∨
  cached_small_read_for_entry e offset len v = (Ok None, v).
Proof.
  intros Hv He Hd Hr Hl.
  assert (E : cached_small_read_for_entry e offset len v =
    match fr_kind (en_file e) with
    | KRegular =>
        match tr_inodes (v_tree v) !! inode_id_of e with
        | None => (Err NoEntry, v)
        | Some n =>
            if negb (is_file_kind (pn_kind n)) then (Ok None, v) else
            if bool_decide (is_Some (pn_deferred_host_path n)) then (Ok None, v) else
            if SMALL_READ_CACHE_LIMIT <? zlen (pn_data n) then (Ok None, v) else
            (let* data := cached_small_read_data (inode_id_of e) (pn_data n) in
             ret (Some (read_memory_at data offset len))) v
        end
    | _ => (Ok None, v)
    end).
  { unfold cached_small_read_for_entry. unfold bind at 1. rewrite (on_fds_description e d v Hd), Hr. simpl.
    destruct (fr_kind (en_file e)); try done. destruct (Z.eqb_spec len 0) as [|Hne]; [lia|].
    unfold bind at 1, gets, id, lookup_inode. unfold bind at 1, lift.
    destruct (tr_inodes (v_tree v) !! inode_id_of e); [|done]. simpl. by repeat (case_match; try done). }
  rewrite E. clear E. destruct (fr_kind (en_file e)); try (right; by right).
  destruct (tr_inodes (v_tree v) !! inode_id_of e) as [n|] eqn:En; [|right; by left].
  destruct (pn_kind n) eqn:Ek; simpl; try (right; by right).
  destruct (pn_deferred_host_path n) eqn:Edf; simpl; [right; by right|].
  destruct (SMALL_READ_CACHE_LIMIT <? zlen (pn_data n)); [right; by right|].
  destruct (cached_small_read_eq o _ _ _ Hv En Edf) as (c & Hc & Hok). left. exists n, c.
  split_and!; try done. unfold bind. by rewrite Hc.
Qed.

Lemma small_read_bad_mode e d offset len v :
  h_descriptions (fw_heap (v_fds v)) !! en_description e = Some d → can_read (fd_flags d) = false →
  cached_small_read_for_entry e offset len v = (Err BadFd, v).
Proof.
  intros Hd Hr. unfold cached_small_read_for_entry, bind at 1. by rewrite (on_fds_description e d v Hd), Hr.
Qed.

Lemma regular_request_eq fd e d v :
  ft_entries (fw_table (v_fds v)) !! fd = Some e →
  h_descriptions (fw_heap (v_fds v)) !! en_description e = Some d → can_read (fd_flags d) = true →
  on_fds (regular_read_request fd) v =
  (Ok (match fr_kind (en_file e) with KRegular | KSymlink => Some (inode_id_of e, fd_offset d) | _ => None end), v).
Proof.
  intros He Hd Hr. unfold on_fds, regular_read_request, bind, description, gets, lift, ret, id.
  rewrite get_eq, He. simpl. rewrite Hd. simpl. rewrite Hr. simpl.
  destruct (fr_kind (en_file e)); by rewrite set_fds_id.
Qed.

Lemma file_not_dir v i n : vfs_ok o v → tr_inodes (v_tree v) !! i = Some n → pn_kind n = NFile → is_directory_attr (pn_attr n) = false.
Proof. intros Hv Hn Hk. rewrite (nw_dir _ _ _ (tw_node _ (vo_tree _ _ Hv) _ _ Hn)). unfold is_directory. by rewrite Hk. Qed.

Lemma fd_pread_open fd e d offset len v :
  ft_entries (fw_table (v_fds v)) !! fd = Some e →
  h_descriptions (fw_heap (v_fds v)) !! en_description e = Some d → can_read (fd_flags d) = true →
  fr_kind (en_file e) = KRegular ∨ fr_kind (en_file e) = KSymlink →
  fd_pread (v_tree v) (v_proc_self v) fd offset len (v_fds v) =
  ((let? node := ok_or (lookup_inode (v_tree v) (inode_id_of e)) NoEntry in
    if is_directory_attr (pn_attr node) then Err IsDirectory else
    read_regular_node_at node (v_proc_self v) offset len false), v_fds v).
Proof.
  intros He Hd Hr Hk. unfold fd_pread, bind, description, gets, lift, throw, id. rewrite get_eq, He. simpl. rewrite Hd. simpl. rewrite Hr. simpl.
  destruct Hk as [-> | ->]; unfold inode_id_of; destruct (lookup_inode _ _) as [n|]; simpl; try done;
    by destruct (is_directory_attr (pn_attr n)).
Qed.

Lemma pread_recached fd offset len v :
  vfs_ok o v → 0 < len →
  recached v (fd_pread (v_tree v) (v_proc_self v) fd offset len (v_fds v)) (pread fd offset len v).
Proof.
  intros Hv Hl. unfold pread, cached_small_read_at. unfold bind at 1 2. rewrite on_fds_get.
  destruct (ft_entries (fw_table (v_fds v)) !! fd) as [e|] eqn:He.
  2: { unfold fd_pread, bind at 1. rewrite get_eq, He. by apply recached_pure. }
  destruct (fw_desc _ _ (vo_fds _ _ Hv) _ _ He) as [d Hd].
  destruct (can_read (fd_flags d)) eqn:Hr.
  2: { rewrite (small_read_bad_mode e d) by done. unfold fd_pread, bind, description, gets, lift, throw, id.
       rewrite get_eq, He. simpl. rewrite Hd. simpl. rewrite Hr. simpl. by apply recached_pure. }
  destruct (small_read_eq fd e d offset len v Hv He Hd Hr Hl) as [(n & c & Hk & Hn & Hnk & Hdf & Hc & ->)|[(Hk & Hn & ->)| ->]].
  - rewrite (fd_pread_open fd e d) by auto. unfold lookup_inode. rewrite Hn. simpl.
    rewrite (file_not_dir v _ n) by done. unfold read_regular_node_at. rewrite Hnk, Hdf.
    apply recached_same. by exists c.
  - rewrite (fd_pread_open fd e d) by auto. unfold lookup_inode. rewrite Hn. by apply recached_pure.
  - unfold bind at 1. rewrite (regular_request_eq fd e d) by done.
    assert (Hreg : fr_kind (en_file e) = KRegular ∨ fr_kind (en_file e) = KSymlink →
      recached v (fd_pread (v_tree v) (v_proc_self v) fd offset len (v_fds v)) (read_regular_inode_at (inode_id_of e) offset len v)).
    { intros Hk. rewrite (fd_pread_open fd e d) by done. by apply read_regular_inode_eq. }
    assert (Hoth : recached v (fd_pread (v_tree v) (v_proc_self v) fd offset len (v_fds v))
              (on_fds (fd_pread (v_tree v) (v_proc_self v) fd offset len) v)).
    { exists (v_cache v). split; [apply Hv|]. unfold on_fds.
      destruct (fd_pread _ _ _ _ _ (v_fds v)) as [r w]. by destruct v. }
    destruct (fr_kind (en_file e)); auto.
Qed.

(** *** Reading at the offset *)
Lemma read_memory_at_len data offset len : 0 ≤ len → zlen (read_memory_at data offset len) ≤ len.
Proof. intros. unfold read_memory_at, zlen. rewrite length_take. lia. Qed.

Lemma read_host_file_at_len p offset len bytes : 0 ≤ len → read_host_file_at p offset len = Ok bytes → zlen bytes ≤ len.
Proof.
  intros Hl. unfold read_host_file_at. destruct (Z.eqb_spec len 0); [intros [= <-]; unfold zlen; simpl; lia|].
  destruct (host_read_at p offset len); [|done..]. simpl. intros [= <-]. unfold zlen. rewrite length_take. lia.
Qed.

Lemma read_regular_len node ps offset len b bytes :
  0 ≤ len → read_regular_node_at node ps offset len b = Ok bytes → zlen bytes ≤ len.
Proof.
  intros Hl. unfold read_regular_node_at, read_host_path_at.
  assert (Hdef : match pn_deferred_host_path node with
      | Some path => if b then read_host_file_at path offset len
                     else let? _ := open_host_read_handle path in read_host_file_at path offset len
      | None => Ok (read_memory_at (pn_data node) offset len) end = Ok bytes → zlen bytes ≤ len).
  { destruct (pn_deferred_host_path node) as [p|]; [|intros [= <-]; by apply read_memory_at_len].
    destruct b; [by apply read_host_file_at_len|]. destruct (open_host_read_handle p); [|done..]. by apply read_host_file_at_len. }
  destruct (pn_kind node) as [| | |[]|]; try done; intros [= <-]; by apply read_memory_at_len.
Qed.

Definition advanced (e : FdEntry) (d : FdDescription) (count : Z) (w : FdWorld) : FdWorld :=
  put_desc (en_description e) (set_offset (fd_offset d + count) d) w.

Lemma advance_eq e d count v :
  h_descriptions (fw_heap (v_fds v)) !! en_description e = Some d → fd_offset d + count < 2 ^ 64 →
  on_fds (advance e (fd_offset d) count) v = (Ok tt, set_fds (advanced e d count (v_fds v)) v).
Proof.
  intros Hd Hc. unfold on_fds, advance, bind, description, gets, lift, id. rewrite checked_add64_fit by done. simpl.
  rewrite Hd. done.
Qed.

Lemma fd_read_open fd e d len v :
  ft_entries (fw_table (v_fds v)) !! fd = Some e →
  h_descriptions (fw_heap (v_fds v)) !! en_description e = Some d → can_read (fd_flags d) = true →
  fr_kind (en_file e) = KRegular ∨ fr_kind (en_file e) = KSymlink →
  0 < len → 0 ≤ fd_offset d → fd_offset d + len < 2 ^ 64 →
  fd_read (v_tree v) (v_proc_self v) fd len (v_fds v) =
  match (let? node := ok_or (lookup_inode (v_tree v) (inode_id_of e)) NoEntry in
         if is_directory_attr (pn_attr node) then Err IsDirectory else
         read_regular_node_at node (v_proc_self v) (fd_offset d) len false) with
  | Ok bytes => (Ok bytes, advanced e d (zlen bytes) (v_fds v))
  | Err err => (Err err, v_fds v)
  | Panic => (Panic, v_fds v)
  end.
Proof.
  intros He Hd Hr Hk Hl H0 Ho. unfold fd_read, bind, description, gets, lift, throw, id. rewrite get_eq, He. simpl. rewrite Hd. simpl. rewrite Hr. simpl.
  destruct Hk as [-> | ->]; unfold inode_id_of; destruct (lookup_inode _ _) as [n|]; simpl; try done;
    destruct (is_directory_attr (pn_attr n)); try done; simpl;
    (destruct (read_regular_node_at n (v_proc_self v) (fd_offset d) len false) as [bytes| |] eqn:Eb; [|done..]);
    apply read_regular_len in Eb; try lia; pose proof (zlen_nonneg bytes);
    unfold put_description, modify, ret, advanced, put_desc; by rewrite wadd_exact by lia.
Qed.

Lemma read_recached fd len v :
  vfs_ok o v → 0 < len →
  (∀ e d, ft_entries (fw_table (v_fds v)) !! fd = Some e →
     h_descriptions (fw_heap (v_fds v)) !! en_description e = Some d → 0 ≤ fd_offset d ∧ fd_offset d + len < 2 ^ 64) →
  recached v (fd_read (v_tree v) (v_proc_self v) fd len (v_fds v)) (read fd len v).
Proof.
  intros Hv Hl Hoff. unfold read, read_from_small_cache. unfold bind at 1 2. rewrite on_fds_get.
  destruct (ft_entries (fw_table (v_fds v)) !! fd) as [e|] eqn:He.
  2: { unfold fd_read, bind at 1. rewrite get_eq, He. by apply recached_pure. }
  destruct (fw_desc _ _ (vo_fds _ _ Hv) _ _ He) as [d Hd]. destruct (Hoff e d eq_refl Hd) as [H0 Ho].
  unfold bind at 1. rewrite (on_fds_description e d v Hd). unfold bind at 1.
  destruct (can_read (fd_flags d)) eqn:Hr.
  2: { rewrite (small_read_bad_mode e d) by done. unfold fd_read, bind, description, gets, lift, throw, id.
       rewrite get_eq, He. simpl. rewrite Hd. simpl. rewrite Hr. simpl. by apply recached_pure. }
  destruct (small_read_eq fd e d (fd_offset d) len v Hv He Hd Hr Hl) as [(n & c & Hk & Hn & Hnk & Hdf & Hc & ->)|[(Hk & Hn & ->)| ->]].
  - rewrite (fd_read_open fd e d) by auto. unfold lookup_inode. rewrite Hn. simpl.
    rewrite (file_not_dir v _ n) by done. unfold read_regular_node_at. rewrite Hnk, Hdf.
    pose proof (read_memory_at_len (pn_data n) (fd_offset d) len ltac:(lia)).
    unfold bind at 1. rewrite (advance_eq e d _ (set_cache c v)) by (done || lia).
    exists c. split; [done|]. done.
  - rewrite (fd_read_open fd e d) by auto. unfold lookup_inode. rewrite Hn. by apply recached_pure.
  - unfold ret at 1. unfold bind at 1. rewrite (regular_request_eq fd e d) by done.
    assert (Hreg : fr_kind (en_file e) = KRegular ∨ fr_kind (en_file e) = KSymlink →
      recached v (fd_read (v_tree v) (v_proc_self v) fd len (v_fds v))
        ((let* bytes := read_regular_inode_at (inode_id_of e) (fd_offset d) len in
          let* entry := on_fds (get fd) in
          do* on_fds (advance entry (fd_offset d) (zlen bytes)); ret bytes) v)).
    { intros Hk. rewrite (fd_read_open fd e d) by done. unfold bind at 1.
      destruct (read_regular_inode_eq (inode_id_of e) (fd_offset d) len v Hv) as (c & Hc & ->). simpl. rewrite set_fds_id.
      destruct (let? node := _ in _) as [bytes| |] eqn:Eb; [|apply recached_same; by exists c..].
      assert (Hlen : zlen bytes ≤ len).
      { destruct (lookup_inode _ _); [|done]. simpl in Eb. destruct (is_directory_attr _); [done|].
        eapply read_regular_len; [|exact Eb]. lia. }
      unfold bind. rewrite on_fds_get. simpl. rewrite He. simpl.
      rewrite (advance_eq e d _ (set_cache c v)) by (done || lia). by exists c. }
    assert (Hoth : recached v (fd_read (v_tree v) (v_proc_self v) fd len (v_fds v))
              ((let* v := gets id in on_fds (fd_read (v_tree v) (v_proc_self v) fd len)) v)).
    { exists (v_cache v). split; [apply Hv|]. unfold bind, gets, id, on_fds.
      destruct (fd_read _ _ _ _ (v_fds v)) as [r w]. by destruct v. }
    destruct (fr_kind (en_file e)); auto.
Qed.

(** ** Attributes and listings *)
Lemma set_fds_ret_ok v c : vfs_ok o v → cache_ok (v_tree v) c → vfs_ok o (set_cache c v).
Proof. by intros [H1 H2 H3] Hc. Qed.

(** The attributes of an open file, read from the tree. *)
Definition fstat_uncached (v : Vfs) (fd : Z) : outcome LinuxFileAttr VfsError :=
  let? entry := entry_of v fd in
  match fr_kind (en_file entry) with
  | KStdio _ | KPipeRead | KPipeWrite | KSocket | KEpoll | KEventfd => Ok (anonymous_attr (en_file entry))
  | _ => match lookup_inode (v_tree v) (inode_id_of entry) with
         | Some node => Ok (pn_attr node)
         | None => Ok (anonymous_attr (en_file entry))
         end
  end.

Lemma fstat_recached fd v : vfs_ok o v → recached v (fstat_uncached v fd, v_fds v) (fstat fd v).
Proof.
  intros Hv. unfold fstat, fstat_uncached, entry_of. unfold bind at 1. rewrite on_fds_get.
  destruct (ft_entries (fw_table (v_fds v)) !! fd) as [e|]; simpl; [|by apply recached_pure].
  assert (Htree : recached v (match lookup_inode (v_tree v) (inode_id_of e) with
      | Some node => Ok (pn_attr node) | None => Ok (anonymous_attr (en_file e)) end, v_fds v)
      ((let* v := gets id in match lookup_inode (v_tree v) (inode_id_of e) with
        | Some node => cached_metadata node | None => ret (anonymous_attr (en_file e)) end) v)).
  { unfold bind, gets, id, lookup_inode. destruct (tr_inodes (v_tree v) !! inode_id_of e) as [n|] eqn:En; [|by apply recached_pure].
    apply recached_same. destruct (cached_metadata_eq o n v Hv) as (c & -> & Hc); [|by exists c].
    by rewrite (nw_id _ _ _ (tw_node _ (vo_tree _ _ Hv) _ _ En)). }
  destruct (fr_kind (en_file e)); try (by apply recached_pure); exact Htree.
Qed.

Definition stat_path_uncached (v : Vfs) (path : GuestPath) : outcome LinuxFileAttr VfsError :=
  match proc_self_fd_path_fd path with
  | Some fd =>
      let? target := proc_fd_target v fd in
      let? inode := proc_self_fd_link_inode fd in
      Ok (symlink inode (Z.of_nat (String.length target)))
  | None => let? node := ok_or (lookup_path (v_tree v) path) NoEntry in Ok (pn_attr node)
  end.

Lemma stat_path_recached path v : vfs_ok o v → recached v (stat_path_uncached v path, v_fds v) (stat_path path v).
Proof.
  intros Hv. unfold stat_path, stat_path_uncached. unfold bind at 1, gets, id.
  destruct (proc_self_fd_path_fd path) as [fd|].
  - unfold bind, lift, ret. destruct (proc_fd_target v fd) as [s| |]; simpl; try by apply recached_pure.
    destruct (proc_self_fd_link_inode fd); simpl; by apply recached_pure.
  - destruct (lookup_path (v_tree v) path) as [n|] eqn:En; simpl; [|by apply recached_pure].
    apply recached_same. destruct (cached_metadata_eq o n v Hv) as (c & -> & Hc); [|by exists c].
    apply lookup_path_Some in En as (i & Hi & Hn). by rewrite (nw_id _ _ _ (tw_node _ (vo_tree _ _ Hv) _ _ Hn)).
Qed.

Lemma listing_source_eq fd v :
  directory_listing_source (v_tree v) fd (v_fds v) =
  (match ft_entries (fw_table (v_fds v)) !! fd with
   | None => Err BadFd
   | Some e =>
       match fr_kind (en_file e) with
       | KDirectory =>
           let? path := ok_or (en_path e) BadFd in
           let? node := ok_or (lookup_path (v_tree v) path) NoEntry in
           Ok {| ls_inode := pn_inode_id node; ls_path := path;
                 ls_cacheable := negb (is_proc_self_fd_directory (v_tree v) path) |}
       | _ => Err NotDirectory
       end
   end, v_fds v).
Proof.
  unfold directory_listing_source, bind, lift, throw, ret. rewrite get_eq.
  destruct (ft_entries (fw_table (v_fds v)) !! fd) as [e|]; [|done].
  destruct (fr_kind (en_file e)); try done. destruct (en_path e) as [p|]; [|done]. simpl.
  by destruct (lookup_path (v_tree v) p).
Qed.

Lemma static_listing_eq t tree path :
  is_proc_self_fd_directory tree path = false → directory_entries t tree path = static_directory_entries tree path.
Proof. intros Hp. unfold directory_entries, static_directory_entries. rewrite Hp. by destruct (static_children tree path). Qed.

Lemma getdents64_recached fd max v :
  vfs_ok o v → recached v (fd_getdents64 (v_tree v) fd max (v_fds v)) (getdents64 fd max v).
Proof.
  intros Hv. unfold getdents64, fd_getdents64, bind, gets, lift, id. unfold on_fds at 1. cbv beta iota.
  rewrite !listing_source_eq. cbv beta iota. rewrite set_fds_id.
  destruct (ft_entries (fw_table (v_fds v)) !! fd) as [e|]; [|by apply recached_pure].
  destruct (fr_kind (en_file e)); try by apply recached_pure.
  destruct (en_path e) as [path|]; simpl; [|by apply recached_pure].
  destruct (lookup_path (v_tree v) path) as [n|] eqn:En; simpl; [|by apply recached_pure].
  assert (Hfin : ∀ c entries, cache_ok (v_tree v) c →
    recached v (consume_directory_entries fd max entries (v_fds v)) (on_fds (consume_directory_entries fd max entries) (set_cache c v))).
  { intros c entries Hc. exists c. split; [done|]. unfold on_fds. simpl. by destruct (consume_directory_entries _ _ _ _). }
  destruct (is_proc_self_fd_directory (v_tree v) path) eqn:Ep; simpl.
  - destruct (directory_entries _ _ _) as [l| |]; try by apply recached_pure.
    rewrite <- (set_cache_id v) at 3. apply Hfin, Hv.
  - pose proof (lookup_path_id _ _ _ (vo_tree _ _ Hv) En) as Hid.
    destruct (cached_directory_entries_eq o _ _ _ Hv Hid) as (c & Hc & Hok).
    rewrite Hc, static_listing_eq by done.
    destruct (static_directory_entries (v_tree v) path) as [l| |]; [by apply Hfin|apply recached_same; by exists c..].
Qed.
End reads.

(** ** mcr-vfs: calls that change the tree keep the invariant

    Creating, opening, closing, linking, unlinking and renaming. *)

Implicit Types (p q : GuestPath).

Section links.
Context `{QuietHost} (o : Others).

(** ** New nodes *)
Definition ids_left (v : Vfs) : Prop := tr_next_inode_id (v_tree v) < PROC_INODE_ID.

(** The tree with a new node. *)
Definition with_new (p : GuestPath) (n : PathNode) (t : PathTree) : PathTree :=
  link_at p (pn_inode_id n) (set_inodes (insert (pn_inode_id n) n) (set_next_inode_id (wadd (tr_next_inode_id t) 1) t)).

Lemma with_new_wf t q x n :
  tree_wf t → tr_next_inode_id t < PROC_INODE_ID → dir_at t q → tr_nodes t !! (q ++ [x]) = None →
  pn_inode_id n = tr_next_inode_id t → new_node n → tree_wf (with_new (q ++ [x]) n t).
Proof.
  intros Hwf Hid Hq Hfree Hn Hnew. unfold with_new. rewrite Hn.
  apply (tree_wf_insert _ _ q x); try done.
  - by apply tree_wf_allocate.
  - exact (tree_fresh_id t Hwf Hid).
  - simpl. rewrite wadd_exact; destruct (tw_next _ Hwf); unfold PROC_INODE_ID in *; lia.
Qed.

Lemma with_new_stays t q x n k i :
  tree_wf t → tr_next_inode_id t < PROC_INODE_ID → tr_nodes t !! q = Some k → tr_nodes t !! (q ++ [x]) = None →
  pn_inode_id n = tr_next_inode_id t → i ≠ k → stays t (with_new (q ++ [x]) n t) i.
Proof.
  intros Hwf Hid Hq Hfree Hn Hi. unfold with_new. rewrite Hn.
  set (t1 := set_next_inode_id (wadd (tr_next_inode_id t) 1) t).
  assert (H1 : stays t t1 i) by (split; eauto).
  pose proof (tree_fresh_id t Hwf Hid) as Hfr.
  destruct (decide (i = tr_next_inode_id t)) as [->|Hne].
  - split; [intros m Hm; congruence..|]. intros p l Hp _. destruct (tw_dom _ Hwf _ _ Hp). congruence.
  - eapply stays_trans; [exact H1|]. eapply (stays_link t1 q x _ n k); try done.
    + by apply tree_wf_allocate.
    + intros m Hm. simpl in Hm. congruence.
Qed.

Lemma parent_inode_eq t q x k : tree_wf t → tr_nodes t !! q = Some k → parent_inode t (q ++ [x]) = Some k.
Proof.
  intros Hwf Hq. unfold parent_inode. rewrite parent_snoc. simpl. unfold lookup_path. rewrite Hq. simpl.
  destruct (tw_dom _ Hwf _ _ Hq) as [n Hn]. rewrite Hn. simpl. by rewrite (nw_id _ _ _ (tw_node _ Hwf _ _ Hn)).
Qed.

Lemma with_new_nodes p n t : tr_nodes (with_new p n t) = <[p := pn_inode_id n]> (tr_nodes t).
Proof. unfold with_new. by rewrite link_at_nodes. Qed.

Lemma dir_inode t q : dir_at t q → ∃ k, tr_nodes t !! q = Some k.
Proof. intros (n & (k & Hk & _)%lookup_path_Some & _). eauto. Qed.

Lemma allocate_insert_eq p n t :
  tr_nodes t !! p = None → pn_inode_id (n (tr_next_inode_id t)) = tr_next_inode_id t →
  (let* inode_id := allocate_inode_id in insert_path_node p (n inode_id)) t =
  (Ok tt, with_new p (n (tr_next_inode_id t)) t).
Proof.
  intros Hp Hn. unfold bind at 1. rewrite allocate_inode_id_eq, insert_path_node_eq.
  rewrite bool_decide_eq_false_2 by (simpl; rewrite Hp; by intros []). done.
Qed.

Lemma resolved_free v r : rp_inode r = (pn_inode_id <$> lookup_path (v_tree v) (rp_guest_path r)) → vfs_ok o v →
  bool_decide (is_Some (rp_inode r)) = false → tr_nodes (v_tree v) !! rp_guest_path r = None.
Proof.
  intros Hr Hv Hf%bool_decide_eq_false. apply lookup_path_None; [apply Hv|]. rewrite Hr in Hf.
  destruct (lookup_path _ _); [|done]. destruct Hf. simpl. eauto.
Qed.

Lemma resolve_at_inode v dirfd path follow req r :
  resolve_at v dirfd path follow req = Ok r → rp_inode r = (pn_inode_id <$> lookup_path (v_tree v) (rp_guest_path r)).
Proof.
  assert (Hw : ∀ rf, resolve_path_with_options rf path (v_tree v) follow = Ok r →
    rp_inode r = (pn_inode_id <$> lookup_path (v_tree v) (rp_guest_path r))).
  { intros rf. unfold resolve_path_with_options. destruct (resolve _ _ _ _); [|done..]. by intros [= <-]. }
  unfold resolve_at. destruct (bool_decide _); [done|]. destruct (_ || _).
  - destruct (resolve_path_with_options _ _ _ _) as [r'| |] eqn:E; [|done..]. simpl.
    destruct (check_traversal_permissions _ _); [|done..]. intros [= ->]. by eapply Hw.
  - destruct (entry_of v dirfd) as [e| |]; [|done..]. simpl. destruct (ok_or (en_path e) _) as [b| |]; [|done..]. simpl.
    destruct (ok_or (lookup_path _ _) _) as [n| |]; [|done..]. simpl. destruct (negb (is_directory n)); [done|].
    destruct (if req then _ else _); [|done..]. simpl. destruct (set_cwd b _) as [rf| |]; [|done..]. simpl.
    destruct (resolve_path_with_options _ _ _ _) as [r'| |] eqn:E; [|done..]. simpl.
    destruct (check_traversal_permissions _ _); [|done..]. intros [= ->]. by eapply Hw.
Qed.

Lemma insert_new_keeps r kind attr v :
  vfs_ok o v → ids_left v → rp_inode r = (pn_inode_id <$> lookup_path (v_tree v) (rp_guest_path r)) →
  (∀ i, new_node (node_new i kind (attr i))) →
  runs (insert_new r kind attr) (λ _, vfs_ok o) (vfs_ok o) v.
Proof.
  intros Hv Hid Hr Hnew. unfold insert_new. cbv zeta. destruct (bool_decide (is_Some (rp_inode r))) eqn:Ef; [done|].
  pose proof (resolved_free v r Hr Hv Ef) as Hfree. run_step. run_step.
  apply runs_bind, runs_lift_keep; [done|]. intros [] Hpar. apply ensure_parent_dir_Ok in Hpar as (q & x & Hp & Hq).
  apply runs_bind, runs_lift_keep; [done|]. intros [] _. rewrite Hp in Hfree |- *.
  destruct (dir_inode _ _ Hq) as [k Hk]. apply runs_bind, runs_on_tree. unfold runs at 1.
  rewrite (allocate_insert_eq _ (λ i, node_new i kind (attr i))) by done. cbv beta iota.
  set (n := node_new _ kind _).
  assert (Hwf : tree_wf (with_new (q ++ [x]) n (v_tree v))) by (apply with_new_wf; [apply Hv|done..|apply Hnew]).
  unfold invalidate_parent_cache. run_step. run_step.
  change (v_tree (set_tree (with_new (q ++ [x]) n (v_tree v)) v)) with (with_new (q ++ [x]) n (v_tree v)).
  rewrite (parent_inode_eq _ q x k).
  - apply runs_invalidate_inode. apply (tree_cache_ok o [k] v); [done|done|apply invalidate_inode_without|].
    intros i Hi. eapply with_new_stays; try done; [apply Hv|set_solver].
  - done.
  - rewrite with_new_nodes, lookup_insert_ne; [done|]. intros E. apply (f_equal length) in E. rewrite length_app in E. simpl in E. lia.
Qed.

Lemma mkdirat_keeps dirfd path mode v :
  vfs_ok o v → ids_left v → runs (mkdirat dirfd path mode) (λ _, vfs_ok o) (vfs_ok o) v.
Proof.
  intros Hv Hid. unfold mkdirat. run_step. run_step. apply runs_bind, runs_lift_keep; [done|]. intros r Hr%resolve_at_inode.
  apply insert_new_keeps; try done. intros i. apply new_directory.
Qed.

Lemma symlinkat_keeps target dirfd path v :
  vfs_ok o v → ids_left v → runs (symlinkat target dirfd path) (λ _, vfs_ok o) (vfs_ok o) v.
Proof.
  intros Hv Hid. unfold symlinkat. case_match; [done|]. run_step. run_step.
  apply runs_bind, runs_lift_keep; [done|]. intros r Hr%resolve_at_inode.
  apply insert_new_keeps; try done. intros i. apply new_symlink.
Qed.

(** ** Opening *)
Definition may_open (v : Vfs) (flags : OpenFlags) : Prop :=
  (∃ fd, next_fd_from (fw_table (v_fds v)) FIRST_ALLOC_FD = Ok fd) ∧
  (create_flag flags = true → directory_flag flags = false ∧ ids_left v).

Lemma new_regular_open i mode flags :
  directory_flag flags = false → open_check (node_new i NFile (regular i mode 0)) flags true = Ok tt.
Proof.
  intros Hd. unfold open_check, is_directory_attr, is_symlink_attr. rewrite Hd. cbn [pn_attr node_new]. by rewrite regular_bits.
Qed.

(** The end of [openat], once the file exists. *)
Lemma insert_open_runs file flags path v :
  vfs_ok o v → plain_file file → (∃ fd, next_fd_from (fw_table (v_fds v)) FIRST_ALLOC_FD = Ok fd) →
  ∃ fd w, fd_wf o w ∧ on_fds (insert_open file flags path) v = (Ok fd, set_fds w v).
Proof.
  intros Hv Hp [fd Hfd]. pose proof (insert_open_keeps o file flags path Hp (v_fds v) (vo_fds _ _ Hv)) as Hk.
  unfold on_fds. unfold wp in Hk.
  pose proof (next_fd_from_spec (fw_table (v_fds v)) FIRST_ALLOC_FD ltac:(done)) as Hs. rewrite Hfd in Hs.
  assert (Heq : insert_open file flags path (v_fds v) = (Ok fd, opened fd file (cloexec_flag flags) flags path (v_fds v))).
  { unfold insert_open, bind, gets, lift, id. rewrite Hfd. apply insert_entry_eq; [|apply Hs]. unfold FIRST_ALLOC_FD in Hs. lia. }
  rewrite Heq in Hk |- *. eauto.
Qed.

Lemma invalidate_opt_without a v :
  ∃ c, invalidate_opt a v = (Ok tt, set_cache c v) ∧ cache_without (option_list a) (v_cache v) c.
Proof.
  destruct a as [i|]; simpl.
  - exists (invalidate_inode i (v_cache v)). split; [done|apply invalidate_inode_without].
  - exists (v_cache v). rewrite set_cache_id. split; [done|apply cache_without_nil].
Qed.

(** Opening the descriptor and invalidating what changed. *)
Lemma open_tail_runs v t file flags path created truncated :
  vfs_ok o v → tree_wf t → plain_file file → (∃ fd, next_fd_from (fw_table (v_fds v)) FIRST_ALLOC_FD = Ok fd) →
  (∀ i, i ∉ option_list created ++ option_list truncated → stays (v_tree v) t i) →
  runs (let* fd := on_fds (insert_open file flags path) in
        do* invalidate_opt created;
        do* invalidate_opt truncated;
        ret fd) (λ _, vfs_ok o) (vfs_ok o) (set_tree t v).
Proof.
  intros Hv Ht Hp Hfd Hs.
  destruct (insert_open_runs file flags path v Hv Hp Hfd) as (fd & w & Hw & Heq).
  assert (Heq' : on_fds (insert_open file flags path) (set_tree t v) = (Ok fd, set_fds w (set_tree t v))).
  { unfold on_fds in *. simpl. destruct (insert_open file flags path (v_fds v)) as [r w'].
    by injection Heq as -> ->. }
  unfold runs, bind. rewrite Heq'.
  destruct (invalidate_opt_without created (set_fds w (set_tree t v))) as (c1 & -> & H1).
  destruct (invalidate_opt_without truncated (set_cache c1 (set_fds w (set_tree t v)))) as (c2 & -> & H2).
  unfold ret. split; simpl; [done|done|].
  eapply cache_ok_step; [apply Hv|eapply cache_without_trans; [exact H1|exact H2]|exact Hs].
Qed.

(** Truncating through a path. *)
Lemma truncate_path_cases t path n :
  tree_wf t → lookup_path t path = Some n →
  (∃ n', truncate_node n = Ok n' ∧
     update_path path truncate_node t = (Ok tt, set_inodes (insert (pn_inode_id n) n') t) ∧
     tree_wf (set_inodes (insert (pn_inode_id n) n') t) ∧
     (∀ i, i ≠ pn_inode_id n → stays t (set_inodes (insert (pn_inode_id n) n') t) i) ∧
     lookup_path (set_inodes (insert (pn_inode_id n) n') t) path = Some n' ∧ same_shape n n') ∨
  ((∀ u, truncate_node n ≠ Ok u) ∧ (∀ u, (update_path path truncate_node t).1 ≠ Ok u) ∧
   (update_path path truncate_node t).2 = t).
Proof.
  intros Hwf Hn. pose proof (lookup_path_id _ _ _ Hwf Hn) as Hid.
  assert (Hi : tr_inodes t !! pn_inode_id n = Some n).
  { apply lookup_path_Some in Hn as (i & Hp & Hi). congruence. }
  unfold update_path, update_inode, bind, gets, lift, id, lookup_inode. rewrite Hid. simpl. rewrite Hi. simpl.
  destruct (truncate_node n) as [n'| |] eqn:E; [left|right; naive_solver..].
  pose proof (set_len_shape _ _ _ E) as Hs. exists n'. split_and!; try done.
  - by eapply tree_wf_update.
  - intros i Hne. eapply stays_update; [apply Hwf|done|by apply same_shape_alike|done].
  - rewrite lookup_path_set_inode. by rewrite decide_True.
Qed.

Lemma file_ref_plain id node path kind :
  plain_file {| fr_inode := {| in_id := id; in_backend := inode_backend_for_path_node node path |};
                fr_kind := file_kind_of kind |}.
Proof.
  split; simpl.
  - unfold inode_backend_for_path_node. by destruct (pn_kind node).
  - by destruct kind as [| | |[]|].
Qed.

Lemma runs_lift_or {A} (x : outcome A VfsError) (Q : A → Vfs → Prop) (R : Vfs → Prop) v :
  (∀ a, x = Ok a → Q a v) → ((∀ a, x ≠ Ok a) → R v) → runs (lift x) Q R v.
Proof. unfold runs, lift. destruct x; naive_solver. Qed.

(** From the node on: checks, truncation, descriptor.  [changed] is what creation changed. *)
Lemma open_rest_runs v t path n flags created :
  vfs_ok o v → tree_wf t → lookup_path t path = Some n →
  (∃ fd, next_fd_from (fw_table (v_fds v)) FIRST_ALLOC_FD = Ok fd) →
  (∀ i, i ∉ option_list created → stays (v_tree v) t i) →
  (created ≠ None → open_check n flags true = Ok tt ∧ ∃ u, truncate_node n = Ok u) →
  runs (let* v := gets id in
        let* node := lift (ok_or (lookup_path (v_tree v) path) NoEntry) in
        let* _ := lift (open_check node flags (bool_decide (is_Some created))) in
        let* truncated_inode :=
          if truncate_flag flags && can_write flags && is_file_kind (pn_kind node) then
            do* on_tree (update_path path truncate_node); ret (Some (pn_inode_id node))
          else ret None in
        let* v := gets id in
        let* node := lift (ok_or (lookup_path (v_tree v) path) NoEntry) in
        let* fd := on_fds (insert_open
            {| fr_inode := {| in_id := pn_inode_id node;
                              in_backend := inode_backend_for_path_node node (host_path v path) |};
               fr_kind := file_kind_of (pn_kind node) |} flags (Some path)) in
        do* invalidate_opt created;
        do* invalidate_opt truncated_inode;
        ret fd) (λ _, vfs_ok o) (vfs_ok o) (set_tree t v).
Proof.
  intros Hv Ht Hn Hfd Hs Hc.
  assert (Hold : created = None → vfs_ok o (set_tree t v)).
  { intros ->. destruct Hv as [H1 H2 H3]. split; simpl; [done|done|].
    eapply cache_ok_step; [exact H3|apply cache_without_nil|exact Hs]. }
  run_step. run_step. apply runs_bind, runs_lift_or; simpl v_tree; rewrite Hn; [|naive_solver].
  intros m [= <-].
  apply runs_bind, runs_lift_or.
  2: { intros He. destruct created as [k|]; [|by apply Hold]. destruct (Hc ltac:(done)) as [Hok _]. by destruct (He tt). }
  intros [] _. run_step.
  destruct (truncate_flag flags && can_write flags && is_file_kind (pn_kind n)).
  - run_step. apply runs_on_tree. unfold runs at 1. simpl v_tree.
    destruct (truncate_path_cases t path n Ht Hn) as [(n' & Htr & Heq & Hwf' & Hst & Hl & Hsh)|(Hno & He1 & He2)].
    + rewrite Heq. run_step. run_step. apply runs_bind, runs_lift_or; simpl v_tree; rewrite Hl; [|naive_solver].
      intros m [= <-]. change (set_tree ?a (set_tree t v)) with (set_tree a v).
      apply open_tail_runs; [done|done|apply file_ref_plain|done|].
      intros i [Hi1 Hi2]%not_elem_of_app. eapply stays_trans; [by apply Hs|apply Hst]. simpl in Hi2. set_solver.
    + destruct created as [k|]; [destruct (Hc ltac:(done)) as [_ [u Hu]]; by destruct (Hno u)|].
      destruct (update_path path truncate_node t) as [[u| |] t'] eqn:Eu; simpl in *; [naive_solver|subst t'; by apply Hold..].
  - run_step. run_step. run_step. apply runs_bind, runs_lift_or; simpl v_tree; rewrite Hn; [|naive_solver].
    intros m [= <-]. apply open_tail_runs; [done|done|apply file_ref_plain|done|].
    intros i [Hi1 _]%not_elem_of_app. by apply Hs.
Qed.

Lemma check_parent_lookup t p : check_parent_write_permissions t p ≠ Panic.
Proof.
  unfold check_parent_write_permissions. destruct (ok_or (parent p) InvalidPath) as [q| |] eqn:E; [|done|by destruct (parent p)].
  simpl. destruct (lookup_path t q) as [n|]; [|done]. simpl. destruct (negb (is_directory n)); [done|].
  unfold check_access. by repeat case_match.
Qed.

Lemma openat_keeps dirfd path flags mode v :
  vfs_ok o v → may_open v flags → runs (openat dirfd path flags mode) (λ _, vfs_ok o) (vfs_ok o) v.
Proof.
  intros Hv [Hfd Hcr]. unfold openat. run_step. run_step. apply runs_bind, runs_lift_keep; [done|].
  intros r Hr%resolve_at_inode. cbv zeta. apply runs_bind.
  unfold open_create. destruct (rp_inode r) as [i|] eqn:Ei.
  - destruct (create_flag flags && exclusive flags); [done|]. run_step.
    destruct (lookup_path (v_tree v) (rp_guest_path r)) as [n|] eqn:En.
    2: { run_step. run_step. apply runs_bind, runs_lift_keep; [done|]. intros m Hm. by rewrite En in Hm. }
    assert (Hid : set_tree (v_tree v) v = v) by (by destruct v). rewrite <- Hid.
    eapply (open_rest_runs v (v_tree v) _ n); try done; [apply Hv|intros; apply stays_refl].
  - destruct (negb (create_flag flags)) eqn:Ec; [done|]. apply negb_false_iff in Ec.
    destruct (Hcr Ec) as [Hdir Hid]. run_step. run_step.
    apply runs_bind, runs_lift_keep; [done|]. intros [] Hpar. apply ensure_parent_dir_Ok in Hpar as (q & x & Hp & Hq).
    apply runs_bind, runs_lift_keep; [done|]. intros [] _. rewrite Hp in *.
    assert (Hfree : tr_nodes (v_tree v) !! (q ++ [x]) = None).
    { rewrite <- Hp. apply (resolved_free v r); [by rewrite Ei, Hp|done|]. by rewrite Ei. }
    destruct (dir_inode _ _ Hq) as [k Hk].
    set (m := without_bits mode (v_umask v)). set (i := tr_next_inode_id (v_tree v)).
    set (n := node_new i NFile (regular i m 0)).
    assert (Heq : create_resolved_file (q ++ [x]) m v = (Ok tt, set_tree (with_new (q ++ [x]) n (v_tree v)) v)).
    { unfold create_resolved_file, on_tree. unfold bind at 1, gets, id. unfold bind at 1, lift.
      rewrite (proj2 (ensure_parent_dir_Ok _ _)) by eauto.
      by rewrite (allocate_insert_eq _ (λ i, node_new i NFile (regular i m 0))). }
    apply runs_bind. unfold runs at 1. rewrite Heq. run_step. run_step. run_step.
    assert (Hwf : tree_wf (with_new (q ++ [x]) n (v_tree v))).
    { apply with_new_wf; [apply Hv|done..|apply new_file]. }
    change (v_tree (set_tree (with_new (q ++ [x]) n (v_tree v)) v)) with (with_new (q ++ [x]) n (v_tree v)).
    rewrite (parent_inode_eq _ q x k); [|done|].
    2: { rewrite with_new_nodes, lookup_insert_ne; [done|]. intros E. apply (f_equal length) in E. rewrite length_app in E. simpl in E. lia. }
    eapply (open_rest_runs v _ _ n); try done.
    + unfold lookup_path. rewrite with_new_nodes, lookup_insert_eq. unfold with_new. simpl. rewrite link_at_inodes. simpl. by rewrite lookup_insert_eq.
    + intros j Hj. eapply with_new_stays; try done; [apply Hv|]. simpl in Hj. set_solver.
    + intros _. split; [by apply new_regular_open|]. by eexists.
Qed.

(** ** Closing *)
Lemma close_with_file_keeps fd : keeps o (close_with_file fd).
Proof.
  intros v Hv. unfold close_with_file. apply runs_bind, runs_on_fds. unfold runs at 1.
  pose proof (close_keeps o fd (v_fds v) (vo_fds _ _ Hv)) as Hc. unfold wp in Hc.
  destruct (close fd (v_fds v)) as [[f| |] w]; [|by apply set_fds_ok|done].
  assert (Hw : vfs_ok o (set_fds w v)) by by apply set_fds_ok. cbv zeta. run_step. run_step.
  simpl v_tree. destruct (bool_decide _ && (link_count (v_tree v) (in_id (fr_inode f)) =? 0)%nat) eqn:E; [|done].
  apply andb_true_iff in E as [_ Hl%Nat.eqb_eq]. rewrite link_count_links in Hl.
  apply runs_bind, runs_on_tree. unfold runs at 1, modify. apply runs_bind, runs_invalidate_inode. run_step.
  apply (tree_cache_ok o [in_id (fr_inode f)] (set_fds w v)); [done| |apply invalidate_inode_without|].
  - by apply tree_wf_delete; [apply Hv|].
  - intros j Hj. apply stays_delete; [apply Hv|done|set_solver].
Qed.
End links.
