(* ===== verification/VfsMoves.v ===== *)
(** * mcr-vfs: links and renames keep the invariant *)

From S2P Require Import Prelude SysAbi Bytes VfsTypes VfsPath VfsFd VfsCache VfsSystem VfsTree VfsResolve VfsFdOps VfsFdWf VfsOk VfsLinks.
From stdpp Require Import base gmap list strings sorting.
From Stdlib Require Import ZArith Lia.
Open Scope Z_scope.

Implicit Types (p q : GuestPath).

Section moves.
Context `{QuietHost} (o : Others).

(** ** Removing a name *)
Definition may_go t p n : Prop := is_directory n = true → ∀ y, tr_nodes t !! (p ++ [y]) = None.

(** The tree once the name is gone, and its inode too when nothing needs it. *)
Definition without_link (open : nat) (p : GuestPath) (i : Z) (t : PathTree) : PathTree :=
  let t1 := drop_one (unlink_at p t) i in
  if (link_count t1 i =? 0)%nat && (open =? 0)%nat then set_inodes (delete i) t1 else t1.

Lemma without_link_nodes n p i t : tr_nodes (without_link n p i t) = delete p (tr_nodes t).
Proof. unfold without_link. by destruct (_ && _); simpl; rewrite unlink_at_nodes. Qed.

Lemma without_link_wf n t q x i m :
  tree_wf t → tr_nodes t !! (q ++ [x]) = Some i → tr_inodes t !! i = Some m → may_go t (q ++ [x]) m →
  tree_wf (without_link n (q ++ [x]) i t).
Proof.
  intros Hwf Hp Hm Hgo. pose proof (tree_wf_unlink t _ q x i m Hwf eq_refl Hp Hm Hgo) as Hwf'.
  unfold without_link. destruct (link_count _ i =? 0)%nat eqn:El; [|done]. simpl. destruct (n =? 0)%nat; [|done].
  apply Nat.eqb_eq in El. by apply tree_wf_delete.
Qed.

Lemma without_link_stays n t q x i m k j :
  tree_wf t → tr_nodes t !! q = Some k → tr_nodes t !! (q ++ [x]) = Some i → tr_inodes t !! i = Some m →
  may_go t (q ++ [x]) m → j ≠ k → j ≠ i → stays t (without_link n (q ++ [x]) i t) j.
Proof.
  intros Hwf Hq Hp Hm Hgo Hk Hi. pose proof (tree_wf_unlink t _ q x i m Hwf eq_refl Hp Hm Hgo) as Hwf'.
  assert (H1 : stays t (drop_one (unlink_at (q ++ [x]) t) i) j) by (by eapply stays_unlink).
  unfold without_link. destruct (link_count _ i =? 0)%nat eqn:El; [|done]. simpl. destruct (n =? 0)%nat; [|done].
  apply Nat.eqb_eq in El. eapply stays_trans; [exact H1|]. by apply stays_delete.
Qed.

(** Nodes other than the dropped one keep their place. *)
Lemma without_link_lookup n t q x i m p :
  tree_wf t → tr_nodes t !! (q ++ [x]) = Some i → tr_inodes t !! i = Some m → may_go t (q ++ [x]) m →
  p ≠ q ++ [x] →
  (∃ m', lookup_path t p = Some m' ∧
    ∃ m'', lookup_path (without_link n (q ++ [x]) i t) p = Some m'' ∧ alike m' m'' ∧ pn_kind m'' = pn_kind m') ∨
  (lookup_path t p = None ∧ lookup_path (without_link n (q ++ [x]) i t) p = None).
Proof.
  intros Hwf Hp Hm Hgo Hne.
  assert (H1 : lookup_path (drop_one (unlink_at (q ++ [x]) t) i) p =
    if decide (tr_nodes t !! p = Some i) then Some (set_attr decrement_link_count m) else lookup_path t p).
  { rewrite (lookup_unlink t _ i p m Hm). by rewrite decide_False. }
  assert (H2 : lookup_path (without_link n (q ++ [x]) i t) p = lookup_path (drop_one (unlink_at (q ++ [x]) t) i) p).
  { unfold without_link. destruct (link_count _ i =? 0)%nat eqn:El; [|done]. simpl. destruct (n =? 0)%nat; [|done].
    apply Nat.eqb_eq in El. rewrite link_count_links in El. pose proof (proj1 (links_zero _ _) El) as Hno.
    unfold lookup_path. simpl in *. destruct (tr_nodes (unlink_at (q ++ [x]) t) !! p) as [j|] eqn:E; [|done]. simpl.
    rewrite lookup_delete_ne; [done|]. intros <-. by apply (Hno p). }
  rewrite H2, H1. destruct (decide (tr_nodes t !! p = Some i)) as [Hpi|Hpi].
  - left. exists m. split; [apply lookup_path_Some; eauto|]. eexists. split_and!; [done| |done]. by split.
  - destruct (lookup_path t p) as [m'|]; [left|by right]. exists m'. split; [done|]. exists m'. by split_and!.
Qed.

Lemma drop_link_eq i v :
  drop_link i v =
  (Ok tt, let t1 := drop_one (v_tree v) i in
          set_tree (if (link_count t1 i =? 0)%nat && (open_count (fw_table (v_fds v)) i =? 0)%nat
                    then set_inodes (delete i) t1 else t1) v).
Proof. unfold drop_link, bind, on_tree, modify, gets, id. simpl. by destruct (_ && _). Qed.

Lemma set_tree_twice a b v : set_tree a (set_tree b v) = set_tree a v.
Proof. done. Qed.

Lemma unlinkat_keeps dirfd path flags : keeps o (unlinkat dirfd path flags).
Proof.
  intros v Hv. unfold unlinkat. destruct (negb _); [done|]. cbv zeta. run_step. run_step.
  apply runs_bind, runs_lift_keep; [done|]. intros r Hr%resolve_at_inode.
  destruct (is_root (rp_guest_path r)) eqn:Eroot; [done|]. apply bool_decide_eq_false in Eroot.
  apply runs_bind, runs_lift_keep; [done|]. intros n Hn.
  destruct (lookup_path (v_tree v) (rp_guest_path r)) as [n'|] eqn:En; [|done]. injection Hn as ->.
  apply runs_bind, runs_lift_keep; [done|]. intros [] Hkind. apply runs_bind, runs_lift_keep; [done|]. intros [] Hperm.
  destruct (path_cases (rp_guest_path r)) as [|(q & x & Hp)]; [done|]. rewrite Hp in *.
  apply lookup_path_Some in En as (i & Hi & Hin).
  destruct (dir_inode _ _ (tw_parent _ (vo_tree _ _ Hv) _ _ _ Hi)) as [k Hk].
  assert (Hgo : may_go (v_tree v) (q ++ [x]) n).
  { intros Hd. apply is_empty_directory_spec; [apply Hv|].
    destruct (has_bits flags AT_REMOVEDIR); rewrite Hd in Hkind; [|done]. by destruct (is_empty_directory _ _). }
  apply runs_bind, runs_on_tree. unfold runs at 1. rewrite remove_path_link_eq, Hi. apply runs_bind. unfold runs at 1.
  rewrite drop_link_eq. cbv zeta. rewrite set_tree_twice. simpl v_tree. simpl v_fds.
  change (if (_ =? 0)%nat && (open_count ?f i =? 0)%nat then _ else _)
    with (without_link (open_count f i) (q ++ [x]) i (v_tree v)).
  rewrite (parent_inode_eq _ q x k) by (done || apply Hv). apply runs_invalidate_inodes.
  eapply (tree_cache_ok o ([k] ++ [i]) v); [done| |apply invalidate_inodes_without|].
  - by eapply without_link_wf; [apply Hv|..].
  - intros j [Hj1 Hj2]%not_elem_of_app. eapply without_link_stays; try done; [apply Hv|set_solver|set_solver].
Qed.

(** ** Hard links *)
Lemma linkat_keeps olddirfd oldpath newdirfd newpath flags : keeps o (linkat olddirfd oldpath newdirfd newpath flags).
Proof.
  intros v Hv. unfold linkat. destruct (negb _); [done|]. destruct (_ && _); [done|]. run_step. run_step.
  apply runs_bind, runs_lift_keep; [done|]. intros old _. apply runs_bind, runs_lift_keep; [done|]. intros i Hi.
  apply runs_bind, runs_lift_keep; [done|]. intros n Hn.
  unfold lookup_inode in Hn. destruct (tr_inodes (v_tree v) !! i) as [n'|] eqn:En; [|done]. injection Hn as ->.
  destruct (is_directory n) eqn:Ed; [done|].
  apply runs_bind, runs_lift_keep; [done|]. intros r Hr%resolve_at_inode. cbv zeta.
  destruct (bool_decide (is_Some (rp_inode r))) eqn:Ef; [done|].
  pose proof (resolved_free o v r Hr Hv Ef) as Hfree.
  apply runs_bind, runs_lift_keep; [done|]. intros [] Hpar. apply ensure_parent_dir_Ok in Hpar as (q & x & Hp & Hq).
  apply runs_bind, runs_lift_keep; [done|]. intros [] _. rewrite Hp in *. destruct (dir_inode _ _ Hq) as [k Hk].
  apply runs_bind, runs_on_tree. unfold update_inode. run_step. run_step. unfold lookup_inode.
  apply runs_bind, runs_lift; [|by destruct v]. intros m Hm. rewrite En in Hm. injection Hm as <-.
  apply runs_bind, runs_lift; [|by destruct v]. intros n' Hn'.
  destruct (increment_link_count (pn_attr n)) as [a| |] eqn:Ea; [|done..]. injection Hn' as <-.
  apply increment_keeps in Ea as [Hbits Hnl]. run_step. apply runs_bind, runs_on_tree. unfold runs at 1.
  set (n' := set_attr (λ _, a) n). simpl v_tree. rewrite insert_link_eq.
  rewrite bool_decide_eq_false_2 by (simpl; rewrite Hfree; by intros []).
  rewrite bool_decide_eq_true_2 by (simpl; rewrite lookup_insert_eq; eauto). simpl negb. cbv iota.
  run_step. run_step. rewrite set_tree_twice. simpl v_tree.
  set (t' := link_at (q ++ [x]) i (set_inodes (insert i n') (v_tree v))).
  assert (Hwf : tree_wf t').
  { eapply (tree_wf_link _ _ q x i n); try done; [apply Hv|exact (nw_id _ _ _ (tw_node _ (vo_tree _ _ Hv) _ _ En))]. }
  rewrite (parent_inode_eq t' q x k); [|done|].
  2: { unfold t'. rewrite link_at_nodes. simpl. rewrite lookup_insert_ne; [done|]. intros E. apply (f_equal length) in E. rewrite length_app in E. simpl in E. lia. }
  apply runs_invalidate_inodes. eapply (tree_cache_ok o ([k] ++ [i]) v); [done|done|apply invalidate_inodes_without|].
  intros j [Hj1 Hj2]%not_elem_of_app. eapply (stays_link _ q x i n' k); try done; [apply Hv| |set_solver|set_solver].
  intros m Hm. rewrite En in Hm. injection Hm as <-. by split.
Qed.

(** ** Renaming *)
Lemma apart t old new n :
  tree_wf t → lookup_path t old = Some n → old ≠ new → (∀ q x, new = q ++ [x] → dir_at t q) →
  (is_directory n = true → starts_with new old = false) → ¬ old `prefix_of` new.
Proof.
  intros Hwf Hn Hne Hpar Hd [r Hr].
  assert (Hnd : is_directory n = false).
  { destruct (is_directory n) eqn:E; [|done]. specialize (Hd eq_refl). apply starts_with_false in Hd.
    destruct Hd. by exists r. }
  destruct (path_cases r) as [->|(s & x & ->)]; [by rewrite app_nil_r in Hr|].
  rewrite app_assoc in Hr. destruct (prefix_dir t old (old ++ s) Hwf (Hpar _ _ Hr)) as (m & Hm & Hmd);
    [by apply prefix_app_r|]. congruence.
Qed.

Lemma on_tree_eq {A} (m : TreeM A) v r t : m (v_tree v) = (r, t) → on_tree m v = (r, set_tree t v).
Proof. intros Hm. unfold on_tree. by rewrite Hm. Qed.

Lemma move_path_eq v old new :
  tree_wf (v_tree v) → can_move (v_tree v) old new →
  move_path old new v =
  (Ok tt, set_fds (on_table (rebind_paths old new) (v_fds v)) (set_tree (moved_tree (v_tree v) old new) v)).
Proof.
  intros Hwf Hcm. unfold move_path, bind at 1.
  rewrite (on_tree_eq _ v _ _ (move_eq (v_tree v) old new Hwf Hcm)). done.
Qed.

(** The end of a rename: the tree [t] is the one in which the target is free. *)
Lemma rename_tail v t old new target k1 k2 :
  vfs_ok o v → tree_wf t → can_move t old new →
  (∀ q x, old = q ++ [x] → tr_nodes t !! q = Some k1) → (∀ q x, new = q ++ [x] → tr_nodes t !! q = Some k2) →
  (∀ i, i ≠ k2 → i ∉ option_list target → stays (v_tree v) t i) →
  runs (let* v := gets id in
        let old_parent := parent_inode (v_tree v) old in
        let new_parent := parent_inode (v_tree v) new in
        do* move_path old new;
        invalidate_inode_caches (option_list old_parent ++ option_list new_parent ++ option_list target))
    (λ _, vfs_ok o) (vfs_ok o) (set_tree t v).
Proof.
  intros Hv Ht Hcm Hk1 Hk2 Hs. run_step. run_step. cbv zeta.
  destruct (path_cases old) as [E|(q1 & x1 & E1)]; [by destruct (cm_old _ _ _ Hcm)|].
  destruct (path_cases new) as [E|(q2 & x2 & E2)]; [by destruct (cm_new _ _ _ Hcm)|].
  simpl v_tree.
  replace (parent_inode t old) with (Some k1) by (rewrite E1; symmetry; apply parent_inode_eq; eauto).
  replace (parent_inode t new) with (Some k2) by (rewrite E2; symmetry; apply parent_inode_eq; eauto).
  apply runs_bind. unfold runs at 1. rewrite (move_path_eq (set_tree t v)) by done.
  apply runs_invalidate_inodes.
  eapply (tree_cache_ok o _ (set_fds (on_table (rebind_paths old new) (v_fds v)) v)); [| |apply invalidate_inodes_without|].
  - apply set_fds_ok; [done|]. apply rebind_paths_wf, Hv.
  - by apply moved_tree_wf.
  - simpl. intros i Hi. rewrite !not_elem_of_cons in Hi. destruct Hi as (Hi1 & Hi2 & Hi3).
    eapply stays_trans; [by apply Hs|]. by eapply stays_moved.
Qed.

Lemma rename_exchange_keeps v old new n m :
  vfs_ok o v → lookup_path (v_tree v) old = Some n → lookup_path (v_tree v) new = Some m → old ≠ new →
  runs (do* exchange_paths old (pn_inode_id n) new (pn_inode_id m); invalidate_vfs_caches)
    (λ _, vfs_ok o) (vfs_ok o) v.
Proof.
  intros Hv Hn Hm Hne. apply runs_bind. unfold exchange_paths. run_step. run_step.
  pose proof Hn as (i & Hi & Hin)%lookup_path_Some. pose proof Hm as (j & Hj & Hjm)%lookup_path_Some.
  rewrite (nw_id _ _ _ (tw_node _ (vo_tree _ _ Hv) _ _ Hin)), (nw_id _ _ _ (tw_node _ (vo_tree _ _ Hv) _ _ Hjm)).
  unfold lookup_inode. rewrite Hin, Hjm.
  apply runs_bind, runs_lift_keep; [done|]. intros ? [= <-]. apply runs_bind, runs_lift_keep; [done|]. intros ? [= <-].
  destruct (is_directory n && starts_with new old) eqn:E1; [done|].
  destruct (is_directory m && starts_with old new) eqn:E2; [done|].
  assert (Hpar : ∀ p k, tr_nodes (v_tree v) !! p = Some k → ∀ q x, p = q ++ [x] → dir_at (v_tree v) q).
  { intros p k Hp q x ->. by eapply (tw_parent _ (vo_tree _ _ Hv)). }
  assert (Hce : can_exchange (v_tree v) old new).
  { split; eauto.
    - eapply apart; try done; [apply Hv|by eapply Hpar|]. intros Hd. by rewrite Hd in E1.
    - eapply apart; try done; [apply Hv|by eapply Hpar|]. intros Hd. by rewrite Hd in E2. }
  assert (Hps : ∀ p a, lookup_path (v_tree v) p = Some a →
    (if is_directory a then paths_under_prefix (v_tree v) p else [p]) = paths_under_prefix (v_tree v) p).
  { intros p a Ha. destruct (is_directory a) eqn:Ed; [done|]. symmetry. by eapply paths_under_file; [apply Hv|..]. }
  apply runs_bind. unfold runs at 1.
  erewrite on_tree_eq; [|unfold bind at 1, gets, id; rewrite (Hps _ _ Hn), (Hps _ _ Hm); apply exchange_eq; [apply Hv|done]].
  apply runs_bind. unfold runs, on_fds, modify, invalidate_vfs_caches, on_cache. simpl.
  destruct Hv as [A B C]. split; simpl; [by apply exchanged_tree_wf|by do 2 apply rebind_paths_wf|apply invalidate_all_ok].
Qed.

Lemma resolved_node v r i :
  vfs_ok o v → rp_inode r = (pn_inode_id <$> lookup_path (v_tree v) (rp_guest_path r)) → rp_inode r = Some i →
  ∃ n, lookup_path (v_tree v) (rp_guest_path r) = Some n ∧ pn_inode_id n = i ∧
       tr_nodes (v_tree v) !! rp_guest_path r = Some i ∧ tr_inodes (v_tree v) !! i = Some n.
Proof.
  intros Hv Hr Hi. rewrite Hr in Hi. destruct (lookup_path _ _) as [n|] eqn:En; [|done]. injection Hi as <-.
  exists n. split_and!; try done; [by apply lookup_path_id, En; apply Hv|].
  apply lookup_path_Some in En as (j & Hj & Hn). by rewrite (nw_id _ _ _ (tw_node _ (vo_tree _ _ Hv) _ _ Hn)).
Qed.

(** Replacing the target of a rename. *)
Lemma remove_target_eq v new i m :
  tr_nodes (v_tree v) !! new = Some i → tr_inodes (v_tree v) !! i = Some m →
  remove_existing_rename_target new i v =
  if is_directory m && negb (is_empty_directory (v_tree v) new) then (Err NotEmpty, v)
  else (Ok tt, set_tree (without_link (open_count (fw_table (v_fds v)) i) new i (v_tree v)) v).
Proof.
  intros Hi Hm. unfold remove_existing_rename_target. unfold bind at 1, gets, id. unfold bind at 1, lift, lookup_inode.
  rewrite Hm. simpl ok_or. cbv iota. destruct (_ && _); [done|]. unfold bind at 1.
  rewrite (on_tree_eq _ v (Ok i) (unlink_at new (v_tree v))); [by rewrite drop_link_eq|].
  by rewrite remove_path_link_eq, Hi.
Qed.

(** The code of [renameat2] after its checks. *)
Definition rename_to (ro rn : ResolvedPath) (i : Z) : VfsM unit :=
  let old := rp_guest_path ro in
  let new := rp_guest_path rn in
  let* v := gets id in
  do* match rp_inode rn with
      | Some target =>
          let* _ := lift (validate_rename_replacement (v_tree v) i target new) in
          remove_existing_rename_target new target
      | None => ret tt
      end;
  let* v := gets id in
  let old_parent := parent_inode (v_tree v) old in
  let new_parent := parent_inode (v_tree v) new in
  do* move_path old new;
  invalidate_inode_caches (option_list old_parent ++ option_list new_parent ++ option_list (rp_inode rn)).

(** What the checks establish. *)
Record rename_ready (v : Vfs) (ro rn : ResolvedPath) (exchange : bool) (n : PathNode) : Prop := {
  rr_old : rp_guest_path ro ≠ [];
  rr_new : rp_guest_path rn ≠ [];
  rr_ne : rp_guest_path ro ≠ rp_guest_path rn;
  rr_node : lookup_path (v_tree v) (rp_guest_path ro) = Some n;
  rr_target : rp_inode rn = (pn_inode_id <$> lookup_path (v_tree v) (rp_guest_path rn));
  rr_parent q x : rp_guest_path rn = q ++ [x] → dir_at (v_tree v) q;
  rr_apart : exchange = false → ¬ rp_guest_path ro `prefix_of` rp_guest_path rn;
}.

Lemma lift_inv {A B} (x : outcome A VfsError) (k : A → VfsM B) v r v' :
  (let* a := lift x in k a) v = (r, v') →
  ((∀ u, r ≠ Ok u) ∧ v' = v) ∨ ∃ a, x = Ok a ∧ k a v = (r, v').
Proof. unfold bind, lift. destruct x; [eauto|intros [= <- <-]; by left..]. Qed.

(** Either a check fails and nothing happens, or the code goes on with what it checked. *)
Lemma renameat2_cases v olddirfd oldpath newdirfd newpath flags (exchange := has_bits flags RENAME_EXCHANGE) :
  vfs_ok o v →
  (∃ r, (∀ u, r ≠ Ok u) ∧ renameat2 olddirfd oldpath newdirfd newpath flags v = (r, v)) ∨
  ∃ ro rn, resolve_at v olddirfd oldpath false false = Ok ro ∧ resolve_at v newdirfd newpath false false = Ok rn ∧
    ((rp_guest_path ro = rp_guest_path rn ∧ renameat2 olddirfd oldpath newdirfd newpath flags v = (Ok tt, v)) ∨
     ∃ n, rename_ready v ro rn exchange n ∧
       renameat2 olddirfd oldpath newdirfd newpath flags v =
       (if exchange then
          let* new_inode := lift (ok_or (rp_inode rn) NoEntry) in
          do* exchange_paths (rp_guest_path ro) (pn_inode_id n) (rp_guest_path rn) new_inode;
          invalidate_vfs_caches
        else rename_to ro rn (pn_inode_id n)) v).
Proof.
  intros Hv. destruct (renameat2 olddirfd oldpath newdirfd newpath flags v) as [r v'] eqn:E.
  assert (Hfail : (∀ u, r ≠ Ok u) ∧ v' = v → ∃ r', (∀ u, r' ≠ Ok u) ∧ (r, v') = (r', v)) by (intros [? ->]; eauto).
  unfold renameat2 in E. fold exchange in E. cbv zeta in E.
  destruct (negb _); [left; apply Hfail; by injection E as <- <-|].
  destruct (_ && exchange); [left; apply Hfail; by injection E as <- <-|]. unfold bind at 1, gets, id in E.
  apply lift_inv in E as [?|(ro & Hro & E)]; [by left; apply Hfail|].
  apply lift_inv in E as [?|(rn & Hrn & E)]; [by left; apply Hfail|].
  pose proof (resolve_at_inode _ _ _ _ _ _ Hro) as Ho. pose proof (resolve_at_inode _ _ _ _ _ _ Hrn) as Hn.
  destruct (is_root (rp_guest_path ro) || is_root (rp_guest_path rn)) eqn:Er; [left; apply Hfail; by injection E as <- <-|].
  apply orb_false_iff in Er as [E1%bool_decide_eq_false E2%bool_decide_eq_false].
  apply lift_inv in E as [?|(i & Hi & E)]; [by left; apply Hfail|].
  destruct (rp_inode ro) as [j|] eqn:Ei; [|done]. injection Hi as ->. rewrite <- Ei in Ho.
  destruct (resolved_node v ro i Hv Ho Ei) as (n & Hold & Hid & _ & Hin).
  destruct (bool_decide (rp_guest_path ro = rp_guest_path rn)) eqn:Es.
  { right. exists ro, rn. split_and!; [done|done|left]. apply bool_decide_eq_true in Es. split; [done|]. by injection E as <- <-. }
  apply bool_decide_eq_false in Es.
  apply lift_inv in E as [?|(m & Hm & E)]; [by left; apply Hfail|].
  unfold lookup_inode in Hm. rewrite Hin in Hm. injection Hm as <-.
  destruct (_ && bool_decide (is_Some (rp_inode rn))); [left; apply Hfail; by injection E as <- <-|].
  destruct (is_directory n && starts_with _ _ && negb exchange) eqn:Einto; [left; apply Hfail; by injection E as <- <-|].
  apply lift_inv in E as [?|([] & Hpar & E)]; [by left; apply Hfail|].
  apply ensure_parent_dir_Ok in Hpar as (q & x & Hnew & Hq).
  apply lift_inv in E as [?|(? & _ & E)]; [by left; apply Hfail|].
  apply lift_inv in E as [?|(? & _ & E)]; [by left; apply Hfail|].
  assert (Hpar : ∀ q' x', rp_guest_path rn = q' ++ [x'] → dir_at (v_tree v) q').
  { intros q' x' Eq. rewrite Hnew in Eq. by apply app_inj_tail in Eq as [<- _]. }
  right. exists ro, rn. split_and!; [done|done|right]. exists n. split; [|by rewrite <- E, Hid; destruct exchange].
  split; try done. intros Hx. eapply apart; try done; [apply Hv|].
  intros Hd. by rewrite Hd, Hx, andb_true_r in Einto.
Qed.

(** *** Onto a free name *)
Lemma ready_can_move v ro rn n :
  vfs_ok o v → rename_ready v ro rn false n → rp_inode rn = None →
  can_move (v_tree v) (rp_guest_path ro) (rp_guest_path rn).
Proof.
  intros Hv [H1 H2 H3 H4 H5 H6 H7] Hfree. split; try done; auto.
  - apply lookup_path_Some in H4 as (i & Hi & _). eauto.
  - apply (resolved_free o v rn); [done|done|]. by rewrite Hfree.
Qed.

Lemma dir_above v p n : vfs_ok o v → p ≠ [] → lookup_path (v_tree v) p = Some n →
  ∃ k, ∀ q x, p = q ++ [x] → tr_nodes (v_tree v) !! q = Some k.
Proof.
  intros Hv Hp (i & Hi & _)%lookup_path_Some. destruct (path_cases p) as [|(q & x & ->)]; [done|].
  destruct (dir_inode _ _ (tw_parent _ (vo_tree _ _ Hv) _ _ _ Hi)) as [k Hk]. exists k.
  intros q' x' E. by apply app_inj_tail in E as [<- _].
Qed.

Lemma rename_to_free v ro rn n i :
  vfs_ok o v → rename_ready v ro rn false n → rp_inode rn = None →
  runs (rename_to ro rn i) (λ _, vfs_ok o) (vfs_ok o) v.
Proof.
  intros Hv Hr Hfree. pose proof (ready_can_move v ro rn n Hv Hr Hfree) as Hcm.
  destruct (dir_above v _ n Hv (rr_old _ _ _ _ _ Hr) (rr_node _ _ _ _ _ Hr)) as [k1 Hk1].
  destruct (path_cases (rp_guest_path rn)) as [E|(q & x & Hnew)]; [by destruct (rr_new _ _ _ _ _ Hr)|].
  destruct (dir_inode _ _ (rr_parent _ _ _ _ _ Hr q x Hnew)) as [k2 Hk2].
  unfold rename_to. cbv zeta. rewrite Hfree. do 4 run_step.
  assert (Hid : set_tree (v_tree v) v = v) by (by destruct v). rewrite <- Hid.
  eapply (rename_tail v (v_tree v) _ _ None k1 k2); try done; [apply Hv| |intros; apply stays_refl].
  intros q' x' E. rewrite Hnew in E. by apply app_inj_tail in E as [<- _].
Qed.

(** *** Onto a name in use *)
Lemma ready_replaced v ro rn n m j cnt :
  vfs_ok o v → rename_ready v ro rn false n → rp_inode rn = Some j → tr_inodes (v_tree v) !! j = Some m →
  tr_nodes (v_tree v) !! rp_guest_path rn = Some j → may_go (v_tree v) (rp_guest_path rn) m →
  can_move (without_link cnt (rp_guest_path rn) j (v_tree v)) (rp_guest_path ro) (rp_guest_path rn) ∧
  tree_wf (without_link cnt (rp_guest_path rn) j (v_tree v)) ∧
  ∀ q x, rp_guest_path ro = q ++ [x] ∨ rp_guest_path rn = q ++ [x] → q ≠ rp_guest_path rn.
Proof.
  intros Hv [H1 H2 H3 H4 H5 H6 H7] Ej Hjm Hj Hgo.
  destruct (path_cases (rp_guest_path rn)) as [E|(q & x & Hnew)]; [done|].
  assert (Habove : ∀ q' x', rp_guest_path ro = q' ++ [x'] ∨ rp_guest_path rn = q' ++ [x'] → q' ≠ rp_guest_path rn).
  { intros q' x' [E|E] ->.
    - apply lookup_path_Some in H4 as (i & Hi & _). rewrite E in Hi.
      destruct (tw_parent _ (vo_tree _ _ Hv) _ _ _ Hi) as (m' & (a & Ha & Hm')%lookup_path_Some & Hd').
      assert (a = j) as -> by congruence. assert (m' = m) as -> by congruence.
      by rewrite (Hgo Hd' x') in Hi.
    - apply (f_equal length) in E. rewrite length_app in E. simpl in E. lia. }
  assert (Hwf : tree_wf (without_link cnt (rp_guest_path rn) j (v_tree v))).
  { rewrite Hnew in *. by eapply without_link_wf; [apply Hv|..]. }
  split_and!; [|done|done]. apply lookup_path_Some in H4 as (i & Hi & _). split; try done; auto.
  - rewrite without_link_nodes, lookup_delete_ne by done. eauto.
  - rewrite without_link_nodes. apply lookup_delete_eq.
  - intros q' x' E. specialize (Habove q' x' (or_intror E)). rewrite Hnew in E, Habove, Hgo, Hj |- *.
    destruct (H6 q' x' ltac:(congruence)) as (a & Ha & Had).
    destruct (without_link_lookup cnt (v_tree v) q x j m q' (vo_tree _ _ Hv) Hj Hjm Hgo Habove)
      as [(a' & Ha' & b & Hb & Hal & _)|[Ha' _]]; [|congruence].
    exists b. split; [done|]. rewrite (al_dir _ _ Hal). congruence.
Qed.

Lemma rename_to_used v ro rn n i j :
  vfs_ok o v → rename_ready v ro rn false n → rp_inode rn = Some j →
  runs (rename_to ro rn i) (λ _, vfs_ok o) (vfs_ok o) v.
Proof.
  intros Hv Hr Ej. destruct (resolved_node v rn j Hv (rr_target _ _ _ _ _ Hr) Ej) as (m & _ & _ & Hj & Hjm).
  destruct (dir_above v _ n Hv (rr_old _ _ _ _ _ Hr) (rr_node _ _ _ _ _ Hr)) as [k1 Hk1].
  destruct (path_cases (rp_guest_path rn)) as [E|(q & x & Hnew)]; [by destruct (rr_new _ _ _ _ _ Hr)|].
  destruct (dir_inode _ _ (rr_parent _ _ _ _ _ Hr q x Hnew)) as [k2 Hk2].
  unfold rename_to. cbv zeta. rewrite Ej. run_step. run_step.
  apply runs_bind, runs_bind, runs_lift_keep; [done|]. intros [] _.
  unfold runs at 1. rewrite (remove_target_eq v _ j m) by done.
  destruct (is_directory m && _) eqn:Ee; [done|].
  assert (Hgo : may_go (v_tree v) (rp_guest_path rn) m).
  { intros Hd. apply is_empty_directory_spec; [apply Hv|]. rewrite Hd in Ee. by apply negb_false_iff in Ee. }
  set (cnt := open_count (fw_table (v_fds v)) j).
  destruct (ready_replaced v ro rn n m j cnt Hv Hr Ej Hjm Hj Hgo) as (Hcm & Hwf & Habove).
  assert (Hkeep : ∀ p y k, rp_guest_path ro = p ++ [y] ∨ rp_guest_path rn = p ++ [y] →
            tr_nodes (v_tree v) !! p = Some k → tr_nodes (without_link cnt (rp_guest_path rn) j (v_tree v)) !! p = Some k).
  { intros p y k Hp Hk. rewrite without_link_nodes, lookup_delete_ne; [done|]. intros E. by apply (Habove p y Hp). }
  eapply (rename_tail v _ _ _ (Some j) k1 k2); [done|done|done|by eauto| |].
  - intros q' x' E. apply (Hkeep q' x'); [by right|]. rewrite Hnew in E. by apply app_inj_tail in E as [<- _].
  - intros a Ha Haj. rewrite Hnew in Hgo, Hj |- *.
    eapply without_link_stays; try done; [apply Hv|]. simpl in Haj. set_solver.
Qed.

Lemma renameat2_keeps olddirfd oldpath newdirfd newpath flags :
  keeps o (renameat2 olddirfd oldpath newdirfd newpath flags).
Proof.
  intros v Hv. destruct (renameat2_cases v olddirfd oldpath newdirfd newpath flags Hv)
    as [(r & Hr & E)|(ro & rn & _ & _ & [[_ E]|(n & Hr & E)])]; unfold runs; rewrite E; [by destruct r|done|].
  destruct (has_bits flags RENAME_EXCHANGE).
  - apply runs_bind, runs_lift_keep; [done|]. intros j Hj. destruct (rp_inode rn) as [j'|] eqn:Ej; [|done]. injection Hj as ->.
    destruct (resolved_node v rn j Hv (rr_target _ _ _ _ _ Hr) Ej) as (m & Hm & <- & _).
    apply rename_exchange_keeps; [done|apply Hr|done|apply Hr].
  - destruct (rp_inode rn) as [j|] eqn:Ej; [by eapply rename_to_used|by eapply rename_to_free].
Qed.
End moves.
