(* ===== verification/VfsSteps.v ===== *)
(** * mcr-vfs: the calls of the file system as a step relation

    Every call of [VirtualFileSystem] that changes it, as a value; a step runs one of them.
    The invariant holds in every state that calls reach from a new file system, under the
    conditions of [allowed]: ids are left for new nodes, a write has bytes, and an open that
    creates does not also ask for a directory (the code breaks the agreement of the cache
    with the tree there, see [VfsTheorems.v]). *)

From S2P Require Import Prelude SysAbi Bytes VfsTypes VfsPath VfsFd VfsCache VfsSystem VfsTree VfsResolve VfsFdOps VfsFdWf VfsOk VfsLinks VfsMoves.
From stdpp Require Import base gmap list strings sorting.
From Stdlib Require Import ZArith Lia.
Open Scope Z_scope.

Inductive VfsCall : Type :=
| CallChdir (path : string)
| CallOpenat (dirfd : Z) (path : string) (flags : OpenFlags) (mode : Z)
| CallClose (fd : Z)
| CallRead (fd len : Z)
| CallPread (fd offset len : Z)
| CallReadv (fd : Z) (lengths : list Z)
| CallWrite (fd : Z) (buffer : list Z)
| CallWritev (fd : Z) (buffers : list (list Z))
| CallPwrite (fd offset : Z) (buffer : list Z)
| CallLseek (fd offset : Z) (whence : SeekWhence)
| CallFtruncate (fd length : Z)
| CallFallocate (fd offset length : Z)
| CallFstat (fd : Z)
| CallNewfstatat (dirfd : Z) (path : string) (flags : Z)
| CallChmod (path : string) (mode : Z)
| CallChown (path : string) (uid gid : option Z)
| CallUtimensat (dirfd : Z) (path : string) (times : FileTimes) (flags : Z)
| CallAccess (path : string) (mode : Z)
| CallFaccessat2 (dirfd : Z) (path : string) (mode flags : Z)
| CallGetdents64 (fd max_bytes : Z)
| CallMkdirat (dirfd : Z) (path : string) (mode : Z)
| CallSymlinkat (target : string) (dirfd : Z) (path : string)
| CallUnlinkat (dirfd : Z) (path : string) (flags : Z)
| CallLinkat (olddirfd : Z) (oldpath : string) (newdirfd : Z) (newpath : string) (flags : Z)
| CallRenameat2 (olddirfd : Z) (oldpath : string) (newdirfd : Z) (newpath : string) (flags : Z)
| CallDup (fd : Z)
| CallDup2 (oldfd newfd : Z)
| CallDup3 (oldfd newfd : Z) (flags : OpenFlags)
| CallPipe (flags : OpenFlags)
| CallEventfd (initial : Z) (flags : OpenFlags)
| CallSocket (id : Z) (flags : OpenFlags)
| CallEpoll (id : Z) (flags : OpenFlags)
| CallFcntl (fd cmd arg : Z)
| CallIoctl (fd request : Z).

Section steps.
Context `{QuietHost} (o : Others).

Definition forget {A} (m : VfsM A) : VfsM unit := do* m; ret tt.

Definition run_call (call : VfsCall) : VfsM unit :=
  match call with
  | CallChdir path => chdir path
  | CallOpenat dirfd path flags mode => forget (openat dirfd path flags mode)
  | CallClose fd => vfs_close fd
  | CallRead fd len => forget (read fd len)
  | CallPread fd offset len => forget (pread fd offset len)
  | CallReadv fd lengths => forget (readv_regular fd lengths)
  | CallWrite fd buffer => forget (write fd buffer)
  | CallWritev fd buffers => forget (writev_regular fd buffers)
  | CallPwrite fd offset buffer => forget (pwrite fd offset buffer)
  | CallLseek fd offset whence => forget (lseek fd offset whence)
  | CallFtruncate fd length => ftruncate fd length
  | CallFallocate fd offset length => fallocate fd offset length
  | CallFstat fd => forget (fstat fd)
  | CallNewfstatat dirfd path flags => forget (newfstatat dirfd path flags)
  | CallChmod path mode => chmod path mode
  | CallChown path uid gid => chown path uid gid
  | CallUtimensat dirfd path times flags => utimensat dirfd path times flags
  | CallAccess path mode => access path mode
  | CallFaccessat2 dirfd path mode flags => faccessat2 dirfd path mode flags
  | CallGetdents64 fd max_bytes => forget (getdents64 fd max_bytes)
  | CallMkdirat dirfd path mode => mkdirat dirfd path mode
  | CallSymlinkat target dirfd path => symlinkat target dirfd path
  | CallUnlinkat dirfd path flags => unlinkat dirfd path flags
  | CallLinkat olddirfd oldpath newdirfd newpath flags => linkat olddirfd oldpath newdirfd newpath flags
  | CallRenameat2 olddirfd oldpath newdirfd newpath flags => renameat2 olddirfd oldpath newdirfd newpath flags
  | CallDup fd => forget (vfs_dup fd)
  | CallDup2 oldfd newfd => forget (vfs_dup2 oldfd newfd)
  | CallDup3 oldfd newfd flags => forget (dup3 oldfd newfd flags)
  | CallPipe flags => forget (on_fds (pipe flags))
  | CallEventfd initial flags => forget (on_fds (eventfd initial flags))
  | CallSocket id flags => forget (on_fds (insert_socket id flags))
  | CallEpoll id flags => forget (on_fds (insert_epoll id flags))
  | CallFcntl fd cmd arg => forget (fcntl fd cmd arg)
  | CallIoctl fd request => forget (ioctl fd request)
  end.

Definition allowed (v : Vfs) (call : VfsCall) : Prop :=
  match call with
  | CallOpenat _ _ flags _ => may_open v flags
  | CallWrite _ buffer | CallPwrite _ _ buffer => buffer ≠ []
  | CallMkdirat _ _ _ | CallSymlinkat _ _ _ => ids_left v
  | CallDup2 _ newfd | CallDup3 _ newfd _ => newfd ≤ I32_MAX
  | _ => True
  end.

(** ** The remaining calls *)
Lemma forget_keeps {A} (m : VfsM A) v :
  runs m (λ _, vfs_ok o) (vfs_ok o) v → runs (forget m) (λ _, vfs_ok o) (vfs_ok o) v.
Proof. intros Hm. apply runs_bind. eapply runs_mono; [exact Hm|by intros; apply runs_ret|done]. Qed.

Lemma chdir_keeps path : keeps o (chdir path).
Proof.
  intros v Hv. unfold chdir. run_step. run_step. apply runs_bind, runs_lift_keep; [done|]. intros r _.
  apply runs_bind, runs_lift_keep; [done|]. intros n _. destruct (negb (is_directory n)); [done|].
  apply runs_bind, runs_lift_keep; [done|]. intros _ _. apply runs_bind, runs_lift_keep; [done|]. intros rf _.
  run_step. by apply set_rootfs_ok.
Qed.

Lemma recached_keeps {A} v (r : outcome A VfsError * FdWorld) (m : VfsM A) :
  vfs_ok o v → fd_wf o r.2 → recached v r (m v) → runs m (λ _, vfs_ok o) (vfs_ok o) v.
Proof.
  intros Hv Hw Hr. pose proof (recached_ok o v r (m v) Hv Hw Hr) as Hok. unfold runs.
  by destruct (m v) as [[] v'].
Qed.

Lemma small_read_keeps fd e offset len v :
  vfs_ok o v → ft_entries (fw_table (v_fds v)) !! fd = Some e →
  runs (cached_small_read_for_entry e offset len) (λ _ v', vfs_ok o v' ∧ v_fds v' = v_fds v) (vfs_ok o) v.
Proof.
  intros Hv He. apply runs_bind. eapply runs_description; [done|done|]. intros d Hd.
  destruct (negb (can_read (fd_flags d))); [done|]. destruct (fr_kind (en_file e)); try (by split).
  destruct (len =? 0); [by split|]. run_step. run_step. apply runs_bind, runs_lift_keep; [done|]. intros n Hn.
  unfold lookup_inode in Hn. destruct (tr_inodes (v_tree v) !! inode_id_of e) as [n'|] eqn:En; [|done]. injection Hn as ->.
  destruct (negb _); [by split|]. destruct (bool_decide _) eqn:Ed; [by split|].
  apply bool_decide_eq_false, eq_None_not_Some in Ed. destruct (_ <? _); [by split|].
  destruct (cached_small_read_eq o _ _ _ Hv En Ed) as (c & Hc & Hok). unfold runs, bind. rewrite Hc. unfold ret.
  split; [by apply set_cache_ok|done].
Qed.

Lemma regular_request_keeps fd v :
  vfs_ok o v →
  runs (on_fds (regular_read_request fd)) (λ _ v', v' = v) (λ v', v' = v) v.
Proof.
  intros Hv. apply runs_on_fds, runs_wp. apply wp_bind, wp_get; [|by destruct v]. intros e He.
  apply wp_bind. eapply wp_description; [apply Hv|done|]. intros d Hd.
  destruct (negb (can_read (fd_flags d))); [by destruct v|]. destruct (fr_kind (en_file e)); by destruct v.
Qed.

Lemma read_inode_keeps i offset len v :
  vfs_ok o v →
  runs (read_regular_inode_at i offset len) (λ _ v', vfs_ok o v' ∧ v_fds v' = v_fds v) (vfs_ok o) v.
Proof.
  intros Hv. pose proof (read_regular_inode_eq o i offset len v Hv) as (c & Hc & Heq). simpl in Heq.
  unfold runs. rewrite Heq, set_fds_id. pose proof (set_cache_ok o v c Hv Hc). by destruct (let? node := _ in _).
Qed.

Lemma advance_keeps fd e offset count v :
  vfs_ok o v → ft_entries (fw_table (v_fds v)) !! fd = Some e →
  runs (on_fds (advance e offset count)) (λ _, vfs_ok o) (vfs_ok o) v.
Proof.
  intros Hv He. apply runs_on_fds, runs_wp. apply wp_bind, wp_ok_or; [|by destruct v]. intros next _.
  apply wp_bind. eapply wp_description; [apply Hv|done|]. intros d Hd. apply wp_modify.
  apply set_fds_ok; [done|]. eapply put_description_keeps; [apply Hv|done].
Qed.

(** The read of a regular file from the offset of a descriptor. *)
Lemma read_tail_keeps {A} fd i offset len (f : list Z → A) v :
  vfs_ok o v →
  runs (let* bytes := read_regular_inode_at i offset len in
        let* entry := on_fds (get fd) in
        do* on_fds (advance entry offset (zlen bytes));
        ret (f bytes)) (λ _, vfs_ok o) (vfs_ok o) v.
Proof.
  intros Hv. apply runs_bind. eapply runs_mono; [by apply read_inode_keeps| |done]. intros bytes v1 [Hv1 _].
  apply runs_bind, runs_entry; [|done]. intros e He. apply runs_bind.
  eapply runs_mono; [by eapply advance_keeps| |done]. intros; by apply runs_ret.
Qed.

Lemma read_keeps fd len : keeps o (read fd len).
Proof.
  intros v Hv. unfold read, read_from_small_cache. apply runs_bind, runs_bind, runs_entry; [|done]. intros e He.
  apply runs_bind. eapply runs_description; [done|done|]. intros d Hd.
  apply runs_bind. eapply runs_mono; [by eapply small_read_keeps| |done]. intros [bytes|] v1 [Hv1 Hf1].
  - apply runs_bind. eapply runs_mono; [eapply advance_keeps; [done|by rewrite Hf1]| |done].
    intros; by repeat apply runs_ret.
  - apply runs_ret, runs_bind. eapply runs_mono; [by apply regular_request_keeps| |by intros ? ->].
    intros [[i offset]|] ? ->; [by apply (read_tail_keeps fd i offset len id)|].
    run_step. run_step. apply keeps_on_fds; [by apply fd_read_keeps|done].
Qed.

Lemma pread_keeps fd offset len : keeps o (pread fd offset len).
Proof.
  intros v Hv. unfold pread, cached_small_read_at. apply runs_bind, runs_bind, runs_entry; [|done]. intros e He.
  eapply runs_mono; [by eapply small_read_keeps| |by intros].
  intros [bytes|] v1 [Hv1 Hf1]; [by apply runs_ret|].
  apply runs_bind. eapply runs_mono; [by apply regular_request_keeps| |by intros ? ->].
  intros [[i off]|] ? ->.
  - eapply runs_mono; [by apply read_inode_keeps|by intros ? ? []|done].
  - run_step. run_step. apply keeps_on_fds; [by apply fd_pread_keeps|done].
Qed.

Lemma readv_keeps fd lengths : keeps o (readv_regular fd lengths).
Proof.
  intros v Hv. unfold readv_regular. apply runs_bind. eapply runs_mono; [by apply regular_request_keeps| |by intros ? ->].
  intros [[i offset]|] ? ->; [|done]. apply runs_bind, runs_lift_keep; [done|]. intros total _.
  destruct (total =? 0); [done|]. by apply (read_tail_keeps fd i offset total (λ bytes, Some (scatter_vectored bytes lengths))).
Qed.

Lemma fstat_keeps fd : keeps o (fstat fd).
Proof. intros v Hv. eapply recached_keeps; [done| |by eapply fstat_recached]. apply Hv. Qed.

Lemma stat_path_keeps path : keeps o (stat_path path).
Proof. intros v Hv. eapply recached_keeps; [done| |by eapply stat_path_recached]. apply Hv. Qed.

Lemma newfstatat_keeps dirfd path flags : keeps o (newfstatat dirfd path flags).
Proof.
  intros v Hv. unfold newfstatat. destruct (_ && _); [by apply fstat_keeps|]. run_step. run_step.
  apply runs_bind, runs_lift_keep; [done|]. intros r _. by apply stat_path_keeps.
Qed.

Lemma access_keeps path mode : keeps o (access path mode).
Proof.
  intros v Hv. unfold access. destruct (bool_decide _); [done|]. run_step. run_step.
  apply runs_bind, runs_lift_keep; [done|]. intros r _. apply runs_bind, runs_lift_keep; [done|]. intros _ _.
  apply runs_bind. eapply runs_mono; [by apply stat_path_keeps| |done]. intros a v' Hv'. by apply runs_lift_keep.
Qed.

Lemma faccessat2_keeps dirfd path mode flags : keeps o (faccessat2 dirfd path mode flags).
Proof.
  intros v Hv. unfold faccessat2. destruct (negb _); [done|]. apply runs_bind.
  assert (Hend : ∀ (a : LinuxFileAttr) v', vfs_ok o v' → runs (lift (check_access a mode)) (λ _, vfs_ok o) (vfs_ok o) v').
  { intros a v' Hv'. by apply runs_lift_keep. }
  destruct (_ && _); [by eapply runs_mono; [by apply fstat_keeps|exact Hend|]|].
  destruct (bool_decide _); [done|]. run_step. run_step. apply runs_bind, runs_lift_keep; [done|]. intros r _.
  by eapply runs_mono; [by apply stat_path_keeps|exact Hend|].
Qed.

Lemma fd_getdents64_keeps tree fd max w : fd_wf o w → fd_wf o (fd_getdents64 tree fd max w).2.
Proof.
  intros Hw. unfold fd_getdents64, bind at 1.
  pose proof (directory_listing_source_keeps tree fd w) as Hs. unfold wp in Hs.
  destruct (directory_listing_source tree fd w) as [[s|err|] w']; [subst w'..|done]; [|done].
  unfold bind, gets, lift, id. destruct (directory_entries _ _ _) as [l| |]; [|done..].
  pose proof (consume_directory_entries_keeps o fd max l w Hw) as Hc. unfold wp in Hc.
  by destruct (consume_directory_entries fd max l w) as [[] ?].
Qed.

Lemma getdents64_keeps fd max : keeps o (getdents64 fd max).
Proof.
  intros v Hv. eapply recached_keeps; [done| |by eapply getdents64_recached].
  apply fd_getdents64_keeps, Hv.
Qed.

Lemma fcntl_keeps fd cmd arg : keeps o (fcntl fd cmd arg).
Proof.
  unfold fcntl. assert (Hdup : ∀ c, keeps o (let* min_fd := lift (if arg <=? I32_MAX then Ok arg else Err BadFd) in on_fds (dup fd min_fd c))).
  { intros c v Hv. apply runs_bind, runs_lift_keep; [done|]. destruct (Z.leb_spec arg I32_MAX); [|done].
    intros ? [= <-]. apply keeps_on_fds; [by apply dup_keeps|done]. }
  repeat match goal with |- keeps _ (if ?b then _ else _) => destruct b end; try apply Hdup; try apply keeps_bind; try (intros; apply keeps_ret); try apply keeps_throw; apply keeps_on_fds.
  - intros w Hw. apply wp_bind. eapply wp_mono; [by apply cloexec_keeps| |done]. by intros b w' Hw'; destruct b.
  - apply set_cloexec_keeps.
  - apply status_flags_keeps.
  - apply set_status_flags_keeps.
  - intros w Hw. by apply wp_get.
  - apply pipe_capacity_keeps.
  - apply set_pipe_capacity_keeps.
Qed.

Lemma ioctl_keeps fd request : keeps o (ioctl fd request).
Proof.
  unfold ioctl. apply keeps_bind; [apply keeps_on_fds; intros w Hw; by apply wp_get|]. intros e.
  destruct (request =? FIONREAD); [|apply keeps_throw]. apply keeps_gets. intros u. apply keeps_bind; [|intros; apply keeps_ret].
  apply keeps_on_fds, available_bytes_keeps.
Qed.

Lemma pipe_keeps flags : fd_keeps o (pipe flags).
Proof.
  intros w Hw. eapply wp_mono; [by apply (pipe_spec o)| |].
  - intros [r wfd] w' (next & inode & id & _ & Hw' & _). exact Hw'.
  - by intros e w' [Hw' _].
Qed.

(** ** Every call *)
Lemma run_call_keeps v call :
  vfs_ok o v → allowed v call → runs (run_call call) (λ _, vfs_ok o) (vfs_ok o) v.
Proof.
  intros Hv Ha. destruct call; unfold run_call; try apply forget_keeps.
  - by apply chdir_keeps.
  - by apply openat_keeps.
  - by apply close_with_file_keeps.
  - by apply read_keeps.
  - by apply pread_keeps.
  - by apply readv_keeps.
  - by apply write_keeps.
  - by apply writev_keeps.
  - by apply pwrite_keeps.
  - unfold lseek. run_step. run_step. apply keeps_on_fds; [by apply seek_keeps|done].
  - by apply ftruncate_keeps.
  - by apply fallocate_keeps.
  - by apply fstat_keeps.
  - by apply newfstatat_keeps.
  - by apply chmod_keeps.
  - by apply chown_keeps.
  - by apply utimensat_keeps.
  - by apply access_keeps.
  - by apply faccessat2_keeps.
  - by apply getdents64_keeps.
  - by apply mkdirat_keeps.
  - by apply symlinkat_keeps.
  - by apply unlinkat_keeps.
  - by apply linkat_keeps.
  - by apply renameat2_keeps.
  - apply keeps_on_fds; [by apply dup_keeps|done].
  - apply keeps_on_fds; [by apply dup2_keeps|done].
  - unfold dup3. destruct (_ || _); [done|]. apply keeps_on_fds; [by apply dup2_keeps|done].
  - apply keeps_on_fds; [by apply pipe_keeps|done].
  - apply keeps_on_fds; [by apply eventfd_keeps|done].
  - apply keeps_on_fds; [by apply insert_socket_keeps|done].
  - apply keeps_on_fds; [by apply insert_epoll_keeps|done].
  - by apply fcntl_keeps.
  - by apply ioctl_keeps.
Qed.

Inductive vfs_step : Vfs → Vfs → Prop :=
| step_call v call : allowed v call → vfs_step v (run_call call v).2.

Lemma step_keeps v v' : vfs_step v v' → vfs_ok o v → vfs_ok o v'.
Proof.
  intros [u call Ha] Hv. pose proof (run_call_keeps u call Hv Ha) as Hr. unfold runs in Hr.
  by destruct (run_call call u) as [[] u'].
Qed.
End steps.
