(* ===== verification/VfsTheorems.v ===== *)
(** * mcr-vfs: the properties

    Reachable file systems satisfy the invariant; resolution stays in the jail and inverts
    printing; the cache is transparent; writes read back; a rename moves a subtree; listings
    are complete; pipes survive fork; and what closing one of two duplicates does. *)

From S2P Require Import Prelude SysAbi Bytes VfsTypes VfsPath VfsFd VfsCache VfsSystem VfsTree VfsResolve VfsFdOps VfsFdWf VfsOk VfsLinks VfsMoves VfsSteps.
From stdpp Require Import base gmap list strings sorting.
From Stdlib Require Import ZArith Lia.
Open Scope Z_scope.

Implicit Types (p q : GuestPath).

(** ** A host for the examples: one file, and zeros for random bytes *)
#[export] Instance sample_host : HostFs := {
  host_read_file p := if bool_decide (p = ["h"%string]) then Some [7; 8; 9] else None;
  host_open_read p := if bool_decide (p = ["h"%string]) then Ok tt else Err HostNotFound;
  host_read_at p offset len := Ok (take (Z.to_nat len) (drop (Z.to_nat offset) [7; 8; 9]));
  host_random len := Some (zero_vec len);
}.

#[export] Instance sample_quiet : QuietHost.
Proof. split; intros; simpl; [by case_bool_decide|done]. Qed.

(** ** A new file system *)
Definition nobody : Others := λ _ _, 0.

Lemma tree_new_wf : tree_wf tree_new.
Proof.
  split.
  - split; [|by intros p c]. intros p x. unfold child. simpl. rewrite lookup_empty. simpl.
    rewrite lookup_singleton_ne; [done|]. by destruct p.
  - by exists (node_directory ROOT_INODE_ID).
  - intros p i. simpl. intros [<- <-]%lookup_singleton_Some. eauto.
  - intros p x i. simpl. intros [E _]%lookup_singleton_Some. by destruct p.
  - intros i n. simpl. intros [<- <-]%lookup_singleton_Some. split; [done|done|done|intros _; vm_compute; lia|left; simpl; unfold ROOT_INODE_ID; lia|by intros []].
  - vm_compute. split; intros H; discriminate H.
Qed.

Definition dev_node (id : Z) (kind : DevNodeKind) : PathNode :=
  node_new id (NDevice kind) (character_device id 0x1b6).

Definition dev_tree : PathTree :=
  let add name id kind t := link_at ["dev"%string; name] id (set_inodes (insert id (dev_node id kind)) t) in
  add "urandom"%string DEV_URANDOM_INODE_ID DevUrandom
    (add "zero"%string DEV_ZERO_INODE_ID DevZero
      (add "null"%string DEV_NULL_INODE_ID DevNull
        (with_new ["dev"%string] (node_new 2 NDirectory (directory_with_mode 2 0x1ed)) tree_new))).

Lemma dev_tree_mounted : tree_mount_minimal_devfs tree_new = (Ok tt, dev_tree).
Proof. vm_compute. reflexivity. Qed.

Lemma dev_tree_wf : tree_wf dev_tree.
Proof.
  assert (H1 : tree_wf (with_new ["dev"%string] (node_new 2 NDirectory (directory_with_mode 2 0x1ed)) tree_new)).
  { apply (with_new_wf tree_new [] "dev"%string); [apply tree_new_wf|done|by exists (node_directory 1)|done|done|apply new_directory]. }
  unfold dev_tree.
  do 3 (eapply (tree_wf_insert _ _ ["dev"%string]); [|reflexivity|eexists; by split|by vm_compute|by vm_compute|reflexivity|apply new_device|by right]).
  exact H1.
Qed.

Definition first_fds : FdWorld :=
  (with_stdio {| fw_table := {| ft_entries := ∅; ft_cloexec := ∅; ft_next_pipe_id := 1;
                                ft_next_eventfd_id := 1; ft_stdio := 0 |};
                 fw_heap := heap_empty |}).2.

Lemma stdio_plain kind : plain_file (file_stdio kind).
Proof. done. Qed.

Lemma first_fds_wf : fd_wf nobody first_fds.
Proof.
  assert (Hw : wp with_stdio (λ _, fd_wf nobody) (λ _, fd_wf nobody)
    {| fw_table := {| ft_entries := ∅; ft_cloexec := ∅; ft_next_pipe_id := 1; ft_next_eventfd_id := 1; ft_stdio := 0 |};
       fw_heap := heap_empty |}).
  { unfold with_stdio, table_new, VfsFd.fresh. wp_steps.
    eapply wp_mono; [apply (insert_exact_keeps nobody); [apply stdio_plain|done|]| |done].
    - split; simpl; try done.
      + by intros fd [].
      + by split; intros a [].
    - intros [] w1 Hw1. apply wp_bind. eapply wp_mono; [by apply insert_exact_keeps| |done].
      intros [] w2 Hw2. by apply insert_exact_keeps. }
  unfold first_fds. unfold wp in Hw. by destruct (with_stdio _) as [[] w].
Qed.

Lemma vfs_new_ok `{HostFs} host : ∃ v, vfs_new host = Ok v ∧ vfs_ok nobody v ∧ v_tree v = dev_tree ∧ v_fds v = first_fds.
Proof.
  unfold vfs_new. change (with_stdio _) with (Ok (E := VfsError) tt, first_fds).
  unfold mount_minimal_devfs, bind, on_tree. simpl v_tree. rewrite dev_tree_mounted. simpl.
  eexists. split_and!; try done. split; simpl; [apply dev_tree_wf|apply first_fds_wf|by split].
Qed.

Definition new_vfs : Vfs :=
  match vfs_new [] with Ok v => v | _ => from_parts (rootfs_new []) tree_new first_fds end.

Lemma new_vfs_ok `{HostFs} : vfs_ok nobody new_vfs ∧ v_tree new_vfs = dev_tree ∧ v_fds new_vfs = first_fds.
Proof. destruct (vfs_new_ok []) as (v & Hv & Hok & ? & ?). unfold new_vfs. by rewrite Hv. Qed.

(** The state after a list of calls. *)
Fixpoint run_calls `{HostFs} (calls : list VfsCall) (v : Vfs) : Vfs :=
  match calls with [] => v | call :: calls => run_calls calls (run_call call v).2 end.

(** ** Reachable file systems *)
Fixpoint all_allowed `{QuietHost} (calls : list VfsCall) (v : Vfs) : Prop :=
  match calls with [] => True | call :: calls => allowed v call ∧ all_allowed calls (run_call call v).2 end.

Lemma run_calls_reach `{QuietHost} calls v : all_allowed calls v → rtc vfs_step v (run_calls calls v).
Proof.
  revert v. induction calls as [|call calls IH]; intros v; [done|]. intros [Ha Hl]. simpl.
  eapply rtc_l; [by constructor|by apply IH].
Qed.

Lemma rtc_keeps `{QuietHost} v v' : rtc vfs_step v v' → vfs_ok nobody v → vfs_ok nobody v'.
Proof. induction 1 as [|x y z Hs _ IH]; [done|]. intros Hx. apply IH. by eapply step_keeps. Qed.


(** The file systems of C5. *)
Definition reachable `{QuietHost} (v : Vfs) : Prop := ∃ host v0, vfs_new host = Ok v0 ∧ rtc vfs_step v0 v.

Lemma reachable_ok `{QuietHost} v : reachable v → vfs_ok nobody v.
Proof.
  intros (host & v0 & Hnew & Hr). destruct (vfs_new_ok host) as (v1 & Hv1 & Hok & _).
  rewrite Hnew in Hv1. injection Hv1 as ->. by eapply rtc_keeps.
Qed.

Lemma reachable_new `{QuietHost} host v : vfs_new host = Ok v → reachable v.
Proof. intros Hnew. by exists host, v. Qed.

Lemma reachable_calls `{QuietHost} calls v : reachable v → all_allowed calls v → reachable (run_calls calls v).
Proof.
  intros (host & v0 & Hnew & Hr) Ha. exists host, v0. split; [done|]. etrans; [done|by apply run_calls_reach].
Qed.

Definition rw_create : OpenFlags := flags_new (Z.lor O_RDWR O_CREAT).

Definition sample_calls : list VfsCall :=
  [CallMkdirat AT_FDCWD "/a" 0x1ff; CallOpenat AT_FDCWD "/a/f" rw_create 0x1ff;
   CallWrite 3 [1; 2; 3; 4; 5]; CallFstat 3; CallPread 3 0 4;
   CallOpenat AT_FDCWD "/a" (flags_new 0) 0; CallGetdents64 4 1000;
   CallLinkat AT_FDCWD "/a/f" AT_FDCWD "/a/g" 0; CallRenameat2 AT_FDCWD "/a" AT_FDCWD "/b" 0;
   CallUnlinkat AT_FDCWD "/b/g" 0; CallPipe (flags_new 0)].

Definition sample : Vfs := run_calls sample_calls new_vfs.

Lemma sample_allowed : all_allowed sample_calls new_vfs.
Proof.
  assert (Hopen : ∀ v flags fd, next_fd_from (fw_table (v_fds v)) FIRST_ALLOC_FD = Ok fd →
    directory_flag flags = false → (tr_next_inode_id (v_tree v) <? PROC_INODE_ID) = true → may_open v flags).
  { intros v flags fd Hfd Hd Hi. split; [eauto|]. intros _. split; [done|]. by apply Z.ltb_lt. }
  unfold sample_calls. repeat (split; [first
    [ exact I
    | apply (Hopen _ _ 3); vm_compute; reflexivity
    | apply (Hopen _ _ 4); vm_compute; reflexivity
    | apply Z.ltb_lt; vm_compute; reflexivity
    | vm_compute; discriminate ]|]); exact I.
Qed.


Lemma sample_reachable : reachable sample.
Proof. exact (reachable_calls sample_calls new_vfs (reachable_new [] new_vfs eq_refl) sample_allowed). Qed.

Lemma sample_ok : vfs_ok nobody sample.
Proof. exact (reachable_ok sample sample_reachable). Qed.

(** ** Resolution *)

(** C6. Resolution never leaves the guest's root and never panics.  It succeeds exactly when
    the walk over the components of the path, from the root or the current directory, ends
    after at most 40 symbolic links, and returns where that walk ends; a walk that ends after
    more links fails with ELOOP.  What it returns has proper names only, lies in a directory
    of the tree (or is one), and is not a symbolic link when the last one is followed. *)
Theorem resolve_in_jail rootfs tree follow path :
  tree_wf tree → rootfs_ok rootfs tree → dir_at tree (base_of rootfs path) →
  match resolve rootfs tree follow path with
  | Ok p =>
      rf_root rootfs `prefix_of` p ∧ Forall proper_name p ∧
      (dir_at tree p ∨ ∃ q x, p = q ++ [x] ∧ dir_at tree q) ∧ (follow = true → not_link tree p) ∧
      ∃ components n, split_guest_components path = Ok components ∧ (n ≤ 40)%nat ∧
        leads rootfs tree follow (base_of rootfs path) components n p
  | Err _ => True
  | Panic => False
  end ∧
  (∀ components n p,
     path ≠ EmptyString → contains_nul path = false → split_guest_components path = Ok components →
     leads rootfs tree follow (base_of rootfs path) components n p →
     resolve rootfs tree follow path = if (n <=? 40)%nat then Ok p else Err Loop).
Proof.
  intros Hwf Hr Hd. split.
  - pose proof (resolve_result rootfs tree follow path Hwf Hr Hd) as Hres.
    pose proof (resolve_leads rootfs tree follow path) as Hl.
    unfold walk_result in Hres. destruct (resolve rootfs tree follow path); [|done|done]. destruct Hres. eauto 7.
  - intros components n p. apply leads_resolve.
Qed.

(** A tree with a link that climbs, /l -> ../../dev, and one to its own directory, /s -> . *)
Definition link_tree : PathTree :=
  with_new ["s"%string] (node_new 4 (NSymlink ".") (symlink 4 1))
    (with_new ["l"%string] (node_new 3 (NSymlink "../../dev") (symlink 3 9)) dev_tree).

Lemma link_tree_wf : tree_wf link_tree.
Proof.
  apply (with_new_wf (with_new ["l"%string] (node_new 3 (NSymlink "../../dev") (symlink 3 9)) dev_tree) [] "s"%string);
    [|vm_compute; done| |by vm_compute|done|apply new_symlink].
  - apply (with_new_wf dev_tree [] "l"%string); [apply dev_tree_wf|vm_compute; done| |by vm_compute|done|apply new_symlink].
    by exists (node_directory 1).
  - by eexists.
Qed.

Lemma plain_rootfs_ok tree host : tree_wf tree → rootfs_ok (rootfs_new host) tree.
Proof. intros Hwf. split; [apply Hwf|done|by constructor]. Qed.

(** /s/s/.../s follows as many links as it has names. *)
Definition many_links (n : nat) : string := join_slash (EmptyString :: replicate n "s"%string).

Lemma leads_many n : leads (rootfs_new []) link_tree true [] (replicate n "s"%string) n [].
Proof.
  induction n as [|n IH]; [apply leads_end|]. simpl.
  eapply (leads_link _ _ _ [] []); [by split|by exists ["s"%string]|vm_compute; reflexivity|by left|reflexivity| |done|].
  - vm_compute. reflexivity.
  - apply leads_here; [by right|done|exact IH].
Qed.

Lemma resolve_in_jail_witness :
  (resolve (rootfs_new []) link_tree true "/../l/./null" = Ok ["dev"%string; "null"%string] ∧
   [] `prefix_of` ["dev"%string; "null"%string]) ∧
  resolve (rootfs_new []) link_tree true (many_links 40) = Ok [] ∧
  resolve (rootfs_new []) link_tree true (many_links 41) = Err Loop.
Proof.
  assert (Hr : resolve (rootfs_new []) link_tree true "/../l/./null" = Ok ["dev"%string; "null"%string])
    by (vm_compute; reflexivity).
  destruct (resolve_in_jail (rootfs_new []) link_tree true "/../l/./null" link_tree_wf
                (plain_rootfs_ok _ _ link_tree_wf) (tw_root _ link_tree_wf)) as [H _].
  rewrite Hr in H. split; [split; [exact Hr|exact (proj1 H)]|].
  assert (Hbase : ∀ s, dir_at link_tree (base_of (rootfs_new []) s))
    by (intros s; unfold base_of; destruct (starts_with_slash s); exact (tw_root _ link_tree_wf)).
  pose proof (λ n, proj2 (resolve_in_jail (rootfs_new []) link_tree true (many_links n) link_tree_wf
                (plain_rootfs_ok _ _ link_tree_wf) (Hbase _))) as Hmany.
  split.
  - apply (Hmany 40%nat (replicate 40 "s"%string) 40%nat []); [discriminate|vm_compute; reflexivity|vm_compute; reflexivity|].
    apply leads_many.
  - apply (Hmany 41%nat (replicate 41 "s"%string) 41%nat []); [discriminate|vm_compute; reflexivity|vm_compute; reflexivity|].
    apply leads_many.
Defined.

(** The string that [visible_path] prints for a path of the tree, as in getcwd and
    /proc/self/fd, resolves to that path again. *)
Theorem visible_path_resolves rootfs tree follow p s :
  tree_wf tree → dir_at tree (rf_root rootfs) → is_Some (lookup_path tree p) → not_link tree p →
  Forall proper_name p → visible_path rootfs p = Ok s → resolve rootfs tree follow s = Ok p.
Proof. intros Hwf. by apply resolve_visible. Qed.

Lemma visible_path_resolves_witness :
  visible_path (rootfs_new []) ["dev"%string; "zero"%string] = Ok "/dev/zero"%string ∧
  resolve (rootfs_new []) dev_tree true "/dev/zero" = Ok ["dev"%string; "zero"%string].
Proof.
  assert (Hs : visible_path (rootfs_new []) ["dev"%string; "zero"%string] = Ok "/dev/zero"%string) by reflexivity.
  split; [exact Hs|].
  apply (visible_path_resolves (rootfs_new []) dev_tree true ["dev"%string; "zero"%string]); [apply dev_tree_wf| | | | |exact Hs].
  - apply (tw_root _ dev_tree_wf).
  - by eexists.
  - intros n target Hn. vm_compute in Hn. injection Hn as <-. discriminate.
  - repeat constructor; by vm_compute.
Defined.

(** ** The cache *)

(** [x] answers as [r] and leaves the file system as [r] leaves the descriptors, but for the
    contents of the cache. *)
Definition as_uncached {A} (v : Vfs) (r : outcome A VfsError * FdWorld) (x : outcome A VfsError * Vfs) : Prop :=
  ∃ c, x = (r.1, set_cache c (set_fds r.2 v)).

Lemma as_uncached_parts {A} v (r : outcome A VfsError * FdWorld) x : as_uncached v r x → x.1 = r.1 ∧ v_fds x.2 = r.2.
Proof. by intros [c ->]. Qed.

Lemma as_uncached_pair {A} v (r : outcome A VfsError) w x : as_uncached v (r, w) x → x.1 = r ∧ v_fds x.2 = w.
Proof. by intros [c ->]. Qed.


(** The sample with a warm cache: the attributes and contents of /b/f and the listing of /b. *)
Definition warm : Vfs := run_calls [CallFstat 3; CallPread 3 0 4; CallLseek 4 0 SeekSet; CallGetdents64 4 1000] sample.

Lemma warm_reachable : reachable warm.
Proof. apply reachable_calls; [exact sample_reachable|by split_and!]. Qed.


(** ** Writing and reading back *)
Lemma read_spliced data offset buffer :
  0 ≤ offset → offset + zlen buffer ≤ zlen data → read_memory_at (splice data offset buffer) offset (zlen buffer) = buffer.
Proof.
  intros H0 Hl. unfold read_memory_at, splice, zlen in *.
  rewrite drop_app_ge by (rewrite length_take; lia). rewrite length_take.
  replace (Z.to_nat offset - Z.to_nat offset `min` length data)%nat with 0%nat by lia. rewrite drop_0.
  rewrite take_app_le by lia. apply take_ge. lia.
Qed.

Lemma write_at_reads `{HostFs} offset buffer n c n' :
  0 ≤ offset → write_at offset buffer n = (Ok c, n') →
  c = zlen buffer ∧ pn_kind n' = NFile ∧ pn_deferred_host_path n' = None ∧
  read_memory_at (pn_data n') offset (zlen buffer) = buffer.
Proof.
  intros H0. unfold write_at. destruct (pn_kind n) eqn:Ek; try done. simpl.
  destruct (materialize_deferred_content n) as [m| |] eqn:Em; [|done..].
  apply materialize_node in Em as (_ & Hk & _ & Hd & _).
  destruct (checked_add64 offset (zlen buffer)) as [end_|] eqn:Ea; [|done]. apply checked_add64_Some in Ea as [-> _].
  assert (Hb : ∀ bytes, (if zlen (pn_data m) <? offset + zlen buffer then resize_zero (offset + zlen buffer) (pn_data m)
                         else Ok (pn_data m)) = Ok bytes → offset + zlen buffer ≤ zlen bytes).
  { intros bytes. destruct (Z.ltb_spec (zlen (pn_data m)) (offset + zlen buffer)); [|intros [= <-]; lia].
    unfold resize_zero. destruct (I64_MAX <? _); [done|]. intros [= <-]. unfold zero_vec, zlen in *.
    rewrite length_app, length_take, length_replicate. lia. }
  destruct (if _ <? _ then _ else _) as [bytes| |]; [|done..]. intros [= <- <-]. simpl. split_and!; try done.
  - by rewrite Hk.
  - apply read_spliced; [done|]. by apply Hb.
Qed.

(** C30. What [pwrite] writes at an offset of a regular file, [pread] reads back. *)
Theorem pwrite_then_pread `{QuietHost} o v v' fd e d offset buffer n :
  vfs_ok o v → ft_entries (fw_table (v_fds v)) !! fd = Some e →
  h_descriptions (fw_heap (v_fds v)) !! en_description e = Some d → can_read (fd_flags d) = true →
  0 ≤ offset → buffer ≠ [] → pwrite fd offset buffer v = (Ok n, v') →
  n = zlen buffer ∧ (pread fd offset n v').1 = Ok buffer.
Proof.
  intros Hv He Hd Hr Hoff Hb Hw. pose proof (pwrite_keeps o fd offset buffer Hb v Hv) as Hk. unfold runs in Hk.
  rewrite Hw in Hk. unfold pwrite in Hw. unfold bind at 1 in Hw. rewrite on_fds_get, He in Hw.
  unfold bind at 1 in Hw. rewrite (on_fds_description e d v Hd) in Hw.
  destruct (negb (can_write (fd_flags d))); [done|]. destruct (fr_kind (en_file e)) eqn:Ek; try done.
  unfold bind at 1 in Hw. unfold on_tree at 1, write_node, bind at 1, gets, id, bind at 1, lift, lookup_inode in Hw.
  destruct (tr_inodes (v_tree v) !! inode_id_of e) as [m|] eqn:Em; simpl in Hw; [|done].
  destruct (write_at offset buffer m) as [[c| |] m'] eqn:Ew; simpl in Hw; [|done..].
  destruct (write_at_reads _ _ _ _ _ Hoff Ew) as (-> & Hmk & Hmd & Hread). pose proof (zlen_pos buffer Hb) as Hpos.
  unfold bind, modify in Hw. simpl in Hw. destruct (Z.ltb_spec 0 (zlen buffer)); [|lia].
  rewrite invalidate_inode_eq in Hw. unfold ret in Hw. injection Hw as <- <-. split; [done|].
  match goal with |- (pread _ _ _ ?u).1 = _ => destruct (pread_recached o fd offset (zlen buffer) u Hk Hpos) as (c & _ & ->);
    rewrite (fd_pread_open fd e d offset (zlen buffer) u) by auto end.
  unfold lookup_inode. simpl. rewrite lookup_insert_eq. simpl.
  rewrite (nw_dir _ _ _ (tw_node _ (vo_tree _ _ Hk) (inode_id_of e) m' ltac:(simpl; by rewrite lookup_insert_eq))).
  unfold is_directory. rewrite Hmk. simpl. unfold read_regular_node_at. by rewrite Hmk, Hmd, Hread.
Qed.

Lemma pwrite_then_pread_witness :
  ∃ v', pwrite 3 7 [40; 41] sample = (Ok 2, v') ∧ (pread 3 7 2 v').1 = Ok [40; 41].
Proof.
  destruct (pwrite 3 7 [40; 41] sample) as [r v'] eqn:E. assert (Hr : r = Ok 2).
  { change r with ((r, v').1). rewrite <- E. vm_compute. reflexivity. }
  subst r. exists v'. split; [reflexivity|].
  eapply (pwrite_then_pread nobody sample v' 3); [exact sample_ok| | | | |discriminate|exact E];
    [vm_compute; reflexivity|vm_compute; reflexivity|reflexivity|discriminate].
Defined.

(** ** Renaming *)
(** A rename to a free name that succeeds is the move of the code on a tree where it may move. *)
Lemma rename_free_inv `{QuietHost} o v v' ro rn olddirfd oldpath newdirfd newpath flags :
  vfs_ok o v →
  resolve_at v olddirfd oldpath false false = Ok ro → resolve_at v newdirfd newpath false false = Ok rn →
  rp_guest_path ro ≠ rp_guest_path rn → rp_inode rn = None → has_bits flags RENAME_EXCHANGE = false →
  renameat2 olddirfd oldpath newdirfd newpath flags v = (Ok tt, v') →
  can_move (v_tree v) (rp_guest_path ro) (rp_guest_path rn) ∧
  v_tree v' = moved_tree (v_tree v) (rp_guest_path ro) (rp_guest_path rn) ∧
  v_fds v' = on_table (rebind_paths (rp_guest_path ro) (rp_guest_path rn)) (v_fds v).
Proof.
  intros Hv Hro Hrn Hne Hfree Hx Hrun.
  destruct (renameat2_cases o v olddirfd oldpath newdirfd newpath flags Hv)
    as [(r & Hr & E)|(ro' & rn' & Hro' & Hrn' & Hc)]; [rewrite Hrun in E; injection E as <- _; by destruct (Hr tt)|].
  rewrite Hro in Hro'. rewrite Hrn in Hrn'. injection Hro' as <-. injection Hrn' as <-.
  destruct Hc as [[? _]|(n & Hr & E)]; [done|]. rewrite Hx in Hr, E.
  pose proof (ready_can_move o v ro rn n Hv Hr Hfree) as Hcm. split; [done|].
  rewrite Hrun in E. unfold rename_to, bind, ret, gets, id in E. rewrite Hfree in E.
  rewrite (move_path_eq v _ _ (vo_tree _ _ Hv) Hcm), invalidate_inodes_eq in E. by injection E as ->.
Qed.

(** C27. A rename to a free name moves the whole subtree and nothing else: every node below the
    old path is at the same place below the new one, the others stay, nothing is left at the
    old path, and open descriptors under the old path name the new one. *)
Theorem rename_moves_subtree `{QuietHost} o v v' ro rn olddirfd oldpath newdirfd newpath flags :
  vfs_ok o v →
  resolve_at v olddirfd oldpath false false = Ok ro → resolve_at v newdirfd newpath false false = Ok rn →
  rp_guest_path ro ≠ rp_guest_path rn → rp_inode rn = None → has_bits flags RENAME_EXCHANGE = false →
  renameat2 olddirfd oldpath newdirfd newpath flags v = (Ok tt, v') →
  let old := rp_guest_path ro in
  let new := rp_guest_path rn in
  (∀ r, lookup_path (v_tree v') (new ++ r) = lookup_path (v_tree v) (old ++ r)) ∧
  (∀ r, lookup_path (v_tree v') (old ++ r) = None) ∧
  (∀ p, ¬ old `prefix_of` p → ¬ new `prefix_of` p → lookup_path (v_tree v') p = lookup_path (v_tree v) p) ∧
  (∀ fd e r, ft_entries (fw_table (v_fds v)) !! fd = Some e → en_path e = Some (old ++ r) →
     ft_entries (fw_table (v_fds v')) !! fd =
       Some {| en_file := en_file e; en_description := en_description e; en_path := Some (new ++ r) |}).
Proof.
  intros Hv Hro Hrn Hne Hfree Hx Hrun old new.
  destruct (rename_free_inv o v v' ro rn _ _ _ _ _ Hv Hro Hrn Hne Hfree Hx Hrun) as (Hcm & Ht & Hf).
  fold old new in Hcm, Ht, Hf. rewrite Ht.
  pose proof (moved_tree_lookup _ _ _ (vo_tree _ _ Hv) Hcm) as Hl.
  pose proof (nothing_below_free _ _ _ (vo_tree _ _ Hv) Hcm) as Hnone.
  split_and!.
  - intros r. apply option_eq. intros n. rewrite Hl. split.
    + intros [(r' & E & Hn)|[_ (i & Hi & _)%lookup_path_Some]]; [by apply app_inv_head in E as <-|].
      by rewrite Hnone in Hi.
    + eauto.
  - intros r. apply eq_None_not_Some. intros [n Hn]. apply Hl in Hn as [(r' & E & _)|[Hno _]]; [|by apply Hno, prefix_app_r].
    destruct (prefix_app_cases old new r') as [|[s Hs]]; [rewrite <- E; by apply prefix_app_r|by apply (cm_apart _ _ _ Hcm)|].
    pose proof (cm_exists _ _ _ Hcm) as [i Hi]. rewrite Hs, Hnone in Hi. done.
  - intros p Ho Hn. apply option_eq. intros n. rewrite Hl. split; [|by right].
    intros [(r & -> & _)|[_ ?]]; [|done]. by destruct Hn; apply prefix_app_r.
  - intros fd e r He Hp. rewrite Hf. simpl. rewrite lookup_fmap, He. simpl. unfold rebind_path. rewrite Hp.
    rewrite (proj2 (starts_with_true _ _)) by by apply prefix_app_r. by rewrite replace_prefix_app.
Qed.

Lemma rename_moves_subtree_witness :
  ∃ v', renameat2 AT_FDCWD "/b" AT_FDCWD "/c" 0 sample = (Ok tt, v') ∧
        lookup_path (v_tree v') ["c"; "f"]%string = lookup_path (v_tree sample) ["b"; "f"]%string.
Proof.
  destruct (renameat2 AT_FDCWD "/b" AT_FDCWD "/c" 0 sample) as [r v'] eqn:E. assert (Hr : r = Ok tt).
  { change r with ((r, v').1). rewrite <- E. vm_compute. reflexivity. }
  subst r. exists v'. split; [reflexivity|].
  assert (Ho : resolve_at sample AT_FDCWD "/b" false false = Ok {| rp_guest_path := ["b"%string]; rp_inode := Some 3 |})
    by (vm_compute; reflexivity).
  assert (Hn : resolve_at sample AT_FDCWD "/c" false false = Ok {| rp_guest_path := ["c"%string]; rp_inode := None |})
    by (vm_compute; reflexivity).
  exact (proj1 (rename_moves_subtree nobody sample v' _ _ _ _ _ _ 0 sample_ok Ho Hn ltac:(discriminate) eq_refl eq_refl E) ["f"%string]).
Defined.

(** ** Pipes and fork *)

(** C31. A forked descriptor table shares its pipes: after the clone both tables are well formed
    with the ends of the other counted, so that neither sees the end of file while the other
    holds a writer; and dropping either table gives back exactly its own ends. *)
Theorem fork_counts_pipe_ends o w :
  fd_wf o w →
  let (child, heap) := table_clone w in
  child = fw_table w ∧
  fd_wf (plus_others o (ends (ft_entries child))) {| fw_table := fw_table w; fw_heap := heap |} ∧
  (∀ (p : Z) s, h_pipes heap !! p = Some s →
     pi_writers s = 2 * ends (ft_entries child) false p + o false p ∧
     pi_readers s = 2 * ends (ft_entries child) true p + o true p) ∧
  fd_wf o {| fw_table := fw_table w; fw_heap := table_drop {| fw_table := child; fw_heap := heap |} |}.
Proof.
  intros Hw. pose proof (table_clone_wf o w Hw) as Hc. destruct (table_clone w) as [t h] eqn:E.
  destruct Hc as [-> Hc]. split_and!; try done.
  - intros p s Hp. destruct (fw_pipes _ _ Hc p s Hp) as [H1 H2 _ _]. unfold plus_others in *. simpl in *. lia.
  - apply (table_drop_wf o {| fw_table := fw_table w; fw_heap := h |} (fw_table w)); [done|by eapply table_kinds|].
    apply (fw_others _ _ Hw).
Qed.

Lemma fork_counts_pipe_ends_witness :
  let (child, heap) := table_clone (v_fds sample) in
  child = fw_table (v_fds sample) ∧
  size (filter (λ p : Z * PipeState, pi_writers p.2 = 2 ∧ pi_readers p.2 = 2) (h_pipes heap)) = 1%nat.
Proof.
  pose proof (fork_counts_pipe_ends nobody (v_fds sample) (vo_fds _ _ sample_ok)) as Hf.
  destruct (table_clone (v_fds sample)) as [child heap] eqn:E. split; [apply Hf|].
  change heap with ((child, heap).2). rewrite <- E. vm_compute. reflexivity.
Defined.

(** ** mcr-vfs: listings are complete, and what the code gets wrong

    Reading a directory chunk by chunk gives each of its entries once, in order.  The rest
    states what the model shows of the code's own mistakes: an open file lost with another
    descriptor, a listing and attributes that go stale, a rename onto a link of the same
    file. *)


(** ** One chunk *)
Definition records (l : list DirectoryEntry) : Z := foldr (λ e n, record_len e + n) 0 l.

Lemma consume_loop_spec items max used acc d :
  used ≤ max → (∀ e, e ∈ items → record_len e ≤ max) → (acc = [] → used = 0) →
  ∃ taken rest d', items = taken ++ rest ∧
    consume_loop items max used acc d = (Ok (acc ++ taken), d') ∧
    used + records taken ≤ max ∧ fd_dir_cursor d' = fd_dir_cursor d + zlen taken ∧ fd_flags d' = fd_flags d ∧
    (acc = [] → items ≠ [] → taken ≠ []).
Proof.
  revert used acc d. induction items as [|e items IH]; intros used acc d Hu Hfit Hacc.
  - exists [], [], d. simpl. rewrite app_nil_r. unfold zlen. simpl. split_and!; try done; lia.
  - simpl. destruct (Z.ltb_spec max (used + record_len e)) as [Hm|Hm].
    + destruct acc as [|a acc]; [specialize (Hacc eq_refl); specialize (Hfit e ltac:(by left)); lia|].
      exists [], (e :: items), d. simpl. rewrite app_nil_r. unfold zlen. simpl. split_and!; try done; lia.
    + destruct (IH (used + record_len e) (acc ++ [e])
        {| fd_offset := fd_dir_cursor d + 1; fd_flags := fd_flags d; fd_dir_cursor := fd_dir_cursor d + 1 |})
        as (taken & rest & d' & -> & Heq & Hr & Hc & Hf & _); [done|intros x Hx; apply Hfit; by right|by destruct acc|].
      exists (e :: taken), rest, d'. simpl in *. rewrite Heq, <- app_assoc. split_and!; try done; [lia|].
      rewrite Hc. unfold zlen. simpl. lia.
Qed.

(** ** The whole listing *)
Section listing.
Context `{HostFs} (o : Others).

(** Call getdents64 until it returns nothing. *)
Fixpoint list_all (fuel : nat) (fd max : Z) : VfsM (list DirectoryEntry) :=
  match fuel with
  | O => throw InvalidPath
  | S fuel =>
      let* chunk := getdents64 fd max in
      if bool_decide (chunk = []) then ret [] else
      let* more := list_all fuel fd max in
      ret (chunk ++ more)
  end.

(** An open directory, which is not /proc/self/fd, with its cursor. *)
Record lists (v : Vfs) (fd : Z) (path : GuestPath) (entries : list DirectoryEntry) (cursor : nat) : Prop := {
  li_open : ∃ e d, ft_entries (fw_table (v_fds v)) !! fd = Some e ∧ fr_kind (en_file e) = KDirectory ∧
    en_path e = Some path ∧ h_descriptions (fw_heap (v_fds v)) !! en_description e = Some d ∧
    fd_dir_cursor d = Z.of_nat cursor;
  li_entries : static_directory_entries (v_tree v) path = Ok entries;
  li_static : is_proc_self_fd_directory (v_tree v) path = false;
}.

Lemma getdents64_chunk v fd path entries cursor max :
  vfs_ok o v → lists v fd path entries cursor → 0 ≤ max → (∀ e, e ∈ entries → record_len e ≤ max) →
  ∃ taken v', getdents64 fd max v = (Ok taken, v') ∧ take (length taken) (drop cursor entries) = taken ∧
    vfs_ok o v' ∧ lists v' fd path entries (cursor + length taken) ∧ records taken ≤ max ∧
    ((cursor < length entries)%nat → taken ≠ []).
Proof.
  intros Hv [(e & d & He & Hk & Hp & Hd & Hc) Hl Hs] Hmax Hfit.
  destruct (getdents64_recached o fd max v Hv) as (c & Hok & Heq).
  destruct (listing_dir _ _ _ Hl) as (n & Hn & _).
  destruct (consume_loop_spec (drop cursor entries) max 0 [] d) as (taken & rest & d' & Hsplit & Hrun & Hrec & Hcur & _ & Hne);
    [done|intros x Hx; apply Hfit; rewrite <- (take_drop cursor entries); apply elem_of_app; by right|done|].
  assert (Hfd : fd_getdents64 (v_tree v) fd max (v_fds v) = (Ok taken, put_desc (en_description e) d' (v_fds v))).
  { unfold fd_getdents64, bind at 1. rewrite listing_source_eq, He, Hk, Hp. simpl. rewrite Hn. simpl.
    unfold bind, gets, lift, id. rewrite static_listing_eq, Hl by done.
    unfold consume_directory_entries, bind, description, gets, lift, id. rewrite get_eq, He. simpl. rewrite Hd. simpl.
    rewrite Hc, Nat2Z.id, Hrun. done. }
  rewrite Hfd in Heq. simpl in Heq. exists taken, (set_cache c (set_fds (put_desc (en_description e) d' (v_fds v)) v)).
  split_and!; try done.
  - by rewrite Hsplit, take_app_length.
  - destruct Hv as [A B C]. split; simpl; [done|by eapply put_description_keeps|done].
  - split; [|done|done]. exists e, d'. simpl. split_and!; try done; [by rewrite lookup_insert_eq|].
    rewrite Hcur, Hc. unfold zlen. lia.
  - intros Hlt. apply Hne; [done|]. intros E. apply (f_equal length) in E. rewrite length_drop in E. simpl in E. lia.
Qed.

Lemma list_all_spec fuel v fd path entries cursor max :
  vfs_ok o v → lists v fd path entries cursor → 0 ≤ max → (∀ e, e ∈ entries → record_len e ≤ max) →
  (cursor ≤ length entries)%nat → (length entries - cursor < fuel)%nat →
  ∃ v', list_all fuel fd max v = (Ok (drop cursor entries), v').
Proof.
  revert v cursor. induction fuel as [|fuel IH]; intros v cursor Hv Hl Hmax Hfit Hcur Hf; [lia|].
  destruct (getdents64_chunk v fd path entries cursor max Hv Hl Hmax Hfit) as (taken & v' & Hrun & Htake & Hv' & Hl' & _ & Hne).
  simpl. unfold bind at 1. rewrite Hrun. destruct (bool_decide (taken = [])) eqn:E.
  - apply bool_decide_eq_true in E as ->. exists v'. unfold ret. do 2 f_equal. symmetry. apply drop_ge.
    destruct (decide (cursor < length entries)%nat); [by destruct Hne|lia].
  - apply bool_decide_eq_false in E.
    assert (Hlen : (0 < length taken ≤ length entries - cursor)%nat).
    { split; [destruct taken; [done|simpl; lia]|]. rewrite <- Htake, length_take, length_drop. lia. }
    destruct (IH v' (cursor + length taken)%nat) as (v'' & Hrest); try done; [lia|lia|].
    exists v''. unfold bind. rewrite Hrest. unfold ret. do 2 f_equal.
    rewrite <- (take_drop (length taken) (drop cursor entries)). by rewrite Htake, drop_drop.
Qed.
End listing.

(** *** What a listing names *)
Lemma collect_names {A E} (f : string * Z → outcome A E) (name : A → string) l ys :
  (∀ (kv : string * Z) y, f kv = Ok y → name y = kv.1) → collect f l = Ok ys → name <$> ys = l.*1.
Proof.
  intros Hf. revert ys. induction l as [|kv l IH]; intros ys; simpl; [by intros [= <-]|].
  destruct (f kv) as [y| |] eqn:Ey; [|done..]. simpl. destruct (collect f l) as [zs| |]; [|done..]. simpl.
  intros [= <-]. simpl. by rewrite (Hf _ _ Ey), IH.
Qed.

(** The two dots and then the names of the directory, each once. *)
Lemma listing_names t path entries :
  tree_index t → static_directory_entries t path = Ok entries →
  ∃ names, de_name <$> entries = "."%string :: ".."%string :: names ∧ NoDup names ∧
    ∀ x, x ∈ names ↔ is_Some (tr_nodes t !! (path ++ [x])).
Proof.
  intros Hi. unfold static_directory_entries, static_children, directory_entries_from_children.
  destruct (lookup_path t path) as [n|]; [|done]. simpl. destruct (negb (is_directory n)); [done|].
  destruct (collect _ _) as [children| |] eqn:Ec; [|done..]. simpl. intros [= <-].
  apply (collect_names _ dc_name) in Ec;
    [|intros kv y; destruct (tr_inodes t !! kv.2); [|done]; simpl; by intros [= <-]].
  set (sorted := sort_by (λ l r, name_leb (dc_name l) (dc_name r)) children).
  exists (dc_name <$> sorted). split.
  - rewrite !fmap_cons, fmap_imap. simpl. do 2 f_equal.
    apply (imap_const dc_name).
  - assert (Hp : dc_name <$> sorted ≡ₚ (map_to_list (default ∅ (tr_children t !! path))).*1).
    { unfold sorted. rewrite sort_by_perm, Ec. unfold children_iter. by rewrite sort_by_perm. }
    split; [rewrite Hp; apply NoDup_fst_map_to_list|]. intros x. rewrite Hp, <- (ti_child _ Hi). unfold child.
    rewrite list_elem_of_fmap. split.
    + intros ([y j] & -> & Hy). apply elem_of_map_to_list in Hy. simpl.
      destruct (tr_children t !! path); simpl in *; [by rewrite Hy|done].
    + intros [j Hj]. exists (x, j). split; [done|]. apply elem_of_map_to_list.
      destruct (tr_children t !! path); simpl in *; done.
Qed.


Definition entry_named (inode offset file_type : Z) (name : string) : DirectoryEntry :=
  {| de_inode := inode; de_offset := offset; de_file_type := file_type; de_name := name |}.

Definition dev_calls : list VfsCall := [CallOpenat AT_FDCWD "/dev" (flags_new 0) 0].

Lemma dev_allowed : all_allowed dev_calls new_vfs.
Proof. split; [|done]. split; [exists 3; vm_compute; reflexivity|]. vm_compute. discriminate. Qed.

Lemma dev_reachable : reachable (run_calls dev_calls new_vfs).
Proof. exact (reachable_calls dev_calls new_vfs (reachable_new [] new_vfs eq_refl) dev_allowed). Qed.


(** ** An open file that is lost *)

(** C40. An unlinked file is lost to its other descriptors when one of them is closed: [close]
    asks only whether the file still has a name, not whether it is still open, and deletes
    it, so that reading through the other descriptor fails with ENOENT. *)
Theorem close_drops_open_file `{QuietHost} o v fd fd' e e' d' n offset len :
  vfs_ok o v → fd ≠ fd' →
  ft_entries (fw_table (v_fds v)) !! fd = Some e → ft_entries (fw_table (v_fds v)) !! fd' = Some e' →
  inode_id_of e = inode_id_of e' → fr_kind (en_file e') = KRegular →
  h_descriptions (fw_heap (v_fds v)) !! en_description e' = Some d' → can_read (fd_flags d') = true →
  lookup_inode (v_tree v) (inode_id_of e') = Some n → link_count (v_tree v) (inode_id_of e') = 0%nat → 0 < len →
  (pread fd' offset len (vfs_close fd v).2).1 = Err NoEntry.
Proof.
  intros Hv Hne He He' Hid Hk Hd Hr Hn Hlink Hl.
  pose proof (close_with_file_keeps o fd v Hv) as Hok.
  assert (Heq : vfs_close fd v = (Ok tt, set_cache (invalidate_inode (inode_id_of e') (v_cache v))
            (set_tree (set_inodes (delete (inode_id_of e')) (v_tree v)) (set_fds (leave fd e (v_fds v)) v)))).
  { unfold vfs_close, close_with_file, bind, on_fds. rewrite close_eq, He. unfold gets, id, ret. simpl.
    fold (inode_id_of e). rewrite Hid, Hn. by rewrite bool_decide_eq_true_2, Hlink by eauto. }
  assert (Hok' : vfs_ok o (vfs_close fd v).2).
  { unfold vfs_close, bind in *. unfold runs in Hok. by destruct (close_with_file fd v) as [[] ?]. }
  rewrite Heq in Hok' |- *. simpl snd in *.
  match goal with |- (pread _ _ _ ?u).1 = _ => destruct (pread_recached o fd' offset len u Hok' Hl) as (c & _ & ->);
    rewrite (fd_pread_open fd' e' d' offset len u) end; simpl; try done.
  - unfold lookup_inode. simpl. by rewrite lookup_delete_eq.
  - by rewrite lookup_delete_ne.
  - by rewrite (sb_desc _ _ (unregister_same _ _)).
  - by left.
Qed.

Definition dup_calls : list VfsCall :=
  [CallOpenat AT_FDCWD "/t" rw_create 0x1ff; CallDup 3; CallUnlinkat AT_FDCWD "/t" 0].

Definition duplicated : Vfs := run_calls dup_calls new_vfs.

Lemma duplicated_ok : vfs_ok nobody duplicated.
Proof.
  assert (Ha : all_allowed dup_calls new_vfs).
  { split; [|by split_and!]. split; [exists 3; vm_compute; reflexivity|]. intros _. split; [reflexivity|].
    apply Z.ltb_lt. vm_compute. reflexivity. }
  exact (rtc_keeps _ _ (run_calls_reach dup_calls new_vfs Ha) (proj1 new_vfs_ok)).
Qed.

Lemma close_drops_open_file_witness :
  (pread 4 0 10 duplicated).1 = Ok [] ∧ (pread 4 0 10 (vfs_close 3 duplicated).2).1 = Err NoEntry.
Proof.
  split; [vm_compute; reflexivity|].
  eapply (close_drops_open_file nobody duplicated 3 4); [exact duplicated_ok|discriminate|..]; vm_compute; reflexivity.
Defined.

(** ** Caches that go stale *)
Definition list_root : list VfsCall := [CallOpenat AT_FDCWD "/" (flags_new 0) 0; CallGetdents64 3 1000].

(** An open that asks to create a directory creates a file, fails with ENOTDIR and leaves the
    cached listing of the directory as it was: the new file is there for [lookup_path] but
    getdents64 does not list it. *)
Theorem failed_open_leaves_stale_listing :
  let v := run_calls list_root new_vfs in
  let attempt := openat AT_FDCWD "/new" (flags_new (Z.lor O_CREAT O_DIRECTORY)) 0x1ff v in
  let v2 := (lseek 3 0 SeekSet attempt.2).2 in
  attempt.1 = Err NotDirectory ∧ is_Some (lookup_path (v_tree v2) ["new"%string]) ∧
  match (getdents64 3 1000 v2).1 with
  | Ok entries => "new"%string ∉ de_name <$> entries
  | _ => False
  end ∧
  match (fd_getdents64 (v_tree v2) 3 1000 (v_fds v2)).1 with
  | Ok entries => "new"%string ∈ de_name <$> entries
  | _ => False
  end.
Proof.
  cbv zeta. split_and!.
  - vm_compute. reflexivity.
  - apply (bool_decide_unpack _). vm_compute. exact I.
  - vm_compute. intros H. repeat (apply elem_of_cons in H as [H|H]; [discriminate H|]). by apply elem_of_nil in H.
  - vm_compute. repeat first [by left|right].
Qed.

(** An empty write past the end of a file extends it, and the cached attributes stay. *)
Lemma empty_write_leaves_stale_size :
  let v := run_calls [CallOpenat AT_FDCWD "/t" rw_create 0x1ff; CallFstat 3; CallLseek 3 100 SeekSet; CallWrite 3 []] new_vfs in
  at_size <$> (match (fstat 3 v).1 with Ok a => Some a | _ => None end) = Some 0 ∧
  at_size <$> (match fstat_uncached v 3 with Ok a => Some a | _ => None end) = Some 100.
Proof. split; vm_compute; reflexivity. Qed.

(** Renaming one of two links of a file onto the other removes a name; POSIX keeps both. *)
Lemma rename_onto_own_link_removes_name :
  let v := run_calls [CallOpenat AT_FDCWD "/t" rw_create 0x1ff; CallLinkat AT_FDCWD "/t" AT_FDCWD "/u" 0;
                      CallRenameat2 AT_FDCWD "/t" AT_FDCWD "/u" 0] new_vfs in
  lookup_path (v_tree v) ["t"%string] = None ∧ is_Some (lookup_path (v_tree v) ["u"%string]).
Proof. split; [vm_compute; reflexivity|apply (bool_decide_unpack _); vm_compute; exact I]. Qed.

(** After an exchange the descriptors of both files name the same path. *)
Lemma exchange_rebinds_twice :
  let v := run_calls [CallOpenat AT_FDCWD "/t" rw_create 0x1ff; CallOpenat AT_FDCWD "/u" rw_create 0x1ff;
                      CallRenameat2 AT_FDCWD "/t" AT_FDCWD "/u" RENAME_EXCHANGE] new_vfs in
  ((λ e, en_path e) <$> ft_entries (fw_table (v_fds v)) !! 3) = Some (Some ["t"%string]) ∧
  ((λ e, en_path e) <$> ft_entries (fw_table (v_fds v)) !! 4) = Some (Some ["t"%string]).
Proof. split; vm_compute; reflexivity. Qed.
