(* ===== verification/NetTypes.v ===== *)
(** * mcr-net: sockets, options and their checks

    The constants, errors, socket specifications, states, addresses, options and the checks
    on them (mcr-net constants.rs, error.rs, types.rs, options.rs, validation.rs), with the
    events and completions they use (mcr-win network/model.rs).

    Errors keep their variant, operation and errno; their texts, which only [Display]
    prints, are left out. *)

From S2P Require Import Prelude SysAbi.
From stdpp Require Import base gmap list strings.
From Stdlib Require Import ZArith Lia.
Open Scope Z_scope.

(** ** Error numbers of the network *)
Definition EPROTOTYPE : LinuxErrno := 91.
Definition ENOPROTOOPT : LinuxErrno := 92.
Definition EPROTONOSUPPORT : LinuxErrno := 93.
Definition ESOCKTNOSUPPORT : LinuxErrno := 94.
Definition EOPNOTSUPP : LinuxErrno := 95.
Definition EAFNOSUPPORT : LinuxErrno := 97.
Definition EISCONN : LinuxErrno := 106.
Definition ENOTCONN : LinuxErrno := 107.
Definition ESHUTDOWN : LinuxErrno := 108.
Definition EALREADY : LinuxErrno := 114.
Definition EINPROGRESS : LinuxErrno := 115.

(** ** Constants (constants.rs) *)
Definition LINUX_AF_UNIX : Z := 1.
Definition LINUX_AF_INET : Z := 2.
Definition LINUX_AF_INET6 : Z := 10.
Definition LINUX_SOCK_STREAM : Z := 1.
Definition LINUX_SOCK_DGRAM : Z := 2.
Definition LINUX_SOCK_RAW : Z := 3.
Definition LINUX_SOCK_NONBLOCK : Z := 0x800.
Definition LINUX_SOCK_CLOEXEC : Z := 0x80000.
Definition LINUX_SOCK_TYPE_MASK : Z := 0xf.
Definition LINUX_SOCK_FLAG_MASK : Z := Z.lor LINUX_SOCK_NONBLOCK LINUX_SOCK_CLOEXEC.
Definition LINUX_IPPROTO_IP : Z := 0.
Definition LINUX_IPPROTO_TCP : Z := 6.
Definition LINUX_IPPROTO_UDP : Z := 17.
Definition LINUX_SOL_SOCKET : Z := 1.
Definition LINUX_IPPROTO_TCP_LEVEL : Z := 6.
Definition LINUX_SO_REUSEADDR : Z := 2.
Definition LINUX_SO_TYPE : Z := 3.
Definition LINUX_SO_ERROR : Z := 4.
Definition LINUX_SO_KEEPALIVE : Z := 9.
Definition LINUX_SO_SNDBUF : Z := 7.
Definition LINUX_SO_RCVBUF : Z := 8.
Definition LINUX_TCP_NODELAY : Z := 1.
Definition LINUX_SHUT_RD : Z := 0.
Definition LINUX_SHUT_WR : Z := 1.
Definition LINUX_SHUT_RDWR : Z := 2.
Definition DEFAULT_SOCKET_BUFFER_SIZE : Z := 212992.
Definition UNIX_SOCKET_PATH_LEN : Z := 108.

(** ** Errors (error.rs) *)
Record HostIoError : Type := { hio_errno : LinuxErrno }.

Definition host_io_unsupported : HostIoError := {| hio_errno := ENOSYS |}.

Inductive SocketOperation : Type :=
| OpAccept | OpAllocateSocketId | OpBind | OpClose | OpConnect | OpCreateSocket | OpGetSocketOption
| OpListen | OpPoll | OpRecv | OpRecvMsg | OpSend | OpSendMsg | OpSetSocketOption | OpShutdown.

Inductive SocketError : Type :=
| InvalidInputError (operation : SocketOperation) (errno : LinuxErrno)
| UnsupportedError (operation : SocketOperation) (errno : LinuxErrno)
| InvalidStateError (operation : SocketOperation) (errno : LinuxErrno)
| WouldBlockError (operation : SocketOperation) (errno : LinuxErrno)
| HostIo (errno : LinuxErrno)
| BadSocket (id : Z).

Definition would_block (operation : SocketOperation) : SocketError := WouldBlockError operation EWOULDBLOCK.

Definition with_errno (errno : LinuxErrno) (e : SocketError) : SocketError :=
  match e with
  | InvalidInputError op _ => InvalidInputError op errno
  | UnsupportedError op _ => UnsupportedError op errno
  | InvalidStateError op _ => InvalidStateError op errno
  | WouldBlockError op _ => WouldBlockError op errno
  | HostIo _ => HostIo errno
  | BadSocket id => BadSocket id
  end.

Definition from_host (e : HostIoError) : SocketError := HostIo (hio_errno e).

Definition socket_errno (e : SocketError) : LinuxErrno :=
  match e with
  | InvalidInputError _ errno | UnsupportedError _ errno | InvalidStateError _ errno
  | WouldBlockError _ errno | HostIo errno => errno
  | BadSocket _ => EBADF
  end.

(** ** Domains, types and protocols (types.rs) *)
Inductive SocketDomain : Type := DomainUnix | DomainInet | DomainInet6.
#[export] Instance SocketDomain_eq_dec : EqDecision SocketDomain.
Proof. solve_decision. Defined.

Inductive SocketType : Type := Stream | Datagram.
#[export] Instance SocketType_eq_dec : EqDecision SocketType.
Proof. solve_decision. Defined.

Inductive SocketProtocol : Type := ProtoDefault | Tcp | Udp.
#[export] Instance SocketProtocol_eq_dec : EqDecision SocketProtocol.
Proof. solve_decision. Defined.

Definition domain_from_linux (value : Z) : outcome SocketDomain SocketError :=
  if value =? LINUX_AF_UNIX then Ok DomainUnix
  else if value =? LINUX_AF_INET then Ok DomainInet
  else if value =? LINUX_AF_INET6 then Ok DomainInet6
  else Err (UnsupportedError OpCreateSocket EAFNOSUPPORT).

Definition type_from_linux (value : Z) : outcome SocketType SocketError :=
  if value =? LINUX_SOCK_STREAM then Ok Stream
  else if value =? LINUX_SOCK_DGRAM then Ok Datagram
  else Err (UnsupportedError OpCreateSocket ESOCKTNOSUPPORT).

Definition type_to_linux (t : SocketType) : Z :=
  match t with Stream => LINUX_SOCK_STREAM | Datagram => LINUX_SOCK_DGRAM end.

Definition protocol_from_linux (value : Z) : outcome SocketProtocol SocketError :=
  if value =? LINUX_IPPROTO_IP then Ok ProtoDefault
  else if value =? LINUX_IPPROTO_TCP then Ok Tcp
  else if value =? LINUX_IPPROTO_UDP then Ok Udp
  else Err (UnsupportedError OpCreateSocket EPROTONOSUPPORT).

Record SocketCreationFlags : Type := { sf_nonblocking : bool; sf_cloexec : bool }.

Definition creation_flags_from_linux (kind : Z) : SocketCreationFlags :=
  {| sf_nonblocking := has_bits kind LINUX_SOCK_NONBLOCK; sf_cloexec := has_bits kind LINUX_SOCK_CLOEXEC |}.

Record SocketSpec : Type := {
  sp_domain : SocketDomain; sp_type : SocketType; sp_protocol : SocketProtocol; sp_flags : SocketCreationFlags;
}.

Definition validate_socket_protocol (socket_type : SocketType) (protocol : SocketProtocol)
    : outcome unit SocketError :=
  match socket_type, protocol with
  | Stream, (ProtoDefault | Tcp) | Datagram, (ProtoDefault | Udp) => Ok tt
  | Stream, Udp | Datagram, Tcp => Err (UnsupportedError OpCreateSocket EPROTOTYPE)
  end.

Definition with_flags (domain : SocketDomain) (socket_type : SocketType) (protocol : SocketProtocol)
    (flags : SocketCreationFlags) : outcome SocketSpec SocketError :=
  let? _ := validate_socket_protocol socket_type protocol in
  Ok {| sp_domain := domain; sp_type := socket_type; sp_protocol := protocol; sp_flags := flags |}.

Definition spec_new (domain : SocketDomain) (socket_type : SocketType) (protocol : SocketProtocol)
    : outcome SocketSpec SocketError :=
  with_flags domain socket_type protocol {| sf_nonblocking := false; sf_cloexec := false |}.

Definition spec_from_linux (domain kind protocol : Z) : outcome SocketSpec SocketError :=
  if negb (without_bits kind (Z.lor LINUX_SOCK_TYPE_MASK LINUX_SOCK_FLAG_MASK) =? 0)
  then Err (InvalidInputError OpCreateSocket EINVAL) else
  let? socket_type := type_from_linux (Z.land kind LINUX_SOCK_TYPE_MASK) in
  let? domain := domain_from_linux domain in
  let? protocol := protocol_from_linux protocol in
  with_flags domain socket_type protocol (creation_flags_from_linux kind).

Definition effective_protocol_of (domain : SocketDomain) (socket_type : SocketType)
    (protocol : SocketProtocol) : SocketProtocol :=
  match domain, socket_type, protocol with
  | DomainUnix, _, ProtoDefault => ProtoDefault
  | _, Stream, ProtoDefault => Tcp
  | _, Datagram, ProtoDefault => Udp
  | _, _, protocol => protocol
  end.

(** ** Addresses and states *)
Inductive SocketAddress : Type :=
| AddrUnix (path : list Z) (len : Z)
| AddrInet (address : list Z) (port : Z)
| AddrInet6 (address : list Z) (port flowinfo scope_id : Z).
#[export] Instance SocketAddress_eq_dec : EqDecision SocketAddress.
Proof. solve_decision. Defined.

(** The stored path is an array of 108 bytes. *)
Definition unix_address (path : list Z) : outcome SocketAddress SocketError :=
  if UNIX_SOCKET_PATH_LEN <? Z.of_nat (length path) then Err (InvalidInputError OpBind EINVAL) else
  Ok (AddrUnix (path ++ replicate (Z.to_nat UNIX_SOCKET_PATH_LEN - length path) 0) (Z.of_nat (length path))).

Definition unix_path_bytes (a : SocketAddress) : option (list Z) :=
  match a with AddrUnix path len => Some (take (Z.to_nat len) path) | _ => None end.

Definition address_domain (a : SocketAddress) : SocketDomain :=
  match a with AddrUnix _ _ => DomainUnix | AddrInet _ _ => DomainInet | AddrInet6 _ _ _ _ => DomainInet6 end.

Definition unspecified_for_domain (domain : SocketDomain) : SocketAddress :=
  match domain with
  | DomainUnix => AddrUnix (replicate (Z.to_nat UNIX_SOCKET_PATH_LEN) 0) 0
  | DomainInet => AddrInet [0; 0; 0; 0] 0
  | DomainInet6 => AddrInet6 (replicate 16 0) 0 0 0
  end.

Inductive SocketState : Type :=
| Created
| Bound (address : SocketAddress)
| Connecting (address : SocketAddress)
| Listening (address : SocketAddress)
| Connected (local peer : SocketAddress)
| Closed.
#[export] Instance SocketState_eq_dec : EqDecision SocketState.
Proof. solve_decision. Defined.

Definition state_local_address (s : SocketState) : option SocketAddress :=
  match s with
  | Bound address | Listening address => Some address
  | Connected local _ => Some local
  | Created | Connecting _ | Closed => None
  end.

Definition state_peer_address (s : SocketState) : option SocketAddress :=
  match s with Connected _ peer => Some peer | _ => None end.

Record ShutdownFlags : Type := { sd_read : bool; sd_write : bool }.
Inductive ShutdownHow : Type := ShutRead | ShutWrite | ShutReadWrite.

Definition shutdown_apply (how : ShutdownHow) (f : ShutdownFlags) : ShutdownFlags :=
  match how with
  | ShutRead => {| sd_read := true; sd_write := sd_write f |}
  | ShutWrite => {| sd_read := sd_read f; sd_write := true |}
  | ShutReadWrite => {| sd_read := true; sd_write := true |}
  end.

Definition how_from_linux (value : Z) : outcome ShutdownHow SocketError :=
  if value =? LINUX_SHUT_RD then Ok ShutRead
  else if value =? LINUX_SHUT_WR then Ok ShutWrite
  else if value =? LINUX_SHUT_RDWR then Ok ShutReadWrite
  else Err (InvalidInputError OpShutdown EINVAL).

(** ** Options (options.rs) *)
Record SocketOptions : Type := {
  so_reuse_addr : bool; so_keep_alive : bool; so_send_buffer_size : Z; so_receive_buffer_size : Z;
  so_tcp_no_delay : bool;
}.

Definition options_default : SocketOptions :=
  {| so_reuse_addr := false; so_keep_alive := false; so_send_buffer_size := DEFAULT_SOCKET_BUFFER_SIZE;
     so_receive_buffer_size := DEFAULT_SOCKET_BUFFER_SIZE; so_tcp_no_delay := false |}.

Inductive SocketOptionName : Type :=
| OptSocketType | OptSocketError | OptReuseAddr | OptKeepAlive | OptSendBuffer | OptReceiveBuffer | OptTcpNoDelay.
#[export] Instance SocketOptionName_eq_dec : EqDecision SocketOptionName.
Proof. solve_decision. Defined.

Definition option_from_linux (level option : Z) : outcome SocketOptionName SocketError :=
  if level =? LINUX_SOL_SOCKET then
    if option =? LINUX_SO_TYPE then Ok OptSocketType
    else if option =? LINUX_SO_ERROR then Ok OptSocketError
    else if option =? LINUX_SO_REUSEADDR then Ok OptReuseAddr
    else if option =? LINUX_SO_KEEPALIVE then Ok OptKeepAlive
    else if option =? LINUX_SO_SNDBUF then Ok OptSendBuffer
    else if option =? LINUX_SO_RCVBUF then Ok OptReceiveBuffer
    else Err (UnsupportedError OpGetSocketOption ENOPROTOOPT)
  else if (level =? LINUX_IPPROTO_TCP_LEVEL) && (option =? LINUX_TCP_NODELAY) then Ok OptTcpNoDelay
  else Err (UnsupportedError OpGetSocketOption ENOPROTOOPT).

Definition is_read_only (o : SocketOptionName) : bool :=
  match o with OptSocketType | OptSocketError => true | _ => false end.

Definition bool_to_socket_option (b : bool) : Z := if b then 1 else 0.
Definition socket_option_to_bool (value : Z) : bool := negb (value =? 0).

Definition validate_buffer_size (value : Z) : outcome Z SocketError :=
  if value =? 0 then Err (InvalidInputError OpSetSocketOption EINVAL) else Ok value.

(** ** The guest's socket *)
Record GuestSocket : Type := {
  gs_id : Z; gs_domain : SocketDomain; gs_type : SocketType; gs_protocol : SocketProtocol;
  gs_flags : SocketCreationFlags; gs_state : SocketState; gs_shutdown : ShutdownFlags;
  gs_options : SocketOptions; gs_last_error : option LinuxErrno;
}.

Definition socket_new (id : Z) (spec : SocketSpec) : GuestSocket :=
  {| gs_id := id; gs_domain := sp_domain spec; gs_type := sp_type spec; gs_protocol := sp_protocol spec;
     gs_flags := sp_flags spec; gs_state := Created; gs_shutdown := {| sd_read := false; sd_write := false |};
     gs_options := options_default; gs_last_error := None |}.

Definition effective_protocol (s : GuestSocket) : SocketProtocol :=
  effective_protocol_of (gs_domain s) (gs_type s) (gs_protocol s).

Definition set_gs_state (state : SocketState) (s : GuestSocket) : GuestSocket :=
  {| gs_id := gs_id s; gs_domain := gs_domain s; gs_type := gs_type s; gs_protocol := gs_protocol s;
     gs_flags := gs_flags s; gs_state := state; gs_shutdown := gs_shutdown s; gs_options := gs_options s;
     gs_last_error := gs_last_error s |}.

Definition set_gs_shutdown (shutdown : ShutdownFlags) (s : GuestSocket) : GuestSocket :=
  {| gs_id := gs_id s; gs_domain := gs_domain s; gs_type := gs_type s; gs_protocol := gs_protocol s;
     gs_flags := gs_flags s; gs_state := gs_state s; gs_shutdown := shutdown; gs_options := gs_options s;
     gs_last_error := gs_last_error s |}.

Definition set_gs_last_error (error : option LinuxErrno) (s : GuestSocket) : GuestSocket :=
  {| gs_id := gs_id s; gs_domain := gs_domain s; gs_type := gs_type s; gs_protocol := gs_protocol s;
     gs_flags := gs_flags s; gs_state := gs_state s; gs_shutdown := gs_shutdown s; gs_options := gs_options s;
     gs_last_error := error |}.

Definition set_gs_options (options : SocketOptions) (s : GuestSocket) : GuestSocket :=
  {| gs_id := gs_id s; gs_domain := gs_domain s; gs_type := gs_type s; gs_protocol := gs_protocol s;
     gs_flags := gs_flags s; gs_state := gs_state s; gs_shutdown := gs_shutdown s; gs_options := options;
     gs_last_error := gs_last_error s |}.

Definition set_gs_nonblocking (nonblocking : bool) (s : GuestSocket) : GuestSocket :=
  {| gs_id := gs_id s; gs_domain := gs_domain s; gs_type := gs_type s; gs_protocol := gs_protocol s;
     gs_flags := {| sf_nonblocking := nonblocking; sf_cloexec := sf_cloexec (gs_flags s) |};
     gs_state := gs_state s; gs_shutdown := gs_shutdown s; gs_options := gs_options s;
     gs_last_error := gs_last_error s |}.

(** ** Checks (validation.rs) *)
Definition validate_connect (socket : GuestSocket) (id : Z) : outcome unit SocketError :=
  match gs_state socket with
  | Created | Bound _ => Ok tt
  | Connecting _ => Err (InvalidStateError OpConnect EALREADY)
  | Connected _ _ => Err (InvalidStateError OpConnect EISCONN)
  | Listening _ => Err (InvalidStateError OpConnect EINVAL)
  | Closed => Err (BadSocket id)
  end.

(** The last [match] of the two checks on connected sockets. *)
Definition validate_connected_state (socket : GuestSocket) (operation : SocketOperation)
    : outcome unit SocketError :=
  match gs_state socket with
  | Connected _ _ => Ok tt
  | Created | Bound _ | Connecting _ | Listening _ => Err (InvalidStateError operation ENOTCONN)
  | Closed => Err (BadSocket (gs_id socket))
  end.

Definition is_tcp_stream (socket : GuestSocket) : bool :=
  bool_decide (gs_type socket = Stream) && bool_decide (effective_protocol socket = Tcp).
Definition is_udp_datagram (socket : GuestSocket) : bool :=
  bool_decide (gs_type socket = Datagram) && bool_decide (effective_protocol socket = Udp).

Definition validate_connected_stream_io (socket : GuestSocket) (operation : SocketOperation)
    : outcome unit SocketError :=
  if negb (is_tcp_stream socket) then Err (UnsupportedError operation ENOSYS)
  else validate_connected_state socket operation.

Definition validate_connected_io (socket : GuestSocket) (operation : SocketOperation)
    : outcome unit SocketError :=
  if is_tcp_stream socket then validate_connected_stream_io socket operation
  else if negb (is_udp_datagram socket) then Err (UnsupportedError operation ENOSYS)
  else validate_connected_state socket operation.

Definition validate_datagram_io (socket : GuestSocket) (operation : SocketOperation)
    : outcome unit SocketError :=
  if negb (is_udp_datagram socket) then Err (UnsupportedError operation ENOSYS) else
  match gs_state socket with
  | Created | Bound _ | Connecting _ | Connected _ _ => Ok tt
  | Listening _ => Err (InvalidStateError operation EINVAL)
  | Closed => Err (BadSocket (gs_id socket))
  end.

Definition validate_address_domain (domain : SocketDomain) (address : SocketAddress)
    : outcome unit SocketError :=
  guard_ok (bool_decide (domain = address_domain address)) (InvalidInputError OpBind EAFNOSUPPORT).

(** ** Events and completions (mcr-win network/model.rs, types.rs) *)
Record SocketEvents : Type := {
  ev_readable : bool; ev_writable : bool; ev_priority : bool; ev_error : bool; ev_hang_up : bool;
  ev_invalid : bool;
}.
#[export] Instance SocketEvents_eq_dec : EqDecision SocketEvents.
Proof. solve_decision. Defined.

Definition no_events : SocketEvents :=
  {| ev_readable := false; ev_writable := false; ev_priority := false; ev_error := false;
     ev_hang_up := false; ev_invalid := false |}.

Inductive SocketCompletionKind : Type :=
| CompAccept | CompConnect | CompReceive | CompSend | CompPeerClosed | CompClosed | CompError.

Definition events (readable writable error hang_up : bool) : SocketEvents :=
  {| ev_readable := readable; ev_writable := writable; ev_priority := false; ev_error := error;
     ev_hang_up := hang_up; ev_invalid := false |}.

Definition completion_readiness (kind : SocketCompletionKind) : SocketEvents :=
  match kind with
  | CompAccept | CompReceive => events true false false false
  | CompConnect | CompSend => events false true false false
  | CompPeerClosed => events true false false true
  | CompClosed => events false false true true
  | CompError => events false false true false
  end.

Record SocketReadinessToken : Type := { tk_socket : Z; tk_generation : Z }.
#[export] Instance SocketReadinessToken_eq_dec : EqDecision SocketReadinessToken.
Proof. solve_decision. Defined.
#[export] Instance SocketReadinessToken_countable : Countable SocketReadinessToken.
Proof.
  refine (inj_countable' (λ t, (tk_socket t, tk_generation t)) (λ p, {| tk_socket := p.1; tk_generation := p.2 |}) _).
  by intros [].
Defined.

Record HostSocketCompletion : Type := { co_token : SocketReadinessToken; co_kind : SocketCompletionKind }.

Inductive SocketConnectFastPath : Type := ConnectUnsupported | ConnectPending | ConnectDone.
Inductive SocketConnectFastPathCompletion : Type := CompletionInactive | CompletionPending | CompletionDone.
#[export] Instance SocketConnectFastPathCompletion_eq_dec : EqDecision SocketConnectFastPathCompletion.
Proof. solve_decision. Defined.
