(* ===== verification/NetTable.v ===== *)
(** * mcr-net: the socket table

    [GuestSocketTable] (mcr-net table.rs) keeps the guest's sockets, their host handles and
    the readiness that completed host operations have reported, over a host transport
    (transport.rs).

    The host's sockets are not code of the repository: they are the class [HostSockets], whose
    operations act on a world of their own.  The state of the model is the table and that
    world.  A receive gives the bytes it stored, so that its count is their number. *)

From S2P Require Import Prelude SysAbi NetTypes.
From stdpp Require Import base gmap list strings.
From Stdlib Require Import ZArith Lia.
Open Scope Z_scope.

(** ** The transport (transport.rs) *)
Inductive SocketAcceptFastPath (Handle : Type) : Type :=
| AcceptUnsupported
| AcceptPending
| Accepted (handle : Handle) (peer : SocketAddress).
Arguments AcceptUnsupported {Handle}.
Arguments AcceptPending {Handle}.
Arguments Accepted {Handle} handle peer.

Record HostRioCapability : Type := { rio_supported : bool; rio_function_count : Z }.

(** [HostSocketTransport], [HostSocketHandle] and [poll_sockets]. *)
Class HostSockets (World Handle Transport BatchPoll : Type) : Type := {
  open_socket : Transport → SocketSpec → SocketOptions → ST World HostIoError Handle;
  h_bind : Handle → SocketAddress → ST World HostIoError SocketAddress;
  h_listen : Handle → Z → ST World HostIoError unit;
  h_accept_fast_path : Handle → SocketReadinessToken → SocketSpec → ST World HostIoError (SocketAcceptFastPath Handle);
  h_accept : Handle → ST World HostIoError (Handle * SocketAddress);
  h_set_nonblocking : Handle → bool → ST World HostIoError unit;
  h_connect_fast_path : Handle → SocketReadinessToken → SocketAddress → ST World HostIoError SocketConnectFastPath;
  h_connect : Handle → SocketAddress → ST World HostIoError unit;
  h_complete_connect_fast_path : Handle → ST World HostIoError SocketConnectFastPathCompletion;
  h_rio_capability : Handle → ST World HostIoError HostRioCapability;
  h_take_error : Handle → ST World HostIoError (option HostIoError);
  h_local_addr : Handle → ST World HostIoError SocketAddress;
  h_peer_addr : Handle → ST World HostIoError SocketAddress;
  h_send : Handle → list Z → ST World HostIoError Z;
  h_send_vectored : Handle → list (list Z) → ST World HostIoError Z;
  h_send_to : Handle → list Z → SocketAddress → ST World HostIoError Z;
  h_send_to_vectored : Handle → list (list Z) → SocketAddress → ST World HostIoError Z;
  h_recv : Handle → Z → ST World HostIoError (list Z);
  h_recv_vectored : Handle → list Z → ST World HostIoError (list Z);
  h_recv_from : Handle → Z → ST World HostIoError (list Z * SocketAddress);
  h_recv_from_vectored : Handle → list Z → ST World HostIoError (list Z * SocketAddress);
  h_poll : Handle → SocketEvents → option Z → ST World HostIoError SocketEvents;
  h_prepare_batch_poll : Handle → SocketEvents → option Z → ST World HostIoError (option BatchPoll);
  h_finish_batch_poll : Handle → SocketEvents → ST World HostIoError SocketEvents;
  h_drain_readiness_completions : Handle → SocketReadinessToken → ST World HostIoError (list HostSocketCompletion);
  h_shutdown : Handle → ShutdownHow → ST World HostIoError unit;
  host_poll_sockets : list BatchPoll → option Z → ST World HostIoError (list SocketEvents);
}.

(** *** What a handle does by default with vectors *)
Fixpoint checked_iovec_total_len (lengths : list Z) (total : Z) : outcome Z HostIoError :=
  match lengths with
  | [] => Ok total
  | len :: lengths =>
      let? total := ok_or (checked_add64 total len) {| hio_errno := EINVAL |} in
      checked_iovec_total_len lengths total
  end.

Definition flatten_io_slices (buffers : list (list Z)) : outcome (list Z) HostIoError :=
  let? _ := checked_iovec_total_len ((λ b, Z.of_nat (length b)) <$> buffers) 0 in Ok (mjoin buffers).

(** What is stored in each buffer. *)
Fixpoint scatter_loop (lengths : list Z) (bytes : list Z) : list (list Z) :=
  match lengths with
  | [] => []
  | len :: lengths => take (Z.to_nat len) bytes :: scatter_loop lengths (drop (Z.to_nat len) bytes)
  end.

Definition scatter_io_slices (lengths : list Z) (bytes : list Z) (count : Z)
    : outcome (list (list Z)) HostIoError :=
  if Z.of_nat (length bytes) <? count then Err {| hio_errno := EINVAL |}
  else Ok (scatter_loop lengths (take (Z.to_nat count) bytes)).

Section defaults.
Context {World : Type}.

Definition send_vectored_default (send : list Z → ST World HostIoError Z) (buffers : list (list Z))
    : ST World HostIoError Z :=
  let* buffer := lift (flatten_io_slices buffers) in send buffer.

Definition recv_vectored_default (recv : Z → ST World HostIoError (list Z)) (lengths : list Z)
    : ST World HostIoError (list (list Z)) :=
  let* capacity := lift (checked_iovec_total_len lengths 0) in
  let* bytes := recv capacity in
  lift (scatter_io_slices lengths bytes (Z.of_nat (length bytes))).

(** [NoopHostSocketTransport]. *)
Definition noop_open_socket {Handle} (_ : SocketSpec) (_ : SocketOptions) : ST World HostIoError Handle :=
  throw host_io_unsupported.
End defaults.

(** ** Readiness *)
Definition merge_socket_events (target update : SocketEvents) : SocketEvents :=
  {| ev_readable := ev_readable target || ev_readable update; ev_writable := ev_writable target || ev_writable update;
     ev_priority := ev_priority target || ev_priority update; ev_error := ev_error target || ev_error update;
     ev_hang_up := ev_hang_up target || ev_hang_up update; ev_invalid := ev_invalid target || ev_invalid update |}.

Definition socket_readiness_for_interest (readiness interest : SocketEvents) : SocketEvents :=
  {| ev_readable := ev_readable readiness && ev_readable interest;
     ev_writable := ev_writable readiness && ev_writable interest;
     ev_priority := ev_priority readiness && ev_priority interest;
     ev_error := ev_error readiness; ev_hang_up := ev_hang_up readiness; ev_invalid := ev_invalid readiness |}.

Abbreviation SocketReadinessCache := (gmap SocketReadinessToken SocketEvents).

Definition apply_completion (active : SocketReadinessToken) (completion : HostSocketCompletion)
    (ready : SocketReadinessCache) : SocketReadinessCache :=
  if bool_decide (co_token completion ≠ active) then ready else
  <[active := merge_socket_events (default no_events (ready !! active))
                (completion_readiness (co_kind completion))]> ready.

Definition readiness (active : SocketReadinessToken) (interest : SocketEvents)
    (ready : SocketReadinessCache) : option SocketEvents :=
  match ready !! active with
  | Some r =>
      let r := socket_readiness_for_interest r interest in
      if bool_decide (r = no_events) then None else Some r
  | None => None
  end.

Definition clear_socket (id : Z) (ready : SocketReadinessCache) : SocketReadinessCache :=
  filter (λ p, tk_socket p.1 ≠ id) ready.

(** ** The table *)
Section table.
Context {World Handle Transport BatchPoll : Type} `{!HostSockets World Handle Transport BatchPoll}.

Record HostSocketEntry : Type := { he_handle : Handle; he_token : SocketReadinessToken }.

Record GuestSocketTable : Type := {
  nt_next_id : Z;
  nt_next_generation : Z;
  nt_sockets : gmap Z GuestSocket;
  nt_handles : gmap Z HostSocketEntry;
  nt_ready : SocketReadinessCache;
  nt_transport : option Transport;
}.

Record Net : Type := { n_table : GuestSocketTable; n_world : World }.

Definition NetM : Type → Type := ST Net SocketError.

Definition table_new (transport : option Transport) : GuestSocketTable :=
  {| nt_next_id := 1; nt_next_generation := 1; nt_sockets := ∅; nt_handles := ∅; nt_ready := ∅;
     nt_transport := transport |}.

Definition set_sockets (f : gmap Z GuestSocket → gmap Z GuestSocket) (n : Net) : Net :=
  let t := n_table n in
  {| n_table := {| nt_next_id := nt_next_id t; nt_next_generation := nt_next_generation t;
                   nt_sockets := f (nt_sockets t); nt_handles := nt_handles t; nt_ready := nt_ready t;
                   nt_transport := nt_transport t |};
     n_world := n_world n |}.

Definition set_handles (f : gmap Z HostSocketEntry → gmap Z HostSocketEntry) (n : Net) : Net :=
  let t := n_table n in
  {| n_table := {| nt_next_id := nt_next_id t; nt_next_generation := nt_next_generation t;
                   nt_sockets := nt_sockets t; nt_handles := f (nt_handles t); nt_ready := nt_ready t;
                   nt_transport := nt_transport t |};
     n_world := n_world n |}.

Definition set_ready (f : SocketReadinessCache → SocketReadinessCache) (n : Net) : Net :=
  let t := n_table n in
  {| n_table := {| nt_next_id := nt_next_id t; nt_next_generation := nt_next_generation t;
                   nt_sockets := nt_sockets t; nt_handles := nt_handles t; nt_ready := f (nt_ready t);
                   nt_transport := nt_transport t |};
     n_world := n_world n |}.

Definition set_counters (next_id next_generation : Z) (n : Net) : Net :=
  let t := n_table n in
  {| n_table := {| nt_next_id := next_id; nt_next_generation := next_generation;
                   nt_sockets := nt_sockets t; nt_handles := nt_handles t; nt_ready := nt_ready t;
                   nt_transport := nt_transport t |};
     n_world := n_world n |}.

Definition set_world (w : World) (n : Net) : Net := {| n_table := n_table n; n_world := w |}.

(** A host operation, with its own result. *)
Definition host_result {A} (m : ST World HostIoError A) : NetM (outcome A HostIoError) :=
  λ n, match m (n_world n) with
       | (Panic, w) => (Panic, set_world w n)
       | (r, w) => (Ok r, set_world w n)
       end.

(** A host operation whose error is returned: [map_err(SocketError::from_host)?]. *)
Definition host {A} (m : ST World HostIoError A) : NetM A :=
  λ n, match m (n_world n) with
       | (Ok a, w) => (Ok a, set_world w n)
       | (Err e, w) => (Err (from_host e), set_world w n)
       | (Panic, w) => (Panic, set_world w n)
       end.

(** *** Sockets and identifiers *)
Definition socket (sid : Z) : NetM GuestSocket :=
  let* n := gets id in lift (ok_or (nt_sockets (n_table n) !! sid) (BadSocket sid)).

(** [socket_mut]: change a socket that is there. *)
Definition update_socket (sid : Z) (f : GuestSocket → GuestSocket) : NetM unit :=
  do* socket sid; modify (set_sockets (alter f sid)).

Definition allocate_id : NetM Z :=
  let* n := gets id in
  let sid := nt_next_id (n_table n) in
  if sid =? 0 then throw (InvalidInputError OpAllocateSocketId EINVAL) else
  do* modify (set_counters (default 0 (checked_add64 sid 1)) (nt_next_generation (n_table n)));
  ret sid.

Definition allocate_readiness_token (sid : Z) : NetM SocketReadinessToken :=
  let* n := gets id in
  let generation := nt_next_generation (n_table n) in
  let* next := lift (ok_or (checked_add64 generation 1) (InvalidInputError OpAllocateSocketId EINVAL)) in
  do* modify (set_counters (nt_next_id (n_table n)) next);
  ret {| tk_socket := sid; tk_generation := generation |}.

Definition create_socket_from_spec (spec : SocketSpec) : NetM Z :=
  let* _ := lift (validate_socket_protocol (sp_type spec) (sp_protocol spec)) in
  let* sid := allocate_id in
  do* modify (set_sockets (insert sid (socket_new sid spec)));
  ret sid.

Definition create_socket (domain : SocketDomain) (socket_type : SocketType) (protocol : SocketProtocol) : NetM Z :=
  let* spec := lift (spec_new domain socket_type protocol) in create_socket_from_spec spec.

Definition create_socket_with_handle (spec : SocketSpec) (handle : Handle) : NetM Z :=
  let* _ := lift (validate_socket_protocol (sp_type spec) (sp_protocol spec)) in
  let* sid := allocate_id in
  let* token := allocate_readiness_token sid in
  do* modify (set_sockets (insert sid (socket_new sid spec)));
  do* modify (set_handles (insert sid {| he_handle := handle; he_token := token |}));
  ret sid.

Definition socket_spec (sid : Z) : NetM SocketSpec :=
  let* s := socket sid in
  lift (with_flags (gs_domain s) (gs_type s) (gs_protocol s) (gs_flags s)).

(** *** Host handles *)
Definition host_entry_mut (sid : Z) (operation : SocketOperation) : NetM HostSocketEntry :=
  let* n := gets id in
  lift (ok_or (nt_handles (n_table n) !! sid) (UnsupportedError operation ENOSYS)).

Definition ensure_host_entry_mut (sid : Z) (operation : SocketOperation) : NetM HostSocketEntry :=
  let* n := gets id in
  do* match nt_handles (n_table n) !! sid with
      | Some _ => ret tt
      | None =>
          let* spec := socket_spec sid in
          if bool_decide (sp_domain spec = DomainUnix) then throw (UnsupportedError operation ENOSYS) else
          let* s := socket sid in
          let* transport := lift (ok_or (nt_transport (n_table n)) (UnsupportedError operation ENOSYS)) in
          let* handle := host (open_socket transport spec (gs_options s)) in
          let* token := allocate_readiness_token sid in
          modify (set_handles (insert sid {| he_handle := handle; he_token := token |}))
      end;
  host_entry_mut sid operation.

Definition socket_uses_host_transport (sid : Z) : NetM bool :=
  let* s := socket sid in
  let* n := gets id in
  ret (bool_decide (gs_domain s ≠ DomainUnix) &&
       (bool_decide (is_Some (nt_transport (n_table n))) || bool_decide (is_Some (nt_handles (n_table n) !! sid)))).

Definition clear_readiness (sid : Z) : NetM unit := modify (set_ready (clear_socket sid)).

Definition record_host_error (sid : Z) (e : HostIoError) : NetM SocketError :=
  do* modify (set_sockets (alter (set_gs_last_error (Some (hio_errno e))) sid));
  ret (from_host e).

(** The result of an I/O operation of the host: its error is recorded in the socket. *)
Definition recording {A} (sid : Z) (r : outcome A HostIoError) : NetM A :=
  match r with
  | Ok a => ret a
  | Err e => let* error := record_host_error sid e in throw error
  | Panic => lift Panic
  end.

(** *** Connecting *)
Definition finish_nonblocking_connect (sid : Z) : NetM unit :=
  let* s := socket sid in
  match gs_state s with
  | Connecting address =>
      let* n := gets id in
      let connected local peer :=
        update_socket sid (λ s, set_gs_last_error None (set_gs_state (Connected local peer) s)) in
      match nt_handles (n_table n) !! sid with
      | None => connected (unspecified_for_domain (address_domain address)) address
      | Some entry =>
          let* progress := host (h_complete_connect_fast_path (he_handle entry)) in
          if bool_decide (progress = CompletionPending) then ret tt else
          let* error := host (h_take_error (he_handle entry)) in
          match error with
          | Some e =>
              do* update_socket sid (λ s, set_gs_last_error (Some (hio_errno e)) (set_gs_state Created s));
              throw (from_host e)
          | None =>
              let* local := host (h_local_addr (he_handle entry)) in
              let* peer := host (h_peer_addr (he_handle entry)) in
              connected local peer
          end
      end
  | _ => ret tt
  end.

(** [let _ = self.finish_nonblocking_connect(id)], when the socket is connecting. *)
Definition finish_if_connecting (sid : Z) : NetM unit :=
  let* s := socket sid in
  match gs_state s with
  | Connecting _ =>
      λ n, match finish_nonblocking_connect sid n with (Panic, n) => (Panic, n) | (_, n) => (Ok tt, n) end
  | _ => ret tt
  end.

Definition local_address (sid : Z) : NetM (option SocketAddress) :=
  do* finish_if_connecting sid;
  let* s := socket sid in ret (state_local_address (gs_state s)).

Definition peer_address (sid : Z) : NetM (option SocketAddress) :=
  do* finish_if_connecting sid;
  let* s := socket sid in ret (state_peer_address (gs_state s)).

Definition connect_host_socket (sid : Z) (address : SocketAddress) : NetM (SocketAddress * SocketAddress) :=
  let* s := socket sid in
  let* entry := ensure_host_entry_mut sid OpConnect in
  let* fast := host (h_connect_fast_path (he_handle entry) (he_token entry) address) in
  do* match fast with
      | ConnectDone => ret tt
      | ConnectPending => throw (would_block OpConnect)
      | ConnectUnsupported => host (h_connect (he_handle entry) address)
      end;
  let* local := host (h_local_addr (he_handle entry)) in
  if is_udp_datagram s then ret (local, address) else
  let* peer := host (h_peer_addr (he_handle entry)) in
  ret (local, peer).

Definition connect (sid : Z) (address : SocketAddress) : NetM unit :=
  let* s := socket sid in
  let* _ := lift (validate_address_domain (gs_domain s) address) in
  let* _ := lift (validate_connect s sid) in
  let local := default (unspecified_for_domain (address_domain address)) (state_local_address (gs_state s)) in
  let* uses_host := socket_uses_host_transport sid in
  if uses_host then
    λ n, match connect_host_socket sid address n with
         | (Ok (local, peer), n) => update_socket sid (set_gs_state (Connected local peer)) n
         | (Err e, n) =>
             if socket_errno e =? EWOULDBLOCK then
               (do* update_socket sid (λ s, set_gs_last_error (Some EINPROGRESS) (set_gs_state (Connecting address) s));
                throw (with_errno EINPROGRESS (would_block OpConnect))) n
             else (Err e, n)
         | (Panic, n) => (Panic, n)
         end
  else update_socket sid (set_gs_state (Connected local address)).

(** *** Options *)
Definition option_value (option : SocketOptionName) (s : GuestSocket) : Z :=
  match option with
  | OptSocketType => type_to_linux (gs_type s)
  | OptSocketError => default 0 (gs_last_error s)
  | OptReuseAddr => bool_to_socket_option (so_reuse_addr (gs_options s))
  | OptKeepAlive => bool_to_socket_option (so_keep_alive (gs_options s))
  | OptSendBuffer => so_send_buffer_size (gs_options s)
  | OptReceiveBuffer => so_receive_buffer_size (gs_options s)
  | OptTcpNoDelay => bool_to_socket_option (so_tcp_no_delay (gs_options s))
  end.

(** The value of an option; reading [SO_ERROR] clears it. *)
Definition read_option (sid : Z) (option : SocketOptionName) : NetM Z :=
  let* s := socket sid in
  do* (if bool_decide (option = OptSocketError) then update_socket sid (set_gs_last_error None) else ret tt);
  ret (option_value option s).

Definition get_option (sid : Z) (option : SocketOptionName) : NetM Z :=
  if bool_decide (option = OptSocketError) then
    let* s := socket sid in
    match gs_state s with
    | Connecting _ =>
        λ n, match finish_nonblocking_connect sid n with
             | (Ok tt, n) => read_option sid option n
             | (Err e, n) => (Ok (socket_errno e), set_sockets (alter (set_gs_last_error None) sid) n)
             | (Panic, n) => (Panic, n)
             end
    | _ => read_option sid option
    end
  else read_option sid option.

Definition store_option (option : SocketOptionName) (value : Z) (o : SocketOptions) : SocketOptions :=
  {| so_reuse_addr := if bool_decide (option = OptReuseAddr) then socket_option_to_bool value else so_reuse_addr o;
     so_keep_alive := if bool_decide (option = OptKeepAlive) then socket_option_to_bool value else so_keep_alive o;
     so_send_buffer_size := if bool_decide (option = OptSendBuffer) then value else so_send_buffer_size o;
     so_receive_buffer_size := if bool_decide (option = OptReceiveBuffer) then value else so_receive_buffer_size o;
     so_tcp_no_delay := if bool_decide (option = OptTcpNoDelay) then socket_option_to_bool value else so_tcp_no_delay o |}.

Definition set_option (sid : Z) (option : SocketOptionName) (value : Z) : NetM unit :=
  if is_read_only option then throw (InvalidInputError OpSetSocketOption EINVAL) else
  let* s := socket sid in
  do* match option with
      | OptSendBuffer | OptReceiveBuffer => let* _ := lift (validate_buffer_size value) in ret tt
      | OptTcpNoDelay =>
          if bool_decide (effective_protocol s ≠ Tcp) then throw (InvalidInputError OpSetSocketOption EINVAL)
          else ret tt
      | _ => ret tt
      end;
  update_socket sid (λ s, set_gs_options (store_option option value (gs_options s)) s).

Definition set_nonblocking (sid : Z) (nonblocking : bool) : NetM unit :=
  let* s := socket sid in
  if Bool.eqb (sf_nonblocking (gs_flags s)) nonblocking then ret tt else
  let* n := gets id in
  do* match nt_handles (n_table n) !! sid with
      | Some entry => host (h_set_nonblocking (he_handle entry) nonblocking)
      | None => ret tt
      end;
  update_socket sid (set_gs_nonblocking nonblocking).

(** *** Binding and listening *)
Definition bind_socket (sid : Z) (address : SocketAddress) : NetM unit :=
  let* s := socket sid in
  let* _ := lift (validate_address_domain (gs_domain s) address) in
  let* uses_host := (match gs_state s with Created => socket_uses_host_transport sid | _ => ret false end) in
  if uses_host then
    let* entry := ensure_host_entry_mut sid OpBind in
    let* bound := host (h_bind (he_handle entry) address) in
    update_socket sid (set_gs_state (Bound bound))
  else
    match gs_state s with
    | Created => update_socket sid (set_gs_state (Bound address))
    | Bound _ | Listening _ | Connecting _ | Connected _ _ => throw (InvalidStateError OpBind EINVAL)
    | Closed => throw (BadSocket sid)
    end.

Definition listen (sid backlog : Z) : NetM unit :=
  let* s := socket sid in
  if bool_decide (gs_type s ≠ Stream) then throw (InvalidStateError OpListen EOPNOTSUPP) else
  let* uses_host := (match gs_state s with Bound _ | Listening _ => socket_uses_host_transport sid | _ => ret false end) in
  do* (if uses_host then
         let* entry := ensure_host_entry_mut sid OpListen in host (h_listen (he_handle entry) backlog)
       else ret tt);
  match gs_state s with
  | Created | Connecting _ | Connected _ _ => throw (InvalidStateError OpListen EINVAL)
  | Bound address => update_socket sid (set_gs_state (Listening address))
  | Listening _ => ret tt
  | Closed => throw (BadSocket sid)
  end.

(** *** Accepting *)
Definition register_accepted_socket (spec : SocketSpec) (handle : Handle) (local peer : SocketAddress)
    : NetM (Z * SocketAddress) :=
  let* accepted := create_socket_with_handle spec handle in
  do* update_socket accepted (set_gs_state (Connected local peer));
  ret (accepted, peer).

Definition accept (sid : Z) : NetM (Z * SocketAddress) :=
  let* s := socket sid in
  match gs_state s with
  | Listening _ =>
      let* n := gets id in
      if negb (bool_decide (is_Some (nt_transport (n_table n)))) &&
         negb (bool_decide (is_Some (nt_handles (n_table n) !! sid))) then throw (would_block OpAccept) else
      let* spec := socket_spec sid in
      let local := default (unspecified_for_domain (sp_domain spec)) (state_local_address (gs_state s)) in
      let* entry := ensure_host_entry_mut sid OpAccept in
      let* accepted := host_result (h_accept (he_handle entry)) in
      match accepted with
      | Ok (handle, peer) => do* clear_readiness sid; register_accepted_socket spec handle local peer
      | Err e =>
          if negb (hio_errno e =? EWOULDBLOCK) then throw (from_host e) else
          let* entry := ensure_host_entry_mut sid OpAccept in
          let* fast := host (h_accept_fast_path (he_handle entry) (he_token entry) spec) in
          match fast with
          | Accepted handle peer => do* clear_readiness sid; register_accepted_socket spec handle local peer
          | AcceptPending | AcceptUnsupported => throw (would_block OpAccept)
          end
      | Panic => lift Panic
      end
  | Created | Bound _ | Connecting _ | Connected _ _ => throw (InvalidStateError OpAccept EINVAL)
  | Closed => throw (BadSocket sid)
  end.

(** *** Shutting down and closing *)
Definition shutdown (sid : Z) (how : ShutdownHow) : NetM unit :=
  let* s := socket sid in
  match gs_state s with
  | Connected _ _ =>
      let* n := gets id in
      do* match nt_handles (n_table n) !! sid with
          | Some entry => host (h_shutdown (he_handle entry) how)
          | None => ret tt
          end;
      update_socket sid (λ s, set_gs_shutdown (shutdown_apply how (gs_shutdown s)) s)
  | Created | Bound _ | Connecting _ | Listening _ => throw (InvalidStateError OpShutdown ENOTCONN)
  | Closed => throw (BadSocket sid)
  end.

Definition close_socket (sid : Z) : NetM unit :=
  let* s := socket sid in
  match gs_state s with
  | Closed => throw (BadSocket sid)
  | _ =>
      do* update_socket sid (λ s, set_gs_shutdown {| sd_read := true; sd_write := true |} (set_gs_state Closed s));
      do* modify (set_handles (delete sid));
      clear_readiness sid
  end.

(** *** Sending and receiving *)
(** The checks of the connected operations. *)
Definition check_connected (sid : Z) (operation : SocketOperation) (side : ShutdownFlags → bool) : NetM unit :=
  let* s := socket sid in
  let* _ := lift (validate_connected_io s operation) in
  if side (gs_shutdown s) then throw (InvalidStateError operation ESHUTDOWN) else ret tt.

(** And those of the addressed ones. *)
Definition check_datagram (sid : Z) (operation : SocketOperation) (side : ShutdownFlags → bool)
    (address : option SocketAddress) : NetM unit :=
  let* s := socket sid in
  let* _ := lift (match address with Some a => validate_address_domain (gs_domain s) a | None => Ok tt end) in
  let* _ := lift (validate_datagram_io s operation) in
  if side (gs_shutdown s) then throw (InvalidStateError operation ESHUTDOWN) else ret tt.

(** What a receive does with the host's answer. *)
Definition received {A} (sid : Z) (m : ST World HostIoError A) : NetM A :=
  let* r := host_result m in
  do* (if is_ok r then clear_readiness sid else ret tt);
  recording sid r.

Definition sent {A} (sid : Z) (m : ST World HostIoError A) : NetM A :=
  let* r := host_result m in recording sid r.

Definition send_connected (sid : Z) (buffer : list Z) : NetM Z :=
  do* check_connected sid OpSend sd_write;
  let* entry := host_entry_mut sid OpSend in
  sent sid (h_send (he_handle entry) buffer).

Definition send_connected_vectored (sid : Z) (buffers : list (list Z)) : NetM Z :=
  do* check_connected sid OpSendMsg sd_write;
  let* entry := host_entry_mut sid OpSendMsg in
  sent sid (h_send_vectored (he_handle entry) buffers).

Definition recv_connected (sid len : Z) : NetM (list Z) :=
  do* check_connected sid OpRecv sd_read;
  let* entry := host_entry_mut sid OpRecv in
  received sid (h_recv (he_handle entry) len).

Definition recv_connected_vectored (sid : Z) (lengths : list Z) : NetM (list Z) :=
  do* check_connected sid OpRecvMsg sd_read;
  let* entry := host_entry_mut sid OpRecvMsg in
  received sid (h_recv_vectored (he_handle entry) lengths).

Definition send_to (sid : Z) (buffer : list Z) (address : SocketAddress) : NetM Z :=
  do* check_datagram sid OpSend sd_write (Some address);
  let* entry := ensure_host_entry_mut sid OpSend in
  sent sid (h_send_to (he_handle entry) buffer address).

Definition send_to_vectored (sid : Z) (buffers : list (list Z)) (address : SocketAddress) : NetM Z :=
  do* check_datagram sid OpSendMsg sd_write (Some address);
  let* entry := ensure_host_entry_mut sid OpSendMsg in
  sent sid (h_send_to_vectored (he_handle entry) buffers address).

Definition recv_from (sid len : Z) : NetM (list Z * SocketAddress) :=
  do* check_datagram sid OpRecv sd_read None;
  let* entry := ensure_host_entry_mut sid OpRecv in
  received sid (h_recv_from (he_handle entry) len).

Definition recv_from_vectored (sid : Z) (lengths : list Z) : NetM (list Z * SocketAddress) :=
  do* check_datagram sid OpRecvMsg sd_read None;
  let* entry := ensure_host_entry_mut sid OpRecvMsg in
  received sid (h_recv_from_vectored (he_handle entry) lengths).

(** *** Polling *)
Definition require_open (sid : Z) : NetM unit :=
  let* s := socket sid in
  match gs_state s with Closed => throw (BadSocket sid) | _ => ret tt end.

Definition finish_polled_readiness (sid : Z) (readiness : SocketEvents) : NetM unit :=
  if ev_writable readiness then
    let* s := socket sid in
    match gs_state s with Connecting _ => finish_nonblocking_connect sid | _ => ret tt end
  else ret tt.

Definition cached_poll_readiness (sid : Z) (interest : SocketEvents) : NetM (option SocketEvents) :=
  do* require_open sid;
  let* entry := ensure_host_entry_mut sid OpPoll in
  let token := he_token entry in
  let* completions := host (h_drain_readiness_completions (he_handle entry) token) in
  do* modify (set_ready (λ ready, foldl (λ ready c, apply_completion token c ready) ready completions));
  let* n := gets id in
  match readiness token interest (nt_ready (n_table n)) with
  | None => ret None
  | Some r => do* finish_polled_readiness sid r; ret (Some r)
  end.

Definition poll (sid : Z) (interest : SocketEvents) (timeout : option Z) : NetM SocketEvents :=
  do* require_open sid;
  let* uses_host := socket_uses_host_transport sid in
  if negb uses_host then ret no_events else
  let* cached := cached_poll_readiness sid interest in
  match cached with
  | Some r => ret r
  | None =>
      let* entry := host_entry_mut sid OpPoll in
      let* r := host (h_poll (he_handle entry) interest timeout) in
      do* finish_polled_readiness sid r;
      ret r
  end.

(** The state of the first loop of [poll_many]. *)
Record PollPlan : Type := {
  pp_readiness : list SocketEvents;
  pp_batch : list (nat * Z * BatchPoll);
  pp_fallback : list (nat * Z * SocketEvents);
  pp_has_ready : bool;
}.

Definition plan_ready (index : nat) (r : SocketEvents) (p : PollPlan) : PollPlan :=
  {| pp_readiness := <[index := r]> (pp_readiness p); pp_batch := pp_batch p; pp_fallback := pp_fallback p;
     pp_has_ready := true |}.

Fixpoint poll_plan (index : nat) (requests : list (Z * SocketEvents)) (timeout : option Z) (p : PollPlan)
    : NetM PollPlan :=
  match requests with
  | [] => ret p
  | (sid, interest) :: requests =>
      do* require_open sid;
      let* uses_host := socket_uses_host_transport sid in
      if negb uses_host then poll_plan (S index) requests timeout p else
      let* cached := cached_poll_readiness sid interest in
      match cached with
      | Some r => poll_plan (S index) requests timeout (plan_ready index r p)
      | None =>
          let* entry := host_entry_mut sid OpPoll in
          let* batch_poll := host (h_prepare_batch_poll (he_handle entry) interest timeout) in
          let p := match batch_poll with
                   | Some b =>
                       {| pp_readiness := pp_readiness p; pp_batch := pp_batch p ++ [(index, sid, b)];
                          pp_fallback := pp_fallback p; pp_has_ready := pp_has_ready p |}
                   | None =>
                       {| pp_readiness := pp_readiness p; pp_batch := pp_batch p;
                          pp_fallback := pp_fallback p ++ [(index, sid, interest)]; pp_has_ready := pp_has_ready p |}
                   end in
          poll_plan (S index) requests timeout p
      end
  end.

Fixpoint finish_batch (batch : list (nat * Z * BatchPoll)) (polled : list SocketEvents) (readiness : list SocketEvents)
    : NetM (list SocketEvents) :=
  match batch, polled with
  | (index, sid, _) :: batch, r :: polled =>
      let* entry := host_entry_mut sid OpPoll in
      let* finished := host (h_finish_batch_poll (he_handle entry) r) in
      do* finish_polled_readiness sid finished;
      finish_batch batch polled (<[index := finished]> readiness)
  | _, _ => ret readiness
  end.

Definition poll_batch_requests (batch : list (nat * Z * BatchPoll)) (timeout : option Z)
    (readiness : list SocketEvents) : NetM (list SocketEvents) :=
  let* polled := host (host_poll_sockets batch.*2 timeout) in
  finish_batch batch polled readiness.

(** The fallback loop: the first poll may wait, the others do not. *)
Fixpoint poll_fallback (fallback : list (nat * Z * SocketEvents)) (timeout : option Z) (readiness : list SocketEvents)
    : NetM (list SocketEvents) :=
  match fallback with
  | [] => ret readiness
  | (index, sid, interest) :: fallback =>
      let* entry := host_entry_mut sid OpPoll in
      let* polled := host (h_poll (he_handle entry) interest timeout) in
      do* finish_polled_readiness sid polled;
      poll_fallback fallback (Some 0) (<[index := polled]> readiness)
  end.

Definition poll_many (requests : list (Z * SocketEvents)) (timeout : option Z) : NetM (list SocketEvents) :=
  let* p := poll_plan 0 requests timeout
              {| pp_readiness := replicate (length requests) no_events; pp_batch := []; pp_fallback := [];
                 pp_has_ready := false |} in
  let* readiness :=
    (if bool_decide (length (pp_batch p) = 0%nat) then ret (pp_readiness p) else
     poll_batch_requests (pp_batch p) (if pp_has_ready p then Some 0 else timeout) (pp_readiness p)) in
  poll_fallback (pp_fallback p)
    (if negb (pp_has_ready p) && bool_decide (length (pp_batch p) = 0%nat) then timeout else Some 0) readiness.

(** *** Queries *)
Definition require_connected_stream (sid : Z) : NetM unit :=
  let* s := socket sid in lift (validate_connected_stream_io s OpSend).

Definition rio_capability (sid : Z) : NetM HostRioCapability :=
  let* entry := ensure_host_entry_mut sid OpPoll in host (h_rio_capability (he_handle entry)).

Definition table_len (n : Net) : nat := size (nt_sockets (n_table n)).
Definition table_is_empty (n : Net) : bool := (table_len n =? 0)%nat.
End table.
