(* ===== verification/NetOps.v ===== *)
(** * mcr-net: the invariant of the socket table

    The sockets of a table keep their identity and move along the edges their calls allow;
    handles belong to open sockets and carry tokens that are never used twice; readiness is
    kept for live tokens only.  [holds m K] is the rule for operations: whatever the host
    does, and whether or not an operation fails, the table stays well formed and evolves. *)

From S2P Require Import Prelude SysAbi NetTypes NetTable.
From stdpp Require Import base gmap list strings.
From Stdlib Require Import ZArith Lia.
Open Scope Z_scope.

(** ** The life of a socket *)
(** The edges an operation may move a socket along: which socket, from where to where.  The
    lemmas on operations ask for the edges they use, so that a statement for a smaller set of
    edges says more. *)
Class Moves : Type := may : Z → SocketState → SocketState → Prop.

(** The edges of each operation. *)
Section edges.
Context {moves : Moves}.

Definition may_bind (sid : Z) : Prop := ∀ a, may sid Created (Bound a).
Definition may_listen (sid : Z) : Prop := ∀ a, may sid (Bound a) (Listening a).
Definition may_connect (sid : Z) (address : SocketAddress) : Prop :=
  ∀ s, s = Created ∨ (∃ a, s = Bound a) → may sid s (Connecting address) ∧ ∀ l p, may sid s (Connected l p).
Definition may_finish (sid : Z) : Prop :=
  ∀ a, may sid (Connecting a) Created ∧ ∀ l p, may sid (Connecting a) (Connected l p).
Definition may_close (sid : Z) : Prop := ∀ s, s ≠ Closed → may sid s Closed.
End edges.

(** A socket later in its life. *)
Record grows (edge : SocketState → SocketState → Prop) (s s' : GuestSocket) : Prop := {
  gr_id : gs_id s' = gs_id s;
  gr_domain : gs_domain s' = gs_domain s;
  gr_type : gs_type s' = gs_type s;
  gr_protocol : gs_protocol s' = gs_protocol s;
  gr_state : rtc edge (gs_state s) (gs_state s');
}.

#[export] Instance grows_preorder edge : PreOrder (grows edge).
Proof.
  split; [by split; try done; apply rtc_refl|]. intros x y z [] []. split; try congruence. by etrans.
Qed.

Section inv.
Context {World Handle Transport BatchPoll : Type} `{!HostSockets World Handle Transport BatchPoll} {moves : Moves}.
#[local] Abbreviation Table := (@GuestSocketTable Handle Transport).
#[local] Abbreviation Net := (@Net World Handle Transport).
#[local] Abbreviation NetM := (@NetM World Handle Transport).
#[local] Abbreviation Entry := (@HostSocketEntry Handle).

(** ** The invariant *)
Record socket_wf (t : Table) (sid : Z) (s : GuestSocket) : Prop := {
  sw_id : gs_id s = sid;
  sw_spec : validate_socket_protocol (gs_type s) (gs_protocol s) = Ok tt;
  sw_fresh : 1 ≤ sid ∧ (nt_next_id t = 0 ∨ sid < nt_next_id t);
  sw_closed : gs_state s = Closed → gs_shutdown s = {| sd_read := true; sd_write := true |};
}.

Record table_wf (t : Table) : Prop := {
  nw_next : 0 ≤ nt_next_id t < 2 ^ 64 ∧ 1 ≤ nt_next_generation t < 2 ^ 64;
  nw_socket sid s : nt_sockets t !! sid = Some s → socket_wf t sid s;
  nw_handle sid (e : Entry) : nt_handles t !! sid = Some e →
    (∃ s, nt_sockets t !! sid = Some s ∧ gs_state s ≠ Closed) ∧
    tk_socket (he_token e) = sid ∧ 1 ≤ tk_generation (he_token e) < nt_next_generation t;
  nw_distinct sid sid' (e e' : Entry) : nt_handles t !! sid = Some e → nt_handles t !! sid' = Some e' →
    tk_generation (he_token e) = tk_generation (he_token e') → sid = sid';
  nw_ready tk r : nt_ready t !! tk = Some r → ∃ e : Entry, nt_handles t !! tk_socket tk = Some e ∧ he_token e = tk;
}.

(** What every operation does at most: sockets stay and grow, new ones get new ids, and a new
    handle gets a new generation. *)
Record evolves (t t' : Table) : Prop := {
  ev_next : nt_next_generation t ≤ nt_next_generation t' ∧
            (nt_next_id t' = 0 ∨ 0 < nt_next_id t ≤ nt_next_id t');
  ev_socket sid s : nt_sockets t !! sid = Some s → ∃ s', nt_sockets t' !! sid = Some s' ∧ grows (may sid) s s';
  ev_new sid s' : nt_sockets t' !! sid = Some s' → nt_sockets t !! sid = None → nt_next_id t ≠ 0 ∧ nt_next_id t ≤ sid;
  ev_handle sid (e : Entry) : nt_handles t' !! sid = Some e →
    nt_handles t !! sid = Some e ∨ nt_next_generation t ≤ tk_generation (he_token e);
}.

Lemma evolves_refl t : table_wf t → evolves t t.
Proof.
  intros Hw. pose proof (nw_next t Hw) as [? ?]. split; [lia| | |eauto].
  - intros sid s Hs. exists s. by split.
  - congruence.
Qed.

Lemma evolves_trans t1 t2 t3 : evolves t1 t2 → evolves t2 t3 → evolves t1 t3.
Proof.
  intros [A1 B1 C1 D1] [A2 B2 C2 D2]. split.
  - destruct A1 as [? [E|?]], A2 as [? [E'|?]]; split; lia.
  - intros sid s Hs. destruct (B1 _ _ Hs) as (s1 & Hs1 & G1). destruct (B2 _ _ Hs1) as (s2 & Hs2 & G2).
    exists s2. split; [done|by etrans].
  - intros sid s' Hs' Hn. destruct (nt_sockets t2 !! sid) as [s2|] eqn:E; [by eapply C1|].
    destruct (C2 _ _ Hs' E) as [? ?]. lia.
  - intros sid e He. destruct (D2 _ _ He) as [H2|H2]; [|right; lia]. by apply D1.
Qed.

(** ** The rule for operations *)
Definition sound (t0 : Table) (n : Net) : Prop := table_wf (n_table n) ∧ evolves t0 (n_table n).

(** Run from [n], [m] ends in [K] when it returns and in [Q] otherwise. *)
Definition holds (Q : Net → Prop) {A} (m : NetM A) (K : A → Net → Prop) (n : Net) : Prop :=
  match m n with (Ok a, n') => K a n' | (_, n') => Q n' end.

Lemma holds_bind Q {A B} (m : NetM A) (k : A → NetM B) K n :
  holds Q m (λ a n', holds Q (k a) K n') n → holds Q (let* a := m in k a) K n.
Proof. unfold holds, bind. by destruct (m n) as [[] ?]. Qed.

Lemma holds_mono (Q Q' : Net → Prop) {A} (m : NetM A) (K K' : A → Net → Prop) n :
  holds Q m K n → (∀ n', Q n' → Q' n') → (∀ a n', K a n' → K' a n') → holds Q' m K' n.
Proof. unfold holds. destruct (m n) as [[] ?]; auto. Qed.

Lemma holds_ret Q {A} (a : A) (K : A → Net → Prop) n : K a n → holds Q (ret a) K n.
Proof. done. Qed.

Lemma holds_gets Q {A} (f : Net → A) (K : A → Net → Prop) n : K (f n) n → holds Q (gets f) K n.
Proof. done. Qed.

Lemma holds_modify Q (f : Net → Net) (K : unit → Net → Prop) n : K tt (f n) → holds Q (modify f) K n.
Proof. done. Qed.

Lemma holds_throw (Q : Net → Prop) {A} e (K : A → Net → Prop) n : Q n → holds Q (throw e) K n.
Proof. done. Qed.

Lemma holds_lift (Q : Net → Prop) {A} (o : outcome A SocketError) (K : A → Net → Prop) n :
  Q n → (∀ a, o = Ok a → K a n) → holds Q (lift o) K n.
Proof. unfold holds, lift. destruct o; auto. Qed.

(** The host does what it likes with its own world. *)
Lemma holds_host (Q : Net → Prop) {A} (m : ST World HostIoError A) (K : A → Net → Prop) n :
  (∀ w, Q (set_world w n)) → (∀ a w, K a (set_world w n)) → holds Q (host m) K n.
Proof. unfold holds, host. intros Hn HK. destruct (m (n_world n)) as [[] ?]; auto. Qed.

Lemma holds_host_result (Q : Net → Prop) {A} (m : ST World HostIoError A) (K : outcome A HostIoError → Net → Prop) n :
  (∀ w, Q (set_world w n)) → (∀ r w, K r (set_world w n)) → holds Q (host_result m) K n.
Proof. unfold holds, host_result. intros Hn HK. destruct (m (n_world n)) as [[] ?]; auto. Qed.

Lemma holds_socket (Q : Net → Prop) sid (K : GuestSocket → Net → Prop) n :
  Q n → (∀ s, nt_sockets (n_table n) !! sid = Some s → K s n) → holds Q (socket sid) K n.
Proof.
  intros Hn HK. unfold socket. apply holds_bind, holds_gets, holds_lift; [done|].
  intros a. unfold id. destruct (_ !! _) eqn:E; simpl; [intros [= <-]; by apply HK|done].
Qed.

(** *** Changing a socket *)
Definition with_socket (sid : Z) (f : GuestSocket → GuestSocket) (n : Net) : Net := set_sockets (alter f sid) n.

Lemma alter_socket_sound t0 n sid s f :
  sound t0 n → nt_sockets (n_table n) !! sid = Some s → grows (may sid) s (f s) →
  (gs_state (f s) = Closed →
     gs_shutdown (f s) = {| sd_read := true; sd_write := true |} ∧ nt_handles (n_table n) !! sid = None) →
  sound t0 (with_socket sid f n).
Proof.
  intros [Hw He] Hs Hg Hc. split.
  - split; simpl.
    + apply Hw.
    + intros sid' s'. rewrite lookup_alter_Some. intros [(<- & x & Hx & ->)|[Hne Hs']].
      * assert (x = s) as -> by congruence. destruct (nw_socket _ Hw _ _ Hs) as [H1 H2 H3 H4].
        destruct Hg as [E1 _ E3 E4 _]. split; simpl; [congruence|by rewrite E3, E4|done|by intros E; apply Hc].
      * destruct (nw_socket _ Hw _ _ Hs'). by split.
    + intros sid' e He'. destruct (nw_handle _ Hw _ _ He') as [(x & Hx & Hxo) Ht]. split; [|done].
      destruct (decide (sid = sid')) as [<-|Hne].
      * exists (f s). rewrite lookup_alter_eq, Hs. split; [done|]. intros E. apply Hc in E as [_ E]. congruence.
      * exists x. by rewrite lookup_alter_ne.
    + apply Hw.
    + apply Hw.
  - eapply evolves_trans; [done|]. pose proof (nw_next _ Hw) as [? ?]. split; simpl; [lia| | |by left].
    + intros sid' s' Hs'. destruct (decide (sid = sid')) as [<-|Hne].
      * exists (f s). rewrite lookup_alter_eq, Hs. by assert (s' = s) as -> by congruence.
      * exists s'. by rewrite lookup_alter_ne.
    + intros sid' s' Hs' Hn. rewrite lookup_alter_Some in Hs'. destruct Hs' as [(<- & x & Hx & _)|[_ ?]]; congruence.
Qed.

(** The usual case: the socket stays open. *)
Lemma update_sound t0 n sid s f :
  sound t0 n → nt_sockets (n_table n) !! sid = Some s → grows (may sid) s (f s) →
  (gs_state (f s) = Closed → gs_state s = Closed ∧ gs_shutdown (f s) = {| sd_read := true; sd_write := true |}) →
  sound t0 (with_socket sid f n).
Proof.
  intros Hn Hs Hg Hc. eapply alter_socket_sound; try done.
  intros E. apply Hc in E as [E E']. split; [done|]. apply eq_None_not_Some. intros [e He].
  destruct (nw_handle _ (proj1 Hn) _ _ He) as [(x & Hx & Ho) _]. congruence.
Qed.

Lemma holds_update (Q : Net → Prop) n sid s f (K : unit → Net → Prop) :
  Q n → nt_sockets (n_table n) !! sid = Some s → K tt (with_socket sid f n) → holds Q (update_socket sid f) K n.
Proof. intros Hn Hs HK. unfold update_socket. apply holds_bind, holds_socket; [done|]. intros s' _. by apply holds_modify. Qed.
End inv.

(** ** mcr-net: every operation keeps the table sound

    Whatever the host answers, and whether or not the operation fails, an operation of the
    table leaves it well formed and evolved from where it started. *)

Section ops.
Context {World Handle Transport BatchPoll : Type} `{!HostSockets World Handle Transport BatchPoll} {moves : Moves}.
#[local] Abbreviation Table := (@GuestSocketTable Handle Transport).
#[local] Abbreviation Net := (@Net World Handle Transport).
#[local] Abbreviation NetM := (@NetM World Handle Transport).
#[local] Abbreviation Entry := (@HostSocketEntry Handle).
Implicit Types (n : Net).

Definition keeps_net {A} (m : NetM A) : Prop := ∀ (t0 : Table) n, sound t0 n → holds (sound t0) m (λ _, sound t0) n.

(** ** Allocation *)
Lemma set_counters_sound (t0 : Table) n next_id next_generation :
  sound t0 n → 0 ≤ next_id < 2 ^ 64 → nt_next_generation (n_table n) ≤ next_generation < 2 ^ 64 →
  nt_next_id (n_table n) ≠ 0 → next_id = 0 ∨ nt_next_id (n_table n) ≤ next_id →
  sound t0 (set_counters next_id next_generation n).
Proof.
  intros [Hw He] Hi Hg Hn0 Hi'. pose proof (nw_next _ Hw) as [? ?]. split.
  - split; simpl; [lia| | |apply Hw|apply Hw].
    + intros sid s Hs. destruct (nw_socket _ Hw _ _ Hs) as [? ? [? [?|?]] ?]; split; simpl; try done; lia.
    + intros sid e Hh. destruct (nw_handle _ Hw _ _ Hh) as (? & ? & ?). split_and!; try done; lia.
  - eapply evolves_trans; [done|]. split; simpl; [lia|intros sid s Hs; by exists s|congruence|by left].
Qed.

(** The generation may advance alone, also when the ids have run out. *)
Lemma set_generation_sound (t0 : Table) n next_generation :
  sound t0 n → nt_next_generation (n_table n) ≤ next_generation < 2 ^ 64 →
  sound t0 (set_counters (nt_next_id (n_table n)) next_generation n).
Proof.
  intros [Hw He] Hg. pose proof (nw_next _ Hw) as [? ?]. split.
  - split; simpl; [lia| | |apply Hw|apply Hw].
    + intros sid s Hs. destruct (nw_socket _ Hw _ _ Hs); by split.
    + intros sid e Hh. destruct (nw_handle _ Hw _ _ Hh) as (? & ? & ?). split_and!; try done; lia.
  - eapply evolves_trans; [done|]. split; simpl; [lia|intros sid s Hs; by exists s|congruence|by left].
Qed.

(** A new id is above all others. *)
Lemma holds_allocate_id (t0 : Table) n (K : Z → Net → Prop) :
  sound t0 n →
  (∀ next, nt_next_id (n_table n) ≠ 0 → nt_sockets (n_table n) !! nt_next_id (n_table n) = None →
     next = 0 ∨ next = nt_next_id (n_table n) + 1 →
     sound t0 (set_counters next (nt_next_generation (n_table n)) n) →
     K (nt_next_id (n_table n)) (set_counters next (nt_next_generation (n_table n)) n)) →
  holds (sound t0) allocate_id K n.
Proof.
  intros Hn HK. unfold allocate_id. apply holds_bind, holds_gets. unfold id.
  destruct (Z.eqb_spec (nt_next_id (n_table n)) 0) as [|H0]; [by apply holds_throw|].
  apply holds_bind, holds_modify, holds_ret. pose proof (nw_next _ (proj1 Hn)) as [Hb Hg].
  destruct (checked_add64 (nt_next_id (n_table n)) 1) as [next|] eqn:E; [apply checked_add64_Some in E as [-> ?]|]; simpl.
  all: apply HK; [done| |auto|apply set_counters_sound; try done; lia].
  all: apply eq_None_not_Some; intros [s Hs]; destruct (sw_fresh _ _ _ (nw_socket _ (proj1 Hn) _ _ Hs)); lia.
Qed.

Lemma holds_allocate_token (t0 : Table) (Q : Net → Prop) n sid (K : SocketReadinessToken → Net → Prop) :
  sound t0 n → Q n →
  (∀ g, g = nt_next_generation (n_table n) → sound t0 (set_counters (nt_next_id (n_table n)) (g + 1) n) →
     K {| tk_socket := sid; tk_generation := g |} (set_counters (nt_next_id (n_table n)) (g + 1) n)) →
  holds Q (allocate_readiness_token sid) K n.
Proof.
  intros Hn HQ HK. unfold allocate_readiness_token. apply holds_bind, holds_gets. unfold id.
  apply holds_bind, holds_lift; [done|]. intros next Hnext.
  destruct (checked_add64 _ 1) eqn:E; [|done]. injection Hnext as <-. apply checked_add64_Some in E as [-> ?].
  apply holds_bind, holds_modify, holds_ret, HK; [done|]. pose proof (nw_next _ (proj1 Hn)).
  apply set_generation_sound; [done|]. lia.
Qed.

(** ** New sockets and handles *)
Lemma insert_socket_sound (t0 : Table) n sid (s : GuestSocket) :
  sound t0 n → nt_sockets (n_table n) !! sid = None → socket_wf (n_table n) sid s →
  nt_next_id t0 ≠ 0 → nt_next_id t0 ≤ sid →
  sound t0 (set_sockets (insert sid s) n).
Proof.
  intros [Hw He] Hnone Hs H0 Hle. split.
  - split; simpl; [apply Hw| | |apply Hw|apply Hw].
    + intros sid' s'. rewrite lookup_insert_Some. intros [[<- <-]|[Hne Hs']]; [by destruct Hs|].
      destruct (nw_socket _ Hw _ _ Hs'); by split.
    + intros sid' e Hh. destruct (nw_handle _ Hw _ _ Hh) as [(x & Hx & ?) ?]. split; [|done].
      exists x. rewrite lookup_insert_ne; [done|]. intros ->. congruence.
  - destruct He as [A B C D]. split; simpl; [done| | |done].
    + intros sid' s' Hs'. destruct (B _ _ Hs') as (x & Hx & ?). exists x.
      rewrite lookup_insert_ne; [done|]. intros ->. congruence.
    + intros sid' s'. rewrite lookup_insert_Some. intros [[<- _]|[? ?]]; [done|by eauto].
Qed.

Lemma new_socket_wf (t : Table) sid spec :
  validate_socket_protocol (sp_type spec) (sp_protocol spec) = Ok tt → 1 ≤ sid → nt_next_id t = 0 ∨ sid < nt_next_id t →
  socket_wf t sid (socket_new sid spec).
Proof. intros. split; try done. Qed.

(** The handle of an open socket with a fresh token. *)
Lemma insert_handle_sound (t0 : Table) n sid s handle g :
  sound t0 n → nt_sockets (n_table n) !! sid = Some s → gs_state s ≠ Closed → nt_handles (n_table n) !! sid = None →
  1 ≤ g → g < nt_next_generation (n_table n) → nt_next_generation t0 ≤ g →
  (∀ sid' (e : Entry), nt_handles (n_table n) !! sid' = Some e → tk_generation (he_token e) < g) →
  sound t0 (set_handles (insert sid {| he_handle := handle; he_token := {| tk_socket := sid; tk_generation := g |} |}) n).
Proof.
  intros [Hw He] Hs Ho Hnone H1 Hg Hg0 Hlt. split.
  - split; simpl; [apply Hw|intros ? ? Hs'; destruct (nw_socket _ Hw _ _ Hs'); by split| | |].
    + intros sid' e. rewrite lookup_insert_Some. intros [[<- <-]|[? Hh]]; [simpl; split_and!; eauto|by apply Hw].
    + intros sid' sid'' e e' Hh Hh' E. rewrite lookup_insert_Some in Hh, Hh'.
      destruct Hh as [[<- <-]|[? Hh]], Hh' as [[<- <-]|[? Hh']]; try done; simpl in E.
      * apply Hlt in Hh'. lia.
      * apply Hlt in Hh. lia.
      * by eapply (nw_distinct _ Hw).
    + intros tk r Hr. destruct (nw_ready _ Hw _ _ Hr) as (e & Hh & ?). exists e.
      rewrite lookup_insert_ne; [done|]. intros ->. congruence.
  - destruct He as [A B C D]. split; simpl; [done|done|done|].
    intros sid' e. rewrite lookup_insert_Some. intros [[<- <-]|[? Hh]]; [by right|by apply D].
Qed.

Lemma keeps_create_socket_from_spec spec : keeps_net (create_socket_from_spec spec).
Proof.
  intros t0 n Hn. unfold create_socket_from_spec. apply holds_bind, holds_lift; [done|]. intros [] Hv.
  apply holds_bind, holds_allocate_id; [done|]. intros next H0 Hnone Hnext Hs.
  apply holds_bind, holds_modify, holds_ret. pose proof (nw_next _ (proj1 Hn)) as [? ?].
  destruct (ev_next _ _ (proj2 Hn)) as [_ [?|?]]; [done|].
  apply insert_socket_sound; try done; [|lia|lia]. apply new_socket_wf; simpl; [done|lia|lia].
Qed.

Lemma holds_create_with_handle (t0 : Table) n spec handle (K : Z → Net → Prop) :
  sound t0 n →
  (∀ sid n', nt_sockets t0 !! sid = None → sound t0 n' →
     nt_sockets (n_table n') !! sid = Some (socket_new sid spec) → K sid n') →
  holds (sound t0) (create_socket_with_handle spec handle) K n.
Proof.
  intros Hn HK. unfold create_socket_with_handle. apply holds_bind, holds_lift; [done|]. intros [] Hv.
  apply holds_bind, holds_allocate_id; [done|]. intros next H0 Hnone Hnext Hs.
  apply holds_bind, (holds_allocate_token t0); [done..|]. intros g Hg Hs'. simpl in Hg, Hs'.
  apply holds_bind, holds_modify, holds_bind, holds_modify, holds_ret.
  pose proof (nw_next _ (proj1 Hn)) as [? ?].
  destruct (ev_next _ _ (proj2 Hn)) as [Hgen [?|?]]; [done|].
  assert (Hin : sound t0 (set_sockets (insert (nt_next_id (n_table n)) (socket_new (nt_next_id (n_table n)) spec))
                  (set_counters next (g + 1) (set_counters next (nt_next_generation (n_table n)) n)))).
  { apply insert_socket_sound; try done; [|lia|lia]. apply new_socket_wf; simpl; [done|lia|lia]. }
  apply HK; [| |simpl; by rewrite lookup_insert_eq].
  { apply eq_None_not_Some. intros [s Hold]. destruct (ev_socket _ _ (proj2 Hn) _ _ Hold) as (x & Hx & _). congruence. }
  eapply insert_handle_sound; [exact Hin|simpl; by rewrite lookup_insert_eq|done| |lia|simpl; lia|lia|].
  - simpl. apply eq_None_not_Some. intros [e He]. destruct (nw_handle _ (proj1 Hn) _ _ He) as [(x & Hx & _) _]. congruence.
  - simpl. intros sid' e He. destruct (nw_handle _ (proj1 Hn) _ _ He) as (_ & _ & ?). lia.
Qed.

(** ** Handles on demand *)
Lemma holds_host_entry (Q : Net → Prop) n sid op (K : Entry → Net → Prop) :
  Q n → (∀ e, nt_handles (n_table n) !! sid = Some e → K e n) → holds Q (host_entry_mut sid op) K n.
Proof.
  intros Hn HK. unfold host_entry_mut. apply holds_bind, holds_gets, holds_lift; [done|].
  unfold id. intros e. destruct (_ !! sid) eqn:E; [intros [= <-]; by apply HK|done].
Qed.

Lemma holds_socket_spec (Q : Net → Prop) n sid (K : SocketSpec → Net → Prop) :
  Q n → (∀ spec, K spec n) → holds Q (socket_spec sid) K n.
Proof. intros Hn HK. unfold socket_spec. apply holds_bind, holds_socket; [done|]. intros s _. by apply holds_lift. Qed.

(** Opening a handle changes no socket and no readiness. *)
Definition same_but_handles (n n' : Net) : Prop :=
  nt_sockets (n_table n') = nt_sockets (n_table n) ∧ nt_ready (n_table n') = nt_ready (n_table n) ∧
  nt_transport (n_table n') = nt_transport (n_table n).

Lemma holds_ensure_entry (t0 : Table) (Q : Net → Prop) n sid s op (K : Entry → Net → Prop) :
  sound t0 n → nt_sockets (n_table n) !! sid = Some s → gs_state s ≠ Closed →
  (∀ n', sound t0 n' → same_but_handles n n' → Q n') →
  (∀ (e : Entry) n', sound t0 n' → same_but_handles n n' → nt_handles (n_table n') !! sid = Some e →
     tk_socket (he_token e) = sid → K e n') →
  holds Q (ensure_host_entry_mut sid op) K n.
Proof.
  intros Hn Hs Ho HQ HK. unfold ensure_host_entry_mut. apply holds_bind, holds_gets. unfold id. apply holds_bind.
  assert (Hdone : ∀ n', sound t0 n' → same_but_handles n n' → holds Q (host_entry_mut sid op) K n').
  { intros n' Hn' Hsame. apply holds_host_entry; [by apply HQ|]. intros e He. apply HK; try done.
    by destruct (nw_handle _ (proj1 Hn') _ _ He) as (_ & Ht & _). }
  assert (Hsame : ∀ w, same_but_handles n (set_world w n)) by done.
  destruct (nt_handles (n_table n) !! sid) as [e|] eqn:Ee; [by apply Hdone|].
  apply holds_bind, holds_socket_spec; [by apply HQ|]. intros spec.
  destruct (bool_decide _); [by apply holds_throw, HQ|].
  apply holds_bind, holds_socket; [by apply HQ|]. intros s' _.
  apply holds_bind, holds_lift; [by apply HQ|]. intros transport _.
  apply holds_bind, holds_host; [intros w; by apply HQ|]. intros handle w.
  apply holds_bind, (holds_allocate_token t0); [done|by apply HQ|]. intros g Hg Hs'.
  apply holds_modify, Hdone; [|done]. simpl in Hg. pose proof (nw_next _ (proj1 Hn)) as [? ?].
  destruct (ev_next _ _ (proj2 Hn)) as [Hgen _].
  eapply insert_handle_sound; try done; simpl; [lia|lia|lia|].
  intros sid' e He. destruct (nw_handle _ (proj1 Hn) _ _ He) as (_ & _ & ?). lia.
Qed.

Lemma holds_uses_host (Q : Net → Prop) n sid (K : bool → Net → Prop) :
  Q n → (∀ b, K b n) → holds Q (socket_uses_host_transport sid) K n.
Proof.
  intros Hn HK. unfold socket_uses_host_transport. apply holds_bind, holds_socket; [done|]. intros s _.
  apply holds_bind, holds_gets, holds_ret, HK.
Qed.

(** ** Readiness and recorded errors *)
Lemma set_ready_sound (t0 : Table) n f :
  sound t0 n → (∀ tk r, f (nt_ready (n_table n)) !! tk = Some r →
    ∃ e : Entry, nt_handles (n_table n) !! tk_socket tk = Some e ∧ he_token e = tk) →
  sound t0 (set_ready f n).
Proof.
  intros [Hw He] Hr. split.
  { split; simpl; [apply Hw|intros ? ? Hs'; destruct (nw_socket _ Hw _ _ Hs'); by split|apply Hw|apply Hw|done]. }
  destruct He as [A B C D]. by split.
Qed.

Lemma clear_sound (t0 : Table) n sid : sound t0 n → sound t0 (set_ready (clear_socket sid) n).
Proof.
  intros Hn. apply set_ready_sound; [done|]. intros tk r. unfold clear_socket. rewrite map_lookup_filter_Some.
  intros [Hr _]. by eapply (nw_ready _ (proj1 Hn)).
Qed.

Lemma apply_completion_ready active c ready tk r :
  apply_completion active c ready !! tk = Some r → tk = active ∨ ready !! tk = Some r.
Proof.
  unfold apply_completion. destruct (bool_decide _); [by right|]. rewrite lookup_insert_Some. intros [[<- _]|[_ ?]]; auto.
Qed.

Lemma apply_completions_ready active cs ready tk r :
  foldl (λ ready c, apply_completion active c ready) ready cs !! tk = Some r → tk = active ∨ ready !! tk = Some r.
Proof.
  revert ready. induction cs as [|c cs IH]; intros ready; simpl; [by right|].
  intros [->|H]%IH; [by left|]. by apply apply_completion_ready in H.
Qed.

Lemma grows_last_error edge s e : grows edge s (set_gs_last_error e s).
Proof. by split. Qed.

Lemma record_sound (t0 : Table) n sid e : sound t0 n → sound t0 (with_socket sid (set_gs_last_error e) n).
Proof.
  intros Hn. destruct (nt_sockets (n_table n) !! sid) as [s|] eqn:Es.
  - eapply alter_socket_sound; [done|done|apply grows_last_error|]. simpl. intros Hc. split.
    + by apply (sw_closed _ _ _ (nw_socket _ (proj1 Hn) _ _ Es)).
    + apply eq_None_not_Some. intros [x Hx]. destruct (nw_handle _ (proj1 Hn) _ _ Hx) as [(y & Hy & ?) _]. congruence.
  - assert (Hid : alter (set_gs_last_error e) sid (nt_sockets (n_table n)) = nt_sockets (n_table n)).
    { apply map_eq. intros i. destruct (decide (sid = i)) as [<-|]; [by rewrite lookup_alter_eq, Es|by rewrite lookup_alter_ne]. }
    assert (Heq : n_table (with_socket sid (set_gs_last_error e) n) = n_table n).
    { unfold with_socket, set_sockets. simpl. rewrite Hid. by destruct (n_table n). }
    unfold sound. by rewrite Heq.
Qed.

Lemma keeps_recording {A} sid (r : outcome A HostIoError) : keeps_net (recording sid r).
Proof.
  intros t0 n Hn. unfold recording. destruct r as [a|e|]; [done| |done].
  unfold record_host_error. apply holds_bind, holds_bind, holds_modify, holds_ret, holds_throw. by apply record_sound.
Qed.

Lemma keeps_sent {A} sid (m : ST World HostIoError A) : keeps_net (sent sid m).
Proof. intros t0 n Hn. apply holds_bind, holds_host_result; [done|]. intros r w. by apply keeps_recording. Qed.

Lemma keeps_received {A} sid (m : ST World HostIoError A) : keeps_net (received sid m).
Proof.
  intros t0 n Hn. apply holds_bind, holds_host_result; [done|]. intros r w. apply holds_bind.
  destruct (is_ok r); [apply holds_modify|apply holds_ret]; apply keeps_recording; [by apply clear_sound|done].
Qed.
End ops.

(** ** mcr-net: the calls keep the table sound

    Connecting, options, binding, accepting, closing, sending, receiving and polling, one
    lemma each, and the calls as a step relation. *)

(** One step of an operation, by its shape. *)
Ltac net_step :=
  lazymatch goal with
  | |- holds _ (bind _ _) _ _ => apply holds_bind
  | |- holds _ (gets _) _ _ => apply holds_gets; unfold id
  | |- holds _ (modify _) _ _ => apply holds_modify
  | |- holds _ (ret _) _ _ => apply holds_ret
  | |- holds _ (throw _) _ _ => apply holds_throw
  | |- holds _ (lift Panic) _ _ => apply holds_lift; [|done]
  | |- holds _ (lift _) _ _ => apply holds_lift; [assumption|intros ??]
  | |- holds _ (socket _) _ _ => apply holds_socket; [assumption|intros ? ?Hsock]
  | |- holds _ (host _) _ _ => apply holds_host; [intros ?; assumption|intros ? ?]
  | |- holds _ (host_result _) _ _ => apply holds_host_result; [intros ?; assumption|intros ? ?]
  | |- holds _ (host_entry_mut _ _) _ _ => apply holds_host_entry; [assumption|intros ? ?]
  | |- holds _ (socket_spec _) _ _ => apply holds_socket_spec; [assumption|intros ?]
  | |- holds _ (socket_uses_host_transport _) _ _ => apply holds_uses_host; [assumption|intros ?]
  | |- holds _ (if ?b then _ else _) _ _ => destruct b eqn:?
  end; try assumption.
Ltac net_steps := repeat net_step.

Section calls.
Context {World Handle Transport BatchPoll : Type} `{!HostSockets World Handle Transport BatchPoll} {moves : Moves}.
#[local] Abbreviation Table := (@GuestSocketTable Handle Transport).
#[local] Abbreviation Net := (@Net World Handle Transport).
#[local] Abbreviation NetM := (@NetM World Handle Transport).
#[local] Abbreviation Entry := (@HostSocketEntry Handle).
Implicit Types (n : Net).

(** ** Moving along an edge *)
Definition same_identity (s s' : GuestSocket) : Prop :=
  gs_id s' = gs_id s ∧ gs_domain s' = gs_domain s ∧ gs_type s' = gs_type s ∧ gs_protocol s' = gs_protocol s.

Lemma holds_move (t0 : Table) n sid s f :
  sound t0 n → nt_sockets (n_table n) !! sid = Some s → same_identity s (f s) →
  may sid (gs_state s) (gs_state (f s)) → gs_state (f s) ≠ Closed →
  holds (sound t0) (update_socket sid f) (λ _, sound t0) n.
Proof.
  intros Hn Hs (? & ? & ? & ?) Hstep Ho. eapply holds_update; try done. eapply update_sound; try done.
  split; try done. by apply rtc_once.
Qed.

(** A change that leaves the state alone. *)
Lemma holds_adjust (t0 : Table) n sid s f :
  sound t0 n → nt_sockets (n_table n) !! sid = Some s → same_identity s (f s) →
  gs_state (f s) = gs_state s → (gs_state s = Closed → gs_shutdown (f s) = gs_shutdown s) →
  holds (sound t0) (update_socket sid f) (λ _, sound t0) n.
Proof.
  intros Hn Hs (? & ? & ? & ?) Hst Hc. eapply holds_update; try done. eapply update_sound; try done.
  - split; try done. by rewrite Hst.
  - rewrite Hst. intros E. split; [done|]. rewrite Hc by done.
    by apply (sw_closed _ _ _ (nw_socket _ (proj1 Hn) _ _ Hs)).
Qed.

(** ** Connecting *)
Lemma keeps_finish sid : may_finish sid → keeps_net (finish_nonblocking_connect sid).
Proof.
  intros Hmay t0 n Hn. unfold finish_nonblocking_connect. do 2 net_step.
  destruct (gs_state s) as [| |b| | |] eqn:Es; [by net_steps..| |by net_steps|by net_steps|by net_steps].
  assert (Hc : ∀ n' l p, sound t0 n' → nt_sockets (n_table n') !! sid = Some s →
    holds (sound t0) (update_socket sid (λ s, set_gs_last_error None (set_gs_state (Connected l p) s))) (λ _, sound t0) n').
  { intros n' l p Hn' Hs'. eapply holds_move; try done. rewrite Es. simpl. apply Hmay. }
  do 2 net_step. destruct (nt_handles (n_table n) !! sid) as [e|]; [|by apply Hc].
  net_steps. destruct a0 as [e'|]; net_steps; [|by apply Hc].
  eapply holds_mono; [eapply holds_move; try done|done|]; [rewrite Es; simpl; apply Hmay|].
  intros [] n' Hn'. by net_steps.
Qed.

Lemma keeps_finish_if_connecting sid : may_finish sid → keeps_net (finish_if_connecting sid).
Proof.
  intros Hmay t0 n Hn. unfold finish_if_connecting. net_steps. destruct (gs_state s); net_steps.
  pose proof (keeps_finish sid Hmay t0 n Hn) as Hf. unfold holds in *. by destruct (finish_nonblocking_connect sid n) as [[] ?].
Qed.

Lemma keeps_local_address sid : may_finish sid → keeps_net (local_address sid).
Proof.
  intros Hmay t0 n Hn. apply holds_bind. eapply holds_mono; [by apply keeps_finish_if_connecting|done|].
  intros ? ? ?. by net_steps.
Qed.

Lemma keeps_peer_address sid : may_finish sid → keeps_net (peer_address sid).
Proof.
  intros Hmay t0 n Hn. apply holds_bind. eapply holds_mono; [by apply keeps_finish_if_connecting|done|].
  intros ? ? ?. by net_steps.
Qed.

(** Connecting through the host opens a handle at most. *)
Lemma connect_host_keeps (t0 : Table) sid s address n (P := λ n', sound t0 n' ∧ nt_sockets (n_table n') = nt_sockets (n_table n)) :
  sound t0 n → nt_sockets (n_table n) !! sid = Some s → gs_state s ≠ Closed →
  holds P (connect_host_socket sid address) (λ _, P) n.
Proof.
  intros Hn Hs Ho. unfold connect_host_socket. assert (HP : P n) by done. do 2 net_step.
  apply holds_bind, (holds_ensure_entry t0 _ _ _ s); try done; [intros n' Hn' (? & _); by split|].
  intros e n' Hn' (Hsame & _) He _. assert (HP' : P n') by by split.
  do 2 net_step. net_step. destruct a; net_steps.
Qed.

Lemma keeps_connect sid address : may_connect sid address → keeps_net (connect sid address).
Proof.
  intros Hmay t0 n Hn. unfold connect. do 6 net_step. net_step.
  assert (Hstart : gs_state s = Created ∨ ∃ b, gs_state s = Bound b).
  { unfold validate_connect in *. destruct (gs_state s); eauto; done. }
  assert (Ho : gs_state s ≠ Closed) by (intros E; rewrite E in Hstart; by destruct Hstart as [|[]]).
  do 2 net_step.
  - pose proof (connect_host_keeps t0 sid s address n Hn Hsock Ho) as Hc. unfold holds in Hc |- *.
    destruct (connect_host_socket sid address n) as [[[l p]|e|] n'], Hc as [Hn' Hsame]; [| |done].
    + eapply holds_move; [done|by rewrite Hsame|done|by apply Hmay|done].
    + destruct (_ =? _); [|done]. apply holds_bind. eapply holds_mono; [|done|].
      * eapply holds_move; [done|by rewrite Hsame|done|simpl; by apply Hmay|done].
      * intros [] n'' Hn''. by apply holds_throw.
  - eapply holds_move; try done. by apply Hmay.
Qed.

(** ** Options *)
Lemma keeps_read_option sid option : keeps_net (read_option sid option : NetM Z).
Proof.
  intros t0 n Hn. unfold read_option. do 4 net_step.
  eapply holds_mono; [by eapply holds_adjust|done|]. intros [] n' Hn'. by net_steps.
Qed.

Lemma keeps_get_option sid option :
  (option = OptSocketError → may_finish sid) → keeps_net (get_option sid option).
Proof.
  intros Hmay t0 n Hn. unfold get_option. case_bool_decide as Ho; [|by apply keeps_read_option].
  specialize (Hmay Ho).
  do 2 net_step. destruct (gs_state s); try by apply keeps_read_option.
  pose proof (keeps_finish sid Hmay t0 n Hn) as Hf. unfold holds in *.
  destruct (finish_nonblocking_connect sid n) as [[[]|e|] n']; [by apply keeps_read_option|by apply record_sound|done].
Qed.

Lemma keeps_set_option sid option value : keeps_net (set_option sid option value : NetM unit).
Proof.
  intros t0 n Hn. unfold set_option. net_step. do 3 net_step.
  destruct option; net_steps; by eapply holds_adjust.
Qed.

Lemma keeps_set_nonblocking sid b : keeps_net (set_nonblocking sid b).
Proof.
  intros t0 n Hn. unfold set_nonblocking. do 2 net_step. net_step. do 3 net_step.
  destruct (nt_handles (n_table n) !! sid); net_steps; by eapply holds_adjust.
Qed.

(** ** Binding, listening, accepting *)
Lemma keeps_bind_socket sid address : may_bind sid → keeps_net (bind_socket sid address).
Proof.
  intros Hmay t0 n Hn. unfold bind_socket. do 5 net_step. destruct (gs_state s) eqn:Es; net_steps.
  - apply (holds_ensure_entry t0 _ _ _ s); try done; [by rewrite Es|]. intros e n' Hn' (Hsame & _) _ _.
    net_steps. eapply holds_move; [done|simpl; by rewrite Hsame|done| |done]. rewrite Es. apply Hmay.
  - eapply holds_move; try done. rewrite Es. apply Hmay.
Qed.

Lemma keeps_listen sid backlog : may_listen sid → keeps_net (listen sid backlog).
Proof.
  intros Hmay t0 n Hn. unfold listen. do 2 net_step. net_step.
  assert (Hend : ∀ n', sound t0 n' → nt_sockets (n_table n') !! sid = Some s →
    holds (sound t0) (match gs_state s with
      | Created | Connecting _ | Connected _ _ => throw (InvalidStateError OpListen EINVAL)
      | Bound address => update_socket sid (set_gs_state (Listening address))
      | Listening _ => ret tt
      | Closed => throw (BadSocket sid)
      end) (λ _, sound t0) n').
  { intros n' Hn' Hs'. destruct (gs_state s) eqn:Es; net_steps. eapply holds_move; try done. rewrite Es. apply Hmay. }
  net_step. destruct (gs_state s) eqn:Es; net_steps; try (by rewrite <- Es; apply Hend).
  all: try (apply (holds_ensure_entry t0 _ _ _ s); try done; [by rewrite Es|]; intros e n' Hn' (Hsame & _) _ _; net_steps).
  all: apply Hend; try done; simpl; by rewrite Hsame.
Qed.

(** An accepted socket was not there before, so no edge of an older one is used. *)
Definition may_when_new (t0 : Table) : Prop := ∀ sid s s', nt_sockets t0 !! sid = None → may sid s s'.

Lemma keeps_register_accepted spec (handle : Handle) local peer (t0 : Table) n :
  may_when_new t0 → sound t0 n →
  holds (sound t0) (register_accepted_socket spec handle local peer) (λ _, sound t0) n.
Proof.
  intros Hmay Hn. unfold register_accepted_socket. apply holds_bind, holds_create_with_handle; [done|].
  intros sid n' Hnew Hn' Hs. apply holds_bind. eapply holds_mono; [eapply holds_move; try done|done|].
  - by apply Hmay.
  - intros [] n'' Hn''. by net_steps.
Qed.

Lemma keeps_accept sid (t0 : Table) n :
  may_when_new t0 → sound t0 n → holds (sound t0) (accept sid) (λ _, sound t0) n.
Proof.
  intros Hmay Hn. unfold accept. do 2 net_step. destruct (gs_state s) eqn:Es; net_steps.
  assert (Hreg : ∀ n' spec handle local peer, sound t0 n' →
    holds (sound t0) (do* clear_readiness sid; register_accepted_socket spec handle local peer) (λ _, sound t0) n').
  { intros n' ? ? ? ? Hn'. apply holds_bind, holds_modify. by apply keeps_register_accepted, clear_sound. }
  apply (holds_ensure_entry t0 _ _ _ s); try done; [by rewrite Es|]. intros e n' Hn' (Hsame & _) _ _.
  do 2 net_step. destruct r as [[handle peer]|e'|]; [by apply Hreg| |by net_steps].
  net_step. apply holds_bind, (holds_ensure_entry t0 _ _ _ s); try done; [simpl; by rewrite Hsame|by rewrite Es|].
  intros e2 n2 Hn2 _ _ _. do 2 net_step. destruct a as [| |handle peer]; [by net_steps..|by apply Hreg].
Qed.

(** ** Shutting down and closing *)
Lemma keeps_shutdown sid how : keeps_net (shutdown sid how).
Proof.
  intros t0 n Hn. unfold shutdown. do 2 net_step. destruct (gs_state s) eqn:Es; net_steps.
  destruct (nt_handles (n_table n) !! sid); net_steps; eapply holds_adjust; try done; by rewrite Es.
Qed.

Lemma close_sound (t0 : Table) n sid s :
  may_close sid → sound t0 n → nt_sockets (n_table n) !! sid = Some s → gs_state s ≠ Closed →
  sound t0 (set_ready (clear_socket sid) (set_handles (delete sid)
    (with_socket sid (λ s, set_gs_shutdown {| sd_read := true; sd_write := true |} (set_gs_state Closed s)) n))).
Proof.
  intros Hmay Hn Hs Ho.
  assert (Hgone : sound t0 (set_ready (clear_socket sid) (set_handles (delete sid) n))).
  { destruct Hn as [Hw He]. split.
    - split; simpl; [apply Hw|intros ? ? Hs'; destruct (nw_socket _ Hw _ _ Hs'); by split| | |].
      + intros sid' e [_ Hh]%lookup_delete_Some. by apply Hw.
      + intros sid' sid'' e e' [_ Hh]%lookup_delete_Some [_ Hh']%lookup_delete_Some. by eapply (nw_distinct _ Hw).
      + intros tk r. unfold clear_socket. rewrite map_lookup_filter_Some. intros [Hr Hne]. simpl in Hne.
        destruct (nw_ready _ Hw _ _ Hr) as (e & ? & ?). exists e. by rewrite lookup_delete_ne.
    - destruct He as [A B C D]. split; simpl; [done|done|done|]. intros sid' e [_ Hh]%lookup_delete_Some. by apply D. }
  change (sound t0 (with_socket sid (λ s, set_gs_shutdown {| sd_read := true; sd_write := true |} (set_gs_state Closed s))
            (set_ready (clear_socket sid) (set_handles (delete sid) n)))).
  eapply alter_socket_sound; [done|done| |].
  - split; try done. simpl. apply rtc_once. by apply Hmay.
  - intros _. split; [done|]. simpl. apply lookup_delete_eq.
Qed.

Lemma keeps_close sid : may_close sid → keeps_net (close_socket sid : NetM unit).
Proof.
  intros Hmay t0 n Hn. unfold close_socket. do 2 net_step.
  destruct (decide (gs_state s = Closed)) as [E|Ho]; [rewrite E; by net_steps|].
  assert (Hend : holds (sound t0) (do* update_socket sid (λ s, set_gs_shutdown {| sd_read := true; sd_write := true |} (set_gs_state Closed s));
    do* modify (set_handles (delete sid)); clear_readiness sid) (λ _, sound t0) n).
  { apply holds_bind. eapply holds_update; try done. do 2 net_step. apply holds_modify. by eapply close_sound. }
  by destruct (gs_state s).
Qed.
End calls.
