(* ===== verification/NetSystem.v ===== *)
(** * mcr-net: transfers, polling, and the table as a transition system

    The remaining operations keep the table sound; then every call is a step, whatever it
    returns, and the steps keep the invariant. *)

From S2P Require Import Prelude SysAbi NetTypes NetTable NetOps.
From stdpp Require Import base gmap list strings.
From Stdlib Require Import ZArith Lia.
Open Scope Z_scope.

Section system.
Context {World Handle Transport BatchPoll : Type} `{!HostSockets World Handle Transport BatchPoll} {moves : Moves}.
#[local] Abbreviation Table := (@GuestSocketTable Handle Transport).
#[local] Abbreviation Net := (@Net World Handle Transport).
#[local] Abbreviation NetM := (@NetM World Handle Transport).
Implicit Types (n : Net).

(** ** Sending and receiving *)
Lemma holds_check_connected (Q : Net → Prop) sid op side (K : unit → Net → Prop) n :
  Q n → K tt n → holds Q (check_connected sid op side) K n.
Proof. intros HQ HK. unfold check_connected. by net_steps. Qed.

Lemma holds_check_datagram (Q : Net → Prop) sid op side address (K : unit → Net → Prop) n :
  Q n → (∀ s, nt_sockets (n_table n) !! sid = Some s → gs_state s ≠ Closed → K tt n) →
  holds Q (check_datagram sid op side address) K n.
Proof.
  intros HQ HK. unfold check_datagram. net_steps. eapply HK; [done|].
  intros E. unfold validate_datagram_io in *. rewrite E in *. by destruct (negb _).
Qed.

Lemma keeps_connected {A} sid op side (k : HostSocketEntry → NetM A) :
  (∀ e, keeps_net (k e)) → keeps_net (do* check_connected sid op side; let* e := host_entry_mut sid op in k e).
Proof.
  intros Hk t0 n Hn. apply holds_bind, holds_check_connected; [done|]. net_steps. by apply Hk.
Qed.

Lemma keeps_datagram {A} sid op side address (k : HostSocketEntry → NetM A) :
  (∀ e, keeps_net (k e)) →
  keeps_net (do* check_datagram sid op side address; let* e := ensure_host_entry_mut sid op in k e).
Proof.
  intros Hk t0 n Hn. apply holds_bind, holds_check_datagram; [done|]. intros s Hs Ho.
  apply holds_bind, (holds_ensure_entry t0 _ _ _ s); try done. intros e n' Hn' _ _ _. by apply Hk.
Qed.

(** ** Polling *)
Lemma holds_require_open (Q : Net → Prop) sid (K : unit → Net → Prop) n :
  Q n → (∀ s, nt_sockets (n_table n) !! sid = Some s → gs_state s ≠ Closed → K tt n) → holds Q (require_open sid) K n.
Proof.
  intros HQ HK. unfold require_open. do 2 net_step. destruct (gs_state s) eqn:E; net_steps; eapply HK; try done; by rewrite E.
Qed.

Lemma keeps_finish_polled sid r : may_finish sid → keeps_net (finish_polled_readiness sid r).
Proof.
  intros Hmay t0 n Hn. unfold finish_polled_readiness. destruct (ev_writable r); [|by net_steps].
  do 2 net_step. destruct (gs_state s); net_steps. by apply keeps_finish.
Qed.

Lemma keeps_cached_poll sid interest : may_finish sid → keeps_net (cached_poll_readiness sid interest).
Proof.
  intros Hmay t0 n Hn. unfold cached_poll_readiness. apply holds_bind, holds_require_open; [done|]. intros s Hs Ho.
  apply holds_bind, (holds_ensure_entry t0 _ _ _ s); try done. intros e n' Hn' _ He Ht.
  do 4 net_step. do 2 net_step.
  assert (Hr : sound t0 (set_ready (λ ready, foldl (λ ready c, apply_completion (he_token e) c ready) ready a) (set_world w n'))).
  { apply set_ready_sound; [done|]. intros tk r Hr. simpl in *. apply apply_completions_ready in Hr as [->|Hr].
    - exists e. by rewrite Ht.
    - by eapply (nw_ready _ (proj1 Hn')). }
  destruct (readiness _ _ _) as [r|]; [|by net_steps].
  apply holds_bind. eapply holds_mono; [by apply keeps_finish_polled|done|]. intros [] n2 Hn2. by net_steps.
Qed.

(** A host poll whose answer may finish a connection. *)
Lemma holds_host_polled (t0 : Table) {A} sid (m : ST World HostIoError SocketEvents) (k : SocketEvents → NetM A) n :
  may_finish sid → sound t0 n → (∀ r n', sound t0 n' → holds (sound t0) (k r) (λ _, sound t0) n') →
  holds (sound t0) (let* r := host m in do* finish_polled_readiness sid r; k r) (λ _, sound t0) n.
Proof.
  intros Hmay Hn Hk. do 2 net_step. apply holds_bind. eapply holds_mono; [by apply keeps_finish_polled|done|].
  intros [] n' Hn'. by apply Hk.
Qed.

Lemma keeps_poll sid interest timeout : may_finish sid → keeps_net (poll sid interest timeout).
Proof.
  intros Hmay t0 n Hn. unfold poll. apply holds_bind, holds_require_open; [done|]. intros s _ _.
  do 2 net_step. net_step. apply holds_bind. eapply holds_mono; [by apply keeps_cached_poll|done|].
  intros [r|] n' Hn'; [by net_steps|]. do 2 net_step. apply holds_host_polled; [done|done|]. intros r n2 Hn2. by net_steps.
Qed.

(** The plan of [poll_many] names requested sockets only. *)
Definition may_finish_all {A} (l : list (nat * Z * A)) : Prop := Forall (λ x, may_finish x.1.2) l.

Definition plan_may (p : PollPlan (BatchPoll := BatchPoll)) : Prop :=
  may_finish_all (pp_batch p) ∧ may_finish_all (pp_fallback p).

Lemma keeps_poll_plan (t0 : Table) requests : Forall (λ r, may_finish r.1) requests →
  ∀ index timeout p n, plan_may p → sound t0 n →
  holds (sound t0) (poll_plan index requests timeout p) (λ p' n', plan_may p' ∧ sound t0 n') n.
Proof.
  induction 1 as [|[sid interest] requests Hmay _ IH]; intros index timeout p n Hp Hn; simpl; [by apply holds_ret|].
  apply holds_bind, holds_require_open; [done|]. intros s _ _. do 2 net_step. net_step; [by apply IH|].
  apply holds_bind. eapply holds_mono; [by apply keeps_cached_poll|done|].
  intros [r|] n' Hn'; [by apply IH|]. do 4 net_step. destruct Hp as [Hb Hf]. apply IH; [|done].
  destruct a; split; simpl; try done; apply Forall_app; (split; [done|by constructor]).
Qed.

Lemma keeps_finish_batch batch : may_finish_all batch → ∀ polled readiness, keeps_net (finish_batch batch polled readiness).
Proof.
  induction 1 as [|[[index sid] b] batch Hmay _ IH]; intros [|r polled] readiness t0 n Hn; simpl; try by net_steps.
  do 2 net_step. apply holds_host_polled; [done|done|]. intros. by apply IH.
Qed.

Lemma keeps_poll_batch batch timeout readiness :
  may_finish_all batch → keeps_net (poll_batch_requests batch timeout readiness).
Proof. intros Hmay t0 n Hn. unfold poll_batch_requests. do 2 net_step. by apply keeps_finish_batch. Qed.

Lemma keeps_poll_fallback fallback : may_finish_all fallback → ∀ timeout readiness, keeps_net (poll_fallback fallback timeout readiness).
Proof.
  induction 1 as [|[[index sid] interest] fallback Hmay _ IH]; intros timeout readiness t0 n Hn; simpl; [by net_steps|].
  do 2 net_step. apply holds_host_polled; [done|done|]. intros. by apply IH.
Qed.

Lemma keeps_poll_many requests timeout :
  Forall (λ r, may_finish r.1) requests → keeps_net (poll_many requests timeout).
Proof.
  intros Hmay t0 n Hn. unfold poll_many. apply holds_bind. eapply holds_mono; [apply keeps_poll_plan; [done| |done]; by split; constructor|done|].
  intros p n' [[Hb Hf] Hn']. apply holds_bind. destruct (bool_decide _).
  - apply holds_ret. by apply keeps_poll_fallback.
  - eapply holds_mono; [exact (keeps_poll_batch _ _ _ Hb _ _ Hn')|done|]. intros r n2 Hn2. by apply keeps_poll_fallback.
Qed.

Lemma keeps_rio sid (t0 : Table) n s :
  sound t0 n → nt_sockets (n_table n) !! sid = Some s → gs_state s ≠ Closed →
  holds (sound t0) (rio_capability sid) (λ _, sound t0) n.
Proof.
  intros Hn Hs Ho. unfold rio_capability. apply holds_bind, (holds_ensure_entry t0 _ _ _ s); try done.
  intros e n' Hn' _ _ _. by net_steps.
Qed.

(** ** The calls *)
(** The operations of the table, but for [rio_capability]: it only asks the host what its
    sockets can do, no code of the repository outside a test calls it, and on a closed socket
    it opens a handle again, which the invariant excludes ([keeps_rio] is what holds of it). *)
Inductive NetCall : Type :=
| CallCreate (spec : SocketSpec)
| CallBind (sid : Z) (address : SocketAddress)
| CallListen (sid backlog : Z)
| CallConnect (sid : Z) (address : SocketAddress)
| CallAccept (sid : Z)
| CallGetOption (sid : Z) (option : SocketOptionName)
| CallSetOption (sid : Z) (option : SocketOptionName) (value : Z)
| CallSetNonblocking (sid : Z) (nonblocking : bool)
| CallLocalAddress (sid : Z)
| CallPeerAddress (sid : Z)
| CallShutdown (sid : Z) (how : ShutdownHow)
| CallClose (sid : Z)
| CallSend (sid : Z) (buffer : list Z)
| CallSendMsg (sid : Z) (buffers : list (list Z))
| CallRecv (sid len : Z)
| CallRecvMsg (sid : Z) (lengths : list Z)
| CallSendTo (sid : Z) (buffer : list Z) (address : SocketAddress)
| CallSendMsgTo (sid : Z) (buffers : list (list Z)) (address : SocketAddress)
| CallRecvFrom (sid len : Z)
| CallRecvMsgFrom (sid : Z) (lengths : list Z)
| CallPoll (sid : Z) (interest : SocketEvents) (timeout : option Z)
| CallPollMany (requests : list (Z * SocketEvents)) (timeout : option Z).

Definition after {A} (m : NetM A) (n : Net) : Net := (m n).2.

Definition run_call (c : NetCall) : Net → Net :=
  match c with
  | CallCreate spec => after (create_socket_from_spec spec)
  | CallBind sid address => after (bind_socket sid address)
  | CallListen sid backlog => after (listen sid backlog)
  | CallConnect sid address => after (connect sid address)
  | CallAccept sid => after (accept sid)
  | CallGetOption sid option => after (get_option sid option)
  | CallSetOption sid option value => after (set_option sid option value)
  | CallSetNonblocking sid b => after (set_nonblocking sid b)
  | CallLocalAddress sid => after (local_address sid)
  | CallPeerAddress sid => after (peer_address sid)
  | CallShutdown sid how => after (shutdown sid how)
  | CallClose sid => after (close_socket sid)
  | CallSend sid buffer => after (send_connected sid buffer)
  | CallSendMsg sid buffers => after (send_connected_vectored sid buffers)
  | CallRecv sid len => after (recv_connected sid len)
  | CallRecvMsg sid lengths => after (recv_connected_vectored sid lengths)
  | CallSendTo sid buffer address => after (send_to sid buffer address)
  | CallSendMsgTo sid buffers address => after (send_to_vectored sid buffers address)
  | CallRecvFrom sid len => after (recv_from sid len)
  | CallRecvMsgFrom sid lengths => after (recv_from_vectored sid lengths)
  | CallPoll sid interest timeout => after (poll sid interest timeout)
  | CallPollMany requests timeout => after (poll_many requests timeout)
  end.

Definition run_calls (cs : list NetCall) (n : Net) : Net := foldl (λ n c, run_call c n) n cs.

(** How a call may move a socket: the call and the socket, from where to where. *)
Definition call_edge (c : NetCall) (sid : Z) (s s' : SocketState) : Prop :=
  match c with
  | CallBind x _ => x = sid ∧ s = Created ∧ ∃ a, s' = Bound a
  | CallListen x _ => x = sid ∧ ∃ a, s = Bound a ∧ s' = Listening a
  | CallConnect x address =>
      x = sid ∧ (s = Created ∨ ∃ a, s = Bound a) ∧ (s' = Connecting address ∨ ∃ l p, s' = Connected l p)
  | CallLocalAddress x | CallPeerAddress x | CallGetOption x OptSocketError | CallPoll x _ _ =>
      x = sid ∧ (∃ a, s = Connecting a) ∧ (s' = Created ∨ ∃ l p, s' = Connected l p)
  | CallPollMany requests _ =>
      sid ∈ requests.*1 ∧ (∃ a, s = Connecting a) ∧ (s' = Created ∨ ∃ l p, s' = Connected l p)
  | CallClose x => x = sid ∧ s ≠ Closed ∧ s' = Closed
  | _ => False
  end.

(** Two edges of one call do not follow each other. *)
Lemma call_edge_once c sid s s' : rtc (call_edge c sid) s s' → s' = s ∨ call_edge c sid s s'.
Proof.
  inversion 1 as [|? y ? H1 H2]; subst; [by left|right].
  inversion H2 as [|? z ? H3 _]; subst; [done|]. exfalso.
  destruct c; try destruct option; simpl in H1, H3; naive_solver.
Qed.

Lemma keeps_after {A} (m : NetM A) (t0 : Table) n : keeps_net m → sound t0 n → sound t0 (after m n).
Proof. intros Hm Hn. specialize (Hm t0 n Hn). unfold holds, after in *. by destruct (m n) as [[] ?]. Qed.

(** Every call keeps the table sound, for any edges that include its own. *)
Lemma run_call_sound c (t0 : Table) n :
  (∀ sid s s', call_edge c sid s s' → may sid s s') → may_when_new t0 → sound t0 n → sound t0 (run_call c n).
Proof.
  intros Hmay Hnew. destruct c; simpl in *;
    try (apply keeps_after;
      auto using keeps_create_socket_from_spec, keeps_set_option, keeps_set_nonblocking, keeps_shutdown;
      first [apply keeps_connected|apply keeps_datagram]; intros e; first [apply keeps_sent|apply keeps_received]).
  - apply keeps_after, keeps_bind_socket. intros a. apply Hmay. eauto.
  - apply keeps_after, keeps_listen. intros a. apply Hmay. eauto.
  - apply keeps_after, keeps_connect. intros s Hs. split; [|intros l p]; apply Hmay; eauto 8.
  - intros Hn. pose proof (keeps_accept sid t0 n Hnew Hn) as Ha. unfold holds, after in *. by destruct (accept sid n) as [[] ?].
  - apply keeps_after, keeps_get_option. intros ->. split; [|intros l p]; apply Hmay; eauto 8.
  - apply keeps_after, keeps_local_address. split; [|intros l p]; apply Hmay; eauto 8.
  - apply keeps_after, keeps_peer_address. split; [|intros l p]; apply Hmay; eauto 8.
  - apply keeps_after, keeps_close. intros s Hs. by apply Hmay.
  - apply keeps_after, keeps_poll. split; [|intros l p]; apply Hmay; eauto 8.
  - apply keeps_after, keeps_poll_many. apply Forall_forall. intros [sid interest] Hin.
    assert (Hsid : sid ∈ requests.*1) by (apply list_elem_of_fmap; by exists (sid, interest)).
    split; [|intros l p]; apply Hmay; eauto 8.
Qed.

Lemma sound_start n : table_wf (n_table n) → sound (n_table n) n.
Proof. intros Hw. split; [done|by apply evolves_refl]. Qed.

(** What one call does to one socket. *)
Definition lives (c : NetCall) (sid : Z) (s s' : GuestSocket) : Prop :=
  gs_id s' = gs_id s ∧ gs_domain s' = gs_domain s ∧ gs_type s' = gs_type s ∧ gs_protocol s' = gs_protocol s ∧
  (gs_state s' = gs_state s ∨ call_edge c sid (gs_state s) (gs_state s')) ∧
  (gs_state s' = Closed → sd_read (gs_shutdown s') = true ∧ sd_write (gs_shutdown s') = true).

Fixpoint lives_through (cs : list NetCall) (sid : Z) (s s' : GuestSocket) : Prop :=
  match cs with
  | [] => s' = s
  | c :: cs => ∃ s1, lives c sid s s1 ∧ lives_through cs sid s1 s'
  end.

Lemma new_table_wf transport : table_wf (table_new transport : Table).
Proof.
  split; simpl; [lia|by intros ? ? ?%lookup_empty_Some|by intros ? ? ?%lookup_empty_Some|by intros ? ? ? ? ?%lookup_empty_Some|
    by intros ? ? ?%lookup_empty_Some].
Qed.
End system.

(** ** The calls in sequence *)
(** With every edge allowed the rules are those of an invariant alone. *)
Definition any_move : Moves := λ _ _ _, True.

Section sequences.
Context {World Handle Transport BatchPoll : Type} `{!HostSockets World Handle Transport BatchPoll}.
#[local] Abbreviation Table := (@GuestSocketTable Handle Transport).
#[local] Abbreviation Net := (@Net World Handle Transport).
Implicit Types (n : Net).

Lemma run_call_any c (t0 : Table) n : sound (moves := any_move) t0 n → sound (moves := any_move) t0 (run_call c n).
Proof. by apply run_call_sound. Qed.

Lemma run_calls_any cs (t0 : Table) n : sound (moves := any_move) t0 n → sound (moves := any_move) t0 (run_calls cs n).
Proof. revert n. induction cs as [|c cs IH]; intros n Hn; simpl; [done|]. by apply IH, run_call_any. Qed.

(** A call moves a socket that was there along an edge of its own. *)
Lemma call_lives c n sid s :
  table_wf (n_table n) → nt_sockets (n_table n) !! sid = Some s →
  ∃ s', nt_sockets (n_table (run_call c n)) !! sid = Some s' ∧ lives c sid s s'.
Proof.
  intros Hw Hs.
  pose (moves := (λ x t t', call_edge c x t t' ∨ nt_sockets (n_table n) !! x = None) : Moves).
  assert (Hn : sound (moves := moves) (n_table n) (run_call c n)).
  { apply run_call_sound; [by left|by right|by apply sound_start]. }
  destruct Hn as [Hw' He]. destruct (ev_socket _ _ He _ _ Hs) as (s' & Hs' & [H1 H2 H3 H4 Hr]).
  exists s'. split; [done|]. split_and!; try done.
  - apply call_edge_once. eapply rtc_subrel; [|exact Hr]. intros t t' [Ht|Ht]; [done|congruence].
  - intros E. by rewrite (sw_closed _ _ _ (nw_socket _ Hw' _ _ Hs') E).
Qed.

Lemma calls_live cs n sid s :
  table_wf (n_table n) → nt_sockets (n_table n) !! sid = Some s →
  ∃ s', nt_sockets (n_table (run_calls cs n)) !! sid = Some s' ∧ lives_through cs sid s s'.
Proof.
  revert n s. induction cs as [|c cs IH]; intros n s Hw Hs; simpl; [eauto|].
  destruct (call_lives c n sid s Hw Hs) as (s1 & Hs1 & Hl).
  assert (Hw1 : table_wf (n_table (run_call c n))) by (by apply (run_call_any c (n_table n)), sound_start).
  destruct (IH _ _ Hw1 Hs1) as (s' & Hs' & Hl'). eauto.
Qed.
End sequences.
