(* ===== verification/NetDns.v ===== *)
(** * mcr-net: the cache of resolved names

    [DnsCache] (mcr-net dns_cache.rs) keeps the addresses of names until they expire and
    forgets them when the guest's resolver configuration changes.  [answer] is what it should
    say, read off the history of calls alone: the last insertion for the name decides. *)

From S2P Require Import Prelude.
From stdpp Require Import base gmap list strings.
From Stdlib Require Import ZArith Lia Ascii.
Open Scope Z_scope.

(** ** The cache *)
Record GuestDnsConfig : Type := { dc_hosts : list Z; dc_resolv_conf : list Z; dc_nsswitch_conf : list Z }.
#[export] Instance GuestDnsConfig_eq_dec : EqDecision GuestDnsConfig.
Proof. solve_decision. Defined.

Definition from_guest_file_contents (hosts resolv_conf nsswitch_conf : list Z) : GuestDnsConfig :=
  {| dc_hosts := hosts; dc_resolv_conf := resolv_conf; dc_nsswitch_conf := nsswitch_conf |}.

Inductive DnsRecordType : Type := RecordA | RecordAaaa.
#[export] Instance DnsRecordType_eq_dec : EqDecision DnsRecordType.
Proof. solve_decision. Defined.
#[export] Instance DnsRecordType_countable : Countable DnsRecordType.
Proof.
  by refine (inj_countable' (λ r, match r with RecordA => false | RecordAaaa => true end)
    (λ b, if b : bool then RecordAaaa else RecordA) _); intros [].
Defined.

(** [char::make_ascii_lowercase], byte by byte. *)
Definition ascii_lowercase (c : ascii) : ascii :=
  let n := N_of_ascii c in if ((65 <=? n) && (n <=? 90))%N then ascii_of_N (n + 32) else c.

Fixpoint make_ascii_lowercase (s : string) : string :=
  match s with EmptyString => EmptyString | String c s => String (ascii_lowercase c) (make_ascii_lowercase s) end.

Record DnsCacheQuery : Type := { dq_name : string; dq_record_type : DnsRecordType }.
#[export] Instance DnsCacheQuery_eq_dec : EqDecision DnsCacheQuery.
Proof. solve_decision. Defined.
#[export] Instance DnsCacheQuery_countable : Countable DnsCacheQuery.
Proof.
  by refine (inj_countable' (λ q, (dq_name q, dq_record_type q))
    (λ p, {| dq_name := p.1; dq_record_type := p.2 |}) _); intros [].
Defined.

Definition query_new (name : string) (record_type : DnsRecordType) : DnsCacheQuery :=
  {| dq_name := make_ascii_lowercase name; dq_record_type := record_type |}.

Inductive IpAddr : Type := IpV4 (octets : list Z) | IpV6 (octets : list Z).

(** Durations in nanoseconds; [Duration::MAX] has a 64-bit number of seconds. *)
Definition NANOS_PER_SEC : Z := 1000000000.
Definition DURATION_MAX : Z := 2 ^ 64 * NANOS_PER_SEC - 1.

Definition duration_checked_add (a b : Z) : option Z := if DURATION_MAX <? a + b then None else Some (a + b).

Record DnsCacheEntry : Type := { de_addresses : list IpAddr; de_expires_at : Z }.

Definition is_expired (now : Z) (e : DnsCacheEntry) : bool := de_expires_at e <=? now.

Record DnsCache : Type := { dns_resolver_config : GuestDnsConfig; dns_entries : gmap DnsCacheQuery DnsCacheEntry }.

Definition cache_new (resolver_config : GuestDnsConfig) : DnsCache :=
  {| dns_resolver_config := resolver_config; dns_entries := ∅ |}.

Definition set_entries (f : gmap DnsCacheQuery DnsCacheEntry → gmap DnsCacheQuery DnsCacheEntry) (c : DnsCache)
    : DnsCache := {| dns_resolver_config := dns_resolver_config c; dns_entries := f (dns_entries c) |}.

Definition update_resolver_config (resolver_config : GuestDnsConfig) (c : DnsCache) : bool * DnsCache :=
  if bool_decide (dns_resolver_config c = resolver_config) then (false, c) else (true, cache_new resolver_config).

Definition insert_addresses (query : DnsCacheQuery) (addresses : list IpAddr) (ttl now : Z) (c : DnsCache)
    : bool * DnsCache :=
  if (ttl =? 0) || (length addresses =? 0)%nat then (false, set_entries (delete query) c) else
  (true, set_entries (insert query {| de_addresses := addresses;
                                      de_expires_at := default DURATION_MAX (duration_checked_add now ttl) |}) c).

Definition entry_expired (query : DnsCacheQuery) (now : Z) (c : DnsCache) : bool :=
  match dns_entries c !! query with Some e => is_expired now e | None => false end.

Definition lookup_addresses (query : DnsCacheQuery) (now : Z) (c : DnsCache) : option (list IpAddr) * DnsCache :=
  if entry_expired query now c then (None, set_entries (delete query) c) else
  (de_addresses <$> dns_entries c !! query, c).

Definition purge_expired (now : Z) (c : DnsCache) : nat * DnsCache :=
  let kept := filter (λ p, is_expired now p.2 = false) (dns_entries c) in
  ((size (dns_entries c) - size kept)%nat, set_entries (λ _, kept) c).

Definition cache_len (c : DnsCache) : nat := size (dns_entries c).
Definition cache_clear (c : DnsCache) : DnsCache := set_entries (λ _, ∅) c.

(** ** Histories *)
Inductive DnsCall : Type :=
| DnsConfigure (config : GuestDnsConfig)
| DnsInsert (query : DnsCacheQuery) (addresses : list IpAddr) (ttl now : Z)
| DnsLookup (query : DnsCacheQuery) (now : Z)
| DnsPurge (now : Z)
| DnsClear.

Definition dns_call (c : DnsCall) (s : DnsCache) : DnsCache :=
  match c with
  | DnsConfigure config => (update_resolver_config config s).2
  | DnsInsert query addresses ttl now => (insert_addresses query addresses ttl now s).2
  | DnsLookup query now => (lookup_addresses query now s).2
  | DnsPurge now => (purge_expired now s).2
  | DnsClear => cache_clear s
  end.

(** Histories are newest first. *)
Fixpoint dns_run (start : GuestDnsConfig) (history : list DnsCall) : DnsCache :=
  match history with [] => cache_new start | c :: history => dns_call c (dns_run start history) end.

Fixpoint configured (start : GuestDnsConfig) (history : list DnsCall) : GuestDnsConfig :=
  match history with
  | [] => start
  | DnsConfigure config :: _ => config
  | _ :: history => configured start history
  end.

Fixpoint answer (start : GuestDnsConfig) (history : list DnsCall) (query : DnsCacheQuery) (now : Z)
    : option (list IpAddr) :=
  match history with
  | [] | DnsClear :: _ => None
  | DnsConfigure config :: history =>
      if bool_decide (configured start history = config) then answer start history query now else None
  | DnsInsert q addresses ttl at_ :: history =>
      if bool_decide (q = query) then
        if bool_decide (0 < ttl ∧ addresses ≠ [] ∧ now < Z.min (at_ + ttl) DURATION_MAX) then Some addresses else None
      else answer start history query now
  | (DnsLookup _ _ | DnsPurge _) :: history => answer start history query now
  end.

Definition call_time (c : DnsCall) : option Z :=
  match c with
  | DnsInsert _ _ _ now | DnsLookup _ now | DnsPurge now => Some now
  | DnsConfigure _ | DnsClear => None
  end.

(** The clock does not go back, and no time to live is negative. *)
Fixpoint clock (now : Z) (history : list DnsCall) : Prop :=
  match history with
  | [] => True
  | c :: history =>
      match c with DnsInsert _ _ ttl _ => 0 ≤ ttl | _ => True end ∧
      match call_time c with Some t => t ≤ now ∧ clock t history | None => clock now history end
  end.

Lemma clock_mono now now' history : now ≤ now' → clock now history → clock now' history.
Proof.
  revert now now'. induction history as [|c history IH]; intros now now' H; simpl; [done|].
  intros [? Ht]. split; [done|]. destruct (call_time c); [by destruct Ht; split; [lia|]|by eapply IH].
Qed.

(** ** The cache against its history *)
Lemma configured_run start history : dns_resolver_config (dns_run start history) = configured start history.
Proof.
  induction history as [|[config|q a ttl now|q now|now|] history IH]; simpl; [done| | | |done|done].
  - unfold update_resolver_config. by case_bool_decide.
  - unfold insert_addresses. by destruct (_ || _).
  - unfold lookup_addresses. by destruct (entry_expired _ _ _).
Qed.

(** What a lookup says. *)
Definition visible (s : DnsCache) (query : DnsCacheQuery) (now : Z) : option (list IpAddr) :=
  e ← dns_entries s !! query; if is_expired now e then None else Some (de_addresses e).

Lemma lookup_visible query now s : (lookup_addresses query now s).1 = visible s query now.
Proof.
  unfold lookup_addresses, visible, entry_expired. destruct (dns_entries s !! query) as [e|]; simpl; [|done].
  by destruct (is_expired now e).
Qed.

(** Dropping what has expired by [t] changes nothing later on. *)
Lemma visible_drop (s s' : DnsCache) query now t :
  t ≤ now → (dns_entries s' !! query = dns_entries s !! query ∨
             dns_entries s' !! query = None ∧ ∃ e, dns_entries s !! query = Some e ∧ is_expired t e = true) →
  visible s' query now = visible s query now.
Proof.
  intros Ht [E|(E & e & E' & He)]; unfold visible; [by rewrite E|]. rewrite E, E'. simpl.
  unfold is_expired in *. apply Z.leb_le in He. by rewrite (proj2 (Z.leb_le _ _)) by lia.
Qed.

Lemma expiry_min now ttl : default DURATION_MAX (duration_checked_add now ttl) = Z.min (now + ttl) DURATION_MAX.
Proof. unfold duration_checked_add. destruct (Z.ltb_spec DURATION_MAX (now + ttl)); simpl; lia. Qed.

Lemma visible_run start history query now :
  clock now history → visible (dns_run start history) query now = answer start history query now.
Proof.
  revert now. induction history as [|c history IH]; intros now; simpl; [done|]. intros [Hc Ht].
  assert (IH' : visible (dns_run start history) query now = answer start history query now).
  { apply IH. destruct (call_time c); [|done]. by eapply clock_mono; [|apply Ht]; lia. }
  destruct c as [config|q a ttl t|q t|t|]; simpl in *.
  - unfold update_resolver_config. rewrite configured_run. by case_bool_decide.
  - unfold insert_addresses. case_bool_decide as Hq; [subst q|].
    + destruct (Z.eqb_spec ttl 0) as [->|Hz]; [|destruct a as [|x a]]; simpl; unfold visible; simpl.
      1: by rewrite lookup_delete_eq.
      1: rewrite lookup_delete_eq; by case_bool_decide as H; [destruct H as (? & ? & _)|].
      rewrite lookup_insert_eq. unfold is_expired. simpl. rewrite expiry_min.
      case_bool_decide; destruct (Z.leb_spec (Z.min (t + ttl) DURATION_MAX) now); simpl; try done; naive_solver lia.
    + rewrite <- IH'. unfold visible. destruct (_ || _); simpl; by rewrite ?lookup_delete_ne, ?lookup_insert_ne.
  - rewrite <- IH'. apply visible_drop with t; [lia|]. unfold lookup_addresses.
    destruct (entry_expired q t _) eqn:E; [|by left]. simpl. unfold entry_expired in E.
    destruct (decide (q = query)) as [->|]; [|left; by rewrite lookup_delete_ne]. right. rewrite lookup_delete_eq.
    split; [done|]. destruct (_ !! query) as [e|]; [by exists e|done].
  - rewrite <- IH'. apply visible_drop with t; [lia|]. simpl.
    destruct (filter _ _ !! query) as [e|] eqn:E.
    + apply map_lookup_filter_Some in E as [E _]. left. by rewrite E.
    + apply map_lookup_filter_None in E as [E|E]; [left; by rewrite E|].
      destruct (dns_entries _ !! query) as [e|]; [|by left]. right. split; [done|]. exists e. split; [done|].
      by apply not_false_iff_true, (E e).
  - done.
Qed.

(** Every name the cache keeps has an address. *)
Definition cache_wf (s : DnsCache) : Prop := ∀ q e, dns_entries s !! q = Some e → de_addresses e ≠ [].

Lemma cache_run_wf start history : cache_wf (dns_run start history).
Proof.
  induction history as [|[config|q a ttl now|q now|now|] history IH]; simpl; intros q' e.
  - simpl. by rewrite lookup_empty.
  - unfold update_resolver_config. case_bool_decide; simpl; [apply IH|by rewrite lookup_empty].
  - unfold insert_addresses. destruct (ttl =? 0); simpl; [intros [_ H]%lookup_delete_Some; by eapply IH|].
    destruct a as [|x a]; simpl; [intros [_ H]%lookup_delete_Some; by eapply IH|].
    intros [[<- <-]|[_ H]]%lookup_insert_Some; [done|by eapply IH].
  - unfold lookup_addresses. destruct (entry_expired _ _ _); simpl; [intros [_ H]%lookup_delete_Some|intros H]; by eapply IH.
  - intros [H _]%map_lookup_filter_Some. by eapply IH.
  - simpl. by rewrite lookup_empty.
Qed.
