(* ===== verification/NetTheorems.v ===== *)
(** * mcr-net: the properties

    The table stays well formed and sockets keep to their life cycle whatever calls are made
    and whatever the host does; tokens are not reused; what connecting does on every branch;
    options read back; a refused connection and poll; and the name cache is its history. *)

From S2P Require Import Prelude SysAbi NetTypes NetTable NetOps NetSystem NetDns.
From stdpp Require Import base gmap list strings.
From Stdlib Require Import ZArith Lia.
Open Scope Z_scope.

(** ** A host for the examples: connecting waits, and is then refused *)
#[export] Instance sample_sockets : HostSockets unit unit unit unit := {
  open_socket _ _ _ := ret tt;
  h_bind _ a := ret a;
  h_listen _ _ := ret tt;
  h_accept_fast_path _ _ _ := ret AcceptUnsupported;
  h_accept _ := throw {| hio_errno := EWOULDBLOCK |};
  h_set_nonblocking _ _ := ret tt;
  h_connect_fast_path _ _ _ := ret ConnectPending;
  h_connect _ _ := ret tt;
  h_complete_connect_fast_path _ := ret CompletionDone;
  h_rio_capability _ := ret {| rio_supported := false; rio_function_count := 0 |};
  h_take_error _ := ret (Some {| hio_errno := ECONNREFUSED |});
  h_local_addr _ := ret (AddrInet [127; 0; 0; 1] 4000);
  h_peer_addr _ := ret (AddrInet [127; 0; 0; 1] 80);
  h_send _ bytes := ret (Z.of_nat (length bytes));
  h_send_vectored _ _ := ret 0;
  h_send_to _ bytes _ := ret (Z.of_nat (length bytes));
  h_send_to_vectored _ _ _ := ret 0;
  h_recv _ _ := ret [];
  h_recv_vectored _ _ := ret [];
  h_recv_from _ _ := ret ([], AddrInet [127; 0; 0; 1] 80);
  h_recv_from_vectored _ _ := ret ([], AddrInet [127; 0; 0; 1] 80);
  h_poll _ _ _ := ret (events false true false false);
  h_prepare_batch_poll _ _ _ := ret None;
  h_finish_batch_poll _ r := ret r;
  h_drain_readiness_completions _ _ := ret [];
  h_shutdown _ _ := ret tt;
  host_poll_sockets _ _ := ret [];
}.

Definition sample_spec : SocketSpec :=
  {| sp_domain := DomainInet; sp_type := Stream; sp_protocol := ProtoDefault;
     sp_flags := {| sf_nonblocking := true; sf_cloexec := false |} |}.
Definition sample_net : Net := {| n_table := table_new (Some tt) : @GuestSocketTable unit unit; n_world := tt |}.
Definition sample_peer : SocketAddress := AddrInet [127; 0; 0; 1] 80.

Section theorems.
Context {World Handle Transport BatchPoll : Type} `{!HostSockets World Handle Transport BatchPoll}.
#[local] Abbreviation Table := (@GuestSocketTable Handle Transport).
#[local] Abbreviation Net := (@Net World Handle Transport).
#[local] Abbreviation Entry := (@HostSocketEntry Handle).
#[local] Abbreviation NetM := (@NetM World Handle Transport).
Implicit Types (n : Net).
#[local] Existing Instance any_move.

(** C17. Every table the calls can reach is well formed, whatever the host answers: sockets
    are stored under their ids, with protocols that fit; each host handle belongs to one open
    socket and has a token of its own; and readiness is kept only for tokens in use. *)
Theorem reachable_table_wf (transport : option Transport) (w : World) (cs : list NetCall) :
  table_wf (n_table (run_calls cs {| n_table := table_new transport; n_world := w |})).
Proof.
  apply (run_calls_any cs (table_new transport) {| n_table := table_new transport; n_world := w |}).
  apply (sound_start (moves := any_move)). apply new_table_wf.
Qed.

(** *** Refusals *)
Lemma socket_result n sid s : nt_sockets (n_table n) !! sid = Some s → socket sid n = (Ok s, n).
Proof. intros Hs. unfold socket, bind, gets, lift, ok_or, id. by rewrite Hs. Qed.

Lemma bind_Ok {A B} (m : NetM A) (k : A → NetM B) n a n' : m n = (Ok a, n') → (let* a := m in k a) n = k a n'.
Proof. intros E. unfold bind. by rewrite E. Qed.

Lemma bind_refused n sid s address :
  nt_sockets (n_table n) !! sid = Some s → gs_state s ≠ Created → ∃ e, bind_socket sid address n = (Err e, n).
Proof.
  intros Hs Hst. unfold bind_socket. rewrite (bind_Ok _ _ _ _ _ (socket_result _ _ _ Hs)).
  unfold bind at 1, lift. destruct (validate_address_domain _ _) eqn:E; [|by eexists|by unfold validate_address_domain, guard_ok in E; case_match].
  destruct (gs_state s); try done; by eexists.
Qed.

Lemma listen_refused n sid s backlog :
  nt_sockets (n_table n) !! sid = Some s → (∀ a, gs_state s ≠ Bound a ∧ gs_state s ≠ Listening a) →
  ∃ e, listen sid backlog n = (Err e, n).
Proof.
  intros Hs Hst. unfold listen. rewrite (bind_Ok _ _ _ _ _ (socket_result _ _ _ Hs)).
  destruct (bool_decide _); [by eexists|]. destruct (gs_state s) as [|a| |a| |]; try (by eexists); by destruct (Hst a).
Qed.

Lemma connect_refused n sid s address :
  nt_sockets (n_table n) !! sid = Some s → gs_state s ≠ Created → (∀ a, gs_state s ≠ Bound a) →
  ∃ e, connect sid address n = (Err e, n).
Proof.
  intros Hs Hst Hb. unfold connect. rewrite (bind_Ok _ _ _ _ _ (socket_result _ _ _ Hs)).
  unfold bind at 1, lift. destruct (validate_address_domain _ _) eqn:E; [|by eexists|by unfold validate_address_domain, guard_ok in E; case_match].
  unfold bind at 1, lift, validate_connect. destruct (gs_state s) as [|b| | | |]; try done; try (by eexists). by destruct (Hb b).
Qed.

Lemma accept_refused n sid s :
  nt_sockets (n_table n) !! sid = Some s → (∀ a, gs_state s ≠ Listening a) → ∃ e, accept sid n = (Err e, n).
Proof.
  intros Hs Hst. unfold accept. rewrite (bind_Ok _ _ _ _ _ (socket_result _ _ _ Hs)).
  destruct (gs_state s) as [| | |a| |]; try (by eexists). by destruct (Hst a).
Qed.

Lemma closed_stays cs sid s s' : lives_through cs sid s s' → gs_state s = Closed → gs_state s' = Closed.
Proof.
  revert s. induction cs as [|c cs IH]; intros s; simpl; [by intros ->|].
  intros (s1 & (_ & _ & _ & _ & [E|He] & _) & Hl) Hc; apply (IH s1 Hl); [congruence|]. exfalso. rewrite Hc in He.
  destruct c; try destruct option; simpl in He; naive_solver.
Qed.

(** C7. Sockets keep to their life cycle.  Whatever calls follow, a socket stays in the table
    under its id with its domain, type and protocol, and each call moves it at most along its
    own edge ([call_edge]): [bind] from created to bound; [listen] from bound to listening;
    [connect] from created or bound to connected, or to connecting to the address it asked
    for; asking for the addresses, the pending error or the readiness of a connecting socket,
    from connecting to connected or, when the host refused, back to created; and [close] from
    any state to closed, which is final, with both directions shut.  [bind], [listen],
    [connect] and [accept] in any other state fail and change nothing; a socket made later has
    a larger id. *)
Theorem socket_life_cycle n (cs : list NetCall) sid s :
  table_wf (n_table n) → nt_sockets (n_table n) !! sid = Some s →
  let n' := run_calls cs n in
  (∃ s', nt_sockets (n_table n') !! sid = Some s' ∧ lives_through cs sid s s' ∧
         (gs_state s = Closed → gs_state s' = Closed)) ∧
  (∀ address, gs_state s ≠ Created → ∃ e, bind_socket sid address n = (Err e, n)) ∧
  (∀ backlog, (∀ a, gs_state s ≠ Bound a ∧ gs_state s ≠ Listening a) → ∃ e, listen sid backlog n = (Err e, n)) ∧
  (∀ address, gs_state s ≠ Created → (∀ a, gs_state s ≠ Bound a) → ∃ e, connect sid address n = (Err e, n)) ∧
  ((∀ a, gs_state s ≠ Listening a) → ∃ e, accept sid n = (Err e, n)) ∧
  (∀ sid', is_Some (nt_sockets (n_table n') !! sid') → nt_sockets (n_table n) !! sid' = None → sid < sid').
Proof.
  intros Hw Hs n'. split_and!.
  - destruct (calls_live cs n sid s Hw Hs) as (s' & Hs' & Hl). exists s'. split_and!; [done..|]. by eapply closed_stays.
  - intros address. by apply bind_refused.
  - intros backlog. by apply listen_refused.
  - intros address. by apply connect_refused.
  - by apply accept_refused.
  - intros sid' [s' Hs'] Hn. destruct (run_calls_any cs _ _ (sound_start (moves := any_move) _ Hw)) as [_ He].
    destruct (ev_new _ _ He _ _ Hs' Hn). destruct (sw_fresh _ _ _ (nw_socket _ Hw _ _ Hs)). lia.
Qed.

(** C24. A readiness token that has gone never comes back: once no handle carries a token
    that was handed out, no handle ever will, no readiness is kept for it, and a completion
    that still names it is dropped, so a reused socket slot sees no event of its predecessor. *)
Theorem stale_tokens_are_dropped n (cs : list NetCall) (tk : SocketReadinessToken) :
  table_wf (n_table n) → tk_generation tk < nt_next_generation (n_table n) →
  (∀ sid (e : Entry), nt_handles (n_table n) !! sid = Some e → he_token e ≠ tk) →
  let n' := run_calls cs n in
  nt_ready (n_table n') !! tk = None ∧
  ∀ sid (e : Entry), nt_handles (n_table n') !! sid = Some e →
    he_token e ≠ tk ∧
    ∀ c ready, co_token c = tk → apply_completion (he_token e) c ready = ready.
Proof.
  intros Hw Hold Hdead n'. destruct (run_calls_any cs _ _ (sound_start (moves := any_move) _ Hw)) as [Hw' He].
  assert (Hno : ∀ sid (e : Entry), nt_handles (n_table n') !! sid = Some e → he_token e ≠ tk).
  { intros sid e H. destruct (ev_handle _ _ He _ _ H) as [H'|H']; [by eapply Hdead|]. intros <-. lia. }
  split.
  - apply eq_None_not_Some. intros [r Hr]. destruct (nw_ready _ Hw' _ _ Hr) as (e & H & Ht). by eapply Hno.
  - intros sid e H. split; [by eapply Hno|]. intros c ready <-. unfold apply_completion.
    rewrite bool_decide_true; [done|]. intros E. by eapply Hno.
Qed.

(** *** Connecting *)
Lemma update_socket_result n sid s f :
  nt_sockets (n_table n) !! sid = Some s → update_socket sid f n = (Ok tt, with_socket sid f n).
Proof. intros Hs. unfold update_socket, bind, socket, bind, gets, lift, ok_or, id. by rewrite Hs. Qed.

Lemma with_socket_sockets n sid s f :
  nt_sockets (n_table n) !! sid = Some s → nt_sockets (n_table (with_socket sid f n)) = <[sid := f s]> (nt_sockets (n_table n)).
Proof.
  intros Hs. simpl. apply map_eq. intros i. destruct (decide (sid = i)) as [<-|Hne].
  - by rewrite lookup_alter_eq, lookup_insert_eq, Hs.
  - by rewrite lookup_alter_ne, lookup_insert_ne.
Qed.

(** C25. connect on every branch: the address must be of the socket's domain and the socket
    new or bound, or nothing changes and the error says why; then the socket is connected, or
    the host is still connecting and the guest gets EINPROGRESS with the socket connecting and
    the error recorded, or the host refused and every socket is as it was. *)
Theorem connect_spec n sid s address :
  table_wf (n_table n) → nt_sockets (n_table n) !! sid = Some s →
  let r := connect sid address n in
  let sockets := nt_sockets (n_table n) in
  let sockets' := nt_sockets (n_table r.2) in
  match (let? _ := validate_address_domain (gs_domain s) address in validate_connect s sid) with
  | Ok _ =>
      (gs_state s = Created ∨ ∃ a, gs_state s = Bound a) ∧ address_domain address = gs_domain s ∧
      match r.1 with
      | Ok _ => ∃ local peer, sockets' = <[sid := set_gs_state (Connected local peer) s]> sockets
      | Err e =>
          (socket_errno e = EINPROGRESS ∧
           sockets' = <[sid := set_gs_last_error (Some EINPROGRESS) (set_gs_state (Connecting address) s)]> sockets) ∨
          (socket_errno e ≠ EWOULDBLOCK ∧ sockets' = sockets)
      | Panic => sockets' = sockets
      end
  | Err e => r = (Err e, n)
  | Panic => False
  end.
Proof.
  intros Hw Hs r sockets sockets'. subst sockets sockets' r.
  unfold connect. rewrite (bind_Ok _ _ _ _ _ (socket_result _ _ _ Hs)).
  assert (Hv : ∀ o (k : unit → NetM unit), (let* u := lift o in k u) n =
    match o with Ok u => k u n | Err e => (Err e, n) | Panic => (Panic, n) end).
  { by intros [[]| |]. }
  rewrite Hv. unfold validate_address_domain, guard_ok. case_bool_decide as Hd; [|done]. cbn [obind]. rewrite Hv. clear Hv.
  destruct (validate_connect s sid) as [[]|e|] eqn:Hv; [|done|by unfold validate_connect in Hv; destruct (gs_state s)].
  assert (Hst : gs_state s = Created ∨ ∃ a, gs_state s = Bound a).
  { unfold validate_connect in Hv. destruct (gs_state s); eauto; done. }
  split; [done|]. split; [done|].
  assert (Ho : gs_state s ≠ Closed) by (intros E; rewrite E in Hst; by destruct Hst as [|[]]).
  assert (∃ b, socket_uses_host_transport sid n = (Ok b, n)) as [uses Hu].
  { unfold socket_uses_host_transport. rewrite (bind_Ok _ _ _ _ _ (socket_result _ _ _ Hs)). by eexists. }
  rewrite (bind_Ok _ _ _ _ _ Hu). destruct uses.
  - pose proof (connect_host_keeps (n_table n) sid s address n (sound_start n Hw) Hs Ho) as Hc. unfold holds in Hc.
    destruct (connect_host_socket sid address n) as [[[l p]|e|] n'], Hc as [_ Hsame]; [| |done].
    + rewrite (update_socket_result _ _ s) by (by rewrite Hsame). exists l, p. cbn [snd fst].
      rewrite (with_socket_sockets _ _ s) by (by rewrite Hsame). by rewrite Hsame.
    + destruct (Z.eqb_spec (socket_errno e) EWOULDBLOCK) as [E|E]; [|by right].
      unfold bind. rewrite (update_socket_result _ _ s) by (by rewrite Hsame). left. cbn [snd fst throw]. split; [done|].
      rewrite (with_socket_sockets _ _ s) by (by rewrite Hsame). by rewrite Hsame.
  - rewrite (update_socket_result _ _ s) by done. eexists _, _. cbn [snd fst]. by rewrite (with_socket_sockets _ _ s).
Qed.

(** *** Options *)
(** What a guest reads back of a value it set: flags become 0 or 1. *)
Definition stored_value (o : SocketOptionName) (value : Z) : Z :=
  match o with
  | OptSendBuffer | OptReceiveBuffer => value
  | _ => if value =? 0 then 0 else 1
  end.

Lemma get_option_value n sid o s :
  nt_sockets (n_table n) !! sid = Some s → o ≠ OptSocketError → get_option sid o n = (Ok (option_value o s), n).
Proof.
  intros Hs Ho. unfold get_option, read_option. rewrite bool_decide_false by done.
  by rewrite (bind_Ok _ _ _ _ _ (socket_result _ _ _ Hs)).
Qed.

Lemma set_option_result n n' sid o value :
  set_option sid o value n = (Ok tt, n') →
  ∃ s, nt_sockets (n_table n) !! sid = Some s ∧ is_read_only o = false ∧
       (o = OptTcpNoDelay → effective_protocol s = Tcp) ∧
       n' = with_socket sid (λ s, set_gs_options (store_option o value (gs_options s)) s) n.
Proof.
  unfold set_option. destruct (is_read_only o) eqn:Hr; [done|].
  destruct (nt_sockets (n_table n) !! sid) as [s|] eqn:Hs.
  2: { unfold bind at 1, socket, bind, gets, lift, ok_or, id. by rewrite Hs. }
  rewrite (bind_Ok _ _ _ _ _ (socket_result _ _ _ Hs)). intros H. exists s. split; [done|]. split; [done|].
  assert (Hdone : ∀ r : NetM unit, (∀ m, r m = (Ok tt, m) ∨ ∃ e, r m = (Err e, m)) →
    (do* r; update_socket sid (λ s, set_gs_options (store_option o value (gs_options s)) s)) n = (Ok tt, n') →
    r n = (Ok tt, n) ∧ n' = with_socket sid (λ s, set_gs_options (store_option o value (gs_options s)) s) n).
  { intros r Hc. unfold bind. destruct (Hc n) as [E|[e E]]; rewrite E; [|done].
    rewrite (update_socket_result _ _ s) by done. by intros [= <-]. }
  apply Hdone in H as [Hok ->].
  - split; [|done]. intros ->. case_bool_decide as E; [done|]. by destruct (decide (effective_protocol s = Tcp)).
  - clear. intros m. destruct o; try by left.
    1-2: unfold bind, lift, validate_buffer_size; destruct (value =? 0); [right; by eexists|by left].
    case_bool_decide; [right; by eexists|by left].
Qed.

(** Options read back: after a set that succeeds the guest reads the value it set, as 0
    or 1 for a flag, every other option reads as before, and TCP_NODELAY was accepted only on
    a TCP socket. *)
Theorem option_reads_back n n' sid o value :
  set_option sid o value n = (Ok tt, n') →
  (get_option sid o n').1 = Ok (stored_value o value) ∧
  (∀ o', o' ≠ o → o' ≠ OptSocketError → (get_option sid o' n').1 = (get_option sid o' n).1) ∧
  (o = OptTcpNoDelay → ∃ s, nt_sockets (n_table n) !! sid = Some s ∧ effective_protocol s = Tcp).
Proof.
  intros H. destruct (set_option_result _ _ _ _ _ H) as (s & Hs & Hr & Htcp & ->).
  assert (Hs' := with_socket_sockets n sid s (λ s, set_gs_options (store_option o value (gs_options s)) s) Hs).
  assert (Hl := lookup_insert_eq (nt_sockets (n_table n)) sid (set_gs_options (store_option o value (gs_options s)) s)).
  rewrite <- Hs' in Hl. split; [|split; [|eauto]].
  - rewrite (get_option_value _ _ _ _ Hl) by by destruct o.
    destruct o; try done; simpl; unfold bool_to_socket_option, socket_option_to_bool; by destruct (value =? 0).
  - intros o' Hne Ho. rewrite (get_option_value _ _ _ _ Hl), (get_option_value _ _ _ _ Hs) by done.
    destruct o'; try done; simpl; by rewrite bool_decide_false by done.
Qed.

(** *** A refused connection *)
Lemma refused_finish n sid s address (e : Entry) w w' error :
  nt_sockets (n_table n) !! sid = Some s → gs_state s = Connecting address → nt_handles (n_table n) !! sid = Some e →
  h_complete_connect_fast_path (he_handle e) (n_world n) = (Ok CompletionDone, w) →
  h_take_error (he_handle e) w = (Ok (Some error), w') →
  finish_nonblocking_connect sid n =
  (Err (HostIo (hio_errno error)),
   with_socket sid (λ s, set_gs_last_error (Some (hio_errno error)) (set_gs_state Created s)) (set_world w' n)).
Proof.
  intros Hs Hst He Hdone Herr. unfold finish_nonblocking_connect.
  rewrite (bind_Ok _ _ _ _ _ (socket_result _ _ _ Hs)), Hst.
  rewrite (bind_Ok (gets id) _ n n n eq_refl), He.
  assert (Hc : host (h_complete_connect_fast_path (he_handle e)) n = (Ok CompletionDone, set_world w n)).
  { unfold host. by rewrite Hdone. }
  rewrite (bind_Ok _ _ _ _ _ Hc), bool_decide_false by done.
  assert (Ht : host (h_take_error (he_handle e)) (set_world w n) = (Ok (Some error), set_world w' n)).
  { unfold host. simpl. by rewrite Herr. }
  rewrite (bind_Ok _ _ _ _ _ Ht).
  rewrite (bind_Ok _ _ _ _ _ (update_socket_result (set_world w' n) sid s _ Hs)). done.
Qed.

(** What poll does with a connection that the host has refused: the error does not come
    back as readiness, it is the result of poll itself, which so fails for the whole set, and
    the socket is put back to new (also one that was bound before it connected). *)
Theorem refused_connect_fails_poll n sid s address (e : Entry) interest timeout r w1 w2 w3 w4 error :
  nt_sockets (n_table n) !! sid = Some s → gs_state s = Connecting address → gs_domain s ≠ DomainUnix →
  nt_handles (n_table n) !! sid = Some e → nt_ready (n_table n) !! he_token e = None →
  h_drain_readiness_completions (he_handle e) (he_token e) (n_world n) = (Ok [], w1) →
  h_poll (he_handle e) interest timeout w1 = (Ok r, w2) → ev_writable r = true →
  h_complete_connect_fast_path (he_handle e) w2 = (Ok CompletionDone, w3) →
  h_take_error (he_handle e) w3 = (Ok (Some error), w4) →
  let p := poll sid interest timeout n in
  p.1 = Err (HostIo (hio_errno error)) ∧
  nt_sockets (n_table p.2) = <[sid := set_gs_last_error (Some (hio_errno error)) (set_gs_state Created s)]> (nt_sockets (n_table n)).
Proof.
  intros Hs Hst Hdom He Hready Hdrain Hpoll Hwr Hdone Herr p. subst p. unfold poll.
  assert (Hopen : ∀ m, nt_sockets (n_table m) = nt_sockets (n_table n) → (require_open sid : NetM unit) m = (Ok tt, m)).
  { intros m Hm. unfold require_open. rewrite (bind_Ok _ _ _ _ _ (socket_result m sid s ltac:(by rewrite Hm))). by rewrite Hst. }
  rewrite (bind_Ok _ _ _ _ _ (Hopen n eq_refl)).
  assert (Huses : (socket_uses_host_transport sid : NetM bool) n = (Ok true, n)).
  { unfold socket_uses_host_transport. rewrite (bind_Ok _ _ _ _ _ (socket_result _ _ _ Hs)).
    unfold bind, gets, ret, id. rewrite He. rewrite (bool_decide_true (gs_domain s ≠ _)) by done.
    by rewrite (bool_decide_true (is_Some (Some e))), orb_true_r by eauto. }
  rewrite (bind_Ok _ _ _ _ _ Huses). cbn [negb].
  assert (Hent : ∀ op m, nt_handles (n_table m) = nt_handles (n_table n) → (host_entry_mut sid op : NetM Entry) m = (Ok e, m)).
  { intros op m Hm. unfold host_entry_mut, bind, gets, lift, id. by rewrite Hm, He. }
  assert (Hcached : cached_poll_readiness sid interest n = (Ok None, set_world w1 n)).
  { unfold cached_poll_readiness. rewrite (bind_Ok _ _ _ _ _ (Hopen n eq_refl)).
    assert (Hens : ensure_host_entry_mut sid OpPoll n = (Ok e, n)).
    { unfold ensure_host_entry_mut, bind, gets, id. rewrite He. apply (Hent _ n eq_refl). }
    rewrite (bind_Ok _ _ _ _ _ Hens). unfold bind, host, modify, gets, ret, id. rewrite Hdrain. simpl.
    unfold readiness. rewrite Hready. by destruct n as [[] ]. }
  rewrite (bind_Ok _ _ _ _ _ Hcached), (bind_Ok _ _ _ _ _ (Hent OpPoll (set_world w1 n) eq_refl)).
  assert (Hp : host (h_poll (he_handle e) interest timeout) (set_world w1 n) = (Ok r, set_world w2 n)).
  { unfold host. simpl. by rewrite Hpoll. }
  rewrite (bind_Ok _ _ _ _ _ Hp). unfold finish_polled_readiness. rewrite Hwr.
  assert (Hs2 : (socket sid : NetM _) (set_world w2 n) = (Ok s, set_world w2 n)) by (by apply socket_result).
  unfold bind at 1 3. rewrite (bind_Ok _ _ _ _ _ Hs2), Hst.
  rewrite (refused_finish (set_world w2 n) sid s address e w3 w4 error) by done. cbn [fst snd]. split; [done|].
  by rewrite (with_socket_sockets _ _ s).
Qed.
End theorems.

(** ** Resolved names *)
(** C26. The name cache is its history: as long as the clock does not go back, a lookup gives
    the addresses of the last insertion of that name, unless that had no address or no time to
    live, has expired (a sum past the largest duration counting as the largest), or the cache
    has been cleared or the guest's resolver configuration has changed since; lookups and
    purges in between change no answer. *)
Theorem dns_cache_is_its_history start history query now :
  clock now history →
  (lookup_addresses query now (dns_run start history)).1 = answer start history query now.
Proof. intros H. rewrite lookup_visible. by apply visible_run. Qed.

(** ** The hypotheses can hold *)
Definition connecting_net : Net :=
  run_calls [CallCreate sample_spec; CallConnect 1 sample_peer] sample_net.

Definition sample_socket (n : @Net unit unit unit) (sid : Z) : GuestSocket :=
  default (socket_new 0 sample_spec) (nt_sockets (n_table n) !! sid).

Lemma connecting_net_wf : table_wf (n_table connecting_net).
Proof. apply (run_calls_any _ (n_table sample_net) sample_net), sound_start, new_table_wf. Qed.

Lemma created_net_wf : table_wf (n_table (run_call (CallCreate sample_spec) sample_net)).
Proof. apply (run_call_any (CallCreate sample_spec) (n_table sample_net) sample_net), sound_start, new_table_wf. Qed.

(** The connecting socket refuses to be bound or to connect again; asked for its error it
    reports the refusal and is created again, then it is bound, listens and is closed. *)
Definition later_calls : list NetCall :=
  [CallBind 1 sample_peer; CallConnect 1 sample_peer; CallGetOption 1 OptSocketError; CallBind 1 sample_peer;
   CallListen 1 5; CallConnect 1 sample_peer; CallClose 1; CallBind 1 sample_peer; CallCreate sample_spec].

Lemma socket_life_cycle_witness :
  (λ k, gs_state (sample_socket (run_calls (take k later_calls) connecting_net) 1)) <$> seq 0 10 =
  [Connecting sample_peer; Connecting sample_peer; Connecting sample_peer; Created; Bound sample_peer;
   Listening sample_peer; Listening sample_peer; Closed; Closed; Closed] ∧
  (∃ s', nt_sockets (n_table (run_calls later_calls connecting_net)) !! 1 = Some s' ∧
     lives_through later_calls 1 (sample_socket connecting_net 1) s') ∧
  ∃ e, bind_socket 1 sample_peer connecting_net = (Err e, connecting_net).
Proof.
  destruct (socket_life_cycle connecting_net later_calls 1 (sample_socket connecting_net 1)
    connecting_net_wf ltac:(vm_compute; reflexivity)) as ((s' & Hs' & Hl & _) & Hbind & _).
  split; [vm_compute; reflexivity|]. split; [exists s'; split; [exact Hs'|exact Hl]|]. apply Hbind. vm_compute. discriminate.
Defined.

Lemma stale_tokens_are_dropped_witness :
  nt_ready (n_table (run_calls [CallCreate sample_spec; CallConnect 2 sample_peer] (run_call (CallClose 1) connecting_net)))
    !! {| tk_socket := 1; tk_generation := 1 |} = None.
Proof.
  refine (proj1 (stale_tokens_are_dropped (run_call (CallClose 1) connecting_net)
    [CallCreate sample_spec; CallConnect 2 sample_peer] {| tk_socket := 1; tk_generation := 1 |} _ _ _)).
  - apply (run_call_any _ (n_table connecting_net) connecting_net), sound_start, connecting_net_wf.
  - vm_compute. reflexivity.
  - intros sid e H. exfalso. revert H. change (nt_handles _) with (∅ : gmap Z (@HostSocketEntry unit)).
    by rewrite lookup_empty.
Defined.

Lemma connect_spec_witness :
  (connect 1 sample_peer (run_call (CallCreate sample_spec) sample_net)).1 = Err (WouldBlockError OpConnect EINPROGRESS) ∧
  gs_state (sample_socket connecting_net 1) = Connecting sample_peer.
Proof.
  pose proof (connect_spec (run_call (CallCreate sample_spec) sample_net) 1
    (sample_socket (run_call (CallCreate sample_spec) sample_net) 1) sample_peer created_net_wf
    ltac:(vm_compute; reflexivity)) as H.
  split; [vm_compute; reflexivity|]. revert H. vm_compute. intros (_ & _ & [[_ H]|[_ H]]); reflexivity.
Defined.

Lemma option_reads_back_witness :
  (get_option 1 OptKeepAlive (run_call (CallSetOption 1 OptKeepAlive 5) connecting_net)).1 = Ok 1.
Proof.
  exact (proj1 (option_reads_back connecting_net (run_call (CallSetOption 1 OptKeepAlive 5) connecting_net) 1
    OptKeepAlive 5 ltac:(vm_compute; reflexivity))).
Defined.

Lemma refused_connect_fails_poll_witness :
  (poll 1 (events true true false false) None connecting_net).1 = Err (HostIo ECONNREFUSED).
Proof.
  exact (proj1 (refused_connect_fails_poll connecting_net 1 (sample_socket connecting_net 1) sample_peer
    {| he_handle := tt; he_token := {| tk_socket := 1; tk_generation := 1 |} |} (events true true false false) None
    (events false true false false) tt tt tt tt {| hio_errno := ECONNREFUSED |}
    ltac:(vm_compute; reflexivity) ltac:(vm_compute; reflexivity) ltac:(vm_compute; discriminate)
    ltac:(vm_compute; reflexivity) ltac:(vm_compute; reflexivity) eq_refl eq_refl eq_refl eq_refl eq_refl)).
Defined.

Definition sample_dns : list DnsCall :=
  [DnsPurge 15; DnsInsert (query_new "Example.COM" RecordA) [IpV4 [203; 0; 113; 10]] 30 10].

Lemma dns_cache_is_its_history_witness :
  (lookup_addresses (query_new "example.com" RecordA) 39 (dns_run (from_guest_file_contents [] [] []) sample_dns)).1 =
  Some [IpV4 [203; 0; 113; 10]].
Proof.
  exact (dns_cache_is_its_history (from_guest_file_contents [] [] []) sample_dns (query_new "example.com" RecordA) 39
    ltac:(vm_compute; repeat split; congruence)).
Defined.
