(* ===== verification/JitRegisters.v ===== *)
(** * mcr-jit: the instruction decoder it relies on

    mcr-jit decodes with the library iced_x86, which is not code of the repository.  An
    [Instruction] holds the answers of the accessors that mcr-jit calls; [X86Decoder] is the
    decoder: what it makes of the bytes at an address.  [X86DecoderLaws] states the documented
    behaviour that theorems about it assume.

    A register of the library is named by its number and the part of it that is meant. *)

From S2P Require Import Prelude SysAbi.
From stdpp Require Import base list strings.
From Stdlib Require Import ZArith Lia.
Open Scope Z_scope.

Inductive Gpr : Type :=
| RAX | RCX | RDX | RBX | RSP | RBP | RSI | RDI | R8 | R9 | R10 | R11 | R12 | R13 | R14 | R15.
#[export] Instance Gpr_eq_dec : EqDecision Gpr.
Proof. solve_decision. Defined.

(** [Reg64 RAX] is [RAX], [Reg32 RAX] is [EAX], [Reg16 RAX] is [AX], [Reg8 RAX] is [AL] and
    [Reg8High RAX] is [AH]. *)
Inductive Register : Type :=
| RegNone
| Reg64 (g : Gpr)
| Reg32 (g : Gpr)
| Reg16 (g : Gpr)
| Reg8 (g : Gpr)
| Reg8High (g : Gpr)
| RegRIP | RegEIP
| RegDS | RegES | RegSS | RegFS
| RegOther (n : Z).
#[export] Instance Register_eq_dec : EqDecision Register.
Proof. solve_decision. Defined.

Inductive OpKind : Type :=
| OpRegister | OpMemory
| OpNearBranch16 | OpNearBranch32 | OpNearBranch64
| OpImmediate8 | OpImmediate16 | OpImmediate32 | OpImmediate64
| OpImmediate8to16 | OpImmediate8to32 | OpImmediate8to64 | OpImmediate32to64
| OpOther (n : Z).
#[export] Instance OpKind_eq_dec : EqDecision OpKind.
Proof. solve_decision. Defined.

Inductive FlowControl : Type :=
| FlowNext | FlowUnconditionalBranch | FlowIndirectBranch | FlowConditionalBranch | FlowReturn | FlowCall
| FlowIndirectCall | FlowInterrupt | FlowXbeginXabortXend | FlowException.

(** The encodings that mcr-jit names; every other one is a [CodeOther]. *)
Inductive Code : Type :=
| Mov_r64_imm64 | Mov_rm64_imm32 | Mov_r32_imm32 | Mov_rm32_imm32
| Mov_rm64_r64 | Mov_r64_rm64 | Mov_rm32_r32 | Mov_r32_rm32
| Mov_r8_rm8 | Mov_rm8_r8 | Mov_r16_rm16 | Mov_rm16_r16
| Mov_r8_imm8 | Mov_rm8_imm8 | Mov_r16_imm16 | Mov_rm16_imm16
| Movzx_r32_rm8 | Movzx_r64_rm8 | Movzx_r32_rm16 | Movzx_r64_rm16
| Movsx_r32_rm8 | Movsx_r64_rm8 | Movsx_r32_rm16 | Movsx_r64_rm16 | Movsxd_r64_rm32 | Cdqe
| Push_r64 | Pushq_imm32 | Pushq_imm8 | Pop_r64 | Lea_r64_m
| Add_rm64_r64 | Add_r64_rm64 | Add_rm32_r32 | Add_r32_rm32
| Add_rm64_imm32 | Add_rm64_imm8 | Add_rm32_imm32 | Add_rm32_imm8
| Sub_rm64_r64 | Sub_r64_rm64 | Sub_rm32_r32 | Sub_r32_rm32
| Sub_rm64_imm32 | Sub_rm64_imm8 | Sub_rm32_imm32 | Sub_rm32_imm8
| And_rm64_r64 | And_r64_rm64 | And_rm64_imm32 | And_rm64_imm8 | And_RAX_imm32
| And_rm32_r32 | And_r32_rm32 | And_rm32_imm32 | And_rm32_imm8 | And_EAX_imm32
| Or_rm64_r64 | Or_r64_rm64 | Or_rm64_imm32 | Or_rm64_imm8 | Or_RAX_imm32
| Or_rm32_r32 | Or_r32_rm32 | Or_rm32_imm32 | Or_rm32_imm8 | Or_EAX_imm32
| Xor_rm64_r64 | Xor_r64_rm64 | Xor_rm64_imm32 | Xor_rm64_imm8 | Xor_RAX_imm32
| Xor_rm32_r32 | Xor_r32_rm32 | Xor_rm32_imm32 | Xor_rm32_imm8 | Xor_EAX_imm32
| Cmp_rm64_r64 | Cmp_r64_rm64 | Cmp_rm32_r32 | Cmp_r32_rm32
| Cmp_rm64_imm32 | Cmp_rm64_imm8 | Cmp_rm32_imm32 | Cmp_rm32_imm8
| Cmp_rm8_r8 | Cmp_r8_rm8 | Cmp_rm16_r16 | Cmp_r16_rm16
| Cmp_rm8_imm8 | Cmp_rm8_imm8_82 | Cmp_rm16_imm16 | Cmp_rm16_imm8
| Test_rm32_r32 | Test_rm64_r64 | Test_rm32_imm32 | Test_rm32_imm32_F7r1 | Test_EAX_imm32
| Test_rm64_imm32 | Test_rm64_imm32_F7r1 | Test_RAX_imm32 | Test_rm8_r8 | Test_rm16_r16
| Test_rm8_imm8 | Test_rm8_imm8_F6r1 | Test_rm16_imm16 | Test_rm16_imm16_F7r1
| Nopd | Nopq
| Call_rel32_64 | Call_rm64 | Retnq | Jmp_rm64
| Jmp_rel8_64 | Jmp_rel32_64 | Je_rel8_64 | Je_rel32_64 | Jne_rel8_64 | Jne_rel32_64
| Js_rel8_64 | Js_rel32_64 | Jns_rel8_64 | Jns_rel32_64 | Jl_rel8_64 | Jl_rel32_64
| Jge_rel8_64 | Jge_rel32_64 | Jg_rel8_64 | Jg_rel32_64 | Jle_rel8_64 | Jle_rel32_64
| Jb_rel8_64 | Jb_rel32_64 | Jae_rel8_64 | Jae_rel32_64 | Ja_rel8_64 | Ja_rel32_64
| Jbe_rel8_64 | Jbe_rel32_64
| CodeOther (n : Z).

(** Immediates are as the accessors give them: the sign-extended ones are signed. *)
Record Instruction : Type := {
  ins_ip : Z; ins_len : Z; ins_next_ip : Z;
  ins_is_invalid : bool; ins_is_syscall : bool;
  ins_code : Code; ins_flow_control : FlowControl;
  ins_op_kind : nat → OpKind; ins_op_register : nat → Register;
  ins_immediate8 : Z; ins_immediate16 : Z; ins_immediate32 : Z; ins_immediate64 : Z;
  ins_immediate8to16 : Z; ins_immediate8to32 : Z; ins_immediate8to64 : Z; ins_immediate32to64 : Z;
  ins_memory_segment : Register; ins_memory_base : Register; ins_memory_index : Register;
  ins_memory_index_scale : Z; ins_memory_displacement64 : Z; ins_ip_rel_memory_address : Z;
  ins_near_branch_target : Z;
}.

(** The answers are of the types of the accessors. *)
Record instruction_wf (i : Instruction) : Prop := {
  iw_next_ip : is_u64 (ins_next_ip i);
  iw_immediate8 : 0 ≤ ins_immediate8 i < 2 ^ 8;
  iw_immediate16 : 0 ≤ ins_immediate16 i < 2 ^ 16;
  iw_immediate32 : 0 ≤ ins_immediate32 i < 2 ^ 32;
  iw_immediate64 : is_u64 (ins_immediate64 i);
  iw_near_branch : is_u64 (ins_near_branch_target i);
}.

(** [Decoder::with_ip(64, bytes, ip, NONE)] and one [decode()]. *)
Class X86Decoder : Type := { x86_decode : list Z → Z → Instruction }.

(** An instruction starts where the decoder stands and takes at least one and at most all of
    the bytes left; a valid one does not depend on what follows it; the last two bytes of a
    syscall are [0f 05]. *)
Class X86DecoderLaws `{X86Decoder} : Prop := {
  decode_wf bytes ip : instruction_wf (x86_decode bytes ip);
  decode_ip bytes ip : ins_ip (x86_decode bytes ip) = ip;
  decode_next_ip bytes ip : ins_next_ip (x86_decode bytes ip) = wadd ip (ins_len (x86_decode bytes ip));
  decode_len bytes ip : bytes ≠ [] → 1 ≤ ins_len (x86_decode bytes ip) ≤ zlen bytes;
  decode_prefix bytes ip : bytes ≠ [] → ins_is_invalid (x86_decode bytes ip) = false →
    x86_decode (take (Z.to_nat (ins_len (x86_decode bytes ip))) bytes) ip = x86_decode bytes ip;
  decode_syscall bytes ip : bytes ≠ [] → ins_is_invalid (x86_decode bytes ip) = false →
    ins_is_syscall (x86_decode bytes ip) = true →
    2 ≤ ins_len (x86_decode bytes ip) ∧
    slice bytes (ins_len (x86_decode bytes ip) - 2) (ins_len (x86_decode bytes ip)) = Some [0x0f; 0x05];
}.

(** ** mcr-jit: registers and flags

    The guest's registers, their parts, and the flags of the arithmetic that mcr-jit executes
    (mcr-jit registers.rs), with the errors of execution (execution.rs) and the pieces of
    decoded blocks they mention (decoder.rs). *)

(** ** Decoded blocks and errors *)
Inductive DecodedMnemonic : Type := MnemonicSyscall | MnemonicOther.

Record DecodedInstruction : Type := { di_rip : Z; di_len : Z; di_mnemonic : DecodedMnemonic }.

Record SyscallSite : Type := { ss_rip : Z; ss_next_rip : Z }.

Inductive DecodedFlowControl : Type :=
| UnconditionalBranch | IndirectBranch | ConditionalBranch | Return | Call | Interrupt | Exception
| XbeginXabortXend.

Inductive BlockTerminator : Type :=
| TermSyscall (site : SyscallSite)
| TermControlFlow (rip : Z) (flow : DecodedFlowControl)
| TermInvalid (rip : Z)
| TermEndOfBytes.

Inductive DecodeError : Type := InvalidInstruction (rip : Z).

Inductive GuestMemoryOperandAccessKind : Type := OperandRead | OperandWrite.
Inductive GuestMemoryOperandError : Type := OperandNotMapped | OperandAccessDenied | OperandFault.

(** Native execution has an error of its own, which is made outside of mcr-jit. *)
Inductive ExecutionError : Type :=
| DecodeFailed (e : DecodeError)
| MissingSyscall (terminator : BlockTerminator)
| MemoryOperand (rip address : Z) (access : GuestMemoryOperandAccessKind) (error : GuestMemoryOperandError).

(** ** Registers *)
Record GuestRegisters : Type := {
  g_rax : Z; g_rbx : Z; g_rcx : Z; g_rdx : Z; g_rsi : Z; g_rdi : Z; g_rbp : Z; g_rsp : Z;
  g_r8 : Z; g_r9 : Z; g_r10 : Z; g_r11 : Z; g_r12 : Z; g_r13 : Z; g_r14 : Z; g_r15 : Z;
  g_rip : Z; g_rflags : Z; g_fs_base : Z;
}.

Definition get_gpr (g : Gpr) (r : GuestRegisters) : Z :=
  match g with
  | RAX => g_rax r | RBX => g_rbx r | RCX => g_rcx r | RDX => g_rdx r
  | RSI => g_rsi r | RDI => g_rdi r | RBP => g_rbp r | RSP => g_rsp r
  | R8 => g_r8 r | R9 => g_r9 r | R10 => g_r10 r | R11 => g_r11 r
  | R12 => g_r12 r | R13 => g_r13 r | R14 => g_r14 r | R15 => g_r15 r
  end.

Definition set_gpr (g : Gpr) (value : Z) (r : GuestRegisters) : GuestRegisters :=
  let new x := if bool_decide (g = x) then value else get_gpr x r in
  {| g_rax := new RAX; g_rbx := new RBX; g_rcx := new RCX; g_rdx := new RDX;
     g_rsi := new RSI; g_rdi := new RDI; g_rbp := new RBP; g_rsp := new RSP;
     g_r8 := new R8; g_r9 := new R9; g_r10 := new R10; g_r11 := new R11;
     g_r12 := new R12; g_r13 := new R13; g_r14 := new R14; g_r15 := new R15;
     g_rip := g_rip r; g_rflags := g_rflags r; g_fs_base := g_fs_base r |}.

Definition set_rip (rip : Z) (r : GuestRegisters) : GuestRegisters :=
  {| g_rax := g_rax r; g_rbx := g_rbx r; g_rcx := g_rcx r; g_rdx := g_rdx r;
     g_rsi := g_rsi r; g_rdi := g_rdi r; g_rbp := g_rbp r; g_rsp := g_rsp r;
     g_r8 := g_r8 r; g_r9 := g_r9 r; g_r10 := g_r10 r; g_r11 := g_r11 r;
     g_r12 := g_r12 r; g_r13 := g_r13 r; g_r14 := g_r14 r; g_r15 := g_r15 r;
     g_rip := rip; g_rflags := g_rflags r; g_fs_base := g_fs_base r |}.

Definition syscall_registers (r : GuestRegisters) : SyscallRegisters :=
  {| sr_rax := g_rax r; sr_rdi := g_rdi r; sr_rsi := g_rsi r; sr_rdx := g_rdx r;
     sr_r10 := g_r10 r; sr_r8 := g_r8 r; sr_r9 := g_r9 r; sr_rip := g_rip r |}.

Definition apply_syscall_return (encoded_rax next_rip : Z) (r : GuestRegisters) : GuestRegisters :=
  let r := set_gpr RAX encoded_rax r in
  let r := set_gpr RCX next_rip r in
  let r := set_gpr R11 (g_rflags r) r in
  set_rip next_rip r.

(** ** Flags *)
Record GuestFlags : Type := { f_carry : bool; f_zero : bool; f_sign : bool; f_overflow : bool }.

Definition RFLAGS_CARRY : Z := 1.
Definition RFLAGS_ZERO : Z := Z.shiftl 1 6.
Definition RFLAGS_SIGN : Z := Z.shiftl 1 7.
Definition RFLAGS_OVERFLOW : Z := Z.shiftl 1 11.

Definition from_registers (r : GuestRegisters) : GuestFlags :=
  {| f_carry := negb (Z.land (g_rflags r) RFLAGS_CARRY =? 0); f_zero := negb (Z.land (g_rflags r) RFLAGS_ZERO =? 0);
     f_sign := negb (Z.land (g_rflags r) RFLAGS_SIGN =? 0);
     f_overflow := negb (Z.land (g_rflags r) RFLAGS_OVERFLOW =? 0) |}.

Definition mask_for_width (bits : Z) : Z := if bits =? 64 then U64_MAX else Z.shiftl 1 bits - 1.
Definition mask_to_width (value bits : Z) : Z := Z.land value (mask_for_width bits).
Definition sign_bit (bits : Z) : Z := Z.shiftl 1 (bits - 1).

Definition set_zero_sign (result bits : Z) (f : GuestFlags) : GuestFlags :=
  {| f_carry := f_carry f; f_zero := result =? 0; f_sign := negb (Z.land result (sign_bit bits) =? 0);
     f_overflow := f_overflow f |}.

Definition set_carry_overflow (carry overflow : bool) (f : GuestFlags) : GuestFlags :=
  {| f_carry := carry; f_zero := f_zero f; f_sign := f_sign f; f_overflow := overflow |}.

Definition set_add_result (lhs rhs result bits : Z) (f : GuestFlags) : GuestFlags :=
  let lhs := mask_to_width lhs bits in
  let rhs := mask_to_width rhs bits in
  let result := mask_to_width result bits in
  let sign_bit := sign_bit bits in
  set_carry_overflow (mask_for_width bits <? lhs + rhs)
    (negb (Z.land (Z.land (Z.lxor lhs result) (Z.lxor rhs result)) sign_bit =? 0)) (set_zero_sign result bits f).

Definition set_sub_result (lhs rhs result bits : Z) (f : GuestFlags) : GuestFlags :=
  let lhs := mask_to_width lhs bits in
  let rhs := mask_to_width rhs bits in
  let result := mask_to_width result bits in
  let sign_bit := sign_bit bits in
  set_carry_overflow (lhs <? rhs)
    (negb (Z.land (Z.land (Z.lxor lhs rhs) (Z.lxor lhs result)) sign_bit =? 0)) (set_zero_sign result bits f).

Definition set_logic_result (result bits : Z) (f : GuestFlags) : GuestFlags :=
  set_carry_overflow false false (set_zero_sign (mask_to_width result bits) bits f).

(** The shift to the left drops the high bits; the one to the right is signed. *)
Definition sign_extend_u64 (value bits : Z) : Z :=
  let shift := 64 - bits in as_u64 (Z.shiftr (as_i64 (wrap64 (Z.shiftl value shift))) shift).

(** ** Parts of registers *)
Definition bad_register {A} (r : GuestRegisters) : outcome A ExecutionError :=
  Err (MissingSyscall (TermInvalid (g_rip r))).

Definition has_high_byte (g : Gpr) : bool :=
  match g with RAX | RCX | RDX | RBX => true | _ => false end.

Definition read_reg64 (r : GuestRegisters) (register : Register) : outcome Z ExecutionError :=
  match register with Reg64 g => Ok (get_gpr g r) | _ => bad_register r end.

Definition read_reg8 (r : GuestRegisters) (register : Register) : outcome Z ExecutionError :=
  match register with
  | Reg8 g => Ok (Z.land (get_gpr g r) 0xff)
  | Reg8High g => if has_high_byte g then Ok (Z.land (Z.shiftr (get_gpr g r) 8) 0xff) else bad_register r
  | _ => bad_register r
  end.

Definition read_reg16 (r : GuestRegisters) (register : Register) : outcome Z ExecutionError :=
  match register with Reg64 g | Reg32 g | Reg16 g => Ok (Z.land (get_gpr g r) 0xffff) | _ => bad_register r end.

Definition read_reg32 (r : GuestRegisters) (register : Register) : outcome Z ExecutionError :=
  match register with Reg64 g | Reg32 g => Ok (as_u32 (get_gpr g r)) | _ => bad_register r end.

Definition write_reg8 (r : GuestRegisters) (register : Register) (value : Z) : outcome GuestRegisters ExecutionError :=
  match register with
  | Reg8 g => Ok (set_gpr g (Z.lor (without_bits (get_gpr g r) 0xff) value) r)
  | Reg8High g =>
      if has_high_byte g then Ok (set_gpr g (Z.lor (without_bits (get_gpr g r) 0xff00) (Z.shiftl value 8)) r)
      else bad_register r
  | _ => bad_register r
  end.

Definition write_reg16 (r : GuestRegisters) (register : Register) (value : Z) : outcome GuestRegisters ExecutionError :=
  match register with
  | Reg16 g => Ok (set_gpr g (Z.lor (without_bits (get_gpr g r) 0xffff) value) r)
  | _ => bad_register r
  end.

Definition write_reg64 (r : GuestRegisters) (register : Register) (value : Z) : outcome GuestRegisters ExecutionError :=
  match register with Reg64 g | Reg32 g => Ok (set_gpr g value r) | _ => bad_register r end.

Definition write_reg32 (r : GuestRegisters) (register : Register) (value : Z) : outcome GuestRegisters ExecutionError :=
  write_reg64 r register value.
