(* ===== verification/JitOperands.v ===== *)
(** * mcr-jit: operands in registers and memory

    Immediates, effective addresses, and reads and writes of operands (mcr-jit
    operand_memory.rs) over any guest memory that gives [GuestMemoryOperandAccess].  The state
    of an execution is the registers, the flags and that memory. *)

From S2P Require Import Prelude SysAbi Bytes JitRegisters.
From stdpp Require Import base list strings.
From Stdlib Require Import ZArith Lia.
Open Scope Z_scope.

(** A read gives the bytes it was asked for, or an error. *)
Class GuestMemoryOperandAccess (M : Type) : Type := {
  read_memory_operand : Z → Z → ST M GuestMemoryOperandError (list Z);
  write_memory_operand : Z → list Z → ST M GuestMemoryOperandError unit;
}.

(** [RejectingMemoryOperandAccess]. *)
#[export] Instance rejecting_memory : GuestMemoryOperandAccess unit := {
  read_memory_operand _ _ := throw OperandNotMapped;
  write_memory_operand _ _ := throw OperandNotMapped;
}.

(** ** Immediates *)
Definition bad_operand {A} (i : Instruction) : outcome A ExecutionError :=
  Err (MissingSyscall (TermInvalid (ins_ip i))).

Definition immediate_operand_as_u64 (i : Instruction) (operand : nat) : outcome Z ExecutionError :=
  match ins_op_kind i operand with
  | OpImmediate8to64 => Ok (as_u64 (ins_immediate8to64 i))
  | OpImmediate32to64 => Ok (as_u64 (ins_immediate32to64 i))
  | OpImmediate64 => Ok (ins_immediate64 i)
  | _ => bad_operand i
  end.

Definition immediate_as_u64 (i : Instruction) : outcome Z ExecutionError :=
  match ins_op_kind i 1 with
  | OpImmediate8to64 => Ok (as_u64 (ins_immediate8to64 i))
  | OpImmediate32to64 => Ok (as_u64 (ins_immediate32to64 i))
  | OpImmediate64 => Ok (ins_immediate64 i)
  | _ => bad_operand i
  end.

Definition immediate_as_u32 (i : Instruction) : outcome Z ExecutionError :=
  match ins_op_kind i 1 with
  | OpImmediate8to32 => Ok (as_u32 (ins_immediate8to32 i))
  | OpImmediate32 => Ok (ins_immediate32 i)
  | _ => bad_operand i
  end.

Definition immediate_as_u16 (i : Instruction) : outcome Z ExecutionError :=
  match ins_op_kind i 1 with
  | OpImmediate8to16 => Ok (ins_immediate8to16 i mod 2 ^ 16)
  | OpImmediate16 => Ok (ins_immediate16 i)
  | _ => bad_operand i
  end.

Definition immediate_as_u8 (i : Instruction) : outcome Z ExecutionError :=
  match ins_op_kind i 1 with OpImmediate8 => Ok (ins_immediate8 i) | _ => bad_operand i end.

(** ** Addresses *)
Definition effective_address (r : GuestRegisters) (i : Instruction) : outcome Z ExecutionError :=
  let? segment_base :=
    match ins_memory_segment i with
    | RegFS => Ok (g_fs_base r)
    | RegNone | RegDS | RegES | RegSS => Ok 0
    | _ => bad_operand i
    end in
  match ins_memory_base i with
  | RegRIP | RegEIP => Ok (wadd segment_base (ins_ip_rel_memory_address i))
  | base =>
      let? base := (match base with RegNone => Ok 0 | base => read_reg64 r base end) in
      let? index :=
        match ins_memory_index i with
        | RegNone => Ok 0
        | index => let? index := read_reg64 r index in Ok (wrap64 (index * ins_memory_index_scale i))
        end in
      Ok (wadd (wadd (wadd segment_base base) index) (ins_memory_displacement64 i))
  end.

(** ** Execution *)
Section operands.
Context {M : Type} `{!GuestMemoryOperandAccess M}.

Record ExecState : Type := { x_registers : GuestRegisters; x_flags : GuestFlags; x_memory : M }.

Definition ExecM : Type → Type := ST ExecState ExecutionError.

Definition set_registers (r : GuestRegisters) (s : ExecState) : ExecState :=
  {| x_registers := r; x_flags := x_flags s; x_memory := x_memory s |}.
Definition set_flags (f : GuestFlags → GuestFlags) (s : ExecState) : ExecState :=
  {| x_registers := x_registers s; x_flags := f (x_flags s); x_memory := x_memory s |}.
Definition set_memory (m : M) (s : ExecState) : ExecState :=
  {| x_registers := x_registers s; x_flags := x_flags s; x_memory := m |}.

(** A function of the registers, and a change of them. *)
Definition reading {A} (f : GuestRegisters → outcome A ExecutionError) : ExecM A :=
  let* s := gets id in lift (f (x_registers s)).
Definition writing (f : GuestRegisters → outcome GuestRegisters ExecutionError) : ExecM unit :=
  let* r := reading f in modify (set_registers r).

Definition operand {A} (rip address : Z) (access : GuestMemoryOperandAccessKind)
    (m : ST M GuestMemoryOperandError A) : ExecM A :=
  λ s, match m (x_memory s) with
       | (Ok a, memory) => (Ok a, set_memory memory s)
       | (Err e, memory) => (Err (MemoryOperand rip address access e), set_memory memory s)
       | (Panic, memory) => (Panic, set_memory memory s)
       end.

(** A word of [n] bytes: [from_le_bytes], at its width. *)
Definition read_memory_bytes (n rip address : Z) : ExecM Z :=
  let* bytes := operand rip address OperandRead (read_memory_operand address n) in
  ret (le_value bytes mod 256 ^ n).

Definition read_memory_u8 (rip address : Z) : ExecM Z := read_memory_bytes 1 rip address.
Definition read_memory_u16 (rip address : Z) : ExecM Z := read_memory_bytes 2 rip address.
Definition read_memory_u32 (rip address : Z) : ExecM Z := read_memory_bytes 4 rip address.
Definition read_memory_u64 (rip address : Z) : ExecM Z := read_memory_bytes 8 rip address.

Definition write_memory_bytes (rip address : Z) (bytes : list Z) : ExecM unit :=
  operand rip address OperandWrite (write_memory_operand address bytes).

Definition write_memory_u8 (rip address value : Z) : ExecM unit := write_memory_bytes rip address (le_bytes 1 value).
Definition write_memory_u16 (rip address value : Z) : ExecM unit := write_memory_bytes rip address (le_bytes 2 value).
Definition write_memory_u32 (rip address value : Z) : ExecM unit := write_memory_bytes rip address (le_bytes 4 value).
Definition write_memory_u64 (rip address value : Z) : ExecM unit := write_memory_bytes rip address (le_bytes 8 value).

Definition read_operand_u8 (i : Instruction) (n : nat) : ExecM Z :=
  match ins_op_kind i n with
  | OpRegister => reading (λ r, read_reg8 r (ins_op_register i n))
  | OpMemory => let* address := reading (λ r, effective_address r i) in read_memory_u8 (ins_ip i) address
  | _ => lift (bad_operand i)
  end.

Definition read_operand_u16 (i : Instruction) (n : nat) : ExecM Z :=
  match ins_op_kind i n with
  | OpRegister => reading (λ r, read_reg16 r (ins_op_register i n))
  | OpMemory => let* address := reading (λ r, effective_address r i) in read_memory_u16 (ins_ip i) address
  | _ => lift (bad_operand i)
  end.

Definition read_operand_u32 (i : Instruction) (n : nat) : ExecM Z :=
  match ins_op_kind i n with
  | OpRegister => reading (λ r, read_reg32 r (ins_op_register i n))
  | OpMemory => let* address := reading (λ r, effective_address r i) in read_memory_u32 (ins_ip i) address
  | _ => lift (bad_operand i)
  end.

Definition read_operand_u64 (i : Instruction) (n : nat) : ExecM Z :=
  match ins_op_kind i n with
  | OpRegister => reading (λ r, read_reg64 r (ins_op_register i n))
  | OpMemory => let* address := reading (λ r, effective_address r i) in read_memory_u64 (ins_ip i) address
  | _ => lift (bad_operand i)
  end.

Definition read_operand_or_immediate_u32 (i : Instruction) (n : nat) : ExecM Z :=
  match ins_op_kind i n with
  | OpImmediate8to32 | OpImmediate32 => lift (immediate_as_u32 i)
  | _ => read_operand_u32 i n
  end.

Definition read_operand_or_immediate_u64 (i : Instruction) (n : nat) : ExecM Z :=
  match ins_op_kind i n with
  | OpImmediate8to64 | OpImmediate32to64 | OpImmediate64 => lift (immediate_as_u64 i)
  | _ => read_operand_u64 i n
  end.

Definition write_operand_u32 (i : Instruction) (n : nat) (value : Z) : ExecM unit :=
  match ins_op_kind i n with
  | OpRegister => writing (λ r, write_reg32 r (ins_op_register i n) value)
  | OpMemory => let* address := reading (λ r, effective_address r i) in write_memory_u32 (ins_ip i) address value
  | _ => lift (bad_operand i)
  end.

Definition write_operand_u64 (i : Instruction) (n : nat) (value : Z) : ExecM unit :=
  match ins_op_kind i n with
  | OpRegister => writing (λ r, write_reg64 r (ins_op_register i n) value)
  | OpMemory => let* address := reading (λ r, effective_address r i) in write_memory_u64 (ins_ip i) address value
  | _ => lift (bad_operand i)
  end.
End operands.
Arguments ExecState M : clear implicits.
Arguments ExecM M A : clear implicits.
