(* ===== verification/JitDecoder.v ===== *)
(** * mcr-jit: blocks, linear scans and the sites of system calls

    [BlockDecoder], [LinearInstructionScanner] and [syscall_instruction_sites] (mcr-jit
    decoder.rs).  A decoder stands before the bytes it has not consumed; every instruction
    takes at least one, so the loops take the bytes as fuel. *)

From S2P Require Import Prelude JitRegisters.
From stdpp Require Import base list strings.
From Stdlib Require Import ZArith Lia.
Open Scope Z_scope.

Record GuestBlock : Type := { bl_bytes : list Z; bl_rip : Z }.

Record DecodedBlock : Type := { db_instructions : list DecodedInstruction; db_terminator : BlockTerminator }.

Definition syscall_site (b : DecodedBlock) : option SyscallSite :=
  match db_terminator b with TermSyscall site => Some site | _ => None end.

Definition end_rip (i : DecodedInstruction) : Z := wadd (di_rip i) (di_len i).

Definition decoded_mnemonic (i : Instruction) : DecodedMnemonic :=
  if ins_is_syscall i then MnemonicSyscall else MnemonicOther.

Definition decoded_flow_control (flow_control : FlowControl) : option DecodedFlowControl :=
  match flow_control with
  | FlowNext => None
  | FlowUnconditionalBranch => Some UnconditionalBranch
  | FlowIndirectBranch => Some IndirectBranch
  | FlowConditionalBranch => Some ConditionalBranch
  | FlowReturn => Some Return
  | FlowCall => Some Call
  | FlowIndirectCall => Some Call
  | FlowInterrupt => Some Interrupt
  | FlowXbeginXabortXend => Some XbeginXabortXend
  | FlowException => Some Exception
  end.

(** [bytes.windows(2).rposition(...)]. *)
Fixpoint last_pair_from (bytes : list Z) (position : Z) : option Z :=
  match bytes with
  | [] => None
  | a :: rest =>
      match last_pair_from rest (position + 1), rest with
      | Some p, _ => Some p
      | None, b :: _ => if (a =? 0x0f) && (b =? 0x05) then Some position else None
      | None, [] => None
      end
  end.

Definition last_syscall_byte_pair (bytes : list Z) : option Z := last_pair_from bytes 0.

Section decoder.
Context {dec : X86Decoder}.

(** The instruction where the decoder stands, the bytes after it and their address. *)
Definition decode_next (bytes : list Z) (ip : Z) : Instruction * list Z * Z :=
  let i := x86_decode bytes ip in (i, drop (Z.to_nat (ins_len i)) bytes, wadd ip (ins_len i)).

Definition decoded_instruction (i : Instruction) : DecodedInstruction :=
  {| di_rip := ins_ip i; di_len := ins_len i; di_mnemonic := decoded_mnemonic i |}.

Fixpoint decode_loop (fuel : nat) (bytes : list Z) (ip : Z) (instructions : list DecodedInstruction)
    : outcome DecodedBlock DecodeError :=
  match fuel, bytes with
  | S fuel, _ :: _ =>
      let '(i, bytes, ip) := decode_next bytes ip in
      if ins_is_invalid i then Err (InvalidInstruction (ins_ip i)) else
      let decoded := decoded_instruction i in
      let instructions := instructions ++ [decoded] in
      if ins_is_syscall i then
        Ok {| db_instructions := instructions;
              db_terminator := TermSyscall {| ss_rip := ins_ip i; ss_next_rip := end_rip decoded |} |}
      else
        match decoded_flow_control (ins_flow_control i) with
        | Some flow => Ok {| db_instructions := instructions; db_terminator := TermControlFlow (ins_ip i) flow |}
        | None => decode_loop fuel bytes ip instructions
        end
  | _, _ => Ok {| db_instructions := instructions; db_terminator := TermEndOfBytes |}
  end.

Definition decode (b : GuestBlock) : outcome DecodedBlock DecodeError :=
  decode_loop (length (bl_bytes b)) (bl_bytes b) (bl_rip b) [].

Fixpoint scan_loop (fuel : nat) (bytes : list Z) (ip : Z) : list DecodedInstruction :=
  match fuel, bytes with
  | S fuel, _ :: _ =>
      let '(i, bytes, ip) := decode_next bytes ip in
      if ins_is_invalid i then scan_loop fuel bytes ip else decoded_instruction i :: scan_loop fuel bytes ip
  | _, _ => []
  end.

Definition scan (b : GuestBlock) : list DecodedInstruction :=
  scan_loop (length (bl_bytes b)) (bl_bytes b) (bl_rip b).

(** [position] is that of the decoder in all the bytes. *)
Fixpoint sites_loop (fuel : nat) (bytes : list Z) (ip position last_candidate : Z) : list SyscallSite :=
  match fuel, bytes with
  | S fuel, _ :: _ =>
      let '(i, bytes, ip) := decode_next bytes ip in
      let position := position + ins_len i in
      let sites :=
        if negb (ins_is_invalid i) && ins_is_syscall i
        then [{| ss_rip := ins_ip i; ss_next_rip := wadd (ins_ip i) (ins_len i) |}] else [] in
      if last_candidate <? position then sites else sites ++ sites_loop fuel bytes ip position last_candidate
  | _, _ => []
  end.

Definition syscall_instruction_sites (bytes : list Z) (rip : Z) : list SyscallSite :=
  match last_syscall_byte_pair bytes with
  | None => []
  | Some last_candidate => sites_loop (length bytes) bytes rip 0 last_candidate
  end.
End decoder.
