(* ===== verification/JitExec.v ===== *)
(** * mcr-jit: executing blocks up to a system call

    The instructions that mcr-jit executes itself (simple_instruction.rs), the control flow
    between blocks and the traps at system calls (execution.rs), and the trampoline into the
    dispatcher (trampoline.rs). *)

From S2P Require Import Prelude SysAbi Bytes Dispatcher JitRegisters JitOperands JitDecoder.
From stdpp Require Import base list strings.
From Stdlib Require Import ZArith Lia.
Open Scope Z_scope.

Inductive LogicOp : Type := LogicAnd | LogicOr | LogicXor.

Definition apply_logic (lhs rhs : Z) (operation : LogicOp) : Z :=
  match operation with
  | LogicAnd => Z.land lhs rhs
  | LogicOr => Z.lor lhs rhs
  | LogicXor => Z.lxor lhs rhs
  end.

Definition is_register (k : OpKind) : bool := match k with OpRegister => true | _ => false end.
Definition is_memory (k : OpKind) : bool := match k with OpMemory => true | _ => false end.

Section exec.
Context {M : Type} `{!GuestMemoryOperandAccess M} {dec : X86Decoder}.
#[local] Abbreviation Exec := (ExecM M).

Definition execute_logic_u64 (i : Instruction) (operation : LogicOp) : Exec unit :=
  let* lhs := read_operand_u64 i 0 in
  let* rhs := read_operand_or_immediate_u64 i 1 in
  let result := apply_logic lhs rhs operation in
  do* write_operand_u64 i 0 result;
  modify (set_flags (set_logic_result result 64)).

Definition execute_logic_u32 (i : Instruction) (operation : LogicOp) : Exec unit :=
  let* lhs := read_operand_u32 i 0 in
  let* rhs := read_operand_or_immediate_u32 i 1 in
  let result := as_u32 (apply_logic lhs rhs operation) in
  do* write_operand_u32 i 0 result;
  modify (set_flags (set_logic_result result 32)).

(** An addition or subtraction into the first operand, a register; [write] is false for a
    comparison. *)
Definition add64 (i : Instruction) (rhs : Exec Z) : Exec unit :=
  let* lhs := reading (λ r, read_reg64 r (ins_op_register i 0)) in
  let* rhs := rhs in
  let result := wrap64 (lhs + rhs) in
  do* writing (λ r, write_reg64 r (ins_op_register i 0) result);
  modify (set_flags (set_add_result lhs rhs result 64)).

Definition add32 (i : Instruction) (rhs : Exec Z) : Exec unit :=
  let* lhs := reading (λ r, read_reg32 r (ins_op_register i 0)) in
  let* rhs := rhs in
  let result := wrap32 (lhs + rhs) in
  do* writing (λ r, write_reg32 r (ins_op_register i 0) result);
  modify (set_flags (set_add_result lhs rhs result 32)).

Definition sub64 (write : bool) (i : Instruction) (rhs : Exec Z) : Exec unit :=
  let* lhs := reading (λ r, read_reg64 r (ins_op_register i 0)) in
  let* rhs := rhs in
  let result := wrap64 (lhs - rhs) in
  do* (if write then writing (λ r, write_reg64 r (ins_op_register i 0) result) else ret tt);
  modify (set_flags (set_sub_result lhs rhs result 64)).

Definition sub32 (write : bool) (i : Instruction) (rhs : Exec Z) : Exec unit :=
  let* lhs := reading (λ r, read_reg32 r (ins_op_register i 0)) in
  let* rhs := rhs in
  let result := wrap32 (lhs - rhs) in
  do* (if write then writing (λ r, write_reg32 r (ins_op_register i 0) result) else ret tt);
  modify (set_flags (set_sub_result lhs rhs result 32)).

(** A comparison or test of two operands that have been read. *)
Definition compare (bits : Z) (lhs rhs : Exec Z) : Exec unit :=
  let* lhs := lhs in
  let* rhs := rhs in
  modify (set_flags (set_sub_result lhs rhs ((lhs - rhs) mod 2 ^ bits) bits)).

Definition test_bits (bits : Z) (lhs rhs : Exec Z) : Exec unit :=
  let* lhs := lhs in
  let* rhs := rhs in
  modify (set_flags (set_logic_result (Z.land lhs rhs) bits)).

Definition register_rhs64 (i : Instruction) : Exec Z := reading (λ r, read_reg64 r (ins_op_register i 1)).
Definition register_rhs32 (i : Instruction) : Exec Z := reading (λ r, read_reg32 r (ins_op_register i 1)).

(** Storing a value that is read before the store. *)
Definition push (rip : Z) (value : Exec Z) : Exec unit :=
  let* value := value in
  do* writing (λ r, Ok (set_gpr RSP (wsub (g_rsp r) 8) r));
  let* s := gets id in write_memory_u64 rip (g_rsp (x_registers s)) value.

Definition sign_extended (bits : Z) (m : Exec Z) : Exec Z := let* value := m in ret (sign_extend_u64 value bits).

(** Effective address of the memory operand, then an access at it. *)
Definition at_address {A} (i : Instruction) (f : Z → Exec A) : Exec A :=
  let* address := reading (λ r, effective_address r i) in f address.

Definition to_reg64 (i : Instruction) (value : Exec Z) : Exec unit :=
  let* value := value in writing (λ r, write_reg64 r (ins_op_register i 0) value).
Definition to_reg32 (i : Instruction) (value : Exec Z) : Exec unit :=
  let* value := value in writing (λ r, write_reg32 r (ins_op_register i 0) value).
Definition to_reg16 (i : Instruction) (value : Exec Z) : Exec unit :=
  let* value := value in writing (λ r, write_reg16 r (ins_op_register i 0) value).
Definition to_reg8 (i : Instruction) (value : Exec Z) : Exec unit :=
  let* value := value in writing (λ r, write_reg8 r (ins_op_register i 0) value).

Definition register_rhs16 (i : Instruction) : Exec Z := reading (λ r, read_reg16 r (ins_op_register i 1)).
Definition register_rhs8 (i : Instruction) : Exec Z := reading (λ r, read_reg8 r (ins_op_register i 1)).

Definition reg_op (i : Instruction) (n : nat) : bool := is_register (ins_op_kind i n).
Definition mem_op (i : Instruction) (n : nat) : bool := is_memory (ins_op_kind i n).

Definition unsupported (rip : Z) : Exec unit := throw (MissingSyscall (TermControlFlow rip Exception)).

(** The arms of [execute_simple_instruction], in four groups: an encoding whose operands are
    not of the kinds that an arm asks for falls to the last one. *)

(** Comparisons, tests and no operation. *)
Definition execute_comparison (rip : Z) (i : Instruction) : Exec unit :=
  match ins_code i with
  | Cmp_rm64_r64 | Cmp_r64_rm64 => if reg_op i 0 && reg_op i 1 then sub64 false i (register_rhs64 i) else unsupported rip
  | Cmp_rm32_r32 | Cmp_r32_rm32 => if reg_op i 0 && reg_op i 1 then sub32 false i (register_rhs32 i) else unsupported rip
  | Cmp_rm64_imm32 | Cmp_rm64_imm8 => if reg_op i 0 then sub64 false i (lift (immediate_as_u64 i)) else unsupported rip
  | Cmp_rm32_imm32 | Cmp_rm32_imm8 => if reg_op i 0 then sub32 false i (lift (immediate_as_u32 i)) else unsupported rip
  | Cmp_rm8_r8 | Cmp_r8_rm8 => compare 8 (read_operand_u8 i 0) (read_operand_u8 i 1)
  | Cmp_rm16_r16 | Cmp_r16_rm16 => compare 16 (read_operand_u16 i 0) (read_operand_u16 i 1)
  | Cmp_rm8_imm8 | Cmp_rm8_imm8_82 => compare 8 (read_operand_u8 i 0) (lift (immediate_as_u8 i))
  | Cmp_rm16_imm16 | Cmp_rm16_imm8 => compare 16 (read_operand_u16 i 0) (lift (immediate_as_u16 i))
  | Test_rm32_r32 =>
      if reg_op i 0 && reg_op i 1 then
        test_bits 32 (reading (λ r, read_reg32 r (ins_op_register i 0))) (register_rhs32 i)
      else unsupported rip
  | Test_rm64_r64 =>
      if reg_op i 0 && reg_op i 1 then
        test_bits 64 (reading (λ r, read_reg64 r (ins_op_register i 0))) (register_rhs64 i)
      else unsupported rip
  | Test_rm32_imm32 | Test_rm32_imm32_F7r1 | Test_EAX_imm32 =>
      test_bits 32 (read_operand_u32 i 0) (lift (immediate_as_u32 i))
  | Test_rm64_imm32 | Test_rm64_imm32_F7r1 | Test_RAX_imm32 =>
      test_bits 64 (read_operand_u64 i 0) (lift (immediate_as_u64 i))
  | Test_rm8_r8 => test_bits 8 (read_operand_u8 i 0) (read_operand_u8 i 1)
  | Test_rm16_r16 => test_bits 16 (read_operand_u16 i 0) (read_operand_u16 i 1)
  | Test_rm8_imm8 | Test_rm8_imm8_F6r1 => test_bits 8 (read_operand_u8 i 0) (lift (immediate_as_u8 i))
  | Test_rm16_imm16 | Test_rm16_imm16_F7r1 => test_bits 16 (read_operand_u16 i 0) (lift (immediate_as_u16 i))
  | Nopd | Nopq => ret tt
  | _ => unsupported rip
  end.

(** Additions, subtractions and logic. *)
Definition execute_arithmetic (rip : Z) (i : Instruction) : Exec unit :=
  match ins_code i with
  | Add_rm64_r64 | Add_r64_rm64 => if reg_op i 0 && reg_op i 1 then add64 i (register_rhs64 i) else unsupported rip
  | Add_rm32_r32 | Add_r32_rm32 => if reg_op i 0 && reg_op i 1 then add32 i (register_rhs32 i) else unsupported rip
  | Add_rm64_imm32 | Add_rm64_imm8 => if reg_op i 0 then add64 i (lift (immediate_as_u64 i)) else unsupported rip
  | Add_rm32_imm32 | Add_rm32_imm8 => if reg_op i 0 then add32 i (lift (immediate_as_u32 i)) else unsupported rip
  | Sub_rm64_r64 | Sub_r64_rm64 => if reg_op i 0 && reg_op i 1 then sub64 true i (register_rhs64 i) else unsupported rip
  | Sub_rm32_r32 | Sub_r32_rm32 => if reg_op i 0 && reg_op i 1 then sub32 true i (register_rhs32 i) else unsupported rip
  | Sub_rm64_imm32 | Sub_rm64_imm8 => if reg_op i 0 then sub64 true i (lift (immediate_as_u64 i)) else unsupported rip
  | Sub_rm32_imm32 | Sub_rm32_imm8 => if reg_op i 0 then sub32 true i (lift (immediate_as_u32 i)) else unsupported rip
  | And_rm64_r64 | And_r64_rm64 | And_rm64_imm32 | And_rm64_imm8 | And_RAX_imm32 => execute_logic_u64 i LogicAnd
  | And_rm32_r32 | And_r32_rm32 | And_rm32_imm32 | And_rm32_imm8 | And_EAX_imm32 => execute_logic_u32 i LogicAnd
  | Or_rm64_r64 | Or_r64_rm64 | Or_rm64_imm32 | Or_rm64_imm8 | Or_RAX_imm32 => execute_logic_u64 i LogicOr
  | Or_rm32_r32 | Or_r32_rm32 | Or_rm32_imm32 | Or_rm32_imm8 | Or_EAX_imm32 => execute_logic_u32 i LogicOr
  | Xor_rm64_r64 | Xor_r64_rm64 | Xor_rm64_imm32 | Xor_rm64_imm8 | Xor_RAX_imm32 => execute_logic_u64 i LogicXor
  | Xor_rm32_r32 | Xor_r32_rm32 | Xor_rm32_imm32 | Xor_rm32_imm8 | Xor_EAX_imm32 => execute_logic_u32 i LogicXor
  | _ => execute_comparison rip i
  end.

(** Extensions, the stack and addresses. *)
Definition execute_extend_or_stack (rip : Z) (i : Instruction) : Exec unit :=
  match ins_code i with
  | Movzx_r32_rm8 => to_reg32 i (read_operand_u8 i 1)
  | Movzx_r64_rm8 => to_reg64 i (read_operand_u8 i 1)
  | Movzx_r32_rm16 => to_reg32 i (read_operand_u16 i 1)
  | Movzx_r64_rm16 => to_reg64 i (read_operand_u16 i 1)
  | Movsx_r32_rm8 => to_reg32 i (let* v := sign_extended 8 (read_operand_u8 i 1) in ret (as_u32 v))
  | Movsx_r64_rm8 => to_reg64 i (sign_extended 8 (read_operand_u8 i 1))
  | Movsx_r32_rm16 => to_reg32 i (let* v := sign_extended 16 (read_operand_u16 i 1) in ret (as_u32 v))
  | Movsx_r64_rm16 => to_reg64 i (sign_extended 16 (read_operand_u16 i 1))
  | Movsxd_r64_rm32 => to_reg64 i (sign_extended 32 (read_operand_u32 i 1))
  | Cdqe =>
      let* value := sign_extended 32 (reading (λ r, read_reg32 r (Reg32 RAX))) in
      writing (λ r, write_reg64 r (Reg64 RAX) value)
  | Push_r64 => if reg_op i 0 then push rip (reading (λ r, read_reg64 r (ins_op_register i 0))) else unsupported rip
  | Pushq_imm32 | Pushq_imm8 => push rip (lift (immediate_operand_as_u64 i 0))
  | Pop_r64 =>
      if reg_op i 0 then
        let* s := gets id in
        let* value := read_memory_u64 rip (g_rsp (x_registers s)) in
        do* writing (λ r, Ok (set_gpr RSP (wadd (g_rsp r) 8) r));
        writing (λ r, write_reg64 r (ins_op_register i 0) value)
      else unsupported rip
  | Lea_r64_m => if mem_op i 1 then to_reg64 i (reading (λ r, effective_address r i)) else unsupported rip
  | _ => execute_arithmetic rip i
  end.

(** Copies. *)
Definition execute_move (rip : Z) (i : Instruction) : Exec unit :=
  match ins_code i with
  | Mov_r64_imm64 => to_reg64 i (ret (ins_immediate64 i))
  | Mov_rm64_imm32 =>
      if reg_op i 0 then to_reg64 i (ret (as_u64 (ins_immediate32to64 i)))
      else if mem_op i 0 then at_address i (λ a, write_memory_u64 rip a (as_u64 (ins_immediate32to64 i)))
      else unsupported rip
  | Mov_r32_imm32 => to_reg32 i (ret (ins_immediate32 i))
  | Mov_rm32_imm32 =>
      if mem_op i 0 then at_address i (λ a, write_memory_u32 rip a (ins_immediate32 i)) else unsupported rip
  | Mov_r64_rm64 =>
      if reg_op i 0 && reg_op i 1 then to_reg64 i (register_rhs64 i)
      else if reg_op i 0 && mem_op i 1 then at_address i (λ a, to_reg64 i (read_memory_u64 rip a))
      else unsupported rip
  | Mov_rm64_r64 =>
      if reg_op i 0 && reg_op i 1 then to_reg64 i (register_rhs64 i)
      else if mem_op i 0 && reg_op i 1 then
        at_address i (λ a, let* value := register_rhs64 i in write_memory_u64 rip a value)
      else unsupported rip
  | Mov_r32_rm32 =>
      if reg_op i 0 && reg_op i 1 then to_reg32 i (register_rhs32 i)
      else if reg_op i 0 && mem_op i 1 then at_address i (λ a, to_reg32 i (read_memory_u32 rip a))
      else unsupported rip
  | Mov_rm32_r32 =>
      if reg_op i 0 && reg_op i 1 then to_reg32 i (register_rhs32 i)
      else if mem_op i 0 && reg_op i 1 then
        at_address i (λ a, let* value := register_rhs32 i in write_memory_u32 rip a value)
      else unsupported rip
  | Mov_r8_rm8 =>
      if reg_op i 0 && reg_op i 1 then to_reg8 i (register_rhs8 i)
      else if reg_op i 0 && mem_op i 1 then at_address i (λ a, to_reg8 i (read_memory_u8 rip a))
      else unsupported rip
  | Mov_rm8_r8 =>
      if reg_op i 0 && reg_op i 1 then to_reg8 i (register_rhs8 i)
      else if mem_op i 0 && reg_op i 1 then
        at_address i (λ a, let* value := register_rhs8 i in write_memory_u8 rip a value)
      else unsupported rip
  | Mov_r16_rm16 =>
      if reg_op i 0 && reg_op i 1 then to_reg16 i (register_rhs16 i)
      else if reg_op i 0 && mem_op i 1 then at_address i (λ a, to_reg16 i (read_memory_u16 rip a))
      else unsupported rip
  | Mov_rm16_r16 =>
      if reg_op i 0 && reg_op i 1 then to_reg16 i (register_rhs16 i)
      else if mem_op i 0 && reg_op i 1 then
        at_address i (λ a, let* value := register_rhs16 i in write_memory_u16 rip a value)
      else unsupported rip
  | Mov_r8_imm8 => if reg_op i 0 then to_reg8 i (ret (ins_immediate8 i)) else unsupported rip
  | Mov_rm8_imm8 =>
      if mem_op i 0 then at_address i (λ a, write_memory_u8 rip a (ins_immediate8 i)) else unsupported rip
  | Mov_r16_imm16 => if reg_op i 0 then to_reg16 i (ret (ins_immediate16 i)) else unsupported rip
  | Mov_rm16_imm16 =>
      if mem_op i 0 then at_address i (λ a, write_memory_u16 rip a (ins_immediate16 i)) else unsupported rip
  | _ => execute_extend_or_stack rip i
  end.

Definition execute_instruction (rip : Z) (i : Instruction) : Exec unit := execute_move rip i.

Definition invalid_block {A} (rip : Z) : outcome A ExecutionError := Err (MissingSyscall (TermInvalid rip)).

(** The bytes of an instruction of the block, decoded again and executed. *)
Definition execute_simple_instruction (b : GuestBlock) (rip len : Z) : Exec unit :=
  let offset := Z.max 0 (rip - bl_rip b) in
  let* bytes := lift (match slice (bl_bytes b) offset (offset + len) with Some bytes => Ok bytes | None => invalid_block rip end) in
  do* execute_instruction rip (x86_decode bytes rip);
  writing (λ r, Ok (set_rip (wadd rip len) r)).

(** ** Control flow (execution.rs) *)
Definition block_offset (b : GuestBlock) (rip : Z) : outcome Z ExecutionError :=
  match checked_sub64 rip (bl_rip b) with
  | None => invalid_block rip
  | Some offset => if zlen (bl_bytes b) <=? offset then invalid_block rip else Ok offset
  end.

Definition block_from_rip (b : GuestBlock) (rip : Z) : outcome GuestBlock ExecutionError :=
  let? offset := block_offset b rip in
  Ok {| bl_bytes := drop (Z.to_nat offset) (bl_bytes b); bl_rip := rip |}.

Definition branch_taken (i : Instruction) (f : GuestFlags) : outcome bool ExecutionError :=
  match ins_code i with
  | Jmp_rel8_64 | Jmp_rel32_64 => Ok true
  | Je_rel8_64 | Je_rel32_64 => Ok (f_zero f)
  | Jne_rel8_64 | Jne_rel32_64 => Ok (negb (f_zero f))
  | Js_rel8_64 | Js_rel32_64 => Ok (f_sign f)
  | Jns_rel8_64 | Jns_rel32_64 => Ok (negb (f_sign f))
  | Jl_rel8_64 | Jl_rel32_64 => Ok (negb (Bool.eqb (f_sign f) (f_overflow f)))
  | Jge_rel8_64 | Jge_rel32_64 => Ok (Bool.eqb (f_sign f) (f_overflow f))
  | Jg_rel8_64 | Jg_rel32_64 => Ok (negb (f_zero f) && Bool.eqb (f_sign f) (f_overflow f))
  | Jle_rel8_64 | Jle_rel32_64 => Ok (f_zero f || negb (Bool.eqb (f_sign f) (f_overflow f)))
  | Jb_rel8_64 | Jb_rel32_64 => Ok (f_carry f)
  | Jae_rel8_64 | Jae_rel32_64 => Ok (negb (f_carry f))
  | Ja_rel8_64 | Ja_rel32_64 => Ok (negb (f_carry f) && negb (f_zero f))
  | Jbe_rel8_64 | Jbe_rel32_64 => Ok (f_carry f || f_zero f)
  | _ => Err (MissingSyscall (TermControlFlow (ins_ip i)
                                (default Exception (decoded_flow_control (ins_flow_control i)))))
  end.

Definition is_near_branch (k : OpKind) : bool :=
  match k with OpNearBranch16 | OpNearBranch32 | OpNearBranch64 => true | _ => false end.

(** Pushing the return address of a call to a target inside the block. *)
Definition call_to (b : GuestBlock) (i : Instruction) (target : Z) : Exec (option Z) :=
  let* _ := lift (block_offset b target) in
  let* s := gets id in
  let next_rsp := wsub (g_rsp (x_registers s)) 8 in
  do* write_memory_u64 (ins_ip i) next_rsp (ins_next_ip i);
  do* writing (λ r, Ok (set_gpr RSP next_rsp r));
  ret (Some target).

(** Where the instruction that ended a block goes. *)
Definition flow_target (b : GuestBlock) (terminator : BlockTerminator) (flow : DecodedFlowControl) (i : Instruction)
    : Exec (option Z) :=
  match flow, ins_code i with
  | (UnconditionalBranch | ConditionalBranch), _ =>
      let* s := gets id in
      let* taken := lift (branch_taken i (x_flags s)) in
      if negb taken then ret (Some (ins_next_ip i)) else
      if negb (is_near_branch (ins_op_kind i 0)) then throw (MissingSyscall terminator) else
      let target := ins_near_branch_target i in
      let* _ := lift (block_offset b target) in
      ret (Some target)
  | Call, Call_rel32_64 => call_to b i (ins_near_branch_target i)
  | Call, Call_rm64 => let* target := read_operand_u64 i 0 in call_to b i target
  | Return, Retnq =>
      let* s := gets id in
      let* target := read_memory_u64 (ins_ip i) (g_rsp (x_registers s)) in
      let* _ := lift (block_offset b target) in
      do* writing (λ r, Ok (set_gpr RSP (wadd (g_rsp r) 8) r));
      ret (Some target)
  | IndirectBranch, Jmp_rm64 =>
      let* target := read_operand_u64 i 0 in
      let* _ := lift (block_offset b target) in
      ret (Some target)
  | _, _ => ret None
  end.

Definition control_flow_target (b : GuestBlock) (decoded : DecodedBlock) : Exec (option Z) :=
  match db_terminator decoded with
  | TermControlFlow _ flow =>
      match last (db_instructions decoded) with
      | None => throw (MissingSyscall (db_terminator decoded))
      | Some instruction =>
          let* offset := lift (block_offset b (di_rip instruction)) in
          let* bytes := lift (match slice (bl_bytes b) offset (offset + di_len instruction) with
                              | Some bytes => Ok bytes
                              | None => invalid_block (di_rip instruction)
                              end) in
          flow_target b (db_terminator decoded) flow (x86_decode bytes (di_rip instruction))
      end
  | _ => ret None
  end.

(** Is this the instruction that ended the block? *)
Definition ends_block (decoded : DecodedBlock) (rip : Z) : bool :=
  match db_terminator decoded with
  | TermSyscall site => rip =? ss_rip site
  | TermControlFlow at_ _ => at_ =? rip
  | _ => false
  end.

Fixpoint execute_body (b : GuestBlock) (decoded : DecodedBlock) (instructions : list DecodedInstruction) : Exec unit :=
  match instructions with
  | [] => ret tt
  | i :: instructions =>
      if ends_block decoded (di_rip i) then ret tt else
      do* execute_simple_instruction b (di_rip i) (di_len i);
      execute_body b decoded instructions
  end.

Record SyscallTrap : Type := { tr_decoded : DecodedBlock; tr_site : SyscallSite; tr_registers : GuestRegisters }.

Definition MAX_CONTROL_FLOW_STEPS : nat := 256.

Fixpoint execute_blocks (steps : nat) (b : GuestBlock) (current_rip : Z) : Exec SyscallTrap :=
  match steps with
  | O => lift (invalid_block current_rip)
  | S steps =>
      let* block := lift (block_from_rip b current_rip) in
      let* decoded := lift (map_err DecodeFailed (decode block)) in
      do* execute_body b decoded (db_instructions decoded);
      match syscall_site decoded with
      | Some site =>
          do* writing (λ r, Ok (set_rip (ss_rip site) r));
          let* s := gets id in
          ret {| tr_decoded := decoded; tr_site := site; tr_registers := x_registers s |}
      | None =>
          let* target := control_flow_target b decoded in
          match target with
          | Some target =>
              do* writing (λ r, Ok (set_rip target r));
              execute_blocks steps b target
          | None => throw (MissingSyscall (db_terminator decoded))
          end
      end
  end.

(** The registers are a copy; the memory is the guest's. *)
Definition execute_to_syscall_trap_with_memory (b : GuestBlock) (registers : GuestRegisters) (memory : M)
    : outcome SyscallTrap ExecutionError * M :=
  let '(r, s) := execute_blocks MAX_CONTROL_FLOW_STEPS b (g_rip registers)
    {| x_registers := registers; x_flags := from_registers registers; x_memory := memory |} in
  (r, x_memory s).
End exec.

Definition execute_to_syscall_trap `{!X86Decoder} (b : GuestBlock) (registers : GuestRegisters)
    : outcome SyscallTrap ExecutionError :=
  (execute_to_syscall_trap_with_memory b registers tt).1.

(** ** The trampoline (trampoline.rs) *)
Class GuestSyscallDispatcher (T : Type) : Type := { dispatch_guest_syscall : GuestContext → T → Z * T }.

#[export] Instance dispatcher_dispatches {S T} `{!SyscallSubsystems S} `{!SyscallTracer T}
    : GuestSyscallDispatcher (S * T) := {
  dispatch_guest_syscall context d :=
    let '(r, s, t) := dispatch context d.1 d.2 in (dr_encoded_rax r, (s, t));
}.

Record TrampolineCore (T : Type) : Type := { tc_core_pid : Z; tc_core_tid : Z; tc_dispatcher : T }.
Arguments tc_core_pid {T}.
Arguments tc_core_tid {T}.
Arguments tc_dispatcher {T}.

Record TrampolineResult : Type := { tp_encoded_rax : Z; tp_next_rip : Z }.

Section trampoline.
Context {T : Type} `{!GuestSyscallDispatcher T} {dec : X86Decoder}.

Definition dispatch_syscall (context : GuestContext) (t : TrampolineCore T) : TrampolineResult * TrampolineCore T :=
  let '(rax, d) := dispatch_guest_syscall context (tc_dispatcher t) in
  ({| tp_encoded_rax := rax; tp_next_rip := wadd (sr_rip (gc_registers context)) 2 |},
   {| tc_core_pid := tc_core_pid t; tc_core_tid := tc_core_tid t; tc_dispatcher := d |}).

Definition enter_syscall (registers : GuestRegisters) (site : SyscallSite) (t : TrampolineCore T)
    : GuestRegisters * TrampolineCore T :=
  let '(result, t) := dispatch_syscall
    {| gc_pid := tc_core_pid t; gc_tid := tc_core_tid t; gc_registers := syscall_registers registers |} t in
  (apply_syscall_return (tp_encoded_rax result) (ss_next_rip site) registers, t).

Definition execute_until_syscall (b : GuestBlock) (registers : GuestRegisters) (t : TrampolineCore T)
    : outcome DecodedBlock ExecutionError * GuestRegisters * TrampolineCore T :=
  match execute_to_syscall_trap b registers with
  | Ok trap =>
      let '(trapped, t) := enter_syscall (tr_registers trap) (tr_site trap) t in (Ok (tr_decoded trap), trapped, t)
  | Err e => (Err e, registers, t)
  | Panic => (Panic, registers, t)
  end.
End trampoline.
