(* ===== verification/JitFlags.v ===== *)
(** * mcr-jit: flags and parts of registers

    The bit tests of the flags against comparisons of numbers, and what a write to a part of
    a register leaves of the rest. *)

From S2P Require Import Prelude JitRegisters JitOperands JitDecoder JitExec.
From stdpp Require Import base list strings.
From Stdlib Require Import ZArith Lia Btauto.
Open Scope Z_scope.

(** ** Widths *)
Definition is_width (w : Z) : Prop := w = 8 ∨ w = 16 ∨ w = 32 ∨ w = 64.

(** The signed reading of a word. *)
Definition signed (w z : Z) : Z := if z <? 2 ^ (w - 1) then z else z - 2 ^ w.

Lemma width_pow w : is_width w → 2 ^ w = 2 * 2 ^ (w - 1) ∧ 0 < 2 ^ (w - 1).
Proof. by intros [->|[->|[->| ->]]]. Qed.

Lemma mask_to_width_mod z w : is_width w → mask_to_width z w = z mod 2 ^ w.
Proof.
  intros Hw. unfold mask_to_width. rewrite <- Z.land_ones by (destruct Hw as [->|[->|[->| ->]]]; lia).
  f_equal. by destruct Hw as [->|[->|[->| ->]]].
Qed.

Lemma land_pow2 x n : 0 ≤ n → (Z.land x (2 ^ n) =? 0) = negb (Z.testbit x n).
Proof.
  intros Hn. destruct (Z.testbit x n) eqn:E; simpl.
  - apply Z.eqb_neq. intros H. assert (Z.testbit (Z.land x (2 ^ n)) n = false) as F by by rewrite H, Z.bits_0.
    rewrite Z.land_spec, E, Z.pow2_bits_true in F by done. done.
  - apply Z.eqb_eq, Z.bits_inj'. intros m Hm. rewrite Z.land_spec, Z.bits_0, Z.pow2_bits_eqb by done.
    destruct (Z.eqb_spec n m) as [->|]; [by rewrite E|by rewrite andb_false_r].
Qed.

Lemma sign_bit_test x w : is_width w → negb (Z.land x (sign_bit w) =? 0) = Z.testbit x (w - 1).
Proof.
  intros Hw. unfold sign_bit. rewrite Z.shiftl_1_l, land_pow2; [apply negb_involutive|].
  destruct Hw as [->|[->|[->| ->]]]; lia.
Qed.

Lemma high_bit x w : is_width w → 0 ≤ x < 2 ^ w → Z.testbit x (w - 1) = (2 ^ (w - 1) <=? x).
Proof.
  intros Hw Hx. destruct (width_pow w Hw) as [E P]. rewrite Z.testbit_eqb by (destruct Hw as [->|[->|[->| ->]]]; lia).
  destruct (Z.leb_spec (2 ^ (w - 1)) x).
  - apply Z.eqb_eq. assert (x / 2 ^ (w - 1) = 1) as ->; [|done].
    symmetry. apply (Z.div_unique_pos _ _ _ (x - 2 ^ (w - 1))); lia.
  - rewrite Z.div_small by lia. done.
Qed.

(** ** Flags *)
Record flags_are (f : GuestFlags) (carry zero sign overflow : bool) : Prop := {
  fa_carry : f_carry f = carry; fa_zero : f_zero f = zero; fa_sign : f_sign f = sign; fa_overflow : f_overflow f = overflow;
}.

Lemma sub_flags w a b f :
  is_width w → 0 ≤ a < 2 ^ w → 0 ≤ b < 2 ^ w →
  flags_are (set_sub_result a b ((a - b) mod 2 ^ w) w f)
    (a <? b) (a =? b) (signed w ((a - b) mod 2 ^ w) <? 0)
    (negb (signed w ((a - b) mod 2 ^ w) =? signed w a - signed w b)).
Proof.
  intros Hw Ha Hb. destruct (width_pow w Hw) as [E P].
  assert (Hr : (a - b) mod 2 ^ w = if a <? b then a - b + 2 ^ w else a - b).
  { destruct (Z.ltb_spec a b).
    - symmetry. apply (Z.mod_unique_pos _ _ (-1)); lia.
    - by apply Z.mod_small; lia. }
  assert (Hrb : 0 ≤ (a - b) mod 2 ^ w < 2 ^ w) by (apply Z.mod_pos_bound; lia).
  unfold set_sub_result. rewrite !mask_to_width_mod, Z.mod_mod by (done || lia).
  rewrite (Z.mod_small a), (Z.mod_small b) by done. split; simpl.
  - done.
  - rewrite Hr. destruct (Z.ltb_spec a b), (Z.eqb_spec a b); try lia; apply Z.eqb_neq || apply Z.eqb_eq; lia.
  - rewrite sign_bit_test, high_bit by done. unfold signed.
    destruct (Z.ltb_spec ((a - b) mod 2 ^ w) (2 ^ (w - 1))), (Z.leb_spec (2 ^ (w - 1)) ((a - b) mod 2 ^ w)); try lia; symmetry;
      apply Z.ltb_ge || apply Z.ltb_lt; lia.
  - rewrite sign_bit_test, Z.land_spec, !Z.lxor_spec, !high_bit by done. unfold signed. rewrite Hr.
    destruct (Z.ltb_spec a b); zcase; lia.
Qed.

Lemma add_flags w a b f :
  is_width w → 0 ≤ a < 2 ^ w → 0 ≤ b < 2 ^ w →
  flags_are (set_add_result a b ((a + b) mod 2 ^ w) w f)
    (2 ^ w <=? a + b) ((a + b) mod 2 ^ w =? 0) (signed w ((a + b) mod 2 ^ w) <? 0)
    (negb (signed w ((a + b) mod 2 ^ w) =? signed w a + signed w b)).
Proof.
  intros Hw Ha Hb. destruct (width_pow w Hw) as [E P].
  assert (Hm : mask_for_width w = 2 ^ w - 1) by by destruct Hw as [->|[->|[->| ->]]].
  assert (Hr : (a + b) mod 2 ^ w = if a + b <? 2 ^ w then a + b else a + b - 2 ^ w).
  { destruct (Z.ltb_spec (a + b) (2 ^ w)); [by apply Z.mod_small; lia|].
    symmetry. apply (Z.mod_unique_pos _ _ 1); lia. }
  assert (Hrb : 0 ≤ (a + b) mod 2 ^ w < 2 ^ w) by (apply Z.mod_pos_bound; lia).
  unfold set_add_result. rewrite !mask_to_width_mod, Z.mod_mod by (done || lia).
  rewrite (Z.mod_small a), (Z.mod_small b), Hm by done. split; simpl.
  - destruct (Z.ltb_spec (2 ^ w - 1) (a + b)), (Z.leb_spec (2 ^ w) (a + b)); lia || done.
  - done.
  - rewrite sign_bit_test, high_bit by done. unfold signed.
    destruct (Z.ltb_spec ((a + b) mod 2 ^ w) (2 ^ (w - 1))), (Z.leb_spec (2 ^ (w - 1)) ((a + b) mod 2 ^ w)); try lia; symmetry;
      apply Z.ltb_ge || apply Z.ltb_lt; lia.
  - rewrite sign_bit_test, Z.land_spec, !Z.lxor_spec, !high_bit by done. unfold signed. rewrite Hr.
    destruct (Z.ltb_spec (a + b) (2 ^ w)); zcase; lia.
Qed.

(** ** Registers *)
Lemma get_set_gpr g g' v r : get_gpr g (set_gpr g' v r) = if bool_decide (g' = g) then v else get_gpr g r.
Proof. by destruct g. Qed.

Lemma get_set_rip g v r : get_gpr g (set_rip v r) = get_gpr g r.
Proof. by destruct g. Qed.

(** Words of the machine. *)
Definition registers_wf (r : GuestRegisters) : Prop :=
  (∀ g, is_u64 (get_gpr g r)) ∧ is_u64 (g_rip r) ∧ is_u64 (g_rflags r) ∧ is_u64 (g_fs_base r).

(** The bits [lo] to [lo + n] of a word, and their replacement. *)
Definition field (x lo n : Z) : Z := Z.land (Z.shiftr x lo) (Z.ones n).
Definition set_field (x lo n v : Z) : Z := Z.lor (without_bits x (Z.shiftl (Z.ones n) lo)) (Z.shiftl v lo).

Lemma field_bit x lo n i : 0 ≤ lo → 0 ≤ n → 0 ≤ i → Z.testbit (field x lo n) i = (Z.testbit x (i + lo) && (i <? n)).
Proof.
  intros. unfold field. rewrite Z.land_spec, Z.shiftr_spec, Z.testbit_ones by done.
  by rewrite (proj2 (Z.leb_le 0 i)) by done.
Qed.

Lemma set_field_bit x lo n v i :
  0 ≤ lo → 0 ≤ n → 0 ≤ v < 2 ^ n → 0 ≤ i →
  Z.testbit (set_field x lo n v) i = if (lo <=? i) && (i <? lo + n) then Z.testbit v (i - lo) else Z.testbit x i.
Proof.
  intros Hl Hn Hv Hi. unfold set_field, without_bits.
  rewrite Z.lor_spec, Z.land_spec, Z.lnot_spec, !Z.shiftl_spec by done.
  destruct (Z.leb_spec lo i); simpl.
  - rewrite Z.testbit_ones by done. rewrite (proj2 (Z.leb_le 0 (i - lo))) by lia. simpl.
    destruct (Z.ltb_spec i (lo + n)).
    + by rewrite (proj2 (Z.ltb_lt (i - lo) n)), andb_false_r by lia.
    + rewrite (proj2 (Z.ltb_ge (i - lo) n)) by lia. simpl. rewrite andb_true_r.
      destruct (decide (v = 0)) as [->|]; [by rewrite Z.bits_0, orb_false_r|].
      rewrite (Z.bits_above_log2 v); [by rewrite orb_false_r|lia|].
      assert (Z.log2 v < n) by (apply Z.log2_lt_pow2; lia). lia.
  - by rewrite !(Z.testbit_neg_r _ (i - lo)), andb_true_r, orb_false_r by lia.
Qed.

Lemma field_set_field x lo n v : 0 ≤ lo → 0 ≤ n → 0 ≤ v < 2 ^ n → field (set_field x lo n v) lo n = v.
Proof.
  intros. apply Z.bits_inj'. intros i Hi. rewrite field_bit, set_field_bit by lia.
  rewrite (proj2 (Z.leb_le lo (i + lo))) by lia. simpl. replace (i + lo - lo) with i by lia.
  destruct (Z.ltb_spec i n).
  - by rewrite (proj2 (Z.ltb_lt (i + lo) (lo + n))), andb_true_r by lia.
  - rewrite andb_false_r. destruct (decide (v = 0)) as [->|]; [by rewrite Z.bits_0|].
    symmetry. apply Z.bits_above_log2; [lia|]. assert (Z.log2 v < n) by (apply Z.log2_lt_pow2; lia). lia.
Qed.

Lemma field_other x lo n v lo' n' :
  0 ≤ lo → 0 ≤ n → 0 ≤ lo' → 0 ≤ n' → 0 ≤ v < 2 ^ n → lo' + n' ≤ lo ∨ lo + n ≤ lo' →
  field (set_field x lo n v) lo' n' = field x lo' n'.
Proof.
  intros ????? Hd. apply Z.bits_inj'. intros i Hi. rewrite !field_bit, set_field_bit by lia.
  destruct (Z.ltb_spec i n'); [|by rewrite !andb_false_r].
  destruct (Z.leb_spec lo (i + lo')), (Z.ltb_spec (i + lo') (lo + n)); try done; lia.
Qed.

(** The part that a register name means: its word, first bit and width. *)
Definition part (register : Register) : option (Gpr * Z * Z) :=
  match register with
  | Reg64 g => Some (g, 0, 64)
  | Reg32 g => Some (g, 0, 32)
  | Reg16 g => Some (g, 0, 16)
  | Reg8 g => Some (g, 0, 8)
  | Reg8High g => if has_high_byte g then Some (g, 8, 8) else None
  | _ => None
  end.

Lemma write_reg8_part r register v r' :
  write_reg8 r register v = Ok r' →
  ∃ g lo, part register = Some (g, lo, 8) ∧ 0 ≤ lo ∧ r' = set_gpr g (set_field (get_gpr g r) lo 8 v) r.
Proof.
  destruct register; try done; simpl.
  - intros [= <-]. exists g, 0. split; [done|]. split; [done|]. unfold set_field. by rewrite !Z.shiftl_0_r.
  - destruct (has_high_byte g); [|done]. intros [= <-]. by exists g, 8.
Qed.

Lemma read_reg8_part r register g lo : part register = Some (g, lo, 8) → read_reg8 r register = Ok (field (get_gpr g r) lo 8).
Proof. destruct register; try done; simpl; [by intros [= <- <-]|]. destruct (has_high_byte _); [|done]. by intros [= <- <-]. Qed.

Lemma part8_inj register register' g lo : part register = Some (g, lo, 8) → part register' = Some (g, lo, 8) → register = register'.
Proof. destruct register, register'; simpl; try done; repeat destruct (has_high_byte _); congruence. Qed.

Lemma part8_lo register g lo : part register = Some (g, lo, 8) → lo = 0 ∨ lo = 8.
Proof. destruct register; simpl; try done; try (destruct (has_high_byte _); [|done]); intros [= <- <-]; auto. Qed.

Lemma sign_extend_signed w z : is_width w → 0 ≤ z < 2 ^ w → sign_extend_u64 z w = as_u64 (signed w z).
Proof.
  intros Hw Hz. destruct (width_pow w Hw) as [E P]. unfold sign_extend_u64, as_u64. f_equal.
  assert (H64 : 2 ^ 64 = 2 ^ w * 2 ^ (64 - w)) by (by destruct Hw as [->|[->|[->| ->]]]).
  assert (H63 : 2 ^ 63 = 2 ^ (w - 1) * 2 ^ (64 - w)) by (by destruct Hw as [->|[->|[->| ->]]]).
  assert (Hp : 0 < 2 ^ (64 - w)) by (by destruct Hw as [->|[->|[->| ->]]]).
  rewrite Z.shiftl_mul_pow2, Z.shiftr_div_pow2 by (destruct Hw as [->|[->|[->| ->]]]; lia).
  unfold as_i64, wrap64, signed, I64_MAX. rewrite Z.mod_mod, Z.mod_small by nia.
  destruct (Z.ltb_spec z (2 ^ (w - 1))).
  - rewrite (proj2 (Z.leb_le _ _)) by nia. by apply Z.div_mul; lia.
  - rewrite (proj2 (Z.leb_gt _ _)) by nia. rewrite H64, <- Z.mul_sub_distr_r. by apply Z.div_mul; lia.
Qed.

(** ** mcr-jit: the sites of system calls against the linear scan *)

(** A pair [0f 05] at a place in the bytes. *)
Definition pair_at (bytes : list Z) (k : nat) : Prop := bytes !! k = Some 0x0f ∧ bytes !! S k = Some 0x05.

Lemma last_pair_from_pair bytes : ∀ position k, pair_at bytes k →
  ∃ p, last_pair_from bytes position = Some p ∧ position + Z.of_nat k ≤ p.
Proof.
  induction bytes as [|a rest IH]; intros position k [H1 H2]; [done|]. simpl. destruct k as [|k].
  - injection H1 as ->. destruct rest as [|b rest]; [done|]. injection H2 as ->.
    destruct (last_pair_from _ (position + 1)) as [p|] eqn:E.
    + exists p. split; [done|]. assert (position + 1 ≤ p); [|lia].
      clear -E. revert position p E. generalize (0x05 :: rest) as l. induction l as [|x l IH]; intros position p E; [done|].
      simpl in E. destruct (last_pair_from l (position + 1 + 1)) as [q|] eqn:Eq.
      * injection E as <-. apply IH in Eq. lia.
      * destruct l; [done|]. destruct (_ && _); [|done]. injection E as <-. lia.
    + exists position. split; [done|lia].
  - destruct (IH (position + 1) k) as (p & Hp & Hle); [done|]. exists p. rewrite Hp. split; [done|lia].
Qed.

Definition sites_of (l : list DecodedInstruction) : list SyscallSite :=
  omap (λ i, match di_mnemonic i with
             | MnemonicSyscall => Some {| ss_rip := di_rip i; ss_next_rip := end_rip i |}
             | MnemonicOther => None
             end) l.

Section sites.
Context {dec : X86Decoder} {laws : X86DecoderLaws}.

(** The pair that ends a syscall instruction. *)
Lemma syscall_pair bytes ip (i := x86_decode bytes ip) :
  bytes ≠ [] → ins_is_invalid i = false → ins_is_syscall i = true → ∃ k, pair_at bytes k.
Proof.
  intros Hb Hv Hs. destruct (decode_syscall bytes ip Hb Hv Hs) as [Hl Hpair]. fold i in Hl, Hpair.
  unfold slice in Hpair. case_match; [|done]. injection Hpair as Hsl.
  exists (Z.to_nat (ins_len i - 2)).
  assert (Hd : ∀ j x, [0x0f; 0x05] !! j = Some x → bytes !! (Z.to_nat (ins_len i - 2) + j)%nat = Some x).
  { intros j x Hj. rewrite <- Hsl in Hj. rewrite <- lookup_drop. by apply lookup_take_Some in Hj as [? _]. }
  split; [rewrite <- (Nat.add_0_r (Z.to_nat _))|rewrite <- Nat.add_1_r]; by apply Hd.
Qed.

(** Pairs survive consuming an instruction only further on. *)
Lemma pair_drop bytes n k : pair_at (drop n bytes) k → pair_at bytes (n + k).
Proof. intros [H1 H2]. rewrite !lookup_drop in *. split; [done|]. by rewrite <- Nat.add_succ_r. Qed.

Lemma scan_no_pair fuel : ∀ bytes ip, (∀ k, ¬ pair_at bytes k) → sites_of (scan_loop fuel bytes ip) = [].
Proof.
  induction fuel as [|fuel IH]; intros bytes ip Hno; [done|]. destruct bytes as [|x bytes']; [done|].
  cbn [scan_loop decode_next]. set (bytes := x :: bytes') in *. set (i := x86_decode bytes ip).
  assert (Hrest : sites_of (scan_loop fuel (drop (Z.to_nat (ins_len i)) bytes) (wadd ip (ins_len i))) = []).
  { apply IH. intros k Hk. by eapply Hno, pair_drop. }
  destruct (ins_is_invalid i) eqn:Ev; [done|]. unfold sites_of in *. simpl. unfold decoded_mnemonic.
  destruct (ins_is_syscall i) eqn:Es; [|done].
  exfalso. destruct (syscall_pair bytes ip ltac:(done) Ev Es) as [k Hk]. by eapply Hno.
Qed.

Lemma sites_scan fuel : ∀ bytes ip position last_candidate,
  (∀ k, pair_at bytes k → position + Z.of_nat k ≤ last_candidate) →
  sites_loop fuel bytes ip position last_candidate = sites_of (scan_loop fuel bytes ip).
Proof.
  induction fuel as [|fuel IH]; intros bytes ip position last_candidate Hlast; [done|].
  destruct bytes as [|x bytes']; [done|]. cbn [sites_loop scan_loop decode_next]. set (bytes := x :: bytes') in *.
  set (i := x86_decode bytes ip). assert (Hlen : 1 ≤ ins_len i) by (by apply decode_len).
  assert (Hrest : ∀ k, pair_at (drop (Z.to_nat (ins_len i)) bytes) k → position + ins_len i + Z.of_nat k ≤ last_candidate).
  { intros k Hk%pair_drop%Hlast. lia. }
  assert (Hsites : (if last_candidate <? position + ins_len i then [] else
      sites_loop fuel (drop (Z.to_nat (ins_len i)) bytes) (wadd ip (ins_len i)) (position + ins_len i) last_candidate) =
    sites_of (scan_loop fuel (drop (Z.to_nat (ins_len i)) bytes) (wadd ip (ins_len i)))).
  { destruct (Z.ltb_spec last_candidate (position + ins_len i)); [|by apply IH].
    symmetry. apply scan_no_pair. intros k Hk%Hrest. lia. }
  assert (Hcat : ∀ l : list SyscallSite, (if last_candidate <? position + ins_len i then l else l ++
      sites_loop fuel (drop (Z.to_nat (ins_len i)) bytes) (wadd ip (ins_len i)) (position + ins_len i) last_candidate) =
    l ++ sites_of (scan_loop fuel (drop (Z.to_nat (ins_len i)) bytes) (wadd ip (ins_len i)))).
  { intros l. rewrite <- Hsites. destruct (last_candidate <? _); [by rewrite app_nil_r|done]. }
  rewrite Hcat. destruct (ins_is_invalid i); [done|]. unfold sites_of. simpl. unfold decoded_mnemonic.
  by destruct (ins_is_syscall i).
Qed.

Lemma syscall_sites_scan bytes rip :
  syscall_instruction_sites bytes rip = sites_of (scan {| bl_bytes := bytes; bl_rip := rip |}).
Proof.
  unfold syscall_instruction_sites, last_syscall_byte_pair, scan. simpl.
  destruct (last_pair_from bytes 0) as [p|] eqn:E.
  - apply sites_scan. intros k Hk. destruct (last_pair_from_pair _ 0 _ Hk) as (q & Hq & Hle). rewrite E in Hq.
    injection Hq as <-. lia.
  - symmetry. apply scan_no_pair. intros k Hk. destruct (last_pair_from_pair _ 0 _ Hk) as (q & Hq & _). congruence.
Qed.
End sites.
