(* ===== verification/JitWords.v ===== *)
(** * mcr-jit: registers stay words, and the memory keeps its invariant

    Whatever block is executed, every register stays a 64-bit word, nothing panics, and an
    invariant of the guest memory that its operand accesses keep is kept by the execution. *)

From S2P Require Import Prelude SysAbi Bytes JitRegisters JitOperands JitDecoder JitExec JitFlags.
From stdpp Require Import base list strings.
From Stdlib Require Import ZArith Lia.
Open Scope Z_scope.

(** ** Bounds of bit operations *)
Lemma high_bits x n i : 0 ≤ x < 2 ^ n → 0 ≤ n ≤ i → Z.testbit x i = false.
Proof. intros Hx Hi. revert i Hi. intros i [Hn Hi]. revert i Hi. apply Z.bounded_iff_bits_nonneg; [done|apply Hx|apply Hx]. Qed.

Lemma land_nonneg_l x y : 0 ≤ x → 0 ≤ Z.land x y.
Proof. intros. apply Z.land_nonneg. by left. Qed.

Lemma land_bound n x y : 0 ≤ n → 0 ≤ x < 2 ^ n → 0 ≤ Z.land x y < 2 ^ n.
Proof.
  intros Hn Hx. apply Z.bounded_iff_bits_nonneg'; [done|apply land_nonneg_l; lia|]. intros i Hi.
  by rewrite Z.land_spec, (high_bits x n) by lia.
Qed.

Lemma lor_bound n x y : 0 ≤ n → 0 ≤ x < 2 ^ n → 0 ≤ y < 2 ^ n → 0 ≤ Z.lor x y < 2 ^ n.
Proof.
  intros Hn Hx Hy. apply Z.bounded_iff_bits_nonneg'; [done|apply Z.lor_nonneg; lia|]. intros i Hi.
  by rewrite Z.lor_spec, (high_bits x n), (high_bits y n) by lia.
Qed.

Lemma lxor_bound n x y : 0 ≤ n → 0 ≤ x < 2 ^ n → 0 ≤ y < 2 ^ n → 0 ≤ Z.lxor x y < 2 ^ n.
Proof.
  intros Hn Hx Hy. apply Z.bounded_iff_bits_nonneg'; [done|apply Z.lxor_nonneg; lia|]. intros i Hi.
  by rewrite Z.lxor_spec, (high_bits x n), (high_bits y n) by lia.
Qed.

Lemma wrap64_word z : is_u64 (wrap64 z).
Proof. apply wrap64_bound. Qed.
Lemma wrap32_word z : is_u64 (wrap32 z).
Proof. unfold is_u64, wrap32. pose proof (Z.mod_pos_bound z (2 ^ 32) ltac:(lia)). lia. Qed.
Lemma small_word w z : 0 ≤ w ≤ 64 → 0 ≤ z < 2 ^ w → is_u64 z.
Proof. intros Hw Hz. split; [lia|]. eapply Z.lt_le_trans; [apply Hz|]. apply Z.pow_le_mono_r; lia. Qed.
Create HintDb words.
#[export] Hint Resolve wrap64_word wrap32_word : words.

(** ** Registers *)
Lemma set_gpr_wf g v r : registers_wf r → is_u64 v → registers_wf (set_gpr g v r).
Proof.
  intros (Hg & Hr) Hv. split; [|done]. intros g'. rewrite get_set_gpr. by case_bool_decide.
Qed.

Lemma set_rip_wf v r : registers_wf r → is_u64 v → registers_wf (set_rip v r).
Proof. intros (Hg & _ & Hr) Hv. split; [|done]. intros g'. rewrite get_set_rip. apply Hg. Qed.

(** A read gives a value of the width, and never panics. *)
Definition value_of (w : Z) (o : outcome Z ExecutionError) : Prop :=
  match o with Ok z => 0 ≤ z < 2 ^ w | Err _ => True | Panic => False end.
Definition registers_of (o : outcome GuestRegisters ExecutionError) : Prop :=
  match o with Ok r => registers_wf r | Err _ => True | Panic => False end.

Lemma field_bound x lo n : 0 ≤ n → 0 ≤ field x lo n < 2 ^ n.
Proof. intros. unfold field. rewrite Z.land_ones by done. apply Z.mod_pos_bound. by apply Z.pow_pos_nonneg. Qed.

Lemma read_reg64_value r x : registers_wf r → value_of 64 (read_reg64 r x).
Proof. intros [Hg _]. destruct x; simpl; try done. apply Hg. Qed.
Lemma read_reg32_value r x : value_of 32 (read_reg32 r x).
Proof. destruct x; simpl; try done; apply Z.mod_pos_bound; lia. Qed.
Lemma read_reg16_value r x : value_of 16 (read_reg16 r x).
Proof. destruct x; simpl; try done; exact (field_bound _ 0 16 ltac:(lia)). Qed.
Lemma read_reg8_value r x : value_of 8 (read_reg8 r x).
Proof.
  destruct x; simpl; try done; [exact (field_bound _ 0 8 ltac:(lia))|].
  destruct (has_high_byte g); [exact (field_bound _ 8 8 ltac:(lia))|done].
Qed.

Lemma write_reg64_wf r x v : registers_wf r → is_u64 v → registers_of (write_reg64 r x v).
Proof. intros. destruct x; simpl; try done; by apply set_gpr_wf. Qed.
Lemma write_reg32_wf r x v : registers_wf r → is_u64 v → registers_of (write_reg32 r x v).
Proof. apply write_reg64_wf. Qed.

Lemma set_field_word x m v : is_u64 x → is_u64 v → is_u64 (Z.lor (without_bits x m) v).
Proof. intros. apply (lor_bound 64); [lia|by apply land_bound|done]. Qed.

Lemma write_reg16_wf r x v : registers_wf r → 0 ≤ v < 2 ^ 16 → registers_of (write_reg16 r x v).
Proof.
  intros Hr Hv. destruct x; simpl; try done. apply set_gpr_wf; [done|]. apply set_field_word; [apply Hr|].
  by apply (small_word 16).
Qed.

Lemma write_reg8_wf r x v : registers_wf r → 0 ≤ v < 2 ^ 8 → registers_of (write_reg8 r x v).
Proof.
  intros Hr Hv. destruct x; simpl; try done; [|destruct (has_high_byte g); [|done]]; (apply set_gpr_wf; [done|]); apply set_field_word;
    try apply Hr; [by apply (small_word 8)|]. rewrite Z.shiftl_mul_pow2 by lia. unfold is_u64. lia.
Qed.

Lemma effective_address_value r i : value_of 64 (effective_address r i).
Proof.
  unfold effective_address. destruct (match ins_memory_segment i with RegFS => _ | _ => _ end) as [base| |] eqn:E; [|done|].
  2: { destruct (ins_memory_segment i); done. }
  clear E. cbn [obind]. destruct (ins_memory_base i) eqn:Eb; try apply wrap64_bound.
  all: destruct (ins_memory_index i) eqn:Ei; simpl; try done; apply wrap64_bound.
Qed.

(** ** Executions *)
(** What the accesses of a memory promise about an invariant. *)
Class GuestMemoryOperandLaws (M : Type) `{!GuestMemoryOperandAccess M} (I : M → Prop) : Prop := {
  operand_read_law m address n : I m → is_u64 address → 0 ≤ n →
    wp (read_memory_operand address n) (λ _, I) (λ _, I) m;
  operand_write_law m address bytes : I m → is_u64 address →
    wp (write_memory_operand address bytes) (λ _, I) (λ _, I) m;
}.

Section words.
Context {M : Type} `{!GuestMemoryOperandAccess M} {dec : X86Decoder} {laws : X86DecoderLaws}.
Context (I : M → Prop) `{!GuestMemoryOperandLaws M I} (rflags fs_base : Z).
#[local] Abbreviation State := (ExecState M).

Record good (s : State) : Prop := {
  gd_registers : registers_wf (x_registers s);
  gd_memory : I (x_memory s);
  gd_rflags : g_rflags (x_registers s) = rflags;
  gd_fs_base : g_fs_base (x_registers s) = fs_base;
}.

(** [m] keeps the state good, does not panic, and returns a [K]. *)
Definition keeps {A} (K : A → Prop) (m : ExecM M A) : Prop :=
  ∀ s, good s → wp m (λ a s', good s' ∧ K a) (λ _, good) s.

Lemma keeps_bind_exec {A B} (J : A → Prop) (K : B → Prop) m (k : A → ExecM M B) :
  keeps J m → (∀ a, J a → keeps K (k a)) → keeps K (let* a := m in k a).
Proof.
  intros Hm Hk s Hs. apply wp_bind. eapply wp_mono; [by apply Hm| |done]. intros a s' [Hs' Ha]. by apply Hk.
Qed.

Lemma keeps_exec_ret {A} (K : A → Prop) a : K a → keeps K (ret a : ExecM M A).
Proof. intros Ha s Hs. by apply wp_ret. Qed.

Lemma keeps_exec_throw {A} (K : A → Prop) e : keeps K (throw e : ExecM M A).
Proof. intros s Hs. by apply wp_throw. Qed.

Lemma keeps_exec_lift {A} (K : A → Prop) (o : outcome A ExecutionError) :
  match o with Ok a => K a | Err _ => True | Panic => False end → keeps K (lift o : ExecM M A).
Proof. intros Ho s Hs. destruct o; done. Qed.

Lemma keeps_exec_gets : keeps good (gets id : ExecM M State).
Proof. intros s Hs. apply wp_gets. by split. Qed.

Lemma keeps_set_flags f : keeps (λ _, True) (modify (set_flags f) : ExecM M unit).
Proof. intros s []. apply wp_modify. split; [by split|done]. Qed.

Lemma keeps_reading {A} (K : A → Prop) f :
  (∀ r, registers_wf r → match f r with Ok a => K a | Err _ => True | Panic => False end) →
  keeps K (reading f : ExecM M A).
Proof.
  intros Hf s Hs. unfold reading. apply wp_bind, wp_gets. apply keeps_exec_lift; [|done]. apply Hf, Hs.
Qed.

(** A change of the general registers and the instruction pointer. *)
Definition preserves (f : GuestRegisters → outcome GuestRegisters ExecutionError) : Prop :=
  ∀ r, registers_wf r → registers_of (f r) ∧ ∀ r', f r = Ok r' → g_rflags r' = g_rflags r ∧ g_fs_base r' = g_fs_base r.

Lemma keeps_writing f : preserves f → keeps (λ _, True) (writing f : ExecM M unit).
Proof.
  intros Hf s Hs. unfold writing, reading. apply wp_bind, wp_bind, wp_gets. unfold id.
  destruct (Hf _ (gd_registers _ Hs)) as [Hr Hsame]. apply wp_lift; [|done|by intros E; rewrite E in Hr].
  intros r' E. apply wp_modify. destruct (Hsame r' E), Hs. rewrite E in Hr. split; [|done]. split; simpl; [done|done|congruence|congruence].
Qed.

Lemma preserves_write64 x v : is_u64 v → preserves (λ r, write_reg64 r x v).
Proof.
  intros Hv r Hr. split; [by apply write_reg64_wf|]. intros r'. destruct x; try done; simpl; by intros [= <-].
Qed.
Lemma preserves_write32 x v : is_u64 v → preserves (λ r, write_reg32 r x v).
Proof. apply preserves_write64. Qed.
Lemma preserves_write16 x v : 0 ≤ v < 2 ^ 16 → preserves (λ r, write_reg16 r x v).
Proof.
  intros Hv r Hr. split; [by apply write_reg16_wf|]. intros r'. destruct x; try done; simpl; by intros [= <-].
Qed.
Lemma preserves_write8 x v : 0 ≤ v < 2 ^ 8 → preserves (λ r, write_reg8 r x v).
Proof.
  intros Hv r Hr. split; [by apply write_reg8_wf|]. intros r'.
  destruct x; try done; simpl; [|destruct (has_high_byte g); [|done]]; by intros [= <-].
Qed.
Lemma preserves_set_gpr g (v : GuestRegisters → Z) : (∀ r, registers_wf r → is_u64 (v r)) → preserves (λ r, Ok (set_gpr g (v r) r)).
Proof. intros Hv r Hr. split; [apply set_gpr_wf; auto|]. by intros r' [= <-]. Qed.
Lemma preserves_set_rip v : is_u64 v → preserves (λ r, Ok (set_rip v r)).
Proof. intros Hv r Hr. split; [by apply set_rip_wf|]. by intros r' [= <-]. Qed.

(** *** Memory *)
Lemma keeps_read_memory n rip address : 0 ≤ n → is_u64 address → keeps (λ z, 0 ≤ z < 256 ^ n) (read_memory_bytes n rip address : ExecM M Z).
Proof.
  intros Hn Ha s Hs. unfold read_memory_bytes. apply wp_bind.
  pose proof (operand_read_law (x_memory s) address n (gd_memory _ Hs) Ha Hn) as H. unfold wp, operand in *.
  destruct (read_memory_operand address n (x_memory s)) as [[bs|e|] m']; [| |done]; [|destruct Hs; by split].
  split; [destruct Hs; by split|]. apply Z.mod_pos_bound. by apply Z.pow_pos_nonneg.
Qed.

Lemma keeps_write_memory rip address bytes : is_u64 address → keeps (λ _, True) (write_memory_bytes rip address bytes : ExecM M unit).
Proof.
  intros Ha s Hs. unfold write_memory_bytes.
  pose proof (operand_write_law (x_memory s) address bytes (gd_memory _ Hs) Ha) as H. unfold wp, operand in *.
  destruct (write_memory_operand address bytes (x_memory s)) as [[[]|e|] m']; destruct Hs; try done; by (split; [by split|done]) || by split.
Qed.

(** *** Operands and instructions *)
Definition word (w z : Z) : Prop := 0 ≤ z < 2 ^ w.
Definition any (_ : unit) : Prop := True.

Lemma keeps_weaken {A} (J K : A → Prop) (m : ExecM M A) : (∀ a, J a → K a) → keeps J m → keeps K m.
Proof. intros H Hm s Hs. eapply wp_mono; [by apply Hm| |done]. intros a s' [Hs' Ha]. auto. Qed.

Lemma keeps_reg64 x : keeps (word 64) (reading (λ r, read_reg64 r x) : ExecM M Z).
Proof. apply keeps_reading. intros. by apply read_reg64_value. Qed.
Lemma keeps_reg32 x : keeps (word 32) (reading (λ r, read_reg32 r x) : ExecM M Z).
Proof. apply keeps_reading. intros. by apply read_reg32_value. Qed.
Lemma keeps_reg16 x : keeps (word 16) (reading (λ r, read_reg16 r x) : ExecM M Z).
Proof. apply keeps_reading. intros. by apply read_reg16_value. Qed.
Lemma keeps_reg8 x : keeps (word 8) (reading (λ r, read_reg8 r x) : ExecM M Z).
Proof. apply keeps_reading. intros. by apply read_reg8_value. Qed.

Lemma keeps_at_address {A} (K : A → Prop) i (f : Z → ExecM M A) :
  (∀ a, word 64 a → keeps K (f a)) → keeps K (at_address i f).
Proof.
  intros Hf. apply keeps_bind_exec with (word 64); [|done].
  apply keeps_reading. intros. apply effective_address_value.
Qed.

Lemma keeps_mem64 rip a : word 64 a → keeps (word 64) (read_memory_u64 rip a : ExecM M Z).
Proof. intros. by apply keeps_read_memory. Qed.
Lemma keeps_mem32 rip a : word 64 a → keeps (word 32) (read_memory_u32 rip a : ExecM M Z).
Proof. intros. by apply keeps_read_memory. Qed.
Lemma keeps_mem16 rip a : word 64 a → keeps (word 16) (read_memory_u16 rip a : ExecM M Z).
Proof. intros. by apply keeps_read_memory. Qed.
Lemma keeps_mem8 rip a : word 64 a → keeps (word 8) (read_memory_u8 rip a : ExecM M Z).
Proof. intros. by apply keeps_read_memory. Qed.

(** The four widths of an operand. *)
Lemma keeps_operand w (read : Register → ExecM M Z) (mem : Z → Z → ExecM M Z) i n :
  (∀ x, keeps (word w) (read x)) → (∀ rip a, word 64 a → keeps (word w) (mem rip a)) →
  keeps (word w) (match ins_op_kind i n with
                  | OpRegister => read (ins_op_register i n)
                  | OpMemory => at_address i (mem (ins_ip i))
                  | _ => lift (bad_operand i)
                  end).
Proof.
  intros Hr Hm. destruct (ins_op_kind i n); try by apply keeps_exec_lift. - apply Hr. - apply keeps_at_address. auto.
Qed.

Lemma keeps_operand_u8 i n : keeps (word 8) (read_operand_u8 i n : ExecM M Z).
Proof. apply (keeps_operand 8 (λ x, reading (λ r, read_reg8 r x)) read_memory_u8); [apply keeps_reg8|apply keeps_mem8]. Qed.
Lemma keeps_operand_u16 i n : keeps (word 16) (read_operand_u16 i n : ExecM M Z).
Proof. apply (keeps_operand 16 (λ x, reading (λ r, read_reg16 r x)) read_memory_u16); [apply keeps_reg16|apply keeps_mem16]. Qed.
Lemma keeps_operand_u32 i n : keeps (word 32) (read_operand_u32 i n : ExecM M Z).
Proof. apply (keeps_operand 32 (λ x, reading (λ r, read_reg32 r x)) read_memory_u32); [apply keeps_reg32|apply keeps_mem32]. Qed.
Lemma keeps_operand_u64 i n : keeps (word 64) (read_operand_u64 i n : ExecM M Z).
Proof. apply (keeps_operand 64 (λ x, reading (λ r, read_reg64 r x)) read_memory_u64); [apply keeps_reg64|apply keeps_mem64]. Qed.

(** Immediates. *)
Lemma immediate_u64 i : instruction_wf i → value_of 64 (immediate_as_u64 i).
Proof. intros []. unfold immediate_as_u64. destruct (ins_op_kind i 1); try done; apply wrap64_bound. Qed.
Lemma immediate_operand_u64 i n : instruction_wf i → value_of 64 (immediate_operand_as_u64 i n).
Proof. intros []. unfold immediate_operand_as_u64. destruct (ins_op_kind i n); try done; apply wrap64_bound. Qed.
Lemma immediate_u32 i : instruction_wf i → value_of 32 (immediate_as_u32 i).
Proof. intros []. unfold immediate_as_u32. destruct (ins_op_kind i 1); try done; apply Z.mod_pos_bound; lia. Qed.
Lemma immediate_u16 i : instruction_wf i → value_of 16 (immediate_as_u16 i).
Proof. intros []. unfold immediate_as_u16. destruct (ins_op_kind i 1); try done; apply Z.mod_pos_bound; lia. Qed.
Lemma immediate_u8 i : instruction_wf i → value_of 8 (immediate_as_u8 i).
Proof. intros []. unfold immediate_as_u8. by destruct (ins_op_kind i 1). Qed.

Lemma keeps_value w (o : outcome Z ExecutionError) : value_of w o → keeps (word w) (lift o : ExecM M Z).
Proof. intros. by apply keeps_exec_lift. Qed.

Lemma keeps_operand_or_u32 i n : instruction_wf i → keeps (word 32) (read_operand_or_immediate_u32 i n : ExecM M Z).
Proof.
  intros. unfold read_operand_or_immediate_u32.
  destruct (ins_op_kind i n); try apply keeps_operand_u32; by apply keeps_value, immediate_u32.
Qed.
Lemma keeps_operand_or_u64 i n : instruction_wf i → keeps (word 64) (read_operand_or_immediate_u64 i n : ExecM M Z).
Proof.
  intros. unfold read_operand_or_immediate_u64.
  destruct (ins_op_kind i n); try apply keeps_operand_u64; by apply keeps_value, immediate_u64.
Qed.

Lemma keeps_write_operand_u64 i n v : word 64 v → keeps any (write_operand_u64 i n v : ExecM M unit).
Proof.
  intros Hv. unfold write_operand_u64. destruct (ins_op_kind i n); try by apply keeps_exec_lift.
  - by apply keeps_writing, preserves_write64.
  - apply keeps_at_address. intros. by apply keeps_write_memory.
Qed.
Lemma keeps_write_operand_u32 i n v : word 64 v → keeps any (write_operand_u32 i n v : ExecM M unit).
Proof.
  intros Hv. unfold write_operand_u32. destruct (ins_op_kind i n); try by apply keeps_exec_lift.
  - by apply keeps_writing, preserves_write32.
  - apply keeps_at_address. intros. by apply keeps_write_memory.
Qed.

Lemma apply_logic_word w a b op : 0 ≤ w → word w a → word w b → word w (apply_logic a b op).
Proof. intros. destruct op; [by apply land_bound|by apply lor_bound|by apply lxor_bound]. Qed.

(** Destinations. *)
Lemma keeps_to_reg64 i m : keeps (word 64) m → keeps any (to_reg64 i m : ExecM M unit).
Proof. intros. apply keeps_bind_exec with (word 64); [done|]. intros. by apply keeps_writing, preserves_write64. Qed.
Lemma keeps_to_reg32 i m : keeps (word 32) m → keeps any (to_reg32 i m : ExecM M unit).
Proof.
  intros. apply keeps_bind_exec with (word 32); [done|]. intros. apply keeps_writing, preserves_write32.
  by apply (small_word 32).
Qed.
Lemma keeps_to_reg16 i m : keeps (word 16) m → keeps any (to_reg16 i m : ExecM M unit).
Proof. intros. apply keeps_bind_exec with (word 16); [done|]. intros. by apply keeps_writing, preserves_write16. Qed.
Lemma keeps_to_reg8 i m : keeps (word 8) m → keeps any (to_reg8 i m : ExecM M unit).
Proof. intros. apply keeps_bind_exec with (word 8); [done|]. intros. by apply keeps_writing, preserves_write8. Qed.

Lemma keeps_store w rip a (m : ExecM M Z) (store : Z → Z → Z → ExecM M unit) :
  keeps (word w) m → word 64 a → (∀ v, keeps any (store rip a v)) → keeps any (let* v := m in store rip a v).
Proof. intros Hm Ha Hs. apply keeps_bind_exec with (word w); auto. Qed.

Lemma keeps_sign_extended w m : is_width w → keeps (word w) m → keeps (word 64) (sign_extended w m : ExecM M Z).
Proof.
  intros Hw Hm. apply keeps_bind_exec with (word w); [done|]. intros z Hz. apply keeps_exec_ret. apply wrap64_bound.
Qed.

Lemma keeps_push rip (m : ExecM M Z) : keeps (word 64) m → keeps any (push rip m).
Proof.
  intros Hm. apply keeps_bind_exec with (word 64); [done|]. intros v Hv.
  apply keeps_bind_exec with any. { apply keeps_writing, preserves_set_gpr. intros. apply wrap64_bound. }
  intros [] _. apply keeps_bind_exec with good; [apply keeps_exec_gets|]. intros s Hs. apply keeps_write_memory.
  exact (proj1 (gd_registers _ Hs) RSP).
Qed.

(** Arithmetic. *)
Lemma keeps_arith w (lhs rhs : ExecM M Z) (k : Z → Z → ExecM M unit) :
  keeps (word w) lhs → keeps (word w) rhs → (∀ a b, word w a → word w b → keeps any (k a b)) →
  keeps any (let* a := lhs in let* b := rhs in k a b).
Proof. intros Hl Hr Hk. apply keeps_bind_exec with (word w); [done|]. intros a Ha. apply keeps_bind_exec with (word w); auto. Qed.

Lemma keeps_then_flags (m : ExecM M unit) f : keeps any m → keeps any (do* m; modify (set_flags f)).
Proof. intros Hm. apply keeps_bind_exec with any; [done|]. intros [] _. apply keeps_set_flags. Qed.

Lemma keeps_add64 i rhs : keeps (word 64) rhs → keeps any (add64 i rhs : ExecM M unit).
Proof.
  intros Hr. apply keeps_arith with 64; [apply keeps_reg64|done|]. intros a b _ _. apply keeps_then_flags.
  apply keeps_writing, preserves_write64, wrap64_word.
Qed.
Lemma keeps_add32 i rhs : keeps (word 32) rhs → keeps any (add32 i rhs : ExecM M unit).
Proof.
  intros Hr. apply keeps_arith with 32; [apply keeps_reg32|done|]. intros a b _ _. apply keeps_then_flags.
  apply keeps_writing, preserves_write32, wrap32_word.
Qed.
Lemma keeps_sub64 write i rhs : keeps (word 64) rhs → keeps any (sub64 write i rhs : ExecM M unit).
Proof.
  intros Hr. apply keeps_arith with 64; [apply keeps_reg64|done|]. intros a b _ _. apply keeps_then_flags.
  destruct write; [|by apply keeps_exec_ret]. apply keeps_writing, preserves_write64, wrap64_word.
Qed.
Lemma keeps_sub32 write i rhs : keeps (word 32) rhs → keeps any (sub32 write i rhs : ExecM M unit).
Proof.
  intros Hr. apply keeps_arith with 32; [apply keeps_reg32|done|]. intros a b _ _. apply keeps_then_flags.
  destruct write; [|by apply keeps_exec_ret]. apply keeps_writing, preserves_write32, wrap32_word.
Qed.
Lemma keeps_compare w lhs rhs : keeps (word w) lhs → keeps (word w) rhs → keeps any (compare w lhs rhs : ExecM M unit).
Proof. intros. apply keeps_arith with w; try done. intros. apply keeps_set_flags. Qed.
Lemma keeps_test_bits w lhs rhs : keeps (word w) lhs → keeps (word w) rhs → keeps any (test_bits w lhs rhs : ExecM M unit).
Proof. intros. apply keeps_arith with w; try done. intros. apply keeps_set_flags. Qed.

Lemma keeps_logic_u64 i op : instruction_wf i → keeps any (execute_logic_u64 i op : ExecM M unit).
Proof.
  intros Hi. apply keeps_arith with 64; [apply keeps_operand_u64|by apply keeps_operand_or_u64|]. intros a b Ha Hb.
  apply keeps_then_flags, keeps_write_operand_u64. by apply apply_logic_word.
Qed.
Lemma keeps_logic_u32 i op : instruction_wf i → keeps any (execute_logic_u32 i op : ExecM M unit).
Proof.
  intros Hi. apply keeps_arith with 32; [apply keeps_operand_u32|by apply keeps_operand_or_u32|]. intros a b Ha Hb.
  apply keeps_then_flags, keeps_write_operand_u32, wrap32_word.
Qed.

Lemma keeps_widen w w' (m : ExecM M Z) : 0 ≤ w ≤ w' → keeps (word w) m → keeps (word w') m.
Proof.
  intros Hw. apply keeps_weaken. intros z [Hz1 Hz2]. split; [done|]. eapply Z.lt_le_trans; [done|].
  apply Z.pow_le_mono_r; lia.
Qed.

Lemma keeps_truncate (m : ExecM M Z) : keeps (word 64) m → keeps (word 32) (let* v := m in ret (as_u32 v)).
Proof. intros Hm. apply keeps_bind_exec with (word 64); [done|]. intros. apply keeps_exec_ret. apply Z.mod_pos_bound. lia. Qed.

Lemma keeps_cdqe (m : ExecM M Z) x : keeps (word 64) m → keeps any (let* v := m in writing (λ r, write_reg64 r x v)).
Proof. intros Hm. apply keeps_bind_exec with (word 64); [done|]. intros. by apply keeps_writing, preserves_write64. Qed.

Lemma keeps_pop rip i :
  keeps any (let* s := gets id in
             let* value := read_memory_u64 rip (g_rsp (x_registers s)) in
             do* writing (λ r, Ok (set_gpr RSP (wadd (g_rsp r) 8) r));
             writing (λ r, write_reg64 r (ins_op_register i 0) value) : ExecM M unit).
Proof.
  apply keeps_bind_exec with good; [apply keeps_exec_gets|]. intros s Hs.
  apply keeps_bind_exec with (word 64); [apply keeps_mem64; exact (proj1 (gd_registers _ Hs) RSP)|]. intros v Hv.
  apply keeps_bind_exec with any; [apply keeps_writing, preserves_set_gpr; intros; apply wrap64_bound|].
  intros [] _. by apply keeps_writing, preserves_write64.
Qed.

(** One arm of [execute_instruction]. *)
Ltac keeps_arm :=
  lazymatch goal with
  | |- keeps _ (if ?b then _ else _) => destruct b
  | |- keeps _ (throw _) => apply keeps_exec_throw
  | |- keeps _ (at_address _ _) => apply keeps_at_address; intros ? ?
  | |- keeps _ (to_reg64 _ _) => apply keeps_to_reg64
  | |- keeps _ (to_reg32 _ _) => apply keeps_to_reg32
  | |- keeps _ (to_reg16 _ _) => apply keeps_to_reg16
  | |- keeps _ (to_reg8 _ _) => apply keeps_to_reg8
  | |- keeps _ (write_memory_u64 _ _ _) => by apply keeps_write_memory
  | |- keeps _ (write_memory_u32 _ _ _) => by apply keeps_write_memory
  | |- keeps _ (write_memory_u16 _ _ _) => by apply keeps_write_memory
  | |- keeps _ (write_memory_u8 _ _ _) => by apply keeps_write_memory
  | |- keeps _ (read_memory_u64 _ _) => by apply keeps_mem64
  | |- keeps _ (read_memory_u32 _ _) => by apply keeps_mem32
  | |- keeps _ (read_memory_u16 _ _) => by apply keeps_mem16
  | |- keeps _ (read_memory_u8 _ _) => by apply keeps_mem8
  | |- keeps _ (register_rhs64 _) => apply keeps_reg64
  | |- keeps _ (register_rhs32 _) => apply keeps_reg32
  | |- keeps _ (reading (λ r, read_reg64 r _)) => apply keeps_reg64
  | |- keeps _ (reading (λ r, read_reg32 r _)) => apply keeps_reg32
  | |- keeps _ (reading (λ r, read_reg16 r _)) => apply keeps_reg16
  | |- keeps _ (reading (λ r, read_reg8 r _)) => apply keeps_reg8
  | |- keeps _ (reading (λ r, effective_address r _)) => apply keeps_reading; intros; apply effective_address_value
  | |- keeps _ (read_operand_u8 _ _) => apply (keeps_widen 8); [lia|apply keeps_operand_u8]
  | |- keeps _ (read_operand_u16 _ _) => apply (keeps_widen 16); [lia|apply keeps_operand_u16]
  | |- keeps _ (read_operand_u32 _ _) => apply keeps_operand_u32
  | |- keeps _ (read_operand_u64 _ _) => apply keeps_operand_u64
  | |- keeps (word 32) (let* v := sign_extended _ _ in ret (as_u32 v)) => eapply keeps_truncate
  | |- keeps _ (sign_extended _ _) => apply keeps_sign_extended; [by unfold is_width; auto|]
  | |- keeps _ (lift (immediate_as_u64 _)) => by apply keeps_value, immediate_u64
  | |- keeps _ (lift (immediate_as_u32 _)) => by apply keeps_value, immediate_u32
  | |- keeps _ (lift (immediate_as_u16 _)) => by apply keeps_value, immediate_u16
  | |- keeps _ (lift (immediate_as_u8 _)) => by apply keeps_value, immediate_u8
  | |- keeps _ (lift (immediate_operand_as_u64 _ _)) => by apply keeps_value, immediate_operand_u64
  | |- keeps _ (push _ _) => apply keeps_push
  | |- keeps _ (add64 _ _) => apply keeps_add64
  | |- keeps _ (add32 _ _) => apply keeps_add32
  | |- keeps _ (sub64 _ _ _) => apply keeps_sub64
  | |- keeps _ (sub32 _ _ _) => apply keeps_sub32
  | |- keeps _ (compare _ _ _) => apply keeps_compare
  | |- keeps _ (test_bits _ _ _) => apply keeps_test_bits
  | |- keeps _ (execute_logic_u64 _ _) => by apply keeps_logic_u64
  | |- keeps _ (execute_logic_u32 _ _) => by apply keeps_logic_u32
  | |- keeps any (let* v := ?m in write_memory_u64 _ _ v) => eapply (keeps_store 64); [|eassumption|intros ?; by apply keeps_write_memory]
  | |- keeps any (let* v := ?m in write_memory_u32 _ _ v) => eapply (keeps_store 32); [|eassumption|intros ?; by apply keeps_write_memory]
  | |- keeps any (let* v := ?m in write_memory_u16 _ _ v) => eapply (keeps_store 16); [|eassumption|intros ?; by apply keeps_write_memory]
  | |- keeps any (let* v := ?m in write_memory_u8 _ _ v) => eapply (keeps_store 8); [|eassumption|intros ?; by apply keeps_write_memory]
  | |- keeps any (let* v := sign_extended _ _ in writing _) => apply keeps_cdqe
  | |- keeps any (let* s := gets id in _) => apply keeps_pop
  | |- keeps _ (ret _) => apply keeps_exec_ret; first [apply wrap64_bound|assumption|done]
  end.

(** One group of arms, which falls to the next. *)
Ltac keeps_group :=
  intros Hi; pose proof Hi as []; unfold reg_op, mem_op, unsupported, register_rhs16, register_rhs8;
  match goal with |- context [ins_code ?i] => destruct (ins_code i) end; repeat keeps_arm; try done.

Lemma keeps_comparison rip i : instruction_wf i → keeps any (execute_comparison rip i : ExecM M unit).
Proof. unfold execute_comparison. keeps_group. Qed.

Lemma keeps_arithmetic rip i : instruction_wf i → keeps any (execute_arithmetic rip i : ExecM M unit).
Proof. unfold execute_arithmetic. keeps_group; by apply keeps_comparison. Qed.

Lemma keeps_extend_or_stack rip i : instruction_wf i → keeps any (execute_extend_or_stack rip i : ExecM M unit).
Proof. unfold execute_extend_or_stack. keeps_group; by apply keeps_arithmetic. Qed.

Lemma keeps_execute_instruction rip i : instruction_wf i → keeps any (execute_instruction rip i : ExecM M unit).
Proof. unfold execute_instruction, execute_move. keeps_group; by apply keeps_extend_or_stack. Qed.

(** *** Blocks *)
Lemma keeps_simple b rip len : keeps any (execute_simple_instruction b rip len : ExecM M unit).
Proof.
  unfold execute_simple_instruction. apply keeps_bind_exec with (λ _, True); [apply keeps_exec_lift; by destruct (slice _ _ _)|].
  intros bytes _. apply keeps_bind_exec with any; [apply keeps_execute_instruction, decode_wf|].
  intros [] _. apply keeps_writing, preserves_set_rip, wrap64_word.
Qed.

Lemma keeps_body b d l : keeps any (execute_body b d l : ExecM M unit).
Proof.
  induction l as [|i l IH]; simpl; [by apply keeps_exec_ret|]. destruct (ends_block _ _); [by apply keeps_exec_ret|].
  apply keeps_bind_exec with any; [apply keeps_simple|done].
Qed.

Lemma keeps_block_offset b rip : keeps (λ _, True) (lift (block_offset b rip) : ExecM M Z).
Proof. apply keeps_exec_lift. unfold block_offset. destruct (checked_sub64 _ _); [|done]. by destruct (_ <=? _). Qed.

Definition some_word (o : option Z) : Prop := match o with Some z => word 64 z | None => True end.

Lemma keeps_call_to b i target : instruction_wf i → word 64 target → keeps some_word (call_to b i target : ExecM M (option Z)).
Proof.
  intros Hi Ht. unfold call_to. apply keeps_bind_exec with (λ _, True); [apply keeps_block_offset|]. intros _ _.
  apply keeps_bind_exec with good; [apply keeps_exec_gets|]. intros s Hs.
  apply keeps_bind_exec with any; [apply keeps_write_memory, wrap64_word|]. intros [] _.
  apply keeps_bind_exec with any; [|intros [] _; by apply keeps_exec_ret].
  apply keeps_writing, (preserves_set_gpr RSP (λ _, _)). intros. apply wrap64_word.
Qed.

Lemma keeps_checked b target : word 64 target →
  keeps some_word (let* _ := lift (block_offset b target) in ret (Some target) : ExecM M (option Z)).
Proof. intros Ht. apply keeps_bind_exec with (λ _, True); [apply keeps_block_offset|]. intros. by apply keeps_exec_ret. Qed.

Lemma branch_taken_no_panic i f : branch_taken i f ≠ Panic.
Proof. unfold branch_taken. by destruct (ins_code i). Qed.

Lemma keeps_flow_target b t flow i : instruction_wf i → keeps some_word (flow_target b t flow i : ExecM M (option Z)).
Proof.
  intros Hi. pose proof Hi as [Hnext _ _ _ _ Hnear].
  assert (Hbranch : keeps some_word (let* s := gets id in
      let* taken := lift (branch_taken i (x_flags s)) in
      if negb taken then ret (Some (ins_next_ip i)) else
      if negb (is_near_branch (ins_op_kind i 0)) then throw (MissingSyscall t) else
      let* _ := lift (block_offset b (ins_near_branch_target i)) in
      ret (Some (ins_near_branch_target i)) : ExecM M (option Z))).
  { apply keeps_bind_exec with good; [apply keeps_exec_gets|]. intros s Hs.
    apply keeps_bind_exec with (λ _, True).
    { apply keeps_exec_lift. pose proof (branch_taken_no_panic i (x_flags s)). by destruct (branch_taken _ _). }
    intros taken _. destruct (negb taken); [by apply keeps_exec_ret|]. destruct (negb _); [apply keeps_exec_throw|by apply keeps_checked]. }
  assert (Hjump : keeps some_word (let* target := read_operand_u64 i 0 in
      let* _ := lift (block_offset b target) in ret (Some target) : ExecM M (option Z))).
  { apply keeps_bind_exec with (word 64); [apply keeps_operand_u64|]. intros. by apply keeps_checked. }
  unfold flow_target. destruct flow, (ins_code i); try exact Hbranch; try exact Hjump; try by apply keeps_exec_ret.
  - apply keeps_bind_exec with good; [apply keeps_exec_gets|]. intros s Hs.
    apply keeps_bind_exec with (word 64); [apply keeps_mem64; exact (proj1 (gd_registers _ Hs) RSP)|]. intros target Ht.
    apply keeps_bind_exec with (λ _, True); [apply keeps_block_offset|]. intros _ _.
    apply keeps_bind_exec with any; [apply keeps_writing, preserves_set_gpr; intros; apply wrap64_word|].
    intros [] _. by apply keeps_exec_ret.
  - by apply keeps_call_to.
  - apply keeps_bind_exec with (word 64); [apply keeps_operand_u64|]. intros. by apply keeps_call_to.
Qed.

Lemma keeps_control_flow b d : keeps some_word (control_flow_target b d : ExecM M (option Z)).
Proof.
  unfold control_flow_target. destruct (db_terminator d); try by apply keeps_exec_ret.
  destruct (last _) as [i|]; [|apply keeps_exec_throw]. apply keeps_bind_exec with (λ _, True); [apply keeps_block_offset|].
  intros o _. apply keeps_bind_exec with (λ _, True); [apply keeps_exec_lift; by destruct (slice _ _ _)|].
  intros bytes _. apply keeps_flow_target, decode_wf.
Qed.

Lemma decode_loop_no_panic fuel : ∀ bytes ip acc, decode_loop fuel bytes ip acc ≠ Panic.
Proof.
  induction fuel as [|fuel IH]; intros [|x bytes] ip acc; simpl; try done.
  destruct (ins_is_invalid _); [done|]. destruct (ins_is_syscall _); [done|]. by destruct (decoded_flow_control _).
Qed.

Lemma decode_loop_site fuel : ∀ bytes ip acc d site,
  decode_loop fuel bytes ip acc = Ok d → syscall_site d = Some site → is_u64 ip → is_u64 (ss_rip site).
Proof.
  induction fuel as [|fuel IH]; intros [|x bytes] ip acc d site; simpl; try by intros [= <-].
  destruct (ins_is_invalid _); [done|]. destruct (ins_is_syscall _).
  - intros [= <-] [= <-] Hip. simpl. by rewrite decode_ip.
  - destruct (decoded_flow_control _); [by intros [= <-]|]. intros H Hs Hip. eapply IH; [done|done|apply wrap64_word].
Qed.

Lemma keeps_blocks b steps : ∀ rip, is_u64 rip →
  keeps (λ trap, registers_wf (tr_registers trap) ∧ g_rflags (tr_registers trap) = rflags ∧
                 g_fs_base (tr_registers trap) = fs_base) (execute_blocks steps b rip : ExecM M SyscallTrap).
Proof.
  induction steps as [|steps IH]; intros rip Hrip; simpl; [by apply keeps_exec_lift|].
  apply keeps_bind_exec with (λ block, bl_rip block = rip).
  { unfold block_from_rip, block_offset. destruct (checked_sub64 _ _); [|by apply keeps_exec_lift].
    by destruct (_ <=? _); apply keeps_exec_lift. }
  intros block <-. apply keeps_bind_exec with (λ d, decode block = Ok d).
  { apply keeps_exec_lift. pose proof (decode_loop_no_panic (length (bl_bytes block)) (bl_bytes block) (bl_rip block) []).
    unfold decode in *. by destruct (decode_loop _ _ _ _). }
  intros d Hd. apply keeps_bind_exec with any; [apply keeps_body|]. intros [] _.
  destruct (syscall_site d) as [site|] eqn:Es.
  - apply keeps_bind_exec with any; [apply keeps_writing, preserves_set_rip; by eapply decode_loop_site|]. intros [] _.
    apply keeps_bind_exec with good; [apply keeps_exec_gets|]. intros s []. by apply keeps_exec_ret.
  - apply keeps_bind_exec with some_word; [apply keeps_control_flow|]. intros [target|] Ht; [|apply keeps_exec_throw].
    apply keeps_bind_exec with any; [by apply keeps_writing, preserves_set_rip|]. intros [] _. by apply IH.
Qed.
End words.
