(* ===== verification/JitMemory.v ===== *)
(** * mcr-jit on the guest memory

    The guest memory of mcr-memory as the memory of operands (mcr-memory memory_access.rs and
    the read-only view of mcr-runtime runtime.rs).  Executing a block in one process keeps the
    invariant of the memories of all processes and changes nothing another process sees. *)

From S2P Require Import Prelude SysAbi Bytes HostMemory GuestMemory GuestMemoryOps GuestMemoryInv GuestMemoryAccess GuestMemorySystem JitRegisters JitOperands JitDecoder JitExec JitFlags JitWords.
From stdpp Require Import base gmap list strings.
From Stdlib Require Import ZArith Lia.
Open Scope Z_scope.

Definition memory_operand_error (e : GuestMemoryError) : GuestMemoryOperandError :=
  match e with
  | NotMapped => OperandNotMapped
  | AccessDenied => OperandAccessDenied
  | _ => OperandFault
  end.

(** A method of the guest memory, its error translated. *)
Definition as_operand {A} (m : MemM A) : ST World GuestMemoryOperandError A :=
  λ w, let '(r, w') := m w in (map_err memory_operand_error r, w').

Section memory.
Context {OS : HostOs} {OL : HostOsLaws OS}.

#[export] Instance guest_memory_operands : GuestMemoryOperandAccess World := {
  read_memory_operand address n := as_operand (GuestMemoryOps.read address n);
  write_memory_operand address bytes := as_operand (GuestMemoryOps.write address bytes);
}.

(** [ReadOnlyGuestMemory]: the same memory, whose writes are refused. *)
Record ReadOnlyGuestMemory : Type := { ro_memory : World }.

#[export] Instance read_only_operands : GuestMemoryOperandAccess ReadOnlyGuestMemory := {
  read_memory_operand address n r :=
    let '(x, w) := as_operand (GuestMemoryOps.read address n) (ro_memory r) in (x, {| ro_memory := w |});
  write_memory_operand _ _ := throw OperandAccessDenied;
}.

(** What an execution that started from [w] may have done. *)
Definition moved_from (w w' : World) : Prop := world_wf w' ∧ respects_others w w'.

Lemma as_operand_wp {A} (m : MemM A) (Q : World → Prop) w :
  wp m (λ _, Q) (λ _, Q) w → wp (as_operand m) (λ _, Q) (λ _, Q) w.
Proof. unfold wp, as_operand. destruct (m w) as [[a|e|] w']; done. Qed.

#[export] Instance guest_memory_laws w : GuestMemoryOperandLaws World (moved_from w).
Proof.
  split.
  - intros w1 address n [Hwf Ho] [Ha _] Hn. apply as_operand_wp.
    eapply wp_mono; [exact (wp_copy_guest w1 address n AccessRead Hwf Ha Hn)|..]; cbv beta.
    + by intros bs w' (-> & _).
    + by intros e w' (-> & _).
  - intros w1 address bytes [Hwf Ho] [Ha _]. apply as_operand_wp.
    eapply wp_mono; [exact (run_access_safe w1 (DoWrite address bytes) Hwf Ha)|..]; cbv beta.
    + intros [] w' [Hwf' Ho']. split; [done|by etrans].
    + intros e w' [Hwf' Ho']. split; [done|by etrans].
Qed.

#[export] Instance read_only_laws w : GuestMemoryOperandLaws ReadOnlyGuestMemory (λ r, world_wf w ∧ ro_memory r = w).
Proof.
  split; [|done]. intros [w1] address n [Hwf E] [Ha _] Hn. simpl in E. subst w1.
  pose proof (wp_copy_guest w address n AccessRead Hwf Ha Hn) as H. unfold wp in *. simpl.
  unfold as_operand, GuestMemoryOps.read. destruct (copy_guest address n AccessRead w) as [[bs|e|] w']; [| |done].
  - destruct H as (-> & _); by split.
  - destruct H as (-> & _); by split.
Qed.
End memory.
