(* ===== verification/JitBlocks.v ===== *)
(** * mcr-jit: blocks against single steps

    The reference machine executes one instruction at a time, wherever the instruction
    pointer is in the block.  [execute_blocks] decodes whole blocks first and jumps between
    them; when it traps, the reference machine gets to the same state. *)

From S2P Require Import Prelude Bytes JitRegisters JitOperands JitDecoder JitExec.
From stdpp Require Import base list strings relations.
From Stdlib Require Import ZArith Lia.
Open Scope Z_scope.

(** A block that fits in the address space. *)
Definition block_wf (b : GuestBlock) : Prop := 0 ≤ bl_rip b ∧ bl_rip b + zlen (bl_bytes b) < 2 ^ 64.

Section blocks.
Context {M : Type} `{!GuestMemoryOperandAccess M} {dec : X86Decoder} {laws : X86DecoderLaws}.
#[local] Abbreviation State := (ExecState M).
Implicit Types (b : GuestBlock) (s : State).

(** ** The reference machine *)
Definition pc (s : State) : Z := g_rip (x_registers s).

Definition fetch b (rip : Z) : outcome Instruction ExecutionError :=
  let? offset := block_offset b rip in
  let i := x86_decode (drop (Z.to_nat offset) (bl_bytes b)) rip in
  if ins_is_invalid i then Err (DecodeFailed (InvalidInstruction rip)) else Ok i.

Definition at_rip (rip : Z) (s : State) : State := set_registers (set_rip rip (x_registers s)) s.

Inductive exec_step b : State → State → Prop :=
| step_simple s s' i :
    fetch b (pc s) = Ok i → ins_is_syscall i = false → decoded_flow_control (ins_flow_control i) = None →
    execute_instruction (pc s) i s = (Ok tt, s') →
    exec_step b s (at_rip (wadd (pc s) (ins_len i)) s')
| step_flow s s' i flow target :
    fetch b (pc s) = Ok i → ins_is_syscall i = false → decoded_flow_control (ins_flow_control i) = Some flow →
    flow_target b (TermControlFlow (pc s) flow) flow i s = (Ok (Some target), s') →
    exec_step b s (at_rip target s').

(** ** Positions in the block *)
Lemma block_offset_Ok b rip o :
  block_wf b → block_offset b rip = Ok o → rip = bl_rip b + o ∧ 0 ≤ o < zlen (bl_bytes b).
Proof.
  intros [??]. unfold block_offset. destruct (checked_sub64 _ _) as [x|] eqn:E; [|done].
  apply checked_sub64_Some in E as [-> ?]. destruct (Z.leb_spec (zlen (bl_bytes b)) (rip - bl_rip b)); [done|].
  intros [= <-]. lia.
Qed.

Lemma block_offset_in b o : block_wf b → 0 ≤ o < zlen (bl_bytes b) → block_offset b (bl_rip b + o) = Ok o.
Proof.
  intros [??] ?. unfold block_offset. rewrite checked_sub64_fit by lia. replace (bl_rip b + o - bl_rip b) with o by lia.
  by rewrite (proj2 (Z.leb_gt _ _)) by lia.
Qed.

(** The bytes of an instruction, cut out of the block, decode to it. *)
Lemma slice_decode b o (i := x86_decode (drop (Z.to_nat o) (bl_bytes b)) (bl_rip b + o)) :
  block_wf b → 0 ≤ o < zlen (bl_bytes b) → ins_is_invalid i = false →
  1 ≤ ins_len i ∧ o + ins_len i ≤ zlen (bl_bytes b) ∧
  ∃ bytes, slice (bl_bytes b) o (o + ins_len i) = Some bytes ∧ x86_decode bytes (bl_rip b + o) = i.
Proof.
  intros Hb Ho Hv. assert (Hne : drop (Z.to_nat o) (bl_bytes b) ≠ []).
  { intros E%(f_equal length). rewrite length_drop in E. unfold zlen in Ho. simpl in E. lia. }
  pose proof (decode_len _ (bl_rip b + o) Hne) as [H1 H2]. fold i in H1, H2.
  assert (Hle : o + ins_len i ≤ zlen (bl_bytes b)).
  { unfold zlen in *. rewrite length_drop in H2. lia. }
  split; [done|]. split; [done|]. eexists. split.
  - unfold slice. unfold zlen in Hle. rewrite (proj2 (Z.leb_le 0 o)), (proj2 (Z.leb_le o _)), (proj2 (Z.leb_le _ _)) by lia.
    reflexivity.
  - replace (o + ins_len i - o) with (ins_len i) by lia. by apply decode_prefix.
Qed.

(** ** Decoding a block *)
Lemma decode_loop_acc fuel : ∀ bytes ip acc,
  decode_loop fuel bytes ip acc =
  match decode_loop fuel bytes ip [] with
  | Ok d => Ok {| db_instructions := acc ++ db_instructions d; db_terminator := db_terminator d |}
  | Err e => Err e
  | Panic => Panic
  end.
Proof.
  induction fuel as [|fuel IH]; intros bytes ip acc; [by simpl; rewrite app_nil_r|].
  destruct bytes as [|x bytes']; [by simpl; rewrite app_nil_r|]. cbn [decode_loop decode_next].
  set (i := x86_decode (x :: bytes') ip). destruct (ins_is_invalid i); [done|]. destruct (ins_is_syscall i); [done|].
  destruct (decoded_flow_control _); [done|]. rewrite (IH _ _ (acc ++ _)), (IH _ _ ([] ++ _)).
  destruct (decode_loop _ _ _ _) as [d| |]; [|done|done]. simpl. by rewrite <- app_assoc.
Qed.

(** The instruction that a block starts with. *)
Lemma decode_loop_cons b fuel o d (i := x86_decode (drop (Z.to_nat o) (bl_bytes b)) (bl_rip b + o)) :
  block_wf b → 0 ≤ o < zlen (bl_bytes b) →
  decode_loop (S fuel) (drop (Z.to_nat o) (bl_bytes b)) (bl_rip b + o) [] = Ok d →
  fetch b (bl_rip b + o) = Ok i ∧ ins_is_invalid i = false ∧
  ((ins_is_syscall i = true ∧
    d = {| db_instructions := [decoded_instruction i];
           db_terminator := TermSyscall {| ss_rip := bl_rip b + o; ss_next_rip := wadd (bl_rip b + o) (ins_len i) |} |}) ∨
   (ins_is_syscall i = false ∧ ∃ flow, decoded_flow_control (ins_flow_control i) = Some flow ∧
    d = {| db_instructions := [decoded_instruction i]; db_terminator := TermControlFlow (bl_rip b + o) flow |}) ∨
   (ins_is_syscall i = false ∧ decoded_flow_control (ins_flow_control i) = None ∧
    ∃ d', decode_loop fuel (drop (Z.to_nat (o + ins_len i)) (bl_bytes b)) (bl_rip b + (o + ins_len i)) [] = Ok d' ∧
          d = {| db_instructions := decoded_instruction i :: db_instructions d'; db_terminator := db_terminator d' |})).
Proof.
  intros Hb Ho Hd. destruct (drop (Z.to_nat o) (bl_bytes b)) as [|x bytes'] eqn:Ebytes.
  { apply (f_equal length) in Ebytes. rewrite length_drop in Ebytes. unfold zlen in Ho. simpl in Ebytes. lia. }
  cbn [decode_loop decode_next] in Hd. rewrite <- Ebytes in Hd.
  change (x86_decode (x :: bytes') (bl_rip b + o)) with (x86_decode (x :: bytes') (bl_rip b + o)) in i.
  assert (Ei : i = x86_decode (drop (Z.to_nat o) (bl_bytes b)) (bl_rip b + o)) by (unfold i; by rewrite Ebytes).
  rewrite <- Ei in Hd. clearbody i. assert (Hip : ins_ip i = bl_rip b + o) by (rewrite Ei; apply decode_ip).
  destruct (ins_is_invalid i) eqn:Ev; [done|].
  split; [unfold fetch; rewrite block_offset_in by done; cbn [obind]; by rewrite <- Ei, Ev|]. split; [done|].
  destruct (ins_is_syscall i) eqn:Es.
  { left. split; [done|]. injection Hd as <-. unfold end_rip, decoded_instruction. simpl. by rewrite Hip. }
  right. destruct (decoded_flow_control (ins_flow_control i)) as [flow|] eqn:Ef.
  { left. split; [done|]. exists flow. split; [done|]. injection Hd as <-. simpl. by rewrite Hip. }
  right. split; [done|]. split; [done|]. rewrite decode_loop_acc in Hd.
  destruct (slice_decode b o Hb Ho) as (Hl & Hle & _); [by rewrite <- Ei|]. rewrite <- Ei in Hl, Hle. destruct Hb.
  rewrite drop_drop, <- Z2Nat.inj_add, wadd_exact in Hd by lia. rewrite <- Z.add_assoc in Hd.
  destruct (decode_loop _ _ _ []) as [d'| |] eqn:E; [|done|done]. exists d'. split; [done|].
  by injection Hd as <-.
Qed.

(** Where the block ends. *)
Definition terminator_rip (t : BlockTerminator) : option Z :=
  match t with TermSyscall site => Some (ss_rip site) | TermControlFlow rip _ => Some rip | _ => None end.

Lemma terminator_after b fuel : ∀ o d, block_wf b → 0 ≤ o →
  decode_loop fuel (drop (Z.to_nat o) (bl_bytes b)) (bl_rip b + o) [] = Ok d →
  ∀ rip, terminator_rip (db_terminator d) = Some rip → bl_rip b + o ≤ rip.
Proof.
  induction fuel as [|fuel IH]; intros o d Hb Ho Hd rip Hr.
  { simpl in Hd. injection Hd as <-. done. }
  destruct (Z.lt_ge_cases o (zlen (bl_bytes b))) as [Hlt|Hge].
  2: { rewrite drop_ge in Hd by (unfold zlen in Hge; lia). simpl in Hd. injection Hd as <-. done. }
  destruct (decode_loop_cons b fuel o d Hb (conj Ho Hlt) Hd) as (_ & Hv & [[_ ->]|[(_ & flow & _ & ->)|(_ & _ & d' & Hd' & ->)]]);
    simpl in Hr; [injection Hr; lia..|].
  destruct (slice_decode b o Hb (conj Ho Hlt) Hv) as (Hl & Hle & _). eapply IH in Hd'; [|done|lia|done]. lia.
Qed.

(** ** Running a block *)
(** The machine stands at the end of the block. *)
Definition block_end b (d : DecodedBlock) s : Prop :=
  match db_terminator d with
  | TermSyscall site =>
      ss_rip site = pc s ∧
      ∃ i, fetch b (pc s) = Ok i ∧ ins_is_syscall i = true ∧ ss_next_rip site = wadd (pc s) (ins_len i)
  | TermControlFlow rip flow =>
      rip = pc s ∧
      ∃ i, fetch b (pc s) = Ok i ∧ ins_is_syscall i = false ∧ decoded_flow_control (ins_flow_control i) = Some flow ∧
           last (db_instructions d) = Some (decoded_instruction i)
  | TermInvalid _ => False
  | TermEndOfBytes => True
  end.

Lemma simple_runs b o s s' (i := x86_decode (drop (Z.to_nat o) (bl_bytes b)) (bl_rip b + o)) :
  block_wf b → 0 ≤ o < zlen (bl_bytes b) → ins_is_invalid i = false →
  execute_simple_instruction b (bl_rip b + o) (ins_len i) s = (Ok tt, s') →
  ∃ s1, execute_instruction (bl_rip b + o) i s = (Ok tt, s1) ∧ s' = at_rip (wadd (bl_rip b + o) (ins_len i)) s1.
Proof.
  intros Hb Ho Hv. destruct (slice_decode b o Hb Ho Hv) as (_ & _ & bytes & Hsl & Hdec). unfold execute_simple_instruction.
  replace (Z.max 0 (bl_rip b + o - bl_rip b)) with o by lia. fold i. fold i in Hsl, Hdec. rewrite Hsl.
  intros (bs & s1 & [Hbs ->]%lift_Ok_inv & H)%bind_Ok_inv. injection Hbs as <-. rewrite Hdec in H.
  apply bind_Ok_inv in H as ([] & s2 & Hi & H). exists s2. split; [done|]. by injection H as <-.
Qed.

Lemma body_steps b fuel : ∀ o d d' s s1,
  block_wf b → 0 ≤ o → pc s = bl_rip b + o →
  decode_loop fuel (drop (Z.to_nat o) (bl_bytes b)) (bl_rip b + o) [] = Ok d → db_terminator d' = db_terminator d →
  execute_body b d' (db_instructions d) s = (Ok tt, s1) →
  rtc (exec_step b) s s1 ∧ block_end b d s1.
Proof.
  induction fuel as [|fuel IH]; intros o d d' s s1 Hb Ho Hpc Hd Ht Hrun.
  { simpl in Hd. injection Hd as <-. simpl in Hrun. injection Hrun as <-. by split; [apply rtc_refl|]. }
  destruct (Z.lt_ge_cases o (zlen (bl_bytes b))) as [Hlt|Hge].
  2: { rewrite drop_ge in Hd by (unfold zlen in Hge; lia). simpl in Hd. injection Hd as <-. simpl in Hrun.
       injection Hrun as <-. by split; [apply rtc_refl|]. }
  destruct (decode_loop_cons b fuel o d Hb (conj Ho Hlt) Hd) as (Hf & Hv & Hcases).
  set (i := x86_decode (drop (Z.to_nat o) (bl_bytes b)) (bl_rip b + o)) in *.
  assert (Hip : ins_ip i = bl_rip b + o) by apply decode_ip.
  destruct Hcases as [[Hs ->]|[(Hs & flow & Hflow & ->)|(Hs & Hflow & dr & Hdr & ->)]]; simpl in Ht, Hrun.
  - unfold ends_block in Hrun. rewrite Ht, Hip in Hrun. simpl in Hrun. rewrite Z.eqb_refl in Hrun. injection Hrun as <-.
    split; [apply rtc_refl|]. unfold block_end. simpl. rewrite Hpc. split; [done|]. by exists i.
  - unfold ends_block in Hrun. rewrite Ht, Hip in Hrun. simpl in Hrun. rewrite Z.eqb_refl in Hrun. injection Hrun as <-.
    split; [apply rtc_refl|]. unfold block_end. simpl. rewrite Hpc. split; [done|]. by exists i.
  - destruct (slice_decode b o Hb (conj Ho Hlt) Hv) as (Hl & Hle & _). fold i in Hl, Hle.
    assert (Hend : ends_block d' (ins_ip i) = false).
    { pose proof (terminator_after b fuel (o + ins_len i) dr Hb ltac:(lia) Hdr) as Ha. unfold ends_block. rewrite Ht, Hip.
      destruct (db_terminator dr); simpl in Ha; try done; apply Z.eqb_neq; specialize (Ha _ eq_refl); lia. }
    rewrite Hend, Hip in Hrun. apply bind_Ok_inv in Hrun as ([] & s2 & Hrun & Hrest).
    apply (simple_runs b o s s2 Hb (conj Ho Hlt) Hv) in Hrun as (s3 & Hi & ->).
    assert (Hstep : exec_step b s (at_rip (wadd (bl_rip b + o) (ins_len i)) s3)).
    { rewrite <- Hpc. by apply step_simple; rewrite ?Hpc. }
    destruct Hb as [Hb1 Hb2]. apply (IH (o + ins_len i) dr d') in Hrest; [|done|lia| |done|done].
    + destruct Hrest as [Hsteps He]. split; [by eapply rtc_l|]. unfold block_end in *. simpl. destruct (db_terminator dr); try done.
      destruct He as (E & j & ? & ? & ? & Hlast). split; [done|]. exists j. split_and!; try done.
      destruct (db_instructions dr); [done|]. by rewrite last_cons_cons.
    + unfold pc, at_rip. simpl. fold i. rewrite wadd_exact by lia. lia.
Qed.

(** ** Blocks and jumps *)
Lemma flow_steps b d s s1 target :
  block_wf b → block_end b d s → (∀ site, db_terminator d ≠ TermSyscall site) →
  control_flow_target b d s = (Ok (Some target), s1) → exec_step b s (at_rip target s1).
Proof.
  intros Hb He Hns. unfold control_flow_target. unfold block_end in He.
  destruct (db_terminator d) as [site|rip flow|rip|] eqn:Et; try done.
  destruct He as (-> & i & Hf & Hs & Hflow & Hlast). rewrite Hlast. simpl.
  unfold fetch in Hf. destruct (block_offset b (pc s)) as [o| |] eqn:Eo; [|done|done].
  destruct (block_offset_Ok _ _ _ Hb Eo) as [Hpc Ho]. cbn [obind] in Hf. rewrite Hpc in Hf.
  destruct (ins_is_invalid _) eqn:Ev; [done|]. injection Hf as Hi.
  destruct (slice_decode b o Hb Ho Ev) as (_ & _ & bytes & Hsl & Hdec). rewrite Hi in Hsl, Hdec.
  assert (Hip : ins_ip i = pc s) by (rewrite <- Hi, Hpc; apply decode_ip). rewrite Hip.
  intros (o' & t1 & [Ho' ->]%lift_Ok_inv & H)%bind_Ok_inv. rewrite Eo in Ho'. injection Ho' as <-.
  apply bind_Ok_inv in H as (bs & t2 & [Hbs ->]%lift_Ok_inv & H). rewrite Hsl in Hbs. injection Hbs as <-.
  rewrite Hpc, Hdec, <- Hpc in H. eapply step_flow; [|done|done|done].
  unfold fetch. rewrite Eo. cbn [obind]. rewrite Hpc. by rewrite Ev, Hi.
Qed.

Lemma blocks_step b steps : ∀ s trap s',
  block_wf b → execute_blocks steps b (pc s) s = (Ok trap, s') →
  rtc (exec_step b) s s' ∧ x_registers s' = tr_registers trap ∧ ss_rip (tr_site trap) = pc s' ∧
  ∃ i, fetch b (pc s') = Ok i ∧ ins_is_syscall i = true ∧ ss_next_rip (tr_site trap) = wadd (pc s') (ins_len i).
Proof.
  induction steps as [|steps IH]; intros s trap s' Hb H; [done|]. simpl in H.
  apply bind_Ok_inv in H as (block & t1 & [Hblock ->]%lift_Ok_inv & H).
  unfold block_from_rip in Hblock. destruct (block_offset b (pc s)) as [o| |] eqn:Eo; [|done|done]. injection Hblock as <-.
  destruct (block_offset_Ok _ _ _ Hb Eo) as [Hpc Ho].
  apply bind_Ok_inv in H as (d & t2 & [Hd ->]%lift_Ok_inv & H). unfold decode in Hd. simpl in Hd.
  destruct (decode_loop _ _ _ _) as [d0| |] eqn:Edec; [|done|done]. injection Hd as ->.
  apply bind_Ok_inv in H as ([] & s1 & Hbody & H). rewrite Hpc in Edec.
  destruct (body_steps b _ o d d s s1 Hb (proj1 Ho) Hpc Edec eq_refl Hbody) as [Hsteps Hend].
  unfold syscall_site in H. destruct (db_terminator d) as [site|rip flow|rip|] eqn:Et.
  - apply bind_Ok_inv in H as ([] & s2 & Hw & H). injection Hw as <-. injection H as <- <-. simpl.
    unfold block_end in Hend. rewrite Et in Hend. destruct Hend as [Hrip Hsys].
    assert (Hsame : set_registers (set_rip (ss_rip site) (x_registers s1)) s1 = s1).
    { rewrite Hrip. unfold pc. destruct s1 as [[] ? ?]. done. }
    rewrite Hsame. done.
  - apply bind_Ok_inv in H as (target & s2 & Hflow & H). destruct target as [target|]; [|done].
    apply bind_Ok_inv in H as ([] & s3 & Hw & H). injection Hw as <-.
    assert (Hstep : exec_step b s1 (at_rip target s2)) by (eapply flow_steps; [done|done|by rewrite Et|done]).
    apply (IH (at_rip target s2)) in H as (Hrest & ?); [|done]. split; [|done].
    etrans; [done|]. by eapply rtc_l.
  - unfold block_end in Hend. by rewrite Et in Hend.
  - exfalso. apply bind_Ok_inv in H as (target & s2 & Hflow & H). unfold control_flow_target in Hflow. rewrite Et in Hflow.
    injection Hflow as <- <-. done.
Qed.
End blocks.
