(* ===== verification/JitPatch.v ===== *)
(** * mcr-jit: patches of guest code

    native_patch.rs as it is built for the Windows host: the sites where a system call or an
    access through the FS segment must be replaced before guest code runs natively, what is
    written there, the metadata kept about patched code ([NativePatchCache]), its keys (FNV
    hashes of the code) and its encoding in the persistent cache.  The directory of that cache
    and its files are not modelled: the codec works on the bytes of a file.

    A [BTreeMap] is a [gmap], encoded in the order of its keys. *)

From S2P Require Import Prelude Bytes ElfParser ElfImage JitRegisters JitDecoder.
From stdpp Require Import base gmap list strings.
From Stdlib Require Import ZArith Lia.
Open Scope Z_scope.

Record ExecutableSyscallPatch : Type := { esp_address : Z }.

(** [original] has 9 bytes. *)
Record FsRelativePatch : Type := { fp_original : list Z }.

Record FsRelativePatchSite : Type := {
  fps_address : Z;
  fps_patch : FsRelativePatch;
  fps_materialized : bool;
}.

(** [original] has 15 bytes, of which the first [len] count. *)
Record FsRelativeTrap : Type := { ft_original : list Z; ft_len : Z }.

Record FsRelativeTrapSite : Type := { fts_address : Z; fts_trap : FsRelativeTrap }.

#[export] Instance FsRelativePatch_eq_dec : EqDecision FsRelativePatch.
Proof. solve_decision. Defined.
#[export] Instance FsRelativeTrap_eq_dec : EqDecision FsRelativeTrap.
Proof. solve_decision. Defined.

Definition trap_new (bytes : list Z) : option FsRelativeTrap :=
  if (zlen bytes =? 0) || (15 <? zlen bytes) then None
  else Some {| ft_original := splice (zero_vec 15) 0 bytes; ft_len := zlen bytes |}.

(** The slice of the array panics past its end. *)
Definition original_bytes (t : FsRelativeTrap) : outcome (list Z) unit :=
  expect (slice (ft_original t) 0 (ft_len t)).

Record ExecutableNativePatches : Type := {
  ep_scanned_ranges : list (Z * Z);
  ep_syscall_patches : list ExecutableSyscallPatch;
  ep_fs_relative_patches : list FsRelativePatchSite;
  ep_fs_relative_traps : list FsRelativeTrapSite;
}.

Inductive FsRelativePatchWork : Type := WorkNone | WorkNew | WorkAll.

Record NativeImagePatchKey : Type := { nk_hash : Z; nk_executable_len : Z }.
#[export] Instance NativeImagePatchKey_eq_dec : EqDecision NativeImagePatchKey.
Proof. solve_decision. Defined.

Record NativePatchMetadata : Type := {
  md_scanned_ranges : list (Z * Z);
  md_syscall_patches : list ExecutableSyscallPatch;
  md_fs_relative_patches : gmap Z FsRelativePatch;
  md_fs_relative_traps : gmap Z FsRelativeTrap;
}.

Record NativeImagePatchRanges : Type := { nr_base : Z; nr_ranges : list (Z * Z) }.

Record NativePatchProtection : Type := { np_read : bool; np_write : bool; np_execute : bool }.

Record NativePatchCache : Type := {
  pc_fs_base : Z;
  pc_scanned_ranges : list (Z * Z);
  pc_executable_write_generation : Z;
  pc_image_metadata_checked : bool;
  pc_image_metadata_eligible : bool;
  pc_fs_relative_patches : gmap Z FsRelativePatch;
  pc_fs_relative_traps : gmap Z FsRelativeTrap;
}.

(** ** Ranges *)
Definition range_is_covered (start end_ : Z) (ranges : list (Z * Z)) : bool :=
  existsb (λ '(range_start, range_end), (range_start <=? start) && (end_ <=? range_end)) ranges.

Definition address_in_ranges (address : Z) (ranges : list (Z * Z)) : bool :=
  existsb (λ '(start, end_), (start <=? address) && (address <? end_)) ranges.

Definition ranges_overlap (left_start left_end right_start right_end : Z) : bool :=
  (left_start <? right_end) && (right_start <? left_end).

(** ** The cache of a process *)
Definition native_patch_cache_default : NativePatchCache := {|
  pc_fs_base := 0; pc_scanned_ranges := []; pc_executable_write_generation := 0;
  pc_image_metadata_checked := false; pc_image_metadata_eligible := true;
  pc_fs_relative_patches := ∅; pc_fs_relative_traps := ∅
|}.

Definition invalidate (c : NativePatchCache) : NativePatchCache := {|
  pc_fs_base := pc_fs_base c; pc_scanned_ranges := [];
  pc_executable_write_generation := pc_executable_write_generation c;
  pc_image_metadata_checked := pc_image_metadata_checked c;
  pc_image_metadata_eligible := false;
  pc_fs_relative_patches := ∅; pc_fs_relative_traps := ∅
|}.

Definition invalidate_range (start end_ : Z) (c : NativePatchCache) : NativePatchCache :=
  if negb (existsb (λ '(s, e), ranges_overlap start end_ s e) (pc_scanned_ranges c)) then c else {|
    pc_fs_base := pc_fs_base c;
    pc_scanned_ranges :=
      filter (λ r, negb (ranges_overlap start end_ r.1 r.2) = true) (pc_scanned_ranges c);
    pc_executable_write_generation := pc_executable_write_generation c;
    pc_image_metadata_checked := pc_image_metadata_checked c;
    pc_image_metadata_eligible := false;
    pc_fs_relative_patches := filter (λ p, ¬ (start ≤ p.1 ∧ p.1 < end_)) (pc_fs_relative_patches c);
    pc_fs_relative_traps := filter (λ p, ¬ (start ≤ p.1 ∧ p.1 < end_)) (pc_fs_relative_traps c)
  |}.

(** [entry(address)] for each binding: the entries already there are kept. *)
Definition insert_vacant {V} (m : gmap Z V) (p : Z * V) : gmap Z V :=
  match m !! p.1 with Some _ => m | None => <[p.1 := p.2]> m end.

Definition merge_metadata (metadata : NativePatchMetadata) (c : NativePatchCache) : bool * NativePatchCache :=
  let added := existsb (λ p, bool_decide (pc_fs_relative_patches c !! p.1 = None))
                 (bt_iter (md_fs_relative_patches metadata)) in
  (added, {|
    pc_fs_base := pc_fs_base c;
    pc_scanned_ranges :=
      foldl (λ ranges '(start, end_),
               if range_is_covered start end_ ranges then ranges else ranges ++ [(start, end_)])
        (pc_scanned_ranges c) (md_scanned_ranges metadata);
    pc_executable_write_generation := pc_executable_write_generation c;
    pc_image_metadata_checked := pc_image_metadata_checked c;
    pc_image_metadata_eligible := pc_image_metadata_eligible c;
    pc_fs_relative_patches :=
      foldl insert_vacant (pc_fs_relative_patches c) (bt_iter (md_fs_relative_patches metadata));
    pc_fs_relative_traps :=
      foldl insert_vacant (pc_fs_relative_traps c) (bt_iter (md_fs_relative_traps metadata))
  |}).

(** ** Keys *)
Definition FNV64_OFFSET : Z := 0xcbf29ce484222325.
Definition FNV64_PRIME : Z := 0x100000001b3.

Definition hash_u8 (hash value : Z) : Z := wrap64 (Z.lxor hash value * FNV64_PRIME).
Definition hash_bytes (hash : Z) (bytes : list Z) : Z := foldl hash_u8 hash bytes.
Definition hash_u64 (hash value : Z) : Z := hash_bytes hash (le_bytes 8 value).

Definition hash_range (hash start end_ : Z) (read write execute : bool) (bytes : list Z) : Z :=
  let hash := hash_u64 hash start in
  let hash := hash_u64 hash end_ in
  let hash := hash_u8 hash (Z.b2z read) in
  let hash := hash_u8 hash (Z.b2z write) in
  let hash := hash_u8 hash (Z.b2z execute) in
  hash_bytes hash bytes.

(** One turn of the loop over the executable areas; the [None] of the code is [Err tt]. *)
Definition hash_vma (image : GuestMemoryImage) (base : Z) (acc : Z * Z * list (Z * Z)) (vma : GuestVma)
    : outcome (Z * Z * list (Z * Z)) unit :=
  let '(hash, executable_len, ranges) := acc in
  let? len := ok_or (checked_sub64 (iv_end vma) (iv_start vma)) tt in
  let? bytes := image_read image (iv_start vma) len in
  let? start := ok_or (checked_sub64 (iv_start vma) base) tt in
  let? end_ := ok_or (checked_sub64 (iv_end vma) base) tt in
  let permissions := iv_permissions vma in
  let hash := hash_range hash start end_ (sp_read permissions) (sp_write permissions)
                (sp_execute permissions) bytes in
  let? executable_len := ok_or (checked_add64 executable_len len) tt in
  Ok (hash, executable_len, ranges ++ [(iv_start vma, iv_end vma)]).

Definition native_image_patch_key_and_ranges (image : GuestMemoryImage)
    : outcome (NativeImagePatchKey * NativeImagePatchRanges) unit :=
  let executable_vmas := filter (λ vma, sp_execute (iv_permissions vma) = true) (im_vmas image) in
  match executable_vmas with
  | [] => Err tt
  | first :: _ =>
      let base := iv_start first in
      let? (hash, executable_len, ranges) :=
        try_fold (hash_vma image base) (FNV64_OFFSET, 0, []) executable_vmas in
      if executable_len =? 0 then Err tt else
      Ok ({| nk_hash := hash; nk_executable_len := executable_len |},
          {| nr_base := base; nr_ranges := ranges |})
  end.

Definition native_executable_range_patch_key_from_bytes (len : Z) (protection : NativePatchProtection)
    (bytes : list Z) : NativeImagePatchKey := {|
  nk_hash := hash_range FNV64_OFFSET 0 len (np_read protection) (np_write protection)
               (np_execute protection) bytes;
  nk_executable_len := len
|}.

(** ** The persistent form *)
Definition NATIVE_PATCH_CACHE_MAGIC : list Z := [77; 67; 82; 78; 80; 67; 48; 49].
Definition NATIVE_PATCH_CACHE_VERSION : Z := 3.

Inductive CacheError : Type :=
| UnsupportedCacheVersion
| CacheKeyMismatch
| FsTrapLengthOverflow
| InvalidFsTrapLength
| AddressPrecedesBase
| AddressOverflowsBase
| InvalidCacheMagic
| CacheOffsetOverflow
| TruncatedCache
| TrailingCacheBytes.

Definition cache_relative_offset (address base : Z) : outcome Z CacheError :=
  ok_or (checked_sub64 address base) AddressPrecedesBase.

Definition cache_absolute_address (offset base : Z) : outcome Z CacheError :=
  ok_or (checked_add64 base offset) AddressOverflowsBase.

Definition push_cache_u32 (value : Z) : list Z := le_bytes 4 value.
Definition push_cache_u64 (value : Z) : list Z := le_bytes 8 value.

(** The bytes one element of each list is written as. *)
Definition encode_offset (address base : Z) : outcome (list Z) CacheError :=
  let? offset := cache_relative_offset address base in Ok (push_cache_u64 offset).

Definition encode_range (base : Z) (range : Z * Z) : outcome (list Z) CacheError :=
  let? start := encode_offset range.1 base in
  let? end_ := encode_offset range.2 base in
  Ok (start ++ end_).

Definition encode_syscall_patch (base : Z) (patch : ExecutableSyscallPatch) : outcome (list Z) CacheError :=
  encode_offset (esp_address patch) base.

Definition encode_fs_patch (base : Z) (entry : Z * FsRelativePatch) : outcome (list Z) CacheError :=
  let? offset := encode_offset entry.1 base in Ok (offset ++ fp_original entry.2).

Definition encode_fs_trap (base : Z) (entry : Z * FsRelativeTrap) : outcome (list Z) CacheError :=
  let? offset := encode_offset entry.1 base in
  Ok (offset ++ push_cache_u32 (ft_len entry.2) ++ ft_original entry.2).

(** A count, truncated to 32 bits, and the elements. *)
Definition encode_list {A} (f : A → outcome (list Z) CacheError) (l : list A) : outcome (list Z) CacheError :=
  let? parts := collect f l in Ok (push_cache_u32 (zlen l) ++ concat parts).

Definition encode_native_patch_metadata (key : NativeImagePatchKey) (metadata : NativePatchMetadata)
    (base : Z) : outcome (list Z) CacheError :=
  let header := NATIVE_PATCH_CACHE_MAGIC ++ push_cache_u32 NATIVE_PATCH_CACHE_VERSION ++
                push_cache_u64 (nk_hash key) ++ push_cache_u64 (nk_executable_len key) in
  let? ranges := encode_list (encode_range base) (md_scanned_ranges metadata) in
  let? syscalls := encode_list (encode_syscall_patch base) (md_syscall_patches metadata) in
  let? patches := encode_list (encode_fs_patch base) (bt_iter (md_fs_relative_patches metadata)) in
  let? traps := encode_list (encode_fs_trap base) (bt_iter (md_fs_relative_traps metadata)) in
  Ok (header ++ ranges ++ syscalls ++ patches ++ traps).

Record NativePatchMetadataReader : Type := { rd_bytes : list Z; rd_offset : Z }.
Definition ReadM : Type → Type := ST NativePatchMetadataReader CacheError.

Definition reader_new (bytes : list Z) : NativePatchMetadataReader :=
  {| rd_bytes := bytes; rd_offset := 0 |}.

Definition reader_read_slice (len : Z) : ReadM (list Z) :=
  let* reader := gets (λ r, r) in
  let* end_ := lift (ok_or (checked_add64 (rd_offset reader) len) CacheOffsetOverflow) in
  let* bytes := lift (ok_or (slice (rd_bytes reader) (rd_offset reader) end_) TruncatedCache) in
  do* modify (λ r, {| rd_bytes := rd_bytes r; rd_offset := end_ |});
  ret bytes.

Definition reader_read_array (len : Z) : ReadM (list Z) :=
  let* bytes := reader_read_slice len in
  lift (expect (if zlen bytes =? len then Some bytes else None)).

Definition reader_read_u32 : ReadM Z := let* bytes := reader_read_array 4 in ret (le_value bytes).
Definition reader_read_u64 : ReadM Z := let* bytes := reader_read_array 8 in ret (le_value bytes).

Definition reader_expect_magic (magic : list Z) : ReadM unit :=
  let* bytes := reader_read_slice (zlen magic) in
  lift (guard_ok (bool_decide (bytes = magic)) InvalidCacheMagic).

Definition reader_expect_eof : ReadM unit :=
  let* reader := gets (λ r, r) in
  lift (guard_ok (rd_offset reader =? zlen (rd_bytes reader)) TrailingCacheBytes).

(** [for _ in 0..count]. *)
Fixpoint read_times {A} (n : nat) (read : ReadM A) : ReadM (list A) :=
  match n with
  | O => ret []
  | S n => let* x := read in let* l := read_times n read in ret (x :: l)
  end.

Definition read_list {A} (read : ReadM A) : ReadM (list A) :=
  let* count := reader_read_u32 in read_times (Z.to_nat count) read.

Definition read_address (base : Z) : ReadM Z :=
  let* offset := reader_read_u64 in lift (cache_absolute_address offset base).

Definition decode_range (base : Z) : ReadM (Z * Z) :=
  let* start := read_address base in
  let* end_ := read_address base in
  ret (start, end_).

Definition decode_syscall_patch (base : Z) : ReadM ExecutableSyscallPatch :=
  let* address := read_address base in ret {| esp_address := address |}.

Definition decode_fs_patch (base : Z) : ReadM (Z * FsRelativePatch) :=
  let* address := read_address base in
  let* original := reader_read_array 9 in
  ret (address, {| fp_original := original |}).

Definition decode_fs_trap (base : Z) : ReadM (Z * FsRelativeTrap) :=
  let* address := read_address base in
  let* len := reader_read_u32 in
  let* original := reader_read_array 15 in
  do* lift (guard_ok (len <? 256) FsTrapLengthOverflow);
  do* lift (guard_ok (negb ((len =? 0) || (zlen original <? len))) InvalidFsTrapLength);
  ret (address, {| ft_original := original; ft_len := len |}).

(** Inserting one binding after the other. *)
Definition bt_collect {V} (l : list (Z * V)) : gmap Z V := foldl (λ m p, <[p.1 := p.2]> m) ∅ l.

Definition decode_metadata (key : NativeImagePatchKey) (base : Z) : ReadM NativePatchMetadata :=
  do* reader_expect_magic NATIVE_PATCH_CACHE_MAGIC;
  let* version := reader_read_u32 in
  do* lift (guard_ok (version =? NATIVE_PATCH_CACHE_VERSION) UnsupportedCacheVersion);
  let* hash := reader_read_u64 in
  let* executable_len := reader_read_u64 in
  let stored_key := {| nk_hash := hash; nk_executable_len := executable_len |} in
  do* lift (guard_ok (bool_decide (stored_key = key)) CacheKeyMismatch);
  let* scanned_ranges := read_list (decode_range base) in
  let* syscall_patches := read_list (decode_syscall_patch base) in
  let* fs_relative_patches := read_list (decode_fs_patch base) in
  let* fs_relative_traps := read_list (decode_fs_trap base) in
  do* reader_expect_eof;
  ret {| md_scanned_ranges := scanned_ranges; md_syscall_patches := syscall_patches;
         md_fs_relative_patches := bt_collect fs_relative_patches;
         md_fs_relative_traps := bt_collect fs_relative_traps |}.

Definition decode_native_patch_metadata (key : NativeImagePatchKey) (bytes : list Z) (base : Z)
    : outcome NativePatchMetadata CacheError :=
  (decode_metadata key base (reader_new bytes)).1.

(** ** Metadata of parts of the code and at other addresses *)
Definition native_patch_metadata_from_patches (patches : ExecutableNativePatches) : NativePatchMetadata := {|
  md_scanned_ranges := ep_scanned_ranges patches;
  md_syscall_patches := ep_syscall_patches patches;
  md_fs_relative_patches :=
    bt_collect (map (λ site, (fps_address site, fps_patch site)) (ep_fs_relative_patches patches));
  md_fs_relative_traps :=
    bt_collect (map (λ site, (fts_address site, fts_trap site)) (ep_fs_relative_traps patches))
|}.

Definition merge_executable_native_patches (target range : ExecutableNativePatches)
    : ExecutableNativePatches := {|
  ep_scanned_ranges := ep_scanned_ranges target ++ ep_scanned_ranges range;
  ep_syscall_patches := ep_syscall_patches target ++ ep_syscall_patches range;
  ep_fs_relative_patches := ep_fs_relative_patches target ++ ep_fs_relative_patches range;
  ep_fs_relative_traps := ep_fs_relative_traps target ++ ep_fs_relative_traps range
|}.

Definition metadata_for_ranges (metadata : NativePatchMetadata) (ranges : list (Z * Z))
    : NativePatchMetadata := {|
  md_scanned_ranges :=
    filter (λ r, range_is_covered r.1 r.2 ranges = true) (md_scanned_ranges metadata);
  md_syscall_patches :=
    filter (λ p, address_in_ranges (esp_address p) ranges = true) (md_syscall_patches metadata);
  md_fs_relative_patches :=
    filter (λ p, address_in_ranges p.1 ranges = true) (md_fs_relative_patches metadata);
  md_fs_relative_traps :=
    filter (λ p, address_in_ranges p.1 ranges = true) (md_fs_relative_traps metadata)
|}.

Definition rebase_native_patch_address (address source_base target_base : Z) : option Z :=
  match checked_sub64 address source_base with
  | Some offset => checked_add64 target_base offset
  | None => None
  end.

Definition rebase_range (source_base target_base : Z) (range : Z * Z) : option (Z * Z) :=
  match rebase_native_patch_address range.1 source_base target_base,
        rebase_native_patch_address range.2 source_base target_base with
  | Some start, Some end_ => Some (start, end_)
  | _, _ => None
  end.

Definition rebase_entry {V} (source_base target_base : Z) (entry : Z * V) : option (Z * V) :=
  match rebase_native_patch_address entry.1 source_base target_base with
  | Some address => Some (address, entry.2)
  | None => None
  end.

Definition rebase_syscall_patch (source_base target_base : Z) (patch : ExecutableSyscallPatch)
    : option ExecutableSyscallPatch :=
  match rebase_native_patch_address (esp_address patch) source_base target_base with
  | Some address => Some {| esp_address := address |}
  | None => None
  end.

Definition rebase_native_patch_metadata (metadata : NativePatchMetadata) (source_base target_base : Z)
    : option NativePatchMetadata :=
  match mapM (rebase_range source_base target_base) (md_scanned_ranges metadata),
        mapM (rebase_syscall_patch source_base target_base) (md_syscall_patches metadata),
        mapM (rebase_entry source_base target_base) (bt_iter (md_fs_relative_patches metadata)),
        mapM (rebase_entry source_base target_base) (bt_iter (md_fs_relative_traps metadata)) with
  | Some scanned_ranges, Some syscall_patches, Some patches, Some traps =>
      Some {| md_scanned_ranges := scanned_ranges; md_syscall_patches := syscall_patches;
              md_fs_relative_patches := bt_collect patches; md_fs_relative_traps := bt_collect traps |}
  | _, _, _, _ => None
  end.

(** ** What is written *)
Definition executable_syscall_patch_writes (patches : list ExecutableSyscallPatch) : list (Z * list Z) :=
  map (λ patch, (esp_address patch, [0xcc; 0x90])) patches.

Definition fs_relative_patch_work (cached_fs_base fs_base cached_patch_count
    new_unmaterialized_patch_count new_materialized_patch_count : Z) : FsRelativePatchWork :=
  if negb (cached_fs_base =? fs_base) then
    if negb (fs_base =? 0) || (0 <? cached_patch_count) || (0 <? new_materialized_patch_count)
    then WorkAll else WorkNone
  else if negb (fs_base =? 0) && (0 <? new_unmaterialized_patch_count) then WorkNew else WorkNone.

(** [bytes] starts with a [mov]/[sub] of a register with [fs:[disp32]]. *)
Definition fs_relative_original (bytes : list Z) : option (list Z) :=
  match bytes with
  | b0 :: b1 :: b2 :: b3 :: b4 :: _ =>
      if (zlen bytes <? 9)
         || negb (b0 =? 0x64) || negb (Z.land b1 0xf8 =? 0x48)
         || negb ((b2 =? 0x8b) || (b2 =? 0x2b))
         || negb (Z.land b3 0xc7 =? 0x04) || negb (b4 =? 0x25)
      then None else Some (take 9 bytes)
  | _ => None
  end.

(** The same instruction after it was replaced, of which it computes the original; the
    subtraction of signed words may overflow. *)
Definition fs_relative_original_from_replacement (bytes : list Z) (fs_base : Z)
    : outcome (option (list Z)) unit :=
  match bytes with
  | b0 :: b1 :: b2 :: b3 :: b4 :: b5 :: b6 :: b7 :: b8 :: _ =>
      if (fs_base =? 0)
         || negb (Z.land b0 0xf8 =? 0x48)
         || negb ((b1 =? 0x8b) || (b1 =? 0x2b))
         || negb (Z.land b2 0xc7 =? 0x04) || negb (b3 =? 0x25) || negb (b8 =? 0x90)
      then Ok None
      else
        let absolute := le_value [b4; b5; b6; b7] in
        let displacement := absolute - as_i64 fs_base in
        if I64_MAX <? displacement then Panic
        else if (- 2 ^ 31 <=? displacement) && (displacement <=? I32_MAX)
        then Ok (Some ([0x64; b0; b1; b2; b3] ++ le_bytes 4 displacement))
        else Ok None
  | _ => Ok None
  end.

Definition fs_relative_replacement (original : list Z) (fs_base : Z) : option (list Z) :=
  if fs_base =? 0 then None else
  match original with
  | [_; o1; o2; o3; o4; o5; o6; o7; o8] =>
      let displacement := as_i32 (le_value [o5; o6; o7; o8]) in
      let absolute := if 0 <=? displacement then checked_add64 fs_base displacement
                      else checked_sub64 fs_base (- displacement) in
      match absolute with
      | Some absolute =>
          if I32_MAX <? absolute then None
          else Some ([o1; o2; o3; o4] ++ le_bytes 4 absolute ++ [0x90])
      | None => None
      end
  | _ => None
  end.

Definition fs_relative_patch_writes (fs_base : Z) (patches : list (Z * FsRelativePatch))
    : list (Z * list Z) :=
  map (λ '(address, patch),
         (address, default (fp_original patch) (fs_relative_replacement (fp_original patch) fs_base)))
    patches.

(** ** Finding the sites *)
Section scan.
Context {dec : X86Decoder}.

Definition fs_relative_instruction_bytes (bytes : list Z) : bool :=
  match bytes with
  | [] => false
  | _ => let i := x86_decode bytes 0 in
         negb (ins_is_invalid i) && bool_decide (ins_memory_segment i = RegFS)
  end.

Record FsRelativeSites : Type := {
  fr_patches : list FsRelativePatchSite;
  fr_traps : list FsRelativeTrapSite;
}.

Definition add_patch (s : FsRelativeSites) (site : FsRelativePatchSite) : FsRelativeSites :=
  {| fr_patches := fr_patches s ++ [site]; fr_traps := fr_traps s |}.

Definition add_trap (s : FsRelativeSites) (site : FsRelativeTrapSite) : FsRelativeSites :=
  {| fr_patches := fr_patches s; fr_traps := fr_traps s ++ [site] |}.

(** What one instruction adds; [all] are the bytes of the range. *)
Definition fs_relative_site (all : list Z) (range_start previous_fs_base : Z) (i : Instruction)
    (s : FsRelativeSites) : outcome FsRelativeSites unit :=
  if ins_is_invalid i then Ok s else
  match checked_sub64 (ins_ip i) range_start with
  | None => Ok s
  | Some offset =>
      let? here := expect (slice all offset (zlen all)) in
      let trap :=
        if bool_decide (ins_memory_segment i = RegFS) then
          match slice all offset (offset + ins_len i) with
          | Some original =>
              match trap_new original with
              | Some trap => add_trap s {| fts_address := ins_ip i; fts_trap := trap |}
              | None => s
              end
          | None => s
          end
        else s in
      match fs_relative_original here with
      | Some original =>
          Ok (add_patch s {| fps_address := ins_ip i; fps_patch := {| fp_original := original |};
                             fps_materialized := false |})
      | None =>
          if previous_fs_base =? 0 then Ok trap else
          let? found := fs_relative_original_from_replacement here previous_fs_base in
          match found with
          | Some original =>
              Ok (add_patch s {| fps_address := ins_ip i; fps_patch := {| fp_original := original |};
                                 fps_materialized := true |})
          | None => Ok trap
          end
      end
  end.

Fixpoint fs_sites_loop (fuel : nat) (all : list Z) (range_start previous_fs_base : Z)
    (bytes : list Z) (ip : Z) (s : FsRelativeSites) : outcome FsRelativeSites unit :=
  match fuel, bytes with
  | S fuel, _ :: _ =>
      let '(i, bytes, ip) := decode_next bytes ip in
      let? s := fs_relative_site all range_start previous_fs_base i s in
      fs_sites_loop fuel all range_start previous_fs_base bytes ip s
  | _, _ => Ok s
  end.

Definition fs_relative_sites (bytes : list Z) (range_start previous_fs_base : Z)
    : outcome FsRelativeSites unit :=
  fs_sites_loop (length bytes) bytes range_start previous_fs_base bytes range_start
    {| fr_patches := []; fr_traps := [] |}.

Definition fs_relative_patch_sites (bytes : list Z) (range_start previous_fs_base : Z)
    : outcome (list FsRelativePatchSite) unit :=
  let? s := fs_relative_sites bytes range_start previous_fs_base in Ok (fr_patches s).

Definition fs_relative_trap_sites (bytes : list Z) (range_start previous_fs_base : Z)
    : outcome (list FsRelativeTrapSite) unit :=
  let? s := fs_relative_sites bytes range_start previous_fs_base in Ok (fr_traps s).

Definition scan_executable_native_patch_range (start end_ : Z) (bytes : list Z) (previous_fs_base : Z)
    : outcome ExecutableNativePatches unit :=
  let syscall_patches :=
    map (λ site, {| esp_address := ss_rip site |}) (syscall_instruction_sites bytes start) in
  let? fs_sites := fs_relative_sites bytes start previous_fs_base in
  Ok {| ep_scanned_ranges := [(start, end_)];
        ep_syscall_patches := syscall_patches;
        ep_fs_relative_patches := fr_patches fs_sites;
        ep_fs_relative_traps := fr_traps fs_sites |}.
End scan.
