(* ===== verification/JitCodec.v ===== *)
(** * mcr-jit: the persistent form of patch metadata, read back

    [reads m enc o]: wherever the bytes [enc] stand in a cache, the reader [m] before them
    answers [o], and consumes exactly them when that is a value.  Encoders and decoders are
    related element by element; the theorem that puts them together is in [JitTheorems]. *)

From S2P Require Import Prelude Bytes ElfParser ElfImage JitRegisters JitDecoder JitFlags JitPatch.
From stdpp Require Import base gmap list strings.
From Stdlib Require Import ZArith Lia.
Open Scope Z_scope.

Definition reads {A} (m : ReadM A) (enc : list Z) (o : outcome A CacheError) : Prop :=
  ∀ pre post, zlen (pre ++ enc ++ post) < 2 ^ 64 →
  let r n := {| rd_bytes := pre ++ enc ++ post; rd_offset := n |} in
  match o with
  | Ok a => m (r (zlen pre)) = (Ok a, r (zlen pre + zlen enc))
  | Err e => (m (r (zlen pre))).1 = Err e
  | Panic => False
  end.

#[local] Arguments push_cache_u32 : simpl never.
#[local] Arguments push_cache_u64 : simpl never.

(** ** The reader's operations *)
Section reads.
Context {A B : Type}.

Lemma reads_ret (a : A) : reads (ret a) [] (Ok a).
Proof. intros pre post _. unfold ret. by rewrite Z.add_0_r. Qed.

Lemma reads_bind (m : ReadM A) (k : A → ReadM B) e1 e2 a o :
  reads m e1 (Ok a) → reads (k a) e2 o → reads (bind m k) (e1 ++ e2) o.
Proof.
  intros Hm Hk pre post Hlen. specialize (Hm pre (e2 ++ post)). specialize (Hk (pre ++ e1) post).
  rewrite <- !app_assoc in *. specialize (Hm Hlen). specialize (Hk Hlen). simpl in *. unfold bind.
  rewrite Hm. rewrite !zlen_app in *. rewrite <- !Z.add_assoc in *. by destruct o.
Qed.

Lemma reads_bind_err (m : ReadM A) (k : A → ReadM B) e1 e2 e :
  reads m e1 (Err e) → reads (bind m k) (e1 ++ e2) (Err e).
Proof.
  intros Hm pre post Hlen. specialize (Hm pre (e2 ++ post)). rewrite <- !app_assoc in *.
  specialize (Hm Hlen). simpl in *. unfold bind. by destruct (m _) as [[] ?]; simplify_eq/=.
Qed.

(** The last step reads nothing. *)
Lemma reads_then (m : ReadM A) (k : A → ReadM B) e1 a o :
  reads m e1 (Ok a) → reads (k a) [] o → reads (bind m k) e1 o.
Proof. intros Hm Hk. rewrite <- (app_nil_r e1). by eapply reads_bind. Qed.

Lemma reads_lift (o : outcome A CacheError) : o ≠ Panic → reads (lift o) [] o.
Proof. intros Ho pre post _. unfold lift. rewrite Z.add_0_r. by destruct o. Qed.
End reads.

Lemma slice_middle (pre enc post : list Z) :
  slice (pre ++ enc ++ post) (zlen pre) (zlen pre + zlen enc) = Some enc.
Proof.
  unfold slice, zlen. rewrite !length_app.
  replace (_ && _ && _) with true by (symmetry; rewrite !andb_true_iff, !Z.leb_le; lia).
  rewrite drop_app_length' by lia. by rewrite take_app_length' by lia.
Qed.

Lemma reads_slice enc : reads (reader_read_slice (zlen enc)) enc (Ok enc).
Proof.
  intros pre post Hlen. unfold reader_read_slice, bind, gets, lift, modify, ret. simpl.
  rewrite !zlen_app in Hlen. pose proof (zlen_nonneg post).
  rewrite checked_add64_fit by lia. simpl. by rewrite slice_middle.
Qed.

Lemma reads_array n enc : zlen enc = n → reads (reader_read_array n) enc (Ok enc).
Proof.
  intros <-. unfold reader_read_array. eapply reads_then; [apply reads_slice|].
  rewrite Z.eqb_refl. simpl. by apply (reads_lift (Ok enc)).
Qed.

Lemma reads_u32 v : is_u32 v → reads reader_read_u32 (push_cache_u32 v) (Ok v).
Proof.
  intros Hv. unfold reader_read_u32. eapply reads_then.
  - apply reads_array. unfold zlen, push_cache_u32. by rewrite length_le_bytes.
  - unfold push_cache_u32. rewrite le_value_bytes, Z.mod_small; [apply reads_ret|]. unfold is_u32 in Hv. lia.
Qed.

Lemma reads_u64 v : is_u64 v → reads reader_read_u64 (push_cache_u64 v) (Ok v).
Proof.
  intros Hv. unfold reader_read_u64. eapply reads_then.
  - apply reads_array. unfold zlen, push_cache_u64. by rewrite length_le_bytes.
  - unfold push_cache_u64. rewrite le_value_bytes, Z.mod_small; [apply reads_ret|]. unfold is_u64 in Hv. lia.
Qed.

#[local] Opaque push_cache_u32 push_cache_u64.

(** ** One element *)
Section rebase.
Context (source_base target_base : Z) (Hbase : 0 ≤ source_base).

(** An element moved to the other base, or the one error decoding it can give. *)
Definition moved {A} (o : option A) : outcome A CacheError := ok_or o AddressOverflowsBase.

Lemma moved_no_panic {A} (o : option A) : moved o ≠ Panic.
Proof. by destruct o. Qed.

Lemma reads_address address enc : is_u64 address → encode_offset address source_base = Ok enc →
  reads (read_address target_base) enc (moved (rebase_native_patch_address address source_base target_base)).
Proof.
  intros Ha. unfold encode_offset, cache_relative_offset, rebase_native_patch_address.
  destruct (checked_sub64 _ _) as [offset|] eqn:E; simpl; [|done]. intros [= <-].
  apply checked_sub64_Some in E as [-> ?]. unfold read_address. unfold is_u64 in Ha.
  eapply reads_then; [apply reads_u64; unfold is_u64; lia|]. apply (reads_lift (cache_absolute_address _ _)).
  apply moved_no_panic.
Qed.

(** A reader that starts with an address. *)
Lemma reads_from_address {A} address enc rest (k : Z → ReadM A) (f : Z → A) :
  is_u64 address → encode_offset address source_base = Ok enc →
  (∀ a, reads (k a) rest (Ok (f a))) →
  reads (bind (read_address target_base) k) (enc ++ rest)
    (moved (f <$> rebase_native_patch_address address source_base target_base)).
Proof.
  intros Ha He Hk. pose proof (reads_address _ _ Ha He) as Hr.
  destruct (rebase_native_patch_address _ _ _) as [a|]; simpl in *.
  - by eapply reads_bind.
  - by eapply reads_bind_err.
Qed.

Lemma reads_range r enc : is_u64 r.1 → is_u64 r.2 → encode_range source_base r = Ok enc →
  reads (decode_range target_base) enc (moved (rebase_range source_base target_base r)).
Proof.
  intros H1 H2. unfold encode_range, rebase_range. destruct (encode_offset r.1 _) as [e1| |] eqn:E1; simpl; [|done..].
  destruct (encode_offset r.2 _) as [e2| |] eqn:E2; simpl; [|done..]. intros [= <-].
  pose proof (reads_address _ _ H1 E1) as R1. pose proof (reads_address _ _ H2 E2) as R2. unfold decode_range.
  destruct (rebase_native_patch_address r.1 _ _) as [a|]; simpl in *; [|by eapply reads_bind_err].
  eapply reads_bind; [exact R1|]. rewrite <- (app_nil_r e2).
  destruct (rebase_native_patch_address r.2 _ _) as [b|]; simpl in *; [|by eapply reads_bind_err].
  eapply reads_bind; [exact R2|apply reads_ret].
Qed.

Lemma reads_syscall_patch p enc : is_u64 (esp_address p) → encode_syscall_patch source_base p = Ok enc →
  reads (decode_syscall_patch target_base) enc (moved (rebase_syscall_patch source_base target_base p)).
Proof.
  intros Ha He. rewrite <- (app_nil_r enc).
  pose proof (reads_from_address _ enc [] (λ a, ret {| esp_address := a |}) (λ a, {| esp_address := a |}) Ha He) as R.
  unfold rebase_syscall_patch. destruct (rebase_native_patch_address _ _ _); apply R; intros a; apply reads_ret.
Qed.

Lemma reads_fs_patch p enc : is_u64 p.1 → zlen (fp_original p.2) = 9 → encode_fs_patch source_base p = Ok enc →
  reads (decode_fs_patch target_base) enc (moved (rebase_entry source_base target_base p)).
Proof.
  intros Ha Hl. unfold encode_fs_patch. destruct (encode_offset p.1 _) as [e1| |] eqn:E1; simpl; [|done..].
  intros [= <-]. unfold decode_fs_patch, rebase_entry.
  match goal with |- reads (bind _ ?k) _ _ =>
    assert (R : ∀ a, reads (k a) (fp_original p.2) (Ok (a, p.2))) end.
  { intros a. eapply reads_then; [by apply reads_array|]. destruct p as [? []]. apply reads_ret. }
  pose proof (reads_from_address _ _ _ _ (λ a, (a, p.2)) Ha E1 R) as R'.
  by destruct (rebase_native_patch_address _ _ _).
Qed.

Definition trap_ok (t : FsRelativeTrap) : Prop := zlen (ft_original t) = 15 ∧ 1 ≤ ft_len t ≤ 15.

Lemma reads_fs_trap p enc : is_u64 p.1 → trap_ok p.2 → encode_fs_trap source_base p = Ok enc →
  reads (decode_fs_trap target_base) enc (moved (rebase_entry source_base target_base p)).
Proof.
  intros Ha [Hl Hlen]. unfold encode_fs_trap. destruct (encode_offset p.1 _) as [e1| |] eqn:E1; simpl; [|done..].
  intros [= <-]. unfold decode_fs_trap, rebase_entry.
  match goal with |- reads (bind _ ?k) _ _ => assert (R : ∀ a, reads (k a)
    (push_cache_u32 (ft_len p.2) ++ ft_original p.2) (Ok (a, p.2))) end.
  { intros a. eapply reads_bind; [apply reads_u32; unfold is_u32; lia|].
    eapply reads_then; [by apply reads_array|]. rewrite Hl.
    replace (ft_len p.2 <? 256) with true by (symmetry; apply Z.ltb_lt; lia).
    replace (negb _) with true
      by (symmetry; apply negb_true_iff, orb_false_iff; split; [apply Z.eqb_neq|apply Z.ltb_ge]; lia).
    destruct p as [? []]. apply reads_ret. }
  pose proof (reads_from_address _ _ _ _ (λ a, (a, p.2)) Ha E1 R) as R'.
  by destruct (rebase_native_patch_address _ _ _).
Qed.

(** ** Lists *)
Context {A B : Type}.
Context (encode : A → outcome (list Z) CacheError) (read : ReadM B) (rebase : A → option B).

Lemma reads_times l parts :
  (∀ x enc, x ∈ l → encode x = Ok enc → reads read enc (moved (rebase x))) →
  collect encode l = Ok parts →
  reads (read_times (length l) read) (concat parts) (moved (mapM rebase l)).
Proof.
  revert parts. induction l as [|x l IH]; intros parts Hone; simpl.
  - intros [= <-]. apply reads_ret.
  - destruct (encode x) as [enc| |] eqn:Ex; simpl; [|done..].
    destruct (collect encode l) as [parts'| |]; simpl; [|done..]. intros [= <-]. simpl.
    pose proof (Hone x enc ltac:(left) Ex) as Rx. unfold moved in Rx |- *.
    destruct (rebase x) as [y|]; simpl in *; [|by eapply reads_bind_err].
    eapply reads_bind; [exact Rx|]. rewrite <- (app_nil_r (concat parts')).
    assert (Rl : reads (read_times (length l) read) (concat parts') (moved (mapM rebase l))).
    { apply IH; [|done]. intros. eapply Hone; [by right|done]. }
    unfold mbind, moved in *. destruct (mapM rebase l) as [ys|]; simpl in *; [|by eapply reads_bind_err].
    eapply reads_bind; [exact Rl|apply reads_ret].
Qed.

Lemma reads_list l enc :
  zlen l < 2 ^ 32 →
  (∀ x enc, x ∈ l → encode x = Ok enc → reads read enc (moved (rebase x))) →
  encode_list encode l = Ok enc → reads (read_list read) enc (moved (mapM rebase l)).
Proof.
  intros Hlen Hone. unfold encode_list. destruct (collect encode l) as [parts| |] eqn:E; cbn [obind]; [|done..].
  intros [= <-]. pose proof (zlen_nonneg l). unfold read_list.
  eapply reads_bind; [apply reads_u32; unfold is_u32; lia|].
  replace (Z.to_nat (zlen l)) with (length l) by (unfold zlen; lia). by apply reads_times.
Qed.
End rebase.

(** ** Collecting bindings *)
Lemma foldl_insert_lookup {V} (l : list (Z * V)) (m : gmap Z V) k v :
  NoDup (l.*1) →
  (foldl (λ m p, <[p.1 := p.2]> m) m l : gmap Z V) !! k = Some v ↔
  (k, v) ∈ l ∨ (k ∉ l.*1 ∧ m !! k = Some v).
Proof.
  revert m. induction l as [|[k' v'] l IH]; intros m Hnd.
  - simpl. split; [intros Hm; right; split; [set_solver|done]|intros [?|[_ ?]]; [set_solver|done]].
  - apply NoDup_cons in Hnd as [Hnin Hnd]. simpl. rewrite IH by done. rewrite lookup_insert_Some. split.
    + intros [?|(? & [[-> ->]|[? ?]])]; [by left; right|by left; left|].
      right. split; [|done]. intros [->|?]%elem_of_cons; done.
    + intros [[[= -> ->]|?]%elem_of_cons|(Hk & ?)]; [right; split; [done|by left]|by left|].
      rewrite not_elem_of_cons in Hk. destruct Hk. right. split; [done|right; done].
Qed.

Lemma bt_collect_iter {V} (m : gmap Z V) : bt_collect (bt_iter m) = m.
Proof.
  apply map_eq. intros k. apply option_eq. intros v. unfold bt_collect.
  rewrite foldl_insert_lookup by apply bt_iter_NoDup. rewrite elem_of_bt_iter, lookup_empty. naive_solver.
Qed.

(** ** Metadata *)
Record metadata_ok (md : NativePatchMetadata) : Prop := {
  mo_ranges : Forall (λ r, is_u64 r.1 ∧ is_u64 r.2) (md_scanned_ranges md);
  mo_syscalls : Forall (λ p, is_u64 (esp_address p)) (md_syscall_patches md);
  mo_patches : map_Forall (λ a p, is_u64 a ∧ zlen (fp_original p) = 9) (md_fs_relative_patches md);
  mo_traps : map_Forall (λ a t, is_u64 a ∧ trap_ok t) (md_fs_relative_traps md);
  mo_ranges_len : zlen (md_scanned_ranges md) < 2 ^ 32;
  mo_syscalls_len : zlen (md_syscall_patches md) < 2 ^ 32;
  mo_patches_len : zlen (bt_iter (md_fs_relative_patches md)) < 2 ^ 32;
  mo_traps_len : zlen (bt_iter (md_fs_relative_traps md)) < 2 ^ 32;
}.

Lemma Forall_bt_iter {V} (P : Z → V → Prop) (m : gmap Z V) p :
  map_Forall P m → p ∈ bt_iter m → P p.1 p.2.
Proof. destruct p as [k v]. intros Hm Hin%elem_of_bt_iter. by apply Hm. Qed.

(** What a reader answers when exactly [enc] is left. *)
Definition reads_end {A} (m : ReadM A) (enc : list Z) (o : outcome A CacheError) : Prop :=
  ∀ pre, zlen (pre ++ enc) < 2 ^ 64 →
  (m {| rd_bytes := pre ++ enc; rd_offset := zlen pre |}).1 = o.

Lemma reads_end_bind {A B} (m : ReadM A) (k : A → ReadM B) e1 e2 a o :
  reads m e1 (Ok a) → reads_end (k a) e2 o → reads_end (bind m k) (e1 ++ e2) o.
Proof.
  intros Hm Hk pre Hlen. specialize (Hm pre e2 Hlen). specialize (Hk (pre ++ e1)).
  rewrite <- !app_assoc in *. specialize (Hk Hlen). simpl in *. unfold bind. rewrite Hm.
  by rewrite !zlen_app in *.
Qed.

Lemma reads_end_bind_err {A B} (m : ReadM A) (k : A → ReadM B) e1 e2 e :
  reads m e1 (Err e) → reads_end (bind m k) (e1 ++ e2) (Err e).
Proof.
  intros Hm pre Hlen. specialize (Hm pre e2 Hlen). simpl in *. unfold bind.
  by destruct (m _) as [[] ?]; simplify_eq/=.
Qed.

(** A part that may move or not, and what comes after it. *)
Lemma reads_end_moved {A B} (m : ReadM A) (k : A → ReadM B) e1 e2 o f :
  reads m e1 (moved o) → (∀ a, o = Some a → reads_end (k a) e2 (moved (f a))) →
  reads_end (bind m k) (e1 ++ e2) (moved (mbind f o)).
Proof.
  intros Hm Hk. destruct o as [a|]; simpl in *; [|by apply reads_end_bind_err].
  eapply reads_end_bind; [done|]. by apply Hk.
Qed.

Lemma reads_magic : reads (reader_expect_magic NATIVE_PATCH_CACHE_MAGIC) NATIVE_PATCH_CACHE_MAGIC (Ok tt).
Proof.
  unfold reader_expect_magic. eapply reads_then; [apply reads_slice|]. rewrite bool_decide_eq_true_2 by done.
  by apply (reads_lift (Ok tt)).
Qed.

(** The header, and then what follows it when the keys agree. *)
Lemma decode_header key key' base body :
  is_u64 (nk_hash key) → is_u64 (nk_executable_len key) →
  let bytes := NATIVE_PATCH_CACHE_MAGIC ++ push_cache_u32 NATIVE_PATCH_CACHE_VERSION ++
               push_cache_u64 (nk_hash key) ++ push_cache_u64 (nk_executable_len key) ++ body in
  zlen bytes < 2 ^ 64 → ∀ o,
  (key = key' → reads_end
    (let* scanned_ranges := read_list (decode_range base) in
     let* syscall_patches := read_list (decode_syscall_patch base) in
     let* fs_relative_patches := read_list (decode_fs_patch base) in
     let* fs_relative_traps := read_list (decode_fs_trap base) in
     do* reader_expect_eof;
     ret {| md_scanned_ranges := scanned_ranges; md_syscall_patches := syscall_patches;
            md_fs_relative_patches := bt_collect fs_relative_patches;
            md_fs_relative_traps := bt_collect fs_relative_traps |}) body o) →
  decode_native_patch_metadata key' bytes base = if bool_decide (key = key') then o else Err CacheKeyMismatch.
Proof.
  intros Hh Hx bytes Hlen o Hbody.
  assert (R : reads_end (decode_metadata key' base) bytes
                (if bool_decide (key = key') then o else Err CacheKeyMismatch)); [|by apply (R [])].
  unfold decode_metadata, bytes. eapply reads_end_bind; [apply reads_magic|].
  eapply reads_end_bind; [by apply reads_u32|]. rewrite Z.eqb_refl. simpl.
  rewrite <- (app_nil_l (push_cache_u64 _ ++ _)). eapply reads_end_bind; [by apply (reads_lift (Ok tt))|].
  eapply reads_end_bind; [by apply reads_u64|]. eapply reads_end_bind; [by apply reads_u64|].
  destruct key as [h x]. cbn [nk_hash nk_executable_len].
  case_bool_decide as Hk; rewrite <- (app_nil_l body).
  - eapply reads_end_bind; [by apply (reads_lift (Ok tt))|]. by apply Hbody.
  - apply reads_end_bind_err. by apply (reads_lift (Err _)).
Qed.

Lemma decode_encoded key md source_base target_base bytes :
  is_u64 (nk_hash key) → is_u64 (nk_executable_len key) → 0 ≤ source_base → metadata_ok md →
  zlen bytes < 2 ^ 64 → encode_native_patch_metadata key md source_base = Ok bytes →
  ∀ key', decode_native_patch_metadata key' bytes target_base =
    if bool_decide (key = key')
    then moved (rebase_native_patch_metadata md source_base target_base)
    else Err CacheKeyMismatch.
Proof.
  intros Hh Hx Hb [Mr Ms Mp Mt Lr Ls Lp Lt] Hlen Henc key'. unfold encode_native_patch_metadata in Henc.
  destruct (encode_list (encode_range _) _) as [e1| |] eqn:E1; cbn [obind] in Henc; [|done..].
  destruct (encode_list (encode_syscall_patch _) _) as [e2| |] eqn:E2; cbn [obind] in Henc; [|done..].
  destruct (encode_list (encode_fs_patch _) _) as [e3| |] eqn:E3; cbn [obind] in Henc; [|done..].
  destruct (encode_list (encode_fs_trap _) _) as [e4| |] eqn:E4; cbn [obind] in Henc; [|done..].
  rewrite Forall_forall in Mr; rewrite Forall_forall in Ms.
  eapply (reads_list _ _ (rebase_range source_base target_base)) in E1; [|done|
    intros r enc Hr; apply reads_range; [done|by apply Mr..]].
  eapply (reads_list _ _ (rebase_syscall_patch source_base target_base)) in E2; [|done|
    intros r enc Hr; apply reads_syscall_patch; [done|by apply Ms]].
  eapply (reads_list _ _ (rebase_entry source_base target_base)) in E3; [|done|
    intros r enc Hr; apply reads_fs_patch; [done|by apply (Forall_bt_iter _ _ _ Mp Hr)..]].
  eapply (reads_list _ _ (rebase_entry source_base target_base)) in E4; [|done|
    intros r enc Hr; apply reads_fs_trap; [done|by apply (Forall_bt_iter _ _ _ Mt Hr)..]].
  injection Henc as <-. rewrite <- !app_assoc in *. apply decode_header; [done..|]. intros _. clear key' Hlen.
  replace (rebase_native_patch_metadata md source_base target_base) with
    (r ← mapM (rebase_range source_base target_base) (md_scanned_ranges md);
     s ← mapM (rebase_syscall_patch source_base target_base) (md_syscall_patches md);
     p ← mapM (rebase_entry source_base target_base) (bt_iter (md_fs_relative_patches md));
     t ← mapM (rebase_entry source_base target_base) (bt_iter (md_fs_relative_traps md));
     Some {| md_scanned_ranges := r; md_syscall_patches := s; md_fs_relative_patches := bt_collect p;
             md_fs_relative_traps := bt_collect t |})
    by (unfold rebase_native_patch_metadata; by repeat (destruct (mapM _ _); simpl)).
  do 3 (eapply reads_end_moved; [done|intros ? _]). rewrite <- (app_nil_r e4).
  eapply reads_end_moved; [done|intros t _]. intros pre _. rewrite app_nil_r. unfold reader_expect_eof, bind, gets, lift, ret.
  simpl. by rewrite Z.eqb_refl.
Qed.

(** At the base it was written for, the metadata reads back as it was. *)
Lemma mapM_id {A} (f : A → option A) l : (∀ x, x ∈ l → f x = Some x) → mapM f l = Some l.
Proof.
  induction l as [|x l IH]; intros Hf; [done|]. simpl. rewrite Hf by left. simpl.
  rewrite IH; [done|]. intros y Hy. apply Hf. by right.
Qed.

Lemma collect_each {A B E} (f : A → outcome B E) l l' x : collect f l = Ok l' → x ∈ l → ∃ y, f x = Ok y.
Proof.
  revert l'. induction l as [|z l IH]; intros l'; simpl; [set_solver|].
  destruct (f z) as [y| |] eqn:Ez; simpl; [|done..]. destruct (collect f l) as [ys| |]; simpl; [|done..].
  intros _ [->|Hx]%elem_of_cons; [eauto|by eapply IH].
Qed.

Lemma encode_offset_rebase address base enc :
  is_u64 address → encode_offset address base = Ok enc → rebase_native_patch_address address base base = Some address.
Proof.
  unfold encode_offset, cache_relative_offset, rebase_native_patch_address. intros Ha.
  destruct (checked_sub64 _ _) as [o|] eqn:E; [|done]. intros _. apply checked_sub64_Some in E as [-> ?].
  unfold is_u64 in Ha. rewrite checked_add64_fit by lia. f_equal. lia.
Qed.

Lemma rebase_same key md base bytes :
  metadata_ok md → encode_native_patch_metadata key md base = Ok bytes →
  rebase_native_patch_metadata md base base = Some md.
Proof.
  intros [Mr Ms Mp Mt _ _ _ _] Henc. unfold encode_native_patch_metadata, encode_list in Henc.
  destruct (collect (encode_range _) _) as [e1| |] eqn:E1; cbn [obind] in Henc; [|done..].
  destruct (collect (encode_syscall_patch _) _) as [e2| |] eqn:E2; cbn [obind] in Henc; [|done..].
  destruct (collect (encode_fs_patch _) _) as [e3| |] eqn:E3; cbn [obind] in Henc; [|done..].
  destruct (collect (encode_fs_trap _) _) as [e4| |] eqn:E4; cbn [obind] in Henc; [|done..]. clear Henc.
  rewrite Forall_forall in Mr; rewrite Forall_forall in Ms. unfold rebase_native_patch_metadata. rewrite !mapM_id.
  - rewrite !bt_collect_iter. by destruct md.
  - intros p Hp. destruct (collect_each _ _ _ _ E4 Hp) as [y Hy]. unfold encode_fs_trap, rebase_entry in *.
    destruct (encode_offset _ _) eqn:E; [|done..]. rewrite (encode_offset_rebase _ _ _ ltac:(by apply (Forall_bt_iter _ _ _ Mt Hp)) E).
    by destruct p.
  - intros p Hp. destruct (collect_each _ _ _ _ E3 Hp) as [y Hy]. unfold encode_fs_patch, rebase_entry in *.
    destruct (encode_offset _ _) eqn:E; [|done..]. rewrite (encode_offset_rebase _ _ _ ltac:(by apply (Forall_bt_iter _ _ _ Mp Hp)) E).
    by destruct p.
  - intros p Hp. destruct (collect_each _ _ _ _ E2 Hp) as [y Hy]. unfold encode_syscall_patch, rebase_syscall_patch in *.
    rewrite (encode_offset_rebase _ _ _ ltac:(by apply Ms) Hy). by destruct p.
  - intros p Hp. destruct (collect_each _ _ _ _ E1 Hp) as [y Hy]. unfold encode_range, rebase_range in *.
    destruct (encode_offset p.1 _) eqn:Ea; simpl in Hy; [|done..]. destruct (encode_offset p.2 _) eqn:Eb; simpl in Hy; [|done..].
    destruct (Mr p Hp) as [M1 M2].
    rewrite (encode_offset_rebase _ _ _ M1 Ea), (encode_offset_rebase _ _ _ M2 Eb). by destruct p.
Qed.

(** ** mcr-jit: a small decoder

    Five instructions, decoded as the assumptions on the decoder ask: it shows that they can
    hold, and serves to evaluate the model on concrete code. *)

Definition sample_instruction (ip len : Z) (invalid syscall : bool) (code : Code) (flow : FlowControl)
    (register : Register) (imm target : Z) : Instruction := {|
  ins_ip := ip; ins_len := len; ins_next_ip := wadd ip len;
  ins_is_invalid := invalid; ins_is_syscall := syscall; ins_code := code; ins_flow_control := flow;
  ins_op_kind := λ _, match flow with
                      | FlowUnconditionalBranch | FlowConditionalBranch => OpNearBranch64
                      | _ => OpRegister
                      end;
  ins_op_register := λ _, register;
  ins_immediate8 := 0; ins_immediate16 := 0; ins_immediate32 := wrap32 imm; ins_immediate64 := 0;
  ins_immediate8to16 := 0; ins_immediate8to32 := 0; ins_immediate8to64 := 0; ins_immediate32to64 := 0;
  ins_memory_segment := RegNone; ins_memory_base := RegNone; ins_memory_index := RegNone;
  ins_memory_index_scale := 1; ins_memory_displacement64 := 0; ins_ip_rel_memory_address := 0;
  ins_near_branch_target := wrap64 target
|}.

Definition sample_invalid (ip len : Z) : Instruction :=
  sample_instruction ip len true false (CodeOther 0) FlowNext RegNone 0 0.

(** The length that the first byte of a known instruction gives. *)
Definition sample_len (opcode : Z) : option nat :=
  if opcode =? 0x0f then Some 2%nat else if opcode =? 0xb8 then Some 5%nat else
  if opcode =? 0xeb then Some 2%nat else if (opcode =? 0x50) || (opcode =? 0x90) then Some 1%nat else None.

(** [syscall], [mov eax, imm32], [jmp rel8], [push rax] and [nop], from exactly their bytes. *)
Definition sample_whole (bytes : list Z) (ip : Z) : Instruction :=
  match bytes with
  | [opcode] => if opcode =? 0x50 then sample_instruction ip 1 false false Push_r64 FlowNext (Reg64 RAX) 0 0
                else sample_instruction ip 1 false false Nopd FlowNext RegNone 0 0
  | [opcode; b] =>
      if opcode =? 0xeb then
        sample_instruction ip 2 false false Jmp_rel8_64 FlowUnconditionalBranch RegNone 0 (ip + 2 + signed 8 b)
      else if b =? 0x05 then sample_instruction ip 2 false true (CodeOther 1) FlowCall RegNone 0 0
      else sample_invalid ip 2
  | _ => sample_instruction ip (zlen bytes) false false Mov_r32_imm32 FlowNext (Reg32 RAX)
           (le_value (drop 1 bytes)) 0
  end.

Definition sample_decode (bytes : list Z) (ip : Z) : Instruction :=
  match bytes with
  | [] => sample_invalid ip 0
  | opcode :: _ =>
      match sample_len opcode with
      | Some n => if (length bytes <? n)%nat then sample_invalid ip 1 else sample_whole (take n bytes) ip
      | None => sample_invalid ip 1
      end
  end.

#[export] Instance sample_decoder : X86Decoder := { x86_decode := sample_decode }.

Lemma sample_cases (P : Instruction → Prop) bytes ip :
  (∀ len inv sys code flow reg imm target, P (sample_instruction ip len inv sys code flow reg imm target)) →
  P (sample_decode bytes ip).
Proof. intros H. unfold sample_decode, sample_whole, sample_invalid. repeat case_match; apply H. Qed.

Lemma sample_whole_len bytes ip : ins_len (sample_whole bytes ip) = zlen bytes ∨ bytes = [].
Proof.
  destruct bytes as [|a [|b [|c bytes]]]; [by right|left..]; unfold sample_whole, sample_invalid;
    repeat case_match; done.
Qed.

Lemma sample_len_bound opcode n : sample_len opcode = Some n → (1 ≤ n)%nat.
Proof. unfold sample_len. repeat case_match; intros [= <-]; lia. Qed.

(** What a known instruction that is whole decodes to. *)
Lemma sample_known opcode rest n ip :
  sample_len opcode = Some n → (n ≤ length (opcode :: rest))%nat →
  sample_decode (opcode :: rest) ip = sample_whole (take n (opcode :: rest)) ip ∧
  ins_len (sample_whole (take n (opcode :: rest)) ip) = Z.of_nat n.
Proof.
  intros Hn Hle. unfold sample_decode. rewrite Hn, (proj2 (Nat.ltb_ge _ _)) by done. split; [done|].
  destruct (sample_whole_len (take n (opcode :: rest)) ip) as [->|E].
  - unfold zlen. rewrite length_take. lia.
  - apply sample_len_bound in Hn. by destruct n; [lia|].
Qed.

(** A valid instruction is a known one that is whole. *)
Lemma sample_valid bytes ip : bytes ≠ [] → ins_is_invalid (sample_decode bytes ip) = false →
  ∃ opcode rest n, bytes = opcode :: rest ∧ sample_len opcode = Some n ∧ (n ≤ length bytes)%nat.
Proof.
  destruct bytes as [|opcode rest]; [done|]. intros _. unfold sample_decode. destruct (sample_len opcode) as [n|] eqn:E; [|done].
  destruct (Nat.ltb_spec (length (opcode :: rest)) n); [done|]. intros _. by exists opcode, rest, n.
Qed.

#[export] Instance sample_laws : X86DecoderLaws.
Proof.
  split; intros bytes ip; cbn [x86_decode sample_decoder].
  - apply sample_cases. intros. split; simpl; try (unfold is_u64; lia); try apply wrap64_bound.
    apply Z.mod_pos_bound. lia.
  - by apply sample_cases.
  - by apply sample_cases.
  - intros Hne. assert (1 ≤ zlen bytes) by (destruct bytes; [done|unfold zlen; simpl; lia]).
    destruct bytes as [|opcode rest]; [done|]. destruct (sample_len opcode) as [n|] eqn:E.
    + destruct (Nat.le_gt_cases n (length (opcode :: rest))) as [Hle|Hgt].
      * destruct (sample_known _ _ _ ip E Hle) as [-> ->]. apply sample_len_bound in E. unfold zlen. lia.
      * unfold sample_decode. rewrite E, (proj2 (Nat.ltb_lt _ _)) by done. simpl. lia.
    + unfold sample_decode. rewrite E. simpl. lia.
  - intros Hne (opcode & rest & n & -> & E & Hle)%sample_valid; [|done].
    destruct (sample_known _ _ _ ip E Hle) as [Hd Hl]. rewrite Hd, Hl, Nat2Z.id.
    pose proof (sample_len_bound _ _ E). destruct n as [|n]; [lia|]. simpl take.
    destruct (sample_known opcode (take n rest) (S n) ip E) as [-> _].
    { simpl in *. rewrite length_take. lia. }
    simpl take. by rewrite take_take, Nat.min_id.
  - intros Hne Hv Hs. destruct (sample_valid bytes ip Hne Hv) as (opcode & rest & n & -> & E & Hle).
    destruct (sample_known _ _ _ ip E Hle) as [Hd Hl]. rewrite Hd in Hs |- *. rewrite Hl in *. clear Hl Hd Hv.
    unfold sample_len in E. repeat case_match; simplify_eq; try done; bprop; subst;
      destruct rest as [|b [|c [|d [|e rest]]]]; simpl in Hle; try lia; try done;
      unfold sample_whole in Hs; simpl in Hs; repeat case_match; try done; bprop; subst; try done.
    all: split; [lia|]; unfold slice; simpl length.
    all: by rewrite (proj2 (andb_true_iff _ _)) by (split; [done|apply Z.leb_le; lia]).
Qed.
