(* ===== verification/JitTheorems.v ===== *)
(** * mcr-jit: its properties

    Stated for every decoder that keeps [X86DecoderLaws], with instances on the decoder of
    [JitCodec]. *)

From S2P Require Import Prelude SysAbi Bytes HostMemory GuestMemory GuestMemoryOps GuestMemoryInv GuestMemoryAccess GuestMemoryFork GuestMemorySystem GuestMemoryTheorems ElfParser ElfImage JitRegisters JitOperands JitDecoder JitExec JitFlags JitWords JitMemory JitBlocks JitPatch JitCodec.
From stdpp Require Import base gmap list strings relations.
From Stdlib Require Import ZArith Lia.
Open Scope Z_scope.

(** ** Comparisons and branches *)

(** What a conditional jump means after comparing [a] with [b]: the unsigned comparisons, the
    signed ones, and the sign of the difference. *)
Definition condition (c : Code) (w a b : Z) : option bool :=
  match c with
  | Jmp_rel8_64 | Jmp_rel32_64 => Some true
  | Je_rel8_64 | Je_rel32_64 => Some (a =? b)
  | Jne_rel8_64 | Jne_rel32_64 => Some (negb (a =? b))
  | Js_rel8_64 | Js_rel32_64 => Some (signed w ((a - b) mod 2 ^ w) <? 0)
  | Jns_rel8_64 | Jns_rel32_64 => Some (0 <=? signed w ((a - b) mod 2 ^ w))
  | Jl_rel8_64 | Jl_rel32_64 => Some (signed w a <? signed w b)
  | Jge_rel8_64 | Jge_rel32_64 => Some (signed w b <=? signed w a)
  | Jg_rel8_64 | Jg_rel32_64 => Some (signed w b <? signed w a)
  | Jle_rel8_64 | Jle_rel32_64 => Some (signed w a <=? signed w b)
  | Jb_rel8_64 | Jb_rel32_64 => Some (a <? b)
  | Jae_rel8_64 | Jae_rel32_64 => Some (b <=? a)
  | Ja_rel8_64 | Ja_rel32_64 => Some (b <? a)
  | Jbe_rel8_64 | Jbe_rel32_64 => Some (a <=? b)
  | _ => None
  end.

(** The sign of the difference and the overflow of the subtraction give the signed order. *)
Lemma signed_order w a b (r := (a - b) mod 2 ^ w) :
  is_width w → 0 ≤ a < 2 ^ w → 0 ≤ b < 2 ^ w →
  Bool.eqb (signed w r <? 0) (negb (signed w r =? signed w a - signed w b)) = (signed w b <=? signed w a).
Proof.
  intros Hw Ha Hb. destruct (width_pow w Hw) as [E P].
  assert (Hr : r = if a <? b then a - b + 2 ^ w else a - b).
  { unfold r. destruct (Z.ltb_spec a b).
    - symmetry. apply (Z.mod_unique_pos _ _ (-1)); lia.
    - by apply Z.mod_small; lia. }
  clearbody r. unfold signed in *. rewrite Hr. destruct (Z.ltb_spec a b); zcase; lia.
Qed.

Lemma signed_inj w a b : is_width w → 0 ≤ a < 2 ^ w → 0 ≤ b < 2 ^ w → signed w a = signed w b → a = b.
Proof. intros Hw Ha Hb. destruct (width_pow w Hw) as [E P]. unfold signed. zcase; lia. Qed.

(** C23. After a comparison of two words of any width, each conditional jump is taken exactly
    when the comparison it stands for holds of the words, read without sign or as two's
    complement; an encoding that is no such jump is refused. *)
Theorem jump_after_compare {M} `{!GuestMemoryOperandAccess M} (w a b : Z) (i : Instruction) (s : ExecState M)
    (Hw : is_width w) (Ha : 0 ≤ a < 2 ^ w) (Hb : 0 ≤ b < 2 ^ w) :
  ∃ s', compare w (ret a) (ret b) s = (Ok tt, s') ∧ x_registers s' = x_registers s ∧
    match condition (ins_code i) w a b with
    | Some taken => branch_taken i (x_flags s') = Ok taken
    | None => ∃ t, branch_taken i (x_flags s') = Err (MissingSyscall t)
    end.
Proof.
  eexists. split; [reflexivity|]. split; [done|]. simpl.
  destruct (sub_flags w a b (x_flags s) Hw Ha Hb) as [Hc Hz Hs Ho].
  pose proof (signed_order w a b Hw Ha Hb) as Hord. pose proof (signed_inj w a b Hw Ha Hb) as Hinj.
  unfold branch_taken, condition. rewrite Hc, Hz, Hs, Ho, Hord.
  destruct (ins_code i); try done; try by eexists.
  all: f_equal; try (zcase; done).
  all: try (destruct (Z.leb_spec (signed w b) (signed w a)), (Z.ltb_spec (signed w a) (signed w b)); lia || done).
  all: destruct (Z.eqb_spec a b) as [<-|?]; simpl; zcase; try done; lia.
Qed.

Definition sample_registers : GuestRegisters := {|
  g_rax := 0; g_rbx := 0; g_rcx := 0; g_rdx := 0; g_rsi := 0; g_rdi := 0; g_rbp := 0; g_rsp := 0x700800;
  g_r8 := 0; g_r9 := 0; g_r10 := 0; g_r11 := 0; g_r12 := 0; g_r13 := 0; g_r14 := 0; g_r15 := 0;
  g_rip := 0x1000; g_rflags := 0x202; g_fs_base := 0
|}.

Definition sample_state {M} (m : M) : ExecState M :=
  {| x_registers := sample_registers; x_flags := from_registers sample_registers; x_memory := m |}.

Definition jump_if (c : Code) : Instruction :=
  sample_instruction 0x1000 2 false false c FlowConditionalBranch RegNone 0 0x1002.

(** 0xff is below 1 as a signed byte and above it as an unsigned one. *)
Lemma jump_after_compare_witness :
  is_width 8 ∧ 0 ≤ 0xff < 2 ^ 8 ∧ 0 ≤ 1 < 2 ^ 8 ∧
  (∃ s', compare 8 (ret 0xff) (ret 1) (sample_state tt) = (Ok tt, s') ∧
         x_registers s' = x_registers (sample_state tt) ∧ branch_taken (jump_if Jl_rel8_64) (x_flags s') = Ok true) ∧
  (∃ s', compare 8 (ret 0xff) (ret 1) (sample_state tt) = (Ok tt, s') ∧
         x_registers s' = x_registers (sample_state tt) ∧ branch_taken (jump_if Ja_rel8_64) (x_flags s') = Ok true).
Proof.
  split; [by left|]. split; [lia|]. split; [lia|]. split.
  - exact (jump_after_compare 8 0xff 1 (jump_if Jl_rel8_64) (sample_state tt) (or_introl eq_refl) ltac:(lia) ltac:(lia)).
  - exact (jump_after_compare 8 0xff 1 (jump_if Ja_rel8_64) (sample_state tt) (or_introl eq_refl) ltac:(lia) ltac:(lia)).
Defined.

(** ** Parts of registers *)

(** A byte written to a register name reads back under that name; the other name of a byte,
    of this register or another one, reads as before, and no other register changes. *)
Lemma byte_registers_independent r register v r' :
  0 ≤ v < 2 ^ 8 → write_reg8 r register v = Ok r' →
  read_reg8 r' register = Ok v ∧
  (∀ other g lo, part other = Some (g, lo, 8) → other ≠ register → read_reg8 r' other = read_reg8 r other) ∧
  (∃ g, ∀ g', g' ≠ g → get_gpr g' r' = get_gpr g' r) ∧ g_rip r' = g_rip r.
Proof.
  intros Hv Hw. apply write_reg8_part in Hw as (g & lo & Hp & Hlo & ->). split_and!.
  - rewrite (read_reg8_part _ _ _ _ Hp), get_set_gpr, bool_decide_eq_true_2, field_set_field by (done || lia). done.
  - intros other g' lo' Hp' Hne. rewrite !(read_reg8_part _ _ _ _ Hp'), get_set_gpr. f_equal.
    case_bool_decide as Hg; [subst g'|done]. apply field_other; try lia.
    + by destruct (part8_lo _ _ _ Hp') as [-> | ->].
    + destruct (part8_lo _ _ _ Hp') as [-> | ->], (part8_lo _ _ _ Hp) as [-> | ->]; try lia;
        exfalso; apply Hne; by eapply part8_inj.
  - exists g. intros g' Hne. rewrite get_set_gpr. by rewrite bool_decide_eq_false_2 by congruence.
  - done.
Qed.

(** ** Finding system calls *)

(** The search for system calls, which stops decoding after the last byte pair [0f 05],
    finds exactly the syscall instructions of the linear scan of all the bytes, in order. *)
Theorem sites_are_those_of_the_scan {dec : X86Decoder} {laws : X86DecoderLaws} (bytes : list Z) (rip : Z) :
  syscall_instruction_sites bytes rip = sites_of (scan {| bl_bytes := bytes; bl_rip := rip |}).
Proof. apply syscall_sites_scan. Qed.

Definition sample_bytes : list Z := [0xb8; 60; 0; 0; 0; 0x50; 0xeb; 1; 0x90; 0x0f; 0x05; 0x90].

Lemma sites_are_those_of_the_scan_witness :
  X86DecoderLaws ∧ syscall_instruction_sites sample_bytes 0x1000 = [{| ss_rip := 0x1009; ss_next_rip := 0x100b |}].
Proof.
  split; [apply sample_laws|]. rewrite (sites_are_those_of_the_scan (laws := sample_laws)). reflexivity.
Defined.

(** ** Blocks *)

(** C15. Executing decoded blocks until a system call is a run of the reference machine, which
    fetches and executes one instruction at a time: it ends at a syscall instruction of the
    code, with the registers of the trap, and the trap resumes behind that instruction. *)
Theorem blocks_refine_steps {M} `{!GuestMemoryOperandAccess M} {dec : X86Decoder} {laws : X86DecoderLaws}
    (b : GuestBlock) (registers : GuestRegisters) (memory : M) (trap : SyscallTrap) (memory' : M)
    (Hb : block_wf b) (Hrun : execute_to_syscall_trap_with_memory b registers memory = (Ok trap, memory')) :
  ∃ s', rtc (exec_step b)
          {| x_registers := registers; x_flags := from_registers registers; x_memory := memory |} s' ∧
        x_registers s' = tr_registers trap ∧ x_memory s' = memory' ∧ ss_rip (tr_site trap) = pc s' ∧
        ∃ i, fetch b (pc s') = Ok i ∧ ins_is_syscall i = true ∧ ss_next_rip (tr_site trap) = wadd (pc s') (ins_len i).
Proof.
  unfold execute_to_syscall_trap_with_memory in Hrun.
  destruct (execute_blocks _ _ _ _) as [r s'] eqn:E. injection Hrun as -> <-. exists s'.
  set (s := {| x_registers := registers; x_flags := _; x_memory := memory |}) in *.
  change (g_rip registers) with (pc s) in E. destruct (blocks_step b _ s trap s' Hb E) as (? & ? & ? & ?). done.
Qed.

Definition sample_block : GuestBlock := {| bl_bytes := sample_bytes; bl_rip := 0x1000 |}.

(** The push runs on the page of [page_world]. *)
Definition sample_trap {M} `{!GuestMemoryOperandAccess M} (m : M) : outcome SyscallTrap ExecutionError * M :=
  execute_to_syscall_trap_with_memory sample_block sample_registers m.

#[local] Existing Instances GuestMemoryTheorems.PlainOs GuestMemoryTheorems.PlainOsLaws.

Lemma sample_block_wf : block_wf sample_block.
Proof. split; vm_compute; congruence. Qed.

Lemma blocks_refine_steps_witness :
  ∃ trap w', block_wf sample_block ∧ sample_trap page_world = (Ok trap, w') ∧
  g_rax (tr_registers trap) = 60 ∧ g_rsp (tr_registers trap) = 0x7007f8 ∧
  ∃ s', rtc (exec_step sample_block) (sample_state page_world) s' ∧ x_registers s' = tr_registers trap ∧
        x_memory s' = w' ∧ ss_rip (tr_site trap) = pc s' ∧
        ∃ i, fetch sample_block (pc s') = Ok i ∧ ins_is_syscall i = true ∧
             ss_next_rip (tr_site trap) = wadd (pc s') (ins_len i).
Proof.
  assert (H : ∃ trap, (sample_trap page_world).1 = Ok trap ∧ g_rax (tr_registers trap) = 60 ∧
    g_rsp (tr_registers trap) = 0x7007f8) by (eexists; vm_compute; repeat split).
  destruct H as (trap & Hok & Hrax & Hrsp). exists trap, (sample_trap page_world).2.
  assert (Hrun : sample_trap page_world = (Ok trap, (sample_trap page_world).2))
    by (rewrite <- Hok; apply surjective_pairing).
  split; [exact sample_block_wf|]. split; [exact Hrun|]. split; [exact Hrax|]. split; [exact Hrsp|].
  exact (blocks_refine_steps sample_block sample_registers page_world trap _ sample_block_wf Hrun).
Defined.

(** C16. Executing guest code of one process in mcr-jit never panics, whatever the code and its
    outcome: the memories of all processes stay well formed and no other process sees a
    change.  The registers of a trap are machine words; rflags and the FS base in them are
    those that execution started with. *)
Theorem execution_stays_in_its_process `{OS : HostOs} `{OL : !HostOsLaws OS} {dec : X86Decoder} {laws : X86DecoderLaws}
    (s : System) (p : Z) (m : GuestMemory) (b : GuestBlock) (registers : GuestRegisters)
    (r : outcome SyscallTrap ExecutionError) (w' : World)
    (Hs : sys_wf s) (Hp : s_memories s !! p = Some m) (Hr : registers_wf registers)
    (Hrun : execute_to_syscall_trap_with_memory b registers (at_heap (s_heap s) m) = (r, w')) :
  sys_wf (put s p w') ∧ (∀ q, q ≠ p → ∀ a, view_of (put s p w') q a = view_of s q a) ∧
  match r with
  | Ok trap => registers_wf (tr_registers trap) ∧ g_rflags (tr_registers trap) = g_rflags registers ∧
               g_fs_base (tr_registers trap) = g_fs_base registers
  | Err _ => True
  | Panic => False
  end.
Proof.
  set (w := at_heap (s_heap s) m) in *. assert (Hw : world_wf w) by by apply (sw_mem _ Hs p).
  unfold execute_to_syscall_trap_with_memory in Hrun.
  set (st := {| x_registers := registers; x_flags := _; x_memory := w |}) in Hrun.
  assert (Hgood : good (moved_from w) (g_rflags registers) (g_fs_base registers) st).
  { split; [done| |done|done]. by split. }
  pose proof (keeps_blocks (moved_from w) (g_rflags registers) (g_fs_base registers) b MAX_CONTROL_FLOW_STEPS
    (g_rip registers) (proj1 (proj2 Hr)) st Hgood) as Hk.
  unfold wp in Hk. destruct (execute_blocks _ _ _ _) as [o st']. injection Hrun as -> <-.
  assert (Hmoved : moved_from w (x_memory st') ∧ match r with
    | Ok trap => registers_wf (tr_registers trap) ∧ g_rflags (tr_registers trap) = g_rflags registers ∧
                 g_fs_base (tr_registers trap) = g_fs_base registers
    | Err _ => True | Panic => False end).
  { destruct r as [trap|e|]; [destruct Hk as [[] ?]|destruct Hk|]; done. }
  destruct Hmoved as [[Hwf' Ho] Hreg]. destruct (update_process _ _ _ _ Hs Hp Hwf' Ho) as [? ?]. done.
Qed.

Lemma sample_registers_wf : registers_wf sample_registers.
Proof. split; [|split; [|split]]; [intros []|..]; split; vm_compute; congruence. Qed.

Lemma execution_stays_in_its_process_witness :
  let w' := (sample_trap (at_heap (s_heap one_process) (w_mem page_world))).2 in
  sys_wf one_process ∧ s_memories one_process !! 1 = Some (w_mem page_world) ∧ registers_wf sample_registers ∧
  (∃ trap, (sample_trap (at_heap (s_heap one_process) (w_mem page_world))).1 = Ok trap) ∧
  sys_wf (put one_process 1 w') ∧ (∀ q, q ≠ 1 → ∀ a, view_of (put one_process 1 w') q a = view_of one_process q a).
Proof.
  intros w'. split; [exact one_process_wf|]. split; [reflexivity|]. split; [exact sample_registers_wf|].
  split; [eexists; vm_compute; reflexivity|].
  pose proof (execution_stays_in_its_process one_process 1 (w_mem page_world) sample_block sample_registers
    (sample_trap (at_heap (s_heap one_process) (w_mem page_world))).1 w' one_process_wf eq_refl sample_registers_wf
    (surjective_pairing _)) as (H1 & H2 & _).
  exact (conj H1 H2).
Defined.

(** ** The persistent patch cache *)

(** C22. Patch metadata written for code at one base and read for code at another is the
    metadata moved to that base, with the error of an overflowing address exactly when it
    cannot be moved; at its own base it is what was written; and it is refused under every
    other key. *)
Theorem patch_cache_round_trip (key : NativeImagePatchKey) (md : NativePatchMetadata) (base : Z) (bytes : list Z)
    (Hkey : is_u64 (nk_hash key) ∧ is_u64 (nk_executable_len key)) (Hbase : 0 ≤ base) (Hmd : metadata_ok md)
    (Hlen : zlen bytes < 2 ^ 64) (Henc : encode_native_patch_metadata key md base = Ok bytes) :
  (∀ target, decode_native_patch_metadata key bytes target =
             ok_or (rebase_native_patch_metadata md base target) AddressOverflowsBase) ∧
  decode_native_patch_metadata key bytes base = Ok md ∧
  (∀ key' target, key' ≠ key → decode_native_patch_metadata key' bytes target = Err CacheKeyMismatch).
Proof.
  destruct Hkey as [Hh Hx].
  pose proof (λ target, decode_encoded key md base target bytes Hh Hx Hbase Hmd Hlen Henc) as H.
  assert (Hsame : ∀ target, decode_native_patch_metadata key bytes target =
                            moved (rebase_native_patch_metadata md base target)).
  { intros target. rewrite H. by rewrite (bool_decide_eq_true_2 (key = key) eq_refl). }
  split; [exact Hsame|]. split.
  - rewrite Hsame. by rewrite (rebase_same key md base bytes Hmd Henc).
  - intros key' target Hne. rewrite H. by rewrite bool_decide_eq_false_2.
Qed.

Definition sample_key : NativeImagePatchKey := {| nk_hash := 0x1234; nk_executable_len := 0x2000 |}.

Definition sample_fs_load : list Z := [0x64; 0x48; 0x8b; 0x04; 0x25; 0xf8; 0xff; 0xff; 0xff].

Definition sample_metadata : NativePatchMetadata := {|
  md_scanned_ranges := [(0x400000, 0x402000)];
  md_syscall_patches := [{| esp_address := 0x400009 |}];
  md_fs_relative_patches := {[ 0x400100 := {| fp_original := sample_fs_load |} ]};
  md_fs_relative_traps := {[ 0x400200 := {| ft_original := sample_fs_load ++ [0; 0; 0; 0; 0; 0]; ft_len := 9 |} ]}
|}.

Lemma sample_metadata_ok : metadata_ok sample_metadata.
Proof.
  split; [| | | |vm_compute; reflexivity..].
  - apply Forall_singleton. unfold is_u64. cbn. lia.
  - apply Forall_singleton. unfold is_u64. cbn. lia.
  - unfold sample_metadata, is_u64. cbn [md_fs_relative_patches]. apply map_Forall_singleton. split; [lia|done].
  - unfold sample_metadata, is_u64, trap_ok. cbn [md_fs_relative_traps]. apply map_Forall_singleton. cbn. split; [lia|].
    split; [done|lia].
Qed.

Lemma patch_cache_round_trip_witness :
  ∃ bytes, encode_native_patch_metadata sample_key sample_metadata 0x400000 = Ok bytes ∧ zlen bytes = 112 ∧
  is_u64 0x1234 ∧ is_u64 0x2000 ∧ metadata_ok sample_metadata ∧
  decode_native_patch_metadata sample_key bytes 0x400000 = Ok sample_metadata ∧
  is_ok (decode_native_patch_metadata sample_key bytes 0x7f0000000000) = true.
Proof.
  assert (Hk : is_u64 (nk_hash sample_key) ∧ is_u64 (nk_executable_len sample_key)) by (repeat split; vm_compute; congruence).
  eexists. split; [vm_compute; reflexivity|]. split; [vm_compute; reflexivity|].
  split; [apply Hk|]. split; [apply Hk|]. split; [exact sample_metadata_ok|].
  match goal with |- decode_native_patch_metadata _ ?l _ = _ ∧ _ =>
    destruct (patch_cache_round_trip sample_key sample_metadata 0x400000 l Hk ltac:(lia) sample_metadata_ok
      ltac:(vm_compute; reflexivity) ltac:(vm_compute; reflexivity)) as (Hany & Hsame & _) end.
  split; [exact Hsame|]. rewrite Hany. vm_compute. reflexivity.
Defined.

(** ** FS-relative loads *)

(** The displacement of a load through FS, a signed word. *)
Definition fs_displacement (original : list Z) : Z := as_i32 (le_value (drop 5 original)).

(** The operand of the instruction that replaces it. *)
Definition absolute_operand (replacement : list Z) : Z := le_value (take 4 (drop 4 replacement)).

Lemma le_bytes_value l : Forall is_byte l → le_bytes (length l) (le_value l) = l.
Proof.
  induction 1 as [|b l Hb _ IH]; [done|]. simpl. unfold is_byte in Hb.
  replace ((b + 256 * le_value l) mod 256) with b by (apply (Z.mod_unique_pos _ _ (le_value l)); lia).
  by replace ((b + 256 * le_value l) / 256) with (le_value l) by (apply (Z.div_unique_pos _ _ _ b); lia); rewrite IH.
Qed.

Lemma le_bytes_mod n z : le_bytes n (z mod 256 ^ Z.of_nat n) = le_bytes n z.
Proof.
  revert z. induction n as [|n IH]; intros z; [done|]. rewrite Nat2Z.inj_succ, Z.pow_succ_r by lia. simpl.
  assert (0 < 256 ^ Z.of_nat n) by (apply Z.pow_pos_nonneg; lia).
  rewrite Z.rem_mul_r by lia.
  replace ((z mod 256 + 256 * ((z / 256) mod 256 ^ Z.of_nat n)) mod 256) with (z mod 256)
    by (rewrite Z.mul_comm, Z_mod_plus_full, Z.mod_mod; lia).
  replace ((z mod 256 + 256 * ((z / 256) mod 256 ^ Z.of_nat n)) / 256) with ((z / 256) mod 256 ^ Z.of_nat n)
    by (rewrite Z.mul_comm, Z_div_plus_full, (Z.div_small (z mod 256)) by (try apply Z.mod_pos_bound; lia); lia).
  by rewrite IH.
Qed.

Lemma as_i32_mod z : 0 ≤ z < 2 ^ 32 → - 2 ^ 31 ≤ as_i32 z ≤ I32_MAX ∧ as_i32 z mod 2 ^ 32 = z.
Proof.
  intros Hz. unfold as_i32, wrap32, I32_MAX. rewrite Z.mod_small by done. destruct (Z.leb_spec z (2 ^ 31 - 1)).
  - rewrite Z.mod_small by done. lia.
  - split; [lia|]. symmetry. apply (Z.mod_unique_pos _ _ (-1)); lia.
Qed.

Lemma fs_original_shape l : fs_relative_original l = Some l →
  ∃ b1 b2 b3 d0 d1 d2 d3, l = [0x64; b1; b2; b3; 0x25; d0; d1; d2; d3] ∧
    (Z.land b1 0xf8 =? 0x48) = true ∧ ((b2 =? 0x8b) || (b2 =? 0x2b)) = true ∧ (Z.land b3 0xc7 =? 0x04) = true.
Proof.
  destruct l as [|b0 [|b1 [|b2 [|b3 [|b4 tail]]]]]; try done. unfold fs_relative_original.
  destruct (Z.ltb_spec (zlen (b0 :: b1 :: b2 :: b3 :: b4 :: tail)) 9) as [|Hlen]; [done|].
  destruct (Z.eqb_spec b0 0x64) as [->|]; [|done]. destruct (Z.land b1 0xf8 =? 0x48) eqn:E1; [|done].
  destruct ((b2 =? 0x8b) || (b2 =? 0x2b)) eqn:E2; [|done]. destruct (Z.land b3 0xc7 =? 0x04) eqn:E3; [|done].
  destruct (Z.eqb_spec b4 0x25) as [->|]; [|done]. cbn [negb orb]. intros [= Htail].
  assert (Hl : length tail = 4%nat).
  { apply (f_equal length) in Htail. rewrite length_take in Htail. unfold zlen in Hlen. cbn [length] in Hlen. lia. }
  destruct tail as [|d0 [|d1 [|d2 [|d3 [|]]]]]; try done. by exists b1, b2, b3, d0, d1, d2, d3.
Qed.

(** A load through FS is replaced exactly when the address it means with the given FS base
    fits in the low 2 GiB; the replacement has the length of the original, loads from that
    address, is never mistaken for an original, and a scan of it computes the original back. *)
Theorem fs_replacement_round_trip (original rest : list Z) (fs_base : Z)
    (Hbytes : Forall is_byte original) (Horig : fs_relative_original original = Some original)
    (Hbase : is_u64 fs_base) (address := fs_base + fs_displacement original) :
  match fs_relative_replacement original fs_base with
  | Some replacement =>
      fs_base ≠ 0 ∧ 0 ≤ address ≤ I32_MAX ∧ zlen replacement = zlen original ∧
      absolute_operand replacement = address ∧
      fs_relative_original (replacement ++ rest) = None ∧
      fs_relative_original_from_replacement (replacement ++ rest) fs_base = Ok (Some original)
  | None => fs_base = 0 ∨ ¬ 0 ≤ address ≤ I32_MAX
  end.
Proof.
  destruct (fs_original_shape _ Horig) as (b1 & b2 & b3 & d0 & d1 & d2 & d3 & -> & E1 & E2 & E3). clear Horig.
  do 5 apply Forall_cons in Hbytes as [_ Hbytes]. set (d := [d0; d1; d2; d3]) in *.
  assert (Hv : 0 ≤ le_value d < 2 ^ 32) by exact (le_value_bound d Hbytes).
  destruct (as_i32_mod _ Hv) as [Hrange Hmod].
  assert (Hdb : le_bytes 4 (as_i32 (le_value d)) = d).
  { rewrite <- (le_bytes_mod 4). change (256 ^ Z.of_nat 4) with (2 ^ 32). rewrite Hmod. by apply (le_bytes_value d). }
  change (fs_displacement _) with (as_i32 (le_value d)) in address.
  set (displacement := as_i32 (le_value d)) in *. unfold is_u64, I32_MAX in *.
  assert (Hrep : fs_relative_replacement (0x64 :: b1 :: b2 :: b3 :: 0x25 :: d) fs_base =
    if (fs_base =? 0) || negb ((0 <=? address) && (address <=? I32_MAX)) then None
    else Some ([b1; b2; b3; 0x25] ++ le_bytes 4 address ++ [0x90])).
  { unfold fs_relative_replacement, d. fold d. fold displacement.
    destruct (Z.eqb_spec fs_base 0) as [->|Hne]; [done|]. unfold checked_add64, checked_sub64, U64_MAX, I32_MAX.
    unfold address. destruct (Z.leb_spec 0 displacement).
    - destruct (Z.leb_spec (fs_base + displacement) (2 ^ 64 - 1)); zcase; try done; lia.
    - destruct (Z.leb_spec (- displacement) fs_base); rewrite ?Z.sub_opp_r; zcase; try done; lia. }
  rewrite Hrep. unfold I32_MAX. destruct (Z.eqb_spec fs_base 0) as [->|Hne]; [by left|].
  destruct (Z.leb_spec 0 address) as [H0|]; [|right; lia].
  destruct (Z.leb_spec address (2 ^ 31 - 1)) as [H1|]; [|right; lia]. cbn [negb andb orb].
  assert (Hval : le_value (le_bytes 4 address) = address)
    by (rewrite le_value_bytes; apply Z.mod_small; change (256 ^ Z.of_nat 4) with (2 ^ 32); lia).
  remember (le_bytes 4 address) as e eqn:He. assert (Hel : length e = 4%nat) by (rewrite He; apply length_le_bytes).
  destruct e as [|e0 [|e1 [|e2 [|e3 [|]]]]]; try done.
  split_and!; [done|lia|lia|done|exact Hval| |].
  - simpl. destruct (_ <? _); [done|]. destruct (Z.eqb_spec b1 0x64) as [->|]; done.
  - change (fs_relative_original_from_replacement _ _) with
      (fs_relative_original_from_replacement (b1 :: b2 :: b3 :: 0x25 :: e0 :: e1 :: e2 :: e3 :: 0x90 :: rest) fs_base).
    unfold fs_relative_original_from_replacement. rewrite E1, E2, E3, Hval, (proj2 (Z.eqb_neq _ _) Hne).
    cbn [negb orb Z.eqb Pos.eqb].
    assert (Hi : as_i64 fs_base = fs_base).
    { unfold as_i64, wrap64, I64_MAX. rewrite Z.mod_small by lia. rewrite (proj2 (Z.leb_le _ _)); [done|]. unfold address in *. lia. }
    rewrite Hi. replace (address - fs_base) with displacement by (unfold address; lia). unfold I64_MAX, I32_MAX.
    rewrite (proj2 (Z.ltb_ge _ _)), (proj2 (Z.leb_le _ _)), (proj2 (Z.leb_le _ _)) by lia. cbn [andb].
    by rewrite Hdb.
Qed.

Lemma fs_replacement_round_trip_witness :
  Forall is_byte sample_fs_load ∧ fs_relative_original sample_fs_load = Some sample_fs_load ∧ is_u64 0x10000 ∧
  ∃ replacement, fs_relative_replacement sample_fs_load 0x10000 = Some replacement ∧
    absolute_operand replacement = 0xfff8 ∧
    fs_relative_original_from_replacement (replacement ++ []) 0x10000 = Ok (Some sample_fs_load).
Proof.
  assert (Hb : Forall is_byte sample_fs_load) by (repeat constructor; unfold is_byte; lia).
  assert (Hu : is_u64 0x10000) by (unfold is_u64; lia).
  split; [exact Hb|]. split; [reflexivity|]. split; [exact Hu|].
  pose proof (fs_replacement_round_trip sample_fs_load [] 0x10000 Hb eq_refl Hu) as H.
  eexists. split; [reflexivity|]. destruct H as (_ & _ & _ & H1 & _ & H2). split; [exact H1|exact H2].
Defined.

(** ** A stale patch

    One invalidation drops a scanned range that it only touches in part and leaves its other
    patches; a second one, of the part that holds such a patch, then finds no range and
    returns: the patch survives although its code was changed, and merging what a new scan
    finds there does not replace it. *)
Example invalidation_leaves_patch :
  let c := {| pc_fs_base := 0; pc_scanned_ranges := [(0x1000, 0x3000)]; pc_executable_write_generation := 0;
              pc_image_metadata_checked := false; pc_image_metadata_eligible := true;
              pc_fs_relative_patches := {[ 0x1800 := {| fp_original := sample_fs_load |} ]};
              pc_fs_relative_traps := ∅ |} in
  let c := invalidate_range 0x1000 0x2000 (invalidate_range 0x2000 0x2800 c) in
  pc_scanned_ranges c = [] ∧
  pc_fs_relative_patches c !! 0x1800 = Some {| fp_original := sample_fs_load |} ∧
  let md := {| md_scanned_ranges := [(0x1000, 0x3000)]; md_syscall_patches := [];
               md_fs_relative_patches := {[ 0x1800 := {| fp_original := [] |} ]}; md_fs_relative_traps := ∅ |} in
  pc_fs_relative_patches (merge_metadata md c).2 !! 0x1800 = Some {| fp_original := sample_fs_load |}.
Proof. vm_compute. repeat split. Qed.
