(* ===== verification/RtSignals.v ===== *)
(** * mcr-runtime: the frame of a signal handler

    signal_frame.rs: what the runtime writes to the guest's stack before a handler runs and
    reads back at [rt_sigreturn], with the alternate signal stack (event_state.rs, and
    [sigaltstack]'s structure in lib.rs). *)

From S2P Require Import Prelude SysAbi HostMemory GuestMemory GuestMemoryOps GuestMemoryInv GuestMemoryAccess GuestMemoryTheorems Bytes SysCodec SysCodecTheorems TaskTypes JitRegisters.
From stdpp Require Import base list strings gmap.
From Stdlib Require Import ZArith Lia.
Open Scope Z_scope.

Definition LINUX_SIG_DFL : Z := 0.
Definition LINUX_SIG_IGN : Z := 1.
Definition LINUX_SEGV_MAPERR : Z := 1.
Definition LINUX_SA_RESTORER : Z := 0x04000000.
Definition LINUX_SA_ONSTACK : Z := 0x08000000.
Definition LINUX_SA_NODEFER : Z := 0x40000000.
Definition X86_EFLAGS_TF : Z := 0x00000100.
Definition X86_EFLAGS_DF : Z := 0x00000400.
Definition X86_EFLAGS_RF : Z := 0x00010000.
Definition X86_64_SIGNAL_RED_ZONE : Z := 128.
Definition X86_64_FRAME_ALIGNMENT : Z := 16.
Definition X86_64_RT_SIGFRAME_SIZE : Z := 440.
Definition RT_SIGFRAME_PRETCODE_OFFSET : Z := 0.
Definition RT_SIGFRAME_UCONTEXT_OFFSET : Z := 8.
Definition RT_SIGFRAME_SIGINFO_OFFSET : Z := 312.
Definition UCONTEXT_UC_FLAGS_OFFSET : Z := 0.
Definition UCONTEXT_UC_LINK_OFFSET : Z := 8.
Definition UCONTEXT_STACK_OFFSET : Z := 16.
Definition UCONTEXT_MCONTEXT_OFFSET : Z := 40.
Definition UCONTEXT_SIGMASK_OFFSET : Z := 296.
Definition STACK_T_SP_OFFSET : Z := 0.
Definition STACK_T_FLAGS_OFFSET : Z := 8.
Definition STACK_T_SIZE_OFFSET : Z := 16.
Definition SIGINFO_SIGNO_OFFSET : Z := 0.
Definition SIGINFO_ERRNO_OFFSET : Z := 4.
Definition SIGINFO_CODE_OFFSET : Z := 8.
Definition SIGINFO_ADDR_OFFSET : Z := 16.
Definition SIGCONTEXT_R8_OFFSET : Z := 0.
Definition SIGCONTEXT_R9_OFFSET : Z := 8.
Definition SIGCONTEXT_R10_OFFSET : Z := 16.
Definition SIGCONTEXT_R11_OFFSET : Z := 24.
Definition SIGCONTEXT_R12_OFFSET : Z := 32.
Definition SIGCONTEXT_R13_OFFSET : Z := 40.
Definition SIGCONTEXT_R14_OFFSET : Z := 48.
Definition SIGCONTEXT_R15_OFFSET : Z := 56.
Definition SIGCONTEXT_RDI_OFFSET : Z := 64.
Definition SIGCONTEXT_RSI_OFFSET : Z := 72.
Definition SIGCONTEXT_RBP_OFFSET : Z := 80.
Definition SIGCONTEXT_RBX_OFFSET : Z := 88.
Definition SIGCONTEXT_RDX_OFFSET : Z := 96.
Definition SIGCONTEXT_RAX_OFFSET : Z := 104.
Definition SIGCONTEXT_RCX_OFFSET : Z := 112.
Definition SIGCONTEXT_RSP_OFFSET : Z := 120.
Definition SIGCONTEXT_RIP_OFFSET : Z := 128.
Definition SIGCONTEXT_EFLAGS_OFFSET : Z := 136.
Definition SIGCONTEXT_CS_OFFSET : Z := 144.
Definition SIGCONTEXT_GS_OFFSET : Z := 146.
Definition SIGCONTEXT_FS_OFFSET : Z := 148.
Definition SIGCONTEXT_SS_OFFSET : Z := 150.
Definition SIGCONTEXT_ERR_OFFSET : Z := 152.
Definition SIGCONTEXT_TRAPNO_OFFSET : Z := 160.
Definition SIGCONTEXT_OLDMASK_OFFSET : Z := 168.
Definition SIGCONTEXT_CR2_OFFSET : Z := 176.
Definition SIGCONTEXT_FPSTATE_OFFSET : Z := 184.

Definition LINUX_SS_DISABLE : Z := 2.
Definition LINUX_SS_AUTODISARM : Z := 0x80000000.
Definition LINUX_SS_SUPPORTED_FLAGS : Z := Z.lor LINUX_SS_DISABLE LINUX_SS_AUTODISARM.
Definition LINUX_MINSIGSTKSZ : Z := 2048.
Definition LINUX_STACK_T_FLAGS_OFFSET : Z := 8.
Definition LINUX_STACK_T_SIZE_OFFSET : Z := 16.

(** ** The alternate stack *)
Record GuestSignalAltStack : Type := { ss_sp : Z; ss_flags : Z; ss_size : Z }.

Definition alt_stack_disabled_value : GuestSignalAltStack := {| ss_sp := 0; ss_flags := LINUX_SS_DISABLE; ss_size := 0 |}.
Definition disabled (s : GuestSignalAltStack) : bool := negb (Z.land (ss_flags s) LINUX_SS_DISABLE =? 0).

Definition validate_sigaltstack (stack : GuestSignalAltStack) : outcome unit LinuxErrno :=
  if negb (Z.ldiff (ss_flags stack) LINUX_SS_SUPPORTED_FLAGS =? 0) then Err EINVAL else
  if negb (disabled stack) && (ss_size stack <? LINUX_MINSIGSTKSZ) then Err ENOMEM else Ok tt.

Definition on_signal_stack (rsp : Z) (stack : GuestSignalAltStack) : bool :=
  match checked_add64 (ss_sp stack) (ss_size stack) with
  | Some end_ => (ss_sp stack <=? rsp) && (rsp <? end_)
  | None => false
  end.

Definition round_down (value align : Z) : Z := Z.ldiff value (align - 1).

(** Where the frame goes: below the red zone, or on the alternate stack when the handler asks
    for it and the task is not on it yet. *)
Definition signal_frame_address (current_rsp flags : Z) (alt_stack : option GuestSignalAltStack)
    : outcome Z LinuxErrno :=
  let? sp := ok_or (checked_sub64 current_rsp X86_64_SIGNAL_RED_ZONE) EFAULT in
  let? sp := match alt_stack with
             | Some stack =>
                 if negb (Z.land flags LINUX_SA_ONSTACK =? 0) && negb (disabled stack)
                    && negb (on_signal_stack current_rsp stack)
                 then ok_or (checked_add64 (ss_sp stack) (ss_size stack)) EFAULT
                 else Ok sp
             | None => Ok sp
             end in
  let? sp := ok_or (checked_sub64 sp X86_64_RT_SIGFRAME_SIZE) EFAULT in
  ok_or (checked_sub64 (round_down sp X86_64_FRAME_ALIGNMENT) 8) EFAULT.

Definition signal_mask_for (signal : Z) : Z :=
  if (signal =? 0) || (64 <? signal) then 0 else Z.shiftl 1 (signal - 1).

Record RestoredSignalFrame : Type := { rs_registers : GuestRegisters; rs_signal_mask : Z }.

(** The registers the handler starts with. *)
Definition handler_registers (r : GuestRegisters) (action signal frame uc siginfo : Z) : GuestRegisters :=
  {| g_rax := 0; g_rbx := g_rbx r; g_rcx := g_rcx r; g_rdx := uc; g_rsi := siginfo; g_rdi := signal;
     g_rbp := g_rbp r; g_rsp := frame;
     g_r8 := g_r8 r; g_r9 := g_r9 r; g_r10 := g_r10 r; g_r11 := g_r11 r;
     g_r12 := g_r12 r; g_r13 := g_r13 r; g_r14 := g_r14 r; g_r15 := g_r15 r;
     g_rip := action;
     g_rflags := Z.ldiff (g_rflags r) (Z.lor (Z.lor X86_EFLAGS_DF X86_EFLAGS_RF) X86_EFLAGS_TF);
     g_fs_base := g_fs_base r |}.

Definition set_fs_base (fs_base : Z) (r : GuestRegisters) : GuestRegisters :=
  {| g_rax := g_rax r; g_rbx := g_rbx r; g_rcx := g_rcx r; g_rdx := g_rdx r; g_rsi := g_rsi r; g_rdi := g_rdi r;
     g_rbp := g_rbp r; g_rsp := g_rsp r; g_r8 := g_r8 r; g_r9 := g_r9 r; g_r10 := g_r10 r; g_r11 := g_r11 r;
     g_r12 := g_r12 r; g_r13 := g_r13 r; g_r14 := g_r14 r; g_r15 := g_r15 r;
     g_rip := g_rip r; g_rflags := g_rflags r; g_fs_base := fs_base |}.

Section frame.
Context {M : Type} {access : SysCodec.GuestMemoryAccess M}.

Definition write_u16 (addr value : Z) : Writer M unit := writer addr (le_bytes 2 value).
Definition write_u32 (addr value : Z) : Writer M unit := writer addr (le_bytes 4 value).
(** [to_le_bytes] of an i32 is that of its bits. *)
Definition write_i32 (addr value : Z) : Writer M unit := writer addr (le_bytes 4 (value mod 2 ^ 32)).
Definition write_u64 (addr value : Z) : Writer M unit := writer addr (le_bytes 8 value).

Definition write_signal_stack (addr : Z) (stack : option GuestSignalAltStack) : Writer M unit :=
  let stack := default alt_stack_disabled_value stack in
  do* write_u64 (wadd addr STACK_T_SP_OFFSET) (ss_sp stack);
  do* write_u32 (wadd addr STACK_T_FLAGS_OFFSET) (ss_flags stack);
  do* write_u32 (wadd (wadd addr STACK_T_FLAGS_OFFSET) 4) 0;
  write_u64 (wadd addr STACK_T_SIZE_OFFSET) (ss_size stack).

Definition write_sigcontext (addr : Z) (r : GuestRegisters) (signal_mask fault_address : Z) : Writer M unit :=
  do* write_u64 (wadd addr SIGCONTEXT_R8_OFFSET) (g_r8 r);
  do* write_u64 (wadd addr SIGCONTEXT_R9_OFFSET) (g_r9 r);
  do* write_u64 (wadd addr SIGCONTEXT_R10_OFFSET) (g_r10 r);
  do* write_u64 (wadd addr SIGCONTEXT_R11_OFFSET) (g_r11 r);
  do* write_u64 (wadd addr SIGCONTEXT_R12_OFFSET) (g_r12 r);
  do* write_u64 (wadd addr SIGCONTEXT_R13_OFFSET) (g_r13 r);
  do* write_u64 (wadd addr SIGCONTEXT_R14_OFFSET) (g_r14 r);
  do* write_u64 (wadd addr SIGCONTEXT_R15_OFFSET) (g_r15 r);
  do* write_u64 (wadd addr SIGCONTEXT_RDI_OFFSET) (g_rdi r);
  do* write_u64 (wadd addr SIGCONTEXT_RSI_OFFSET) (g_rsi r);
  do* write_u64 (wadd addr SIGCONTEXT_RBP_OFFSET) (g_rbp r);
  do* write_u64 (wadd addr SIGCONTEXT_RBX_OFFSET) (g_rbx r);
  do* write_u64 (wadd addr SIGCONTEXT_RDX_OFFSET) (g_rdx r);
  do* write_u64 (wadd addr SIGCONTEXT_RAX_OFFSET) (g_rax r);
  do* write_u64 (wadd addr SIGCONTEXT_RCX_OFFSET) (g_rcx r);
  do* write_u64 (wadd addr SIGCONTEXT_RSP_OFFSET) (g_rsp r);
  do* write_u64 (wadd addr SIGCONTEXT_RIP_OFFSET) (g_rip r);
  do* write_u64 (wadd addr SIGCONTEXT_EFLAGS_OFFSET) (g_rflags r);
  do* write_u16 (wadd addr SIGCONTEXT_CS_OFFSET) 0x33;
  do* write_u16 (wadd addr SIGCONTEXT_GS_OFFSET) 0;
  do* write_u16 (wadd addr SIGCONTEXT_FS_OFFSET) 0;
  do* write_u16 (wadd addr SIGCONTEXT_SS_OFFSET) 0x2b;
  do* write_u64 (wadd addr SIGCONTEXT_ERR_OFFSET) 0;
  do* write_u64 (wadd addr SIGCONTEXT_TRAPNO_OFFSET) 14;
  do* write_u64 (wadd addr SIGCONTEXT_OLDMASK_OFFSET) signal_mask;
  do* write_u64 (wadd addr SIGCONTEXT_CR2_OFFSET) fault_address;
  write_u64 (wadd addr SIGCONTEXT_FPSTATE_OFFSET) 0.

(** The registers that are not read are zero. *)
Definition read_sigcontext (addr : Z) : Reader M GuestRegisters := λ m,
  let? r8 := read_guest_u64 (wadd addr SIGCONTEXT_R8_OFFSET) m in
  let? r9 := read_guest_u64 (wadd addr SIGCONTEXT_R9_OFFSET) m in
  let? r10 := read_guest_u64 (wadd addr SIGCONTEXT_R10_OFFSET) m in
  let? r11 := read_guest_u64 (wadd addr SIGCONTEXT_R11_OFFSET) m in
  let? r12 := read_guest_u64 (wadd addr SIGCONTEXT_R12_OFFSET) m in
  let? r13 := read_guest_u64 (wadd addr SIGCONTEXT_R13_OFFSET) m in
  let? r14 := read_guest_u64 (wadd addr SIGCONTEXT_R14_OFFSET) m in
  let? r15 := read_guest_u64 (wadd addr SIGCONTEXT_R15_OFFSET) m in
  let? rdi := read_guest_u64 (wadd addr SIGCONTEXT_RDI_OFFSET) m in
  let? rsi := read_guest_u64 (wadd addr SIGCONTEXT_RSI_OFFSET) m in
  let? rbp := read_guest_u64 (wadd addr SIGCONTEXT_RBP_OFFSET) m in
  let? rbx := read_guest_u64 (wadd addr SIGCONTEXT_RBX_OFFSET) m in
  let? rdx := read_guest_u64 (wadd addr SIGCONTEXT_RDX_OFFSET) m in
  let? rax := read_guest_u64 (wadd addr SIGCONTEXT_RAX_OFFSET) m in
  let? rcx := read_guest_u64 (wadd addr SIGCONTEXT_RCX_OFFSET) m in
  let? rsp := read_guest_u64 (wadd addr SIGCONTEXT_RSP_OFFSET) m in
  let? rip := read_guest_u64 (wadd addr SIGCONTEXT_RIP_OFFSET) m in
  let? rflags := read_guest_u64 (wadd addr SIGCONTEXT_EFLAGS_OFFSET) m in
  Ok {| g_rax := rax; g_rbx := rbx; g_rcx := rcx; g_rdx := rdx; g_rsi := rsi; g_rdi := rdi;
        g_rbp := rbp; g_rsp := rsp; g_r8 := r8; g_r9 := r9; g_r10 := r10; g_r11 := r11;
        g_r12 := r12; g_r13 := r13; g_r14 := r14; g_r15 := r15;
        g_rip := rip; g_rflags := rflags; g_fs_base := 0 |}.

Definition write_siginfo (addr signal code fault_address : Z) : Writer M unit :=
  do* write_u32 (wadd addr SIGINFO_SIGNO_OFFSET) signal;
  do* write_i32 (wadd addr SIGINFO_ERRNO_OFFSET) 0;
  do* write_i32 (wadd addr SIGINFO_CODE_OFFSET) code;
  write_u64 (wadd addr SIGINFO_ADDR_OFFSET) fault_address.

(** What the frame holds. *)
Definition write_frame (frame uc mcontext siginfo restorer : Z) (r : GuestRegisters)
    (signal signal_mask fault_address : Z) (alt_stack : option GuestSignalAltStack) : Writer M unit :=
  do* writer frame (zero_vec X86_64_RT_SIGFRAME_SIZE);
  do* write_u64 (wadd frame RT_SIGFRAME_PRETCODE_OFFSET) restorer;
  do* write_u64 (wadd uc UCONTEXT_UC_FLAGS_OFFSET) 0;
  do* write_u64 (wadd uc UCONTEXT_UC_LINK_OFFSET) 0;
  do* write_signal_stack (wadd uc UCONTEXT_STACK_OFFSET) alt_stack;
  do* write_sigcontext mcontext r signal_mask fault_address;
  do* write_u64 (wadd uc UCONTEXT_SIGMASK_OFFSET) signal_mask;
  write_siginfo siginfo signal LINUX_SEGV_MAPERR fault_address.

Definition setup_rt_signal_frame (r : GuestRegisters) (action : GuestSignalAction)
    (signal signal_mask fault_address : Z) (alt_stack : option GuestSignalAltStack) : Writer M GuestRegisters :=
  if (sa_action action =? LINUX_SIG_DFL) || (sa_action action =? LINUX_SIG_IGN)
     || (Z.land (sa_flags action) LINUX_SA_RESTORER =? 0) || (sa_restorer action =? 0)
  then throw EINVAL else
  let* frame := lift (signal_frame_address (g_rsp r) (sa_flags action) alt_stack) in
  let* uc := lift (fault_add frame RT_SIGFRAME_UCONTEXT_OFFSET) in
  let* mcontext := lift (fault_add uc UCONTEXT_MCONTEXT_OFFSET) in
  let* siginfo := lift (fault_add frame RT_SIGFRAME_SIGINFO_OFFSET) in
  do* write_frame frame uc mcontext siginfo (sa_restorer action) r signal signal_mask fault_address alt_stack;
  ret (handler_registers r (sa_action action) signal frame uc siginfo).

Definition restore_rt_signal_frame (r : GuestRegisters) : Reader M RestoredSignalFrame := λ m,
  let? frame := ok_or (checked_sub64 (g_rsp r) 8) EFAULT in
  let? uc := fault_add frame RT_SIGFRAME_UCONTEXT_OFFSET in
  let? mcontext := fault_add uc UCONTEXT_MCONTEXT_OFFSET in
  let? signal_mask := read_guest_u64 (wadd uc UCONTEXT_SIGMASK_OFFSET) m in
  let? restored := read_sigcontext mcontext m in
  Ok {| rs_registers := set_fs_base (g_fs_base r) restored; rs_signal_mask := signal_mask |}.

(** ** [stack_t] *)
Definition read_guest_stack_t (addr : Z) : Reader M GuestSignalAltStack := λ m,
  let? sp := read_guest_u64 addr m in
  let? a := fault_add addr LINUX_STACK_T_FLAGS_OFFSET in
  let? flags := read_guest_u32 a m in
  let? a := fault_add addr LINUX_STACK_T_SIZE_OFFSET in
  let? size := read_guest_u64 a m in
  Ok {| ss_sp := sp; ss_flags := flags; ss_size := size |}.

Definition write_guest_stack_t (addr : Z) (stack : GuestSignalAltStack) : Writer M unit :=
  do* writer addr (le_bytes 8 (ss_sp stack));
  let* a := lift (fault_add addr LINUX_STACK_T_FLAGS_OFFSET) in
  do* writer a (le_bytes 4 (ss_flags stack));
  let* a := lift (fault_add addr LINUX_STACK_T_SIZE_OFFSET) in
  writer a (le_bytes 8 (ss_size stack)).
End frame.

(** ** mcr-runtime: signal handlers return to where they interrupted

    Against any memory that keeps [GuestMemoryAccessLaws]. *)

Section frame.
Context {M : Type} {access : SysCodec.GuestMemoryAccess M} (view : M → Z → option Z) (I : M → Prop)
  {laws : SysCodec.GuestMemoryAccessLaws M view I}.

(** ** Fields of a structure

    A field is its offset, its size and its value; [size] is the size of the structure. *)
Definition Field : Type := Z * nat * Z.

Definition field_holds (m : M) (base : Z) (f : Field) : Prop :=
  holds_bytes view m (base + f.1.1) (le_bytes f.1.2 f.2).

Definition field_apart (f g : Field) : bool :=
  (f.1.1 + Z.of_nat f.1.2 <=? g.1.1) || (g.1.1 + Z.of_nat g.1.2 <=? f.1.1).

Definition field_within (size : Z) (f : Field) : bool := (0 <=? f.1.1) && (f.1.1 + Z.of_nat f.1.2 <=? size).

(** The structure at [base] has the fields [fs]. *)
Record holds_fields (m : M) (base size : Z) (fs : list Field) : Prop := {
  hf_inv : I m;
  hf_readable : readable view m base size;
  hf_fields : Forall (field_holds m base) fs;
}.

Lemma write_field m base size fs off n v :
  holds_fields m base size fs → 0 ≤ base → base + size < 2 ^ 64 →
  field_within size (off, n, v) = true → forallb (field_apart (off, n, v)) fs = true →
  wp (writer (wadd base off) (le_bytes n v)) (λ _ m', holds_fields m' base size ((off, n, v) :: fs)) (λ e _, e = EFAULT) m.
Proof.
  intros [HI Hr Hfs] Hb Hfit Hin Hap. unfold field_within in Hin. simpl in Hin. bprop. rewrite wadd_exact by lia.
  eapply wp_mono; [apply (writer_wp view I); [done|lia]|cbv beta|by intros e m' [? _]].
  intros _ m' Hw. split.
  - apply Hw.
  - by apply (wr_readable _ _ _ _ _ _ Hw).
  - constructor.
    + apply (wr_bytes _ _ _ _ _ _ Hw). eapply readable_sub; [exact Hr|..]; rewrite ?zlen_le_bytes; simpl; lia.
    + rewrite Forall_forall in Hfs |- *. intros f Hf. apply (wr_other _ _ _ _ _ _ Hw); [|by apply Hfs].
      rewrite forallb_forall in Hap. specialize (Hap f (proj1 (list_elem_of_In _ _) Hf)).
      unfold field_apart in Hap. unfold apart. rewrite !zlen_le_bytes. simpl in Hap. apply orb_true_iff in Hap as [?|?]; bprop; lia.
Qed.

Lemma read_field m base size fs off v i :
  holds_fields m base size fs → 0 ≤ base → base + size < 2 ^ 64 → is_u64 v →
  fs !! i = Some (off, 8%nat, v) → field_within size (off, 8%nat, v) = true →
  read_guest_u64 (wadd base off) m = Ok v.
Proof.
  intros [HI Hr Hfs] Hb Hfit Hv Hi Hin. unfold field_within in Hin. simpl in Hin. bprop. rewrite wadd_exact by lia.
  apply (u64_holds view I); [done|lia|lia|done|].
  rewrite Forall_lookup in Hfs. exact (Hfs _ _ Hi).
Qed.

Lemma read_field32 m base size fs off v i :
  holds_fields m base size fs → 0 ≤ base → base + size < 2 ^ 64 → is_u32 v →
  fs !! i = Some (off, 4%nat, v) → field_within size (off, 4%nat, v) = true →
  read_guest_u32 (base + off) m = Ok v.
Proof.
  intros [HI Hr Hfs] Hb Hfit Hv Hi Hin. unfold field_within in Hin. simpl in Hin. bprop.
  apply (u32_holds view I); [done|lia|lia|done|].
  rewrite Forall_lookup in Hfs. exact (Hfs _ _ Hi).
Qed.

(** ** The frame *)
Definition registers_fit (r : GuestRegisters) : Prop :=
  is_u64 (g_rax r) ∧ is_u64 (g_rbx r) ∧ is_u64 (g_rcx r) ∧ is_u64 (g_rdx r) ∧ is_u64 (g_rsi r) ∧ is_u64 (g_rdi r) ∧
  is_u64 (g_rbp r) ∧ is_u64 (g_rsp r) ∧ is_u64 (g_r8 r) ∧ is_u64 (g_r9 r) ∧ is_u64 (g_r10 r) ∧ is_u64 (g_r11 r) ∧
  is_u64 (g_r12 r) ∧ is_u64 (g_r13 r) ∧ is_u64 (g_r14 r) ∧ is_u64 (g_r15 r) ∧ is_u64 (g_rip r) ∧ is_u64 (g_rflags r).

(** The fields of the frame, the last one written first. *)
Definition frame_fields (restorer : Z) (r : GuestRegisters) (signal mask fault : Z)
    (alt : option GuestSignalAltStack) : list Field :=
  let stack := default alt_stack_disabled_value alt in
  [(328, 8%nat, fault); (320, 4%nat, LINUX_SEGV_MAPERR); (316, 4%nat, 0); (312, 4%nat, signal);
   (304, 8%nat, mask);
   (232, 8%nat, 0); (224, 8%nat, fault); (216, 8%nat, mask); (208, 8%nat, 14); (200, 8%nat, 0);
   (198, 2%nat, 0x2b); (196, 2%nat, 0); (194, 2%nat, 0); (192, 2%nat, 0x33);
   (184, 8%nat, g_rflags r); (176, 8%nat, g_rip r); (168, 8%nat, g_rsp r); (160, 8%nat, g_rcx r); (152, 8%nat, g_rax r);
   (144, 8%nat, g_rdx r); (136, 8%nat, g_rbx r); (128, 8%nat, g_rbp r); (120, 8%nat, g_rsi r); (112, 8%nat, g_rdi r);
   (104, 8%nat, g_r15 r); (96, 8%nat, g_r14 r); (88, 8%nat, g_r13 r); (80, 8%nat, g_r12 r);
   (72, 8%nat, g_r11 r); (64, 8%nat, g_r10 r); (56, 8%nat, g_r9 r); (48, 8%nat, g_r8 r);
   (40, 8%nat, ss_size stack); (36, 4%nat, 0); (32, 4%nat, ss_flags stack); (24, 8%nat, ss_sp stack);
   (16, 8%nat, 0); (8, 8%nat, 0); (0, 8%nat, restorer)].

(** [base + a + b] as the code adds it up. *)
Lemma wadd_wadd base a b : wadd (wadd base a) b = wadd base (a + b).
Proof. unfold wadd, wrap64. rewrite Zplus_mod_idemp_l. f_equal. lia. Qed.

Lemma wadd_plus base a b : wadd (base + a) b = wadd base (a + b).
Proof. unfold wadd, wrap64. f_equal. lia. Qed.

Lemma wadd_zero base : is_u64 base → wadd base 0 = base.
Proof. intros H. unfold is_u64 in H. rewrite wadd_exact; lia. Qed.

Ltac field_write Hb Hfit :=
  rewrite ?wadd_wadd, ?wadd_plus;
  eapply wp_mono; [eapply write_field; [eassumption|exact Hb|exact Hfit|reflexivity|reflexivity]|cbv beta|done];
  let m := fresh "m" in let Hm := fresh "Hm" in intros _ m Hm.

Lemma write_frame_wp m frame restorer r signal mask fault alt :
  I m → 0 ≤ frame → frame + 440 < 2 ^ 64 → readable view m frame 440 →
  wp (write_frame frame (frame + 8) (frame + 8 + 40) (frame + 312) restorer r signal mask fault alt)
    (λ _ m', holds_fields m' frame 440 (frame_fields restorer r signal mask fault alt)) (λ e _, e = EFAULT) m.
Proof.
  intros HI Hb Hfit Hr. unfold write_frame. apply wp_bind.
  eapply wp_mono; [by apply (writer_wp view I)|cbv beta|by intros e m' [? _]]. intros _ m0 Hw.
  assert (Hm0 : holds_fields m0 frame 440 []) by (split; [apply Hw|by apply (wr_readable _ _ _ _ _ _ Hw)|done]).
  clear Hw HI Hr. unfold write_u64, write_u32.
  do 3 (apply wp_bind; field_write Hb Hfit).
  apply wp_bind. unfold write_signal_stack, write_u64, write_u32. do 3 (apply wp_bind; field_write Hb Hfit). field_write Hb Hfit.
  apply wp_bind. unfold write_sigcontext, write_u64, write_u16. do 26 (apply wp_bind; field_write Hb Hfit). field_write Hb Hfit.
  apply wp_bind; field_write Hb Hfit.
  unfold write_siginfo, write_u32, write_i32, write_u64. do 3 (apply wp_bind; field_write Hb Hfit). field_write Hb Hfit.
  eassumption.
Qed.

(** Reads field [i] of a frame, which holds [v]. *)
Ltac field_read Hf Hb Hfit i v :=
  match goal with |- context [read_guest_u64 (wadd _ ?o) _] =>
    rewrite (read_field _ _ _ _ o v i Hf Hb Hfit ltac:(assumption) eq_refl eq_refl)
  end; cbn [obind].

(** Every register of the frame is read back. *)
Lemma read_sigcontext_frame m frame restorer r signal mask fault alt :
  holds_fields m frame 440 (frame_fields restorer r signal mask fault alt) → 0 ≤ frame → frame + 440 < 2 ^ 64 →
  registers_fit r → read_sigcontext (frame + 8 + 40) m = Ok (set_fs_base 0 r).
Proof.
  intros Hf Hb Hfit (?&?&?&?&?&?&?&?&?&?&?&?&?&?&?&?&?&?). unfold read_sigcontext. rewrite !wadd_plus.
  field_read Hf Hb Hfit 31%nat (g_r8 r). field_read Hf Hb Hfit 30%nat (g_r9 r). field_read Hf Hb Hfit 29%nat (g_r10 r).
  field_read Hf Hb Hfit 28%nat (g_r11 r). field_read Hf Hb Hfit 27%nat (g_r12 r). field_read Hf Hb Hfit 26%nat (g_r13 r).
  field_read Hf Hb Hfit 25%nat (g_r14 r). field_read Hf Hb Hfit 24%nat (g_r15 r). field_read Hf Hb Hfit 23%nat (g_rdi r).
  field_read Hf Hb Hfit 22%nat (g_rsi r). field_read Hf Hb Hfit 21%nat (g_rbp r). field_read Hf Hb Hfit 20%nat (g_rbx r).
  field_read Hf Hb Hfit 19%nat (g_rdx r). field_read Hf Hb Hfit 18%nat (g_rax r). field_read Hf Hb Hfit 17%nat (g_rcx r).
  field_read Hf Hb Hfit 16%nat (g_rsp r). field_read Hf Hb Hfit 15%nat (g_rip r). field_read Hf Hb Hfit 14%nat (g_rflags r).
  reflexivity.
Qed.


(** The handler's second and third argument lead to the signal and to the interrupted context. *)
Record arguments_of (m : M) (r : GuestRegisters) (signal mask fault siginfo uc : Z) : Prop := {
  ao_signal : read_guest_u32 (siginfo + SIGINFO_SIGNO_OFFSET) m = Ok signal;
  ao_errno : read_guest_u32 (siginfo + SIGINFO_ERRNO_OFFSET) m = Ok 0;
  ao_code : read_guest_u32 (siginfo + SIGINFO_CODE_OFFSET) m = Ok LINUX_SEGV_MAPERR;
  ao_fault : read_guest_u64 (siginfo + SIGINFO_ADDR_OFFSET) m = Ok fault;
  ao_registers : read_sigcontext (uc + UCONTEXT_MCONTEXT_OFFSET) m = Ok (set_fs_base 0 r);
  ao_mask : read_guest_u64 (uc + UCONTEXT_SIGMASK_OFFSET) m = Ok mask;
}.

Lemma arguments_of_frame m frame restorer r signal mask fault alt :
  holds_fields m frame 440 (frame_fields restorer r signal mask fault alt) → 0 ≤ frame → frame + 440 < 2 ^ 64 →
  registers_fit r → is_u32 signal → is_u64 mask → is_u64 fault →
  arguments_of m r signal mask fault (frame + 312) (frame + 8).
Proof.
  intros Hf Hb Hfit Hr Hs Hm Ha.
  assert (H64 : ∀ off v i, is_u64 v → frame_fields restorer r signal mask fault alt !! i = Some (off, 8%nat, v) →
    field_within 440 (off, 8%nat, v) = true → read_guest_u64 (frame + off) m = Ok v).
  { intros off v i Hv Hi Hin. rewrite <- (wadd_exact frame off).
    - by apply (read_field m frame 440 _ off v i Hf).
    - unfold field_within in Hin. simpl in Hin. bprop. lia. }
  split; rewrite <- ?Z.add_assoc.
  - by apply (read_field32 m frame 440 _ _ _ 3%nat Hf).
  - by apply (read_field32 m frame 440 _ _ _ 2%nat Hf).
  - by apply (read_field32 m frame 440 _ _ _ 1%nat Hf).
  - by apply (H64 _ _ 0%nat).
  - rewrite Z.add_assoc. by apply (read_sigcontext_frame m frame restorer r signal mask fault alt).
  - by apply (H64 _ _ 4%nat).
Qed.

Lemma holds_fields_same m m' base size fs :
  holds_fields m base size fs → I m' → (∀ a, base ≤ a < base + size → view m' a = view m a) →
  forallb (field_within size) fs = true → holds_fields m' base size fs.
Proof.
  intros [HI Hr Hfs] HI' Hv Hin. split; [done|..].
  - intros a Ha. rewrite Hv by done. by apply Hr.
  - rewrite forallb_forall in Hin. rewrite Forall_forall in Hfs |- *. intros f Hf i b Hb.
    specialize (Hin f (proj1 (list_elem_of_In _ _) Hf)). unfold field_within in Hin. bprop.
    pose proof (byte_at_bound _ _ _ Hb) as Hlt. rewrite zlen_le_bytes in Hlt. rewrite Hv by lia. by apply (Hfs f Hf).
Qed.

Lemma restore_frame m r' frame restorer r signal mask fault alt :
  holds_fields m frame 440 (frame_fields restorer r signal mask fault alt) → 0 ≤ frame → frame + 440 < 2 ^ 64 →
  registers_fit r → is_u64 mask → g_rsp r' = frame + 8 →
  restore_rt_signal_frame r' m = Ok {| rs_registers := set_fs_base (g_fs_base r') r; rs_signal_mask := mask |}.
Proof.
  intros Hf Hb Hfit Hr Hm Hsp. unfold restore_rt_signal_frame. rewrite Hsp, checked_sub64_fit by lia. cbn [ok_or obind].
  replace (frame + 8 - 8) with frame by lia. unfold fault_add, RT_SIGFRAME_UCONTEXT_OFFSET, UCONTEXT_MCONTEXT_OFFSET.
  rewrite checked_add64_fit by lia. cbn [ok_or obind]. rewrite checked_add64_fit by lia. cbn [ok_or obind].
  rewrite wadd_plus. field_read Hf Hb Hfit 4%nat mask. by rewrite (read_sigcontext_frame m frame restorer r signal mask fault alt).
Qed.
End frame.

(** ** Where the frame is *)
Lemma ldiff_15 v : Z.ldiff v 15 = v - v mod 16.
Proof.
  change 15 with (Z.ones 4). rewrite Z.ldiff_ones_r, Z.shiftr_div_pow2, Z.shiftl_mul_pow2 by lia. change (2 ^ 4) with 16.
  pose proof (Z.div_mod v 16 ltac:(lia)). lia.
Qed.

(** Whether the handler moves to the alternate stack. *)
Definition switches_stack (rsp flags : Z) (alt : option GuestSignalAltStack) : option GuestSignalAltStack :=
  s ← alt; if negb (Z.land flags LINUX_SA_ONSTACK =? 0) && negb (disabled s) && negb (on_signal_stack rsp s)
           then Some s else None.

(** The frame lies under [top], the end of the stack it is put on. *)
Definition frame_top (rsp flags : Z) (alt : option GuestSignalAltStack) : Z :=
  match switches_stack rsp flags alt with Some s => ss_sp s + ss_size s | None => rsp - X86_64_SIGNAL_RED_ZONE end.

Lemma signal_frame_address_spec rsp flags alt frame :
  rsp < 2 ^ 64 → signal_frame_address rsp flags alt = Ok frame →
  0 ≤ frame ∧ frame mod 16 = 8 ∧ frame_top rsp flags alt - 464 < frame ≤ frame_top rsp flags alt - 448 ∧
  frame_top rsp flags alt < 2 ^ 64.
Proof.
  intros Hrsp He. unfold signal_frame_address in He.
  destruct (checked_sub64 rsp X86_64_SIGNAL_RED_ZONE) as [sp|] eqn:E1; [|done]. apply checked_sub64_Some in E1 as [-> E1].
  cbn [ok_or obind] in He.
  assert (Htop : ∃ top, top = frame_top rsp flags alt ∧ top < 2 ^ 64 ∧
    (let? sp := ok_or (checked_sub64 top X86_64_RT_SIGFRAME_SIZE) EFAULT in
     ok_or (checked_sub64 (round_down sp X86_64_FRAME_ALIGNMENT) 8) EFAULT) = Ok frame).
  { unfold frame_top, switches_stack. unfold X86_64_SIGNAL_RED_ZONE in *. destruct alt as [s|]; cbn [mbind option_bind].
    - destruct (negb _ && _ && _).
      + destruct (checked_add64 (ss_sp s) (ss_size s)) as [t|] eqn:E; [|done]. apply checked_add64_Some in E as [-> ?].
        eexists. split; [done|]. split; [lia|exact He].
      + eexists. split; [done|]. split; [lia|exact He].
    - eexists. split; [done|]. split; [lia|exact He]. }
  clear He. destruct Htop as (top & <- & Hlt & He). unfold X86_64_RT_SIGFRAME_SIZE, round_down, X86_64_FRAME_ALIGNMENT in He.
  destruct (checked_sub64 top 440) as [a|] eqn:E2; [|done]. apply checked_sub64_Some in E2 as [-> E2].
  cbn [ok_or obind] in He. change (16 - 1) with 15 in He. rewrite ldiff_15 in He.
  pose proof (Z.mod_pos_bound (top - 440) 16 ltac:(lia)). pose proof (Z.div_mod (top - 440) 16 ltac:(lia)).
  destruct (checked_sub64 _ 8) as [f|] eqn:E3; [|done]. apply checked_sub64_Some in E3 as [-> E3]. injection He as <-.
  split; [lia|]. split; [|lia].
  symmetry. apply (Z.mod_unique _ 16 ((top - 440) / 16 - 1)); lia.
Qed.

(** ** The properties *)

(** C13. A handler that is entered through [setup_rt_signal_frame] gets its signal, the address of
    a siginfo that holds the signal, the code and the faulting address, the address of a ucontext
    that holds the registers and the mask of the interrupted code, and a stack aligned the way the ABI asks for at a function's entry, below
    the red zone of the code it interrupts or at the top of the alternate stack, which it never
    leaves.  When the handler returns (through the restorer, whose address is on top) and the
    frame is as it was written, whatever else the guest's memory holds, [restore_rt_signal_frame] gives
    every register and the signal mask of the interrupted code, with the [fs] base of the
    moment.  The set-up fails only with EFAULT. *)
Theorem sigreturn_restores {M : Type} {access : SysCodec.GuestMemoryAccess M} (view : M → Z → option Z)
    (I : M → Prop) {laws : SysCodec.GuestMemoryAccessLaws M view I}
    (m : M) (r : GuestRegisters) (action : GuestSignalAction) (signal mask fault frame : Z)
    (alt : option GuestSignalAltStack)
    (HI : I m) (Hr : registers_fit r) (Hsignal : is_u32 signal) (Hmask : is_u64 mask) (Hfault : is_u64 fault)
    (Hact : sa_action action ≠ LINUX_SIG_DFL ∧ sa_action action ≠ LINUX_SIG_IGN)
    (Hres : Z.land (sa_flags action) LINUX_SA_RESTORER ≠ 0 ∧ sa_restorer action ≠ 0 ∧ is_u64 (sa_restorer action))
    (Halt : match alt with Some s => validate_sigaltstack s = Ok tt | None => True end)
    (Hframe : signal_frame_address (g_rsp r) (sa_flags action) alt = Ok frame)
    (Hmem : readable view m frame 440) :
  wp (setup_rt_signal_frame r action signal mask fault alt)
    (λ h m', I m' ∧ g_rip h = sa_action action ∧ g_rsp h = frame ∧ frame mod 16 = 8 ∧ g_fs_base h = g_fs_base r ∧
       g_rdi h = signal ∧ g_rsi h = frame + RT_SIGFRAME_SIGINFO_OFFSET ∧ g_rdx h = frame + RT_SIGFRAME_UCONTEXT_OFFSET ∧
       arguments_of m' r signal mask fault (g_rsi h) (g_rdx h) ∧
       match switches_stack (g_rsp r) (sa_flags action) alt with
       | Some s => ss_sp s < frame ∧ frame + 448 ≤ ss_sp s + ss_size s
       | None => frame + 448 ≤ g_rsp r - 128
       end ∧
       read_guest_u64 frame m' = Ok (sa_restorer action) ∧
       ∀ m'' r', I m'' → (∀ a, frame ≤ a < frame + 440 → view m'' a = view m' a) → g_rsp r' = frame + 8 →
         restore_rt_signal_frame r' m'' =
           Ok {| rs_registers := set_fs_base (g_fs_base r') r; rs_signal_mask := mask |})
    (λ e _, e = EFAULT) m.
Proof.
  destruct Hact as [Ha1 Ha2], Hres as (Ha3 & Ha4 & Ha5).
  assert (Hrsp : g_rsp r < 2 ^ 64) by (destruct Hr as (_&_&_&_&_&_&_&[_ Hs]&_); exact Hs).
  destruct (signal_frame_address_spec _ _ _ _ Hrsp Hframe) as (Hf0 & Hmod & Hin & Htop).
  unfold setup_rt_signal_frame. rewrite !(proj2 (Z.eqb_neq _ _)) by done. cbv [orb].
  rewrite Hframe. apply wp_bind, wp_lift; [|done..]. intros ? [= <-].
  unfold fault_add, RT_SIGFRAME_UCONTEXT_OFFSET, UCONTEXT_MCONTEXT_OFFSET, RT_SIGFRAME_SIGINFO_OFFSET.
  do 3 (rewrite checked_add64_fit by lia; cbn [ok_or]; apply wp_bind, wp_lift; [|done..]; intros ? [= <-]).
  apply wp_bind. eapply wp_mono; [apply (write_frame_wp view I); [done|lia|lia|done]|cbv beta|done].
  intros _ m' Hh. apply wp_ret. cbn [handler_registers g_rip g_rdi g_rsi g_rdx g_rsp g_fs_base].
  split; [apply Hh|]. do 7 (split; [done|]).
  split; [by apply (arguments_of_frame view I _ _ _ _ _ _ _ _ Hh); [lia|lia|..]|]. split; [|split].
  - unfold frame_top in Hin, Htop. destruct (switches_stack _ _ _) as [s|] eqn:Es; [|unfold X86_64_SIGNAL_RED_ZONE in Hin; lia].
    unfold switches_stack in Es. destruct alt as [s'|]; [|done]. cbn [mbind option_bind] in Es.
    destruct (negb (Z.land _ _ =? 0)); [|done]. destruct (disabled s') eqn:Ed; [done|].
    destruct (negb (on_signal_stack _ _)); [|done]. cbn in Es. injection Es as ->.
    unfold validate_sigaltstack, LINUX_MINSIGSTKSZ in Halt. rewrite Ed in Halt. destruct (negb _); [done|]. cbn [negb andb] in Halt.
    destruct (Z.ltb_spec (ss_size s) 2048); [done|]. lia.
  - rewrite <- (wadd_zero frame) by (unfold is_u64; lia). eapply (read_field view I m' frame 440 _ 0 _ 38%nat); [exact Hh|lia|lia|done|reflexivity|reflexivity].
  - intros m'' r' HI'' Hsame Hsp. eapply (restore_frame view I); [|done|lia|done|done|exact Hsp].
    eapply (holds_fields_same view I); [exact Hh|exact HI''|exact Hsame|reflexivity].
Qed.

#[local] Existing Instances GuestMemoryTheorems.PlainOs GuestMemoryTheorems.PlainOsLaws.

(** A handler on the page of [page_world], with 0x700800 as its stack. *)
Definition sample_registers : GuestRegisters :=
  {| g_rax := 1; g_rbx := 2; g_rcx := 3; g_rdx := 4; g_rsi := 5; g_rdi := 6; g_rbp := 7; g_rsp := 0x700800;
     g_r8 := 8; g_r9 := 9; g_r10 := 10; g_r11 := 11; g_r12 := 12; g_r13 := 13; g_r14 := 14; g_r15 := 2 ^ 64 - 1;
     g_rip := 0x400000; g_rflags := 0x246; g_fs_base := 0x7000 |}.

Definition sample_action : GuestSignalAction :=
  {| sa_action := 0x401000; sa_flags := LINUX_SA_RESTORER; sa_restorer := 0x402000; sa_mask := 0 |}.

Lemma sigreturn_restores_witness :
  signal_frame_address 0x700800 LINUX_SA_RESTORER None = Ok 0x7005b8 ∧
  wp (setup_rt_signal_frame sample_registers sample_action 11 5 0x1234 None)
    (λ h m', world_wf m' ∧ g_rip h = 0x401000 ∧ g_rsp h = 0x7005b8 ∧ 0x7005b8 mod 16 = 8 ∧ g_fs_base h = 0x7000 ∧
       g_rdi h = 11 ∧ g_rsi h = 0x7005b8 + 312 ∧ g_rdx h = 0x7005b8 + 8 ∧
       arguments_of m' sample_registers 11 5 0x1234 (g_rsi h) (g_rdx h) ∧ 0x7005b8 + 448 ≤ 0x700800 - 128 ∧
       read_guest_u64 0x7005b8 m' = Ok 0x402000 ∧
       ∀ m'' r', world_wf m'' →
         (∀ a, 0x7005b8 ≤ a < 0x7005b8 + 440 → readable_byte m'' a = readable_byte m' a) →
         g_rsp r' = 0x7005b8 + 8 →
         restore_rt_signal_frame r' m'' =
           Ok {| rs_registers := set_fs_base (g_fs_base r') sample_registers; rs_signal_mask := 5 |})
    (λ e _, e = EFAULT) page_world.
Proof.
  assert (Hf : signal_frame_address 0x700800 LINUX_SA_RESTORER None = Ok 0x7005b8) by (vm_compute; reflexivity).
  split; [exact Hf|].
  apply (sigreturn_restores readable_byte world_wf page_world sample_registers sample_action 11 5 0x1234 0x7005b8 None).
  - exact page_world_wf.
  - unfold registers_fit, is_u64. simpl. lia.
  - unfold is_u32. lia.
  - unfold is_u64. lia.
  - unfold is_u64. lia.
  - split; discriminate.
  - split; [discriminate|]. split; [discriminate|]. unfold is_u64. simpl. lia.
  - exact I.
  - exact Hf.
  - apply readable_in_spec. vm_compute. reflexivity.
Defined.
