(* ===== verification/RtAbi.v ===== *)
(** * mcr-runtime: arguments and structures of the system calls

    The encodings of linux_abi.rs, and the pure helpers of lib.rs that read and write
    structures of the guest, convert poll masks and hold the fixed resource limits. *)

From S2P Require Import Prelude SysAbi Bytes SysCodec VfsTypes VfsPath VfsFd NetTypes.
From stdpp Require Import base list strings.
From Stdlib Require Import ZArith Lia.
Open Scope Z_scope.

Definition ERANGE : LinuxErrno := 34.
Definition EOVERFLOW : LinuxErrno := 75.

Definition LINUX_CLOCK_REALTIME : Z := 0.
Definition LINUX_CLOCK_MONOTONIC : Z := 1.
Definition LINUX_CLOCK_MONOTONIC_RAW : Z := 4.
Definition LINUX_CLOCK_REALTIME_COARSE : Z := 5.
Definition LINUX_CLOCK_MONOTONIC_COARSE : Z := 6.
Definition LINUX_CLOCK_BOOTTIME : Z := 7.
Definition LINUX_UTIME_NOW : Z := 0x3fffffff.
Definition LINUX_UTIME_OMIT : Z := 0x3ffffffe.
Definition LINUX_AT_EACCESS : Z := 0x200.
Definition LINUX_CLOSE_RANGE_SUPPORTED_FLAGS : Z := 0.
Definition LINUX_OPEN_HOW_SIZE : Z := 24.
Definition LINUX_OPEN_HOW_MAX_SIZE : Z := 4096.
Definition LINUX_STATFS_SIZE : Z := 120.
Definition LINUX_EXT_SUPER_MAGIC : Z := 0xef53.
Definition LINUX_TMPFS_MAGIC : Z := 0x01021994.
Definition LINUX_STATFS_BLOCK_SIZE : Z := 4096.
Definition LINUX_MSG_DONTWAIT : Z := 0x40.
Definition LINUX_MSG_NOSIGNAL : Z := 0x4000.
Definition LINUX_MSG_CMSG_CLOEXEC : Z := 0x40000000.
Definition LINUX_EPOLLIN : Z := 0x1.
Definition LINUX_EPOLLPRI : Z := 0x2.
Definition LINUX_EPOLLOUT : Z := 0x4.
Definition LINUX_EPOLLERR : Z := 0x8.
Definition LINUX_EPOLLHUP : Z := 0x10.
Definition EPOLL_EVENT_SIZE : Z := 12.
Definition LINUX_UTSNAME_FIELD_LEN : Z := 65.
Definition LINUX_POLL_READ_NORMAL : Z := Z.lor LINUX_POLLIN LINUX_POLLRDNORM.
Definition LINUX_POLL_WRITE_NORMAL : Z := Z.lor LINUX_POLLOUT LINUX_POLLWRNORM.

(** ** Arguments *)
Definition arg_i32 (args : SyscallArgs) (index : Z) : Z := as_i32 (arg args index).
Definition arg_u32 (args : SyscallArgs) (index : Z) : Z := as_u32 (arg args index).

(** A 64-bit [usize]: every register is one. *)
Definition usize_arg (args : SyscallArgs) (index : Z) : outcome Z LinuxErrno := Ok (arg args index).

Definition rt_outcome (result : outcome Z LinuxErrno) : outcome SyscallOutcome Empty_set :=
  match result with
  | Ok value => Ok (outcome_success value)
  | Err errno => Ok (outcome_errno errno)
  | Panic => Panic
  end.

Definition optional_linux_id (value : Z) : option Z := if value =? U32_MAX then None else Some value.

(** The descriptors of a [close_range], when there can be any. *)
Definition fd_range_bounds (first last : Z) : outcome (option (Z * Z)) LinuxErrno :=
  if last <? first then Err EINVAL else
  if I32_MAX <? first then Ok None else
  Ok (Some (first, Z.min last I32_MAX)).

Definition vfs_errno (e : VfsError) : LinuxErrno := linux_errno_value e.
Definition net_errno (e : SocketError) : LinuxErrno := socket_errno e.

Definition host_sync_errno (kind : HostErrorKind) : LinuxErrno :=
  match kind with
  | HostInvalidInput => EINVAL
  | HostInterrupted => EINTR
  | HostTimedOut => ETIMEDOUT
  | HostOutOfMemory => ENOMEM
  | _ => EIO
  end.

Definition validate_send_message_flags (flags : Z) (operation : SocketOperation) : outcome unit LinuxErrno :=
  if without_bits flags (Z.lor LINUX_MSG_NOSIGNAL LINUX_MSG_DONTWAIT) =? 0 then Ok tt
  else Err (net_errno (UnsupportedError operation ENOSYS)).

Definition validate_recv_message_flags (flags : Z) (operation : SocketOperation) : outcome unit LinuxErrno :=
  if without_bits flags (Z.lor LINUX_MSG_DONTWAIT LINUX_MSG_CMSG_CLOEXEC) =? 0 then Ok tt
  else Err (net_errno (UnsupportedError operation ENOSYS)).

(** ** Directory entries and attributes *)
Definition encode_dirents (entries : list DirectoryEntry) : outcome (list Z) LinuxErrno :=
  map_err vfs_errno (try_fold (λ bytes e, encode_linux_dirent64 e bytes) [] entries).

(** A field of a structure: [bytes[off..].copy_from_slice(field)]. *)
Definition put (off : Z) (field bytes : list Z) : list Z := splice bytes off field.

Definition encode_linux_stat (a : LinuxFileAttr) : list Z :=
  foldl (λ bytes '(off, field), put off field bytes) (zero_vec 144)
    [(0, le_bytes 8 1); (8, le_bytes 8 (at_inode a)); (16, le_bytes 8 (at_nlink a)); (24, le_bytes 4 (at_mode a));
     (28, le_bytes 4 (at_uid a)); (32, le_bytes 4 (at_gid a)); (40, le_bytes 8 0); (48, le_bytes 8 (at_size a));
     (56, le_bytes 8 (at_blksize a)); (64, le_bytes 8 (at_blocks a));
     (72, le_bytes 8 (as_u64 (at_atime_sec a))); (80, le_bytes 8 (as_u64 (at_atime_nsec a)));
     (88, le_bytes 8 (as_u64 (at_mtime_sec a))); (96, le_bytes 8 (as_u64 (at_mtime_nsec a)));
     (104, le_bytes 8 (as_u64 (at_ctime_sec a))); (112, le_bytes 8 (as_u64 (at_ctime_nsec a)))].

Definition encode_linux_statfs (s : LinuxStatfs) : list Z :=
  let magic := match sf_kind s with ExtLike => LINUX_EXT_SUPER_MAGIC | TmpfsLike => LINUX_TMPFS_MAGIC end in
  foldl (λ bytes '(off, field), put off field bytes) (zero_vec LINUX_STATFS_SIZE)
    [(0, le_bytes 8 magic); (8, le_bytes 8 (sf_block_size s)); (16, le_bytes 8 (sf_blocks s));
     (24, le_bytes 8 (sf_blocks_free s)); (32, le_bytes 8 (sf_blocks_available s)); (40, le_bytes 8 (sf_files s));
     (48, le_bytes 8 (sf_files_free s)); (56, le_bytes 8 1); (64, le_bytes 8 (sf_name_max s));
     (72, le_bytes 8 LINUX_STATFS_BLOCK_SIZE)].

(** [nsec as u32], and no reserved bits. *)
Definition statx_timestamp (sec nsec : Z) : list Z :=
  le_bytes 8 (as_u64 sec) ++ le_bytes 4 (as_u32 nsec) ++ le_bytes 4 0.

Definition encode_linux_statx (a : LinuxFileAttr) : list Z :=
  foldl (λ bytes '(off, field), put off field bytes) (zero_vec 256)
    [(0, le_bytes 4 0x17ff); (4, le_bytes 4 (as_u32 (at_blksize a))); (8, le_bytes 8 0);
     (16, le_bytes 4 (as_u32 (at_nlink a))); (20, le_bytes 4 (at_uid a)); (24, le_bytes 4 (at_gid a));
     (28, le_bytes 2 (Z.land (at_mode a) 0xffff)); (32, le_bytes 8 (at_inode a)); (40, le_bytes 8 (at_size a));
     (48, le_bytes 8 (at_blocks a)); (56, le_bytes 8 0);
     (64, statx_timestamp (at_atime_sec a) (at_atime_nsec a));
     (96, statx_timestamp (at_ctime_sec a) (at_ctime_nsec a));
     (112, statx_timestamp (at_mtime_sec a) (at_mtime_nsec a))].

(** ** Socket addresses of mcr-sys and mcr-net

    The slices of the path panic past its end, and so do the [expect]s. *)
Definition socket_address_from_linux {E} (address : LinuxSocketAddress) : outcome SocketAddress E :=
  match address with
  | LinuxUnix path len =>
      let? path := expect (slice path 0 len) in
      match unix_address path with Ok a => Ok a | _ => Panic end
  | LinuxInet address port => Ok (AddrInet address port)
  | LinuxInet6 address port flowinfo scope_id => Ok (AddrInet6 address port flowinfo scope_id)
  end.

Definition socket_address_to_linux {E} (address : SocketAddress) : outcome LinuxSocketAddress E :=
  match address with
  | AddrUnix path len =>
      let? path := expect (slice path 0 len) in
      match linux_unix path with Ok a => Ok a | _ => Panic end
  | AddrInet address port => Ok (LinuxInet address port)
  | AddrInet6 address port flowinfo scope_id => Ok (LinuxInet6 address port flowinfo scope_id)
  end.

(** ** Times *)
Definition poll_timeout (raw : Z) : outcome (option Z) LinuxErrno :=
  let timeout_ms := as_i32 raw in
  if timeout_ms <? 0 then Ok None else Ok (Some (timeout_ms * 1000000)).

Definition linux_timespec_from_duration (duration : Z) : outcome LinuxTimespec LinuxErrno :=
  if I64_MAX <? duration / 1000000000 then Err EOVERFLOW
  else Ok {| tv_sec := duration / 1000000000; tv_nsec := duration mod 1000000000 |}.

Definition resolve_utimensat_time (requested now : LinuxTimespec) (current : option LinuxFileAttr) (atime : bool)
    : outcome LinuxTimespec LinuxErrno :=
  if tv_nsec requested =? LINUX_UTIME_NOW then Ok now
  else if tv_nsec requested =? LINUX_UTIME_OMIT then
    let? current := ok_or current ENOENT in
    Ok (if atime then {| tv_sec := at_atime_sec current; tv_nsec := at_atime_nsec current |}
        else {| tv_sec := at_mtime_sec current; tv_nsec := at_mtime_nsec current |})
  else if (0 <=? tv_nsec requested) && (tv_nsec requested <=? 999999999) && (0 <=? tv_sec requested)
  then Ok requested else Err EINVAL.

Definition validate_clock_id (clock_id : Z) : outcome unit LinuxErrno :=
  if bool_decide (clock_id ∈ [LINUX_CLOCK_REALTIME; LINUX_CLOCK_MONOTONIC; LINUX_CLOCK_MONOTONIC_RAW;
                              LINUX_CLOCK_REALTIME_COARSE; LINUX_CLOCK_MONOTONIC_COARSE; LINUX_CLOCK_BOOTTIME])
  then Ok tt else Err EINVAL.

(** ** Resource limits *)
Definition fixed_rlimit (resource : Z) : outcome (Z * Z) LinuxErrno :=
  match resource with
  | 0 | 1 | 5 | 6 | 8 | 12 => Ok (U64_MAX, U64_MAX)
  | 2 | 4 => Ok (0, U64_MAX)
  | 3 => Ok (8 * 1024 * 1024, U64_MAX)
  | 7 => Ok (1024, 1024)
  | 9 => Ok (1024 * 1024 * 1024, 1024 * 1024 * 1024)
  | 10 | 11 | 13 | 14 | 15 => Ok (0, 0)
  | _ => Err EINVAL
  end.

(** ** Poll masks *)
Definition has_event (mask event : Z) : bool := negb (Z.land mask event =? 0).
Definition add_if (b : bool) (event mask : Z) : Z := if b then Z.lor mask event else mask.

Definition epoll_events_to_poll_events (events : Z) : Z :=
  add_if (has_event events LINUX_EPOLLPRI) LINUX_POLLPRI
    (add_if (has_event events LINUX_EPOLLOUT) LINUX_POLLOUT
      (add_if (has_event events LINUX_EPOLLIN) LINUX_POLLIN 0)).

Definition poll_revents_to_epoll_events (revents interest : Z) : Z :=
  add_if (has_event revents LINUX_POLLHUP) LINUX_EPOLLHUP
    (add_if (has_event revents LINUX_POLLERR) LINUX_EPOLLERR
      (add_if (has_event revents LINUX_POLLPRI && has_event interest LINUX_EPOLLPRI) LINUX_EPOLLPRI
        (add_if (has_event revents LINUX_POLLOUT && has_event interest LINUX_EPOLLOUT) LINUX_EPOLLOUT
          (add_if (has_event revents LINUX_POLLIN && has_event interest LINUX_EPOLLIN) LINUX_EPOLLIN 0)))).

Definition poll_revents_from_vfs (r : FdReadiness) (events : Z) : Z :=
  add_if (rd_hang_up r) LINUX_POLLHUP
    (add_if (rd_error r) LINUX_POLLERR
      (add_if (rd_writable r && has_event events LINUX_POLL_WRITE_NORMAL) (Z.land events LINUX_POLL_WRITE_NORMAL)
        (add_if (rd_readable r && has_event events LINUX_POLL_READ_NORMAL) (Z.land events LINUX_POLL_READ_NORMAL) 0))).

Definition poll_interest_to_socket_events (events : Z) : SocketEvents :=
  {| ev_readable := has_event events LINUX_POLL_READ_NORMAL; ev_writable := has_event events LINUX_POLL_WRITE_NORMAL;
     ev_priority := has_event events LINUX_POLLPRI; ev_error := false; ev_hang_up := false; ev_invalid := false |}.

Definition poll_revents_from_socket_events (r : SocketEvents) (events : Z) : Z :=
  add_if (ev_invalid r) LINUX_POLLNVAL
    (add_if (ev_hang_up r) LINUX_POLLHUP
      (add_if (ev_error r) LINUX_POLLERR
        (add_if (ev_priority r && has_event events LINUX_POLLPRI) LINUX_POLLPRI
          (add_if (ev_writable r && has_event events LINUX_POLL_WRITE_NORMAL) (Z.land events LINUX_POLL_WRITE_NORMAL)
            (add_if (ev_readable r && has_event events LINUX_POLL_READ_NORMAL)
                    (Z.land events LINUX_POLL_READ_NORMAL) 0))))).

Definition select_revents_readable (revents : Z) : bool :=
  has_event revents (Z.lor (Z.lor LINUX_POLL_READ_NORMAL LINUX_POLLERR) LINUX_POLLHUP).
Definition select_revents_writable (revents : Z) : bool :=
  has_event revents (Z.lor (Z.lor LINUX_POLL_WRITE_NORMAL LINUX_POLLERR) LINUX_POLLHUP).

(** ** Structures in the guest's memory *)
Record LinuxOpenHow : Type := { oh_flags : Z; oh_mode : Z; oh_resolve : Z }.
Record LinuxEpollEvent : Type := { ee_events : Z; ee_data : Z }.

Section memory.
Context {M : Type} {access : SysCodec.GuestMemoryAccess M}.

Definition clone3_field_addr (addr offset : Z) : outcome Z LinuxErrno := fault_add addr offset.

Definition clone3_field (addr offset : Z) : Reader M Z := λ m,
  let? a := clone3_field_addr addr offset in read_guest_u64 a m.

(** A field that only newer structures have. *)
Definition clone3_late_field (addr offset : Z) (present : bool) : Reader M Z := λ m,
  if present then clone3_field addr offset m else Ok 0.

Definition clone3_args_from_memory (addr size : Z) : Reader M CloneSyscallArgs := λ m,
  if addr =? 0 then Err EFAULT else
  if negb ((64 <=? size) && (size <=? 88)) then Err EINVAL else
  let? flags := clone3_field addr 0 m in
  let? pidfd := clone3_field addr 8 m in
  let? child_tid := clone3_field addr 16 m in
  let? parent_tid := clone3_field addr 24 m in
  let? exit_signal := clone3_field addr 32 m in
  let? stack := clone3_field addr 40 m in
  let? stack_size := clone3_field addr 48 m in
  let? tls := clone3_field addr 56 m in
  let? set_tid := clone3_late_field addr 64 (72 <=? size) m in
  let? set_tid_size := clone3_late_field addr 72 (80 <=? size) m in
  let? cgroup := clone3_late_field addr 80 (88 <=? size) m in
  if negb ((pidfd =? 0) && (set_tid =? 0) && (set_tid_size =? 0) && (cgroup =? 0)) then Err EINVAL else
  let? child_stack := if (stack =? 0) || (stack_size =? 0) then Ok stack
                      else ok_or (checked_add64 stack stack_size) EINVAL in
  Ok {| cl_flags := Z.lor flags exit_signal; cl_child_stack := child_stack; cl_parent_tid := parent_tid;
        cl_child_tid := child_tid; cl_tls := tls |}.

Definition read_open_how (addr size : Z) : Reader M LinuxOpenHow := λ m,
  if addr =? 0 then Err EFAULT else
  if negb ((LINUX_OPEN_HOW_SIZE <=? size) && (size <=? LINUX_OPEN_HOW_MAX_SIZE)) then Err EINVAL else
  let? bytes := reader addr size m in
  if existsb (λ b, negb (b =? 0)) (drop (Z.to_nat LINUX_OPEN_HOW_SIZE) bytes) then Err EINVAL else
  let? flags := read_le 8 bytes 0 in
  let? mode := read_le 8 bytes 8 in
  let? resolve := read_le 8 bytes 16 in
  Ok {| oh_flags := flags; oh_mode := mode; oh_resolve := resolve |}.

Definition write_guest_timeval (addr : Z) (t : LinuxTimespec) : Writer M unit :=
  let usec := Z.quot (tv_nsec t) 1000 in
  do* writer addr (le_bytes 8 (as_u64 (tv_sec t)));
  let* a := lift (fault_add addr 8) in writer a (le_bytes 8 (as_u64 usec)).

Definition write_guest_timezone_utc (addr : Z) : Writer M unit :=
  do* writer addr (le_bytes 4 0);
  let* a := lift (fault_add addr 4) in writer a (le_bytes 4 0).

Definition write_guest_rlimit (addr soft hard : Z) : Writer M unit :=
  do* writer addr (le_bytes 8 soft);
  let* a := lift (fault_add addr 8) in writer a (le_bytes 8 hard).

Definition read_guest_rlimit (addr : Z) : Reader M (Z * Z) := λ m,
  let? soft := read_guest_u64 addr m in
  let? a := fault_add addr 8 in
  let? hard := read_guest_u64 a m in
  Ok (soft, hard).

Definition write_guest_sysinfo (addr : Z) : Writer M unit :=
  writer addr (foldl (λ bytes '(off, field), put off field bytes) (zero_vec 112)
    [(0, le_bytes 8 3600); (8, le_bytes 8 0); (16, le_bytes 8 0); (24, le_bytes 8 0);
     (32, le_bytes 8 (512 * 1024 * 1024)); (40, le_bytes 8 (256 * 1024 * 1024)); (48, le_bytes 8 (256 * 1024 * 1024));
     (56, le_bytes 8 0); (64, le_bytes 8 0); (72, le_bytes 8 (32 * 1024)); (80, le_bytes 2 1);
     (88, le_bytes 8 (512 * 1024 * 1024)); (96, le_bytes 8 (256 * 1024 * 1024)); (104, le_bytes 4 1)]).

Definition read_epoll_event (addr : Z) : Reader M LinuxEpollEvent := λ m,
  let? bytes := reader addr EPOLL_EVENT_SIZE m in
  let? events := read_le 4 bytes 0 in
  let? data := read_le 8 bytes 4 in
  Ok {| ee_events := events; ee_data := data |}.

Definition write_epoll_event (addr : Z) (e : LinuxEpollEvent) : Writer M unit :=
  do* writer addr (le_bytes 4 (ee_events e));
  let* a := lift (fault_add addr 4) in writer a (le_bytes 8 (ee_data e)).

Definition read_futex_timeout (addr : Z) : Reader M (option Z) := λ m,
  if addr =? 0 then Ok None else
  let? tv_sec := read_guest_i64 addr m in
  let? a := fault_add addr 8 in
  let? tv_nsec := read_guest_i64 a m in
  if (tv_sec <? 0) || negb ((0 <=? tv_nsec) && (tv_nsec <? 1000000000)) then Err EINVAL
  else Ok (Some (duration_new tv_sec tv_nsec)).
End memory.
