(* ===== verification/RtFiles.v ===== *)
(** * mcr-runtime: the file system calls of the guest

    [RuntimeFileSystem] (filesystem.rs) joins the virtual file system, the table of sockets and
    the memory of the guest: a call decodes its arguments, reads what they point at, calls the
    component and writes the answer back.  The memory is the class [RuntimeMemoryAccess]
    (access.rs): a call that can borrow the guest's bytes works on them in place, another one
    goes through a buffer.  The clock of [utimensat] is an argument. *)

From S2P Require Import Prelude SysAbi SyscallTable Dispatcher Bytes SysCodec VfsTypes VfsPath VfsFd VfsCache VfsSystem NetTypes NetTable RtAbi.
From stdpp Require Import base gmap list strings.
From Stdlib Require Import ZArith Lia.
Open Scope Z_scope.

(** ** The memory (access.rs)

    [borrowed_bytes_mut] tells whether the bytes of a range can be borrowed for writing, after
    what it has to do for that; [fill_borrowed] is what a write through the borrow does.
    [read_c_string] is the provided method of [GuestMemoryAccess] that reads a path. *)
Class RuntimeMemoryAccess (M : Type) : Type := {
  runtime_access :: SysCodec.GuestMemoryAccess M;
  read_c_string : Z → Z → M → outcome string GuestMemoryAccessError;
  borrowed_bytes : Z → Z → M → outcome (option (list Z)) GuestMemoryAccessError;
  borrowed_bytes_mut : Z → Z → ST M GuestMemoryAccessError bool;
  fill_borrowed : Z → list Z → M → M;
}.

Definition SCRIPT_EXEC_RECURSION_LIMIT : nat := 4.
Definition LINUX_RWF_DSYNC : Z := 0x2.
Definition LINUX_RWF_SYNC : Z := 0x4.
Definition LINUX_RWF_NOAPPEND : Z := 0x20.
Definition LINUX_RWF_SYNC_FLAGS : Z := Z.lor LINUX_RWF_DSYNC LINUX_RWF_SYNC.
Definition LINUX_RWF_PWRITEV2_SUPPORTED : Z := Z.lor (Z.lor LINUX_RWF_DSYNC LINUX_RWF_SYNC) LINUX_RWF_NOAPPEND.
Definition PWRITEV2_USE_FILE_OFFSET : Z := U64_MAX.
Definition LINUX_FACCESSAT2_SUPPORTED_FLAGS : Z :=
  Z.lor (Z.lor AT_SYMLINK_NOFOLLOW AT_EMPTY_PATH) LINUX_AT_EACCESS.
Definition FIONBIO : Z := 0x5421.

Definition pwritev2_offset (pos_l pos_h : Z) : outcome Z LinuxErrno :=
  let offset := Z.lor (Z.shiftl (Z.land pos_h U32_MAX) 32) (Z.land pos_l U32_MAX) in
  if offset =? PWRITEV2_USE_FILE_OFFSET then Ok offset
  else if I64_MAX <? offset then Err EINVAL else Ok offset.

(** [SocketId::new]: the identifier is not zero. *)
Definition socket_id_new (raw : Z) : option Z := if raw =? 0 then None else Some raw.

Section runtime.
Context {M : Type} {memory_access : RuntimeMemoryAccess M}.
Context {host_fs : HostFs} {World Handle Transport BatchPoll : Type} {host_sockets : HostSockets World Handle Transport BatchPoll}.

Record RuntimeFileSystem : Type := {
  rf_vfs : Vfs; rf_memory : M; rf_sockets : Net (World := World) (Handle := Handle) (Transport := Transport);
}.

Definition RtM : Type → Type := ST RuntimeFileSystem LinuxErrno.

Definition set_rf_vfs (v : Vfs) (s : RuntimeFileSystem) : RuntimeFileSystem :=
  {| rf_vfs := v; rf_memory := rf_memory s; rf_sockets := rf_sockets s |}.
Definition set_rf_memory (m : M) (s : RuntimeFileSystem) : RuntimeFileSystem :=
  {| rf_vfs := rf_vfs s; rf_memory := m; rf_sockets := rf_sockets s |}.
Definition set_rf_sockets (n : Net) (s : RuntimeFileSystem) : RuntimeFileSystem :=
  {| rf_vfs := rf_vfs s; rf_memory := rf_memory s; rf_sockets := n |}.

(** The components' calls, with their errors as errnos. *)
Definition on_vfs {A} (m : VfsM A) : RtM A :=
  λ s, let (r, v) := m (rf_vfs s) in (map_err vfs_errno r, set_rf_vfs v s).
Definition on_sockets {A} (m : NetM A) : RtM A :=
  λ s, let (r, n) := m (rf_sockets s) in (map_err net_errno r, set_rf_sockets n s).
Definition on_memory {A} (m : Writer M A) : RtM A :=
  λ s, let (r, m) := m (rf_memory s) in (r, set_rf_memory m s).
Definition of_vfs {A} (f : Vfs → outcome A VfsError) : RtM A := λ s, (map_err vfs_errno (f (rf_vfs s)), s).
Definition of_memory {A} (f : Reader M A) : RtM A := λ s, (f (rf_memory s), s).

(** *** Memory *)
Definition read_path (addr : Z) : RtM string :=
  of_memory (λ m, map_err memory_errno (read_c_string addr 4096 m)).
Definition write_bytes_at (addr : Z) (bytes : list Z) : RtM unit := on_memory (writer addr bytes).
Definition write_stat (addr : Z) (a : LinuxFileAttr) : RtM unit := write_bytes_at addr (encode_linux_stat a).
Definition write_statx (addr : Z) (a : LinuxFileAttr) : RtM unit := write_bytes_at addr (encode_linux_statx a).
Definition write_statfs (addr : Z) (s : LinuxStatfs) : RtM unit := write_bytes_at addr (encode_linux_statfs s).

(** [if let Ok(Some(buffer)) = memory.borrowed_bytes_mut(addr, len)] *)
Definition try_borrow_mut (addr len : Z) : RtM bool :=
  λ s, let (r, m) := borrowed_bytes_mut addr len (rf_memory s) in
       (match r with Ok b => Ok b | Err _ => Ok false | Panic => Panic end, set_rf_memory m s).

(** [memory.borrowed_bytes(addr, len).map_err(memory_errno)?] *)
Definition borrow (addr len : Z) : RtM (option (list Z)) :=
  of_memory (λ m, map_err memory_errno (borrowed_bytes addr len m)).

(** What is written through a borrow of [len] bytes. *)
Definition fill (addr len : Z) (bytes : list Z) : RtM unit :=
  modify (λ s, set_rf_memory (fill_borrowed addr (take (Z.to_nat len) bytes) (rf_memory s)) s).

(** The bytes of the guest, borrowed or copied. *)
Definition guest_bytes (addr len : Z) : RtM (list Z) :=
  let* borrowed := borrow addr len in
  match borrowed with
  | Some bytes => ret bytes
  | None => let* buffer := lift (vec_zeroed len) in of_memory (reader addr (zlen buffer))
  end.

(** What [receive] delivers goes to the guest, into its own bytes or through a buffer. *)
Definition receive_into (addr len : Z) (receive : RtM (list Z)) : RtM Z :=
  let* borrowed := try_borrow_mut addr len in
  if borrowed then
    let* bytes := receive in do* fill addr len bytes; ret (zlen bytes)
  else
    let* _ := lift (vec_zeroed len) in
    let* bytes := receive in
    do* write_bytes_at addr bytes;
    ret (zlen bytes).

(** *** Descriptors of sockets *)
Definition socket_id_for_fd (fd : Z) : RtM Z :=
  let* raw := on_vfs (on_fds (VfsFd.socket_id_for_fd fd)) in lift (ok_or (socket_id_new raw) EBADF).

Definition socket_id_for_fd_or_none (fd : Z) : RtM (option Z) :=
  λ s, match VfsFd.socket_id_for_fd fd (v_fds (rf_vfs s)) with
       | (Ok raw, _) => (Ok (socket_id_new raw), s)
       | (Err NotSocket, _) => (Ok None, s)
       | (Err e, _) => (Err (vfs_errno e), s)
       | (Panic, _) => (Panic, s)
       end.

(** *** Opening *)
Definition open_file (dirfd : Z) (path : string) (flags mode : Z) : RtM Z :=
  let* fd := on_vfs (openat dirfd path (flags_new flags) mode) in ret (as_u64 fd).

Definition sys_openat (a : SyscallArgs) : RtM Z :=
  let* path := read_path (arg a 1) in open_file (arg_i32 a 0) path (arg_u32 a 2) (arg_u32 a 3).

Definition sys_openat2 (a : SyscallArgs) : RtM Z :=
  let* size := lift (usize_arg a 3) in
  let* how := of_memory (read_open_how (arg a 2) size) in
  if negb (oh_resolve how =? 0) then throw ENOSYS else
  let* path := read_path (arg a 1) in
  if U32_MAX <? oh_flags how then throw EINVAL else
  if U32_MAX <? oh_mode how then throw EINVAL else
  open_file (arg_i32 a 0) path (oh_flags how) (oh_mode how).

Definition sys_open (a : SyscallArgs) : RtM Z :=
  let* path := read_path (arg a 0) in open_file AT_FDCWD path (arg_u32 a 1) (arg_u32 a 2).

(** *** Reading and writing *)
Definition receive (socket_id : option Z) (fd len : Z) : RtM (list Z) :=
  match socket_id with
  | Some sid => on_sockets (recv_connected sid len)
  | None => on_vfs (VfsSystem.read fd len)
  end.

Definition send (socket_id : option Z) (fd : Z) (buffer : list Z) : RtM Z :=
  match socket_id with
  | Some sid => on_sockets (send_connected sid buffer)
  | None => on_vfs (VfsSystem.write fd buffer)
  end.

Definition sys_read (a : SyscallArgs) : RtM Z :=
  let fd := arg_i32 a 0 in
  let* len := lift (usize_arg a 2) in
  let* socket_id := socket_id_for_fd_or_none fd in
  receive_into (arg a 1) len (receive socket_id fd len).

Definition sys_write (a : SyscallArgs) : RtM Z :=
  let fd := arg_i32 a 0 in
  let* len := lift (usize_arg a 2) in
  let* buffer := guest_bytes (arg a 1) len in
  let* socket_id := socket_id_for_fd_or_none fd in
  send socket_id fd buffer.

Definition sys_sync_fd (a : SyscallArgs) : RtM Z :=
  do* of_vfs (λ v, sync_fd v (arg_i32 a 0)); ret 0.

Definition sys_pread64 (a : SyscallArgs) : RtM Z :=
  let* len := lift (usize_arg a 2) in
  if I64_MAX <? arg a 3 then throw EINVAL else
  receive_into (arg a 1) len (on_vfs (pread (arg_i32 a 0) (arg a 3) len)).

Definition sys_pwrite64 (a : SyscallArgs) : RtM Z :=
  let* len := lift (usize_arg a 2) in
  if I64_MAX <? arg a 3 then throw EINVAL else
  let* buffer := guest_bytes (arg a 1) len in
  on_vfs (pwrite (arg_i32 a 0) (arg a 3) buffer).

(** *** Vectors *)

(** [matches!(borrowed, Ok(Some(_)))] *)
Definition is_borrowed {A E} (o : outcome (option A) E) : outcome bool LinuxErrno :=
  match o with Ok (Some _) => Ok true | Ok None | Err _ => Ok false | Panic => Panic end.

Fixpoint iovecs_are_borrowable (iovecs : list LinuxIovec) : Reader M bool := λ m,
  match iovecs with
  | [] => Ok true
  | iovec :: iovecs =>
      let? b := is_borrowed (borrowed_bytes (iov_base iovec) (iov_len iovec) m) in
      if (b : bool) then iovecs_are_borrowable iovecs m else Ok false
  end.

Fixpoint iovecs_are_borrowable_mut (iovecs : list LinuxIovec) : RtM bool :=
  match iovecs with
  | [] => ret true
  | iovec :: iovecs =>
      let* b := try_borrow_mut (iov_base iovec) (iov_len iovec) in
      if (b : bool) then iovecs_are_borrowable_mut iovecs else ret false
  end.

Fixpoint borrowed_iovec_slices (iovecs : list LinuxIovec) : Reader M (option (list (list Z))) := λ m,
  match iovecs with
  | [] => Ok (Some [])
  | iovec :: iovecs =>
      let? bytes := map_err memory_errno (borrowed_bytes (iov_base iovec) (iov_len iovec) m) in
      match bytes with
      | None => Ok None
      | Some bytes =>
          let? slices := borrowed_iovec_slices iovecs m in
          Ok (match slices with Some slices => Some (bytes :: slices) | None => None end)
      end
  end.

(** A loop over the vectors: [step] moves one buffer and says how many bytes; a short one
    ends the loop. *)
Fixpoint iovec_loop (step : LinuxIovec → RtM Z) (iovecs : list LinuxIovec) (total : Z) : RtM Z :=
  match iovecs with
  | [] => ret total
  | item :: iovecs =>
      let* count := step item in
      let* total := lift (ok_or (checked_add64 total count) EINVAL) in
      if count <? iov_len item then ret total else iovec_loop step iovecs total
  end.

Definition borrowed_read_step (fd : Z) (item : LinuxIovec) : RtM Z :=
  let* borrowed := on_memory (λ m, let (r, m) := borrowed_bytes_mut (iov_base item) (iov_len item) m in
                                   (map_err memory_errno r, m)) in
  if (borrowed : bool) then
    let* bytes := on_vfs (VfsSystem.read fd (iov_len item)) in
    do* fill (iov_base item) (iov_len item) bytes;
    ret (zlen bytes)
  else lift Panic.

Definition copied_read_step (fd : Z) (item : LinuxIovec) : RtM Z :=
  let* buffer := lift (vec_zeroed (iov_len item)) in
  let* bytes := on_vfs (VfsSystem.read fd (zlen buffer)) in
  do* write_bytes_at (iov_base item) bytes;
  ret (zlen bytes).

Definition recv_connected_into_iovecs (sid : Z) (iovecs : list LinuxIovec) : RtM Z :=
  let* buffers := lift (iovec_output_buffers iovecs) in
  let lengths := map zlen buffers in
  let* bytes := on_sockets (recv_connected_vectored sid lengths) in
  do* on_memory (write_iovec_buffers iovecs (scatter_loop lengths bytes) (zlen bytes));
  ret (zlen bytes).

Definition sys_readv (a : SyscallArgs) : RtM Z :=
  let fd := arg_i32 a 0 in
  let* count := lift (usize_arg a 2) in
  let* iov := of_memory (read_iovecs (arg a 1) count) in
  let* socket_id := socket_id_for_fd_or_none fd in
  match socket_id with
  | Some sid => recv_connected_into_iovecs sid iov
  | None =>
      let* regular_fast_path := on_vfs (on_fds (can_regular_readv_fast_path fd)) in
      let* borrowable := iovecs_are_borrowable_mut iov in
      if borrowable then iovec_loop (borrowed_read_step fd) iov 0 else
      if (regular_fast_path : bool) then
        let* buffers := lift (iovec_output_buffers iov) in
        let* filled := on_vfs (readv_regular fd (map zlen buffers)) in
        let* filled := lift (expect filled) in
        let count := zlen (mjoin filled) in
        do* on_memory (write_iovec_buffers iov filled count);
        ret count
      else iovec_loop (copied_read_step fd) iov 0
  end.

Definition borrowed_write_step (fd : Z) (item : LinuxIovec) : RtM Z :=
  let* borrowed := borrow (iov_base item) (iov_len item) in
  let* buffer := lift (expect borrowed) in
  on_vfs (VfsSystem.write fd buffer).

Definition copied_write_step (fd : Z) (item : LinuxIovec) : RtM Z :=
  let* buffer := lift (vec_zeroed (iov_len item)) in
  let* buffer := of_memory (reader (iov_base item) (zlen buffer)) in
  on_vfs (VfsSystem.write fd buffer).

Definition sys_writev (a : SyscallArgs) : RtM Z :=
  let fd := arg_i32 a 0 in
  let* count := lift (usize_arg a 2) in
  let* iov := of_memory (read_iovecs (arg a 1) count) in
  let* socket_id := socket_id_for_fd_or_none fd in
  match socket_id with
  | Some sid =>
      let* slices := of_memory (borrowed_iovec_slices iov) in
      let* buffers := match slices with Some slices => ret slices | None => of_memory (read_iovec_buffers iov) end in
      on_sockets (send_connected_vectored sid buffers)
  | None =>
      let* regular_fast_path := on_vfs (on_fds (can_regular_writev_fast_path fd)) in
      let* borrowable := of_memory (iovecs_are_borrowable iov) in
      if (borrowable : bool) then iovec_loop (borrowed_write_step fd) iov 0 else
      if (regular_fast_path : bool) then
        let* buffers := of_memory (read_iovec_buffers iov) in
        let* count := on_vfs (writev_regular fd buffers) in
        lift (expect count)
      else iovec_loop (copied_write_step fd) iov 0
  end.

(** The vectors of [pwritev2], at growing offsets. *)
Fixpoint pwrite_iovecs (fd next_offset : Z) (iovecs : list LinuxIovec) (total : Z) : RtM Z :=
  match iovecs with
  | [] => ret total
  | item :: iovecs =>
      let* buffer := guest_bytes (iov_base item) (iov_len item) in
      let* count := on_vfs (pwrite fd next_offset buffer) in
      let* total := lift (ok_or (checked_add64 total count) EINVAL) in
      let* next_offset := lift (ok_or (checked_add64 next_offset count) EINVAL) in
      if count <? iov_len item then ret total else pwrite_iovecs fd next_offset iovecs total
  end.

Definition sys_pwritev2 (a : SyscallArgs) : RtM Z :=
  let flags := arg a 5 in
  if negb (without_bits flags LINUX_RWF_PWRITEV2_SUPPORTED =? 0) then throw EOPNOTSUPP else
  let* offset := lift (pwritev2_offset (arg a 3) (arg a 4)) in
  if offset =? PWRITEV2_USE_FILE_OFFSET then sys_writev a else
  let fd := arg_i32 a 0 in
  let* count := lift (usize_arg a 2) in
  let* iov := of_memory (read_iovecs (arg a 1) count) in
  let* bytes_written := pwrite_iovecs fd offset iov 0 in
  do* (if has_bits flags LINUX_RWF_SYNC_FLAGS then of_vfs (λ v, sync_fd v fd) else ret tt);
  ret bytes_written.
End runtime.
