(* ===== verification/RtFileCalls.v ===== *)
(** * mcr-runtime: the other file system calls, their dispatch, and programs

    The rest of the file system calls of filesystem.rs: descriptors, attributes and paths, with
    their dispatch; and [load_guest_program], which reads the program that execve starts. *)

From S2P Require Import Prelude SysAbi SyscallTable Dispatcher Bytes SysCodec ElfParser TaskTypes VfsTypes VfsPath VfsFd VfsCache VfsSystem NetTypes NetTable RtAbi RtFiles.
From stdpp Require Import base gmap list strings.
From Stdlib Require Import ZArith Lia Strings.Ascii.
Open Scope Z_scope.

Section runtime.
Context {M : Type} {memory_access : RuntimeMemoryAccess M}.
Context {host_fs : HostFs} {World Handle Transport BatchPoll : Type} {host_sockets : HostSockets World Handle Transport BatchPoll}.

Abbreviation RtM := (RtM (M := M) (World := World) (Handle := Handle) (Transport := Transport)).

(** *** Closing *)
Definition close_socket_id (raw : Z) : RtM unit :=
  match socket_id_new raw with
  | Some sid =>
      let* s := gets id in
      if (socket_fd_count (fw_table (v_fds (rf_vfs s))) sid =? 0)%nat
      then on_sockets (close_socket sid) else ret tt
  | None => ret tt
  end.

Definition close_unshared_file_resources (file : FileRef) : RtM unit :=
  match fr_kind file, in_backend (fr_inode file) with
  | KSocket, SocketBackend raw => close_socket_id raw
  | _, _ => ret tt
  end.

Definition sys_close (a : SyscallArgs) : RtM Z :=
  let* file := on_vfs (close_with_file (arg_i32 a 0)) in
  do* close_unshared_file_resources file;
  ret 0.

(** One descriptor of a range; one that is gone is passed over. *)
Definition close_in_range (close_resource : FileRef → RtM unit) (fd : Z) : RtM unit :=
  λ s, match close_with_file fd (rf_vfs s) with
       | (Ok file, v) => close_resource file (set_rf_vfs v s)
       | (Err BadFd, v) => (Ok tt, set_rf_vfs v s)
       | (Err e, v) => (Err (vfs_errno e), set_rf_vfs v s)
       | (Panic, v) => (Panic, set_rf_vfs v s)
       end.

Definition close_fd_range (first last : Z) (close_resource : FileRef → RtM unit) : RtM Z :=
  let* bounds := lift (fd_range_bounds first last) in
  match bounds with
  | None => ret 0
  | Some (first, last) =>
      let* s := gets id in
      do* foreach (fds_in_range (fw_table (v_fds (rf_vfs s))) first last) (close_in_range close_resource);
      ret 0
  end.

Definition sys_close_range (a : SyscallArgs) : RtM Z :=
  if negb (without_bits (arg_u32 a 2) LINUX_CLOSE_RANGE_SUPPORTED_FLAGS =? 0) then throw EINVAL
  else close_fd_range (arg_u32 a 0) (arg_u32 a 1) close_unshared_file_resources.

(** *** Attributes *)
Definition sys_lseek (a : SyscallArgs) : RtM Z :=
  let* whence := lift (map_err vfs_errno (whence_from_linux (arg_u32 a 2))) in
  on_vfs (lseek (arg_i32 a 0) (as_i64 (arg a 1)) whence).

Definition sys_fstat (a : SyscallArgs) : RtM Z :=
  let* attr := on_vfs (fstat (arg_i32 a 0)) in do* write_stat (arg a 1) attr; ret 0.

Definition sys_statfs (a : SyscallArgs) : RtM Z :=
  let* path := read_path (arg a 0) in
  let* st := of_vfs (λ v, statfs v path) in do* write_statfs (arg a 1) st; ret 0.

Definition sys_fstatfs (a : SyscallArgs) : RtM Z :=
  let* st := of_vfs (λ v, fstatfs v (arg_i32 a 0)) in do* write_statfs (arg a 1) st; ret 0.

Definition sys_stat (a : SyscallArgs) : RtM Z :=
  let* path := read_path (arg a 0) in
  let* attr := on_vfs (newfstatat AT_FDCWD path 0) in do* write_stat (arg a 1) attr; ret 0.

Definition sys_lstat (a : SyscallArgs) : RtM Z :=
  let* path := read_path (arg a 0) in
  let* attr := on_vfs (newfstatat AT_FDCWD path AT_SYMLINK_NOFOLLOW) in do* write_stat (arg a 1) attr; ret 0.

Definition sys_newfstatat (a : SyscallArgs) : RtM Z :=
  let* path := read_path (arg a 1) in
  let* attr := on_vfs (newfstatat (arg_i32 a 0) path (arg_u32 a 3)) in do* write_stat (arg a 2) attr; ret 0.

Definition sys_statx (a : SyscallArgs) : RtM Z :=
  let* path := read_path (arg a 1) in
  let* attr := on_vfs (statx (arg_i32 a 0) path (arg_u32 a 2)) in do* write_statx (arg a 4) attr; ret 0.

Definition sys_access (a : SyscallArgs) : RtM Z :=
  let* path := read_path (arg a 0) in do* on_vfs (VfsSystem.access path (arg_u32 a 1)); ret 0.

Definition sys_faccessat2 (a : SyscallArgs) : RtM Z :=
  let* path := read_path (arg a 1) in
  let flags := arg_u32 a 3 in
  if negb (without_bits flags LINUX_FACCESSAT2_SUPPORTED_FLAGS =? 0) then throw EINVAL else
  do* on_vfs (faccessat2 (arg_i32 a 0) path (arg_u32 a 2) (without_bits flags LINUX_AT_EACCESS));
  ret 0.

Definition sys_readlink (a : SyscallArgs) : RtM Z :=
  let* path := read_path (arg a 0) in
  let* len := lift (usize_arg a 2) in
  receive_into (arg a 1) len (of_vfs (λ v, readlink v path len)).

Definition sys_readlinkat (a : SyscallArgs) : RtM Z :=
  let* path := read_path (arg a 1) in
  let* len := lift (usize_arg a 3) in
  receive_into (arg a 2) len (of_vfs (λ v, readlinkat v (arg_i32 a 0) path len)).

Definition sys_getdents64 (a : SyscallArgs) : RtM Z :=
  let* max_bytes := lift (usize_arg a 2) in
  let* entries := on_vfs (getdents64 (arg_i32 a 0) max_bytes) in
  let* encoded := lift (encode_dirents entries) in
  if max_bytes <? zlen encoded then throw EINVAL else
  do* write_bytes_at (arg a 1) encoded;
  ret (zlen encoded).

(** *** Descriptors *)
Definition create_pipe (pipefd_addr : Z) (flags : OpenFlags) : RtM Z :=
  let* (read_fd, write_fd) := on_vfs (on_fds (pipe flags)) in
  do* write_bytes_at pipefd_addr (le_bytes 4 (as_u32 read_fd));
  do* write_bytes_at (wadd pipefd_addr 4) (le_bytes 4 (as_u32 write_fd));
  ret 0.

Definition sys_pipe (a : SyscallArgs) : RtM Z := create_pipe (arg a 0) (flags_new 0).
Definition sys_pipe2 (a : SyscallArgs) : RtM Z := create_pipe (arg a 0) (flags_new (arg_u32 a 1)).

Definition sys_dup (a : SyscallArgs) : RtM Z :=
  let* fd := on_vfs (vfs_dup (arg_i32 a 0)) in ret (as_u64 fd).
Definition sys_dup2 (a : SyscallArgs) : RtM Z :=
  let* fd := on_vfs (vfs_dup2 (arg_i32 a 0) (arg_i32 a 1)) in ret (as_u64 fd).
Definition sys_dup3 (a : SyscallArgs) : RtM Z :=
  let* fd := on_vfs (dup3 (arg_i32 a 0) (arg_i32 a 1) (flags_new (arg_u32 a 2))) in ret (as_u64 fd).

(** [if let Ok(socket_id) = self.socket_id_for_fd(fd)] *)
Definition if_socket (fd : Z) (f : Z → RtM unit) : RtM unit :=
  λ s, match socket_id_for_fd fd s with
       | (Ok sid, s) => f sid s
       | (Err _, s) => (Ok tt, s)
       | (Panic, s) => (Panic, s)
       end.

Definition sys_fcntl (a : SyscallArgs) : RtM Z :=
  let fd := arg_i32 a 0 in let cmd := arg_u32 a 1 in
  do* (if cmd =? F_SETFL
       then if_socket fd (λ sid, on_sockets (set_nonblocking sid (has_bits (as_u32 (arg a 2)) O_NONBLOCK)))
       else ret tt);
  on_vfs (fcntl fd cmd (arg a 2)).

Definition sys_ioctl (a : SyscallArgs) : RtM Z :=
  let fd := arg_i32 a 0 in
  if arg a 1 =? FIONBIO then
    let* value := of_memory (read_guest_u32 (arg a 2)) in
    let nonblocking := negb (value =? 0) in
    let* flags := on_vfs (fcntl fd F_GETFL 0) in
    let flags := as_u32 flags in
    let next := if nonblocking then Z.lor flags O_NONBLOCK else without_bits flags O_NONBLOCK in
    do* on_vfs (fcntl fd F_SETFL next);
    ret 0
  else
    let* reply := on_vfs (ioctl fd (arg a 1)) in
    match reply with
    | ReplyNone => ret 0
    | ReplyU32 value => do* write_bytes_at (arg a 2) (le_bytes 4 value); ret 0
    end.

(** *** Paths *)
Definition sys_mkdirat (a : SyscallArgs) : RtM Z :=
  let* path := read_path (arg a 1) in do* on_vfs (mkdirat (arg_i32 a 0) path (arg_u32 a 2)); ret 0.
Definition sys_mkdir (a : SyscallArgs) : RtM Z :=
  let* path := read_path (arg a 0) in do* on_vfs (mkdirat AT_FDCWD path (arg_u32 a 1)); ret 0.

Definition sys_unlinkat (a : SyscallArgs) : RtM Z :=
  let* path := read_path (arg a 1) in
  let flags := arg_u32 a 2 in
  if negb (without_bits flags AT_REMOVEDIR =? 0) then throw EINVAL else
  do* on_vfs (unlinkat (arg_i32 a 0) path flags);
  ret 0.
Definition sys_rmdir (a : SyscallArgs) : RtM Z :=
  let* path := read_path (arg a 0) in do* on_vfs (unlinkat AT_FDCWD path AT_REMOVEDIR); ret 0.
Definition sys_unlink (a : SyscallArgs) : RtM Z :=
  let* path := read_path (arg a 0) in do* on_vfs (unlinkat AT_FDCWD path 0); ret 0.

Definition sys_rename (a : SyscallArgs) : RtM Z :=
  let* oldpath := read_path (arg a 0) in
  let* newpath := read_path (arg a 1) in
  do* on_vfs (renameat2 AT_FDCWD oldpath AT_FDCWD newpath 0);
  ret 0.
Definition sys_renameat2 (a : SyscallArgs) : RtM Z :=
  let* oldpath := read_path (arg a 1) in
  let* newpath := read_path (arg a 3) in
  do* on_vfs (renameat2 (arg_i32 a 0) oldpath (arg_i32 a 2) newpath (arg_u32 a 4));
  ret 0.

Definition sys_symlinkat (a : SyscallArgs) : RtM Z :=
  let* target := read_path (arg a 0) in
  let* linkpath := read_path (arg a 2) in
  do* on_vfs (symlinkat target (arg_i32 a 1) linkpath);
  ret 0.
Definition sys_symlink (a : SyscallArgs) : RtM Z :=
  let* target := read_path (arg a 0) in
  let* linkpath := read_path (arg a 1) in
  do* on_vfs (symlinkat target AT_FDCWD linkpath);
  ret 0.

Definition sys_linkat (a : SyscallArgs) : RtM Z :=
  let* oldpath := read_path (arg a 1) in
  let* newpath := read_path (arg a 3) in
  let flags := arg_u32 a 4 in
  if negb (without_bits flags (Z.lor AT_SYMLINK_FOLLOW AT_EMPTY_PATH) =? 0) then throw EINVAL else
  do* on_vfs (linkat (arg_i32 a 0) oldpath (arg_i32 a 2) newpath flags);
  ret 0.
Definition sys_link (a : SyscallArgs) : RtM Z :=
  let* oldpath := read_path (arg a 0) in
  let* newpath := read_path (arg a 1) in
  do* on_vfs (linkat AT_FDCWD oldpath AT_FDCWD newpath 0);
  ret 0.

Definition sys_ftruncate (a : SyscallArgs) : RtM Z :=
  let length := as_i64 (arg a 1) in
  if length <? 0 then throw EINVAL else do* on_vfs (ftruncate (arg_i32 a 0) length); ret 0.

Definition sys_fallocate (a : SyscallArgs) : RtM Z :=
  if negb (arg_u32 a 1 =? 0) then throw EOPNOTSUPP else
  let offset := as_i64 (arg a 2) in let length := as_i64 (arg a 3) in
  if (offset <? 0) || (length <=? 0) then throw EINVAL else
  do* on_vfs (fallocate (arg_i32 a 0) offset length);
  ret 0.

Definition sys_chmod (a : SyscallArgs) : RtM Z :=
  let* path := read_path (arg a 0) in do* on_vfs (chmod path (arg_u32 a 1)); ret 0.
Definition sys_chown (a : SyscallArgs) : RtM Z :=
  let* path := read_path (arg a 0) in
  do* on_vfs (chown path (optional_linux_id (arg_u32 a 1)) (optional_linux_id (arg_u32 a 2)));
  ret 0.

(** The attributes for UTIME_OMIT are those that [newfstatat] gives, if it gives any; like
    every attribute query, it may fill the cache. *)
Definition current_attr (dirfd : Z) (path : string) (flags : Z) : RtM (option LinuxFileAttr) :=
  λ s, let (r, v) := newfstatat dirfd path flags (rf_vfs s) in
       (match r with Ok a => Ok (Some a) | Err _ => Ok None | Panic => Panic end, set_rf_vfs v s).

Definition utimensat_times (now : LinuxTimespec) (dirfd : Z) (path : string) (times_ptr flags : Z) : RtM FileTimes :=
  let* current := current_attr dirfd path flags in
  if times_ptr =? 0 then
    ret {| ft_atime_sec := tv_sec now; ft_atime_nsec := tv_nsec now;
           ft_mtime_sec := tv_sec now; ft_mtime_nsec := tv_nsec now |}
  else
    let* atime := of_memory (read_guest_timespec times_ptr) in
    let* mtime_ptr := lift (fault_add times_ptr 16) in
    let* mtime := of_memory (read_guest_timespec mtime_ptr) in
    let* atime := lift (resolve_utimensat_time atime now current true) in
    let* mtime := lift (resolve_utimensat_time mtime now current false) in
    ret {| ft_atime_sec := tv_sec atime; ft_atime_nsec := tv_nsec atime;
           ft_mtime_sec := tv_sec mtime; ft_mtime_nsec := tv_nsec mtime |}.

Definition sys_utimensat (now : LinuxTimespec) (a : SyscallArgs) : RtM Z :=
  let flags := arg_u32 a 3 in
  if negb (without_bits flags (Z.lor AT_SYMLINK_NOFOLLOW AT_EMPTY_PATH) =? 0) then throw EINVAL else
  let* path := read_path (arg a 1) in
  let* times := utimensat_times now (arg_i32 a 0) path (arg a 2) flags in
  do* on_vfs (utimensat (arg_i32 a 0) path times flags);
  ret 0.

Definition sys_getcwd (a : SyscallArgs) : RtM Z :=
  let* cwd := of_vfs getcwd in
  let bytes := string_bytes cwd in
  let* size := lift (usize_arg a 1) in
  if (size =? 0) || (size <? zlen bytes + 1) then throw ERANGE else
  do* write_bytes_at (arg a 0) bytes;
  do* write_bytes_at (wadd (arg a 0) (zlen bytes)) [0];
  ret (arg a 0).

Definition sys_chdir (a : SyscallArgs) : RtM Z :=
  let* path := read_path (arg a 0) in do* on_vfs (chdir path); ret 0.

Definition sys_umask (a : SyscallArgs) : RtM Z :=
  on_vfs (λ v, let (old, v) := umask (arg_u32 a 0) v in (Ok old, v)).

(** ** The dispatch *)
Definition file_call (now : LinuxTimespec) (syscall : Syscall) : option (SyscallArgs → RtM Z) :=
  match syscall with
  | SysOpen => Some sys_open
  | SysOpenat => Some sys_openat
  | SysRead => Some sys_read
  | SysWrite => Some sys_write
  | SysPread64 => Some sys_pread64
  | SysPwrite64 => Some sys_pwrite64
  | SysReadv => Some sys_readv
  | SysWritev => Some sys_writev
  | SysPwritev2 => Some sys_pwritev2
  | SysClose => Some sys_close
  | SysLseek => Some sys_lseek
  | SysStat => Some sys_stat
  | SysFstat => Some sys_fstat
  | SysLstat => Some sys_lstat
  | SysStatfs => Some sys_statfs
  | SysFstatfs => Some sys_fstatfs
  | SysFsync | SysFdatasync => Some sys_sync_fd
  | SysNewfstatat => Some sys_newfstatat
  | SysStatx => Some sys_statx
  | SysAccess => Some sys_access
  | SysFaccessat2 => Some sys_faccessat2
  | SysOpenat2 => Some sys_openat2
  | SysReadlink => Some sys_readlink
  | SysReadlinkat => Some sys_readlinkat
  | SysGetdents64 => Some sys_getdents64
  | SysPipe => Some sys_pipe
  | SysPipe2 => Some sys_pipe2
  | SysCloseRange => Some sys_close_range
  | SysDup => Some sys_dup
  | SysDup2 => Some sys_dup2
  | SysDup3 => Some sys_dup3
  | SysFcntl => Some sys_fcntl
  | SysIoctl => Some sys_ioctl
  | SysMkdir => Some sys_mkdir
  | SysMkdirat => Some sys_mkdirat
  | SysRmdir => Some sys_rmdir
  | SysUnlink => Some sys_unlink
  | SysUnlinkat => Some sys_unlinkat
  | SysRename => Some sys_rename
  | SysRenameat2 => Some sys_renameat2
  | SysSymlink => Some sys_symlink
  | SysSymlinkat => Some sys_symlinkat
  | SysLink => Some sys_link
  | SysLinkat => Some sys_linkat
  | SysFtruncate => Some sys_ftruncate
  | SysFallocate => Some sys_fallocate
  | SysChmod => Some sys_chmod
  | SysChown => Some sys_chown
  | SysUtimensat => Some (sys_utimensat now)
  | SysGetcwd => Some sys_getcwd
  | SysChdir => Some sys_chdir
  | SysUmask => Some sys_umask
  | _ => None
  end.

(** An answer of the runtime, with the state after it. *)
Definition run_call (call : option (SyscallArgs → RtM Z)) (a : SyscallArgs) (s : RuntimeFileSystem)
    : outcome SyscallOutcome Empty_set * RuntimeFileSystem :=
  match call with
  | Some call => let (r, s) := call a s in (rt_outcome r, s)
  | None => (Ok outcome_unsupported, s)
  end.

Definition dispatch_file (now : LinuxTimespec) (request : SyscallRequest) (s : RuntimeFileSystem) :=
  run_call (file_call now (rq_syscall request)) (rq_args request) s.
End runtime.

(** ** The programs that [execve] loads

    [load_guest_program] (filesystem.rs) reads the executable and its interpreter through the
    virtual file system, following the interpreter lines of scripts. *)

(** The interpreter line of a script. *)
Record ScriptInterpreter : Type := { sc_interpreter : list Z; sc_argument : option (list Z) }.

Definition is_script_space (b : Z) : bool := (b =? 0x20) || (b =? 0x09).

Fixpoint trim_start (l : list Z) : list Z :=
  match l with b :: l' => if is_script_space b then trim_start l' else l | [] => [] end.

(** The end is trimmed of one carriage return, then both ends of blanks. *)
Definition trim_script_ascii_space (value : list Z) : list Z :=
  let value := match last value with Some 0x0d => take (length value - 1) value | _ => value end in
  rev (trim_start (rev (trim_start value))).

(** The longest prefix whose bytes do not satisfy [p], and what follows it. *)
Fixpoint split_at (p : Z → bool) (l : list Z) : list Z * list Z :=
  match l with
  | [] => ([], [])
  | b :: l' => if p b then ([], l) else let '(l1, l2) := split_at p l' in (b :: l1, l2)
  end.

Definition parse_script_interpreter (bytes : list Z) : outcome (option ScriptInterpreter) LinuxErrno :=
  match bytes with
  | 0x23 :: 0x21 :: rest =>
      let line := trim_script_ascii_space (split_at (λ b, b =? 0x0a) rest).1 in
      if bool_decide (line = []) then Err ENOEXEC else
      let '(interpreter, tail) := split_at is_script_space line in
      let argument := trim_script_ascii_space tail in
      if bool_decide (interpreter = []) then Err ENOEXEC else
      Ok (Some {| sc_interpreter := interpreter;
                  sc_argument := if bool_decide (argument = []) then None else Some argument |})
  | _ => Ok None
  end.

(** ** Strings *)

(** [str::from_utf8]: the well-formed sequences of Unicode. *)
Definition is_continuation (b : Z) : bool := (0x80 <=? b) && (b <=? 0xbf).

(** The second byte of a sequence of three or four bytes, by the first one. *)
Definition second_byte_ok (b c : Z) : bool :=
  if b =? 0xe0 then (0xa0 <=? c) && (c <=? 0xbf)
  else if b =? 0xed then (0x80 <=? c) && (c <=? 0x9f)
  else if b =? 0xf0 then (0x90 <=? c) && (c <=? 0xbf)
  else if b =? 0xf4 then (0x80 <=? c) && (c <=? 0x8f)
  else is_continuation c.

Fixpoint utf8_valid (l : list Z) : bool :=
  match l with
  | [] => true
  | b :: l1 =>
      if b <? 0x80 then utf8_valid l1
      else if (0xc2 <=? b) && (b <=? 0xdf) then
        match l1 with c :: l2 => is_continuation c && utf8_valid l2 | _ => false end
      else if (0xe0 <=? b) && (b <=? 0xef) then
        match l1 with
        | c :: d :: l3 => second_byte_ok b c && is_continuation d && utf8_valid l3
        | _ => false
        end
      else if (0xf0 <=? b) && (b <=? 0xf4) then
        match l1 with
        | c :: d :: e :: l4 => second_byte_ok b c && is_continuation d && is_continuation e && utf8_valid l4
        | _ => false
        end
      else false
  end.

Definition string_of_bytes (bytes : list Z) : string :=
  String.string_of_list_ascii ((λ b, Ascii.ascii_of_N (Z.to_N b)) <$> bytes).

Definition string_from_utf8 {E} (bytes : list Z) (e : E) : outcome string E :=
  if utf8_valid bytes then Ok (string_of_bytes bytes) else Err e.

Definition guest_bytes_to_path (bytes : list Z) : outcome string LinuxErrno :=
  if bool_decide (bytes = []) || bool_decide (0 ∈ bytes) then Err ENOENT
  else string_from_utf8 bytes ENOENT.

(** The bytes of a file as mcr-task holds them. *)
Definition to_u8s (bytes : list Z) : list Byte.byte :=
  (λ b, default Byte.x00 (Byte.of_N (Z.to_N b))) <$> bytes.

Definition with_args (argv : list (list Z)) (p : GuestProgram) : GuestProgram :=
  {| gp_executable := gp_executable p; gp_interpreter := gp_interpreter p; gp_argv := argv; gp_envp := gp_envp p |}.
Definition with_env (envp : list (list Z)) (p : GuestProgram) : GuestProgram :=
  {| gp_executable := gp_executable p; gp_interpreter := gp_interpreter p; gp_argv := gp_argv p; gp_envp := envp |}.

Section runtime.
Context {M : Type} {memory_access : RuntimeMemoryAccess M}.
Context {host_fs : HostFs} {World Handle Transport BatchPoll : Type} {host_sockets : HostSockets World Handle Transport BatchPoll}.

Abbreviation RtM := (RtM (M := M) (World := World) (Handle := Handle) (Transport := Transport)).

(** The loop ends at the end of the file, which a device need not have: [turns] bounds it, and
    running out of them is running out of memory. *)
Fixpoint read_vfs_file_to_end (turns : nat) (fd : Z) (output : list Z) : VfsM (list Z) :=
  match turns with
  | O => lift Panic
  | S turns =>
      let* bytes := VfsSystem.read fd 8192 in
      if zlen bytes =? 0 then ret output else read_vfs_file_to_end turns fd (output ++ bytes)
  end.

(** The file is closed whether or not it could be read; an error of reading comes first. *)
Definition load_guest_executable (turns : nat) (path : list Z) : RtM GuestExecutable :=
  let* name := lift (guest_bytes_to_path path) in
  let* fd := on_vfs (openat AT_FDCWD name (flags_new O_RDONLY) 0) in
  λ s, match on_vfs (read_vfs_file_to_end turns fd []) s with
       | (Panic, s) => (Panic, s)
       | (read_result, s) =>
           match on_vfs (vfs_close fd) s with
           | (Panic, s) => (Panic, s)
           | (close_result, s) =>
               (let? bytes := read_result in
                let? _ := close_result in
                Ok {| ge_path := string_bytes name; ge_bytes := to_u8s bytes |}, s)
           end
       end.

(** [script_depth] counts down from [SCRIPT_EXEC_RECURSION_LIMIT]. *)
Fixpoint load_guest_program_inner (turns script_depth : nat) (filename : list Z) (argv envp : list (list Z))
    : RtM GuestProgram :=
  let* executable := load_guest_executable turns filename in
  match parse_load_plan (u8s (ge_bytes executable)) with
  | Panic => lift Panic
  | Err _ =>
      let* script := lift (parse_script_interpreter (u8s (ge_bytes executable))) in
      match script with
      | None => throw ENOEXEC
      | Some script =>
          match script_depth with
          | O => throw ELOOP
          | S script_depth =>
              load_guest_program_inner turns script_depth (sc_interpreter script)
                ([sc_interpreter script] ++ option_list (sc_argument script) ++ [filename] ++ drop 1 argv) envp
          end
      end
  | Ok load_plan =>
      let program := with_env envp (with_args argv (program_new executable)) in
      match lp_interpreter load_plan with
      | None => ret program
      | Some interpreter_path =>
          let* interpreter := load_guest_executable turns interpreter_path in
          match parse_load_plan (u8s (ge_bytes interpreter)) with
          | Panic => lift Panic
          | Err _ => throw ENOEXEC
          | Ok _ => ret (with_interpreter interpreter program)
          end
      end
  end.

Definition load_guest_program (turns : nat) (filename : list Z) (argv envp : list (list Z)) : RtM GuestProgram :=
  load_guest_program_inner turns SCRIPT_EXEC_RECURSION_LIMIT filename argv envp.
End runtime.
