(* ===== verification/RtEvents.v ===== *)
(** * mcr-runtime: the registries of events

    The watches of epoll instances, with the list that is cached between changes, and the
    registry of host threads that wait on a futex (event_state.rs).  A thread enters that
    registry through [wait], which only tests call: in the runtime itself a guest waits in the
    kernel of mcr-task, and [wake] finds no entry. *)

From S2P Require Import Prelude SysAbi RtSignals.
From stdpp Require Import base gmap list strings.
From Stdlib Require Import ZArith Lia.
Open Scope Z_scope.

Definition EMFILE : LinuxErrno := 24.

(** ** Futexes *)
Record FutexWaitEntry : Type := { fx_value : Z; fx_waiters : Z }.

Definition FutexRegistry : Type := gmap Z FutexWaitEntry.

(** The compare-and-exchange loop takes what it has read when no other thread interferes. *)
Definition reserve_wake_count (waiters count : Z) : Z * Z :=
  let woken := Z.min waiters count in (woken, waiters - woken).

Definition prune_entry (uaddr : Z) (r : FutexRegistry) : FutexRegistry :=
  match r !! uaddr with
  | Some e => if fx_waiters e =? 0 then delete uaddr r else r
  | None => r
  end.

Definition futex_registry_wake (uaddr count : Z) (r : FutexRegistry) : Z * FutexRegistry :=
  if count =? 0 then (0, r) else
  match r !! uaddr with
  | None => (0, r)
  | Some e =>
      let (woken, waiters) := reserve_wake_count (fx_waiters e) count in
      if woken =? 0 then (0, prune_entry uaddr r) else
      (woken, prune_entry uaddr (<[uaddr := {| fx_value := wrap32 (fx_value e + 1); fx_waiters := waiters |}]> r))
  end.

(** ** Epoll *)
Record EpollWatch : Type := { ew_fd : Z; ew_events : Z; ew_data : Z }.

Record EpollInstance : Type := {
  ei_watches : gmap Z EpollWatch;
  ei_cached_watches : option (list EpollWatch);
  ei_watch_generation : Z;
  ei_cached_watch_generation : Z;
}.

Definition epoll_instance_default : EpollInstance :=
  {| ei_watches := ∅; ei_cached_watches := None; ei_watch_generation := 0; ei_cached_watch_generation := 0 |}.

(** A change of the watches, with [bump_watch_generation]. *)
Definition change_watches (watches : gmap Z EpollWatch) (i : EpollInstance) : EpollInstance :=
  {| ei_watches := watches; ei_cached_watches := None;
     ei_watch_generation := wrap64 (ei_watch_generation i + 1);
     ei_cached_watch_generation := ei_cached_watch_generation i |}.

Definition insert_watch (watch : EpollWatch) (i : EpollInstance) : outcome EpollInstance LinuxErrno :=
  match ei_watches i !! ew_fd watch with
  | Some _ => Err EEXIST
  | None => Ok (change_watches (<[ew_fd watch := watch]> (ei_watches i)) i)
  end.

Definition update_watch (fd events data : Z) (i : EpollInstance) : outcome EpollInstance LinuxErrno :=
  let? watch := ok_or (ei_watches i !! fd) ENOENT in
  Ok (change_watches (<[fd := {| ew_fd := ew_fd watch; ew_events := events; ew_data := data |}]> (ei_watches i)) i).

Definition remove_watch (fd : Z) (i : EpollInstance) : outcome EpollInstance LinuxErrno :=
  match ei_watches i !! fd with
  | None => Err ENOENT
  | Some _ => Ok (change_watches (delete fd (ei_watches i)) i)
  end.

Definition cached_watches (i : EpollInstance) : list EpollWatch * EpollInstance :=
  let cached := if ei_cached_watch_generation i =? ei_watch_generation i then ei_cached_watches i else None in
  match cached with
  | Some watches => (watches, {| ei_watches := ei_watches i; ei_cached_watches := cached;
                                 ei_watch_generation := ei_watch_generation i;
                                 ei_cached_watch_generation := ei_cached_watch_generation i |})
  | None =>
      let watches := bt_values (ei_watches i) in
      (watches, {| ei_watches := ei_watches i; ei_cached_watches := Some watches;
                   ei_watch_generation := ei_watch_generation i;
                   ei_cached_watch_generation := ei_watch_generation i |})
  end.

Record EpollRegistry : Type := { er_next_id : Z; er_instances : gmap Z EpollInstance }.

Definition epoll_registry_default : EpollRegistry := {| er_next_id := 0; er_instances := ∅ |}.

Definition EpollM : Type → Type := ST EpollRegistry LinuxErrno.

Definition set_instances (f : gmap Z EpollInstance → gmap Z EpollInstance) (r : EpollRegistry) : EpollRegistry :=
  {| er_next_id := er_next_id r; er_instances := f (er_instances r) |}.

Definition epoll_create : EpollM Z :=
  let* r := gets id in
  let* next := lift (ok_or (checked_add64 (er_next_id r) 1) EMFILE) in
  do* modify (λ r, {| er_next_id := next; er_instances := <[next := epoll_instance_default]> (er_instances r) |});
  ret next.

Definition epoll_close (id : Z) (r : EpollRegistry) : EpollRegistry := set_instances (delete id) r.

(** [instance_mut(id)?] with a change of the instance that may fail. *)
Definition on_instance (id : Z) (f : EpollInstance → outcome EpollInstance LinuxErrno) : EpollM unit :=
  let* r := gets (λ r, r) in
  let* i := lift (ok_or (er_instances r !! id) EBADF) in
  let* i := lift (f i) in
  modify (set_instances (insert id i)).

Definition registry_cached_watches (id : Z) : EpollM (list EpollWatch) :=
  let* r := gets (λ r, r) in
  let* i := lift (ok_or (er_instances r !! id) EBADF) in
  let (watches, i) := cached_watches i in
  do* modify (set_instances (insert id i));
  ret watches.

Definition watches (id : Z) (r : EpollRegistry) : outcome (list EpollWatch) LinuxErrno :=
  let? i := ok_or (er_instances r !! id) EBADF in Ok (bt_values (ei_watches i)).

(** ** The cached list

    [instance_ok]: the cached list, when its generation is current, is the list of the
    watches. *)
Definition instance_ok (i : EpollInstance) : Prop :=
  ∀ l, ei_cached_watches i = Some l → ei_cached_watch_generation i = ei_watch_generation i →
    l = bt_values (ei_watches i).

Definition registry_ok (r : EpollRegistry) : Prop :=
  map_Forall (λ _, instance_ok) (er_instances r) ∧ ∀ id, is_Some (er_instances r !! id) → id ≤ er_next_id r.

Lemma change_watches_ok w i : instance_ok (change_watches w i).
Proof. by intros l [=]. Qed.

Lemma cached_watches_ok i : instance_ok i →
  (cached_watches i).1 = bt_values (ei_watches i) ∧ instance_ok (cached_watches i).2 ∧
  ei_watches (cached_watches i).2 = ei_watches i.
Proof.
  intros Hi. unfold cached_watches. destruct (Z.eqb_spec (ei_cached_watch_generation i) (ei_watch_generation i)) as [Hg|Hg].
  - destruct (ei_cached_watches i) as [l|] eqn:Hl.
    + rewrite <- (Hi l Hl Hg). split_and!; [done| |done]. intros l' [= <-] _. by apply Hi.
    + split_and!; [done| |done]. by intros l' [= <-] _.
  - split_and!; [done| |done]. by intros l' [= <-] _.
Qed.

(** *** Reachable registries *)
Inductive EpollOp : Type :=
| OpCreate
| OpClose (id : Z)
| OpAdd (id : Z) (watch : EpollWatch)
| OpModify (id fd events data : Z)
| OpRemove (id fd : Z)
| OpCachedWatches (id : Z).

Definition run_epoll (op : EpollOp) (r : EpollRegistry) : EpollRegistry :=
  match op with
  | OpCreate => (epoll_create r).2
  | OpClose id => epoll_close id r
  | OpAdd id watch => (on_instance id (insert_watch watch) r).2
  | OpModify id fd events data => (on_instance id (update_watch fd events data) r).2
  | OpRemove id fd => (on_instance id (remove_watch fd) r).2
  | OpCachedWatches id => (registry_cached_watches id r).2
  end.

Inductive reachable_registry : EpollRegistry → Prop :=
| registry_start : reachable_registry epoll_registry_default
| registry_run op r : reachable_registry r → reachable_registry (run_epoll op r).

Lemma insert_instance_ok id i r :
  registry_ok r → is_Some (er_instances r !! id) → instance_ok i → registry_ok (set_instances (insert id i) r).
Proof.
  intros [Hall Hids] Hid Hi. split; simpl; [by apply map_Forall_insert_2|].
  intros id' [i' [[<- _]|[_ ?]]%lookup_insert_Some]; eauto.
Qed.

Lemma on_instance_ok id f r :
  registry_ok r → (∀ i i', f i = Ok i' → instance_ok i') → registry_ok (on_instance id f r).2.
Proof.
  intros Hr Hf. unfold on_instance, bind, gets, lift, modify.
  destruct (er_instances r !! id) as [i|] eqn:Hi; simpl; [|done].
  destruct (f i) as [i'| |] eqn:Hfi; simpl; [|done..]. apply insert_instance_ok; eauto.
Qed.

Lemma run_epoll_ok op r : registry_ok r → registry_ok (run_epoll op r).
Proof.
  intros Hr. pose proof Hr as [Hall Hids].
  destruct op as [|id|id watch|id fd events data|id fd|id]; simpl.
  - unfold epoll_create, bind, gets, lift, modify. destruct (checked_add64 _ _) as [next|] eqn:Hn; simpl; [|done].
    apply checked_add64_Some in Hn as [-> _]. unfold id. split; simpl.
    + by apply map_Forall_insert_2.
    + intros id' [i [[<- _]|[_ ?]]%lookup_insert_Some]; [done|]. assert (id' ≤ er_next_id r) by eauto. lia.
  - split; simpl; [by apply map_Forall_delete|]. intros id' [i [_ ?]%lookup_delete_Some]. eauto.
  - apply on_instance_ok; [done|]. unfold insert_watch. intros i i' H. destruct (_ !! _); [done|]. injection H as <-. apply change_watches_ok.
  - apply on_instance_ok; [done|]. unfold update_watch. intros i i' H. destruct (_ !! _); [|done]. injection H as <-. apply change_watches_ok.
  - apply on_instance_ok; [done|]. unfold remove_watch. intros i i' H. destruct (_ !! _); [|done]. injection H as <-. apply change_watches_ok.
  - unfold registry_cached_watches, bind, gets, lift, modify, ret.
    destruct (er_instances r !! id) as [i|] eqn:Hi; simpl; [|done].
    destruct (cached_watches_ok i) as (_ & Hok & _); [by eapply Hall|]. destruct (cached_watches i) as [l i']. simpl in *.
    by apply insert_instance_ok.
Qed.

Lemma reachable_registry_ok r : reachable_registry r → registry_ok r.
Proof. induction 1; [|by apply run_epoll_ok]. split; [apply map_Forall_empty|]. by intros id []. Qed.

(** C33. [epoll_wait] looks at the watches that the instance has now: in every registry that
    creations, closings, changes and waits can reach, the list that [cached_watches] returns, be
    it computed or cached, is the list of the current watches by descriptor, the same as
    [watches] gives, and no watch changes; the identifier of the next instance is fresh. *)
Theorem cached_watches_are_current r id l r' :
  reachable_registry r → registry_cached_watches id r = (Ok l, r') →
  watches id r = Ok l ∧ watches id r' = Ok l ∧
  (∀ other, other ≠ id → er_instances r' !! other = er_instances r !! other) ∧
  ∀ next r2, epoll_create r' = (Ok next, r2) → er_instances r' !! next = None.
Proof.
  intros Hreach Hrun. pose proof (reachable_registry_ok _ Hreach) as [Hall Hids].
  pose proof (run_epoll_ok (OpCachedWatches id) r (conj Hall Hids)) as [_ Hids']. simpl in Hids'. rewrite Hrun in Hids'.
  revert Hrun. unfold registry_cached_watches, bind, gets, lift, modify, ret, watches.
  destruct (er_instances r !! id) as [i|] eqn:Hi; simpl; [|done].
  destruct (cached_watches_ok i) as (Hl & _ & Hw); [by eapply Hall|]. destruct (cached_watches i) as [l' i'].
  simpl in *. intros [= <- <-]. simpl. rewrite lookup_insert_eq. simpl. rewrite Hl, Hw. split_and!; [done..| |].
  - intros other Hne. by rewrite lookup_insert_ne.
  - intros next r2. unfold epoll_create, bind, gets, lift, modify, ret. simpl.
    destruct (checked_add64 _ _) as [n|] eqn:Hn; simpl; [|done]. intros [= <- _].
    apply checked_add64_Some in Hn as [-> _]. apply eq_None_not_Some. intros Hsome.
    pose proof (Hids' _ Hsome) as Hle. simpl in Hle. lia.
Qed.

Definition sample_registry : EpollRegistry :=
  run_epoll (OpModify 1 5 4 9) (run_epoll (OpCachedWatches 1)
    (run_epoll (OpAdd 1 {| ew_fd := 3; ew_events := 1; ew_data := 7 |})
    (run_epoll (OpAdd 1 {| ew_fd := 5; ew_events := 1; ew_data := 8 |}) (run_epoll OpCreate epoll_registry_default)))).

Lemma cached_watches_are_current_witness :
  (registry_cached_watches 1 sample_registry).1 =
    Ok [{| ew_fd := 3; ew_events := 1; ew_data := 7 |}; {| ew_fd := 5; ew_events := 4; ew_data := 9 |}] ∧
  watches 1 sample_registry = Ok [{| ew_fd := 3; ew_events := 1; ew_data := 7 |}; {| ew_fd := 5; ew_events := 4; ew_data := 9 |}].
Proof.
  split; [by vm_compute|].
  destruct (registry_cached_watches 1 sample_registry) as [r s] eqn:E.
  assert (r = Ok [{| ew_fd := 3; ew_events := 1; ew_data := 7 |}; {| ew_fd := 5; ew_events := 4; ew_data := 9 |}]) as ->.
  { change r with (fst (r, s)). rewrite <- E. by vm_compute. }
  apply (cached_watches_are_current _ _ _ s); [|done]. repeat constructor.
Defined.
