(* ===== verification/RtNet.v ===== *)
(** * mcr-runtime: the socket calls of the guest

    The network calls of [RuntimeFileSystem] (filesystem.rs): a socket of mcr-net lives behind
    a descriptor of mcr-vfs. *)

From S2P Require Import Prelude SysAbi SyscallTable Dispatcher Bytes SysCodec VfsTypes VfsPath VfsFd VfsCache VfsSystem NetTypes NetTable RtAbi RtFiles RtFileCalls.
From stdpp Require Import base gmap list strings.
From Stdlib Require Import ZArith Lia.
Open Scope Z_scope.

Section runtime.
Context {M : Type} {memory_access : RuntimeMemoryAccess M}.
Context {host_fs : HostFs} {World Handle Transport BatchPoll : Type} {host_sockets : HostSockets World Handle Transport BatchPoll}.

Abbreviation RtM := (RtM (M := M) (World := World) (Handle := Handle) (Transport := Transport)).

(** *** Addresses, as mcr-net has them *)
Definition read_socket_address (sockaddr addrlen : Z) : RtM SocketAddress :=
  let* address := of_memory (SysCodec.read_socket_address sockaddr addrlen) in
  lift (socket_address_from_linux address).

Definition write_socket_address (sockaddr addrlen_addr : Z) (address : SocketAddress) : RtM unit :=
  let* address := lift (socket_address_to_linux address) in
  on_memory (SysCodec.write_socket_address sockaddr addrlen_addr address).

Definition write_optional_socket_address (sockaddr addrlen_addr : Z) (address : SocketAddress) : RtM unit :=
  if sockaddr =? 0 then ret tt else
  if addrlen_addr =? 0 then throw EFAULT else
  let* address := lift (socket_address_to_linux address) in
  on_memory (SysCodec.write_optional_socket_address sockaddr addrlen_addr address).

Definition write_socket_address_to_msghdr_name (msghdr sockaddr addrlen : Z) (address : SocketAddress) : RtM unit :=
  let* address := lift (socket_address_to_linux address) in
  on_memory (SysCodec.write_socket_address_to_msghdr_name msghdr sockaddr addrlen address).

(** The status flags of a socket's descriptor. *)
Definition socket_open_flags (cloexec nonblocking : bool) : OpenFlags :=
  let flags := O_RDWR in
  let flags := if cloexec then Z.lor flags O_CLOEXEC else flags in
  let flags := if nonblocking then Z.lor flags O_NONBLOCK else flags in
  flags_new flags.

Definition sys_socket (a : SyscallArgs) : RtM Z :=
  let* spec := lift (map_err net_errno (spec_from_linux (arg_u32 a 0) (arg_u32 a 1) (arg_u32 a 2))) in
  let* sid := on_sockets (create_socket_from_spec spec) in
  let flags := socket_open_flags (sf_cloexec (sp_flags spec)) (sf_nonblocking (sp_flags spec)) in
  let* fd := on_vfs (on_fds (insert_socket sid flags)) in
  ret (as_u64 fd).

Definition sys_bind (a : SyscallArgs) : RtM Z :=
  let* sid := socket_id_for_fd (arg_i32 a 0) in
  let* address := read_socket_address (arg a 1) (arg_u32 a 2) in
  do* on_sockets (bind_socket sid address);
  ret 0.

Definition sys_connect (a : SyscallArgs) : RtM Z :=
  let* sid := socket_id_for_fd (arg_i32 a 0) in
  let* address := read_socket_address (arg a 1) (arg_u32 a 2) in
  do* on_sockets (connect sid address);
  ret 0.

Definition sys_listen (a : SyscallArgs) : RtM Z :=
  let* sid := socket_id_for_fd (arg_i32 a 0) in
  do* on_sockets (listen sid (arg_u32 a 1));
  ret 0.

Definition sys_shutdown (a : SyscallArgs) : RtM Z :=
  let* sid := socket_id_for_fd (arg_i32 a 0) in
  let* how := lift (map_err net_errno (how_from_linux (arg_u32 a 1))) in
  do* on_sockets (shutdown sid how);
  ret 0.

Definition sys_sendto (a : SyscallArgs) : RtM Z :=
  let sockaddr := arg a 4 in let addrlen := arg a 5 in
  let* sid := socket_id_for_fd (arg_i32 a 0) in
  let* _ := lift (validate_send_message_flags (arg_u32 a 3) OpSend) in
  let* buffer := guest_bytes (arg a 1) (arg a 2) in
  if negb (sockaddr =? 0) || negb (addrlen =? 0) then
    if U32_MAX <? addrlen then throw EINVAL else
    let* address := read_socket_address sockaddr addrlen in
    on_sockets (send_to sid buffer address)
  else on_sockets (send_connected sid buffer).

Definition sys_recvfrom (a : SyscallArgs) : RtM Z :=
  let addr := arg a 1 in let len := arg a 2 in
  let sockaddr := arg a 4 in let addrlen := arg a 5 in
  let* sid := socket_id_for_fd (arg_i32 a 0) in
  let* _ := lift (validate_recv_message_flags (arg_u32 a 3) OpRecv) in
  if negb (sockaddr =? 0) || negb (addrlen =? 0) then
    let* _ := lift (vec_zeroed len) in
    let* (bytes, address) := on_sockets (recv_from sid len) in
    do* write_optional_socket_address sockaddr addrlen address;
    do* write_bytes_at addr bytes;
    ret (zlen bytes)
  else receive_into addr len (on_sockets (recv_connected sid len)).

Definition sys_sendmsg (a : SyscallArgs) : RtM Z :=
  let* sid := socket_id_for_fd (arg_i32 a 0) in
  let* _ := lift (validate_send_message_flags (arg_u32 a 2) OpSendMsg) in
  let* message := of_memory (read_msghdr (arg a 1)) in
  if negb (msg_control message =? 0) || negb (msg_controllen message =? 0)
  then throw (net_errno (UnsupportedError OpSendMsg ENOSYS)) else
  let* address :=
    if negb (msg_name message =? 0) || negb (msg_namelen message =? 0)
    then let* address := read_socket_address (msg_name message) (msg_namelen message) in ret (Some address)
    else ret None in
  let* iovecs := of_memory (read_iovecs (msg_iov message) (msg_iovlen message)) in
  let* buffers := of_memory (read_iovec_buffers iovecs) in
  match address with
  | Some address => on_sockets (send_to_vectored sid buffers address)
  | None => on_sockets (send_connected_vectored sid buffers)
  end.

Definition socket_is_udp_datagram (sid : Z) : RtM bool :=
  let* s := on_sockets (socket sid) in
  ret (bool_decide (gs_type s = Datagram) && bool_decide (effective_protocol s = Udp)).

(** A datagram with the address of its sender. *)
Definition recv_datagram (sid msg : Z) (message : LinuxMsghdr) (iovecs : list LinuxIovec) : RtM Z :=
  let* buffers := lift (iovec_output_buffers iovecs) in
  let lengths := map zlen buffers in
  let* (bytes, address) := on_sockets (recv_from_vectored sid lengths) in
  do* write_socket_address_to_msghdr_name msg (msg_name message) (msg_namelen message) address;
  do* on_memory (write_iovec_buffers iovecs (scatter_loop lengths bytes) (zlen bytes));
  ret (zlen bytes).

Definition sys_recvmsg (a : SyscallArgs) : RtM Z :=
  let msg := arg a 1 in
  let* sid := socket_id_for_fd (arg_i32 a 0) in
  let* _ := lift (validate_recv_message_flags (arg_u32 a 2) OpRecvMsg) in
  let* message := of_memory (read_msghdr msg) in
  if negb (msg_control message =? 0) || negb (msg_controllen message =? 0)
  then throw (net_errno (UnsupportedError OpRecvMsg ENOSYS)) else
  let* iovecs := of_memory (read_iovecs (msg_iov message) (msg_iovlen message)) in
  let* wants_address :=
    if negb (msg_name message =? 0) || negb (msg_namelen message =? 0)
    then socket_is_udp_datagram sid else ret false in
  let* total :=
    if (wants_address : bool) then recv_datagram sid msg message iovecs
    else
      do* (if negb (msg_name message =? 0) then on_memory (write_msghdr_namelen msg 0) else ret tt);
      recv_connected_into_iovecs sid iovecs in
  do* on_memory (write_msghdr_flags msg 0);
  ret total.

Definition sys_setsockopt (a : SyscallArgs) : RtM Z :=
  if negb (arg a 4 =? 4) then throw EINVAL else
  let* value := of_memory (reader (arg a 3) 4) in
  let* option := lift (map_err net_errno (option_from_linux (arg_u32 a 1) (arg_u32 a 2))) in
  let* sid := socket_id_for_fd (arg_i32 a 0) in
  do* on_sockets (set_option sid option (le_value value));
  ret 0.

Definition sys_getsockopt (a : SyscallArgs) : RtM Z :=
  let optval := arg a 3 in let optlen := arg a 4 in
  let* len := of_memory (read_guest_u32 optlen) in
  if len <? 4 then throw EINVAL else
  let* option := lift (map_err net_errno (option_from_linux (arg_u32 a 1) (arg_u32 a 2))) in
  let* sid := socket_id_for_fd (arg_i32 a 0) in
  let* value := on_sockets (get_option sid option) in
  do* write_bytes_at optval (le_bytes 4 value);
  do* write_bytes_at optlen (le_bytes 4 4);
  ret 0.

(** [accept] has no flags; the address is written before the socket has a descriptor. *)
Definition sys_accept (flags : Z) (a : SyscallArgs) : RtM Z :=
  if negb (without_bits flags (Z.lor LINUX_SOCK_CLOEXEC LINUX_SOCK_NONBLOCK) =? 0) then throw EINVAL else
  let* sid := socket_id_for_fd (arg_i32 a 0) in
  let* (accepted, peer) := on_sockets (accept sid) in
  do* write_optional_socket_address (arg a 1) (arg a 2) peer;
  let flags := socket_open_flags (has_bits flags LINUX_SOCK_CLOEXEC) (has_bits flags LINUX_SOCK_NONBLOCK) in
  let* fd := on_vfs (on_fds (insert_socket accepted flags)) in
  ret (as_u64 fd).

Definition sys_getsockaddr (query : Z → NetM (option SocketAddress)) (a : SyscallArgs) : RtM Z :=
  let* sid := socket_id_for_fd (arg_i32 a 0) in
  let* address := on_sockets (query sid) in
  let* address := lift (ok_or address ENOTCONN) in
  do* write_socket_address (arg a 1) (arg a 2) address;
  ret 0.

(** ** The dispatch *)
Definition network_call (syscall : Syscall) : option (SyscallArgs → RtM Z) :=
  match syscall with
  | SysSocket => Some sys_socket
  | SysBind => Some sys_bind
  | SysConnect => Some sys_connect
  | SysListen => Some sys_listen
  | SysShutdown => Some sys_shutdown
  | SysSendto => Some sys_sendto
  | SysRecvfrom => Some sys_recvfrom
  | SysSendmsg => Some sys_sendmsg
  | SysRecvmsg => Some sys_recvmsg
  | SysGetsockopt => Some sys_getsockopt
  | SysSetsockopt => Some sys_setsockopt
  | SysAccept => Some (sys_accept 0)
  | SysAccept4 => Some (λ a, sys_accept (arg_u32 a 3) a)
  | SysGetsockname => Some (sys_getsockaddr local_address)
  | SysGetpeername => Some (sys_getsockaddr peer_address)
  | _ => None
  end.

Definition dispatch_network (request : SyscallRequest) (s : RuntimeFileSystem) :=
  run_call (network_call (rq_syscall request)) (rq_args request) s.
End runtime.
