(* ===== verification/RtMemory.v ===== *)
(** * mcr-runtime on the guest memory

    The memory of mcr-memory behind the runtime's file system calls (mcr-runtime access.rs):
    the borrows of its bytes ([slice] and [slice_mut] of mcr-memory lib.rs) and the reading of a
    path.  [reshaped_by] is what a call may do to the memory of its process: keep it well formed
    and leave every other owner of its blocks alone. *)

From S2P Require Import Prelude SysAbi SyscallTable Dispatcher HostMemory GuestMemory GuestMemoryOps GuestVmas GuestMemoryInv GuestMemoryHost GuestMemorySteps GuestMemoryAccess GuestMemoryTheorems Bytes SysCodec SysCodecTheorems VfsTypes VfsPath VfsFd VfsCache VfsSystem NetTypes NetTable RtAbi RtFiles RtFileCalls RtNet.
From stdpp Require Import base gmap list strings.
From Stdlib Require Import ZArith Lia.
Open Scope Z_scope.

(** [moves R m]: whatever it returns, [m] takes every state to an [R]-related one. *)
Definition moves {S E A} (R : relation S) (m : ST S E A) : Prop := ∀ s, R s (m s).2.

Section moves_rules.
Context {S E : Type} {R : relation S} {PR : PreOrder R}.

Lemma moves_ret {A} (a : A) : moves R (ret a : ST S E A).
Proof using PR. by intros s. Qed.

Lemma moves_throw {A} (e : E) : moves R (throw e : ST S E A).
Proof using PR. by intros s. Qed.

Lemma moves_lift {A} (o : outcome A E) : moves R (lift o).
Proof using PR. by intros s. Qed.

Lemma moves_gets {A} (f : S → A) : moves R (gets f : ST S E A).
Proof using PR. by intros s. Qed.

Lemma moves_bind {A B} (m : ST S E A) (k : A → ST S E B) :
  moves R m → (∀ a, moves R (k a)) → moves R (bind m k).
Proof using PR.
  intros Hm Hk s. unfold bind. specialize (Hm s). destruct (m s) as [[a|e|] s1]; simpl in *; [|done..].
  etransitivity; [exact Hm|apply Hk].
Qed.

Lemma moves_foreach {A} (l : list A) (f : A → ST S E unit) :
  (∀ x, moves R (f x)) → moves R (foreach l f).
Proof using PR.
  intros Hf. induction l as [|x l IH]; simpl; [apply moves_ret|]. apply moves_bind; [apply Hf|]. by intros [].
Qed.

Lemma moves_at {A} (m : ST S E A) s r s' : moves R m → m s = (r, s') → R s s'.
Proof using PR. intros Hm Hr. specialize (Hm s). by rewrite Hr in Hm. Qed.
End moves_rules.

(** What a call may do to the memory of its process. *)
Definition reshaped_by (w w' : World) : Prop := world_wf w → world_wf w' ∧ respects_others w w'.

#[export] Instance reshaped_by_preorder : PreOrder reshaped_by.
Proof.
  split; [by intros w|]. intros w1 w2 w3 H1 H2 Hwf. destruct (H1 Hwf) as [Hwf1 Ho1].
  destruct (H2 Hwf1) as [Hwf2 Ho2]. split; [done|]. by etransitivity.
Qed.

Section memory.
Context {OS : HostOs}.

(** [slice_mut]: whether the bytes can be borrowed for writing, after the copies that the
    borrow makes. *)
Definition slice_mut (address len : Z) : MemM bool :=
  let* end_ := lift (checked_raw_range address len) in
  if len =? 0 then ret true else
  let* m := gets_mem id in
  let* vma := lift (ok_or (vma_containing m address) NotMapped) in
  let* _ := lift (access_check AccessWrite (v_protection vma)) in
  if v_end vma <? end_ then ret false else
  do* (if range_overlaps_executable m address end_ then modify_mem record_executable_write else ret tt);
  do* ensure_guest_page_range_unique address end_;
  let* m := gets_mem id in
  let* vma := lift (ok_or (vma_containing m address) NotMapped) in
  let* offset := lift (guest_slice_offset vma address) in
  let* slice_end := lift (ok_or (checked_add64 offset len) RegionTooLarge) in
  let* b := allocation_memory_mut (v_allocation_id vma) in
  let* block := host_op (arc_get b) in
  let* _ := lift (expect (slice (hm_bytes block) offset slice_end)) in
  ret true.

(** A write through the borrow: to the bytes of the allocation behind the address. *)
Definition fill_slice (address : Z) (bytes : list Z) : MemM unit :=
  if zlen bytes =? 0 then ret tt else
  let* m := gets_mem id in
  let* vma := lift (ok_or (vma_containing m address) NotMapped) in
  let* offset := lift (guest_slice_offset vma address) in
  write_allocation (v_allocation_id vma) offset bytes.

(** [read_c_string]: the bytes before the NUL, which must be UTF-8. *)
Definition memory_read_c_string (address max_len : Z) (w : World) : outcome string GuestMemoryAccessError :=
  let? bytes := map_err access_fault (read_c_string_bytes address max_len w).1 in
  string_from_utf8 bytes Fault.

#[export] Instance runtime_memory_access : RuntimeMemoryAccess World := {
  runtime_access := guest_memory_access;
  read_c_string := memory_read_c_string;
  borrowed_bytes addr len w := map_err access_fault (guest_slice addr len AccessRead w).1;
  borrowed_bytes_mut addr len w := let '(r, w') := slice_mut addr len w in (map_err access_fault r, w');
  fill_borrowed addr bytes w := (fill_slice addr bytes w).2;
}.

(** ** What the borrows do to the memory *)
Context {OL : HostOsLaws OS}.

Lemma wp_reshaped {A} (m : MemM A) (Q : A → World → Prop) (R : GuestMemoryError → World → Prop) w :
  wp m Q R w → (∀ a w', Q a w' → reshaped_by w w') → (∀ e w', R e w' → reshaped_by w w') →
  reshaped_by w (m w).2.
Proof.
  unfold wp. intros Hwp HQ HR. destruct (m w) as [[a|e|] w']; simpl; [by eapply HQ|by eapply HR|done].
Qed.

Lemma contained_reshaped w w' : contained w w' → reshaped_by w w'.
Proof. by intros [? ? _] _. Qed.

Lemma host_read_moves {A} (m : HostM A) : (∀ h, (m h).2 = h) → moves reshaped_by (host_op m).
Proof.
  intros Hm w. unfold host_op. specialize (Hm (w_host w)). destruct (m (w_host w)) as [[a|e|] h]; simpl in *; subst; by destruct w.
Qed.

Lemma arc_get_moves b : moves reshaped_by (host_op (arc_get b)).
Proof. by apply host_read_moves. Qed.

Lemma allocation_memory_mut_moves id : moves reshaped_by (allocation_memory_mut id).
Proof.
  intros w Hwf. destruct (gm_allocations (w_mem w) !! id) as [al|] eqn:Hal.
  - eapply (wp_reshaped _ _ _ _ (wp_allocation_memory_mut w id al Hwf Hal)); [..|done]; cbv beta.
    + intros b w' [[Hiv _ _ _] _]. by apply contained_reshaped, invisible_contained.
    + intros e w' [_ Hq]. apply contained_reshaped, invisible_contained. auto with mcr.
  - assert ((allocation_memory_mut id w).2 = w) as ->; [|by split].
    unfold allocation_memory_mut, ensure_allocation_unique, get_allocation, gets_mem, bind, gets. simpl. by rewrite Hal.
Qed.

Lemma ensure_guest_page_range_unique_moves s e : 0 ≤ s → moves reshaped_by (ensure_guest_page_range_unique s e).
Proof.
  intros Hs w Hwf.
  eapply (wp_reshaped _ _ _ _ (wp_ensure_guest_page_range_unique w s e Hwf Hs)); [..|done]; cbv beta.
  - intros [] w' [Hiv _]. by apply contained_reshaped, invisible_contained.
  - intros e' w' [_ [Hiv _]]. by apply contained_reshaped, invisible_contained.
Qed.

Lemma record_executable_write_moves : moves reshaped_by (modify_mem record_executable_write).
Proof. intros w Hwf. split; [by apply generation_wf|]. by split. Qed.

(** Exclusive access to an allocation that the memory does not have fails. *)
Lemma allocation_memory_mut_missing id w :
  gm_allocations (w_mem w) !! id = None → allocation_memory_mut id w = (Err NotMapped, w).
Proof.
  intros Hal. unfold allocation_memory_mut, ensure_allocation_unique, get_allocation, gets_mem, bind, gets. by rewrite Hal.
Qed.

Lemma write_allocation_moves id off bytes : moves reshaped_by (write_allocation id off bytes).
Proof.
  intros w Hwf. unfold write_allocation, bind.
  destruct (gm_allocations (w_mem w) !! id) as [al0|] eqn:Hal0; [|by rewrite allocation_memory_mut_missing].
  pose proof (allocation_memory_mut_moves id w Hwf) as [Hwf1 Ho1].
  pose proof (wp_allocation_memory_mut w id al0 Hwf Hal0) as Hwp. unfold wp in Hwp.
  destruct (allocation_memory_mut id w) as [[b|e|] w1]; [|done..].
  destruct Hwp as (_ & al & bs & Hal & <- & Hc). simpl in Hwf1, Ho1.
  pose proof Hc as (k & Hk & Hbs & Hn)%contents_lookup.
  unfold host_op, arc_get, bind, gets, lift; simpl. rewrite Hk; simpl.
  unfold write_block, hm_len. destruct ((0 <=? off) && _) eqn:Hfit; simpl; [|by destruct w1]. bprop.
  destruct (overwrite_block w1 id al bs {| hm_bytes := splice (hm_bytes (ab_memory k)) off bytes;
    hm_protections := hm_protections (ab_memory k) |} Hwf1 Hal Hc) as (Hwf2 & Ho2 & _).
  { unfold zlen; simpl. rewrite <- Hbs. f_equal. by apply length_splice. }
  split; [done|]. by etransitivity.
Qed.

(** No area holds a negative address. *)
Lemma negative_unmapped w a : world_wf w → a < 0 → vma_containing (w_mem w) a = None.
Proof.
  intros Hwf Ha. destruct (vma_containing (w_mem w) a) as [v|] eqn:Hv; [|done]. exfalso.
  destruct (mapped_area _ _ _ Hwf Hv) as (_ & _ & _ & _ & _ & _ & Hin & Hk & _).
  pose proof (vw_ok _ _ (mw_vmas _ _ Hwf) _ _ Hk) as []. lia.
Qed.

Lemma slice_mut_moves a len : moves reshaped_by (slice_mut a len).
Proof.
  destruct (Z.ltb_spec a 0) as [Ha|Ha].
  { intros w Hwf. unfold slice_mut, bind, lift, gets_mem, gets. destruct (checked_raw_range a len); simpl; [|done..].
    destruct (len =? 0); [done|]. by rewrite (negative_unmapped _ _ Hwf Ha). }
  unfold slice_mut. apply moves_bind; [apply moves_lift|]. intros e.
  destruct (len =? 0); [apply moves_ret|]. apply moves_bind; [apply moves_gets|]. intros m.
  apply moves_bind; [apply moves_lift|]. intros v. apply moves_bind; [apply moves_lift|]. intros _.
  destruct (v_end v <? e); [apply moves_ret|].
  apply moves_bind; [destruct (range_overlaps_executable _ _ _); [apply record_executable_write_moves|apply moves_ret]|]. intros _.
  apply moves_bind; [by apply ensure_guest_page_range_unique_moves|]. intros _.
  apply moves_bind; [apply moves_gets|]. intros m1.
  apply moves_bind; [apply moves_lift|]. intros v1. apply moves_bind; [apply moves_lift|]. intros off.
  apply moves_bind; [apply moves_lift|]. intros send. apply moves_bind; [apply allocation_memory_mut_moves|]. intros b.
  apply moves_bind; [apply arc_get_moves|]. intros k. apply moves_bind; [apply moves_lift|]. intros _. apply moves_ret.
Qed.

Lemma fill_slice_moves a bytes : moves reshaped_by (fill_slice a bytes).
Proof.
  unfold fill_slice. destruct (zlen bytes =? 0); [apply moves_ret|]. apply moves_bind; [apply moves_gets|]. intros m.
  apply moves_bind; [apply moves_lift|]. intros v. apply moves_bind; [apply moves_lift|]. intros off. apply write_allocation_moves.
Qed.

Lemma write_moves a bytes : moves reshaped_by (GuestMemoryOps.write a bytes).
Proof.
  intros w Hwf. destruct (Z.ltb_spec a 0) as [Ha|Ha].
  { unfold GuestMemoryOps.write, write_guest, bind, lift, gets_mem, gets.
    destruct (checked_raw_range a (zlen bytes)) as [e| |]; [|done..]. simpl. destruct (e <=? a); [done|].
    assert (write_chunk a e bytes w = (Err NotMapped, w)) as Hc.
    { unfold write_chunk, bind, gets_mem, gets, lift, id. by rewrite (negative_unmapped _ _ Hwf Ha). }
    unfold bind. by rewrite Hc. }
  pose proof (write_guest_spec w a bytes Hwf Ha) as H. unfold wp in H.
  unfold GuestMemoryOps.write. destruct (write_guest a bytes w) as [[[]|e|] w']; simpl; [| |done].
  - by destruct H as (? & ? & _).
  - by destruct H as (? & ? & _).
Qed.
End memory.

(** ** mcr-runtime: what the file and socket calls do to the guest's memory

    [MemoryMoves R] is what the file system calls need of a memory: its writes and borrows are
    [R]-steps.  Then every call of the dispatch moves the memory by [R], whatever it returns;
    the memory of mcr-memory is the instance where [R] is [reshaped_by]. *)

Class MemoryMoves (M : Type) {A : RuntimeMemoryAccess M} (R : relation M) : Prop := {
  memory_preorder :: PreOrder R;
  write_bytes_moves : ∀ a bytes, moves R (write_bytes a bytes);
  borrowed_bytes_mut_moves : ∀ a len, moves R (borrowed_bytes_mut a len);
  fill_borrowed_moves : ∀ a bytes m, R m (fill_borrowed a bytes m);
}.

Create HintDb moves.

(** Symbolic execution of a [moves] goal, one construct at a time. *)
Ltac moves_step :=
  lazymatch goal with
  | |- moves _ (bind _ _) => apply moves_bind; [|intros ?]
  | |- moves _ (foreach _ _) => apply moves_foreach; intros ?
  | |- moves _ (ret _) => apply moves_ret
  | |- moves _ (throw _) => apply moves_throw
  | |- moves _ (lift _) => apply moves_lift
  | |- moves _ (gets _) => apply moves_gets
  | |- moves _ (match ?x with _ => _ end) => destruct x
  | |- moves _ _ => solve [auto with moves]
  end.
Ltac moves_steps := repeat moves_step.

Section moves.
Context {M : Type} {memory_access : RuntimeMemoryAccess M} {R : relation M} {MM : MemoryMoves M R}.
Context {host_fs : HostFs} {World Handle Transport BatchPoll : Type} {host_sockets : HostSockets World Handle Transport BatchPoll}.

Abbreviation Files := (RuntimeFileSystem (M := M) (World := World) (Handle := Handle) (Transport := Transport)).
Abbreviation RtM := (RtM (M := M) (World := World) (Handle := Handle) (Transport := Transport)).

Definition memory_moved (s s' : Files) : Prop := R (rf_memory s) (rf_memory s').

#[export] Instance memory_moved_preorder : PreOrder memory_moved.
Proof using MM. split; [intros s; unfold memory_moved; reflexivity|]. intros s1 s2 s3. unfold memory_moved. by etransitivity. Qed.

Lemma moves_vfs {A} (m : VfsM A) : moves memory_moved (on_vfs m : RtM A).
Proof using MM. intros s. unfold on_vfs, memory_moved. destruct (m (rf_vfs s)); simpl; reflexivity. Qed.
Lemma moves_sockets {A} (m : NetM A) : moves memory_moved (on_sockets m : RtM A).
Proof using MM. intros s. unfold on_sockets, memory_moved. destruct (m (rf_sockets s)); simpl; reflexivity. Qed.
Lemma moves_of_vfs {A} (f : Vfs → outcome A VfsError) : moves memory_moved (of_vfs f : RtM A).
Proof using MM. intros s. unfold memory_moved. reflexivity. Qed.
Lemma moves_of_memory {A} (f : Reader M A) : moves memory_moved (of_memory f : RtM A).
Proof using MM. intros s. unfold memory_moved. reflexivity. Qed.
Lemma moves_on_memory {A} (m : Writer M A) : moves R m → moves memory_moved (on_memory m : RtM A).
Proof using MM. intros Hm s. specialize (Hm (rf_memory s)). unfold on_memory, memory_moved. by destruct (m (rf_memory s)). Qed.

(** *** The writers of mcr-sys *)
Lemma writer_moves a bytes : moves R (writer a bytes).
Proof using MM. intros m. pose proof (write_bytes_moves a bytes m). unfold writer. by destruct (write_bytes a bytes m). Qed.

Hint Resolve writer_moves : moves.

Lemma reading_memory_moves {A} (f : Reader M A) : moves R (reading_memory f).
Proof using MM. intros m. unfold reading_memory. simpl. reflexivity. Qed.
Hint Resolve reading_memory_moves : moves.

Lemma write_buffers_loop_moves pairs n consumed : moves R (write_buffers_loop pairs n consumed).
Proof using MM.
  revert consumed. induction pairs as [|[iovec buffer] pairs IH]; intros consumed; simpl; moves_steps.
Qed.
Hint Resolve write_buffers_loop_moves : moves.

Lemma write_socket_address_moves a l x : moves R (SysCodec.write_socket_address a l x).
Proof using MM. unfold SysCodec.write_socket_address, write_address_prefix. moves_steps. Qed.
Hint Resolve write_socket_address_moves : moves.

Lemma write_optional_moves a l x : moves R (SysCodec.write_optional_socket_address a l x).
Proof using MM. unfold SysCodec.write_optional_socket_address. moves_steps. Qed.
Hint Resolve write_optional_moves : moves.

Lemma write_msghdr_name_moves h a l x : moves R (SysCodec.write_socket_address_to_msghdr_name h a l x).
Proof using MM. unfold SysCodec.write_socket_address_to_msghdr_name, write_address_prefix, write_msghdr_namelen. moves_steps. Qed.
Hint Resolve write_msghdr_name_moves : moves.

(** *** The calls *)
Hint Resolve moves_vfs moves_sockets moves_of_vfs moves_of_memory moves_on_memory : moves.

Lemma write_bytes_at_moves a bytes : moves memory_moved (write_bytes_at a bytes : RtM unit).
Proof using MM. unfold write_bytes_at. moves_steps. Qed.
Hint Resolve write_bytes_at_moves : moves.

Lemma try_borrow_mut_moves a len : moves memory_moved (try_borrow_mut a len : RtM bool).
Proof using MM.
  intros s. pose proof (borrowed_bytes_mut_moves a len (rf_memory s)). unfold try_borrow_mut, memory_moved.
  by destruct (borrowed_bytes_mut a len (rf_memory s)).
Qed.
Hint Resolve try_borrow_mut_moves : moves.

Lemma fill_moves a len bytes : moves memory_moved (fill a len bytes : RtM unit).
Proof using MM. intros s. apply fill_borrowed_moves. Qed.
Hint Resolve fill_moves : moves.

Lemma guest_bytes_moves a len : moves memory_moved (guest_bytes a len : RtM (list Z)).
Proof using MM. unfold guest_bytes, borrow. moves_steps. Qed.
Hint Resolve guest_bytes_moves : moves.

Lemma receive_into_moves a len m : moves memory_moved m → moves memory_moved (receive_into a len m : RtM Z).
Proof using MM. intros Hm. unfold receive_into. moves_steps. Qed.
Hint Resolve receive_into_moves : moves.

Lemma socket_id_for_fd_moves fd : moves memory_moved (socket_id_for_fd fd : RtM Z).
Proof using MM. unfold socket_id_for_fd. moves_steps. Qed.
Lemma socket_id_for_fd_or_none_moves fd : moves memory_moved (socket_id_for_fd_or_none fd : RtM (option Z)).
Proof using MM.
  intros s. unfold socket_id_for_fd_or_none, memory_moved. destruct (VfsFd.socket_id_for_fd fd _) as [[|[]|] ?]; simpl; reflexivity.
Qed.
Hint Resolve socket_id_for_fd_moves socket_id_for_fd_or_none_moves : moves.

Lemma receive_moves sid fd len : moves memory_moved (receive sid fd len : RtM (list Z)).
Proof using MM. unfold receive. moves_steps. Qed.
Lemma send_moves sid fd buffer : moves memory_moved (send sid fd buffer : RtM Z).
Proof using MM. unfold send. moves_steps. Qed.
Hint Resolve receive_moves send_moves : moves.

Lemma iovecs_are_borrowable_mut_moves iovecs : moves memory_moved (iovecs_are_borrowable_mut iovecs : RtM bool).
Proof using MM. induction iovecs as [|v iovecs IH]; simpl; moves_steps. Qed.
Lemma iovec_loop_moves (step : LinuxIovec → RtM Z) iovecs total :
  (∀ v, moves memory_moved (step v)) → moves memory_moved (iovec_loop step iovecs total).
Proof using MM. intros Hs. revert total. induction iovecs as [|v iovecs IH]; intros total; simpl; moves_steps. Qed.
Hint Resolve iovecs_are_borrowable_mut_moves iovec_loop_moves : moves.

Lemma borrowed_read_step_moves fd v : moves memory_moved (borrowed_read_step fd v : RtM Z).
Proof using MM.
  unfold borrowed_read_step. moves_steps. apply moves_on_memory. intros m.
  pose proof (borrowed_bytes_mut_moves (iov_base v) (iov_len v) m). by destruct (borrowed_bytes_mut _ _ m).
Qed.
Lemma copied_read_step_moves fd v : moves memory_moved (copied_read_step fd v : RtM Z).
Proof using MM. unfold copied_read_step. moves_steps. Qed.
Lemma recv_connected_into_iovecs_moves sid iovecs : moves memory_moved (recv_connected_into_iovecs sid iovecs : RtM Z).
Proof using MM. unfold recv_connected_into_iovecs, write_iovec_buffers. moves_steps. Qed.
Lemma borrowed_write_step_moves fd v : moves memory_moved (borrowed_write_step fd v : RtM Z).
Proof using MM. unfold borrowed_write_step, borrow. moves_steps. Qed.
Lemma copied_write_step_moves fd v : moves memory_moved (copied_write_step fd v : RtM Z).
Proof using MM. unfold copied_write_step. moves_steps. Qed.
Lemma pwrite_iovecs_moves fd off iovecs total : moves memory_moved (pwrite_iovecs fd off iovecs total : RtM Z).
Proof using MM. revert off total. induction iovecs as [|v iovecs IH]; intros off total; simpl; moves_steps. Qed.
Hint Resolve borrowed_read_step_moves copied_read_step_moves recv_connected_into_iovecs_moves
  borrowed_write_step_moves copied_write_step_moves pwrite_iovecs_moves : moves.

Lemma close_file_moves file : moves memory_moved (close_unshared_file_resources file : RtM unit).
Proof using MM. unfold close_unshared_file_resources, close_socket_id. moves_steps. Qed.
Hint Resolve close_file_moves : moves.

Lemma close_in_range_moves f fd :
  (∀ file, moves memory_moved (f file : RtM unit)) → moves memory_moved (close_in_range f fd : RtM unit).
Proof using MM.
  intros Hf s. unfold close_in_range. destruct (close_with_file fd (rf_vfs s)) as [[file|[]|] v];
    try (unfold memory_moved; simpl; reflexivity). apply (Hf file (set_rf_vfs v s)).
Qed.
Hint Resolve close_in_range_moves : moves.

Lemma if_socket_moves fd f :
  (∀ sid, moves memory_moved (f sid : RtM unit)) → moves memory_moved (if_socket fd f : RtM unit).
Proof using MM.
  intros Hf s. unfold if_socket. pose proof (socket_id_for_fd_moves fd s) as Hs.
  destruct (socket_id_for_fd fd s) as [[sid|e|] s1]; simpl in Hs; [|exact Hs..].
  transitivity s1; [exact Hs|apply Hf].
Qed.
Hint Resolve if_socket_moves : moves.

Lemma current_attr_moves dirfd path flags : moves memory_moved (current_attr dirfd path flags : RtM _).
Proof using MM. intros s. unfold current_attr, memory_moved. destruct (newfstatat _ _ _ _); simpl; reflexivity. Qed.
Hint Resolve current_attr_moves : moves.

(** Every file system call of the dispatch. *)
Lemma file_call_moves now syscall f a : file_call now syscall = Some f → moves memory_moved (f a : RtM Z).
Proof using MM.
  destruct syscall; simpl; intros H; try discriminate H; injection H as <-;
    unfold sys_open, sys_openat, sys_openat2, open_file, sys_read, sys_write, sys_pread64, sys_pwrite64, sys_readv, sys_pwritev2,
      sys_writev, sys_close, sys_close_range, close_fd_range, sys_lseek, sys_fstat, sys_stat, sys_lstat, sys_statfs, sys_fstatfs,
      sys_newfstatat, sys_statx, sys_access, sys_faccessat2, sys_readlink, sys_readlinkat, sys_getdents64, sys_pipe,
      sys_pipe2, create_pipe, sys_dup, sys_dup2, sys_dup3, sys_fcntl, sys_ioctl, sys_mkdir, sys_mkdirat, sys_rmdir,
      sys_unlink, sys_unlinkat, sys_rename, sys_renameat2, sys_symlink, sys_symlinkat, sys_link, sys_linkat,
      sys_ftruncate, sys_fallocate, sys_chmod, sys_chown, sys_utimensat, utimensat_times, sys_getcwd, sys_chdir, sys_umask, sys_sync_fd,
      read_path, write_stat, write_statx, write_statfs, write_iovec_buffers; moves_steps.
Qed.

Lemma read_address_moves a l : moves memory_moved (read_socket_address a l : RtM _).
Proof using MM. unfold read_socket_address. moves_steps. Qed.
Lemma rt_write_socket_address_moves a l x : moves memory_moved (write_socket_address a l x : RtM _).
Proof using MM. unfold write_socket_address. moves_steps. Qed.
Lemma rt_write_optional_moves a l x : moves memory_moved (write_optional_socket_address a l x : RtM _).
Proof using MM. unfold write_optional_socket_address. moves_steps. Qed.
Lemma rt_write_name_moves h a l x : moves memory_moved (write_socket_address_to_msghdr_name h a l x : RtM _).
Proof using MM. unfold write_socket_address_to_msghdr_name. moves_steps. Qed.
Hint Resolve read_address_moves rt_write_socket_address_moves rt_write_optional_moves rt_write_name_moves : moves.

Lemma recv_datagram_moves sid msg message iovecs : moves memory_moved (recv_datagram sid msg message iovecs : RtM Z).
Proof using MM. unfold recv_datagram, write_iovec_buffers. moves_steps. Qed.
Lemma socket_is_udp_datagram_moves sid : moves memory_moved (socket_is_udp_datagram sid : RtM bool).
Proof using MM. unfold socket_is_udp_datagram. moves_steps. Qed.
Hint Resolve recv_datagram_moves socket_is_udp_datagram_moves : moves.

(** Every socket call of the dispatch. *)
Lemma network_call_moves syscall f a : network_call syscall = Some f → moves memory_moved (f a : RtM Z).
Proof using MM.
  destruct syscall; simpl; intros H; try discriminate H; injection H as <-;
    unfold sys_socket, sys_bind, sys_connect, sys_listen, sys_shutdown, sys_sendto, sys_recvfrom, sys_sendmsg,
      sys_recvmsg, sys_getsockopt, sys_setsockopt, sys_accept, sys_getsockaddr, write_msghdr_namelen, write_msghdr_flags; moves_steps.
Qed.

Lemma run_call_moves (call : option (SyscallArgs → RtM Z)) a :
  (∀ f, call = Some f → moves memory_moved (f a)) → moves memory_moved (run_call call a).
Proof using MM.
  intros Hc s. unfold run_call. destruct call as [f|]; [|unfold memory_moved; simpl; reflexivity].
  pose proof (Hc f eq_refl s). by destruct (f a s).
Qed.

Lemma dispatch_file_moves now request : moves memory_moved (RtFileCalls.dispatch_file (memory_access := memory_access) (World := World) (Handle := Handle) (Transport := Transport) now request).
Proof using MM. apply run_call_moves. intros f Hf. by eapply file_call_moves. Qed.

Lemma dispatch_network_moves request : moves memory_moved (RtNet.dispatch_network (memory_access := memory_access) (World := World) (Handle := Handle) (Transport := Transport) request).
Proof using MM. apply run_call_moves. intros f Hf. by eapply network_call_moves. Qed.
End moves.

(** ** The guest memory *)
#[export] Instance guest_memory_moves {OS : HostOs} {OL : HostOsLaws OS} : MemoryMoves GuestMemory.World reshaped_by.
Proof.
  split.
  - apply _.
  - intros a bytes w. pose proof (write_moves a bytes w). simpl. by destruct (GuestMemoryOps.write a bytes w).
  - intros a len w. pose proof (slice_mut_moves a len w). simpl. by destruct (slice_mut a len w).
  - intros a bytes w. apply fill_slice_moves.
Qed.
