(* ===== verification/RtProcess.v ===== *)
(** * mcr-runtime: the memories and descriptors of the processes

    [RuntimeSubsystems] (subsystems/mod.rs, process.rs): the files, sockets and memory of the
    runtime belong to one process at a time, the selected one; the memories and the descriptor
    tables of the others wait in maps.  A call first selects the context of its process.  A
    forked child has no memory of its own until its parent or itself runs again: until then it
    is pending, and reads the memory of its parent.

    All memories share one host heap, all tables one heap of descriptions.  What the code drops
    ([Drop] of a memory or of a table) is written out.  The environment variable that lets a
    child share its parent's memory until it executes a program is the parameter
    [unsafe_share_until_exec]. *)

From S2P Require Import Prelude SysAbi SyscallTable Dispatcher HostMemory GuestMemory GuestMemoryOps Bytes SysCodec SysCodecTheorems ElfParser ElfImage ImageMemory TaskTypes TaskKernel TaskWait VfsTypes VfsPath VfsFd VfsCache VfsSystem NetTypes NetTable JitRegisters JitDecoder JitPatch RtSignals RtAbi RtFiles RtFileCalls RtMemory RtEvents RtNet.
From stdpp Require Import base gmap list sorting strings.
From Stdlib Require Import ZArith Lia.
Open Scope Z_scope.

Abbreviation GuestMemory := GuestMemory.GuestMemory.
Abbreviation INITIAL_PID := INITIAL_GUEST_PID.

Definition rq_pid (r : SyscallRequest) : Z := tc_pid (rq_context r).
Definition rq_tid (r : SyscallRequest) : Z := tc_tid (rq_context r).

(** ** State *)
Inductive GuestLibcIntrinsic : Type :=
| Memcpy | Memmove | Memset | Memchr | Memcmp | Strlen (max_len : Z).

(** A file and its generation, an offset and a length. *)
Definition FileBackedMappingCacheKey : Type := (Z * Z) * Z * Z.
Record FileBackedMappingCache : Type := {
  mc_entries : gmap FileBackedMappingCacheKey (list Z);
  mc_hits : Z;
  mc_misses : Z;
}.
Record FileBackedLibcIntrinsicSymbol : Type := { fs_value : Z; fs_intrinsic : GuestLibcIntrinsic }.

Record EventSubsystemState : Type := {
  ev_futexes : FutexRegistry;
  ev_futex_timeouts : gmap Z Z;
  ev_sleep_timeouts : gmap Z Z;
  ev_epolls : EpollRegistry;
  ev_signal_alt_stacks : gmap Z GuestSignalAltStack;
  ev_scheduler_yield_budget : Z;
}.

Section runtime.
Context {OS : HostOs} {host_fs : HostFs}.
Context {NetWorld Handle Transport BatchPoll : Type} {host_sockets : HostSockets NetWorld Handle Transport BatchPoll}.
Context {FloatingPoint : Type}.
Context (unsafe_share_until_exec : bool).

Abbreviation Files := (RuntimeFileSystem (M := World) (World := NetWorld) (Handle := Handle) (Transport := Transport)).

(** What native execution keeps per task and per process. *)
Record NativeExecutionState : Type := {
  nx_file_backed_mapping_cache : FileBackedMappingCache;
  nx_libc_intrinsic_symbol_cache : gmap (Z * Z) (list FileBackedLibcIntrinsicSymbol);
  nx_enabled : bool;
  nx_fp : gmap Z FloatingPoint;
  nx_patch_caches : gmap Z NativePatchCache;
  nx_image_patch_keys : gmap Z NativeImagePatchKey;
  nx_image_patch_ranges : gmap Z NativeImagePatchRanges;
  nx_libc_intrinsic_patches : gmap (Z * Z) GuestLibcIntrinsic;
  nx_pending_fork_child_regs : option GprState;
}.

Record RuntimeSubsystems : Type := {
  rt_tasks : GuestKernel;
  rt_memory : gmap Z GuestMemory;
  rt_pending_fork_exec : gmap Z Z;
  rt_selected_memory_pid : Z;
  rt_fds : gmap Z FdTable;
  rt_selected_fds_pid : Z;
  rt_files : Files;
  rt_native : NativeExecutionState;
  rt_events : EventSubsystemState;
}.

Definition SubM : Type → Type := ST RuntimeSubsystems LinuxErrno.
(** The calls that return the errors of the memory. *)
Definition SubMemM : Type → Type := ST RuntimeSubsystems GuestMemoryError.

Definition set_rt_tasks (k : GuestKernel) (s : RuntimeSubsystems) : RuntimeSubsystems :=
  {| rt_tasks := k; rt_memory := rt_memory s; rt_pending_fork_exec := rt_pending_fork_exec s;
     rt_selected_memory_pid := rt_selected_memory_pid s; rt_fds := rt_fds s;
     rt_selected_fds_pid := rt_selected_fds_pid s; rt_files := rt_files s; rt_native := rt_native s;
     rt_events := rt_events s |}.
Definition set_rt_memory (m : gmap Z GuestMemory) (s : RuntimeSubsystems) : RuntimeSubsystems :=
  {| rt_tasks := rt_tasks s; rt_memory := m; rt_pending_fork_exec := rt_pending_fork_exec s;
     rt_selected_memory_pid := rt_selected_memory_pid s; rt_fds := rt_fds s;
     rt_selected_fds_pid := rt_selected_fds_pid s; rt_files := rt_files s; rt_native := rt_native s;
     rt_events := rt_events s |}.
Definition set_rt_pending (p : gmap Z Z) (s : RuntimeSubsystems) : RuntimeSubsystems :=
  {| rt_tasks := rt_tasks s; rt_memory := rt_memory s; rt_pending_fork_exec := p;
     rt_selected_memory_pid := rt_selected_memory_pid s; rt_fds := rt_fds s;
     rt_selected_fds_pid := rt_selected_fds_pid s; rt_files := rt_files s; rt_native := rt_native s;
     rt_events := rt_events s |}.
Definition set_rt_selected_memory (pid : Z) (s : RuntimeSubsystems) : RuntimeSubsystems :=
  {| rt_tasks := rt_tasks s; rt_memory := rt_memory s; rt_pending_fork_exec := rt_pending_fork_exec s;
     rt_selected_memory_pid := pid; rt_fds := rt_fds s;
     rt_selected_fds_pid := rt_selected_fds_pid s; rt_files := rt_files s; rt_native := rt_native s;
     rt_events := rt_events s |}.
Definition set_rt_fds (f : gmap Z FdTable) (s : RuntimeSubsystems) : RuntimeSubsystems :=
  {| rt_tasks := rt_tasks s; rt_memory := rt_memory s; rt_pending_fork_exec := rt_pending_fork_exec s;
     rt_selected_memory_pid := rt_selected_memory_pid s; rt_fds := f;
     rt_selected_fds_pid := rt_selected_fds_pid s; rt_files := rt_files s; rt_native := rt_native s;
     rt_events := rt_events s |}.
Definition set_rt_selected_fds (pid : Z) (s : RuntimeSubsystems) : RuntimeSubsystems :=
  {| rt_tasks := rt_tasks s; rt_memory := rt_memory s; rt_pending_fork_exec := rt_pending_fork_exec s;
     rt_selected_memory_pid := rt_selected_memory_pid s; rt_fds := rt_fds s;
     rt_selected_fds_pid := pid; rt_files := rt_files s; rt_native := rt_native s;
     rt_events := rt_events s |}.
Definition set_rt_files (f : Files) (s : RuntimeSubsystems) : RuntimeSubsystems :=
  {| rt_tasks := rt_tasks s; rt_memory := rt_memory s; rt_pending_fork_exec := rt_pending_fork_exec s;
     rt_selected_memory_pid := rt_selected_memory_pid s; rt_fds := rt_fds s;
     rt_selected_fds_pid := rt_selected_fds_pid s; rt_files := f; rt_native := rt_native s;
     rt_events := rt_events s |}.
Definition set_rt_native (n : NativeExecutionState) (s : RuntimeSubsystems) : RuntimeSubsystems :=
  {| rt_tasks := rt_tasks s; rt_memory := rt_memory s; rt_pending_fork_exec := rt_pending_fork_exec s;
     rt_selected_memory_pid := rt_selected_memory_pid s; rt_fds := rt_fds s;
     rt_selected_fds_pid := rt_selected_fds_pid s; rt_files := rt_files s; rt_native := n;
     rt_events := rt_events s |}.
Definition set_rt_events (e : EventSubsystemState) (s : RuntimeSubsystems) : RuntimeSubsystems :=
  {| rt_tasks := rt_tasks s; rt_memory := rt_memory s; rt_pending_fork_exec := rt_pending_fork_exec s;
     rt_selected_memory_pid := rt_selected_memory_pid s; rt_fds := rt_fds s;
     rt_selected_fds_pid := rt_selected_fds_pid s; rt_files := rt_files s; rt_native := rt_native s;
     rt_events := e |}.

Definition set_nx_fp (fp : gmap Z FloatingPoint) (n : NativeExecutionState) : NativeExecutionState :=
  {| nx_file_backed_mapping_cache := nx_file_backed_mapping_cache n;
     nx_libc_intrinsic_symbol_cache := nx_libc_intrinsic_symbol_cache n; nx_enabled := nx_enabled n; nx_fp := fp; nx_patch_caches := nx_patch_caches n;
     nx_image_patch_keys := nx_image_patch_keys n; nx_image_patch_ranges := nx_image_patch_ranges n;
     nx_libc_intrinsic_patches := nx_libc_intrinsic_patches n;
     nx_pending_fork_child_regs := nx_pending_fork_child_regs n |}.
Definition set_nx_patches (caches : gmap Z NativePatchCache) (keys : gmap Z NativeImagePatchKey)
    (ranges : gmap Z NativeImagePatchRanges) (intrinsics : gmap (Z * Z) GuestLibcIntrinsic)
    (n : NativeExecutionState) : NativeExecutionState :=
  {| nx_file_backed_mapping_cache := nx_file_backed_mapping_cache n;
     nx_libc_intrinsic_symbol_cache := nx_libc_intrinsic_symbol_cache n; nx_enabled := nx_enabled n; nx_fp := nx_fp n; nx_patch_caches := caches; nx_image_patch_keys := keys;
     nx_image_patch_ranges := ranges; nx_libc_intrinsic_patches := intrinsics;
     nx_pending_fork_child_regs := nx_pending_fork_child_regs n |}.
Definition set_nx_pending_regs (r : option GprState) (n : NativeExecutionState) : NativeExecutionState :=
  {| nx_file_backed_mapping_cache := nx_file_backed_mapping_cache n;
     nx_libc_intrinsic_symbol_cache := nx_libc_intrinsic_symbol_cache n; nx_enabled := nx_enabled n; nx_fp := nx_fp n; nx_patch_caches := nx_patch_caches n;
     nx_image_patch_keys := nx_image_patch_keys n; nx_image_patch_ranges := nx_image_patch_ranges n;
     nx_libc_intrinsic_patches := nx_libc_intrinsic_patches n; nx_pending_fork_child_regs := r |}.

Definition set_nx_file_caches (c : FileBackedMappingCache) (symbols : gmap (Z * Z) (list FileBackedLibcIntrinsicSymbol))
    (n : NativeExecutionState) : NativeExecutionState :=
  {| nx_file_backed_mapping_cache := c; nx_libc_intrinsic_symbol_cache := symbols; nx_enabled := nx_enabled n;
     nx_fp := nx_fp n; nx_patch_caches := nx_patch_caches n;
     nx_image_patch_keys := nx_image_patch_keys n; nx_image_patch_ranges := nx_image_patch_ranges n;
     nx_libc_intrinsic_patches := nx_libc_intrinsic_patches n;
     nx_pending_fork_child_regs := nx_pending_fork_child_regs n |}.

(** *** Access to the parts *)
Definition rt_heap (s : RuntimeSubsystems) : HostHeap := w_host (rf_memory (rt_files s)).
Definition rt_selected_memory (s : RuntimeSubsystems) : GuestMemory := w_mem (rf_memory (rt_files s)).

Definition set_rt_world (w : World) (s : RuntimeSubsystems) : RuntimeSubsystems :=
  set_rt_files (set_rf_memory w (rt_files s)) s.
Definition set_rt_heap (h : HostHeap) (s : RuntimeSubsystems) : RuntimeSubsystems :=
  set_rt_world {| w_host := h; w_mem := rt_selected_memory s |} s.

(** [*self.files.memory_mut() = memory], which drops the memory that was there. *)
Definition put_selected_memory (m : GuestMemory) (s : RuntimeSubsystems) : RuntimeSubsystems :=
  set_rt_world {| w_host := drop_guest_memory (rt_selected_memory s) (rt_heap s); w_mem := m |} s.

(** [std::mem::replace(self.files.memory_mut(), memory)]. *)
Definition replace_selected_memory (m : GuestMemory) (s : RuntimeSubsystems) : GuestMemory * RuntimeSubsystems :=
  (rt_selected_memory s, set_rt_world {| w_host := rt_heap s; w_mem := m |} s).

Definition drop_memory (m : GuestMemory) (s : RuntimeSubsystems) : RuntimeSubsystems :=
  set_rt_heap (drop_guest_memory m (rt_heap s)) s.
Definition drop_memory_option (m : option GuestMemory) (s : RuntimeSubsystems) : RuntimeSubsystems :=
  match m with Some m => drop_memory m s | None => s end.

(** [self.process.memory.insert(pid, memory)]: a memory that was there is dropped. *)
Definition insert_memory (pid : Z) (m : GuestMemory) (s : RuntimeSubsystems) : RuntimeSubsystems :=
  set_rt_memory (<[pid := m]> (rt_memory s)) (drop_memory_option (rt_memory s !! pid) s).

(** A call of mcr-memory on a memory that the runtime holds. *)
Definition on_memory_value {A} (m : GuestMemory) (f : MemM A) : SubMemM A :=
  λ s, let (r, w) := f {| w_host := rt_heap s; w_mem := m |} in (r, set_rt_heap (w_host w) s).

Definition on_selected_memory {A} (f : MemM A) : SubMemM A :=
  λ s, let (r, w) := f (rf_memory (rt_files s)) in (r, set_rt_world w s).

Definition memory_result {A} (m : SubMemM A) : SubM A :=
  λ s, let (r, s) := m s in (map_err GuestMemory.memory_errno r, s).

Definition on_files {A} (m : RtM A) : SubM A :=
  λ s, let (r, f) := m (rt_files s) in (r, set_rt_files f s).

Definition with_vfs_state (f : Vfs → Vfs) (s : RuntimeSubsystems) : RuntimeSubsystems :=
  set_rt_files (set_rf_vfs (f (rf_vfs (rt_files s))) (rt_files s)) s.

Definition process_exists (pid : Z) (s : RuntimeSubsystems) : bool :=
  bool_decide (is_Some (k_processes (rt_tasks s) !! pid)).

(** ** Memories of processes (mod.rs) *)
Definition memory_for_process (pid : Z) (s : RuntimeSubsystems) : option GuestMemory :=
  if pid =? rt_selected_memory_pid s then Some (rt_selected_memory s)
  else match rt_memory s !! pid with
       | Some memory => Some memory
       | None =>
           match rt_pending_fork_exec s !! pid with
           | Some parent_pid =>
               if parent_pid =? rt_selected_memory_pid s then Some (rt_selected_memory s)
               else rt_memory s !! parent_pid
           | None => None
           end
       end.

(** [sync_proc_self] of linux_abi.rs; the cache is only invalidated. *)
Definition sync_proc_self (pid : Z) (s : RuntimeSubsystems) : RuntimeSubsystems :=
  match k_processes (rt_tasks s) !! pid with
  | Some process =>
      let image := p_image process in
      with_vfs_state (λ v, (set_proc_self {| ps_executable_path := ge_path (gi_executable image);
                                             ps_argv := gi_argv image; ps_envp := gi_envp image |} v).2) s
  | None => s
  end.

(** ** Pending children (process.rs) *)

(** What native execution keeps about the parent's code also holds for the child's copy. *)
Definition inherit_patches (parent_pid child_pid : Z) (n : NativeExecutionState) : NativeExecutionState :=
  set_nx_patches
    (match nx_patch_caches n !! parent_pid with
     | Some cache => <[child_pid := cache]> (nx_patch_caches n) | None => nx_patch_caches n end)
    (match nx_image_patch_keys n !! parent_pid with
     | Some key => <[child_pid := key]> (nx_image_patch_keys n) | None => nx_image_patch_keys n end)
    (match nx_image_patch_ranges n !! parent_pid with
     | Some ranges => <[child_pid := ranges]> (nx_image_patch_ranges n) | None => nx_image_patch_ranges n end)
    (foldl (λ m p, if (p.1.1 =? parent_pid) then <[(child_pid, p.1.2) := p.2]> m else m)
       (nx_libc_intrinsic_patches n) (map_to_list (nx_libc_intrinsic_patches n)))
    n.

Definition materialize_pending_fork_exec_child_memory (child_pid : Z) : SubMemM unit :=
  let* s := gets id in
  let* parent_pid := lift (ok_or (rt_pending_fork_exec s !! child_pid) NotMapped) in
  let* parent := lift (ok_or (memory_for_process parent_pid s) NotMapped) in
  let* memory := on_memory_value parent try_clone_runtime in
  do* modify (λ s, set_rt_pending (delete child_pid (rt_pending_fork_exec s)) s);
  do* modify (insert_memory child_pid memory);
  modify (λ s, set_rt_native (inherit_patches parent_pid child_pid (rt_native s)) s).

(** The pending children of a process, by their identifiers. *)
Definition pending_children (parent_pid : Z) (s : RuntimeSubsystems) : list Z :=
  (filter (λ p : Z * Z, p.2 = parent_pid) (bt_iter (rt_pending_fork_exec s))).*1.

Definition materialize_pending_fork_exec_children (parent_pid : Z) : SubMemM unit :=
  if unsafe_share_until_exec then ret tt else
  let* child_pids := gets (pending_children parent_pid) in
  foreach child_pids materialize_pending_fork_exec_child_memory.

Definition has_pending_fork_exec_child (pid : Z) (s : RuntimeSubsystems) : bool :=
  bool_decide (is_Some (rt_pending_fork_exec s !! pid)).
Definition has_pending_fork_exec_children (parent_pid : Z) (s : RuntimeSubsystems) : bool :=
  existsb (λ p, p =? parent_pid) (bt_values (rt_pending_fork_exec s)).

(** The stable sort by [(!pending_child, tid)]. *)
Definition pending_task (s : RuntimeSubsystems) (tid : Z) : bool :=
  match k_tasks (rt_tasks s) !! tid with
  | Some task => has_pending_fork_exec_child (t_pid task) s
  | None => false
  end.
Definition scheduler_key_le (s : RuntimeSubsystems) (a b : Z) : Prop :=
  (pending_task s a = true ∧ pending_task s b = false) ∨ (pending_task s a = pending_task s b ∧ a ≤ b).
#[export] Instance scheduler_key_le_dec s : RelDecision (scheduler_key_le s).
Proof. intros a b. unfold scheduler_key_le. apply _. Defined.
Definition prioritize_pending_fork_exec_tids (tids : list Z) (s : RuntimeSubsystems) : list Z :=
  merge_sort (scheduler_key_le s) tids.

Definition sticky_scheduler_candidate (tid : Z) (s : RuntimeSubsystems) : option Z :=
  match k_tasks (rt_tasks s) !! tid with
  | None => None
  | Some task =>
      if negb (bool_decide (t_state task = Runnable)) then None else
      if has_pending_fork_exec_children (t_pid task) s then None else Some tid
  end.

(** ** Selecting a memory *)
Definition drop_selected_memory_allocations : SubMemM unit :=
  modify (λ s, put_selected_memory (empty_clone_layout (rt_selected_memory s)) s).

Definition materialize_selected_memory_at_guest_addresses : SubMemM unit :=
  let* selected := gets rt_selected_memory in
  let* snapshot := on_memory_value selected try_clone_runtime in
  do* drop_selected_memory_allocations;
  let* memory := on_err (on_memory_value snapshot try_clone_runtime_at_guest_addresses) (modify (drop_memory snapshot)) in
  do* modify (put_selected_memory memory);
  modify (drop_memory snapshot).

(** The memory selected before goes back to the map when its process still exists. *)
Definition restore_snapshot (selected_pid : Z) (snapshot : GuestMemory) : SubMemM unit :=
  let* restored := on_err (on_memory_value snapshot try_clone_runtime_at_guest_addresses) (modify (drop_memory snapshot)) in
  do* modify (insert_memory selected_pid snapshot);
  modify (put_selected_memory restored).

Definition select_native_memory_for_process (pid : Z) : SubM unit :=
  let* s := gets id in
  let selected_pid := rt_selected_memory_pid s in
  let* selected_snapshot :=
    memory_result (if process_exists selected_pid s
                   then let* m := on_memory_value (rt_selected_memory s) try_clone_runtime in ret (Some m)
                   else ret None) in
  match rt_memory s !! pid with
  | None => do* modify (drop_memory_option selected_snapshot); throw ESRCH
  | Some target_snapshot =>
      do* modify (λ s, set_rt_memory (delete pid (rt_memory s)) s);
      do* memory_result drop_selected_memory_allocations;
      λ s, match on_memory_value target_snapshot try_clone_runtime_at_guest_addresses s with
           | (Ok memory, s) =>
               let s := match selected_snapshot with
                        | Some snapshot => insert_memory selected_pid snapshot s | None => s end in
               let s := put_selected_memory memory s in
               (Ok tt, set_rt_selected_memory pid (drop_memory target_snapshot s))
           | (Err error, s) =>
               let s := insert_memory pid target_snapshot s in
               memory_result (do* match selected_snapshot with
                                  | Some snapshot => restore_snapshot selected_pid snapshot
                                  | None => ret tt
                                  end;
                              throw error) s
           | (Panic, s) => (Panic, s)
           end
  end.

(** The swap of the interpreted runtime. *)
Definition swap_memory_for_process (pid : Z) : SubM unit :=
  let* s := gets id in
  let selected_pid := rt_selected_memory_pid s in
  let* memory := lift (ok_or (rt_memory s !! pid) ESRCH) in
  do* modify (λ s, set_rt_memory (delete pid (rt_memory s)) s);
  do* (if process_exists selected_pid s
       then modify (λ s, let (selected, s) := replace_selected_memory memory s in insert_memory selected_pid selected s)
       else modify (put_selected_memory memory));
  modify (set_rt_selected_memory pid).

Definition select_memory_for_process (pid : Z) : SubM unit :=
  let* pending := gets (has_pending_fork_exec_child pid) in
  do* (if (pending : bool) then memory_result (materialize_pending_fork_exec_child_memory pid) else ret tt);
  let* s := gets id in
  if pid =? rt_selected_memory_pid s then
    if nx_enabled (rt_native s) && negb (is_fixed_guest (gm_host_address_mode (rt_selected_memory s)))
    then memory_result materialize_selected_memory_at_guest_addresses else ret tt
  else if nx_enabled (rt_native s) then select_native_memory_for_process pid
  else swap_memory_for_process pid.

Definition prepare_memory_mut_for_process (pid : Z) : SubM unit :=
  let* pending := gets (has_pending_fork_exec_child pid) in
  do* (if (pending : bool) then memory_result (materialize_pending_fork_exec_child_memory pid) else ret tt);
  do* memory_result (materialize_pending_fork_exec_children pid);
  select_memory_for_process pid.

(** [store_selected_process_memory] and [store_selected_process_fds]: the selected parts stay
    where they are. *)
Definition store_selected_process_memory (pid : Z) : SubM unit :=
  let* s := gets id in if negb (pid =? rt_selected_memory_pid s) then throw ESRCH else ret tt.
Definition store_selected_process_fds (pid : Z) : SubM unit :=
  let* s := gets id in if negb (pid =? rt_selected_fds_pid s) then throw ESRCH else ret tt.

(** ** Selecting a descriptor table *)
Definition rt_fd_world (s : RuntimeSubsystems) : FdWorld := v_fds (rf_vfs (rt_files s)).
Definition rt_selected_fds_table (s : RuntimeSubsystems) : FdTable := fw_table (rt_fd_world s).

(** The drop of a table: its pipe ends are given up. *)
Definition drop_fd_table (t : FdTable) (s : RuntimeSubsystems) : RuntimeSubsystems :=
  with_vfs_state (λ v, set_fds {| fw_table := fw_table (v_fds v);
                                  fw_heap := table_drop {| fw_table := t; fw_heap := fw_heap (v_fds v) |} |} v) s.

Definition replace_selected_fds (t : FdTable) (s : RuntimeSubsystems) : FdTable * RuntimeSubsystems :=
  let (old, v) := replace_fds t (rf_vfs (rt_files s)) in (old, with_vfs_state (λ _, v) s).

Definition select_fds_for_process (pid : Z) : SubM unit :=
  let* s := gets id in
  if pid =? rt_selected_fds_pid s then ret tt else
  let selected_pid := rt_selected_fds_pid s in
  let* fds := lift (ok_or (rt_fds s !! pid) ESRCH) in
  do* modify (λ s, set_rt_fds (delete pid (rt_fds s)) s);
  do* modify (λ s, let (selected, s) := replace_selected_fds fds s in
                   if process_exists selected_pid s
                   then set_rt_fds (<[selected_pid := selected]> (rt_fds s)) s
                   else drop_fd_table selected s);
  modify (set_rt_selected_fds pid).

Definition select_process_context (pid : Z) : SubM unit :=
  do* select_memory_for_process pid;
  do* select_fds_for_process pid;
  modify (sync_proc_self pid).

Definition fd_table_for_process (pid : Z) (s : RuntimeSubsystems) : option FdTable :=
  if pid =? rt_selected_fds_pid s then Some (rt_selected_fds_table s) else rt_fds s !! pid.

(** ** Dropping what a process has *)
Definition drop_process_fds (pid : Z) : SubM unit :=
  let* s := gets id in
  if pid =? rt_selected_fds_pid s then
    if negb (pid =? INITIAL_PID) then
      let* fds := lift (ok_or (rt_fds s !! INITIAL_PID) ESRCH) in
      do* modify (λ s, set_rt_fds (delete INITIAL_PID (rt_fds s)) s);
      do* modify (λ s, let (old, s) := replace_selected_fds fds s in drop_fd_table old s);
      modify (set_rt_selected_fds INITIAL_PID)
    else ret tt
  else
    do* modify (λ s, match rt_fds s !! pid with Some t => drop_fd_table t s | None => s end);
    modify (λ s, set_rt_fds (delete pid (rt_fds s)) s).

Definition drop_native_patch_cache_for_process (pid : Z) (n : NativeExecutionState) : NativeExecutionState :=
  set_nx_patches (delete pid (nx_patch_caches n)) (delete pid (nx_image_patch_keys n))
    (delete pid (nx_image_patch_ranges n))
    (filter (λ p : (Z * Z) * GuestLibcIntrinsic, p.1.1 ≠ pid) (nx_libc_intrinsic_patches n)) n.

Definition restore_initial_memory_after_selected_drop : SubM unit :=
  let* s := gets id in
  let* memory := lift (ok_or (rt_memory s !! INITIAL_PID) ESRCH) in
  do* modify (λ s, set_rt_memory (delete INITIAL_PID (rt_memory s)) s);
  do* (if nx_enabled (rt_native s) then
         do* memory_result drop_selected_memory_allocations;
         let* fixed := memory_result (on_err (on_memory_value memory try_clone_runtime_at_guest_addresses)
                                        (modify (drop_memory memory))) in
         do* modify (put_selected_memory fixed);
         modify (drop_memory memory)
       else modify (put_selected_memory memory));
  modify (set_rt_selected_memory INITIAL_PID).

Definition drop_process_memory (pid : Z) : SubM unit :=
  do* memory_result (materialize_pending_fork_exec_children pid);
  do* modify (λ s, set_rt_pending (delete pid (rt_pending_fork_exec s)) s);
  let* s := gets id in
  do* (if pid =? rt_selected_memory_pid s then
         if negb (pid =? INITIAL_PID) then restore_initial_memory_after_selected_drop else ret tt
       else
         do* modify (λ s, drop_memory_option (rt_memory s !! pid) s);
         modify (λ s, set_rt_memory (delete pid (rt_memory s)) s));
  modify (λ s, set_rt_native (drop_native_patch_cache_for_process pid (rt_native s)) s).

(** ** Descriptors with a resource behind them *)
Definition count_id (id : Z) (ids : list Z) : nat := length (filter (λ raw, raw = id) ids).

Definition fd_ref_count_excluding (ids : FdTable → list Z) (excluded_pid id : Z) (s : RuntimeSubsystems) : nat :=
  ((if negb (rt_selected_fds_pid s =? excluded_pid)%Z then count_id id (ids (rt_selected_fds_table s)) else 0)
   + sum_list ((λ p : Z * FdTable, count_id id (ids p.2)) <$>
       filter (λ p : Z * FdTable, p.1 ≠ excluded_pid) (bt_iter (rt_fds s))))%nat.

Definition socket_fd_ref_count_excluding_current : Z → Z → RuntimeSubsystems → nat := fd_ref_count_excluding socket_ids.
Definition epoll_fd_ref_count_excluding_current : Z → Z → RuntimeSubsystems → nat := fd_ref_count_excluding epoll_ids.

Definition close_epoll (epoll_id : Z) : SubM unit :=
  modify (λ s, let e := rt_events s in
    set_rt_events {| ev_futexes := ev_futexes e; ev_futex_timeouts := ev_futex_timeouts e;
                     ev_sleep_timeouts := ev_sleep_timeouts e; ev_epolls := epoll_close epoll_id (ev_epolls e);
                     ev_signal_alt_stacks := ev_signal_alt_stacks e;
                     ev_scheduler_yield_budget := ev_scheduler_yield_budget e |} s).

(** One socket of a process that ends. *)
Definition close_if_unshared (pid socket_id : Z) : SubM unit :=
  let* s := gets id in
  if (socket_fd_ref_count_excluding_current pid socket_id s =? 0)%nat
  then on_files (on_sockets (close_socket socket_id)) else ret tt.

Definition close_unshared_process_sockets (pid : Z) : SubM unit :=
  let* s := gets id in
  match fd_table_for_process pid s with
  | None => ret tt
  | Some fds =>
      do* foreach (omap socket_id_new (socket_ids fds)) (close_if_unshared pid);
      foreach (epoll_ids fds)
        (λ epoll_id, let* s := gets id in
                     if (epoll_fd_ref_count_excluding_current pid epoll_id s =? 0)%nat
                     then close_epoll epoll_id else ret tt)
  end.

Definition drop_process_resources (pid : Z) : SubM unit :=
  do* close_unshared_process_sockets pid;
  do* drop_process_memory pid;
  drop_process_fds pid.

(** What a descriptor of the selected table that is gone was the last to hold. *)
Definition close_unshared_socket (pid socket_id : Z) : SubM unit :=
  let* s := gets id in
  if (socket_fd_ref_count_excluding_current pid socket_id s
      + VfsFd.socket_fd_count (rt_selected_fds_table s) socket_id =? 0)%nat
  then on_files (on_sockets (close_socket socket_id)) else ret tt.

Definition close_unshared_epoll (pid epoll_id : Z) : SubM unit :=
  let* s := gets id in
  if (epoll_fd_ref_count_excluding_current pid epoll_id s
      + VfsFd.epoll_fd_count (rt_selected_fds_table s) epoll_id =? 0)%nat
  then close_epoll epoll_id else ret tt.

Definition close_unshared_process_file_resources (file : FileRef) : SubM unit :=
  let* pid := gets rt_selected_fds_pid in
  match fr_kind file, in_backend (fr_inode file) with
  | KSocket, SocketBackend raw =>
      match socket_id_new raw with
      | Some socket_id => close_unshared_socket pid socket_id
      | None => ret tt
      end
  | KEpoll, EpollBackend epoll_id => close_unshared_epoll pid epoll_id
  | _, _ => ret tt
  end.

Definition close_process_fd (fd : Z) : SubM Z :=
  let* file := on_files (on_vfs (close_with_file fd)) in
  do* close_unshared_process_file_resources file;
  ret 0.

Definition close_in_process_range (fd : Z) : SubM unit :=
  λ s, match close_with_file fd (rf_vfs (rt_files s)) with
       | (Ok file, v) => close_unshared_process_file_resources file (with_vfs_state (λ _, v) s)
       | (Err BadFd, v) => (Ok tt, with_vfs_state (λ _, v) s)
       | (Err e, v) => (Err (vfs_errno e), with_vfs_state (λ _, v) s)
       | (Panic, v) => (Panic, with_vfs_state (λ _, v) s)
       end.

Definition close_process_fd_range (first last flags : Z) : SubM Z :=
  if negb (without_bits flags LINUX_CLOSE_RANGE_SUPPORTED_FLAGS =? 0) then throw EINVAL else
  let* bounds := lift (fd_range_bounds first last) in
  match bounds with
  | None => ret 0
  | Some (first, last) =>
      let* fds := gets (λ s, fds_in_range (rt_selected_fds_table s) first last) in
      do* foreach fds close_in_process_range;
      ret 0
  end.

(** ** Native floating point state *)
Definition fork_native_fp (parent_tid child_pid : Z) (s : RuntimeSubsystems) : RuntimeSubsystems :=
  match nx_fp (rt_native s) !! parent_tid with
  | None => s
  | Some state =>
      set_rt_native (set_nx_fp
        (foldl (λ m tid, <[tid := state]> m) (nx_fp (rt_native s)) (tids_of child_pid (rt_tasks s))) (rt_native s)) s
  end.

Definition clone_native_fp_for_thread (parent_tid child_tid : Z) (s : RuntimeSubsystems) : RuntimeSubsystems :=
  match nx_fp (rt_native s) !! parent_tid with
  | None => s
  | Some state => set_rt_native (set_nx_fp (<[child_tid := state]> (nx_fp (rt_native s))) (rt_native s)) s
  end.

Definition drop_native_fp_for_tid (tid : Z) (s : RuntimeSubsystems) : RuntimeSubsystems :=
  set_rt_native (set_nx_fp (delete tid (nx_fp (rt_native s))) (rt_native s)) s.

Definition drop_native_fp_for_process (pid : Z) (s : RuntimeSubsystems) : RuntimeSubsystems :=
  foldl (λ s tid, drop_native_fp_for_tid tid s) s (tids_of pid (rt_tasks s)).

(** ** System calls on files and sockets (file.rs, network.rs) *)

(** An answer, with the state after it; an errno ends the call. *)
Definition RtCall : Type := RuntimeSubsystems → outcome SyscallOutcome Empty_set * RuntimeSubsystems.

Definition answer (m : SubM SyscallOutcome) : RtCall :=
  λ s, match m s with
       | (Ok o, s) => (Ok o, s)
       | (Err errno, s) => (Ok (outcome_errno errno), s)
       | (Panic, s) => (Panic, s)
       end.

Definition is_success (o : SyscallOutcome) : bool :=
  match so_result o with Success _ => true | _ => false end.

Definition total_call {S} (m : S → outcome SyscallOutcome Empty_set * S) : ST S LinuxErrno SyscallOutcome :=
  λ s, match m s with
       | (Ok o, s) => (Ok o, s)
       | (Err e, s) => match e with end
       | (Panic, s) => (Panic, s)
       end.

(** [outcome(result)] *)
Definition as_outcome (m : SubM Z) : SubM SyscallOutcome := total_call (λ s, let (r, s) := m s in (rt_outcome r, s)).

Definition files_call (m : Files → outcome SyscallOutcome Empty_set * Files) : SubM SyscallOutcome :=
  λ s, let (r, f) := total_call m (rt_files s) in (r, set_rt_files f s).

(** What is stored back after a successful call. *)
Definition store_both (pid : Z) (o : SyscallOutcome) : SubM SyscallOutcome :=
  if is_success o then
    do* store_selected_process_fds pid; do* store_selected_process_memory pid; ret o
  else ret o.
Definition store_memory (pid : Z) (o : SyscallOutcome) : SubM SyscallOutcome :=
  if is_success o then do* store_selected_process_memory pid; ret o else ret o.

Definition dispatch_file (now : LinuxTimespec) (request : SyscallRequest) : RtCall :=
  let pid := rq_pid request in
  let a := rq_args request in
  answer (
    do* memory_result (materialize_pending_fork_exec_children pid);
    do* select_process_context pid;
    let* o := match rq_syscall request with
              | SysClose => as_outcome (close_process_fd (arg_i32 a 0))
              | SysCloseRange => as_outcome (close_process_fd_range (arg_u32 a 0) (arg_u32 a 1) (arg_u32 a 2))
              | _ => files_call (RtFileCalls.dispatch_file now request)
              end in
    store_both pid o).

Definition dispatch_network (request : SyscallRequest) : RtCall :=
  let pid := rq_pid request in
  answer (
    do* memory_result (materialize_pending_fork_exec_children pid);
    do* select_process_context pid;
    let* o := files_call (RtNet.dispatch_network request) in
    store_both pid o).
End runtime.
