(* ===== verification/RtPoll.v ===== *)
(** * mcr-runtime: poll, select and epoll

    The event calls of subsystems/event.rs on the state of [RtProcess].  A descriptor is ready
    by what its file says, and for a socket also by what the socket table polls; a wait for
    sockets is one [poll_many] with the timeout, which is zero as soon as something is ready. *)

From S2P Require Import Prelude SysAbi SyscallTable Dispatcher HostMemory GuestMemory GuestMemoryOps Bytes SysCodec SysCodecTheorems TaskTypes TaskKernel VfsTypes VfsPath VfsFd VfsCache VfsSystem NetTypes NetTable RtAbi RtFiles RtFileCalls RtMemory RtEvents RtNet RtProcess.
From stdpp Require Import base gmap list sorting strings.
From Stdlib Require Import ZArith Lia.
Open Scope Z_scope.

(** ** Constants *)
Definition LINUX_EPOLL_CTL_ADD : Z := 1.
Definition LINUX_EPOLL_CTL_DEL : Z := 2.
Definition LINUX_EPOLL_CTL_MOD : Z := 3.
Definition LINUX_EPOLL_CLOEXEC : Z := 0x80000.
Definition LINUX_EPOLL_SUPPORTED_EVENTS : Z :=
  Z.lor (Z.lor (Z.lor (Z.lor LINUX_EPOLLIN LINUX_EPOLLPRI) LINUX_EPOLLOUT) LINUX_EPOLLERR) LINUX_EPOLLHUP.
Definition LINUX_EFD_SUPPORTED_FLAGS : Z := Z.lor O_NONBLOCK O_CLOEXEC.
Definition MAX_POLL_FDS : Z := 4096.
Definition MAX_EPOLL_EVENTS : Z := 4096.
Definition POLLFD_SIZE : Z := 8.

Definition validate_epoll_events (events : Z) : outcome unit LinuxErrno :=
  if negb (without_bits events LINUX_EPOLL_SUPPORTED_EVENTS =? 0) then Err EINVAL else Ok tt.

(** ** Data *)
Record SocketPollSlot : Type := {
  sl_index : nat; sl_socket_id : Z; sl_socket_events : SocketEvents; sl_poll_events : Z;
}.
Record PollFdSlot : Type := { pl_addr : Z; pl_revents : Z }.

Record SelectReadyFds : Type := { sr_read : list Z; sr_write : list Z; sr_exceptional : list Z }.

Definition ready_is_empty (r : SelectReadyFds) : bool :=
  bool_decide (sr_read r = []) && bool_decide (sr_write r = []) && bool_decide (sr_exceptional r = []).

(** The descriptors in any of the sets, sorted and without repetitions. *)
Definition ready_count (r : SelectReadyFds) : Z :=
  zlen (remove_dups (sr_read r ++ sr_write r ++ sr_exceptional r)).

Definition interested (e : SocketEvents) : bool := ev_readable e || ev_writable e || ev_priority e || ev_error e || ev_hang_up e || ev_invalid e.

(** [revents[index] |= socket_revents] for each polled socket. *)
Definition apply_revents (updates : list (nat * Z)) (revents : list Z) : list Z :=
  foldl (λ l u, alter (λ r, Z.lor r u.2) u.1 l) revents updates.

Fixpoint traverse {S E A B} (l : list A) (f : A → ST S E B) : ST S E (list B) :=
  match l with
  | [] => ret []
  | x :: l => let* y := f x in let* ys := traverse l f in ret (y :: ys)
  end.

Section runtime.
Context {OS : HostOs} {host_fs : HostFs}.
Context {NetWorld Handle Transport BatchPoll : Type} {host_sockets : HostSockets NetWorld Handle Transport BatchPoll}.
Context {FloatingPoint : Type}.
Context (unsafe_share_until_exec : bool).

Abbreviation Runtime := (RuntimeSubsystems (NetWorld := NetWorld) (Handle := Handle) (Transport := Transport) (FloatingPoint := FloatingPoint)).
Abbreviation SubM := (SubM (NetWorld := NetWorld) (Handle := Handle) (Transport := Transport) (FloatingPoint := FloatingPoint)).

Definition on_epolls {A} (m : EpollM A) : SubM A :=
  λ s, let e := rt_events s in let (r, x) := m (ev_epolls e) in
       (r, set_rt_events {| ev_futexes := ev_futexes e; ev_futex_timeouts := ev_futex_timeouts e;
                            ev_sleep_timeouts := ev_sleep_timeouts e; ev_epolls := x;
                            ev_signal_alt_stacks := ev_signal_alt_stacks e;
                            ev_scheduler_yield_budget := ev_scheduler_yield_budget e |} s).

(** A read or a write of the selected memory. *)
Definition reading {A} (f : Reader World A) : SubM A := on_files (of_memory f).
Definition writing (m : Writer World unit) : SubM unit := on_files (on_memory m).

(** ** Readiness of one descriptor *)
Definition poll_fd_base_revents_and_socket (fd events : Z) : SubM (Z * option (Z * SocketEvents)) :=
  if fd <? 0 then ret (0, None) else
  let* w := gets rt_fd_world in
  match (poll_readiness fd w).1 with
  | Err BadFd => ret (LINUX_POLLNVAL, None)
  | Err e => throw (vfs_errno e)
  | Panic => lift Panic
  | Ok readiness =>
      let revents := poll_revents_from_vfs readiness events in
      if is_ok (VfsFd.socket_id_for_fd fd w).1 then
        let* socket_id := on_files (RtFiles.socket_id_for_fd fd) in
        let socket_events := poll_interest_to_socket_events events in
        if interested socket_events then ret (revents, Some (socket_id, socket_events))
        else ret (revents, None)
      else ret (revents, None)
  end.

Definition poll_fd_revents (fd events : Z) (timeout : option Z) : SubM Z :=
  let* p := poll_fd_base_revents_and_socket fd events in
  match p.2 with
  | Some (socket_id, socket_events) =>
      let* readiness := on_files (on_sockets (poll socket_id socket_events timeout)) in
      ret (Z.lor p.1 (poll_revents_from_socket_events readiness events))
  | None => ret p.1
  end.

(** What the sockets among the descriptors add. *)
Definition poll_socket_slots (sockets : list SocketPollSlot) (timeout : option Z) (has_ready : bool)
    : SubM (list (nat * Z)) :=
  if bool_decide (length sockets = 0%nat) then ret [] else
  let requests := (λ x, (sl_socket_id x, sl_socket_events x)) <$> sockets in
  let socket_timeout := if has_ready then Some 0 else timeout in
  let* readiness := on_files (on_sockets (poll_many requests socket_timeout)) in
  ret (zip_with (λ x r, (sl_index x, poll_revents_from_socket_events r (sl_poll_events x))) sockets readiness).

Definition socket_slots (polled : list (Z * (Z * option (Z * SocketEvents)))) : list SocketPollSlot :=
  omap (λ x, match x with
             | (i, (events, (_, Some (socket_id, socket_events)))) =>
                 Some {| sl_index := i; sl_socket_id := socket_id; sl_socket_events := socket_events;
                         sl_poll_events := events |}
             | _ => None
             end) (imap (λ i x, (i, x)) polled).

(** ** poll *)
Definition poll_fds (fds_addr nfds : Z) (timeout : option Z) : SubM Z :=
  if MAX_POLL_FDS <? nfds then throw EINVAL else
  let* polled := traverse (seqZ 0 nfds) (λ index,
    let* pollfd_addr := lift (ok_or (checked_add64 fds_addr (index * POLLFD_SIZE)) EFAULT) in
    let* pollfd := reading (read_pollfd pollfd_addr) in
    let* p := poll_fd_base_revents_and_socket (pf_fd pollfd) (pf_events pollfd) in
    ret (pollfd_addr, (pf_events pollfd, p))) in
  let has_ready := existsb (λ x : Z * (Z * (Z * option (Z * SocketEvents))), negb (x.2.2.1 =? 0)) polled in
  let* updates := poll_socket_slots (socket_slots (snd <$> polled)) timeout has_ready in
  let revents := apply_revents updates ((λ x, x.2.2.1) <$> polled) in
  let slots := zip_with (λ x r, {| pl_addr := fst x; pl_revents := r |}) polled revents in
  do* foreach slots (λ slot, writing (write_pollfd_revents (pl_addr slot) (pl_revents slot)));
  ret (zlen (filter (λ slot, pl_revents slot ≠ 0) slots)).

(** ** select *)
Definition select_ready_fds (interests : list LinuxSelectInterest) (timeout : option Z) : SubM SelectReadyFds :=
  let* polled := traverse interests (λ interest,
    let* p := poll_fd_base_revents_and_socket (si_fd interest) (si_events interest) in
    if has_event p.1 LINUX_POLLNVAL then throw EBADF else ret (si_events interest, p)) in
  let has_ready := existsb (λ x : Z * (Z * option (Z * SocketEvents)), negb (x.2.1 =? 0)) polled in
  let* updates := poll_socket_slots (socket_slots polled) timeout has_ready in
  let revents := apply_revents updates ((λ x, x.2.1) <$> polled) in
  let all := zip interests revents in
  if existsb (λ x : LinuxSelectInterest * Z, has_event x.2 LINUX_POLLNVAL) all then throw EBADF else
  let fds_where (p : LinuxSelectInterest → Z → bool) := (λ x, si_fd x.1) <$> filter (λ x, p x.1 x.2 = true) all in
  ret {| sr_read := fds_where (λ i r, si_read i && select_revents_readable r);
         sr_write := fds_where (λ i r, si_write i && select_revents_writable r);
         sr_exceptional := fds_where (λ i r, si_exceptional i && has_event r LINUX_POLLPRI) |}.

Definition select_fds (nfds readfds_addr writefds_addr exceptfds_addr : Z) (timeout : option Z) : SubM Z :=
  let* interests := reading (read_select_interests nfds readfds_addr writefds_addr exceptfds_addr) in
  let* ready := select_ready_fds interests (Some 0) in
  let* ready := if ready_is_empty ready && negb (bool_decide (timeout = Some 0))
                then select_ready_fds interests timeout else ret ready in
  do* writing (write_select_fd_set readfds_addr nfds (sr_read ready));
  do* writing (write_select_fd_set writefds_addr nfds (sr_write ready));
  do* writing (write_select_fd_set exceptfds_addr nfds (sr_exceptional ready));
  ret (ready_count ready).

(** ** epoll *)
Definition epoll_watch_revents (fd events : Z) (timeout : option Z) : SubM Z :=
  let* revents := poll_fd_revents fd events timeout in
  ret (if has_event revents LINUX_POLLNVAL then Z.lor LINUX_POLLERR LINUX_POLLHUP else revents).

Definition epoll_event_of (watch : EpollWatch) (revents : Z) : option LinuxEpollEvent :=
  let epoll_events := poll_revents_to_epoll_events revents (ew_events watch) in
  if epoll_events =? 0 then None else Some {| ee_events := epoll_events; ee_data := ew_data watch |}.

(** One watch is polled by itself, several together. *)
Definition epoll_ready_events (watches : list EpollWatch) (maxevents : Z) (timeout : option Z)
    : SubM (list LinuxEpollEvent) :=
  match watches with
  | [watch] =>
      let* revents := epoll_watch_revents (ew_fd watch) (epoll_events_to_poll_events (ew_events watch)) timeout in
      ret (option_list (epoll_event_of watch revents))
  | _ =>
      let* polled := traverse watches (λ watch,
        let poll_events := epoll_events_to_poll_events (ew_events watch) in
        let* p := poll_fd_base_revents_and_socket (ew_fd watch) poll_events in
        let watch_revents := if has_event p.1 LINUX_POLLNVAL then Z.lor LINUX_POLLERR LINUX_POLLHUP else p.1 in
        ret (poll_events, (watch_revents, p.2))) in
      let has_ready := existsb (λ x : EpollWatch * (Z * (Z * option (Z * SocketEvents))),
        negb (poll_revents_to_epoll_events x.2.2.1 (ew_events x.1) =? 0)) (zip watches polled) in
      let* updates := poll_socket_slots (socket_slots polled) timeout has_ready in
      let revents := apply_revents updates ((λ x, x.2.1) <$> polled) in
      ret (take (Z.to_nat maxevents) (omap (λ x, epoll_event_of x.1 x.2) (zip watches revents)))
  end.

Definition epoll_create1 (flags : Z) : SubM Z :=
  if negb (without_bits flags LINUX_EPOLL_CLOEXEC =? 0) then throw EINVAL else
  let* epoll_id := on_epolls epoll_create in
  let open_flags := if has_bits flags LINUX_EPOLL_CLOEXEC then O_CLOEXEC else 0 in
  on_err (on_files (on_vfs (on_fds (insert_epoll epoll_id (flags_new open_flags))))) (close_epoll epoll_id).

Definition eventfd2 (initial flags : Z) : SubM Z :=
  if negb (without_bits flags LINUX_EFD_SUPPORTED_FLAGS =? 0) then throw EINVAL else
  on_files (on_vfs (on_fds (eventfd initial (flags_new flags)))).

Definition epoll_ctl (epfd operation fd event_addr : Z) : SubM Z :=
  if fd <? 0 then throw EBADF else
  let* epoll_id := on_files (on_vfs (on_fds (epoll_id_for_fd epfd))) in
  if fd =? epfd then throw EINVAL else
  let* _ := on_files (on_vfs (on_fds (poll_readiness fd))) in
  let watch_event : SubM LinuxEpollEvent :=
    let* event := reading (read_epoll_event event_addr) in
    do* lift (validate_epoll_events (ee_events event)); ret event in
  do* (if operation =? LINUX_EPOLL_CTL_ADD then
         let* event := watch_event in
         on_epolls (on_instance epoll_id
           (insert_watch {| ew_fd := fd; ew_events := ee_events event; ew_data := ee_data event |}))
       else if operation =? LINUX_EPOLL_CTL_MOD then
         let* event := watch_event in
         on_epolls (on_instance epoll_id (update_watch fd (ee_events event) (ee_data event)))
       else if operation =? LINUX_EPOLL_CTL_DEL then on_epolls (on_instance epoll_id (remove_watch fd))
       else throw EINVAL);
  ret 0.

(** The events are written one after the other. *)
Definition write_epoll_events (events_addr : Z) (ready : list LinuxEpollEvent) : SubM unit :=
  foreach (imap pair ready) (λ x,
    let* event_addr := lift (ok_or (checked_add64 events_addr (Z.of_nat x.1 * EPOLL_EVENT_SIZE)) EFAULT) in
    writing (write_epoll_event event_addr x.2)).

Definition epoll_wait (epfd events_addr maxevents : Z) (timeout : option Z) : SubM Z :=
  if (maxevents =? 0) || (MAX_EPOLL_EVENTS <? maxevents) then throw EINVAL else
  let* epoll_id := on_files (on_vfs (on_fds (epoll_id_for_fd epfd))) in
  let* watches := on_epolls (registry_cached_watches epoll_id) in
  let* ready := epoll_ready_events watches maxevents (Some 0) in
  if bool_decide (ready = []) && bool_decide (timeout = None) then throw EAGAIN else
  let* ready := if bool_decide (ready = []) && negb (bool_decide (timeout = Some 0))
                then epoll_ready_events watches maxevents timeout else ret ready in
  do* write_epoll_events events_addr ready;
  ret (zlen ready).

(** ** Dispatch *)
Definition store_fds (pid : Z) (o : SyscallOutcome) : SubM SyscallOutcome :=
  if is_success o then do* store_selected_process_fds pid; ret o else ret o.

Definition dispatch_poll (request : SyscallRequest) : SubM SyscallOutcome :=
  let pid := rq_pid request in let a := rq_args request in
  do* select_process_context pid;
  let* nfds := lift (usize_arg a 1) in
  let* timeout := lift (poll_timeout (arg2 a)) in
  let* o := as_outcome (poll_fds (arg0 a) nfds timeout) in store_both pid o.

Definition dispatch_ppoll (request : SyscallRequest) : SubM SyscallOutcome :=
  let pid := rq_pid request in let a := rq_args request in
  do* select_process_context pid;
  if negb (arg3 a =? 0) || negb (arg4 a =? 0) then throw EINVAL else
  let* nfds := lift (usize_arg a 1) in
  let* timeout := reading (read_futex_timeout (arg2 a)) in
  let* o := as_outcome (poll_fds (arg0 a) nfds timeout) in store_both pid o.

Definition dispatch_select (request : SyscallRequest) : SubM SyscallOutcome :=
  let pid := rq_pid request in let a := rq_args request in
  do* select_process_context pid;
  let* nfds := lift (select_nfds (arg0 a)) in
  let* timeout := reading (read_select_timeout (arg4 a)) in
  let* o := as_outcome (select_fds nfds (arg1 a) (arg2 a) (arg3 a) timeout) in store_both pid o.

Definition dispatch_eventfd2 (request : SyscallRequest) : SubM SyscallOutcome :=
  let pid := rq_pid request in let a := rq_args request in
  do* select_process_context pid;
  let* o := as_outcome (eventfd2 (arg0 a) (arg_u32 a 1)) in store_fds pid o.

Definition dispatch_epoll_create1 (request : SyscallRequest) : SubM SyscallOutcome :=
  let pid := rq_pid request in let a := rq_args request in
  do* select_process_context pid;
  let* o := as_outcome (epoll_create1 (arg_u32 a 0)) in store_fds pid o.

Definition dispatch_epoll_ctl (request : SyscallRequest) : SubM SyscallOutcome :=
  let a := rq_args request in
  do* select_process_context (rq_pid request);
  as_outcome (epoll_ctl (arg_i32 a 0) (arg_u32 a 1) (arg_i32 a 2) (arg3 a)).

Definition dispatch_epoll_wait (request : SyscallRequest) : SubM SyscallOutcome :=
  let pid := rq_pid request in let a := rq_args request in
  do* select_process_context pid;
  let* maxevents := lift (usize_arg a 2) in
  let* timeout := lift (poll_timeout (arg3 a)) in
  let* o := as_outcome (epoll_wait (arg_i32 a 0) (arg1 a) maxevents timeout) in store_both pid o.

Definition dispatch_epoll_pwait (request : SyscallRequest) : SubM SyscallOutcome :=
  let pid := rq_pid request in let a := rq_args request in
  do* select_process_context pid;
  if negb (arg4 a =? 0) then throw EINVAL else
  let* maxevents := lift (usize_arg a 2) in
  let* timeout := lift (poll_timeout (arg3 a)) in
  let* o := as_outcome (epoll_wait (arg_i32 a 0) (arg1 a) maxevents timeout) in store_both pid o.

Definition dispatch_epoll_pwait2 (request : SyscallRequest) : SubM SyscallOutcome :=
  let pid := rq_pid request in let a := rq_args request in
  do* select_process_context pid;
  if negb (arg4 a =? 0) then throw EINVAL else
  let* maxevents := lift (usize_arg a 2) in
  let* timeout := reading (read_futex_timeout (arg3 a)) in
  let* o := as_outcome (epoll_wait (arg_i32 a 0) (arg1 a) maxevents timeout) in store_both pid o.

Definition dispatch_event (request : SyscallRequest) : RtCall :=
  answer (
    do* memory_result (materialize_pending_fork_exec_children unsafe_share_until_exec (rq_pid request));
    match rq_syscall request with
    | SysPoll => dispatch_poll request
    | SysSelect => dispatch_select request
    | SysPpoll => dispatch_ppoll request
    | SysEventfd2 => dispatch_eventfd2 request
    | SysEpollCreate1 => dispatch_epoll_create1 request
    | SysEpollCtl => dispatch_epoll_ctl request
    | SysEpollWait => dispatch_epoll_wait request
    | SysEpollPwait => dispatch_epoll_pwait request
    | SysEpollPwait2 => dispatch_epoll_pwait2 request
    | _ => ret outcome_unsupported
    end).
End runtime.
