(* ===== verification/RtTasks.v ===== *)
(** * mcr-runtime: task, time and futex calls

    The calls of subsystems/task.rs and time.rs and the futexes of event.rs that read or write
    the memory of the calling process and move its tasks.  Clocks are arguments, as [RtClock];
    instants and durations are nanoseconds.  The addition of an offset to a robust list entry
    wraps, as in a release build. *)

From S2P Require Import Prelude SysAbi SyscallTable Dispatcher HostMemory GuestMemory GuestMemoryOps Bytes SysCodec SysCodecTheorems TaskTypes TaskKernel TaskWait TaskSyscalls VfsTypes VfsPath VfsFd VfsCache VfsSystem NetTypes NetTable RtSignals RtAbi RtFiles RtFileCalls RtMemory RtEvents RtNet RtProcess RtPoll.
From stdpp Require Import base gmap list sorting strings.
From Stdlib Require Import ZArith Lia.
Open Scope Z_scope.

(** ** Constants *)
Definition LINUX_RUSAGE_SELF : Z := 0.
Definition LINUX_RUSAGE_CHILDREN : Z := -1.
Definition LINUX_RUSAGE_THREAD : Z := 1.
Definition LINUX_PR_GET_DUMPABLE : Z := 3.
Definition LINUX_PR_SET_DUMPABLE : Z := 4.
Definition LINUX_PR_SET_NAME : Z := 15.
Definition LINUX_PR_GET_NAME : Z := 16.
Definition LINUX_PR_SET_TIMERSLACK : Z := 29.
Definition LINUX_PR_GET_TIMERSLACK : Z := 30.
Definition LINUX_PR_SET_NO_NEW_PRIVS : Z := 38.
Definition LINUX_PR_GET_NO_NEW_PRIVS : Z := 39.
Definition LINUX_PR_SET_THP_DISABLE : Z := 41.
Definition LINUX_PR_GET_THP_DISABLE : Z := 42.
Definition LINUX_PR_SET_VMA : Z := 0x53564d41.
Definition LINUX_PR_SET_VMA_ANON_NAME : Z := 0.
Definition LINUX_MEMBARRIER_CMD_QUERY : Z := 0.
Definition LINUX_MEMBARRIER_CMD_PRIVATE_EXPEDITED : Z := 8.
Definition LINUX_MEMBARRIER_CMD_REGISTER_PRIVATE_EXPEDITED : Z := 16.
Definition LINUX_GRND_SUPPORTED_FLAGS : Z := 3.
Definition LINUX_FUTEX_WAIT : Z := 0.
Definition LINUX_FUTEX_WAKE : Z := 1.
Definition LINUX_FUTEX_REQUEUE : Z := 3.
Definition LINUX_FUTEX_CMP_REQUEUE : Z := 4.
Definition LINUX_FUTEX_WAIT_BITSET : Z := 9.
Definition LINUX_FUTEX_WAKE_BITSET : Z := 10.
Definition LINUX_FUTEX_CMD_MASK : Z := 0x7f.
Definition LINUX_FUTEX_PRIVATE_FLAG : Z := 0x80.
Definition LINUX_FUTEX_CLOCK_REALTIME : Z := 0x100.
Definition MAX_CPUSET_BYTES : Z := 4096.
Definition ROBUST_LIST_MAX_ENTRIES : Z := 2048.
Definition LINUX_FUTEX_OWNER_DIED : Z := 0x40000000.
Definition LINUX_FUTEX_TID_MASK : Z := 0x3fffffff.

(** ** Data *)
Record FutexSyscallArgs : Type := {
  fa_uaddr : Z; fa_op : Z; fa_val : Z; fa_timeout : Z; fa_uaddr2 : Z; fa_val3 : Z;
}.
Definition command (a : FutexSyscallArgs) : Z := Z.land (fa_op a) LINUX_FUTEX_CMD_MASK.
Definition is_private (a : FutexSyscallArgs) : bool := has_bits (fa_op a) LINUX_FUTEX_PRIVATE_FLAG.
Definition has_unsupported_flags (a : FutexSyscallArgs) : bool :=
  negb (without_bits (fa_op a) (Z.lor (Z.lor LINUX_FUTEX_CMD_MASK LINUX_FUTEX_PRIVATE_FLAG) LINUX_FUTEX_CLOCK_REALTIME) =? 0).

(** What the host's clocks say during a call; an instant may be too far to represent. *)
Record RtClock : Type := {
  ck_system : outcome Z HostErrorKind;
  ck_monotonic : outcome Z HostErrorKind;
  ck_instant : Z;
  ck_instant_add : Z → Z → option Z;
  ck_sleep : outcome unit HostErrorKind;
}.

Definition time_errno (kind : HostErrorKind) : LinuxErrno := host_sync_errno kind.

(** The deadline of a wait, at most a year away when it cannot be represented. *)
Definition deadline_after (clock : RtClock) (duration : Z) : Z :=
  default (ck_instant clock + 365 * 24 * 3600 * 1000000000) (ck_instant_add clock (ck_instant clock) duration).

Definition linux_timespec_from_system_time (since_epoch : Z) : LinuxTimespec :=
  {| tv_sec := Z.min (since_epoch / 1000000000) I64_MAX; tv_nsec := since_epoch mod 1000000000 |}.

(** ** Structures *)
Section memory.
Context {M : Type} {access : SysCodec.GuestMemoryAccess M}.

Definition write_guest_siginfo (addr signal : Z) : Writer M unit :=
  writer addr (le_bytes 4 (as_u32 signal) ++ zero_vec 124).

Definition read_guest_sigaction (addr : Z) : Reader M GuestSignalAction := λ m,
  let? action := read_guest_u64 addr m in
  let? a := fault_add addr 8 in
  let? flags := read_guest_u64 a m in
  let? a := fault_add addr 16 in
  let? restorer := read_guest_u64 a m in
  let? a := fault_add addr 24 in
  let? mask := read_guest_u64 a m in
  Ok {| sa_action := action; sa_flags := flags; sa_restorer := restorer; sa_mask := mask |}.

Definition write_guest_sigaction (addr : Z) (action : GuestSignalAction) : Writer M unit :=
  do* writer addr (le_bytes 8 (sa_action action));
  let* a := lift (fault_add addr 8) in
  do* writer a (le_bytes 8 (sa_flags action));
  let* a := lift (fault_add addr 16) in
  do* writer a (le_bytes 8 (sa_restorer action));
  let* a := lift (fault_add addr 24) in
  writer a (le_bytes 8 (sa_mask action)).

(** [linux_utsname] of mcr-task, encoded: six fields of 65 bytes. *)
Definition uts_field (value : list Z) : list Z := value ++ zero_vec (LINUX_UTSNAME_FIELD_LEN - zlen value).
Definition encode_linux_uname : list Z :=
  flat_map (λ value, uts_field (string_bytes value)) ["Linux"; "mcr"; "6.6.0-mcr"; "#1 MCR"; "x86_64"; "(none)"]%string.
Definition write_guest_uname (addr : Z) : Writer M unit :=
  if addr =? 0 then throw EFAULT else writer addr encode_linux_uname.
End memory.

Section runtime.
Context {OS : HostOs} {host_fs : HostFs}.
Context {NetWorld Handle Transport BatchPoll : Type} {host_sockets : HostSockets NetWorld Handle Transport BatchPoll}.
Context {FloatingPoint : Type}.
Context (unsafe_share_until_exec : bool).

Abbreviation Runtime := (RuntimeSubsystems (NetWorld := NetWorld) (Handle := Handle) (Transport := Transport) (FloatingPoint := FloatingPoint)).
Abbreviation SubM := (SubM (NetWorld := NetWorld) (Handle := Handle) (Transport := Transport) (FloatingPoint := FloatingPoint)).

(** The calls of the kernel of tasks. *)
Definition on_tasks {A} (f : GuestKernel → A * GuestKernel) : SubM A :=
  λ s, let (a, k) := f (rt_tasks s) in (Ok a, set_rt_tasks k s).
Definition on_tasks_fallible {A} (f : TaskM A) : SubM A :=
  λ s, let (r, k) := f (rt_tasks s) in (map_err linux_errno r, set_rt_tasks k s).

(** The outcome of a call of the kernel: its errno is the errno of the call. *)
Definition outcome_unit (o : SyscallOutcome) : SubM unit :=
  match so_result o with Success _ => ret tt | Errno errno => throw errno end.

Definition change_events (f : EventSubsystemState → EventSubsystemState) : SubM unit :=
  modify (λ s, set_rt_events (f (rt_events s)) s).
Definition set_futexes (x : FutexRegistry) (e : EventSubsystemState) : EventSubsystemState :=
  {| ev_futexes := x; ev_futex_timeouts := ev_futex_timeouts e; ev_sleep_timeouts := ev_sleep_timeouts e;
     ev_epolls := ev_epolls e; ev_signal_alt_stacks := ev_signal_alt_stacks e;
     ev_scheduler_yield_budget := ev_scheduler_yield_budget e |}.
Definition set_futex_timeouts (f : gmap Z Z → gmap Z Z) (e : EventSubsystemState) : EventSubsystemState :=
  {| ev_futexes := ev_futexes e; ev_futex_timeouts := f (ev_futex_timeouts e); ev_sleep_timeouts := ev_sleep_timeouts e;
     ev_epolls := ev_epolls e; ev_signal_alt_stacks := ev_signal_alt_stacks e;
     ev_scheduler_yield_budget := ev_scheduler_yield_budget e |}.
Definition set_sleep_timeouts (f : gmap Z Z → gmap Z Z) (e : EventSubsystemState) : EventSubsystemState :=
  {| ev_futexes := ev_futexes e; ev_futex_timeouts := ev_futex_timeouts e; ev_sleep_timeouts := f (ev_sleep_timeouts e);
     ev_epolls := ev_epolls e; ev_signal_alt_stacks := ev_signal_alt_stacks e;
     ev_scheduler_yield_budget := ev_scheduler_yield_budget e |}.
Definition set_alt_stacks (f : gmap Z GuestSignalAltStack → gmap Z GuestSignalAltStack) (e : EventSubsystemState)
    : EventSubsystemState :=
  {| ev_futexes := ev_futexes e; ev_futex_timeouts := ev_futex_timeouts e; ev_sleep_timeouts := ev_sleep_timeouts e;
     ev_epolls := ev_epolls e; ev_signal_alt_stacks := f (ev_signal_alt_stacks e);
     ev_scheduler_yield_budget := ev_scheduler_yield_budget e |}.
Definition set_yield_budget (n : Z) (e : EventSubsystemState) : EventSubsystemState :=
  {| ev_futexes := ev_futexes e; ev_futex_timeouts := ev_futex_timeouts e; ev_sleep_timeouts := ev_sleep_timeouts e;
     ev_epolls := ev_epolls e; ev_signal_alt_stacks := ev_signal_alt_stacks e; ev_scheduler_yield_budget := n |}.

(** The shape of most calls: select the memory, run, and store it back after a success. *)
Definition with_selected_memory (pid : Z) (m : SubM Z) : SubM SyscallOutcome :=
  do* select_memory_for_process pid;
  let* o := as_outcome m in store_memory pid o.
Definition unit_call (m : SubM unit) : SubM SyscallOutcome := do* m; ret (outcome_success 0).

(** ** Scheduling and limits *)
Definition sched_target_exists (current_pid requested_pid : Z) (s : Runtime) : bool :=
  (requested_pid =? 0) ||
  ((requested_pid <=? U32_MAX) &&
   (bool_decide (is_Some (k_tasks (rt_tasks s) !! requested_pid)) || process_exists requested_pid s ||
    (current_pid =? requested_pid))).

Definition sched_getparam (request : SyscallRequest) : SubM unit :=
  let pid := rq_pid request in let a := rq_args request in
  let param := arg1 a in
  if param =? 0 then throw EFAULT else
  let* exists_ := gets (sched_target_exists pid (arg0 a)) in
  if negb exists_ then throw ESRCH else
  do* select_memory_for_process pid;
  do* writing (write_guest_u32 param 0);
  store_selected_process_memory pid.

Definition dispatch_sched_getscheduler (request : SyscallRequest) : SubM SyscallOutcome :=
  let* exists_ := gets (sched_target_exists (rq_pid request) (arg0 (rq_args request))) in
  if negb exists_ then throw ESRCH else ret (outcome_success 0).

Definition sched_getaffinity (request : SyscallRequest) : SubM unit :=
  let pid := rq_pid request in let a := rq_args request in
  let requested_tid := arg0 a in
  let* cpusetsize := lift (usize_arg a 1) in
  let mask_addr := arg2 a in
  if cpusetsize =? 0 then throw EINVAL else
  if MAX_CPUSET_BYTES <? cpusetsize then throw EINVAL else
  if mask_addr =? 0 then throw EFAULT else
  let* s := gets id in
  if negb (requested_tid =? 0) && negb (bool_decide (is_Some (k_tasks (rt_tasks s) !! as_u32 requested_tid)))
  then throw ESRCH else
  do* select_memory_for_process pid;
  do* writing (writer mask_addr (1 :: zero_vec (cpusetsize - 1)));
  store_selected_process_memory pid.

Definition write_rlimit (resource addr : Z) : SubM Z :=
  if addr =? 0 then throw EFAULT else
  let* limits := lift (fixed_rlimit resource) in
  do* writing (write_guest_rlimit addr limits.1 limits.2); ret 0.

Definition write_rusage (who addr : Z) : SubM Z :=
  if negb ((who =? LINUX_RUSAGE_SELF) || (who =? LINUX_RUSAGE_CHILDREN) || (who =? LINUX_RUSAGE_THREAD)) then throw EINVAL else
  if addr =? 0 then throw EFAULT else
  do* writing (write_zeroed addr 144); ret 0.

Definition write_sysinfo (addr : Z) : SubM Z :=
  if addr =? 0 then throw EFAULT else do* writing (write_guest_sysinfo addr); ret 0.

Definition prctl (option_ a2 a3 a4 a5 : Z) : SubM Z :=
  if option_ =? LINUX_PR_GET_DUMPABLE then ret 1 else
  if option_ =? LINUX_PR_SET_DUMPABLE then if (a2 =? 0) || (a2 =? 1) then ret 0 else throw EINVAL else
  if option_ =? LINUX_PR_GET_NAME then
    if a2 =? 0 then throw EFAULT else do* writing (writer a2 ([109; 99; 114] ++ zero_vec 13)); ret 0 else
  if option_ =? LINUX_PR_SET_NAME then
    if a2 =? 0 then throw EFAULT else let* _ := reading (reader a2 16) in ret 0 else
  if option_ =? LINUX_PR_GET_TIMERSLACK then ret 50000 else
  if option_ =? LINUX_PR_SET_TIMERSLACK then ret 0 else
  if option_ =? LINUX_PR_GET_NO_NEW_PRIVS then ret 0 else
  if option_ =? LINUX_PR_SET_NO_NEW_PRIVS then
    if (a2 =? 1) && (a3 =? 0) && (a4 =? 0) && (a5 =? 0) then ret 0 else throw EINVAL else
  if option_ =? LINUX_PR_GET_THP_DISABLE then ret 0 else
  if option_ =? LINUX_PR_SET_THP_DISABLE then if (a2 =? 0) || (a2 =? 1) then ret 0 else throw EINVAL else
  if (option_ =? LINUX_PR_SET_VMA) && (a2 =? LINUX_PR_SET_VMA_ANON_NAME) then ret 0 else throw EINVAL.

Definition prlimit64 (current_pid raw_pid resource new_limit_addr old_limit_addr : Z) : SubM Z :=
  if negb (raw_pid =? 0) && negb (raw_pid =? current_pid) then throw ESRCH else
  let* limits := lift (fixed_rlimit resource) in
  do* (if negb (old_limit_addr =? 0) then writing (write_guest_rlimit old_limit_addr limits.1 limits.2) else ret tt);
  if negb (new_limit_addr =? 0) then
    let* requested := reading (read_guest_rlimit new_limit_addr) in
    if requested.2 <? requested.1 then throw EINVAL else ret 0
  else ret 0.

Definition getcpu (cpu_addr node_addr : Z) : SubM Z :=
  do* (if negb (cpu_addr =? 0) then writing (writer cpu_addr (le_bytes 4 0)) else ret tt);
  do* (if negb (node_addr =? 0) then writing (writer node_addr (le_bytes 4 0)) else ret tt);
  ret 0.

Definition membarrier (command_ flags : Z) : SubM Z :=
  if negb (flags =? 0) then throw EINVAL else
  if command_ =? LINUX_MEMBARRIER_CMD_QUERY
  then ret (Z.lor LINUX_MEMBARRIER_CMD_PRIVATE_EXPEDITED LINUX_MEMBARRIER_CMD_REGISTER_PRIVATE_EXPEDITED) else
  if (command_ =? LINUX_MEMBARRIER_CMD_PRIVATE_EXPEDITED) || (command_ =? LINUX_MEMBARRIER_CMD_REGISTER_PRIVATE_EXPEDITED)
  then ret 0 else throw ENOSYS.

(** ** Signals *)
Definition rt_sigaction (request : SyscallRequest) : SubM unit :=
  let pid := rq_pid request in let tid := rq_tid request in let a := rq_args request in
  do* select_memory_for_process pid;
  let args := {| sa_sig := as_u32 (arg0 a); sa_act := arg1 a; sa_oldact := arg2 a; sa_sigsetsize := arg3 a |} in
  let* action := if sa_act args =? 0 then ret None
                 else let* x := reading (read_guest_sigaction (sa_act args)) in ret (Some x) in
  let* s := gets id in
  let old_action := default (signal_action_new 0)
    (task ← k_tasks (rt_tasks s) !! tid; process ← k_processes (rt_tasks s) !! t_pid task;
     p_signals process !! sa_sig args) in
  let* o := on_tasks (rt_sigaction_current_with_action tid args action) in
  do* outcome_unit o;
  if negb (sa_oldact args =? 0) then
    do* writing (write_guest_sigaction (sa_oldact args) old_action);
    store_selected_process_memory pid
  else ret tt.

Definition rt_sigprocmask (request : SyscallRequest) : SubM unit :=
  let pid := rq_pid request in let tid := rq_tid request in let a := rq_args request in
  do* select_memory_for_process pid;
  let how := arg_u32 a 0 in let set := arg1 a in let oldset := arg2 a in
  if negb (arg3 a =? LINUX_KERNEL_SIGSET_SIZE) then throw EINVAL else
  if negb (supported_how how) then throw EINVAL else
  let* mask := if set =? 0 then ret 0 else reading (read_guest_u64 set) in
  let* s := gets id in
  let* task := lift (ok_or (k_tasks (rt_tasks s) !! tid) ESRCH) in
  do* (if negb (oldset =? 0) then writing (writer oldset (le_bytes 8 (t_signal_mask task))) else ret tt);
  let* o := on_tasks (rt_sigprocmask_current_mask tid how (if negb (set =? 0) then Some mask else None) (arg3 a)) in
  do* outcome_unit o;
  store_selected_process_memory pid.

Definition rt_sigtimedwait (clock : RtClock) (request : SyscallRequest) : SubM SyscallOutcome :=
  let pid := rq_pid request in let tid := rq_tid request in let a := rq_args request in
  do* select_memory_for_process pid;
  let set_addr := arg0 a in let info_addr := arg1 a in let timeout_addr := arg2 a in
  if negb (arg3 a =? LINUX_KERNEL_SIGSET_SIZE) then throw EINVAL else
  if set_addr =? 0 then throw EFAULT else
  let* signal_mask := reading (read_guest_u64 set_addr) in
  let* timeout := if timeout_addr =? 0 then ret None
                  else let* d := reading (read_required_timespec_duration timeout_addr) in ret (Some d) in
  let* o := on_tasks (rt_sigtimedwait_current tid signal_mask (arg3 a) (bool_decide (timeout = None))) in
  match so_result o, timeout with
  | Success signal, _ =>
      if negb (signal =? 0) && negb (info_addr =? 0) then
        do* writing (write_guest_siginfo info_addr signal);
        do* store_selected_process_memory pid; ret o
      else ret o
  | Errno errno, Some duration =>
      if (errno =? EAGAIN) && negb (duration =? 0) then do* lift (map_err time_errno (ck_sleep clock)); ret o else ret o
  | Errno _, None => ret o
  end.

Definition rt_sigsuspend (request : SyscallRequest) : SubM SyscallOutcome :=
  let a := rq_args request in
  do* select_memory_for_process (rq_pid request);
  let mask_addr := arg0 a in
  if mask_addr =? 0 then throw EFAULT else
  let* temporary_mask := reading (read_guest_u64 mask_addr) in
  on_tasks (rt_sigsuspend_current (rq_tid request) (U64_MAX - temporary_mask) (arg1 a)).

Definition sigaltstack (request : SyscallRequest) : SubM unit :=
  let pid := rq_pid request in let tid := rq_tid request in let a := rq_args request in
  do* select_memory_for_process pid;
  let ss := arg0 a in let old_ss := arg1 a in
  let* s := gets id in
  let current := default alt_stack_disabled_value (ev_signal_alt_stacks (rt_events s) !! tid) in
  let* requested := if ss =? 0 then ret None else
    let* stack := reading (read_guest_stack_t ss) in
    do* lift (validate_sigaltstack stack); ret (Some stack) in
  do* (if negb (old_ss =? 0) then writing (write_guest_stack_t old_ss current) else ret tt);
  do* match requested with
      | Some requested =>
          if disabled requested then change_events (set_alt_stacks (delete tid))
          else change_events (set_alt_stacks (insert tid requested))
      | None => ret tt
      end;
  store_selected_process_memory pid.

(** ** Futexes (event.rs) *)
Definition waiting_for_futex (k : GuestKernel) (tid : Z) : bool :=
  match t_state <$> k_tasks k !! tid with Some (WaitingForFutex _) => true | _ => false end.
Definition waiting_for_sleep (k : GuestKernel) (tid : Z) : bool :=
  match t_state <$> k_tasks k !! tid with Some WaitingForSleep => true | _ => false end.

Definition prune_futex_timeouts : SubM unit :=
  let* s := gets id in
  change_events (set_futex_timeouts (filter (λ p : Z * Z, waiting_for_futex (rt_tasks s) p.1 = true))).
Definition prune_sleep_timeouts : SubM unit :=
  let* s := gets id in
  change_events (set_sleep_timeouts (filter (λ p : Z * Z, waiting_for_sleep (rt_tasks s) p.1 = true))).

Definition request_scheduler_yield : SubM unit :=
  let* s := gets id in
  change_events (set_yield_budget (Z.min (saturating_add64 (ev_scheduler_yield_budget (rt_events s)) 4) 8)).

Definition futex_wait (clock : RtClock) (pid tid : Z) (args : FutexSyscallArgs) : SubM SyscallOutcome :=
  let* value := reading (read_guest_u32 (fa_uaddr args)) in
  if negb (value =? fa_val args) then throw EAGAIN else
  let* timeout := reading (read_futex_timeout (fa_timeout args)) in
  if bool_decide (timeout = Some 0) then throw ETIMEDOUT else
  let key := futex_key_new pid (fa_uaddr args) (is_private args) in
  do* on_tasks_fallible (block_task_for_futex tid key);
  do* change_events (set_futex_timeouts
        (match timeout with
         | Some timeout => insert tid (deadline_after clock timeout)
         | None => delete tid
         end));
  ret (outcome_success 0).

Definition futex_wake (pid : Z) (args : FutexSyscallArgs) : SubM Z :=
  let key := futex_key_new pid (fa_uaddr args) (is_private args) in
  let* woken := on_tasks (wake_futex_waiters key (fa_val args)) in
  do* (if negb (woken =? 0) then request_scheduler_yield else ret tt);
  do* prune_futex_timeouts;
  ret woken.

Definition futex_requeue (pid : Z) (args : FutexSyscallArgs) (compare : bool) : SubM SyscallOutcome :=
  if negb (fa_uaddr2 args mod 4 =? 0) then throw EINVAL else
  do* (if compare then
         let* value := reading (read_guest_u32 (fa_uaddr args)) in
         if negb (value =? fa_val3 args) then throw EAGAIN else ret tt
       else ret tt);
  let source := futex_key_new pid (fa_uaddr args) (is_private args) in
  let target := futex_key_new pid (fa_uaddr2 args) (is_private args) in
  let* affected := on_tasks (requeue_futex_waiters source target (fa_val args) (fa_timeout args)) in
  do* prune_futex_timeouts;
  ret (outcome_success affected).

Definition futex (clock : RtClock) (pid tid : Z) (args : FutexSyscallArgs) : SubM SyscallOutcome :=
  let wake := let* woken := futex_wake pid args in ret (outcome_success woken) in
  if has_unsupported_flags args then throw EINVAL else
  if negb (fa_uaddr args mod 4 =? 0) then throw EINVAL else
  if has_bits (fa_op args) LINUX_FUTEX_CLOCK_REALTIME && negb (command args =? LINUX_FUTEX_WAIT_BITSET) then throw EINVAL else
  if command args =? LINUX_FUTEX_WAIT then futex_wait clock pid tid args else
  if command args =? LINUX_FUTEX_WAIT_BITSET then
    if fa_val3 args =? 0 then throw EINVAL else futex_wait clock pid tid args else
  if command args =? LINUX_FUTEX_WAKE then wake else
  if command args =? LINUX_FUTEX_WAKE_BITSET then if fa_val3 args =? 0 then throw EINVAL else wake else
  if command args =? LINUX_FUTEX_REQUEUE then futex_requeue pid args false else
  if command args =? LINUX_FUTEX_CMP_REQUEUE then futex_requeue pid args true else
  throw EINVAL.

Definition dispatch_futex (clock : RtClock) (request : SyscallRequest) : SubM SyscallOutcome :=
  let a := rq_args request in
  do* select_memory_for_process (rq_pid request);
  futex clock (rq_pid request) (rq_tid request)
    {| fa_uaddr := arg0 a; fa_op := arg_u32 a 1; fa_val := arg_u32 a 2; fa_timeout := arg3 a;
       fa_uaddr2 := arg4 a; fa_val3 := arg_u32 a 5 |}.

(** ** Timeouts that expire

    [expire tids resume]: the timeouts of [tids] are taken out and their tasks resumed. *)
Definition futex_timeout (tid : Z) : SubM bool :=
  do* change_events (set_futex_timeouts (delete tid)); on_tasks (timeout_futex_waiter tid).
Definition sleep_timeout (tid : Z) : SubM bool :=
  do* change_events (set_sleep_timeouts (delete tid)); on_tasks (resume_sleep_waiter tid).

Definition resume_all (tids : list Z) (resume : Z → SubM bool) : SubM Z :=
  let* resumed := traverse tids resume in ret (zlen (filter (λ b, b = true) resumed)).

Definition expired_tids (timeouts : gmap Z Z) (now : Z) : list Z :=
  (filter (λ p : Z * Z, p.2 ≤ now) (bt_iter timeouts)).*1.

(** The earliest deadline. *)
Definition next_deadline (timeouts : gmap Z Z) : option Z :=
  match bt_values timeouts with [] => None | d :: ds => Some (foldr Z.min d ds) end.

Definition resume_expired_futex_timeouts (clock : RtClock) : SubM Z :=
  let* s := gets id in
  let* resumed := resume_all (expired_tids (ev_futex_timeouts (rt_events s)) (ck_instant clock)) futex_timeout in
  do* prune_futex_timeouts; ret resumed.

Definition expire_next_futex_timeout : SubM bool :=
  do* prune_futex_timeouts;
  let* s := gets id in
  match next_deadline (ev_futex_timeouts (rt_events s)) with
  | None => ret false
  | Some deadline =>
      let* _ := resume_all (expired_tids (ev_futex_timeouts (rt_events s)) deadline) futex_timeout in
      do* prune_futex_timeouts; ret true
  end.

Definition resume_expired_sleep_timeouts (clock : RtClock) : SubM Z :=
  let* s := gets id in
  let* resumed := resume_all (expired_tids (ev_sleep_timeouts (rt_events s)) (ck_instant clock)) sleep_timeout in
  do* prune_sleep_timeouts; ret resumed.

Definition expire_next_sleep_timeout : SubM bool :=
  do* prune_sleep_timeouts;
  let* s := gets id in
  match next_deadline (ev_sleep_timeouts (rt_events s)) with
  | None => ret false
  | Some deadline =>
      let* _ := resume_all (expired_tids (ev_sleep_timeouts (rt_events s)) deadline) sleep_timeout in
      do* prune_sleep_timeouts; ret true
  end.

(** ** Time (time.rs) *)
Definition clock_gettime (clock : RtClock) (clock_id timespec_addr : Z) : SubM Z :=
  if timespec_addr =? 0 then throw EFAULT else
  let* timespec :=
    if (clock_id =? LINUX_CLOCK_REALTIME) || (clock_id =? LINUX_CLOCK_REALTIME_COARSE) then
      let* t := lift (map_err time_errno (ck_system clock)) in ret (linux_timespec_from_system_time t)
    else if (clock_id =? LINUX_CLOCK_MONOTONIC) || (clock_id =? LINUX_CLOCK_MONOTONIC_RAW) ||
            (clock_id =? LINUX_CLOCK_MONOTONIC_COARSE) || (clock_id =? LINUX_CLOCK_BOOTTIME) then
      let* t := lift (map_err time_errno (ck_monotonic clock)) in lift (linux_timespec_from_duration t)
    else throw EINVAL in
  do* writing (write_guest_timespec timespec_addr timespec); ret 0.

Definition clock_getres (clock_id timespec_addr : Z) : SubM Z :=
  do* lift (validate_clock_id clock_id);
  do* (if negb (timespec_addr =? 0) then writing (write_guest_timespec timespec_addr {| tv_sec := 0; tv_nsec := 1000000 |})
       else ret tt);
  ret 0.

Definition gettimeofday (clock : RtClock) (timeval_addr timezone_addr : Z) : SubM Z :=
  do* (if negb (timeval_addr =? 0) then
         let* t := lift (map_err time_errno (ck_system clock)) in
         writing (write_guest_timeval timeval_addr (linux_timespec_from_system_time t))
       else ret tt);
  do* (if negb (timezone_addr =? 0) then writing (write_guest_timezone_utc timezone_addr) else ret tt);
  ret 0.

Definition nanosleep (clock : RtClock) (tid req_addr : Z) : SubM Z :=
  if req_addr =? 0 then throw EFAULT else
  let* duration := reading (read_required_timespec_duration req_addr) in
  if duration =? 0 then ret 0 else
  do* on_tasks_fallible (block_task_for_sleep tid);
  do* change_events (set_sleep_timeouts (insert tid (deadline_after clock duration)));
  ret 0.

(** [fill_random] is the host's. *)
Definition getrandom (buf_addr buflen flags : Z) : SubM Z :=
  if negb (without_bits flags LINUX_GRND_SUPPORTED_FLAGS =? 0) then throw EINVAL else
  if buflen =? 0 then ret 0 else
  if buf_addr =? 0 then throw EFAULT else
  let* _ := lift (vec_zeroed buflen) in
  let* bytes := lift (ok_or (host_random buflen) EIO) in
  do* writing (writer buf_addr bytes);
  ret buflen.

Definition dispatch_time (clock : RtClock) (request : SyscallRequest) : RtCall :=
  let pid := rq_pid request in let a := rq_args request in
  answer (
    do* memory_result (materialize_pending_fork_exec_children unsafe_share_until_exec pid);
    do* select_memory_for_process pid;
    let* o := match rq_syscall request with
              | SysClockGettime => as_outcome (clock_gettime clock (arg0 a) (arg1 a))
              | SysClockGetres => as_outcome (clock_getres (arg0 a) (arg1 a))
              | SysGettimeofday => as_outcome (gettimeofday clock (arg0 a) (arg1 a))
              | SysNanosleep => as_outcome (nanosleep clock (rq_tid request) (arg0 a))
              | SysGetrandom => as_outcome (getrandom (arg0 a) (arg1 a) (arg2 a))
              | _ => ret outcome_unsupported
              end in
    store_memory pid o).
End runtime.
