(* ===== verification/RtExec.v ===== *)
(** * mcr-runtime: processes that fork, execute and end

    The task calls of subsystems/task.rs that change which processes there are and what memory
    they have: clone and fork, with the child's memory left pending; execve, which builds the
    memory of the new image; exit, with the robust list and the cleared thread id; wait4 with
    the status it writes.  [dispatch_task] is the whole table of task calls.

    The identifiers that the code reads back from the decoded fields of an outcome are read here
    from the outcome and the kernel the call found: a child's identifier is the value returned,
    a thread's is the value of a clone with CLONE_THREAD, and a status waited for is that of the
    process that had exited. *)

From S2P Require Import Prelude SysAbi SyscallTable Dispatcher HostMemory GuestMemory GuestMemoryOps Bytes SysCodec SysCodecTheorems ElfParser ElfImage ImageMemory TaskTypes TaskKernel TaskWait TaskSyscalls VfsTypes VfsPath VfsFd VfsCache VfsSystem NetTypes NetTable JitPatch RtSignals RtAbi RtFiles RtFileCalls RtMemory RtEvents RtNet RtProcess RtPoll RtTasks.
From stdpp Require Import base gmap list sorting strings.
From Stdlib Require Import ZArith Lia.
Open Scope Z_scope.

Definition WINDOWS_NATIVE_MMAP_BASE : Z := 0x50000000.
Definition ROBUST_LIST_HEAD_FUTEX_OFFSET : Z := 8.
Definition ROBUST_LIST_HEAD_PENDING_OFFSET : Z := 16.

(** [u64::checked_add_signed] *)
Definition checked_add_signed (a b : Z) : option Z :=
  if (0 <=? a + b) && (a + b <=? U64_MAX) then Some (a + b) else None.

Definition has_clone_parent_settid (a : CloneSyscallArgs) : bool := has_bits (cl_flags a) LINUX_CLONE_PARENT_SETTID.
Definition has_clone_child_settid (a : CloneSyscallArgs) : bool := has_bits (cl_flags a) LINUX_CLONE_CHILD_SETTID.

(** [fork_child_pid] and [thread_child_tid]: what a successful clone says about its child. *)
Definition creates_thread (clone_args : option CloneSyscallArgs) : bool :=
  match clone_args with Some a => has_clone_thread a | None => false end.

(** [fork_child_pid] and [wait_status_from_decoded] after wait4: the child that was reaped, as the
    kernel [k] before the call had it. *)
Definition reaped_child (k : GuestKernel) (o : SyscallOutcome) : option WaitedChild :=
  match so_result o with
  | Success pid =>
      if pid =? 0 then None else
      match p_exit_state <$> k_processes k !! pid with
      | Some (ExitedWith status) => Some (waited_child_new pid status)
      | _ => None
      end
  | Errno _ => None
  end.

(** ** Readiness of the descriptors of a blocked task (lib.rs) *)
Definition fd_wait_ready (w : FdWorld) (fd : Z) (write : bool) : outcome bool LinuxErrno :=
  let? r := map_err vfs_errno (poll_readiness fd w).1 in
  Ok ((if write then rd_writable r else rd_readable r) || rd_hang_up r || rd_error r).

Fixpoint any_watch_ready (w : FdWorld) (l : list EpollWatch) : outcome bool LinuxErrno :=
  match l with
  | [] => Ok false
  | watch :: l =>
      let poll_events := epoll_events_to_poll_events (ew_events watch) in
      let? revents := match (poll_readiness (ew_fd watch) w).1 with
                      | Ok readiness => Ok (poll_revents_from_vfs readiness poll_events)
                      | Err BadFd => Ok (Z.lor LINUX_POLLERR LINUX_POLLHUP)
                      | Err e => Err (vfs_errno e)
                      | Panic => Panic
                      end in
      if negb (poll_revents_to_epoll_events revents (ew_events watch) =? 0) then Ok true
      else any_watch_ready w l
  end.

Definition epoll_fd_wait_ready (w : FdWorld) (epolls : EpollRegistry) (epoll_id : Z) : outcome bool LinuxErrno :=
  let? l := watches epoll_id epolls in any_watch_ready w l.

Definition fd_wait_ready_or_epoll (w : FdWorld) (epolls : EpollRegistry) (fd : Z) (write : bool) : outcome bool LinuxErrno :=
  match (if write then None else Some (epoll_id_for_fd fd w).1) with
  | Some (Ok epoll_id) => epoll_fd_wait_ready w epolls epoll_id
  | _ => fd_wait_ready w fd write
  end.

Section runtime.
Context {OS : HostOs} {host_fs : HostFs}.
Context {NetWorld Handle Transport BatchPoll : Type} {host_sockets : HostSockets NetWorld Handle Transport BatchPoll}.
Context {FloatingPoint : Type}.
Context (unsafe_share_until_exec : bool).

Abbreviation Runtime := (RuntimeSubsystems (NetWorld := NetWorld) (Handle := Handle) (Transport := Transport) (FloatingPoint := FloatingPoint)).
Abbreviation SubM := (SubM (NetWorld := NetWorld) (Handle := Handle) (Transport := Transport) (FloatingPoint := FloatingPoint)).
Abbreviation SubMemM := (SubMemM (NetWorld := NetWorld) (Handle := Handle) (Transport := Transport) (FloatingPoint := FloatingPoint)).

(** A result that is looked at, not passed on. *)
Definition attempt {A} (m : SubM A) : SubM (option A) :=
  λ s, match m s with
       | (Ok a, s) => (Ok (Some a), s)
       | (Err _, s) => (Ok None, s)
       | (Panic, s) => (Panic, s)
       end.

(** The task calls that the kernel answers. *)
Definition on_kernel (f : GuestKernel → outcome SyscallOutcome Empty_set * GuestKernel) : SubM SyscallOutcome :=
  total_call (λ s, let (r, k) := f (rt_tasks s) in (r, set_rt_tasks k s)).

Definition set_native (f : NativeExecutionState (FloatingPoint := FloatingPoint) → NativeExecutionState) : SubM unit :=
  modify (λ s, set_rt_native (f (rt_native s)) s).

Definition resume_fd_waiters_ready (s : Runtime) (pid fd : Z) (write : bool) : bool :=
  match fd_table_for_process pid s with
  | Some fds =>
      match fd_wait_ready_or_epoll {| fw_table := fds; fw_heap := fw_heap (rt_fd_world s) |} (ev_epolls (rt_events s)) fd write with
      | Ok ready => ready
      | _ => true
      end
  | None => true
  end.
Definition resume_fd_waiters : SubM unit :=
  let* s := gets id in
  let* _ := on_tasks (TaskWait.resume_fd_waiters (resume_fd_waiters_ready s)) in ret tt.

Definition write_uname (addr : Z) : SubM unit := writing (write_guest_uname addr).

(** ** The status of a wait *)
Definition write_wait_status_to_process (pid wstatus wait_status : Z) : SubM unit :=
  if wstatus =? 0 then ret tt else
  do* memory_result (materialize_pending_fork_exec_children unsafe_share_until_exec pid);
  let* s := gets id in
  if pid =? rt_selected_memory_pid s
  then memory_result (on_selected_memory (GuestMemoryOps.write wstatus (le_bytes 4 wait_status)))
  else match rt_memory s !! pid with
       | None => throw ESRCH
       | Some memory => λ s,
           let (r, w) := GuestMemoryOps.write wstatus (le_bytes 4 wait_status) {| w_host := rt_heap s; w_mem := memory |} in
           (map_err GuestMemory.memory_errno r,
            set_rt_memory (<[pid := w_mem w]> (rt_memory s)) (set_rt_heap (w_host w) s))
       end.

Definition write_wait_status (wait : CompletedWait) : SubM unit :=
  write_wait_status_to_process (cw_pid wait) (w4_wstatus (cw_args wait)) (wc_wait_status (cw_waited wait)).

Definition resume_waiting_tasks : SubM (list CompletedWait) :=
  let* completed := on_tasks TaskWait.resume_waiting_tasks in
  do* foreach completed (λ wait,
        do* write_wait_status wait;
        do* modify (drop_native_fp_for_process (wc_pid (cw_waited wait)));
        drop_process_resources unsafe_share_until_exec (wc_pid (cw_waited wait)));
  ret completed.

(** ** The end of a task *)
Definition wake_all (pid uaddr : Z) : SubM unit :=
  do* change_events (λ e, set_futexes (futex_registry_wake uaddr U32_MAX (ev_futexes e)).2 e);
  let* _ := on_tasks (wake_futex_waiters (futex_key_new pid uaddr true) U32_MAX) in
  let* _ := on_tasks (wake_futex_waiters (futex_key_new pid uaddr false) U32_MAX) in
  ret tt.

Definition wake_robust_futex (pid tid list_entry futex_offset : Z) : SubM unit :=
  match checked_add_signed list_entry futex_offset with
  | None => ret tt
  | Some futex_addr =>
      let* value := attempt (reading (read_guest_u32 futex_addr)) in
      match value with
      | None => ret tt
      | Some value =>
          if negb (Z.land value LINUX_FUTEX_TID_MASK =? tid) then ret tt else
          let owner_died_value := Z.lor (without_bits value LINUX_FUTEX_TID_MASK) LINUX_FUTEX_OWNER_DIED in
          let* written := attempt (writing (write_guest_u32 futex_addr owner_died_value)) in
          match written with
          | None => ret tt
          | Some _ => wake_all pid futex_addr
          end
      end
  end.

Fixpoint robust_list_loop (entries : nat) (pid tid head current futex_offset : Z) : SubM unit :=
  match entries with
  | O => ret tt
  | S entries =>
      if (current =? 0) || (current =? head) then ret tt else
      let* next := attempt (reading (read_guest_u64 current)) in
      do* wake_robust_futex pid tid current futex_offset;
      robust_list_loop entries pid tid head (default head next) futex_offset
  end.

Definition wake_robust_list (pid tid head : Z) : SubM unit :=
  let* current := attempt (reading (read_guest_u64 head)) in
  match current with
  | None => ret tt
  | Some current =>
      let* futex_offset := attempt (reading (read_guest_i64 (wadd head ROBUST_LIST_HEAD_FUTEX_OFFSET))) in
      match futex_offset with
      | None => ret tt
      | Some futex_offset =>
          let* pending := attempt (reading (read_guest_u64 (wadd head ROBUST_LIST_HEAD_PENDING_OFFSET))) in
          let pending := default 0 pending in
          do* robust_list_loop (Z.to_nat ROBUST_LIST_MAX_ENTRIES) pid tid head current futex_offset;
          do* (if negb (pending =? 0) && negb (pending =? head) then wake_robust_futex pid tid pending futex_offset else ret tt);
          let* _ := attempt (store_selected_process_memory pid) in ret tt
      end
  end.

(** [task_mut(tid).and_then(take)]: what a field of a task held, which is taken out of it. *)
Definition take_from_task (tid : Z) (field : GuestTask → option Z) (clear : GuestTask → GuestTask) : SubM (option Z) :=
  let* s := gets id in
  match k_tasks (rt_tasks s) !! tid with
  | None => ret None
  | Some task => do* modify (set_rt_tasks (update_task tid clear (rt_tasks s))); ret (field task)
  end.

Definition clear_child_tid (pid tid : Z) : SubM unit :=
  let* address := take_from_task tid t_clear_child_tid (set_t_clear_child_tid None) in
  match address with
  | None => ret tt
  | Some address =>
      do* writing (write_guest_u32 address 0);
      do* store_selected_process_memory pid;
      wake_all pid address
  end.

Definition finish_task_exit (pid tid : Z) (exit_group : bool) : SubM unit :=
  do* (if exit_group then ret tt else
         let* robust_list := take_from_task tid t_robust_list (set_t_robust_list None) in
         match robust_list with Some head => wake_robust_list pid tid head | None => ret tt end);
  do* (if exit_group then ret tt else clear_child_tid pid tid);
  let* s := gets id in
  if exit_group || has_exited (rt_tasks s) pid then
    do* modify (drop_native_fp_for_process pid); drop_process_resources unsafe_share_until_exec pid
  else modify (drop_native_fp_for_tid tid).

(** ** Calls of the kernel *)
Definition dispatch_kernel_task (request : SyscallRequest) : SubM SyscallOutcome :=
  let pid := rq_pid request in let a := rq_args request in
  do* select_process_context pid;
  let* k := gets rt_tasks in
  let* o := on_kernel (dispatch_for_current_task request) in
  if negb (is_success o) then ret o else
  match rq_syscall request with
  | SysUname => do* write_uname (arg0 a); do* store_selected_process_memory pid; ret o
  | SysExit => do* finish_task_exit pid (rq_tid request) false; ret o
  | SysExitGroup => do* finish_task_exit pid (rq_tid request) true; ret o
  | SysWait4 =>
      match reaped_child k o with
      | Some waited =>
          do* write_wait_status_to_process pid (arg1 a) (wc_wait_status waited);
          do* drop_process_resources unsafe_share_until_exec (wc_pid waited);
          ret o
      | None => ret o
      end
  | _ => ret o
  end.

(** ** Clone and fork *)
Definition write_clone_tid_pointers (pid : Z) (args : CloneSyscallArgs) (child_tid : Z) : SubM unit :=
  let parent := has_clone_parent_settid args && negb (cl_parent_tid args =? 0) in
  let child := has_clone_child_settid args && negb (cl_child_tid args =? 0) in
  do* (if parent then writing (write_guest_u32 (cl_parent_tid args) child_tid) else ret tt);
  do* (if child then writing (write_guest_u32 (cl_child_tid args) child_tid) else ret tt);
  if parent || child then store_selected_process_memory pid else ret tt.

Definition dispatch_native_fork_like_task (request : SyscallRequest) (clone_args : option CloneSyscallArgs)
    (child_regs : GprState) : SubM SyscallOutcome :=
  match rq_syscall request with
  | SysFork => on_kernel (fork_current_with_child_regs (rq_tid request) child_regs)
  | SysVfork => on_kernel (vfork_current_with_child_regs (rq_tid request) child_regs)
  | SysClone | SysClone3 =>
      let* args := lift (expect clone_args) in
      on_kernel (clone_current_with_child_regs (rq_tid request) args child_regs)
  | _ => ret outcome_unsupported
  end.

Definition fork_like_clone_args (request : SyscallRequest) : SubM (option CloneSyscallArgs) :=
  let a := rq_args request in
  match rq_syscall request with
  | SysClone => ret (Some (clone_args a))
  | SysClone3 => let* args := reading (clone3_args_from_memory (arg0 a) (arg1 a)) in ret (Some args)
  | _ => ret None
  end.

(** The kernel's part, with the registers of the child when native execution left them. *)
Definition fork_like_outcome (request : SyscallRequest) (clone_args : option CloneSyscallArgs)
    (pending_child_regs : option GprState) (native : bool) : SubM SyscallOutcome :=
  match (if native then pending_child_regs else None) with
  | Some child_regs => dispatch_native_fork_like_task request clone_args child_regs
  | None =>
      if bool_decide (rq_syscall request = SysClone3) then
        let* args := lift (expect clone_args) in on_kernel (clone_current (rq_tid request) args)
      else on_kernel (dispatch_for_current_task request)
  end.

(** The clone of the selected table, for the child. *)
Definition clone_selected_fds (child_pid : Z) : SubM unit :=
  modify (λ s,
    let (fds, heap) := table_clone (rt_fd_world s) in
    let s := with_vfs_state (λ v, set_fds {| fw_table := fw_table (v_fds v); fw_heap := heap |} v) s in
    let s := match rt_fds s !! child_pid with Some t => drop_fd_table t s | None => s end in
    set_rt_fds (<[child_pid := fds]> (rt_fds s)) s).

Definition dispatch_fork_like (request : SyscallRequest) : SubM SyscallOutcome :=
  let pid := rq_pid request in
  do* select_process_context pid;
  let* clone_args := fork_like_clone_args request in
  let* s := gets id in
  do* set_native (set_nx_pending_regs None);
  let* o := fork_like_outcome request clone_args (nx_pending_fork_child_regs (rt_native s)) (nx_enabled (rt_native s)) in
  match so_result o with
  | Errno _ => ret o
  | Success child =>
      if creates_thread clone_args then
        do* match clone_args with Some args => write_clone_tid_pointers pid args child | None => ret tt end;
        do* modify (clone_native_fp_for_thread (rq_tid request) child);
        ret o
      else
        do* modify (λ s, set_rt_pending (<[child := pid]> (rt_pending_fork_exec s)) s);
        do* clone_selected_fds child;
        do* modify (fork_native_fp (rq_tid request) child);
        ret o
  end.

(** ** Execve *)

(** The windows base of mappings, when code runs natively. *)
Definition configure_new_process_memory : MemM unit := set_mmap_base WINDOWS_NATIVE_MMAP_BASE.

Definition memory_from_process_image (image : ElfImage.GuestMemoryImage) : SubMemM GuestMemory := λ s,
  match from_image image (rt_heap s) with
  | (Ok memory, h) =>
      if nx_enabled (rt_native s) then
        match configure_new_process_memory {| w_host := h; w_mem := memory |} with
        | (Ok _, w) => (Ok (w_mem w), set_rt_heap (w_host w) s)
        | (Err e, w) => (Err e, set_rt_heap (drop_guest_memory (w_mem w) (w_host w)) s)
        | (Panic, w) => (Panic, set_rt_heap (w_host w) s)
        end
      else (Ok memory, set_rt_heap h s)
  | (Err e, h) => (Err e, set_rt_heap h s)
  | (Panic, h) => (Panic, set_rt_heap h s)
  end.

Definition set_native_image_patch_key (pid : Z) (image : ElfImage.GuestMemoryImage) : SubM unit :=
  match native_image_patch_key_and_ranges image with
  | Ok (key, ranges) =>
      set_native (λ n, set_nx_patches (nx_patch_caches n) (<[pid := key]> (nx_image_patch_keys n))
                         (<[pid := ranges]> (nx_image_patch_ranges n)) (nx_libc_intrinsic_patches n) n)
  | Err _ =>
      set_native (λ n, set_nx_patches (nx_patch_caches n) (delete pid (nx_image_patch_keys n))
                         (delete pid (nx_image_patch_ranges n)) (nx_libc_intrinsic_patches n) n)
  | Panic => lift Panic
  end.

Definition replace_memory_from_image (pid : Z) : SubM unit :=
  let* s := gets id in
  let* process := lift (ok_or (k_processes (rt_tasks s) !! pid) ESRCH) in
  let image := gi_memory (p_image process) in
  do* (if pid =? rt_selected_memory_pid s then
         do* memory_result drop_selected_memory_allocations;
         let* memory := memory_result (memory_from_process_image image) in
         modify (put_selected_memory memory)
       else
         let* memory := memory_result (memory_from_process_image image) in
         modify (insert_memory pid memory));
  set_native_image_patch_key pid image.

(** What follows the change of program in the kernel: the marked descriptors close, and what the
    old program left is replaced. *)
Definition finish_execve (pid tid : Z) : SubM unit :=
  let* closed := on_files (on_vfs (on_fds (λ w, let (ids, w) := close_on_exec w in (Ok ids, w)))) in
  do* foreach (omap socket_id_new (cl_socket_ids closed)) (close_unshared_socket pid);
  do* foreach (cl_epoll_ids closed) (close_unshared_epoll pid);
  do* modify (sync_proc_self pid);
  do* set_native (λ n, set_nx_fp (delete tid (nx_fp n)) n);
  do* change_events (set_alt_stacks (delete tid));
  do* replace_memory_from_image pid;
  do* set_native (λ n, set_nx_patches (delete pid (nx_patch_caches n)) (nx_image_patch_keys n) (nx_image_patch_ranges n)
        (filter (λ p : (Z * Z) * GuestLibcIntrinsic, p.1.1 ≠ pid) (nx_libc_intrinsic_patches n)) n);
  store_selected_process_fds pid.

(** The file name, the arguments and the environment of the call. *)
Definition execve_args (request : SyscallRequest) : Reader World (list Z * list (list Z) * list (list Z)) := λ m,
  let a := rq_args request in
  let? filename := read_guest_c_bytes (arg0 a) m in
  let? argv := read_guest_vector (arg1 a) m in
  let? envp := read_guest_vector (arg2 a) m in
  Ok (filename, argv, envp).

Definition load_program_of (turns : nat) (args : list Z * list (list Z) * list (list Z)) : SubM GuestProgram :=
  on_files (load_guest_program turns args.1.1 args.1.2 args.2).

(** A child whose memory was pending reads its arguments in its parent's memory.  When the call
    fails it gets a memory of its own. *)
Definition execve_pending_fork_exec_child (turns : nat) (request : SyscallRequest) : SubM unit :=
  let child_pid := rq_pid request in
  let or_materialize {A} (m : SubM A) : SubM A :=
    λ s, match m s with
         | (Err e, s) => (do* memory_result (materialize_pending_fork_exec_child_memory child_pid); throw e) s
         | r => r
         end in
  let* s := gets id in
  let* parent_pid := lift (ok_or (rt_pending_fork_exec s !! child_pid) ESRCH) in
  do* select_fds_for_process child_pid;
  do* modify (sync_proc_self child_pid);
  let* s := gets id in
  let* args := or_materialize (lift (
    let? memory := ok_or (memory_for_process parent_pid s) ESRCH in
    execve_args request {| w_host := rt_heap s; w_mem := memory |})) in
  let* program := or_materialize (load_program_of turns args) in
  do* or_materialize (on_tasks_fallible (exec_task (rq_tid request) program));
  do* modify (λ s, set_rt_pending (delete child_pid (rt_pending_fork_exec s)) s);
  finish_execve child_pid (rq_tid request).

Definition execve (turns : nat) (request : SyscallRequest) : SubM unit :=
  let pid := rq_pid request in
  let* pending := gets (has_pending_fork_exec_child pid) in
  if (pending : bool) then execve_pending_fork_exec_child turns request else
  do* memory_result (materialize_pending_fork_exec_children unsafe_share_until_exec pid);
  do* select_process_context pid;
  let* args := reading (execve_args request) in
  let* program := load_program_of turns args in
  do* on_tasks_fallible (exec_task (rq_tid request) program);
  do* finish_execve pid (rq_tid request);
  store_selected_process_memory pid.

(** ** The table of task calls *)
Definition supports_fast_task (request : SyscallRequest) (s : Runtime) : bool :=
  negb (has_pending_fork_exec_child (rq_pid request) s) &&
  match rq_syscall request with SysGetpid | SysGettid => true | _ => false end.

Definition dispatch_fast_task (request : SyscallRequest) (s : Runtime) : SyscallOutcome :=
  match k_tasks (rt_tasks s) !! rq_tid request with
  | None => outcome_errno ESRCH
  | Some task =>
      if negb (t_pid task =? rq_pid request) then outcome_errno ESRCH else
      match rq_syscall request with
      | SysGetpid => outcome_success (t_pid task)
      | SysGettid => outcome_success (t_tid task)
      | _ => outcome_unsupported
      end
  end.

Definition dispatch_task (clock : RtClock) (turns : nat) (request : SyscallRequest) : RtCall :=
  let pid := rq_pid request in let a := rq_args request in
  answer (
    do* match rq_syscall request with
        | SysExecve | SysWait4 => ret tt
        | _ => memory_result (materialize_pending_fork_exec_children unsafe_share_until_exec pid)
        end;
    match rq_syscall request with
    | SysFutex => dispatch_futex clock request
    | SysExecve => unit_call (execve turns request)
    | SysRtSigaction => unit_call (rt_sigaction request)
    | SysRtSigprocmask => unit_call (rt_sigprocmask request)
    | SysRtSigtimedwait => rt_sigtimedwait clock request
    | SysRtSigsuspend => rt_sigsuspend request
    | SysSigaltstack => unit_call (sigaltstack request)
    | SysSchedYield => ret (outcome_success 0)
    | SysSchedGetparam => unit_call (sched_getparam request)
    | SysSchedGetscheduler => dispatch_sched_getscheduler request
    | SysSchedGetaffinity => unit_call (sched_getaffinity request)
    | SysGetrlimit => with_selected_memory pid (write_rlimit (arg0 a) (arg1 a))
    | SysGetrusage => with_selected_memory pid (write_rusage (arg_i32 a 0) (arg1 a))
    | SysSysinfo => with_selected_memory pid (write_sysinfo (arg0 a))
    | SysPrctl => with_selected_memory pid (prctl (arg0 a) (arg1 a) (arg2 a) (arg3 a) (arg4 a))
    | SysPrlimit64 => with_selected_memory pid (prlimit64 pid (arg0 a) (arg1 a) (arg2 a) (arg3 a))
    | SysGetcpu => with_selected_memory pid (getcpu (arg0 a) (arg1 a))
    | SysMembarrier => as_outcome (membarrier (arg0 a) (arg1 a))
    | SysRseq => ret (outcome_errno ENOSYS)
    | SysFork | SysVfork | SysClone | SysClone3 => dispatch_fork_like request
    | _ => dispatch_kernel_task request
    end).
End runtime.
