(* ===== verification/RtIsolation.v ===== *)
(** * mcr-runtime: the processes are isolated

    The memories and descriptors of all processes as one system ([rt_ok]), what selecting a
    context does to it ([kept]) and what a call of one process may do to it ([isolated]), for the
    interpreted runtime ([nx_enabled] is false) without the unsafe sharing of a parent's memory. *)

From S2P Require Import Prelude SysAbi SyscallTable Dispatcher HostMemory GuestMemory GuestMemoryOps GuestVmas GuestMemoryInv GuestMemoryHost GuestMemorySteps GuestMemoryAccess GuestMemoryFork GuestMemorySystem GuestMemoryTheorems Bytes SysCodec SysCodecTheorems TaskTypes TaskKernel TaskWait TaskSystem VfsTypes VfsPath VfsFd VfsCache VfsSystem NetTypes NetTable RtSignals RtAbi RtFiles RtFileCalls RtMemory RtEvents RtNet RtProcess RtPoll RtTasks RtExec.
From stdpp Require Import base gmap list sorting strings.
From Stdlib Require Import ZArith Lia.
Open Scope Z_scope.

Section runtime.
Context {OS : HostOs} {OL : HostOsLaws OS} {host_fs : HostFs}.
Context {NetWorld Handle Transport BatchPoll : Type} {host_sockets : HostSockets NetWorld Handle Transport BatchPoll}.
Context {FloatingPoint : Type}.

Abbreviation Runtime := (RuntimeSubsystems (NetWorld := NetWorld) (Handle := Handle) (Transport := Transport) (FloatingPoint := FloatingPoint)).
Abbreviation SubM := (SubM (NetWorld := NetWorld) (Handle := Handle) (Transport := Transport) (FloatingPoint := FloatingPoint)).
Abbreviation SubMemM := (SubMemM (NetWorld := NetWorld) (Handle := Handle) (Transport := Transport) (FloatingPoint := FloatingPoint)).
Implicit Types s : Runtime.

(** ** The memories as one system

    The selected memory and the waiting ones are a system of guest memories in the sense of
    [GuestMemorySystem]; a pending child sees its parent's memory. *)
Definition rt_system s : System :=
  {| s_heap := rt_heap s; s_memories := <[rt_selected_memory_pid s := rt_selected_memory s]> (rt_memory s) |}.

Definition seen_pid (y : System) (pending : gmap Z Z) (q : Z) : Z :=
  match s_memories y !! q with Some _ => q | None => default q (pending !! q) end.

(** What process [q] reads at [a]. *)
Definition process_view s (q a : Z) : option Cell :=
  m ← memory_for_process q s; cell_at (at_heap (rt_heap s) m) a.

Record rt_ok s : Prop := {
  ro_system : sys_wf (rt_system s);
  ro_selected : rt_memory s !! rt_selected_memory_pid s = None;
  ro_pending : ∀ c p, rt_pending_fork_exec s !! c = Some p →
    s_memories (rt_system s) !! c = None ∧ is_Some (s_memories (rt_system s) !! p);
  ro_exists : ∀ q, is_Some (memory_for_process q s) → process_exists q s = true;
  ro_interpreted : nx_enabled (rt_native s) = false;
  ro_fds : rt_fds s !! rt_selected_fds_pid s = None ∧ process_exists (rt_selected_fds_pid s) s = true;
}.

Lemma memory_for_process_system q s :
  memory_for_process q s =
  match s_memories (rt_system s) !! q with
  | Some m => Some m
  | None => p ← rt_pending_fork_exec s !! q; s_memories (rt_system s) !! p
  end.
Proof.
  unfold memory_for_process. simpl. destruct (Z.eqb_spec q (rt_selected_memory_pid s)) as [->|Hne].
  - by rewrite lookup_insert_eq.
  - rewrite lookup_insert_ne by done. destruct (rt_memory s !! q); [done|].
    destruct (rt_pending_fork_exec s !! q) as [p|]; simpl; [|done].
    destruct (Z.eqb_spec p (rt_selected_memory_pid s)) as [->|Hp]; [by rewrite lookup_insert_eq|by rewrite lookup_insert_ne].
Qed.

Lemma selected_exists s : rt_ok s → process_exists (rt_selected_memory_pid s) s = true.
Proof. intros Hs. apply (ro_exists _ Hs). unfold memory_for_process. rewrite Z.eqb_refl. eauto. Qed.

Lemma process_view_system q s a :
  process_view s q a = view_of (rt_system s) (seen_pid (rt_system s) (rt_pending_fork_exec s) q) a.
Proof.
  unfold process_view, view_of, seen_pid. rewrite memory_for_process_system.
  change (s_heap (rt_system s)) with (rt_heap s).
  destruct (s_memories (rt_system s) !! q) as [m|] eqn:Hm; [by rewrite Hm|].
  destruct (rt_pending_fork_exec s !! q) as [p|]; [done|]. cbn [default mbind option_bind from_option]. by rewrite Hm.
Qed.

(** ** What selecting and materializing do: nothing a process can see *)
Record unseen s s' : Prop := {
  un_ok : rt_ok s';
  un_view : ∀ q a, process_view s' q a = process_view s q a;
  un_memory : ∀ q, is_Some (memory_for_process q s') ↔ is_Some (memory_for_process q s);
  un_tasks : rt_tasks s' = rt_tasks s;
  un_files : rf_vfs (rt_files s') = rf_vfs (rt_files s) ∧ rf_sockets (rt_files s') = rf_sockets (rt_files s);
  un_fds : rt_fds s' = rt_fds s ∧ rt_selected_fds_pid s' = rt_selected_fds_pid s;
  un_events : rt_events s' = rt_events s;
  un_pending : rt_pending_fork_exec s' ⊆ rt_pending_fork_exec s;
}.

Definition unseen_step s s' : Prop := rt_ok s → unseen s s'.

Lemma unseen_refl s : rt_ok s → unseen s s.
Proof. intros Hs. by split. Qed.

Lemma unseen_trans s1 s2 s3 : unseen s1 s2 → unseen s2 s3 → unseen s1 s3.
Proof.
  intros [Hok V M T [F1 F2] [D1 D2] E P] [Hok' V' M' T' [F1' F2'] [D1' D2'] E' P'].
  split; [done| |intros q; by rewrite M', M|by rewrite T'|by rewrite F1', F2'|by rewrite D1', D2'|by rewrite E'|by etransitivity].
  intros q a. by rewrite V', V.
Qed.

(** A state with the same memories and pending children. *)
Lemma same_system_unseen s s' :
  rt_system s' = rt_system s → rt_pending_fork_exec s' = rt_pending_fork_exec s →
  rt_memory s' !! rt_selected_memory_pid s' = None →
  rt_tasks s' = rt_tasks s → rf_vfs (rt_files s') = rf_vfs (rt_files s) →
  rf_sockets (rt_files s') = rf_sockets (rt_files s) → rt_fds s' = rt_fds s →
  rt_selected_fds_pid s' = rt_selected_fds_pid s → rt_events s' = rt_events s →
  rt_native s' = rt_native s → unseen_step s s'.
Proof.
  intros Hsys Hp Hsel Ht Hv Hn Hf Hfp He Hx [Hwf _ Hpend Hex Hi Hd].
  assert (Hmem : ∀ q, memory_for_process q s' = memory_for_process q s).
  { intros q. by rewrite !memory_for_process_system, Hsys, Hp. }
  split; try done.
  - unfold process_exists in *. split; [by rewrite Hsys|done| | |by rewrite Hx|by unfold process_exists; rewrite Hf, Hfp, Ht].
    + intros c p. rewrite Hp, Hsys. apply Hpend.
    + intros q. unfold process_exists. rewrite Hmem, Ht. apply Hex.
  - intros q a. by rewrite !process_view_system, Hsys, Hp.
  - intros q. by rewrite Hmem.
  - by rewrite Hp.
Qed.

(** *** Selecting a memory that waits in the map: a swap *)
Lemma insert_memory_new pid m s : rt_memory s !! pid = None → insert_memory pid m s = set_rt_memory (<[pid := m]> (rt_memory s)) s.
Proof. intros H. unfold insert_memory. by rewrite H. Qed.

Lemma swap_memory_spec pid s :
  rt_ok s → pid ≠ rt_selected_memory_pid s → process_exists pid s = true →
  match swap_memory_for_process pid s with
  | (Ok _, s') => unseen s s' ∧ rt_selected_memory_pid s' = pid
  | (Err e, s') => e = ESRCH ∧ s' = s ∧ rt_memory s !! pid = None
  | (Panic, _) => False
  end.
Proof.
  intros Hok Hne Hexp. pose proof Hok as [Hwf Hsel Hpend Hex Hi Hd].
  unfold swap_memory_for_process, bind, gets, lift, modify, id. simpl.
  destruct (rt_memory s !! pid) as [m|] eqn:Hm; simpl; [|done]. rewrite (selected_exists _ Hok). simpl.
  rewrite insert_memory_new by (simpl; by rewrite lookup_delete_ne).
  split; [|done]. apply same_system_unseen; try done; simpl.
  - unfold rt_system. simpl. f_equal. rewrite insert_insert_ne by done. by rewrite insert_delete_id.
  - rewrite lookup_insert_ne by done. apply lookup_delete_eq.
Qed.

(** A call that changes only the heap, and nothing that any process sees of it. *)
Lemma heap_moved_unseen p m w' s :
  rt_ok s → s_memories (rt_system s) !! p = Some m → invisible (at_heap (rt_heap s) m) w' → w_mem w' = m →
  unseen s (set_rt_heap (w_host w') s).
Proof.
  intros [Hwf Hsel Hpend Hex Hi Hd] Hm [Wf C O _] Hmem.
  destruct (GuestMemorySystem.update_process (rt_system s) p m w' Hwf Hm Wf O) as [Hwf' Hoth].
  assert (Hsys : rt_system (set_rt_heap (w_host w') s) = GuestMemorySystem.put (rt_system s) p w').
  { unfold GuestMemorySystem.put, rt_system. simpl. f_equal. rewrite Hmem. symmetry. by apply insert_id. }
  assert (Hv : ∀ q a, view_of (GuestMemorySystem.put (rt_system s) p w') q a = view_of (rt_system s) q a).
  { intros q a. destruct (decide (q = p)) as [->|]; [|by apply Hoth]. unfold view_of. simpl s_memories.
    rewrite lookup_insert_eq. change (s_memories (rt_system s)) with (<[rt_selected_memory_pid s:=rt_selected_memory s]> (rt_memory s)) in Hm. rewrite Hm. simpl. pose proof (C a) as Ca. by destruct w'. }
  assert (Hms : s_memories (GuestMemorySystem.put (rt_system s) p w') = s_memories (rt_system s)).
  { simpl. rewrite Hmem. by apply insert_id. }
  split; try done.
  - split; [by rewrite Hsys|done| |done|done|done]. rewrite Hsys, Hms. exact Hpend.
  - intros q a. rewrite !process_view_system, Hsys. unfold seen_pid. rewrite Hms. apply Hv.
Qed.

(** *** Giving a pending child its memory: a fork *)
Lemma materialize_child_spec c s :
  rt_ok s →
  match materialize_pending_fork_exec_child_memory c s with
  | (Ok _, s') => unseen s s' ∧ rt_pending_fork_exec s' = delete c (rt_pending_fork_exec s) ∧
                  rt_selected_memory_pid s' = rt_selected_memory_pid s ∧ is_Some (rt_memory s' !! c)
  | (Err e, s') => unseen s s' ∧ rt_pending_fork_exec s' = rt_pending_fork_exec s ∧
                   rt_selected_memory_pid s' = rt_selected_memory_pid s ∧
                   (rt_pending_fork_exec s !! c = None ∧ e = NotMapped ∨ resource_error e)
  | (Panic, _) => False
  end.
Proof.
  intros Hok. pose proof Hok as [Hwf Hsel Hpend Hex Hi Hd].
  assert (Hrefl : unseen s s) by (by apply unseen_refl).
  unfold materialize_pending_fork_exec_child_memory, bind, gets, lift, modify, id, on_memory_value. simpl.
  destruct (rt_pending_fork_exec s !! c) as [p|] eqn:Hp; simpl; [|by eauto 10].
  destruct (Hpend c p Hp) as [Hc [m Hm]].
  rewrite (memory_for_process_system p), Hm. simpl.
  assert (Hcsel : c ≠ rt_selected_memory_pid s).
  { intros ->. simpl in Hc. by rewrite lookup_insert_eq in Hc. }
  assert (Hcm : rt_memory s !! c = None) by (simpl in Hc; by rewrite lookup_insert_ne in Hc).
  pose proof (wp_try_clone_runtime (at_heap (rt_heap s) m) (sw_mem _ Hwf _ _ Hm)) as Hwp.
  unfold wp in Hwp. unfold at_heap in *. destruct (try_clone_runtime _) as [[child|e|] w']; simpl in *; [| |done].
  - destruct (fork_process (rt_system s) p c m child w' Hwf Hm Hc Hwp) as (Hwf' & Hoth & Hnew).
    rewrite insert_memory_new by done. rewrite ?Hcm. cbn [drop_memory_option].
    match goal with |- unseen s ?x ∧ _ => set (s' := x) end.
    assert (Hsys : rt_system s' = fork_to (rt_system s) c child w').
    { unfold rt_system, fork_to, s'. simpl. f_equal. rewrite insert_insert_ne by done. reflexivity. }
    assert (Hp' : rt_pending_fork_exec s' = delete c (rt_pending_fork_exec s)) by reflexivity.
    assert (Hmf : ∀ q, is_Some (memory_for_process q s') ↔ is_Some (memory_for_process q s)).
    { intros q. rewrite !memory_for_process_system, Hsys, Hp'. simpl. destruct (decide (q = c)) as [->|Hqc].
      { rewrite lookup_insert_eq. simpl in Hc, Hm. rewrite Hc, Hp. simpl. rewrite Hm. by split; eauto. }
      rewrite (lookup_insert_ne _ c q) by done. case_match; [done|]. rewrite lookup_delete_ne by done.
      destruct (rt_pending_fork_exec s !! q) as [p'|] eqn:Hq; [|done]. simpl.
      destruct (Hpend q p' Hq) as [_ Hsome]. simpl in Hsome.
      destruct (decide (p' = c)) as [->|]; [rewrite lookup_insert_eq; by split; eauto|by rewrite (lookup_insert_ne _ c p')]. }
    split_and!; [|done|done|simpl; rewrite lookup_insert_eq; eauto]. split; try done.
    + split; [by rewrite Hsys|simpl; by rewrite lookup_insert_ne| |by intros q; rewrite Hmf; apply Hex|done|done].
      intros c' p'. rewrite Hp'. intros [Hne Hcp]%lookup_delete_Some. rewrite Hsys. simpl. destruct (Hpend c' p' Hcp) as [Hc' Hsome].
      split; [by rewrite lookup_insert_ne|]. destruct (decide (p' = c)) as [->|]; [rewrite lookup_insert_eq; eauto|by rewrite (lookup_insert_ne _ c p')].
    + intros q a. rewrite !process_view_system, Hsys. destruct (decide (q = c)) as [->|Hqc].
      * unfold seen_pid at 1. simpl. rewrite lookup_insert_eq. rewrite Hnew. f_equal. unfold seen_pid. simpl. by rewrite Hc, Hp.
      * assert (seen_pid (fork_to (rt_system s) c child w') (rt_pending_fork_exec s') q =
                seen_pid (rt_system s) (rt_pending_fork_exec s) q) as ->.
        { unfold seen_pid. rewrite Hp'. simpl. rewrite lookup_insert_ne by done. by rewrite lookup_delete_ne. }
        apply Hoth. unfold seen_pid. destruct (s_memories (rt_system s) !! q) eqn:Hq; [done|].
        destruct (rt_pending_fork_exec s !! q) as [p'|] eqn:Hqp; [|done]. simpl. intros ->.
        destruct (Hpend q c Hqp) as [_ [x Hx]]. congruence.
    + rewrite Hp'. apply delete_subseteq.
  - destruct Hwp as (He & Hiv & Hmem). split_and!; [|done|done|by right].
    by eapply heap_moved_unseen.
Qed.

Lemma materialize_all_spec l s :
  rt_ok s → NoDup l → (∀ c, c ∈ l → is_Some (rt_pending_fork_exec s !! c)) →
  match foreach l materialize_pending_fork_exec_child_memory s with
  | (Ok _, s') => unseen s s' ∧ rt_selected_memory_pid s' = rt_selected_memory_pid s ∧
                  ∀ c, c ∈ l → rt_pending_fork_exec s' !! c = None
  | (Err e, s') => unseen s s' ∧ rt_selected_memory_pid s' = rt_selected_memory_pid s ∧ resource_error e
  | (Panic, _) => False
  end.
Proof.
  revert s. induction l as [|c l IH]; intros s Hok Hnd Hin; simpl.
  { split_and!; [by apply unseen_refl|done|]. intros c Hc. by apply elem_of_nil in Hc. }
  apply NoDup_cons in Hnd as [Hc Hnd]. unfold bind.
  pose proof (materialize_child_spec c s Hok) as H1.
  destruct (materialize_pending_fork_exec_child_memory c s) as [[[]|e|] s1]; [| |done].
  - destruct H1 as (U1 & P1 & S1 & _). assert (Hok1 := un_ok _ _ U1).
    assert (Hin1 : ∀ x, x ∈ l → is_Some (rt_pending_fork_exec s1 !! x)).
    { intros x Hx. rewrite P1, lookup_delete_ne; [apply Hin; by right|]. by intros ->. }
    specialize (IH s1 Hok1 Hnd Hin1). destruct (foreach l _ s1) as [[[]|e|] s2]; [| |done].
    + destruct IH as (U2 & S2 & P2). split_and!; [|congruence|].
      * by eapply unseen_trans.
      * intros x [->|Hx]%elem_of_cons; [|by apply P2].
        apply (lookup_weaken_None _ _ _ (eq_ind_r (λ m, m !! c = None) (lookup_delete_eq _ _) P1)), (un_pending _ _ U2).
    + destruct IH as (U2 & S2 & R2). split_and!; [|congruence|done]. by eapply unseen_trans.
  - destruct H1 as (U1 & P1 & S1 & R1). split_and!; [done..|]. destruct R1 as [[Hn _]|]; [|done].
    destruct (Hin c) as [x Hx]; [by left|]. congruence.
Qed.

Lemma pending_children_spec p s :
  NoDup (pending_children p s) ∧ ∀ c, c ∈ pending_children p s ↔ rt_pending_fork_exec s !! c = Some p.
Proof.
  unfold pending_children. split.
  - pose proof (bt_iter_NoDup (rt_pending_fork_exec s)) as Hnd. revert Hnd. generalize (bt_iter (rt_pending_fork_exec s)).
    intros l. induction l as [|[c x] l IH]; simpl; [done|]. intros [Hc Hnd]%NoDup_cons. rewrite filter_cons.
    case_decide; [|by apply IH]. simpl. constructor; [|by apply IH]. intros ([c' x'] & -> & [_ Hin]%list_elem_of_filter)%list_elem_of_fmap.
    apply Hc, list_elem_of_fmap. by exists (c', x').
  - intros c. rewrite list_elem_of_fmap. split.
    + intros ([c' x] & -> & [Hx Hin]%list_elem_of_filter). apply elem_of_bt_iter in Hin. by simpl in Hx; subst.
    + intros H. exists (c, p). split; [done|]. apply list_elem_of_filter. split; [done|]. by apply elem_of_bt_iter.
Qed.

(** Before a process runs, its pending children get their memories: none is left. *)
Lemma materialize_children_spec p s :
  rt_ok s →
  match materialize_pending_fork_exec_children false p s with
  | (Ok _, s') => unseen s s' ∧ ∀ c, rt_pending_fork_exec s' !! c ≠ Some p
  | (Err e, s') => unseen s s' ∧ resource_error e
  | (Panic, _) => False
  end.
Proof.
  intros Hok. unfold materialize_pending_fork_exec_children, bind, gets.
  destruct (pending_children_spec p s) as [Hnd Hin].
  assert (Hall : ∀ c, c ∈ pending_children p s → is_Some (rt_pending_fork_exec s !! c)) by (intros c; rewrite Hin; eauto).
  pose proof (materialize_all_spec (pending_children p s) s Hok Hnd Hall) as H.
  destruct (foreach _ _ s) as [[[]|e|] s']; [| |done]; destruct H as (U & _ & H); [|done].
  split; [done|]. intros c Hc. pose proof (lookup_weaken _ _ _ _ Hc (un_pending _ _ U)) as Hp.
  apply Hin, H in Hp. congruence.
Qed.

(** ** Selecting the memory of a process *)
Lemma select_memory_spec pid s :
  rt_ok s → process_exists pid s = true →
  match select_memory_for_process pid s with
  | (Ok _, s') => unseen s s' ∧ rt_selected_memory_pid s' = pid
  | (Err e, s') => unseen s s' ∧ (memory_for_process pid s = None ∧ e = ESRCH ∨
                                  ∃ x, resource_error x ∧ e = GuestMemory.memory_errno x)
  | (Panic, _) => False
  end.
Proof.
  intros Hok Hex. unfold select_memory_for_process, bind, gets, memory_result, has_pending_fork_exec_child.
  pose proof (materialize_child_spec pid s Hok) as H1.
  assert (Hgo : ∀ s1, unseen s s1 → (rt_pending_fork_exec s1 !! pid = None) →
    match (if pid =? rt_selected_memory_pid s1 then
             if nx_enabled (rt_native s1) && negb (is_fixed_guest (gm_host_address_mode (rt_selected_memory s1)))
             then memory_result materialize_selected_memory_at_guest_addresses else ret tt
           else if nx_enabled (rt_native s1) then select_native_memory_for_process pid
           else swap_memory_for_process pid) s1 with
    | (Ok _, s') => unseen s s' ∧ rt_selected_memory_pid s' = pid
    | (Err e, s') => unseen s s' ∧ (memory_for_process pid s = None ∧ e = ESRCH ∨
                                    ∃ x, resource_error x ∧ e = GuestMemory.memory_errno x)
    | (Panic, _) => False
    end).
  { intros s1 U Hn. rewrite (ro_interpreted _ (un_ok _ _ U)). simpl.
    destruct (Z.eqb_spec pid (rt_selected_memory_pid s1)) as [->|Hne]; [done|].
    assert (Hex1 : process_exists pid s1 = true) by (unfold process_exists; by rewrite (un_tasks _ _ U)).
    pose proof (swap_memory_spec pid s1 (un_ok _ _ U) Hne Hex1) as H2.
    destruct (swap_memory_for_process pid s1) as [[[]|e|] s2]; [| |done].
    - destruct H2 as [U2 S2]. split; [by eapply unseen_trans|done].
    - destruct H2 as (-> & -> & Hm). split; [done|]. left. split; [|done].
      apply eq_None_not_Some. intros H. apply (un_memory _ _ U) in H. revert H. unfold memory_for_process.
      rewrite (proj2 (Z.eqb_neq _ _) Hne), Hm, Hn. by intros []. }
  case_bool_decide as Hp; simpl; [|apply Hgo; [by apply unseen_refl|by apply eq_None_not_Some]].
  destruct (materialize_pending_fork_exec_child_memory pid s) as [[[]|e|] s1]; simpl; [| |done].
  - destruct H1 as (U & P & _). apply Hgo; [done|]. rewrite P. apply lookup_delete_eq.
  - destruct H1 as (U & _ & _ & [[Hn _]|R]); [destruct Hp; congruence|]. eauto.
Qed.

(** ** Selecting the context of a process *)
Record kept s s' : Prop := {
  kp_ok : rt_ok s';
  kp_view : ∀ q a, process_view s' q a = process_view s q a;
  kp_memory : ∀ q, is_Some (memory_for_process q s') ↔ is_Some (memory_for_process q s);
  kp_fds : ∀ q, fd_table_for_process q s' = fd_table_for_process q s;
  kp_open_files : fw_heap (rt_fd_world s') = fw_heap (rt_fd_world s);
  kp_sockets : rf_sockets (rt_files s') = rf_sockets (rt_files s);
  kp_tasks : rt_tasks s' = rt_tasks s;
  kp_events : rt_events s' = rt_events s;
  kp_pending : rt_pending_fork_exec s' ⊆ rt_pending_fork_exec s;
}.

Lemma kept_refl s : rt_ok s → kept s s.
Proof. intros Hs. by split. Qed.

Lemma kept_trans s1 s2 s3 : kept s1 s2 → kept s2 s3 → kept s1 s3.
Proof.
  intros [O V M D H N T E P] [O' V' M' D' H' N' T' E' P'].
  split; [done| | | |congruence|congruence|congruence|congruence|by etransitivity].
  - intros q a. by rewrite V', V.
  - intros q. by rewrite M', M.
  - intros q. by rewrite D', D.
Qed.

Lemma unseen_kept s s' : unseen s s' → kept s s'.
Proof.
  intros [O V M T [F1 F2] [D1 D2] E P]. split; [done|done|done| |unfold rt_fd_world; by rewrite F1|done..].
  intros q. unfold fd_table_for_process, rt_selected_fds_table, rt_fd_world. by rewrite F1, D1, D2.
Qed.

Lemma select_fds_spec pid s :
  rt_ok s → process_exists pid s = true →
  match select_fds_for_process pid s with
  | (Ok _, s') => kept s s' ∧ rt_selected_fds_pid s' = pid ∧ rt_selected_memory_pid s' = rt_selected_memory_pid s
  | (Err e, s') => s' = s ∧ e = ESRCH ∧ fd_table_for_process pid s = None
  | (Panic, _) => False
  end.
Proof.
  intros Hok Hexp. pose proof Hok as [Hwf Hsel Hpend Hex Hi [Hd Hdex]].
  unfold select_fds_for_process, bind, gets, lift, modify, id. simpl.
  destruct (Z.eqb_spec pid (rt_selected_fds_pid s)) as [->|Hne]; simpl; [split_and!; [by apply kept_refl|done..]|].
  destruct (rt_fds s !! pid) as [t|] eqn:Ht; simpl.
  - assert (Hdex' : ∀ s1, rt_tasks s1 = rt_tasks s → process_exists (rt_selected_fds_pid s) s1 = true).
    { intros s1 H. unfold process_exists. by rewrite H. }
    rewrite Hdex' by done. simpl. split_and!; [|done|done]. split; try done.
    + split; try done. split; [|done]. simpl. rewrite lookup_insert_ne by done. apply lookup_delete_eq.
    + intros q. unfold fd_table_for_process. simpl. destruct (Z.eqb_spec q pid) as [->|Hqp].
      * by rewrite (proj2 (Z.eqb_neq _ _) Hne), Ht.
      * destruct (Z.eqb_spec q (rt_selected_fds_pid s)) as [->|Hq]; [by rewrite lookup_insert_eq|].
        by rewrite (lookup_insert_ne _ _ q), lookup_delete_ne.
  - split_and!; [done..|]. unfold fd_table_for_process. by rewrite (proj2 (Z.eqb_neq _ _) Hne).
Qed.

Lemma sync_proc_self_spec pid s : rt_ok s → kept s (sync_proc_self pid s).
Proof.
  intros Hok. unfold sync_proc_self. destruct (k_processes (rt_tasks s) !! pid) as [process|]; [|by apply kept_refl].
  pose proof Hok as [Hwf Hsel Hpend Hex Hi Hd]. by split.
Qed.

Lemma select_context_spec pid s :
  rt_ok s → process_exists pid s = true →
  match select_process_context pid s with
  | (Ok _, s') => kept s s' ∧ rt_selected_memory_pid s' = pid ∧ rt_selected_fds_pid s' = pid
  | (Err e, s') => kept s s' ∧
      (e = ESRCH ∧ (memory_for_process pid s = None ∨ fd_table_for_process pid s = None) ∨
       ∃ x, resource_error x ∧ e = GuestMemory.memory_errno x)
  | (Panic, _) => False
  end.
Proof.
  intros Hok Hex. unfold select_process_context, bind, modify.
  pose proof (select_memory_spec pid s Hok Hex) as H1.
  destruct (select_memory_for_process pid s) as [[[]|e|] s1]; [| |done].
  2:{ destruct H1 as [U [[? ->]|H]]; (split; [by apply unseen_kept|eauto]). }
  destruct H1 as [U S1]. pose proof (unseen_kept _ _ U) as K. assert (Hok1 := kp_ok _ _ K).
  assert (Hex1 : process_exists pid s1 = true) by (unfold process_exists; by rewrite (un_tasks _ _ U)).
  pose proof (select_fds_spec pid s1 Hok1 Hex1) as H2.
  destruct (select_fds_for_process pid s1) as [[[]|e|] s2]; [| |done].
  - destruct H2 as (K2 & S2 & M2). pose proof (sync_proc_self_spec pid s2 (kp_ok _ _ K2)) as K3.
    split_and!; [by eapply kept_trans, kept_trans| |]; unfold sync_proc_self; destruct (k_processes _ !! pid); simpl; congruence.
  - destruct H2 as (-> & -> & H). split; [done|]. left. split; [done|]. right. by rewrite <- (kp_fds _ _ K).
Qed.

(** ** A call of the selected process *)
Record own_step s s' : Prop := {
  os_processes : keeps_processes (rt_tasks s) (rt_tasks s');
  os_memory : rt_memory s' = rt_memory s;
  os_pending : rt_pending_fork_exec s' = rt_pending_fork_exec s;
  os_selected : rt_selected_memory_pid s' = rt_selected_memory_pid s ∧ rt_selected_fds_pid s' = rt_selected_fds_pid s;
  os_fds : rt_fds s' = rt_fds s;
  os_native : nx_enabled (rt_native s') = nx_enabled (rt_native s);
  os_world : reshaped_by (rf_memory (rt_files s)) (rf_memory (rt_files s'));
}.

#[export] Instance own_step_preorder : PreOrder own_step.
Proof.
  split; [by intros s|]. intros s1 s2 s3 [] []. destruct os_selected0, os_selected1.
  split; try (etransitivity; eassumption). split; etransitivity; eassumption.
Qed.

(** A call that changes no descriptor. *)
Definition memory_step s s' : Prop := own_step s s' ∧ rt_selected_fds_table s' = rt_selected_fds_table s.

#[export] Instance memory_step_preorder : PreOrder memory_step.
Proof.
  split; [by intros s|]. intros s1 s2 s3 [H1 F1] [H2 F2]. split; [by etransitivity|by rewrite F2].
Qed.

(** What the other processes see is what they saw. *)
Definition others_kept (pid : Z) s s' : Prop :=
  ∀ q, q ≠ pid → (∀ a, process_view s' q a = process_view s q a) ∧ fd_table_for_process q s' = fd_table_for_process q s.

#[export] Instance others_kept_preorder pid : PreOrder (others_kept pid).
Proof.
  split; [by intros s q|]. intros s1 s2 s3 H1 H2 q Hq. destruct (H1 q Hq) as [V1 F1]. destruct (H2 q Hq) as [V2 F2].
  split; [intros a; by rewrite V2, V1|by rewrite F2, F1].
Qed.

Lemma kept_others pid s s' : kept s s' → others_kept pid s s'.
Proof. intros K q _. split; [intros a; apply K|apply K]. Qed.

Lemma own_step_others pid s s' :
  rt_ok s → rt_selected_memory_pid s = pid →
  rt_selected_fds_pid s = pid ∨ rt_selected_fds_table s' = rt_selected_fds_table s →
  (∀ c, rt_pending_fork_exec s !! c ≠ Some pid) → own_step s s' → rt_ok s' ∧ others_kept pid s s'.
Proof.
  intros [Hwf Hsel Hpend Hex Hi [Hd Hdex]] Hm Hf Hn [T M P [S1 S2] F N W].
  assert (Hpid : s_memories (rt_system s) !! pid = Some (rt_selected_memory s)).
  { simpl. rewrite Hm. apply lookup_insert_eq. }
  assert (Hw : at_heap (rt_heap s) (rt_selected_memory s) = rf_memory (rt_files s)).
  { unfold at_heap, rt_heap, rt_selected_memory. by destruct (rf_memory (rt_files s)). }
  assert (Hwf0 : world_wf (rf_memory (rt_files s))).
  { rewrite <- Hw. exact (sw_mem _ Hwf _ _ Hpid). }
  destruct (W Hwf0) as [Hwf1 Ho].
  destruct (GuestMemorySystem.update_process (rt_system s) pid _ (rf_memory (rt_files s')) Hwf Hpid Hwf1) as [Hsys Hoth].
  { change (s_heap (rt_system s)) with (rt_heap s). by rewrite Hw. }
  assert (Hs : rt_system s' = GuestMemorySystem.put (rt_system s) pid (rf_memory (rt_files s'))).
  { unfold rt_system, GuestMemorySystem.put. simpl. rewrite S1, M, Hm. f_equal. by rewrite insert_insert_eq. }
  assert (Hex' : ∀ q, process_exists q s = true → process_exists q s' = true).
  { intros q. unfold process_exists. rewrite !bool_decide_eq_true. apply T. }
  assert (Hdom : ∀ q, is_Some (s_memories (rt_system s) !! q) ↔ is_Some (s_memories (rt_system s') !! q)).
  { intros q. rewrite Hs. simpl. destruct (decide (q = pid)) as [->|Hq]; [rewrite Hm, !lookup_insert_eq; by split; eauto|].
    by rewrite (lookup_insert_ne _ pid q). }
  split.
  - split; [by rewrite Hs|by rewrite M, S1| | |by rewrite N|rewrite F, S2; auto].
    2:{ intros q Hq. apply Hex', Hex. revert Hq. rewrite !memory_for_process_system, P.
        intros Hq. destruct (s_memories (rt_system s) !! q) eqn:Hmq; [eauto|].
        destruct (s_memories (rt_system s') !! q) eqn:Hmq'; [by destruct (proj2 (Hdom q) (mk_is_Some _ _ Hmq')) as [? ?]; congruence|].
        destruct (rt_pending_fork_exec s !! q) as [p|]; [|done]. by apply Hdom. }
    intros c p. rewrite P. intros Hc. destruct (Hpend c p Hc) as [H1 H2]. split; [|by apply Hdom].
    apply eq_None_not_Some. intros H%Hdom. by apply eq_None_not_Some in H1.
  - intros q Hq. split.
    2:{ unfold fd_table_for_process. rewrite S2, F. destruct (Z.eqb_spec q (rt_selected_fds_pid s)) as [->|]; [|done].
        destruct Hf as [Hf|Hf]; [done|by rewrite Hf]. }
    intros a. rewrite !process_view_system, Hs.
    assert (seen_pid (GuestMemorySystem.put (rt_system s) pid (rf_memory (rt_files s'))) (rt_pending_fork_exec s') q =
            seen_pid (rt_system s) (rt_pending_fork_exec s) q) as ->.
    { unfold seen_pid. rewrite P. simpl. by rewrite (lookup_insert_ne _ pid q). }
    apply Hoth. unfold seen_pid. case_match; [done|]. destruct (rt_pending_fork_exec s !! q) as [p|] eqn:Hp; [|done].
    simpl. intros ->. by apply Hn in Hp.
Qed.

(** ** What a call of process [pid] may do

    [isolated pid]: the invariant stays, and so does what the other processes see. *)
Record callable (pid : Z) s : Prop := {
  ca_ok : rt_ok s;
  ca_exists : process_exists pid s = true;
  ca_no_children : ∀ c, rt_pending_fork_exec s !! c ≠ Some pid;
}.

Definition isolated (pid : Z) s s' : Prop := callable pid s → callable pid s' ∧ others_kept pid s s'.

#[export] Instance isolated_preorder pid : PreOrder (isolated pid).
Proof.
  split; [by intros s|]. intros s1 s2 s3 H1 H2 Hc. destruct (H1 Hc) as [C2 O2]. destruct (H2 C2) as [C3 O3].
  split; [done|]. by etransitivity.
Qed.

Lemma kept_isolated pid s s' : (callable pid s → kept s s') → isolated pid s s'.
Proof.
  intros H Hc. pose proof (H Hc) as K. destruct Hc as [Hok Hex Hn]. split; [|by apply kept_others]. split; [apply K| |].
  - unfold process_exists. by rewrite (kp_tasks _ _ K).
  - intros c Hcp. apply (Hn c), (lookup_weaken _ _ _ _ Hcp (kp_pending _ _ K)).
Qed.

Lemma own_isolated pid s s' :
  rt_selected_memory_pid s = pid → rt_selected_fds_pid s = pid ∨ rt_selected_fds_table s' = rt_selected_fds_table s →
  own_step s s' → isolated pid s s'.
Proof.
  intros Hm Hf Hs [Hok Hex Hn]. destruct (own_step_others pid s s' Hok Hm Hf Hn Hs) as [Hok' Ho].
  split; [|done]. split; [done| |by rewrite (os_pending _ _ Hs)].
  revert Hex. unfold process_exists. rewrite !bool_decide_eq_true. apply Hs.
Qed.

Lemma bind_after {A B} (m : SubM A) (k : A → SubM B) s :
  (bind m k s).2 = match m s with (Ok a, s1) => (k a s1).2 | (_, s1) => s1 end.
Proof. unfold bind. by destruct (m s) as [[]]. Qed.

(** A call that selects the whole context, or only the memory, of its process first. *)
Lemma select_context_isolated {B} pid (m : SubM B) :
  moves own_step m → moves (isolated pid) (do* select_process_context pid; m).
Proof.
  intros Hm s Hc. rewrite bind_after. pose proof Hc as [Hok Hex _]. pose proof (select_context_spec pid s Hok Hex) as H.
  destruct (select_process_context pid s) as [[[]|e|] s1]; [| |done].
  2:{ destruct H as [K _]. exact (kept_isolated pid s s1 (λ _, K) Hc). }
  destruct H as (K & Sm & Sf). destruct (kept_isolated pid s s1 (λ _, K) Hc) as [C1 O1].
  destruct (own_isolated pid s1 (m s1).2 Sm (or_introl Sf) (Hm s1) C1) as [C2 O2]. split; [done|]. by etransitivity.
Qed.

Lemma select_memory_isolated {B} pid (m : SubM B) :
  moves memory_step m → moves (isolated pid) (do* select_memory_for_process pid; m).
Proof.
  intros Hm s Hc. rewrite bind_after. pose proof Hc as [Hok Hex _]. pose proof (select_memory_spec pid s Hok Hex) as H.
  destruct (select_memory_for_process pid s) as [[[]|e|] s1]; [| |done].
  2:{ destruct H as [U _]. exact (kept_isolated pid s s1 (λ _, unseen_kept _ _ U) Hc). }
  destruct H as (U & Sm). destruct (kept_isolated pid s s1 (λ _, unseen_kept _ _ U) Hc) as [C1 O1].
  destruct (Hm s1) as [Hs Ht]. destruct (own_isolated pid s1 (m s1).2 Sm (or_intror Ht) Hs C1) as [C2 O2].
  split; [done|]. by etransitivity.
Qed.

Lemma answer_moves m s : (answer m s).2 = (m s).2.
Proof. unfold answer. by destruct (m s) as [[]]. Qed.

Lemma memory_result_after {A} (m : SubMemM A) s :
  memory_result m s = match m s with (Ok a, s1) => (Ok a, s1) | (Err e, s1) => (Err (GuestMemory.memory_errno e), s1) | (Panic, s1) => (Panic, s1) end.
Proof. unfold memory_result. by destruct (m s) as [[]]. Qed.

(** A call that first gives the pending children their memories. *)
Lemma call_isolated pid (call : SubM SyscallOutcome) s :
  rt_ok s → process_exists pid s = true → moves (isolated pid) call →
  let s' := (answer (do* memory_result (materialize_pending_fork_exec_children false pid); call) s).2 in
  rt_ok s' ∧ others_kept pid s s'.
Proof.
  intros Hok Hex Hc s'. subst s'. rewrite answer_moves, bind_after, memory_result_after.
  pose proof (materialize_children_spec pid s Hok) as H1.
  destruct (materialize_pending_fork_exec_children false pid s) as [[[]|e|] s1]; [| |done]; destruct H1 as [U H1].
  2:{ split; [apply U|]. by apply kept_others, unseen_kept. }
  assert (C1 : callable pid s1).
  { split; [apply U| |done]. unfold process_exists. by rewrite (un_tasks _ _ U). }
  destruct (Hc s1 C1) as [[Hok2 _ _] O2]. split; [done|]. etransitivity; [|exact O2]. by apply kept_others, unseen_kept.
Qed.

(** ** What the calls of the files move *)
Lemma on_files_moves {A} (m : RtM A) : moves (memory_moved (R := reshaped_by)) m → moves own_step (on_files m : SubM A).
Proof. intros Hm s. specialize (Hm (rt_files s)). unfold on_files. destruct (m (rt_files s)). by split. Qed.

Lemma files_call_moves m : (∀ f, memory_moved (R := reshaped_by) f (m f).2) → moves own_step (files_call m : SubM SyscallOutcome).
Proof.
  intros Hm s. specialize (Hm (rt_files s)). unfold files_call, total_call.
  destruct (m (rt_files s)) as [[o|[]|] f]; by split.
Qed.

Lemma close_resources_moves file : moves own_step (close_unshared_process_file_resources file : SubM unit).
Proof.
  assert (Hs : ∀ socket_id, moves own_step (on_files (on_sockets (close_socket socket_id)) : SubM unit)).
  { intros. apply on_files_moves, moves_sockets. }
  unfold close_unshared_process_file_resources, close_unshared_socket, close_unshared_epoll.
  repeat first [apply Hs | (intros s; by split) | moves_step].
Qed.

Lemma close_process_fd_moves fd : moves own_step (close_process_fd fd : SubM Z).
Proof.
  unfold close_process_fd. repeat first [apply close_resources_moves | (apply on_files_moves, moves_vfs) | moves_step].
Qed.

Lemma close_in_process_range_moves fd : moves own_step (close_in_process_range fd : SubM unit).
Proof.
  intros s. unfold close_in_process_range. destruct (close_with_file fd (rf_vfs (rt_files s))) as [[file|[]|] v]; try (by split).
  etransitivity; [|apply close_resources_moves]. by split.
Qed.

Lemma close_process_fd_range_moves first last flags : moves own_step (close_process_fd_range first last flags : SubM Z).
Proof. unfold close_process_fd_range. repeat first [apply close_in_process_range_moves | moves_step]. Qed.

Lemma as_outcome_moves (R : relation Runtime) m : moves R m → moves R (as_outcome m : SubM SyscallOutcome).
Proof. intros Hm s. specialize (Hm s). unfold as_outcome, total_call. destruct (m s) as [r s1]. simpl in *. by destruct (rt_outcome r) as [|[]|]. Qed.

Lemma store_moves (R : relation Runtime) {PR : PreOrder R} pid :
  moves R (store_selected_process_fds pid : SubM unit) ∧ moves R (store_selected_process_memory pid : SubM unit).
Proof using Type. unfold store_selected_process_fds, store_selected_process_memory. split; moves_steps. Qed.

Lemma store_both_moves (R : relation Runtime) {PR : PreOrder R} pid o : moves R (store_both pid o : SubM SyscallOutcome).
Proof using Type. unfold store_both. repeat first [apply (store_moves R) | moves_step]. Qed.

Lemma store_memory_moves (R : relation Runtime) {PR : PreOrder R} pid o : moves R (store_memory pid o : SubM SyscallOutcome).
Proof using Type. unfold store_memory. repeat first [apply (store_moves R) | moves_step]. Qed.

(** ** What the other calls move

    [CallSteps R]: what writes the selected memory, changes the events or moves the tasks
    without taking a process away is an [R]-step. *)
Class CallSteps (R : relation Runtime) : Prop := {
  call_preorder :: PreOrder R;
  call_memory_step : ∀ s s', memory_step s s' → R s s';
}.

#[export] Instance own_step_calls : CallSteps own_step.
Proof. split; [apply _|]. by intros s s' [H _]. Qed.
#[export] Instance memory_step_calls : CallSteps memory_step.
Proof. split; [apply _|done]. Qed.

Section steps.
Context (R : relation Runtime) {C : CallSteps R}.

Lemma reading_moves {A} (f : Reader World A) : moves R (reading f : SubM A).
Proof using C. intros s. apply call_memory_step. split; [by split|done]. Qed.

Lemma writing_moves (m : Writer World unit) : moves reshaped_by m → moves R (writing m : SubM unit).
Proof using C.
  intros Hm s. apply call_memory_step. specialize (Hm (rf_memory (rt_files s))). unfold writing, on_files, on_memory.
  destruct (m (rf_memory (rt_files s))). by split; [split|].
Qed.

Lemma change_events_moves f : moves R (change_events f : SubM unit).
Proof using C. intros s. apply call_memory_step. split; [by split|done]. Qed.

Lemma on_tasks_moves {A} (f : GuestKernel → A * GuestKernel) :
  (∀ k, keeps_processes k (f k).2) → moves R (on_tasks f : SubM A).
Proof using C.
  intros Hf s. apply call_memory_step. specialize (Hf (rt_tasks s)). unfold on_tasks. destruct (f (rt_tasks s)). by split; [split|].
Qed.

Lemma on_tasks_fallible_moves {A} (f : TaskM A) :
  (∀ k, keeps_processes k (f k).2) → moves R (on_tasks_fallible f : SubM A).
Proof using C.
  intros Hf s. apply call_memory_step. specialize (Hf (rt_tasks s)). unfold on_tasks_fallible. destruct (f (rt_tasks s)). by split; [split|].
Qed.

Lemma on_kernel_moves f : (∀ k, keeps_processes k (f k).2) → moves R (on_kernel f : SubM SyscallOutcome).
Proof using C.
  intros Hf s. apply call_memory_step. specialize (Hf (rt_tasks s)). unfold on_kernel, total_call.
  destruct (f (rt_tasks s)) as [[o|[]|] k]; by split; [split|].
Qed.

Lemma moves_on_err {A B} (m : SubM A) (c : SubM B) : moves R m → moves R c → moves R (on_err m c).
Proof using C.
  intros Hm Hc s. unfold on_err. specialize (Hm s). destruct (m s) as [[a|e|] s1]; [done| |done]. simpl in Hm.
  specialize (Hc s1). destruct (c s1) as [[b|e'|] s2]; simpl in *; by etransitivity.
Qed.

Lemma moves_traverse {A B} (l : list A) (f : A → SubM B) : (∀ x, moves R (f x)) → moves R (traverse l f).
Proof using C. intros Hf. induction l as [|x l IH]; simpl; moves_steps; done. Qed.
End steps.

End runtime.

Section writers.
Context {OS : HostOs} {OL : HostOsLaws OS}.
Lemma guest_writer_moves a bytes : moves reshaped_by (writer a bytes : Writer World unit).
Proof. apply (writer_moves (R := reshaped_by)). Qed.
Lemma guest_reading_moves {A} (f : Reader World A) : moves reshaped_by (reading_memory f).
Proof. apply (reading_memory_moves (R := reshaped_by)). Qed.
End writers.

(** One step of a call: the constructs, the memory, the events and the tasks. *)
#[export] Hint Resolve guest_writer_moves : moves.
#[export] Hint Extern 1 (moves _ (reading_memory _)) => apply guest_reading_moves : moves.
Ltac writer_steps :=
  unfold write_guest_rlimit, write_guest_sysinfo, write_guest_stack_t, write_guest_timespec,
    write_guest_timeval, write_guest_timezone_utc, write_pollfd_revents, write_select_fd_set, set_select_bit,
    write_epoll_event, write_guest_u32, write_guest_siginfo, write_guest_sigaction, write_guest_uname, write_zeroed; moves_steps.
Ltac kernel_step :=
  first [ apply keeps_sigaction | apply keeps_sigprocmask | apply keeps_sigtimedwait | apply keeps_sigsuspend
        | apply keeps_wake_futex | apply keeps_requeue | apply keeps_block_task | apply keeps_fail_futex
        | apply keeps_resume_sleep ].
Ltac call_step :=
  lazymatch goal with
  | |- moves _ (bind _ _) => apply moves_bind; [|intros ?]
  | |- moves _ (reading _) => apply (reading_moves _)
  | |- moves _ (writing _) => apply (writing_moves _); writer_steps
  | |- moves _ (change_events _) => apply (change_events_moves _)
  | |- moves _ (on_tasks _) => apply (on_tasks_moves _); intros ?; kernel_step
  | |- moves _ (on_tasks_fallible _) => apply (on_tasks_fallible_moves _); intros ?; kernel_step
  | |- moves _ (on_err _ _) => apply (moves_on_err _)
  | |- moves _ (traverse _ _) => apply (moves_traverse _); intros ?
  | |- moves _ (as_outcome _) => apply as_outcome_moves
  | |- moves _ (store_selected_process_memory _) => apply (store_moves _)
  | |- moves _ (store_selected_process_fds _) => apply (store_moves _)
  | |- moves _ (store_both _ _) => apply (store_both_moves _)
  | |- moves _ (store_memory _ _) => apply (store_memory_moves _)
  | |- moves own_step (on_files (on_sockets _)) => apply on_files_moves, moves_sockets
  | |- moves own_step (on_files (on_vfs _)) => apply on_files_moves, moves_vfs
  | |- _ => moves_step
  end.
Ltac call_steps := repeat call_step.
