(* ===== verification/RtForkExec.v ===== *)
(** * mcr-runtime: forks and execs

    What a fork and an execve do to the memories and descriptors of the processes: a fork shares
    its parent's memory until someone runs ([forked]), an execve puts a new memory in the place
    of the old one ([executed]), and what it does before that moves no memory ([quiet_step]). *)

From S2P Require Import Prelude SysAbi SyscallTable Dispatcher HostMemory GuestMemory GuestMemoryOps GuestVmas GuestMemoryInv GuestMemoryHost GuestMemorySteps GuestMemoryAccess GuestMemoryFork GuestMemorySystem GuestMemoryTheorems Bytes SysCodec SysCodecTheorems ElfParser ElfImage ElfPlan ElfLayout ImageMemory TaskTypes TaskKernel TaskWait TaskSyscalls TaskInv TaskSystem TaskTheorems VfsTypes VfsPath VfsFd VfsCache VfsSystem VfsTheorems NetTypes NetTable NetTheorems JitPatch RtSignals RtAbi RtFiles RtFileCalls RtMemory RtEvents RtNet RtProcess RtPoll RtTasks RtExec RtIsolation.
From stdpp Require Import base gmap list sorting strings.
From Stdlib Require Import ZArith Lia.
Open Scope Z_scope.

Section runtime.
Context {OS : HostOs} {OL : HostOsLaws OS} {host_fs : HostFs}.
Context {NetWorld Handle Transport BatchPoll : Type} {host_sockets : HostSockets NetWorld Handle Transport BatchPoll}.
Context {FloatingPoint : Type}.

Abbreviation Runtime := (RuntimeSubsystems (NetWorld := NetWorld) (Handle := Handle) (Transport := Transport) (FloatingPoint := FloatingPoint)).
Abbreviation SubM := (SubM (NetWorld := NetWorld) (Handle := Handle) (Transport := Transport) (FloatingPoint := FloatingPoint)).
Implicit Types s : Runtime.

(** ** Forks *)
Record forked (pid c : Z) s s' : Prop := {
  fk_ok : rt_ok s';
  fk_new : process_exists c s = false ∧ process_exists c s' = true;
  fk_child : ∀ a, process_view s' c a = process_view s pid a;
  fk_child_fds : fd_table_for_process c s' = fd_table_for_process pid s;
  fk_others : others_kept c s s';
}.

Lemma kept_forked pid c s1 s2 s3 : kept s1 s2 → forked pid c s2 s3 → forked pid c s1 s3.
Proof.
  intros K [Ok' [N1 N2] V F O]. split; [done| | | |].
  - split; [|done]. revert N1. unfold process_exists. by rewrite (kp_tasks _ _ K).
  - intros a. by rewrite V, (kp_view _ _ K).
  - by rewrite F, (kp_fds _ _ K).
  - etransitivity; [by apply kept_others|done].
Qed.

Lemma add_pending_child pid c s s' :
  rt_ok s → rt_selected_memory_pid s = pid → rt_selected_fds_pid s = pid → process_exists c s = false →
  rt_memory s' = rt_memory s → rf_memory (rt_files s') = rf_memory (rt_files s) →
  rt_selected_memory_pid s' = pid → rt_selected_fds_pid s' = pid →
  rt_pending_fork_exec s' = <[c := pid]> (rt_pending_fork_exec s) →
  rt_fds s' = <[c := rt_selected_fds_table s]> (rt_fds s) → rt_selected_fds_table s' = rt_selected_fds_table s →
  nx_enabled (rt_native s') = false → keeps_processes (rt_tasks s) (rt_tasks s') → process_exists c s' = true →
  forked pid c s s'.
Proof.
  intros Hok Hm Hf Hc Mm Mw Sm Sf P F T N K Hc'. pose proof Hok as [Hwf Hsel Hpend Hex _ [Hd Hdex]].
  assert (Hsys : rt_system s' = rt_system s).
  { unfold rt_system, rt_heap, rt_selected_memory. by rewrite Mw, Mm, Sm, Hm. }
  assert (Hnone : memory_for_process c s = None).
  { apply eq_None_not_Some. intros H%Hex. congruence. }
  assert (Hcp : c ≠ pid).
  { intros ->. pose proof (selected_exists _ Hok) as Hs. rewrite Hm in Hs. congruence. }
  assert (Hcs : s_memories (rt_system s) !! c = None).
  { rewrite memory_for_process_system in Hnone. by destruct (s_memories (rt_system s) !! c). }
  assert (Hpid : memory_for_process pid s = Some (rt_selected_memory s)).
  { unfold memory_for_process. by rewrite Hm, Z.eqb_refl. }
  assert (Hother : ∀ q, q ≠ c → memory_for_process q s' = memory_for_process q s).
  { intros q Hq. rewrite !memory_for_process_system, Hsys, P. by rewrite lookup_insert_ne. }
  assert (Hchild : memory_for_process c s' = memory_for_process pid s).
  { rewrite (memory_for_process_system c), Hsys, Hcs, P, lookup_insert_eq. simpl. rewrite Hm, lookup_insert_eq. by rewrite Hpid. }
  assert (Hheap : rt_heap s' = rt_heap s) by (unfold rt_heap; by rewrite Mw).
  assert (Hkeep : ∀ q, process_exists q s = true → process_exists q s' = true).
  { intros q. unfold process_exists. rewrite !bool_decide_eq_true. apply K. }
  split.
  - split; [by rewrite Hsys|by rewrite Mm, Sm, <- Hm| | |done|].
    + intros c' p. rewrite P, Hsys. intros [[<- <-]|[Hne Hp]]%lookup_insert_Some; [|by apply Hpend].
      split; [done|]. simpl. rewrite Hm, lookup_insert_eq. eauto.
    + intros q. destruct (decide (q = c)) as [->|Hq]; [done|]. rewrite Hother by done. intros H. by apply Hkeep, Hex.
    + rewrite F, Sf, lookup_insert_ne by done. split; [by rewrite <- Hf|]. apply Hkeep. by rewrite <- Hf.
  - done.
  - intros a. unfold process_view. by rewrite Hchild, Hheap.
  - unfold fd_table_for_process. rewrite Sf, Hf, F, (proj2 (Z.eqb_neq _ _) Hcp), Z.eqb_refl. by rewrite lookup_insert_eq.
  - intros q Hq. split; [intros a; unfold process_view; by rewrite Hother, Hheap|].
    unfold fd_table_for_process. rewrite Sf, Hf, F, T. by rewrite lookup_insert_ne.
Qed.

(** The part of the call that the kernel answers. *)
Lemma fork_outcome_spec request (args : option CloneSyscallArgs) regs s o s' :
  kernel_wf (rt_tasks s) → forks request → fork_like_outcome request args regs false s = (Ok o, s') →
  adds_process o (rt_tasks s) (rt_tasks s') ∧ s' = set_rt_tasks (rt_tasks s') s.
Proof.
  intros Hwf Hr. unfold fork_like_outcome. rewrite bool_decide_eq_false_2.
  2:{ intros Hs. unfold forks in Hr. by rewrite Hs in Hr. }
  unfold on_kernel, total_call. pose proof (forks_add request (rt_tasks s) Hwf Hr) as H.
  destruct (dispatch_for_current_task request (rt_tasks s)) as [[o'|[]|] k]; [|done]. intros [= <- <-]. done.
Qed.

Lemma fork_like_spec request s o s' c :
  rt_ok s → process_exists (rq_pid request) s = true → kernel_wf (rt_tasks s) → forks request →
  dispatch_fork_like request s = (Ok o, s') → so_result o = Success c → forked (rq_pid request) c s s'.
Proof.
  intros Hok Hex Hwf Hr H Ho. unfold dispatch_fork_like in H. set (pid := rq_pid request) in *.
  apply bind_Ok_inv in H as ([] & s1 & Hsel & H). pose proof (select_context_spec pid s Hok Hex) as Hctx. rewrite Hsel in Hctx.
  destruct Hctx as (K & Sm & Sf). eapply kept_forked; [exact K|]. pose proof (kp_ok _ _ K) as Hok1.
  rewrite <- (kp_tasks _ _ K) in Hwf. clear s K Hok Hex Hsel.
  apply bind_Ok_inv in H as (args & s2 & Hargs & H).
  assert (s2 = s1 ∧ creates_thread args = false) as [-> Hthread].
  { unfold fork_like_clone_args, forks in *. destruct (rq_syscall request); try contradiction; by injection Hargs as <- <-. }
  apply bind_Ok_inv in H as (s2 & s3 & [= <- <-] & H). apply bind_Ok_inv in H as ([] & s3 & [= <-] & H).
  rewrite (ro_interpreted _ Hok1) in H. apply bind_Ok_inv in H as (o' & s4 & Hout & H).
  apply fork_outcome_spec in Hout as [[Hkeep Hnew] Heq]; [|done..].
  destruct (so_result o') as [child|e] eqn:Ho'; [|injection H as <- <-; congruence].
  rewrite Hthread in H. unfold clone_selected_fds, bind, modify, ret in H. injection H as <- <-.
  assert (child = c) as -> by congruence. destruct Hnew as [Hfresh Hthere]. simpl in Hfresh, Hkeep.
  revert Heq Hkeep Hthere. generalize (rt_tasks s4) as k. intros k -> Hkeep Hthere.
  assert (Hc : process_exists c s1 = false) by (unfold process_exists; rewrite Hfresh; by apply bool_decide_eq_false_2; intros []).
  assert (Hc' : ∀ x : Runtime, rt_tasks x = k → process_exists c x = true) by (intros x Hx; unfold process_exists; rewrite Hx; by apply bool_decide_eq_true_2).
  pose proof (ro_interpreted _ Hok1) as Hi. simpl.
  apply (add_pending_child pid c); unfold fork_native_fp; simpl; repeat case_match; try done; by apply Hc'.
Qed.

(** ** Execve

    Until the memory is replaced, an execve moves no memory. *)
Record off_memory s s' : Prop := {
  om_own : own_step s s';
  om_world : rf_memory (rt_files s') = rf_memory (rt_files s);
}.

#[export] Instance off_memory_preorder : PreOrder off_memory.
Proof. split; [by intros s|]. intros s1 s2 s3 [O1 W1] [O2 W2]. split; [by etransitivity|congruence]. Qed.

Lemma off_memory_same s s' : off_memory s s' →
  rt_system s' = rt_system s ∧ (∀ q, memory_for_process q s' = memory_for_process q s) ∧
  ∀ q a, process_view s' q a = process_view s q a.
Proof.
  intros [[_ M P [S1 _] _ _ _] W].
  assert (Hsys : rt_system s' = rt_system s) by (unfold rt_system, rt_heap, rt_selected_memory; by rewrite W, M, S1).
  split; [done|]. split; [intros q; by rewrite !memory_for_process_system, Hsys, P|].
  intros q a. by rewrite !process_view_system, Hsys, P.
Qed.

Lemma off_memory_spec pid s s' :
  rt_ok s → rt_selected_fds_pid s = pid → off_memory s s' → rt_ok s' ∧ others_kept pid s s'.
Proof.
  intros [Hwf Hsel Hpend Hex Hi [Hd Hdex]] Hf Hoff. destruct (off_memory_same _ _ Hoff) as (Hsys & Hmem & Hview).
  destruct Hoff as [[T M P [S1 S2] F N _] _].
  assert (Hex' : ∀ q, process_exists q s = true → process_exists q s' = true).
  { intros q. unfold process_exists. rewrite !bool_decide_eq_true. apply T. }
  split.
  - split; [by rewrite Hsys|by rewrite M, S1| | |by rewrite N|rewrite F, S2; auto].
    + intros c p. rewrite P, Hsys. apply Hpend.
    + intros q. rewrite Hmem. intros H. by apply Hex', Hex.
  - intros q Hq. split; [intros a; apply Hview|]. unfold fd_table_for_process. rewrite F, S2, Hf.
    by rewrite (proj2 (Z.eqb_neq _ _) Hq).
Qed.

(** Nor does it change the tasks, but for the kernel's part of the call. *)
Definition quiet_step s s' : Prop := off_memory s s' ∧ rt_tasks s' = rt_tasks s.

#[export] Instance quiet_step_preorder : PreOrder quiet_step.
Proof. split; [by intros s|]. intros s1 s2 s3 [O1 T1] [O2 T2]. split; [by etransitivity|congruence]. Qed.

Lemma quiet_files {A} (m : RtM A) :
  moves (λ f f', rf_memory f' = rf_memory f) m → moves quiet_step (on_files m : SubM A).
Proof.
  intros Hm s. specialize (Hm (rt_files s)). unfold on_files. destruct (m (rt_files s)) as [r f]. simpl in *.
  split; [|done]. split; [|done]. split; try done. simpl. by rewrite Hm.
Qed.

Lemma quiet_vfs {A} (m : VfsM A) : moves quiet_step (on_files (on_vfs m) : SubM A).
Proof. apply quiet_files. intros f. unfold on_vfs. by destruct (m _). Qed.
Lemma quiet_sockets {A} (m : NetM A) : moves quiet_step (on_files (on_sockets m) : SubM A).
Proof. apply quiet_files. intros f. unfold on_sockets. by destruct (m _). Qed.

Lemma quiet_native f : (∀ n, nx_enabled (f n) = nx_enabled n) → moves quiet_step (set_native f : SubM unit).
Proof. intros Hf s. split; [|done]. split; [|done]. split; try done. apply Hf. Qed.

Lemma quiet_close_socket pid id : moves quiet_step (close_unshared_socket pid id : SubM unit).
Proof. unfold close_unshared_socket. moves_steps; apply quiet_sockets. Qed.
Lemma quiet_close_epoll pid id : moves quiet_step (close_unshared_epoll pid id : SubM unit).
Proof. unfold close_unshared_epoll, close_epoll. moves_steps. intros s. by split. Qed.
Lemma quiet_sync pid : moves quiet_step (modify (sync_proc_self pid) : SubM unit).
Proof. intros s. unfold modify, sync_proc_self. simpl. by destruct (k_processes _ !! pid). Qed.
Lemma quiet_reading {A} (f : Reader World A) : moves quiet_step (reading f : SubM A).
Proof. intros s. by split. Qed.
Lemma quiet_store pid : moves quiet_step (store_selected_process_fds pid : SubM unit) ∧ moves quiet_step (store_selected_process_memory pid : SubM unit).
Proof. apply (store_moves _). Qed.

(** Reading the program: only the virtual file system moves. *)
Definition same_memory (f f' : RuntimeFileSystem (M := World) (World := NetWorld) (Handle := Handle) (Transport := Transport)) : Prop :=
  rf_memory f' = rf_memory f.
#[local] Instance same_memory_preorder : PreOrder same_memory.
Proof. split; [by intros f|]. intros f1 f2 f3. unfold same_memory. congruence. Qed.

Lemma same_memory_vfs {A} (m : VfsM A) : moves same_memory (on_vfs m : RtM A).
Proof. intros f. unfold on_vfs, same_memory. by destruct (m _). Qed.
#[local] Hint Resolve same_memory_vfs : moves.

Lemma same_memory_executable turns path : moves same_memory (load_guest_executable turns path : RtM _).
Proof.
  unfold load_guest_executable. moves_steps. intros f.
  match goal with |- context [on_vfs (read_vfs_file_to_end ?t ?fd ?o)] =>
    pose proof (same_memory_vfs (read_vfs_file_to_end t fd o) f) as H1; destruct (on_vfs (read_vfs_file_to_end t fd o) f) as [rr f1];
    pose proof (same_memory_vfs (vfs_close fd) f1) as H2; destruct (on_vfs (vfs_close fd) f1) as [cr f2] end.
  unfold same_memory in *. simpl in *. destruct rr, cr; simpl; congruence.
Qed.
#[local] Hint Resolve same_memory_executable : moves.

Lemma same_memory_program turns depth filename argv envp :
  moves same_memory (load_guest_program_inner turns depth filename argv envp : RtM _).
Proof.
  revert filename argv. induction depth as [|depth IH]; intros filename argv; cbn [load_guest_program_inner]; moves_steps.
Qed.

Lemma quiet_program turns args : moves quiet_step (load_program_of turns args : SubM _).
Proof. apply quiet_files. intros f. apply same_memory_program. Qed.

(** The kernel's part. *)
Lemma exec_off_memory tid pid program s s' :
  kernel_wf (rt_tasks s) → t_pid <$> k_tasks (rt_tasks s) !! tid = Some pid →
  on_tasks_fallible (exec_task tid program) s = (Ok tt, s') →
  off_memory s s' ∧ ∃ process, k_processes (rt_tasks s') !! pid = Some process ∧ load_program program = Ok (p_image process).
Proof.
  intros Hwf Ht. unfold on_tasks_fallible. pose proof (exec_task_spec tid program (rt_tasks s) Hwf) as H.
  destruct (exec_task tid program (rt_tasks s)) as [[[]|e|] k]; [|done..]. intros [= <-].
  destruct H as (t & p & image & Ht' & Hp & Hl & Hk & _). rewrite Ht' in Ht. injection Ht as Hpid. rewrite Hpid in Hp, Hk.
  split.
  - split; [|done]. split; try done. intros q Hq. simpl. rewrite Hk, alter_lookup. case_decide; [|done]. by apply fmap_is_Some.
  - simpl. rewrite Hk, alter_lookup, decide_True, Hp by done. simpl. eauto.
Qed.

(** A program that the kernel accepts has an image that can be loaded. *)
Lemma program_loadable program image :
  load_program program = Ok image → loadable (im_vmas (gi_memory image)) (im_regions (gi_memory image)).
Proof.
  intros H. unfold load_program in H. apply obind_Ok_inv in H as (plan & Hp%map_err_Ok & H).
  apply obind_Ok_inv in H as (memory & Hm%map_err_Ok & [= <-]). cbn [gi_memory].
  set (bytes := u8s (ge_bytes (gp_executable program))) in *.
  assert (Hib : match (λ e, u8s (ge_bytes e)) <$> gp_interpreter program with Some b => Forall is_byte b | None => True end).
  { destruct (gp_interpreter program); simpl; [apply u8s_bytes|done]. }
  pose proof (safe_Ok _ _ _ (safe_parse_load_plan bytes (u8s_bytes _)) Hp) as Hplan.
  apply layout_loadable.
  - eapply safe_Ok in Hm; [|apply (safe_build_image plan bytes); [apply u8s_bytes|exact Hib|exact Hplan|done..]].
    destruct Hm as [Hi _]. apply (ig_layout _ _ _ Hi).
  - by eapply (built_image_paged plan bytes); [apply u8s_bytes|exact Hib|exact Hplan|..|exact Hm].
Qed.

Definition shows_image (pid : Z) (image : ElfImage.GuestMemoryImage) s : Prop :=
  ∀ a, process_view s pid a = image_cell (im_vmas image) (im_regions image) a.

(** The new memory in the place of the old one. *)
Lemma replace_selected_spec pid image s :
  rt_ok s → rt_selected_memory_pid s = pid → (∀ c, rt_pending_fork_exec s !! c ≠ Some pid) →
  loadable (im_vmas image) (im_regions image) →
  let (r, s') := (do* memory_result drop_selected_memory_allocations;
                  let* memory := memory_result (memory_from_process_image image) in
                  modify (put_selected_memory memory)) s in
  own_step s s' ∧ rt_tasks s' = rt_tasks s ∧ (r = Ok tt → shows_image pid image s').
Proof.
  intros Hok Hm Hn Hl. pose proof Hok as [Hwf _ _ _ Hi _].
  unfold drop_selected_memory_allocations, memory_result, memory_from_process_image, bind, modify. simpl. rewrite Hi.
  set (m := rt_selected_memory s). set (h := rt_heap s).
  assert (Hw : rf_memory (rt_files s) = at_heap h m) by (unfold h, m, rt_heap, rt_selected_memory; by destruct (rf_memory (rt_files s))).
  assert (Hw0 : world_wf (at_heap h m)) by (apply (sw_mem _ Hwf pid); simpl; rewrite Hm; apply lookup_insert_eq).
  assert (H0 : ∀ b, refs (empty_clone_layout m) b = 0) by (intros b; apply refs_empty; done).
  destruct (drop_guest_memory_spec (at_heap h m) (empty_clone_layout m) (mem_wf_allocs _ _ Hw0) H0) as [Hh Ho1].
  pose proof (from_image_spec image (drop_guest_memory m h) (empty_clone_layout m) Hh H0 Hl) as H.
  change (rt_heap (put_selected_memory (empty_clone_layout m) s)) with (drop_guest_memory m h).
  destruct (from_image image (drop_guest_memory m h)) as [[memory|e|] h']; simpl; [| |done].
  2: { destruct H as (_ & Hh' & Ho2). split; [|done]. split; try done. rewrite Hw. intros _.
       split; [|etransitivity; [exact Ho1|exact Ho2]]. apply (fresh_memory_wf h' (empty_clone_layout m)); try done.
       apply (vw_space _ _ (mw_vmas _ _ Hw0)). }
  destruct H as (Hw1 & Ho2 & Hcells). set (s' := put_selected_memory _ _).
  assert (Hw' : rf_memory (rt_files s') = at_heap h' memory).
  { unfold s', put_selected_memory. simpl. rewrite drop_empty by done. done. }
  split; [|split; [done|intros _]].
  - split; try done. rewrite Hw, Hw'. intros _. split; [exact Hw1|]. etransitivity; [exact Ho1|exact Ho2].
  - intros a. unfold process_view, memory_for_process.
    change (rt_selected_memory_pid s') with (rt_selected_memory_pid s). rewrite Hm, Z.eqb_refl. simpl.
    unfold rt_heap, rt_selected_memory. rewrite Hw'. apply Hcells.
Qed.

Lemma replace_waiting_spec pid image s :
  rt_ok s → pid ≠ rt_selected_memory_pid s → rt_memory s !! pid = None → rt_pending_fork_exec s !! pid = None →
  (∀ c, rt_pending_fork_exec s !! c ≠ Some pid) → process_exists pid s = true → loadable (im_vmas image) (im_regions image) →
  let (r, s') := (let* memory := memory_result (memory_from_process_image image) in modify (insert_memory pid memory)) s in
  rt_ok s' ∧ others_kept pid s s' ∧ rt_tasks s' = rt_tasks s ∧ rt_selected_fds_pid s' = rt_selected_fds_pid s ∧
  (r = Ok tt → shows_image pid image s').
Proof.
  intros Hok Hm Hnone Hnp Hn Hex Hl. pose proof Hok as [Hwf Hsel Hpend Hexs Hi Hfd].
  unfold memory_result, memory_from_process_image, bind, modify. simpl. rewrite Hi.
  assert (H0 : ∀ b, refs (empty_clone_layout (rt_selected_memory s)) b = 0) by (intros b; apply refs_empty; done).
  pose proof (from_image_spec image (rt_heap s) _ (sw_heap _ Hwf) H0 Hl) as H.
  destruct (from_image image (rt_heap s)) as [[memory|e|] h']; simpl; [| |done].
  2: { destruct H as (_ & Hh' & Ho).
       assert (Hsm : s_memories (rt_system s) !! rt_selected_memory_pid s = Some (rt_selected_memory s)) by apply lookup_insert_eq.
       pose proof (untouched_heap (rt_heap s) h' _ (rt_selected_memory s) H0 Hh' Ho (sw_mem _ Hwf _ _ Hsm)) as Hiv.
       pose proof (heap_moved_unseen _ _ _ _ Hok Hsm Hiv eq_refl) as U. split; [apply U|]. split; [by apply kept_others, unseen_kept|done]. }
  destruct H as (Hw1 & Ho & Hcells). unfold insert_memory. simpl. rewrite Hnone. simpl. set (s' := set_rt_memory _ _).
  assert (Hc : s_memories (rt_system s) !! pid = None) by (simpl; by rewrite lookup_insert_ne).
  destruct (add_process (rt_system s) pid _ memory h' Hwf Hc H0 Hw1 Ho) as [Hsys Hview].
  assert (Hs' : rt_system s' = {| s_heap := h'; s_memories := <[pid := memory]> (s_memories (rt_system s)) |}).
  { unfold rt_system, s'. simpl. f_equal. by rewrite insert_insert_ne. }
  rewrite <- Hs' in Hsys, Hview.
  assert (Hseen : ∀ q, q ≠ pid → seen_pid (rt_system s') (rt_pending_fork_exec s') q = seen_pid (rt_system s) (rt_pending_fork_exec s) q).
  { intros q Hq. unfold seen_pid. rewrite Hs'. simpl. by rewrite (lookup_insert_ne _ pid q). }
  assert (Hothers : others_kept pid s s').
  { intros q Hq. split; [|done]. intros a. rewrite !process_view_system, Hseen by done. apply Hview.
    unfold seen_pid. case_match; [done|]. destruct (rt_pending_fork_exec s !! q) as [p|] eqn:Hp; [|done]. simpl. intros ->. by apply Hn in Hp. }
  split_and!; [|done|done|done|intros _].
  - split; [done|simpl; by rewrite lookup_insert_ne| | |done|done].
    + intros c p Hcp. change (rt_pending_fork_exec s !! c = Some p) in Hcp. destruct (Hpend c p Hcp) as [H1 H2]. rewrite Hs'. simpl.
      assert (c ≠ pid) by (intros ->; congruence). assert (p ≠ pid) by (intros ->; by apply Hn in Hcp).
      rewrite (lookup_insert_ne _ pid c), (lookup_insert_ne _ pid p) by done. done.
    + intros q. destruct (decide (q = pid)) as [->|Hq]; [done|]. intros H. apply Hexs. revert H.
      rewrite !memory_for_process_system, Hs'. simpl. rewrite (lookup_insert_ne _ pid q) by done. case_match; [done|].
      change (rt_pending_fork_exec s') with (rt_pending_fork_exec s).
      destruct (rt_pending_fork_exec s !! q) as [p|] eqn:Hp; [|done]. simpl. rewrite (lookup_insert_ne _ pid p); [done|].
      intros <-. by apply Hn in Hp.
  - intros a. rewrite process_view_system. unfold seen_pid. rewrite Hs'. simpl. rewrite lookup_insert_eq.
    unfold view_of. simpl. rewrite lookup_insert_eq. apply Hcells.
Qed.
(** A process whose memory is about to be replaced, and what it becomes. *)
Record replaceable (pid : Z) (process : GuestProcess) s : Prop := {
  rp_ok : rt_ok s;
  rp_fds : rt_selected_fds_pid s = pid;
  rp_children : ∀ c, rt_pending_fork_exec s !! c ≠ Some pid;
  rp_pending : rt_pending_fork_exec s !! pid = None;
  rp_memory : rt_selected_memory_pid s = pid ∨ rt_memory s !! pid = None;
  rp_process : k_processes (rt_tasks s) !! pid = Some process;
}.

Record executed (pid : Z) (process : GuestProcess) s s' : Prop := {
  ex_ok : rt_ok s';
  ex_fds : rt_selected_fds_pid s' = pid;
  ex_process : k_processes (rt_tasks s') !! pid = Some process;
  ex_image : shows_image pid (gi_memory (p_image process)) s';
  ex_others : others_kept pid s s';
}.

Lemma replaceable_quiet pid process s s' : quiet_step s s' → replaceable pid process s → replaceable pid process s'.
Proof.
  intros [Ho T] [Ok F C P M K]. destruct (off_memory_spec pid s s' Ok F Ho) as [Ok' _].
  destruct Ho as [[_ Mm Pp [S1 S2] _ _ _] _]. split; [done|congruence|by rewrite Pp|by rewrite Pp|by rewrite S1, Mm|by rewrite T].
Qed.

Lemma executed_before pid process s s1 s2 :
  quiet_step s s1 → replaceable pid process s → executed pid process s1 s2 → executed pid process s s2.
Proof.
  intros [Ho T] [Ok F _ _ _ _] [E1 E2 E3 E4 E5]. split; try done. etransitivity; [|exact E5].
  apply (off_memory_spec pid s s1 Ok F Ho).
Qed.

Lemma executed_after pid process s s1 s2 : quiet_step s1 s2 → executed pid process s s1 → executed pid process s s2.
Proof.
  intros [Ho T] [E1 E2 E3 E4 E5]. destruct (off_memory_spec pid s1 s2 E1 E2 Ho) as [Ok' O].
  destruct (off_memory_same _ _ Ho) as (_ & _ & V). destruct Ho as [[_ _ _ [_ S2] _ _ _] _].
  split; [done|congruence|by rewrite T| |by etransitivity]. intros a. by rewrite V.
Qed.

Lemma quiet_patch_key pid image : moves quiet_step (set_native_image_patch_key pid image : SubM unit).
Proof. unfold set_native_image_patch_key. destruct (native_image_patch_key_and_ranges image) as [[]| |]; [by apply quiet_native..|]. apply moves_lift. Qed.

Lemma replace_memory_spec pid process s s' :
  replaceable pid process s → loadable (im_vmas (gi_memory (p_image process))) (im_regions (gi_memory (p_image process))) →
  replace_memory_from_image pid s = (Ok tt, s') → executed pid process s s'.
Proof.
  intros [Ok F C P M K] Hl H. unfold replace_memory_from_image in H. apply bind_Ok_inv in H as (x & s0 & [= <- <-] & H).
  rewrite K in H. apply bind_Ok_inv in H as (x & s0 & [= <- <-] & H). apply bind_Ok_inv in H as ([] & s1 & H1 & H).
  eapply executed_after; [exact (moves_at _ _ _ _ (quiet_patch_key _ _) H)|]. clear H. set (image := gi_memory (p_image process)) in *.
  assert (Hex : process_exists pid s = true) by (unfold process_exists; rewrite K; by apply bool_decide_eq_true_2).
  destruct (Z.eqb_spec pid (rt_selected_memory_pid s)) as [Hsel|Hne].
  - pose proof (replace_selected_spec pid image s Ok (eq_sym Hsel) C Hl) as Hr. rewrite H1 in Hr. destruct Hr as (Hown & Ht & Hi). specialize (Hi eq_refl).
    destruct (own_step_others pid s s1 Ok (eq_sym Hsel) (or_introl F) C Hown) as [Ok' O].
    split; [done| |by rewrite Ht|done|done]. rewrite <- F. apply (os_selected _ _ Hown).
  - destruct M as [M|M]; [congruence|].
    pose proof (replace_waiting_spec pid image s Ok Hne M P C Hex Hl) as Hr. rewrite H1 in Hr.
    destruct Hr as (Ok' & O & Ht & Hf & Hi). specialize (Hi eq_refl). split; [done|congruence|by rewrite Ht|done|done].
Qed.

(** One quiet step of a sequence whose end is an execution. *)
Lemma quiet_then {A B} (m : SubM A) (k : A → SubM B) pid process s r s' :
  moves quiet_step m → replaceable pid process s → bind m k s = (Ok r, s') →
  ∃ a s1, quiet_step s s1 ∧ replaceable pid process s1 ∧ k a s1 = (Ok r, s').
Proof.
  intros Hm Hs H. apply bind_Ok_inv in H as (a & s1 & H1 & H). pose proof (moves_at _ _ _ _ Hm H1) as Hq.
  exists a, s1. split; [done|]. split; [by eapply replaceable_quiet|done].
Qed.

Lemma finish_execve_spec pid tid process s s' :
  replaceable pid process s → loadable (im_vmas (gi_memory (p_image process))) (im_regions (gi_memory (p_image process))) →
  finish_execve pid tid s = (Ok tt, s') → executed pid process s s'.
Proof.
  intros Hs Hl H. unfold finish_execve in H.
  apply (quiet_then _ _ pid process) in H as (closed & s1 & Q1 & R1 & H); [|apply quiet_vfs|done].
  apply (quiet_then _ _ pid process) in H as ([] & s2 & Q2 & R2 & H); [|apply moves_foreach; intros; apply quiet_close_socket|done].
  apply (quiet_then _ _ pid process) in H as ([] & s3 & Q3 & R3 & H); [|apply moves_foreach; intros; apply quiet_close_epoll|done].
  apply (quiet_then _ _ pid process) in H as ([] & s4 & Q4 & R4 & H); [|apply quiet_sync|done].
  apply (quiet_then _ _ pid process) in H as ([] & s5 & Q5 & R5 & H); [|by apply quiet_native|done].
  apply (quiet_then _ _ pid process) in H as ([] & s6 & Q6 & R6 & H); [|intros x; by split|done].
  assert (Q : quiet_step s s6) by (repeat (etransitivity; [eassumption|]); reflexivity).
  eapply executed_before; [exact Q|done|]. apply bind_Ok_inv in H as ([] & s7 & H7 & H).
  apply (executed_after _ _ _ s7); [|by eapply replace_memory_spec].
  assert (Hm : moves quiet_step (do* set_native (λ n, set_nx_patches (delete pid (nx_patch_caches n)) (nx_image_patch_keys n) (nx_image_patch_ranges n)
        (filter (λ p : (Z * Z) * GuestLibcIntrinsic, p.1.1 ≠ pid) (nx_libc_intrinsic_patches n)) n);
      store_selected_process_fds pid : SubM unit)).
  { apply moves_bind; [by apply quiet_native|]. intros _. apply quiet_store. }
  exact (moves_at _ _ _ _ Hm H).
Qed.
(** What leads to the change of the program, from the selected descriptors on. *)
Lemma exec_part_spec request pid program s1 s2 s3 :
  rt_ok s1 → rt_selected_fds_pid s1 = pid → kernel_wf (rt_tasks s1) → t_pid <$> k_tasks (rt_tasks s1) !! rq_tid request = Some pid →
  quiet_step s1 s2 → on_tasks_fallible (exec_task (rq_tid request) program) s2 = (Ok tt, s3) →
  rt_ok s3 ∧ others_kept pid s1 s3 ∧ off_memory s1 s3 ∧
  ∃ process, k_processes (rt_tasks s3) !! pid = Some process ∧ load_program program = Ok (p_image process).
Proof.
  intros Ok F Hwf Ht [Q T] H. rewrite <- T in Hwf, Ht. destruct (exec_off_memory _ _ _ _ _ Hwf Ht H) as [O Hp].
  assert (Ho : off_memory s1 s3) by (by etransitivity). destruct (off_memory_spec pid s1 s3 Ok F Ho). done.
Qed.

Lemma executed_others pid process s s1 s' : others_kept pid s s1 → executed pid process s1 s' → executed pid process s s'.
Proof. intros O [E1 E2 E3 E4 E5]. split; try done. by etransitivity. Qed.

(** A child that is pending no more. *)
Lemma drop_pending_spec pid p s :
  rt_ok s → rt_pending_fork_exec s !! pid = Some p →
  let s' := set_rt_pending (delete pid (rt_pending_fork_exec s)) s in
  rt_ok s' ∧ others_kept pid s s' ∧ (∀ c, rt_pending_fork_exec s' !! c ≠ Some pid) ∧ rt_memory s' !! pid = None.
Proof.
  intros [Hwf Hsel Hpend Hex Hi Hfd] Hp s'. destruct (Hpend _ _ Hp) as [Hnone _].
  assert (Hmem : ∀ q, q ≠ pid → memory_for_process q s' = memory_for_process q s).
  { intros q Hq. unfold memory_for_process. simpl. by rewrite lookup_delete_ne. }
  split_and!.
  - split; try done.
    + intros c q Hc. simpl in Hc. apply lookup_delete_Some in Hc as [_ Hc]. by apply Hpend.
    + intros q. destruct (decide (q = pid)) as [->|Hq]; [|rewrite Hmem by done; apply Hex].
      rewrite memory_for_process_system. change (rt_system s') with (rt_system s). rewrite Hnone. simpl.
      rewrite lookup_delete_eq. by intros [].
  - intros q Hq. split; [|done]. intros a. unfold process_view. by rewrite Hmem.
  - intros c Hc. simpl in Hc. apply lookup_delete_Some in Hc as [_ Hc]. destruct (Hpend _ _ Hc) as [_ [m Hm]]. congruence.
  - simpl in *. apply lookup_insert_None in Hnone. apply Hnone.
Qed.

(** A step whose error is answered by giving the child its memory. *)
Lemma recovered_Ok {A B} (m : SubM A) (k : A → SubM B) (c : SubMemM unit) s b s' :
  bind (λ s, match m s with (Err e, s) => (do* memory_result c; throw e) s | r => r end) k s = (Ok b, s') →
  ∃ a s1, m s = (Ok a, s1) ∧ k a s1 = (Ok b, s').
Proof.
  intros (a & s1 & H & Hk)%bind_Ok_inv. exists a, s1. split; [|done]. cbv beta in H. destruct (m s) as [[x|e|] s0]; [done| |done].
  apply bind_Ok_inv in H as (u & s2 & _ & H). done.
Qed.

Lemma select_fds_pending pid s : rt_pending_fork_exec (select_fds_for_process pid s).2 = rt_pending_fork_exec s.
Proof.
  unfold select_fds_for_process, bind, gets, lift, modify, id. simpl. destruct (_ =? _); [done|].
  destruct (rt_fds s !! pid); simpl; [|done]. by destruct (process_exists _ _).
Qed.

(** *** What an execve reads *)
Abbreviation Files := (RuntimeFileSystem (M := World) (World := NetWorld) (Handle := Handle) (Transport := Transport)).

(** The memory and the file system that process [pid] has in [s]. *)
Record reads_from (pid : Z) s (w : World) (f : Files) : Prop := {
  rd_memory : ∀ a, cell_at w a = process_view s pid a;
  rd_tree : v_tree (rf_vfs f) = v_tree (rf_vfs (rt_files s));
  rd_rootfs : v_rootfs (rf_vfs f) = v_rootfs (rf_vfs (rt_files s));
  rd_fds : fd_table_for_process pid s = Some (fw_table (v_fds (rf_vfs f)));
  rd_open_files : fw_heap (v_fds (rf_vfs f)) = fw_heap (rt_fd_world s);
}.

(** A program started with arguments: a file with these arguments, or the interpreter that the
    first line of a file names, with the name of the file among its arguments. *)
Inductive started (envp : list (list Z)) : list Z → list (list Z) → GuestProgram → Prop :=
| started_file filename argv name program :
    guest_bytes_to_path filename = Ok name → ge_path (gp_executable program) = string_bytes name →
    gp_argv program = argv → gp_envp program = envp → started envp filename argv program
| started_script filename argv script program :
    started envp (sc_interpreter script)
      ([sc_interpreter script] ++ option_list (sc_argument script) ++ [filename] ++ drop 1 argv) program →
    started envp filename argv program.

(** The program of a call: its name, arguments and environment are in the memory of the caller
    where the call says, and its files are those of the caller's file system. *)
Definition program_of_call (turns : nat) (request : SyscallRequest) s (program : GuestProgram) : Prop :=
  ∃ w f f' filename argv envp,
    reads_from (rq_pid request) s w f ∧
    read_guest_c_bytes (arg0 (rq_args request)) w = Ok filename ∧
    read_guest_vector (arg1 (rq_args request)) w = Ok argv ∧
    read_guest_vector (arg2 (rq_args request)) w = Ok envp ∧
    load_guest_program turns filename argv envp f = (Ok program, f') ∧ started envp filename argv program.

Lemma executable_path turns path (f : Files) executable f' :
  load_guest_executable turns path f = (Ok executable, f') →
  ∃ name, guest_bytes_to_path path = Ok name ∧ ge_path executable = string_bytes name.
Proof.
  unfold load_guest_executable. intros (name & f1 & H1 & H)%bind_Ok_inv. unfold lift in H1.
  destruct (guest_bytes_to_path path) as [n| |] eqn:Hn; [|done..]. injection H1 as <- <-. exists n. split; [done|].
  apply bind_Ok_inv in H as (fd & f2 & _ & H).
  destruct (on_vfs (read_vfs_file_to_end turns fd []) f2) as [[bytes|e|] f3]; [| |done];
    destruct (on_vfs (vfs_close fd) f3) as [[[]|e'|] f4]; simpl in H; try done. by injection H as <- _.
Qed.

Lemma program_started turns depth filename argv envp (f : Files) program f' :
  load_guest_program_inner turns depth filename argv envp f = (Ok program, f') → started envp filename argv program.
Proof.
  revert filename argv f. induction depth as [|depth IH]; intros filename argv f; cbn [load_guest_program_inner];
    intros (executable & f1 & H1 & H)%bind_Ok_inv; destruct (executable_path _ _ _ _ _ H1) as (name & Hname & Hpath);
    (destruct (parse_load_plan _) as [plan|e|]; [|apply bind_Ok_inv in H as ([script|] & f2 & _ & H); try done|done]).
  all: try (by apply (started_script _ _ _ script), (IH _ _ _ H)).
  all: destruct (lp_interpreter plan) as [path|]; [|injection H as <- _; by apply (started_file _ _ _ name)].
  all: apply bind_Ok_inv in H as (interpreter & f2 & _ & H); destruct (parse_load_plan _); try done; injection H as <- _;
    by apply (started_file _ _ _ name).
Qed.

(** What comes before the call reads its arguments. *)
Definition same_names s s' : Prop :=
  v_tree (rf_vfs (rt_files s')) = v_tree (rf_vfs (rt_files s)) ∧ v_rootfs (rf_vfs (rt_files s')) = v_rootfs (rf_vfs (rt_files s)).

#[export] Instance same_names_preorder : PreOrder same_names.
Proof. split; [done|]. intros x y z [] []. split; congruence. Qed.

Lemma unseen_names s s' : unseen s s' → same_names s s'.
Proof. intros U. unfold same_names. by rewrite (proj1 (un_files _ _ U)). Qed.

Lemma select_fds_names pid : moves same_names (select_fds_for_process pid : SubM unit).
Proof.
  intros s. unfold select_fds_for_process, bind, gets, lift, modify, ret, id. simpl. destruct (_ =? _); [done|].
  destruct (rt_fds s !! pid); simpl; [|done]. by destruct (process_exists _ _).
Qed.

Lemma sync_names pid s : same_names s (sync_proc_self pid s).
Proof. unfold sync_proc_self. by destruct (k_processes _ !! pid). Qed.

Lemma select_context_names pid s :
  rt_ok s → process_exists pid s = true → same_names s (select_process_context pid s).2.
Proof.
  intros Hok Hex. unfold select_process_context, bind, modify. pose proof (select_memory_spec pid s Hok Hex) as H1.
  destruct (select_memory_for_process pid s) as [[[]|e|] s1]; [|by apply unseen_names, H1|done].
  destruct H1 as [U _]. pose proof (select_fds_names pid s1) as H2.
  assert (N : same_names s (select_fds_for_process pid s1).2) by (etransitivity; [by apply unseen_names|exact H2]).
  destruct (select_fds_for_process pid s1) as [[[]|e|] s2]; simpl in *; [|done..].
  etransitivity; [exact N|apply sync_names].
Qed.

Lemma selected_view pid s a :
  rt_selected_memory_pid s = pid → process_view s pid a = cell_at (rf_memory (rt_files s)) a.
Proof.
  intros <-. unfold process_view, memory_for_process. rewrite Z.eqb_refl. simpl.
  unfold at_heap, rt_heap, rt_selected_memory. by destruct (rf_memory (rt_files s)).
Qed.

(** A pending child sees the memory of its parent. *)
Lemma pending_view pid parent s a :
  rt_ok s → rt_pending_fork_exec s !! pid = Some parent → process_view s pid a = process_view s parent a.
Proof.
  intros Hok Hp. unfold process_view. rewrite !memory_for_process_system.
  destruct (ro_pending _ Hok _ _ Hp) as [-> [m Hm]]. rewrite Hp. simpl in *. by rewrite Hm.
Qed.

Lemma reads_from_kept pid s s2 w :
  kept s s2 → same_names s s2 → rt_selected_fds_pid s2 = pid → (∀ a, cell_at w a = process_view s2 pid a) →
  reads_from pid s w (rt_files s2).
Proof.
  intros K [N1 N2] F V. split; [intros a; by rewrite V, (kp_view _ _ K)|done|done| |apply (kp_open_files _ _ K)].
  rewrite <- (kp_fds _ _ K). unfold fd_table_for_process. by rewrite F, Z.eqb_refl.
Qed.

(** The arguments and the program, read where the call finds its process ready. *)
Lemma program_read turns request s s2 w args program s4 :
  reads_from (rq_pid request) s w (rt_files s2) → execve_args request w = Ok args →
  load_program_of turns args s2 = (Ok program, s4) → program_of_call turns request s program.
Proof.
  intros Hr Ha Hl. unfold execve_args in Ha.
  apply obind_Ok_inv in Ha as (filename & H0 & Ha). apply obind_Ok_inv in Ha as (argv & H1 & Ha).
  apply obind_Ok_inv in Ha as (envp & H2 & [= <-]). unfold load_program_of, on_files in Hl. cbn [fst snd] in Hl.
  destruct (load_guest_program turns filename argv envp (rt_files s2)) as [r f'] eqn:E. injection Hl as -> _.
  exists w, (rt_files s2), f', filename, argv, envp. split_and!; try done. by eapply program_started.
Qed.

Lemma pending_execve_spec turns request s s' :
  rt_ok s → process_exists (rq_pid request) s = true → kernel_wf (rt_tasks s) →
  t_pid <$> k_tasks (rt_tasks s) !! rq_tid request = Some (rq_pid request) →
  execve_pending_fork_exec_child turns request s = (Ok tt, s') →
  ∃ program process, program_of_call turns request s program ∧ load_program program = Ok (p_image process) ∧
    executed (rq_pid request) process s s'.
Proof.
  intros Hok Hex Hwf Ht H. unfold execve_pending_fork_exec_child in H. set (pid := rq_pid request) in *.
  apply bind_Ok_inv in H as (x & s0 & [= <- <-] & H).
  destruct (rt_pending_fork_exec s !! pid) as [parent|] eqn:Hp; [|done].
  apply bind_Ok_inv in H as (x & s0 & [= <- <-] & H). apply bind_Ok_inv in H as ([] & s1 & H1 & H).
  pose proof (select_fds_spec pid s Hok Hex) as Hs. rewrite H1 in Hs. destruct Hs as (K & F & _).
  apply bind_Ok_inv in H as ([] & s2 & H2 & H). pose proof (moves_at _ _ _ _ (quiet_sync pid) H2) as Q2.
  apply bind_Ok_inv in H as (x & s0 & [= <- <-] & H).
  apply recovered_Ok in H as (args & s3 & H3 & H). assert (s3 = s2) as -> by (by destruct (obind _ _); injection H3).
  assert (Hargs : ∃ memory, memory_for_process parent s2 = Some memory ∧
    execve_args request {| w_host := rt_heap s2; w_mem := memory |} = Ok args).
  { unfold lift in H3. destruct (memory_for_process parent s2) as [memory|]; [|done]. exists memory. split; [done|].
    by injection H3. }
  destruct Hargs as (memory & Hmemory & Hargs).
  apply recovered_Ok in H as (program & s4 & H4 & H). pose proof (moves_at _ _ _ _ (quiet_program turns args) H4) as Q4.
  apply recovered_Ok in H as ([] & s5 & H5 & H).
  rewrite <- (kp_tasks _ _ K) in Hwf, Ht.
  destruct (exec_part_spec request pid program s1 s4 s5 (kp_ok _ _ K) F Hwf Ht (transitivity Q2 Q4) H5) as (Ok5 & O5 & Off & process & Hpr & Hl).
  destruct (drop_pending_spec pid parent s5 Ok5) as (Ok6 & O6 & C6 & M6).
  { rewrite (os_pending _ _ (om_own _ _ Off)). pose proof (select_fds_pending pid s) as Hq. rewrite H1 in Hq. simpl in Hq. by rewrite Hq. }
  apply bind_Ok_inv in H as ([] & s6 & [= <-] & H). exists program, process. split; [|split; [done|]].
  { injection H2 as <-. pose proof (sync_proc_self_spec pid s1 (kp_ok _ _ K)) as K3.
    eapply program_read; [|exact Hargs|exact H4]. apply reads_from_kept; [by eapply kept_trans| | |].
    - etransitivity; [|apply sync_names]. pose proof (select_fds_names pid s) as N. by rewrite H1 in N.
    - etransitivity; [|exact F]. unfold sync_proc_self. by destruct (k_processes (rt_tasks s1) !! pid).
    - intros a. rewrite (kp_view _ _ K3), (kp_view _ _ K). fold pid. rewrite (pending_view pid parent s a Hok Hp), <- (kp_view _ _ K), <- (kp_view _ _ K3).
      unfold process_view. by rewrite Hmemory. }
  apply (executed_others _ _ _ (set_rt_pending (delete pid (rt_pending_fork_exec s5)) s5)).
  { etransitivity; [by apply kept_others|]. by etransitivity. }
  eapply finish_execve_spec; [|by eapply program_loadable|exact H]. split; [done| |done|apply lookup_delete_eq|by right|done].
  simpl. rewrite (proj2 (os_selected _ _ (om_own _ _ Off))). exact F.
Qed.

Lemma execve_spec turns request s s' :
  rt_ok s → process_exists (rq_pid request) s = true → kernel_wf (rt_tasks s) →
  t_pid <$> k_tasks (rt_tasks s) !! rq_tid request = Some (rq_pid request) →
  execve false turns request s = (Ok tt, s') →
  ∃ program process, program_of_call turns request s program ∧ load_program program = Ok (p_image process) ∧
    executed (rq_pid request) process s s'.
Proof.
  intros Hok Hex Hwf Ht H. unfold execve in H. apply bind_Ok_inv in H as (pending & s0 & [= <- <-] & H).
  unfold has_pending_fork_exec_child in H. case_bool_decide as Hp; [by apply pending_execve_spec in H|].
  set (pid := rq_pid request) in *. apply bind_Ok_inv in H as ([] & s1 & H1 & H). rewrite memory_result_after in H1.
  pose proof (materialize_children_spec pid s Hok) as Hm.
  destruct (materialize_pending_fork_exec_children false pid s) as [[[]|e|] s1']; [|done..]. injection H1 as ->. destruct Hm as [U Hn].
  apply bind_Ok_inv in H as ([] & s2 & H2 & H).
  pose proof (select_context_spec pid s1 (un_ok _ _ U) ltac:(unfold process_exists; by rewrite (un_tasks _ _ U))) as Hs.
  rewrite H2 in Hs. destruct Hs as (K & Sm & Sf). rewrite <- (un_tasks _ _ U), <- (kp_tasks _ _ K) in Hwf, Ht.
  apply bind_Ok_inv in H as (args & s3 & H3 & H).
  pose proof (moves_at _ _ _ _ (quiet_reading (execve_args request)) H3) as Q3.
  apply bind_Ok_inv in H as (program & s4 & H4 & H). pose proof (moves_at _ _ _ _ (quiet_program turns args) H4) as Q4.
  apply bind_Ok_inv in H as ([] & s5 & H5 & H).
  destruct (exec_part_spec request pid program s2 s4 s5 (kp_ok _ _ K) Sf Hwf Ht (transitivity Q3 Q4) H5) as (Ok5 & O5 & Off & process & Hpr & Hl).
  apply bind_Ok_inv in H as ([] & s6 & H6 & H). exists program, process. split; [|split; [done|]].
  { unfold reading, on_files, of_memory in H3. destruct (execve_args request (rf_memory (rt_files s2))) as [args'| |] eqn:Hargs; [|done..].
    injection H3 as -> <-. replace (set_rt_files (rt_files s2) s2) with s2 in H4 by (by destruct s2).
    eapply program_read; [|exact Hargs|exact H4].
    assert (Hex1 : process_exists pid s1 = true) by (unfold process_exists; by rewrite (un_tasks _ _ U)).
    pose proof (select_context_names pid s1 (un_ok _ _ U) Hex1) as N. rewrite H2 in N.
    apply reads_from_kept; [eapply kept_trans; [by apply unseen_kept|exact K]| |exact Sf|].
    - etransitivity; [by apply unseen_names|exact N].
    - intros a. by rewrite (selected_view pid). }
  apply (executed_others _ _ _ s5).
  { etransitivity; [by apply kept_others, unseen_kept|]. etransitivity; [by apply kept_others|done]. }
  eapply executed_after; [exact (moves_at _ _ _ _ (proj2 (quiet_store pid)) H)|].
  eapply finish_execve_spec; [|by eapply program_loadable|exact H6].
  assert (Hc : ∀ c, rt_pending_fork_exec s2 !! c ≠ Some pid) by (intros c Hc; apply (Hn c), (lookup_weaken _ _ _ _ Hc (kp_pending _ _ K))).
  assert (Hnone : rt_pending_fork_exec s2 !! pid = None).
  { apply eq_None_not_Some. intros [p Hpp]. apply Hp. exists p.
    apply (lookup_weaken _ _ _ _ Hpp). etransitivity; [apply (kp_pending _ _ K)|apply (un_pending _ _ U)]. }
  destruct (om_own _ _ Off) as [_ Mm Pp [S1 S2] _ _ _].
  split; [done|congruence|by rewrite Pp|by rewrite Pp|left; congruence|done].
Qed.

(** *** Whatever an execve returns *)
Definition stays {A} (pid : Z) s (m : SubM A) : Prop := rt_ok (m s).2 ∧ others_kept pid s (m s).2.

Lemma stays_same {A} pid s (m : SubM A) : rt_ok s → (m s).2 = s → stays pid s m.
Proof. unfold stays. by intros Hok ->. Qed.

Lemma stays_bind {A B} pid s (m : SubM A) (k : A → SubM B) :
  stays pid s m → (∀ a s1, m s = (Ok a, s1) → stays pid s1 (k a)) → stays pid s (bind m k).
Proof.
  unfold stays. intros [H1 H2] Hk. rewrite bind_after. destruct (m s) as [[a|e|] s1]; [|done..].
  destruct (Hk a s1 eq_refl) as [H3 H4]. split; [done|]. by etransitivity.
Qed.

Lemma stays_quiet {A} pid s (m : SubM A) : rt_ok s → rt_selected_fds_pid s = pid → moves quiet_step m → stays pid s m.
Proof. intros Hok F Hm. destruct (Hm s) as [Ho _]. exact (off_memory_spec pid s _ Hok F Ho). Qed.

Lemma stays_quiet_then {A B} pid process s (m : SubM A) (k : A → SubM B) :
  moves quiet_step m → replaceable pid process s → (∀ a s1, replaceable pid process s1 → stays pid s1 (k a)) →
  stays pid s (bind m k).
Proof.
  intros Hm Hs Hk. apply stays_bind; [apply stays_quiet; [apply Hs|apply Hs|done]|]. intros a s1 H1.
  apply Hk. eapply replaceable_quiet; [exact (moves_at _ _ _ _ Hm H1)|done].
Qed.

Lemma replace_stays pid process s :
  replaceable pid process s → loadable (im_vmas (gi_memory (p_image process))) (im_regions (gi_memory (p_image process))) →
  stays pid s (replace_memory_from_image pid).
Proof.
  intros Hs Hl. pose proof Hs as [Ok F C P M K]. unfold replace_memory_from_image.
  apply stays_bind; [by apply stays_same|]. intros x s0 [= <- <-]. rewrite K.
  apply stays_bind; [by apply stays_same|]. intros x s0 [= <- <-]. set (image := gi_memory (p_image process)) in *.
  assert (Hex : process_exists pid s = true) by (unfold process_exists; rewrite K; by apply bool_decide_eq_true_2).
  match goal with |- stays pid s (bind ?m _) => assert (Hrep : stays pid s m ∧ rt_selected_fds_pid (m s).2 = pid) end.
  { unfold stays. destruct (Z.eqb_spec pid (rt_selected_memory_pid s)) as [Hsel|Hne].
    - pose proof (replace_selected_spec pid image s Ok (eq_sym Hsel) C Hl) as Hr. destruct (bind _ _ s) as [r s1].
      destruct Hr as (Hown & _ & _). destruct (own_step_others pid s s1 Ok (eq_sym Hsel) (or_introl F) C Hown).
      split; [done|]. simpl. rewrite <- F. apply (os_selected _ _ Hown).
    - destruct M as [M|M]; [congruence|].
      pose proof (replace_waiting_spec pid image s Ok Hne M P C Hex Hl) as Hr. destruct (bind _ _ s) as [r s1].
      destruct Hr as (Ok' & O & _ & Hf & _). split; [done|]. simpl. congruence. }
  destruct Hrep as [Hrep Hf]. apply stays_bind; [exact Hrep|]. intros [] s1 H1. unfold stays in Hrep. rewrite H1 in Hrep, Hf.
  apply stays_quiet; [apply Hrep|exact Hf|apply quiet_patch_key].
Qed.

Lemma finish_stays pid tid process s :
  replaceable pid process s → loadable (im_vmas (gi_memory (p_image process))) (im_regions (gi_memory (p_image process))) →
  stays pid s (finish_execve pid tid).
Proof.
  intros Hs Hl. unfold finish_execve.
  apply (stays_quiet_then _ process); [apply quiet_vfs|done|]. intros closed s1 R1.
  apply (stays_quiet_then _ process); [apply moves_foreach; intros; apply quiet_close_socket|done|]. intros [] s2 R2.
  apply (stays_quiet_then _ process); [apply moves_foreach; intros; apply quiet_close_epoll|done|]. intros [] s3 R3.
  apply (stays_quiet_then _ process); [apply quiet_sync|done|]. intros [] s4 R4.
  apply (stays_quiet_then _ process); [by apply quiet_native|done|]. intros [] s5 R5.
  apply (stays_quiet_then _ process); [intros x; by split|done|]. intros [] s6 R6.
  apply stays_bind; [by eapply replace_stays|]. intros [] s7 H7. pose proof (replace_memory_spec _ _ _ _ R6 Hl H7) as [E1 E2 _ _ _].
  apply stays_quiet; [done|done|]. apply moves_bind; [by apply quiet_native|]. intros _. apply quiet_store.
Qed.

(** The kernel accepts the program, or nothing happens. *)
Lemma exec_stays request pid program s :
  rt_ok s → rt_selected_fds_pid s = pid → kernel_wf (rt_tasks s) → t_pid <$> k_tasks (rt_tasks s) !! rq_tid request = Some pid →
  stays pid s (on_tasks_fallible (exec_task (rq_tid request) program)).
Proof.
  intros Ok F Hwf Ht. unfold stays. destruct (on_tasks_fallible _ s) as [[[]|e|] s1] eqn:H; simpl.
  - apply (off_memory_spec pid s s1 Ok F). by eapply exec_off_memory.
  - unfold on_tasks_fallible in H. pose proof (exec_task_spec (rq_tid request) program (rt_tasks s) Hwf) as Hs.
    destruct (exec_task _ _ _) as [[[]|e'|] k]; [done| |done]. injection H as _ <-. subst k. by destruct s.
  - unfold on_tasks_fallible in H. pose proof (exec_task_spec (rq_tid request) program (rt_tasks s) Hwf) as Hs.
    by destruct (exec_task _ _ _) as [[[]|e'|] k].
Qed.
Lemma stays_recovered {A} pid s (m : SubM A) :
  stays pid s m →
  stays pid s (λ s, match m s with
                    | (Err e, s) => (do* memory_result (materialize_pending_fork_exec_child_memory pid); throw e) s
                    | r => r end).
Proof.
  unfold stays. destruct (m s) as [[a|e|] s1]; [done| |done]. intros [Ok1 O1]. simpl in *.
  rewrite bind_after, memory_result_after. pose proof (materialize_child_spec pid s1 Ok1) as H.
  assert (U : unseen s1 (materialize_pending_fork_exec_child_memory pid s1).2).
  { destruct (materialize_pending_fork_exec_child_memory pid s1) as [[[]|e'|] s2]; [apply H|apply H|done]. }
  destruct (materialize_pending_fork_exec_child_memory pid s1) as [[[]|e'|] s2]; simpl in *;
    (split; [apply U|etransitivity; [exact O1|by apply kept_others, unseen_kept]]).
Qed.

Lemma recovered_state {A} (m : SubM A) (c : SubMemM unit) s a s1 :
  match m s with (Err e, s) => (do* memory_result c; throw e) s | r => r end = (Ok a, s1) → m s = (Ok a, s1).
Proof. destruct (m s) as [[x|e|] s0]; [done| |done]. by intros (u & s2 & _ & H)%bind_Ok_inv. Qed.

(** The task that calls. *)
Record calling (request : SyscallRequest) s : Prop := {
  cl_ok : rt_ok s;
  cl_fds : rt_selected_fds_pid s = rq_pid request;
  cl_wf : kernel_wf (rt_tasks s);
  cl_task : t_pid <$> k_tasks (rt_tasks s) !! rq_tid request = Some (rq_pid request);
}.

Lemma calling_quiet request s s' : quiet_step s s' → calling request s → calling request s'.
Proof.
  intros [Q T] [Ok F W K]. destruct (off_memory_spec _ _ _ Ok F Q) as [Ok' _].
  destruct Q as [[_ _ _ [_ S2] _ _ _] _]. split; [done|congruence|by rewrite T|by rewrite T].
Qed.

Lemma calling_exec request program s s' :
  calling request s → on_tasks_fallible (exec_task (rq_tid request) program) s = (Ok tt, s') →
  rt_ok s' ∧ off_memory s s' ∧ rt_selected_fds_pid s' = rq_pid request ∧
  ∃ process, k_processes (rt_tasks s') !! rq_pid request = Some process ∧ load_program program = Ok (p_image process).
Proof.
  intros [Ok F W K] H. destruct (exec_off_memory _ _ _ _ _ W K H) as [Off Hp].
  destruct (off_memory_spec _ _ _ Ok F Off) as [Ok' _]. split_and!; [done|done| |done].
  rewrite (proj2 (os_selected _ _ (om_own _ _ Off))). exact F.
Qed.

Lemma pending_execve_stays turns request s :
  rt_ok s → process_exists (rq_pid request) s = true → kernel_wf (rt_tasks s) →
  t_pid <$> k_tasks (rt_tasks s) !! rq_tid request = Some (rq_pid request) →
  stays (rq_pid request) s (execve_pending_fork_exec_child turns request).
Proof.
  intros Hok Hex Hwf Ht. unfold execve_pending_fork_exec_child. set (pid := rq_pid request) in *.
  apply stays_bind; [by apply stays_same|]. intros x s0 [= <- <-].
  destruct (rt_pending_fork_exec s !! pid) as [parent|] eqn:Hp; [|by apply stays_same].
  apply stays_bind; [by apply stays_same|]. intros x s0 [= <- <-].
  pose proof (select_fds_spec pid s Hok Hex) as Hs. pose proof (select_fds_pending pid s) as Hps.
  apply stays_bind.
  { unfold stays. destruct (select_fds_for_process pid s) as [[[]|e|] s1]; [|by destruct Hs as (-> & _)|done].
    destruct Hs as (K & _). split; [apply K|by apply kept_others]. }
  intros [] s1 H1. rewrite H1 in Hs, Hps. destruct Hs as (K & F & _). simpl in Hps.
  assert (C1 : calling request s1) by (split; [apply K|done|by rewrite (kp_tasks _ _ K)..]). rewrite <- Hps in Hp. clear s Hok Hex Hwf Ht K Hps H1.
  apply stays_bind; [apply stays_quiet; [apply C1|done|apply quiet_sync]|]. intros [] s2 H2.
  pose proof (moves_at _ _ _ _ (quiet_sync pid) H2) as Q2. pose proof (calling_quiet _ _ _ Q2 C1) as C2.
  apply stays_bind; [apply stays_same; [apply C2|done]|]. intros x s0 [= <- <-].
  apply stays_bind; [apply stays_recovered, stays_same; [apply C2|done]|].
  intros args s3 H3. apply recovered_state in H3. injection H3 as _ <-.
  apply stays_bind; [apply stays_recovered, stays_quiet; [apply C2|apply C2|apply quiet_program]|].
  intros program s4 H4. apply recovered_state in H4. pose proof (moves_at _ _ _ _ (quiet_program turns args) H4) as Q4.
  pose proof (calling_quiet _ _ _ Q4 C2) as C4.
  apply stays_bind; [apply stays_recovered, exec_stays; apply C4|]. intros [] s5 H5. apply recovered_state in H5.
  destruct (calling_exec _ _ _ _ C4 H5) as (Ok5 & Off & F5 & process & Hpr & Hl).
  assert (Hp5 : rt_pending_fork_exec s5 !! pid = Some parent).
  { rewrite (os_pending _ _ (om_own _ _ Off)), (os_pending _ _ (om_own _ _ (proj1 Q4))), (os_pending _ _ (om_own _ _ (proj1 Q2))). exact Hp. }
  destruct (drop_pending_spec pid parent s5 Ok5 Hp5) as (Ok6 & O6 & C6 & M6).
  apply stays_bind; [by split|]. intros [] s6 [= <-].
  apply (finish_stays _ _ process); [|by eapply program_loadable].
  split; [done|exact F5|done|apply lookup_delete_eq|by right|done].
Qed.
Lemma execve_stays turns request s :
  rt_ok s → process_exists (rq_pid request) s = true → kernel_wf (rt_tasks s) →
  t_pid <$> k_tasks (rt_tasks s) !! rq_tid request = Some (rq_pid request) →
  stays (rq_pid request) s (execve false turns request).
Proof.
  intros Hok Hex Hwf Ht. unfold execve. apply stays_bind; [by apply stays_same|]. intros x s0 [= <- <-].
  unfold has_pending_fork_exec_child. case_bool_decide as Hp; [by apply pending_execve_stays|].
  set (pid := rq_pid request) in *. pose proof (materialize_children_spec pid s Hok) as Hm.
  apply stays_bind.
  { unfold stays. rewrite memory_result_after. destruct (materialize_pending_fork_exec_children false pid s) as [[[]|e|] s1]; [| |done];
      destruct Hm as [U _]; (split; [apply U|by apply kept_others, unseen_kept]). }
  intros [] s1 H1. rewrite memory_result_after in H1.
  destruct (materialize_pending_fork_exec_children false pid s) as [[[]|e|] s1']; [|done..]. injection H1 as ->. destruct Hm as [U Hn].
  pose proof (select_context_spec pid s1 (un_ok _ _ U) ltac:(unfold process_exists; by rewrite (un_tasks _ _ U))) as Hs.
  apply stays_bind.
  { unfold stays. destruct (select_process_context pid s1) as [[[]|e|] s2]; [| |done];
      (split; [apply Hs|apply kept_others, Hs]). }
  intros [] s2 H2. rewrite H2 in Hs. destruct Hs as (K & Sm & Sf).
  assert (C2 : calling request s2).
  { split; [apply K|done|by rewrite (kp_tasks _ _ K), (un_tasks _ _ U)..]. }
  apply stays_bind; [apply stays_quiet; [apply C2|done|apply quiet_reading]|]. intros args s3 H3.
  pose proof (moves_at _ _ _ _ (quiet_reading (execve_args request)) H3) as Q3. pose proof (calling_quiet _ _ _ Q3 C2) as C3.
  apply stays_bind; [apply stays_quiet; [apply C3|apply C3|apply quiet_program]|]. intros program s4 H4.
  pose proof (moves_at _ _ _ _ (quiet_program turns args) H4) as Q4. pose proof (calling_quiet _ _ _ Q4 C3) as C4.
  apply stays_bind; [apply exec_stays; apply C4|]. intros [] s5 H5.
  destruct (calling_exec _ _ _ _ C4 H5) as (Ok5 & Off & F5 & process & Hpr & Hl).
  assert (R5 : replaceable pid process s5).
  { destruct (om_own _ _ (transitivity (proj1 Q3) (transitivity (proj1 Q4) Off))) as [_ Mm Pp [S1 S2] _ _ _].
    assert (Hc : ∀ c, rt_pending_fork_exec s2 !! c ≠ Some pid) by (intros c Hc; apply (Hn c), (lookup_weaken _ _ _ _ Hc (kp_pending _ _ K))).
    split; [done|done|by rewrite Pp| |left; congruence|done].
    rewrite Pp. apply eq_None_not_Some. intros [p Hpp]. apply Hp. exists p.
    apply (lookup_weaken _ _ _ _ Hpp). etransitivity; [apply (kp_pending _ _ K)|apply (un_pending _ _ U)]. }
  apply stays_bind; [by eapply finish_stays; [|eapply program_loadable]|]. intros [] s6 H6.
  pose proof (finish_execve_spec _ _ _ _ _ R5 (program_loadable _ _ Hl) H6) as [E1 E2 _ _ _].
  apply stays_quiet; [done|done|apply quiet_store].
Qed.
End runtime.
