(* ===== verification/RtMmap.v ===== *)
(** * mcr-runtime: memory calls

    The dispatch of memory calls and the mappings of files (subsystems/memory.rs): a mapping of a
    file is an anonymous one that the bytes of the file are written into.  With it, what it reads
    of ELF files: the views of mcr-elf (view.rs), by which the tail of a segment is zeroed, and
    the symbols of libc functions that native execution intercepts (native_patch.rs).  Then the
    lemmas: what a mapping holds of a file ([shows_file]), what the pages show of it
    ([maps_bytes]), and that unmapping and protecting leave other processes alone. *)

From S2P Require Import Prelude SysAbi SyscallTable Dispatcher HostMemory GuestMemory GuestMemoryOps GuestVmas GuestMemoryInv GuestMemoryHost GuestMemorySteps GuestMemoryAccess GuestMemoryMmap GuestMemoryFork GuestMemorySystem GuestMemoryTheorems Bytes SysCodec ElfParser TaskTypes TaskKernel TaskWait TaskSystem VfsTypes VfsPath VfsTree VfsFd VfsFdOps VfsFdWf VfsCache VfsSystem VfsResolve VfsOk VfsLinks VfsTheorems NetTypes NetTable JitPatch RtAbi RtFiles RtFileCalls RtMemory RtEvents RtProcess RtPoll RtTasks RtExec RtIsolation RtForkExec.
From stdpp Require Import base gmap list strings.
From Stdlib Require Import ZArith Lia.
Open Scope Z_scope.

Definition EFBIG : Z := 27.
Definition MAX_SYMBOL_SCAN_BYTES : Z := 128 * 1024 * 1024.
Definition DEFAULT_LIBC_STRLEN_MAX : Z := 1024 * 1024.

(** ** Views of ELF files (mcr-elf view.rs) *)
Definition ELF64_PROGRAM_HEADER_MIN_VIEW_SIZE : Z := 56.
Definition ELF64_PROGRAM_HEADER_MAX_VIEW_SIZE : Z := 4096.
Definition ELF64_PROGRAM_HEADER_MAX_VIEW_COUNT : Z := 1024.

Record Elf64ProgramHeaderTableView : Type := { tv_file_offset : Z; tv_entry_size : Z; tv_entry_count : Z }.
Record Elf64ProgramHeaderView : Type := { hv_kind : Z; hv_offset : Z; hv_file_size : Z; hv_memory_size : Z }.

(** A word of [n] bytes at an offset, when it is there. *)
Definition elf_word (n : Z) (bytes : list Z) (offset : Z) : option Z :=
  e ← checked_add64 offset n; le_value <$> slice bytes offset e.
Definition elf_u16 : list Z → Z → option Z := elf_word 2.
Definition elf_u32 : list Z → Z → option Z := elf_word 4.
Definition elf_u64 : list Z → Z → option Z := elf_word 8.

Definition is_load (h : Elf64ProgramHeaderView) : bool := hv_kind h =? PT_LOAD.

Definition elf64_program_header_table_view (header : list Z) : option Elf64ProgramHeaderTableView :=
  if zlen header <? ELF64_HEADER_SIZE then None else
  if negb (bool_decide (slice header 0 4 = Some ELF_MAGIC)) ||
     negb (bool_decide (byte_at header EI_CLASS = Some ELFCLASS64)) ||
     negb (bool_decide (byte_at header EI_DATA = Some ELFDATA2LSB)) then None else
  entry_size ← elf_u16 header 54;
  entry_count ← elf_u16 header 56;
  file_offset ← elf_u64 header 32;
  if (entry_size <? ELF64_PROGRAM_HEADER_MIN_VIEW_SIZE) || (ELF64_PROGRAM_HEADER_MAX_VIEW_SIZE <? entry_size) ||
     (ELF64_PROGRAM_HEADER_MAX_VIEW_COUNT <? entry_count) then None else
  Some {| tv_file_offset := file_offset; tv_entry_size := entry_size; tv_entry_count := entry_count |}.

Definition elf64_program_header_entry_view (entry : list Z) : option Elf64ProgramHeaderView :=
  if zlen entry <? ELF64_PROGRAM_HEADER_MIN_VIEW_SIZE then None else
  kind ← elf_u32 entry 0;
  offset ← elf_u64 entry 8;
  file_size ← elf_u64 entry 32;
  memory_size ← elf_u64 entry 40;
  Some {| hv_kind := kind; hv_offset := offset; hv_file_size := file_size; hv_memory_size := memory_size |}.

Definition elf64_program_header_views (bytes : list Z) : option (list Elf64ProgramHeaderView) :=
  table ← elf64_program_header_table_view bytes;
  end_ ← checked_add64 (tv_file_offset table) (tv_entry_size table * tv_entry_count table);
  if zlen bytes <? end_ then None else
  mapM (λ index,
      let entry_start := tv_file_offset table + Z.of_nat index * tv_entry_size table in
      entry ← slice bytes entry_start (entry_start + tv_entry_size table);
      elf64_program_header_entry_view entry)
    (seq 0 (Z.to_nat (tv_entry_count table))).

(** ** Files as mappings see them (mcr-vfs filesystem.rs) *)

(** [HostFile::map_readonly_at] of the host. *)
Class HostMapping : Type := { host_map_readonly_at : HostPath → Z → Z → outcome (list Z) HostErrorKind }.

Section files.
Context {host_fs : HostFs} {host_mapping : HostMapping}.

Definition regular_file_cache_key (fd : Z) : VfsM (option (Z * Z)) :=
  let* entry := on_fds (get fd) in
  let* d := on_fds (description entry) in
  if negb (can_read (fd_flags d)) then throw BadFd else
  match fr_kind (en_file entry) with
  | KRegular =>
      let* v := gets id in
      let inode := inode_id_of entry in
      match lookup_inode (v_tree v) inode with
      | None => ret None
      | Some node =>
          if negb (is_file_kind (pn_kind node)) then ret None
          else ret (Some (inode, key_generation inode (v_cache v)))
      end
  | _ => ret None
  end.

Definition map_readonly_regular_file_at (fd offset len : Z) : VfsM (option (list Z)) :=
  if len =? 0 then ret None else
  let* entry := on_fds (get fd) in
  let* d := on_fds (description entry) in
  if negb (can_read (fd_flags d)) then throw BadFd else
  match fr_kind (en_file entry) with
  | KRegular =>
      let* v := gets id in
      match lookup_inode (v_tree v) (inode_id_of entry) with
      | None => ret None
      | Some node =>
          if negb (is_file_kind (pn_kind node)) then ret None else
          match pn_deferred_host_path node with
          | None => ret None
          | Some path =>
              match checked_sub64 (at_size (pn_attr node)) offset with
              | None => ret None
              | Some available =>
                  let map_len := Z.min len available in
                  if map_len =? 0 then ret None else
                  let* file := cached_host_read_handle (inode_id_of entry) path in
                  match host_map_readonly_at file offset map_len with
                  | Ok mapping => ret (Some mapping)
                  | Err (HostInvalidInput | HostUnsupported) => ret None
                  | Err error => throw (vfs_error_from_host error)
                  | Panic => lift Panic
                  end
              end
          end
      end
  | _ => ret None
  end.

(** [pread(..).ok()] *)
Definition pread_ok (fd offset len : Z) : VfsM (option (list Z)) :=
  λ v, match pread fd offset len v with
       | (Ok bytes, v) => (Ok (Some bytes), v)
       | (Err _, v) => (Ok None, v)
       | (Panic, v) => (Panic, v)
       end.

(** ** The tail of a load segment (lib.rs) *)
Fixpoint read_headers_loop (entries : nat) (index : Z) (fd : Z) (table : Elf64ProgramHeaderTableView)
    (headers : list Elf64ProgramHeaderView) : VfsM (option (list Elf64ProgramHeaderView)) :=
  match entries with
  | O => ret (Some headers)
  | S entries =>
      match checked_add64 (tv_file_offset table) (index * tv_entry_size table) with
      | None => ret None
      | Some entry_offset =>
          let* bytes := pread_ok fd entry_offset (tv_entry_size table) in
          match bytes with
          | None => ret None
          | Some bytes =>
              if zlen bytes <? ELF64_PROGRAM_HEADER_MIN_VIEW_SIZE then ret None else
              match elf64_program_header_entry_view bytes with
              | None => ret None
              | Some header => read_headers_loop entries (index + 1) fd table (headers ++ [header])
              end
          end
      end
  end.

Definition read_elf64_program_headers (fd : Z) : VfsM (option (list Elf64ProgramHeaderView)) :=
  let* header := pread_ok fd 0 ELF64_HEADER_SIZE in
  match header with
  | None => ret None
  | Some header =>
      if zlen header <? ELF64_HEADER_SIZE then ret None else
      match elf64_program_header_table_view header with
      | None => ret None
      | Some table => read_headers_loop (Z.to_nat (tv_entry_count table)) 0 fd table []
      end
  end.

(** What lies in a mapping of a segment behind the end of its bytes in the file. *)
Definition zero_segment_tail (mapped_offset mapped_end : Z) (bytes : list Z) (header : Elf64ProgramHeaderView) : list Z :=
  if negb (is_load header) || (hv_memory_size header <=? hv_file_size header) then bytes else
  match checked_add64 (hv_offset header) (hv_file_size header), checked_add64 (hv_offset header) (hv_memory_size header) with
  | Some tail_start, Some tail_end =>
      let overlap_start := Z.max tail_start mapped_offset in
      let overlap_end := Z.min tail_end mapped_end in
      if overlap_end <=? overlap_start then bytes
      else splice bytes (overlap_start - mapped_offset) (zero_vec (overlap_end - overlap_start))
  | _, _ => bytes
  end.

Definition zero_elf_load_bss_tail (fd mapped_offset : Z) (bytes : list Z) : VfsM (list Z) :=
  if bool_decide (bytes = []) then ret bytes else
  let* headers := read_elf64_program_headers fd in
  match headers, checked_add64 mapped_offset (zlen bytes) with
  | Some headers, Some mapped_end => ret (foldl (zero_segment_tail mapped_offset mapped_end) bytes headers)
  | _, _ => ret bytes
  end.

(** ** The bytes of a mapping (memory.rs) *)
Definition read_file_backed_mmap_bytes (fd offset len : Z) : VfsM (list Z) :=
  let* mapping := map_readonly_regular_file_at fd offset len in
  match mapping with
  | Some mapping => zero_elf_load_bss_tail fd offset mapping
  | None =>
      let* bytes := pread fd offset len in
      zero_elf_load_bss_tail fd offset bytes
  end.

Definition file_backed_mmap_cache_key (fd offset len prot flags : Z) : VfsM (option FileBackedMappingCacheKey) :=
  if has_bits prot LINUX_PROT_WRITE || negb (has_bits flags LINUX_MAP_PRIVATE) then ret None else
  let* file := regular_file_cache_key fd in
  match file with
  | None => ret None
  | Some file => ret (Some (file, offset, len))
  end.

Definition read_regular_file_for_symbol_scan (fd : Z) : ST Vfs LinuxErrno (list Z) :=
  let vfs {A} (m : VfsM A) : ST Vfs LinuxErrno A := λ v, let (r, v) := m v in (map_err vfs_errno r, v) in
  let* attr := vfs (fstat fd) in
  if MAX_SYMBOL_SCAN_BYTES <? at_size attr then throw EFBIG else
  vfs (pread fd 0 (at_size attr)).
End files.

(** The cache of the bytes of read-only mappings. *)
Definition cache_lookup (key : FileBackedMappingCacheKey) (c : FileBackedMappingCache) : option (list Z) * FileBackedMappingCache :=
  match mc_entries c !! key with
  | None => (None, c)
  | Some bytes => (Some bytes, {| mc_entries := mc_entries c; mc_hits := mc_hits c + 1; mc_misses := mc_misses c |})
  end.
Definition record_miss (c : FileBackedMappingCache) : FileBackedMappingCache :=
  {| mc_entries := mc_entries c; mc_hits := mc_hits c; mc_misses := mc_misses c + 1 |}.
Definition cache_insert (key : FileBackedMappingCacheKey) (bytes : list Z) (c : FileBackedMappingCache) : FileBackedMappingCache :=
  {| mc_entries := <[key := bytes]> (filter (λ e : FileBackedMappingCacheKey * list Z, e.1.1.1.2 = key.1.1.2) (mc_entries c));
     mc_hits := mc_hits c; mc_misses := mc_misses c |}.

(** ** The symbols of libc functions (native_patch.rs) *)
Record ElfSectionHeader : Type := { sh_type : Z; sh_offset : Z; sh_size : Z; sh_link : Z; sh_entry_size : Z }.
Record ElfLoadHeader : Type := { lh_file_offset : Z; lh_virtual_address : Z; lh_file_size : Z; lh_memory_size : Z }.

Definition ELF64_MACHINE_X86_64 : Z := 62.
Definition ELF64_SHT_DYNSYM : Z := 11.
Definition ELF64_STT_FUNC : Z := 2.
Definition ELF64_STT_GNU_IFUNC : Z := 10.
Definition ELF64_SYMBOL_SIZE : Z := 24.

Definition from_symbol_name (symbol : list Z) : option GuestLibcIntrinsic :=
  let name := (split_at (λ b, b =? 0x40) symbol).1 in
  if bool_decide (name = string_bytes "memcpy") then Some Memcpy else
  if bool_decide (name = string_bytes "memmove") then Some Memmove else
  if bool_decide (name = string_bytes "memset") then Some Memset else
  if bool_decide (name = string_bytes "memchr") then Some Memchr else
  if bool_decide (name = string_bytes "memcmp") then Some Memcmp else
  if bool_decide (name = string_bytes "strlen") then Some (Strlen DEFAULT_LIBC_STRLEN_MAX) else None.

Definition validate_elf64_header (bytes : list Z) : option unit :=
  magic ← slice bytes 0 4;
  class ← byte_at bytes 4;
  data ← byte_at bytes 5;
  machine ← elf_u16 bytes 18;
  if bool_decide (magic = ELF_MAGIC) && (class =? ELFCLASS64) && (data =? ELFDATA2LSB) && (machine =? ELF64_MACHINE_X86_64)
  then Some tt else None.

Definition elf_range (bytes : list Z) (offset len : Z) : option (list Z) :=
  e ← checked_add64 offset len; slice bytes offset e.

(** The name up to its null byte. *)
Definition elf_cstr (bytes : list Z) (offset : Z) : option (list Z) :=
  tail ← slice bytes offset (zlen bytes);
  let '(name, rest) := split_at (λ b, b =? 0) tail in
  match rest with
  | [] => None
  | _ => if utf8_valid name then Some name else None
  end.

(** The entry of a table at an index, in a file. *)
Definition table_entry (bytes : list Z) (table_offset entry_size index : Z) : option (list Z) :=
  offset ← checked_add64 table_offset (index * entry_size);
  elf_range bytes offset entry_size.

Definition elf_section_headers (bytes : list Z) : option (list ElfSectionHeader) :=
  _ ← validate_elf64_header bytes;
  section_offset ← elf_u64 bytes 40;
  section_entry_size ← elf_u16 bytes 58;
  section_count ← elf_u16 bytes 60;
  if section_entry_size <? 64 then None else
  mapM (λ index,
      section ← table_entry bytes section_offset section_entry_size (Z.of_nat index);
      section_type ← elf_u32 section 4;
      offset ← elf_u64 section 24;
      size ← elf_u64 section 32;
      link ← elf_u32 section 40;
      entry_size ← elf_u64 section 56;
      Some {| sh_type := section_type; sh_offset := offset; sh_size := size; sh_link := link; sh_entry_size := entry_size |})
    (seq 0 (Z.to_nat section_count)).

Definition elf_load_headers (bytes : list Z) : option (list ElfLoadHeader) :=
  _ ← validate_elf64_header bytes;
  program_offset ← elf_u64 bytes 32;
  program_entry_size ← elf_u16 bytes 54;
  program_count ← elf_u16 bytes 56;
  if program_entry_size <? 56 then None else
  loads ← mapM (λ index,
      header ← table_entry bytes program_offset program_entry_size (Z.of_nat index);
      kind ← elf_u32 header 0;
      if negb (kind =? PT_LOAD) then Some None else
      file_offset ← elf_u64 header 8;
      virtual_address ← elf_u64 header 16;
      file_size ← elf_u64 header 32;
      memory_size ← elf_u64 header 40;
      Some (Some {| lh_file_offset := file_offset; lh_virtual_address := virtual_address;
                    lh_file_size := file_size; lh_memory_size := memory_size |}))
    (seq 0 (Z.to_nat program_count));
  Some (omap id loads).

Definition parse_file_backed_libc_intrinsic_symbol (entry strtab : list Z) : option FileBackedLibcIntrinsicSymbol :=
  name_offset ← elf_u32 entry 0;
  info ← byte_at entry 4;
  let symbol_type := Z.land info 0x0f in
  if negb ((symbol_type =? ELF64_STT_FUNC) || (symbol_type =? ELF64_STT_GNU_IFUNC)) then None else
  value ← elf_u64 entry 8;
  if value =? 0 then None else
  name ← elf_cstr strtab name_offset;
  intrinsic ← from_symbol_name name;
  Some {| fs_value := value; fs_intrinsic := intrinsic |}.

(** [chunks_exact]; the bytes that are left are dropped. *)
Fixpoint chunks_exact (fuel : nat) (size : nat) (bytes : list Z) : list (list Z) :=
  match fuel with
  | O => []
  | S fuel =>
      if (length bytes <? size)%nat then []
      else take size bytes :: chunks_exact fuel size (drop size bytes)
  end.

Definition section_symbols (bytes : list Z) (sections : list ElfSectionHeader) (section : ElfSectionHeader)
    : list FileBackedLibcIntrinsicSymbol :=
  default [] (
    strings ← sections !! Z.to_nat (sh_link section);
    strtab ← elf_range bytes (sh_offset strings) (sh_size strings);
    let entry_size := if sh_entry_size section <? ELF64_SYMBOL_SIZE then ELF64_SYMBOL_SIZE else sh_entry_size section in
    dynsym ← elf_range bytes (sh_offset section) (sh_size section);
    Some (omap (λ entry, parse_file_backed_libc_intrinsic_symbol entry strtab)
            (chunks_exact (length dynsym) (Z.to_nat entry_size) dynsym))).

Definition parse_file_backed_libc_intrinsic_symbols (bytes : list Z) : list FileBackedLibcIntrinsicSymbol :=
  match elf_section_headers bytes with
  | None => []
  | Some sections =>
      concat (section_symbols bytes sections <$> filter (λ s, sh_type s = ELF64_SHT_DYNSYM) sections)
  end.

Definition elf_align_down (value alignment : Z) : Z := value / alignment * alignment.
Definition align_up_checked (value alignment : Z) : option Z :=
  let remainder := value mod alignment in
  if remainder =? 0 then Some value else checked_add64 value (alignment - remainder).

(** The first load segment whose pages in the file hold the offset. *)
Fixpoint load_bias_loop (loads : list ElfLoadHeader) (file_offset mapped : Z) : option Z :=
  match loads with
  | [] => None
  | load :: loads =>
      let segment_file_start := elf_align_down (lh_file_offset load) GUEST_PAGE_SIZE in
      e ← checked_add64 (lh_file_offset load) (Z.max (lh_file_size load) (lh_memory_size load));
      segment_file_end ← align_up_checked e GUEST_PAGE_SIZE;
      if (file_offset <? segment_file_start) || (segment_file_end <=? file_offset)
      then load_bias_loop loads file_offset mapped else
      let segment_vaddr_start := elf_align_down (lh_virtual_address load) GUEST_PAGE_SIZE in
      delta ← checked_sub64 file_offset segment_file_start;
      mapped_image_address ← checked_add64 segment_vaddr_start delta;
      checked_sub64 mapped mapped_image_address
  end.

Definition elf_load_bias_for_mapping (bytes : list Z) (file_offset mapped : Z) : option Z :=
  loads ← elf_load_headers bytes; load_bias_loop loads file_offset mapped.

Section runtime.
Context {OS : HostOs} {host_fs : HostFs} {host_mapping : HostMapping}.
Context {NetWorld Handle Transport BatchPoll : Type} {host_sockets : HostSockets NetWorld Handle Transport BatchPoll}.
Context {FloatingPoint : Type}.
Context (unsafe_share_until_exec : bool).

Abbreviation Runtime := (RuntimeSubsystems (NetWorld := NetWorld) (Handle := Handle) (Transport := Transport) (FloatingPoint := FloatingPoint)).
Abbreviation SubM := (SubM (NetWorld := NetWorld) (Handle := Handle) (Transport := Transport) (FloatingPoint := FloatingPoint)).
Abbreviation SubMemM := (SubMemM (NetWorld := NetWorld) (Handle := Handle) (Transport := Transport) (FloatingPoint := FloatingPoint)).
Abbreviation Native := (NativeExecutionState (FloatingPoint := FloatingPoint)).

(** A call of the virtual file system whose errors are errnos already. *)
Definition on_vfs_errno {A} (m : ST Vfs LinuxErrno A) : SubM A :=
  λ s, let (r, v) := m (rf_vfs (rt_files s)) in (r, set_rt_files (set_rf_vfs v (rt_files s)) s).

(** ** Patches (patch_cache.rs) *)

(** [memory_for_process_mut] *)
Definition on_process_memory (pid : Z) (f : MemM unit) : SubMemM unit :=
  let* s := gets id in
  if pid =? rt_selected_memory_pid s then on_selected_memory f else
  match rt_memory s !! pid with
  | None => throw NotMapped
  | Some memory => λ s,
      let (r, w) := f {| w_host := rt_heap s; w_mem := memory |} in
      (r, set_rt_memory (<[pid := w_mem w]> (rt_memory s)) (set_rt_heap (w_host w) s))
  end.

Definition register_libc_intrinsic_patch (pid address : Z) (intrinsic : GuestLibcIntrinsic) : SubM unit :=
  do* memory_result (on_process_memory pid (patch_code_fixed 2 [(address, [0xcc; 0x90])]));
  set_native (λ n, set_nx_patches (nx_patch_caches n) (nx_image_patch_keys n) (nx_image_patch_ranges n)
                        (<[(pid, address) := intrinsic]> (nx_libc_intrinsic_patches n)) n).

Definition change_patch_cache (pid : Z) (f : NativePatchCache → NativePatchCache) : SubM unit :=
  set_native (λ n,
    match nx_patch_caches n !! pid with
    | None => n
    | Some cache => set_nx_patches (<[pid := f cache]> (nx_patch_caches n)) (nx_image_patch_keys n)
                      (nx_image_patch_ranges n) (nx_libc_intrinsic_patches n) n
    end).

Definition invalidate_native_patch_cache (pid : Z) : SubM unit := change_patch_cache pid invalidate.

Definition invalidate_native_patch_cache_range (pid start len : Z) : SubM unit :=
  match checked_add64 start len with
  | None => invalidate_native_patch_cache pid
  | Some end_ => change_patch_cache pid (invalidate_range start end_)
  end.

(** ** Mappings of files *)
Definition change_mapping_cache (f : FileBackedMappingCache → FileBackedMappingCache) : SubM unit :=
  set_native (λ n, set_nx_file_caches (f (nx_file_backed_mapping_cache n)) (nx_libc_intrinsic_symbol_cache n) n).

Definition file_backed_mmap_bytes (fd offset len prot flags : Z) : SubM (list Z) :=
  let* cache_key := on_files (on_vfs (file_backed_mmap_cache_key fd offset len prot flags)) in
  match cache_key with
  | Some key =>
      let* cache := gets (λ s, nx_file_backed_mapping_cache (rt_native s)) in
      let (hit, cache) := cache_lookup key cache in
      do* change_mapping_cache (λ _, cache);
      match hit with
      | Some bytes => ret bytes
      | None =>
          do* change_mapping_cache record_miss;
          let* bytes := on_files (on_vfs (read_file_backed_mmap_bytes fd offset len)) in
          do* change_mapping_cache (cache_insert key bytes);
          ret bytes
      end
  | None => on_files (on_vfs (read_file_backed_mmap_bytes fd offset len))
  end.

Definition file_backed_libc_intrinsic_symbols (fd : Z) (bytes : list Z) : SubM (list FileBackedLibcIntrinsicSymbol) :=
  let* key := on_files (on_vfs (regular_file_cache_key fd)) in
  match key with
  | None => ret []
  | Some key =>
      let* cache := gets (λ s, nx_libc_intrinsic_symbol_cache (rt_native s)) in
      match cache !! key with
      | Some symbols => ret symbols
      | None =>
          let symbols := parse_file_backed_libc_intrinsic_symbols bytes in
          do* set_native (λ n, set_nx_file_caches (nx_file_backed_mapping_cache n)
                (<[key := symbols]> (filter (λ e : (Z * Z) * list FileBackedLibcIntrinsicSymbol, e.1.2 = key.2)
                                       (nx_libc_intrinsic_symbol_cache n))) n);
          ret symbols
      end
  end.

(** The page is made writable for the bytes, whether or not they can be written. *)
Definition populate_file_backed_mmap (mapped length prot flags fd offset : Z) : SubM unit :=
  if offset <? 0 then throw EINVAL else
  let* bytes := file_backed_mmap_bytes fd offset length prot flags in
  do* memory_result (on_selected_memory (mprotect
        {| mp_addr := mapped; mp_length := length; mp_prot := Z.lor LINUX_PROT_READ LINUX_PROT_WRITE |}));
  let restore := memory_result (on_selected_memory (mprotect {| mp_addr := mapped; mp_length := length; mp_prot := prot |})) in
  λ s, match memory_result (on_selected_memory (GuestMemoryOps.write mapped bytes)) s with
       | (Ok _, s) => restore s
       | (Err e, s) => on_err (throw e) restore s
       | (Panic, s) => (Panic, s)
       end.

(** One symbol of a mapped library. *)
Definition register_symbol (pid mapped mapped_end length load_bias : Z) (symbol : FileBackedLibcIntrinsicSymbol) : SubM unit :=
  match checked_add64 load_bias (fs_value symbol) with
  | None => ret tt
  | Some address =>
      let patch_end := saturating_add64 address 2 in
      if (address <? mapped) || (mapped_end <? patch_end) || (length <=? address - mapped) then ret tt
      else register_libc_intrinsic_patch pid address (fs_intrinsic symbol)
  end.

Definition register_file_backed_libc_intrinsic_patches (pid mapped length prot fd offset : Z) : SubM unit :=
  let* native := gets (λ s, nx_enabled (rt_native s)) in
  if negb native || negb (has_bits prot LINUX_PROT_EXEC) || (offset <? 0) then ret tt else
  λ s, match on_vfs_errno (read_regular_file_for_symbol_scan fd) s with
       | (Err _, s) => (Ok tt, s)
       | (Panic, s) => (Panic, s)
       | (Ok bytes, s) =>
           match elf_load_bias_for_mapping bytes offset mapped with
           | None => (Ok tt, s)
           | Some load_bias =>
               (let* mapped_end := lift (ok_or (checked_add64 mapped length) ENOMEM) in
                let* symbols := file_backed_libc_intrinsic_symbols fd bytes in
                foreach symbols (register_symbol pid mapped mapped_end length load_bias)) s
           end
       end.

Definition mmap (pid : Z) (args : MmapSyscallArgs) : SubM Z :=
  let* mapped := memory_result (on_selected_memory (GuestMemoryOps.mmap args)) in
  if is_anonymous args then ret mapped else
  do* populate_file_backed_mmap mapped (mm_length args) (mm_prot args) (mm_flags args) (mm_fd args) (mm_offset args);
  do* register_file_backed_libc_intrinsic_patches pid mapped (mm_length args) (mm_prot args) (mm_fd args) (mm_offset args);
  ret mapped.

(** ** The dispatch *)

(** The calls of mcr-memory (syscalls.rs). *)
Definition memory_outcome {A} (f : A → SyscallOutcome) (m : MemM A) : SubM SyscallOutcome :=
  λ s, match on_selected_memory m s with
       | (Ok a, s) => (Ok (f a), s)
       | (Err e, s) => (Ok (outcome_errno (GuestMemory.memory_errno e)), s)
       | (Panic, s) => (Panic, s)
       end.

Definition guest_dispatch_memory (request : SyscallRequest) : SubM SyscallOutcome :=
  let a := rq_args request in
  match rq_syscall request with
  | SysMmap => memory_outcome outcome_success (GuestMemoryOps.mmap (mmap_from_args a))
  | SysMunmap => memory_outcome (λ _, outcome_success 0) (munmap (munmap_from_args a))
  | SysMprotect => memory_outcome (λ _, outcome_success 0) (mprotect (mprotect_from_args a))
  | SysMadvise => memory_outcome outcome_success (lift (madvise (arg0 a) (arg1 a) (arg_u32 a 2)))
  | SysBrk => λ s,
      match set_brk (brk_addr (brk_from_args a)) (rf_memory (rt_files s)) with
      | (Ok brk, w) => (Ok (outcome_success (bo_current brk)), set_rt_world w s)
      | (Err e, _) => match e with end
      | (Panic, w) => (Panic, set_rt_world w s)
      end
  | _ => ret outcome_unsupported
  end.

Definition mmap_args (a : SyscallArgs) : MmapSyscallArgs :=
  {| mm_addr := arg0 a; mm_length := arg1 a; mm_prot := arg_u32 a 2; mm_flags := arg_u32 a 3;
     mm_fd := arg_i32 a 4; mm_offset := as_i64 (arg5 a) |}.

(** Code that was mapped, unmapped or made executable is scanned again. *)
Definition invalidate_changed_code (pid : Z) (request : SyscallRequest) (result : Z) : SubM unit :=
  let a := rq_args request in
  match rq_syscall request with
  | SysMmap => if has_bits (arg_u32 a 2) LINUX_PROT_EXEC
               then invalidate_native_patch_cache_range pid result (arg1 a) else ret tt
  | SysMunmap => invalidate_native_patch_cache_range pid (arg0 a) (arg1 a)
  | SysMprotect => if has_bits (arg_u32 a 2) LINUX_PROT_EXEC
                   then invalidate_native_patch_cache_range pid (arg0 a) (arg1 a) else ret tt
  | _ => ret tt
  end.

Definition dispatch_memory (request : SyscallRequest) : RtCall :=
  let pid := rq_pid request in
  answer (
    do* memory_result (materialize_pending_fork_exec_children unsafe_share_until_exec pid);
    do* match rq_syscall request with
        | SysMmap => select_process_context pid
        | _ => select_memory_for_process pid
        end;
    let* o := match rq_syscall request with
              | SysMmap => as_outcome (mmap pid (mmap_args (rq_args request)))
              | _ => guest_dispatch_memory request
              end in
    match so_result o with
    | Success result =>
        do* store_selected_process_memory pid;
        do* invalidate_changed_code pid request result;
        ret o
    | Errno _ => ret o
    end).
End runtime.

(** ** What a mapping of a file holds

    The file behind a descriptor: a regular one whose bytes are in memory. *)
Section files.
Context {host_fs : HostFs} {host_mapping : HostMapping} (o : Others).

Record file_open (fd : Z) (data : list Z) (v : Vfs) (e : FdEntry) : Prop := {
  fo_entry : ft_entries (fw_table (v_fds v)) !! fd = Some e;
  fo_mode : ∃ d, h_descriptions (fw_heap (v_fds v)) !! en_description e = Some d ∧ can_read (fd_flags d) = true;
  fo_kind : fr_kind (en_file e) = KRegular;
  fo_node : ∃ n, tr_inodes (v_tree v) !! inode_id_of e = Some n ∧ pn_kind n = NFile ∧
                 pn_deferred_host_path n = None ∧ pn_data n = data;
}.

(** What a read does to the cache: it stays right, and no generation changes. *)
Definition same_generations (v v' : Vfs) : Prop := ∀ i, key_generation i (v_cache v') = key_generation i (v_cache v).

#[export] Instance same_generations_preorder : PreOrder same_generations.
Proof. split; [done|]. intros x y z H1 H2 i. by rewrite H2. Qed.

Lemma fds_generations {A} (m : FdM A) : moves same_generations (on_fds m).
Proof. intros v i. unfold on_fds. by destruct (m (v_fds v)). Qed.

Lemma small_data_generations i data : moves same_generations (cached_small_read_data i data).
Proof. intros v j. unfold cached_small_read_data, bind, gets, id. by destruct (small_read i (v_cache v)). Qed.

Lemma handle_generations i path : moves same_generations (cached_host_read_handle i path).
Proof.
  intros v j. unfold cached_host_read_handle, on_cache, host_read_handle, bind, gets, id, lift, modify, ret.
  assert (He : ∀ c, key_generation j (evict_host_read_handles c) = key_generation j c).
  { intros c. unfold evict_host_read_handles. by destruct (evict_loop _ _). }
  destruct (ca_host_read_handles (v_cache v) !! i) as [x|]; [destruct (_ && _); [done|]|];
    destruct (open_host_read_handle path); simpl; rewrite ?He; done.
Qed.

Lemma pread_generations fd offset len : moves same_generations (pread fd offset len).
Proof.
  unfold pread, cached_small_read_at, cached_small_read_for_entry, read_regular_inode_at.
  repeat first [apply fds_generations | apply small_data_generations | apply handle_generations | moves_step].
Qed.

Definition right_cache (v : Vfs) (c : VfsCache) : Prop :=
  cache_ok (v_tree v) c ∧ same_generations v (set_cache c v).

Lemma right_cache_self v : vfs_ok o v → right_cache v (v_cache v).
Proof. intros Hv. split; [apply Hv|done]. Qed.

Lemma right_cache_trans v c c' : right_cache v c → right_cache (set_cache c v) c' → right_cache v c'.
Proof. intros [_ H1] [H2 H3]. split; [exact H2|]. intros i. by rewrite <- H1, <- H3. Qed.

(** A call that returns and changes nothing but the cache. *)
Definition looks {A} (m : VfsM A) (v : Vfs) (a : A) : Prop :=
  ∃ c, right_cache v c ∧ m v = (Ok a, set_cache c v).

Lemma vfs_ok_recached c v : vfs_ok o v → cache_ok (v_tree v) c → vfs_ok o (set_cache c v).
Proof. intros [H1 H2 H3] Hc. by split. Qed.

Lemma looks_ret {A} v (a : A) : vfs_ok o v → looks (ret a) v a.
Proof. intros Hv. exists (v_cache v). split; [by apply right_cache_self|by rewrite set_cache_id]. Qed.

Lemma looks_bind {A B} (m : VfsM A) (k : A → VfsM B) v a b :
  vfs_ok o v → looks m v a → (∀ c, vfs_ok o (set_cache c v) → looks (k a) (set_cache c v) b) → looks (let* x := m in k x) v b.
Proof.
  intros Hv (c & Hc & E) Hk. destruct (Hk c (vfs_ok_recached c v Hv (proj1 Hc))) as (c' & Hc' & E').
  exists c'. split; [by eapply right_cache_trans|]. unfold bind. rewrite E, E'. done.
Qed.

Lemma looks_then {A B} (P : B → Prop) (m : VfsM A) (k : A → VfsM B) v a :
  vfs_ok o v → looks m v a → (∀ c, vfs_ok o (set_cache c v) → ∃ b, looks (k a) (set_cache c v) b ∧ P b) →
  ∃ b, looks (let* x := m in k x) v b ∧ P b.
Proof.
  intros Hv (c & Hc & E) Hk. destruct (Hk c (vfs_ok_recached c v Hv (proj1 Hc))) as (b & (c' & Hc' & E') & Hb).
  exists b. split; [|done]. exists c'. split; [by eapply right_cache_trans|]. unfold bind. rewrite E, E'. done.
Qed.

Lemma file_open_recached fd data v e c : file_open fd data v e → file_open fd data (set_cache c v) e.
Proof. by intros []. Qed.

Lemma pread_looks fd data e offset len v :
  vfs_ok o v → file_open fd data v e → 0 < len → looks (pread fd offset len) v (read_memory_at data offset len).
Proof.
  intros Hv [He (d & Hd & Hr) Hk (n & Hn & Hnk & Hdf & Hdata)] Hl.
  destruct (pread_recached o fd offset len v Hv Hl) as (c & Hc & E). exists c.
  split; [split; [done|]; intros i; by rewrite <- (pread_generations fd offset len v i), E|]. rewrite E.
  rewrite (fd_pread_open fd e d) by auto. unfold lookup_inode. rewrite Hn. simpl. rewrite set_fds_id.
  rewrite (file_not_dir o v _ n) by done. unfold read_regular_node_at. by rewrite Hnk, Hdf, Hdata.
Qed.

Lemma pread_ok_looks fd data e offset len v :
  vfs_ok o v → file_open fd data v e → 0 < len → looks (pread_ok fd offset len) v (Some (read_memory_at data offset len)).
Proof.
  intros Hv Hf Hl. destruct (pread_looks fd data e offset len v Hv Hf Hl) as (c & Hc & E).
  exists c. split; [done|]. unfold pread_ok. by rewrite E.
Qed.

(** *** The program headers *)
Definition file_headers (data : list Z) (headers : list Elf64ProgramHeaderView) : Prop :=
  elf64_program_header_views data = Some headers ∨ elf64_program_header_table_view data = None ∧ headers = [].

Lemma slice_take n l a b : b ≤ n → n ≤ zlen l → slice (take (Z.to_nat n) l) a b = slice l a b.
Proof.
  intros Hb Hn. unfold slice, zlen in *. rewrite length_take.
  replace (Z.of_nat (Z.to_nat n `min` length l)) with (Z.max 0 n) by lia.
  destruct (Z.leb_spec 0 a), (Z.leb_spec a b), (Z.leb_spec b (Z.max 0 n)), (Z.leb_spec b (Z.of_nat (length l))); simpl; try done; try lia.
  f_equal. rewrite skipn_firstn_comm, take_take. f_equal. lia.
Qed.

Lemma byte_at_take n l i : i < n → byte_at (take (Z.to_nat n) l) i = byte_at l i.
Proof. intros Hi. unfold byte_at. destruct (Z.ltb_spec i 0); [done|]. apply lookup_take_lt. lia. Qed.

Lemma table_view_prefix data :
  64 ≤ zlen data →
  elf64_program_header_table_view (take (Z.to_nat 64) data) = elf64_program_header_table_view data.
Proof.
  intros Hl. unfold elf64_program_header_table_view, elf_u16, elf_u64, elf_word, ELF64_HEADER_SIZE, EI_CLASS, EI_DATA.
  rewrite !checked_add64_fit by done. simpl mbind. rewrite !slice_take, !byte_at_take by lia.
  assert (zlen (take (Z.to_nat 64) data) = 64) as -> by (unfold zlen in *; rewrite length_take; lia).
  by rewrite (proj2 (Z.ltb_ge (zlen data) 64) Hl).
Qed.

Lemma slice_read data a len bs : slice data a (a + len) = Some bs → read_memory_at data a len = bs.
Proof.
  unfold slice, read_memory_at. case_match; [|done]. intros [= <-]. by replace (a + len - a) with len by lia.
Qed.

Lemma read_headers_looks fd data e table entries k headers acc v :
  vfs_ok o v → file_open fd data v e → 56 ≤ tv_entry_size table →
  (entries = O ∨ tv_file_offset table + tv_entry_size table * Z.of_nat (k + entries) < 2 ^ 64) →
  mapM (λ index,
      let entry_start := tv_file_offset table + Z.of_nat index * tv_entry_size table in
      entry ← slice data entry_start (entry_start + tv_entry_size table);
      elf64_program_header_entry_view entry) (seq k entries) = Some headers →
  looks (read_headers_loop entries (Z.of_nat k) fd table acc) v (Some (acc ++ headers)).
Proof.
  revert k headers acc v. induction entries as [|entries IH]; intros k headers acc v Hv Hf Hs Hend Hm; simpl in Hm.
  { injection Hm as <-. rewrite app_nil_r. by apply looks_ret. }
  apply bind_Some in Hm as (header & Hh & (rest & Hrest & [= <-])%bind_Some).
  apply bind_Some in Hh as (entry & Hentry & Hview). cbn [read_headers_loop].
  destruct Hend as [|Hend]; [done|]. rewrite checked_add64_fit by nia. apply slice_read in Hentry as Hread. apply slice_length in Hentry as Hlen.
  eapply looks_bind; [done|by eapply pread_ok_looks; [..|lia]|]. intros c Hc. rewrite Hread.
  unfold ELF64_PROGRAM_HEADER_MIN_VIEW_SIZE. rewrite (proj2 (Z.ltb_ge _ _)) by lia. rewrite Hview.
  replace (Z.of_nat k + 1) with (Z.of_nat (S k)) by lia.
  replace (acc ++ header :: rest) with ((acc ++ [header]) ++ rest) by (by rewrite <- app_assoc).
  apply IH; [done|by apply file_open_recached|done| |done]. right. by replace (S k + entries)%nat with (k + S entries)%nat by lia.
Qed.

Lemma read_program_headers_looks fd data e headers v :
  vfs_ok o v → file_open fd data v e → file_headers data headers →
  ∃ found, looks (read_elf64_program_headers fd) v found ∧ default [] found = headers.
Proof.
  intros Hv Hf Hh. unfold read_elf64_program_headers.
  assert (Hread := pread_ok_looks fd data e 0 ELF64_HEADER_SIZE v Hv Hf eq_refl).
  destruct (Z.leb_spec 64 (zlen data)) as [Hl|Hl].
  - assert (Hhead : zlen (read_memory_at data 0 ELF64_HEADER_SIZE) = 64).
    { unfold read_memory_at, zlen, ELF64_HEADER_SIZE in *. rewrite drop_0, length_take. lia. }
    assert (Htv : elf64_program_header_table_view (read_memory_at data 0 ELF64_HEADER_SIZE) = elf64_program_header_table_view data).
    { unfold read_memory_at. rewrite drop_0. by apply table_view_prefix. }
    destruct (elf64_program_header_table_view data) as [table|] eqn:Ht.
    + destruct Hh as [Hh|[? _]]; [|congruence]. exists (Some headers). split; [|done].
      eapply looks_bind; [done|exact Hread|]. intros c Hc. cbv beta iota. rewrite Hhead. simpl. rewrite Htv.
      unfold elf64_program_header_views in Hh. rewrite Ht in Hh. simpl in Hh.
      apply bind_Some in Hh as (end_ & [-> Hend]%checked_add64_Some & Hh). case_match; [done|]. bprop.
      unfold elf64_program_header_table_view in Ht. repeat (case_match; [done|]).
      apply bind_Some in Ht as (size & Hsz & (count & _ & (off & _ & Ht)%bind_Some)%bind_Some).
      case_match; [done|]. bprop. injection Ht as <-. simpl in *. unfold ELF64_PROGRAM_HEADER_MIN_VIEW_SIZE in *.
      apply (read_headers_looks fd data e _ _ 0 headers [] _); simpl; [done|by apply file_open_recached|lia| |done].
      destruct (Z.leb_spec 0 count); [right; by rewrite Z2Nat.id by lia|left; lia].
    + exists None. split; [|by destruct Hh as [Hh|[_ ->]]; [unfold elf64_program_header_views in Hh; rewrite Ht in Hh|]].
      eapply looks_bind; [done|exact Hread|]. intros c Hc. cbv beta iota. rewrite Hhead. simpl. rewrite Htv. by apply looks_ret.
  - assert (Ht : elf64_program_header_table_view data = None).
    { unfold elf64_program_header_table_view, ELF64_HEADER_SIZE. by rewrite (proj2 (Z.ltb_lt _ _)). }
    exists None. split; [|by destruct Hh as [Hh|[_ ->]]; [unfold elf64_program_header_views in Hh; rewrite Ht in Hh|]].
    eapply looks_bind; [done|exact Hread|]. intros c Hc. cbv beta iota. rewrite (proj2 (Z.ltb_lt _ _)); [by apply looks_ret|].
    unfold read_memory_at, zlen, ELF64_HEADER_SIZE in *. rewrite drop_0, length_take. lia.
Qed.

(** *** The bytes of a mapping

    The tail of a load segment, where the memory has zeros and not the file. *)
Definition in_tail (x : Z) (h : Elf64ProgramHeaderView) : bool :=
  is_load h && (hv_file_size h <? hv_memory_size h) && (hv_offset h + hv_memory_size h <? 2 ^ 64) &&
  in_range (hv_offset h + hv_file_size h) (hv_offset h + hv_memory_size h) x.

Definition mapped_byte (headers : list Elf64ProgramHeaderView) (data : list Z) (x : Z) : Z :=
  if existsb (in_tail x) headers then 0 else default 0 (byte_at data x).

(** [bytes] are what a mapping of [len] bytes at [offset] shows of the file. *)
Definition shows_file (headers : list Elf64ProgramHeaderView) (data : list Z) (offset len : Z) (bytes : list Z) : Prop :=
  zlen bytes ≤ len ∧ ∀ i, 0 ≤ i < len → default 0 (byte_at bytes i) = mapped_byte headers data (offset + i).

Lemma same_zlen (l1 l2 : list Z) : length l1 = length l2 → zlen l1 = zlen l2.
Proof. unfold zlen. congruence. Qed.

Lemma zero_segment_tail_byte offset bytes h i :
  0 ≤ offset → 0 ≤ i →
  let bytes' := zero_segment_tail offset (offset + zlen bytes) bytes h in
  zlen bytes' = zlen bytes ∧
  byte_at bytes' i = if in_tail (offset + i) h then (λ _, 0) <$> byte_at bytes i else byte_at bytes i.
Proof.
  intros Ho Hi. unfold zero_segment_tail, in_tail. destruct (is_load h); simpl; [|done].
  destruct (Z.leb_spec (hv_memory_size h) (hv_file_size h)) as [Hs|Hs].
  { by rewrite (proj2 (Z.ltb_ge _ _) Hs). }
  rewrite (proj2 (Z.ltb_lt _ _) Hs). simpl.
  destruct (Z.ltb_spec (hv_offset h + hv_memory_size h) (2 ^ 64)) as [Hm|Hm]; simpl.
  2:{ rewrite (proj2 (checked_add64_None (hv_offset h) (hv_memory_size h)) Hm). by destruct (checked_add64 _ _). }
  rewrite !checked_add64_fit by lia.
  set (a := hv_offset h + hv_file_size h). set (b := hv_offset h + hv_memory_size h).
  assert (Hin : is_Some (byte_at bytes i) → offset + i < offset + zlen bytes).
  { intros [x Hx]. unfold byte_at, zlen in *. rewrite (proj2 (Z.ltb_ge i 0)) in Hx by lia. apply lookup_lt_Some in Hx. lia. }
  destruct (Z.leb_spec (Z.min b (offset + zlen bytes)) (Z.max a offset)) as [Hov|Hov].
  - split; [done|]. unfold in_range. destruct (Z.leb_spec a (offset + i)), (Z.ltb_spec (offset + i) b); simpl; try done.
    destruct (byte_at bytes i) eqn:Hb; [|done]. specialize (Hin (mk_is_Some _ _ eq_refl)). lia.
  - assert (Hz : zlen (zero_vec (Z.min b (offset + zlen bytes) - Z.max a offset)) = Z.min b (offset + zlen bytes) - Z.max a offset).
    { unfold zero_vec, zlen in *. rewrite length_replicate. lia. }
    split; [apply same_zlen, length_splice; lia|]. rewrite splice_byte by lia. rewrite Hz. unfold in_range.
    destruct (Z.leb_spec (Z.max a offset - offset) i), (Z.ltb_spec i (Z.max a offset - offset + (Z.min b (offset + zlen bytes) - Z.max a offset)));
      destruct (Z.leb_spec a (offset + i)), (Z.ltb_spec (offset + i) b); simpl; try done; try lia.
    + destruct (byte_at_Some bytes i ltac:(lia)) as [x ->]. simpl. unfold byte_at, zero_vec.
      rewrite (proj2 (Z.ltb_ge _ _)) by lia. apply lookup_replicate. split; [done|]. lia.
    + destruct (byte_at bytes i) eqn:Hb; [|done]. specialize (Hin (mk_is_Some _ _ eq_refl)). lia.
Qed.

Lemma zero_tails_byte offset n headers bytes i :
  0 ≤ offset → 0 ≤ i → zlen bytes = n →
  let bytes' := foldl (zero_segment_tail offset (offset + n)) bytes headers in
  zlen bytes' = n ∧
  byte_at bytes' i = if existsb (in_tail (offset + i)) headers then (λ _, 0) <$> byte_at bytes i else byte_at bytes i.
Proof.
  intros Ho Hi. revert bytes. induction headers as [|h headers IH]; intros bytes Hn; simpl; [done|].
  destruct (zero_segment_tail_byte offset bytes h i Ho Hi) as [L1 B1]. rewrite Hn in *.
  destruct (IH _ L1) as [L2 B2]. split; [done|]. rewrite B2, B1.
  destruct (in_tail (offset + i) h), (existsb _ headers); simpl; try done. by destruct (byte_at bytes i).
Qed.

Lemma read_byte data offset len i :
  0 ≤ offset → 0 ≤ i < len → byte_at (read_memory_at data offset len) i = byte_at data (offset + i).
Proof.
  intros. unfold read_memory_at, byte_at. rewrite !(proj2 (Z.ltb_ge _ _)) by lia.
  rewrite lookup_take_lt, lookup_drop by lia. f_equal. lia.
Qed.

Lemma file_bytes_looks fd data e headers offset len v :
  vfs_ok o v → file_open fd data v e → file_headers data headers → 0 ≤ offset → 0 < len → offset + len < 2 ^ 64 →
  ∃ bytes, looks (read_file_backed_mmap_bytes fd offset len) v bytes ∧ shows_file headers data offset len bytes.
Proof.
  intros Hv Hf Hh Ho Hl Hend. unfold read_file_backed_mmap_bytes.
  assert (Hmap : looks (map_readonly_regular_file_at fd offset len) v None).
  { destruct Hf as [He (d & Hd & Hr) Hk (n & Hn & Hnk & Hdf & _)]. exists (v_cache v). split; [by apply right_cache_self|].
    unfold map_readonly_regular_file_at. rewrite (proj2 (Z.eqb_neq _ _)) by lia. unfold bind at 1. rewrite on_fds_get, He.
    unfold bind at 1. rewrite (on_fds_description e d v Hd), Hr, Hk. unfold bind, gets, id, lookup_inode. unfold inode_id_of in *. simpl. rewrite Hn. simpl. rewrite Hnk, Hdf.
    simpl. by rewrite set_cache_id. }
  eapply looks_then; [done|exact Hmap|]. intros c Hc. cbv beta iota. apply (file_open_recached _ _ _ _ c) in Hf.
  eapply looks_then; [done|by eapply pread_looks|]. intros c1 Hc1. change (set_cache c1 (set_cache c v)) with (set_cache c1 v) in *.
  apply (file_open_recached _ _ _ _ c1) in Hf. change (set_cache c1 (set_cache c v)) with (set_cache c1 v) in *.
  set (bytes := read_memory_at data offset len).
  assert (Hlen : zlen bytes ≤ len) by (apply read_memory_at_len; lia).
  assert (Hshow : ∀ r, zlen r = zlen bytes → (∀ i, 0 ≤ i → byte_at r i = if existsb (in_tail (offset + i)) headers then (λ _, 0) <$> byte_at bytes i else byte_at bytes i) →
    shows_file headers data offset len r).
  { intros r Hr Hb. split; [lia|]. intros i Hi. rewrite Hb by lia. unfold bytes, mapped_byte. rewrite read_byte by lia.
    destruct (existsb _ _); [|done]. by destruct (byte_at _ _). }
  unfold zero_elf_load_bss_tail. case_bool_decide as Hb.
  { exists bytes. split; [by apply looks_ret|]. apply Hshow; [done|]. intros i Hi. rewrite Hb.
    assert (byte_at [] i = None) as -> by (unfold byte_at; by destruct (i <? 0)). by destruct (existsb _ _). }
  destruct (read_program_headers_looks fd data e headers _ Hc1 Hf Hh) as (found & Hfound & Hdef).
  eapply looks_then; [done|exact Hfound|]. intros c2 Hc2. destruct found as [hs|]; simpl in Hdef; subst.
  - rewrite checked_add64_fit by lia. eexists. split; [by apply looks_ret|].
    apply Hshow; [by apply (zero_tails_byte offset _ headers bytes 0)|]. intros i Hi. by apply zero_tails_byte.
  - exists bytes. split; [by apply looks_ret|]. by apply Hshow.
Qed.
(** ** The cache of mappings

    What it holds under the present generation of an inode is what a mapping of that file
    shows, and it holds nothing of a generation to come. *)
Record mapping_cache_ok (c : FileBackedMappingCache) (v : Vfs) : Prop := {
  mk_current inode offset len bytes n headers :
    mc_entries c !! ((inode, key_generation inode (v_cache v)), offset, len) = Some bytes →
    tr_inodes (v_tree v) !! inode = Some n → pn_kind n = NFile → pn_deferred_host_path n = None →
    file_headers (pn_data n) headers → shows_file headers (pn_data n) offset len bytes;
  mk_past inode g offset len bytes :
    mc_entries c !! ((inode, g), offset, len) = Some bytes → g ≤ key_generation inode (v_cache v);
}.

Lemma mapping_cache_empty v hits misses : mapping_cache_ok {| mc_entries := ∅; mc_hits := hits; mc_misses := misses |} v.
Proof. split; intros *; simpl; by rewrite lookup_empty. Qed.

Lemma mapping_cache_counters c hits misses v :
  mapping_cache_ok c v → mapping_cache_ok {| mc_entries := mc_entries c; mc_hits := hits; mc_misses := misses |} v.
Proof. by intros []. Qed.

(** Reading files changes nothing of it. *)
Lemma mapping_cache_read c v v' :
  mapping_cache_ok c v → v_tree v' = v_tree v → same_generations v v' → mapping_cache_ok c v'.
Proof.
  intros [H1 H2] Ht Hg. split.
  - intros inode offset len bytes n headers. rewrite Hg, Ht. by apply H1.
  - intros inode g offset len bytes Hb. rewrite Hg. by eapply H2.
Qed.

(** New bytes, under the present generation and the window they were read for. *)
Lemma mapping_cache_insert c v inode offset len bytes n :
  mapping_cache_ok c v → tr_inodes (v_tree v) !! inode = Some n →
  (∀ headers, file_headers (pn_data n) headers → shows_file headers (pn_data n) offset len bytes) →
  mapping_cache_ok (cache_insert ((inode, key_generation inode (v_cache v)), offset, len) bytes c) v.
Proof.
  intros [H1 H2] Hn Hb. split; simpl.
  - intros inode' offset' len' bytes' n' headers [[E <-]|[_ [He _]%map_lookup_filter_Some]]%lookup_insert_Some Hn' Hk Hd Hh.
    + injection E as <- _ <- <-. rewrite Hn in Hn'. injection Hn' as <-. by apply Hb.
    + by eapply H1.
  - intros inode' g offset' len' bytes' [[E <-]|[_ [He _]%map_lookup_filter_Some]]%lookup_insert_Some.
    + by injection E as <- <- _ _.
    + by eapply H2.
Qed.

Lemma pwrite_changes fd offset buffer v count v' :
  buffer ≠ [] → pwrite fd offset buffer v = (Ok count, v') →
  ∃ i n, v_tree v' = set_inodes (insert i n) (v_tree v) ∧ v_cache v' = invalidate_inode i (v_cache v).
Proof.
  intros Hb. unfold pwrite, bind at 1. rewrite on_fds_get. destruct (ft_entries _ !! fd) as [e|]; [|done].
  destruct (h_descriptions (fw_heap (v_fds v)) !! en_description e) as [d|] eqn:Hd.
  2: { unfold bind, on_fds, description, gets, lift, id. unfold bind. by rewrite Hd. }
  unfold bind at 1. rewrite (on_fds_description e d v Hd). destruct (negb (can_write (fd_flags d))); [done|].
  destruct (fr_kind (en_file e)); try done. unfold on_tree, write_node, bind, gets, lift, modify, id. simpl.
  destruct (lookup_inode _ _) as [n|]; [|done]. simpl. pose proof (write_at_cases offset buffer n) as Hc.
  destruct (write_at offset buffer n) as [r n']. destruct Hc as [_ [->|[Hr _]]]; [|destruct r; [naive_solver|done..]].
  rewrite (proj2 (Z.ltb_lt _ _) (zlen_pos buffer Hb)). unfold ret. intros [= _ <-]. by exists (inode_id_of e), n'.
Qed.

Lemma invalidate_other_generation i j c : i ≠ j → key_generation j (invalidate_inode i c) = key_generation j c.
Proof. intros Hne. unfold key_generation, invalidate_inode. simpl. by rewrite lookup_insert_ne. Qed.

(** A write through a descriptor starts a new generation of its inode, so that what the cache
    holds of the old contents is not found again, unless the counter wraps around. *)
Lemma pwrite_keeps_mapping_cache c fd offset buffer v count v' :
  buffer ≠ [] → (∀ i, key_generation i (v_cache v) < key_generation i (invalidate_inode i (v_cache v))) →
  pwrite fd offset buffer v = (Ok count, v') → mapping_cache_ok c v → mapping_cache_ok c v'.
Proof.
  intros Hb Hgen Hw [H1 H2]. destruct (pwrite_changes _ _ _ _ _ _ Hb Hw) as (i & m & Ht & Hc). split.
  - intros inode offset' len bytes n headers. rewrite Hc, Ht. destruct (decide (i = inode)) as [<-|Hne].
    + intros Hbytes. apply H2 in Hbytes. specialize (Hgen i). lia.
    + rewrite invalidate_other_generation by done. simpl. rewrite lookup_insert_ne by done. apply H1.
  - intros inode g offset' len bytes Hbytes. apply H2 in Hbytes. rewrite Hc. destruct (decide (i = inode)) as [<-|Hne].
    + specialize (Hgen i). lia.
    + by rewrite invalidate_other_generation.
Qed.
End files.

(** ** A mapping of a file, in memory *)
Section memory.
Context {OS : HostOs} {OL : HostOsLaws OS}.

(** The pages of the mapping at [a] show [bytes] with zeros behind them; the rest of the address
    space is as it was. *)
Definition maps_bytes (w : World) (args : MmapSyscallArgs) (bytes : list Z) (a : Z) (w' : World) : Prop :=
  ∃ p kind len, protection_from_linux (mm_prot args) = Ok p ∧ mmap_kind args = Ok kind ∧
    page_round_length (mm_length args) = Ok len ∧ mm_length args ≤ len ∧ chosen w args len a ∧
    (∀ i, 0 ≤ i < len →
       cell_at w' (a + i) = Some {| c_protection := p; c_kind := kind; c_byte := default 0 (byte_at bytes i) |}) ∧
    (allocs_disjoint w → ∀ x, ¬ a ≤ x < a + len → cell_at w' x = cell_at w x).

Lemma mprotect_pages w args w' len :
  world_wf w → 0 ≤ mp_addr args → 0 ≤ mp_length args → mprotect args w = (Ok tt, w') →
  page_round_length (mp_length args) = Ok len →
  contained w w' ∧ ∃ p, protection_from_linux (mp_prot args) = Ok p ∧
    reprotected w w' (mp_addr args) (mp_addr args + len) p.
Proof.
  intros Hwf Ha Hl Hrun Hlen. pose proof (wp_mprotect w args Hwf Ha Hl) as H. unfold wp in H. rewrite Hrun in H.
  destruct H as (Hc & p & Hp & [[Hz _]|(e & He & _ & Hr)]).
  - unfold page_round_length in Hlen. by rewrite Hz in Hlen.
  - split; [done|]. exists p. split; [done|]. unfold checked_page_range in He.
    destruct (is_page_aligned _); [|done]. simpl in He. destruct (_ =? 0); [done|]. rewrite Hlen in He. simpl in He.
    pose proof (page_round_length_Ok _ _ Hl Hlen) as [? _]. apply checked_raw_range_Ok in He as [-> _]; [done|lia].
Qed.

Lemma write_bytes_stored w a bytes w' :
  world_wf w → 0 ≤ a → GuestMemoryOps.write a bytes w = (Ok tt, w') →
  world_wf w' ∧ respects_others w w' ∧ stored w w' a bytes.
Proof.
  intros Hwf Ha Hrun. pose proof (write_guest_spec w a bytes Hwf Ha) as H. unfold wp in H.
  unfold GuestMemoryOps.write in Hrun. rewrite Hrun in H. destruct H as (? & ? & ? & _). done.
Qed.

(** Mapping, opening for writing, writing, and protecting as asked. *)
Lemma mapping_shows_bytes w args a bytes w1 w2 w3 w4 prot :
  world_wf w → gm_host_address_mode (w_mem w) = Flexible → 0 ≤ gm_mmap_base (w_mem w) →
  0 ≤ mm_addr args → 0 ≤ mm_length args → zlen bytes ≤ mm_length args →
  GuestMemoryOps.mmap args w = (Ok a, w1) →
  mprotect {| mp_addr := a; mp_length := mm_length args; mp_prot := prot |} w1 = (Ok tt, w2) →
  GuestMemoryOps.write a bytes w2 = (Ok tt, w3) →
  mprotect {| mp_addr := a; mp_length := mm_length args; mp_prot := mm_prot args |} w3 = (Ok tt, w4) →
  world_wf w4 ∧ respects_others w w4 ∧ maps_bytes w args bytes a w4.
Proof.
  intros Hwf Hmode Hbase Ha Hl Hfit H1 H2 H3 H4.
  pose proof (wp_map_done w args Hwf Hmode Hbase Ha Hl) as Hm. unfold wp in Hm. rewrite H1 in Hm.
  destruct Hm as (C1 & p & kind & len & Hp & Hk & Hlen & Hch & Hnew & Hout).
  pose proof Hch as (_ & Hmin & _). unfold MIN_GUEST_ADDRESS, GUEST_PAGE_SIZE in Hmin.
  apply (mprotect_pages _ _ _ len (ct_wf _ _ C1)) in H2 as (C2 & p2 & _ & R2); simpl in *; [|lia|lia|done].
  apply write_bytes_stored in H3 as (Hwf3 & O3 & S3); [|apply C2|lia].
  apply (mprotect_pages _ _ _ len Hwf3) in H4 as (C4 & p4 & Hp4 & R4); simpl in *; [|lia|lia|done].
  rewrite Hp in Hp4. injection Hp4 as <-. pose proof (page_round_length_Ok _ _ Hl Hlen) as [Hpos _].
  assert (Hround : mm_length args ≤ len).
  { unfold page_round_length in Hlen. destruct (_ =? 0); [done|]. destruct (align_up_bounds _ _ Hlen Hl) as [_ ?]. lia. }
  split; [apply C4|]. split; [etransitivity; [apply C1|etransitivity; [apply C2|etransitivity; [exact O3|apply C4]]]|].
  exists p, kind, len. split_and!; [done..| |].
  - intros i Hi. rewrite R4. unfold in_range. rewrite (proj2 (Z.leb_le _ _)), (proj2 (Z.ltb_lt _ _)) by lia. simpl.
    rewrite S3. replace (a + i - a) with i by lia. rewrite R2. unfold in_range.
    rewrite (proj2 (Z.leb_le _ _)), (proj2 (Z.ltb_lt _ _)) by lia. simpl.
    rewrite (proj1 (Hnew (a + i) ltac:(lia))). simpl. by destruct (byte_at bytes i).
  - intros Hd x Hx. assert (in_range a (a + len) x = false) as Hr.
    { unfold in_range. destruct (Z.leb_spec a x), (Z.ltb_spec x (a + len)); simpl; (done || lia). }
    assert (byte_at bytes (x - a) = None) as Hb.
    { unfold byte_at, zlen in *. destruct (Z.ltb_spec (x - a) 0); [done|]. apply lookup_ge_None. lia. }
    rewrite R4, Hr, S3, Hb, R2, Hr. by apply (Hout Hd).
Qed.
End memory.

Section runtime.
Context {OS : HostOs} {OL : HostOsLaws OS} {host_fs : HostFs} {host_mapping : HostMapping}.
Context {NetWorld Handle Transport BatchPoll : Type} {host_sockets : HostSockets NetWorld Handle Transport BatchPoll}.
Context {FloatingPoint : Type}.

Abbreviation Runtime := (RuntimeSubsystems (NetWorld := NetWorld) (Handle := Handle) (Transport := Transport) (FloatingPoint := FloatingPoint)).
Abbreviation SubM := (SubM (NetWorld := NetWorld) (Handle := Handle) (Transport := Transport) (FloatingPoint := FloatingPoint)).
Implicit Types s : Runtime.

Lemma file_bytes_quiet fd offset len prot flags : moves quiet_step (file_backed_mmap_bytes fd offset len prot flags : SubM _).
Proof.
  unfold file_backed_mmap_bytes, change_mapping_cache.
  repeat first [apply quiet_vfs | (apply quiet_native; by intros []) | moves_step].
Qed.

Lemma cache_key_of_file fd data e v offset len prot flags :
  file_open fd data v e →
  file_backed_mmap_cache_key fd offset len prot flags v =
  (Ok (if has_bits prot LINUX_PROT_WRITE || negb (has_bits flags LINUX_MAP_PRIVATE) then None
       else Some ((inode_id_of e, key_generation (inode_id_of e) (v_cache v)), offset, len)), v).
Proof.
  intros [He (d & Hd & Hr) Hk (n & Hn & Hnk & _)]. unfold file_backed_mmap_cache_key. destruct (_ || _); [done|].
  unfold regular_file_cache_key, bind at 1 2. rewrite on_fds_get, He. unfold bind at 1. rewrite (on_fds_description e d v Hd), Hr, Hk.
  unfold bind, gets, id, lookup_inode. simpl. unfold inode_id_of in *. rewrite Hn. simpl. by rewrite Hnk.
Qed.

Lemma mapped_bytes_show_file o fd data e headers offset len prot flags s bytes s' :
  vfs_ok o (rf_vfs (rt_files s)) → file_open fd data (rf_vfs (rt_files s)) e → file_headers data headers →
  0 ≤ offset → 0 < len → offset + len < 2 ^ 64 →
  mapping_cache_ok (nx_file_backed_mapping_cache (rt_native s)) (rf_vfs (rt_files s)) →
  file_backed_mmap_bytes fd offset len prot flags s = (Ok bytes, s') →
  shows_file headers data offset len bytes ∧ (∃ c, right_cache (rf_vfs (rt_files s)) c ∧ rf_vfs (rt_files s') = set_cache c (rf_vfs (rt_files s))) ∧
  mapping_cache_ok (nx_file_backed_mapping_cache (rt_native s')) (rf_vfs (rt_files s')).
Proof.
  intros Hv Hf Hh Ho Hl Hend Hc Hrun. set (v := rf_vfs (rt_files s)) in *.
  destruct (file_bytes_looks o fd data e headers offset len _ Hv Hf Hh Ho Hl Hend) as (r & (c & Hcache & Hr) & Hshow).
  assert (Hread : ∀ s0, rf_vfs (rt_files s0) = v →
    (on_files (on_vfs (read_file_backed_mmap_bytes fd offset len)) : SubM _) s0 =
    (Ok r, set_rt_files (set_rf_vfs (set_cache c v) (rt_files s0)) s0)).
  { intros s0 H0. unfold on_files, on_vfs. by rewrite H0, Hr. }
  assert (Hall : ∀ hs, file_headers data hs → shows_file hs data offset len r).
  { intros hs Hhs. destruct (file_bytes_looks o fd data e hs offset len _ Hv Hf Hhs Ho Hl Hend) as (r' & (c' & _ & Hr') & Hshow').
    rewrite Hr in Hr'. by injection Hr' as <- _. }
  assert (Hread_ok : mapping_cache_ok (nx_file_backed_mapping_cache (rt_native s)) (set_cache c v)).
  { eapply mapping_cache_read; [exact Hc|done|apply Hcache]. }
  pose proof Hf as [_ _ _ (n & Hn & Hk & Hd & Hdata)].
  unfold file_backed_mmap_bytes in Hrun. apply bind_Ok_inv in Hrun as (key & s1 & Hkey & Hrun).
  unfold on_files, on_vfs in Hkey. rewrite (cache_key_of_file fd data e) in Hkey by done. injection Hkey as <- <-.
  destruct (_ || _).
  { rewrite Hread in Hrun by done. injection Hrun as <- <-. split_and!; [done|by exists c|exact Hread_ok]. }
  unfold bind at 1, gets in Hrun. cbv beta iota in Hrun. unfold cache_lookup in Hrun. simpl in Hrun.
  destruct (mc_entries _ !! _) as [hit|] eqn:Hhit.
  - unfold bind, ret, change_mapping_cache, set_native, modify in Hrun. injection Hrun as <- <-. split_and!.
    + rewrite <- Hdata in Hh |- *. by eapply (mk_current _ _ Hc).
    + exists (v_cache v). split; [by eapply right_cache_self|simpl; by rewrite set_cache_id].
    + simpl. by apply mapping_cache_counters.
  - unfold bind at 1, change_mapping_cache at 1, set_native at 1, modify at 1 in Hrun. cbv beta iota in Hrun.
    unfold bind at 1, change_mapping_cache at 1, set_native at 1, modify at 1 in Hrun. cbv beta iota in Hrun.
    unfold bind at 1 in Hrun. rewrite Hread in Hrun by done.
    unfold bind, ret, change_mapping_cache, set_native, modify in Hrun. injection Hrun as <- <-. split_and!; [done|by exists c|].
    simpl. fold v. rewrite <- (proj2 Hcache (inode_id_of e)). eapply mapping_cache_insert; [by apply mapping_cache_counters|exact Hn|].
    by rewrite Hdata.
Qed.

(** *** Calls on the selected memory *)
Lemma on_memory_Ok {A} (m : MemM A) s a s' :
  memory_result (on_selected_memory m) s = (Ok a, s') →
  m (rf_memory (rt_files s)) = (Ok a, rf_memory (rt_files s')) ∧ s' = set_rt_world (rf_memory (rt_files s')) s.
Proof.
  unfold memory_result, on_selected_memory. destruct (m (rf_memory (rt_files s))) as [[x|x|] w]; [|done..].
  by intros [= <- <-].
Qed.

Lemma selected_world_wf s : rt_ok s → world_wf (rf_memory (rt_files s)).
Proof.
  intros [Hwf _ _ _ _ _]. pose proof (sw_mem _ Hwf (rt_selected_memory_pid s) (rt_selected_memory s)) as H.
  unfold rt_system, rt_heap, rt_selected_memory in H. simpl in H. rewrite lookup_insert_eq in H.
  specialize (H eq_refl). unfold world_wf. by destruct (rf_memory (rt_files s)).
Qed.

(** What [populate_file_backed_mmap] does when it returns. *)
Lemma populate_Ok mapped length prot flags fd offset s s' :
  populate_file_backed_mmap mapped length prot flags fd offset s = (Ok tt, s') →
  0 ≤ offset ∧ ∃ bytes s1 w2 w3 w4,
    file_backed_mmap_bytes fd offset length prot flags s = (Ok bytes, s1) ∧
    mprotect {| mp_addr := mapped; mp_length := length; mp_prot := Z.lor LINUX_PROT_READ LINUX_PROT_WRITE |}
      (rf_memory (rt_files s1)) = (Ok tt, w2) ∧
    GuestMemoryOps.write mapped bytes w2 = (Ok tt, w3) ∧
    mprotect {| mp_addr := mapped; mp_length := length; mp_prot := prot |} w3 = (Ok tt, w4) ∧
    s' = set_rt_world w4 s1.
Proof.
  unfold populate_file_backed_mmap. destruct (Z.ltb_spec offset 0) as [|Ho]; [done|]. intros H. split; [done|].
  apply bind_Ok_inv in H as (bytes & s1 & Hb & H). apply bind_Ok_inv in H as ([] & s2 & H2 & H).
  apply on_memory_Ok in H2 as [H2 E2].
  destruct (memory_result (on_selected_memory (GuestMemoryOps.write mapped bytes)) s2) as [[[]|e|] s3] eqn:H3.
  - apply on_memory_Ok in H3 as [H3 E3]. apply on_memory_Ok in H as [H4 E4].
    exists bytes, s1, (rf_memory (rt_files s2)), (rf_memory (rt_files s3)), (rf_memory (rt_files s')).
    split_and!; try done. rewrite E4, E3, E2. by destruct s1 as [? ? ? ? ? ? [] ? ?].
  - unfold on_err, throw in H. by destruct (memory_result _ s3) as [[]].
  - done.
Qed.

(** The state in which process [pid] maps a window of an open file into an address space at
    flexible host addresses. *)
Record maps_file (pid : Z) (args : MmapSyscallArgs) (o : Others) (e : FdEntry) (data : list Z)
    (headers : list Elf64ProgramHeaderView) s : Prop := {
  mf_call : callable pid s;
  mf_memory : rt_selected_memory_pid s = pid;
  mf_fds : rt_selected_fds_pid s = pid;
  mf_mode : gm_host_address_mode (rt_selected_memory s) = Flexible;
  mf_base : 0 ≤ gm_mmap_base (rt_selected_memory s);
  mf_args : 0 ≤ mm_addr args ∧ 0 ≤ mm_length args ∧ is_anonymous args = false;
  mf_window : mm_offset args + mm_length args < 2 ^ 64;
  mf_vfs : vfs_ok o (rf_vfs (rt_files s));
  mf_file : file_open (mm_fd args) data (rf_vfs (rt_files s)) e;
  mf_headers : file_headers data headers;
  mf_cache : mapping_cache_ok (nx_file_backed_mapping_cache (rt_native s)) (rf_vfs (rt_files s));
}.

Lemma mmap_file_spec pid args o e data headers s a s' :
  maps_file pid args o e data headers s → mmap pid args s = (Ok a, s') →
  own_step s s' ∧ mapping_cache_ok (nx_file_backed_mapping_cache (rt_native s')) (rf_vfs (rt_files s')) ∧
  (∃ c, right_cache (rf_vfs (rt_files s)) c ∧ rf_vfs (rt_files s') = set_cache c (rf_vfs (rt_files s))) ∧
  ∃ bytes, shows_file headers data (mm_offset args) (mm_length args) bytes ∧
    maps_bytes (rf_memory (rt_files s)) args bytes a (rf_memory (rt_files s')).
Proof.
  intros [[Hok Hex Hn] Hm Hf Hmode Hbase (Ha & Hl & Hfile) Hwin Hv Ho Hh Hc] H. unfold mmap in H.
  apply bind_Ok_inv in H as (mapped & s1 & H1 & H). apply on_memory_Ok in H1 as [H1 E1]. rewrite Hfile in H.
  apply bind_Ok_inv in H as ([] & s2 & H2 & H). apply bind_Ok_inv in H as ([] & s3 & H3 & [= -> <-]).
  apply populate_Ok in H2 as (Hoff & bytes & s1' & w2 & w3 & w4 & Hb & P2 & W3 & P4 & E2).
  pose proof (moves_at _ _ _ _ (file_bytes_quiet (mm_fd args) (mm_offset args) (mm_length args) (mm_prot args) (mm_flags args)) Hb) as [[Q M] _].
  rewrite M in P2. set (w := rf_memory (rt_files s)) in *. set (w1 := rf_memory (rt_files s1)) in *.
  assert (Hwf : world_wf w) by (by apply selected_world_wf).
  assert (Hpos : 0 < mm_length args).
  { pose proof (wp_map_done w args Hwf Hmode Hbase Ha Hl) as Hd. unfold wp in Hd. rewrite H1 in Hd.
    destruct Hd as (_ & ? & ? & ? & _ & _ & Hlen & _). unfold page_round_length in Hlen.
    destruct (Z.eqb_spec (mm_length args) 0); [done|]. lia. }
  rewrite E1 in Hb.
  destruct (mapped_bytes_show_file o (mm_fd args) data e headers (mm_offset args) (mm_length args) (mm_prot args) (mm_flags args) (set_rt_world w1 s) bytes s1'
    Hv Ho Hh Hoff Hpos Hwin Hc Hb) as (Hshow & Hvfs & Hcache).
  destruct (mapping_shows_bytes w args a bytes w1 w2 w3 w4 _ Hwf Hmode Hbase Ha Hl (proj1 Hshow) H1 P2 W3 P4) as (Hwf4 & Ho4 & Hmap).
  assert (s3 = s2) as ->.
  { unfold register_file_backed_libc_intrinsic_patches in H3. apply bind_Ok_inv in H3 as (en & s2' & [= <- <-] & H3).
    rewrite E2 in H3. simpl in H3. rewrite (os_native _ _ Q), E1 in H3. simpl in H3. rewrite (ro_interpreted _ Hok) in H3.
    simpl in H3. injection H3 as <-. by rewrite E2. }
  assert (rf_memory (rt_files s2) = w4) as -> by (by rewrite E2).
  assert (Hvfs2 : rf_vfs (rt_files s2) = rf_vfs (rt_files s1') ∧ rt_native s2 = rt_native s1') by (by rewrite E2).
  destruct Hvfs2 as [-> ->]. split; [|split; [done|split; [exact Hvfs|eauto]]].
  rewrite E1 in Q. destruct Q as [Q1 Q2 Q3 Q4 Q5 Q6 _]. rewrite E2. split; try done.
Qed.

(** *** Calls that change what is mapped *)
Lemma memory_outcome_moves {A} (f : A → SyscallOutcome) (m : MemM A) :
  moves reshaped_by m → moves memory_step (memory_outcome f m : SubM _).
Proof.
  intros Hm s. specialize (Hm (rf_memory (rt_files s))). unfold memory_outcome, on_selected_memory.
  destruct (m (rf_memory (rt_files s))) as [[x|x|] w]; by split; [split|].
Qed.

Lemma native_moves f : (∀ n, nx_enabled (f n) = nx_enabled n) → moves memory_step (set_native f : SubM unit).
Proof. intros Hf s. split; [|done]. split; try done. apply Hf. Qed.

Lemma invalidate_moves pid start len : moves memory_step (invalidate_native_patch_cache_range pid start len : SubM unit).
Proof.
  unfold invalidate_native_patch_cache_range, invalidate_native_patch_cache, change_patch_cache.
  destruct (checked_add64 _ _); apply native_moves; intros n; by destruct (nx_patch_caches n !! pid).
Qed.

(** The calls that change the mapped areas and never leave one behind when they fail. *)
Definition changes_areas (call : Syscall) : bool :=
  match call with SysMunmap | SysMprotect | SysMadvise => true | _ => false end.

Lemma memory_dispatch_isolated request s :
  changes_areas (rq_syscall request) = true → 0 ≤ arg0 (rq_args request) → 0 ≤ arg1 (rq_args request) →
  rt_ok s → process_exists (rq_pid request) s = true →
  let s' := (dispatch_memory false request s).2 in rt_ok s' ∧ others_kept (rq_pid request) s s'.
Proof.
  intros Hc H0 H1 Hok Hex. apply call_isolated; [done..|].
  unfold guest_dispatch_memory, invalidate_changed_code.
  destruct (rq_syscall request); try done; apply select_memory_isolated;
    (apply moves_bind; [apply memory_outcome_moves|intros o; destruct (so_result o);
      [apply moves_bind; [apply (store_moves _)|intros _]; apply moves_bind; [|intros _; apply moves_ret];
       first [destruct (has_bits _ _); [apply invalidate_moves|apply moves_ret] | apply invalidate_moves | apply moves_ret]
      |apply moves_ret]]).
  - intros w Hwf. eapply (wp_reshaped _ _ _ _ (wp_mprotect w (mprotect_from_args (rq_args request)) Hwf H0 H1)); [..|done]; cbv beta.
    + intros _ w' [Ct _]. by apply contained_reshaped.
    + intros e w' [Ct _]. by apply contained_reshaped.
  - intros w Hwf. eapply (wp_reshaped _ _ _ _ (wp_munmap w (munmap_from_args (rq_args request)) Hwf H0 H1)); [..|done]; cbv beta.
    + intros _ w' [Ct _]. by apply contained_reshaped.
    + by intros e w' [-> _].
  - apply moves_lift.
Qed.
End runtime.
