(* ===== verification/RtTheorems.v ===== *)
(** * mcr-runtime: theorems

    What the calls of the runtime do to the memories and descriptors of the processes. *)

From S2P Require Import Prelude SysAbi SyscallTable Dispatcher HostMemory GuestMemory GuestMemoryOps GuestVmas GuestMemoryInv GuestMemoryHost GuestMemorySteps GuestMemoryAccess GuestMemoryMmap GuestMemoryFork GuestMemorySystem GuestMemoryTheorems Bytes SysCodec SysCodecTheorems ElfParser ElfImage ElfPlan ElfLayout ElfTheorems ImageMemory TaskTypes TaskKernel TaskWait TaskSyscalls TaskInv TaskSystem TaskTheorems VfsTypes VfsPath VfsTree VfsFd VfsFdWf VfsCache VfsSystem VfsResolve VfsOk VfsLinks VfsMoves VfsSteps VfsTheorems NetTypes NetTable NetTheorems JitPatch RtSignals RtAbi RtFiles RtFileCalls RtMemory RtEvents RtNet RtProcess RtPoll RtTasks RtExec RtIsolation RtForkExec RtMmap.
From stdpp Require Import base gmap list sorting strings.
From Stdlib Require Import ZArith Lia.
Open Scope Z_scope.

Section runtime.
Context {OS : HostOs} {OL : HostOsLaws OS} {host_fs : HostFs} {host_mapping : HostMapping}.
Context {NetWorld Handle Transport BatchPoll : Type} {host_sockets : HostSockets NetWorld Handle Transport BatchPoll}.
Context {FloatingPoint : Type}.

Abbreviation Runtime := (RuntimeSubsystems (NetWorld := NetWorld) (Handle := Handle) (Transport := Transport) (FloatingPoint := FloatingPoint)).
Abbreviation SubM := (SubM (NetWorld := NetWorld) (Handle := Handle) (Transport := Transport) (FloatingPoint := FloatingPoint)).
Implicit Types s : Runtime.

(** ** The calls, one by one *)
Lemma poll_base_moves fd events : moves own_step (poll_fd_base_revents_and_socket fd events : SubM _).
Proof.
  unfold poll_fd_base_revents_and_socket. call_steps. apply on_files_moves, socket_id_for_fd_moves.
Qed.
#[local] Hint Resolve poll_base_moves : moves.

Lemma on_epolls_moves {A} (m : EpollM A) : moves own_step (on_epolls m : SubM A).
Proof. intros s. unfold on_epolls. destruct (m _). by split. Qed.
#[local] Hint Resolve on_epolls_moves : moves.

Lemma poll_slots_moves sockets timeout has_ready : moves own_step (poll_socket_slots sockets timeout has_ready : SubM _).
Proof. unfold poll_socket_slots. call_steps. Qed.
#[local] Hint Resolve poll_slots_moves : moves.

Lemma epoll_ready_moves watches maxevents timeout : moves own_step (epoll_ready_events watches maxevents timeout : SubM _).
Proof. unfold epoll_ready_events, epoll_watch_revents, poll_fd_revents. call_steps. Qed.
#[local] Hint Resolve epoll_ready_moves : moves.

Lemma epoll_wait_moves epfd addr maxevents timeout : moves own_step (epoll_wait epfd addr maxevents timeout : SubM Z).
Proof. unfold epoll_wait, write_epoll_events. call_steps. Qed.
#[local] Hint Resolve epoll_wait_moves : moves.

Lemma poll_calls_move :
  (∀ addr nfds timeout, moves own_step (poll_fds addr nfds timeout : SubM Z)) ∧
  ∀ nfds r w e timeout, moves own_step (select_fds nfds r w e timeout : SubM Z).
Proof. unfold poll_fds, select_fds, select_ready_fds. split; intros; call_steps. Qed.

Lemma event_calls_move :
  (∀ flags, moves own_step (epoll_create1 flags : SubM Z)) ∧
  (∀ initial flags, moves own_step (eventfd2 initial flags : SubM Z)) ∧
  ∀ epfd op fd addr, moves own_step (epoll_ctl epfd op fd addr : SubM Z).
Proof.
  unfold epoll_create1, eventfd2, epoll_ctl, close_epoll. split_and!; intros; call_steps. intros s; by split.
Qed.

(** Only these task calls take a process away or give one a new memory. *)
Definition replaces_processes (call : Syscall) : bool :=
  match call with
  | SysFork | SysVfork | SysClone | SysClone3 | SysExecve | SysExit | SysExitGroup | SysWait4 => true
  | _ => false
  end.

Lemma event_dispatch_isolated request :
  moves (isolated (rq_pid request)) (match rq_syscall request with
    | SysPoll => dispatch_poll request | SysSelect => dispatch_select request | SysPpoll => dispatch_ppoll request
    | SysEventfd2 => dispatch_eventfd2 request | SysEpollCreate1 => dispatch_epoll_create1 request
    | SysEpollCtl => dispatch_epoll_ctl request | SysEpollWait => dispatch_epoll_wait request
    | SysEpollPwait => dispatch_epoll_pwait request | SysEpollPwait2 => dispatch_epoll_pwait2 request
    | _ => ret outcome_unsupported
    end : SubM SyscallOutcome).
Proof.
  unfold dispatch_poll, dispatch_select, dispatch_ppoll, dispatch_eventfd2, dispatch_epoll_create1, dispatch_epoll_ctl,
    dispatch_epoll_wait, dispatch_epoll_pwait, dispatch_epoll_pwait2, store_fds.
  destruct (rq_syscall request); try (by intros s); apply select_context_isolated; call_steps;
    first [apply poll_calls_move | apply event_calls_move].
Qed.

Lemma time_dispatch_isolated clock request :
  moves (isolated (rq_pid request)) (do* select_memory_for_process (rq_pid request);
    let* o := match rq_syscall request with
              | SysClockGettime => as_outcome (clock_gettime clock (arg0 (rq_args request)) (arg1 (rq_args request)))
              | SysClockGetres => as_outcome (clock_getres (arg0 (rq_args request)) (arg1 (rq_args request)))
              | SysGettimeofday => as_outcome (gettimeofday clock (arg0 (rq_args request)) (arg1 (rq_args request)))
              | SysNanosleep => as_outcome (nanosleep clock (rq_tid request) (arg0 (rq_args request)))
              | SysGetrandom => as_outcome (getrandom (arg0 (rq_args request)) (arg1 (rq_args request)) (arg2 (rq_args request)))
              | _ => ret outcome_unsupported
              end in
    store_memory (rq_pid request) o : SubM SyscallOutcome).
Proof.
  apply select_memory_isolated. apply moves_bind; [|intros o; call_steps].
  unfold clock_gettime, clock_getres, gettimeofday, nanosleep, getrandom, block_task_for_sleep.
  destruct (rq_syscall request); try (by intros s); call_steps.
Qed.

(** The calls that select the memory and then work on it. *)
Lemma memory_call_isolated pid (m : SubM Z) : moves memory_step m → moves (isolated pid) (with_selected_memory pid m).
Proof. intros Hm. apply select_memory_isolated. call_steps. Qed.

Lemma unit_call_isolated pid (m : SubM unit) : moves (isolated pid) m → moves (isolated pid) (unit_call m).
Proof. intros Hm. unfold unit_call. apply moves_bind; [done|]. intros _. apply moves_ret. Qed.

Lemma futex_isolated clock request : moves (isolated (rq_pid request)) (dispatch_futex clock request : SubM _).
Proof.
  unfold dispatch_futex. apply select_memory_isolated.
  unfold futex, futex_wait, futex_wake, futex_requeue, request_scheduler_yield, prune_futex_timeouts, block_task_for_futex.
  call_steps.
Qed.

Lemma signal_calls_isolated clock request :
  let isolated_call {A} (m : SubM A) := moves (isolated (rq_pid request)) m in
  isolated_call (rt_sigaction request) ∧ isolated_call (rt_sigprocmask request) ∧
  isolated_call (rt_sigtimedwait clock request) ∧ isolated_call (rt_sigsuspend request) ∧ isolated_call (sigaltstack request).
Proof.
  intros isolated_call. unfold isolated_call.
  unfold rt_sigaction, rt_sigprocmask, rt_sigtimedwait, rt_sigsuspend, sigaltstack, outcome_unit.
  split_and!; apply select_memory_isolated; call_steps.
Qed.

Lemma sched_calls_isolated request :
  let isolated_call {A} (m : SubM A) := moves (isolated (rq_pid request)) m in
  isolated_call (sched_getparam request) ∧ isolated_call (sched_getaffinity request) ∧
  isolated_call (dispatch_sched_getscheduler request).
Proof.
  intros isolated_call. unfold isolated_call. unfold sched_getparam, sched_getaffinity, dispatch_sched_getscheduler.
  assert (Hsel : ∀ m : SubM unit, moves memory_step m → moves (isolated (rq_pid request)) (do* select_memory_for_process (rq_pid request); m)).
  { intros m. apply select_memory_isolated. }
  split_and!; repeat first [apply Hsel; call_steps | moves_step].
Qed.

Lemma limit_calls_move :
  (∀ resource addr, moves memory_step (write_rlimit resource addr : SubM Z)) ∧
  (∀ who addr, moves memory_step (write_rusage who addr : SubM Z)) ∧
  (∀ addr, moves memory_step (write_sysinfo addr : SubM Z)) ∧
  (∀ o a b c d, moves memory_step (prctl o a b c d : SubM Z)) ∧
  (∀ pid raw resource new old, moves memory_step (prlimit64 pid raw resource new old : SubM Z)) ∧
  (∀ cpu node, moves memory_step (getcpu cpu node : SubM Z)).
Proof. unfold write_rlimit, write_rusage, write_sysinfo, prctl, prlimit64, getcpu. split_and!; intros; call_steps. Qed.

Lemma kernel_task_isolated request :
  replaces_processes (rq_syscall request) = false →
  moves (isolated (rq_pid request)) (dispatch_kernel_task false request : SubM SyscallOutcome).
Proof.
  intros Hc. unfold dispatch_kernel_task. apply select_context_isolated. apply moves_bind; [moves_step|]. intros k.
  assert (Hk : moves own_step (on_kernel (dispatch_for_current_task request) : SubM SyscallOutcome)).
  { apply (on_kernel_moves _). intros k'. apply keeps_dispatch. by destruct (rq_syscall request). }
  apply moves_bind; [exact Hk|]. intros o. destruct (negb (is_success o)); [apply moves_ret|].
  unfold write_uname. destruct (rq_syscall request); try discriminate Hc; call_steps.
Qed.

(** *** The task calls that replace no process *)
Lemma task_dispatch_isolated clock turns request s :
  rt_ok s → process_exists (rq_pid request) s = true → replaces_processes (rq_syscall request) = false →
  let s' := (dispatch_task false clock turns request s).2 in
  rt_ok s' ∧ others_kept (rq_pid request) s s'.
Proof.
  intros Hok Hex Hc. unfold dispatch_task.
  destruct (signal_calls_isolated clock request) as (S1 & S2 & S3 & S4 & S5).
  destruct (sched_calls_isolated request) as (C1 & C2 & C3).
  destruct limit_calls_move as (L1 & L2 & L3 & L4 & L5 & L6).
  pose proof (kernel_task_isolated request Hc) as Hkernel.
  destruct (rq_syscall request) eqn:Hs; try discriminate Hc; apply call_isolated; try done;
    first [ exact Hkernel | apply futex_isolated | (apply unit_call_isolated; assumption)
          | (apply memory_call_isolated; auto) | (by intros s1) | idtac ].
  unfold membarrier. call_steps.
Qed.

(** The calls of a process that neither create, replace nor end one: every file, socket, event
    and time call, the task calls but fork, execve, exit and wait4, and the memory calls that
    change what is mapped. *)
Definition ordinary_call (now : LinuxTimespec) (clock : RtClock) (turns : nat) (request : SyscallRequest)
    (call : RtCall (NetWorld := NetWorld) (Handle := Handle) (Transport := Transport) (FloatingPoint := FloatingPoint)) : Prop :=
  call = dispatch_file false now request ∨ call = dispatch_network false request ∨
  call = dispatch_event false request ∨ call = dispatch_time false clock request ∨
  (call = dispatch_task false clock turns request ∧ replaces_processes (rq_syscall request) = false) ∨
  (call = dispatch_memory false request ∧ changes_areas (rq_syscall request) = true ∧
   0 ≤ arg0 (rq_args request) ∧ 0 ≤ arg1 (rq_args request)).

(** C8. A system call of one process, whatever it returns, changes no byte that another process
    can read and no descriptor of another process: not of a process whose memory is shared
    copy-on-write with the caller's, and not of a forked child that still reads its parent's
    memory when the parent calls.  This holds of every file, socket, event and time call, of every
    task call that does not create, replace or end a process, and of munmap, mprotect and madvise. *)
Theorem calls_isolated (now : LinuxTimespec) (clock : RtClock) (turns : nat) (request : SyscallRequest) s (call : RtCall) :
  rt_ok s → process_exists (rq_pid request) s = true → ordinary_call now clock turns request call →
  let s' := (call s).2 in
  rt_ok s' ∧ ∀ q, q ≠ rq_pid request →
    (∀ a, process_view s' q a = process_view s q a) ∧
    fd_table_for_process q s' = fd_table_for_process q s.
Proof.
  intros Hok Hex [-> |[-> |[-> |[-> |[[-> Hc]|(-> & Hc & H0 & H1)]]]]].
  - apply call_isolated; [done..|]. apply select_context_isolated.
    assert (Hf : moves own_step (files_call (RtFileCalls.dispatch_file now request) : SubM SyscallOutcome)).
    { apply files_call_moves. intros f. apply dispatch_file_moves. }
    apply moves_bind; [|intros o; call_step].
    destruct (rq_syscall request); try exact Hf; apply as_outcome_moves; [apply close_process_fd_moves|apply close_process_fd_range_moves].
  - apply call_isolated; [done..|]. apply select_context_isolated. apply moves_bind; [|intros o; call_step].
    apply files_call_moves. intros f. apply dispatch_network_moves.
  - apply call_isolated; [done..|]. apply event_dispatch_isolated.
  - apply call_isolated; [done..|]. apply time_dispatch_isolated.
  - by apply task_dispatch_isolated.
  - by apply memory_dispatch_isolated.
Qed.


(** C11. A fork, a vfork or a clone of a process that succeeds adds a process that was not
    there: the child reads every byte its parent read and has every descriptor its parent had,
    though no memory is copied yet, and the parent and every other process see what they saw. *)
Theorem fork_copies_the_process (clock : RtClock) (turns : nat) (request : SyscallRequest) s (c : Z) s' :
  rt_ok s → process_exists (rq_pid request) s = true → kernel_wf (rt_tasks s) → forks request →
  dispatch_task false clock turns request s = (Ok (outcome_success c), s') → forked (rq_pid request) c s s'.
Proof.
  intros Hok Hex Hwf Hr H. unfold dispatch_task in H.
  assert (Hd : answer (do* memory_result (materialize_pending_fork_exec_children false (rq_pid request));
                       dispatch_fork_like request) s = (Ok (outcome_success c), s')).
  { revert H Hr. unfold forks. by destruct (rq_syscall request). }
  clear H. unfold answer in Hd.
  destruct (bind _ _ s) as [[o|e|] s2] eqn:Hb; [|by injection Hd|done]. injection Hd as -> ->.
  apply bind_Ok_inv in Hb as ([] & s1 & Hm & Hf). rewrite memory_result_after in Hm.
  pose proof (materialize_children_spec (rq_pid request) s Hok) as H1.
  destruct (materialize_pending_fork_exec_children _ _ s) as [[[]|e|] s1']; [|done..]. injection Hm as ->.
  destruct H1 as [U _]. eapply kept_forked; [by apply unseen_kept|].
  apply (fork_like_spec request s1 (outcome_success c) s' c); try done; [apply U| |by rewrite (un_tasks _ _ U)].
  unfold process_exists. by rewrite (un_tasks _ _ U).
Qed.


(** C12. An execve that succeeds runs the program of its call: the file name, the arguments and
    the environment are those in the memory of the caller where the call says, the program is
    what [load_guest_program] reads for them in the file system of the caller, with these
    arguments and this environment (or, for a script, its interpreter with the script among the
    arguments), and at every address the process reads the byte, with the protection, of the
    image that mcr-elf builds for it.  Nothing of the old program is left, also when the process
    is a forked child that never had a memory of its own.  Whatever an execve returns, the
    runtime stays well formed and the other processes see what they saw. *)
Theorem execve_replaces_the_memory (clock : RtClock) (turns : nat) (request : SyscallRequest) s :
  rt_ok s → process_exists (rq_pid request) s = true → kernel_wf (rt_tasks s) →
  t_pid <$> k_tasks (rt_tasks s) !! rq_tid request = Some (rq_pid request) → rq_syscall request = SysExecve →
  let (r, s') := dispatch_task false clock turns request s in
  rt_ok s' ∧ others_kept (rq_pid request) s s' ∧
  (r = Ok (outcome_success 0) →
   ∃ program process, program_of_call turns request s program ∧ load_program program = Ok (p_image process) ∧
     gi_argv (p_image process) = gp_argv program ∧ gi_envp (p_image process) = gp_envp program ∧
     executed (rq_pid request) process s s').
Proof.
  intros Hok Hex Hwf Ht Hs. unfold dispatch_task. rewrite Hs.
  assert (Hstays : stays (rq_pid request) s (do* ret tt; unit_call (execve false turns request))).
  { unfold unit_call. apply stays_bind; [by apply stays_same|]. intros [] s0 [= <-].
    apply stays_bind; [by apply execve_stays|]. intros [] s1 H1. apply stays_same; [|done].
    pose proof (execve_stays turns request s Hok Hex Hwf Ht) as [Ok1 _]. by rewrite H1 in Ok1. }
  unfold stays in Hstays. unfold answer. destruct (bind _ _ s) as [[o|e|] s'] eqn:Hb; simpl in Hstays;
    (split; [apply Hstays|split; [apply Hstays|intros Hr]]); [|done..].
  apply bind_Ok_inv in Hb as ([] & s0 & [= <-] & Hb). unfold unit_call in Hb. apply bind_Ok_inv in Hb as ([] & s1 & He & [= _ ->]).
  destruct (execve_spec _ _ _ _ Hok Hex Hwf Ht He) as (program & process & Hp & Hl & Hx).
  exists program, process. pose proof Hl as Hl'. unfold load_program in Hl'.
  apply obind_Ok_inv in Hl' as (plan & _ & Hl'). apply obind_Ok_inv in Hl' as (memory & _ & Hi). injection Hi as Hi. split_and!; try done; by rewrite <- Hi.
Qed.

(** The state after the contexts of some processes were selected in turn. *)
Definition switched (pids : list Z) s : Runtime := foldl (λ s pid, (select_process_context pid s).2) s pids.

(** C10. Selecting the contexts of processes, in any order and whatever each selection returns,
    changes nothing that any process sees: not a byte of its memory, not a descriptor, not an
    open file, socket or task.  The next selection then gives the runtime the memory and the
    descriptors of its process, unless the process has none or the host is out of memory. *)
Theorem context_switches_unseen (pids : list Z) (pid : Z) s :
  rt_ok s → Forall (λ p, process_exists p s = true) (pid :: pids) →
  let s1 := switched pids s in
  kept s s1 ∧
  match select_process_context pid s1 with
  | (Ok _, s2) => kept s s2 ∧ rt_selected_memory_pid s2 = pid ∧ rt_selected_fds_pid s2 = pid
  | (Err e, s2) => kept s s2 ∧
      (e = ESRCH ∧ (memory_for_process pid s1 = None ∨ fd_table_for_process pid s1 = None) ∨
       ∃ x, resource_error x ∧ e = GuestMemory.memory_errno x)
  | (Panic, _) => False
  end.
Proof.
  intros Hok [Hpid Hall]%Forall_cons. intros s1.
  assert (K : kept s s1).
  { subst s1. unfold switched. revert s Hok Hpid Hall. induction pids as [|p pids IH]; intros s Hok Hpid Hall; simpl; [by apply kept_refl|].
    apply Forall_cons in Hall as [Hp Hall]. pose proof (select_context_spec p s Hok Hp) as H.
    assert (Ks : kept s (select_process_context p s).2).
    { destruct (select_process_context p s) as [[[]|e|] s']; [apply H|apply H|done]. }
    eapply kept_trans; [exact Ks|]. apply IH; [apply Ks| |].
    - unfold process_exists. by rewrite (kp_tasks _ _ Ks).
    - eapply Forall_impl; [exact Hall|]. intros x. unfold process_exists. by rewrite (kp_tasks _ _ Ks). }
  split; [done|].
  assert (Hex : process_exists pid s1 = true) by (unfold process_exists; by rewrite (kp_tasks _ _ K)).
  pose proof (select_context_spec pid s1 (kp_ok _ _ K) Hex) as H.
  destruct (select_process_context pid s1) as [[[]|e|] s2]; [| |done]; (split; [eapply kept_trans; [exact K|apply H]|apply H]).
Qed.
End runtime.

(** ** A forked child that has not run, next to its parent *)
#[local] Existing Instances GuestMemoryTheorems.PlainOs GuestMemoryTheorems.PlainOsLaws.

(** A host that maps no files. *)
#[local] Instance no_mappings : HostMapping := {| host_map_readonly_at _ _ _ := Err HostUnsupported |}.

Definition sample_events : EventSubsystemState :=
  {| ev_futexes := ∅; ev_futex_timeouts := ∅; ev_sleep_timeouts := ∅; ev_epolls := epoll_registry_default;
     ev_signal_alt_stacks := ∅; ev_scheduler_yield_budget := 0 |}.
Definition sample_native : NativeExecutionState (FloatingPoint := unit) :=
  {| nx_file_backed_mapping_cache := {| mc_entries := ∅; mc_hits := 0; mc_misses := 0 |};
     nx_libc_intrinsic_symbol_cache := ∅; nx_enabled := false; nx_fp := ∅; nx_patch_caches := ∅; nx_image_patch_keys := ∅; nx_image_patch_ranges := ∅;
     nx_libc_intrinsic_patches := ∅; nx_pending_fork_child_regs := None |}.

Definition SampleRuntime : Type :=
  RuntimeSubsystems (NetWorld := unit) (Handle := unit) (Transport := unit) (FloatingPoint := unit).

(** Process 1 has a page; process 2 reads it until its own copy is made. *)
Definition sample_runtime : SampleRuntime :=
  {| rt_tasks := kernel_forked; rt_memory := ∅; rt_pending_fork_exec := {[ 2 := 1 ]}; rt_selected_memory_pid := 1;
     rt_fds := {[ 2 := fw_table first_fds ]}; rt_selected_fds_pid := 1;
     rt_files := {| rf_vfs := new_vfs; rf_memory := page_world; rf_sockets := sample_net |};
     rt_native := sample_native; rt_events := sample_events |}.

Lemma sample_runtime_ok : rt_ok sample_runtime.
Proof.
  split; try (by vm_compute).
  - assert (rt_system sample_runtime = one_process) as ->; [|apply one_process_wf].
    unfold rt_system, one_process. simpl. by rewrite insert_empty.
  - intros c p H. change (({[2 := 1]} : gmap Z Z) !! c = Some p) in H. apply lookup_singleton_Some in H as [<- <-]. unfold rt_system. simpl. rewrite insert_empty.
    split; [by apply lookup_singleton_ne|]. rewrite lookup_singleton_eq. eauto.
  - intros q. unfold memory_for_process. destruct (Z.eqb_spec q (rt_selected_memory_pid sample_runtime)) as [->|_]; [by vm_compute|].
    change (rt_memory sample_runtime !! q) with ((∅ : gmap Z GuestMemory) !! q). rewrite lookup_empty.
    change (rt_pending_fork_exec sample_runtime !! q) with (({[2 := 1]} : gmap Z Z) !! q).
    destruct (decide (q = 2)) as [->|Hq]; [by vm_compute|]. rewrite lookup_singleton_ne by done. by intros [].
Qed.

(** [pipe(0x700000)] by process 1. *)
Definition pipe_request : SyscallRequest :=
  request_of SysPipe {| arg0 := 0x700000; arg1 := 0; arg2 := 0; arg3 := 0; arg4 := 0; arg5 := 0 |}.
Definition sample_now : LinuxTimespec := {| tv_sec := 0; tv_nsec := 0 |}.
Definition sample_clock : RtClock :=
  {| ck_system := Ok 0; ck_monotonic := Ok 0; ck_instant := 0; ck_instant_add := λ a b, Some (a + b); ck_sleep := Ok tt |}.

(** The pipe's first descriptor, 3, is in the parent's memory only. *)
Lemma calls_isolated_witness :
  rt_ok sample_runtime ∧ process_exists 1 sample_runtime = true ∧
  let (r, s') := dispatch_file false sample_now pipe_request sample_runtime in
  r = Ok (outcome_success 0) ∧ (c_byte <$> process_view s' 1 0x700000) = Some 3 ∧
  (c_byte <$> process_view s' 2 0x700000) = Some 0 ∧
  rt_ok s' ∧ ∀ q, q ≠ 1 → (∀ a, process_view s' q a = process_view sample_runtime q a) ∧
                          fd_table_for_process q s' = fd_table_for_process q sample_runtime.
Proof.
  split; [exact sample_runtime_ok|]. split; [by vm_compute|].
  pose proof (calls_isolated sample_now sample_clock 0 pipe_request sample_runtime _ sample_runtime_ok ltac:(by vm_compute) (or_introl eq_refl)) as H.
  assert (Hc : let c := dispatch_file false sample_now pipe_request sample_runtime in
    c.1 = Ok (outcome_success 0) ∧ (c_byte <$> process_view c.2 1 0x700000) = Some 3 ∧
    (c_byte <$> process_view c.2 2 0x700000) = Some 0) by (by vm_compute).
  revert H Hc. destruct (dispatch_file false sample_now pipe_request sample_runtime) as [r s']. simpl. tauto.
Defined.

(** The child, the parent and the child again; then the parent runs. *)
Lemma context_switches_unseen_witness :
  rt_ok sample_runtime ∧ Forall (λ p, process_exists p sample_runtime = true) [1; 2; 1; 2] ∧
  kept sample_runtime (switched [2; 1; 2] sample_runtime) ∧
  rt_selected_memory_pid (switched [2; 1; 2] sample_runtime) = 2 ∧
  (select_process_context 1 (switched [2; 1; 2] sample_runtime)).1 = Ok tt.
Proof.
  assert (Hall : Forall (λ p, process_exists p sample_runtime = true) [1; 2; 1; 2]) by (by repeat constructor).
  split; [exact sample_runtime_ok|]. split; [exact Hall|].
  split; [exact (proj1 (context_switches_unseen [2; 1; 2] 1 sample_runtime sample_runtime_ok Hall))|].
  split; by vm_compute.
Defined.

(** The second fork of process 1: its first child gets its own memory then. *)
Lemma fork_copies_the_process_witness :
  rt_ok sample_runtime ∧ process_exists 1 sample_runtime = true ∧ kernel_wf kernel_forked ∧
  let (r, s') := dispatch_task false sample_clock 0 (request_of SysFork no_args) sample_runtime in
  r = Ok (outcome_success 3) ∧ rt_pending_fork_exec s' !! 3 = Some 1 ∧ rt_pending_fork_exec s' !! 2 = None ∧
  forked 1 3 sample_runtime s'.
Proof.
  split; [exact sample_runtime_ok|]. split; [by vm_compute|].
  split; [exact (reachable_wf _ _ reach_forked)|].
  pose proof (fork_copies_the_process sample_clock 0 (request_of SysFork no_args) sample_runtime 3
    (dispatch_task false sample_clock 0 (request_of SysFork no_args) sample_runtime).2
    sample_runtime_ok ltac:(by vm_compute) (reachable_wf _ _ reach_forked) I) as H.
  assert (Hc : let c := dispatch_task false sample_clock 0 (request_of SysFork no_args) sample_runtime in
    c.1 = Ok (outcome_success 3) ∧ rt_pending_fork_exec c.2 !! 3 = Some 1 ∧ rt_pending_fork_exec c.2 !! 2 = None) by (by vm_compute).
  revert H Hc. destruct (dispatch_task _ _ _ _ _) as [r s']. simpl. intros H (-> & P3 & P2). auto.
Defined.

(** The forked child, which has no memory of its own yet, executes /e.  The name, the argument x
    and the environment y are in its parent's page. *)
Definition exec_strings : list Z :=
  [0x2f; 0x65; 0; 0; 0x78; 0; 0x79; 0] ++ zero_vec 8 ++ le_bytes 8 0x700004 ++ zero_vec 8 ++ le_bytes 8 0x700006 ++ zero_vec 8.

Definition exec_world : World := (GuestMemoryOps.write 0x700000 exec_strings page_world).2.

Lemma exec_world_wf : world_wf exec_world.
Proof.
  assert (H : (GuestMemoryOps.write 0x700000 exec_strings page_world).1 = Ok tt) by (vm_compute; reflexivity).
  destruct (write_bytes_stored page_world 0x700000 exec_strings exec_world page_world_wf ltac:(done)) as [Hwf _]; [|exact Hwf].
  rewrite <- H. apply surjective_pairing.
Qed.

Definition exec_vfs : Vfs :=
  VfsTheorems.run_calls [CallOpenat AT_FDCWD "/e" rw_create 0x1ff; CallWrite 3 sample_elf; CallClose 3] new_vfs.

Definition exec_runtime : SampleRuntime :=
  {| rt_tasks := kernel_forked; rt_memory := ∅; rt_pending_fork_exec := {[ 2 := 1 ]}; rt_selected_memory_pid := 1;
     rt_fds := {[ 2 := fw_table first_fds ]}; rt_selected_fds_pid := 1;
     rt_files := {| rf_vfs := exec_vfs; rf_memory := exec_world; rf_sockets := sample_net |};
     rt_native := sample_native; rt_events := sample_events |}.

Definition exec_request : SyscallRequest :=
  {| rq_context := {| tc_pid := 2; tc_tid := 2; tc_rip := 0x400000 |}; rq_number := 59; rq_syscall := SysExecve;
     rq_args := {| arg0 := 0x700000; arg1 := 0x700010; arg2 := 0x700020; arg3 := 0; arg4 := 0; arg5 := 0 |} |}.

Lemma exec_runtime_ok : rt_ok exec_runtime.
Proof.
  split; try (by vm_compute).
  - assert (rt_system exec_runtime = alone exec_world) as ->; [|apply alone_wf, exec_world_wf].
    unfold rt_system, alone. simpl. by rewrite insert_empty.
  - intros c p H. change (({[2 := 1]} : gmap Z Z) !! c = Some p) in H. apply lookup_singleton_Some in H as [<- <-]. unfold rt_system. simpl. rewrite insert_empty.
    split; [by apply lookup_singleton_ne|]. rewrite lookup_singleton_eq. eauto.
  - intros q. unfold memory_for_process. destruct (Z.eqb_spec q (rt_selected_memory_pid exec_runtime)) as [->|_]; [by vm_compute|].
    change (rt_memory exec_runtime !! q) with ((∅ : gmap Z GuestMemory) !! q). rewrite lookup_empty.
    change (rt_pending_fork_exec exec_runtime !! q) with (({[2 := 1]} : gmap Z Z) !! q).
    destruct (decide (q = 2)) as [->|Hq]; [by vm_compute|]. rewrite lookup_singleton_ne by done. by intros [].
Qed.

Lemma execve_replaces_the_memory_witness :
  let (r, s') := dispatch_task false sample_clock 9 exec_request exec_runtime in
  r = Ok (outcome_success 0) ∧ (c_byte <$> process_view s' 2 0x400078) = Some 0x0f ∧
  rt_ok s' ∧ others_kept 2 exec_runtime s' ∧
  ∃ program process, program_of_call 9 exec_request exec_runtime program ∧ load_program program = Ok (p_image process) ∧
    gi_argv (p_image process) = [[0x78]] ∧ gi_envp (p_image process) = [[0x79]] ∧ executed 2 process exec_runtime s'.
Proof.
  assert (Hex : process_exists 2 exec_runtime = true) by (by vm_compute).
  assert (Ht : t_pid <$> k_tasks kernel_forked !! 2 = Some 2) by (by vm_compute).
  assert (Hc : (let (r, s') := dispatch_task false sample_clock 9 exec_request exec_runtime in
    (r, c_byte <$> process_view s' 2 0x400078, (λ p, (gi_argv (p_image p), gi_envp (p_image p))) <$> k_processes (rt_tasks s') !! 2)) =
    (Ok (outcome_success 0), Some 0x0f, Some ([[0x78]], [[0x79]]))) by (vm_compute; reflexivity).
  pose proof (execve_replaces_the_memory sample_clock 9 exec_request exec_runtime
    exec_runtime_ok Hex (reachable_wf _ _ reach_forked) Ht eq_refl) as H.
  revert H Hc. destruct (dispatch_task _ _ _ _ _) as [r s']. intros (Hok & Ho & Hs) [= -> Hb Hp].
  destruct (Hs eq_refl) as (program & process & H1 & H2 & _ & _ & H5).
  split; [reflexivity|]. split; [exact Hb|]. split; [exact Hok|]. split; [exact Ho|].
  exists program, process. pose proof (ex_process _ _ _ _ H5) as Hproc. change (rq_pid exec_request) with 2 in Hproc. rewrite Hproc in Hp. injection Hp as Ha He.
  split; [exact H1|]. split; [exact H2|]. split; [exact Ha|]. split; [exact He|exact H5].
Defined.

(** ** Process 1 maps a window of its file, twice *)
(** An ELF file of 128 bytes, with one segment: 124 bytes in the file and 140 in memory. *)
Definition small_elf : list Z :=
  ELF_MAGIC ++ [2; 1] ++ zero_vec 26 ++ le_bytes 8 64 ++ zero_vec 14 ++ le_bytes 2 56 ++ le_bytes 2 1 ++ zero_vec 6 ++
  le_bytes 4 PT_LOAD ++ zero_vec 4 ++ le_bytes 8 0 ++ zero_vec 16 ++ le_bytes 8 124 ++ le_bytes 8 140 ++ zero_vec 8 ++
  [9; 9; 9; 9; 7; 7; 7; 7].

Definition small_headers : list Elf64ProgramHeaderView :=
  [{| hv_kind := PT_LOAD; hv_offset := 0; hv_file_size := 124; hv_memory_size := 140 |}].

Definition elf_vfs : Vfs := VfsTheorems.run_calls [CallPwrite 3 0 small_elf] VfsTheorems.sample.

Lemma elf_vfs_ok : vfs_ok nobody elf_vfs.
Proof. apply reachable_ok, reachable_calls; [exact sample_reachable|by split]. Qed.

Definition mapping_runtime : SampleRuntime :=
  {| rt_tasks := kernel_forked; rt_memory := ∅; rt_pending_fork_exec := ∅; rt_selected_memory_pid := 1;
     rt_fds := ∅; rt_selected_fds_pid := 1;
     rt_files := {| rf_vfs := elf_vfs; rf_memory := page_world; rf_sockets := sample_net |};
     rt_native := sample_native; rt_events := sample_events |}.

Lemma mapping_runtime_ok : rt_ok mapping_runtime.
Proof.
  split; try (by vm_compute).
  - assert (rt_system mapping_runtime = one_process) as ->; [|apply one_process_wf].
    unfold rt_system, one_process. simpl. by rewrite insert_empty.
  - intros q [m Hm]. unfold memory_for_process in Hm.
    destruct (Z.eqb_spec q (rt_selected_memory_pid mapping_runtime)) as [->|_]; [by vm_compute|].
    change (rt_memory mapping_runtime) with (∅ : gmap Z GuestMemory) in Hm. change (rt_pending_fork_exec mapping_runtime) with (∅ : gmap Z Z) in Hm.
    by rewrite !lookup_empty in Hm.
Qed.

Definition window_args : MmapSyscallArgs :=
  {| mm_addr := 0; mm_length := 128; mm_prot := 1; mm_flags := 2; mm_fd := 3; mm_offset := 0 |}.

Lemma elf_file_open : ∃ e, file_open 3 small_elf elf_vfs e.
Proof.
  destruct (ft_entries (fw_table (v_fds elf_vfs)) !! 3) as [e|] eqn:He; [|by vm_compute in He].
  exists e. pose proof He as E. vm_compute in E. injection E as <-.
  split; [exact He|eexists; split; vm_compute; reflexivity|reflexivity|eexists; split_and!; vm_compute; reflexivity].
Qed.

Lemma window_mapped e : file_open 3 small_elf elf_vfs e →
  maps_file 1 window_args nobody e small_elf small_headers mapping_runtime.
Proof.
  intros He. split.
  - split; [exact mapping_runtime_ok|by vm_compute|]. intros c. simpl. by rewrite lookup_empty.
  - reflexivity.
  - reflexivity.
  - reflexivity.
  - by vm_compute.
  - by vm_compute.
  - by vm_compute.
  - exact elf_vfs_ok.
  - exact He.
  - left. by vm_compute.
  - apply mapping_cache_empty.
Qed.

Definition mapped_once : SampleRuntime := (mmap 1 window_args mapping_runtime).2.
Definition mapped_twice : SampleRuntime := (mmap 1 window_args mapped_once).2.

